(* ===== verification/_CoqProject ===== *)
-Q . S2P
K42.v
Prelude.v
DList.v
HTList.v
ListSimple.v
ListSimpleKey.v
HashSimple.v
RegionList.v
RegionDefault.v
FreeFrameList.v
DispatchHeap.v
CPUDomainAnnex.v
ProcessAnnex.v
CPUDomainRing.v
CPUDomainRings.v
DispatchQueue.v
DispatchInv.v
DispatchSafe.v
DispatchRun.v
DispatchCorrect.v
KernelTimer.v
PageTree.v
PageAllocator.v
PageClient.v
FairBLock.v
RWLock.v
RequestCount.v
IPCTargetTable.v
PageDesc.v
PageHolder.v
PageList.v
PageSet.v
PageSetDense.v
FCMCommon.v
FCMEstablished.v
PathName.v
IORingBuffer.v
IPCRetryManager.v
AtomicBitVec64.v
BlockSet.v
DiskSwap.v
Sem.v
BlockedThreadQueues.v
BitBLock.v
DirBlock.v
LSOBasicDir.v
KFSReaddir.v
FSFileKFS.v
SuperBlock.v
PSOSmall.v
PSOFile.v
PSOTruncate.v
PSORefine.v
LSOBasicFile.v
RecordMap.v
RecordRefine.v
LSOBasicSymlink.v
