(* ===== verification/K42.v ===== *)
(** * Verification of K42: data structures and policies of the kernel and its disk
    file system

    K42 is an operating system kernel in C++ for shared-memory multiprocessors.
    Most of a process's state is kept by objects of its own (an address space,
    file caches, page allocators), which are built from a small set of shared
    containers and locks in lib/libc; the exception level of the kernel
    schedules processes, runs their timers and routes their inter-process
    calls.  This library models those parts from the source, operation by
    operation, and proves what the rest of the system relies on.

    ** The parts, and where they are

    Every source file below is under src/; a definition has the name of the
    function or type it models.

    - K42.v: 64-bit words ([uval], [sval]) with their wrap-around, the page
      macros (lib/libc/sys/macdefs.H, misc/macros.H) and the encoding of
      SysStatus (lib/libc/sys/SysStatus.H).
    - Prelude.v, DList.v, HTList.v: the store of nodes, chains, doubly linked
      lists and lists with a tail pointer, the class [Linked] of node types, the
      loop [walk], the tactics and the hint database.  They model no code.
    - Containers of lib/libc/misc: ListSimple.v (ListSimple.C), ListSimpleKey.v
      (ListSimpleKey.C, with its class [KeyQueue]), HashSimple.v (HashSimple.C),
      AtomicBitVec64.v (AtomicBitVec64.H) and BlockSet.v (BlockSet.C): the free
      blocks of a disk in a bitmap of four levels.
    - Memory.  RegionList.v (os/kernel/mem/RegionList.C): the regions of an
      address space.  RegionDefault.v (RegionDefault.C, lib/libc/cobj/XObjectList.C,
      the rest of RegionList.C): destroying them.  FreeFrameList.v (FreeFrameList.C, .H): free page frames
      linked through themselves.  PageDesc.v (PageDesc.H): page descriptors and
      the free list of candidates for eviction, with the idioms of FCMDefault.C
      that use it; PageList.v, PageSet.v and PageSetDense.v (PageList.C, PageSet.C,
      PageSetDense.C): the three classes that keep the resident pages of a file
      cache, and PageHolder.v: the class [PageHolder] of types that states what
      they promise; FCMCommon.v and FCMEstablished.v (FCMCommon.C, .H,
      PageFaultNotification.C): a file cache's operations on its pages, for any
      [PageHolder].  PageTree.v, PageAllocator.v, PageClient.v
      (lib/libc/alloc/PageAllocatorDefault.C): the page allocator, its tree of
      free blocks, and a client that calls it.  DiskSwap.v
      (os/kernel/bilge/DiskSwap.C): swap space on disk.
    - Exception level of the kernel, os/kernel/exception.  DispatchHeap.v
      (DispatchQueue.C): the priority heap.  CPUDomainAnnex.v, CPUDomainRing.v
      (CPUDomainAnnex.C): priorities and the ring of runnable processes.
      ProcessAnnex.v (ProcessAnnex.H): the scheduling state of a process.
      DispatchQueue.v (DispatchQueue.C and .H, CPUDomainAnnex.H, part of
      ProcessAnnex.C and ExceptionLocal.C): the choice of the process that runs,
      which puts these four together.  CPUDomainRings.v, DispatchInv.v,
      DispatchSafe.v, DispatchRun.v and DispatchCorrect.v hold its proofs: the rings
      of all domains in one store, the invariant, each operation, sequences of
      operations, and the theorems.
      KernelTimer.v (KernelTimer.C, arch/powerpc/KernelClock.H): the timer queue.  IPCTargetTable.v
      (IPCTargetTable.C): from communication identifiers to processes.
      IPCRetryManager.v (IPCRetryManager.C and part of ProcessAnnex.C): telling
      refused callers to retry.
    - lib/libc/sync.  FairBLock.v (FairBLock.C): the fair queue lock.  RWLock.v
      (RWLock.H): the reader-writer lock, for any list with the interface
      [KeyQueue] of ListSimpleKey.v.
      RequestCount.v (RequestCount.C, .H): counting the uses of an object, its
      shutdown, stop and restart.  Sem.v (Sem.H): semaphores.
      BlockedThreadQueues.v (BlockedThreadQueues.C): the table of threads that wait
      on an address, with its class [WaitQueue]; BitBLock.v (BLockImp.C, BLockGeneric.C): the
      blocking lock in two bits of a word, for any [WaitQueue].
    - lib/libc/io.  PathName.v (PathName.C): path names as sent to file servers.
      IORingBuffer.v (IORingBuffer.C): the ring of bytes of terminals and pipes.
    - The disk file system, os/servers/kfs.  DirBlock.v (LSOBasicDir.C, .H): one
      block of directory entries, byte by byte.  LSOBasicDir.v (LSOBasicDir.C): a
      directory, an array of such blocks.  KFSReaddir.v: the proof that listing a
      directory with getDents is complete.  FSFileKFS.v (FSFileKFS.C, LSOBasic.C,
      the rest of LSOBasicDir.C, createRootDirectory of SuperBlock.C): the
      operations on names that change several objects, with the link counts.
      SuperBlock.v (SuperBlock.C, .H): formatting, and the bitmap of free blocks of the
      disk.  PSOSmall.v (PSOSmall.C, .H, and what it uses of os-k42/BlockCacheK42.C):
      the trees of blocks of a file; PSOFile.v,
      PSOTruncate.v and PSORefine.v hold their proofs: the map from logical to disk
      blocks, cutting a file, sequences of operations.  LSOBasicFile.v
      (LSOBasicFile.C): cutting a file, with its attributes.  RecordMap.v
      (RecordMap.C, .H): the numbers of objects and their records, kept in a file of
      PSOSmall.v; RecordRefine.v holds its proofs.  LSOBasicSymlink.v
      (LSOBasicSymlink.C, .H): the values of symbolic links.

    How they fit together: DispatchQueue.v orders CPU domains in the heap of
    DispatchHeap.v by the priorities of CPUDomainAnnex.v, and a domain picks a
    process from its ring; KernelTimer.v and IPCRetryManager.v interrupt
    processes, which IPCTargetTable.v finds.  An address space maps a fault to a
    region (RegionList.v), whose file cache (FCMCommon.v) keeps its pages in a
    PageList.v, PageSet.v or PageSetDense.v and gives frames back on a
    FreeFrameList.v.  PageAllocator.v hands out virtual
    ranges to processes and to the kernel.  IPCRetryManager.v uses the CommIDs
    of IPCTargetTable.v; PageClient.v is proved from PageAllocator.v; FCMCommon.v
    is proved from the class [PageHolder] and from FreeFrameList.v; DiskSwap.v
    allocates blocks from BlockSet.v and keeps what it frees in a ListSimpleKey.v.
    The file system is apart from these; FSFileKFS.v is proved from what LSOBasicDir.v
    says of a directory as a map from names to objects, and that from what
    DirBlock.v says of a block as a list of records.  PSOSmall.v takes its blocks from
    SuperBlock.v, and is proved from what that says of the blocks in use; the block
    cache is a map from block numbers to contents, from which a block that is freed is
    taken away and in which a block that is released has to be; RecordMap.v
    takes blocks from both, and is proved from what PSOFile.v and PSOTruncate.v say of a
    file as a map from logical to disk blocks, and LSOBasicSymlink.v from what
    RecordRefine.v says of the record map as a map from numbers to records.

    ** How code is modelled

    Operations are functions on an explicit state.  Where nodes are shared or
    linked by pointers the store is a finite map from addresses to records, and
    an operation is the same sequence of reads and writes as the source; where
    nodes have one owner and no pointer to them escapes, a list of records is
    used instead, and the header of the file says so.  [None] is an access
    outside the store, the array or the buffer, a failed assertion or an
    exhausted loop bound; that it does not happen is part of the theorems.  An
    error status is a returned value.  Where a debug assertion only announces the
    error status that the code then returns, as in PathFromBuf, the status is
    modelled, as in a build without assertions; the assertions met when an object of
    the file system is deleted while it has names are modelled as failures.  Memory given by an allocator is an argument of the operation.
    Locks around sequential operations are a flag ([AutoLock]); FairBLock.v and
    RequestCount.v are step relations in which each shared access of each thread
    is one step; in RWLock.v and BitBLock.v a section under the inner lock is one
    step, and so it is in Sem.v, where the lock has a holder, since P and Z give it up
    to wait and come back without it after an error.  DispatchQueue.v runs with interrupts disabled and is written in a
    state monad whose results are [Ok], [Stuck] and [Overflow], the latter for a
    charge that the priority of a domain cannot hold ([mantissa_never_overflows]
    says when that cannot be); a thread that waits in awaitDispatch continues with the
    values it had read before ([awaitRetry]).  Its proofs use weakest preconditions
    ([wp]).
    Machine integers are [Z] with the wrap-around written at each operation.

    Loop bounds ("fuel").  A walk along a chain gets one more than the number of
    nodes in the store, since a null-terminated chain visits a node once
    ([chain_length]); the scans of the hash table get the table size plus two;
    the searches of the page allocator get the square of the tree size; the
    copying loops of IORingBuffer get four rounds, as only the first can stop at
    the end of the buffer; PathName loops get the length of the path plus two, as
    each round consumes a byte;
    the loop of IPCRetryManager over a 64-bit vector gets 65; cleanHeap gets one
    more than the size of the heap, and the loop over missed pulses their number
    plus one; the search of BlockSet gets 16644, the number of words of its four
    levels; the array of
    PageSetDense gets its length plus one, and the loops over a range of bytes the
    number of its pages plus two; the scan of a directory block gets 4097, more than
    it has bytes, the search of a name one more than the number of blocks, the search
    of the next entry one more than the size of the directory, and getDents one more
    than the length of the buffer; the search of SuperBlock.v gets the number of
    blocks of its map, and free one more; truncate of PSOSmall.v gets 2^42 rounds, as
    three levels of 1024 pointers and a record of 28 need less than 2^36; the search of
    a bit in RecordMap.v gets one more than the bits of a block, and that of a block one
    more than their number.  In each case the
    theorems prove that the operation returns a result, so the bound is enough.

    ** What is proved

    - Refinement of an abstract specification, over arbitrary sequences of
      operations: [hash_refines_map], [list_simple_refines], [ring_refines_queue],
      [heap_refines_queue], [timer_refines], [ipc_table_refines],
      [pageset_refines], [retry_refines], [blockset_refines],
      [btq_refines], [dir_refines_map] (the blocks of a directory are a map from
      names to objects), [disk_blocks_exclusive] (each allocation of a disk block
      gives the lowest free one), [file_blocks_refine] (the trees of a file are a map
      from logical to disk blocks), [records_refine] (the record map is a map from
      numbers to records), and [fairblock_fifo] for interleaved threads.
    - Safety and invariants: [allocations_safe] (ranges handed out never
      overlap, and every page is free, handed out or one of the pages of nodes), [frames_conserved], [dealloc_gives_back] (a
      file cache that frees its pages gives back every frame once and keeps the
      pages in transit), [shutdown_correct] (after a shutdown no request runs, and
      its wake-up is not lost, in every interleaving), [rwlock_correct] (a writer
      is alone, no wake-up is lost), [semaphore_correct], [bitblock_correct],
      [swap_blocks_exclusive] (no block of swap space is used twice),
      [kfs_links_counted] (the link count of every object of the file system is the
      number of entries that name it).
    - The dispatch queue: [dispatch_safe] (no permitted sequence of operations around
      the queue fails an assertion or leaves rings, heap and domains in disagreement),
      [getNext_picks] (the process chosen is of the best domain, or one preempted
      in its class), [await_returns] (how a thread gets its process dispatched),
      [borrowers_cache] (the bounded stack of borrowers).
    - Exact behaviour of single operations, errors included: the attach, detach
      and truncate operations of RegionList.v, preExec in RegionDefault.v, the four operations of
      PageAllocator.v, the ring operations of CPUDomainRing.v, the edits of paths,
      cutting a file ([truncate_file]) and the refinement [pagelist_refines];
      [readdir_complete] (repeated calls of getDents list every entry once).
    - Liveness and termination: [fairblock_no_lost_wakeup], [request_answered]
      (a refused caller is told), [unLockPage_tells_all] (every party that waits
      for a page is told), [deleteRegionsAll_empties] (the loop over the regions of an
      address space ends when nobody else destroys them).
    - Words: [mantissa_never_overflows], [priority_lexicographic]; round trips
      and parsing: [establish_remove_roundtrip], [symlink_roundtrip] (the value of a
      symbolic link is kept, and deleting it gives everything back),
      [path_roundtrip], [create_resolves], [PathFromBuf_exact].
    - The conditions of a theorem are in the comment above it.  The larger ones: a disk
      has from 4096 to 33030144 blocks ([disk_blocks_exclusive]); a file does not lose
      the last pointer of an indirect block except by being cut ([file_blocks_refine]);
      there are fewer than 131072 operations on a record map, with nine free blocks for
      each ([records_refine], [symlink_roundtrip]); asynchronous writes to swap space
      succeed and there is one device ([swap_blocks_exclusive]); P takes one unit, and
      wakeup is used with callers that do not release the lock after an error
      ([semaphore_correct]).  Where the code goes
      wrong outside them, a lemma named next shows it.
    - Behaviour that departs from what a comment or the other operations
      intend, proved on concrete inputs: the lemmas [getUPath_overflows],
      [tail_not_maintained], [getNextWithRW_out_of_bounds], [truncate_wraps],
      [request_max_cycles], [allocPages_not_lowest], [appendComp_overlong],
      [create_dotdot_fault], [create_hidden_lost], [remove_forgets_deferred],
      [dense_init_junk], [remove_unmapped_stuck], [getDelim_misses_delimiter],
      [reserve_after_lap_stuck], and for concurrent shutdowns
      [second_shutdown_waits_forever], [shutdown_returns_zero_early],
      [stop_returns_early]; for swap space [two_devices_clash], [failed_write_clash],
      [swapActive_empty], [partial_set_kept]; for semaphores [counts_lose_wakeup],
      [tryP_forgets_Z], [error_releases_lock]; for the page allocator
      [dealloc_loses_node]; for priorities [adjustPriority_long_idle]; for the
      destruction of regions [deleteRegionsAll_spins]; for the dispatch queue [terminated_still_preempted],
      [setPriorityClass_leaks_weight], [setWeight_leaks_weight],
      [setPriorityClass_dispatched], [kernel_domain_shared] and
      [unrunnable_stats_uninitialised]; for the file system [rename_to_itself],
      [moved_directory_keeps_parent], [replaced_directory_leaks],
      [directory_over_file_miscounts], [mkdir_existing], [rmdir_missing],
      [link_never_multi], [free_straddles], [free_past_disk],
      [small_disk_refused], [large_disk_overruns], [delete_linked_asserts],
      [free_last_asserts], [truncate_indirect_frees_kept],
      [truncate_buffers_overflow], [free_loses_record],
      [full_map_out_of_bounds], [readlink_overflows] and [medium_links_refused].

    ** Not modelled

    The fault paths, the I/O and the destruction of the file cache managers, regions
    but for their destruction, the
    hardware mappings they ask for (a list of effects), clustered objects and
    their hot swapping (they depend on virtual tables and per-processor memory
    mappings), the user-level scheduler with its assembler, the servers and file
    systems other than KFS, and of KFS the block cache itself (its reading and writing
    of blocks), drivers, boot, Linux emulation, tracing and
    tools.  Of the parts modelled, printing, tracing and debugging aids are left out.

    What is left of the code that could be modelled in the same way: the barrier and
    the other locks, the pools of the object allocator, the modified-page tracking of
    FCMCommon, the queues and write-back of the block cache of KFS, the timers of the
    user-level scheduler. *)

From stdpp Require Import base numbers list.
From Stdlib Require Import ZArith Lia.

#[global] Open Scope Z_scope.

(** ** Machine words

    [uval], [uval64] and [SysTime] are unsigned 64-bit integers, [sval] is the
    signed one.  Both are modelled by [Z]; the wrap-around of the C operators
    is written out with [uwrap] and [swrap] at every place where the source
    may overflow. *)

Definition WORD : Z := 2 ^ 64.

Definition uwrap (x : Z) : Z := x mod 2 ^ 64.
Definition swrap (x : Z) : Z := (x + 2 ^ 63) mod 2 ^ 64 - 2 ^ 63.

Definition uadd (x y : Z) : Z := uwrap (x + y).
Definition usub (x y : Z) : Z := uwrap (x - y).
Definition umul (x y : Z) : Z := uwrap (x * y).
Definition ushl (x n : Z) : Z := uwrap (Z.shiftl x n).
Definition unot (x : Z) : Z := 2 ^ 64 - 1 - x.

(** [uval(-1)], the all-ones word. *)
Definition UMAX : Z := 2 ^ 64 - 1.

(** A value that fits an unsigned word. *)
Definition is_uval (x : Z) : Prop := 0 <= x < 2 ^ 64.

#[export] Instance is_uval_dec x : Decision (is_uval x).
Proof. unfold is_uval. apply _. Defined.

(** ** Page geometry, [lib/libc/sys/macdefs.H] *)

Definition LOG_PAGE_SIZE : Z := 12.
Definition PAGE_SIZE : Z := 4096.
Definition PAGE_MASK : Z := 4095.
Definition MIN_PAGE_MASK : Z := 4095.
Definition DFLT_ALIGNMENT : Z := PAGE_SIZE.

(** ALIGN_UP(addr,align) = (addr + (align-1)) & ~(align-1) *)
Definition ALIGN_UP (addr align : Z) : Z :=
  Z.land (uadd addr (usub align 1)) (unot (usub align 1)).

(** PAGE_ROUND_UP(x) = (x - 1 + PAGE_SIZE) & ~PAGE_MASK *)
Definition PAGE_ROUND_UP (x : Z) : Z :=
  Z.land (uadd (usub x 1) PAGE_SIZE) (unot PAGE_MASK).

(** ** Status codes, [lib/libc/sys/SysStatus.H] *)

Definition _SYSSTAT_FLAG : Z := - 2 ^ 63.

Definition _SERROR (ec cc gc : Z) : Z :=
  Z.lor (Z.lor (Z.lor _SYSSTAT_FLAG (Z.shiftl ec 16)) (Z.shiftl cc 8)) gc.

Definition _SUCCESS (ss : Z) : bool := 0 <=? ss.
Definition _FAILURE (ss : Z) : bool := ss <? 0.

Definition _SERRCD (i : Z) : Z := Z.land (Z.shiftr i 16) 16777215.
Definition _SCLSCD (i : Z) : Z := Z.land (Z.shiftr i 8) 255.
Definition _SGENCD (i : Z) : Z := Z.land i 255.

(** The generic codes used below ([sys/errno.h]). *)
Definition ENOENT : Z := 2.
Definition ENOMEM : Z := 12.
Definition EINVAL : Z := 22.

(** ** Lemmas on words *)

Lemma uwrap_small x : is_uval x -> uwrap x = x.
Proof. intros H. apply Z.mod_small. exact H. Qed.

Lemma uwrap_range x : is_uval (uwrap x).
Proof. apply Z.mod_pos_bound. lia. Qed.

Lemma uadd_small x y : 0 <= x + y < 2 ^ 64 -> uadd x y = x + y.
Proof. apply uwrap_small. Qed.

Lemma usub_small x y : 0 <= x - y < 2 ^ 64 -> usub x y = x - y.
Proof. apply uwrap_small. Qed.

Lemma umul_small x y : 0 <= x * y < 2 ^ 64 -> umul x y = x * y.
Proof. apply uwrap_small. Qed.

Lemma uadd_range x y : is_uval (uadd x y).
Proof. apply uwrap_range. Qed.

Lemma usub_range x y : is_uval (usub x y).
Proof. apply uwrap_range. Qed.

Lemma swrap_small x : - 2 ^ 63 <= x < 2 ^ 63 -> swrap x = x.
Proof. intros H. unfold swrap. rewrite Z.mod_small; lia. Qed.

(** [x & ~(2^k - 1)] clears the low [k] bits. *)
Lemma land_unot_mask x k :
  0 <= k <= 64 -> is_uval x ->
  Z.land x (unot (2 ^ k - 1)) = x - x mod 2 ^ k.
Proof.
  intros Hk [Hx0 Hx]. unfold unot.
  replace (2 ^ 64 - 1 - (2 ^ k - 1)) with (Z.ones 64 - Z.ones k)
    by (rewrite !Z.ones_equiv; lia).
  rewrite Z.sub_nocarry_ldiff.
  2:{ apply Z.bits_inj'. intros n Hn.
      rewrite Z.ldiff_spec, Z.bits_0, !Z.testbit_ones by lia.
      destruct (Z.ltb_spec n 64), (Z.ltb_spec n k), (Z.leb_spec 0 n);
        simpl; try done; lia. }
  apply Z.bits_inj'. intros n Hn.
  replace (x - x mod 2 ^ k) with (Z.ldiff x (Z.ones k)).
  2:{ rewrite <- Z.land_ones by lia.
      rewrite Z.sub_nocarry_ldiff.
      - apply Z.bits_inj'. intros m Hm.
        rewrite !Z.ldiff_spec, Z.land_spec.
        destruct (Z.testbit x m), (Z.testbit (Z.ones k) m); done.
      - apply Z.bits_inj'. intros m Hm.
        rewrite Z.ldiff_spec, Z.land_spec, Z.bits_0.
        destruct (Z.testbit x m), (Z.testbit (Z.ones k) m); done. }
  rewrite Z.land_spec, !Z.ldiff_spec, (Z.testbit_ones 64) by lia.
  destruct (Z.ltb_spec n 64) as [|Hge].
  - destruct (Z.leb_spec 0 n); [|lia]. simpl.
    destruct (Z.testbit x n), (Z.testbit (Z.ones k) n); done.
  - rewrite andb_false_r. simpl.
    replace (Z.testbit x n) with false; [done|].
    symmetry. destruct (decide (x = 0)) as [->|]; [apply Z.bits_0|].
    apply Z.bits_above_log2; [lia|].
    apply Z.log2_lt_pow2; [lia|].
    apply Z.lt_le_trans with (2 ^ 64); [lia|].
    apply Z.pow_le_mono_r; lia.
Qed.

Lemma align_up_spec addr k :
  0 <= k < 64 -> 0 <= addr -> addr + (2 ^ k - 1) < 2 ^ 64 ->
  ALIGN_UP addr (2 ^ k) = addr + (2 ^ k - 1) - (addr + (2 ^ k - 1)) mod 2 ^ k.
Proof.
  intros Hk Ha Hlt.
  assert (1 <= 2 ^ k < 2 ^ 64).
  { split; [apply (Z.pow_le_mono_r 2 0 k); lia | apply Z.pow_lt_mono_r; lia]. }
  unfold ALIGN_UP.
  rewrite (usub_small (2 ^ k) 1), (uadd_small addr) by lia.
  apply land_unot_mask; unfold is_uval; lia.
Qed.

(** [ALIGN_UP] returns the least multiple of the alignment not below [addr]. *)
Lemma align_up_bounds addr k :
  0 <= k < 64 -> 0 <= addr -> addr + (2 ^ k - 1) < 2 ^ 64 ->
  let r := ALIGN_UP addr (2 ^ k) in
  addr <= r < addr + 2 ^ k /\ r mod 2 ^ k = 0.
Proof.
  intros Hk Ha Hlt. cbv zeta. rewrite align_up_spec by done.
  assert (0 < 2 ^ k) by (apply Z.pow_pos_nonneg; lia).
  pose proof (Z.mod_pos_bound (addr + (2 ^ k - 1)) (2 ^ k)).
  split; [lia|].
  rewrite Zminus_mod_idemp_r, Z.sub_diag. done.
Qed.

Lemma page_round_up_spec x :
  0 < x -> x + 4095 < 2 ^ 64 ->
  PAGE_ROUND_UP x = x + 4095 - (x + 4095) mod 4096.
Proof.
  intros H0 H1. unfold PAGE_ROUND_UP, PAGE_SIZE, PAGE_MASK.
  rewrite (usub_small x 1), uadd_small by lia.
  replace (x - 1 + 4096) with (x + 4095) by lia.
  apply (land_unot_mask (x + 4095) 12); unfold is_uval; lia.
Qed.

Lemma page_round_up_id x :
  0 <= x -> x + 4095 < 2 ^ 64 -> x mod 4096 = 0 -> PAGE_ROUND_UP x = x.
Proof.
  intros H0 H1 Hm. destruct (decide (x = 0)) as [->|]; [reflexivity|].
  rewrite page_round_up_spec by lia.
  replace ((x + 4095) mod 4096) with 4095; [lia|].
  rewrite Z.add_mod, Hm by lia. reflexivity.
Qed.

Lemma testbit_bounded x k n : 0 <= x < 2 ^ k -> 0 <= k <= n -> Z.testbit x n = false.
Proof.
  intros Hx Hk. destruct (decide (x = 0)) as [->|]; [apply Z.bits_0|].
  apply Z.bits_above_log2; [lia|].
  apply Z.log2_lt_pow2; [lia|].
  apply Z.lt_le_trans with (2 ^ k); [lia|]. apply Z.pow_le_mono_r; lia.
Qed.

(** A word is known by its bits: none at 64 or above. *)
Lemma is_uval_bits x : is_uval x <-> 0 <= x /\ forall j, 64 <= j -> Z.testbit x j = false.
Proof.
  unfold is_uval. split.
  - intros Hx. split; [lia|]. intros j Hj. destruct (Z.eq_dec x 0) as [->|]; [apply Z.bits_0|].
    apply Z.bits_above_log2; [lia|]. pose proof (proj1 (Z.log2_lt_pow2 x 64 ltac:(lia)) ltac:(lia)). lia.
  - intros [H0 Hb]. split; [done|]. destruct (Z.eq_dec x 0) as [->|]; [done|].
    apply Z.log2_lt_pow2; [lia|]. destruct (Z_lt_le_dec (Z.log2 x) 64) as [|Hge]; [done|].
    specialize (Hb _ Hge). by rewrite Z.bit_log2 in Hb by lia.
Qed.

Lemma lor_uval x y : is_uval x -> is_uval y -> is_uval (Z.lor x y).
Proof.
  rewrite !is_uval_bits. intros [Hx Bx] [Hy By]. split; [apply Z.lor_nonneg; lia|].
  intros j Hj. by rewrite Z.lor_spec, Bx, By.
Qed.

Lemma ldiff_uval x y : is_uval x -> is_uval (Z.ldiff x y).
Proof.
  rewrite !is_uval_bits. intros [Hx Bx]. split; [apply Z.ldiff_nonneg; lia|].
  intros j Hj. by rewrite Z.ldiff_spec, Bx.
Qed.

(** [1 << i] has the one bit [i]. *)
Lemma ushl1_bits i j : 0 <= i < 64 -> Z.testbit (ushl 1 i) j = (j =? i).
Proof.
  intros Hi. unfold ushl, uwrap. rewrite Z.shiftl_1_l, Z.mod_small.
  2:{ split; [apply Z.pow_nonneg; lia|apply Z.pow_lt_mono_r; lia]. }
  destruct (Z.eqb_spec j i) as [->|Hne]; [apply Z.pow2_bits_true; lia|]. apply Z.pow2_bits_false; lia.
Qed.

(** ** Masks that need not be of the form 2^k - 1 *)

Lemma land_ldiff_split x m : x = Z.ldiff x m + Z.land x m.
Proof.
  rewrite Z.add_nocarry_lxor.
  - apply Z.bits_inj'. intros n Hn. rewrite Z.lxor_spec, Z.ldiff_spec, Z.land_spec.
    by destruct (Z.testbit x n), (Z.testbit m n).
  - apply Z.bits_inj'. intros n Hn. rewrite !Z.land_spec, Z.ldiff_spec, Z.bits_0.
    by destruct (Z.testbit x n), (Z.testbit m n).
Qed.

Lemma land_le_mask x m : 0 <= m -> 0 <= Z.land x m <= m.
Proof.
  intros Hm. split; [apply Z.land_nonneg; by right|].
  pose proof (land_ldiff_split m x) as H. rewrite Z.land_comm in H.
  pose proof (proj2 (Z.ldiff_nonneg m x) (or_introl Hm)). lia.
Qed.

Lemma land_unot x m : is_uval x -> is_uval m -> Z.land x (unot m) = Z.ldiff x m.
Proof.
  intros [Hx0 Hx] [Hm0 Hm]. apply Z.bits_inj'. intros n Hn.
  rewrite Z.ldiff_spec, Z.land_spec. unfold unot.
  replace (2 ^ 64 - 1 - m) with (Z.ones 64 - m) by (rewrite Z.ones_equiv; lia).
  rewrite (Z.sub_nocarry_ldiff (Z.ones 64) m).
  - rewrite Z.ldiff_spec, Z.testbit_ones by lia.
    destruct (Z.leb_spec 0 n); [|lia]. destruct (Z.ltb_spec n 64); [done|].
    rewrite (testbit_bounded x 64) by lia. done.
  - apply Z.bits_inj'. intros k Hk. rewrite Z.ldiff_spec, Z.bits_0, Z.testbit_ones by lia.
    destruct (Z.leb_spec 0 k); [|lia]. destruct (Z.ltb_spec k 64); simpl; [apply andb_false_r|].
    rewrite (testbit_bounded m 64) by lia. done.
Qed.

(** [ALIGN_UP] is not below its argument for any alignment, power of two or not. *)
Lemma align_up_ge x al :
  0 <= x -> 0 < al -> x + al <= 2 ^ 64 -> x <= ALIGN_UP x al <= x + al - 1.
Proof.
  intros Hx Ha Hb. unfold ALIGN_UP. rewrite (usub_small al 1), uadd_small by lia.
  rewrite land_unot by (unfold is_uval; lia).
  pose proof (land_ldiff_split (x + (al - 1)) (al - 1)).
  pose proof (land_le_mask (x + (al - 1)) (al - 1)). lia.
Qed.

(** ** Status code lemmas *)

Lemma serror_testbit ec cc gc n :
  0 <= n ->
  Z.testbit (_SERROR ec cc gc) n =
  (63 <=? n) || Z.testbit ec (n - 16) || Z.testbit cc (n - 8) || Z.testbit gc n.
Proof.
  intros Hn. unfold _SERROR, _SYSSTAT_FLAG.
  rewrite !Z.lor_spec, !Z.shiftl_spec by done.
  f_equal. f_equal. f_equal.
  replace (- 2 ^ 63) with (Z.lnot (Z.ones 63)) by done.
  rewrite Z.lnot_spec, Z.testbit_ones by lia.
  destruct (Z.ltb_spec n 63), (Z.leb_spec 63 n), (Z.leb_spec 0 n); try done; lia.
Qed.

(** A mask of [k] low bits after a shift reads one field. *)
Lemma field_bits i s k x :
  0 <= s -> 0 <= k -> 0 <= x < 2 ^ k ->
  (forall n, 0 <= n < k -> Z.testbit i (n + s) = Z.testbit x n) ->
  Z.land (Z.shiftr i s) (Z.ones k) = x.
Proof.
  intros Hs Hk Hx Hb. apply Z.bits_inj'. intros n Hn.
  rewrite Z.land_spec, Z.shiftr_spec, Z.testbit_ones by lia.
  destruct (Z.leb_spec 0 n); [|lia].
  destruct (Z.ltb_spec n k); simpl.
  - rewrite andb_true_r. apply Hb. lia.
  - rewrite andb_false_r. symmetry. apply (testbit_bounded x k); lia.
Qed.

(** Encode/decode round trip of the three fields of an error status, and the
    sign bit that marks a failure.  The error number is "a unique 15 bit
    number" (SysStatus.H). *)
Lemma serror_roundtrip ec cc gc :
  0 <= ec < 2 ^ 15 -> 0 <= cc < 2 ^ 8 -> 0 <= gc < 2 ^ 8 ->
  _SERRCD (_SERROR ec cc gc) = ec /\
  _SCLSCD (_SERROR ec cc gc) = cc /\
  _SGENCD (_SERROR ec cc gc) = gc /\
  _FAILURE (_SERROR ec cc gc) = true /\
  _SUCCESS (_SERROR ec cc gc) = false.
Proof.
  intros He Hc Hg.
  assert (Hneg : _SERROR ec cc gc < 0).
  { unfold _SERROR. rewrite !Z.lor_neg. left; left; left. done. }
  split_and!.
  - unfold _SERRCD. change 16777215 with (Z.ones 24).
    apply field_bits; [lia..|]. intros n Hn.
    rewrite serror_testbit by lia. replace (n + 16 - 16) with n by lia.
    rewrite (testbit_bounded cc 8), (testbit_bounded gc 8) by lia.
    destruct (Z.leb_spec 63 (n + 16)); [lia|].
    by rewrite !orb_false_r.
  - unfold _SCLSCD. change 255 with (Z.ones 8).
    apply field_bits; [lia..|]. intros n Hn.
    rewrite serror_testbit by lia. replace (n + 8 - 8) with n by lia.
    rewrite (Z.testbit_neg_r ec), (testbit_bounded gc 8) by lia.
    destruct (Z.leb_spec 63 (n + 8)); [lia|].
    by rewrite orb_false_r.
  - unfold _SGENCD. rewrite <- (Z.shiftr_0_r (_SERROR ec cc gc)).
    change 255 with (Z.ones 8).
    apply field_bits; [lia..|]. intros n Hn.
    rewrite serror_testbit by lia. replace (n + 0) with n by lia.
    rewrite (Z.testbit_neg_r ec), (Z.testbit_neg_r cc) by lia.
    destruct (Z.leb_spec 63 n); [lia|]. done.
  - unfold _FAILURE. by apply Z.ltb_lt.
  - unfold _SUCCESS. apply Z.leb_gt. lia.
Qed.
