(* ===== verification/Prelude.v ===== *)
(** * Prelude: linked structures in a store, loops with fuel, automation

    The C++ containers of K42 are linked nodes reached through pointers.  A
    store is a finite map [gmap Z N] from addresses to nodes; the null pointer
    is address 0.  An operation that dereferences an unmapped address, fails an
    assertion or exhausts its loop bound returns [None]; the theorems of the
    component files prove that this never happens from a well-formed state.

    This file holds what the components share: singly linked chains
    ([chain]), doubly linked lists ([dll]), the list-walking loop [walk] with
    its specification, and the tactics. *)

From stdpp Require Import base numbers option gmap list.
From S2P Require Import K42.

Create HintDb k42.
Create Rewrite HintDb k42.

(** The null pointer. *)
Abbreviation NULL := 0%Z (only parsing).

(** [tassert]/[passert]: the run is stuck when the condition fails. *)
Definition assertK (b : bool) : option unit := if b then Some tt else None.

Lemma assertK_inv b u : assertK b = Some u -> b = true.
Proof. by destruct b. Qed.

Lemma assertK_true b : b = true -> assertK b = Some tt.
Proof. by intros ->. Qed.

(** [AutoLock<BLock> al(&lock)]: the lock is taken on entry and released on
    return.  The flag says whether it is held; a caller that finds it held
    would wait, so a sequential run cannot continue from there. *)
Definition AutoLock {S A} (f : S -> option (A * S)) (s : S * bool) : option (A * (S * bool)) :=
  _ ← assertK (negb s.2);
  '(r, s') ← f s.1;
  Some (r, (s', false)).

Lemma AutoLock_free {S A} (f : S -> option (A * S)) s r s' :
  f s = Some (r, s') -> AutoLock f (s, false) = Some (r, (s', false)).
Proof. intros H. unfold AutoLock. simpl. by rewrite H. Qed.

(** ** Automation *)

(** Turn boolean comparisons into propositions. *)
Ltac bool_props :=
  repeat match goal with
  | H : (_ =? _) = true |- _ => apply Z.eqb_eq in H
  | H : (_ =? _) = false |- _ => apply Z.eqb_neq in H
  | H : (_ <? _) = true |- _ => apply Z.ltb_lt in H
  | H : (_ <? _) = false |- _ => apply Z.ltb_ge in H
  | H : (_ <=? _) = true |- _ => apply Z.leb_le in H
  | H : (_ <=? _) = false |- _ => apply Z.leb_gt in H
  | H : _ && _ = true |- _ => apply andb_true_iff in H as [? ?]
  | H : _ || _ = false |- _ => apply orb_false_iff in H as [? ?]
  | H : negb _ = true |- _ => apply negb_true_iff in H
  | H : negb _ = false |- _ => apply negb_false_iff in H
  end.

(** Decide the comparison a [match] or [if] of the goal is stuck on. *)
Ltac zcase :=
  match goal with
  | |- context [?x =? ?y] => destruct (Z.eqb_spec x y)
  | |- context [?x <? ?y] => destruct (Z.ltb_spec x y)
  | |- context [?x <=? ?y] => destruct (Z.leb_spec x y)
  end.

Ltac zsolve := bool_props; simplify_eq/=; try done; try lia.

(** ** Lists *)

Section lists.
Context {A : Type}.
Implicit Types l : list A.

(** The longest prefix on which [P] fails, and the rest. *)
Fixpoint span_until (P : A -> bool) l : list A * list A :=
  match l with
  | [] => ([], [])
  | x :: l' => if P x then ([], l) else let '(a, b) := span_until P l' in (x :: a, b)
  end.

Lemma span_until_app P l l1 l2 : span_until P l = (l1, l2) -> l = l1 ++ l2.
Proof.
  revert l1 l2. induction l as [|x l IH]; simpl; intros l1 l2 H.
  - by simplify_eq.
  - destruct (P x); [by simplify_eq|].
    destruct (span_until P l) as [a b]. simplify_eq/=. f_equal. by apply IH.
Qed.

Lemma span_until_fail P l l1 l2 :
  span_until P l = (l1, l2) -> Forall (fun x => P x = false) l1.
Proof.
  revert l1 l2. induction l as [|x l IH]; simpl; intros l1 l2 H.
  - by simplify_eq.
  - destruct (P x) eqn:?; [by simplify_eq|].
    destruct (span_until P l) as [a b]. simplify_eq/=. constructor; [done|by eapply IH].
Qed.

Lemma span_until_head P l l1 x l2 : span_until P l = (l1, x :: l2) -> P x = true.
Proof.
  revert l1. induction l as [|y l IH]; simpl; intros l1 H; [by simplify_eq|].
  destruct (P y) eqn:?; [by simplify_eq|].
  destruct (span_until P l) as [a b]. simplify_eq/=. by eapply IH.
Qed.

Lemma span_until_none P l l1 :
  span_until P l = (l1, []) -> l1 = l /\ Forall (fun x => P x = false) l.
Proof.
  intros H. pose proof (span_until_app _ _ _ _ H) as ->.
  rewrite app_nil_r. split; [done|]. by eapply span_until_fail.
Qed.

Lemma span_until_intro P l1 l2 :
  Forall (fun x => P x = false) l1 ->
  match l2 with [] => True | x :: _ => P x = true end ->
  span_until P (l1 ++ l2) = (l1, l2).
Proof.
  intros H1 H2. induction H1 as [|x l1 Hx H1 IH]; simpl.
  - destruct l2 as [|y l2]; simpl; [done|]. by rewrite H2.
  - by rewrite Hx, IH.
Qed.

Lemma span_until_ext P Q l :
  (forall x, x ∈ l -> P x = Q x) -> span_until P l = span_until Q l.
Proof.
  induction l as [|x l IH]; simpl; intros H; [done|].
  rewrite (H x) by set_solver. destruct (Q x); [done|].
  by rewrite IH by set_solver.
Qed.

End lists.

(** Removing the first element that satisfies [P]. *)
Definition remove_first {A} (P : A -> bool) (l : list A) : list A :=
  let '(a, b) := span_until P l in a ++ tail b.

(** The first element that satisfies [P]. *)
Definition find_first {A} (P : A -> bool) (l : list A) : option A :=
  head (snd (span_until P l)).

#[global] Arguments remove_first : simpl never.
#[global] Arguments find_first : simpl never.

Lemma find_first_elem {A} (P : A -> bool) l x :
  find_first P l = Some x -> x ∈ l /\ P x = true.
Proof.
  unfold find_first. destruct (span_until P l) as [l1 l2] eqn:E. simpl.
  destruct l2 as [|y l2]; simpl; intros ?; simplify_eq.
  split; [|by eapply span_until_head].
  apply span_until_app in E as ->. set_solver.
Qed.

Lemma find_first_None {A} (P : A -> bool) l :
  find_first P l = None <-> Forall (fun x => P x = false) l.
Proof.
  unfold find_first. destruct (span_until P l) as [l1 l2] eqn:E. simpl. split.
  - destruct l2; [|done]. intros _. by eapply span_until_none.
  - intros H. destruct l2 as [|x l2]; [done|].
    pose proof (span_until_head _ _ _ _ _ E) as Hx.
    apply span_until_app in E as ->. apply Forall_app in H as [_ H].
    inversion H; congruence.
Qed.

Lemma find_first_cons {A} (P : A -> bool) x l :
  find_first P (x :: l) = if P x then Some x else find_first P l.
Proof.
  unfold find_first. simpl. destruct (P x); [done|].
  by destruct (span_until P l).
Qed.

Lemma remove_first_cons {A} (P : A -> bool) x l :
  remove_first P (x :: l) = if P x then l else x :: remove_first P l.
Proof.
  unfold remove_first. simpl. destruct (P x); [done|].
  by destruct (span_until P l).
Qed.

Lemma remove_first_none {A} (P : A -> bool) l :
  Forall (fun x => P x = false) l -> remove_first P l = l.
Proof.
  induction 1 as [|x l Hx _ IH]; [done|]. by rewrite remove_first_cons, Hx, IH.
Qed.

(** ** Singly linked chains *)

(** A node type with a [next] pointer.  [payload] is what the abstract list
    keeps of a node; changing the link does not change it. *)
Class Linked (N D : Type) := {
  next : N -> Z;
  set_next : Z -> N -> N;
  payload : N -> D;
  next_set_next : forall p n, next (set_next p n) = p;
  payload_set_next : forall p n, payload (set_next p n) = payload n;
}.

#[global] Arguments next {N D _} _ : simpl never.
#[global] Arguments set_next {N D _} _ _ : simpl never.
#[global] Arguments payload {N D _} _ : simpl never.

Section chains.
Context {N D : Type} `{!Linked N D}.
Implicit Types (h : gmap Z N) (l : list (Z * D)).

(** [chain h p l q]: following [next] from [p] visits the nodes of [l], at
    their addresses and with their payloads, and then reaches [q]. *)
Fixpoint chain h (p : Z) l (q : Z) : Prop :=
  match l with
  | [] => p = q
  | (a, d) :: l' =>
      p = a /\ a <> NULL /\
      exists n, h !! a = Some n /\ payload n = d /\ chain h (next n) l' q
  end.

Lemma chain_app h p l1 l2 q :
  chain h p (l1 ++ l2) q <-> exists m, chain h p l1 m /\ chain h m l2 q.
Proof.
  revert p. induction l1 as [|[a d] l1 IH]; simpl; intros p.
  - split; [by eauto | by intros (? & -> & ?)].
  - split.
    + intros (-> & Ha & n & Hn & Hd & Hc). apply IH in Hc as (m & ? & ?). eauto 10.
    + intros (m & (-> & Ha & n & Hn & Hd & Hc) & Hm).
      split_and!; [done..|]. exists n. split_and!; [done..|]. apply IH. eauto.
Qed.

Lemma chain_snoc h p l a d n q :
  chain h p l a -> a <> NULL -> h !! a = Some n -> payload n = d -> next n = q ->
  chain h p (l ++ [(a, d)]) q.
Proof.
  intros Hc Ha Hn Hd Hq. apply chain_app. exists a. split; [done|].
  simpl. eauto 10.
Qed.

Lemma chain_elem h p l q a d :
  chain h p l q -> (a, d) ∈ l -> a <> NULL /\ exists n, h !! a = Some n /\ payload n = d.
Proof.
  revert p. induction l as [|[b e] l IH]; simpl; intros p Hc Hin; [set_solver|].
  destruct Hc as (-> & Ha & n & Hn & Hd & Hc).
  apply elem_of_cons in Hin as [Heq|Hin]; [simplify_eq; eauto | eauto].
Qed.

Lemma chain_null h p l : chain h p l NULL -> p = NULL <-> l = [].
Proof.
  destruct l as [|[a d] l]; simpl; [done|].
  intros (-> & Ha & _). split; [done|congruence].
Qed.

Lemma chain_head h p l : chain h p l NULL -> p = default NULL (fst <$> head l).
Proof. destruct l as [|[a d] l]; simpl; [done | by intros (-> & _)]. Qed.

(** Chains to null from the same pointer are the same chain. *)
Lemma chain_functional h p l1 l2 :
  chain h p l1 NULL -> chain h p l2 NULL -> l1 = l2.
Proof.
  revert p l2. induction l1 as [|[a d] l1 IH]; intros p l2 H1 H2.
  - symmetry. by apply (chain_null h p l2).
  - destruct H1 as (-> & Ha & n & Hn & Hd & H1).
    destruct l2 as [|[b e] l2]; simpl in H2; [congruence|].
    destruct H2 as (-> & _ & n' & Hn' & He & H2). simplify_eq.
    f_equal. by eapply IH.
Qed.

(** A null-terminated chain has no cycle. *)
Lemma chain_nodup h p l : chain h p l NULL -> NoDup l.*1.
Proof.
  revert p. induction l as [|[a d] l IH]; simpl; intros p Hc; [constructor|].
  pose proof Hc as Hfull.
  destruct Hc as (-> & Ha & n & Hn & Hd & Hc). constructor; [|by eapply IH].
  rewrite list_elem_of_fmap. intros ([b e] & Hb & Hin). simpl in Hb. subst b.
  apply list_elem_of_split in Hin as (l1 & l2 & ->).
  apply chain_app in Hc as (m & _ & Hm).
  pose proof Hm as Hm'. destruct Hm' as (-> & _).
  assert (Heq : (a, e) :: l2 = (a, d) :: l1 ++ (a, e) :: l2).
  { eapply (chain_functional h a); [done|].
    split_and!; [done..|]. exists n. split_and!; [done..|].
    apply chain_app. exists a. split; [|done].
    destruct Hfull as (_ & _ & n' & Hn' & _ & Hc'). simplify_eq.
    apply chain_app in Hc' as (m & ? & Hm2). by destruct Hm2 as (-> & _). }
  apply (f_equal length) in Heq. revert Heq. simpl. rewrite length_app. simpl. lia.
Qed.

Lemma chain_insert_ne h p l q a n :
  a ∉ l.*1 -> chain h p l q -> chain (<[a := n]> h) p l q.
Proof.
  revert p. induction l as [|[b e] l IH]; simpl; intros p Hnin Hc; [done|].
  apply not_elem_of_cons in Hnin as [Hne Hnin].
  destruct Hc as (-> & Hb & n' & Hn' & He & Hc).
  split_and!; [done..|]. exists n'. rewrite lookup_insert_ne by done. eauto.
Qed.

Lemma chain_delete_ne h p l q a :
  a ∉ l.*1 -> chain h p l q -> chain (delete a h) p l q.
Proof.
  revert p. induction l as [|[b e] l IH]; simpl; intros p Hnin Hc; [done|].
  apply not_elem_of_cons in Hnin as [Hne Hnin].
  destruct Hc as (-> & Hb & n' & Hn' & He & Hc).
  split_and!; [done..|]. exists n'. rewrite lookup_delete_ne by done. eauto.
Qed.

(** A write that keeps link and payload keeps every chain. *)
Lemma chain_insert_same h p l q a n n' :
  h !! a = Some n -> next n' = next n -> payload n' = payload n ->
  chain h p l q -> chain (<[a := n']> h) p l q.
Proof.
  intros Hn Hnx Hpl. revert p. induction l as [|[b e] l IH]; simpl; intros p Hc; [done|].
  destruct Hc as (-> & Hb & m & Hm & He & Hc). split_and!; [done..|].
  destruct (decide (a = b)) as [->|].
  - exists n'. rewrite lookup_insert_eq. simplify_eq.
    split_and!; [done..|]. rewrite Hnx. by apply IH.
  - exists m. rewrite lookup_insert_ne by done. eauto.
Qed.

(** A chain depends on its own nodes only. *)
Lemma chain_agree h h' p l q :
  (forall a, a ∈ l.*1 -> h' !! a = h !! a) -> chain h p l q -> chain h' p l q.
Proof.
  revert p. induction l as [|[a d] l IH]; intros p He Hc; [done|]. destruct Hc as (-> & Ha & n & Hn & Hd & Hc).
  split; [done|]. split; [done|]. exists n. rewrite He by by left. split; [done|]. split; [done|].
  apply IH; [|done]. intros b Hb. apply He. by right.
Qed.

Lemma chain_addr_ne h p l q a : h !! a = None -> chain h p l q -> a ∉ l.*1.
Proof.
  intros Ha Hc Hin. apply list_elem_of_fmap in Hin as ([b e] & -> & Hin).
  destruct (chain_elem _ _ _ _ _ _ Hc Hin) as (_ & n & Hn & _). simpl in *. congruence.
Qed.

(** The fuel bound: a chain to null visits each node of the store once. *)
Lemma chain_length h p l : chain h p l NULL -> (length l <= size h)%nat.
Proof.
  intros Hc. pose proof (chain_nodup _ _ _ Hc) as Hnd.
  rewrite <- (length_fmap fst l), <- (size_dom h).
  rewrite <- (size_list_to_set (C := gset Z) l.*1) by done.
  apply subseteq_size. intros a. rewrite elem_of_list_to_set, list_elem_of_fmap.
  intros ([b e] & -> & Hin).
  destruct (chain_elem _ _ _ _ _ _ Hc Hin) as (_ & n & Hn & _).
  apply elem_of_dom. eauto.
Qed.

Lemma chain_last h p l a d q :
  chain h p (l ++ [(a, d)]) q -> exists n, h !! a = Some n /\ next n = q /\ payload n = d.
Proof.
  intros (m & _ & (-> & _ & n & ? & ? & Hq))%chain_app. simpl in Hq. eauto.
Qed.

(** Redirecting the link of the last node. *)
Lemma chain_relink h p l a d n q q' :
  NoDup (l ++ [(a, d)]).*1 -> h !! a = Some n ->
  chain h p (l ++ [(a, d)]) q ->
  chain (<[a := set_next q' n]> h) p (l ++ [(a, d)]) q'.
Proof.
  intros Hnd Hn Hc. apply chain_app in Hc as (m & Hl & (-> & Ha & n' & Hn' & Hd & _)).
  simplify_eq. apply chain_snoc with (set_next q' n).
  - apply chain_insert_ne; [|done].
    rewrite fmap_app in Hnd. apply NoDup_app in Hnd as (_ & Hdisj & _).
    intros Hin. apply (Hdisj a Hin). simpl. by left.
  - done.
  - by rewrite lookup_insert_eq.
  - by rewrite payload_set_next.
  - apply next_set_next.
Qed.

(** Unlinking the node after [a], which stays in the store. *)
Lemma chain_bypass h p l1 a d b e l2 na nb :
  chain h p (l1 ++ (a, d) :: (b, e) :: l2) NULL ->
  h !! a = Some na -> h !! b = Some nb ->
  chain (<[a := set_next (next nb) na]> h) p (l1 ++ (a, d) :: l2) NULL.
Proof.
  intros Hc Ha Hb. pose proof (chain_nodup _ _ _ Hc) as Hnd.
  change ((a, d) :: (b, e) :: l2) with ([(a, d)] ++ [(b, e)] ++ l2) in Hc, Hnd.
  change ((a, d) :: l2) with ([(a, d)] ++ l2).
  rewrite !app_assoc in Hc, Hnd. rewrite app_assoc.
  rewrite !fmap_app in Hnd. simpl in Hnd.
  apply NoDup_app in Hnd as (Hnd1 & Hd1 & Hnd2).
  apply chain_app in Hc as (m & Hc & Hl2).
  apply chain_app in Hc as (m' & Hc & (-> & _ & nb' & Hb' & _ & Hm)).
  assert (nb' = nb) as -> by congruence.
  apply chain_app. exists (next nb). split.
  - apply (chain_relink _ _ _ _ _ na b); [|done..].
    rewrite fmap_app. simpl. apply NoDup_app in Hnd1 as (? & ? & ?). done.
  - apply chain_insert_ne; [|by simpl in Hm; subst].
    apply Hd1. set_solver.
Qed.

(** Unlinking and freeing it. *)
Lemma chain_unlink h p l1 a d b e l2 na nb :
  chain h p (l1 ++ (a, d) :: (b, e) :: l2) NULL ->
  h !! a = Some na -> h !! b = Some nb ->
  chain (delete b (<[a := set_next (next nb) na]> h)) p (l1 ++ (a, d) :: l2) NULL.
Proof.
  intros Hc Ha Hb. pose proof (chain_nodup _ _ _ Hc) as Hnd.
  apply chain_delete_ne; [|by eapply chain_bypass].
  rewrite fmap_app in *. simpl in *. apply NoDup_app in Hnd as (_ & Hd1 & Hnd2).
  apply NoDup_cons in Hnd2 as [Hab Hnd2]. apply NoDup_cons in Hnd2 as [Hb2 _].
  rewrite elem_of_app, elem_of_cons. intros [Hin|[->|Hin]]; [|set_solver|done].
  apply (Hd1 _ Hin). by right; left.
Qed.

(** Linking a node [new], not on the chain, in after [a]. *)
Lemma chain_link_in h p l1 a d l2 na new nn :
  chain h p (l1 ++ (a, d) :: l2) NULL ->
  h !! a = Some na -> new ∉ (l1 ++ (a, d) :: l2).*1 -> new <> NULL ->
  next nn = next na ->
  chain (<[a := set_next new na]> (<[new := nn]> h)) p
    (l1 ++ (a, d) :: (new, payload nn) :: l2) NULL.
Proof.
  intros Hc Ha Hnin Hn0 Hnn. pose proof (chain_nodup _ _ _ Hc) as Hnd.
  change ((a, d) :: l2) with ([(a, d)] ++ l2) in Hc, Hnd, Hnin.
  change ((a, d) :: (new, payload nn) :: l2) with ([(a, d)] ++ ((new, payload nn) :: l2)).
  rewrite app_assoc in Hc, Hnd, Hnin. rewrite app_assoc.
  rewrite fmap_app in Hnd, Hnin. apply NoDup_app in Hnd as (Hnd1 & Hd1 & Hnd2).
  apply not_elem_of_app in Hnin as [Hnin1 Hnin2].
  assert (new <> a).
  { intros ->. apply Hnin1. rewrite fmap_app. apply elem_of_app. right. by left. }
  apply chain_app in Hc as (m & Hc & Hl2).
  pose proof (chain_last _ _ _ _ _ _ Hc) as (na' & Ha' & Hm & _).
  assert (na' = na) as -> by congruence. subst m.
  apply chain_app. exists new. split.
  - apply (chain_relink _ _ _ _ _ na (next na)); [done| |].
    + by rewrite lookup_insert_ne.
    + by apply chain_insert_ne.
  - split_and!; [done..|]. exists nn.
    rewrite lookup_insert_ne, lookup_insert_eq by done. split_and!; [done..|].
    rewrite Hnn. apply chain_insert_ne.
    + apply Hd1. rewrite fmap_app. set_solver.
    + by apply chain_insert_ne.
Qed.

(** Linking a fresh node in. *)
Lemma chain_link h p l1 a d l2 na new nn :
  chain h p (l1 ++ (a, d) :: l2) NULL ->
  h !! a = Some na -> h !! new = None -> new <> NULL ->
  next nn = next na ->
  chain (<[a := set_next new na]> (<[new := nn]> h)) p
    (l1 ++ (a, d) :: (new, payload nn) :: l2) NULL.
Proof. intros Hc Ha Hnew. apply chain_link_in; [done..|]. by eapply chain_addr_ne. Qed.

(** ** The list-walking loop

    [walk stop fuel h prev cur] is the loop

      while (cur && !stop(cur)) { prev = cur; cur = cur->next; }

    and returns the final [prev] and [cur]. *)
Fixpoint walk (stop : Z -> N -> bool) (fuel : nat) h (prev cur : Z) : option (Z * Z) :=
  match fuel with
  | O => None
  | S fuel' =>
      if cur =? NULL then Some (prev, NULL)
      else
        n ← h !! cur;
        if stop cur n then Some (prev, cur) else walk stop fuel' h cur (next n)
  end.

(** Address of the last node of a chain, or [d] when it is empty. *)
Definition last_addr (d : Z) l : Z := default d (fst <$> last l).

Lemma last_addr_snoc d l a e : last_addr d (l ++ [(a, e)]) = a.
Proof. unfold last_addr. by rewrite last_snoc. Qed.

Lemma last_addr_cons d x l : last_addr d (x :: l) = last_addr x.1 l.
Proof. unfold last_addr. rewrite last_cons. by destruct (last l). Qed.

Lemma walk_spec stop P h l prev cur fuel :
  (forall a n, h !! a = Some n -> stop a n = P (a, payload n)) ->
  chain h cur l NULL -> (length l < fuel)%nat ->
  let '(l1, l2) := span_until P l in
  walk stop fuel h prev cur
  = Some (last_addr prev l1, default NULL (fst <$> head l2)).
Proof.
  intros Hstop. revert prev cur l. induction fuel as [|fuel IH];
    intros prev cur l Hc Hlen; [lia|].
  destruct l as [|[a d] l]; cbn [span_until walk].
  - simpl in Hc. subst cur. done.
  - destruct Hc as (-> & Ha & n & Hn & Hd & Hc).
    destruct (Z.eqb_spec a NULL); [done|].
    rewrite Hn. simpl. rewrite (Hstop _ _ Hn), Hd.
    destruct (P (a, d)) eqn:HP; [done|].
    specialize (IH a (next n) l Hc). simpl in Hlen. specialize (IH ltac:(lia)).
    destruct (span_until P l) as [l1 l2]. by rewrite IH, last_addr_cons.
Qed.

End chains.

#[global] Arguments walk {N D _} _ _ _ _ _ : simpl never.

#[export] Hint Resolve chain_nodup chain_insert_ne chain_delete_ne chain_addr_ne : k42.
#[export] Hint Rewrite @next_set_next @payload_set_next : k42.

(** ** Counting threads

    The sum of a weight over a list, as the steps of a machine change one
    element at a time. *)

Section sum.
Context {A : Type} (f : A -> Z).

Fixpoint sum_with (l : list A) : Z := match l with [] => 0 | x :: l => f x + sum_with l end.

Lemma sum_with_insert l i x y : l !! i = Some x -> sum_with (<[i := y]> l) = sum_with l - f x + f y.
Proof.
  revert i. induction l as [|z l IH]; intros [|i] H; try done; [cbn in *; injection H as ->; lia|].
  change (f z + sum_with (<[i := y]> l) = f z + sum_with l - f x + f y). rewrite (IH i H). lia.
Qed.

Context (Hf : forall x, 0 <= f x <= 1).

Lemma sum_with_range l : 0 <= sum_with l <= Z.of_nat (length l).
Proof. induction l as [|x l IH]; cbn [sum_with length]; [lia|]. pose proof (Hf x). lia. Qed.

Lemma sum_with_ge l i x : l !! i = Some x -> f x <= sum_with l.
Proof.
  revert i. induction l as [|z l IH]; intros [|i] H; try done; cbn in *.
  - injection H as ->. pose proof (sum_with_range l). lia.
  - specialize (IH i H). pose proof (Hf z). lia.
Qed.

Lemma sum_with_two l i j x y : l !! i = Some x -> l !! j = Some y -> i <> j -> f x + f y <= sum_with l.
Proof.
  revert i j. induction l as [|z l IH]; intros [|i] [|j] Hi Hj Hne; try done; cbn [sum_with].
  - cbn in Hi, Hj. injection Hi as ->. pose proof (sum_with_ge l j y Hj). lia.
  - cbn in Hi, Hj. injection Hj as ->. pose proof (sum_with_ge l i x Hi). lia.
  - cbn in Hi, Hj. specialize (IH i j Hi Hj ltac:(congruence)). pose proof (Hf z). lia.
Qed.

Lemma sum_with_zero l i x : sum_with l = 0 -> l !! i = Some x -> f x = 0.
Proof. intros H Hx. pose proof (sum_with_ge l i x Hx). pose proof (Hf x). lia. Qed.

Lemma sum_with_none l : (forall i x, l !! i = Some x -> f x = 0) -> sum_with l = 0.
Proof.
  induction l as [|z l IH]; intros H; [done|]. cbn [sum_with]. rewrite (H 0%nat z eq_refl), IH; [done|]. intros i x Hx. by apply (H (S i)).
Qed.

End sum.

Lemma sum_with_le {A} (f g : A -> Z) l : (forall x, f x <= g x) -> sum_with f l <= sum_with g l.
Proof. intros H. induction l as [|x l IH]; cbn [sum_with]; [lia|]. specialize (H x). lia. Qed.

Lemma sum_with_lt {A} (f g : A -> Z) l x : x ∈ l -> (forall y, f y <= g y) -> f x < g x -> sum_with f l < sum_with g l.
Proof.
  intros Hx H Hlt. induction Hx as [x l|x y l Hx IH]; cbn [sum_with].
  - pose proof (sum_with_le f g l H). lia.
  - specialize (H y). specialize (IH Hlt). lia.
Qed.

