(* ===== verification/DList.v ===== *)
(** * DList: doubly linked lists in a store

    The free lists of [PageSet]/[PageList] and the frame lists of
    [FreeFrameList] are doubly linked; this file holds their shape predicate
    and the link-editing lemmas the components share. *)

From stdpp Require Import base numbers option gmap list.
From S2P Require Import K42 Prelude.

Class DLinked (N : Type) := {
  dnext : N -> Z;
  dprev : N -> Z;
  set_dnext : Z -> N -> N;
  set_dprev : Z -> N -> N;
  dnext_set_dnext : forall p n, dnext (set_dnext p n) = p;
  dprev_set_dnext : forall p n, dprev (set_dnext p n) = dprev n;
  dnext_set_dprev : forall p n, dnext (set_dprev p n) = dnext n;
  dprev_set_dprev : forall p n, dprev (set_dprev p n) = p;
}.

#[global] Arguments dnext {N _} _ : simpl never.
#[global] Arguments dprev {N _} _ : simpl never.
#[global] Arguments set_dnext {N _} _ _ : simpl never.
#[global] Arguments set_dprev {N _} _ _ : simpl never.

Section dlist.
Context {N : Type} `{!DLinked N}.
Implicit Types (h : gmap Z N) (l : list Z).

(** [dseg h p prev l q lst]: from [p] the forward links visit [l] and reach
    [q]; the backward link of each node is its predecessor, [prev] for the
    first; [lst] is the last node ([prev] when [l] is empty). *)
Fixpoint dseg h (p prev : Z) l (q lst : Z) : Prop :=
  match l with
  | [] => p = q /\ lst = prev
  | a :: l' =>
      p = a /\ a <> NULL /\
      exists n, h !! a = Some n /\ dprev n = prev /\ dseg h (dnext n) a l' q lst
  end.

(** A whole list between a head and a tail pointer. *)
Definition dll h (hd tl : Z) l : Prop := dseg h hd NULL l NULL tl.

#[local] Instance dlinked_linked : Linked N unit := {|
  next := dnext; set_next := set_dnext; payload := fun _ => tt;
  next_set_next := dnext_set_dnext; payload_set_next := fun _ _ => eq_refl;
|}.

Lemma dseg_chain h p prev l q lst :
  dseg h p prev l q lst -> chain h p ((fun a => (a, tt)) <$> l) q.
Proof.
  revert p prev. induction l as [|a l IH]; simpl; intros p prev H; [by destruct H|].
  destruct H as (-> & Ha & n & Hn & _ & H). eauto 10.
Qed.

Lemma dseg_nodup h p prev l lst : dseg h p prev l NULL lst -> NoDup l.
Proof.
  intros H. apply dseg_chain in H. pose proof (chain_nodup _ _ _ H) as Hnd.
  rewrite <- list_fmap_compose in Hnd. simpl in Hnd.
  by rewrite list_fmap_id in Hnd.
Qed.

Lemma dseg_length h p prev l lst :
  dseg h p prev l NULL lst -> (length l <= size h)%nat.
Proof.
  intros H. apply dseg_chain in H. pose proof (chain_length _ _ _ H) as Hnd.
  by rewrite length_fmap in Hnd.
Qed.

Lemma dseg_app h p prev l1 l2 q lst :
  dseg h p prev (l1 ++ l2) q lst <->
  exists m k, dseg h p prev l1 m k /\ dseg h m k l2 q lst.
Proof.
  revert p prev. induction l1 as [|a l1 IH]; simpl; intros p prev.
  - split; [by eauto 10 | by intros (? & ? & (-> & ->) & ?)].
  - split.
    + intros (-> & Ha & n & Hn & Hp & H). apply IH in H as (m & k & ? & ?). eauto 15.
    + intros (m & k & (-> & Ha & n & Hn & Hp & H) & H2).
      split_and!; [done..|]. exists n. split_and!; [done..|]. apply IH. eauto.
Qed.

Lemma dseg_elem h p prev l q lst a :
  dseg h p prev l q lst -> a ∈ l -> a <> NULL /\ exists n, h !! a = Some n.
Proof.
  revert p prev. induction l as [|b l IH]; simpl; intros p prev H Hin; [set_solver|].
  destruct H as (-> & Ha & n & Hn & _ & H).
  apply elem_of_cons in Hin as [->|Hin]; eauto.
Qed.

Lemma dseg_addr_ne h p prev l q lst a :
  h !! a = None -> dseg h p prev l q lst -> a ∉ l.
Proof.
  intros Ha H Hin. destruct (dseg_elem _ _ _ _ _ _ _ H Hin) as (_ & n & ?). congruence.
Qed.

Lemma dseg_insert_ne h p prev l q lst a n :
  a ∉ l -> dseg h p prev l q lst -> dseg (<[a := n]> h) p prev l q lst.
Proof.
  revert p prev. induction l as [|b l IH]; simpl; intros p prev Hnin H; [done|].
  apply not_elem_of_cons in Hnin as [Hne Hnin].
  destruct H as (-> & Hb & n' & Hn' & Hp & H).
  split_and!; [done..|]. exists n'. rewrite lookup_insert_ne by done. eauto.
Qed.

Lemma dseg_delete_ne h p prev l q lst a :
  a ∉ l -> dseg h p prev l q lst -> dseg (delete a h) p prev l q lst.
Proof.
  revert p prev. induction l as [|b l IH]; simpl; intros p prev Hnin H; [done|].
  apply not_elem_of_cons in Hnin as [Hne Hnin].
  destruct H as (-> & Hb & n' & Hn' & Hp & H).
  split_and!; [done..|]. exists n'. rewrite lookup_delete_ne by done. eauto.
Qed.

Lemma dseg_insert_same h p prev l q lst a n n' :
  h !! a = Some n -> dnext n' = dnext n -> dprev n' = dprev n ->
  dseg h p prev l q lst -> dseg (<[a := n']> h) p prev l q lst.
Proof.
  intros Hn Hnx Hpv. revert p prev.
  induction l as [|b l IH]; simpl; intros p prev H; [done|].
  destruct H as (-> & Hb & m & Hm & Hp & H). split_and!; [done..|].
  destruct (decide (a = b)) as [->|].
  - exists n'. rewrite lookup_insert_eq. simplify_eq.
    split_and!; [done| congruence |]. rewrite Hnx. by apply IH.
  - exists m. rewrite lookup_insert_ne by done. eauto.
Qed.

(** Redirecting the forward link of the last node. *)
Lemma dseg_set_last h p prev l a q q' n :
  a ∉ l -> h !! a = Some n ->
  dseg h p prev (l ++ [a]) q a ->
  dseg (<[a := set_dnext q' n]> h) p prev (l ++ [a]) q' a.
Proof.
  intros Hnin Hn H. apply dseg_app in H as (m & k & H1 & H2).
  destruct H2 as (-> & Ha & n' & Hn' & Hp & _). simplify_eq.
  apply dseg_app. exists a, (dprev n). split; [by apply dseg_insert_ne|].
  split_and!; [done..|]. exists (set_dnext q' n).
  rewrite lookup_insert_eq, dnext_set_dnext, dprev_set_dnext. simpl. done.
Qed.

(** Redirecting the backward link of the first node. *)
Lemma dseg_set_first h a prev prev' l q lst n :
  a ∉ l -> h !! a = Some n ->
  dseg h a prev (a :: l) q lst ->
  dseg (<[a := set_dprev prev' n]> h) a prev' (a :: l) q lst.
Proof.
  intros Hnin Hn (_ & Ha & n' & Hn' & Hp & H). simplify_eq.
  split_and!; [done..|]. exists (set_dprev prev' n).
  rewrite lookup_insert_eq, dnext_set_dprev, dprev_set_dprev.
  split_and!; [done..|]. by apply dseg_insert_ne.
Qed.

Lemma dll_nil_iff h hd tl l : dll h hd tl l -> (hd = NULL <-> l = []) /\ (tl = NULL <-> l = []).
Proof.
  intros H. split.
  - apply dseg_chain in H. rewrite (chain_null _ _ _ H).
    destruct l; simpl; split; done.
  - destruct l as [|a l _] using rev_ind.
    + destruct H as [_ ->]. done.
    + apply dseg_app in H as (m & k & _ & (-> & Ha & n & _ & _ & (_ & ->))).
      split; [done|]. by destruct l.
Qed.

Lemma dll_tail h hd l a tl : dll h hd tl (l ++ [a]) -> tl = a.
Proof. by intros (m & k & _ & (-> & _ & n & _ & _ & (_ & ->)))%dseg_app. Qed.

(** The neighbours of a node of a list. *)
Lemma dll_links h hd tl l1 a l2 n :
  dll h hd tl (l1 ++ a :: l2) -> h !! a = Some n ->
  dprev n = default NULL (last l1) /\ dnext n = default NULL (head l2).
Proof.
  intros H Hn. apply dseg_app in H as (m & k & H1 & (-> & Ha & n' & Hn' & Hp & H2)).
  simplify_eq. split.
  - destruct l1 as [|b l1 _] using rev_ind; [by destruct H1 as [_ ->]|].
    rewrite last_snoc. simpl.
    by apply dseg_app in H1 as (? & ? & _ & (-> & _ & ? & _ & _ & (_ & ->))).
  - destruct l2 as [|b l2]; simpl in *; [by destruct H2 | by destruct H2 as (-> & _)].
Qed.

(** The list depends on the store at its own nodes only. *)
Lemma dseg_agree h h' p prev l q lst :
  (forall a, a ∈ l -> h' !! a = h !! a) -> dseg h p prev l q lst -> dseg h' p prev l q lst.
Proof.
  revert p prev. induction l as [|b l IH]; simpl; intros p prev Ha H; [done|].
  destruct H as (-> & Hb & n & Hn & Hp & H). split_and!; [done..|].
  exists n. rewrite Ha by set_solver. split_and!; [done..|]. apply IH; [|done]. set_solver.
Qed.

(** Taking the first node off: the new head's back link is cleared, the tail is
    cleared when the list becomes empty. *)
Lemma dll_pop h hd tl a l n :
  dll h hd tl (a :: l) -> h !! a = Some n ->
  hd = a /\ a <> NULL /\ a ∉ l /\ dprev n = NULL /\
  match l with
  | [] => dnext n = NULL /\ tl = a
  | b :: _ => dnext n = b /\ b <> NULL /\ tl <> a /\
      exists nb, h !! b = Some nb /\ dll (<[b := set_dprev NULL nb]> h) b tl l
  end.
Proof.
  intros H Hn. pose proof (dseg_nodup _ _ _ _ _ H) as Hnd. apply NoDup_cons in Hnd as [Hnin Hnd].
  pose proof H as (-> & Ha & n' & Hn' & Hp & H'). assert (n' = n) as -> by congruence.
  split_and!; try done. destruct l as [|b l]; [by destruct H' as [-> ->]|].
  pose proof H' as (Eb & Hb & nb & Hnb & Hpb & _). split_and!; try done.
  - intros ->. destruct l as [|c l _] using rev_ind.
    + destruct H' as (_ & _ & ? & _ & _ & (_ & ->)). set_solver.
    + change (b :: l ++ [c]) with ((b :: l) ++ [c]) in H'.
      apply dseg_app in H' as (m & k & _ & (-> & _ & ? & _ & _ & (_ & ->))). set_solver.
  - exists nb. split; [done|]. rewrite Eb in H'.
    apply (dseg_set_first h b a NULL l NULL tl nb); [|done..]. by apply NoDup_cons in Hnd as [? _].
Qed.

(** Adding a node in front. *)
Lemma dll_push h hd tl a l n' :
  dll h hd tl l -> a ∉ l -> a <> NULL -> dnext n' = hd -> dprev n' = NULL ->
  if hd =? NULL then dll (<[a := n']> h) a a [a]
  else exists nh, h !! hd = Some nh /\ hd <> a /\
    dll (<[hd := set_dprev a nh]> (<[a := n']> h)) a tl (a :: l).
Proof.
  intros H Hnin Ha Hnx Hpv. destruct (Z.eqb_spec hd NULL) as [E|E].
  - split_and!; try done. exists n'. rewrite lookup_insert_eq, Hnx, Hpv. by split_and!.
  - destruct l as [|b l]; [by destruct H as [-> _]|].
    pose proof (dseg_nodup _ _ _ _ _ H) as Hnd. apply NoDup_cons in Hnd as [Hnb _].
    pose proof H as (-> & Hb & nb & Hn & _). exists nb. split; [done|].
    apply not_elem_of_cons in Hnin as Hne. destruct Hne as [Hne Hnl]. split; [done|].
    split_and!; try done. exists n'. rewrite lookup_insert_ne, lookup_insert_eq by done.
    split_and!; [done..|]. rewrite Hnx.
    apply dseg_set_first with NULL; [done| |].
    + by rewrite lookup_insert_ne.
    + apply dseg_insert_ne; [|done]. set_solver.
Qed.

(** Taking the last node off. *)
Lemma dll_pop_back h hd tl a l n :
  dll h hd tl (l ++ [a]) -> h !! a = Some n ->
  tl = a /\ a <> NULL /\ a ∉ l /\ dnext n = NULL /\
  match last l with
  | None => dprev n = NULL /\ hd = a
  | Some b => dprev n = b /\ b <> NULL /\
      exists nb, h !! b = Some nb /\ dll (<[b := set_dnext NULL nb]> h) hd b l
  end.
Proof.
  intros H Hn. pose proof (dseg_nodup _ _ _ _ _ H) as Hnd.
  apply NoDup_app in Hnd as (Hnd & Hd & _).
  assert (Hnin : a ∉ l) by (intros Hin; apply (Hd a Hin); set_solver).
  pose proof (dll_tail _ _ _ _ _ H) as ->.
  apply dseg_app in H as (m & k & H1 & (-> & Ha & n' & Hn' & Hp & (Hx & _))).
  assert (n' = n) as -> by congruence. split_and!; try done.
  destruct l as [|b l _] using rev_ind; [by destruct H1 as [-> ->]|].
  rewrite last_snoc. pose proof H1 as (m' & k' & _ & (-> & Hb & nb & Hnb & _ & (_ & Ek)))%dseg_app.
  subst k. split_and!; try done. exists nb. split; [done|].
  rewrite Ek in H1. apply (dseg_set_last h hd NULL l b a NULL nb); [|done..].
  apply NoDup_app in Hnd as (_ & Hd' & _). intros Hin. apply (Hd' b Hin). set_solver.
Qed.

(** Concatenation of two lists. *)
Lemma dll_concat h hd1 tl1 l1 hd2 tl2 l2 n1 n2 :
  dll h hd1 tl1 l1 -> dll h hd2 tl2 l2 -> (forall a, a ∈ l1 -> a ∉ l2) ->
  h !! tl1 = Some n1 -> h !! hd2 = Some n2 -> tl1 <> NULL -> hd2 <> NULL ->
  dll (<[hd2 := set_dprev tl1 n2]> (<[tl1 := set_dnext hd2 n1]> h)) hd1 tl2 (l1 ++ l2) /\ tl1 <> hd2.
Proof.
  intros H1 H2 Hdis Hn1 Hn2 Ht Hh.
  destruct (dll_nil_iff _ _ _ _ H1) as [_ Hnil1]. destruct (dll_nil_iff _ _ _ _ H2) as [Hnil2 _].
  destruct l1 as [|a l1 _] using rev_ind; [by destruct Hnil1 as [_ Hx]; rewrite Hx in Ht|].
  destruct l2 as [|b l2]; [by destruct Hnil2 as [_ Hx]; rewrite Hx in Hh|].
  pose proof (dll_tail _ _ _ _ _ H1) as ->. pose proof H2 as (-> & _).
  pose proof (dseg_nodup _ _ _ _ _ H1) as Hnd1. apply NoDup_app in Hnd1 as (_ & Hd1 & _).
  pose proof (dseg_nodup _ _ _ _ _ H2) as Hnd2. apply NoDup_cons in Hnd2 as [Hnb _].
  assert (Hab : a <> b) by (intros ->; apply (Hdis b); set_solver).
  split; [|done]. apply dseg_app. exists b, a. split.
  - apply dseg_insert_ne; [intros Hin; apply (Hdis b Hin); set_solver|].
    apply dseg_set_last with NULL; [|done..]. intros Hin. apply (Hd1 a Hin). set_solver.
  - apply dseg_set_first with NULL; [done| |].
    + by rewrite lookup_insert_ne.
    + apply dseg_insert_ne; [apply Hdis; set_solver|done].
Qed.

(** Adding a node at the end. *)
Lemma dll_push_back h hd tl a l n' :
  dll h hd tl l -> a ∉ l -> a <> NULL -> dnext n' = NULL -> dprev n' = tl ->
  if tl =? NULL then hd = NULL /\ l = [] /\ dll (<[a := n']> h) a a [a]
  else hd <> NULL /\ exists nt, h !! tl = Some nt /\ tl <> a /\
    dll (<[tl := set_dnext a nt]> (<[a := n']> h)) hd a (l ++ [a]).
Proof.
  intros H Hnin Ha Hnx Hpv. destruct (dll_nil_iff _ _ _ _ H) as [Hh Ht].
  destruct (Z.eqb_spec tl NULL) as [E|E].
  - apply Ht in E as El. subst l. split; [by apply Hh|]. split; [done|]. split_and!; try done.
    exists n'. rewrite lookup_insert_eq, Hnx, Hpv. by split_and!.
  - destruct l as [|b l _] using rev_ind; [by destruct E; apply Ht|].
    split; [intros Hd; apply Hh in Hd; by destruct l|].
    pose proof (dll_tail _ _ _ _ _ H) as ->. pose proof (dseg_nodup _ _ _ _ _ H) as Hnd.
    destruct (dseg_elem _ _ _ _ _ _ b H) as (_ & nb & Hnb); [set_solver|].
    assert (Hba : b <> a) by set_solver.
    assert (Hb : b ∉ l) by (apply NoDup_app in Hnd as (_ & Hd & _); intros Hin; apply (Hd b Hin); set_solver).
    exists nb. split; [done|]. split; [done|]. apply dseg_app. exists a, b. split.
    + apply dseg_set_last with NULL; [done|by rewrite lookup_insert_ne|by apply dseg_insert_ne].
    + split_and!; try done. exists n'. rewrite lookup_insert_ne, lookup_insert_eq, Hnx, Hpv by done. done.
Qed.

(** The part of the list before a node that is taken out. *)
Lemma dseg_unlink_prev h hd l1 a n :
  dseg h hd NULL l1 a (dprev n) -> NoDup l1 ->
  exists h1,
    (if dprev n =? NULL then h1 = h /\ hd = a /\ l1 = []
     else exists np, h !! dprev n = Some np /\ dprev n ∈ l1 /\ h1 = <[dprev n := set_dnext (dnext n) np]> h) /\
    dseg h1 (if dprev n =? NULL then dnext n else hd) NULL l1 (dnext n) (dprev n).
Proof.
  intros H Hnd. destruct l1 as [|b l1 _] using rev_ind.
  - destruct H as [-> E]. rewrite E, Z.eqb_refl. exists h. done.
  - pose proof (dseg_elem _ _ _ _ _ _ b H ltac:(set_solver)) as (Hb & nb & Hnb).
    pose proof H as (m & k & _ & (-> & _ & _ & _ & _ & (_ & E)))%dseg_app.
    rewrite E in *. rewrite (proj2 (Z.eqb_neq b NULL) Hb). eexists. split.
    + exists nb. split; [done|]. split; [set_solver|reflexivity].
    + apply dseg_set_last with a; [|done..].
      apply NoDup_app in Hnd as (_ & Hd & _). intros Hin. apply (Hd b Hin). set_solver.
Qed.

(** The part after it. *)
Lemma dseg_unlink_next h l2 a n tl :
  dseg h (dnext n) a l2 NULL tl -> NoDup l2 ->
  exists h2,
    (if dnext n =? NULL then h2 = h /\ tl = a /\ l2 = []
     else exists nn, h !! dnext n = Some nn /\ dnext n ∈ l2 /\ h2 = <[dnext n := set_dprev (dprev n) nn]> h) /\
    dseg h2 (dnext n) (dprev n) l2 NULL (if dnext n =? NULL then dprev n else tl).
Proof.
  intros H Hnd. destruct l2 as [|b l2].
  - destruct H as [E ->]. rewrite E, Z.eqb_refl. exists h. done.
  - pose proof H as (E & Hb & nb & Hnb & _). rewrite E in *. rewrite (proj2 (Z.eqb_neq b NULL) Hb).
    apply NoDup_cons in Hnd as [Hnb' _]. eexists. split.
    + exists nb. split; [done|]. split; [by left|reflexivity].
    + by apply dseg_set_first with a.
Qed.

(** Taking a node out of the middle: its neighbours, or the head and the tail,
    are linked to each other. *)
Lemma dll_unlink h hd tl l1 a l2 n :
  dll h hd tl (l1 ++ a :: l2) -> h !! a = Some n ->
  a <> NULL /\ (a ∉ l1 ++ l2) /\
  exists h1 h2,
    (if dprev n =? NULL then h1 = h /\ hd = a
     else exists np, h !! dprev n = Some np /\ hd <> a /\ h1 = <[dprev n := set_dnext (dnext n) np]> h) /\
    (if dnext n =? NULL then h2 = h1 /\ tl = a
     else exists nn, h1 !! dnext n = Some nn /\ h2 = <[dnext n := set_dprev (dprev n) nn]> h1) /\
    h2 !! a = Some n /\ (forall b, b ∉ l1 ++ l2 -> h2 !! b = h !! b) /\
    dll h2 (if dprev n =? NULL then dnext n else hd) (if dnext n =? NULL then dprev n else tl) (l1 ++ l2).
Proof.
  intros H Hn. pose proof (dseg_nodup _ _ _ _ _ H) as Hnd.
  apply NoDup_app in Hnd as (Hnd1 & Hdis & Hnd2). apply NoDup_cons in Hnd2 as [Ha2 Hnd2].
  assert (Ha1 : a ∉ l1) by (intros Hin; apply (Hdis a Hin); by left).
  apply dseg_app in H as (m & k & H1 & (-> & Ha & n' & Hn' & <- & H2)). assert (n' = n) as -> by congruence.
  split; [done|]. split; [rewrite not_elem_of_app; done|].
  destruct (dseg_unlink_prev _ _ _ _ _ H1 Hnd1) as (h1 & Hp & H1').
  assert (H2' : dseg h1 (dnext n) a l2 NULL tl).
  { destruct (dprev n =? NULL); [by destruct Hp as (-> & _)|]. destruct Hp as (np & _ & Hin & ->).
    apply dseg_insert_ne; [|done]. intros Hin'. apply (Hdis _ Hin). by right. }
  destruct (dseg_unlink_next _ _ _ _ _ H2' Hnd2) as (h2 & Hx & H2'').
  exists h1, h2. split; [|split; [|split; [|split]]].
  - destruct (dprev n =? NULL); [by destruct Hp as (-> & -> & _)|]. destruct Hp as (np & Hnp & Hin & ->).
    exists np. split; [done|]. split; [|done]. intros ->. destruct l1 as [|b l1]; [by apply not_elem_of_nil in Hin|].
    destruct H1 as (-> & _). apply Ha1. by left.
  - destruct (dnext n =? NULL); [by destruct Hx as (-> & -> & _)|]. destruct Hx as (nn & Hnn & _ & ->). by exists nn.
  - assert (Hk : h1 !! a = Some n).
    { destruct (dprev n =? NULL); [by destruct Hp as (-> & _)|]. destruct Hp as (np & _ & Hin & ->).
      rewrite lookup_insert_ne; [done|]. intros E. by rewrite E in Hin. }
    destruct (dnext n =? NULL); [by destruct Hx as (-> & _)|]. destruct Hx as (nn & _ & Hin & ->).
    rewrite lookup_insert_ne; [done|]. intros E. by rewrite E in Hin.
  - intros b Hb. apply not_elem_of_app in Hb as [Hb1 Hb2]. transitivity (h1 !! b).
    + destruct (dnext n =? NULL); [by destruct Hx as (-> & _)|]. destruct Hx as (nn & _ & Hin & ->).
      apply lookup_insert_ne. by intros <-.
    + destruct (dprev n =? NULL); [by destruct Hp as (-> & _)|]. destruct Hp as (np & _ & Hin & ->).
      apply lookup_insert_ne. by intros <-.
  - apply dseg_app. exists (dnext n), (dprev n). split; [|done].
    destruct (dnext n =? NULL); [by destruct Hx as (-> & _)|]. destruct Hx as (nn & _ & Hin & ->).
    apply dseg_insert_ne; [|done]. intros Hin'. apply (Hdis _ Hin'). by right.
Qed.

End dlist.

#[export] Hint Resolve dseg_insert_ne dseg_delete_ne dseg_addr_ne : k42.
#[export] Hint Rewrite @dnext_set_dnext @dprev_set_dnext @dnext_set_dprev
  @dprev_set_dprev : k42.
