(* ===== verification/HTList.v ===== *)
(** * HTList: singly linked lists with a head and a tail pointer

    [ListSimple], [ListSimpleKey] and [PageList] keep a head pointer, a tail
    pointer and a null-terminated chain between them.  This file holds the
    shape and the link-editing lemmas they share. *)

From stdpp Require Import base numbers option gmap list.
From S2P Require Import K42 Prelude.

Section htlist.
Context {N D : Type} `{!Linked N D}.
Implicit Types (h : gmap Z N) (l : list (Z * D)).

(** The chain from [hd] holds [l]; [tl] is its last node, null when empty. *)
Definition htrep h (hd tl : Z) l : Prop :=
  chain h hd l NULL /\ tl = last_addr NULL l.

Lemma htrep_nil h : htrep h NULL NULL [].
Proof. done. Qed.

Lemma htrep_head_null h hd tl l : htrep h hd tl l -> hd = NULL <-> l = [].
Proof. intros [H _]. by eapply chain_null. Qed.

Lemma htrep_tail_null h hd tl l : htrep h hd tl l -> tl = NULL <-> l = [].
Proof.
  intros [H ->]. destruct l as [|[a d] l _] using rev_ind; [done|].
  rewrite last_addr_snoc.
  destruct (chain_elem _ _ _ _ a d H) as [Ha _]; [set_solver|].
  split; [done|]. by destruct l.
Qed.

Lemma htrep_nodup h hd tl l : htrep h hd tl l -> NoDup l.*1.
Proof. intros [H _]. eauto with k42. Qed.

Lemma htrep_addr_ne h hd tl l a : h !! a = None -> htrep h hd tl l -> a ∉ l.*1.
Proof. intros Ha [H _]. eauto with k42. Qed.

Lemma htrep_insert_ne h hd tl l a n :
  a ∉ l.*1 -> htrep h hd tl l -> htrep (<[a := n]> h) hd tl l.
Proof. intros Ha [H ?]. split; [by apply chain_insert_ne | done]. Qed.

Lemma htrep_delete_ne h hd tl l a :
  a ∉ l.*1 -> htrep h hd tl l -> htrep (delete a h) hd tl l.
Proof. intros Ha [H ?]. split; [by apply chain_delete_ne | done]. Qed.

Lemma htrep_elem h hd tl l a d :
  htrep h hd tl l -> (a, d) ∈ l -> a <> NULL /\ exists n, h !! a = Some n /\ payload n = d.
Proof. intros [H _]. by eapply chain_elem. Qed.

(** [node->next = head; head = node; if (!tail) tail = node] *)
Lemma htrep_push_front h hd tl l a n :
  htrep h hd tl l -> h !! a = None -> a <> NULL -> next n = hd ->
  htrep (<[a := n]> h) a (if tl =? NULL then a else tl) ((a, payload n) :: l).
Proof.
  intros Hr Hf Ha Hn. pose proof (htrep_tail_null _ _ _ _ Hr) as Htn.
  destruct Hr as [H Ht]. split.
  - split_and!; [done..|]. exists n. rewrite lookup_insert_eq, Hn.
    split_and!; [done..|]. eauto with k42.
  - rewrite last_addr_cons. simpl. destruct (Z.eqb_spec tl NULL) as [E|E].
    + apply Htn in E as ->. done.
    + rewrite Ht. destruct l as [|x l]; [tauto|]. by rewrite !last_addr_cons.
Qed.

(** [if (!head) head = node; if (tail) tail->next = node; tail = node] *)
Lemma htrep_push_back h hd tl l a n :
  htrep h hd tl l -> h !! a = None -> a <> NULL -> next n = NULL ->
  if tl =? NULL then
    htrep (<[a := n]> h) (if hd =? NULL then a else hd) a (l ++ [(a, payload n)])
  else
    exists nt, <[a := n]> h !! tl = Some nt /\
      htrep (<[tl := set_next a nt]> (<[a := n]> h))
            (if hd =? NULL then a else hd) a (l ++ [(a, payload n)]).
Proof.
  intros Hr Hf Ha Hn.
  pose proof (htrep_tail_null _ _ _ _ Hr) as Htn.
  pose proof (htrep_head_null _ _ _ _ Hr) as Hhn.
  pose proof Hr as [H Ht].
  destruct l as [|[b e] l _] using rev_ind.
  - rewrite (proj2 Htn), (proj2 Hhn) by done. simpl. split; [|done].
    simpl. split_and!; [done..|]. exists n. by rewrite lookup_insert_eq.
  - rewrite last_addr_snoc in Ht. subst tl.
    assert (Hne : b <> NULL) by (rewrite Htn; by destruct l).
    assert (Hnh : hd <> NULL) by (rewrite Hhn; by destruct l).
    rewrite (proj2 (Z.eqb_neq _ _) Hne), (proj2 (Z.eqb_neq _ _) Hnh).
    destruct (chain_last _ _ _ _ _ _ H) as (nb & Hnb & Hnx & Hd).
    exists nb. assert (a <> b) by congruence.
    split; [by rewrite lookup_insert_ne|].
    split; [|by rewrite last_addr_snoc].
    apply chain_app. exists a. split.
    + apply (chain_relink _ _ _ _ _ nb NULL); [eauto with k42| |eauto with k42].
      by rewrite lookup_insert_ne.
    + split_and!; [done..|]. exists n.
      by rewrite lookup_insert_ne, lookup_insert_eq by done.
Qed.

(** [head = node->next; if (tail == node) tail = NULL] *)
Lemma htrep_pop h hd tl a d l :
  htrep h hd tl ((a, d) :: l) ->
  hd = a /\ a <> NULL /\ (a ∉ l.*1) /\
  exists n, h !! a = Some n /\ payload n = d /\
    htrep h (next n) (if tl =? a then NULL else tl) l.
Proof.
  intros Hr. pose proof (htrep_nodup _ _ _ _ Hr) as Hnd. simpl in Hnd.
  apply NoDup_cons in Hnd as [Hnin _].
  destruct Hr as [(-> & Ha & n & Hn & Hd & Hc) ->].
  split_and!; [done..|]. exists n. split_and!; [done..|]. split; [done|].
  rewrite last_addr_cons. simpl.
  destruct l as [|[b e] l _] using rev_ind; [by rewrite Z.eqb_refl|].
  rewrite !last_addr_snoc. rewrite fmap_app in Hnin.
  destruct (Z.eqb_spec b a) as [->|]; [set_solver|done].
Qed.

(** [prev->next = node->next; if (tail == node) tail = prev] *)
Lemma htrep_bypass h hd tl l1 a d b e l2 na nb :
  htrep h hd tl (l1 ++ (a, d) :: (b, e) :: l2) ->
  h !! a = Some na -> h !! b = Some nb ->
  htrep (<[a := set_next (next nb) na]> h) hd (if tl =? b then a else tl)
        (l1 ++ (a, d) :: l2) /\
  b ∉ (l1 ++ (a, d) :: l2).*1.
Proof.
  intros Hr Ha Hb. pose proof (htrep_nodup _ _ _ _ Hr) as Hnd.
  destruct Hr as [H ->].
  assert (Hbn : b ∉ (l1 ++ (a, d) :: l2).*1).
  { rewrite fmap_app in *. simpl in *. apply NoDup_app in Hnd as (_ & Hd1 & Hnd2).
    apply NoDup_cons in Hnd2 as [Hab Hnd2]. apply NoDup_cons in Hnd2 as [Hb2 _].
    rewrite elem_of_app, elem_of_cons. intros [Hin|[->|Hin]]; [|set_solver|done].
    apply (Hd1 _ Hin). by right; left. }
  split; [|done]. split; [by eapply chain_bypass|].
  destruct l2 as [|[u v] l2 _] using rev_ind.
  - change ([(a, d); (b, e)]) with ([(a, d)] ++ [(b, e)]).
    rewrite app_assoc, !last_addr_snoc. by rewrite Z.eqb_refl.
  - rewrite !app_comm_cons, !app_assoc, !last_addr_snoc.
    destruct (Z.eqb_spec u b) as [->|]; [|done].
    rewrite fmap_app in Hbn. simpl in Hbn. rewrite fmap_app in Hbn. set_solver.
Qed.

(** The unlinking loop started behind the head: the predecessor it stops with
    is the node before the one it found. *)
Lemma walk_tail_spec stop P h hd tl a d l n fuel :
  (forall x m, h !! x = Some m -> stop x m = P (x, payload m)) ->
  htrep h hd tl ((a, d) :: l) -> h !! a = Some n -> (length l < fuel)%nat ->
  match span_until P l with
  | (l1, []) => walk stop fuel h a (next n) = Some (last_addr a l1, NULL) /\ l1 = l
  | (l1, (b, e) :: l2) =>
      exists m x prev,
        walk stop fuel h a (next n) = Some (prev, b) /\
        (a, d) :: l1 = m ++ [(prev, x)] /\
        (a, d) :: l = m ++ (prev, x) :: (b, e) :: l2
  end.
Proof.
  intros Hs [(_ & Ha & n' & Hn' & Hd & Hc) _] Hn Hlen.
  assert (n' = n) as -> by congruence.
  pose proof (walk_spec stop P h l a (next n) fuel Hs Hc Hlen) as Hw.
  destruct (span_until P l) as [l1 l2] eqn:E.
  destruct l2 as [|[b e] l2].
  - apply span_until_none in E as [-> _]. done.
  - apply span_until_app in E as ->.
    assert (Hpre : exists m x, (a, d) :: l1 = m ++ [(last_addr a l1, x)]).
    { destruct l1 as [|[u v] l1 _] using rev_ind; [by exists [], d|].
      rewrite last_addr_snoc. by exists ((a, d) :: l1), v. }
    destruct Hpre as (m & x & Hm). exists m, x, (last_addr a l1).
    split_and!; [done..|].
    rewrite app_comm_cons, Hm, <- app_assoc. done.
Qed.

End htlist.
