(* ===== verification/ListSimple.v ===== *)
(** * ListSimple: the simple linked list of lib/libc/misc/ListSimple.{H,C}

    A list is a head and a tail pointer into a store of nodes; the store is
    shared by all lists (transferTo moves nodes between two of them).  [new]
    is the allocator's answer, an argument of the operations that allocate;
    [delete] removes the node from the store, so that a later access through a
    stale pointer is stuck ([None]). *)

From stdpp Require Import base numbers option gmap list.
From S2P Require Import K42 Prelude HTList.

Module ListSimple.

(** struct ListSimpleNode *)
Record Node := mkNode { n_next : Z; n_datum : Z }.

(** class ListSimpleBase: the fields head and tail *)
Record t := mkList { l_head : Z; l_tail : Z }.

#[export] Instance node_linked : Linked Node Z := {|
  next := n_next; set_next := fun p n => mkNode p (n_datum n); payload := n_datum;
  next_set_next := fun _ _ => eq_refl; payload_set_next := fun _ _ => eq_refl;
|}.

Implicit Types (h : gmap Z Node) (s : t) (l : list (Z * Z)).

Definition reinit : t := mkList NULL NULL.
Definition isEmpty s : bool := l_head s =? NULL.

(** The pointer loops visit each node of the store at most once. *)
Definition fuel h : nat := S (size h).

Definition has_datum (d : Z) (_ : Z) (n : Node) : bool := n_datum n =? d.

Definition find h s (d : Z) : option bool :=
  '(_, node) ← walk (has_datum d) (fuel h) h NULL (l_head s);
  Some (negb (node =? NULL)).

Definition add h s (new d : Z) : option (gmap Z Node * t) :=
  _ ← assertK (negb (new =? NULL));
  Some (<[new := mkNode (l_head s) d]> h,
        mkList new (if l_tail s =? NULL then new else l_tail s)).

Definition addToEndOfList h s (new d : Z) : option (gmap Z Node * t) :=
  _ ← assertK (negb (new =? NULL));
  let h1 := <[new := mkNode NULL d]> h in
  let head1 := if l_head s =? NULL then new else l_head s in
  if l_tail s =? NULL then Some (h1, mkList head1 new)
  else
    n ← h1 !! l_tail s;
    Some (<[l_tail s := set_next new n]> h1, mkList head1 new).

Definition insertNext h s (prev new d : Z) : option (gmap Z Node * t) :=
  if prev =? NULL then addToEndOfList h s new d
  else
    _ ← assertK (negb (new =? NULL));
    n ← h !! prev;
    let h1 := <[new := mkNode (n_next n) d]> h in
    n1 ← h1 !! prev;
    Some (<[prev := set_next new n1]> h1, s).

Definition remove h s (d : Z) : option (bool * gmap Z Node * t) :=
  let node := l_head s in
  if node =? NULL then Some (false, h, s)
  else
    n ← h !! node;
    if n_datum n =? d then
      Some (true, delete node h,
            mkList (n_next n) (if l_tail s =? node then NULL else l_tail s))
    else
      '(prev, cur) ← walk (has_datum d) (fuel h) h node (n_next n);
      if cur =? NULL then Some (false, h, s)
      else
        c ← h !! cur;
        p ← h !! prev;
        Some (true, delete cur (<[prev := set_next (n_next c) p]> h),
              mkList (l_head s) (if l_tail s =? cur then prev else l_tail s)).

Definition removeNext h s (prev : Z) : option (bool * gmap Z Node * t) :=
  if l_head s =? NULL then Some (false, h, s)
  else if negb (prev =? NULL) then
    n ← h !! prev;
    if n_next n =? NULL then Some (false, h, s)
    else
      tmp ← h !! n_next n;
      Some (true, delete (n_next n) (<[prev := set_next (n_next tmp) n]> h), s)
  else
    n ← h !! l_head s;
    Some (true, delete (l_head s) h, mkList (n_next n) (l_tail s)).

Definition removeHead h s : option (option Z * gmap Z Node * t) :=
  let node := l_head s in
  if node =? NULL then Some (None, h, s)
  else
    n ← h !! node;
    Some (Some (n_datum n), delete node h,
          mkList (n_next n) (if l_tail s =? node then NULL else l_tail s)).

(** The next node and its datum; NULL starts from the head. *)
Definition next_node h s (curr : Z) : option (Z * option Z) :=
  node ← (if curr =? NULL then Some (l_head s) else n_next <$> h !! curr);
  if node =? NULL then Some (NULL, None)
  else n ← h !! node; Some (node, Some (n_datum n)).

(** s.transferTo(lst): the nodes of [s] are appended to [lst]. *)
Definition transferTo h s (lst : t) : option (gmap Z Node * t * t) :=
  if isEmpty s then Some (h, s, lst)
  else if isEmpty lst then Some (h, reinit, mkList (l_head s) (l_tail s))
  else
    n ← h !! l_tail lst;
    Some (<[l_tail lst := set_next (l_head s) n]> h, reinit,
          mkList (l_head lst) (l_tail s)).

(** ** Invariant *)

(** [rep h s l]: the list object [s] holds exactly the nodes [l], in order,
    and its tail pointer is the last of them. *)
Definition rep h s l : Prop := htrep h (l_head s) (l_tail s) l.

Definition datum_is (d : Z) (x : Z * Z) : bool := x.2 =? d.

Lemma datum_is_find l d : find_first (datum_is d) l = None <-> d ∉ l.*2.
Proof.
  rewrite find_first_None, Forall_forall, list_elem_of_fmap. split.
  - intros H ([a e] & -> & Hin). specialize (H _ Hin).
    unfold datum_is in H. simpl in H. by rewrite Z.eqb_refl in H.
  - intros H [a e] Hin. unfold datum_is. simpl. apply Z.eqb_neq. intros ->.
    apply H. by exists (a, d).
Qed.

Lemma ls_walk_fuel h s l : rep h s l -> (length l < fuel h)%nat.
Proof. intros [H _]. pose proof (chain_length _ _ _ H). unfold fuel. lia. Qed.

Lemma ls_find_spec h s l d :
  rep h s l -> find h s d = Some (bool_decide (d ∈ l.*2)).
Proof.
  intros Hr. pose proof (ls_walk_fuel _ _ _ Hr) as Hf. destruct Hr as [H _]. unfold find.
  pose proof (walk_spec (has_datum d) (datum_is d) h l NULL (l_head s) (fuel h)
    (fun _ _ _ => eq_refl) H Hf) as Hw.
  pose proof (datum_is_find l d) as Hff. unfold find_first in Hff.
  destruct (span_until (datum_is d) l) as [l1 l2] eqn:E. rewrite Hw. simpl in *.
  destruct l2 as [|[a e] l2]; simpl in *.
  - rewrite bool_decide_false by tauto. done.
  - apply span_until_app in E as ->.
    destruct (chain_elem _ _ _ _ a e H) as [Ha _]; [set_solver|].
    rewrite (proj2 (Z.eqb_neq _ _) Ha). f_equal. symmetry. apply bool_decide_eq_true.
    destruct (decide (d ∈ (l1 ++ (a, e) :: l2).*2)); [done|]. naive_solver.
Qed.

Lemma ls_add_spec h s l new d :
  rep h s l -> new <> NULL -> h !! new = None ->
  exists h' s', add h s new d = Some (h', s') /\ rep h' s' ((new, d) :: l).
Proof.
  intros Hr Hnew Hfr. unfold add. rewrite (proj2 (Z.eqb_neq _ _) Hnew). simpl.
  do 2 eexists. split; [done|].
  exact (htrep_push_front h _ _ l new (mkNode (l_head s) d) Hr Hfr Hnew eq_refl).
Qed.

Lemma ls_addToEndOfList_spec h s l new d :
  rep h s l -> new <> NULL -> h !! new = None ->
  exists h' s', addToEndOfList h s new d = Some (h', s') /\ rep h' s' (l ++ [(new, d)]).
Proof.
  intros Hr Hnew Hfr. unfold addToEndOfList. rewrite (proj2 (Z.eqb_neq _ _) Hnew). simpl.
  pose proof (htrep_push_back h _ _ l new (mkNode NULL d) Hr Hfr Hnew eq_refl) as H.
  destruct (l_tail s =? NULL); [by eauto 10|].
  destruct H as (nt & -> & H). simpl. eauto 10.
Qed.

Lemma ls_removeHead_spec h s l :
  rep h s l ->
  exists h' s',
    removeHead h s = Some (snd <$> head l, h', s') /\ rep h' s' (list.tail l).
Proof.
  intros Hr. unfold removeHead. destruct l as [|[a d] l].
  - destruct Hr as [H ?]. simpl in H. rewrite H. simpl. do 2 eexists. by split.
  - apply htrep_pop in Hr as (-> & Ha & Hnin & n & Hn & Hd & Hr).
    rewrite (proj2 (Z.eqb_neq _ _) Ha), Hn. simpl. do 2 eexists.
    split; [by rewrite <- Hd|]. by apply htrep_delete_ne.
Qed.

Lemma ls_remove_spec h s l d :
  rep h s l ->
  exists h' s',
    remove h s d = Some (bool_decide (d ∈ l.*2), h', s') /\
    rep h' s' (remove_first (datum_is d) l).
Proof.
  intros Hr. pose proof (ls_walk_fuel _ _ _ Hr) as Hf. unfold remove.
  destruct l as [|[a e] l].
  { destruct Hr as [H ?]. simpl in H. rewrite H. simpl. do 2 eexists. by split. }
  destruct (htrep_pop _ _ _ _ _ _ Hr) as (Hh & Ha & Hnin & n & Hn & He & Hp).
  rewrite Hh, (proj2 (Z.eqb_neq _ _) Ha), Hn. simpl.
  change (n_datum n) with (payload n). rewrite He, remove_first_cons.
  unfold datum_is at 1. simpl. destruct (Z.eqb_spec e d) as [->|Hed].
  - rewrite bool_decide_true by set_solver. do 2 eexists. split; [done|].
    by apply htrep_delete_ne.
  - simpl in Hf. pose proof (walk_tail_spec (has_datum d) (datum_is d) h _ _ a e l n (fuel h)
      (fun _ _ _ => eq_refl) Hr Hn ltac:(lia)) as Hw.
    pose proof (datum_is_find l d) as Hff. unfold find_first in Hff.
    unfold remove_first. change (n_next n) with (next n).
    destruct (span_until (datum_is d) l) as [l1 [|[b f] l2]] eqn:E.
    + destruct Hw as [-> ->]. simpl in *. rewrite app_nil_r.
      rewrite bool_decide_false by set_solver. eauto 10.
    + destruct Hw as (m & x & prev & -> & Hm & Hl). rewrite Hl in Hr.
      destruct (htrep_elem _ _ _ _ b f Hr) as (Hb & nb & Hnb & _); [set_solver|].
      destruct (htrep_elem _ _ _ _ prev x Hr) as (_ & np & Hnp & _); [set_solver|].
      destruct (htrep_bypass _ _ _ _ _ _ _ _ _ _ _ Hr Hnp Hnb) as [Hr' Hbn].
      simpl in *. rewrite (proj2 (Z.eqb_neq _ _) Hb), Hnb. simpl. rewrite Hnp. simpl.
      do 2 eexists. split; [f_equal; f_equal; f_equal; symmetry|].
      * apply bool_decide_eq_true. right. destruct (decide (d ∈ l.*2)); naive_solver.
      * unfold rep. simpl. rewrite app_comm_cons, Hm, <- app_assoc. simpl.
        rewrite <- Hh. by apply htrep_delete_ne.
Qed.

Lemma next_node_spec h s l :
  rep h s l ->
  next_node h s NULL = Some (default NULL (fst <$> head l), snd <$> head l) /\
  forall l1 a d l2, l = l1 ++ (a, d) :: l2 ->
    next_node h s a = Some (default NULL (fst <$> head l2), snd <$> head l2).
Proof.
  intros [H _].
  assert (Hstep : forall p l', chain h p l' NULL ->
    (if p =? NULL then Some (NULL, None) else n ← h !! p; Some (p, Some (n_datum n)))
    = Some (default NULL (fst <$> head l'), snd <$> head l')).
  { intros p [|[b e] l'] Hc; simpl in Hc; [by subst|].
    destruct Hc as (-> & Hb & n & Hn & <- & _).
    rewrite (proj2 (Z.eqb_neq _ _) Hb), Hn. done. }
  split.
  - unfold next_node. simpl. by apply Hstep.
  - intros l1 a d l2 ->. apply chain_app in H as (m & _ & (-> & Ha & n & Hn & _ & H)).
    unfold next_node. rewrite (proj2 (Z.eqb_neq _ _) Ha), Hn. simpl. by apply Hstep.
Qed.

Lemma insertNext_spec h s l1 a e x l2 new d :
  rep h s (l1 ++ (a, e) :: x :: l2) -> new <> NULL -> h !! new = None ->
  exists h' s', insertNext h s a new d = Some (h', s') /\
    rep h' s' (l1 ++ (a, e) :: (new, d) :: x :: l2).
Proof.
  intros Hr Hnew Hfr.
  destruct (htrep_elem _ _ _ _ a e Hr) as (Ha & na & Hna & _); [set_solver|].
  assert (Hna' : new <> a) by congruence. destruct Hr as [H Ht]. unfold insertNext.
  rewrite (proj2 (Z.eqb_neq _ _) Ha), (proj2 (Z.eqb_neq _ _) Hnew), Hna. simpl.
  rewrite lookup_insert_ne, Hna by done. simpl. do 2 eexists. split; [done|].
  split.
  - exact (chain_link h _ l1 a e (x :: l2) na new (mkNode (n_next na) d)
      H Hna Hfr Hnew eq_refl).
  - rewrite Ht. destruct l2 as [|[u v] l2 _] using rev_ind.
    + destruct x as [b f]. change ([(b, f)]) with ([] ++ [(b, f)]).
      rewrite !app_comm_cons, !app_assoc, !last_addr_snoc. done.
    + rewrite !app_comm_cons, !app_assoc, !last_addr_snoc. done.
Qed.

Lemma ls_removeNext_spec h s l1 a e b f x l2 :
  rep h s (l1 ++ (a, e) :: (b, f) :: x :: l2) ->
  exists h' s', removeNext h s a = Some (true, h', s') /\
    rep h' s' (l1 ++ (a, e) :: x :: l2).
Proof.
  intros Hr.
  destruct (htrep_elem _ _ _ _ a e Hr) as (Ha & na & Hna & _); [set_solver|].
  destruct (htrep_elem _ _ _ _ b f Hr) as (Hb & nb & Hnb & _); [set_solver|].
  pose proof (htrep_head_null _ _ _ _ Hr) as Hh.
  assert (Hhd : l_head s <> NULL) by (rewrite Hh; by destruct l1).
  destruct (htrep_bypass _ _ _ _ _ _ _ _ _ _ _ Hr Hna Hnb) as [Hr' Hbn].
  assert (Hnx : n_next na = b).
  { destruct Hr as [H _].
    apply chain_app in H as (m & _ & (-> & _ & n & Hn & _ & (Heq & _))).
    by simplify_eq. }
  unfold removeNext.
  rewrite (proj2 (Z.eqb_neq _ _) Hhd), (proj2 (Z.eqb_neq _ _) Ha), Hna. simpl.
  rewrite Hnx, (proj2 (Z.eqb_neq _ _) Hb), Hnb. simpl. do 2 eexists. split; [done|].
  apply htrep_delete_ne; [done|].
  replace (l_tail s) with (if l_tail s =? b then a else l_tail s); [done|].
  destruct (Z.eqb_spec (l_tail s) b) as [E|]; [|done].
  destruct Hr as [_ Ht]. rewrite E in Ht. exfalso. revert Hbn. rewrite Ht.
  destruct l2 as [|[u v] l2 _] using rev_ind.
  - destruct x as [c g]. change ([(c, g)]) with ([] ++ [(c, g)]).
    rewrite !app_comm_cons, !app_assoc, !last_addr_snoc, fmap_app. set_solver.
  - rewrite !app_comm_cons, !app_assoc, !last_addr_snoc, !fmap_app. set_solver.
Qed.

(** The last two operations keep the tail pointer only when the affected node
    is not the last one.  Inserting after the last node leaves [tail] on the
    old last node, and the next append drops the inserted datum. *)
Lemma insertNext_at_tail h s l a e new d new2 d2 :
  rep h s (l ++ [(a, e)]) ->
  new <> NULL -> h !! new = None -> new2 <> NULL -> new2 <> new -> h !! new2 = None ->
  exists h1 s1 h2 s2,
    insertNext h s a new d = Some (h1, s1) /\
    addToEndOfList h1 s1 new2 d2 = Some (h2, s2) /\
    chain h2 (l_head s2) (l ++ [(a, e); (new2, d2)]) NULL.
Proof.
  intros Hr Hn1 Hf1 Hn2 Hne Hf2.
  destruct (htrep_elem _ _ _ _ a e Hr) as (Ha & na & Hna & Hd); [set_solver|].
  pose proof (htrep_head_null _ _ _ _ Hr) as Hh.
  assert (Hhd : l_head s <> NULL) by (rewrite Hh; by destruct l).
  assert (Hna1 : new <> a) by congruence. assert (Hna2 : new2 <> a) by congruence.
  destruct Hr as [H Ht]. rewrite last_addr_snoc in Ht.
  unfold insertNext, addToEndOfList.
  rewrite (proj2 (Z.eqb_neq _ _) Ha), (proj2 (Z.eqb_neq _ _) Hn1), Hna. simpl.
  rewrite lookup_insert_ne, Hna by done. simpl. do 4 eexists. split; [done|].
  rewrite (proj2 (Z.eqb_neq _ _) Hn2), Ht, (proj2 (Z.eqb_neq _ _) Ha),
    (proj2 (Z.eqb_neq _ _) Hhd). simpl.
  rewrite lookup_insert_ne, lookup_insert_eq by done. simpl. split; [done|].
  change ([(a, e); (new2, d2)]) with ([(a, e)] ++ [(new2, d2)]).
  rewrite app_assoc. apply chain_app. exists new2. split.
  - apply (chain_relink _ _ _ _ _ _ new).
    + eauto with k42.
    + by rewrite lookup_insert_ne, lookup_insert_eq.
    + apply chain_insert_ne.
      * rewrite fmap_app. intros Hin. apply (chain_addr_ne _ _ _ _ _ Hf2 H).
        by rewrite fmap_app.
      * apply (chain_relink _ _ _ _ _ na NULL); [eauto with k42| |eauto with k42].
        by rewrite lookup_insert_ne.
  - split_and!; [done..|]. eexists. rewrite lookup_insert_ne, lookup_insert_eq by done.
    done.
Qed.

(** Removing the last node through its predecessor leaves [tail] on freed
    memory: the next append writes through it. *)
Lemma removeNext_at_tail h s l a e b f new d :
  rep h s (l ++ [(a, e); (b, f)]) -> new <> NULL -> new <> b ->
  exists h1 s1,
    removeNext h s a = Some (true, h1, s1) /\
    l_tail s1 = b /\ h1 !! b = None /\ addToEndOfList h1 s1 new d = None.
Proof.
  intros Hr Hnew Hne.
  destruct (htrep_elem _ _ _ _ a e Hr) as (Ha & na & Hna & _); [set_solver|].
  destruct (htrep_elem _ _ _ _ b f Hr) as (Hb & nb & Hnb & _); [set_solver|].
  pose proof (htrep_head_null _ _ _ _ Hr) as Hh.
  assert (Hhd : l_head s <> NULL) by (rewrite Hh; by destruct l).
  destruct Hr as [H Ht].
  change ([(a, e); (b, f)]) with ([(a, e)] ++ [(b, f)]) in Ht.
  rewrite app_assoc, last_addr_snoc in Ht.
  assert (Hnx : n_next na = b).
  { apply chain_app in H as (m & _ & (-> & _ & n & Hn & _ & (Heq & _))). by simplify_eq. }
  unfold removeNext, addToEndOfList.
  rewrite (proj2 (Z.eqb_neq _ _) Hhd), (proj2 (Z.eqb_neq _ _) Ha), Hna. simpl.
  rewrite Hnx, (proj2 (Z.eqb_neq _ _) Hb), Hnb. simpl. do 2 eexists.
  split; [done|]. split_and!; [done|by rewrite lookup_delete_eq|].
  rewrite (proj2 (Z.eqb_neq _ _) Hnew), Ht, (proj2 (Z.eqb_neq _ _) Hb). simpl.
  by rewrite lookup_insert_ne, lookup_delete_eq by done.
Qed.

(** transferTo appends, for disjoint lists of one store. *)
Lemma transferTo_spec h s l lst k :
  rep h s l -> rep h lst k -> l.*1 ## k.*1 ->
  exists h' s' lst', transferTo h s lst = Some (h', s', lst') /\
    rep h' s' [] /\ rep h' lst' (k ++ l).
Proof.
  intros Hs Hk Hd. unfold transferTo, isEmpty.
  pose proof (htrep_head_null _ _ _ _ Hs) as Hh1.
  pose proof (htrep_head_null _ _ _ _ Hk) as Hh2.
  destruct (Z.eqb_spec (l_head s) NULL) as [E|E].
  - apply Hh1 in E as ->. rewrite app_nil_r. eauto 10.
  - destruct (Z.eqb_spec (l_head lst) NULL) as [E'|E'].
    + apply Hh2 in E' as ->. do 3 eexists. split; [done|]. split; done.
    + destruct k as [|[a e] k _] using rev_ind; [tauto|].
      destruct Hk as [Hk Hkt]. rewrite last_addr_snoc in Hkt.
      destruct (chain_last _ _ _ _ _ _ Hk) as (n & Hn & _).
      rewrite Hkt, Hn. simpl. do 3 eexists. split; [done|]. split; [done|].
      destruct Hs as [Hs Hst]. split; simpl.
      * apply chain_app. exists (l_head s). split.
        -- apply (chain_relink _ _ _ _ _ n NULL); eauto with k42.
        -- apply chain_insert_ne; [|done]. rewrite fmap_app in Hd. set_solver.
      * rewrite Hst. destruct l as [|[u v] l _] using rev_ind; [tauto|].
        by rewrite app_assoc, !last_addr_snoc.
Qed.

(** ** Refinement of an abstract sequence *)

Inductive call := Find (d : Z) | Add (d : Z) | AddToEnd (d : Z) | Remove (d : Z) | RemoveHead.

Inductive reply := RVoid | RFlag (b : bool) | RDatum (d : option Z).

(** One call on the pointer structure; [alloc] picks the node [new] returns. *)
Definition exec (alloc : gmap Z Node -> Z) h s (c : call)
    : option (reply * gmap Z Node * t) :=
  match c with
  | Find d => b ← find h s d; Some (RFlag b, h, s)
  | Add d => '(h', s') ← add h s (alloc h) d; Some (RVoid, h', s')
  | AddToEnd d => '(h', s') ← addToEndOfList h s (alloc h) d; Some (RVoid, h', s')
  | Remove d => '(b, h', s') ← remove h s d; Some (RFlag b, h', s')
  | RemoveHead => '(o, h', s') ← removeHead h s; Some (RDatum o, h', s')
  end.

Fixpoint run (alloc : gmap Z Node -> Z) h s (cs : list call)
    : option (list reply * gmap Z Node * t) :=
  match cs with
  | [] => Some ([], h, s)
  | c :: cs' =>
      '(r, h1, s1) ← exec alloc h s c;
      '(rs, h2, s2) ← run alloc h1 s1 cs';
      Some (r :: rs, h2, s2)
  end.

(** The specification: the same calls on a list of data. *)
Definition spec_exec (q : list Z) (c : call) : reply * list Z :=
  match c with
  | Find d => (RFlag (bool_decide (d ∈ q)), q)
  | Add d => (RVoid, d :: q)
  | AddToEnd d => (RVoid, q ++ [d])
  | Remove d => (RFlag (bool_decide (d ∈ q)), remove_first (Z.eqb d) q)
  | RemoveHead => (RDatum (head q), list.tail q)
  end.

Fixpoint spec_run (q : list Z) (cs : list call) : list reply * list Z :=
  match cs with
  | [] => ([], q)
  | c :: cs' =>
      let '(r, q1) := spec_exec q c in
      let '(rs, q2) := spec_run q1 cs' in (r :: rs, q2)
  end.

(** An allocator never hands out null or a live node. *)
Definition alloc_ok (alloc : gmap Z Node -> Z) : Prop :=
  forall h, alloc h <> NULL /\ h !! alloc h = None.

Lemma remove_first_data l d :
  (remove_first (datum_is d) l).*2 = remove_first (Z.eqb d) l.*2.
Proof.
  induction l as [|[a e] l IH]; [done|].
  csimpl. rewrite !remove_first_cons.
  replace (datum_is d (a, e)) with (d =? e) by apply Z.eqb_sym.
  destruct (d =? e); [done|]. csimpl. by rewrite IH.
Qed.

Lemma ls_exec_refines alloc h s l c :
  alloc_ok alloc -> rep h s l ->
  exists r h' s' l', exec alloc h s c = Some (r, h', s') /\ rep h' s' l' /\
    spec_exec l.*2 c = (r, l'.*2).
Proof.
  intros Hal Hr. destruct (Hal h) as [Hnew Hfr].
  destruct c as [d|d|d|d|]; simpl.
  - rewrite (ls_find_spec _ _ _ _ Hr). simpl. eauto 10.
  - destruct (ls_add_spec _ _ _ (alloc h) d Hr Hnew Hfr) as (h' & s' & -> & Hr').
    simpl. eauto 10.
  - destruct (ls_addToEndOfList_spec _ _ _ (alloc h) d Hr Hnew Hfr) as (h' & s' & -> & Hr').
    simpl. do 4 eexists. split_and!; [done..|]. by rewrite fmap_app.
  - destruct (ls_remove_spec _ _ _ d Hr) as (h' & s' & -> & Hr').
    simpl. exists (RFlag (bool_decide (d ∈ l.*2))), h', s', (remove_first (datum_is d) l).
    by rewrite remove_first_data.
  - destruct (ls_removeHead_spec _ _ _ Hr) as (h' & s' & -> & Hr').
    simpl. do 4 eexists. split_and!; [done..|]. by destruct l as [|[? ?] ?].
Qed.

(** C27: the pointer implementation of ListSimple refines the abstract list:
    every sequence of find, add, addToEndOfList, remove and removeHead calls
    runs to completion (no null or dangling pointer, no failed assertion), its
    replies are those of the list of data, and the final nodes hold that list. *)
Theorem list_simple_refines alloc h s l cs :
  alloc_ok alloc -> rep h s l ->
  exists rs h' s' l', run alloc h s cs = Some (rs, h', s') /\ rep h' s' l' /\
    spec_run l.*2 cs = (rs, l'.*2).
Proof.
  intros Hal. revert h s l. induction cs as [|c cs IH]; intros h s l Hr; simpl.
  - eauto 10.
  - destruct (ls_exec_refines alloc h s l c Hal Hr) as (r & h1 & s1 & l1 & -> & Hr1 & ->).
    destruct (IH h1 s1 l1 Hr1) as (rs & h2 & s2 & l2 & Hrun & Hr2 & Hs).
    simpl. rewrite Hrun, Hs. simpl. eauto 10.
Qed.

(** An allocator for the examples: one past the largest address in use. *)
Definition bump_alloc h : Z := fresh (A := Z) ({[0]} ∪ dom h : gset Z).

Lemma bump_alloc_ok : alloc_ok bump_alloc.
Proof.
  intros h. unfold bump_alloc.
  pose proof (is_fresh ({[0]} ∪ dom h : gset Z)) as Hf.
  apply not_elem_of_union in Hf as [H1 H2]. split; [set_solver|].
  by apply not_elem_of_dom.
Qed.

Lemma list_simple_refines_witness :
  exists rs h' s' l',
    run bump_alloc ∅ reinit [Add 7; AddToEnd 8; Add 6; Remove 7; Find 8; RemoveHead]
      = Some (rs, h', s') /\ rep h' s' l' /\
    spec_run [] [Add 7; AddToEnd 8; Add 6; Remove 7; Find 8; RemoveHead] = (rs, l'.*2).
Proof.
  apply (list_simple_refines bump_alloc ∅ reinit []).
  - apply bump_alloc_ok.
  - apply htrep_nil.
Defined.

(** TransferTo appends all nodes of one list to another of the same store,
    leaving the source empty, and both lists well formed. *)
Theorem transferTo_appends h s l lst k :
  rep h s l -> rep h lst k -> l.*1 ## k.*1 ->
  exists h' s' lst', transferTo h s lst = Some (h', s', lst') /\
    rep h' s' [] /\ rep h' lst' (k ++ l).
Proof. apply transferTo_spec. Qed.

Lemma transferTo_appends_witness :
  let h : gmap Z Node := {[ 16 := mkNode 32 5; 32 := mkNode 0 6; 48 := mkNode 0 7 ]} in
  exists h' s' lst', transferTo h (mkList 16 32) (mkList 48 48) = Some (h', s', lst') /\
    rep h' s' [] /\ rep h' lst' ([(48, 7)] ++ [(16, 5); (32, 6)]).
Proof.
  apply transferTo_appends.
  - split; [|done]. repeat (split; [done|]; split; [done|]; eexists; split_and!; [done..|]). done.
  - split; [|done]. repeat (split; [done|]; split; [done|]; eexists; split_and!; [done..|]). done.
  - apply elem_of_disjoint. simpl. set_solver by lia.
Defined.

(** The tail pointer defect: removeNext of the last node leaves tail
    pointing at the freed node, so the next append is undefined behaviour, and
    insertNext after the last node leaves tail behind the list's end, so the
    next append unlinks the inserted node. *)
Theorem tail_not_maintained h s l a e b f new d :
  rep h s (l ++ [(a, e); (b, f)]) -> new <> NULL -> h !! new = None ->
  (exists h1 s1, removeNext h s a = Some (true, h1, s1) /\
     l_tail s1 = b /\ h1 !! b = None /\ addToEndOfList h1 s1 new d = None) /\
  (forall new2 d2, new2 <> NULL -> new2 <> new -> h !! new2 = None ->
     exists h1 s1 h2 s2, insertNext h s b new d = Some (h1, s1) /\
       addToEndOfList h1 s1 new2 d2 = Some (h2, s2) /\
       chain h2 (l_head s2) (l ++ [(a, e); (b, f); (new2, d2)]) NULL).
Proof.
  intros Hr Hn Hf. split.
  - eapply removeNext_at_tail; [done..|]. intros ->.
    destruct (htrep_elem _ _ _ _ b f Hr) as (_ & n & ? & _); [set_solver|congruence].
  - intros new2 d2 Hn2 Hne Hf2.
    change ([(a, e); (b, f)]) with ([(a, e)] ++ [(b, f)]) in Hr.
    change ([(a, e); (b, f); (new2, d2)]) with ([(a, e)] ++ [(b, f); (new2, d2)]).
    rewrite app_assoc in *. by eapply insertNext_at_tail.
Qed.

Lemma tail_not_maintained_witness :
  let h : gmap Z Node := {[ 16 := mkNode 32 5; 32 := mkNode 0 6 ]} in
  let s := mkList 16 32 in
  (exists h1 s1, removeNext h s 16 = Some (true, h1, s1) /\
     l_tail s1 = 32 /\ h1 !! 32 = None /\ addToEndOfList h1 s1 48 9 = None) /\
  (forall new2 d2, new2 <> NULL -> new2 <> 48 -> h !! new2 = None ->
     exists h1 s1 h2 s2, insertNext h s 32 48 9 = Some (h1, s1) /\
       addToEndOfList h1 s1 new2 d2 = Some (h2, s2) /\
       chain h2 (l_head s2) ([] ++ [(16, 5); (32, 6); (new2, d2)]) NULL).
Proof.
  cbv zeta. apply (tail_not_maintained _ (mkList 16 32) [] 16 5 32 6 48 9); [|done..].
  split; [|done]. repeat (split; [done|]; split; [done|]; eexists; split_and!; [done..|]). done.
Defined.

End ListSimple.
