(* ===== verification/ListSimpleKey.v ===== *)
(** * ListSimpleKey: the key/datum list of lib/libc/misc/ListSimpleKey.C

    [ListSimpleKeyBase] and its locked subclass, on a store of nodes as in
    [ListSimple].  [KeyQueue] is the interface the reader-writer lock uses. *)

From stdpp Require Import base numbers option gmap list.
From S2P Require Import K42 Prelude HTList.

Module ListSimpleKey.

(** struct ListSimpleKeyNode *)
Record Node := mkNode { n_next : Z; n_key : Z; n_datum : Z }.

Record t := mkList { l_head : Z; l_tail : Z }.

#[export] Instance node_linked : Linked Node (Z * Z) := {|
  next := n_next; set_next := fun p n => mkNode p (n_key n) (n_datum n);
  payload := fun n => (n_key n, n_datum n);
  next_set_next := fun _ _ => eq_refl; payload_set_next := fun _ _ => eq_refl;
|}.

Implicit Types (h : gmap Z Node) (s : t) (l : list (Z * (Z * Z))).

Definition reinit : t := mkList NULL NULL.

Definition fuel h : nat := S (size h).

Definition has_key (k : Z) (_ : Z) (n : Node) : bool := n_key n =? k.
Definition has_datum (d : Z) (_ : Z) (n : Node) : bool := n_datum n =? d.

(** Returns the datum, [None] for "not found" (the C function returns 0). *)
Definition find h s (k : Z) : option (option Z) :=
  '(_, node) ← walk (has_key k) (fuel h) h NULL (l_head s);
  if node =? NULL then Some None
  else n ← h !! node; Some (Some (n_datum n)).

Definition has h s (d : Z) : option bool :=
  '(_, node) ← walk (has_datum d) (fuel h) h NULL (l_head s);
  Some (negb (node =? NULL)).

Definition add h s (new k d : Z) : option (gmap Z Node * t) :=
  _ ← assertK (negb (new =? NULL));
  Some (<[new := mkNode (l_head s) k d]> h,
        mkList new (if l_tail s =? NULL then new else l_tail s)).

Definition addToEndOfList h s (new k d : Z) : option (gmap Z Node * t) :=
  _ ← assertK (negb (new =? NULL));
  let h1 := <[new := mkNode NULL k d]> h in
  let head1 := if l_head s =? NULL then new else l_head s in
  if l_tail s =? NULL then Some (h1, mkList head1 new)
  else
    n ← h1 !! l_tail s;
    Some (<[l_tail s := set_next new n]> h1, mkList head1 new).

Definition remove h s (k : Z) : option (option Z * gmap Z Node * t) :=
  let node := l_head s in
  if node =? NULL then Some (None, h, s)
  else
    n ← h !! node;
    if n_key n =? k then
      Some (Some (n_datum n), delete node h,
            mkList (n_next n) (if l_tail s =? node then NULL else l_tail s))
    else
      '(prev, cur) ← walk (has_key k) (fuel h) h node (n_next n);
      if cur =? NULL then Some (None, h, s)
      else
        c ← h !! cur;
        p ← h !! prev;
        Some (Some (n_datum c), delete cur (<[prev := set_next (n_next c) p]> h),
              mkList (l_head s) (if l_tail s =? cur then prev else l_tail s)).

Definition removeHead h s : option (option (Z * Z) * gmap Z Node * t) :=
  let node := l_head s in
  if node =? NULL then Some (None, h, s)
  else
    n ← h !! node;
    Some (Some (n_key n, n_datum n), delete node h,
          mkList (n_next n) (if l_tail s =? node then NULL else l_tail s)).

Definition next_node h s (curr : Z) : option (Z * option (Z * Z)) :=
  node ← (if curr =? NULL then Some (l_head s) else n_next <$> h !! curr);
  if node =? NULL then Some (NULL, None)
  else n ← h !! node; Some (node, Some (n_key n, n_datum n)).

(** ** Invariant and specifications *)

Definition rep h s l : Prop := htrep h (l_head s) (l_tail s) l.

Definition key_is (k : Z) (x : Z * (Z * Z)) : bool := x.2.1 =? k.

Lemma lk_walk_fuel h s l : rep h s l -> (length l < fuel h)%nat.
Proof. intros [H _]. pose proof (chain_length _ _ _ H). unfold fuel. lia. Qed.

Lemma lk_find_spec h s l k :
  rep h s l -> find h s k = Some ((fun x => x.2.2) <$> find_first (key_is k) l).
Proof.
  intros Hr. pose proof (lk_walk_fuel _ _ _ Hr) as Hf. destruct Hr as [H _]. unfold find.
  pose proof (walk_spec (has_key k) (key_is k) h l NULL (l_head s) (fuel h)
    (fun _ _ _ => eq_refl) H Hf) as Hw.
  unfold find_first. destruct (span_until (key_is k) l) as [l1 l2] eqn:E.
  rewrite Hw. destruct l2 as [|[a e] l2]; [done|]. simpl.
  apply span_until_app in E as ->.
  destruct (chain_elem _ _ _ _ a e H) as (Ha & n & Hn & <-); [set_solver|].
  by rewrite (proj2 (Z.eqb_neq _ _) Ha), Hn.
Qed.

Lemma lk_add_spec h s l new k d :
  rep h s l -> new <> NULL -> h !! new = None ->
  exists h' s', add h s new k d = Some (h', s') /\ rep h' s' ((new, (k, d)) :: l).
Proof.
  intros Hr Hnew Hfr. unfold add. rewrite (proj2 (Z.eqb_neq _ _) Hnew). simpl.
  do 2 eexists. split; [done|].
  exact (htrep_push_front h _ _ l new (mkNode (l_head s) k d) Hr Hfr Hnew eq_refl).
Qed.

Lemma lk_addToEndOfList_spec h s l new k d :
  rep h s l -> new <> NULL -> h !! new = None ->
  exists h' s', addToEndOfList h s new k d = Some (h', s') /\
    rep h' s' (l ++ [(new, (k, d))]).
Proof.
  intros Hr Hnew Hfr. unfold addToEndOfList. rewrite (proj2 (Z.eqb_neq _ _) Hnew). simpl.
  pose proof (htrep_push_back h _ _ l new (mkNode NULL k d) Hr Hfr Hnew eq_refl) as H.
  destruct (l_tail s =? NULL); [by eauto 10|].
  destruct H as (nt & -> & H). simpl. eauto 10.
Qed.

Lemma lk_removeHead_spec h s l :
  rep h s l ->
  exists h' s',
    removeHead h s = Some (snd <$> head l, h', s') /\ rep h' s' (list.tail l).
Proof.
  intros Hr. unfold removeHead. destruct l as [|[a d] l].
  - destruct Hr as [H ?]. simpl in H. rewrite H. simpl. do 2 eexists. by split.
  - apply htrep_pop in Hr as (-> & Ha & Hnin & n & Hn & Hd & Hr).
    rewrite (proj2 (Z.eqb_neq _ _) Ha), Hn. simpl. do 2 eexists.
    split; [by rewrite <- Hd|]. by apply htrep_delete_ne.
Qed.

Lemma lk_remove_spec h s l k :
  rep h s l ->
  exists h' s',
    remove h s k = Some ((fun x => x.2.2) <$> find_first (key_is k) l, h', s') /\
    rep h' s' (remove_first (key_is k) l).
Proof.
  intros Hr. pose proof (lk_walk_fuel _ _ _ Hr) as Hf. unfold remove.
  destruct l as [|[a [ka da]] l].
  { destruct Hr as [H ?]. simpl in H. rewrite H. simpl. do 2 eexists. by split. }
  destruct (htrep_pop _ _ _ _ _ _ Hr) as (Hh & Ha & Hnin & n & Hn & He & Hp).
  rewrite Hh, (proj2 (Z.eqb_neq _ _) Ha), Hn. simpl.
  assert (n_key n = ka /\ n_datum n = da) as [<- <-].
  { change (payload n) with (n_key n, n_datum n) in He. by simplify_eq. }
  rewrite find_first_cons, remove_first_cons. unfold key_is at 1 3. simpl.
  destruct (Z.eqb_spec (n_key n) k) as [Ek|Ek].
  - do 2 eexists. split; [done|]. by apply htrep_delete_ne.
  - simpl in Hf. pose proof (walk_tail_spec (has_key k) (key_is k) h _ _ _ _ l n (fuel h)
      (fun _ _ _ => eq_refl) Hr Hn ltac:(lia)) as Hw.
    unfold find_first, remove_first. change (n_next n) with (next n).
    destruct (span_until (key_is k) l) as [l1 [|[b f] l2]] eqn:E.
    + destruct Hw as [-> ->]. simpl in *. rewrite app_nil_r. eauto 10.
    + destruct Hw as (m & x & prev & -> & Hm & Hl). rewrite Hl in Hr.
      destruct (htrep_elem _ _ _ _ b f Hr) as (Hb & nb & Hnb & <-); [set_solver|].
      destruct (htrep_elem _ _ _ _ prev x Hr) as (_ & np & Hnp & _); [set_solver|].
      destruct (htrep_bypass _ _ _ _ _ _ _ _ _ _ _ Hr Hnp Hnb) as [Hr' Hbn].
      simpl in *. rewrite (proj2 (Z.eqb_neq _ _) Hb), Hnb. simpl. rewrite Hnp. simpl.
      do 2 eexists. split; [done|].
      unfold rep. simpl. rewrite app_comm_cons, Hm, <- app_assoc. simpl.
      rewrite <- Hh. by apply htrep_delete_ne.
Qed.

(** ** ListSimpleKeyLockedBase *)

(** The lock is a flag; acquiring a held lock would block the caller, which a
    sequential run cannot continue from. *)
Record locked := mkLocked { k_base : t; k_lock : bool }.

(** [AutoLock<BLock> al(&lock)] around [f]: acquire now, release on return. *)
Definition autolock {A} (f : gmap Z Node -> t -> option (A * gmap Z Node * t))
    h (s : locked) : option (A * gmap Z Node * locked) :=
  _ ← assertK (negb (k_lock s));
  '(r, h', b) ← f h (k_base s);
  Some (r, h', mkLocked b false).

Definition void (r : option (gmap Z Node * t)) : option (unit * gmap Z Node * t) :=
  '(h', s') ← r; Some (tt, h', s').

Definition locked_find h (s : locked) (k : Z) :=
  autolock (fun h b => r ← find h b k; Some (r, h, b)) h s.

Definition locked_add h (s : locked) (new k d : Z) :=
  autolock (fun h b => void (add h b new k d)) h s.

Definition locked_addToEndOfList h (s : locked) (new k d : Z) :=
  autolock (fun h b => void (addToEndOfList h b new k d)) h s.

(** Returns success and the datum now associated with the key. *)
Definition locked_addUnique h (s : locked) (new k d : Z) :=
  autolock (fun h b =>
    r ← find h b k;
    match r with
    | None => '(h', b') ← add h b new k d; Some ((true, d), h', b')
    | Some d0 => Some ((false, d0), h, b)
    end) h s.

Definition locked_remove h (s : locked) (k : Z) :=
  autolock (fun h b => remove h b k) h s.

Definition locked_removeHead h (s : locked) :=
  autolock (fun h b => removeHead h b) h s.

(** The lock is taken by the caller for an iteration. *)
Definition locked_next h (s : locked) (curr : Z) := next_node h (k_base s) curr.

Definition locked_getHead h (s : locked) :=
  autolock (fun h b =>
    if negb (l_head b =? NULL) then
      n ← h !! l_head b; Some (Some (n_key n, n_datum n), h, b)
    else Some (None, h, b)) h s.

Definition locked_rep h (s : locked) l : Prop := rep h (k_base s) l /\ k_lock s = false.

Definition keys l : list Z := (fun x => x.2.1) <$> l.

Lemma find_first_key l k : find_first (key_is k) l = None <-> k ∉ keys l.
Proof.
  unfold keys. rewrite find_first_None, Forall_forall, list_elem_of_fmap. split.
  - intros H ([a [k' d]] & -> & Hin). specialize (H _ Hin).
    unfold key_is in H. simpl in H. by rewrite Z.eqb_refl in H.
  - intros H [a [k' d]] Hin. unfold key_is. simpl. apply Z.eqb_neq. intros ->.
    apply H. by exists (a, (k, d)).
Qed.

(** AddUnique on the locked key list: it always returns with the lock
    released; when the key is new it is added with the given datum, otherwise
    nothing changes and the stored datum is reported; keys stay distinct and a
    following find returns the reported datum. *)
Theorem addUnique_keys_distinct h (s : locked) l new k d :
  locked_rep h s l -> NoDup (keys l) -> new <> NULL -> h !! new = None ->
  exists ok d' h' (s' : locked) l',
    locked_addUnique h s new k d = Some ((ok, d'), h', s') /\
    locked_rep h' s' l' /\ NoDup (keys l') /\
    ok = bool_decide (k ∉ keys l) /\
    l' = (if ok then (new, (k, d)) :: l else l) /\
    locked_find h' s' k = Some (Some d', h', s').
Proof.
  intros [Hr Hlk] Hnd Hnew Hfr. destruct s as [b lk]. simpl in *. subst lk.
  unfold locked_addUnique, autolock, locked_find. simpl.
  rewrite (lk_find_spec _ _ _ _ Hr). simpl. pose proof (find_first_key l k) as Hk.
  destruct (find_first (key_is k) l) as [x|] eqn:E; simpl.
  - exists false, (x.2.2), h, (mkLocked b false), l. split_and!; [done..| |done|].
    + symmetry. apply bool_decide_eq_false. intros ?%Hk. done.
    + unfold autolock. simpl. rewrite (lk_find_spec _ _ _ _ Hr), E. done.
  - destruct (lk_add_spec _ _ _ new k d Hr Hnew Hfr) as (h' & b' & -> & Hr').
    simpl. exists true, d, h', (mkLocked b' false), ((new, (k, d)) :: l).
    split_and!; [done..| | |done|].
    + simpl. constructor; [by apply Hk|done].
    + symmetry. apply bool_decide_eq_true. by apply Hk.
    + unfold autolock. simpl. rewrite (lk_find_spec _ _ _ _ Hr'), find_first_cons.
      unfold key_is at 1. simpl. by rewrite Z.eqb_refl.
Qed.

Lemma addUnique_keys_distinct_witness :
  let h : gmap Z Node := {[ 16 := mkNode 0 3 5 ]} in
  exists ok d' h' (s' : locked) l',
    locked_addUnique h (mkLocked (mkList 16 16) false) 32 4 6 = Some ((ok, d'), h', s') /\
    locked_rep h' s' l' /\ NoDup (keys l') /\
    ok = bool_decide (4 ∉ keys [(16, (3, 5))]) /\
    l' = (if ok then (32, (4, 6)) :: [(16, (3, 5))] else [(16, (3, 5))]) /\
    locked_find h' s' 4 = Some (Some d', h', s').
Proof.
  apply addUnique_keys_distinct; [|apply NoDup_singleton|done|done].
  split; [|done]. split; [|done].
  split; [done|]. split; [done|]. eexists. split_and!; done.
Defined.

End ListSimpleKey.

(** ** The queue interface

    What [TmpRWLock] needs of its [waiters] list: an implementation [Q] with a
    representation predicate into lists of (key, datum) pairs. *)
Class KeyQueue (Q : Type) := {
  kq_rep : Q -> list (Z * Z) -> Prop;
  kq_find : Q -> Z -> option (option Z);
  kq_addToEnd : Q -> Z -> Z -> option Q;
  kq_remove : Q -> Z -> option (option Z * Q);
  kq_removeHead : Q -> option (option (Z * Z) * Q);
  kq_find_ok : forall q l k, kq_rep q l ->
    kq_find q k = Some (snd <$> find_first (fun x => x.1 =? k) l);
  kq_addToEnd_ok : forall q l k d, kq_rep q l ->
    exists q', kq_addToEnd q k d = Some q' /\ kq_rep q' (l ++ [(k, d)]);
  kq_remove_ok : forall q l k, kq_rep q l ->
    exists q', kq_remove q k = Some (snd <$> find_first (fun x => x.1 =? k) l, q') /\
      kq_rep q' (remove_first (fun x => x.1 =? k) l);
  kq_removeHead_ok : forall q l, kq_rep q l ->
    exists q', kq_removeHead q = Some (head l, q') /\ kq_rep q' (list.tail l);
}.

Section keyqueue.
Import ListSimpleKey.

(** An allocator for list nodes. *)
Class NodeAlloc := {
  alloc_node : gmap Z Node -> Z;
  alloc_node_ok : forall h, alloc_node h <> NULL /\ h !! alloc_node h = None;
}.

Context `{!NodeAlloc}.

Lemma find_first_snd l k :
  find_first (fun x => x.1 =? k) l.*2 = snd <$> find_first (key_is k) l.
Proof.
  induction l as [|[a [k' d]] l IH]; [done|].
  csimpl. rewrite !find_first_cons. unfold key_is at 1. simpl.
  destruct (k' =? k); [done|]. apply IH.
Qed.

Lemma remove_first_snd l k :
  remove_first (fun x => x.1 =? k) l.*2 = (remove_first (key_is k) l).*2.
Proof.
  induction l as [|[a [k' d]] l IH]; [done|].
  csimpl. rewrite !remove_first_cons. unfold key_is at 1. simpl.
  destruct (k' =? k); [done|]. csimpl. by rewrite IH.
Qed.

Definition repack {A} (r : option (A * gmap Z Node * t)) : option (A * (gmap Z Node * t)) :=
  '(x, h, s) ← r; Some (x, (h, s)).

(** The pointer list implements the queue. *)
#[export] Program Instance list_keyqueue : KeyQueue (gmap Z Node * t) := {|
  kq_rep q l := exists l', rep q.1 q.2 l' /\ l = l'.*2;
  kq_find q k := find q.1 q.2 k;
  kq_addToEnd q k d := addToEndOfList q.1 q.2 (alloc_node q.1) k d;
  kq_remove q k := repack (remove q.1 q.2 k);
  kq_removeHead q := repack (removeHead q.1 q.2);
|}.
Next Obligation.
  intros q l k (l' & Hr & ->). rewrite (lk_find_spec _ _ _ _ Hr), find_first_snd.
  by rewrite <- option_fmap_compose.
Qed.
Next Obligation.
  intros q l k d (l' & Hr & ->). destruct (alloc_node_ok q.1) as [H1 H2].
  destruct (lk_addToEndOfList_spec _ _ _ _ k d Hr H1 H2) as (h' & s' & -> & Hr').
  exists (h', s'). split; [done|]. exists (l' ++ [(alloc_node q.1, (k, d))]).
  by rewrite fmap_app.
Qed.
Next Obligation.
  intros q l k (l' & Hr & ->).
  destruct (lk_remove_spec _ _ _ k Hr) as (h' & s' & -> & Hr'). simpl.
  exists (h', s'). rewrite find_first_snd, <- option_fmap_compose. split; [done|].
  exists (remove_first (key_is k) l'). by rewrite remove_first_snd.
Qed.
Next Obligation.
  intros q l (l' & Hr & ->).
  destruct (lk_removeHead_spec _ _ _ Hr) as (h' & s' & -> & Hr'). simpl.
  exists (h', s'). split; [by destruct l'|]. exists (list.tail l').
  split; [done|]. by destruct l'.
Qed.

End keyqueue.
