(* ===== verification/HashSimple.v ===== *)
(** * HashSimple: the chained hash table of lib/libc/misc/HashSimple.C

    A chain of nodes is owned by exactly one bucket and no pointer to a node
    leaves the class, so a bucket is modelled by the list of its (key, datum)
    pairs, in chain order.  The table itself is an array indexed with bounds:
    an access outside it is stuck ([None]).  [mem] lists the sizes of the
    tables obtained from ALLOC and not yet returned. *)

From stdpp Require Import base numbers option gmap list.
From S2P Require Import K42 Prelude.

Module HashSimple.

Abbreviation node := (Z * Z)%type (only parsing).

Record t := mkHash {
  hashTable : list (list node);
  hashMask : Z;
  numNodes : Z;
  isInitial : bool;   (* hashTable == initialTable *)
  mem : list Z;
}.

Definition InitialHashTableSize : Z := 4.
Definition sizeof_HashNode : Z := 8.

(** The constructor. *)
Definition HashSimpleBase : t :=
  mkHash (replicate (Z.to_nat InitialHashTableSize) []) (InitialHashTableSize - 1) 0 true [].

Section ops.
Context (keyshift : Z).

Definition hash (s : t) (key : Z) : Z := Z.land (Z.shiftr key keyshift) (hashMask s).

Definition enqueue (s : t) (n : node) : option t :=
  let index := hash s n.1 in
  chainHead ← hashTable s !! Z.to_nat index;
  Some (mkHash (<[Z.to_nat index := n :: chainHead]> (hashTable s))
          (hashMask s) (uadd (numNodes s) 1) (isInitial s) (mem s)).

(** ALLOC::free(table, size): returning a block that was not allocated is stuck. *)
Definition free_table (m : list Z) (size : Z) : option (list Z) :=
  _ ← find_first (Z.eqb size) m; Some (remove_first (Z.eqb size) m).

Definition destroy (s : t) : option t :=
  _ ← assertK (numNodes s =? 0);
  m ← (if isInitial s then Some (mem s)
       else free_table (mem s) (umul sizeof_HashNode (uadd (hashMask s) 1)));
  Some (mkHash [] (hashMask s) (numNodes s) (isInitial s) m).

(** while (2*numNodes >= i) i = 2*i; *)
Fixpoint grow (fuel : nat) (num i : Z) : option Z :=
  match fuel with
  | O => None
  | S fuel => if i <=? umul 2 num then grow fuel num (umul 2 i) else Some i
  end.

Fixpoint enqueue_chain (s : t) (c : list node) : option t :=
  match c with
  | [] => Some s
  | e :: nexte => s' ← enqueue s e; enqueue_chain s' nexte
  end.

Fixpoint enqueue_table (s : t) (tbl : list (list node)) : option t :=
  match tbl with
  | [] => Some s
  | c :: tbl' => s' ← enqueue_chain s c; enqueue_table s' tbl'
  end.

(** [ok]: whether ALLOC::alloc returned a table. *)
Definition extendHash (s : t) (ok : bool) : option t :=
  let i0 := umul 2 (uadd (hashMask s) 1) in
  let i1 := if i0 <? 128 then 128 else i0 in
  i ← grow 64 (numNodes s) i1;
  if negb ok then Some s
  else
    let size := umul sizeof_HashNode i in
    let s1 := mkHash (replicate (Z.to_nat i) []) (usub i 1) 0 false (size :: mem s) in
    s2 ← enqueue_table s1 (hashTable s);
    _ ← assertK (numNodes s2 =? numNodes s);
    m ← (if isInitial s then Some (mem s2)
         else free_table (mem s2) (umul sizeof_HashNode (uadd (hashMask s) 1)));
    Some (mkHash (hashTable s2) (hashMask s2) (numNodes s2) false m).

Definition key_is (key : Z) (n : node) : bool := n.1 =? key.

Definition find (s : t) (key : Z) : option (option Z) :=
  chain ← hashTable s !! Z.to_nat (hash s key);
  Some (snd <$> find_first (key_is key) chain).

Definition add (s : t) (key datum : Z) (ok : bool) : option t :=
  s1 ← (if hashMask s <? umul 2 (numNodes s) then extendHash s ok else Some s);
  r ← find s1 key;
  _ ← assertK (match r with None => true | Some _ => false end);
  enqueue s1 (key, datum).

(** The chain without the node holding [key], and that node's datum. *)
Fixpoint chain_remove (key : Z) (c : list node) : option (Z * list node) :=
  match c with
  | [] => None
  | n :: nxt =>
      if n.1 =? key then Some (n.2, nxt)
      else match chain_remove key nxt with
           | Some (d, c') => Some (d, n :: c')
           | None => None
           end
  end.

Definition remove (s : t) (key : Z) : option (option Z * t) :=
  let index := Z.to_nat (hash s key) in
  chain ← hashTable s !! index;
  match chain_remove key chain with
  | Some (d, c') =>
      Some (Some d, mkHash (<[index := c']> (hashTable s)) (hashMask s)
                      (usub (numNodes s) 1) (isInitial s) (mem s))
  | None => Some (None, s)
  end.

(** for (; index <= hashMask; index++) if (hashTable[index].chainHead != 0) break;
    with the index reached and the chain found there, if any. *)
Fixpoint scan (fuel : nat) (s : t) (index : Z) : option (Z * option (node * list node)) :=
  match fuel with
  | O => None
  | S fuel =>
      if index <=? hashMask s then
        chain ← hashTable s !! Z.to_nat index;
        match chain with
        | [] => scan fuel s (uadd index 1)
        | n :: nxt => Some (index, Some (n, nxt))
        end
      else Some (index, None)
  end.

Definition found (r : Z * option (node * list node)) : option node := fst <$> r.2.

Definition scan_fuel (s : t) : nat := Z.to_nat (hashMask s + 2).

(** Returns the removed pair and the new value of [restart]. *)
Definition removeNext (s : t) (restart : Z) : option (option node * Z * t) :=
  '(restart', r) ← scan (scan_fuel s) s restart;
  match r with
  | Some (n, nxt) =>
      Some (Some n, restart',
            mkHash (<[Z.to_nat restart' := nxt]> (hashTable s)) (hashMask s)
              (usub (numNodes s) 1) (isInitial s) (mem s))
  | None => Some (None, restart', s)
  end.

Definition getFirst (s : t) : option (option node) :=
  r ← scan (scan_fuel s) s 0;
  Some (found r).

(** The reply of the scanning operations: 0, 1 with a node, or an error. *)
Inductive reply := Nothing | Found (n : node) | Error (ss : Z).

Definition to_reply (o : option node) : reply :=
  match o with Some n => Found n | None => Nothing end.

(** Looks [key] up on a chain: [None] when absent, else the nodes after it. *)
Fixpoint chain_after (key : Z) (c : list node) : option (list node) :=
  match c with
  | [] => None
  | n :: nxt => if n.1 =? key then Some nxt else chain_after key nxt
  end.

Definition getNext (s : t) (key : Z) : option reply :=
  let index := hash s key in
  chain ← hashTable s !! Z.to_nat index;
  match chain_after key chain with
  | Some (n :: _) => Some (Found n)
  | Some [] =>
      r ← scan (scan_fuel s) s (uadd index 1);
      Some (to_reply (found r))
  | None => Some (Error (_SERROR 1881 0 ENOENT))
  end.

Definition getNextWithFF (s : t) (key : Z) : option reply :=
  let index := hash s key in
  chain ← hashTable s !! Z.to_nat index;
  match chain_after key chain with
  | Some (n :: _) => Some (Found n)
  | _ =>
      r ← scan (scan_fuel s) s (uadd index 1);
      Some (to_reply (found r))
  end.

(** for (index--; index >= 0; index--): the index is unsigned. *)
Fixpoint scan_back (fuel : nat) (s : t) (index : Z) : option (option node) :=
  match fuel with
  | O => None
  | S fuel =>
      if 0 <=? index then
        chain ← hashTable s !! Z.to_nat index;
        match chain with
        | [] => scan_back fuel s (usub index 1)
        | n :: _ => Some (Some n)
        end
      else Some None
  end.

Definition getNextWithRW (s : t) (key full : Z) : option reply :=
  let index := hash s key in
  chain ← hashTable s !! Z.to_nat index;
  match chain_after key chain with
  | Some (n :: _) => Some (Found n)
  | Some [] =>
      r ← scan (scan_fuel s) s (uadd index 1);
      Some (to_reply (found r))
  | None =>
      node ← (if negb (full =? 1) then
                match chain with
                | n :: _ => Some (Some n)
                | [] => scan_back (scan_fuel s) s (usub index 1)
                end
              else Some None);
      match node with
      | Some n => Some (Found n)
      | None => r ← getFirst s; Some (to_reply r)
      end
  end.

(** ** HashSimpleLockedBase *)

Definition ro {A} (f : t -> option A) (s : t) : option (A * t) := r ← f s; Some (r, s).
Definition wo (f : t -> option t) (s : t) : option (unit * t) := s' ← f s; Some (tt, s').

Definition locked_destroy := AutoLock (wo destroy).
Definition locked_extendHash ok := AutoLock (wo (fun s => extendHash s ok)).
Definition locked_add key datum ok := AutoLock (wo (fun s => add s key datum ok)).
Definition locked_find key := AutoLock (ro (fun s => find s key)).
Definition locked_remove key := AutoLock (fun s => remove s key).
Definition locked_removeNext restart := AutoLock (fun s => removeNext s restart).
Definition locked_getFirst := AutoLock (ro getFirst).
Definition locked_getNext key := AutoLock (ro (fun s => getNext s key)).
Definition locked_getNextWithFF key := AutoLock (ro (fun s => getNextWithFF s key)).
Definition locked_getNextWithRW key full := AutoLock (ro (fun s => getNextWithRW s key full)).

(** ** Invariant *)

(** [inv s l]: the table has a power-of-two number of buckets, each node is in
    the bucket its key hashes to, the nodes are those of [l] in some order, keys
    are distinct, [numNodes] counts them, and the only table held from ALLOC is
    the current one. *)
Record inv (s : t) (l : list node) : Prop := {
  inv_len : Z.of_nat (length (hashTable s)) = hashMask s + 1;
  inv_pow : exists k, 2 <= k <= 60 /\ hashMask s + 1 = 2 ^ k;
  inv_placed : forall i c, hashTable s !! i = Some c ->
    Forall (fun n => hash s n.1 = Z.of_nat i) c;
  inv_perm : concat (hashTable s) ≡ₚ l;
  inv_nodup : NoDup l.*1;
  inv_count : numNodes s = Z.of_nat (length l);
  inv_bound : Z.of_nat (length l) < 2 ^ 56;
  inv_mem : mem s = if isInitial s then [] else [umul sizeof_HashNode (uadd (hashMask s) 1)];
}.

Lemma hash_range s key k :
  0 <= k -> hashMask s + 1 = 2 ^ k -> 0 <= hash s key <= hashMask s.
Proof.
  intros Hk Hm. unfold hash. replace (hashMask s) with (Z.ones k) by (rewrite Z.ones_equiv; lia).
  rewrite Z.land_ones by done. pose proof (Z.mod_pos_bound (Z.shiftr key keyshift) (2 ^ k)).
  rewrite Z.ones_equiv. assert (0 < 2 ^ k) by (apply Z.pow_pos_nonneg; lia). lia.
Qed.

Lemma pow_range k : 2 <= k <= 60 -> 4 <= 2 ^ k <= 2 ^ 60.
Proof. intros. split; [apply (Z.pow_le_mono_r 2 2 k) | apply Z.pow_le_mono_r]; lia. Qed.

Lemma inv_mask s l : inv s l -> 3 <= hashMask s < 2 ^ 60.
Proof.
  intros H. destruct (inv_pow _ _ H) as (k & Hk & Hm). pose proof (pow_range k Hk). lia.
Qed.

Lemma inv_hash_range s l key : inv s l -> 0 <= hash s key <= hashMask s.
Proof. intros H. destruct (inv_pow _ _ H) as (k & ? & ?). eapply hash_range; [|done]. lia. Qed.

Lemma inv_bucket s l key :
  inv s l -> exists c, hashTable s !! Z.to_nat (hash s key) = Some c.
Proof.
  intros H. apply lookup_lt_is_Some. pose proof (inv_hash_range s l key H).
  pose proof (inv_len _ _ H). lia.
Qed.

Lemma concat_insert (tbl : list (list node)) i c c' x :
  tbl !! i = Some c -> c ≡ₚ x :: c' -> concat tbl ≡ₚ x :: concat (<[i := c']> tbl).
Proof.
  intros Hi Hc. rewrite <- (take_drop_middle tbl i c Hi) at 1.
  rewrite insert_take_drop by (by eapply lookup_lt_Some).
  rewrite !concat_app. simpl. rewrite Hc. simpl. by rewrite <- Permutation_middle.
Qed.

Lemma concat_elem (tbl : list (list node)) n : n ∈ concat tbl <-> exists i c, tbl !! i = Some c /\ n ∈ c.
Proof.
  rewrite list_elem_of_In, in_concat. split.
  - intros (c & Hc & Hn). apply list_elem_of_In, list_elem_of_lookup in Hc as [i Hi].
    exists i, c. by rewrite list_elem_of_In.
  - intros (i & c & Hi & Hn). exists c. rewrite <- !list_elem_of_In.
    split; [by eapply list_elem_of_lookup_2 | done].
Qed.

(** A key of the table is on the chain it hashes to, and only there. *)
Lemma inv_on_chain s l key d c :
  inv s l -> hashTable s !! Z.to_nat (hash s key) = Some c ->
  (key, d) ∈ l <-> (key, d) ∈ c.
Proof.
  intros H Hc. rewrite <- (inv_perm _ _ H), concat_elem. split; [|by eauto].
  intros (i & c' & Hi & Hin). pose proof (inv_placed _ _ H i c' Hi) as Hp.
  rewrite Forall_forall in Hp. specialize (Hp _ Hin). simpl in Hp.
  rewrite Hp, Nat2Z.id, Hi in Hc. by simplify_eq.
Qed.

Lemma find_first_In c key d :
  NoDup c.*1 -> (key, d) ∈ c -> find_first (key_is key) c = Some (key, d).
Proof.
  induction c as [|[k e] c IH]; [set_solver|]. csimpl. intros [Hn Hnd]%NoDup_cons Hin.
  rewrite find_first_cons. unfold key_is at 1. simpl.
  apply elem_of_cons in Hin as [Hin|Hin].
  - simplify_eq. by rewrite Z.eqb_refl.
  - destruct (Z.eqb_spec k key) as [->|]; [|by apply IH].
    exfalso. apply Hn, list_elem_of_fmap. by exists (key, d).
Qed.

Lemma inv_chain_nodup s l i c : inv s l -> hashTable s !! i = Some c -> NoDup c.*1.
Proof.
  intros H Hc. pose proof (inv_nodup _ _ H) as Hnd. rewrite <- (inv_perm _ _ H) in Hnd.
  rewrite <- (take_drop_middle _ _ _ Hc), concat_app in Hnd. simpl in Hnd.
  rewrite !fmap_app in Hnd. apply NoDup_app in Hnd as (_ & _ & Hnd).
  by apply NoDup_app in Hnd as (? & _ & _).
Qed.

(** ** find *)

Lemma hs_find_spec s l key :
  inv s l -> find s key = Some ((list_to_map l : gmap Z Z) !! key).
Proof.
  intros H. unfold find. destruct (inv_bucket s l key H) as [c Hc]. rewrite Hc. simpl. f_equal.
  pose proof (inv_on_chain s l key) as Hon.
  destruct ((list_to_map l : gmap Z Z) !! key) as [d|] eqn:E.
  - apply elem_of_list_to_map_2, (Hon d c H Hc) in E.
    by rewrite (find_first_In c key d) by (done || by eapply inv_chain_nodup).
  - apply not_elem_of_list_to_map in E. destruct (find_first (key_is key) c) as [[k d]|] eqn:F; [|done].
    apply find_first_elem in F as [Hin Hk]. unfold key_is in Hk. simpl in Hk. bool_props. subst k.
    exfalso. apply E, list_elem_of_fmap. exists (key, d). split; [done|]. by apply (Hon d c H Hc).
Qed.

(** ** enqueue and extendHash *)

(** The part of the invariant that holds while a table is being refilled. *)
Definition filled (s : t) (l : list node) : Prop :=
  Z.of_nat (length (hashTable s)) = hashMask s + 1 /\
  (exists k, 2 <= k <= 60 /\ hashMask s + 1 = 2 ^ k) /\
  (forall i c, hashTable s !! i = Some c -> Forall (fun n => hash s n.1 = Z.of_nat i) c) /\
  concat (hashTable s) ≡ₚ l /\ numNodes s = Z.of_nat (length l).

Definition same_table (s s' : t) : Prop :=
  hashMask s' = hashMask s /\ isInitial s' = isInitial s /\ mem s' = mem s.

Lemma enqueue_spec s l n :
  filled s l -> Z.of_nat (length l) < 2 ^ 60 ->
  exists s', enqueue s n = Some s' /\ filled s' (n :: l) /\ same_table s s'.
Proof.
  intros (Hlen & (k & Hk & Hm) & Hp & Hperm & Hcnt) Hb. unfold enqueue.
  pose proof (hash_range s n.1 k ltac:(lia) Hm) as Hr.
  destruct (hashTable s !! Z.to_nat (hash s n.1)) as [c|] eqn:Hc.
  2:{ apply lookup_ge_None in Hc. lia. }
  simpl. eexists. split; [done|]. split; [|done]. split_and!; simpl.
  - by rewrite length_insert.
  - eauto.
  - intros i c' [(<- & <- & Hi)|(Hne & Hi)]%list_lookup_insert_Some; unfold hash in *; simpl.
    + constructor; [|by apply Hp]. rewrite Z2Nat.id; [done|lia].
    + by apply Hp.
  - rewrite <- (list_insert_id _ _ _ Hc) in Hperm.
    etransitivity; [|by apply Permutation_cons; [done|exact Hperm]].
    rewrite (concat_insert (<[_:=n::c]> _) (Z.to_nat (hash s n.1)) (n :: c) c n); [|..|done].
    + by rewrite list_insert_insert_eq.
    + apply list_lookup_insert_eq. by eapply lookup_lt_Some.
  - rewrite Hcnt, uadd_small by lia. lia.
Qed.

Lemma same_table_trans s1 s2 s3 : same_table s1 s2 -> same_table s2 s3 -> same_table s1 s3.
Proof. unfold same_table. intuition congruence. Qed.

Lemma enqueue_chain_spec c : forall s l,
  filled s l -> Z.of_nat (length (c ++ l)) < 2 ^ 60 ->
  exists s', enqueue_chain s c = Some s' /\ filled s' (rev c ++ l) /\ same_table s s'.
Proof.
  induction c as [|n c IH]; intros s l Hs Hb; simpl.
  - eexists. split; [done|]. by split.
  - simpl in Hb. destruct (enqueue_spec s l n Hs) as (s1 & -> & Hs1 & He1).
    { rewrite length_app in Hb. lia. }
    simpl. destruct (IH s1 (n :: l) Hs1) as (s2 & -> & Hs2 & He2).
    { rewrite length_app in *. simpl. lia. }
    exists s2. rewrite <- app_assoc. split; [done|]. split; [done|].
    by eapply same_table_trans.
Qed.

Lemma filled_perm s l l' : l ≡ₚ l' -> filled s l -> filled s l'.
Proof.
  intros Hp (? & ? & ? & H1 & H2). split_and!; [done..| |].
  - by rewrite H1.
  - by rewrite H2, (Permutation_length Hp).
Qed.

Lemma enqueue_table_spec tbl : forall s l,
  filled s l -> Z.of_nat (length (concat tbl ++ l)) < 2 ^ 60 ->
  exists s', enqueue_table s tbl = Some s' /\ filled s' (concat tbl ++ l) /\ same_table s s'.
Proof.
  induction tbl as [|c tbl IH]; intros s l Hs Hb; simpl.
  - eexists. split; [done|]. by split.
  - simpl in Hb. rewrite !length_app in Hb.
    destruct (enqueue_chain_spec c s l Hs) as (s1 & -> & Hs1 & He1).
    { rewrite length_app. lia. }
    simpl. destruct (IH s1 (rev c ++ l) Hs1) as (s2 & -> & Hs2 & He2).
    { rewrite !length_app, length_rev. lia. }
    exists s2. split; [done|]. split; [|by eapply same_table_trans].
    eapply filled_perm; [|done]. rewrite <- Permutation_rev.
    rewrite !app_assoc. by rewrite (Permutation_app_comm c).
Qed.

Lemma grow_spec num fuel : forall j,
  0 <= num < 2 ^ 56 -> 2 <= j <= 58 -> 58 - j < Z.of_nat fuel ->
  exists k, j <= k <= 58 /\ grow fuel num (2 ^ j) = Some (2 ^ k) /\ 2 * num < 2 ^ k.
Proof.
  induction fuel as [|fuel IH]; intros j Hn Hj Hf; [lia|]. simpl.
  rewrite (umul_small 2 num) by lia.
  destruct (Z.leb_spec (2 ^ j) (2 * num)) as [Hle|]; [|exists j; repeat split; (done || lia)].
  assert (j < 57).
  { destruct (Z.lt_ge_cases j 57); [done|].
    pose proof (Z.pow_le_mono_r 2 57 j). lia. }
  replace (umul 2 (2 ^ j)) with (2 ^ (j + 1)).
  2:{ rewrite umul_small, Z.pow_add_r; [lia..|].
      assert (0 < 2 ^ j <= 2 ^ 57).
      { split; [apply Z.pow_pos_nonneg | apply Z.pow_le_mono_r]; lia. }
      lia. }
  destruct (IH (j + 1) Hn ltac:(lia) ltac:(lia)) as (k & ? & -> & ?). exists k. split_and!; try done; lia.
Qed.

Lemma concat_replicate_nil n : concat (replicate n ([] : list node)) = [].
Proof. by induction n. Qed.

Lemma extendHash_spec s l ok :
  inv s l -> hashMask s < 2 ^ 57 ->
  exists s', extendHash s ok = Some s' /\ inv s' l /\
    if ok then hashMask s < hashMask s' /\ 2 * numNodes s <= hashMask s' else s' = s.
Proof.
  intros H Hm. unfold extendHash. pose proof (inv_mask _ _ H) as Hmr.
  pose proof (inv_count _ _ H) as Hcnt. pose proof (inv_bound _ _ H) as Hb.
  destruct (inv_pow _ _ H) as (k & Hk & Hp).
  assert (k < 58).
  { destruct (Z.lt_ge_cases k 58); [done|]. pose proof (Z.pow_le_mono_r 2 58 k). lia. }
  rewrite (uadd_small (hashMask s) 1), (umul_small 2 (hashMask s + 1)) by lia.
  assert (Hi1 : exists j, k < j <= 58 /\ 2 <= j /\
    (if 2 * (hashMask s + 1) <? 128 then 128 else 2 * (hashMask s + 1)) = 2 ^ j).
  { rewrite Hp. replace (2 * 2 ^ k) with (2 ^ (k + 1)) by (rewrite Z.pow_add_r; lia).
    destruct (Z.ltb_spec (2 ^ (k + 1)) 128) as [Hlt|]; [exists 7|exists (k + 1); by (split; [lia|split; [lia|]])].
    change 128 with (2 ^ 7) in Hlt. apply Z.pow_lt_mono_r_iff in Hlt; [|lia..]. by (split; [lia|split; [lia|]]). }
  destruct Hi1 as (j & Hj & Hj2 & ->).
  destruct (grow_spec (numNodes s) 64 j ltac:(lia) ltac:(lia) ltac:(lia)) as (i & Hi & -> & Hi2).
  simpl. destruct ok; simpl; [|by exists s].
  pose proof (pow_range i ltac:(lia)) as Hir. pose proof (Z.pow_lt_mono_r 2 k i ltac:(lia) ltac:(lia) ltac:(lia)).
  rewrite (usub_small (2 ^ i) 1) by lia.
  set (s1 := mkHash _ _ _ _ _).
  destruct (enqueue_table_spec (hashTable s) s1 []) as (s2 & -> & Hs2 & (Em & Ei & Emem)).
  { unfold s1, filled, hash. simpl. split_and!.
    - rewrite length_replicate. lia.
    - exists i. split; lia.
    - intros x c [-> _]%lookup_replicate. constructor.
    - by rewrite concat_replicate_nil.
    - done. }
  { rewrite app_nil_r, (inv_perm _ _ H). lia. }
  simpl in Em, Ei, Emem. rewrite app_nil_r in Hs2.
  destruct Hs2 as (F1 & F2 & F3 & F4 & F5). rewrite (inv_perm _ _ H) in F4, F5.
  simpl. rewrite F5, Hcnt, Z.eqb_refl. simpl.
  rewrite Emem, (inv_mem _ _ H).
  assert (Hfree : (if isInitial s then Some (umul sizeof_HashNode (2 ^ i) ::
      (if isInitial s then [] else [umul sizeof_HashNode (uadd (hashMask s) 1)]))
    else free_table (umul sizeof_HashNode (2 ^ i) ::
      (if isInitial s then [] else [umul sizeof_HashNode (uadd (hashMask s) 1)]))
      (umul sizeof_HashNode (hashMask s + 1))) = Some [umul sizeof_HashNode (2 ^ i)]).
  { destruct (isInitial s); [done|]. unfold free_table, sizeof_HashNode.
    rewrite uadd_small, !umul_small by lia.
    rewrite !find_first_cons, !remove_first_cons.
    destruct (Z.eqb_spec (8 * (hashMask s + 1)) (8 * 2 ^ i)); [lia|].
    by rewrite Z.eqb_refl. }
  rewrite Hfree. simpl. eexists. split; [done|]. split; [|simpl; rewrite Em; lia].
  constructor; simpl; try done.
  - apply (inv_nodup _ _ H).
  - rewrite Em, uadd_small by lia. repeat f_equal. lia.
Qed.

Lemma inv_filled s l : inv s l -> filled s l.
Proof. intros []. by split_and!. Qed.

Lemma hs_add_spec s l key d ok :
  inv s l -> key ∉ l.*1 -> Z.of_nat (length l) < 2 ^ 55 ->
  exists s', add s key d ok = Some s' /\ inv s' ((key, d) :: l).
Proof.
  intros H Hk Hb. unfold add.
  assert (exists s1, (if hashMask s <? umul 2 (numNodes s) then extendHash s ok else Some s) = Some s1 /\
    inv s1 l) as (s1 & -> & H1).
  { destruct (Z.ltb_spec (hashMask s) (umul 2 (numNodes s))) as [Hlt|]; [|by eauto].
    rewrite (inv_count _ _ H), umul_small in Hlt by (pose proof (inv_bound _ _ H); lia).
    destruct (extendHash_spec s l ok H ltac:(pose proof (inv_bound _ _ H); lia)) as (s' & ? & ? & _). eauto. }
  simpl. rewrite (hs_find_spec _ _ _ H1).
  rewrite (proj1 (not_elem_of_list_to_map l key) Hk). simpl.
  destruct (enqueue_spec s1 l (key, d) (inv_filled _ _ H1) ltac:(lia)) as (s2 & Hs2 & Hf & Em & Ei & Emm).
  exists s2. split; [done|]. destruct Hf as (? & ? & ? & ? & ?). constructor; try done.
  - csimpl. constructor; [done|]. apply (inv_nodup _ _ H).
  - csimpl. lia.
  - rewrite Em, Ei, Emm. apply (inv_mem _ _ H1).
Qed.

(** ** remove and removeNext *)

Lemma chain_remove_spec key c :
  match chain_remove key c with
  | Some (d, c') => c ≡ₚ (key, d) :: c'
  | None => key ∉ c.*1
  end.
Proof.
  induction c as [|[k e] c IH]; csimpl; [set_solver|].
  destruct (Z.eqb_spec k key) as [->|]; [done|].
  destruct (chain_remove key c) as [[d c']|].
  - rewrite IH. apply Permutation_swap.
  - set_solver.
Qed.

(** Taking a node off its chain. *)
Lemma inv_take_out s l i c c' x :
  inv s l -> hashTable s !! i = Some c -> c ≡ₚ x :: c' ->
  exists l', l ≡ₚ x :: l' /\
    inv (mkHash (<[i := c']> (hashTable s)) (hashMask s) (usub (numNodes s) 1)
           (isInitial s) (mem s)) l'.
Proof.
  intros H Hc Hp. pose proof (concat_insert _ _ _ _ _ Hc Hp) as Hcat.
  rewrite (inv_perm _ _ H) in Hcat. exists (concat (<[i := c']> (hashTable s))).
  split; [done|]. pose proof (inv_nodup _ _ H) as Hnd. rewrite Hcat in Hnd. csimpl in Hnd.
  apply NoDup_cons in Hnd as [_ Hnd].
  pose proof (Permutation_length Hcat) as Hlen. simpl in Hlen.
  pose proof (inv_bound _ _ H). constructor; simpl; try done.
  - rewrite length_insert. apply (inv_len _ _ H).
  - apply (inv_pow _ _ H).
  - intros j cj [(<- & <- & _)|(_ & Hj)]%list_lookup_insert_Some.
    + pose proof (inv_placed _ _ H i c Hc) as Hpl. rewrite Hp in Hpl.
      by apply Forall_cons in Hpl as [_ ?].
    + by apply (inv_placed _ _ H).
  - rewrite (inv_count _ _ H), usub_small by lia. lia.
  - lia.
  - apply (inv_mem _ _ H).
Qed.

Lemma hs_remove_spec s l key :
  inv s l ->
  match (list_to_map l : gmap Z Z) !! key with
  | Some d => exists s' l', remove s key = Some (Some d, s') /\ inv s' l' /\ l ≡ₚ (key, d) :: l'
  | None => remove s key = Some (None, s)
  end.
Proof.
  intros H. unfold remove. destruct (inv_bucket s l key H) as [c Hc]. rewrite Hc. simpl.
  pose proof (chain_remove_spec key c) as Hr.
  destruct (chain_remove key c) as [[d c']|].
  - assert (Hin : (key, d) ∈ l) by (apply (inv_on_chain s l key d c H Hc); rewrite Hr; apply elem_of_cons; by left).
    rewrite (elem_of_list_to_map_1 l key d) by (done || apply (inv_nodup _ _ H)).
    destruct (inv_take_out s l _ c c' _ H Hc Hr) as (l' & Hl & Hi). eauto 10.
  - destruct ((list_to_map l : gmap Z Z) !! key) as [d|] eqn:E; [|done].
    apply elem_of_list_to_map_2, (inv_on_chain s l key d c H Hc) in E.
    exfalso. apply Hr, list_elem_of_fmap. by exists (key, d).
Qed.

Lemma scan_spec s fuel : forall index,
  Z.of_nat (length (hashTable s)) = hashMask s + 1 -> hashMask s < 2 ^ 60 ->
  0 <= index <= hashMask s + 1 -> hashMask s + 1 - index < Z.of_nat fuel ->
  exists j r, scan fuel s index = Some (j, r) /\ index <= j <= hashMask s + 1 /\
    concat (drop (Z.to_nat index) (hashTable s)) = concat (drop (Z.to_nat j) (hashTable s)) /\
    match r with
    | None => j = hashMask s + 1
    | Some (n, nxt) => hashTable s !! Z.to_nat j = Some (n :: nxt)
    end.
Proof.
  induction fuel as [|fuel IH]; intros index Hl Hm Hi Hf; [lia|]. simpl.
  destruct (Z.leb_spec index (hashMask s)); [|exists index, None; repeat split; (done || lia)].
  destruct (hashTable s !! Z.to_nat index) as [c|] eqn:Hc.
  2:{ apply lookup_ge_None in Hc. lia. }
  simpl. destruct c as [|n nxt]; [|exists index, (Some (n, nxt)); repeat split; (done || lia)].
  rewrite uadd_small by lia.
  destruct (IH (index + 1) Hl Hm ltac:(lia) ltac:(lia)) as (j & r & -> & Hj & Hcat & Hr).
  exists j, r. split; [done|]. split; [lia|]. split; [|done]. rewrite <- Hcat.
  rewrite <- (take_drop_middle _ _ _ Hc) at 1.
  assert ((Z.to_nat index < length (hashTable s))%nat) by lia.
  rewrite drop_app_length' by (rewrite length_take; lia). simpl.
  by replace (Z.to_nat (index + 1)) with (S (Z.to_nat index)) by lia.
Qed.

(** The first node at or after bucket [index], in table order. *)
Lemma scan_head s l index :
  inv s l -> 0 <= index <= hashMask s + 1 ->
  exists r, scan (scan_fuel s) s index = Some r /\
    found r = head (concat (drop (Z.to_nat index) (hashTable s))).
Proof.
  intros H Hi. pose proof (inv_mask _ _ H).
  destruct (scan_spec s (scan_fuel s) index (inv_len _ _ H) ltac:(lia) Hi) as (j & r & -> & Hj & Hcat & Hr).
  { unfold scan_fuel. lia. }
  eexists. split; [done|]. rewrite Hcat. unfold found. simpl. destruct r as [[n nxt]|]; simpl.
  - by rewrite (drop_S _ _ _ Hr).
  - rewrite drop_ge; [done|]. pose proof (inv_len _ _ H). lia.
Qed.

Lemma hs_removeNext_spec s l restart :
  inv s l -> 0 <= restart <= hashMask s + 1 ->
  match head (concat (drop (Z.to_nat restart) (hashTable s))) with
  | Some n => exists restart' s' l', removeNext s restart = Some (Some n, restart', s') /\
      inv s' l' /\ l ≡ₚ n :: l' /\ restart <= restart' <= hashMask s /\
      hashMask s' = hashMask s /\
      concat (drop (Z.to_nat restart) (hashTable s)) =
        n :: concat (drop (Z.to_nat restart') (hashTable s'))
  | None => removeNext s restart = Some (None, hashMask s + 1, s)
  end.
Proof.
  intros H Hi. unfold removeNext. pose proof (inv_mask _ _ H). pose proof (inv_len _ _ H) as Hl.
  destruct (scan_spec s (scan_fuel s) restart (inv_len _ _ H) ltac:(lia) Hi) as (j & r & -> & Hj & Hcat & Hr).
  { unfold scan_fuel. lia. }
  rewrite Hcat. simpl. destruct r as [[n nxt]|]; simpl.
  - rewrite (drop_S _ _ _ Hr). simpl.
    destruct (inv_take_out s l _ _ nxt n H Hr ltac:(done)) as (l' & Hp & Hinv).
    pose proof (lookup_lt_Some _ _ _ Hr).
    do 3 eexists. split_and!; [done..|lia|lia|done|]. simpl.
    rewrite (drop_S _ nxt _ (list_lookup_insert_eq _ _ _ ltac:(done))).
    by rewrite drop_insert_lt by lia.
  - subst j. by rewrite drop_ge by lia.
Qed.

(** ** Iteration *)

Lemma chain_after_app key a b :
  chain_after key (a ++ b) =
  match chain_after key a with Some r => Some (r ++ b) | None => chain_after key b end.
Proof.
  induction a as [|[k d] a IH]; simpl; [done|]. destruct (k =? key); [done|]. apply IH.
Qed.

Lemma chain_after_None key c : chain_after key c = None <-> key ∉ c.*1.
Proof.
  induction c as [|[k d] c IH]; csimpl; [set_solver|].
  destruct (Z.eqb_spec k key) as [->|]; set_solver.
Qed.

(** Looking the key up on its own chain is looking it up in the whole table. *)
Lemma chain_after_table s l key c :
  inv s l -> hashTable s !! Z.to_nat (hash s key) = Some c ->
  chain_after key (concat (hashTable s)) =
  (fun r => r ++ concat (drop (S (Z.to_nat (hash s key))) (hashTable s))) <$> chain_after key c.
Proof.
  intros H Hc. set (i := Z.to_nat (hash s key)) in *.
  assert (Hout : forall j cj, hashTable s !! j = Some cj -> j <> i -> key ∉ cj.*1).
  { intros j cj Hj Hne (n & -> & Hn)%list_elem_of_fmap. apply Hne.
    pose proof (inv_placed _ _ H j cj Hj) as Hp. rewrite Forall_forall in Hp.
    unfold i. rewrite (Hp n Hn). lia. }
  assert (Hpart : forall tb, (forall x, x ∈ tb -> key ∉ x.*1) -> chain_after key (concat tb) = None).
  { intros tb Htb. apply chain_after_None.
    rewrite list_elem_of_fmap. intros (n & -> & Hn). apply concat_elem in Hn as (j & cj & Hj & Hn).
    apply list_elem_of_lookup_2 in Hj. apply (Htb _ Hj), list_elem_of_fmap. eauto. }
  rewrite <- (take_drop_middle _ _ _ Hc) at 1. rewrite concat_app. simpl.
  rewrite !chain_after_app, (Hpart (take i _)), (Hpart (drop _ _)).
  - by destruct (chain_after key c).
  - intros x [j Hj]%list_elem_of_lookup. rewrite lookup_drop in Hj. eapply Hout; [done|lia].
  - intros x [j Hj]%list_elem_of_lookup. apply lookup_take_Some in Hj as [Hj ?].
    eapply Hout; [done|lia].
Qed.

Lemma getFirst_spec s l : inv s l -> getFirst s = Some (head (concat (hashTable s))).
Proof.
  intros H. unfold getFirst. pose proof (inv_mask _ _ H).
  destruct (scan_head s l 0 H ltac:(lia)) as (r & -> & Hr). simpl. by rewrite Hr.
Qed.

Lemma getNext_spec s l key :
  inv s l ->
  getNext s key = Some match chain_after key (concat (hashTable s)) with
                       | Some r => to_reply (head r)
                       | None => Error (_SERROR 1881 0 ENOENT)
                       end.
Proof.
  intros H. unfold getNext. destruct (inv_bucket s l key H) as [c Hc].
  rewrite (chain_after_table s l key c H Hc), Hc. simpl.
  pose proof (inv_hash_range s l key H) as Hr. pose proof (inv_mask _ _ H).
  destruct (chain_after key c) as [[|n r]|]; simpl; [|done..].
  rewrite uadd_small by lia.
  destruct (scan_head s l (hash s key + 1) H ltac:(lia)) as (r & -> & Hf). simpl.
  rewrite Hf. by replace (Z.to_nat (hash s key + 1)) with (S (Z.to_nat (hash s key))) by lia.
Qed.

Lemma getNextWithFF_spec s l key :
  inv s l ->
  getNextWithFF s key = Some (to_reply (head
    match chain_after key (concat (hashTable s)) with
    | Some r => r
    | None => concat (drop (S (Z.to_nat (hash s key))) (hashTable s))
    end)).
Proof.
  intros H. unfold getNextWithFF. destruct (inv_bucket s l key H) as [c Hc].
  rewrite (chain_after_table s l key c H Hc), Hc. simpl.
  pose proof (inv_hash_range s l key H) as Hr. pose proof (inv_mask _ _ H).
  rewrite uadd_small by lia.
  destruct (scan_head s l (hash s key + 1) H ltac:(lia)) as (r & Hs & Hf).
  replace (Z.to_nat (hash s key + 1)) with (S (Z.to_nat (hash s key))) in Hf by lia.
  destruct (chain_after key c) as [[|n r']|]; simpl; [|done|]; by rewrite Hs; simpl; rewrite Hf.
Qed.

(** ** Refinement to a finite map *)

Definition rep (s : t) (m : gmap Z Z) : Prop := inv s (map_to_list m).

Lemma inv_equiv s l l' : l ≡ₚ l' -> inv s l -> inv s l'.
Proof.
  intros Hp H. pose proof (Permutation_length Hp) as Hl. constructor; try apply H.
  - rewrite (inv_perm _ _ H). done.
  - rewrite <- Hp. apply (inv_nodup _ _ H).
  - rewrite <- Hl. apply (inv_count _ _ H).
  - rewrite <- Hl. apply (inv_bound _ _ H).
Qed.

Inductive op := OAdd (key datum : Z) (ok : bool) | OFind (key : Z) | ORemove (key : Z).
Inductive ret := RUnit | RDatum (d : option Z).

(** The calls on a locked table. *)
Definition exec (s : t * bool) (o : op) : option (ret * (t * bool)) :=
  match o with
  | OAdd k d ok => '(_, s') ← locked_add k d ok s; Some (RUnit, s')
  | OFind k => '(r, s') ← locked_find k s; Some (RDatum r, s')
  | ORemove k => '(r, s') ← locked_remove k s; Some (RDatum r, s')
  end.

Fixpoint run (s : t * bool) (os : list op) : option (list ret * (t * bool)) :=
  match os with
  | [] => Some ([], s)
  | o :: os =>
      '(r, s1) ← exec s o;
      '(rs, s2) ← run s1 os;
      Some (r :: rs, s2)
  end.

(** The specification: a map; re-adding a key is not allowed. *)
Definition spec_exec (m : gmap Z Z) (o : op) : option (ret * gmap Z Z) :=
  match o with
  | OAdd k d _ => match m !! k with None => Some (RUnit, <[k := d]> m) | Some _ => None end
  | OFind k => Some (RDatum (m !! k), m)
  | ORemove k => Some (RDatum (m !! k), delete k m)
  end.

Fixpoint spec_run (m : gmap Z Z) (os : list op) : option (list ret * gmap Z Z) :=
  match os with
  | [] => Some ([], m)
  | o :: os =>
      '(r, m1) ← spec_exec m o;
      '(rs, m2) ← spec_run m1 os;
      Some (r :: rs, m2)
  end.

Lemma rep_size s m : rep s m -> Z.of_nat (size m) = numNodes s.
Proof. intros H. rewrite (inv_count _ _ H). by rewrite length_map_to_list. Qed.

Lemma hs_exec_refines s m o r m' :
  rep s m -> Z.of_nat (size m) < 2 ^ 55 -> spec_exec m o = Some (r, m') ->
  exists s', exec (s, false) o = Some (r, (s', false)) /\ rep s' m' /\
    (size m' <= S (size m))%nat.
Proof.
  intros H Hb Hs. destruct o as [k d ok|k|k]; simpl in Hs |- *.
  - destruct (m !! k) eqn:Hk; [done|]. simplify_eq.
    destruct (hs_add_spec s _ k d ok H) as (s' & Ha & Hi).
    + apply not_elem_of_list_to_map. by rewrite list_to_map_to_list.
    + by rewrite length_map_to_list.
    + unfold locked_add. rewrite (AutoLock_free _ s tt s') by (unfold wo; by rewrite Ha).
      simpl. exists s'. split; [done|]. split; [|by rewrite map_size_insert_None].
      unfold rep. eapply inv_equiv; [|done]. by rewrite map_to_list_insert.
  - simplify_eq. unfold locked_find.
    rewrite (AutoLock_free _ s (m' !! k) s).
    + simpl. eauto.
    + unfold ro. rewrite (hs_find_spec s _ k H). simpl. by rewrite list_to_map_to_list.
  - simplify_eq. unfold locked_remove.
    pose proof (hs_remove_spec s _ k H) as Hr. rewrite list_to_map_to_list in Hr.
    destruct (m !! k) as [d|] eqn:Hk.
    + destruct Hr as (s' & l' & Hr & Hi & Hp).
      rewrite (AutoLock_free _ s (Some d) s' Hr). simpl. exists s'. split; [done|].
      split; [|pose proof (map_size_delete_Some k m (mk_is_Some _ _ Hk)); lia].
      unfold rep. eapply inv_equiv; [|done].
      rewrite <- (map_to_list_delete m k d Hk) in Hp. by apply (inj _) in Hp.
    + rewrite (AutoLock_free _ s None s Hr). simpl. rewrite delete_id by done. eauto.
Qed.

End ops.

(** C25: the locked hash table refines a finite map: any sequence of add, find
    and remove calls that does not re-add a present key completes, also when
    the table is extended on the way or cannot be, with the replies of the map
    and the lock free, and the final table holds that map with [numNodes] its
    size and no table memory leaked. *)
Theorem hash_refines_map keyshift s m os rs m' :
  rep keyshift s m -> Z.of_nat (size m + length os) < 2 ^ 55 ->
  spec_run m os = Some (rs, m') ->
  exists s', run keyshift (s, false) os = Some (rs, (s', false)) /\ rep keyshift s' m' /\
    numNodes s' = Z.of_nat (size m').
Proof.
  revert s m rs. induction os as [|o os IH]; intros s m rs H Hb Hs; simpl in *.
  - simplify_eq. exists s. by rewrite (rep_size keyshift s m' H).
  - destruct (spec_exec m o) as [[r m1]|] eqn:E; [|done]. simpl in Hs.
    destruct (spec_run m1 os) as [[rs1 m2]|] eqn:E2; [|done]. simpl in Hs. simplify_eq.
    destruct (hs_exec_refines keyshift s m o r m1 H ltac:(lia) E) as (s1 & -> & H1 & Hsz). simpl.
    destruct (IH s1 m1 rs1 H1 ltac:(lia) E2) as (s2 & -> & H2 & Hn). simpl. eauto.
Qed.

Lemma HashSimpleBase_rep keyshift : rep keyshift HashSimpleBase ∅.
Proof.
  unfold rep. rewrite map_to_list_empty. constructor; simpl; try done.
  - exists 2. by split; [lia|].
  - intros i c Hc. apply (lookup_replicate_1 4%nat []) in Hc as [-> _]. constructor.
  - constructor.
Qed.

Lemma hash_refines_map_witness :
  exists s', run 4 (HashSimpleBase, false)
      [OAdd 16 1 true; OAdd 80 2 false; OAdd 0 3 true; OFind 80; ORemove 16; OFind 16]
      = Some ([RUnit; RUnit; RUnit; RDatum (Some 2); RDatum (Some 1); RDatum None], (s', false)) /\
    rep 4 s' {[ 80 := 2; 0 := 3 ]} /\ numNodes s' = Z.of_nat (size ({[ 80 := 2; 0 := 3 ]} : gmap Z Z)).
Proof.
  apply (hash_refines_map 4 HashSimpleBase ∅).
  - apply HashSimpleBase_rep.
  - vm_compute. done.
  - vm_compute. done.
Defined.

(** ExtendHash never loses or duplicates an entry: on a table of fewer than
    2^57 buckets it completes, keeps the map, and when ALLOC gives memory the
    new table is larger and has at least twice as many buckets as entries;
    when it does not, nothing changes. *)
Theorem extendHash_preserves keyshift s m ok :
  rep keyshift s m -> hashMask s < 2 ^ 57 ->
  exists s', extendHash keyshift s ok = Some s' /\ rep keyshift s' m /\
    if ok then hashMask s < hashMask s' /\ 2 * numNodes s <= hashMask s' else s' = s.
Proof. apply extendHash_spec. Qed.

Lemma extendHash_preserves_witness :
  exists s', extendHash 0 HashSimpleBase true = Some s' /\ rep 0 s' ∅ /\
    if true then hashMask HashSimpleBase < hashMask s' /\
      2 * numNodes HashSimpleBase <= hashMask s' else s' = HashSimpleBase.
Proof. apply (extendHash_preserves 0 _ ∅ true); [apply HashSimpleBase_rep | done]. Defined.

(** A client that enumerates the table with getFirst and getNext. *)
Fixpoint enumerate_from (fuel : nat) (keyshift : Z) (s : t) (key : Z) : option (list node) :=
  match fuel with
  | O => None
  | S fuel =>
      r ← getNext keyshift s key;
      match r with
      | Found n => l ← enumerate_from fuel keyshift s n.1; Some (n :: l)
      | Nothing => Some []
      | Error _ => None
      end
  end.

Definition enumerate (keyshift : Z) (s : t) : option (list node) :=
  r ← getFirst s;
  match r with
  | Some n => l ← enumerate_from (Z.to_nat (numNodes s)) keyshift s n.1; Some (n :: l)
  | None => Some []
  end.

Lemma enumerate_from_spec keyshift s l fuel : forall l1 n l2,
  inv keyshift s l -> concat (hashTable s) = l1 ++ n :: l2 -> (length l2 < fuel)%nat ->
  enumerate_from fuel keyshift s n.1 = Some l2.
Proof.
  induction fuel as [|fuel IH]; intros l1 n l2 H Hc Hf; [lia|]. simpl.
  rewrite (getNext_spec keyshift s l n.1 H).
  pose proof (inv_nodup _ _ _ H) as Hnd. rewrite <- (inv_perm _ _ _ H), Hc in Hnd.
  rewrite fmap_app in Hnd. apply NoDup_app in Hnd as (_ & Hd & _).
  rewrite Hc, chain_after_app. destruct n as [k d]. csimpl in *.
  rewrite (proj2 (chain_after_None k l1)), Z.eqb_refl.
  - destruct l2 as [|n' l2]; [done|]. simpl in *.
    rewrite (IH (l1 ++ [(k, d)]) n' l2); [done..| |lia]. by rewrite <- app_assoc.
  - intros Hk. apply (Hd k Hk). set_solver.
Qed.

(** GetFirst and getNext enumerate the table: the scan ends, and visits
    every entry of the map exactly once. *)
Theorem enumerate_complete keyshift s m :
  rep keyshift s m ->
  exists l, enumerate keyshift s = Some l /\ l ≡ₚ map_to_list m.
Proof.
  intros H. exists (concat (hashTable s)). split; [|apply (inv_perm _ _ _ H)].
  unfold enumerate. rewrite (getFirst_spec keyshift s _ H). simpl.
  pose proof (Permutation_length (inv_perm _ _ _ H)) as Hl.
  pose proof (inv_count _ _ _ H) as Hc.
  destruct (concat (hashTable s)) as [|n l] eqn:E; [done|]. simpl in *.
  rewrite (enumerate_from_spec keyshift s _ _ [] n l H E) by lia. done.
Qed.

Lemma enumerate_complete_witness :
  exists l, enumerate 0 HashSimpleBase = Some l /\ l ≡ₚ map_to_list (∅ : gmap Z Z).
Proof. apply enumerate_complete, HashSimpleBase_rep. Defined.

Lemma scan_back_stuck s fuel : forall index,
  Z.of_nat (length (hashTable s)) < 2 ^ 61 -> 0 <= index ->
  (forall i, (i <= Z.to_nat index)%nat -> hashTable s !! i = Some [] ) ->
  scan_back fuel s index = None.
Proof.
  induction fuel as [|fuel IH]; intros index Hl Hi He; [done|]. simpl.
  destruct (Z.leb_spec 0 index); [|lia]. rewrite (He (Z.to_nat index)) by lia. simpl.
  destruct (decide (index = 0)) as [->|].
  - change (usub 0 1) with (2 ^ 64 - 1). destruct fuel as [|fuel]; [done|]. simpl.
    rewrite lookup_ge_None_2; [done|]. lia.
  - pose proof (lookup_lt_Some _ _ _ (He (Z.to_nat index) ltac:(lia))).
    rewrite usub_small by lia. apply IH; [done|lia|]. intros i ?. apply He. lia.
Qed.

(** The partial rewind of getNextWithRW reads outside the table: the loop
    [for (index--; index >= 0; index--)] runs on an unsigned index, so when the
    restart key is absent and its bucket and all earlier ones are empty the
    search never falls back to getFirst, although the table may hold entries;
    with full = 1 it does. *)
Theorem getNextWithRW_out_of_bounds keyshift s m key full :
  rep keyshift s m -> full <> 1 ->
  (forall i, (i <= Z.to_nat (hash keyshift s key))%nat -> hashTable s !! i = Some []) ->
  getNextWithRW keyshift s key full = None /\
  getNextWithRW keyshift s key 1 = Some (to_reply (head (concat (hashTable s)))).
Proof.
  intros H Hf He. unfold getNextWithRW. pose proof (inv_hash_range keyshift s _ key H) as Hr.
  pose proof (inv_mask keyshift _ _ H) as Hm. pose proof (inv_len _ _ _ H) as Hl.
  rewrite He by lia. simpl. rewrite (proj2 (Z.eqb_neq _ _) Hf). simpl.
  split; [|by rewrite (getFirst_spec keyshift s _ H)].
  destruct (decide (hash keyshift s key = 0)) as [->|].
  - change (usub 0 1) with (2 ^ 64 - 1).
    destruct (scan_fuel s) as [|fuel] eqn:Ef; [done|]. simpl.
    rewrite lookup_ge_None_2; [done|]. lia.
  - rewrite usub_small by lia. rewrite scan_back_stuck; [done|lia..|].
    intros i ?. apply He. lia.
Qed.

Lemma getNextWithRW_out_of_bounds_witness :
  let s := mkHash [[]; []; [(2, 7)]; []] 3 1 true [] in
  getNextWithRW 0 s 1 0 = None /\
  getNextWithRW 0 s 1 1 = Some (to_reply (head (concat (hashTable s)))).
Proof.
  apply (getNextWithRW_out_of_bounds 0 _ {[ 2 := 7 ]}); [|done|].
  - unfold rep. rewrite map_to_list_singleton. constructor; simpl; try done.
    + exists 2. by split; [lia|].
    + intros [|[|[|[|i]]]] c Hc; simpl in Hc; simplify_eq; repeat constructor.
    + apply NoDup_singleton.
  - simpl. intros [|[|i]] Hi; [done..|]. vm_compute in Hi. lia.
Defined.

End HashSimple.
