(* ===== verification/RegionList.v ===== *)
(** * RegionList: the address space of a process, os/kernel/mem/RegionList.C

    A [RegionHolder] is owned by the list it is on and no pointer to it
    outlives a locked operation, so the list of holders is modelled by a list
    of records in chain order; a holder returned by the reserve operations is
    its position.  The field [type] is not set by the constructor: it is [None]
    until attachRegion, and reading it then is stuck.  Address arithmetic wraps
    at 64 bits as in the source. *)

From stdpp Require Import base numbers option gmap list.
From S2P Require Import K42 Prelude.

Module RegionList.

(** RegionType::Type, os/kernel/mem/RegionType.H *)
Definition ForkCopy : Z := 1.
Definition KeepOnExec : Z := 128.
Definition K42Region : Z := KeepOnExec.

Record Holder := mkHolder {
  type : option Z;
  vaddr : Z;
  size : Z;
  reg : Z;
}.

Record t := mkRL {
  regions : list Holder;
  regionsAllocStart : Z;
  regionsStart : Z;
  regionsEnd : Z;
}.

(** The constructors. *)
Definition RegionHolder (vmbase isize : Z) : Holder := mkHolder None vmbase isize 0.
Definition RegionList0 : t := mkRL [] 0 0 0.

Definition setRegionsBounds (s : t) (start allocStart end_ : Z) : t :=
  mkRL (regions s) allocStart start end_.

Definition set_regions (s : t) (l : list Holder) : t :=
  mkRL l (regionsAllocStart s) (regionsStart s) (regionsEnd s).

(** The tests of the search loops. *)
Definition covers (a : Z) (r : Holder) : bool :=
  (vaddr r <=? a) && (a <? uadd (vaddr r) (size r)).

Definition contains (vmbase isize : Z) (r : Holder) : bool :=
  (vaddr r <=? vmbase) && (uadd vmbase isize <=? uadd (vaddr r) (size r)).

(** Status, and the region found. *)
Definition vaddrToRegion (s : t) (a : Z) : Z * option Z :=
  match find_first (covers a) (regions s) with
  | Some r => (0, Some (reg r))
  | None => (_SERROR 1485 100 EINVAL, None)
  end.

(** Status, and type, start and size of the element. *)
Definition findRegion (s : t) (a : Z) : Z * option (option Z * Z * Z) :=
  match find_first (covers a) (regions s) with
  | Some r => (0, Some (type r, vaddr r, size r))
  | None => (_SERROR 2831 100 EINVAL, None)
  end.

Definition findRegionRef (s : t) (a : Z) : Z * option (Z * option Z * Z * Z) :=
  match find_first (covers a) (regions s) with
  | Some r => (0, Some (reg r, type r, vaddr r, size r))
  | None => (_SERROR 2832 100 EINVAL, None)
  end.

(** Returns 1 with the region and the first address beyond it, or 0. *)
Definition getNextRegion (s : t) (a : Z) : Z * option (Z * Z) :=
  match find_first (fun r => a <? uadd (vaddr r) (size r)) (regions s) with
  | Some r => (1, Some (reg r, uadd (vaddr r) (size r)))
  | None => (0, None)
  end.

Definition checkRegion (s : t) (vmbase isize : Z) : Z :=
  match find_first (contains vmbase isize) (regions s) with
  | Some _ => 0
  | None => _SERROR 1486 0 EINVAL
  end.

Definition changeRegionType (s : t) (a newType : Z) : Z * t :=
  match span_until (covers a) (regions s) with
  | (l1, r :: l2) =>
      (0, set_regions s (l1 ++ mkHolder (Some newType) (vaddr r) (size r) (reg r) :: l2))
  | (_, []) => (_SERROR 2806 100 EINVAL, s)
  end.

(** ** Reserving space *)

Definition bad_size (size : Z) : bool := (size =? 0) || negb (Z.land size MIN_PAGE_MASK =? 0).

(** The loop after the head of the list: [r] is the current holder, [nxt] the
    rest.  On success the new list from [r] on, and how far behind [r] the new
    holder is; otherwise the status. *)
Fixpoint reserve_after (size vmbase rend : Z) (r : Holder) (nxt : list Holder)
  : Z + (nat * list Holder) :=
  if vmbase <? uadd (vaddr r) (RegionList.size r) then inl (_SERROR 1491 10 EINVAL)
  else
    match nxt with
    | [] =>
        if (rend <=? vmbase) || (usub rend vmbase <? size) then inl (_SERROR 1492 10 EINVAL)
        else inr (1%nat, [r; RegionHolder vmbase size])
    | r2 :: nxt2 =>
        if vmbase <? vaddr r2 then
          if usub (vaddr r2) vmbase <? size then inl (_SERROR 1493 10 EINVAL)
          else inr (1%nat, r :: RegionHolder vmbase size :: nxt)
        else
          match reserve_after size vmbase rend r2 nxt2 with
          | inl rc => inl rc
          | inr (i, l) => inr (S i, r :: l)
          end
    end.

(** Status, or the position of the new holder and the new list. *)
Definition reserveFixedSpace (s : t) (size vmbase : Z) : Z + (nat * t) :=
  if bad_size size then inl (_SERROR 1487 10 EINVAL)
  else if vmbase <? regionsStart s then inl (_SERROR 1488 10 EINVAL)
  else
    match regions s with
    | [] =>
        if (regionsEnd s <=? vmbase) || (usub (regionsEnd s) vmbase <? size)
        then inl (_SERROR 1489 10 EINVAL)
        else inr (O, set_regions s [RegionHolder vmbase size])
    | r :: nxt =>
        if vmbase <=? vaddr r then
          if usub (vaddr r) vmbase <? size then inl (_SERROR 1490 10 EINVAL)
          else inr (O, set_regions s (RegionHolder vmbase size :: r :: nxt))
        else
          match reserve_after size vmbase (regionsEnd s) r nxt with
          | inl rc => inl rc
          | inr (i, l) => inr (i, set_regions s l)
          end
    end.

(** The search for a hole: position behind which the holder goes, and its
    address; [None] when the loop ends without one (the code panics). *)
Fixpoint find_hole (size rangeStart rangeEnd alignment : Z) (l : list Holder)
  : option (nat * Z) :=
  match l with
  | [] => None
  | r :: nxt =>
      let skip := match nxt with r2 :: _ => vaddr r2 <? rangeStart | [] => false end in
      let vmbase0 := uadd (vaddr r) (RegionList.size r) in
      let vmbase1 := if vmbase0 <? rangeStart then rangeStart else vmbase0 in
      let vmbase := ALIGN_UP vmbase1 alignment in
      let va0 := match nxt with [] => rangeEnd | r2 :: _ => vaddr r2 end in
      let va := if rangeEnd <? va0 then rangeEnd else va0 in
      if negb skip && (vmbase <? va) && (size <=? usub va vmbase) then Some (1%nat, vmbase)
      else
        '(i, v) ← find_hole size rangeStart rangeEnd alignment nxt;
        Some (S i, v)
  end.

Definition insert_at (i : nat) (r : Holder) (l : list Holder) : list Holder :=
  take i l ++ r :: drop i l.

(** [None]: the panic "Can't allocate region". *)
Definition reserveSomeSpace (s : t) (size rangeStart rangeEnd alignment : Z)
  : option (Z + (nat * t)) :=
  if bad_size size then Some (inl (_SERROR 1494 10 EINVAL))
  else if negb (alignment =? 0) && negb (Z.land alignment MIN_PAGE_MASK =? 0)
  then Some (inl (_SERROR 1495 10 EINVAL))
  else
    let alignment := if alignment =? 0 then DFLT_ALIGNMENT else alignment in
    let rangeStart := ALIGN_UP rangeStart alignment in
    if (rangeEnd <=? rangeStart) || (usub rangeEnd rangeStart <? size)
    then Some (inl (_SERROR 1496 10 EINVAL))
    else
      match regions s with
      | [] =>
          if (rangeEnd <=? rangeStart) || (usub rangeEnd rangeStart <? size)
          then Some (inl (_SERROR 1497 10 EINVAL))
          else Some (inr (O, set_regions s [RegionHolder rangeStart size]))
      | r :: _ =>
          '(i, v) ←
            (if (rangeStart <? vaddr r) && (size <=? usub (vaddr r) rangeStart)
             then Some (O, rangeStart)
             else find_hole size rangeStart rangeEnd alignment (regions s));
          Some (inr (i, set_regions s (insert_at i (RegionHolder v size) (regions s))))
      end.

(** RegionHolder::attachRegion on the holder at position [i]. *)
Definition attachRegion (i : nat) (r regionType : Z) (s : t) : t :=
  set_regions s (alter (fun h => mkHolder (Some regionType) (vaddr h) (size h) r) i (regions s)).

Definition holder_vaddr (i : nat) (s : t) : option Z := vaddr <$> regions s !! i.

(** ** Attaching *)

(** Status and the address the caller's [vaddr] is set to. *)
Definition attachDynamicRegion (va size r regionType alignment : Z) (s : t)
  : option ((Z * Z) * t) :=
  x ← reserveSomeSpace s size (regionsAllocStart s) (regionsEnd s) alignment;
  match x with
  | inl rc => Some ((rc, va), s)
  | inr (i, s1) =>
      v ← holder_vaddr i s1;
      Some ((0, v), attachRegion i r regionType s1)
  end.

Definition locked_attachFixedRegion (va size r regionType : Z) (s : t) : Z * t :=
  match reserveFixedSpace s size va with
  | inl rc => (rc, s)
  | inr (i, s1) => (0, attachRegion i r regionType s1)
  end.

Definition attachWithinRangeRegion (va va2 size r regionType alignment : Z) (s : t)
  : option ((Z * Z) * t) :=
  let va := if va <? regionsStart s then regionsStart s else va in
  let va2 := if regionsEnd s <? va2 then regionsEnd s else va2 in
  let alignment := if alignment =? 0 then PAGE_SIZE else alignment in
  x ← reserveSomeSpace s size va va2 alignment;
  match x with
  | inl rc => Some ((rc, va), s)
  | inr (i, s1) =>
      v ← holder_vaddr i s1;
      Some ((0, v), attachRegion i r regionType s1)
  end.

(** ** Detaching and truncating *)

Definition detachRegion (r : Z) (s : t) : Z * t :=
  match span_until (fun h => reg h =? r) (regions s) with
  | (l1, _ :: l2) => (0, set_regions s (l1 ++ l2))
  | (_, []) => (_SERROR 1059 0 EINVAL, s)
  end.

(** Status and the region truncated. *)
Definition locked_truncate (start sz : Z) (s : t) : (Z * option Z) * t :=
  match span_until (contains start sz) (regions s) with
  | (_, []) => ((_SERROR 2357 0 EINVAL, None), s)
  | (l1, h :: l2) =>
      if (vaddr h =? start) && (size h =? sz) then
        ((0, Some (reg h)), set_regions s (l1 ++ l2))
      else if vaddr h =? start then
        ((0, Some (reg h)),
         set_regions s (l1 ++ mkHolder (type h) (uadd (vaddr h) sz) (usub (size h) sz) (reg h) :: l2))
      else if uadd (vaddr h) (size h) =? uadd start sz then
        ((0, Some (reg h)),
         set_regions s (l1 ++ mkHolder (type h) (vaddr h) (usub (size h) sz) (reg h) :: l2))
      else ((_SERROR 2356 0 EINVAL, Some (reg h)), s)
  end.

(** [None]: one of the two insertions failed, and the code panics. *)
Definition truncateAndInsertInPlace (truncVaddr truncSize newVaddr1 newSize1 newReg1 newType1
    newVaddr2 newSize2 newReg2 newType2 : Z) (s : t) : option (Z * t) :=
  let '((rc, _), s1) := locked_truncate truncVaddr truncSize s in
  if _SUCCESS rc then
    let '(rc, s2) := locked_attachFixedRegion newVaddr1 newSize1 newReg1 newType1 s1 in
    _ ← assertK (_SUCCESS rc);
    if negb (newReg2 =? 0) then
      let '(rc, s3) := locked_attachFixedRegion newVaddr2 newSize2 newReg2 newType2 s2 in
      _ ← assertK (_SUCCESS rc);
      Some (rc, s3)
    else Some (rc, s2)
  else Some (rc, s1).

(** ** Whole-list operations *)

(** The first loop of preExec: the list that stays, and the list to destroy. *)
Fixpoint preExec_split (l : list Holder) : option (list Holder * list Holder) :=
  match l with
  | [] => Some ([], [])
  | h :: nxt =>
      ty ← type h;
      '(keep, dead) ← preExec_split nxt;
      if Z.land ty KeepOnExec =? 0 then Some (keep, h :: dead) else Some (h :: keep, dead)
  end.

(** preFork: [trans] is the status of XHandleTrans::XHToInternal and whether
    the handle is for a process; [clone r ty] is the status of
    forkCloneRegion.  The result is the status and the regions cloned. *)
Fixpoint preFork_loop (clone : Z -> Z -> Z) (rc : Z) (l : list Holder) : option (Z * list Z) :=
  match l with
  | [] => Some (rc, [])
  | h :: nxt =>
      ty ← type h;
      if negb (Z.land ty (unot KeepOnExec) =? Z.land K42Region (unot KeepOnExec)) then
        let rc := clone (reg h) ty in
        _ ← assertK (_SUCCESS rc);
        '(rc', rs) ← preFork_loop clone rc nxt;
        Some (rc', reg h :: rs)
      else preFork_loop clone rc nxt
  end.

Definition preFork (trans : Z * bool) (clone : Z -> Z -> Z) (s : t) : option (Z * list Z) :=
  if negb (_SUCCESS trans.1) then Some (trans.1, [])
  else if negb trans.2 then Some (_SERROR 2713 0 EINVAL, [])
  else preFork_loop clone trans.1 (regions s).

Definition purge (s : t) : Z * t := (0, set_regions s []).

(** ** Invariant: an ordered list of disjoint, non-empty, typed ranges *)

Fixpoint ordered (lo : Z) (l : list Holder) (hi : Z) : Prop :=
  match l with
  | [] => lo <= hi
  | r :: l' => lo <= vaddr r /\ 0 < size r /\ ordered (vaddr r + size r) l' hi
  end.

Record inv (s : t) : Prop := {
  inv_lo : 0 <= regionsStart s <= regionsAllocStart s;
  inv_hi : regionsEnd s < 2 ^ 64;
  inv_ordered : ordered (regionsStart s) (regions s) (regionsEnd s);
  inv_typed : Forall (fun r => is_Some (type r)) (regions s);
}.

Lemma ordered_le lo l hi : ordered lo l hi -> lo <= hi.
Proof.
  revert lo. induction l as [|r l IH]; simpl; intros lo H; [done|].
  destruct H as (? & ? & H%IH). lia.
Qed.

Lemma ordered_weaken lo lo' l hi hi' :
  lo' <= lo -> hi <= hi' -> ordered lo l hi -> ordered lo' l hi'.
Proof.
  revert lo lo'. induction l as [|r l IH]; simpl; intros lo lo' Hlo Hhi H; [lia|].
  destruct H as (? & ? & H). split; [lia|]. split; [done|]. by eapply (IH (vaddr r + size r)).
Qed.

Lemma ordered_app lo l1 l2 hi :
  ordered lo (l1 ++ l2) hi <-> exists m, ordered lo l1 m /\ ordered m l2 hi.
Proof.
  revert lo. induction l1 as [|r l1 IH]; simpl; intros lo.
  - split; [intros H; exists lo; by split|].
    intros (m & ? & H). eapply ordered_weaken; [done| |done]. lia.
  - split.
    + intros (? & ? & (m & ? & ?)%IH). eauto 10.
    + intros (m & (? & ? & ?) & ?). split_and!; [done..|]. apply IH. eauto.
Qed.

(** Every range of an ordered list lies between the bounds. *)
Lemma ordered_elem lo l hi r :
  ordered lo l hi -> r ∈ l -> lo <= vaddr r /\ 0 < size r /\ vaddr r + size r <= hi.
Proof.
  revert lo. induction l as [|r' l IH]; simpl; intros lo H Hin; [set_solver|].
  destruct H as (? & ? & H). apply elem_of_cons in Hin as [->|Hin].
  - apply ordered_le in H. lia.
  - destruct (IH _ H Hin). lia.
Qed.

Lemma ordered_insert lo l1 r l2 hi :
  ordered lo l1 (vaddr r) -> 0 < size r -> ordered (vaddr r + size r) l2 hi ->
  ordered lo (l1 ++ r :: l2) hi.
Proof. intros. apply ordered_app. exists (vaddr r). simpl. split_and!; (done || lia). Qed.

(** ** The address space as a map from addresses to regions *)

(** The holder an address belongs to. *)
Definition owner (l : list Holder) (a : Z) : option Holder := find_first (covers a) l.

Lemma covers_spec lo l hi r a :
  ordered lo l hi -> 0 <= lo -> hi < 2 ^ 64 -> r ∈ l ->
  covers a r = (vaddr r <=? a) && (a <? vaddr r + size r).
Proof.
  intros H Hlo Hhi Hin. destruct (ordered_elem _ _ _ _ H Hin) as (? & ? & ?).
  unfold covers. by rewrite uadd_small by lia.
Qed.

Lemma owner_below lo l hi a : ordered lo l hi -> a < lo -> owner l a = None.
Proof.
  intros H Ha. apply find_first_None, Forall_forall. intros r Hin.
  destruct (ordered_elem _ _ _ _ H Hin). unfold covers.
  destruct (Z.leb_spec (vaddr r) a); [lia|done].
Qed.

Lemma owner_above lo l hi a :
  ordered lo l hi -> 0 <= lo -> hi < 2 ^ 64 -> hi <= a -> owner l a = None.
Proof.
  intros H Hlo Hhi Ha. apply find_first_None, Forall_forall. intros r Hin.
  rewrite (covers_spec lo l hi) by done. destruct (ordered_elem _ _ _ _ H Hin) as (? & ? & ?).
  destruct (Z.ltb_spec a (vaddr r + size r)); [lia|]. by rewrite andb_false_r.
Qed.

Lemma owner_app l1 l2 a :
  owner (l1 ++ l2) a = match owner l1 a with Some r => Some r | None => owner l2 a end.
Proof.
  unfold owner. induction l1 as [|r l1 IH]; [done|]. simpl.
  rewrite !find_first_cons. by destruct (covers a r).
Qed.

(** Between the holders of [l1] and [l2] nothing is owned. *)
Lemma owner_gap lo l1 m m' l2 hi a :
  ordered lo l1 m -> ordered m' l2 hi -> 0 <= lo -> hi < 2 ^ 64 -> m <= a < m' ->
  owner (l1 ++ l2) a = None.
Proof.
  intros H1 H2 Hlo Hhi Ha. rewrite owner_app. pose proof (ordered_le _ _ _ H2).
  rewrite (owner_above lo l1 m) by (done || lia). by eapply owner_below; [done|lia].
Qed.

(** Adding a holder in a gap changes the map on its range only. *)
Lemma owner_insert lo l1 r l2 hi a :
  ordered lo l1 (vaddr r) -> 0 < size r -> ordered (vaddr r + size r) l2 hi ->
  0 <= lo -> hi < 2 ^ 64 ->
  owner (l1 ++ r :: l2) a =
    if (vaddr r <=? a) && (a <? vaddr r + size r) then Some r else owner (l1 ++ l2) a.
Proof.
  intros H1 Hs H2 Hlo Hhi.
  pose proof (ordered_insert _ _ _ _ _ H1 Hs H2) as H.
  rewrite !owner_app. unfold owner at 2. rewrite find_first_cons.
  rewrite (covers_spec lo _ hi r a H Hlo Hhi) by set_solver.
  destruct (Z.leb_spec (vaddr r) a); simpl; [|done].
  destruct (Z.ltb_spec a (vaddr r + size r)); simpl; [|done].
  pose proof (ordered_le _ _ _ H2). by rewrite (owner_above lo l1 (vaddr r)) by (done || lia).
Qed.

Lemma ordered_split lo l1 r l2 hi :
  ordered lo (l1 ++ r :: l2) hi ->
  ordered lo l1 (vaddr r) /\ 0 < size r /\ ordered (vaddr r + size r) l2 hi.
Proof.
  intros (m & H1 & (? & ? & H2))%ordered_app. split_and!; [|done..].
  eapply ordered_weaken; [| |exact H1]; lia.
Qed.

Lemma owner_in lo l hi r a :
  ordered lo l hi -> 0 <= lo -> hi < 2 ^ 64 -> r ∈ l -> vaddr r <= a < vaddr r + size r ->
  owner l a = Some r.
Proof.
  intros H Hlo Hhi Hin Ha. apply list_elem_of_split in Hin as (l1 & l2 & ->).
  apply ordered_split in H as (H1 & Hs & H2).
  rewrite (owner_insert lo l1 r l2 hi a) by done.
  destruct (Z.leb_spec (vaddr r) a); [|lia].
  by destruct (Z.ltb_spec a (vaddr r + size r)); [|lia].
Qed.

(** [l'] is [l] with [r] added in a gap, at position [i]. *)
Definition added (lo hi : Z) (l : list Holder) (i : nat) (r : Holder) (l' : list Holder) : Prop :=
  exists l1 l2, l = l1 ++ l2 /\ l' = l1 ++ r :: l2 /\ i = length l1 /\
    ordered lo l1 (vaddr r) /\ 0 < size r /\ ordered (vaddr r + size r) l2 hi.

(** Some address of the range is taken, or beyond the end of the space. *)
Definition taken (l : list Holder) (hi v sz : Z) : Prop :=
  exists a, v <= a < v + sz /\ (owner l a <> None \/ hi <= a).

Lemma reserve_after_spec sz v hi : forall nxt lo r,
  ordered lo (r :: nxt) hi -> 0 <= lo -> hi < 2 ^ 64 -> vaddr r <= v < 2 ^ 64 -> 0 < sz ->
  match reserve_after sz v hi r nxt with
  | inr (i, l) => added lo hi (r :: nxt) i (RegionHolder v sz) l
  | inl rc => rc < 0 /\ taken (r :: nxt) hi v sz
  end.
Proof.
  induction nxt as [|r2 nxt IH]; intros lo r H Hlo Hhi Hv Hsz;
    pose proof (ordered_elem _ _ _ r H ltac:(set_solver)) as (Hr1 & Hr2 & Hr3);
    cbn [reserve_after]; rewrite (uadd_small (vaddr r)) by lia;
    (destruct (Z.ltb_spec v (vaddr r + size r));
      [split; [done|]; exists v; split; [lia|]; left;
       rewrite (owner_in lo _ hi r v) by (done || lia || set_solver); done|]).
  - destruct (Z.leb_spec hi v); simpl; [split; [done|]; exists v; split; [lia|by right]|].
    rewrite usub_small by lia.
    destruct (Z.ltb_spec (hi - v) sz); [split; [done|]; exists hi; split; [lia|right; lia]|].
    exists [r], []. simpl in *. split_and!; (done || lia).
  - pose proof (ordered_elem _ _ _ r2 H ltac:(set_solver)) as (Hs1 & Hs2 & Hs3).
    destruct (Z.ltb_spec v (vaddr r2)).
    + rewrite usub_small by lia. destruct (Z.ltb_spec (vaddr r2 - v) sz).
      * split; [done|]. exists (vaddr r2). split; [lia|]. left.
        rewrite (owner_in lo _ hi r2) by (done || lia || set_solver). done.
      * exists [r], (r2 :: nxt). simpl in *. split_and!; (done || lia || apply H).
    + destruct H as (Ha & Hb & H).
      specialize (IH (vaddr r + size r) r2 H ltac:(lia) Hhi ltac:(lia) Hsz).
      destruct (reserve_after sz v hi r2 nxt) as [rc|[i l]].
      * destruct IH as (? & a & Ha' & Hb'). split; [done|]. exists a. split; [done|].
        destruct Hb' as [Hb'|]; [left|by right]. unfold owner. rewrite find_first_cons.
        by destruct (covers a r).
      * destruct IH as (l1 & l2 & Hl & -> & -> & ? & ? & ?).
        exists (r :: l1), l2. simpl. rewrite Hl. split_and!; done.
Qed.

Lemma bad_size_false sz : 0 <= sz -> bad_size sz = false -> 0 < sz.
Proof. unfold bad_size. intros ? [?%Z.eqb_neq _]%orb_false_iff. lia. Qed.

Lemma reserveFixedSpace_spec s sz v :
  inv s -> is_uval sz -> is_uval v ->
  match reserveFixedSpace s sz v with
  | inr (i, s') => exists l', s' = set_regions s l' /\ bad_size sz = false /\
      added (regionsStart s) (regionsEnd s) (regions s) i (RegionHolder v sz) l'
  | inl rc => rc < 0 /\
      (bad_size sz = true \/ v < regionsStart s \/ taken (regions s) (regionsEnd s) v sz)
  end.
Proof.
  intros [[Hlo Hal] Hhi Ho _] [Hs0 Hs1] [Hv0 Hv1]. unfold reserveFixedSpace.
  destruct (bad_size sz) eqn:Eb; [by (split; [|left])|]. apply bad_size_false in Eb as Hsz; [|done].
  destruct (Z.ltb_spec v (regionsStart s)); [by (split; [|right; left])|].
  destruct (regions s) as [|r nxt] eqn:El.
  - pose proof (ordered_le _ _ _ Ho).
    destruct (Z.leb_spec (regionsEnd s) v); simpl.
    { split; [done|]. do 2 right. exists v. split; [lia|by right]. }
    rewrite usub_small by lia. destruct (Z.ltb_spec (regionsEnd s - v) sz).
    { split; [done|]. do 2 right. exists (regionsEnd s). split; [lia|right; lia]. }
    eexists. split; [done|]. split; [done|]. exists [], []. simpl. split_and!; (done || lia).
  - pose proof (ordered_elem _ _ _ r Ho ltac:(set_solver)) as (Hr1 & Hr2 & Hr3).
    destruct (Z.leb_spec v (vaddr r)).
    + rewrite usub_small by lia. destruct (Z.ltb_spec (vaddr r - v) sz).
      * split; [done|]. do 2 right. exists (vaddr r). split; [lia|]. left.
        rewrite (owner_in (regionsStart s) _ (regionsEnd s) r) by (done || lia || set_solver). done.
      * eexists. split; [done|]. split; [done|].
        exists [], (r :: nxt). simpl in *. split_and!; (done || lia || apply Ho).
    + pose proof (reserve_after_spec sz v (regionsEnd s) nxt (regionsStart s) r Ho Hlo Hhi
        ltac:(lia) Hsz) as Hra.
      destruct (reserve_after sz v (regionsEnd s) r nxt) as [rc|[i l]].
      * destruct Hra. split; [done|]. by do 2 right.
      * exists l. by split.
Qed.

(** ** reserveSomeSpace *)

(** Addresses [ALIGN_UP] produces. *)
Definition aligned (v al : Z) : Prop := exists x, 0 <= x /\ x + al <= 2 ^ 64 /\ v = ALIGN_UP x al.

Lemma aligned_mod v k : 0 <= k < 64 -> aligned v (2 ^ k) -> v mod 2 ^ k = 0.
Proof. intros Hk (x & ? & ? & ->). apply align_up_bounds; lia. Qed.

Lemma align_up_least x v k :
  0 <= k < 64 -> 0 <= x -> x + 2 ^ k <= 2 ^ 64 -> x <= v -> v mod 2 ^ k = 0 ->
  ALIGN_UP x (2 ^ k) <= v.
Proof.
  intros Hk Hx Hb Hv Hm. destruct (align_up_bounds x k Hk Hx ltac:(lia)) as [Hr Hrm].
  set (r := ALIGN_UP x (2 ^ k)) in *.
  assert (0 < 2 ^ k) by (apply Z.pow_pos_nonneg; lia).
  apply Z.mod_divide in Hm as [a ->]; [|lia]. apply Z.mod_divide in Hrm as [b Hrb]; [|lia].
  assert (b < a + 1) by nia. nia.
Qed.

Lemma find_hole_sound sz rs re al hi : forall l lo i v,
  ordered lo l hi -> 0 <= lo -> re <= hi -> hi + al <= 2 ^ 64 -> 0 < al -> 0 < sz -> 0 <= rs < re ->
  find_hole sz rs re al l = Some (i, v) ->
  exists l1 l2, l = l1 ++ l2 /\ i = length l1 /\ ordered lo l1 v /\ ordered (v + sz) l2 hi /\
    rs <= v /\ v + sz <= re /\ aligned v al.
Proof.
  induction l as [|r nxt IH]; intros lo i v H Hlo Hre Hhi Hal Hsz Hrs Hf; [done|].
  simpl in Hf. pose proof (ordered_elem _ _ _ r H ltac:(set_solver)) as (Hr1 & Hr2 & Hr3).
  rewrite (uadd_small (vaddr r)) in Hf by lia.
  set (b := if vaddr r + size r <? rs then rs else vaddr r + size r) in *.
  assert (Hb : rs <= b /\ vaddr r + size r <= b <= hi).
  { unfold b. destruct (Z.ltb_spec (vaddr r + size r) rs); lia. }
  pose proof (align_up_ge b al ltac:(lia) Hal ltac:(lia)) as Hup.
  assert (Hva : exists va, (if re <? match nxt with [] => re | r2 :: _ => vaddr r2 end
      then re else match nxt with [] => re | r2 :: _ => vaddr r2 end) = va /\
      va <= re /\ match nxt with [] => va = re | r2 :: _ => va <= vaddr r2 end).
  { eexists. split; [done|].
    destruct nxt as [|r2 nxt]; [rewrite Z.ltb_irrefl; lia|].
    destruct (Z.ltb_spec re (vaddr r2)); lia. }
  destruct Hva as (va & Hva & Hvr & Hvn). rewrite Hva in Hf. clear Hva.
  match type of Hf with (if ?c then _ else _) = _ => destruct c eqn:Ec end.
  - bool_props. simplify_eq. rewrite usub_small in * by lia.
    exists [r], nxt. destruct H as (? & ? & H). simpl. split_and!; try (done || lia).
    + destruct nxt as [|r2 nxt]; simpl in *; [lia|]. split_and!; (lia || apply H).
    + exists b. split_and!; (done || lia).
  - destruct (find_hole sz rs re al nxt) as [[i' v']|] eqn:Ef; [|done]. simpl in Hf. simplify_eq.
    destruct H as (? & ? & H).
    destruct (IH _ _ _ H ltac:(lia) Hre Hhi Hal Hsz Hrs eq_refl)
      as (l1 & l2 & -> & -> & Ho1 & Ho2 & ? & ? & ?).
    exists (r :: l1), l2. simpl. split_and!; done.
Qed.

Lemma find_hole_complete sz rs re k hi v0 : forall l lo,
  ordered lo l hi -> 0 <= lo -> re <= hi -> hi + 2 ^ k <= 2 ^ 64 -> 0 <= k < 64 -> 0 < sz ->
  0 <= rs <= v0 -> v0 + sz <= re -> v0 mod 2 ^ k = 0 ->
  (forall a, v0 <= a < v0 + sz -> owner l a = None) ->
  match l with [] => False | r :: _ => vaddr r <= v0 end ->
  exists i v, find_hole sz rs re (2 ^ k) l = Some (i, v).
Proof.
  induction l as [|r nxt IH]; intros lo H Hlo Hre Hhi Hk Hsz Hrs Hv Hm Hfree Hhd; [done|].
  simpl. pose proof (ordered_elem _ _ _ r H ltac:(set_solver)) as (Hr1 & Hr2 & Hr3).
  assert (0 < 2 ^ k) by (apply Z.pow_pos_nonneg; lia).
  assert (Hend : vaddr r + size r <= v0).
  { destruct (Z.le_gt_cases (vaddr r + size r) v0); [done|].
    specialize (Hfree v0 ltac:(lia)).
    by rewrite (owner_in lo _ hi r v0) in Hfree by (done || lia || set_solver). }
  rewrite (uadd_small (vaddr r)) by lia.
  set (b := if vaddr r + size r <? rs then rs else vaddr r + size r).
  assert (Hb : rs <= b <= v0). { unfold b. destruct (Z.ltb_spec (vaddr r + size r) rs); lia. }
  pose proof (align_up_least b v0 k Hk ltac:(lia) ltac:(lia) ltac:(lia) Hm) as Hup.
  pose proof (align_up_ge b (2 ^ k) ltac:(lia) ltac:(lia) ltac:(lia)) as Hge.
  destruct nxt as [|r2 nxt].
  - rewrite Z.ltb_irrefl. rewrite usub_small by lia.
    destruct (Z.ltb_spec (ALIGN_UP b (2 ^ k)) re); [|lia].
    destruct (Z.leb_spec sz (re - ALIGN_UP b (2 ^ k))); [|lia]. simpl. eauto.
  - destruct (Z.le_gt_cases (vaddr r2) v0) as [Hle|Hgt].
    + destruct H as (? & ? & H).
      destruct (IH _ H ltac:(lia) Hre Hhi Hk Hsz Hrs Hv Hm) as (i & v & Hf); [|done|].
      * intros a Ha. specialize (Hfree a Ha). unfold owner in Hfree.
        rewrite find_first_cons in Hfree. by destruct (covers a r).
      * match goal with |- context [if ?c then Some (1%nat, _) else _] => destruct c end; [by eauto|].
        rewrite Hf. simpl. eauto.
    + assert (v0 + sz <= vaddr r2).
      { destruct (Z.le_gt_cases (v0 + sz) (vaddr r2)); [done|].
        specialize (Hfree (vaddr r2) ltac:(lia)).
        pose proof (ordered_elem _ _ _ r2 H ltac:(set_solver)) as (? & ? & ?).
        by rewrite (owner_in lo _ hi r2 (vaddr r2)) in Hfree by (done || lia || set_solver). }
      destruct (Z.ltb_spec (vaddr r2) rs); [lia|]. simpl.
      set (va := if re <? vaddr r2 then re else vaddr r2).
      assert (v0 + sz <= va <= re). { unfold va. destruct (Z.ltb_spec re (vaddr r2)); lia. }
      rewrite usub_small by lia.
      destruct (Z.ltb_spec (ALIGN_UP b (2 ^ k)) va); [|lia].
      destruct (Z.leb_spec sz (va - ALIGN_UP b (2 ^ k))); [|lia]. simpl. eauto.
Qed.

#[global] Arguments find_hole : simpl never.

Definition eff_align (al : Z) : Z := if al =? 0 then DFLT_ALIGNMENT else al.

Lemma insert_at_app l1 l2 r : insert_at (length l1) r (l1 ++ l2) = l1 ++ r :: l2.
Proof. unfold insert_at. by rewrite take_app_length, drop_app_length. Qed.

(** Conditions under which the address arithmetic of reserveSomeSpace stays
    within 64 bits. *)
Definition range_ok (s : t) (rs re al : Z) : Prop :=
  regionsStart s <= rs /\ re <= regionsEnd s /\ 0 <= al /\
  regionsEnd s + eff_align al <= 2 ^ 64 /\ rs + eff_align al <= 2 ^ 64.

Lemma eff_align_pos al : 0 <= al -> 0 < eff_align al.
Proof. unfold eff_align. destruct (Z.eqb_spec al 0); [done|lia]. Qed.

Lemma reserveSomeSpace_sound s sz rs re al :
  inv s -> is_uval sz -> range_ok s rs re al ->
  match reserveSomeSpace s sz rs re al with
  | Some (inr (i, s')) => exists v l', s' = set_regions s l' /\ bad_size sz = false /\
      added (regionsStart s) (regionsEnd s) (regions s) i (RegionHolder v sz) l' /\
      rs <= v /\ v + sz <= re /\ aligned v (eff_align al)
  | Some (inl rc) => rc < 0
  | None => True
  end.
Proof.
  intros [[Hlo _] Hhi Ho _] [Hs0 Hs1] (Hrs & Hre & Hal & Hb1 & Hb2). unfold reserveSomeSpace.
  destruct (bad_size sz) eqn:Eb; [done|]. apply bad_size_false in Eb as Hsz; [|done].
  match goal with |- context [if ?c then Some (inl (_SERROR 1495 _ _)) else _] => destruct c end; [done|].
  fold (eff_align al). pose proof (eff_align_pos al Hal) as Hpos. set (al' := eff_align al) in *.
  pose proof (align_up_ge rs al' ltac:(lia) Hpos ltac:(lia)) as Hup.
  assert (Halg : aligned (ALIGN_UP rs al') al') by (exists rs; split_and!; (done || lia)).
  set (rs' := ALIGN_UP rs al') in *.
  destruct (Z.leb_spec re rs'); simpl; [done|]. rewrite usub_small by lia.
  destruct (Z.ltb_spec (re - rs') sz); [done|].
  destruct (regions s) as [|r l] eqn:El.
  - exists rs', [RegionHolder rs' sz]. split_and!; try (done || lia).
    exists [], []. simpl. split_and!; (done || lia).
  - pose proof (ordered_elem _ _ _ r Ho ltac:(set_solver)) as (Hr1 & Hr2 & Hr3).
    destruct ((rs' <? vaddr r) && (sz <=? usub (vaddr r) rs')) eqn:Ec; simpl.
    + bool_props. rewrite usub_small in * by lia.
      exists rs', (RegionHolder rs' sz :: r :: l). split_and!; try (done || lia).
      exists [], (r :: l). destruct Ho as (? & ? & Ho). simpl. split_and!; (done || lia).
    + destruct (find_hole sz rs' re al' (r :: l)) as [[i v]|] eqn:Ef; [|exact I]. simpl.
      destruct (find_hole_sound sz rs' re al' (regionsEnd s) (r :: l) (regionsStart s) i v Ho Hlo Hre
        ltac:(lia) Hpos Hsz ltac:(lia) Ef) as (l1 & l2 & Hl & -> & Ho1 & Ho2 & ? & ? & ?).
      exists v, (l1 ++ RegionHolder v sz :: l2).
      split_and!; try (done || lia).
      * change (set_regions s (insert_at (length l1) (RegionHolder v sz) (r :: l)) =
          set_regions s (l1 ++ RegionHolder v sz :: l2)). by rewrite Hl, insert_at_app.
      * exists l1, l2. by split_and!.
Qed.

(** A panic means there is no room: no aligned free range of that size. *)
Lemma reserveSomeSpace_complete s sz rs re al k v0 :
  inv s -> is_uval sz -> range_ok s rs re al -> eff_align al = 2 ^ k -> 12 <= k < 64 ->
  bad_size sz = false -> rs <= v0 -> v0 + sz <= re -> v0 mod 2 ^ k = 0 ->
  (forall a, v0 <= a < v0 + sz -> owner (regions s) a = None) ->
  exists i s', reserveSomeSpace s sz rs re al = Some (inr (i, s')).
Proof.
  intros [[Hlo _] Hhi Ho _] [Hs0 Hs1] (Hrs & Hre & Hal & Hb1 & Hb2) Ek Hk Eb Hv1 Hv2 Hm Hfree.
  unfold reserveSomeSpace. rewrite Eb. apply bad_size_false in Eb as Hsz; [|done].
  pose proof (eff_align_pos al Hal) as Hpos.
  assert (Hal1 : (negb (al =? 0) && negb (Z.land al MIN_PAGE_MASK =? 0)) = false).
  { unfold eff_align in Ek. destruct (Z.eqb_spec al 0); [done|]. simpl.
    rewrite Ek. change MIN_PAGE_MASK with (Z.ones 12). rewrite Z.land_ones by lia.
    replace (2 ^ k) with (2 ^ (k - 12) * 2 ^ 12) by (rewrite <- Z.pow_add_r; f_equal; lia).
    by rewrite Z.mod_mul. }
  rewrite Hal1. fold (eff_align al). rewrite Ek in *.
  pose proof (align_up_least rs v0 k ltac:(lia) ltac:(lia) ltac:(lia) Hv1 Hm) as Hleast.
  pose proof (align_up_ge rs (2 ^ k) ltac:(lia) ltac:(lia) ltac:(lia)) as Hup.
  set (rs' := ALIGN_UP rs (2 ^ k)) in *.
  destruct (Z.leb_spec re rs'); [lia|]. simpl. rewrite (usub_small re rs') by lia.
  destruct (Z.ltb_spec (re - rs') sz); [lia|].
  destruct (regions s) as [|r l] eqn:El; [by eauto|].
  pose proof (ordered_elem _ _ _ r Ho ltac:(set_solver)) as (Hr1 & Hr2 & Hr3).
  destruct ((rs' <? vaddr r) && (sz <=? usub (vaddr r) rs')) eqn:Ec; simpl; [by eauto|].
  destruct (find_hole_complete sz rs' re k (regionsEnd s) v0 (r :: l) (regionsStart s))
    as (i & v & ->); simpl; try (done || lia); [|by eauto].
  destruct (Z.le_gt_cases (vaddr r) v0) as [|Hgt]; [done|]. exfalso.
  assert (v0 + sz <= vaddr r).
  { destruct (Z.le_gt_cases (v0 + sz) (vaddr r)); [done|].
    specialize (Hfree (vaddr r) ltac:(lia)).
    by rewrite (owner_in (regionsStart s) _ (regionsEnd s) r) in Hfree by (done || lia || set_solver). }
  apply andb_false_iff in Ec as [Ec|Ec]; bool_props; [lia|].
  rewrite usub_small in Ec by lia. lia.
Qed.

(** ** Attaching *)

(** [s'] is [s] with [r] of type [ty] at [v], on [sz] bytes that were free. *)
Definition attached (s : t) (v sz r ty : Z) (s' : t) : Prop :=
  inv s' /\ regionsStart s <= v /\ v + sz <= regionsEnd s /\
  (forall a, v <= a < v + sz -> owner (regions s) a = None) /\
  (forall a, owner (regions s') a =
     if (v <=? a) && (a <? v + sz) then Some (mkHolder (Some ty) v sz r)
     else owner (regions s) a).

Lemma alter_middle (f : Holder -> Holder) l1 x l2 :
  alter f (length l1) (l1 ++ x :: l2) = l1 ++ f x :: l2.
Proof. by induction l1; simpl; f_equal. Qed.

Lemma attach_added s i v sz l' r ty :
  inv s ->
  added (regionsStart s) (regionsEnd s) (regions s) i (RegionHolder v sz) l' ->
  attached s v sz r ty (attachRegion i r ty (set_regions s l')) /\
  holder_vaddr i (set_regions s l') = Some v.
Proof.
  intros [Hlo Hhi Ho Hty] (l1 & l2 & Hl & -> & -> & Ho1 & Hsz & Ho2). simpl in *.
  unfold attachRegion, holder_vaddr. simpl.
  rewrite list_lookup_middle, alter_middle by done. split; [|done].
  assert (Hle : regionsStart s <= v) by apply (ordered_le _ _ _ Ho1).
  pose proof (ordered_le _ _ _ Ho2). split_and!; try done.
  - constructor; simpl; try done.
    + by apply (ordered_insert _ _ (mkHolder (Some ty) v sz r)).
    + rewrite Hl in Hty. apply Forall_app in Hty as [? ?].
      apply Forall_app. split; [done|]. by constructor.
  - intros a Ha. rewrite Hl.
    by apply (owner_gap (regionsStart s) l1 v (v + sz) l2 (regionsEnd s)); [..|lia| |].
  - intros a. simpl. rewrite Hl.
    by apply (owner_insert (regionsStart s) l1 (mkHolder (Some ty) v sz r) l2 (regionsEnd s));
      [..|lia|].
Qed.

Lemma attachFixed_spec s v sz r ty :
  inv s -> is_uval v -> is_uval sz ->
  (exists s', locked_attachFixedRegion v sz r ty s = (0, s') /\ attached s v sz r ty s') \/
  (exists rc, locked_attachFixedRegion v sz r ty s = (rc, s) /\ rc < 0 /\
     (bad_size sz = true \/ v < regionsStart s \/ taken (regions s) (regionsEnd s) v sz)).
Proof.
  intros H Hv Hsz. unfold locked_attachFixedRegion.
  pose proof (reserveFixedSpace_spec s sz v H Hsz Hv) as Hr.
  destruct (reserveFixedSpace s sz v) as [rc|[i s']].
  - right. exists rc. by destruct Hr.
  - left. destruct Hr as (l' & -> & _ & Ha). eexists. split; [done|]. by eapply attach_added.
Qed.

(** ** Detaching and truncating *)

(** What the map records of an address: its region and type. *)
Definition attrs (l : list Holder) (a : Z) : option (Z * option Z) :=
  (fun h => (reg h, type h)) <$> owner l a.

(** In an ordered list split at a holder, addresses outside its range are
    owned as without it. *)
Lemma owner_split lo l1 h l2 hi a :
  ordered lo (l1 ++ h :: l2) hi -> 0 <= lo -> hi < 2 ^ 64 ->
  owner (l1 ++ h :: l2) a =
    (if (vaddr h <=? a) && (a <? vaddr h + size h) then Some h else owner (l1 ++ l2) a) /\
  (vaddr h <= a < vaddr h + size h -> owner (l1 ++ l2) a = None).
Proof.
  intros (H1 & Hs & H2)%ordered_split Hlo Hhi. split.
  - by apply (owner_insert lo _ _ _ hi).
  - intros Ha. by apply (owner_gap lo l1 (vaddr h) (vaddr h + size h) l2 hi).
Qed.

Lemma inv_set_middle s l1 h l2 m :
  inv s -> regions s = l1 ++ h :: l2 ->
  ordered (vaddr h) m (vaddr h + size h) -> Forall (fun r => is_Some (type r)) m ->
  inv (set_regions s (l1 ++ m ++ l2)).
Proof.
  intros [Hlo Hhi Ho Hty] Hl Hm Htm. rewrite Hl in Ho, Hty.
  apply ordered_split in Ho as (H1 & Hs & H2).
  apply Forall_app in Hty as [Ht1 Ht2]. apply Forall_cons in Ht2 as [_ Ht2].
  constructor; simpl; try done.
  - apply ordered_app. exists (vaddr h). split; [done|]. apply ordered_app. eauto.
  - by rewrite !Forall_app.
Qed.

(** Replacing a holder by a part of its own range. *)
Lemma owner_shrink lo l1 h h' l2 hi a :
  ordered lo (l1 ++ h :: l2) hi -> 0 <= lo -> hi < 2 ^ 64 ->
  vaddr h <= vaddr h' -> vaddr h' + size h' <= vaddr h + size h -> 0 < size h' ->
  owner (l1 ++ h' :: l2) a =
    if (vaddr h' <=? a) && (a <? vaddr h' + size h') then Some h' else owner (l1 ++ l2) a.
Proof.
  intros (H1 & Hs & H2)%ordered_split Hlo Hhi ? ? ?.
  apply (owner_insert lo _ _ _ hi); try done.
  - eapply ordered_weaken; [| |exact H1]; lia.
  - eapply ordered_weaken; [| |exact H2]; lia.
Qed.

(** [s'] is [s] with the addresses of [v, v+sz) unmapped. *)
Definition unmapped (s : t) (v sz : Z) (s' : t) : Prop :=
  inv s' /\ regionsStart s' = regionsStart s /\ regionsEnd s' = regionsEnd s /\
  (forall a, v <= a < v + sz -> owner (regions s') a = None) /\
  (forall a, ~ v <= a < v + sz -> attrs (regions s') a = attrs (regions s) a).

Lemma truncate_at s l1 h l2 v sz :
  inv s -> regions s = l1 ++ h :: l2 -> 0 < sz ->
  vaddr h <= v -> v + sz <= vaddr h + size h ->
  (forall m, m = (if (vaddr h =? v) && (size h =? sz) then []
                  else if vaddr h =? v then [mkHolder (type h) (vaddr h + sz) (size h - sz) (reg h)]
                  else [mkHolder (type h) (vaddr h) (size h - sz) (reg h)]) ->
     (vaddr h = v \/ vaddr h + size h = v + sz) ->
     unmapped s v sz (set_regions s (l1 ++ m ++ l2))).
Proof.
  intros H Hl Hsz Hv1 Hv2 m Hm Htouch.
  pose proof H as [[Hlo _] Hhi Ho Hty]. rewrite Hl in Ho, Hty.
  assert (Hth : is_Some (type h)) by (apply Forall_app in Hty as [_ Hty]; by apply Forall_cons in Hty as [? _]).
  pose proof (fun a => owner_split _ _ _ _ _ a Ho Hlo Hhi) as Hown.
  pose proof (fun h' a => owner_shrink _ _ h h' _ _ a Ho Hlo Hhi) as Hshr.
  split; [|split_and!; [done..| |]].
  - apply (inv_set_middle s l1 h l2 m H Hl); rewrite Hm;
      destruct (Z.eqb_spec (vaddr h) v), (Z.eqb_spec (size h) sz); simpl; try lia;
      repeat constructor; simpl; try (done || lia).
  - intros a Ha. destruct (Hown a) as [_ Hgap]. specialize (Hgap ltac:(lia)). simpl.
    rewrite Hm. destruct (Z.eqb_spec (vaddr h) v), (Z.eqb_spec (size h) sz); simpl; try done; try lia;
      rewrite Hshr by (simpl; lia); simpl;
      repeat (zcase; simpl; try done; try lia).
  - intros a Ha. unfold attrs. simpl. rewrite Hl. destruct (Hown a) as [-> _].
    rewrite Hm. destruct (Z.eqb_spec (vaddr h) v), (Z.eqb_spec (size h) sz); simpl;
      try rewrite Hshr by (simpl; lia); simpl;
      repeat (zcase; simpl; try done; try lia).
Qed.

Lemma truncate_spec s v sz :
  inv s -> 0 <= v -> 0 < sz -> v + sz < 2 ^ 64 ->
  (exists h s', locked_truncate v sz s = ((0, Some (reg h)), s') /\ h ∈ regions s /\
     vaddr h <= v /\ v + sz <= vaddr h + size h /\
     (vaddr h = v \/ vaddr h + size h = v + sz) /\ unmapped s v sz s') \/
  (exists h, locked_truncate v sz s = ((_SERROR 2356 0 EINVAL, Some (reg h)), s) /\
     h ∈ regions s /\ vaddr h < v /\ v + sz < vaddr h + size h) \/
  (locked_truncate v sz s = ((_SERROR 2357 0 EINVAL, None), s) /\
     forall h, h ∈ regions s -> ~ (vaddr h <= v /\ v + sz <= vaddr h + size h)).
Proof.
  intros H Hv Hsz Hb. pose proof H as [[Hlo _] Hhi Ho _]. unfold locked_truncate.
  destruct (span_until (contains v sz) (regions s)) as [l1 [|h l2]] eqn:E.
  - do 2 right. split; [done|]. intros h Hin [H1 H2].
    apply span_until_none in E as [_ E]. rewrite Forall_forall in E. specialize (E h Hin).
    destruct (ordered_elem _ _ _ _ Ho Hin) as (? & ? & ?). unfold contains in E.
    rewrite !uadd_small in E by lia. apply andb_false_iff in E as [E|E]; bool_props; lia.
  - pose proof (span_until_head _ _ _ _ _ E) as Hc. pose proof (span_until_app _ _ _ _ E) as Hl.
    assert (Hin : h ∈ regions s) by (rewrite Hl; set_solver).
    destruct (ordered_elem _ _ _ _ Ho Hin) as (? & ? & ?).
    unfold contains in Hc. rewrite !uadd_small in Hc by lia. bool_props.
    pose proof (truncate_at s l1 h l2 v sz H Hl Hsz ltac:(done) ltac:(done) _ eq_refl) as Ht.
    rewrite (uadd_small (vaddr h) (size h)), (uadd_small v sz) by lia.
    destruct (Z.eqb_spec (vaddr h) v) as [E1|], (Z.eqb_spec (size h) sz); simpl in *.
    + left. exists h. eexists. split; [done|]. split_and!; try done; try lia; eauto.
    + left. exists h. eexists. rewrite uadd_small, usub_small by lia. split; [done|].
      split_and!; try done; try lia; eauto.
    + lia.
    + destruct (Z.eqb_spec (vaddr h + size h) (v + sz)) as [E2|].
      * left. exists h. eexists. rewrite usub_small by lia. split; [done|].
        split_and!; try done; try lia; eauto.
      * right; left. exists h. split_and!; try done; lia.
Qed.

(** ** The properties *)

(** A list with two regions, for the examples. *)
Definition ex_list : t :=
  mkRL [mkHolder (Some ForkCopy) 65536 65536 7; mkHolder (Some K42Region) 196608 8192 9]
       65536 65536 1048576.

Lemma ex_list_inv : inv ex_list.
Proof. constructor; simpl; try lia. repeat constructor; eauto. Qed.

(** C3: attaching a region at a fixed address is exact: either the status is 0,
    every byte of the range was free, and the address map changes on that range
    only, to the new region; or the list is unchanged, the status is an error,
    and the size is bad, the range starts below the region space, or some byte
    of it is taken or beyond the end (also when the range wraps). *)
Theorem attachFixedRegion_exact s v sz r ty :
  inv s -> is_uval v -> is_uval sz ->
  (exists s', locked_attachFixedRegion v sz r ty s = (0, s') /\ attached s v sz r ty s') \/
  (exists rc, locked_attachFixedRegion v sz r ty s = (rc, s) /\ rc < 0 /\
     (bad_size sz = true \/ v < regionsStart s \/ taken (regions s) (regionsEnd s) v sz)).
Proof. apply attachFixed_spec. Qed.

Lemma attachFixedRegion_exact_witness :
  (exists s', locked_attachFixedRegion 131072 4096 5 1 ex_list = (0, s') /\
     attached ex_list 131072 4096 5 1 s') \/
  (exists rc, locked_attachFixedRegion 131072 4096 5 1 ex_list = (rc, ex_list) /\ rc < 0 /\
     (bad_size 4096 = true \/ 131072 < regionsStart ex_list \/
      taken (regions ex_list) (regionsEnd ex_list) 131072 4096)).
Proof. apply attachFixedRegion_exact; [apply ex_list_inv | vm_compute; split; done..]. Defined.

(** The three outcomes of an allocation in [rs, re) at alignment [al]: attached
    at an aligned address of the range, an error that changes nothing, or the
    panic, and then no aligned free range of that size exists. *)
Definition alloc_outcome (s : t) (rs re sz r ty al va : Z) (res : option ((Z * Z) * t)) : Prop :=
  match res with
  | Some ((rc, v), s') =>
      (rc = 0 /\ attached s v sz r ty s' /\ rs <= v /\ v + sz <= re /\ aligned v (eff_align al)) \/
      (rc < 0 /\ v = va /\ s' = s)
  | None => forall k v0, eff_align al = 2 ^ k -> 12 <= k < 64 ->
      rs <= v0 -> v0 + sz <= re -> v0 mod 2 ^ k = 0 ->
      exists a, v0 <= a < v0 + sz /\ owner (regions s) a <> None
  end.

Lemma alloc_spec s rs re sz r ty al va :
  inv s -> is_uval sz -> range_ok s rs re al ->
  alloc_outcome s rs re sz r ty al va
    (x ← reserveSomeSpace s sz rs re al;
     match x with
     | inl rc => Some ((rc, va), s)
     | inr (i, s1) => v ← holder_vaddr i s1; Some ((0, v), attachRegion i r ty s1)
     end).
Proof.
  intros H Hsz Hr. pose proof (reserveSomeSpace_sound s sz rs re al H Hsz Hr) as Hs.
  destruct (reserveSomeSpace s sz rs re al) as [[rc|[i s']]|] eqn:E; simpl.
  - by right.
  - destruct Hs as (v & l' & -> & _ & Ha & ? & ? & ?).
    destruct (attach_added s i v sz l' r ty H Ha) as [Hatt ->]. simpl. left. by split_and!.
  - intros k v0 Hk Hk2 H1 H2 Hm.
    destruct (decide (Forall (fun a => owner (regions s) a = None) (seqZ v0 sz))) as [Hf|Hf].
    + destruct (reserveSomeSpace_complete s sz rs re al k v0) as (i & s' & ?); try done; [| |congruence].
      * unfold reserveSomeSpace in E. by destruct (bad_size sz).
      * intros a Ha. rewrite Forall_forall in Hf. apply Hf, elem_of_seqZ. lia.
    + apply not_Forall_Exists in Hf; [|apply _].
      apply Exists_exists in Hf as (a & Ha%elem_of_seqZ & Hn). exists a. by split; [lia|].
Qed.

(** Dynamic attachment allocates from the region space: see
    [alloc_outcome]. *)
Theorem attachDynamicRegion_spec s va sz r ty al :
  inv s -> is_uval sz -> range_ok s (regionsAllocStart s) (regionsEnd s) al ->
  alloc_outcome s (regionsAllocStart s) (regionsEnd s) sz r ty al va
    (attachDynamicRegion va sz r ty al s).
Proof. intros. by apply alloc_spec. Qed.

Lemma attachDynamicRegion_spec_witness :
  alloc_outcome ex_list 65536 1048576 8192 5 1 0 0 (attachDynamicRegion 0 8192 5 1 0 ex_list).
Proof.
  apply (attachDynamicRegion_spec ex_list); [apply ex_list_inv | vm_compute; split; done |].
  repeat split; vm_compute; done.
Defined.

(** Attachment within a caller's range: the range is clamped to the region
    space (the caller's address is clamped also when the call fails) and
    allocation then behaves as [alloc_outcome] says. *)
Theorem attachWithinRangeRegion_spec s va va2 sz r ty al :
  inv s -> is_uval sz ->
  range_ok s (Z.max va (regionsStart s)) (Z.min va2 (regionsEnd s)) al ->
  alloc_outcome s (Z.max va (regionsStart s)) (Z.min va2 (regionsEnd s)) sz r ty al
    (Z.max va (regionsStart s)) (attachWithinRangeRegion va va2 sz r ty al s).
Proof.
  intros H Hsz Hr. unfold attachWithinRangeRegion.
  replace (if va <? regionsStart s then regionsStart s else va) with (Z.max va (regionsStart s))
    by (destruct (Z.ltb_spec va (regionsStart s)); lia).
  replace (if regionsEnd s <? va2 then regionsEnd s else va2) with (Z.min va2 (regionsEnd s))
    by (destruct (Z.ltb_spec (regionsEnd s) va2); lia).
  assert (He : eff_align (if al =? 0 then PAGE_SIZE else al) = eff_align al).
  { unfold eff_align. destruct (Z.eqb_spec al 0); [done|]. by destruct (Z.eqb_spec al 0). }
  set (al' := if al =? 0 then PAGE_SIZE else al) in *.
  assert (Hal : 0 <= al') by (unfold al'; destruct Hr as (_ & _ & ? & _); by destruct (al =? 0)).
  pose proof (alloc_spec s (Z.max va (regionsStart s)) (Z.min va2 (regionsEnd s)) sz r ty al'
    (Z.max va (regionsStart s)) H Hsz) as Ha.
  unfold alloc_outcome, range_ok in *. rewrite He in Ha. apply Ha. intuition.
Qed.

Lemma attachWithinRangeRegion_spec_witness :
  alloc_outcome ex_list 131072 196608 4096 5 1 0 131072
    (attachWithinRangeRegion 131072 196608 4096 5 1 0 ex_list).
Proof.
  apply (attachWithinRangeRegion_spec ex_list 131072 196608);
    [apply ex_list_inv | vm_compute; split; done |].
  repeat split; vm_compute; done.
Defined.

(** Truncation unmaps exactly the requested range when it lies at the start
    or end of (or is all of) one region, keeping every other address with its
    region and type; otherwise nothing changes and the two errors tell a range
    strictly inside a region from one that no region contains. *)
Theorem truncate_exact s v sz :
  inv s -> 0 <= v -> 0 < sz -> v + sz < 2 ^ 64 ->
  (exists h s', locked_truncate v sz s = ((0, Some (reg h)), s') /\ h ∈ regions s /\
     vaddr h <= v /\ v + sz <= vaddr h + size h /\
     (vaddr h = v \/ vaddr h + size h = v + sz) /\ unmapped s v sz s') \/
  (exists h, locked_truncate v sz s = ((_SERROR 2356 0 EINVAL, Some (reg h)), s) /\
     h ∈ regions s /\ vaddr h < v /\ v + sz < vaddr h + size h) \/
  (locked_truncate v sz s = ((_SERROR 2357 0 EINVAL, None), s) /\
     forall h, h ∈ regions s -> ~ (vaddr h <= v /\ v + sz <= vaddr h + size h)).
Proof. apply truncate_spec. Qed.

Lemma truncate_exact_witness :
  (exists h s', locked_truncate 65536 4096 ex_list = ((0, Some (reg h)), s') /\ h ∈ regions ex_list /\
     vaddr h <= 65536 /\ 65536 + 4096 <= vaddr h + size h /\
     (vaddr h = 65536 \/ vaddr h + size h = 65536 + 4096) /\ unmapped ex_list 65536 4096 s') \/
  (exists h, locked_truncate 65536 4096 ex_list = ((_SERROR 2356 0 EINVAL, Some (reg h)), ex_list) /\
     h ∈ regions ex_list /\ vaddr h < 65536 /\ 65536 + 4096 < vaddr h + size h) \/
  (locked_truncate 65536 4096 ex_list = ((_SERROR 2357 0 EINVAL, None), ex_list) /\
     forall h, h ∈ regions ex_list -> ~ (vaddr h <= 65536 /\ 65536 + 4096 <= vaddr h + size h)).
Proof. apply truncate_exact; [apply ex_list_inv | lia..]. Defined.

(** The containment tests of truncate and checkRegion add without an
    overflow check: a length for which start + length wraps to 0 is accepted at
    the start of any region, whose holder then starts at address 0 and overlaps
    all space below, and checkRegion accepts it at any address above the
    region's start. *)
Theorem truncate_wraps s h l :
  inv s -> regions s = h :: l -> 0 < vaddr h ->
  let sz := 2 ^ 64 - vaddr h in
  checkRegion s (vaddr h) sz = 0 /\
  locked_truncate (vaddr h) sz s =
    ((0, Some (reg h)), set_regions s (mkHolder (type h) 0 (vaddr h + size h) (reg h) :: l)).
Proof.
  intros [[Hlo _] Hhi Ho _] Hl Hv sz. rewrite Hl in Ho. destruct Ho as (? & ? & Ho%ordered_le).
  assert (Hw : uadd (vaddr h) sz = 0).
  { unfold uadd, sz. replace (vaddr h + (2 ^ 64 - vaddr h)) with (2 ^ 64) by lia. done. }
  assert (Hc : contains (vaddr h) sz h = true).
  { unfold contains. rewrite Hw, uadd_small by lia.
    by repeat (zcase; simpl; try lia). }
  split.
  - unfold checkRegion. by rewrite Hl, find_first_cons, Hc.
  - unfold locked_truncate. rewrite Hl. simpl. rewrite Hc, Z.eqb_refl, Hw.
    destruct (Z.eqb_spec (size h) sz); simpl; [lia|].
    unfold usub, sz, uwrap. replace (size h - (2 ^ 64 - vaddr h)) with (vaddr h + size h + (-1) * 2 ^ 64) by lia.
    rewrite Z.mod_add, Z.mod_small by lia. done.
Qed.

Lemma truncate_wraps_witness :
  checkRegion ex_list 65536 (2 ^ 64 - 65536) = 0 /\
  locked_truncate 65536 (2 ^ 64 - 65536) ex_list =
    ((0, Some 7), set_regions ex_list
      [mkHolder (Some ForkCopy) 0 (65536 + 65536) 7; mkHolder (Some K42Region) 196608 8192 9]).
Proof.
  apply (truncate_wraps ex_list (mkHolder (Some ForkCopy) 65536 65536 7)
    [mkHolder (Some K42Region) 196608 8192 9]); [apply ex_list_inv | done | done].
Defined.

(** *** Replacing part of a region in place *)

Lemma attach_fits s v sz r ty :
  inv s -> is_uval v -> is_uval sz -> bad_size sz = false ->
  regionsStart s <= v -> v + sz <= regionsEnd s ->
  (forall a, v <= a < v + sz -> owner (regions s) a = None) ->
  exists s', locked_attachFixedRegion v sz r ty s = (0, s') /\ attached s v sz r ty s'.
Proof.
  intros H Hv Hsz Hb H1 H2 Hf.
  destruct (attachFixed_spec s v sz r ty H Hv Hsz) as [?|(rc & _ & _ & Hwhy)]; [done|].
  destruct Hwhy as [?|[?|(a & Ha & [Hn|Hn])]]; [congruence|lia| |lia].
  by rewrite Hf in Hn.
Qed.

Lemma attached_bounds s v sz r ty s' :
  locked_attachFixedRegion v sz r ty s = (0, s') -> attached s v sz r ty s' ->
  regionsStart s' = regionsStart s /\ regionsEnd s' = regionsEnd s.
Proof.
  unfold locked_attachFixedRegion, reserveFixedSpace. intros E _.
  repeat match type of E with
  | context [if ?c then _ else _] => destruct c
  | context [match regions ?s with _ => _ end] => destruct (regions s)
  | context [match reserve_after ?a ?b ?c ?d ?e with _ => _ end] =>
      destruct (reserve_after a b c d e) as [?|[? ?]]
  end; simplify_eq; done.
Qed.

(** TruncateAndInsertInPlace never panics when the new ranges fit in the
    truncated one: if the truncated range lies at an end of its region and the
    new region (and the second one, if given) are of page-multiple size, inside
    it and disjoint, the call returns 0 and the addresses map to the new
    regions, to nothing in the rest of the truncated range, and elsewhere to
    what they mapped to before. *)
Theorem truncateAndInsertInPlace_spec s h v sz v1 s1 r1 t1 v2 s2 r2 t2 :
  inv s -> h ∈ regions s -> 0 <= v -> 0 < sz ->
  vaddr h <= v -> v + sz <= vaddr h + size h ->
  (vaddr h = v \/ vaddr h + size h = v + sz) ->
  (v <= v1 /\ v1 + s1 <= v + sz /\ 0 <= s1 /\ bad_size s1 = false) ->
  (v <= v2 /\ v2 + s2 <= v + sz /\ 0 <= s2 /\ bad_size s2 = false) ->
  (v1 + s1 <= v2 \/ v2 + s2 <= v1) -> r2 <> 0 ->
  exists s', truncateAndInsertInPlace v sz v1 s1 r1 t1 v2 s2 r2 t2 s = Some (0, s') /\ inv s' /\
    forall a, attrs (regions s') a =
      if (v1 <=? a) && (a <? v1 + s1) then Some (r1, Some t1)
      else if (v2 <=? a) && (a <? v2 + s2) then Some (r2, Some t2)
      else if (v <=? a) && (a <? v + sz) then None
      else attrs (regions s) a.
Proof.
  intros H Hin Hv Hsz Hh1 Hh2 Htouch (F1 & F2 & F3 & F4) (G1 & G2 & G3 & G4) Hdis Hr2.
  pose proof H as [[Hlo _] Hhi Ho _]. destruct (ordered_elem _ _ _ _ Ho Hin) as (O1 & O2 & O3).
  unfold truncateAndInsertInPlace.
  destruct (truncate_spec s v sz H Hv Hsz ltac:(lia))
    as [(h' & sa & -> & _ & _ & _ & _ & Ha & Es & Ee & Hna & Hka)|[(h' & _ & Hin' & ? & ?)|(_ & Hno)]].
  2:{ exfalso. pose proof (owner_in _ _ _ h v Ho Hlo Hhi Hin ltac:(lia)) as Hoh.
      rewrite (owner_in _ _ _ h' v Ho Hlo Hhi Hin' ltac:(lia)) in Hoh. simplify_eq. lia. }
  2:{ exfalso. by apply (Hno h Hin). }
  simpl. destruct (attach_fits sa v1 s1 r1 t1 Ha) as (sb & E1 & Hb); [split; lia..|done|lia|lia| |].
  { intros a ?. apply Hna. lia. }
  rewrite E1. simpl. rewrite (proj2 (Z.eqb_neq _ _) Hr2). simpl.
  destruct (attached_bounds _ _ _ _ _ _ E1 Hb) as [Es1 Ee1].
  pose proof Hb as (Hbi & _ & _ & _ & Hbo).
  destruct (attach_fits sb v2 s2 r2 t2 Hbi) as (sc & E2 & Hc); [split; lia..|done|lia|lia| |].
  { intros a ?. rewrite Hbo, Hna by lia. by repeat (zcase; simpl; try lia). }
  rewrite E2. simpl. exists sc. split; [done|].
  destruct Hc as (Hci & _ & _ & _ & Hco). split; [done|]. intros a.
  unfold attrs at 1. rewrite Hco, Hbo. pose proof (Hna a) as Hna. specialize (Hka a).
  unfold attrs in *. repeat (zcase; simpl; try done; try lia);
    (rewrite Hna by lia; done) || (apply Hka; lia).
Qed.

Lemma truncateAndInsertInPlace_spec_witness :
  exists s', truncateAndInsertInPlace 65536 16384 65536 4096 21 1 73728 8192 22 2 ex_list = Some (0, s')
    /\ inv s' /\
    forall a, attrs (regions s') a =
      if (65536 <=? a) && (a <? 65536 + 4096) then Some (21, Some 1)
      else if (73728 <=? a) && (a <? 73728 + 8192) then Some (22, Some 2)
      else if (65536 <=? a) && (a <? 65536 + 16384) then None
      else attrs (regions ex_list) a.
Proof.
  apply (truncateAndInsertInPlace_spec ex_list (mkHolder (Some ForkCopy) 65536 65536 7));
    simpl; try lia.
  - apply ex_list_inv.
  - by left.
  - repeat split; done.
  - repeat split; done.
Defined.

(** *** Whole-list operations *)

Lemma detachRegion_spec r s :
  (detachRegion r s).2 = set_regions s (remove_first (fun h => reg h =? r) (regions s)) /\
  ((detachRegion r s).1 = 0 <-> r ∈ reg <$> regions s).
Proof.
  unfold detachRegion, remove_first.
  destruct (span_until (fun h => reg h =? r) (regions s)) as [l1 [|h l2]] eqn:E; simpl.
  - pose proof (span_until_none _ _ _ E) as [-> Hn]. rewrite app_nil_r. split; [by destruct s|].
    split; [done|]. intros (h & -> & Hin)%list_elem_of_fmap. rewrite Forall_forall in Hn.
    specialize (Hn h Hin). simpl in Hn. by rewrite Z.eqb_refl in Hn.
  - split; [done|]. split; [|done]. intros _. pose proof (span_until_head _ _ _ _ _ E) as Hh.
    simpl in Hh. bool_props. apply list_elem_of_fmap. exists h. split; [done|].
    rewrite (span_until_app _ _ _ _ E). set_solver.
Qed.

Definition keeps (h : Holder) : Prop :=
  match type h with Some ty => Z.land ty KeepOnExec <> 0 | None => False end.

#[export] Instance keeps_dec h : Decision (keeps h).
Proof. unfold keeps. destruct (type h); apply _. Defined.

Lemma preExec_split_spec l :
  Forall (fun h => is_Some (type h)) l ->
  preExec_split l = Some (filter keeps l, filter (fun h => ~ keeps h) l).
Proof.
  induction 1 as [|h l [ty Hty] _ IH]; [done|]. simpl. rewrite Hty, IH. simpl.
  assert (Hk : keeps h <-> Z.land ty KeepOnExec <> 0) by (unfold keeps; by rewrite Hty).
  rewrite !filter_cons.
  destruct (Z.eqb_spec (Z.land ty KeepOnExec) 0) as [E|E]; simpl;
    repeat case_decide; (done || (exfalso; tauto)).
Qed.

(** Walking the list with getNextRegion, starting from address 0. *)
Fixpoint walk_regions (fuel : nat) (s : t) (a : Z) : option (list Z) :=
  match fuel with
  | O => None
  | S fuel =>
      match getNextRegion s a with
      | (_, Some (r, a')) => rs ← walk_regions fuel s a'; Some (r :: rs)
      | (_, None) => Some []
      end
  end.

Lemma walk_regions_spec s : forall l2 l1 a fuel,
  inv s -> regions s = l1 ++ l2 -> ordered (regionsStart s) l1 a -> ordered a l2 (regionsEnd s) ->
  (length l2 < fuel)%nat -> walk_regions fuel s a = Some (reg <$> l2).
Proof.
  induction l2 as [|h l2 IH]; intros l1 a fuel H Hl H1 H2 Hf; (destruct fuel as [|fuel]; [simpl in Hf; lia|]);
    pose proof H as [[Hlo _] Hhi Ho _]; simpl; unfold getNextRegion;
    (assert (Hpast : Forall (fun r => (a <? uadd (vaddr r) (size r)) = false) l1);
      [apply Forall_forall; intros r Hr; pose proof (ordered_le _ _ _ H2);
       destruct (ordered_elem _ _ _ _ H1 Hr) as (? & ? & ?);
       rewrite uadd_small by lia; apply Z.ltb_ge; lia|]).
  - rewrite Hl, app_nil_r. by rewrite (proj2 (find_first_None _ l1) Hpast).
  - destruct H2 as (? & ? & H2). pose proof (ordered_le _ _ _ H2). pose proof (ordered_le _ _ _ H1).
    assert (Hh : (a <? uadd (vaddr h) (size h)) = true) by (rewrite uadd_small by lia; apply Z.ltb_lt; lia).
    unfold find_first. rewrite Hl, (span_until_intro _ l1 (h :: l2) Hpast Hh). simpl.
    rewrite uadd_small by lia. rewrite (IH (l1 ++ [h]) (vaddr h + size h) fuel); try done.
    + by rewrite <- app_assoc.
    + apply ordered_app. exists a. split; [done|]. simpl. lia.
    + simpl in Hf. lia.
Qed.

(** Iterating getNextRegion from address 0, as its comment describes, visits
    every region exactly once, in address order, and ends. *)
Theorem getNextRegion_enumerates s :
  inv s -> walk_regions (S (length (regions s))) s 0 = Some (reg <$> regions s).
Proof.
  intros H. pose proof H as [[Hlo _] Hhi Ho _]. destruct (regions s) as [|h l] eqn:E.
  - simpl. unfold getNextRegion. by rewrite E.
  - destruct Ho as (? & ? & Ho). pose proof (ordered_le _ _ _ Ho).
    remember (length (h :: l)) as n eqn:En. simpl in En |- *. unfold getNextRegion.
    rewrite E, find_first_cons, uadd_small by lia.
    destruct (Z.ltb_spec 0 (vaddr h + size h)); [|lia].
    rewrite uadd_small by lia.
    rewrite (walk_regions_spec s l [h] (vaddr h + size h) n); try done; [|lia].
    simpl. lia.
Qed.

Lemma getNextRegion_enumerates_witness :
  walk_regions (S (length (regions ex_list))) ex_list 0 = Some (reg <$> regions ex_list).
Proof. apply getNextRegion_enumerates, ex_list_inv. Defined.

End RegionList.
