(* ===== verification/RegionDefault.v ===== *)
(** * RegionDefault: destroying the regions of an address space,
      os/kernel/mem/RegionDefault.C (destroy) and RegionList.C
      (deleteRegionsAll, preExec)

    The state is the region list of one process and the region objects its
    holders point to.  Of a region object the model keeps what destroy reads:
    whether its request counter has been shut down, the list of X objects
    exported for it (lib/libc/cobj/XObjectList.C) and the process it is
    attached to.  Unmapping the range and detaching from the FCM touch neither
    the list nor another region and are not part of the state.  A reference to
    a region that has been destroyed reaches the deleted object, whose methods
    return [_SDELETED(1223)] (lib/libc/cobj/BaseObj.C). *)

From stdpp Require Import base numbers option gmap list.
From S2P Require Import K42 Prelude RegionList.

Module RegionDefault.
Import RegionList.

Definition ESRCH : Z := 3.
Definition _SDELETED (ec : Z) : Z := _SERROR ec 255 0.

Record Region := mkRegion {
  down : bool;            (* requests has been shut down *)
  closing : bool;         (* the closing bit of the exported X object list *)
  exported : list Z;      (* the X objects on it *)
  proc : Z;               (* ProcessRef, 0 for NULL *)
}.

Record world := mkWorld {
  objects : gmap Z Region;
  rlst : t;
}.

Definition set_object (r : Z) (R : Region) (w : world) : world :=
  mkWorld (<[r := R]> (objects w)) (rlst w).

(** XObjectListObj::close: every turn releases the X object at the head, and
    the turn that finds the list empty sets the closing bit. *)
Fixpoint close_loop (xs : list Z) : list Z * bool :=
  match xs with
  | [] => ([], true)
  | _ :: xs => close_loop xs
  end.

Definition closeExportedXObjectList (R : Region) : Z * Region :=
  if closing R then (_SERROR 1529 1 ESRCH, R)
  else
    let '(xs, c) := close_loop (exported R) in
    (0, mkRegion (down R) c xs (proc R)).

Section Process.

(** The process that owns the list. *)
Variable self : Z.

(** DREF(proc)->detachRegion: the list of another process is not in the state. *)
Definition proc_detachRegion (p r : Z) (w : world) : world :=
  if p =? self then mkWorld (objects w) (detachRegion r (rlst w)).2 else w.

Definition destroyUnchecked (r : Z) (w : world) : world :=
  mkWorld (delete r (objects w)) (rlst w).

(** DREF(r)->destroy() *)
Definition destroy (r : Z) (w : world) : Z * world :=
  match objects w !! r with
  | None => (_SDELETED 1223, w)
  | Some R =>
      if down R then (0, w)
      else
        let R1 := mkRegion true (closing R) (exported R) (proc R) in
        let '(rc, R2) := closeExportedXObjectList R1 in
        let w1 := set_object r R2 w in
        if _FAILURE rc then ((if _SCLSCD rc =? 1 then 0 else rc), w1)
        else
          let w2 := if negb (proc R2 =? 0) then proc_detachRegion (proc R2) r w1 else w1 in
          (0, destroyUnchecked r w2)
  end.

(** [None]: the passert fails, or the fuel has run out. *)
Fixpoint deleteRegionsAll (fuel : nat) (w : world) : option (Z * world) :=
  match fuel with
  | O => None
  | S fuel =>
      match regions (rlst w) with
      | [] => Some (0, w)
      | rh :: _ =>
          let '(rc, w1) := destroy (reg rh) w in
          _ ← assertK (rc =? 0);
          deleteRegionsAll fuel w1
      end
  end.

(** The second loop of preExec. *)
Fixpoint destroy_all (l : list Holder) (w : world) : option world :=
  match l with
  | [] => Some w
  | h :: nxt =>
      let '(rc, w1) := destroy (reg h) w in
      _ ← assertK (_SUCCESS rc);
      destroy_all nxt w1
  end.

Definition preExec (w : world) : option (Z * world) :=
  '(keep, dead) ← preExec_split (regions (rlst w));
  w1 ← destroy_all dead (mkWorld (objects w) (set_regions (rlst w) keep));
  Some (0, w1).

(** ** What destroy does *)

(** A region nobody is destroying, attached to the process. *)
Definition live (w : world) (r : Z) : Prop :=
  exists R, objects w !! r = Some R /\ down R = false /\ closing R = false /\ proc R = self.

(** A region whose destruction another caller has begun. *)
Definition going (w : world) (r : Z) : Prop :=
  exists R, objects w !! r = Some R /\ (down R = true \/ closing R = true).

Lemma close_loop_empties xs : close_loop xs = ([], true).
Proof. by induction xs. Qed.

Lemma destroy_live r w :
  self <> 0 -> live w r ->
  destroy r w = (0, mkWorld (delete r (objects w)) (detachRegion r (rlst w)).2).
Proof.
  intros Hs (R & HR & Hd & Hc & Hp). unfold destroy, closeExportedXObjectList.
  rewrite HR, Hd. simpl. rewrite Hc, close_loop_empties. simpl.
  unfold proc_detachRegion. rewrite Hp, Z.eqb_refl, (proj2 (Z.eqb_neq _ _) Hs). simpl.
  unfold destroyUnchecked. simpl. by rewrite delete_insert_eq.
Qed.

Lemma destroy_going r w :
  going w r -> exists w', destroy r w = (0, w') /\ rlst w' = rlst w /\ going w' r.
Proof.
  intros (R & HR & Hg). unfold destroy, closeExportedXObjectList. rewrite HR.
  destruct (down R) eqn:Hd; [exists w; split_and!; [done..|by exists R; auto]|].
  destruct Hg as [?|Hc]; [congruence|]. simpl. rewrite Hc. simpl.
  eexists. split_and!; [done..|]. eexists. simpl. rewrite lookup_insert_eq. eauto.
Qed.

Lemma live_delete w s r r' : r <> r' -> live w r' -> live (mkWorld (delete r (objects w)) s) r'.
Proof. intros Hne (R & HR & ?). exists R. simpl. by rewrite lookup_delete_ne. Qed.

(** The objects that are left when the regions of [l] have been destroyed. *)
Definition without (l : list Holder) (m : gmap Z Region) : gmap Z Region :=
  foldl (fun m h => delete (reg h) m) m l.

Lemma without_lookup l m r :
  without l m !! r = if decide (r ∈ reg <$> l) then None else m !! r.
Proof.
  revert m. induction l as [|h l IH]; intros m; [done|]. simpl. rewrite IH.
  repeat case_decide; try done; try set_solver.
  - destruct (decide (reg h = r)) as [->|]; [apply lookup_delete_eq|]. exfalso. set_solver.
  - apply lookup_delete_ne. set_solver.
Qed.

Lemma detach_head h l s :
  regions s = h :: l -> (detachRegion (reg h) s).2 = set_regions s l.
Proof. intros E. unfold detachRegion. rewrite E. simpl. by rewrite Z.eqb_refl. Qed.

Lemma detach_absent r s : r ∉ reg <$> regions s -> (detachRegion r s).2 = s.
Proof.
  intros Hn. destruct (detachRegion_spec r s) as [-> _].
  rewrite remove_first_none; [by destruct s|]. apply Forall_forall. intros h Hin.
  apply Z.eqb_neq. intros Heq. apply Hn, list_elem_of_fmap. eauto.
Qed.

Lemma deleteRegionsAll_loop l : forall w,
  self <> 0 -> regions (rlst w) = l -> NoDup (reg <$> l) ->
  (forall h, h ∈ l -> live w (reg h)) ->
  deleteRegionsAll (S (length l)) w =
    Some (0, mkWorld (without l (objects w)) (set_regions (rlst w) [])).
Proof.
  induction l as [|h l IH]; intros w Hs E Hnd Hl.
  { simpl. rewrite E. destruct w as [o [? ? ? ?]]. simpl in *. by subst. }
  simpl in Hnd. apply NoDup_cons in Hnd as [Hnot Hnd].
  change (length (h :: l)) with (S (length l)).
  remember (S (length l)) as n eqn:En. simpl. rewrite E.
  rewrite (destroy_live (reg h) w Hs (Hl h ltac:(set_solver))). simpl.
  rewrite (detach_head h l _ E).
  rewrite (IH (mkWorld (delete (reg h) (objects w)) (set_regions (rlst w) l))); try done.
  intros h' Hin. apply live_delete; [|apply Hl; set_solver].
  intros Heq. apply Hnot. rewrite Heq. apply list_elem_of_fmap. eauto.
Qed.

(** C30: deleteRegionsAll calls destroy on the region at the head until the
    list is empty.  When every region on the list is attached to this process
    and nobody else has begun to destroy one of them, and no region is on the
    list twice, it returns 0 after one call for each region: the list is empty,
    its bounds are what they were, and exactly the regions that were on it are
    destroyed. *)
Theorem deleteRegionsAll_empties (w : world) :
  self <> 0 ->
  NoDup (reg <$> regions (rlst w)) ->
  (forall h, h ∈ regions (rlst w) -> live w (reg h)) ->
  exists w', deleteRegionsAll (S (length (regions (rlst w)))) w = Some (0, w') /\
    rlst w' = set_regions (rlst w) [] /\
    forall r, objects w' !! r =
      if decide (r ∈ reg <$> regions (rlst w)) then None else objects w !! r.
Proof.
  intros Hs Hnd Hl. eexists. split; [by apply (deleteRegionsAll_loop _ w Hs)|].
  split; [done|]. intros r. apply without_lookup.
Qed.

(** The other case: a region that another caller has begun to destroy answers
    0 without leaving the list, and until that caller detaches it the loop
    turns on the same region. *)
Lemma deleteRegionsAll_spins fuel h l : forall w,
  regions (rlst w) = h :: l -> going w (reg h) -> deleteRegionsAll fuel w = None.
Proof.
  induction fuel as [|fuel IH]; intros w E Hg; [done|]. simpl. rewrite E.
  destruct (destroy_going _ _ Hg) as (w' & -> & Hr & Hg'). simpl.
  apply IH; [by rewrite Hr|done].
Qed.

Lemma destroy_all_live l : forall w,
  self <> 0 -> NoDup (reg <$> l) ->
  (forall h, h ∈ l -> live w (reg h) /\ reg h ∉ reg <$> regions (rlst w)) ->
  destroy_all l w = Some (mkWorld (without l (objects w)) (rlst w)).
Proof.
  induction l as [|h l IH]; intros w Hs Hnd Hl; [by destruct w|].
  simpl in Hnd. apply NoDup_cons in Hnd as [Hnot Hnd].
  destruct (Hl h ltac:(set_solver)) as [Hlive Habs]. simpl.
  rewrite (destroy_live (reg h) w Hs Hlive). simpl. rewrite (detach_absent _ _ Habs).
  rewrite (IH (mkWorld (delete (reg h) (objects w)) (rlst w))); try done.
  intros h' Hin. destruct (Hl h' ltac:(set_solver)) as [Hlive' Habs'].
  split; [|done]. apply live_delete; [|done].
  intros Heq. apply Hnot. rewrite Heq. apply list_elem_of_fmap. eauto.
Qed.

Lemma reg_inj (l : list Holder) h h' :
  NoDup (reg <$> l) -> h ∈ l -> h' ∈ l -> reg h = reg h' -> h = h'.
Proof.
  intros Hnd [i Hi]%list_elem_of_lookup [j Hj]%list_elem_of_lookup Heq.
  assert (i = j) as ->; [|congruence].
  apply (NoDup_lookup _ _ _ (reg h) Hnd); rewrite list_lookup_fmap;
    [by rewrite Hi|by rewrite Hj; simpl; rewrite Heq].
Qed.

(** PreExec leaves exactly the regions marked KeepOnExec, in order, and
    destroys the others once each; the detach calls that destroying them makes
    fail silently, as the comment says, because they are off the list already. *)
Theorem preExec_keeps (w : world) :
  self <> 0 -> inv (rlst w) -> NoDup (reg <$> regions (rlst w)) ->
  (forall h, h ∈ regions (rlst w) -> live w (reg h)) ->
  preExec w = Some (0, mkWorld
    (without (filter (fun h => ~ keeps h) (regions (rlst w))) (objects w))
    (set_regions (rlst w) (filter keeps (regions (rlst w))))).
Proof.
  intros Hs H Hnd Hl. unfold preExec. rewrite preExec_split_spec by apply (inv_typed _ H). simpl.
  rewrite destroy_all_live; [done|done| |].
  - eapply sublist_NoDup; [apply Hnd|]. apply fmap_sublist, sublist_filter.
  - intros h [Hk Hin]%list_elem_of_filter. split; [by apply Hl|].
    intros (h' & Heq & [Hk' Hin']%list_elem_of_filter)%list_elem_of_fmap.
    by rewrite (reg_inj _ _ _ Hnd Hin Hin' Heq) in Hk.
Qed.

End Process.

(** An address space of two regions, beside a region of another process. *)
Definition ex_world : world :=
  mkWorld {[ 7 := mkRegion false false [1; 2] 99; 9 := mkRegion false false [] 99;
             11 := mkRegion false false [3] 98 ]}
    (mkRL [mkHolder (Some ForkCopy) 65536 65536 7; mkHolder (Some KeepOnExec) 196608 4096 9]
       65536 4096 1048576).

Lemma ex_world_live h : h ∈ regions (rlst ex_world) -> live 99 ex_world (reg h).
Proof. simpl. rewrite !elem_of_cons. intros [->|[->|?%not_elem_of_nil]]; [by eexists..|done]. Qed.

Lemma deleteRegionsAll_empties_witness :
  exists w', deleteRegionsAll 99 3 ex_world = Some (0, w') /\
    rlst w' = set_regions (rlst ex_world) [] /\
    forall r, objects w' !! r =
      if decide (r ∈ [7; 9]) then None else objects ex_world !! r.
Proof.
  apply (deleteRegionsAll_empties 99 ex_world); [done| |apply ex_world_live].
  simpl. repeat constructor; set_solver by lia.
Defined.

End RegionDefault.
