(* ===== verification/FreeFrameList.v ===== *)
(** * FreeFrameList: free page frames, os/kernel/mem/FreeFrameList.C and .H

    The list uses the free frames themselves: the first word pair of a frame
    that heads a group links the groups, the rest holds the addresses of up to
    509 further free frames.  Physical memory is a store from frame addresses
    to [FrameInfo]; two lists live in the same memory.

    [frames m l] is the abstract content: freeFrame pushes on it and getFrame
    pops from it.  The theorems show that no operation loses or duplicates a
    frame, that [count] is exact and that the kosher checks always pass. *)

From stdpp Require Import base numbers option gmap list.
From S2P Require Import K42 Prelude DList.

Module FreeFrameList.

Definition PER_FRAME_ELEM : Z := 509.

Record FrameInfo := mkFI {
  fi_next : Z;
  fi_prev : Z;
  frameCount : Z;
  pages : list Z;
}.

Record t := mkFFL { tail : Z; head : Z; count : Z }.

#[export] Instance frame_dlinked : DLinked FrameInfo := {|
  dnext := fi_next; dprev := fi_prev;
  set_dnext := fun p n => mkFI p (fi_prev n) (frameCount n) (pages n);
  set_dprev := fun p n => mkFI (fi_next n) p (frameCount n) (pages n);
  dnext_set_dnext := fun _ _ => eq_refl; dprev_set_dnext := fun _ _ => eq_refl;
  dnext_set_dprev := fun _ _ => eq_refl; dprev_set_dprev := fun _ _ => eq_refl;
|}.

Abbreviation memory := (gmap Z FrameInfo) (only parsing).

Definition init : t := mkFFL NULL NULL 0.
Definition isNotEmpty (s : t) : bool := negb (count s =? 0).

Definition is_frame (addr : Z) : bool := negb (addr =? 0) && (Z.land addr PAGE_MASK =? 0).

(** Linking a frame, whose header is [n'], in front of the group list. *)
Definition link_front (m : memory) (hd tl a : Z) (n' : FrameInfo) : option (memory * Z) :=
  let m1 := <[a := n']> m in
  if negb (hd =? NULL) then nh ← m1 !! hd; Some (<[hd := set_dprev a nh]> m1, tl)
  else Some (m1, a).

(** Making [nxt] the first group: its back link, or the tail, is cleared. *)
Definition unlink_front (m : memory) (tl nxt : Z) : option (memory * Z) :=
  if negb (nxt =? NULL) then n2 ← m !! nxt; Some (<[nxt := set_dprev NULL n2]> m, tl)
  else Some (m, NULL).

Definition freeFrame (m : memory) (s : t) (addr : Z) : option (memory * t) :=
  let count' := uadd (count s) 1 in
  fits ← (if head s =? NULL then Some None
          else n ← m !! head s; Some (if frameCount n <? PER_FRAME_ELEM then Some n else None));
  match fits with
  | Some n =>
      Some (<[head s := mkFI (fi_next n) (fi_prev n) (uadd (frameCount n) 1)
                          (<[Z.to_nat (frameCount n) := addr]> (pages n))]> m,
            mkFFL (tail s) (head s) count')
  | None =>
      fi ← m !! addr;
      '(m1, tl) ← link_front m (head s) (tail s) addr (mkFI (head s) NULL 0 (pages fi));
      Some (m1, mkFFL tl addr count')
  end.

(** 0 means no frame available. *)
Definition getFrame (m : memory) (s : t) : option (Z * memory * t) :=
  if count s =? 0 then Some (0, m, s)
  else
    let count' := usub (count s) 1 in
    n ← m !! head s;
    if negb (frameCount n =? 0) then
      let fc := usub (frameCount n) 1 in
      addr ← pages n !! Z.to_nat fc;
      _ ← assertK (is_frame addr);
      Some (addr, <[head s := mkFI (fi_next n) (fi_prev n) fc (pages n)]> m,
            mkFFL (tail s) (head s) count')
    else
      let fi := head s in
      '(m1, tail') ← unlink_front m (tail s) (fi_next n);
      _ ← assertK (is_frame fi);
      Some (fi, m1, mkFFL tail' (fi_next n) count').

(** The kosher check of the FULL_KOSHER build. *)
Fixpoint kosher_loop (fuel : nat) (m : memory) (cur realTail discovered : Z) : option (Z * Z) :=
  match fuel with
  | O => None
  | S fuel =>
      if cur =? NULL then Some (realTail, discovered)
      else
        n ← m !! cur;
        _ ← (if fi_next n =? NULL then Some tt
             else n2 ← m !! fi_next n; assertK (fi_prev n2 =? cur));
        kosher_loop fuel m (fi_next n) cur (uadd discovered (uadd (frameCount n) 1))
  end.

Definition kosher (m : memory) (s : t) : option unit :=
  if count s =? 0 then
    _ ← assertK (head s =? NULL); assertK (tail s =? NULL)
  else
    n ← m !! head s;
    _ ← assertK (fi_prev n =? NULL);
    '(realTail, discovered) ← kosher_loop (S (size m)) m (head s) NULL 0;
    _ ← assertK (tail s =? realTail);
    assertK (count s =? discovered).

(** getList(ffl): the first group. *)
Definition getList1 (m : memory) (s ffl : t) : option (memory * t * t) :=
  _ ← assertK (count ffl =? 0);
  if head s =? NULL then Some (m, s, ffl)
  else
    let tmp := head s in
    n ← m !! tmp;
    let amountMoved := uadd (frameCount n) 1 in
    let head' := fi_next n in
    '(m1, tail') ← unlink_front m (tail s) head';
    n1 ← m1 !! tmp;
    Some (<[tmp := set_dnext NULL n1]> m1,
          mkFFL tail' head' (usub (count s) amountMoved), mkFFL tmp tmp amountMoved).

(** getListTail(ffl): the last group. *)
Definition getListTail (m : memory) (s ffl : t) : option (memory * t * t) :=
  _ ← assertK (count ffl =? 0);
  if tail s =? NULL then Some (m, s, ffl)
  else
    let tmp := tail s in
    n ← m !! tmp;
    let amountMoved := uadd (frameCount n) 1 in
    let tail' := fi_prev n in
    '(m1, head') ←
      (if negb (tail' =? NULL) then
         n2 ← m !! tail'; Some (<[tail' := set_dnext NULL n2]> m, head s)
       else Some (m, NULL));
    n1 ← m1 !! tmp;
    Some (<[tmp := set_dprev NULL n1]> m1,
          mkFFL tail' head' (usub (count s) amountMoved), mkFFL tmp tmp amountMoved).

(** The loop of getUpTo: whole groups are moved to the front of [ffl]. *)
Fixpoint getUpTo_loop (fuel : nat) (m : memory) (s ffl : t) (reqCount : Z)
  : option (Z * memory * t * t) :=
  match fuel with
  | O => None
  | S fuel =>
      if head s =? NULL then Some (reqCount, m, s, ffl)
      else
        let tmp := head s in
        n ← m !! tmp;
        if negb (frameCount n <? reqCount) then Some (reqCount, m, s, ffl)
        else
          let amountMoved := uadd (frameCount n) 1 in
          let head' := fi_next n in
          '(m1, tail') ← unlink_front m (tail s) head';
          n1 ← m1 !! tmp;
          '(m3, ftail) ← link_front m1 (head ffl) (tail ffl) tmp (set_dnext (head ffl) n1);
          getUpTo_loop fuel m3 (mkFFL tail' head' (usub (count s) amountMoved))
            (mkFFL ftail tmp (uadd (count ffl) amountMoved)) (usub reqCount amountMoved)
  end.

(** Returns how much of the request is left. *)
Definition getUpTo (m : memory) (s ffl : t) (reqCount : Z) : option (Z * memory * t * t) :=
  if count s =? 0 then Some (reqCount, m, s, ffl)
  else getUpTo_loop (S (size m)) m s ffl reqCount.

Fixpoint getList_loop (fuel : nat) (m : memory) (s ffl : t) (reqCount : Z)
  : option (Z * memory * t * t) :=
  match fuel with
  | O => None
  | S fuel =>
      if (0 <? reqCount) && isNotEmpty s then
        '(addr, m1, s1) ← getFrame m s;
        '(m2, ffl1) ← freeFrame m1 ffl addr;
        getList_loop fuel m2 s1 ffl1 (usub reqCount 1)
      else Some (reqCount, m, s, ffl)
  end.

(** getList(reqCount, ffl): the number of frames not obtained. *)
Definition getList (m : memory) (s ffl : t) (reqCount : Z) : option (Z * memory * t * t) :=
  '(req, m1, s1, ffl1) ← getUpTo m s ffl reqCount;
  getList_loop (S (size m)) m1 s1 ffl1 req.

Definition freeList (m : memory) (s ffl : t) : option (memory * t * t) :=
  _ ← assertK (0 <? count ffl);
  if negb (count s =? 0) then
    n1 ← m !! tail ffl;
    let m1 := <[tail ffl := set_dnext (head s) n1]> m in
    n2 ← m1 !! head s;
    Some (<[head s := set_dprev (tail ffl) n2]> m1,
          mkFFL (tail s) (head ffl) (uadd (count s) (count ffl)), init)
  else Some (m, mkFFL (tail ffl) (head ffl) (count ffl), init).

(** ** Representation *)

(** The frames of the group headed by [a], in the order getFrame returns them. *)
Definition content (m : memory) (a : Z) : list Z :=
  match m !! a with
  | Some n => reverse (take (Z.to_nat (frameCount n)) (pages n)) ++ [a]
  | None => []
  end.

Definition frames (m : memory) (l : list Z) : list Z := concat (content m <$> l).

Definition group_ok (m : memory) (a : Z) : Prop :=
  exists n, m !! a = Some n /\ 0 <= frameCount n <= PER_FRAME_ELEM.

(** [rep m s l]: [s] is the doubly linked list of the groups [l], with its
    count exact. *)
Definition rep (m : memory) (s : t) (l : list Z) : Prop :=
  dll m (head s) (tail s) l /\ Forall (group_ok m) l /\
  count s = Z.of_nat (length (frames m l)).

(** The memory: every frame's array has 509 entries, addresses fit a word. *)
Definition mem_ok (m : memory) : Prop :=
  (forall a n, m !! a = Some n -> length (pages n) = 509%nat) /\ Z.of_nat (size m) < 2 ^ 52.

(** A set of free frames: distinct, page aligned, non-null, in memory. *)
Definition frames_ok (m : memory) (F : list Z) : Prop :=
  NoDup F /\ Forall (fun a => is_frame a = true /\ is_Some (m !! a)) F.

Lemma frames_cons m a l : frames m (a :: l) = content m a ++ frames m l.
Proof. done. Qed.

Lemma frames_app m l1 l2 : frames m (l1 ++ l2) = frames m l1 ++ frames m l2.
Proof. unfold frames. by rewrite fmap_app, concat_app. Qed.

Lemma content_ext m m' a : m' !! a = m !! a -> content m' a = content m a.
Proof. unfold content. by intros ->. Qed.

Lemma frames_ext m m' l : (forall a, a ∈ l -> content m' a = content m a) -> frames m' l = frames m l.
Proof.
  intros H. unfold frames. f_equal. apply list_fmap_ext. intros i a Hi.
  apply H. by eapply list_elem_of_lookup_2.
Qed.

(** A memory that differs from [m] in links only. *)
Definition relinked (m m' : memory) : Prop :=
  dom m' = dom m /\ (forall a, content m' a = content m a) /\
  (forall a, group_ok m a -> group_ok m' a) /\ (mem_ok m -> mem_ok m').

Lemma relinked_refl m : relinked m m.
Proof. by split_and!. Qed.

Lemma relinked_trans m1 m2 m3 : relinked m1 m2 -> relinked m2 m3 -> relinked m1 m3.
Proof.
  intros (D1 & C1 & G1 & M1) (D2 & C2 & G2 & M2).
  split_and!; [congruence|intros a; congruence|auto..].
Qed.

Lemma mem_ok_insert m x n n' :
  mem_ok m -> m !! x = Some n -> length (pages n') = length (pages n) -> mem_ok (<[x := n']> m).
Proof.
  intros [H1 H2] Hx Hp. split.
  - intros a na [(<- & <-)|(_ & Ha)]%lookup_insert_Some; [rewrite Hp|]; by eapply H1.
  - by rewrite map_size_insert_Some by eauto.
Qed.

Lemma dom_insert_same (m : memory) x (n n' : FrameInfo) :
  m !! x = Some n -> dom (<[x := n']> m) = dom m.
Proof. intros Hx. apply dom_insert_lookup_L. eauto. Qed.

Lemma relinked_insert m x n n' :
  m !! x = Some n -> frameCount n' = frameCount n -> pages n' = pages n ->
  relinked m (<[x := n']> m).
Proof.
  intros Hx Hc Hp. split_and!.
  - by eapply dom_insert_same.
  - intros a. unfold content. destruct (decide (x = a)) as [->|].
    + by rewrite lookup_insert_eq, Hx, Hc, Hp.
    + by rewrite lookup_insert_ne.
  - intros a (na & Ha & Hb). unfold group_ok. destruct (decide (x = a)) as [->|].
    + rewrite lookup_insert_eq. exists n'. split; [done|]. rewrite Hc. by simplify_eq.
    + rewrite lookup_insert_ne by done. eauto.
  - intros Hm. eapply mem_ok_insert; [done..|]. by rewrite Hp.
Qed.

Lemma relinked_frames m m' l : relinked m m' -> frames m' l = frames m l.
Proof. intros (_ & H & _). by apply frames_ext. Qed.

Lemma frames_ok_dom m m' F : dom m' = dom m -> frames_ok m F -> frames_ok m' F.
Proof.
  intros Hd [H1 H2]. split; [done|]. eapply Forall_impl; [exact H2|].
  intros a [? Ha]. split; [done|]. apply elem_of_dom. rewrite Hd. by apply elem_of_dom.
Qed.

Lemma frames_ok_perm m F F' : F ≡ₚ F' -> frames_ok m F -> frames_ok m F'.
Proof. intros Hp [H1 H2]. split; by rewrite <- Hp. Qed.

Lemma frames_ok_length m F : frames_ok m F -> (length F <= size m)%nat.
Proof.
  intros [H1 H2]. rewrite <- (size_dom m), <- (size_list_to_set (C := gset Z) F) by done.
  apply subseteq_size. intros a Ha%elem_of_list_to_set. rewrite Forall_forall in H2.
  destruct (H2 a Ha). by apply elem_of_dom.
Qed.

Lemma groups_in_frames m l a : Forall (group_ok m) l -> a ∈ l -> a ∈ frames m l.
Proof.
  intros H Ha. unfold frames. apply list_elem_of_In, in_concat. exists (content m a).
  rewrite <- !list_elem_of_In, list_elem_of_fmap. split; [by exists a|].
  rewrite Forall_forall in H. destruct (H a Ha) as (n & Hn & _). unfold content. rewrite Hn.
  set_solver.
Qed.

Lemma is_frame_nz a : is_frame a = true -> a <> NULL.
Proof. unfold is_frame. intros H. bool_props. done. Qed.

(** ** The link operations *)

Lemma link_front_spec m hd tl l a n0 n' :
  dll m hd tl l -> a ∉ l -> a <> NULL -> m !! a = Some n0 ->
  dnext n' = hd -> dprev n' = NULL ->
  exists m' tl', link_front m hd tl a n' = Some (m', tl') /\ dll m' a tl' (a :: l) /\
    relinked (<[a := n']> m) m' /\ (forall b, b ∉ a :: l -> m' !! b = m !! b).
Proof.
  intros H Hnin Ha Hn Hnx Hpv. unfold link_front.
  pose proof (dll_push m hd tl a l n' H Hnin Ha Hnx Hpv) as Hp.
  destruct (dll_nil_iff _ _ _ _ H) as [Hnil _].
  destruct (Z.eqb_spec hd NULL) as [E|E]; simpl.
  - apply Hnil in E as ->. do 2 eexists. split_and!; [done|done|apply relinked_refl|].
    intros b Hb. rewrite lookup_insert_ne; [done|]. set_solver.
  - destruct Hp as (nh & Hh & Hne & Hd). rewrite lookup_insert_ne, Hh by congruence. simpl.
    do 2 eexists. split_and!; [done|done| |].
    + apply relinked_insert with nh; [by rewrite lookup_insert_ne|done..].
    + destruct l as [|c l]; [by destruct Hnil as [_ Hx]; rewrite Hx in E|].
      destruct H as (-> & _). intros b Hb. rewrite !lookup_insert_ne; [done|..]; set_solver.
Qed.

Lemma unlink_front_spec m hd tl a l n :
  dll m hd tl (a :: l) -> m !! a = Some n ->
  exists m' tl', unlink_front m tl (fi_next n) = Some (m', tl') /\ dll m' (fi_next n) tl' l /\
    relinked m m' /\ (forall b, b ∉ l -> m' !! b = m !! b) /\ m' !! a = Some n /\
    fi_prev n = NULL /\ hd = a /\ a <> NULL /\ a ∉ l.
Proof.
  intros H Hn. unfold unlink_front.
  destruct (dll_pop m hd tl a l n H Hn) as (-> & Ha & Hnin & Hpv & Hp).
  change (dnext n) with (fi_next n) in Hp. destruct l as [|b l].
  - destruct Hp as [-> ->]. simpl. do 2 eexists. split; [done|].
    split_and!; (done || apply relinked_refl).
  - destruct Hp as (-> & Hb & _ & nb & Hnb & Hd). rewrite (proj2 (Z.eqb_neq _ _) Hb). simpl.
    rewrite Hnb. simpl. do 2 eexists. split; [done|]. split_and!; try done.
    + by apply relinked_insert with nb.
    + intros c Hc. rewrite lookup_insert_ne; [done|]. set_solver.
    + rewrite lookup_insert_ne; [done|]. set_solver.
Qed.

(** ** Two lists in one memory *)

Record inv2 (m : memory) (s1 : t) (l1 : list Z) (s2 : t) (l2 : list Z) : Prop := {
  inv_mem : mem_ok m;
  inv_rep1 : rep m s1 l1;
  inv_rep2 : rep m s2 l2;
  inv_frames : frames_ok m (frames m l1 ++ frames m l2);
}.

Lemma inv2_sym m s1 l1 s2 l2 : inv2 m s1 l1 s2 l2 -> inv2 m s2 l2 s1 l1.
Proof.
  intros [H1 H2 H3 H4]. constructor; try done. by apply (frames_ok_perm _ _ _ (Permutation_app_comm _ _)).
Qed.

Lemma inv2_disjoint m s1 l1 s2 l2 a : inv2 m s1 l1 s2 l2 -> a ∈ frames m l1 -> a ∉ frames m l2.
Proof. intros [_ _ _ [H _]] Ha. apply NoDup_app in H as (_ & H & _). by apply H. Qed.

Lemma inv2_groups m s1 l1 s2 l2 a : inv2 m s1 l1 s2 l2 -> a ∈ l1 -> a ∈ frames m l1 /\ a ∉ l2.
Proof.
  intros H Ha. assert (Hf : a ∈ frames m l1).
  { apply groups_in_frames; [apply (inv_rep1 _ _ _ _ _ H)|done]. }
  split; [done|]. intros Ha2. apply (inv2_disjoint _ _ _ _ _ a H Hf).
  apply groups_in_frames; [apply (inv_rep2 _ _ _ _ _ H)|done].
Qed.

Lemma inv2_bound m s1 l1 s2 l2 :
  inv2 m s1 l1 s2 l2 -> Z.of_nat (length (frames m l1) + length (frames m l2)) < 2 ^ 52.
Proof.
  intros [[_ Hs] _ _ Hf]. apply frames_ok_length in Hf. rewrite length_app in Hf. lia.
Qed.

(** Putting an updated first list together with the untouched second one. *)
Lemma inv2_update m s1 l1 s2 l2 m' s1' l1' :
  inv2 m s1 l1 s2 l2 -> mem_ok m' -> dom m' = dom m -> rep m' s1' l1' ->
  (forall a, a ∈ l2 -> m' !! a = m !! a) ->
  frames_ok m (frames m' l1' ++ frames m l2) ->
  inv2 m' s1' l1' s2 l2 /\ frames m' l2 = frames m l2.
Proof.
  intros [_ _ (H1 & H2 & H3) _] Hm Hd Hr Ha Hf.
  assert (Hf2 : frames m' l2 = frames m l2)
    by (apply frames_ext; intros a Hin; by apply content_ext, Ha).
  split; [|done]. constructor; [done|done| |rewrite Hf2; by apply (frames_ok_dom m)].
  split; [|split; [|by rewrite Hf2]].
  - by apply (dseg_agree m).
  - rewrite Forall_forall in *. intros a Hin. destruct (H2 a Hin) as (n & Hn & ?).
    exists n. by rewrite Ha.
Qed.

(** Operations that only move groups between the lists. *)
Lemma inv2_relink m s1 l1 s2 l2 m' s1' l1' s2' l2' :
  inv2 m s1 l1 s2 l2 -> relinked m m' ->
  dll m' (head s1') (tail s1') l1' -> dll m' (head s2') (tail s2') l2' ->
  l1 ++ l2 ≡ₚ l1' ++ l2' ->
  count s1' = Z.of_nat (length (frames m l1')) -> count s2' = Z.of_nat (length (frames m l2')) ->
  inv2 m' s1' l1' s2' l2'.
Proof.
  intros [Hm (_ & G1 & _) (_ & G2 & _) Hf] Hre D1 D2 Hp C1 C2.
  pose proof Hre as (Hd & _ & Hg & Hmm).
  assert (G : Forall (group_ok m') (l1' ++ l2')).
  { rewrite <- Hp. apply Forall_app. split; by (eapply Forall_impl; [|exact Hg]). }
  apply Forall_app in G as [G1' G2'].
  constructor; [auto|split_and!; try done; by rewrite (relinked_frames m m')..|].
  rewrite !(relinked_frames m m') by done. apply (frames_ok_dom m); [done|].
  eapply frames_ok_perm; [|exact Hf]. rewrite <- !frames_app. unfold frames. by rewrite Hp.
Qed.

(** ** freeFrame and getFrame *)

Lemma take_set (l : list Z) i x :
  (i < length l)%nat -> take (S i) (<[i := x]> l) = take i l ++ [x].
Proof.
  intros H. rewrite (take_S_r _ _ x) by (by apply list_lookup_insert_eq).
  by rewrite take_insert_ge.
Qed.

(** Changing the array of the first group. *)
Lemma inv2_head_update m s hd l s2 l2 n n' :
  inv2 m s (hd :: l) s2 l2 -> m !! hd = Some n ->
  fi_next n' = fi_next n -> fi_prev n' = fi_prev n ->
  0 <= frameCount n' <= PER_FRAME_ELEM -> length (pages n') = length (pages n) ->
  let F := reverse (take (Z.to_nat (frameCount n')) (pages n')) ++ hd :: frames m l in
  frames_ok m (F ++ frames m l2) ->
  let m' := <[hd := n']> m in
  inv2 m' (mkFFL (tail s) (head s) (Z.of_nat (length F))) (hd :: l) s2 l2 /\
  frames m' (hd :: l) = F /\ frames m' l2 = frames m l2 /\ dom m' = dom m.
Proof.
  intros H Hn Hx Hp Hc Hlen F HF m'. pose proof H as [Hm (Hdll & Hok & _) _ _].
  apply dseg_nodup in Hdll as Hnd. apply NoDup_cons in Hnd as [Hhl _].
  assert (Hfr : frames m' (hd :: l) = F).
  { rewrite frames_cons, (frames_ext m m' l).
    - unfold content, m'. rewrite lookup_insert_eq. unfold F. by rewrite <- app_assoc.
    - intros a Ha. apply content_ext. unfold m'. rewrite lookup_insert_ne; [done|]. by intros ->. }
  destruct (inv2_groups _ _ _ _ _ hd H ltac:(set_solver)) as [_ Hh2].
  assert (Hd : dom m' = dom m) by (by eapply dom_insert_same).
  destruct (inv2_update m s (hd :: l) s2 l2 m'
    (mkFFL (tail s) (head s) (Z.of_nat (length F))) (hd :: l) H) as [Hi Hf2]; [..|done].
  - by eapply mem_ok_insert.
  - done.
  - split_and!; [|constructor|by rewrite Hfr].
    + by apply (dseg_insert_same _ _ _ _ _ _ _ n).
    + exists n'. unfold m'. rewrite lookup_insert_eq. done.
    + apply Forall_cons in Hok as [_ Hok]. rewrite Forall_forall in *. intros a Ha.
      destruct (Hok a Ha) as (na & ? & ?). exists na. unfold m'.
      rewrite lookup_insert_ne; [done|]. by intros ->.
  - intros a Ha. unfold m'. rewrite lookup_insert_ne; [done|]. by intros ->.
  - by rewrite Hfr.
Qed.

(** Making a frame the first group. *)
Lemma inv2_new_group m s l s2 l2 addr fi :
  inv2 m s l s2 l2 -> addr <> NULL -> m !! addr = Some fi ->
  frames_ok m (addr :: frames m l ++ frames m l2) ->
  exists m' tl, link_front m (head s) (tail s) addr (mkFI (head s) NULL 0 (pages fi)) = Some (m', tl) /\
    inv2 m' (mkFFL tl addr (Z.of_nat (length (frames m l)) + 1)) (addr :: l) s2 l2 /\
    frames m' (addr :: l) = addr :: frames m l /\ frames m' l2 = frames m l2 /\ dom m' = dom m.
Proof.
  intros H Hnz Hfi HF. pose proof H as [Hm (Hdll & Hok & _) (_ & Hok2 & _) _].
  destruct HF as [HF1 HF2]. apply NoDup_cons in HF1 as HF1'. destruct HF1' as [Hnin _].
  apply not_elem_of_app in Hnin as [Hn1 Hn2].
  assert (Hal : addr ∉ l) by (intros Hin; by apply Hn1, groups_in_frames).
  assert (Hal2 : addr ∉ l2) by (intros Hin; by apply Hn2, groups_in_frames).
  set (n' := mkFI (head s) NULL 0 (pages fi)).
  destruct (link_front_spec m (head s) (tail s) l addr fi n' Hdll Hal Hnz Hfi eq_refl eq_refl)
    as (m' & tl & -> & Hdll' & Hre & Hag).
  assert (Hc1 : forall a, a <> addr -> content m' a = content m a).
  { intros a Ha. destruct Hre as (_ & -> & _). apply content_ext. by rewrite lookup_insert_ne. }
  assert (Hfr : frames m' (addr :: l) = addr :: frames m l).
  { rewrite frames_cons, (frames_ext m m' l) by (intros a Ha; apply Hc1; by intros ->).
    destruct Hre as (_ & -> & _). unfold content. by rewrite lookup_insert_eq. }
  destruct Hre as (Hd & _ & Hg & Hmm). rewrite (dom_insert_same m addr fi) in Hd by done.
  exists m', tl. split; [done|].
  destruct (inv2_update m s l s2 l2 m' (mkFFL tl addr (Z.of_nat (length (frames m l)) + 1))
    (addr :: l) H) as [Hi Hf2]; [..|done].
  - apply Hmm. by eapply mem_ok_insert.
  - done.
  - split_and!; [done|constructor|rewrite Hfr; simpl; lia].
    + apply Hg. exists n'. rewrite lookup_insert_eq. split; [done|]. by vm_compute.
    + rewrite Forall_forall in *. intros a Ha. apply Hg. destruct (Hok a Ha) as (na & ? & ?).
      exists na. rewrite lookup_insert_ne; [done|]. by intros ->.
  - intros a Ha. apply Hag. apply not_elem_of_cons. split; [by intros ->|].
    apply inv2_sym in H. by apply (inv2_groups _ _ _ _ _ a H Ha).
  - by rewrite Hfr.
Qed.

Lemma freeFrame_spec m s l s2 l2 addr :
  inv2 m s l s2 l2 -> frames_ok m (addr :: frames m l ++ frames m l2) ->
  exists m' s' l', freeFrame m s addr = Some (m', s') /\ inv2 m' s' l' s2 l2 /\
    frames m' l' = addr :: frames m l /\ frames m' l2 = frames m l2 /\ dom m' = dom m.
Proof.
  intros H HF. pose proof H as [Hm (Hdll & Hok & Hcnt) _ _].
  pose proof (inv2_bound _ _ _ _ _ H) as Hb.
  assert (is_frame addr = true /\ is_Some (m !! addr)) as [Hfr [fi Hfi]].
  { destruct HF as [_ HF]. by apply Forall_cons in HF as [? _]. }
  destruct (inv2_new_group m s l s2 l2 addr fi H (is_frame_nz _ Hfr) Hfi HF)
    as (mg & tl & Eg & Hg & Hg2).
  unfold freeFrame. rewrite Hcnt, uadd_small by lia.
  destruct (dll_nil_iff _ _ _ _ Hdll) as [Hnil _].
  destruct (Z.eqb_spec (head s) NULL) as [E|E]; simpl.
  { rewrite Hfi. simpl. rewrite Eg. simpl. eauto 10. }
  destruct l as [|hd l]; [by rewrite (proj2 Hnil) in E|].
  pose proof Hdll as (Eh & _). apply Forall_cons in Hok as [(n & Hn & Hfc) _].
  pose proof Eg as Eg'. rewrite Eh, Hn in *. simpl.
  destruct (Z.ltb_spec (frameCount n) PER_FRAME_ELEM) as [Hlt|Hge].
  2:{ rewrite Hfi. simpl. rewrite Eg'. simpl. eauto 10. }
  unfold PER_FRAME_ELEM in *. rewrite uadd_small by lia.
  set (n' := mkFI _ _ _ _).
  assert (Htake : reverse (take (Z.to_nat (frameCount n')) (pages n')) ++ hd :: frames m l =
    addr :: frames m (hd :: l)).
  { simpl. replace (Z.to_nat (frameCount n + 1)) with (S (Z.to_nat (frameCount n))) by lia.
    rewrite take_set by (rewrite (proj1 Hm hd n Hn); lia). rewrite reverse_snoc.
    rewrite frames_cons. unfold content. rewrite Hn. by rewrite <- app_assoc. }
  destruct (inv2_head_update m s hd l s2 l2 n n' H Hn eq_refl eq_refl) as (Hi & Hf & Hf2).
  - simpl. unfold PER_FRAME_ELEM. lia.
  - simpl. by rewrite length_insert.
  - by rewrite Htake.
  - rewrite Htake in *. do 3 eexists. split; [done|].
    split_and!; [|done|by apply Hf2..]. rewrite Eh in Hi. simpl in Hi.
    replace (Z.of_nat (length (frames m (hd :: l))) + 1) with
      (Z.of_nat (S (length (frames m (hd :: l))))) by lia. exact Hi.
Qed.

Lemma getFrame_empty m s l : rep m s l -> frames m l = [] -> getFrame m s = Some (0, m, s).
Proof. intros (_ & _ & Hc) Hf. unfold getFrame. rewrite Hc, Hf. done. Qed.

Lemma getFrame_spec m s l s2 l2 a F :
  inv2 m s l s2 l2 -> frames m l = a :: F ->
  exists m' s' l', getFrame m s = Some (a, m', s') /\ inv2 m' s' l' s2 l2 /\
    frames m' l' = F /\ frames m' l2 = frames m l2 /\ dom m' = dom m.
Proof.
  intros H HF. pose proof H as [Hm (Hdll & Hok & Hcnt) _ Hfo].
  pose proof (inv2_bound _ _ _ _ _ H) as Hb. rewrite HF in Hcnt, Hb, Hfo. simpl in Hcnt, Hb.
  assert (is_frame a = true /\ frames_ok m (F ++ frames m l2)) as [Hfr Hfo'].
  { destruct Hfo as [Hnd Hall]. simpl in *. apply NoDup_cons in Hnd as [_ ?].
    by apply Forall_cons in Hall as [[? _] ?]. }
  destruct l as [|hd l]; [done|]. apply Forall_cons in Hok as [(n & Hn & Hfc) Hokl].
  unfold getFrame. destruct (Z.eqb_spec (count s) 0) as [E|_]; [lia|].
  pose proof Hdll as (Eh & _). rewrite Eh, Hn. simpl. rewrite Hcnt, (usub_small (Z.of_nat (S (length F))) 1) by lia.
  replace (Z.of_nat (S (length F)) - 1) with (Z.of_nat (length F)) by lia.
  rewrite frames_cons in HF. unfold content in HF. rewrite Hn in HF.
  unfold PER_FRAME_ELEM in Hfc.
  destruct (Z.eqb_spec (frameCount n) 0) as [E0|E0]; simpl.
  - rewrite E0 in HF. simpl in HF. injection HF as <- <-. fold (frames m l) in *.
    destruct (unlink_front_spec m (head s) (tail s) hd l n Hdll Hn)
      as (m' & tl & Eu & Hd' & Hre & Hag & _). rewrite Eu. simpl. rewrite Hfr. simpl.
    do 3 eexists. split; [done|].
    destruct (inv2_update m s (hd :: l) s2 l2 m' (mkFFL tl (fi_next n) (Z.of_nat (length (frames m l)))) l H)
      as [Hi Hf2]; rewrite ?(relinked_frames m m') by done; try (done || apply Hre).
    + done.
    + split_and!; [done| |by rewrite (relinked_frames m m')].
      eapply Forall_impl; [exact Hokl|]. apply Hre.
    + intros b Hb2. apply Hag. intros Hin.
      apply (inv2_groups _ _ _ _ _ b H ltac:(set_solver)). done.
    + split_and!; (done || apply Hre).
  - rewrite usub_small by lia. set (fc := frameCount n - 1).
    assert (Hfcd : fc = frameCount n - 1) by done.
    assert (Hl : (Z.to_nat fc < length (pages n))%nat) by (rewrite (proj1 Hm hd n Hn); lia).
    replace (Z.to_nat (frameCount n)) with (S (Z.to_nat fc)) in HF by lia.
    destruct (lookup_lt_is_Some_2 _ _ Hl) as [x Hx]. rewrite (take_S_r _ _ x Hx), reverse_snoc in HF.
    simpl in HF. rewrite Hx. simpl. injection HF as -> HF. rewrite Hfr. simpl.
    set (n' := mkFI _ _ _ _). rewrite <- app_assoc in HF. simpl in HF. fold (frames m l) in HF.
    destruct (inv2_head_update m s hd l s2 l2 n n' H Hn eq_refl eq_refl) as (Hi & Hf & Hf2);
      simpl; rewrite ?HF; try done.
    { simpl. unfold PER_FRAME_ELEM. lia. }
    simpl in *. rewrite HF in *. rewrite Eh in Hi. do 3 eexists. split; [done|].
    split_and!; (done || by apply Hf2).
Qed.

(** ** Moving whole groups *)

Lemma content_length m a n :
  mem_ok m -> m !! a = Some n -> 0 <= frameCount n <= PER_FRAME_ELEM ->
  Z.of_nat (length (content m a)) = frameCount n + 1.
Proof.
  intros [Hm _] Hn Hc. unfold content. rewrite Hn, length_app, length_reverse, length_take.
  rewrite (Hm a n Hn). simpl. unfold PER_FRAME_ELEM in Hc. lia.
Qed.

Lemma inv2_head m s a l s2 l2 :
  inv2 m s (a :: l) s2 l2 ->
  head s = a /\ a <> NULL /\ exists n, m !! a = Some n /\
    Z.of_nat (length (content m a)) = frameCount n + 1 /\ 0 <= frameCount n <= PER_FRAME_ELEM.
Proof.
  intros [Hm (Hdll & Hok & _) _ _]. pose proof Hdll as (-> & Ha & _).
  apply Forall_cons in Hok as [(n & Hn & Hc) _]. split_and!; [done..|].
  exists n. split; [done|]. split; [by apply content_length|done].
Qed.

(** One round of the getUpTo loop. *)
Lemma move_group m s a l ffl l2 n :
  inv2 m s (a :: l) ffl l2 -> m !! a = Some n ->
  let moved := uadd (frameCount n) 1 in
  exists m1 tl m3 ftl,
    unlink_front m (tail s) (fi_next n) = Some (m1, tl) /\ m1 !! a = Some n /\
    link_front m1 (head ffl) (tail ffl) a (set_dnext (head ffl) n) = Some (m3, ftl) /\
    inv2 m3 (mkFFL tl (fi_next n) (usub (count s) moved)) l
      (mkFFL ftl a (uadd (count ffl) moved)) (a :: l2) /\
    relinked m m3.
Proof.
  intros H Hn moved. pose proof H as [Hm (Hd1 & Hok1 & Hc1) (Hd2 & Hok2 & Hc2) Hfo].
  pose proof (inv2_bound _ _ _ _ _ H) as Hb.
  destruct (inv2_groups _ _ _ _ _ a H ltac:(set_solver)) as [_ Ha2].
  destruct (inv2_head _ _ _ _ _ _ H) as (_ & Ha & n' & Hn' & Hlen & Hfc).
  assert (n' = n) as -> by congruence. unfold PER_FRAME_ELEM in Hfc.
  assert (Hmv : moved = Z.of_nat (length (content m a))).
  { unfold moved. rewrite uadd_small; lia. }
  destruct (unlink_front_spec m (head s) (tail s) a l n Hd1 Hn)
    as (m1 & tl & E1 & Hdl1 & Hre1 & Hag1 & Hn1 & Hpv & _ & _ & Hal).
  assert (Hd2' : dll m1 (head ffl) (tail ffl) l2).
  { eapply dseg_agree; [|exact Hd2]. intros b Hin. apply Hag1. intros Hin1.
    by apply (inv2_groups _ _ _ _ _ b H ltac:(set_solver)). }
  assert (Hx' : dnext (set_dnext (head ffl) n) = head ffl) by done.
  assert (Hp' : dprev (set_dnext (head ffl) n) = NULL) by done.
  destruct (link_front_spec m1 _ (tail ffl) l2 a n _ Hd2' Ha2 Ha Hn1 Hx' Hp') as (m3 & ftl & E3 & Hdl3 & Hre3 & Hag3).
  assert (Hre : relinked m m3).
  { eapply relinked_trans; [exact Hre1|]. eapply relinked_trans; [|exact Hre3].
    by apply relinked_insert with n. }
  exists m1, tl, m3, ftl. split_and!; try done.
  rewrite frames_cons, length_app in Hb, Hc1.
  eapply inv2_relink; [exact H|done| |done| | |]; simpl.
  - eapply dseg_agree; [|exact Hdl1]. intros b Hin. apply Hag3.
    apply not_elem_of_cons. split; [by intros ->|].
    by apply (inv2_groups _ _ _ _ _ b H ltac:(set_solver)).
  - by rewrite Permutation_middle.
  - rewrite Hc1, Hmv, usub_small; lia.
  - rewrite frames_cons, length_app, Hc2, Hmv, uadd_small; lia.
Qed.

(** getUpTo moves [k] whole groups, its result counts what is left to get, and
    it stops only when the list is empty or the next group is too large. *)
Lemma getUpTo_loop_spec fuel : forall m s l ffl l2 req,
  inv2 m s l ffl l2 -> 0 <= req < 2 ^ 64 -> (length l < fuel)%nat ->
  exists req' m' s' ffl' lmv l',
    getUpTo_loop fuel m s ffl req = Some (req', m', s', ffl') /\ l = lmv ++ l' /\
    inv2 m' s' l' ffl' (reverse lmv ++ l2) /\ relinked m m' /\
    req = req' + Z.of_nat (length (frames m lmv)) /\ 0 <= req' /\
    match l' with [] => True | b :: _ => req' < Z.of_nat (length (content m b)) end.
Proof.
  induction fuel as [|fuel IH]; intros m s l ffl l2 req H Hreq Hf; [lia|]. simpl.
  destruct l as [|a l].
  - pose proof H as [_ ((-> & _) & _) _ _]. simpl. exists req, m, s, ffl, [], [].
    split_and!; (done || apply relinked_refl || (simpl; lia)).
  - destruct (inv2_head _ _ _ _ _ _ H) as (-> & Ha & n & Hn & Hlen & Hfc).
    rewrite (proj2 (Z.eqb_neq _ _) Ha), Hn. simpl.
    destruct (Z.ltb_spec (frameCount n) req) as [Hlt|Hge]; simpl.
    + destruct (move_group m s a l ffl l2 n H Hn)
        as (m1 & tl & m3 & ftl & -> & Hn1 & E3 & Hi & Hre). simpl. rewrite Hn1. simpl. rewrite E3. simpl.
      unfold PER_FRAME_ELEM in Hfc. rewrite (uadd_small (frameCount n)) in * by lia.
      rewrite usub_small with (x := req) by lia.
      destruct (IH _ _ _ _ _ (req - (frameCount n + 1)) Hi ltac:(lia) ltac:(simpl in Hf; lia))
        as (req' & m' & s' & ffl' & lmv & l' & -> & -> & Hi' & Hre' & Hr & Hr0 & Hstop).
      rewrite (relinked_frames m m3) in Hr by done.
      exists req', m', s', ffl', (a :: lmv), l'. split_and!; try done.
      * by rewrite reverse_cons, <- app_assoc.
      * by eapply relinked_trans.
      * rewrite frames_cons, length_app. lia.
      * destruct l' as [|b l']; [done|]. by destruct Hre as (_ & <- & _).
    + exists req, m, s, ffl, [], (a :: l). split_and!; (done || apply relinked_refl || (simpl; lia)).
Qed.

Lemma groups_length m s l s2 l2 : inv2 m s l s2 l2 -> (length l <= size m)%nat.
Proof. intros [_ (H & _) _ _]. by eapply dseg_length. Qed.

Lemma frames_nil_iff m l : Forall (group_ok m) l -> frames m l = [] <-> l = [].
Proof.
  intros H. destruct l as [|a l]; [done|]. split; [|done]. intros Hf.
  pose proof (groups_in_frames m _ a H ltac:(set_solver)) as Hin. rewrite Hf in Hin. set_solver.
Qed.

Lemma getUpTo_spec m s l ffl l2 req :
  inv2 m s l ffl l2 -> 0 <= req < 2 ^ 64 ->
  exists req' m' s' ffl' lmv l',
    getUpTo m s ffl req = Some (req', m', s', ffl') /\ l = lmv ++ l' /\
    inv2 m' s' l' ffl' (reverse lmv ++ l2) /\ relinked m m' /\
    req = req' + Z.of_nat (length (frames m lmv)) /\ 0 <= req' /\
    match l' with [] => True | b :: _ => req' < Z.of_nat (length (content m b)) end.
Proof.
  intros H Hreq. unfold getUpTo. pose proof H as [_ (_ & Hok & Hc) _ _].
  destruct (Z.eqb_spec (count s) 0) as [E|_].
  - assert (l = []) as ->.
    { apply (frames_nil_iff m); [done|]. apply nil_length_inv. lia. }
    exists req, m, s, ffl, [], []. split_and!; (done || apply relinked_refl || (simpl; lia)).
  - pose proof (groups_length _ _ _ _ _ H). apply getUpTo_loop_spec; (done || lia).
Qed.

(** ** getList *)

Lemma getList_loop_spec fuel : forall m s l ffl l2 req,
  inv2 m s l ffl l2 -> 0 <= req < 2 ^ 64 -> (length (frames m l) < fuel)%nat ->
  exists req' m' s' ffl' l' l2' F1,
    getList_loop fuel m s ffl req = Some (req', m', s', ffl') /\ inv2 m' s' l' ffl' l2' /\
    frames m l = F1 ++ frames m' l' /\ frames m' l2' = reverse F1 ++ frames m l2 /\
    dom m' = dom m /\ req = req' + Z.of_nat (length F1) /\ 0 <= req' /\
    (req' = 0 \/ frames m' l' = []).
Proof.
  induction fuel as [|fuel IH]; intros m s l ffl l2 req H Hreq Hf; [lia|]. simpl.
  pose proof H as [_ (_ & _ & Hc) _ Hfo]. unfold isNotEmpty.
  destruct (Z.ltb_spec 0 req) as [Hlt|]; simpl.
  2:{ exists req, m, s, ffl, l, l2, []. split_and!; try done; [simpl; lia|lia|left; lia]. }
  destruct (frames m l) as [|a F] eqn:EF; simpl in Hc.
  { rewrite Hc. simpl. exists req, m, s, ffl, l, l2, [].
    rewrite EF. split_and!; try done; [simpl; lia|lia|by right]. }
  destruct (Z.eqb_spec (count s) 0) as [E|_]; [lia|]. simpl.
  destruct (getFrame_spec m s l ffl l2 a F H EF) as (m1 & s1 & l1 & -> & H1 & Hf1 & Hf2 & Hd1). simpl.
  destruct (freeFrame_spec m1 ffl l2 s1 l1 a (inv2_sym _ _ _ _ _ H1))
    as (m2 & ffl1 & l3 & -> & H2 & Hf3 & Hf4 & Hd2).
  { rewrite Hf1, Hf2. apply (frames_ok_dom m); [done|].
    eapply frames_ok_perm; [|exact Hfo]. simpl. by rewrite Permutation_app_comm. }
  simpl. rewrite usub_small by lia.
  destruct (IH m2 s1 l1 ffl1 l3 (req - 1) (inv2_sym _ _ _ _ _ H2) ltac:(lia))
    as (req' & m' & s' & ffl' & l' & l2' & F1 & -> & Hi & HF1 & HF2 & Hd & Hr & Hr0 & Hend).
  { rewrite Hf4, Hf1. simpl in Hf. lia. }
  exists req', m', s', ffl', l', l2', (a :: F1). rewrite Hf4, Hf1 in HF1.
  split_and!; try done.
  - simpl. by rewrite HF1.
  - rewrite HF2, Hf3, Hf2, reverse_cons. by rewrite <- app_assoc.
  - congruence.
  - simpl. lia.
Qed.

#[global] Arguments getList_loop : simpl never.

Lemma getList_spec m s l ffl l2 req :
  inv2 m s l ffl l2 -> 0 <= req < 2 ^ 64 ->
  exists req' m' s' ffl' l' l2',
    getList m s ffl req = Some (req', m', s', ffl') /\ inv2 m' s' l' ffl' l2' /\
    frames m l ++ frames m l2 ≡ₚ frames m' l' ++ frames m' l2' /\ dom m' = dom m /\
    count s' = Z.max 0 (count s - req) /\ req' = Z.max 0 (req - count s).
Proof.
  intros H Hreq. unfold getList.
  destruct (getUpTo_spec m s l ffl l2 req H Hreq)
    as (r1 & m1 & s1 & ffl1 & lmv & l1 & -> & -> & H1 & Hre & Hr & Hr0 & _). simpl.
  pose proof (inv_frames _ _ _ _ _ H1) as Hfo1. apply frames_ok_length in Hfo1.
  assert (Hsz : size m1 = size m) by (rewrite <- !(size_dom (D := gset Z)); by destruct Hre as (-> & _)).
  rewrite length_app in Hfo1.
  destruct (getList_loop_spec (S (size m)) m1 s1 l1 ffl1 (reverse lmv ++ l2) r1 H1 ltac:(lia) ltac:(lia))
    as (r2 & m2 & s2 & ffl2 & l3 & l4 & F1 & -> & H2 & HF1 & HF2 & Hd & Hr2 & Hr20 & Hend).
  exists r2, m2, s2, ffl2, l3, l4. split; [done|]. split; [done|].
  rewrite (relinked_frames m m1) in HF1 by done.
  rewrite frames_app, !(relinked_frames m m1) in HF2 by done.
  pose proof H as [_ (_ & _ & Hc) _ _]. pose proof H2 as [_ (_ & _ & Hc2) _ _].
  rewrite frames_app in *. rewrite HF1 in *. rewrite !length_app in Hc.
  split_and!.
  - rewrite HF2. assert (Hrev : frames m (reverse lmv) ≡ₚ frames m lmv).
    { unfold frames. by rewrite (reverse_Permutation lmv). }
    rewrite Hrev, (reverse_Permutation F1). solve_Permutation.
  - destruct Hre as [<- _]. done.
  - rewrite Hc2, Hc. destruct Hend as [->|Hend]; [lia|]. rewrite Hend. simpl. lia.
  - rewrite Hc. destruct Hend as [->|Hend]; [lia|]. rewrite Hend. simpl. lia.
Qed.

(** ** Handing over one group, and a whole list *)

Lemma dll_singleton (m : memory) a n n' :
  a <> NULL -> m !! a = Some n -> fi_next n' = NULL -> fi_prev n' = NULL ->
  dll (<[a := n']> m) a a [a].
Proof.
  intros Ha Hn Hx Hp. split; [done|]. split; [done|]. exists n'. rewrite lookup_insert_eq.
  split_and!; done.
Qed.

Lemma empty_list m s l s2 l2 : inv2 m s l s2 l2 -> count s = 0 -> l = [].
Proof.
  intros [_ (_ & Hok & Hc) _ _] E. apply (frames_nil_iff m); [done|]. apply nil_length_inv. lia.
Qed.

Lemma getList1_spec m s l ffl l2 :
  inv2 m s l ffl l2 -> count ffl = 0 ->
  exists m' s' ffl' l' l2', getList1 m s ffl = Some (m', s', ffl') /\ inv2 m' s' l' ffl' l2' /\
    relinked m m' /\ l ++ l2 = l2' ++ l' /\ (l = [] \/ l2' = take 1 l).
Proof.
  intros H E. pose proof (empty_list _ _ _ _ _ (inv2_sym _ _ _ _ _ H) E) as ->.
  unfold getList1. rewrite E. simpl. destruct l as [|a l].
  { pose proof H as [_ ((-> & _) & _) _ _]. simpl. exists m, s, ffl, [], [].
    split_and!; (done || apply relinked_refl || by left). }
  destruct (inv2_head _ _ _ _ _ _ H) as (-> & Ha & n & Hn & Hlen & Hfc).
  pose proof H as [_ (Hd & _ & Hc) _ _]. pose proof (inv2_bound _ _ _ _ _ H) as Hb.
  rewrite (proj2 (Z.eqb_neq _ _) Ha), Hn. simpl.
  destruct (unlink_front_spec m (head s) (tail s) a l n Hd Hn)
    as (m1 & tl & E1 & Hdl1 & Hre1 & Hag1 & Hn1 & Hpv & _ & _ & Hal).
  rewrite E1. simpl. rewrite Hn1. simpl. unfold PER_FRAME_ELEM in Hfc.
  rewrite frames_cons, length_app in *. rewrite uadd_small, usub_small by lia.
  assert (Hre : relinked m (<[a := set_dnext NULL n]> m1)).
  { eapply relinked_trans; [done|]. by apply relinked_insert with n. }
  do 5 eexists. split; [done|]. split; [|split; [done|split; [|by right]]].
  - eapply (inv2_relink _ _ _ _ _ _ _ l _ [a] H Hre); simpl.
    + by apply dseg_insert_ne.
    + by apply (dll_singleton m1 a n).
    + rewrite app_nil_r. by rewrite Permutation_app_comm.
    + lia.
    + rewrite frames_cons, length_app. simpl. lia.
  - by rewrite app_nil_r.
Qed.

Lemma getListTail_spec m s l ffl l2 :
  inv2 m s l ffl l2 -> count ffl = 0 ->
  exists m' s' ffl' l' l2', getListTail m s ffl = Some (m', s', ffl') /\ inv2 m' s' l' ffl' l2' /\
    relinked m m' /\ l = l' ++ l2' /\ (length l2' <= 1)%nat /\ (l2' = [] -> l = []).
Proof.
  intros H E. pose proof (empty_list _ _ _ _ _ (inv2_sym _ _ _ _ _ H) E) as ->.
  unfold getListTail. rewrite E. simpl. pose proof H as [Hm (Hd & Hok & Hc) _ _].
  destruct l as [|a l _] using rev_ind.
  { destruct Hd as [_ ->]. simpl. exists m, s, ffl, [], [].
    split_and!; (done || apply relinked_refl || (simpl; lia)). }
  apply Forall_app in Hok as [Hok Hoka]. apply Forall_cons in Hoka as [(n & Hn & Hfc) _].
  pose proof (content_length m a n Hm Hn Hfc) as Hlen. pose proof (inv2_bound _ _ _ _ _ H) as Hb.
  destruct (dll_pop_back m _ _ a l n Hd Hn) as (Et & Ha & Hal & Hnx & Hl).
  rewrite Et, (proj2 (Z.eqb_neq _ _) Ha), Hn. simpl. unfold PER_FRAME_ELEM in Hfc.
  rewrite frames_app, frames_cons, !length_app in *. simpl in Hb, Hc.
  assert (Hun : exists m1 hd, (if negb (fi_prev n =? NULL) then
         n2 ← m !! fi_prev n; Some (<[fi_prev n := set_dnext NULL n2]> m, head s)
       else Some (m, NULL)) = Some (m1, hd) /\ dll m1 hd (fi_prev n) l /\ relinked m m1 /\ m1 !! a = Some n).
  { change (dprev n) with (fi_prev n) in Hl. destruct (last l) as [b|] eqn:El.
    - destruct Hl as (-> & Hb' & nb & Hnb & Hd'). rewrite (proj2 (Z.eqb_neq _ _) Hb'). simpl.
      rewrite Hnb. simpl. do 2 eexists. split; [done|]. split; [done|].
      split; [by apply relinked_insert with nb|]. rewrite lookup_insert_ne; [done|].
      intros ->. apply Hal. apply last_Some_elem_of in El. done.
    - destruct Hl as [-> _]. apply last_None in El as ->. simpl. exists m, NULL.
      split_and!; (done || apply relinked_refl). }
  destruct Hun as (m1 & hd & -> & Hd1 & Hre1 & Hn1). simpl. rewrite Hn1. simpl.
  rewrite uadd_small, usub_small by lia.
  assert (Hre : relinked m (<[a := set_dprev NULL n]> m1)).
  { eapply relinked_trans; [done|]. by apply relinked_insert with n. }
  do 5 eexists. split; [done|]. split; [|split; [done|split_and!; [done|simpl; lia|done]]].
  eapply (inv2_relink _ _ _ _ _ _ _ l _ [a] H Hre); simpl.
  - by apply dseg_insert_ne.
  - by apply (dll_singleton m1 a n).
  - by rewrite app_nil_r.
  - lia.
  - rewrite frames_cons, length_app. simpl. lia.
Qed.

Lemma freeList_spec m s l ffl l2 :
  inv2 m s l ffl l2 -> 0 < count ffl ->
  exists m' s', freeList m s ffl = Some (m', s', init) /\ inv2 m' s' (l2 ++ l) init [] /\
    relinked m m'.
Proof.
  intros H Hpos. unfold freeList. destruct (Z.ltb_spec 0 (count ffl)); [|lia]. simpl.
  pose proof H as [Hm (Hd1 & Hok1 & Hc1) (Hd2 & Hok2 & Hc2) _].
  pose proof (inv2_bound _ _ _ _ _ H) as Hb.
  destruct (dll_nil_iff _ _ _ _ Hd1) as [Hn1 _]. destruct (dll_nil_iff _ _ _ _ Hd2) as [_ Hn2].
  assert (Hl2 : l2 <> []) by (intros ->; simpl in Hc2; lia).
  destruct (Z.eqb_spec (count s) 0) as [E|E]; simpl.
  - pose proof (empty_list _ _ _ _ _ H E) as ->. rewrite app_nil_r.
    do 2 eexists. split; [done|]. split; [|apply relinked_refl].
    eapply (inv2_relink _ _ _ _ _ _ _ _ _ _ H (relinked_refl m)); simpl; try done.
    by rewrite app_nil_r.
  - assert (Hl1 : l <> []) by (intros ->; simpl in Hc1; lia).
    destruct l as [|a l]; [done|]. pose proof Hd1 as (Eh & Ha & na & Hna & _).
    destruct l2 as [|b l2 _] using rev_ind; [done|].
    pose proof (dll_tail _ _ _ _ _ Hd2) as Et.
    destruct (dseg_elem _ _ _ _ _ _ b Hd2 ltac:(set_solver)) as (Hb0 & nb & Hnb).
    rewrite Et, Eh, Hnb. simpl.
    assert (Hba : b <> a).
    { intros ->. by apply (inv2_groups _ _ _ _ _ a H ltac:(set_solver)); set_solver. }
    rewrite lookup_insert_ne, Hna by done. simpl.
    rewrite Et in Hd2. rewrite Eh in Hd1.
    destruct (dll_concat m (head ffl) b (l2 ++ [b]) a (tail s) (a :: l) nb na Hd2 Hd1) as [Hcat _]; try done.
    { intros x Hx Hx'. by apply (inv2_groups _ _ _ _ _ x H Hx'). }
    do 2 eexists. split; [done|].
    assert (Hre : relinked m (<[a := set_dprev b na]> (<[b := set_dnext a nb]> m))).
    { apply relinked_trans with (<[b := set_dnext a nb]> m); [by apply relinked_insert with nb|].
      apply relinked_insert with na; [by rewrite lookup_insert_ne|done..]. }
    split; [|done]. eapply (inv2_relink _ _ _ _ _ _ _ _ _ [] H Hre); simpl; try done.
    + rewrite app_nil_r. apply (Permutation_app_comm (a :: l)).
    + rewrite frames_app, length_app, Hc1, Hc2, uadd_small by lia. lia.
Qed.

(** ** kosher *)

Lemma kosher_loop_spec m fuel : forall l cur prev tl disc,
  mem_ok m -> dseg m cur prev l NULL tl -> Forall (group_ok m) l -> (length l < fuel)%nat ->
  0 <= disc -> disc + Z.of_nat (length (frames m l)) < 2 ^ 64 ->
  kosher_loop fuel m cur prev disc = Some (tl, disc + Z.of_nat (length (frames m l))).
Proof.
  induction fuel as [|fuel IH]; intros l cur prev tl disc Hm Hd Hok Hf H0 Hb; [lia|]. simpl.
  destruct l as [|a l].
  - destruct Hd as [-> ->]. simpl. do 2 f_equal. lia.
  - destruct Hd as (-> & Ha & n & Hn & Hp & Hd). rewrite (proj2 (Z.eqb_neq _ _) Ha), Hn. simpl.
    apply Forall_cons in Hok as [(n' & Hn' & Hfc) Hok]. assert (n' = n) as -> by congruence.
    pose proof (content_length m a n Hm Hn Hfc) as Hlen. rewrite frames_cons, length_app in *.
    assert (Hchk : (if fi_next n =? NULL then Some tt
      else n2 ← m !! fi_next n; assertK (fi_prev n2 =? a)) = Some tt).
    { change (fi_next n) with (dnext n). destruct l as [|b l].
      - by destruct Hd as [-> _].
      - destruct Hd as (-> & Hb' & nb & Hnb & Hpb & _). rewrite (proj2 (Z.eqb_neq _ _) Hb'), Hnb.
        simpl. change (fi_prev nb) with (dprev nb). by rewrite Hpb, Z.eqb_refl. }
    rewrite Hchk. simpl. unfold PER_FRAME_ELEM in Hfc.
    rewrite (uadd_small (frameCount n)), uadd_small by lia.
    rewrite (IH l _ _ tl) by (done || simpl in Hf; lia). do 2 f_equal. lia.
Qed.

Lemma kosher_spec m s l s2 l2 : inv2 m s l s2 l2 -> kosher m s = Some tt.
Proof.
  intros H. pose proof H as [Hm (Hd & Hok & Hc) _ _]. pose proof (inv2_bound _ _ _ _ _ H) as Hb.
  unfold kosher. destruct (Z.eqb_spec (count s) 0) as [E|E].
  - pose proof (empty_list _ _ _ _ _ H E) as ->. destruct Hd as [-> ->]. done.
  - destruct l as [|a l]; [simpl in Hc; lia|]. pose proof Hd as (-> & _ & n & Hn & Hp & _).
    rewrite Hn. cbn [mbind option_bind]. change (fi_prev n) with (dprev n). rewrite Hp.
    pose proof (groups_length _ _ _ _ _ H). pose proof Hd as (Eh & _).
    rewrite Eh in Hd.
    rewrite (kosher_loop_spec m (S (size m)) (a :: l) a NULL (tail s) 0 Hm Hd Hok) by lia.
    simpl. rewrite Z.eqb_refl. simpl. by rewrite Hc, Z.eqb_refl.
Qed.

(** ** Conservation of frames *)

(** Two lists in one memory and the frames their client holds. *)
Record state := mkState { st_mem : memory; st_a : t; st_b : t; st_held : list Z }.

Inductive op :=
| Free (addr : Z)          (* a.freeFrame(addr), a frame the client holds *)
| Get                      (* a.getFrame() *)
| GetUpTo (n : Z)          (* a.getUpTo(n, &b) *)
| GetList (n : Z)          (* a.getList(n, &b) *)
| GetGroup                 (* a.getList(&b), allowed when b is empty *)
| GetGroupTail             (* a.getListTail(&b), allowed when b is empty *)
| FreeList                 (* a.freeList(&b), allowed when b is not empty *)
| Swap.                    (* the client exchanges the roles of a and b *)

(** A call whose precondition does not hold is not made. *)
Definition exec (x : state) (o : op) : option state :=
  let '(mkState m a b held) := x in
  match o with
  | Free addr =>
      if decide (addr ∈ held) then
        '(m', a') ← freeFrame m a addr;
        Some (mkState m' a' b (remove_first (Z.eqb addr) held))
      else Some x
  | Get =>
      '(addr, m', a') ← getFrame m a;
      Some (mkState m' a' b (if addr =? 0 then held else addr :: held))
  | GetUpTo n =>
      if decide (is_uval n) then
        '(_, m', a', b') ← getUpTo m a b n; Some (mkState m' a' b' held)
      else Some x
  | GetList n =>
      if decide (is_uval n) then
        '(_, m', a', b') ← getList m a b n; Some (mkState m' a' b' held)
      else Some x
  | GetGroup =>
      if count b =? 0 then '(m', a', b') ← getList1 m a b; Some (mkState m' a' b' held)
      else Some x
  | GetGroupTail =>
      if count b =? 0 then '(m', a', b') ← getListTail m a b; Some (mkState m' a' b' held)
      else Some x
  | FreeList =>
      if 0 <? count b then '(m', a', b') ← freeList m a b; Some (mkState m' a' b' held)
      else Some x
  | Swap => Some (mkState m b a held)
  end.

Fixpoint run (x : state) (os : list op) : option state :=
  match os with
  | [] => Some x
  | o :: os => x' ← exec x o; run x' os
  end.

(** All frames of [F] are accounted for: held, or in one of the lists. *)
Definition accounted (x : state) (F : list Z) : Prop :=
  exists l1 l2, inv2 (st_mem x) (st_a x) l1 (st_b x) l2 /\
    frames_ok (st_mem x) F /\
    st_held x ++ frames (st_mem x) l1 ++ frames (st_mem x) l2 ≡ₚ F.

Lemma remove_first_perm (a : Z) l : a ∈ l -> l ≡ₚ a :: remove_first (Z.eqb a) l.
Proof.
  induction l as [|b l IH]; [set_solver|]. intros Hin. rewrite remove_first_cons.
  destruct (Z.eqb_spec a b) as [->|]; [done|].
  rewrite (IH ltac:(set_solver)) at 1. apply Permutation_swap.
Qed.

(** Operations that move groups keep every frame accounted for. *)
Lemma accounted_moved m a b held F m' a' b' l1 l2 l1' l2' :
  inv2 m a l1 b l2 -> frames_ok m F -> held ++ frames m l1 ++ frames m l2 ≡ₚ F ->
  inv2 m' a' l1' b' l2' -> dom m' = dom m ->
  frames m l1 ++ frames m l2 ≡ₚ frames m' l1' ++ frames m' l2' ->
  accounted (mkState m' a' b' held) F.
Proof.
  intros H HF Hp H' Hd Hmv. exists l1', l2'. simpl. split_and!; [done|by apply (frames_ok_dom m)|].
  by rewrite <- Hmv.
Qed.

Lemma relinked_moved m m' l1 l2 l1' l2' :
  relinked m m' -> l1 ++ l2 ≡ₚ l1' ++ l2' ->
  frames m l1 ++ frames m l2 ≡ₚ frames m' l1' ++ frames m' l2'.
Proof.
  intros Hre Hp. rewrite !(relinked_frames m m') by done. rewrite <- !frames_app.
  unfold frames. by rewrite Hp.
Qed.

Lemma accounted_sub m a l1 b l2 held F x :
  inv2 m a l1 b l2 -> frames_ok m F -> held ++ frames m l1 ++ frames m l2 ≡ₚ F ->
  x ∈ held -> frames_ok m (x :: frames m l1 ++ frames m l2).
Proof.
  intros H [HF1 HF2] Hp Hin. rewrite <- Hp in HF1, HF2.
  rewrite (remove_first_perm x held Hin) in HF1, HF2. simpl in *.
  apply NoDup_cons in HF1 as [Hn1 Hnd]. apply Forall_cons in HF2 as [Hx Hall].
  apply NoDup_app in Hnd as (_ & _ & Hnd). apply Forall_app in Hall as [_ Hall].
  split; constructor; try done. set_solver.
Qed.

Lemma exec_accounted x o F : accounted x F -> exists x', exec x o = Some x' /\ accounted x' F.
Proof.
  destruct x as [m a b held]. intros (l1 & l2 & H & HF & Hp). simpl in *.
  assert (Hself : accounted (mkState m a b held) F) by (exists l1, l2; done).
  destruct o as [addr| |n|n| | | |]; simpl.
  - destruct (decide (addr ∈ held)) as [Hin|]; [|by eauto].
    destruct (freeFrame_spec m a l1 b l2 addr H) as (m' & a' & l' & -> & H' & Hf1 & Hf2 & Hd).
    { by eapply accounted_sub. }
    simpl. eexists. split; [done|]. exists l', l2. simpl. split_and!; [done|by apply (frames_ok_dom m)|].
    rewrite Hf1, Hf2, <- Hp. rewrite (remove_first_perm addr held Hin) at 2.
    simpl. by rewrite <- Permutation_middle.
  - destruct (frames m l1) as [|addr F1] eqn:Ef.
    + rewrite (getFrame_empty m a l1); [|apply H|done]. simpl. eauto.
    + destruct (getFrame_spec m a l1 b l2 addr F1 H Ef) as (m' & a' & l' & -> & H' & Hf1 & Hf2 & Hd).
      simpl. eexists. split; [done|]. exists l', l2. simpl.
      assert (Hfr : is_frame addr = true).
      { destruct HF as [_ HF]. rewrite <- Hp in HF. rewrite Forall_forall in HF.
        apply (HF addr). set_solver. }
      rewrite (proj2 (Z.eqb_neq _ _) (is_frame_nz _ Hfr)).
      split_and!; [done|by apply (frames_ok_dom m)|]. rewrite Hf1, Hf2, <- Hp.
      simpl. by rewrite Permutation_middle.
  - destruct (decide (is_uval n)) as [Hn|]; [|by eauto].
    destruct (getUpTo_spec m a l1 b l2 n H Hn)
      as (r & m' & a' & b' & lmv & l' & -> & -> & H' & Hre & _). simpl. eexists. split; [done|].
    eapply accounted_moved; [exact H|done|done|exact H'|apply Hre|].
    apply relinked_moved; [done|]. rewrite (reverse_Permutation lmv). solve_Permutation.
  - destruct (decide (is_uval n)) as [Hn|]; [|by eauto].
    destruct (getList_spec m a l1 b l2 n H Hn) as (r & m' & a' & b' & l' & l2' & -> & H' & Hmv & Hd & _).
    simpl. eexists. split; [done|]. by eapply accounted_moved; [exact H|..].
  - destruct (Z.eqb_spec (count b) 0) as [E|]; [|by eauto].
    destruct (getList1_spec m a l1 b l2 H E) as (m' & a' & b' & l' & l2' & -> & H' & Hre & Hl & _).
    simpl. eexists. split; [done|]. eapply accounted_moved; [exact H|done|done|exact H'|apply Hre|].
    apply relinked_moved; [done|]. rewrite Hl. apply Permutation_app_comm.
  - destruct (Z.eqb_spec (count b) 0) as [E|]; [|by eauto].
    pose proof (empty_list _ _ _ _ _ (inv2_sym _ _ _ _ _ H) E) as ->.
    destruct (getListTail_spec m a l1 b [] H E) as (m' & a' & b' & l' & l2' & -> & H' & Hre & Hl & _).
    simpl. eexists. split; [done|]. eapply accounted_moved; [exact H|done|done|exact H'|apply Hre|].
    apply relinked_moved; [done|]. by rewrite Hl, app_nil_r.
  - destruct (Z.ltb_spec 0 (count b)) as [E|]; [|by eauto].
    destruct (freeList_spec m a l1 b l2 H E) as (m' & a' & -> & H' & Hre).
    simpl. eexists. split; [done|]. eapply accounted_moved; [exact H|done|done|exact H'|apply Hre|].
    apply relinked_moved; [done|]. rewrite app_nil_r. apply Permutation_app_comm.
  - eexists. split; [done|]. exists l2, l1. simpl. split_and!; [by apply inv2_sym|done|].
    rewrite <- Hp. solve_Permutation.
Qed.

(** C4: frames are conserved: whatever sequence of freeFrame, getFrame,
    getUpTo, getList, getListTail and freeList calls a client makes on two
    lists in one memory, no call gets stuck or fails an assertion, the frames it
    holds and those in the lists are at the end a permutation of those at the
    start (none lost, none handed out twice), the counts are exact and the
    kosher check of either list passes. *)
Theorem frames_conserved x os F :
  accounted x F ->
  exists x', run x os = Some x' /\ accounted x' F /\
    kosher (st_mem x') (st_a x') = Some tt /\ kosher (st_mem x') (st_b x') = Some tt.
Proof.
  revert x. induction os as [|o os IH]; intros x Hx; simpl.
  - exists x. destruct Hx as (l1 & l2 & H & Hx). split; [done|]. split; [by exists l1, l2|].
    split; eapply kosher_spec; [exact H|by apply inv2_sym].
  - destruct (exec_accounted x o F Hx) as (x' & -> & Hx'). by apply IH.
Qed.

(** Two frames of memory, both held. *)
Definition ex_state : state :=
  mkState {[ 4096 := mkFI 0 0 0 (replicate 509 0); 8192 := mkFI 0 0 0 (replicate 509 0) ]}
    init init [4096; 8192].

Lemma frames_conserved_witness :
  exists x', run ex_state [Free 4096; Free 8192; GetList 1; Swap; Get] = Some x' /\
    accounted x' [4096; 8192] /\
    kosher (st_mem x') (st_a x') = Some tt /\ kosher (st_mem x') (st_b x') = Some tt.
Proof.
  apply frames_conserved. exists [], []. split; [|split; [|done]].
  - constructor; [|done|done|].
    + split; [|vm_compute; done]. unfold ex_state. cbn [st_mem].
      intros a n [(_ & <-)|(_ & (_ & <-)%lookup_singleton_Some)]%lookup_insert_Some; done.
    + split; constructor.
  - split; [by apply (bool_decide_unpack _); vm_compute|].
    repeat constructor; (done || eexists; done).
Defined.

(** GetList with a count moves exactly the number of frames asked for, or all
    there are, and returns how many are missing. *)
Theorem getList_exact m s l ffl l2 req :
  inv2 m s l ffl l2 -> 0 <= req < 2 ^ 64 ->
  exists req' m' s' ffl' l' l2',
    getList m s ffl req = Some (req', m', s', ffl') /\ inv2 m' s' l' ffl' l2' /\
    frames m l ++ frames m l2 ≡ₚ frames m' l' ++ frames m' l2' /\ dom m' = dom m /\
    count s' = Z.max 0 (count s - req) /\ req' = Z.max 0 (req - count s).
Proof. apply getList_spec. Qed.

Lemma getList_exact_witness :
  exists req' m' s' ffl' l' l2',
    getList ∅ init init 3 = Some (req', m', s', ffl') /\ inv2 m' s' l' ffl' l2' /\
    frames ∅ [] ++ frames ∅ [] ≡ₚ frames m' l' ++ frames m' l2' /\ dom m' = dom (∅ : memory) /\
    count s' = Z.max 0 (count init - 3) /\ req' = Z.max 0 (3 - count init).
Proof.
  apply getList_exact; [|lia].
  constructor; [split; [intros a n Ha; by rewrite lookup_empty in Ha|vm_compute; done]|done|done|].
  split; constructor.
Defined.

End FreeFrameList.
