(* ===== verification/DispatchHeap.v ===== *)
(** * DispatchHeap: the dispatcher's priority heap, DispatchQueue::Heap of
    os/kernel/exception/DispatchQueue.C

    The heap is the fixed array of 16 (priority, domain) entries and a count.
    Indices are below 32, so they are natural numbers; an access outside the
    array is stuck, as is a failed assertion. *)

From stdpp Require Import base numbers option gmap list.
From S2P Require Import K42 Prelude.

Module DispatchHeap.

(** Priority, and address of the CPUDomainAnnex. *)
Abbreviation entry := (Z * Z)%type (only parsing).

Definition HEAP_SIZE : nat := 16.

Record t := mkHeap { count : nat; element : list entry }.

Definition init : t := mkHeap 0 (replicate HEAP_SIZE (0, NULL)).

Definition clear (h : t) : t := mkHeap 0 (element h).

Definition getHead (h : t) : option Z :=
  _ ← assertK (bool_decide (0 < count h)%nat);
  snd <$> element h !! 0%nat.

(** The loop that moves the hole toward the leaves. *)
Fixpoint sift_down (fuel count : nat) (e : list entry) (hole : nat) (priority : Z)
  : option (list entry * nat) :=
  match fuel with
  | O => None
  | S fuel =>
      let child := (2 * hole + 1)%nat in
      let alt := (child + 1)%nat in
      if bool_decide (count <= alt)%nat then
        if bool_decide (alt = count) then
          c ← e !! child;
          if c.1 <? priority then Some (<[hole := c]> e, child) else Some (e, hole)
        else Some (e, hole)
      else
        ea ← e !! alt;
        ec ← e !! child;
        let child' := if ea.1 <? ec.1 then alt else child in
        c ← e !! child';
        if priority <=? c.1 then Some (e, hole)
        else sift_down fuel count (<[hole := c]> e) child' priority
  end.

(** The loop that moves the hole toward the root. *)
Fixpoint sift_up (fuel : nat) (e : list entry) (hole : nat) (priority : Z)
  : option (list entry * nat) :=
  match fuel with
  | O => None
  | S fuel =>
      if bool_decide (0 < hole)%nat then
        let parent := ((hole - 1) / 2)%nat in
        p ← e !! parent;
        if p.1 <=? priority then Some (e, hole)
        else sift_up fuel (<[hole := p]> e) parent priority
      else Some (e, hole)
  end.

Definition install (e : list entry) (hole : nat) (priority cda : Z) : option (list entry) :=
  _ ← e !! hole; Some (<[hole := (priority, cda)]> e).

Definition replaceHead (h : t) (priority cda : Z) : option t :=
  _ ← assertK (bool_decide (0 < count h)%nat);
  '(e, hole) ← sift_down (S HEAP_SIZE) (count h) (element h) 0 priority;
  e' ← install e hole priority cda;
  Some (mkHeap (count h) e').

Definition deleteHead (h : t) : option t :=
  _ ← assertK (bool_decide (1 < count h)%nat);
  let n := (count h - 1)%nat in
  x ← element h !! n;
  replaceHead (mkHeap n (element h)) x.1 x.2.

Definition insert (h : t) (priority cda : Z) : option t :=
  _ ← assertK (bool_decide (count h < HEAP_SIZE)%nat);
  '(e, hole) ← sift_up (S HEAP_SIZE) (element h) (count h) priority;
  e' ← install e hole priority cda;
  Some (mkHeap (S (count h)) e').

(** for (hole = 0; hole < count; hole++) if (element[hole].cda == cda) break; *)
Fixpoint find_cda (n : nat) (e : list entry) (hole : nat) (cda : Z) : option nat :=
  match n with
  | O => None
  | S n =>
      x ← e !! hole;
      if x.2 =? cda then Some hole else find_cda n e (S hole) cda
  end.

(** The search, then both loops. *)
Definition swap (h : t) (priority newCDA oldCDA : Z) : option t :=
  _ ← assertK (bool_decide (0 < count h)%nat);
  hole ← find_cda (count h) (element h) 0 oldCDA;
  '(e1, hole1) ← sift_up (S HEAP_SIZE) (element h) hole priority;
  '(e2, hole2) ← sift_down (S HEAP_SIZE) (count h) e1 hole1 priority;
  e3 ← install e2 hole2 priority newCDA;
  Some (mkHeap (count h) e3).

Definition remove (h : t) (cda : Z) : option t :=
  _ ← assertK (bool_decide (1 < count h)%nat);
  let n := (count h - 1)%nat in
  x ← element h !! n;
  if negb (x.2 =? cda) then swap (mkHeap n (element h)) x.1 x.2 cda
  else Some (mkHeap n (element h)).

(** ** Heap order *)

(** Priority at an index. *)
Definition prio (e : list entry) (i : nat) : Z := (e !!! i).1.

Definition parent (i : nat) : nat := ((i - 1) / 2)%nat.

(** Every entry but the root is not smaller than its parent. *)
Definition heap_order (n : nat) (e : list entry) : Prop :=
  forall i, (0 < i < n)%nat -> prio e (parent i) <= prio e i.

(** The entries in use. *)
Definition entries (h : t) : list entry := take (count h) (element h).

(** [wf h q]: the array is in heap order and holds the entries [q]. *)
Definition wf (h : t) (q : list entry) : Prop :=
  length (element h) = HEAP_SIZE /\ (count h <= HEAP_SIZE)%nat /\
  heap_order (count h) (element h) /\ entries h ≡ₚ q.

Lemma parent_lt i : (0 < i)%nat -> (parent i < i)%nat.
Proof.
  intros H. unfold parent. apply Nat.Div0.div_lt_upper_bound. lia.
Qed.

Lemma parent_child i h : (0 < i)%nat -> parent i = h <-> i = (2 * h + 1)%nat \/ i = (2 * h + 2)%nat.
Proof.
  intros Hi. unfold parent. split.
  - intros <-. pose proof (Nat.div_mod_eq (i - 1) 2). pose proof (Nat.mod_upper_bound (i - 1) 2). lia.
  - intros [->| ->].
    + replace (2 * h + 1 - 1)%nat with (h * 2)%nat by lia. by rewrite Nat.div_mul.
    + replace (2 * h + 2 - 1)%nat with (1 + h * 2)%nat by lia. rewrite Nat.div_add by lia. done.
Qed.

Lemma prio_lookup e i x : e !! i = Some x -> prio e i = x.1.
Proof. intros H. unfold prio. by rewrite (list_lookup_total_correct _ _ _ H). Qed.

Lemma prio_insert_eq e i x : (i < length e)%nat -> prio (<[i := x]> e) i = x.1.
Proof. intros H. unfold prio. by rewrite list_lookup_total_insert_eq. Qed.

Lemma prio_insert_ne e i j x : i <> j -> prio (<[i := x]> e) j = prio e j.
Proof. intros H. unfold prio. by rewrite list_lookup_total_insert_ne. Qed.

(** Exchanging two entries. *)
Lemma swap_perm (e : list entry) i j x y :
  e !! i = Some x -> e !! j = Some y -> i <> j -> <[j := x]> (<[i := y]> e) ≡ₚ e.
Proof.
  intros Hi Hj Hne. apply Permutation_inj. rewrite !length_insert. split; [done|].
  pose proof (lookup_lt_Some _ _ _ Hi). pose proof (lookup_lt_Some _ _ _ Hj).
  exists (fun k => if decide (k = i) then j else if decide (k = j) then i else k). split.
  - intros a b. repeat case_decide; congruence.
  - intros k. destruct (decide (k = i)) as [->|]; [|destruct (decide (k = j)) as [->|]].
    + by rewrite list_lookup_insert_ne, list_lookup_insert_eq, Hj by done.
    + by rewrite list_lookup_insert_eq, Hi by (by rewrite length_insert).
    + by rewrite !list_lookup_insert_ne by done.
Qed.

(** The heap with a hole: order holds away from the hole, and across it. *)
Definition hole_order (n : nat) (e : list entry) (hole : nat) : Prop :=
  (forall i, (0 < i < n)%nat -> parent i <> hole -> i <> hole -> prio e (parent i) <= prio e i) /\
  ((0 < hole)%nat -> forall i, (0 < i < n)%nat -> parent i = hole -> prio e (parent hole) <= prio e i).

(** [p] may be put below the parent of the hole; above its children. *)
Definition fits_up (e : list entry) (hole : nat) (p : Z) : Prop :=
  (0 < hole)%nat -> prio e (parent hole) <= p.
Definition fits_down (n : nat) (e : list entry) (hole : nat) (p : Z) : Prop :=
  forall i, (0 < i < n)%nat -> parent i = hole -> p <= prio e i.

Lemma heap_order_hole n e hole : heap_order n e -> hole_order n e hole.
Proof.
  intros H. split; [by auto|]. intros H0 i Hi Hp. pose proof (H i Hi) as H1. rewrite Hp in H1.
  pose proof (parent_lt i ltac:(lia)). specialize (H hole ltac:(lia)). lia.
Qed.

Lemma fill_hole n e hole v :
  (hole < length e)%nat -> hole_order n e hole -> fits_up e hole v.1 -> fits_down n e hole v.1 ->
  heap_order n (<[hole := v]> e).
Proof.
  intros Hl [H1 _] Hu Hd i Hi. pose proof (parent_lt i ltac:(lia)).
  destruct (decide (i = hole)) as [->|].
  - rewrite prio_insert_eq, prio_insert_ne by lia. apply Hu. lia.
  - rewrite (prio_insert_ne e hole i) by done. destruct (decide (parent i = hole)) as [E|].
    + rewrite E, prio_insert_eq by done. by apply Hd.
    + rewrite prio_insert_ne by done. by apply H1.
Qed.

(** Moving an entry into the hole exchanges it with the entry to be placed. *)
Lemma move_perm n (e : list entry) hole j c v :
  (hole < n)%nat -> (j < n)%nat -> (n <= length e)%nat -> hole <> j -> e !! j = Some c ->
  take n (<[j := v]> (<[hole := c]> e)) ≡ₚ take n (<[hole := v]> e).
Proof.
  intros Hh Hj Hl Hne Hc. rewrite !take_insert_lt by done.
  rewrite <- (list_insert_insert_eq (take n e) hole c v) at 1.
  apply swap_perm; [|by rewrite list_lookup_insert_ne, lookup_take_lt|done].
  apply list_lookup_insert_eq. rewrite length_take. lia.
Qed.

(** Moving the hole to its smallest child. *)
Lemma hole_down n e hole p j c :
  (hole < length e)%nat -> hole_order n e hole ->
  (hole < j < n)%nat -> e !! j = Some c -> parent j = hole ->
  (forall i, (0 < i < n)%nat -> parent i = hole -> c.1 <= prio e i) -> c.1 < p ->
  hole_order n (<[hole := c]> e) j /\ fits_up (<[hole := c]> e) j p.
Proof.
  intros Hl [H1 H2] Hj Hc Hpj Hmin Hlt. pose proof (prio_lookup _ _ _ Hc) as Hpc. split; [split|].
  - intros i Hi Hp Hij. pose proof (parent_lt i ltac:(lia)).
    destruct (decide (i = hole)) as [->|].
    + rewrite prio_insert_eq, prio_insert_ne by lia. rewrite <- Hpc. apply H2; (done || lia).
    + rewrite (prio_insert_ne e hole i) by done. destruct (decide (parent i = hole)) as [E|].
      * rewrite E, prio_insert_eq by lia. by apply Hmin.
      * rewrite prio_insert_ne by done. by apply H1.
  - intros _ i Hi Hp. pose proof (parent_lt i ltac:(lia)). pose proof (parent_lt j ltac:(lia)).
    rewrite Hpj, prio_insert_eq, (prio_insert_ne e hole i) by lia.
    rewrite <- Hpc, <- Hp. apply H1; lia.
  - intros _. rewrite Hpj, prio_insert_eq by lia. lia.
Qed.

(** Moving the hole to its parent. *)
Lemma hole_up n e hole p c :
  (0 < hole < length e)%nat -> hole_order n e hole -> (hole < n)%nat ->
  e !! parent hole = Some c -> p < c.1 ->
  hole_order n (<[hole := c]> e) (parent hole) /\
  (fits_down n e hole p -> fits_down n (<[hole := c]> e) (parent hole) p).
Proof.
  intros Hl [H1 H2] Hn Hc Hlt. pose proof (prio_lookup _ _ _ Hc) as Hpc.
  pose proof (parent_lt hole ltac:(lia)) as Hph. split; [split|].
  - intros i Hi Hp Hij. assert (i <> hole) by (intros ->; done).
    rewrite (prio_insert_ne e hole i) by done. destruct (decide (parent i = hole)) as [E|].
    + rewrite E, prio_insert_eq by lia. rewrite <- Hpc. apply H2; (done || lia).
    + rewrite prio_insert_ne by done. by apply H1.
  - intros H0 i Hi Hp. pose proof (parent_lt (parent hole) H0).
    rewrite (prio_insert_ne e hole (parent (parent hole))) by lia.
    assert (Hup : prio e (parent (parent hole)) <= prio e (parent hole)) by (apply H1; lia).
    destruct (decide (i = hole)) as [->|].
    + rewrite prio_insert_eq by lia. lia.
    + rewrite prio_insert_ne by done. specialize (H1 i Hi ltac:(lia) ltac:(done)). rewrite Hp in H1. lia.
  - intros Hd i Hi Hp. destruct (decide (i = hole)) as [->|].
    + rewrite prio_insert_eq by lia. lia.
    + rewrite prio_insert_ne by done. specialize (H1 i Hi ltac:(lia) ltac:(done)). rewrite Hp in H1. lia.
Qed.

Lemma sift_up_spec n v fuel : forall e hole,
  (hole < n)%nat -> (n <= length e)%nat -> (hole < fuel)%nat -> hole_order n e hole ->
  exists e' hole', sift_up fuel e hole v.1 = Some (e', hole') /\
    (hole' < n)%nat /\ length e' = length e /\ hole_order n e' hole' /\ fits_up e' hole' v.1 /\
    (fits_down n e hole v.1 -> fits_down n e' hole' v.1) /\
    take n (<[hole' := v]> e') ≡ₚ take n (<[hole := v]> e).
Proof.
  induction fuel as [|fuel IH]; intros e hole Hh Hl Hf Ho; [lia|]. cbn [sift_up].
  destruct (bool_decide_reflect (0 < hole)%nat) as [H0|H0].
  2:{ exists e, hole. split_and!; try done. by intros ?. }
  fold (parent hole). pose proof (parent_lt hole H0).
  destruct (lookup_lt_is_Some_2 e (parent hole) ltac:(lia)) as [c Hc]. rewrite Hc. simpl.
  destruct (Z.leb_spec c.1 v.1) as [Hle|Hlt].
  - exists e, hole. split_and!; try done. intros _. by rewrite (prio_lookup _ _ _ Hc).
  - destruct (hole_up n e hole v.1 c ltac:(lia) Ho Hh Hc Hlt) as [Ho' Hd'].
    destruct (IH (<[hole := c]> e) (parent hole)) as (e' & hole' & -> & ? & Hlen & ? & ? & Hd & Hp);
      rewrite ?length_insert; try (done || lia).
    exists e', hole'. rewrite length_insert in Hlen. split_and!; try done.
    + intros Hx. by apply Hd, Hd'.
    + rewrite Hp. apply move_perm; (done || lia).
Qed.

Lemma sift_down_spec n v fuel : forall e hole,
  (hole < n)%nat -> (n <= length e)%nat -> (n < fuel + hole)%nat ->
  hole_order n e hole -> fits_up e hole v.1 ->
  exists e' hole', sift_down fuel n e hole v.1 = Some (e', hole') /\
    (hole' < n)%nat /\ length e' = length e /\ heap_order n (<[hole' := v]> e') /\
    take n (<[hole' := v]> e') ≡ₚ take n (<[hole := v]> e).
Proof.
  induction fuel as [|fuel IH]; intros e hole Hh Hl Hf Ho Hu; [lia|]. cbn [sift_down].
  set (child := (2 * hole + 1)%nat). set (alt := (child + 1)%nat).
  assert (Hkids : forall i, (0 < i)%nat -> parent i = hole <-> i = child \/ i = alt).
  { intros i Hi. rewrite (parent_child i hole Hi). unfold child, alt. lia. }
  assert (Hch : (hole < child)%nat /\ alt = S child) by (unfold child, alt; lia).
  assert (Hstop : fits_down n e hole v.1 ->
    exists e' hole', Some (e, hole) = Some (e', hole') /\ (hole' < n)%nat /\ length e' = length e /\
      heap_order n (<[hole' := v]> e') /\ take n (<[hole' := v]> e') ≡ₚ take n (<[hole := v]> e)).
  { intros Hd. exists e, hole. split_and!; try done. apply fill_hole; (done || lia). }
  destruct (bool_decide_reflect (n <= alt)%nat) as [Hn|Hn].
  - destruct (bool_decide_reflect (alt = n)) as [Ha|Ha].
    + destruct (lookup_lt_is_Some_2 e child ltac:(lia)) as [c Hc]. rewrite Hc. simpl.
      assert (Hmin : forall i, (0 < i < n)%nat -> parent i = hole -> c.1 <= prio e i).
      { intros i Hi [->| ->]%Hkids; [|lia..]. by rewrite (prio_lookup _ _ _ Hc). }
      destruct (Z.ltb_spec c.1 v.1).
      * destruct (hole_down n e hole v.1 child c ltac:(lia) Ho ltac:(lia) Hc ltac:(apply Hkids; lia) Hmin ltac:(done))
          as [Ho' Hu'].
        exists (<[hole := c]> e), child. rewrite length_insert. split_and!; try (done || lia).
        -- apply fill_hole; [rewrite length_insert; lia|done..|].
           intros i Hi Hp. apply parent_child in Hp; lia.
        -- apply move_perm; (done || lia).
      * apply Hstop. intros i Hi Hp. specialize (Hmin i Hi Hp). lia.
    + apply Hstop. intros i Hi Hp. apply Hkids in Hp; lia.
  - destruct (lookup_lt_is_Some_2 e child ltac:(lia)) as [cc Hcc].
    destruct (lookup_lt_is_Some_2 e alt ltac:(lia)) as [ca Hca]. rewrite Hca, Hcc. simpl.
    assert (Hsel : exists c, e !! (if ca.1 <? cc.1 then alt else child) = Some c /\
      c.1 <= ca.1 /\ c.1 <= cc.1).
    { destruct (Z.ltb_spec ca.1 cc.1); [exists ca|exists cc]; split_and!; (done || lia). }
    destruct Hsel as (c & Hc & Hca1 & Hcc1). rewrite Hc. simpl.
    assert (Hmin : forall i, (0 < i < n)%nat -> parent i = hole -> c.1 <= prio e i).
    { intros i Hi [->| ->]%Hkids; [| |lia].
      - by rewrite (prio_lookup _ _ _ Hcc). - by rewrite (prio_lookup _ _ _ Hca). }
    set (j := if ca.1 <? cc.1 then alt else child) in *.
    assert (Hj : (j = alt \/ j = child) /\ (hole < j < n)%nat) by (unfold j; destruct (ca.1 <? cc.1); lia).
    destruct (Z.leb_spec v.1 c.1).
    + apply Hstop. intros i Hi Hp. specialize (Hmin i Hi Hp). lia.
    + destruct (hole_down n e hole v.1 j c ltac:(lia) Ho ltac:(lia) Hc ltac:(apply Hkids; lia) Hmin ltac:(lia)) as [Ho' Hu'].
      destruct (IH (<[hole := c]> e) j) as (e' & hole' & -> & ? & Hlen & ? & Hp);
        rewrite ?length_insert; try (done || lia).
      exists e', hole'. rewrite length_insert in Hlen. split_and!; try done.
      rewrite Hp. apply move_perm; (done || lia).
Qed.

(** ** The operations *)

#[global] Arguments sift_down : simpl never.
#[global] Arguments sift_up : simpl never.

Lemma install_ok e hole v :
  (hole < length e)%nat -> install e hole v.1 v.2 = Some (<[hole := v]> e).
Proof.
  intros H. unfold install. destruct (lookup_lt_is_Some_2 e hole H) as [x ->]. simpl.
  by destruct v.
Qed.

Lemma take_head {A} (l : list A) n x : (0 < n)%nat -> l !! 0%nat = Some x ->
  take n l = x :: take (n - 1) (drop 1 l).
Proof.
  intros Hn Hx. destruct l as [|y l]; [done|]. simpl in *. simplify_eq.
  destruct n; [lia|]. simpl. by rewrite Nat.sub_0_r.
Qed.

Lemma wf_head h q :
  wf h q -> (0 < count h)%nat ->
  exists x, element h !! 0%nat = Some x /\ x ∈ q /\ forall y, y ∈ q -> x.1 <= y.1.
Proof.
  intros (Hl & Hc & Ho & Hp) H0. unfold HEAP_SIZE in *.
  destruct (lookup_lt_is_Some_2 (element h) 0%nat ltac:(lia)) as [x Hx]. exists x.
  split; [done|]. split.
  - rewrite <- Hp. unfold entries. apply list_elem_of_lookup. exists 0%nat. by rewrite lookup_take_lt.
  - assert (Hmin : forall i, (i < count h)%nat -> prio (element h) 0 <= prio (element h) i).
    { intros i. induction (lt_wf i) as [i _ IH]. intros Hi.
      destruct i as [|i]; [lia|]. pose proof (parent_lt (S i) ltac:(lia)).
      specialize (IH (parent (S i)) ltac:(done) ltac:(lia)). specialize (Ho (S i) ltac:(lia)). lia. }
    intros y Hy. rewrite <- Hp in Hy. apply list_elem_of_lookup in Hy as [i Hi].
    apply lookup_take_Some in Hi as [Hi Hlt]. specialize (Hmin i Hlt).
    by rewrite (prio_lookup _ _ _ Hx), (prio_lookup _ _ _ Hi) in Hmin.
Qed.

(** Filling the hole at the root. *)
Lemma replaceHead_spec n e v x :
  (0 < n)%nat -> (n <= HEAP_SIZE)%nat -> length e = HEAP_SIZE -> heap_order n e -> e !! 0%nat = Some x ->
  exists h', replaceHead (mkHeap n e) v.1 v.2 = Some h' /\ count h' = n /\
    length (element h') = HEAP_SIZE /\ heap_order n (element h') /\
    entries h' ≡ₚ v :: take (n - 1) (drop 1 e).
Proof.
  intros H0 Hn Hl Ho Hx. unfold replaceHead. simpl. rewrite bool_decide_true by done.
  cbn [assertK mbind option_bind].
  destruct (sift_down_spec n v (S HEAP_SIZE) e 0 H0 ltac:(lia) ltac:(lia)
    (heap_order_hole _ _ _ Ho) ltac:(intros ?; lia)) as (e' & hole' & -> & Hh & Hlen & Ho' & Hp).
  simpl. rewrite install_ok by lia. simpl. eexists. split; [done|]. split_and!; simpl; try done.
  - by rewrite length_insert, Hlen.
  - unfold entries. simpl. rewrite Hp. destruct e as [|y e]; [done|]. simpl in *.
    destruct n; [lia|]. simpl. by rewrite Nat.sub_0_r.
Qed.

Lemma deleteHead_spec h q :
  wf h q -> (1 < count h)%nat ->
  exists h' x q', deleteHead h = Some h' /\ getHead h = Some x.2 /\ q ≡ₚ x :: q' /\ wf h' q' /\
    (forall y, y ∈ q -> x.1 <= y.1).
Proof.
  intros H H1. pose proof H as (Hl & Hc & Ho & Hp).
  destruct (wf_head h q H ltac:(lia)) as (x & Hx & _ & Hmin).
  unfold deleteHead, getHead. rewrite !bool_decide_true by lia. simpl.
  destruct (lookup_lt_is_Some_2 (element h) (count h - 1)%nat ltac:(lia)) as [v Hv].
  rewrite Hv, Hx. simpl.
  destruct (replaceHead_spec (count h - 1) (element h) v x) as (h' & -> & Hc' & Hl' & Ho' & Hp');
    try (done || lia).
  { intros i Hi. apply Ho. lia. }
  exists h', x, (entries h'). split; [done|]. split; [done|].
  split; [|split; [split_and!; rewrite ?Hc'; (done || lia)|done]].
  - rewrite <- Hp. unfold entries at 1.
    assert (Hlast : take (count h) (element h) = take (count h - 1) (element h) ++ [v]).
    { replace (count h) with (S (count h - 1)) at 1 by lia. by apply take_S_r. }
    rewrite Hlast, (take_head _ _ x) by (done || lia). rewrite Hp'. simpl.
    by rewrite <- Permutation_cons_append.
Qed.

(** The head is exchanged for another entry. *)
Lemma replaceHead_head h q v :
  wf h q -> (0 < count h)%nat ->
  exists h' x q', replaceHead h v.1 v.2 = Some h' /\ getHead h = Some x.2 /\ q ≡ₚ x :: q' /\ wf h' (v :: q').
Proof.
  intros (Hl & Hc & Ho & Hp) H0. unfold HEAP_SIZE in *.
  destruct (lookup_lt_is_Some_2 (element h) 0%nat ltac:(lia)) as [x Hx].
  destruct h as [n e]; simpl in *. unfold entries in Hp. simpl in Hp.
  destruct (replaceHead_spec n e v x) as (h' & E & Ecn & Hl' & Ho' & Hp'); [done|by unfold HEAP_SIZE|done..|].
  exists h', x, (take (n - 1) (drop 1 e)). split; [done|]. split.
  - unfold getHead. rewrite bool_decide_true by done. simpl. by rewrite Hx.
  - rewrite <- Hp, (take_head e n x) by done. split; [done|]. unfold wf. rewrite Ecn. by split_and!.
Qed.

Lemma insert_spec h q v :
  wf h q -> (count h < HEAP_SIZE)%nat ->
  exists h', insert h v.1 v.2 = Some h' /\ wf h' (v :: q).
Proof.
  intros (Hl & Hc & Ho & Hp) Hlt. unfold insert. rewrite bool_decide_true by done.
  cbn [assertK mbind option_bind].
  destruct (sift_up_spec (S (count h)) v (S HEAP_SIZE) (element h) (count h))
    as (e' & hole' & -> & Hh & Hlen & Ho' & Hu & Hd & Hperm); try lia.
  { split.
    - intros i Hi _ Hne. apply Ho. lia.
    - intros _ i Hi Hpi. apply parent_child in Hpi; lia. }
  simpl. rewrite install_ok by lia. simpl. eexists. split; [done|]. split_and!; simpl; try (done || lia).
  - by rewrite length_insert, Hlen.
  - apply fill_hole; [lia|done..|]. apply Hd. intros i Hi Hpi. apply parent_child in Hpi; lia.
  - unfold entries. simpl. rewrite Hperm.
    rewrite (take_S_r _ _ v) by (apply list_lookup_insert_eq; lia).
    rewrite take_insert_ge by lia. rewrite <- Permutation_cons_append. by rewrite <- Hp.
Qed.

Lemma find_cda_spec e cda : forall n hole,
  (hole + n <= length e)%nat -> (exists j x, (hole <= j < hole + n)%nat /\ e !! j = Some x /\ x.2 = cda) ->
  exists j x, find_cda n e hole cda = Some j /\ (hole <= j < hole + n)%nat /\ e !! j = Some x /\ x.2 = cda.
Proof.
  induction n as [|n IH]; intros hole Hl (j & x & Hj & Hx & Hc); [lia|]. simpl.
  destruct (lookup_lt_is_Some_2 e hole ltac:(lia)) as [y Hy]. rewrite Hy. simpl.
  destruct (Z.eqb_spec y.2 cda) as [E|E].
  - exists hole, y. split_and!; (done || lia).
  - destruct (IH (S hole)) as (j' & x' & -> & ? & ? & ?); [lia| |].
    + exists j, x. split_and!; try done; [|lia]. destruct (decide (j = hole)) as [->|]; [congruence|lia].
    + exists j', x'. split_and!; (done || lia).
Qed.

(** Replacing the entry at an index changes one element of the multiset. *)
Lemma replace_perm (l : list entry) i x v :
  l !! i = Some x -> exists r, l ≡ₚ x :: r /\ <[i := v]> l ≡ₚ v :: r.
Proof.
  intros Hi. exists (take i l ++ drop (S i) l). split.
  - rewrite <- (take_drop_middle _ _ _ Hi) at 1. by rewrite <- Permutation_middle.
  - rewrite insert_take_drop by (by eapply lookup_lt_Some). by rewrite <- Permutation_middle.
Qed.

Lemma swap_spec h q v oldCDA :
  wf h q -> oldCDA ∈ q.*2 ->
  exists h' x q', swap h v.1 v.2 oldCDA = Some h' /\ x.2 = oldCDA /\ q ≡ₚ x :: q' /\
    wf h' (v :: q') /\ count h' = count h.
Proof.
  intros (Hl & Hc & Ho & Hp) Hin. rewrite <- Hp in Hin. apply list_elem_of_fmap in Hin as (x & Hx & Hin).
  apply list_elem_of_lookup in Hin as [j Hj]. apply lookup_take_Some in Hj as [Hj Hlt].
  unfold swap. rewrite bool_decide_true by lia. cbn [assertK mbind option_bind].
  destruct (find_cda_spec (element h) oldCDA (count h) 0) as (i & y & -> & Hi & Hy & Hyc); [lia| |].
  { exists j, x. split_and!; (done || lia). }
  cbn [mbind option_bind].
  destruct (sift_up_spec (count h) v (S HEAP_SIZE) (element h) i)
    as (e1 & h1 & -> & Hh1 & Hlen1 & Ho1 & Hu1 & _ & Hp1); try lia.
  { by apply heap_order_hole. }
  cbn [mbind option_bind].
  destruct (sift_down_spec (count h) v (S HEAP_SIZE) e1 h1)
    as (e2 & h2 & -> & Hh2 & Hlen2 & Ho2 & Hp2); try (done || lia).
  cbn [mbind option_bind]. rewrite install_ok by lia. simpl.
  destruct (replace_perm (entries h) i y v) as (r & Hr1 & Hr2).
  { unfold entries. by rewrite lookup_take_lt by lia. }
  eexists _, y, r. split; [done|]. split; [done|]. split; [by rewrite <- Hp|]. split; [|done].
  split; [|split; [done|split; [done|]]].
  - simpl. by rewrite length_insert, Hlen2, Hlen1.
  - unfold entries. simpl. rewrite Hp2, Hp1, take_insert_lt by lia. by rewrite <- Hr2.
Qed.

Lemma heap_remove_spec h q cda :
  wf h q -> (1 < count h)%nat -> cda ∈ q.*2 -> NoDup q.*2 ->
  exists h' x q', remove h cda = Some h' /\ x.2 = cda /\ q ≡ₚ x :: q' /\ wf h' q'.
Proof.
  intros (Hl & Hc & Ho & Hp) H1 Hin Hnd. unfold remove. rewrite bool_decide_true by done. simpl.
  destruct (lookup_lt_is_Some_2 (element h) (count h - 1)%nat ltac:(lia)) as [v Hv].
  rewrite Hv. simpl.
  assert (Hlast : entries h = take (count h - 1) (element h) ++ [v]).
  { unfold entries. replace (count h) with (S (count h - 1)) at 1 by lia. by apply take_S_r. }
  set (h1 := mkHeap (count h - 1) (element h)).
  assert (Hwf1 : wf h1 (take (count h - 1) (element h))).
  { split_and!; simpl; try (done || lia). intros i Hi. apply Ho. lia. }
  assert (Hq : q ≡ₚ v :: take (count h - 1) (element h)).
  { rewrite <- Hp, Hlast. by rewrite <- Permutation_cons_append. }
  destruct (Z.eqb_spec v.2 cda) as [E|E]; simpl.
  - exists h1, v, (take (count h - 1) (element h)). done.
  - destruct (swap_spec h1 (take (count h - 1) (element h)) v cda Hwf1) as (h' & x & q' & -> & ? & Hx & Hwf & _).
    { rewrite Hq in Hin. csimpl in Hin. apply elem_of_cons in Hin as [->|?]; done. }
    exists h', x, (v :: q'). split_and!; try done. rewrite Hq, Hx. apply Permutation_swap.
Qed.

(** ** Refinement to a priority queue *)

Inductive op :=
| Insert (priority cda : Z)
| DeleteHead
| ReplaceHead (priority cda : Z)
| Remove (cda : Z)
| SwapCDA (priority newCDA oldCDA : Z).

Definition exec (h : t) (o : op) : option t :=
  match o with
  | Insert p c => insert h p c
  | DeleteHead => deleteHead h
  | ReplaceHead p c => replaceHead h p c
  | Remove c => remove h c
  | SwapCDA p n o => swap h p n o
  end.

Definition minimal (x : entry) (q : list entry) : Prop :=
  x ∈ q /\ forall y, y ∈ q -> x.1 <= y.1.

(** The specification: a bag of entries with distinct domains, of at most 16
    entries, from which a minimal one is taken. *)
Inductive spec_step : list entry -> op -> list entry -> Prop :=
| SInsert q p c : (length q < HEAP_SIZE)%nat -> c ∉ q.*2 -> spec_step q (Insert p c) ((p, c) :: q)
| SDelete q x q' : (1 < length q)%nat -> minimal x q -> q ≡ₚ x :: q' -> spec_step q DeleteHead q'
| SReplace q p c x q' : minimal x q -> q ≡ₚ x :: q' -> c ∉ q'.*2 ->
    spec_step q (ReplaceHead p c) ((p, c) :: q')
| SRemove q c x q' : (1 < length q)%nat -> x.2 = c -> q ≡ₚ x :: q' -> spec_step q (Remove c) q'
| SSwap q p n o x q' : x.2 = o -> q ≡ₚ x :: q' -> n ∉ q'.*2 ->
    spec_step q (SwapCDA p n o) ((p, n) :: q').

(** When an operation may be called. *)
Definition allowed (q : list entry) (o : op) : Prop :=
  match o with
  | Insert _ c => (length q < HEAP_SIZE)%nat /\ c ∉ q.*2
  | DeleteHead => (1 < length q)%nat
  | ReplaceHead _ c => q <> [] /\ c ∉ q.*2
  | Remove c => (1 < length q)%nat /\ c ∈ q.*2
  | SwapCDA _ n o => o ∈ q.*2 /\ n ∉ q.*2
  end.

Lemma wf_count h q : wf h q -> count h = length q.
Proof.
  intros (Hl & Hc & _ & Hp). rewrite <- Hp. unfold entries. rewrite length_take. lia.
Qed.

Lemma sub_not_in (q q' : list entry) x c : q ≡ₚ x :: q' -> c ∉ q.*2 -> c ∉ q'.*2.
Proof. intros Hp Hc Hin. apply Hc. rewrite Hp. csimpl. set_solver. Qed.

Lemma heap_exec_refines h q o :
  wf h q -> NoDup q.*2 -> allowed q o ->
  exists h' q', exec h o = Some h' /\ wf h' q' /\ spec_step q o q'.
Proof.
  intros H Hnd Ha. pose proof (wf_count h q H) as Hc. destruct o as [p c| |p c|c|p n o]; simpl in Ha |- *.
  - destruct Ha. destruct (insert_spec h q (p, c) H ltac:(lia)) as (h' & ? & ?).
    exists h', ((p, c) :: q). split_and!; try done. by constructor.
  - destruct (deleteHead_spec h q H ltac:(lia)) as (h' & x & q' & ? & _ & Hp & Hw & Hmin).
    exists h', q'. split_and!; try done. apply (SDelete q x q'); try done. split; [|done].
    rewrite Hp. set_solver.
  - destruct Ha as [Hne Hin]. destruct (wf_head h q H) as (x & Hx & Hxq & Hmin).
    { destruct q; [done|]. simpl in Hc. lia. }
    pose proof H as (Hl & Hn & Ho & Hp).
    assert (H0 : (0 < count h)%nat) by (destruct q; [done|]; simpl in Hc; lia).
    destruct (replaceHead_spec (count h) (element h) (p, c) x H0 Hn Hl Ho Hx)
      as (h' & Hr & Hc' & Hl' & Ho' & Hp'). destruct h as [cnt e]. simpl in *.
    set (q' := take (cnt - 1) (drop 1 e)) in *.
    assert (Hq : q ≡ₚ x :: q').
    { rewrite <- Hp. unfold entries. simpl. by rewrite (take_head _ _ x). }
    exists h', ((p, c) :: q'). split; [done|]. split.
    + split_and!; rewrite ?Hc'; done.
    + by apply (SReplace q p c x q'); [split|done|eapply sub_not_in].
  - destruct Ha. destruct (heap_remove_spec h q c H ltac:(lia)) as (h' & x & q' & ? & ? & ? & ?); [done..|].
    exists h', q'. split_and!; try done. by apply (SRemove q c x q').
  - destruct Ha as [Ho Hn]. destruct (swap_spec h q (p, n) o H Ho) as (h' & x & q' & ? & ? & ? & ? & _).
    exists h', ((p, n) :: q'). split_and!; try done. apply (SSwap q p n o x q'); try done.
    by eapply sub_not_in.
Qed.

Inductive spec_run : list entry -> list op -> list entry -> Prop :=
| SNil q : spec_run q [] q
| SCons q o q1 os q2 : spec_step q o q1 -> spec_run q1 os q2 -> spec_run q (o :: os) q2.

Fixpoint run (h : t) (os : list op) : option t :=
  match os with
  | [] => Some h
  | o :: os => h' ← exec h o; run h' os
  end.

(** A run of the specification in which every call is allowed. *)
Fixpoint allowed_run (q : list entry) (os : list op) : Prop :=
  match os with
  | [] => True
  | o :: os => allowed q o /\ forall q', spec_step q o q' -> allowed_run q' os
  end.

Lemma spec_step_nodup q o q' : spec_step q o q' -> NoDup q.*2 -> NoDup q'.*2.
Proof.
  assert (Htl : forall (q q' : list entry) x, q ≡ₚ x :: q' -> NoDup q.*2 -> NoDup q'.*2).
  { intros r r' x Hp. rewrite Hp. csimpl. by intros [_ ?]%NoDup_cons. }
  destruct 1; intros Hnd; csimpl; eauto using NoDup_cons_2.
Qed.

(** C31: the 16-entry array heap refines a priority queue of distinct CPU domains:
    every sequence of allowed insert, deleteHead, replaceHead, remove and swap
    calls runs without failing an assertion or leaving the array, heap order is
    kept, the bag of entries changes as the queue's does, and getHead then
    returns the domain of a smallest-priority entry. *)
Theorem heap_refines_queue h q os :
  wf h q -> NoDup q.*2 -> allowed_run q os ->
  exists h' q', run h os = Some h' /\ wf h' q' /\ spec_run q os q' /\
    (q' <> [] -> exists x, getHead h' = Some x.2 /\ minimal x q').
Proof.
  revert h q. induction os as [|o os IH]; intros h q H Hnd Ha; simpl in *.
  - exists h, q. split_and!; [done..|constructor|]. intros Hne. pose proof (wf_count h q H) as Hc.
    assert (H0 : (0 < count h)%nat) by (destruct q; [done|]; simpl in Hc; lia).
    destruct (wf_head h q H H0) as (x & Hx & Hin & Hmin). exists x. split; [|done].
    unfold getHead. rewrite bool_decide_true by done. simpl. by rewrite Hx.
  - destruct Ha as [Ha Hrest]. destruct (heap_exec_refines h q o H Hnd Ha) as (h1 & q1 & -> & H1 & Hs).
    simpl. destruct (IH h1 q1 H1 (spec_step_nodup _ _ _ Hs Hnd) (Hrest q1 Hs)) as (h2 & q2 & -> & ? & ? & ?).
    exists h2, q2. split_and!; try done. by econstructor.
Qed.

Lemma init_wf : wf init [].
Proof.
  split; [done|]. split; [simpl; unfold HEAP_SIZE; lia|]. split; [|done].
  intros i Hi. simpl in Hi. lia.
Qed.

Lemma heap_refines_queue_witness :
  exists h' q', run init [Insert 9 1; Insert 4 2; Insert 6 3; SwapCDA 1 7 3] = Some h' /\
    wf h' q' /\ spec_run [] [Insert 9 1; Insert 4 2; Insert 6 3; SwapCDA 1 7 3] q' /\
    (q' <> [] -> exists x, getHead h' = Some x.2 /\ minimal x q').
Proof.
  apply heap_refines_queue; [apply init_wf|constructor|].
  simpl. unfold HEAP_SIZE.
  do 3 (split; [by apply (bool_decide_unpack _); vm_compute|intros ? Hs; inversion Hs; subst; clear Hs]).
  split; [by apply (bool_decide_unpack _); vm_compute|done].
Defined.

End DispatchHeap.
