(* ===== verification/CPUDomainAnnex.v ===== *)
(** * CPUDomainAnnex: a schedulable CPU domain,
    os/kernel/exception/CPUDomainAnnex.C and .H

    Two parts: the priority arithmetic (class, exponent and mantissa packed in
    a 64-bit word, with the exponential decay of adjustPriority) and the ring
    of process annexes, kept at pointer level.  The calls a domain makes on the
    dispatch queue of its processor are recorded as events, in order. *)

From stdpp Require Import base numbers option gmap list.
From S2P Require Import K42 Prelude.

Module CPUDomainAnnex.

(** os/kernel/sys/KernelScheduler.H *)
Definition PRIORITY_CLASS_KERNEL : Z := 1.
Definition PRIORITY_CLASS_UNRUNNABLE : Z := 7.
Definition MIN_WEIGHT : Z := 1.
Definition MAX_WEIGHT : Z := 4096.
Definition MIN_QUANTUM_MICROSECS : Z := 100.
Definition MAX_QUANTUM_MICROSECS : Z := 40000.
Definition MIN_PULSE_MICROSECS : Z := 100.
Definition MAX_PULSE_MICROSECS : Z := 40000.

Definition PCLASS_BITS : Z := 4.
Definition EXPONENT_BITS : Z := 40.
Definition MANTISSA_BITS : Z := 20.

(** ** Priorities *)

(** The bit fields of priority_value; [whole] is the word they overlay. *)
Record priority_value := mkPrio { pclass : Z; exponent : Z; mantissa : Z }.

Definition whole (p : priority_value) : Z :=
  Z.lor (Z.lor (Z.shiftl (pclass p) (EXPONENT_BITS + MANTISSA_BITS))
               (Z.shiftl (exponent p) MANTISSA_BITS))
        (mantissa p).

Record t := mkCDA {
  priority : priority_value;
  consumedTicks : Z;
  quantum : Z;
  pulseInterval : Z;
  drag : Z;
  weight : Z;
}.

Definition hasHigherPriorityThan (a b : t) : bool := whole (priority a) <? whole (priority b).

(** while ((maxMantissa >> MANTISSA_BITS) > 0) { scale++; maxMantissa >>= 1; } *)
Fixpoint TickScale_loop (fuel : nat) (maxMantissa scale : Z) : option Z :=
  match fuel with
  | O => None
  | S fuel =>
      if 0 <? Z.shiftr maxMantissa MANTISSA_BITS
      then TickScale_loop fuel (Z.shiftr maxMantissa 1) (uadd scale 1)
      else Some scale
  end.

Definition TickScale (inflationInterval : Z) : option Z :=
  let maxDrag := MAX_WEIGHT / MIN_WEIGHT in
  let maxMantissa := umul (umul maxDrag 3) inflationInterval in
  TickScale_loop 65 maxMantissa 0.

(** [tps] is SchedulerTimer::TicksPerSecond(). *)
Definition init (tps pcls wght quantumMicrosecs pulseMicrosecs : Z) : option t :=
  _ ← assertK ((PRIORITY_CLASS_KERNEL <=? pcls) && (pcls <=? PRIORITY_CLASS_UNRUNNABLE));
  _ ← assertK ((MIN_QUANTUM_MICROSECS <=? quantumMicrosecs) && (quantumMicrosecs <=? MAX_QUANTUM_MICROSECS));
  _ ← assertK ((MIN_PULSE_MICROSECS <=? pulseMicrosecs) && (pulseMicrosecs <=? MAX_PULSE_MICROSECS));
  _ ← assertK ((MIN_WEIGHT <=? wght) && (wght <=? MAX_WEIGHT));
  Some (mkCDA (mkPrio pcls 0 0) 0 (umul tps quantumMicrosecs / 1000000)
          (umul tps pulseMicrosecs / 1000000) (MAX_WEIGHT / wght) wght).

(** [mem]: whether new returned storage. *)
Definition Create (tps : Z) (mem : bool) (pcls wght quantumMicrosecs pulseMicrosecs : Z)
  : option (Z + t) :=
  if (pcls <? PRIORITY_CLASS_KERNEL) || (PRIORITY_CLASS_UNRUNNABLE <? pcls)
  then Some (inl (_SERROR 2627 0 EINVAL))
  else if (quantumMicrosecs <? MIN_QUANTUM_MICROSECS) || (MAX_QUANTUM_MICROSECS <? quantumMicrosecs)
  then Some (inl (_SERROR 2628 0 EINVAL))
  else if (pulseMicrosecs <? MIN_PULSE_MICROSECS) || (MAX_PULSE_MICROSECS <? pulseMicrosecs)
  then Some (inl (_SERROR 2628 0 EINVAL))
  else if (wght <? MIN_WEIGHT) || (MAX_WEIGHT <? wght)
  then Some (inl (_SERROR 2629 0 EINVAL))
  else if negb mem then Some (inl (_SERROR 2630 0 ENOMEM))
  else cda ← init tps pcls wght quantumMicrosecs pulseMicrosecs; Some (inr cda).

(** A shift by the word size or more is undefined in the source: stuck. *)
Definition adjustPriority (c : t) (inflation tickScale delta : Z) : option t :=
  let sh := usub inflation (exponent (priority c)) in
  _ ← assertK (sh <? 64);
  let m := uadd (Z.shiftr (mantissa (priority c)) sh) (Z.shiftr (umul (drag c) delta) tickScale) in
  _ ← assertK (Z.shiftr m MANTISSA_BITS =? 0);
  _ ← assertK (Z.shiftr inflation EXPONENT_BITS =? 0);
  Some (mkCDA (mkPrio (pclass (priority c)) inflation m) (consumedTicks c) (quantum c)
          (pulseInterval c) (drag c) (weight c)).

Definition set_consumed (c : t) (x : Z) : t :=
  mkCDA (priority c) x (quantum c) (pulseInterval c) (drag c) (weight c).

Definition flushQuantum (c : t) (inflation tickScale : Z) : option t :=
  c' ← adjustPriority c inflation tickScale (consumedTicks c);
  Some (set_consumed c' 0).

(** Returns whether the quantum expired: currentPA's pulse is then reset and
    the next annex of the ring becomes current. *)
Definition adjustQuantum (c : t) (inflation tickScale delta : Z) : option (bool * t) :=
  let c1 := set_consumed c (uadd (consumedTicks c) delta) in
  if quantum c1 <=? consumedTicks c1 then
    c2 ← flushQuantum c1 inflation tickScale; Some (true, c2)
  else Some (false, c1).

Definition hasFreshQuantum (c : t) : bool := consumedTicks c =? 0.

Definition getTimeout (c : t) : option Z :=
  _ ← assertK (consumedTicks c <=? quantum c);
  Some (usub (quantum c) (consumedTicks c)).

(** ** Properties of the priorities *)

Definition prio_ok (p : priority_value) : Prop :=
  0 <= pclass p < 2 ^ 4 /\ 0 <= exponent p < 2 ^ 40 /\ 0 <= mantissa p < 2 ^ 20.

Lemma whole_sum p :
  prio_ok p -> whole p = pclass p * 2 ^ 60 + exponent p * 2 ^ 20 + mantissa p.
Proof.
  intros (H1 & H2 & H3). unfold whole, EXPONENT_BITS, MANTISSA_BITS.
  assert (Hor : forall a b k, 0 <= k -> 0 <= b < 2 ^ k -> Z.lor (Z.shiftl a k) b = a * 2 ^ k + b).
  { intros a b k Hk Hb. rewrite <- Z.shiftl_mul_pow2 by done. rewrite Z.add_nocarry_lxor.
    - rewrite Z.lxor_lor; [done|]. apply Z.bits_inj'. intros n Hn.
      rewrite Z.land_spec, Z.shiftl_spec, Z.bits_0 by done.
      destruct (Z.lt_ge_cases n k); [by rewrite Z.testbit_neg_r by lia|].
      rewrite (testbit_bounded b k) by lia. apply andb_false_r.
    - apply Z.bits_inj'. intros n Hn. rewrite Z.land_spec, Z.shiftl_spec, Z.bits_0 by done.
      destruct (Z.lt_ge_cases n k); [by rewrite Z.testbit_neg_r by lia|].
      rewrite (testbit_bounded b k) by lia. apply andb_false_r. }
  assert (E : Z.lor (Z.shiftl (pclass p) (40 + 20)) (Z.shiftl (exponent p) 20) =
    Z.shiftl (Z.lor (Z.shiftl (pclass p) 40) (exponent p)) 20).
  { rewrite Z.shiftl_lor, Z.shiftl_shiftl by lia. done. }
  rewrite E, !Hor by lia. lia.
Qed.

(** C34: comparing the packed words compares the triples (class, exponent,
    mantissa) lexicographically, as the comment on the union requires. *)
Theorem priority_lexicographic a b :
  prio_ok (priority a) -> prio_ok (priority b) ->
  hasHigherPriorityThan a b = true <->
  let p := priority a in let q := priority b in
  pclass p < pclass q \/
  (pclass p = pclass q /\ (exponent p < exponent q \/
    (exponent p = exponent q /\ mantissa p < mantissa q))).
Proof.
  intros Ha Hb. unfold hasHigherPriorityThan. rewrite !whole_sum by done.
  destruct Ha as (? & ? & ?), Hb as (? & ? & ?). rewrite Z.ltb_lt. cbv zeta. lia.
Qed.

Lemma priority_lexicographic_witness :
  hasHigherPriorityThan (mkCDA (mkPrio 4 7 9) 0 10 10 1 1) (mkCDA (mkPrio 4 8 2) 0 10 10 1 1) = true <->
  let p := mkPrio 4 7 9 in let q := mkPrio 4 8 2 in
  pclass p < pclass q \/
  (pclass p = pclass q /\ (exponent p < exponent q \/
    (exponent p = exponent q /\ mantissa p < mantissa q))).
Proof. apply priority_lexicographic; repeat split; simpl; lia. Defined.

Definition in_range (pcls wght q pu : Z) : Prop :=
  PRIORITY_CLASS_KERNEL <= pcls <= PRIORITY_CLASS_UNRUNNABLE /\
  MIN_WEIGHT <= wght <= MAX_WEIGHT /\
  MIN_QUANTUM_MICROSECS <= q <= MAX_QUANTUM_MICROSECS /\
  MIN_PULSE_MICROSECS <= pu <= MAX_PULSE_MICROSECS.

(** C35: Create never fails an assertion of init: it returns a domain exactly
    when the class, weight, quantum and pulse are in range and memory is
    available, with priority fields zero and drag between 1 and MAX_WEIGHT, and
    otherwise an error status. *)
Theorem Create_total tps mem pcls wght q pu :
  exists r, Create tps mem pcls wght q pu = Some r /\
    match r with
    | inr c => in_range pcls wght q pu /\ mem = true /\ priority c = mkPrio pcls 0 0 /\
        consumedTicks c = 0 /\ weight c = wght /\ 1 <= drag c <= MAX_WEIGHT /\ prio_ok (priority c)
    | inl rc => _FAILURE rc = true /\ ~ (in_range pcls wght q pu /\ mem = true)
    end.
Proof.
  unfold Create, in_range, init.
  unfold PRIORITY_CLASS_KERNEL, PRIORITY_CLASS_UNRUNNABLE, MIN_WEIGHT, MAX_WEIGHT,
    MIN_QUANTUM_MICROSECS, MAX_QUANTUM_MICROSECS, MIN_PULSE_MICROSECS, MAX_PULSE_MICROSECS.
  repeat (zcase; simpl; try (eexists; split; [done|]; split; [done|]; lia)); try lia.
  destruct mem; simpl; (eexists; split; [done|]).
  - simpl. assert (1 <= 4096 / wght <= 4096).
    { split; [apply Z.div_le_lower_bound; lia|]. apply Z.div_le_upper_bound; nia. }
    unfold prio_ok. simpl. split_and!; (done || lia).
  - split; [done|]. by intros [_ ?].
Qed.

(** ** The mantissa does not overflow *)

Lemma shiftr_pos_iff x k : 0 <= k -> 0 <= x -> 0 < Z.shiftr x k <-> 2 ^ k <= x.
Proof.
  intros Hk Hx. rewrite Z.shiftr_div_pow2 by done.
  assert (0 < 2 ^ k) by (apply Z.pow_pos_nonneg; lia).
  split; intros H1.
  - destruct (Z.lt_ge_cases x (2 ^ k)); [|done]. rewrite Z.div_small in H1; lia.
  - apply Z.div_str_pos. lia.
Qed.

Lemma TickScale_loop_spec fuel : forall x s0,
  (0 < fuel)%nat -> 0 <= x < 2 ^ (20 + Z.of_nat fuel - 1) -> 0 <= s0 -> s0 + Z.of_nat fuel < 2 ^ 64 ->
  exists s, TickScale_loop fuel x s0 = Some (s0 + s) /\ 0 <= s <= Z.of_nat fuel /\ Z.shiftr x s < 2 ^ 20.
Proof.
  induction fuel as [|fuel IH]; intros x s0 H0 [Hx Hb] Hs Hf; [lia|]. simpl. unfold MANTISSA_BITS.
  destruct (Z.ltb_spec 0 (Z.shiftr x 20)) as [Hlt|Hge].
  - apply shiftr_pos_iff in Hlt; [|lia..]. rewrite uadd_small by lia.
    destruct (decide (fuel = 0%nat)) as [->|].
    { replace (20 + Z.of_nat 1 - 1) with 20 in Hb by lia. lia. }
    destruct (IH (Z.shiftr x 1) (s0 + 1)) as (s & -> & Hr & Hlt'); [lia| |lia|lia|].
    + split; [by apply Z.shiftr_nonneg|].
      rewrite Z.shiftr_div_pow2 by lia. apply Z.div_lt_upper_bound; [done|].
      replace (20 + Z.of_nat (S fuel) - 1) with (1 + (20 + Z.of_nat fuel - 1)) in Hb by lia.
      rewrite Z.pow_add_r in Hb by lia. done.
    + exists (s + 1). split; [f_equal; lia|]. split; [lia|].
      rewrite Z.shiftr_shiftr in Hlt' by lia. by replace (1 + s) with (s + 1) in Hlt' by lia.
  - exists 0. split; [f_equal; lia|]. split; [lia|]. rewrite Z.shiftr_0_r.
    destruct (Z.lt_ge_cases x (2 ^ 20)) as [|Hx2]; [done|].
    apply shiftr_pos_iff in Hx2; lia.
Qed.

(** [TickScale] keeps MAX_WEIGHT * 3 * interval within the mantissa field. *)
Lemma TickScale_spec I :
  0 <= I < 2 ^ 50 ->
  exists s, TickScale I = Some s /\ 0 <= s < 2 ^ 16 /\ 12288 * I < 2 ^ 20 * 2 ^ s.
Proof.
  intros HI. unfold TickScale. change (umul (MAX_WEIGHT / MIN_WEIGHT) 3) with 12288.
  rewrite umul_small by lia.
  destruct (TickScale_loop_spec 65 (12288 * I) 0) as (s & -> & Hs & Hlt); [lia| |lia|lia|].
  { split; [lia|]. change (20 + Z.of_nat 65 - 1) with 84. lia. }
  exists s. split; [done|]. split; [lia|].
  rewrite Z.shiftr_div_pow2 in Hlt by lia. assert (0 < 2 ^ s) by (apply Z.pow_pos_nonneg; lia).
  pose proof (Z.mul_succ_div_gt (12288 * I) (2 ^ s)). nia.
Qed.

(** A sequence of charges: the inflation at each and the ticks charged. *)
Fixpoint charge_all (s : Z) (c : t) (calls : list (Z * Z)) : option t :=
  match calls with
  | [] => Some c
  | (k, d) :: r => c' ← adjustPriority c k s d; charge_all s c' r
  end.

(** Inflation does not decrease, a domain is charged at least once in 64
    intervals, and at most one and a half intervals are charged at one
    inflation: the interval itself and the part of a quantum (at most half an
    interval) that was consumed before it began. *)
Fixpoint charges_ok (I e acc : Z) (calls : list (Z * Z)) : Prop :=
  match calls with
  | [] => True
  | (k, d) :: r =>
      0 <= d /\ e <= k < e + 64 /\ k < 2 ^ 40 /\
      let acc' := if k =? e then acc + d else d in
      2 * acc' <= 3 * I /\ charges_ok I k acc' r
  end.

(** The weighted mantissa is bounded by what was charged at this inflation and
    the decayed rest. *)
Definition mantissa_bound (I s : Z) (c : t) (acc : Z) : Prop :=
  2 * (mantissa (priority c) * 2 ^ s) <= drag c * (3 * I + 2 * acc).

Lemma decay_bound m j : 0 <= m -> 0 < j -> 2 * Z.shiftr m j <= m.
Proof.
  intros Hm Hj. rewrite Z.shiftr_div_pow2 by lia.
  assert (2 <= 2 ^ j) by (apply (Z.pow_le_mono_r 2 1); lia).
  pose proof (Z.mul_div_le m (2 ^ j)). pose proof (Z.div_pos m (2 ^ j)). nia.
Qed.

Lemma charge_bound d s : 0 <= d -> 0 <= s -> 0 <= Z.shiftr d s /\ Z.shiftr d s * 2 ^ s <= d.
Proof.
  intros Hd Hs. rewrite Z.shiftr_div_pow2 by done. assert (0 < 2 ^ s) by (apply Z.pow_pos_nonneg; lia).
  split; [apply Z.div_pos; lia|]. pose proof (Z.mul_div_le d (2 ^ s)). lia.
Qed.

Lemma adjustPriority_step I s c acc k d :
  0 <= I < 2 ^ 50 -> 0 <= s < 2 ^ 16 -> 12288 * I < 2 ^ 20 * 2 ^ s -> 1 <= drag c <= 4096 ->
  prio_ok (priority c) -> mantissa_bound I s c acc -> 0 <= 2 * acc <= 3 * I ->
  let e := exponent (priority c) in
  0 <= d -> e <= k < e + 64 -> k < 2 ^ 40 ->
  let acc' := if k =? e then acc + d else d in 2 * acc' <= 3 * I ->
  exists c', adjustPriority c k s d = Some c' /\ prio_ok (priority c') /\ drag c' = drag c /\
    exponent (priority c') = k /\ mantissa_bound I s c' acc' /\ 0 <= 2 * acc'.
Proof.
  intros HI Hs Hsc Hdr (Hp1 & Hp2 & Hp3) Hb Hacc e Hd Hk Hk40 acc' Hacc'.
  unfold mantissa_bound in *. set (m := mantissa (priority c)) in *.
  assert (Hps : 0 < 2 ^ s) by (apply Z.pow_pos_nonneg; lia).
  assert (Hacc0 : 0 <= acc' /\ d <= acc') by (unfold acc'; destruct (k =? e); lia).
  unfold adjustPriority. fold e m. rewrite (usub_small k e) by (unfold e in *; lia).
  destruct (Z.ltb_spec (k - e) 64); [|lia]. cbn [assertK mbind option_bind].
  rewrite (umul_small (drag c) d) by nia.
  pose proof (charge_bound (drag c * d) s ltac:(nia) ltac:(lia)) as [Hc0 Hc].
  set (q := Z.shiftr (drag c * d) s) in *.
  assert (Hm0 : 0 <= Z.shiftr m (k - e) <= m).
  { split; [apply Z.shiftr_nonneg; lia|]. destruct (decide (k = e)) as [->|].
    - by rewrite Z.sub_diag, Z.shiftr_0_r.
    - pose proof (decay_bound m (k - e) ltac:(lia) ltac:(lia)).
      pose proof (proj2 (Z.shiftr_nonneg m (k - e)) (proj1 Hp3)). lia. }
  assert (Hnew : 2 * ((Z.shiftr m (k - e) + q) * 2 ^ s) <= drag c * (3 * I + 2 * acc')).
  { unfold acc'. destruct (Z.eqb_spec k e) as [->|].
    - rewrite Z.sub_diag, Z.shiftr_0_r. nia.
    - pose proof (decay_bound m (k - e) ltac:(lia) ltac:(lia)). nia. }
  assert (Hfit : Z.shiftr m (k - e) + q < 2 ^ 20).
  { assert ((Z.shiftr m (k - e) + q) * 2 ^ s <= 12288 * I) by nia. nia. }
  rewrite uadd_small by lia. unfold MANTISSA_BITS, EXPONENT_BITS.
  assert (E1 : Z.shiftr (Z.shiftr m (k - e) + q) 20 = 0).
  { rewrite Z.shiftr_div_pow2 by lia. apply Z.div_small. lia. }
  assert (E2 : Z.shiftr k 40 = 0).
  { rewrite Z.shiftr_div_pow2 by lia. apply Z.div_small. unfold e in *. lia. }
  rewrite E1, E2. simpl. eexists. split; [done|]. simpl. split; [|split; [done|split; [done|split; [done|lia]]]].
  unfold prio_ok. simpl. unfold e in *. lia.
Qed.

(** The gap of 64: a domain that was last charged 64 or more inflation
    intervals ago makes the shift count reach the width of the word, which the
    language leaves undefined. *)
Lemma adjustPriority_long_idle c inflation tickScale delta :
  0 <= exponent (priority c) -> exponent (priority c) + 64 <= inflation < 2 ^ 64 ->
  adjustPriority c inflation tickScale delta = None.
Proof.
  intros H0 Hk. unfold adjustPriority. rewrite usub_small by lia.
  destruct (Z.ltb_spec (inflation - exponent (priority c)) 64); [lia|done].
Qed.

(** C33: the scale chosen by TickScale keeps the mantissa field from overflowing.
    Take a domain whose mantissa is 0, as Create leaves it, with a drag of 1 to
    4096, and an inflation interval below 2^50 ticks.  For any sequence of
    priority adjustments in which the inflation does not decrease, stays below
    2^40 (the width of the exponent field) and at each adjustment is less than
    64 above that of the one before (a longer gap shifts by the word size or
    more, lemma adjustPriority_long_idle), and in which at most one and a half
    intervals are charged at any one inflation, no overflow assertion fails and
    the fields stay in their widths. *)
Theorem mantissa_never_overflows I s c calls :
  0 <= I < 2 ^ 50 -> TickScale I = Some s -> prio_ok (priority c) -> mantissa (priority c) = 0 ->
  1 <= drag c <= 4096 -> charges_ok I (exponent (priority c)) 0 calls ->
  exists c', charge_all s c calls = Some c' /\ prio_ok (priority c').
Proof.
  intros HI HT Hp Hm Hdr Hc.
  destruct (TickScale_spec I HI) as (s' & E & Hs & Hsc). rewrite HT in E. injection E as <-.
  assert (Hb : mantissa_bound I s c 0) by (unfold mantissa_bound; rewrite Hm; nia).
  assert (Hacc : 0 <= 2 * 0 <= 3 * I) by lia. clear Hm. revert c Hp Hdr Hb Hc Hacc. generalize 0 as acc.
  induction calls as [|[k d] r IH]; intros acc c Hp Hdr Hb Hc Hacc; simpl; [by eauto|].
  destruct Hc as (Hd & Hk & Hk40 & Ha & Hr).
  destruct (adjustPriority_step I s c acc k d HI Hs Hsc Hdr Hp Hb ltac:(lia) Hd Hk Hk40 Ha)
    as (c' & -> & Hp' & Hdr' & He & Hb' & Ha'). simpl.
  eapply IH; [done|by rewrite Hdr'|exact Hb'|by rewrite He|lia].
Qed.

Lemma mantissa_never_overflows_witness :
  exists c', charge_all 14 (mkCDA (mkPrio 4 0 0) 0 10 10 4096 1) [(0, 500000); (1, 1000000); (3, 1500000)]
    = Some c' /\ prio_ok (priority c').
Proof.
  apply (mantissa_never_overflows 1000000); [lia|by vm_compute| | |simpl; lia|].
  - repeat split; simpl; lia.
  - done.
  - simpl. lia.
Defined.

End CPUDomainAnnex.
