(* ===== verification/ProcessAnnex.v ===== *)
(** * ProcessAnnex: the scheduling state of a process on one processor,
    os/kernel/exception/ProcessAnnex.H

    The fields of an annex that decide whether it may be dispatched and for how
    long.  The link cpuDomainNext of its domain's ring is kept with the ring
    (CPUDomainRing.v).  Times are 64-bit words and wrap. *)

From stdpp Require Import base numbers option list.
From S2P Require Import K42 Prelude.

Module ProcessAnnex.

(** [hasWork] and [interrupts] are fields of the dispatcher the annex points
    to. *)
Record info := mkInfo {
  cpuDomainAnnex : Z;
  hasWork : bool;
  interrupts : Z;
  reservedThread : Z;
  awaitingDispatch : bool;
  terminator : Z;
  dispatchTicks : Z;
  pulseTicks : Z;
  warningTicks : Z;
}.

(** Scheduler::NullThreadID, and SysTime(-1). *)
Definition NullThreadID : Z := 2 ^ 64 - 1.
Definition noTime : Z := 2 ^ 64 - 1.

(** sys/SoftIntr.H *)
Definition PREEMPT : Z := 2.
Definition PULSE : Z := 12.

Definition init (hasWork : bool) : info := mkInfo NULL hasWork 0 NULL false NullThreadID 0 0 noTime.

(** ** One field at a time *)

Definition set_cda (d : Z) (i : info) : info :=
  mkInfo d (hasWork i) (interrupts i) (reservedThread i) (awaitingDispatch i) (terminator i)
    (dispatchTicks i) (pulseTicks i) (warningTicks i).
Definition set_work (w : bool) (ints : Z) (i : info) : info :=
  mkInfo (cpuDomainAnnex i) w ints (reservedThread i) (awaitingDispatch i) (terminator i)
    (dispatchTicks i) (pulseTicks i) (warningTicks i).
Definition set_thread (th : Z) (aw : bool) (tm : Z) (i : info) : info :=
  mkInfo (cpuDomainAnnex i) (hasWork i) (interrupts i) th aw tm
    (dispatchTicks i) (pulseTicks i) (warningTicks i).
Definition set_ticks (dt pt wt : Z) (i : info) : info :=
  mkInfo (cpuDomainAnnex i) (hasWork i) (interrupts i) (reservedThread i) (awaitingDispatch i)
    (terminator i) dt pt wt.

(** ** May it run? *)

(** SoftIntr::pending. *)
Definition pending (i : info) : bool := negb (interrupts i =? 0).

Definition stillRunnable (i : info) : bool := (reservedThread i =? NULL) && (hasWork i || pending i).

Definition awaitingDispatchInKernel (i : info) : bool := awaitingDispatch i.

Definition terminationPending (i : info) : bool := negb (Z.lxor (terminator i) NullThreadID =? 0).

(** SoftIntr::fetchAndSet on the dispatcher's flags. *)
Definition setInterrupt (intr : Z) (i : info) : info :=
  set_work (hasWork i) (Z.lor (interrupts i) (2 ^ intr)) i.

(** ** Virtual time *)

Definition addTime (delta : Z) (i : info) : info :=
  set_ticks (uadd (dispatchTicks i) delta) (pulseTicks i) (warningTicks i) i.

Definition setWarning (warningQuantum : Z) (i : info) : info :=
  set_ticks (dispatchTicks i) (pulseTicks i) (uadd (dispatchTicks i) warningQuantum) i.

Definition clearWarning (i : info) : info := set_ticks (dispatchTicks i) (pulseTicks i) noTime i.

Definition hasWarning (i : info) : bool := negb (warningTicks i =? noTime).

Definition warningExpired (i : info) : bool := warningTicks i <=? dispatchTicks i.

Definition pulseNeeded (i : info) : bool := pulseTicks i <=? dispatchTicks i.

Definition resetPulse (pulseInterval : Z) (i : info) : info :=
  set_ticks (dispatchTicks i) (uadd (dispatchTicks i) pulseInterval) (warningTicks i) i.

(** do { pulseTicks += pulseInterval; } while (pulseTicks < dispatchTicks); *)
Fixpoint pulse_loop (fuel : nat) (pulseInterval dt pt : Z) : option Z :=
  match fuel with
  | O => None
  | S fuel =>
      let pt := uadd pt pulseInterval in
      if pt <? dt then pulse_loop fuel pulseInterval dt pt else Some pt
  end.

Definition reschedulePulse (pulseInterval : Z) (i : info) : option info :=
  let fuel := S (Z.to_nat ((dispatchTicks i - pulseTicks i) / pulseInterval)) in
  pt ← pulse_loop fuel pulseInterval (dispatchTicks i) (pulseTicks i);
  Some (set_ticks (dispatchTicks i) pt (warningTicks i) i).

Definition getTimeout (i : info) : option Z :=
  _ ← assertK (dispatchTicks i <=? warningTicks i);
  _ ← assertK (dispatchTicks i <=? pulseTicks i);
  let warning := usub (warningTicks i) (dispatchTicks i) in
  let pulse := usub (pulseTicks i) (dispatchTicks i) in
  Some (if warning <? pulse then warning else pulse).

(** ** The loop over the pulses *)

Lemma pulse_loop_spec I dt : forall fuel pt,
  0 < I < 2 ^ 62 -> 0 <= pt -> 0 <= dt < 2 ^ 62 -> pt <= dt ->
  (Z.to_nat ((dt - pt) / I) < fuel)%nat ->
  exists pt', pulse_loop fuel I dt pt = Some pt' /\ dt <= pt' <= dt + I.
Proof.
  induction fuel as [|fuel IH]; intros pt HI Hpt Hdt Hle Hf; [lia|]. cbn [pulse_loop].
  rewrite uadd_small by lia. destruct (Z.ltb_spec (pt + I) dt) as [Hlt|Hge].
  - apply IH; [lia..|].
    assert (E : (dt - pt) / I = (dt - (pt + I)) / I + 1).
    { replace (dt - pt) with ((dt - (pt + I)) + 1 * I) by lia. rewrite Z.div_add by lia. lia. }
    pose proof (Z.div_pos (dt - (pt + I)) I ltac:(lia) ltac:(lia)). lia.
  - exists (pt + I). split; [done|]. lia.
Qed.

(** The next pulse is at or after the present, and at most one interval away;
    the loop ends. *)
Lemma reschedulePulse_spec I i :
  0 < I < 2 ^ 62 -> 0 <= pulseTicks i -> 0 <= dispatchTicks i < 2 ^ 62 -> pulseNeeded i = true ->
  exists pt, reschedulePulse I i = Some (set_ticks (dispatchTicks i) pt (warningTicks i) i) /\
    dispatchTicks i <= pt <= dispatchTicks i + I.
Proof.
  intros HI Hp Hd Hn%Z.leb_le. unfold reschedulePulse.
  destruct (pulse_loop_spec I (dispatchTicks i) (S (Z.to_nat ((dispatchTicks i - pulseTicks i) / I)))
    (pulseTicks i)) as (pt & -> & H); [lia..|]. simpl. eauto.
Qed.

End ProcessAnnex.
