(* ===== verification/CPUDomainRing.v ===== *)
(** * CPUDomainRing: the ring of process annexes of a CPU domain,
    addProcessAnnex, removeProcessAnnex and stillRunnable of
    os/kernel/exception/CPUDomainAnnex.C

    The annexes of a domain are linked in a ring through cpuDomainNext, and
    currentPA points into it (or is null).  The ring is kept at pointer level.
    Whether an annex may run is decided by its scheduling state
    (ProcessAnnex.v).  The calls made on the dispatch queue are recorded as
    events, in order; DispatchQueue.v carries them out. *)

From stdpp Require Import base numbers option gmap list.
From S2P Require Import K42 Prelude ProcessAnnex.

Module CPUDomainRing.

Record PA := mkPA { cpuDomainNext : Z; annex : ProcessAnnex.info }.

(** Calls on exceptionLocal.dispatchQueue. *)
Inductive event :=
| StatPARunnable | StatPANotRunnable
| AddCPUDomainAnnex | RemoveCPUDomainAnnex
| DQRemoveProcessAnnex (pa : Z).

(** The store of annexes, currentPA, and the calls made so far. *)
Record t := mkRing { store : gmap Z PA; currentPA : Z; events : list event }.

#[export] Instance pa_linked : Linked PA ProcessAnnex.info := {|
  next := cpuDomainNext; set_next := fun p n => mkPA p (annex n);
  payload := annex;
  next_set_next := fun _ _ => eq_refl; payload_set_next := fun _ _ => eq_refl;
|}.

Definition addProcessAnnex (pulseInterval : Z) (s : t) (pa : Z) : option t :=
  let ev := events s ++ [StatPARunnable] in
  n0 ← store s !! pa;
  let n := mkPA (cpuDomainNext n0) (ProcessAnnex.resetPulse pulseInterval (annex n0)) in
  let h0 := <[pa := n]> (store s) in
  if currentPA s =? NULL then
    Some (mkRing (<[pa := set_next pa n]> h0) pa (ev ++ [AddCPUDomainAnnex]))
  else
    c ← h0 !! currentPA s;
    let h1 := <[pa := set_next (cpuDomainNext c) n]> h0 in
    c1 ← h1 !! currentPA s;
    Some (mkRing (<[currentPA s := set_next pa c1]> h1) (currentPA s) ev).

(** while (prev->cpuDomainNext != pa) { prev = prev->cpuDomainNext; assert(prev != currentPA); } *)
Fixpoint find_prev (fuel : nat) (h : gmap Z PA) (cur pa prev : Z) : option Z :=
  match fuel with
  | O => None
  | S fuel =>
      n ← h !! prev;
      if cpuDomainNext n =? pa then Some prev
      else
        _ ← assertK (negb (cpuDomainNext n =? cur));
        find_prev fuel h cur pa (cpuDomainNext n)
  end.

Definition removeProcessAnnex (s : t) (pa : Z) : option t :=
  let ev := events s ++ [DQRemoveProcessAnnex pa] in
  _ ← assertK (negb (currentPA s =? NULL));
  prev ← find_prev (S (size (store s))) (store s) (currentPA s) pa (currentPA s);
  '(h1, cur1, ev1) ←
    (if prev =? pa then Some (store s, NULL, ev ++ [RemoveCPUDomainAnnex])
     else
       p ← store s !! prev;
       x ← store s !! pa;
       Some (<[prev := set_next (cpuDomainNext x) p]> (store s),
             if currentPA s =? pa then cpuDomainNext x else currentPA s, ev));
  n ← h1 !! pa;
  Some (mkRing (<[pa := set_next NULL n]> h1) cur1 (ev1 ++ [StatPANotRunnable])).

Definition canRun (n : PA) : bool :=
  ProcessAnnex.stillRunnable (annex n) || ProcessAnnex.awaitingDispatchInKernel (annex n).

(** The loop over the other annexes: whether a runnable one was found. *)
Fixpoint runnable_loop (fuel : nat) (s : t) (pa : Z) : option (bool * t) :=
  match fuel with
  | O => None
  | S fuel =>
      let cur := currentPA s in
      if pa =? cur then
        c ← store s !! cur;
        Some (false, mkRing (<[cur := set_next NULL c]> (store s)) NULL (events s ++ [StatPANotRunnable]))
      else
        n ← store s !! pa;
        if canRun n then
          c ← store s !! cur;
          Some (true, mkRing (<[cur := set_next pa c]> (store s)) pa (events s))
        else
          runnable_loop fuel
            (mkRing (<[pa := set_next NULL n]> (store s)) cur (events s ++ [StatPANotRunnable]))
            (cpuDomainNext n)
  end.

Definition stillRunnable (s : t) : option (bool * t) :=
  _ ← assertK (negb (currentPA s =? NULL));
  c ← store s !! currentPA s;
  if canRun c then Some (true, s)
  else runnable_loop (S (size (store s))) s (cpuDomainNext c).

(** ** The ring *)

(** [ring h l]: [l] is the ring in order, from the current annex on. *)
Definition ring (h : gmap Z PA) (cur : Z) (l : list (Z * ProcessAnnex.info)) : Prop :=
  match l with
  | [] => cur = NULL
  | (a, _) :: _ => cur = a /\ chain h a l a /\ NoDup l.*1
  end.

Definition can_run (x : Z * ProcessAnnex.info) : bool :=
  ProcessAnnex.stillRunnable x.2 || ProcessAnnex.awaitingDispatchInKernel x.2.

Lemma chain_len_nodup h p l q : chain h p l q -> NoDup l.*1 -> (length l <= size h)%nat.
Proof.
  intros Hc Hnd. rewrite <- (length_fmap fst l), <- (size_dom h).
  rewrite <- (size_list_to_set (C := gset Z) l.*1) by done.
  apply subseteq_size. intros a. rewrite elem_of_list_to_set, list_elem_of_fmap.
  intros ([b e] & -> & Hin). destruct (chain_elem _ _ _ _ _ _ Hc Hin) as (_ & n & Hn & _).
  apply elem_of_dom. eauto.
Qed.

(** The ring after pa is added: pa alone, or pa behind the current annex. *)
Definition ring_add {A} (x : A) (l : list A) : list A :=
  match l with [] => [x] | y :: l => y :: x :: l end.

Lemma add_ring I h cur l pa n ev :
  ring h cur l -> h !! pa = Some n -> pa <> NULL -> pa ∉ l.*1 ->
  exists h', addProcessAnnex I (mkRing h cur ev) pa =
      Some (mkRing h' (default pa (fst <$> head l))
        (ev ++ StatPARunnable :: match l with [] => [AddCPUDomainAnnex] | _ => [] end)) /\
    ring h' (default pa (fst <$> head l)) (ring_add (pa, ProcessAnnex.resetPulse I (annex n)) l) /\
    (forall b, b <> pa -> head (l.*1) <> Some b -> h' !! b = h !! b).
Proof.
  intros Hr Hn Hp Hnin. unfold addProcessAnnex. cbn [store currentPA events]. rewrite Hn.
  cbn [mbind option_bind]. set (n' := mkPA _ _). destruct l as [|[a d] l]; simpl in *.
  - subst cur. simpl. eexists. split; [by rewrite <- app_assoc|]. split.
    + split; [done|]. split; [|apply NoDup_singleton]. split_and!; try done.
      exists (set_next pa n'). rewrite lookup_insert_eq. by split_and!.
    + intros b Hb _. by rewrite !lookup_insert_ne by done.
  - destruct Hr as (-> & (_ & Ha & c & Hc & Hd & Hch) & Hnd).
    apply NoDup_cons in Hnd as [Hal Hnd]. apply not_elem_of_cons in Hnin as [Hpa Hpl].
    rewrite (proj2 (Z.eqb_neq _ _) Ha), lookup_insert_ne, Hc by done. simpl.
    rewrite !lookup_insert_ne, Hc by done. simpl. eexists. split; [done|]. split.
    + split; [done|]. split.
      * split_and!; try done. exists (set_next pa c). rewrite lookup_insert_eq. split_and!; try done.
        exists (set_next (cpuDomainNext c) n'). rewrite lookup_insert_ne, lookup_insert_eq by done.
        split_and!; try done. change (next (set_next (cpuDomainNext c) n')) with (next c).
        by apply chain_insert_ne, chain_insert_ne, chain_insert_ne.
      * csimpl. apply NoDup_cons. split; [apply not_elem_of_cons; split; [congruence|done]|].
        by apply NoDup_cons.
    + intros b Hb Hab. by rewrite !lookup_insert_ne by congruence.
Qed.

Lemma elem_of_tail {A} (x : A) l : x ∈ tail l -> x ∈ l.
Proof. destruct l; [done|]. intros. by right. Qed.

(** The loop finds the node whose next pointer is the target. *)
Lemma find_prev_spec h cur pa l x : forall p d fuel,
  chain h p (l ++ [(x, d)]) pa ->
  (forall a, a ∈ tail (l ++ [(x, d)]).*1 -> a <> pa /\ a <> cur) ->
  (length l < fuel)%nat -> find_prev fuel h cur pa p = Some x.
Proof.
  induction l as [|[a e] l IH]; intros p d fuel Hc Hne Hf; (destruct fuel as [|fuel]; [lia|]); simpl.
  - destruct Hc as (-> & _ & n & Hn & _ & Hq). simpl in Hq. rewrite Hn. simpl.
    change (cpuDomainNext n) with (next n). by rewrite Hq, Z.eqb_refl.
  - destruct Hc as (-> & _ & n & Hn & _ & Hc). rewrite Hn. simpl.
    assert (Hb : exists b, next n = b /\ b <> pa /\ b <> cur).
    { destruct l as [|[b f] l]; pose proof Hc as (Hb & _).
      - exists x. split; [done|]. apply Hne. simpl. by left.
      - exists b. split; [done|]. apply Hne. simpl. by left. }
    destruct Hb as (b & Hb & Hb1 & Hb2). change (cpuDomainNext n) with (next n) in *. rewrite Hb in *.
    rewrite (proj2 (Z.eqb_neq _ _) Hb1), (proj2 (Z.eqb_neq _ _) Hb2). simpl.
    apply (IH b d); [done| |simpl in Hf; lia].
    intros a' Ha'. apply Hne. by apply elem_of_tail.
Qed.

#[global] Arguments find_prev : simpl never.

Lemma ring_split h cur l pa :
  ring h cur l -> pa ∈ l.*1 ->
  exists l1 d l2, l = l1 ++ (pa, d) :: l2 /\ pa ∉ l1.*1 /\ pa ∉ l2.*1.
Proof.
  intros Hr ([b d] & -> & Hin)%list_elem_of_fmap. apply list_elem_of_split in Hin as (l1 & l2 & ->).
  assert (Hnd : NoDup (l1 ++ (b, d) :: l2).*1) by (by destruct l1 as [|[? ?] ?]; destruct Hr as (_ & _ & ?)).
  exists l1, d, l2. split; [done|]. rewrite fmap_app in Hnd. csimpl in Hnd.
  apply NoDup_app in Hnd as (_ & Hd & Hnd). apply NoDup_cons in Hnd as [? _]. split; [|done].
  intros Hin. apply (Hd _ Hin). by left.
Qed.

(** Removing the current annex of a ring with others. *)
Lemma remove_current h a d x e l :
  chain h a ((a, d) :: l ++ [(x, e)]) a -> NoDup ((a, d) :: l ++ [(x, e)]).*1 ->
  exists n p, h !! a = Some n /\ h !! x = Some p /\ x <> a /\
    let h1 := <[x := set_next (next n) p]> h in
    chain (<[a := set_next NULL n]> h1) (next n) (l ++ [(x, e)]) (next n).
Proof.
  intros (_ & Ha & n & Hn & _ & Hc) Hnd. csimpl in Hnd. apply NoDup_cons in Hnd as [Hal Hnd].
  destruct (chain_last _ _ _ _ _ _ Hc) as (p & Hp & _ & _).
  exists n, p. split; [done|]. split; [done|]. split; [intros ->; apply Hal; rewrite fmap_app; apply elem_of_app; right; by left|].
  simpl. apply chain_insert_ne; [done|]. by apply chain_relink with a.
Qed.

(** Removing another annex. *)
Lemma remove_other h a l1 x e pa d l2 :
  chain h a (l1 ++ (x, e) :: (pa, d) :: l2) a -> NoDup (l1 ++ (x, e) :: (pa, d) :: l2).*1 ->
  exists n p, h !! pa = Some n /\ h !! x = Some p /\ x <> pa /\
    let h1 := <[x := set_next (next n) p]> h in
    chain (<[pa := set_next NULL n]> h1) a (l1 ++ (x, e) :: l2) a.
Proof.
  intros Hc Hnd. change ((x, e) :: (pa, d) :: l2) with ([(x, e)] ++ (pa, d) :: l2) in Hc, Hnd.
  rewrite app_assoc in Hc, Hnd. apply chain_app in Hc as (m & Hc1 & (-> & Hpa & n & Hn & _ & Hc2)).
  rewrite fmap_app in Hnd. csimpl in Hnd. apply NoDup_app in Hnd as (Hnd1 & Hdis & Hnd2).
  apply NoDup_cons in Hnd2 as [Hpl2 _].
  assert (Hp1 : pa ∉ (l1 ++ [(x, e)]).*1) by (intros Hin; apply (Hdis _ Hin); by left).
  destruct (chain_last _ _ _ _ _ _ Hc1) as (p & Hp & _ & _).
  exists n, p. split; [done|]. split; [done|].
  split; [intros ->; apply Hp1; rewrite fmap_app; apply elem_of_app; right; by left|]. cbv zeta.
  change ((x, e) :: l2) with ([(x, e)] ++ l2). rewrite app_assoc. apply chain_app. exists (next n). split.
  - apply chain_insert_ne; [done|]. by apply chain_relink with pa.
  - apply chain_insert_ne; [done|]. apply chain_insert_ne; [|done].
    intros Hin. apply (Hdis x); [rewrite fmap_app; apply elem_of_app; right; by left|by right].
Qed.

Lemma ring_chain h cur l : ring h cur l -> l <> [] -> chain h cur l cur /\ NoDup l.*1 /\ cur <> NULL.
Proof.
  destruct l as [|[a d] l]; [done|]. intros (-> & Hc & Hnd) _. split; [done|]. split; [done|].
  by destruct Hc as (_ & ? & _).
Qed.

Lemma ring_intro h p l : l <> [] -> chain h p l p -> NoDup l.*1 -> ring h p l.
Proof. destruct l as [|[a d] l]; [done|]. intros _ Hc Hnd. pose proof Hc as (-> & _). done. Qed.

(** The next annex after a node of the ring. *)
Lemma find_prev_ring h cur l1 pa d l2 :
  ring h cur (l1 ++ (pa, d) :: l2) ->
  find_prev (S (size h)) h cur pa cur = Some (last_addr (last_addr pa l2) l1).
Proof.
  intros Hr. destruct (ring_chain _ _ _ Hr) as (Hc & Hnd & _); [by destruct l1|].
  pose proof (chain_len_nodup _ _ _ _ Hc Hnd) as Hlen. rewrite length_app in Hlen. simpl in Hlen.
  rewrite fmap_app in Hnd. csimpl in Hnd. apply NoDup_app in Hnd as (Hnd1 & Hdis & Hnd2).
  apply NoDup_cons in Hnd2 as [Hp2 _].
  destruct l1 as [|[x e] l1 _] using rev_ind.
  - (* pa is the current annex: its predecessor is the last of the ring *)
    simpl in *. destruct Hr as (-> & _ & _). destruct l2 as [|[x e] l2 _] using rev_ind.
    + apply (find_prev_spec h pa pa [] pa pa d); [done| |simpl; lia]. by intros a ?%not_elem_of_nil.
    + rewrite last_addr_snoc. rewrite length_app in Hlen. simpl in Hlen.
      apply (find_prev_spec h pa pa ((pa, d) :: l2) x pa e); [done| |simpl; lia].
      simpl. intros a Ha. split; intros ->; by apply Hp2.
  - rewrite last_addr_snoc. apply chain_app in Hc as (m & Hc & (-> & _)).
    rewrite length_app in Hlen. simpl in Hlen.
    apply (find_prev_spec h cur pa l1 x cur e); [done| |lia].
    intros a Ha. split.
    + intros ->. apply (Hdis pa); [by apply elem_of_tail|]. by left.
    + intros ->. destruct l1 as [|[b f] l1]; simpl in *; [by apply not_elem_of_nil in Ha|].
      destruct Hc as (-> & _). by apply NoDup_cons in Hnd1 as [? _].
Qed.

(** RemoveProcessAnnex takes exactly the given annex out of the ring: the
    search loop ends without failing its assertion, the other annexes stay in
    ring order, the next one becomes current when the current one is removed,
    the removed annex is marked not ready, and removing the last one empties
    the ring and takes the domain off the dispatch queue. *)
Theorem removeProcessAnnex_ring h cur l1 pa d l2 ev :
  ring h cur (l1 ++ (pa, d) :: l2) ->
  exists h' cur' ev', removeProcessAnnex (mkRing h cur ev) pa = Some (mkRing h' cur' (ev ++ ev')) /\
    ring h' cur' (l1 ++ l2) /\ (cpuDomainNext <$> h' !! pa) = Some NULL /\
    ev' = DQRemoveProcessAnnex pa ::
      match l1 ++ l2 with [] => [RemoveCPUDomainAnnex] | _ => [] end ++ [StatPANotRunnable].
Proof.
  intros Hr. destruct (ring_chain _ _ _ Hr) as (Hc & Hnd & Hcur); [by destruct l1|].
  unfold removeProcessAnnex. cbn [store currentPA events].
  rewrite (proj2 (Z.eqb_neq _ _) Hcur), (find_prev_ring _ _ _ _ _ _ Hr). cbn [negb assertK mbind option_bind].
  destruct (chain_elem _ _ _ _ pa d Hc ltac:(apply elem_of_app; right; by left)) as (Hpa & n & Hn & _).
  destruct l1 as [|[x e] l1 _] using rev_ind; [destruct l2 as [|[x e] l2 _] using rev_ind|].
  - unfold last_addr. simpl. rewrite Z.eqb_refl. simpl. rewrite Hn. simpl.
    do 3 eexists. split; [by rewrite <- !app_assoc|]. split; [done|]. split; [|done].
    by rewrite lookup_insert_eq.
  - simpl in *. destruct Hr as (-> & _ & _).
    destruct (remove_current h pa d x e l2 Hc Hnd) as (n' & p & Hn' & Hp & Hxp & Hc').
    assert (n' = n) as -> by congruence. cbv zeta in Hc'.
    rewrite last_addr_snoc. unfold last_addr. simpl.
    rewrite (proj2 (Z.eqb_neq _ _) Hxp), Hp, Hn. simpl. rewrite Z.eqb_refl, lookup_insert_ne, Hn by done.
    simpl. csimpl in Hnd. apply NoDup_cons in Hnd as [_ Hnd].
    do 3 eexists. split; [by rewrite <- app_assoc|]. split; [|split; [by rewrite lookup_insert_eq|by destruct l2]].
    change (cpuDomainNext n) with (next n). apply ring_intro; [by destruct l2|done..].
  - rewrite <- app_assoc in Hc, Hnd. simpl in Hc, Hnd.
    destruct (remove_other h cur l1 x e pa d l2 Hc Hnd) as (n' & p & Hn' & Hp & Hxp & Hc').
    assert (n' = n) as -> by congruence. cbv zeta in Hc'.
    rewrite last_addr_snoc, (proj2 (Z.eqb_neq _ _) Hxp), Hp, Hn. simpl.
    assert (Hcp : cur <> pa).
    { intros ->. destruct l1 as [|[b f] l1]; simpl in *; destruct Hc as (E & _); subst; csimpl in Hnd; apply NoDup_cons in Hnd as [Hx _]; apply Hx;
        rewrite ?fmap_app; csimpl; rewrite ?elem_of_app, ?elem_of_cons; tauto. }
    rewrite (proj2 (Z.eqb_neq _ _) Hcp), lookup_insert_ne, Hn by done. simpl.
    do 3 eexists. split; [by rewrite <- app_assoc|].
    rewrite <- app_assoc. simpl. split; [|split; [by rewrite lookup_insert_eq|by destruct l1]].
    assert (Hnd' : NoDup (l1 ++ (x, e) :: l2).*1).
    { assert (Hperm : l1 ++ (x, e) :: (pa, d) :: l2 ≡ₚ (pa, d) :: l1 ++ (x, e) :: l2)
        by solve_Permutation.
      rewrite Hperm in Hnd. csimpl in Hnd. by apply NoDup_cons in Hnd as [_ ?]. }
    apply ring_intro; [by destruct l1|done..].
Qed.

(** An annex with work and one without. *)
Definition busy := ProcessAnnex.init true.
Definition idle := ProcessAnnex.init false.

Lemma removeProcessAnnex_ring_witness :
  let h : gmap Z PA := {[ 16 := mkPA 32 busy; 32 := mkPA 16 idle ]} in
  exists h' cur' ev', removeProcessAnnex (mkRing h 16 []) 16 = Some (mkRing h' cur' ([] ++ ev')) /\
    ring h' cur' ([] ++ [(32, idle)]) /\ (cpuDomainNext <$> h' !! 16) = Some NULL /\
    ev' = DQRemoveProcessAnnex 16 ::
      match [] ++ [(32, idle)] with [] => [RemoveCPUDomainAnnex] | _ => [] end
      ++ [StatPANotRunnable].
Proof.
  apply (removeProcessAnnex_ring _ _ [] 16 busy). split; [done|]. split.
  - repeat (split; [done|]; split; [done|]; eexists; split_and!; [done..|]). done.
  - by apply (bool_decide_unpack _); vm_compute.
Defined.

(** ** stillRunnable *)

Lemma runnable_loop_spec cur c d dead live : forall h ev fuel p,
  chain h p (dead ++ live) cur -> NoDup (cur :: (dead ++ live).*1) -> cur <> NULL ->
  h !! cur = Some c -> payload c = d ->
  Forall (fun x => can_run x = false) dead ->
  match live with [] => True | x :: _ => can_run x = true end ->
  (length dead < fuel)%nat ->
  exists h', runnable_loop fuel (mkRing h cur ev) p =
      Some (match live with [] => false | _ => true end,
            mkRing h' (default NULL (fst <$> head live))
              (ev ++ replicate (length dead + match live with [] => 1 | _ => 0 end) StatPANotRunnable)) /\
    ring h' (default NULL (fst <$> head live))
      match live with [] => [] | _ => live ++ [(cur, d)] end /\
    (forall a, a ∈ dead.*1 -> cpuDomainNext <$> h' !! a = Some NULL) /\
    (live = [] -> cpuDomainNext <$> h' !! cur = Some NULL) /\
    (forall a, a <> cur -> a ∉ dead.*1 -> h' !! a = h !! a).
Proof.
  induction dead as [|[a f] dead IH]; intros h ev fuel p Hc Hnd Hcur Hcc Hd Hdead Hlive Hf;
    (destruct fuel as [|fuel]; [lia|]); cbn [runnable_loop currentPA store events].
  - simpl in Hc, Hnd. destruct live as [|[b g] live].
    + simpl in Hc. subst p. rewrite Z.eqb_refl, Hcc. simpl. eexists. split; [done|]. split; [done|].
      split; [by intros a ?%not_elem_of_nil|]. split; [intros _; by rewrite lookup_insert_eq|].
      intros a Ha _. by rewrite lookup_insert_ne.
    + csimpl in Hnd. apply NoDup_cons in Hnd as [Hcl Hnd]. apply not_elem_of_cons in Hcl as Hcb.
      pose proof Hc as (-> & Hb & n & Hn & Hg & Hc2).
      rewrite (proj2 (Z.eqb_neq b cur)) by (destruct Hcb; congruence). rewrite Hn. simpl.
      assert (Hrun : canRun n = true).
      { rewrite <- Hlive. unfold can_run. simpl. by rewrite <- Hg. }
      rewrite Hrun, Hcc. simpl. eexists. split; [by rewrite app_nil_r|].
      split; [|split; [by intros a ?%not_elem_of_nil|split; [done|intros a Ha _; by rewrite lookup_insert_ne]]].
      apply (ring_intro _ _ ((b, g) :: live ++ [(cur, d)])); [done| |].
      * rewrite app_comm_cons. eapply chain_snoc with (set_next b c); [|done| |done|done].
        -- by apply chain_insert_ne.
        -- by rewrite lookup_insert_eq.
      * csimpl. rewrite fmap_app. csimpl. rewrite app_comm_cons.
        apply NoDup_app. split; [done|]. split; [|apply NoDup_singleton].
        intros x Hx Hin. apply list_elem_of_singleton in Hin as ->. done.
  - destruct Hc as (-> & Ha & n & Hn & Hg & Hc). csimpl in Hnd.
    apply NoDup_cons in Hnd as [Hcl Hnd]. apply not_elem_of_cons in Hcl as [Hca Hcl].
    apply NoDup_cons in Hnd as [Hal Hnd]. apply Forall_cons in Hdead as [Hdn Hdead].
    rewrite (proj2 (Z.eqb_neq a cur)) by congruence. rewrite Hn. simpl.
    assert (Hrun : canRun n = false).
    { rewrite <- Hdn. unfold can_run. simpl. by rewrite <- Hg. }
    rewrite Hrun. change (cpuDomainNext n) with (next n).
    destruct (IH (<[a := set_next NULL n]> h) (ev ++ [StatPANotRunnable]) fuel (next n))
      as (h' & -> & Hr & Hdd & Hdc & Hag); try done.
    + by apply chain_insert_ne.
    + by apply NoDup_cons.
    + by rewrite lookup_insert_ne.
    + simpl in Hf. lia.
    + exists h'. split; [by rewrite <- app_assoc|]. split; [done|]. split; [|split; [done|]].
      * csimpl. intros x [->|Hx]%elem_of_cons; [|by apply Hdd].
        rewrite Hag by (congruence || (rewrite fmap_app in Hal; by apply not_elem_of_app in Hal as [? _])).
        by rewrite lookup_insert_eq.
      * csimpl. intros x Hx [Hxa Hxd]%not_elem_of_cons. rewrite Hag by done. by rewrite lookup_insert_ne.
Qed.

#[global] Arguments runnable_loop : simpl never.

Lemma still_ring h a d l ev :
  ring h a ((a, d) :: l) ->
  let dead := (span_until can_run l).1 in
  let live := (span_until can_run l).2 in
  exists b h' cur' ev', stillRunnable (mkRing h a ev) = Some (b, mkRing h' cur' (ev ++ ev')) /\
    b = existsb can_run ((a, d) :: l) /\
    (if can_run (a, d) then h' = h /\ cur' = a /\ ev' = []
     else
       ring h' cur' (match live with [] => [] | _ => live ++ [(a, d)] end) /\
       (forall x, x ∈ dead.*1 -> cpuDomainNext <$> h' !! x = Some NULL) /\
       (live = [] -> cpuDomainNext <$> h' !! a = Some NULL) /\
       ev' = replicate (length dead + match live with [] => 1 | _ => 0 end) StatPANotRunnable) /\
    (forall x, x <> a -> x ∉ l.*1 -> h' !! x = h !! x).
Proof.
  intros Hr dead live. pose proof Hr as (_ & Hc & Hnd).
  pose proof (chain_len_nodup _ _ _ _ Hc Hnd) as Hlen. pose proof Hc as (_ & Ha & c & Hcc & Hd & Hc').
  unfold stillRunnable. cbn [currentPA store]. rewrite (proj2 (Z.eqb_neq _ _) Ha), Hcc. simpl.
  assert (Hcr : canRun c = can_run (a, d)) by (unfold can_run, canRun; simpl; by rewrite <- Hd).
  rewrite Hcr. destruct (can_run (a, d)) eqn:Er; simpl.
  { exists true, h, a, []. rewrite app_nil_r. done. }
  unfold dead, live. destruct (span_until can_run l) as [l1 l2] eqn:Es. simpl.
  pose proof (span_until_app _ _ _ _ Es) as ->. pose proof (span_until_fail _ _ _ _ Es) as Hdead.
  assert (Hex : existsb can_run (l1 ++ l2) = match l2 with [] => false | _ => true end).
  { rewrite existsb_app. assert (existsb can_run l1 = false) as ->.
    { clear -Hdead. induction Hdead as [|x l Hx _ IH]; [done|]. simpl. by rewrite Hx. }
    destruct l2 as [|x l2]; [done|]. simpl. by rewrite (span_until_head _ _ _ _ _ Es). }
  destruct (runnable_loop_spec a c d l1 l2 h ev (S (size h)) (next c)) as (h' & Hl & Hr' & Hdd & Hdc & Hfr);
    try done.
  - destruct l2 as [|x l2]; [done|]. by eapply span_until_head.
  - simpl in Hlen. rewrite length_app in Hlen. lia.
  - change (cpuDomainNext c) with (next c). rewrite Hl, Hex. do 4 eexists. split; [done|].
    split; [done|].
    split; [by split_and!|]. intros x Hx Hxl. apply Hfr; [done|]. rewrite fmap_app in Hxl. by apply not_elem_of_app in Hxl as [? _].
Qed.

(** StillRunnable finds the first annex of the ring, from the current one on,
    that can run.  If it is the current one nothing changes; otherwise it
    becomes current, the annexes skipped leave the ring marked not ready (one
    statistics call each) and the old current one stays, last in the ring.  If
    none can run the ring is emptied, every annex is marked not ready and the
    answer is no.  The loop always ends. *)
Theorem stillRunnable_ring h a d l ev :
  ring h a ((a, d) :: l) ->
  let dead := (span_until can_run l).1 in
  let live := (span_until can_run l).2 in
  exists b h' cur' ev', stillRunnable (mkRing h a ev) = Some (b, mkRing h' cur' (ev ++ ev')) /\
    b = existsb can_run ((a, d) :: l) /\
    (if can_run (a, d) then h' = h /\ cur' = a /\ ev' = []
     else
       ring h' cur' (match live with [] => [] | _ => live ++ [(a, d)] end) /\
       (forall x, x ∈ dead.*1 -> cpuDomainNext <$> h' !! x = Some NULL) /\
       (live = [] -> cpuDomainNext <$> h' !! a = Some NULL) /\
       ev' = replicate (length dead + match live with [] => 1 | _ => 0 end) StatPANotRunnable).
Proof.
  intros Hr. destruct (still_ring h a d l ev Hr) as (b & h' & cur' & ev' & E & Eb & H & _).
  exists b, h', cur', ev'. by split_and!.
Qed.

Lemma stillRunnable_ring_witness :
  let h : gmap Z PA := {[ 16 := mkPA 32 idle; 32 := mkPA 48 idle; 48 := mkPA 16 busy ]} in
  let l := [(32, idle); (48, busy)] in
  let dead := (span_until can_run l).1 in
  let live := (span_until can_run l).2 in
  exists b h' cur' ev', stillRunnable (mkRing h 16 []) = Some (b, mkRing h' cur' ([] ++ ev')) /\
    b = existsb can_run ((16, idle) :: l) /\
    (if can_run (16, idle) then h' = h /\ cur' = 16 /\ ev' = []
     else
       ring h' cur' (match live with [] => [] | _ => live ++ [(16, idle)] end) /\
       (forall x, x ∈ dead.*1 -> cpuDomainNext <$> h' !! x = Some NULL) /\
       (live = [] -> cpuDomainNext <$> h' !! 16 = Some NULL) /\
       ev' = replicate (length dead + match live with [] => 1 | _ => 0 end) StatPANotRunnable).
Proof.
  intros h l. apply (stillRunnable_ring h 16 idle l []). split; [done|]. split.
  - repeat (split; [done|]; split; [done|]; eexists; split_and!; [done..|]). done.
  - by apply (bool_decide_unpack _); vm_compute.
Defined.

End CPUDomainRing.
