(* ===== verification/CPUDomainRings.v ===== *)
(** * CPUDomainRings: the rings of all domains in one store

    CPUDomainRing.v describes one ring.  The annexes of a processor are in one
    store, each in the ring of its own domain or in none (a null link).  Here the
    operations on a ring are described by what they do to that store: which
    annexes are in which ring afterwards, and that all others are as before. *)

From stdpp Require Import base numbers option gmap list.
From S2P Require Import K42 Prelude ProcessAnnex CPUDomainRing.

Module CPUDomainRings.

Import CPUDomainRing.

Abbreviation cdaOf n := (ProcessAnnex.cpuDomainAnnex (annex n)) (only parsing).

(** [a] is in the ring of domain [d]. *)
Definition inRing (h : gmap Z PA) (d a : Z) : Prop :=
  exists n, h !! a = Some n /\ cpuDomainNext n <> NULL /\ cdaOf n = d.

(** The annexes in the ring of [d] form a ring, with [cur] in it. *)
Definition ringOf (h : gmap Z PA) (cur d : Z) : Prop :=
  exists l, ring h cur l /\ forall a, a ∈ l.*1 <-> inRing h d a.

(** The same annexes before and after; those of other domains unchanged, the
    others related by [R]. *)
Definition relinked (d : Z) (R : Z -> PA -> PA -> Prop) (h h' : gmap Z PA) : Prop :=
  forall a, match h !! a, h' !! a with
            | Some n, Some n' => R a n n' /\ (cdaOf n <> d -> n' = n)
            | None, None => True
            | _, _ => False
            end.

(** Only annexes that cannot run leave the ring. *)
Definition shrinks (d : Z) : gmap Z PA -> gmap Z PA -> Prop := relinked d (fun _ n n' =>
  annex n' = annex n /\ (cpuDomainNext n = NULL -> cpuDomainNext n' = NULL) /\
  (canRun n = true -> cpuDomainNext n <> NULL -> cpuDomainNext n' <> NULL)).

(** [pa] enters the ring, with its pulse reset. *)
Definition adds (d pa I : Z) : gmap Z PA -> gmap Z PA -> Prop := relinked d (fun a n n' =>
  (a = pa -> annex n' = ProcessAnnex.resetPulse I (annex n) /\ cpuDomainNext n' <> NULL) /\
  (a <> pa -> annex n' = annex n /\ (cpuDomainNext n' = NULL <-> cpuDomainNext n = NULL))).

(** [pa] leaves it. *)
Definition removes (d pa : Z) : gmap Z PA -> gmap Z PA -> Prop := relinked d (fun a n n' =>
  annex n' = annex n /\ (a = pa -> cpuDomainNext n' = NULL) /\
  (a <> pa -> (cpuDomainNext n' = NULL <-> cpuDomainNext n = NULL))).

Lemma relinked_Some d R h h' a n :
  relinked d R h h' -> h !! a = Some n -> exists n', h' !! a = Some n' /\ R a n n' /\ (cdaOf n <> d -> n' = n).
Proof. intros H E. specialize (H a). rewrite E in H. destruct (h' !! a); [eauto|done]. Qed.

Lemma relinked_inv d R h h' a n' :
  relinked d R h h' -> h' !! a = Some n' -> exists n, h !! a = Some n /\ R a n n' /\ (cdaOf n <> d -> n' = n).
Proof. intros H E. specialize (H a). rewrite E in H. destruct (h !! a); [eauto|done]. Qed.

(** ** Rings and membership *)

Lemma ring_member h cur l a : ring h cur l -> a ∈ l.*1 -> exists n, h !! a = Some n /\ cpuDomainNext n <> NULL.
Proof.
  intros Hr Hin. destruct (ring_split _ _ _ _ Hr Hin) as (l1 & e & l2 & -> & _).
  destruct (ring_chain _ _ _ Hr) as (Hc & _ & Hcur); [by destruct l1|].
  apply chain_app in Hc as (m & _ & (-> & _ & n & Hn & _ & Hc)). exists n. split; [done|].
  change (cpuDomainNext n) with (next n). destruct l2 as [|[b f] l2]; [by rewrite Hc|].
  by destruct Hc as (-> & ? & _).
Qed.

Lemma ringOf_cur h cur d : ringOf h cur d -> cur <> NULL -> inRing h d cur.
Proof.
  intros (l & Hr & Hm) Hc. apply Hm. destruct l as [|[a e] l]; [done|]. destruct Hr as (-> & _). by left.
Qed.

Lemma ringOf_null h cur d a : ringOf h cur d -> inRing h d a -> cur <> NULL.
Proof.
  intros (l & Hr & Hm) Ha. apply Hm in Ha. destruct l as [|[b e] l]; [by apply not_elem_of_nil in Ha|].
  by destruct Hr as (-> & (_ & ? & _) & _).
Qed.

Lemma ringOf_empty h d : (forall a, ~ inRing h d a) -> ringOf h NULL d.
Proof. intros H. exists []. split; [done|]. intros a. split; [by intros ?%not_elem_of_nil|by intros ?%H]. Qed.

Lemma chain_view h h' : forall l p q,
  chain h p l q -> (forall a, a ∈ l.*1 -> cpuDomainNext <$> h' !! a = cpuDomainNext <$> h !! a) ->
  exists l', l'.*1 = l.*1 /\ chain h' p l' q.
Proof.
  induction l as [|[a e] l IH]; intros p q Hc He; [by exists []|].
  destruct Hc as (-> & Ha & n & Hn & _ & Hc).
  destruct (IH _ _ Hc) as (l' & El & Hc'); [intros b Hb; apply He; by right|].
  pose proof (He a ltac:(by left)) as Hna. rewrite Hn in Hna. simpl in Hna.
  destruct (h' !! a) as [n'|] eqn:Hn'; [|done]. simpl in Hna. injection Hna as Hnx.
  exists ((a, payload n') :: l'). split; [csimpl; by rewrite El|]. split_and!; [done..|].
  exists n'. split; [done|]. split; [done|]. change (next n') with (cpuDomainNext n'). by rewrite Hnx.
Qed.

(** The ring of [d] depends on the links and domains of its annexes only. *)
Lemma ringOf_frame h h' cur d :
  (forall a n, h !! a = Some n -> cdaOf n = d -> cpuDomainNext n <> NULL ->
    exists n', h' !! a = Some n' /\ cpuDomainNext n' = cpuDomainNext n /\ cdaOf n' = d) ->
  (forall a, inRing h' d a -> inRing h d a) ->
  ringOf h cur d -> ringOf h' cur d.
Proof.
  intros H1 H2 (l & Hr & Hm).
  assert (He : forall a, a ∈ l.*1 -> cpuDomainNext <$> h' !! a = cpuDomainNext <$> h !! a).
  { intros a (n & Hn & Hnx & Hd)%Hm. destruct (H1 a n Hn Hd Hnx) as (n' & -> & E & _). by rewrite Hn; simpl; f_equal. }
  assert (Hm' : forall a, a ∈ l.*1 <-> inRing h' d a).
  { intros a. split.
    - intros (n & Hn & Hnx & Hd)%Hm. destruct (H1 a n Hn Hd Hnx) as (n' & Hn' & E & Hd').
      exists n'. by rewrite E.
    - intros Ha. by apply Hm, H2. }
  destruct l as [|[b e] l]; [by exists []|]. destruct Hr as (-> & Hc & Hnd).
  destruct (chain_view _ h' _ _ _ Hc He) as (l' & El & Hc').
  exists l'. split; [|intros a; by rewrite El].
  apply ring_intro; [by destruct l'|done|by rewrite El].
Qed.

Lemma relinked_frame d d' R h h' cur :
  relinked d R h h' -> (forall a n n', R a n n' -> cdaOf n' = cdaOf n) -> d' <> d ->
  ringOf h cur d' -> ringOf h' cur d'.
Proof.
  intros HR Hcda Hne. apply ringOf_frame.
  - intros a n Hn Hd Hnx. destruct (relinked_Some _ _ _ _ _ _ HR Hn) as (n' & Hn' & _ & E).
    assert (n' = n) as -> by (apply E; congruence). eauto.
  - intros a (n' & Hn' & Hnx & Hd). destruct (relinked_inv _ _ _ _ _ _ HR Hn') as (n & Hn & Hr & E).
    apply Hcda in Hr. assert (n' = n) as -> by (apply E; congruence). by exists n.
Qed.

(** Any annex of the ring may become the current one. *)
Lemma ringOf_rotate h cur d a : ringOf h cur d -> inRing h d a -> ringOf h a d.
Proof.
  intros (l & Hr & Hm) Ha. apply Hm in Ha. destruct (ring_split _ _ _ _ Hr Ha) as (l1 & e & l2 & -> & _).
  destruct (ring_chain _ _ _ Hr) as (Hc & Hnd & _); [by destruct l1|].
  exists (((a, e) :: l2) ++ l1). split.
  - apply chain_app in Hc as (m & Hc1 & Hc2). pose proof Hc2 as (-> & _).
    apply ring_intro; [done|apply chain_app; by exists cur|].
    rewrite (Permutation_app_comm ((a, e) :: l2) l1). done.
  - intros b. rewrite <- Hm, !fmap_app, !elem_of_app. tauto.
Qed.

Lemma ringOf_next h cur d n : ringOf h cur d -> cur <> NULL -> h !! cur = Some n -> inRing h d (cpuDomainNext n).
Proof.
  intros (l & Hr & Hm) Hc Hn. apply Hm. destruct l as [|[a e] l]; [done|].
  destruct Hr as (-> & (_ & _ & n' & Hn' & _ & Hch) & _). assert (n' = n) as -> by congruence.
  change (cpuDomainNext n) with (next n). destruct l as [|[b f] l].
  - simpl in Hch. rewrite Hch. by left.
  - destruct Hch as (-> & _). csimpl. right. by left.
Qed.

(** ** The operations leave the state of annexes alone *)

Definition same_info (h h' : gmap Z PA) : Prop := forall b, annex <$> h' !! b = annex <$> h !! b.

Lemma same_info_set h a n v : h !! a = Some n -> same_info h (<[a := set_next v n]> h).
Proof.
  intros Hn b. destruct (decide (b = a)) as [->|]; [by rewrite lookup_insert_eq, Hn|by rewrite lookup_insert_ne].
Qed.

Lemma same_info_trans h1 h2 h3 : same_info h1 h2 -> same_info h2 h3 -> same_info h1 h3.
Proof. intros H1 H2 b. by rewrite H2, H1. Qed.

#[local] Arguments runnable_loop !fuel s pa.

Lemma loop_info : forall fuel s pa b s', runnable_loop fuel s pa = Some (b, s') -> same_info (store s) (store s').
Proof.
  induction fuel as [|fuel IH]; intros s pa b s' H; [done|]. cbn [runnable_loop] in H.
  destruct (pa =? currentPA s).
  - destruct (store s !! currentPA s) as [c|] eqn:Hc; [|done]. simplify_eq/=. by apply same_info_set.
  - destruct (store s !! pa) as [n|] eqn:Hn; [|done]. cbn [mbind option_bind] in H.
    destruct (canRun n).
    + destruct (store s !! currentPA s) as [c|] eqn:Hc; [|done]. simplify_eq/=. by apply same_info_set.
    + apply IH in H. cbn [store] in H. eapply same_info_trans; [by apply same_info_set|done].
Qed.

Lemma still_info s b s' : stillRunnable s = Some (b, s') -> same_info (store s) (store s').
Proof.
  unfold stillRunnable. destruct (negb _); [|done]. cbn [assertK mbind option_bind].
  destruct (store s !! currentPA s); [|done]. cbn [mbind option_bind]. destruct (canRun _).
  - intros [= <- <-]. by intros ?.
  - apply loop_info.
Qed.

Lemma remove_frame s pa s' prev :
  removeProcessAnnex s pa = Some s' ->
  find_prev (S (size (store s))) (store s) (currentPA s) pa (currentPA s) = Some prev ->
  same_info (store s) (store s') /\
  forall b, b <> pa -> b <> prev -> store s' !! b = store s !! b.
Proof.
  unfold removeProcessAnnex. intros H E. rewrite E in H. destruct (negb _); [|done].
  cbn [assertK mbind option_bind] in H. destruct (prev =? pa); cbn [mbind option_bind] in H.
  - destruct (store s !! pa) as [n|] eqn:Hn; [|done]. simplify_eq/=. split; [by apply same_info_set|].
    intros b Hb _. by rewrite lookup_insert_ne.
  - destruct (store s !! prev) as [p|] eqn:Hp; [|done]. cbn [mbind option_bind] in H.
    destruct (store s !! pa) as [x|] eqn:Hx; [|done]. cbn [mbind option_bind] in H.
    destruct (_ !! pa) as [n|] eqn:Hn in H; [|done]. simplify_eq/=. split.
    + eapply same_info_trans; by apply same_info_set.
    + intros b Hb Hbp. by rewrite !lookup_insert_ne.
Qed.

(** ** The operations *)

Lemma same_info_Some h h' a n : same_info h h' -> h !! a = Some n -> exists n', h' !! a = Some n' /\ annex n' = annex n.
Proof. intros H E. specialize (H a). rewrite E in H. destruct (h' !! a) as [n'|]; [|done]. injection H. eauto. Qed.

Lemma same_info_None h h' a : same_info h h' -> h !! a = None -> h' !! a = None.
Proof. intros H E. specialize (H a). rewrite E in H. by destruct (h' !! a). Qed.

(** How a new ring [l'] describes the store: the annexes of [d] are in the ring
    exactly when they are in [l'], the others are untouched. *)
Lemma ring_store d h h' cur cur' l l' :
  ring h cur l -> (forall a, a ∈ l.*1 <-> inRing h d a) -> ring h' cur' l' -> same_info h h' ->
  (forall a, a ∉ l.*1 -> h' !! a = h !! a) -> l'.*1 ⊆ l.*1 ->
  (forall a, a ∈ l.*1 -> a ∉ l'.*1 -> cpuDomainNext <$> h' !! a = Some NULL) ->
  ringOf h' cur' d /\
  relinked d (fun a n n' => annex n' = annex n /\
    (cpuDomainNext n' <> NULL <-> cpuDomainNext n <> NULL /\ (a ∈ l.*1 -> a ∈ l'.*1))) h h'.
Proof.
  intros Hr Hm Hr' Hinfo Hfr Hsub Hnull.
  assert (Hrel : relinked d (fun a n n' => annex n' = annex n /\
    (cpuDomainNext n' <> NULL <-> cpuDomainNext n <> NULL /\ (a ∈ l.*1 -> a ∈ l'.*1))) h h').
  { intros a. destruct (h !! a) as [n|] eqn:Hn; [|by rewrite (same_info_None _ _ _ Hinfo Hn)].
    destruct (same_info_Some _ _ _ _ Hinfo Hn) as (n' & Hn' & E). rewrite Hn'.
    destruct (decide (a ∈ l.*1)) as [Hin|Hout].
    - pose proof (proj1 (Hm a) Hin) as (n0 & Hn0 & Hx & Hd). assert (n0 = n) as -> by congruence.
      split; [|done]. split; [done|]. destruct (decide (a ∈ l'.*1)) as [Hin'|Hout'].
      + destruct (ring_member _ _ _ _ Hr' Hin') as (m & Hm' & ?). assert (m = n') as -> by congruence. tauto.
      + specialize (Hnull a Hin Hout'). rewrite Hn' in Hnull. injection Hnull as ->. split; [done|]. intros [_ H]. by apply H in Hin.
    - rewrite Hfr, Hn in Hn' by done. injection Hn' as <-. split; [split; [done|]|done]. tauto. }
  split; [|done]. exists l'. split; [done|]. intros a. split.
  - intros Ha. destruct (ring_member _ _ _ _ Hr' Ha) as (n' & Hn' & Hx). exists n'. split; [done|]. split; [done|].
    destruct (relinked_inv _ _ _ _ _ _ Hrel Hn') as (n & Hn & (E & _) & _). rewrite E.
    destruct (proj1 (Hm a) (Hsub _ Ha)) as (m & Hm' & _ & <-). congruence.
  - intros (n' & Hn' & Hx & Hd). destruct (relinked_inv _ _ _ _ _ _ Hrel Hn') as (n & Hn & (E & Hiff) & _).
    apply Hiff in Hx as [Hx Himp]. apply Himp, Hm. exists n. split; [done|]. by rewrite <- E.
Qed.

Lemma canRun_ring h cur l a e n : ring h cur l -> (a, e) ∈ l -> h !! a = Some n -> can_run (a, e) = canRun n.
Proof.
  intros Hr Hin Hn. destruct (ring_chain _ _ _ Hr) as (Hc & _ & _); [by intros ->; apply not_elem_of_nil in Hin|].
  destruct (chain_elem _ _ _ _ _ _ Hc Hin) as (_ & m & Hm & Hp). assert (m = n) as -> by congruence.
  unfold can_run, canRun. simpl. by rewrite <- Hp.
Qed.

Lemma ringOf_still h cur d :
  ringOf h cur d -> cur <> NULL ->
  exists b h' cur' k, stillRunnable (mkRing h cur []) =
      Some (b, mkRing h' cur' (replicate k StatPANotRunnable)) /\
    shrinks d h h' /\ ringOf h' cur' d /\
    (if b then cur' <> NULL /\ exists n, h' !! cur' = Some n /\ canRun n = true else cur' = NULL).
Proof.
  intros (l & Hr & Hm) Hcur. destruct l as [|[a e] l]; [done|]. pose proof Hr as (-> & Hc & Hnd).
  destruct (still_ring h a e l [] Hr) as (b & h' & cur' & ev & E & Eb & H & Hfr).
  pose proof (still_info _ _ _ E) as Hinfo. cbn [store app] in *.
  pose proof (proj1 (Hm a) ltac:(by left)) as (n & Hn & Hx & Hd).
  pose proof (canRun_ring h a _ a e n Hr ltac:(by left) Hn) as Hrun.
  destruct (can_run (a, e)) eqn:Er.
  - destruct H as (-> & -> & ->). exists b, h, a, 0%nat. split; [done|].
    assert (b = true) as -> by (subst b; simpl; by rewrite Er).
    split; [|split; [exists ((a, e) :: l); done|split; [done|by eauto]]].
    intros x. by destruct (h !! x).
  - destruct H as (Hr' & Hdead & Hcurn & ->). destruct (span_until can_run l) as [dead live] eqn:Es.
    cbn [fst snd] in *. pose proof (span_until_app _ _ _ _ Es) as ->.
    pose proof (span_until_fail _ _ _ _ Es) as Hdf. rewrite Forall_forall in Hdf.
    set (l' := match live with [] => [] | _ => live ++ [(a, e)] end) in *.
    assert (Hl' : forall x, x ∈ l'.*1 <-> live <> [] /\ (x = a \/ x ∈ live.*1)).
    { intros x. unfold l'. destruct live as [|y live]; [split; [by intros ?%not_elem_of_nil|by intros [? _]]|].
      rewrite fmap_app, elem_of_app. csimpl. rewrite list_elem_of_singleton. split; [intros [?|?]; eauto|intros [_ [?|?]]; eauto]. }
    assert (Hbl : b = match live with [] => false | _ => true end).
    { rewrite Eb. simpl. rewrite Er, existsb_app. simpl.
      assert (existsb can_run dead = false) as ->.
      { clear -Hdf. induction dead as [|x dead IH]; [done|]. simpl. rewrite Hdf by by left. apply IH. intros; apply Hdf; by right. }
      destruct live as [|x live]; [done|]. simpl. by rewrite (span_until_head _ _ _ _ _ Es). }
    destruct (ring_store d h h' a cur' ((a, e) :: dead ++ live) l' Hr Hm Hr' Hinfo) as (Hro & Hrel).
    { csimpl. intros x [? ?]%not_elem_of_cons. by apply Hfr. }
    { intros x [_ [->|Hx']]%Hl'; csimpl; [by left|]. right. rewrite fmap_app. apply elem_of_app. by right. }
    { csimpl. intros x Hin Hout. rewrite fmap_app, elem_of_cons, elem_of_app in Hin.
      destruct live as [|y live].
      - destruct Hin as [->|[Hin|Hin]]; [by apply Hcurn|by apply Hdead|by apply not_elem_of_nil in Hin].
      - destruct Hin as [->|[Hin|Hin]]; [|by apply Hdead|]; exfalso; apply Hout, Hl'; eauto. }
    exists b, h', cur', (length dead + match live with [] => 1 | _ => 0 end)%nat.
    split; [done|]. split; [|split; [done|]].
    + intros x. specialize (Hrel x). destruct (h !! x) as [m|] eqn:Hmx, (h' !! x) as [m'|] eqn:Hmx'; try done.
      destruct Hrel as ((Ea & Hiff) & Heq). split; [|done]. split; [done|]. split.
      * intros E0. destruct (decide (cpuDomainNext m' = NULL)) as [|Hne]; [done|]. by apply Hiff in Hne as [? _].
      * intros Hcr Hne. apply Hiff. split; [done|]. intros Hin. apply list_elem_of_fmap in Hin as ([x' ex] & -> & Hin).
        cbn [fst] in *. pose proof (canRun_ring h a _ x' ex m Hr Hin Hmx) as Hxr. rewrite Hcr in Hxr.
        apply elem_of_cons in Hin as [[= -> ->]|[Hin|Hin]%elem_of_app]; [congruence| |].
        -- by rewrite Hdf in Hxr.
        -- apply Hl'. split; [by intros ->; apply not_elem_of_nil in Hin|]. right. apply list_elem_of_fmap. by exists (x', ex).
    + rewrite Hbl. destruct live as [|[y ey] live]; [exact Hr'|]. destruct Hr' as (-> & Hc' & _).
      pose proof Hc' as (_ & Hy & m & Hmy & Hp & _). split; [done|]. exists m. split; [done|].
      pose proof (span_until_head _ _ _ _ _ Es) as Hyr. subst ey. exact Hyr.
Qed.

Lemma ringOf_add I h cur d pa n :
  ringOf h cur d -> h !! pa = Some n -> pa <> NULL -> cpuDomainNext n = NULL -> cdaOf n = d ->
  exists h', addProcessAnnex I (mkRing h cur []) pa =
      Some (mkRing h' (if cur =? NULL then pa else cur)
        (StatPARunnable :: if cur =? NULL then [AddCPUDomainAnnex] else [])) /\
    adds d pa I h h' /\ ringOf h' (if cur =? NULL then pa else cur) d.
Proof.
  intros (l & Hr & Hm) Hn Hp Hx Hd.
  assert (Hnin : pa ∉ l.*1) by (intros (m & Hm' & ? & _)%Hm; simplify_eq).
  destruct (add_ring I h cur l pa n [] Hr Hn Hp Hnin) as (h' & E & Hr' & Hfr). cbn [app] in E.
  assert (Ecur : default pa (fst <$> head l) = (if cur =? NULL then pa else cur) /\
    (match l with [] => [AddCPUDomainAnnex] | _ => [] end = if cur =? NULL then [AddCPUDomainAnnex] else [])).
  { destruct l as [|[a e] l]; [by rewrite (Hr : cur = NULL)|].
    destruct Hr as (-> & (_ & Ha & _) & _). by rewrite (proj2 (Z.eqb_neq _ _) Ha). }
  destruct Ecur as [E1 E2]. rewrite E1, E2 in E. rewrite E1 in Hr'. set (cur' := if cur =? NULL then _ else _) in *.
  set (l' := ring_add _ l) in *.
  assert (Hl' : forall x, x ∈ l'.*1 <-> x = pa \/ x ∈ l.*1).
  { intros x. unfold l'. destruct l as [|y l]; csimpl; rewrite !elem_of_cons; tauto. }
  assert (Hpay : forall x e', (x, e') ∈ l' -> exists m, h' !! x = Some m /\ annex m = e' /\ cpuDomainNext m <> NULL).
  { intros x e' Hin. destruct (ring_chain _ _ _ Hr') as (Hc' & _ & _); [by intros E0; rewrite E0 in Hin; apply not_elem_of_nil in Hin|].
    destruct (chain_elem _ _ _ _ _ _ Hc' Hin) as (_ & m & Hm' & Hpm). exists m. split; [done|]. split; [done|].
    destruct (ring_member _ _ _ x Hr') as (m2 & ? & ?); [apply list_elem_of_fmap; by exists (x, e')|]. congruence. }
  assert (Hold : forall x e', (x, e') ∈ l -> (x, e') ∈ l' /\ exists m, h !! x = Some m /\ annex m = e').
  { intros x e' Hin. split.
    - unfold l'. destruct l as [|y l]; [by apply not_elem_of_nil in Hin|]. simpl. rewrite !elem_of_cons in *. tauto.
    - destruct (ring_chain _ _ _ Hr) as (Hc & _ & _); [by intros ->; apply not_elem_of_nil in Hin|].
      destruct (chain_elem _ _ _ _ _ _ Hc Hin) as (_ & m & ? & ?). eauto. }
  assert (Hadd : adds d pa I h h').
  { intros x. destruct (decide (x = pa)) as [->|Hxp].
    - rewrite Hn. destruct (Hpay pa (ProcessAnnex.resetPulse I (annex n))) as (m & -> & Em & Hxm).
      { unfold l', ring_add. destruct l; rewrite !elem_of_cons; tauto. }
      split; [split; [by intros _|done]|congruence].
    - destruct (decide (x ∈ l.*1)) as [Hin|Hout].
      + apply list_elem_of_fmap in Hin as ([x' e'] & -> & Hin). cbn [fst] in *.
        destruct (Hold x' e' Hin) as (Hin' & m0 & Hm0 & Em0). destruct (Hpay x' e' Hin') as (m & -> & Em & Hxm).
        rewrite Hm0. destruct (ring_member _ _ _ x' Hr) as (m2 & Hm2 & Hx2); [apply list_elem_of_fmap; by exists (x', e')|].
        split; [split; [done|]; intros _; split; [congruence|]|].
        * assert (m2 = m0) as -> by congruence. tauto.
        * destruct (proj1 (Hm x')) as (m3 & Hm3 & _ & Hd3); [apply list_elem_of_fmap; by exists (x', e')|]. congruence.
      + rewrite Hfr; [|done|intros Hh; apply Hout; destruct l; [done|]; injection Hh as <-; by left].
        destruct (h !! x); [|done]. split; [|done]. split; [done|]. intros _. done. }
  exists h'. split; [done|]. split; [done|]. exists l'. split; [done|]. intros x. rewrite Hl'. split.
  - intros Hin. destruct (ring_member _ _ _ x Hr' ltac:(by apply Hl')) as (m & Hm' & Hx'). exists m. split; [done|]. split; [done|].
    destruct (relinked_inv _ _ _ _ _ _ Hadd Hm') as (m0 & Hm0 & (Ha1 & Ha2) & _).
    destruct (decide (x = pa)) as [->|Hxp].
    + destruct (Ha1 eq_refl) as (-> & _). assert (m0 = n) as -> by congruence. done.
    + destruct (Ha2 Hxp) as (-> & _). destruct Hin as [|Hin]; [done|]. apply Hm in Hin as (m2 & ? & _ & ?). congruence.
  - intros (m & Hm' & Hx' & Hd'). destruct (decide (x = pa)) as [->|Hxp]; [by left|]. right. apply Hm.
    destruct (relinked_inv _ _ _ _ _ _ Hadd Hm') as (m0 & Hm0 & (_ & Ha2) & _). destruct (Ha2 Hxp) as (Ea & Hnx).
    exists m0. split; [done|]. split; [tauto|]. by rewrite <- Ea.
Qed.

Lemma ringOf_remove h cur d pa :
  ringOf h cur d -> inRing h d pa ->
  exists h' cur', removeProcessAnnex (mkRing h cur []) pa =
      Some (mkRing h' cur' (DQRemoveProcessAnnex pa ::
        (if cur' =? NULL then [RemoveCPUDomainAnnex] else []) ++ [StatPANotRunnable])) /\
    removes d pa h h' /\ ringOf h' cur' d.
Proof.
  intros (l & Hr & Hm) Hpa. pose proof (proj2 (Hm pa) Hpa) as Hin.
  destruct (ring_split _ _ _ _ Hr Hin) as (l1 & e & l2 & -> & Hl1 & Hl2).
  destruct (removeProcessAnnex_ring h cur l1 pa e l2 [] Hr) as (h' & cur' & ev & E & Hr' & Hnull & Hev).
  destruct (remove_frame _ _ _ _ E (find_prev_ring _ _ _ _ _ _ Hr)) as [Hinfo Hfr]. cbn [store app] in *.
  assert (Hprev : last_addr (last_addr pa l2) l1 ∈ (l1 ++ (pa, e) :: l2).*1).
  { rewrite fmap_app, elem_of_app. csimpl. destruct l1 as [|[x f] l1 _] using rev_ind.
    - right. unfold last_addr at 1. simpl. destruct l2 as [|[x f] l2 _] using rev_ind; [by left|].
      rewrite last_addr_snoc, fmap_app. right. apply elem_of_app. right. by left.
    - left. rewrite last_addr_snoc, fmap_app. apply elem_of_app. right. by left. }
  destruct (ring_store d h h' cur cur' (l1 ++ (pa, e) :: l2) (l1 ++ l2) Hr Hm Hr' Hinfo) as (Hro & Hrel).
  { intros a Ha. apply Hfr; intros ->; done. }
  { intros a. rewrite !fmap_app, !elem_of_app. csimpl. rewrite elem_of_cons. tauto. }
  { intros a Ha Hb. rewrite !fmap_app, !elem_of_app in *. csimpl in Ha. rewrite elem_of_cons in Ha.
    assert (a = pa) as -> by tauto. done. }
  exists h', cur'. split; [|split; [|done]].
  - rewrite E, Hev. do 2 f_equal. f_equal. destruct (l1 ++ l2) as [|[b f] l] eqn:El.
    + by rewrite (Hr' : cur' = NULL).
    + destruct Hr' as (-> & (_ & Hb & _) & _). by rewrite (proj2 (Z.eqb_neq _ _) Hb).
  - intros x. specialize (Hrel x). destruct (h !! x) as [m|] eqn:Hmx, (h' !! x) as [m'|] eqn:Hmx'; try done.
    destruct Hrel as ((Ea & Hiff) & Heq). split; [|done]. split; [done|]. split.
    + intros ->. rewrite Hmx' in Hnull. by injection Hnull.
    + intros Hx. assert (Himp : x ∈ (l1 ++ (pa, e) :: l2).*1 -> x ∈ (l1 ++ l2).*1).
      { rewrite !fmap_app, !elem_of_app. csimpl. rewrite elem_of_cons. tauto. }
      destruct (decide (cpuDomainNext m = NULL)), (decide (cpuDomainNext m' = NULL)); tauto.
Qed.

End CPUDomainRings.
