(* ===== verification/DispatchQueue.v ===== *)
(** * DispatchQueue: choosing the process that runs,
    os/kernel/exception/DispatchQueue.C and .H

    The queue of one processor puts together the heap of domains by priority
    (DispatchHeap.v), the domains and their charges (CPUDomainAnnex.v), the ring
    of annexes of each domain (CPUDomainRing.v) and the scheduling state of an
    annex (ProcessAnnex.v).  Operations run with interrupts disabled, so they are
    sequential: programs of a state monad, whose results are [Ok], [Stuck] (a
    failed assertion, a null pointer, an index out of range, an exhausted loop)
    or [Overflow], a charge that does not fit the priority of a domain.

    The reading of the clock is an argument, the setting of the dispatch timer
    and the unblocking of kernel threads are recorded; tracing and printing are
    left out. *)

From stdpp Require Import base numbers option gmap list.
From S2P Require Import K42 Prelude ProcessAnnex CPUDomainAnnex CPUDomainRing DispatchHeap.

Module DispatchQueue.

Import ProcessAnnex.
Module CDA := CPUDomainAnnex.
Module Ring := CPUDomainRing.
Module Heap := DispatchHeap.

(** ** State *)

Record CurrentStats := mkCS { dispatchTimeAccum : Z; runnableWeightAccum : Z; runnableWeight : Z }.

(** KernelScheduler::Stats::Smooth. *)
Record Smooth := mkSmooth { smoothTimeAccum : Z; smoothWeightAccum : Z }.

(** KernelScheduler::Stats and currentStats. *)
Record Stats := mkStats {
  runnableCPUDomainCount : Z;
  runnableDispatcherCount : Z;
  smooth : list Smooth;
  currentStats : list CurrentStats;
}.

Record Borrowers := mkBorrowers { cdaBorrowersTop : Z; cdaBorrowers : list Z }.

Record Clock := mkClock {
  lastDispatchTime : Z;
  inflation : Z;
  nextInflationTime : Z;
  inflationInterval : Z;
  tickScale : Z;
  warningQuantum : Z;
}.

(** A CPUDomainAnnex: its priority and quantum, and its ring. *)
Record domain := mkDom { cda : CDA.t; currentPA : Z }.

Record t := mkDQ {
  annexes : gmap Z Ring.PA;
  domains : gmap Z domain;
  heap : Heap.t;
  dispatchedCDA : Z;
  dispatchedPA : Z;
  preemptedPA : list Z;
  clock : Clock;
  stats : Stats;
  borrowers : Borrowers;
  kernelPA : Z;              (* exceptionLocal.kernelProcessAnnex *)
  timer : option (Z * Z);    (* the last kernelTimer.setDispatchTime *)
  unblocked : list Z;        (* kernel threads unblocked so far *)
}.

Definition set_annexes (x : gmap Z Ring.PA) (s : t) : t := mkDQ x (domains s) (heap s) (dispatchedCDA s) (dispatchedPA s) (preemptedPA s) (clock s) (stats s) (borrowers s) (kernelPA s) (timer s) (unblocked s).
Definition set_domains (x : gmap Z domain) (s : t) : t := mkDQ (annexes s) x (heap s) (dispatchedCDA s) (dispatchedPA s) (preemptedPA s) (clock s) (stats s) (borrowers s) (kernelPA s) (timer s) (unblocked s).
Definition set_heap (x : Heap.t) (s : t) : t := mkDQ (annexes s) (domains s) x (dispatchedCDA s) (dispatchedPA s) (preemptedPA s) (clock s) (stats s) (borrowers s) (kernelPA s) (timer s) (unblocked s).
Definition set_dispatched (c p : Z) (s : t) : t := mkDQ (annexes s) (domains s) (heap s) c p (preemptedPA s) (clock s) (stats s) (borrowers s) (kernelPA s) (timer s) (unblocked s).
Definition set_preempted (x : list Z) (s : t) : t := mkDQ (annexes s) (domains s) (heap s) (dispatchedCDA s) (dispatchedPA s) x (clock s) (stats s) (borrowers s) (kernelPA s) (timer s) (unblocked s).
Definition set_clock (x : Clock) (s : t) : t := mkDQ (annexes s) (domains s) (heap s) (dispatchedCDA s) (dispatchedPA s) (preemptedPA s) x (stats s) (borrowers s) (kernelPA s) (timer s) (unblocked s).
Definition set_stats (x : Stats) (s : t) : t := mkDQ (annexes s) (domains s) (heap s) (dispatchedCDA s) (dispatchedPA s) (preemptedPA s) (clock s) x (borrowers s) (kernelPA s) (timer s) (unblocked s).
Definition set_borrowers (x : Borrowers) (s : t) : t := mkDQ (annexes s) (domains s) (heap s) (dispatchedCDA s) (dispatchedPA s) (preemptedPA s) (clock s) (stats s) x (kernelPA s) (timer s) (unblocked s).
Definition set_kernel (x : Z) (s : t) : t := mkDQ (annexes s) (domains s) (heap s) (dispatchedCDA s) (dispatchedPA s) (preemptedPA s) (clock s) (stats s) (borrowers s) x (timer s) (unblocked s).
Definition set_timer (x : Z * Z) (s : t) : t := mkDQ (annexes s) (domains s) (heap s) (dispatchedCDA s) (dispatchedPA s) (preemptedPA s) (clock s) (stats s) (borrowers s) (kernelPA s) (Some x) (unblocked s).
Definition add_unblocked (x : Z) (s : t) : t := mkDQ (annexes s) (domains s) (heap s) (dispatchedCDA s) (dispatchedPA s) (preemptedPA s) (clock s) (stats s) (borrowers s) (kernelPA s) (timer s) (unblocked s ++ [x]).

(** ** The monad *)

(** [Overflow c k sc d]: adjustPriority of domain [c] at inflation [k] and scale
    [sc] by [d] ticks failed its assertions. *)
Inductive result (A : Type) : Type :=
| Ok (a : A)
| Overflow (c : CDA.t) (k sc d : Z)
| Stuck.
Arguments Ok {A} a.
Arguments Overflow {A} c k sc d.
Arguments Stuck {A}.

Definition M (A : Type) : Type := t -> result (A * t).

Definition ret {A} (a : A) : M A := fun s => Ok (a, s).
Definition bind {A B} (m : M A) (k : A -> M B) : M B := fun s =>
  match m s with
  | Ok (a, s') => k a s'
  | Overflow c i sc d => Overflow c i sc d
  | Stuck => Stuck
  end.

Declare Scope dq_scope.
Delimit Scope dq_scope with dq.
Notation "x <-- m ;; k" := (bind m (fun x => k)) (at level 100, m at next level, right associativity) : dq_scope.
Notation "m ;;; k" := (bind m (fun _ => k)) (at level 100, right associativity) : dq_scope.
Open Scope dq_scope.

Definition gets {A} (f : t -> A) : M A := fun s => Ok (f s, s).
Definition modify (f : t -> t) : M unit := fun s => Ok (tt, f s).
Definition need {A} (o : option A) : M A := fun s => match o with Some a => Ok (a, s) | None => Stuck end.
Definition overflow {A} (c : CDA.t) (k sc d : Z) : M A := fun _ => Overflow c k sc d.
Definition when (b : bool) (m : M unit) : M unit := if b then m else ret tt.

Definition getDom (d : Z) : M domain := o <-- gets (fun s => domains s !! d) ;; need o.
Definition putDom (d : Z) (x : domain) : M unit := modify (fun s => set_domains (<[d := x]> (domains s)) s).
Definition getPA (a : Z) : M Ring.PA := o <-- gets (fun s => annexes s !! a) ;; need o.
Definition putPA (a : Z) (n : Ring.PA) : M unit := modify (fun s => set_annexes (<[a := n]> (annexes s)) s).
Definition updPA (a : Z) (f : info -> info) : M unit :=
  n <-- getPA a ;; putPA a (Ring.mkPA (Ring.cpuDomainNext n) (f (Ring.annex n))).
Definition updHeap (f : Heap.t -> option Heap.t) : M unit :=
  o <-- gets (fun s => f (heap s)) ;; h <-- need o ;; modify (set_heap h).

Definition prio (x : domain) : Z := CDA.whole (CDA.priority (cda x)).
Definition pclass (x : domain) : Z := CDA.pclass (CDA.priority (cda x)).

(** ** Statistics *)

Definition statPARunnable : M unit := modify (fun s =>
  let x := stats s in
  set_stats (mkStats (runnableCPUDomainCount x) (uadd (runnableDispatcherCount x) 1) (smooth x) (currentStats x)) s).
Definition statPANotRunnable : M unit := modify (fun s =>
  let x := stats s in
  set_stats (mkStats (runnableCPUDomainCount x) (usub (runnableDispatcherCount x) 1) (smooth x) (currentStats x)) s).

(** A change of one entry of currentStats. *)
Definition updStat (c : Z) (f : CurrentStats -> CurrentStats) : M unit :=
  x <-- gets stats ;;
  e <-- need (currentStats x !! Z.to_nat c) ;;
  modify (set_stats (mkStats (runnableCPUDomainCount x) (runnableDispatcherCount x) (smooth x)
    (<[Z.to_nat c := f e]> (currentStats x)))).

Definition updateRunnableWeight (weightDelta : Z) (e : CurrentStats) : CurrentStats :=
  mkCS (dispatchTimeAccum e) (runnableWeightAccum e) (uadd (runnableWeight e) weightDelta).

Definition advance (delta : Z) (e : CurrentStats) : CurrentStats :=
  mkCS (uadd (dispatchTimeAccum e) delta) (uadd (runnableWeightAccum e) (umul delta (runnableWeight e)))
    (runnableWeight e).

Definition addCount (k : Z) : M unit := modify (fun s =>
  let x := stats s in
  set_stats (mkStats (uadd (runnableCPUDomainCount x) k) (runnableDispatcherCount x) (smooth x) (currentStats x)) s).

Definition statCDARunnable (d : Z) : M unit :=
  x <-- getDom d ;;
  updStat (pclass x) (updateRunnableWeight (CDA.weight (cda x))) ;;;
  addCount 1.

Definition statCDANotRunnable (d : Z) : M unit :=
  x <-- getDom d ;;
  updStat (pclass x) (updateRunnableWeight (uwrap (- CDA.weight (cda x)))) ;;;
  addCount (uwrap (-1)).

Definition statAdvance (d delta : Z) : M unit :=
  x <-- getDom d ;; updStat (pclass x) (advance delta).

Definition smoothUpdate (newDspTimeAccum newRunWgtAccum : Z) (m : Smooth) : Smooth :=
  mkSmooth (uadd (Z.shiftr (umul (smoothTimeAccum m) 7) 3) newDspTimeAccum)
           (uadd (Z.shiftr (umul (smoothWeightAccum m) 7) 3) newRunWgtAccum).

(** publish of one class. *)
Definition publish (c : nat) (x : Stats) : option Stats :=
  e ← currentStats x !! c;
  m ← smooth x !! c;
  Some (mkStats (runnableCPUDomainCount x) (runnableDispatcherCount x)
    (<[c := smoothUpdate (dispatchTimeAccum e) (runnableWeightAccum e) m]> (smooth x))
    (<[c := mkCS 0 0 (runnableWeight e)]> (currentStats x))).

(** The classes from PRIORITY_CLASS_KERNEL to PRIORITY_CLASS_IDLE. *)
Definition statClasses : list nat := [1; 2; 3; 4; 5; 6]%nat.

Fixpoint publish_all (cs : list nat) (x : Stats) : option Stats :=
  match cs with
  | [] => Some x
  | c :: cs => x' ← publish c x; publish_all cs x'
  end.

Definition statPublish : M unit :=
  x <-- gets stats ;; x' <-- need (publish_all statClasses x) ;; modify (set_stats x').

(** ** Borrowers *)

Definition CDA_BORROWERS_SIZE : Z := 8.

Definition cdaBorrowersEmpty (b : Borrowers) : bool := cdaBorrowersTop b <? 0.
Definition clearCDABorrowers (b : Borrowers) : Borrowers := mkBorrowers (-1) (cdaBorrowers b).
Definition setBorrower (b : Borrowers) (top pa : Z) : option Borrowers :=
  _ ← cdaBorrowers b !! Z.to_nat top;
  Some (mkBorrowers top (<[Z.to_nat top := pa]> (cdaBorrowers b))).
Definition resetCDABorrowers (b : Borrowers) (pa : Z) : option Borrowers := setBorrower b 0 pa.
Definition pushCDABorrower (b : Borrowers) (pa : Z) : option Borrowers :=
  setBorrower b (uadd (uwrap (cdaBorrowersTop b)) 1 mod CDA_BORROWERS_SIZE) pa.
Definition popCDABorrower (b : Borrowers) : Borrowers :=
  if 0 <=? cdaBorrowersTop b then mkBorrowers (cdaBorrowersTop b - 1) (cdaBorrowers b) else b.
Definition currentCDABorrower (b : Borrowers) : option Z :=
  if cdaBorrowersTop b <? 0 then Some NULL else cdaBorrowers b !! Z.to_nat (cdaBorrowersTop b).

Definition clearBorrowers : M unit := modify (fun s => set_borrowers (clearCDABorrowers (borrowers s)) s).

(** ** Domains *)

Definition flushQuantum (d : Z) : M unit :=
  x <-- getDom d ;;
  k <-- gets clock ;;
  match CDA.flushQuantum (cda x) (inflation k) (tickScale k) with
  | Some c => putDom d (mkDom c (currentPA x))
  | None => overflow (cda x) (inflation k) (tickScale k) (CDA.consumedTicks (cda x))
  end.

(** When the quantum has expired the pulse of the current annex is reset and the
    next one becomes current. *)
Definition adjustQuantum (d delta : Z) : M unit :=
  x <-- getDom d ;;
  k <-- gets clock ;;
  let c0 := CDA.set_consumed (cda x) (uadd (CDA.consumedTicks (cda x)) delta) in
  match CDA.adjustQuantum (cda x) (inflation k) (tickScale k) delta with
  | None => overflow c0 (inflation k) (tickScale k) (CDA.consumedTicks c0)
  | Some (false, c) => putDom d (mkDom c (currentPA x))
  | Some (true, c) =>
      updPA (currentPA x) (resetPulse 0) ;;;
      n <-- getPA (currentPA x) ;;
      putDom d (mkDom c (Ring.cpuDomainNext n))
  end.

Definition isCurrent (d pa : Z) : M bool := x <-- getDom d ;; ret (pa =? currentPA x).

Definition makeCurrent (d pa : Z) : M unit :=
  n <-- getPA pa ;;
  need (assertK (cpuDomainAnnex (Ring.annex n) =? d)) ;;;
  need (assertK (negb (Ring.cpuDomainNext n =? NULL))) ;;;
  x <-- getDom d ;;
  putDom d (mkDom (cda x) pa).

Definition hasHigherPriorityThan (c d : Z) : M bool :=
  x <-- getDom c ;; y <-- getDom d ;; ret (CDA.hasHigherPriorityThan (cda x) (cda y)).

(** ** The queue *)

(** A domain that is no longer runnable: flushQuantum and statCDANotRunnable always
    come together. *)
Definition retire (d : Z) : M unit := flushQuantum d ;;; statCDANotRunnable d.

Definition removeCPUDomainAnnex (d : Z) : M unit :=
  disp <-- gets dispatchedCDA ;;
  need (assertK (negb (d =? disp))) ;;;
  updHeap (fun h => Heap.remove h d) ;;;
  retire d.

Definition getHead : M Z := o <-- gets (fun s => Heap.getHead (heap s)) ;; need o.

Definition addCPUDomainAnnex (d : Z) : M unit :=
  x <-- getDom d ;;
  need (assertK (CDA.hasFreshQuantum (cda x))) ;;;
  statCDARunnable d ;;;
  updHeap (fun h => Heap.insert h (prio x) d) ;;;
  head <-- getHead ;;
  if d =? head then
    disp <-- gets dispatchedCDA ;;
    b <-- hasHigherPriorityThan d disp ;;
    when b clearBorrowers
  else ret tt.

(** What an operation on the ring of domain [d] asks of the queue.
    CPUDomainAnnex::removeProcessAnnex calls removeProcessAnnex of the queue before
    it looks at the ring, so that call is made by [ring_remove] below. *)
Definition doEvent (d : Z) (e : Ring.event) : M unit :=
  match e with
  | Ring.StatPARunnable => statPARunnable
  | Ring.StatPANotRunnable => statPANotRunnable
  | Ring.AddCPUDomainAnnex => addCPUDomainAnnex d
  | Ring.RemoveCPUDomainAnnex => removeCPUDomainAnnex d
  | Ring.DQRemoveProcessAnnex _ => ret tt
  end.

Fixpoint doEvents (d : Z) (es : list Ring.event) : M unit :=
  match es with
  | [] => ret tt
  | e :: es => doEvent d e ;;; doEvents d es
  end.

(** An operation on the ring of domain [d]. *)
Definition ringOp {A} (d : Z) (op : Ring.t -> option (A * Ring.t)) : M A :=
  x <-- getDom d ;;
  h <-- gets annexes ;;
  r <-- need (op (Ring.mkRing h (currentPA x) [])) ;;
  modify (set_annexes (Ring.store r.2)) ;;;
  putDom d (mkDom (cda x) (Ring.currentPA r.2)) ;;;
  doEvents d (Ring.events r.2) ;;;
  ret r.1.

Definition addProcessAnnex (d pa : Z) : M unit :=
  x <-- getDom d ;;
  ringOp d (fun r => r' ← Ring.addProcessAnnex (CDA.pulseInterval (cda x)) r pa; Some (tt, r')).

Definition stillRunnable (d : Z) : M bool := ringOp d Ring.stillRunnable.

Definition makeReady (pa : Z) : M unit :=
  n <-- getPA pa ;;
  when (Ring.cpuDomainNext n =? NULL) (addProcessAnnex (cpuDomainAnnex (Ring.annex n)) pa).

Definition getCDA (pa : Z) : M Z := n <-- getPA pa ;; ret (cpuDomainAnnex (Ring.annex n)).

(** while (!head->stillRunnable()) { ...; heap.deleteHead(); ... } *)
Fixpoint cleanHeap_loop (fuel : nat) : M unit :=
  match fuel with
  | O => need None
  | S fuel =>
      head <-- getHead ;;
      b <-- stillRunnable head ;;
      if b then ret tt
      else
        retire head ;;;
        updHeap Heap.deleteHead ;;;
        cleanHeap_loop fuel
  end.

Definition cleanHeap : M unit := cleanHeap_loop (S Heap.HEAP_SIZE).

Definition startDispatch (now : Z) : M Z :=
  k <-- gets clock ;;
  when (nextInflationTime k <=? now)
    (let nit := uadd (nextInflationTime k) (inflationInterval k) in
     (if nit <=? now
      then modify (set_clock (mkClock (usub now (inflationInterval k)) (uadd (inflation k) 1)
                                (uadd now (inflationInterval k)) (inflationInterval k) (tickScale k)
                                (warningQuantum k)))
      else modify (set_clock (mkClock (lastDispatchTime k) (uadd (inflation k) 1) nit
                                (inflationInterval k) (tickScale k) (warningQuantum k)))) ;;;
     statPublish) ;;;
  k <-- gets clock ;;
  let delta := usub now (lastDispatchTime k) in
  modify (set_clock (mkClock now (inflation k) (nextInflationTime k) (inflationInterval k)
                       (tickScale k) (warningQuantum k))) ;;;
  pa <-- gets dispatchedPA ;;
  updPA pa (addTime delta) ;;;
  d <-- gets dispatchedCDA ;;
  adjustQuantum d delta ;;;
  statAdvance d delta ;;;
  ret now.

Definition finishDispatch (now : Z) : M unit :=
  pa <-- gets dispatchedPA ;;
  d <-- gets dispatchedCDA ;;
  x <-- getDom d ;;
  n <-- getPA pa ;;
  when (pulseNeeded (Ring.annex n))
    (updPA pa (setInterrupt PULSE) ;;;
     n <-- getPA pa ;;
     i <-- need (reschedulePulse (CDA.pulseInterval (cda x)) (Ring.annex n)) ;;
     putPA pa (Ring.mkPA (Ring.cpuDomainNext n) i)) ;;;
  n <-- getPA pa ;;
  cdaTimeout <-- need (CDA.getTimeout (cda x)) ;;
  paTimeout <-- need (getTimeout (Ring.annex n)) ;;
  modify (set_timer (now, if cdaTimeout <? paTimeout then cdaTimeout else paTimeout)) ;;;
  b <-- gets borrowers ;;
  b' <-- need (resetCDABorrowers b pa) ;;
  modify (set_borrowers b').

Definition getPreempted (c : Z) : M Z := l <-- gets preemptedPA ;; need (l !! Z.to_nat c).
Definition putPreempted (c pa : Z) : M unit :=
  modify (fun s => set_preempted (<[Z.to_nat c := pa]> (preemptedPA s)) s).

(** Switch to the kernel's annex and its domain.  removeProcessAnnex changes
    dispatchedCDA before makeReady ([early]), awaitDispatch after it. *)
Definition switchToKernel (early : bool) : M unit :=
  kpa <-- gets kernelPA ;;
  kd <-- getCDA kpa ;;
  disp <-- gets dispatchedCDA ;;
  modify (set_dispatched (if early then kd else disp) kpa) ;;;
  makeReady kpa ;;;
  modify (set_dispatched kd kpa) ;;;
  makeCurrent kd kpa.

Definition dq_removeProcessAnnex (pa now : Z) : M unit :=
  d <-- getCDA pa ;;
  disp <-- gets dispatchedPA ;;
  if pa =? disp then
    now <-- startDispatch now ;;
    switchToKernel true ;;;
    x <-- getDom d ;;
    kd <-- gets dispatchedCDA ;;
    updHeap (fun h => Heap.swap h (prio x) d kd) ;;;
    finishDispatch now
  else
    x <-- getDom d ;;
    p <-- getPreempted (pclass x) ;;
    when (p =? pa) (putPreempted (pclass x) NULL).

(** CPUDomainAnnex::removeProcessAnnex. *)
Definition ring_remove (d pa now : Z) : M unit :=
  dq_removeProcessAnnex pa now ;;;
  ringOp d (fun r => r' ← Ring.removeProcessAnnex r pa; Some (tt, r')).

Definition makeNotReady (pa now : Z) : M unit :=
  n <-- getPA pa ;;
  when (negb (Ring.cpuDomainNext n =? NULL)) (ring_remove (cpuDomainAnnex (Ring.annex n)) pa now).

Definition dispatchTimeout : M unit := clearBorrowers.

(** ProcessAnnex::signalDispatch. *)
Definition signalDispatch (pa : Z) : M unit :=
  n <-- getPA pa ;;
  let i := Ring.annex n in
  updPA pa (set_thread (reservedThread i) false (terminator i)) ;;;
  modify (add_unblocked (reservedThread i)).

(** Which domain runs next, of the dispatched one and the head of the heap. *)
Definition chooseDomain : M unit :=
  head <-- getHead ;;
  disp <-- gets dispatchedCDA ;;
  dpa <-- gets dispatchedPA ;;
  b <-- stillRunnable disp ;;
  if b then
    h <-- hasHigherPriorityThan head disp ;;
    when h
      (x <-- getDom disp ;;
       updHeap (fun h => Heap.replaceHead h (prio x) disp) ;;;
       modify (set_dispatched head dpa))
  else
    retire disp ;;;
    updHeap Heap.deleteHead ;;;
    modify (set_dispatched head dpa).

(** An annex of the same class that was preempted goes first. *)
Definition choosePreempted (d : Z) (x : domain) (pa : Z) : M unit :=
  p <-- getPreempted (pclass x) ;;
  when (negb (p =? NULL))
    (when (negb (pa =? p))
       (pd <-- getCDA p ;;
        when (negb (d =? pd)) (updHeap (fun h => Heap.swap h (prio x) d pd)) ;;;
        modify (set_dispatched pd p)) ;;;
     putPreempted (pclass x) NULL).

Definition getNextProcessAnnex (now : Z) : M Z :=
  now <-- startDispatch now ;;
  cleanHeap ;;;
  chooseDomain ;;;
  d <-- gets dispatchedCDA ;;
  x <-- getDom d ;;
  pa <-- need (if currentPA x =? NULL then None else Some (currentPA x)) ;;
  n <-- getPA pa ;;
  need (assertK (Ring.canRun n)) ;;;
  modify (set_dispatched d pa) ;;;
  choosePreempted d x pa ;;;
  pa <-- gets dispatchedPA ;;
  n <-- getPA pa ;;
  r <-- (if awaitingDispatchInKernel (Ring.annex n)
         then signalDispatch pa ;;; gets kernelPA
         else ret pa) ;;
  updPA pa clearWarning ;;;
  finishDispatch now ;;;
  ret r.

(** The thread returns to its client; or it has been preempted and blocks until
    awaitingDispatch is clear, with the constants newCDA and newPClass on its stack,
    and then goes on from Retry; or its process is being terminated, it has
    unblocked the terminator and is gone. *)
Inductive outcome := Dispatched | Waiting (newCDA newPClass : Z) | Terminating.

(** ProcessAnnex::resumeTermination and waitForDispatch, up to the block; [me] is
    the current thread. *)
Definition resumeTermination (me pa : Z) : M unit :=
  n <-- getPA pa ;;
  need (assertK (reservedThread (Ring.annex n) =? me)) ;;;
  updPA pa (set_thread NULL (awaitingDispatch (Ring.annex n)) NullThreadID) ;;;
  modify (add_unblocked (terminator (Ring.annex n))).
Definition waitForDispatch (me pa : Z) : M unit :=
  n <-- getPA pa ;;
  let i := Ring.annex n in
  need (assertK (reservedThread i =? me)) ;;;
  when (terminator i =? NullThreadID) (updPA pa (set_thread (reservedThread i) true (terminator i))).

(** if (dispatchedPA != newPA) { ... } *)
Definition becomeDispatched (newPA newCDA : Z) : M unit :=
  dpa <-- gets dispatchedPA ;;
  when (negb (dpa =? newPA))
    (makeReady newPA ;;;
     makeCurrent newCDA newPA ;;;
     d <-- gets dispatchedCDA ;;
     when (negb (d =? newCDA))
       (b <-- stillRunnable d ;;
        if b then
          x <-- getDom d ;;
          updHeap (fun h => Heap.swap h (prio x) d newCDA)
        else
          retire d ;;;
          updHeap (fun h => Heap.remove h newCDA)) ;;;
     modify (set_dispatched newCDA newPA)).

Definition hardPreempt (me newPA newCDA newPClass now : Z) : M unit :=
  switchToKernel false ;;;
  kd <-- gets dispatchedCDA ;;
  x <-- getDom newCDA ;;
  updHeap (fun h => Heap.swap h (prio x) newCDA kd) ;;;
  p <-- getPreempted newPClass ;;
  n <-- getPA newPA ;;
  when ((p =? NULL) && negb (warningExpired (Ring.annex n))) (putPreempted newPClass newPA) ;;;
  finishDispatch now ;;;
  waitForDispatch me newPA.

Definition softPreempt (newPA newCDA head : Z) : M unit :=
  h <-- hasHigherPriorityThan head newCDA ;;
  c <-- isCurrent newCDA newPA ;;
  if negb h && c then updPA newPA clearWarning
  else
    n <-- getPA newPA ;;
    when (negb (hasWarning (Ring.annex n)))
      (updPA newPA (setInterrupt PREEMPT) ;;;
       k <-- gets clock ;;
       updPA newPA (setWarning (warningQuantum k))).

(** From startDispatch and Retry on, up to the return or to the block of
    waitForDispatch; a thread that was blocked goes on here with its constants. *)
Definition awaitRetry (me newPA newCDA newPClass now : Z) : M outcome :=
  now <-- startDispatch now ;;
  n <-- getPA newPA ;;
  if terminationPending (Ring.annex n) then resumeTermination me newPA ;;; ret Terminating
  else
    becomeDispatched newPA newCDA ;;;
    cleanHeap ;;;
    head <-- getHead ;;
    hx <-- getDom head ;;
    p <-- getPreempted newPClass ;;
    n <-- getPA newPA ;;
    if (pclass hx <? newPClass) || negb (p =? NULL) || warningExpired (Ring.annex n)
    then hardPreempt me newPA newCDA newPClass now ;;; ret (Waiting newCDA newPClass)
    else
      softPreempt newPA newCDA head ;;;
      finishDispatch now ;;;
      ret Dispatched.

(** [cur] is exceptionLocal.currentProcessAnnex, [me] the current thread. *)
Definition awaitDispatch (cur me newPA now : Z) : M outcome :=
  kpa <-- gets kernelPA ;;
  need (assertK (cur =? kpa)) ;;;
  need (assertK (negb (newPA =? kpa))) ;;;
  n <-- getPA newPA ;;
  need (assertK (me =? reservedThread (Ring.annex n))) ;;;
  newCDA <-- getCDA newPA ;;
  nx <-- getDom newCDA ;;
  awaitRetry me newPA newCDA (pclass nx) now.

(** ** Annexes: ProcessAnnex.C *)

(** The assertions on pp repeat those on cpuDomainAnnex. *)
Definition attach (pa d : Z) : M unit :=
  n <-- getPA pa ;;
  need (assertK (cpuDomainAnnex (Ring.annex n) =? NULL)) ;;;
  need (assertK (Ring.cpuDomainNext n =? NULL)) ;;;
  updPA pa (set_cda d) ;;;
  makeReady pa.

Definition detach (pa now : Z) : M unit :=
  n <-- getPA pa ;;
  need (assertK (negb (cpuDomainAnnex (Ring.annex n) =? NULL))) ;;;
  makeNotReady pa now ;;;
  updPA pa (set_cda NULL).

Definition deliverInterrupt (pa intr : Z) : M unit :=
  n <-- getPA pa ;;
  updPA pa (setInterrupt intr) ;;;
  when (negb (pending (Ring.annex n))) (makeReady pa).

Definition PPC_PRIMITIVE_MARKER : Z := 2 ^ 64 - 1.

(** Up to the block: the answer is whether the caller [me] has to wait. *)
Definition waitForTerminate (pa me : Z) : M bool :=
  n <-- getPA pa ;;
  let i := Ring.annex n in
  if reservedThread i =? NULL then ret false
  else if reservedThread i =? PPC_PRIMITIVE_MARKER then
    updPA pa (set_thread NULL (awaitingDispatch i) (terminator i)) ;;; ret false
  else
    clearBorrowers ;;;
    when (awaitingDispatch i) (signalDispatch pa) ;;;
    n <-- getPA pa ;;
    let i := Ring.annex n in
    updPA pa (set_thread (reservedThread i) (awaitingDispatch i) me) ;;;
    ret true.

(** ExceptionLocal_GetNextProcess: the process [cur] yields. *)
Definition GetNextProcess (cur now : Z) : M Z :=
  n <-- getPA cur ;;
  when (hasWork (Ring.annex n) && (Ring.cpuDomainNext n =? NULL)) (makeReady cur) ;;;
  getNextProcessAnnex now.

(** ** Domains: the exported interface of CPUDomainAnnex.C *)

(** [here]: whether the caller is on the domain's processor. *)
Definition setPriorityClass (here : bool) (d cls : Z) : M Z :=
  if negb here then ret (_SERROR 2631 0 EINVAL)
  else if (cls <? CDA.PRIORITY_CLASS_KERNEL) || (CDA.PRIORITY_CLASS_UNRUNNABLE <? cls)
  then ret (_SERROR 2632 0 EINVAL)
  else
    x <-- getDom d ;;
    let c := cda x in
    putDom d (mkDom (CDA.mkCDA (CDA.mkPrio cls (CDA.exponent (CDA.priority c)) (CDA.mantissa (CDA.priority c)))
      (CDA.consumedTicks c) (CDA.quantum c) (CDA.pulseInterval c) (CDA.drag c) (CDA.weight c)) (currentPA x)) ;;;
    when (negb (currentPA x =? NULL)) (removeCPUDomainAnnex d ;;; addCPUDomainAnnex d) ;;;
    ret 0.

Definition setWeight (here : bool) (d wght : Z) : M Z :=
  if negb here then ret (_SERROR 2633 0 EINVAL)
  else if (wght <? CDA.MIN_WEIGHT) || (CDA.MAX_WEIGHT <? wght)
  then ret (_SERROR 2634 0 EINVAL)
  else
    x <-- getDom d ;;
    let c := cda x in
    putDom d (mkDom (CDA.mkCDA (CDA.priority c) (CDA.consumedTicks c) (CDA.quantum c) (CDA.pulseInterval c)
      (CDA.MAX_WEIGHT / wght) wght) (currentPA x)) ;;;
    ret 0.

(** ** Initialisation *)

Definition csZero : CurrentStats := mkCS 0 0 0.

Definition statInit (cs : list CurrentStats) : list CurrentStats :=
  foldr (fun c l => <[c := csZero]> l) cs statClasses.

Definition NUM_PRIORITY_CLASSES : nat := 8.

(** [cs]: what the uninitialised memory of currentStats holds.  The dummy domain
    is at [dd], its annex at [dp]; [tps] is SchedulerTimer::TicksPerSecond(). *)
Definition init (now tps : Z) (onHV onSim : bool) (cs : list CurrentStats) (dd dp : Z) : result t :=
  let interval := umul tps (2 * CDA.MAX_QUANTUM_MICROSECS) / 1000000 in
  match CDA.TickScale interval,
        CDA.init tps CDA.PRIORITY_CLASS_UNRUNNABLE CDA.MIN_WEIGHT CDA.MAX_QUANTUM_MICROSECS CDA.MAX_PULSE_MICROSECS with
  | Some scale, Some c =>
      let k := mkClock now 0 (uadd now interval) interval scale
                 (if onHV then 1000000 else if onSim then 100000 else 10000) in
      let s := mkDQ {[ dp := Ring.mkPA NULL (ProcessAnnex.init true) ]} {[ dd := mkDom c NULL ]}
                 Heap.init dd dp (replicate NUM_PRIORITY_CLASSES NULL) k
                 (mkStats 0 0 (replicate NUM_PRIORITY_CLASSES (mkSmooth 0 0)) (statInit cs))
                 (mkBorrowers (-1) (replicate (Z.to_nat CDA_BORROWERS_SIZE) NULL)) NULL None [] in
      let m := attach dp dd ;;;
               head <-- getHead ;;
               need (assertK (head =? dd)) ;;;
               modify (fun s => set_heap (Heap.clear (heap s)) s) in
      match m s with Ok (_, s') => Ok s' | Overflow c k sc d => Overflow c k sc d | Stuck => Stuck end
  | _, _ => Stuck
  end.

(** ** Around the queue *)

(** A new domain at [d] (CPUDomainAnnex::Create) and a new annex at [pa]. *)
Definition newDomain (d : Z) (c : CDA.t) : M unit := modify (fun s => set_domains (<[d := mkDom c NULL]> (domains s)) s).
Definition newAnnex (pa : Z) (work : bool) : M unit :=
  modify (fun s => set_annexes (<[pa := Ring.mkPA NULL (ProcessAnnex.init work)]> (annexes s)) s).

(** What a process does to its own annex: it runs, handles its interrupts and
    leaves work or not; it enters the kernel on thread [th]; the thread returns. *)
Definition runs (pa : Z) (work : bool) : M unit := updPA pa (set_work work 0).
Definition enters (pa th : Z) : M unit := updPA pa (fun i => set_thread th (awaitingDispatch i) (terminator i) i).
Definition leaves (pa : Z) : M unit := updPA pa (fun i => set_thread NULL (awaitingDispatch i) (terminator i) i).

End DispatchQueue.
