(* ===== verification/DispatchInv.v ===== *)
(** * DispatchInv: the invariant of the dispatch queue

    Every operation of DispatchQueue.v keeps the queue consistent: each annex that
    is ready is in the ring of its domain, each domain with a ring is the
    dispatched one or in the heap, once and with its present priority, and no
    assertion fails.  Operations are reasoned about with weakest preconditions
    ([wp]) of the monad. *)

From stdpp Require Import base numbers option gmap list.
From S2P Require Import K42 Prelude ProcessAnnex CPUDomainAnnex CPUDomainRing DispatchHeap CPUDomainRings DispatchQueue.

Module DispatchInv.

Import ProcessAnnex CPUDomainRings DispatchQueue.

(** ** Weakest preconditions *)

(** The program is not stuck, what it returns satisfies [Q], and an overflow is
    that of a charge that does not fit. *)
Definition wp {A} (m : M A) (Q : A -> t -> Prop) (s : t) : Prop :=
  match m s with
  | Ok (a, s') => Q a s'
  | Overflow c k sc d => CDA.adjustPriority c k sc d = None
  | Stuck => False
  end.

Section wp.
Context {A B : Type}.

Lemma wp_mono (m : M A) (Q R : A -> t -> Prop) s : wp m Q s -> (forall a s', Q a s' -> R a s') -> wp m R s.
Proof. unfold wp. destruct (m s) as [[a s']| |]; auto. Qed.

Lemma wp_ret (a : A) (Q : A -> t -> Prop) s : Q a s -> wp (ret a) Q s.
Proof. done. Qed.

Lemma wp_bind (m : M A) (k : A -> M B) (Q : B -> t -> Prop) s :
  wp m (fun a s' => wp (k a) Q s') s -> wp (bind m k) Q s.
Proof. unfold wp, bind. by destruct (m s) as [[a s']| |]. Qed.

Lemma wp_bind_inv (m : M A) (k : A -> M B) (Q : B -> t -> Prop) s :
  wp (bind m k) Q s -> wp m (fun a s' => wp (k a) Q s') s.
Proof. unfold wp, bind. by destruct (m s) as [[a s']| |]. Qed.

(** The result and the state that the program ends with. *)
Lemma wp_ends (m : M A) (Q : A -> t -> Prop) s : wp m Q s -> wp m (fun a s' => Q a s' /\ m s = Ok (a, s')) s.
Proof. unfold wp. by destruct (m s) as [[a s']| |]. Qed.

Lemma wp_need (o : option A) a (Q : A -> t -> Prop) s : o = Some a -> Q a s -> wp (need o) Q s.
Proof. intros ->. done. Qed.

End wp.

Lemma wp_assert b (Q : unit -> t -> Prop) s : b = true -> Q tt s -> wp (need (assertK b)) Q s.
Proof. by intros ->. Qed.

Lemma wp_getDom d x (Q : domain -> t -> Prop) s : domains s !! d = Some x -> Q x s -> wp (getDom d) Q s.
Proof. intros E H. unfold wp, getDom, bind, gets, need. by rewrite E. Qed.

Lemma wp_getPA a n (Q : Ring.PA -> t -> Prop) s : annexes s !! a = Some n -> Q n s -> wp (getPA a) Q s.
Proof. intros E H. unfold wp, getPA, bind, gets, need. by rewrite E. Qed.

Lemma wp_getCDA a n (Q : Z -> t -> Prop) s : annexes s !! a = Some n -> Q (cdaOf n) s -> wp (getCDA a) Q s.
Proof. intros E H. apply wp_bind. by eapply wp_getPA. Qed.

Lemma wp_updPA a f n (Q : unit -> t -> Prop) s :
  annexes s !! a = Some n ->
  Q tt (set_annexes (<[a := Ring.mkPA (Ring.cpuDomainNext n) (f (Ring.annex n))]> (annexes s)) s) ->
  wp (updPA a f) Q s.
Proof. intros E H. apply wp_bind. by eapply wp_getPA. Qed.

Lemma wp_updHeap f h (Q : unit -> t -> Prop) s : f (heap s) = Some h -> Q tt (set_heap h s) -> wp (updHeap f) Q s.
Proof. intros E H. unfold wp, updHeap, bind, gets, need. by rewrite E. Qed.

Lemma wp_when (b : bool) m (Q : unit -> t -> Prop) s :
  (b = true -> wp m Q s) -> (b = false -> Q tt s) -> wp (when b m) Q s.
Proof. destruct b; intros H1 H2; [by apply H1|by apply H2]. Qed.

Lemma wp_gets {A} (f : t -> A) (Q : A -> t -> Prop) s : Q (f s) s -> wp (gets f) Q s.
Proof. done. Qed.
Lemma wp_modify f (Q : unit -> t -> Prop) s : Q tt (f s) -> wp (modify f) Q s.
Proof. done. Qed.

(** Steps over reads, writes and returns. *)
Ltac wsteps :=
  repeat match goal with
  | |- wp (bind _ _) _ _ => apply wp_bind
  | |- wp (ret _) _ _ => apply wp_ret
  | |- wp (gets _) _ _ => apply wp_gets
  | |- wp (modify _) _ _ => apply wp_modify
  | |- wp (putPA _ _) _ _ => apply wp_modify
  | |- wp (putDom _ _) _ _ => apply wp_modify
  | H : domains ?s !! ?d = Some _ |- wp (getDom ?d) _ ?s => apply (wp_getDom _ _ _ _ H)
  | H : annexes ?s !! ?a = Some _ |- wp (getPA ?a) _ ?s => apply (wp_getPA _ _ _ _ H)
  end.

(** ** The invariant of rings, domains and heap *)

(** [q]: the entries of the heap; [z]: a domain that has just lost its last
    annex and is about to leave the queue, or null; [dc]: the dispatched domain. *)
Record Core (h : gmap Z Ring.PA) (D : gmap Z domain) (q : list (Z * Z)) (z dc : Z) : Prop := {
  c_ring : forall d x, D !! d = Some x -> d <> NULL /\ ringOf h (currentPA x) d;
  c_annex : forall a n, h !! a = Some n -> a <> NULL /\
    (cdaOf n = NULL -> Ring.cpuDomainNext n = NULL) /\ (cdaOf n <> NULL -> is_Some (D !! cdaOf n));
  c_nodup : NoDup q.*2;
  c_entry : forall p d, (p, d) ∈ q -> is_Some (D !! d) /\ (d <> z -> exists x, D !! d = Some x /\ p = prio x);
  c_disp : dc ∉ q.*2;
  c_run : forall d x, D !! d = Some x -> currentPA x <> NULL <-> d <> z /\ (d = dc \/ d ∈ q.*2);
  c_fresh : forall d x, D !! d = Some x -> currentPA x = NULL -> d <> z -> CDA.consumedTicks (cda x) = 0;
}.

Section core.
Context {h : gmap Z Ring.PA} {D : gmap Z domain} {q : list (Z * Z)} {z dc : Z}.
Hypothesis HC : Core h D q z dc.

Lemma core_member d a : inRing h d a -> d <> NULL -> exists x, D !! d = Some x /\ ringOf h (currentPA x) d /\ currentPA x <> NULL.
Proof.
  intros Ha Hd. pose proof Ha as (n & Hn & Hx & Ec).
  destruct (c_annex _ _ _ _ _ HC _ _ Hn) as (_ & _ & Hs). destruct Hs as [x Hx']; [congruence|]. rewrite Ec in Hx'.
  destruct (c_ring _ _ _ _ _ HC _ _ Hx') as (_ & Hr). exists x. split; [done|]. split; [done|]. by eapply ringOf_null.
Qed.

Lemma core_member_nz d a : inRing h d a -> d <> NULL.
Proof.
  intros (n & Hn & Hx & Ec) ->. destruct (c_annex _ _ _ _ _ HC _ _ Hn) as (_ & H & _). by apply Hx, H.
Qed.

(** A change that keeps links and domains of annexes. *)
Lemma core_view h' :
  (forall a, (fun n => (Ring.cpuDomainNext n, cdaOf n)) <$> h' !! a =
             (fun n => (Ring.cpuDomainNext n, cdaOf n)) <$> h !! a) ->
  Core h' D q z dc.
Proof.
  intros Hv.
  assert (H1 : forall a n, h !! a = Some n -> exists n', h' !! a = Some n' /\ Ring.cpuDomainNext n' = Ring.cpuDomainNext n /\ cdaOf n' = cdaOf n).
  { intros a n Hn. specialize (Hv a). rewrite Hn in Hv. destruct (h' !! a) as [n'|]; [|done]. injection Hv. eauto. }
  assert (H2 : forall a n', h' !! a = Some n' -> exists n, h !! a = Some n /\ Ring.cpuDomainNext n' = Ring.cpuDomainNext n /\ cdaOf n' = cdaOf n).
  { intros a n' Hn. specialize (Hv a). rewrite Hn in Hv. destruct (h !! a) as [n|]; [|done]. injection Hv. eauto. }
  destruct HC as [Cr Ca Cn Ce Cd Cu Cf]. split; [| |done..].
  - intros d x Hx. destruct (Cr d x Hx) as [? Hr]. split; [done|]. revert Hr. apply ringOf_frame.
    + intros a n Hn Hd _. destruct (H1 a n Hn) as (n' & ? & ? & E). exists n'. split; [done|]. split; [done|]. by rewrite E.
    + intros a (n' & Hn' & Hx' & Hd). destruct (H2 a n' Hn') as (n & ? & E1 & E2). exists n. by rewrite <- E1, <- E2.
  - intros a n' Hn'. destruct (H2 a n' Hn') as (n & Hn & -> & ->). by apply Ca.
Qed.

Lemma core_upd a n i :
  h !! a = Some n -> ProcessAnnex.cpuDomainAnnex i = cdaOf n ->
  Core (<[a := Ring.mkPA (Ring.cpuDomainNext n) i]> h) D q z dc.
Proof.
  intros Hn Hi. apply core_view. intros b. destruct (decide (b = a)) as [->|].
  - rewrite lookup_insert_eq, Hn. simpl. by rewrite Hi.
  - by rewrite lookup_insert_ne.
Qed.

(** One domain [d] changes, with the links of its annexes; entries of the heap
    may change places with the dispatched domain. *)
Lemma core_step d x x' h' q' z' dc' :
  D !! d = Some x -> z = NULL \/ z = d -> z' = NULL \/ z' = d ->
  ringOf h' (currentPA x') d ->
  (forall d' cur, d' <> d -> ringOf h cur d' -> ringOf h' cur d') ->
  (forall a n, h' !! a = Some n -> a <> NULL /\
    (cdaOf n = NULL -> Ring.cpuDomainNext n = NULL) /\ (cdaOf n <> NULL -> is_Some (D !! cdaOf n))) ->
  NoDup q'.*2 -> dc' ∉ q'.*2 ->
  (forall p d', d' <> d -> (p, d') ∈ q' -> (p, d') ∈ q \/ (exists y, D !! d' = Some y /\ p = prio y)) ->
  (forall d', d' <> d -> is_Some (D !! d') -> (d' = dc \/ d' ∈ q.*2) <-> (d' = dc' \/ d' ∈ q'.*2)) ->
  (forall p, (p, d) ∈ q' -> d <> z' -> p = prio x') ->
  (currentPA x' <> NULL <-> d <> z' /\ (d = dc' \/ d ∈ q'.*2)) ->
  (currentPA x' = NULL -> d <> z' -> CDA.consumedTicks (cda x') = 0) ->
  Core h' (<[d := x']> D) q' z' dc'.
Proof.
  intros Hx Hz Hz' Hr Hro Han Hnd Hdc He Hq Hed Hrun Hfr. destruct HC as [Cr Ca Cn Ce Cd Cu Cf].
  assert (Hlk : forall d' y, <[d := x']> D !! d' = Some y -> (d' = d /\ y = x') \/ (d' <> d /\ D !! d' = Some y)).
  { intros d' y H. destruct (decide (d' = d)) as [->|].
    - rewrite lookup_insert_eq in H. injection H as <-. by left.
    - rewrite lookup_insert_ne in H by done. by right. }
  assert (Hsome : forall d', is_Some (D !! d') -> is_Some (<[d := x']> D !! d')).
  { intros d' H. destruct (decide (d' = d)) as [->|]; [rewrite lookup_insert_eq; by eexists|by rewrite lookup_insert_ne]. }
  assert (Hnz : forall d' y, d' <> d -> D !! d' = Some y -> d' <> z /\ d' <> z').
  { intros d' y Hne H. destruct (Cr _ _ H) as [? _]. destruct Hz as [->| ->], Hz' as [->| ->]; done. }
  split; [| |done| |done| |].
  - intros d' y [[-> ->]|[? H0]]%Hlk; [split; [by apply (Cr d x)|done]|]. destruct (Cr _ _ H0). eauto.
  - intros a n Hn. destruct (Han a n Hn) as (? & ? & ?). split_and!; auto.
  - intros p d' Hin. destruct (decide (d' = d)) as [->|Hne].
    + rewrite lookup_insert_eq. split; [by eexists|]. intros Hdz. exists x'. split; [done|]. by apply Hed.
    + destruct (He p d' Hne Hin) as [Hin'|(y & Hy & Ep)].
      * destruct (Ce p d' Hin') as ([y Hy] & Hp). split; [by apply Hsome; eexists|]. intros _.
        rewrite lookup_insert_ne by done. apply Hp. by apply (Hnz d' y).
      * split; [apply Hsome; by eexists|]. intros _. rewrite lookup_insert_ne by done. eauto.
  - intros d' y [[-> ->]|[Hne H0]]%Hlk; [done|]. rewrite (Cu d' y H0). destruct (Hnz d' y Hne H0).
    pose proof (Hq d' Hne ltac:(by eexists)). tauto.
  - intros d' y [[-> ->]|[Hne H0]]%Hlk; [done|]. intros E _. apply (Cf d'); [done..|]. by apply (Hnz d' y).
Qed.

(** The same annexes: only the domain and its place change. *)
Lemma core_place d x x' q' z' dc' :
  D !! d = Some x -> z = NULL \/ z = d -> z' = NULL \/ z' = d ->
  ringOf h (currentPA x') d ->
  NoDup q'.*2 -> dc' ∉ q'.*2 ->
  (forall p d', d' <> d -> (p, d') ∈ q' -> (p, d') ∈ q \/ (exists y, D !! d' = Some y /\ p = prio y)) ->
  (forall d', d' <> d -> is_Some (D !! d') -> (d' = dc \/ d' ∈ q.*2) <-> (d' = dc' \/ d' ∈ q'.*2)) ->
  (forall p, (p, d) ∈ q' -> d <> z' -> p = prio x') ->
  (currentPA x' <> NULL <-> d <> z' /\ (d = dc' \/ d ∈ q'.*2)) ->
  (currentPA x' = NULL -> d <> z' -> CDA.consumedTicks (cda x') = 0) ->
  Core h (<[d := x']> D) q' z' dc'.
Proof.
  intros Hx Hz Hz' Hr. apply core_step with x; try done. apply HC.
Qed.

(** Only the place of [d] changes. *)
Lemma core_requeue d x q' z' dc' :
  D !! d = Some x -> z = NULL \/ z = d -> z' = NULL \/ z' = d ->
  NoDup q'.*2 -> dc' ∉ q'.*2 ->
  (forall p d', d' <> d -> (p, d') ∈ q' -> (p, d') ∈ q \/ (exists y, D !! d' = Some y /\ p = prio y)) ->
  (forall d', d' <> d -> is_Some (D !! d') -> (d' = dc \/ d' ∈ q.*2) <-> (d' = dc' \/ d' ∈ q'.*2)) ->
  (forall p, (p, d) ∈ q' -> d <> z' -> p = prio x) ->
  (currentPA x <> NULL <-> d <> z' /\ (d = dc' \/ d ∈ q'.*2)) ->
  (currentPA x = NULL -> d <> z' -> CDA.consumedTicks (cda x) = 0) ->
  Core h D q' z' dc'.
Proof.
  intros Hx Hz Hz' H1 H2 H3 H4 H5 H6 H7. rewrite <- (insert_id D d x Hx). destruct (c_ring _ _ _ _ _ HC d x Hx) as [_ Hr].
  by apply core_place with x.
Qed.

(** The charge of a domain that is not in the heap, or on its way out of it. *)
Lemma core_cda d x c :
  D !! d = Some x -> z = NULL \/ z = d -> (d ∈ q.*2 -> d = z) ->
  (currentPA x = NULL -> d <> z -> CDA.consumedTicks c = 0) ->
  Core h (<[d := mkDom c (currentPA x)]> D) q z dc.
Proof.
  intros Hx Hz Hp Hf. pose proof HC as [Cr Ca Cn Ce Cd Cu Cf].
  destruct (Cr _ _ Hx) as [_ Hr]. apply core_place with x; try done; auto.
  - intros p Hin Hdz. exfalso. apply Hdz, Hp, list_elem_of_fmap. by exists (p, d).
  - simpl. by apply Cu.
Qed.

(** Another annex of the ring becomes current. *)
Lemma core_cur d x a :
  D !! d = Some x -> z = NULL \/ z = d -> inRing h d a -> Core h (<[d := mkDom (cda x) a]> D) q z dc.
Proof.
  intros Hx Hz Ha. pose proof HC as [Cr Ca Cn Ce Cd Cu Cf].
  destruct (Cr _ _ Hx) as [Hd Hr]. pose proof (ringOf_null _ _ _ _ Hr Ha) as Hcur.
  assert (Han : a <> NULL) by (destruct Ha as (n & Hn & _); by apply (Ca a n)).
  apply core_place with x; try done; auto.
  - simpl. by apply (ringOf_rotate h (currentPA x)).
  - intros p Hin Hdz. destruct (Ce p d Hin) as (_ & He). destruct (He Hdz) as (y & Hy & ->).
    assert (y = x) as -> by congruence. done.
  - simpl. rewrite <- (Cu d x Hx). tauto.
Qed.

End core.

(** ** What single operations do to the state *)

Definition statsOk (x : Stats) : Prop := length (currentStats x) = 8%nat /\ length (smooth x) = 8%nat.

(** Charges, quantum, pulse and class of a domain are in range. *)
Definition domOk (x : domain) : Prop :=
  CDA.prio_ok (CDA.priority (cda x)) /\ 1 <= pclass x <= 7 /\
  0 <= CDA.consumedTicks (cda x) < CDA.quantum (cda x) /\ CDA.quantum (cda x) < 2 ^ 50 /\
  0 < CDA.pulseInterval (cda x) < 2 ^ 50.

Lemma class_index x (l : list CurrentStats) :
  1 <= pclass x <= 7 -> length l = 8%nat -> is_Some (l !! Z.to_nat (pclass x)).
Proof. intros H1 H2. apply lookup_lt_is_Some. lia. Qed.

Lemma wp_updStat d x f s :
  domains s !! d = Some x -> 1 <= pclass x <= 7 -> statsOk (stats s) ->
  wp (updStat (pclass x) f) (fun _ s' => exists st, s' = set_stats st s /\ statsOk st) s.
Proof.
  intros Hx Hc [Hs1 Hs2]. unfold updStat. wsteps.
  destruct (class_index x _ Hc Hs1) as [e He]. eapply wp_need; [done|]. wsteps. eexists. split; [done|].
  split; simpl; [by rewrite length_insert|done].
Qed.

Lemma wp_statCDARunnable d x s :
  domains s !! d = Some x -> 1 <= pclass x <= 7 -> statsOk (stats s) ->
  wp (statCDARunnable d) (fun _ s' => exists st, s' = set_stats st s /\ statsOk st) s.
Proof.
  intros Hx Hc Hs. unfold statCDARunnable. wsteps.
  eapply wp_mono; [by apply (wp_updStat d)|]. intros [] s' (st & -> & Hst). wsteps. eexists. by split.
Qed.

Lemma wp_statCDANotRunnable d x s :
  domains s !! d = Some x -> 1 <= pclass x <= 7 -> statsOk (stats s) ->
  wp (statCDANotRunnable d) (fun _ s' => exists st, s' = set_stats st s /\ statsOk st) s.
Proof.
  intros Hx Hc Hs. unfold statCDANotRunnable. wsteps.
  eapply wp_mono; [by apply (wp_updStat d)|]. intros [] s' (st & -> & Hst). wsteps. eexists. by split.
Qed.

Lemma wp_statAdvance d x delta s :
  domains s !! d = Some x -> 1 <= pclass x <= 7 -> statsOk (stats s) ->
  wp (statAdvance d delta) (fun _ s' => exists st, s' = set_stats st s /\ statsOk st) s.
Proof. intros Hx Hc Hs. unfold statAdvance. wsteps. by apply (wp_updStat d). Qed.

Lemma publish_all_ok cs : forall x, statsOk x -> Forall (fun c => c < 8)%nat cs -> exists x', publish_all cs x = Some x' /\ statsOk x'.
Proof.
  induction cs as [|c cs IH]; intros x [H1 H2] Hf; [by exists x|]. apply Forall_cons in Hf as [Hc Hf].
  destruct (lookup_lt_is_Some_2 (currentStats x) c ltac:(lia)) as [e He].
  destruct (lookup_lt_is_Some_2 (smooth x) c ltac:(lia)) as [m Hm].
  cbn [publish_all]. unfold publish at 1. rewrite He. cbn [mbind option_bind]. rewrite Hm. cbn [mbind option_bind].
  apply IH; [|done]. split; simpl; by rewrite length_insert.
Qed.

Lemma wp_statPublish s :
  statsOk (stats s) -> wp statPublish (fun _ s' => exists st, s' = set_stats st s /\ statsOk st) s.
Proof.
  intros Hs. destruct (publish_all_ok statClasses (stats s) Hs) as (st & E & Hst).
  { repeat constructor; lia. }
  unfold statPublish. wsteps. eapply wp_need; [exact E|]. wsteps. eauto.
Qed.

(** Charging a domain keeps its class and the other fields in range. *)
Lemma adjustPriority_ok c k sc d c' :
  CDA.adjustPriority c k sc d = Some c' -> 0 <= k -> 0 <= CDA.pclass (CDA.priority c) < 2 ^ 4 ->
  CDA.prio_ok (CDA.priority c') /\ CDA.pclass (CDA.priority c') = CDA.pclass (CDA.priority c) /\
  CDA.quantum c' = CDA.quantum c /\ CDA.pulseInterval c' = CDA.pulseInterval c /\
  CDA.consumedTicks c' = CDA.consumedTicks c /\ CDA.weight c' = CDA.weight c.
Proof.
  unfold CDA.adjustPriority. intros H Hk Hp.
  destruct (_ <? 64); [|done]. cbn [assertK mbind option_bind] in H. set (m := uadd _ _) in H.
  destruct (Z.eqb_spec (Z.shiftr m CDA.MANTISSA_BITS) 0) as [Em|]; [|done]. cbn [assertK mbind option_bind] in H.
  destruct (Z.eqb_spec (Z.shiftr k CDA.EXPONENT_BITS) 0) as [Ek|]; [|done]. cbn [assertK mbind option_bind] in H.
  injection H as <-. simpl. split_and!; try done. unfold CDA.prio_ok. simpl.
  assert (Hsmall : forall x b, 0 <= x -> 0 <= b -> Z.shiftr x b = 0 -> x < 2 ^ b).
  { intros x b Hx Hb E. rewrite Z.shiftr_div_pow2 in E by done.
    pose proof (Z.pow_pos_nonneg 2 b ltac:(lia) Hb). apply Z.div_small_iff in E; lia. }
  split; [done|]. split.
  - split; [done|]. by apply (Hsmall k 40).
  - assert (0 <= m) by apply uadd_range. split; [done|]. by apply (Hsmall m 20).
Qed.

Lemma wp_flushQuantum d x s :
  domains s !! d = Some x -> domOk x -> 0 <= inflation (clock s) ->
  wp (flushQuantum d) (fun _ s' => exists c, s' = set_domains (<[d := mkDom c (currentPA x)]> (domains s)) s /\
    domOk (mkDom c (currentPA x)) /\ CDA.consumedTicks c = 0 /\ pclass (mkDom c (currentPA x)) = pclass x) s.
Proof.
  intros Hx (Hp & Hcl & Hcon & Hq & Hpu) Hk. unfold flushQuantum. wsteps.
  unfold CDA.flushQuantum. destruct (CDA.adjustPriority _ _ _ _) as [c|] eqn:E; [|done]. cbn [mbind option_bind].
  wsteps. destruct (adjustPriority_ok _ _ _ _ _ E Hk ltac:(apply Hp)) as (H1 & H2 & H3 & H4 & _).
  eexists. split; [done|]. unfold domOk, pclass. simpl. rewrite H3, H4. unfold pclass in *. rewrite H2. split_and!; try done; lia.
Qed.

(** Domain [d] with its ring, after an operation on the ring. *)
Definition ring_set (h : gmap Z Ring.PA) (d : Z) (x : domain) (s : t) : t :=
  set_domains (<[d := x]> (domains s)) (set_annexes h s).

Lemma wp_notRunnable d k s :
  statsOk (stats s) ->
  wp (doEvents d (replicate k Ring.StatPANotRunnable)) (fun _ s' => exists st, s' = set_stats st s /\ statsOk st) s.
Proof.
  revert s. induction k as [|k IH]; intros s Hs; cbn [replicate doEvents]; wsteps.
  - exists (stats s). split; [by destruct s|done].
  - cbn [doEvent]. apply wp_modify. eapply wp_mono; [by apply IH|]. intros [] s' (st & -> & Hst).
    exists st. by destruct s.
Qed.

Lemma wp_stillRunnable d x s :
  domains s !! d = Some x -> ringOf (annexes s) (currentPA x) d -> currentPA x <> NULL -> statsOk (stats s) ->
  wp (stillRunnable d) (fun b s' => exists h' cur' st,
    s' = set_stats st (ring_set h' d (mkDom (cda x) cur') s) /\ statsOk st /\
    shrinks d (annexes s) h' /\ ringOf h' cur' d /\
    (if b then cur' <> NULL /\ exists n, h' !! cur' = Some n /\ Ring.canRun n = true else cur' = NULL)) s.
Proof.
  intros Hx Hr Hcur Hs. destruct (ringOf_still _ _ _ Hr Hcur) as (b & h' & cur' & k & E & Hsh & Hr' & Hb).
  unfold stillRunnable, ringOp. wsteps. eapply wp_need; [exact E|]. wsteps. cbn [snd Ring.events].
  eapply wp_mono; [by apply wp_notRunnable|]. intros [] s' (st & -> & Hst). wsteps. simpl.
  exists h', cur', st. by split_and!.
Qed.

(** ** How the state of annexes evolves *)

(** The fields of an annex that scheduling does not change; interrupts are only
    added. *)
Definition keeps (i i' : info) : Prop :=
  cpuDomainAnnex i' = cpuDomainAnnex i /\ hasWork i' = hasWork i /\ reservedThread i' = reservedThread i /\
  awaitingDispatch i' = awaitingDispatch i /\ terminator i' = terminator i /\
  (pending i = true -> pending i' = true).

Definition annexOk (last : Z) (i : info) : Prop :=
  0 <= dispatchTicks i <= last /\ 0 <= pulseTicks i <= last + 2 ^ 50.

(** One annex, before and after. *)
Record evo (kernel : bool) (last : Z) (n n' : Ring.PA) : Prop := {
  v_keeps : keeps (Ring.annex n) (Ring.annex n');
  v_time : annexOk last (Ring.annex n');
  v_warn : kernel = true -> warningTicks (Ring.annex n) = noTime -> warningTicks (Ring.annex n') = noTime;
  v_ready : Ring.cpuDomainNext n <> NULL -> Ring.canRun n = true -> Ring.cpuDomainNext n' <> NULL;
  v_int : reservedThread (Ring.annex n') = NULL -> pending (Ring.annex n') = true ->
    pending (Ring.annex n) = true \/ Ring.cpuDomainNext n' <> NULL;
}.

Record evolves (s s' : t) : Prop := {
  e_kernel : kernelPA s' = kernelPA s;
  e_annex : forall a n', annexes s' !! a = Some n' -> exists n, annexes s !! a = Some n /\
    evo (a =? kernelPA s) (lastDispatchTime (clock s')) n n';
  e_some : forall a, is_Some (annexes s !! a) -> is_Some (annexes s' !! a);
  e_dom : forall d x, domains s !! d = Some x -> exists x', domains s' !! d = Some x' /\ pclass x' = pclass x;
  e_doms : dom (domains s') = dom (domains s);
}.

Lemma keeps_refl i : keeps i i.
Proof. by split_and!. Qed.

Lemma keeps_canRun n n' : keeps (Ring.annex n) (Ring.annex n') -> Ring.canRun n = true -> Ring.canRun n' = true.
Proof.
  intros (_ & E1 & E2 & E3 & _ & Hp). unfold Ring.canRun, ProcessAnnex.stillRunnable, awaitingDispatchInKernel. rewrite E1, E2, E3.
  rewrite !orb_true_iff, !andb_true_iff, !orb_true_iff. tauto.
Qed.

Lemma keeps_trans i j k : keeps i j -> keeps j k -> keeps i k.
Proof. intros (? & ? & ? & ? & ? & ?) (? & ? & ? & ? & ? & ?). split_and!; try congruence; auto. Qed.

Lemma evo_trans b l1 l2 n1 n2 n3 : evo b l1 n1 n2 -> evo b l2 n2 n3 -> evo b l2 n1 n3.
Proof.
  intros [K1 T1 W1 R1 I1] [K2 T2 W2 R2 I2]. split; auto.
  - by eapply keeps_trans.
  - intros H1 H2. apply R2; [by apply R1|]. by eapply keeps_canRun.
  - intros Hr Hp. destruct (I2 Hr Hp) as [Hp2|]; [|by right].
    assert (Hr2 : reservedThread (Ring.annex n2) = NULL) by (destruct K2 as (_ & _ & <- & _); done).
    destruct (I1 Hr2 Hp2) as [|Hn]; [by left|right]. apply R2; [done|].
    unfold Ring.canRun, ProcessAnnex.stillRunnable. by rewrite Hr2, Hp2, orb_true_r.
Qed.

Lemma evolves_trans s1 s2 s3 : evolves s1 s2 -> evolves s2 s3 -> evolves s1 s3.
Proof.
  intros [K1 A1 S1 D1 E1] [K2 A2 S2 D2 E2]. split; [congruence| |by auto| |congruence].
  - intros a n3 H3. destruct (A2 a n3 H3) as (n2 & H2 & V2). destruct (A1 a n2 H2) as (n1 & H1 & V1).
    exists n1. split; [done|]. rewrite K1 in V2. by eapply evo_trans.
  - intros d x Hx. destruct (D1 d x Hx) as (x2 & Hx2 & Ec2). destruct (D2 d x2 Hx2) as (x3 & ? & ?).
    exists x3. split; [done|]. congruence.
Qed.

Lemma evo_refl b last n : annexOk last (Ring.annex n) -> evo b last n n.
Proof. intros H. split; auto using keeps_refl. Qed.

(** All annexes have sane times. *)
Definition timesOk (s : t) : Prop := forall a n, annexes s !! a = Some n -> annexOk (lastDispatchTime (clock s)) (Ring.annex n).

Lemma evolves_times s s' : evolves s s' -> timesOk s'.
Proof. intros [_ H _ _ _] a n Hn. by destruct (H a n Hn) as (n0 & _ & [_ ? _ _ _]). Qed.

Lemma evolves_refl s : timesOk s -> evolves s s.
Proof. intros H. split; eauto using evo_refl. Qed.

(** The other fields do not matter. *)
Lemma evolves_ext s s1 s2 :
  evolves s s1 -> kernelPA s2 = kernelPA s1 -> annexes s2 = annexes s1 -> domains s2 = domains s1 ->
  lastDispatchTime (clock s2) = lastDispatchTime (clock s1) -> evolves s s2.
Proof.
  intros [K A S D E] E1 E2 E3 E4. split; rewrite ?E1, ?E2, ?E3, ?E4; auto.
Qed.

Lemma evolves_upd s a n i :
  timesOk s -> annexes s !! a = Some n -> keeps (Ring.annex n) i -> annexOk (lastDispatchTime (clock s)) i ->
  (a = kernelPA s -> warningTicks (Ring.annex n) = noTime -> warningTicks i = noTime) ->
  (pending i = true -> pending (Ring.annex n) = true \/ Ring.cpuDomainNext n <> NULL) ->
  evolves s (set_annexes (<[a := Ring.mkPA (Ring.cpuDomainNext n) i]> (annexes s)) s).
Proof.
  intros Ht Hn Hk Ho Hw Hi. split; simpl; eauto.
  - intros b n'. destruct (decide (b = a)) as [->|].
    + rewrite lookup_insert_eq. intros [= <-]. exists n. split; [done|]. split; simpl; auto.
      intros ?%Z.eqb_eq. auto.
    + rewrite lookup_insert_ne by done. intros Hn'. eauto using evo_refl.
  - intros b. destruct (decide (b = a)) as [->|]; [rewrite lookup_insert_eq; by eexists|by rewrite lookup_insert_ne].
Qed.

(** A domain is charged or its current annex changes. *)
Lemma evolves_dom s d x x' :
  timesOk s -> domains s !! d = Some x -> pclass x' = pclass x ->
  evolves s (set_domains (<[d := x']> (domains s)) s).
Proof.
  intros Ht Hx Hp. split; simpl; eauto using evo_refl.
  - intros d' y Hy. destruct (decide (d' = d)) as [->|].
    + rewrite lookup_insert_eq. eexists. split; [done|]. congruence.
    + rewrite lookup_insert_ne by done. eauto.
  - apply dom_insert_lookup_L. by eexists.
Qed.

Lemma evolves_relinked s d x x' R h' :
  timesOk s -> domains s !! d = Some x -> pclass x' = pclass x -> relinked d R (annexes s) h' ->
  (forall a n n', annexes s !! a = Some n -> R a n n' -> evo (a =? kernelPA s) (lastDispatchTime (clock s)) n n') ->
  evolves s (ring_set h' d x' s).
Proof.
  intros Ht Hx Hp HR Hev. apply evolves_trans with (set_annexes h' s).
  - split; simpl; eauto.
    + intros a n' Hn'. destruct (relinked_inv _ _ _ _ _ _ HR Hn') as (n & Hn & Hr & _). eauto.
    + intros a [n Hn]. destruct (relinked_Some _ _ _ _ _ _ HR Hn) as (n' & -> & _). by eexists.
  - apply (evolves_dom (set_annexes h' s) d x x'); [|done..]. intros a n' Hn'. simpl in *.
    destruct (relinked_inv _ _ _ _ _ _ HR Hn') as (n & Hn & Hr & _). by destruct (Hev a n n' Hn Hr).
Qed.

Lemma evolves_shrinks s d x x' h' :
  timesOk s -> domains s !! d = Some x -> pclass x' = pclass x -> shrinks d (annexes s) h' ->
  evolves s (ring_set h' d x' s).
Proof.
  intros Ht Hx Hp Hsh. eapply evolves_relinked; [done..|exact Hsh|].
  intros a n n' Hn (E & Hn0 & Hrun). split; rewrite ?E; auto using keeps_refl.
  by eapply Ht.
Qed.

End DispatchInv.
