(* ===== verification/DispatchSafe.v ===== *)
(** * DispatchSafe: the dispatch queue is safe

    The operations of DispatchQueue.v keep the invariant of DispatchInv.v, in any
    order, and dispatch the right annex. *)

From stdpp Require Import base numbers option gmap list.
From S2P Require Import K42 Prelude ProcessAnnex CPUDomainAnnex CPUDomainRing DispatchHeap CPUDomainRings DispatchQueue DispatchInv.

Module DispatchSafe.

Import ProcessAnnex CPUDomainRings DispatchQueue DispatchInv.

(** An annex that can always run. *)
Definition keeper (h : gmap Z Ring.PA) (d p : Z) : Prop :=
  exists n, h !! p = Some n /\ Ring.cpuDomainNext n <> NULL /\ cdaOf n = d /\
    hasWork (Ring.annex n) = true /\ reservedThread (Ring.annex n) = NULL.

Definition clockOk (k : Clock) : Prop :=
  0 <= lastDispatchTime k < nextInflationTime k /\
  nextInflationTime k <= lastDispatchTime k + inflationInterval k /\
  0 < inflationInterval k < 2 ^ 50 /\ lastDispatchTime k < 2 ^ 61 /\ 0 <= inflation k /\ 0 <= warningQuantum k < 2 ^ 50.

(** [p1] and [p2], in domains [d1] and [d2], are the annexes of the dummy domain
    and of the idle loop: they always have work.  [T] are annexes that are
    being taken off the processor. *)
Section keepers.
Context (d1 p1 d2 p2 : Z) (T : gset Z).

Record Good (s : t) (q : list (Z * Z)) (z dc : Z) : Prop := {
  g_core : Core (annexes s) (domains s) q z dc;
  g_heap : Heap.wf (heap s) q;
  g_doms : forall d x, domains s !! d = Some x -> domOk x;
  g_clock : clockOk (clock s);
  g_stats : statsOk (stats s);
  g_borrowers : length (cdaBorrowers (borrowers s)) = 8%nat;
  g_size : (size (domains s) <= 17)%nat;
  g_times : timesOk s;
  g_keep1 : keeper (annexes s) d1 p1;
  g_keep2 : keeper (annexes s) d2 p2;
  g_keep : d1 <> d2;
  (* a preempted annex waits in its ring, and its domain is of the class *)
  g_plen : length (preemptedPA s) = NUM_PRIORITY_CLASSES;
  g_preempted : forall c p, preemptedPA s !! c = Some p -> p <> NULL -> p <> kernelPA s /\
    exists n x, annexes s !! p = Some n /\ Ring.cpuDomainNext n <> NULL /\ awaitingDispatch (Ring.annex n) = true /\
      domains s !! cdaOf n = Some x /\ Z.to_nat (pclass x) = c;
  (* an interrupt makes an annex ready *)
  g_int : forall a n, annexes s !! a = Some n -> a ∉ T -> cdaOf n <> NULL -> reservedThread (Ring.annex n) = NULL ->
    pending (Ring.annex n) = true -> Ring.cpuDomainNext n <> NULL;
  g_term : forall a n, annexes s !! a = Some n -> terminationPending (Ring.annex n) = true -> a ∈ T;
  (* the kernel is alone in its domain *)
  g_kernel : kernelPA s <> NULL -> exists n, annexes s !! kernelPA s = Some n /\
    warningTicks (Ring.annex n) = noTime /\ cdaOf n <> NULL /\
    forall b m, annexes s !! b = Some m -> cdaOf m = cdaOf n -> b = kernelPA s;
}.

(** Between operations. *)
Definition Inv (s : t) : Prop := exists q,
  Good s q NULL (dispatchedCDA s) /\ inRing (annexes s) (dispatchedCDA s) (dispatchedPA s) /\
  forall c, preemptedPA s !! c <> Some (dispatchedPA s).

Lemma keeper_evolves s s' d p : evolves s s' -> keeper (annexes s) d p -> keeper (annexes s') d p.
Proof.
  intros He (n & Hn & Hx & Hd & Hw & Hr). destruct (e_some _ _ He p ltac:(by eexists)) as [n' Hn'].
  destruct (e_annex _ _ He p n' Hn') as (m & Hm & [(K1 & K2 & K3 & _) _ _ Hrd _]).
  assert (m = n) as -> by congruence. exists n'. split; [done|]. split; [|by rewrite K1, K2, K3].
  apply Hrd; [done|]. unfold Ring.canRun, ProcessAnnex.stillRunnable. by rewrite Hr, Hw.
Qed.

Lemma evolves_annex s s' a n :
  evolves s s' -> annexes s !! a = Some n ->
  exists n', annexes s' !! a = Some n' /\ evo (a =? kernelPA s) (lastDispatchTime (clock s')) n n'.
Proof.
  intros He Hn. destruct (e_some _ _ He a ltac:(by eexists)) as [n' Hn'].
  destruct (e_annex _ _ He a n' Hn') as (m & Hm & V). assert (m = n) as -> by congruence. eauto.
Qed.

(** What follows from the evolution of the annexes. *)
Lemma good_step s s' q z dc q' z' dc' :
  Good s q z dc -> evolves s s' ->
  Core (annexes s') (domains s') q' z' dc' -> Heap.wf (heap s') q' ->
  (forall d x, domains s' !! d = Some x -> domOk x) -> clockOk (clock s') -> statsOk (stats s') ->
  length (cdaBorrowers (borrowers s')) = 8%nat -> preemptedPA s' = preemptedPA s ->
  Good s' q' z' dc'.
Proof.
  intros G He HC Hh Hd Hk Hs Hb Hp. pose proof (e_kernel _ _ He) as Ek. split; try done.
  - rewrite <- (size_dom (domains s')), (e_doms _ _ He), size_dom. by apply G.
  - by apply evolves_times with s.
  - apply (keeper_evolves _ _ _ _ He), G.
  - apply (keeper_evolves _ _ _ _ He), G.
  - apply G.
  - rewrite Hp. apply G.
  - rewrite Hp, Ek. intros c p E Hn. destruct (g_preempted _ _ _ _ G c p E Hn) as (Hpk & n & x & Hpn & Hx & Ha & Hdx & Hc).
    split; [done|]. destruct (evolves_annex _ _ _ _ He Hpn) as (n' & Hn' & [(K1 & _ & _ & K4 & _) _ _ Hrd _]).
    destruct (e_dom _ _ He _ _ Hdx) as (x' & Hx' & Hcx). exists n', x'. rewrite K1, K4, Hcx. split_and!; try done.
    apply Hrd; [done|]. unfold Ring.canRun, awaitingDispatchInKernel. by rewrite Ha, orb_true_r.
  - intros a n' Hn' Hex Hd' Hr Hpd. destruct (e_annex _ _ He a n' Hn') as (n & Hn & [(K1 & _ & K3 & _) _ _ Hrd Hi]).
    destruct (Hi Hr Hpd) as [Hpn|]; [|done]. rewrite K1 in Hd'. rewrite K3 in Hr.
    pose proof (g_int _ _ _ _ G a n Hn Hex Hd' Hr Hpn) as Hx. apply Hrd; [done|].
    unfold Ring.canRun, ProcessAnnex.stillRunnable. by rewrite Hr, Hpn, orb_true_r.
  - intros a n' Hn' Hp'. destruct (e_annex _ _ He a n' Hn') as (n & Hn & [(_ & _ & _ & _ & K5 & _) _ _ _ _]).
    apply (g_term _ _ _ _ G a n Hn). unfold terminationPending in *. by rewrite <- K5.
  - rewrite Ek. intros Hkn. destruct (g_kernel _ _ _ _ G Hkn) as (n & Hn & Hw & Hd' & Hal).
    destruct (evolves_annex _ _ _ _ He Hn) as (n' & Hn' & [(K1 & _) _ Hwn _ _]). exists n'. rewrite K1. split_and!; try done.
    + apply Hwn; [by rewrite Z.eqb_refl|done].
    + intros b m' Hm' E. destruct (e_annex _ _ He b m' Hm') as (m & Hm & [(K & _) _ _ _ _]). apply (Hal b m Hm). congruence.
Qed.

(** A keeper's domain is in the queue or dispatched. *)
Lemma keeper_queued s q z dc d p :
  Good s q z dc -> keeper (annexes s) d p -> d <> z /\ (d = dc \/ d ∈ q.*2).
Proof.
  intros G (n & Hn & Hx & Hd & _). pose proof (g_core _ _ _ _ G) as HC.
  assert (Hin : inRing (annexes s) d p) by (exists n; done).
  destruct (core_member HC d p Hin (core_member_nz HC _ _ Hin)) as (x & Hdx & Hr & Hc).
  by apply (c_run _ _ _ _ _ HC d x).
Qed.

(** The heap never empties: there are entries besides one that is not a keeper's. *)
Lemma queue_two s q z dc d :
  Good s q z dc -> d <> d1 -> d <> d2 -> d ∈ q.*2 -> (1 < length q)%nat.
Proof.
  intros G H1 H2 Hin. destruct (keeper_queued _ _ _ _ _ _ G (g_keep1 _ _ _ _ G)) as [_ K1].
  destruct (keeper_queued _ _ _ _ _ _ G (g_keep2 _ _ _ _ G)) as [_ K2]. pose proof (g_keep _ _ _ _ G).
  rewrite <- (length_fmap snd). destruct q.*2 as [|x [|y l]] eqn:E; [by apply not_elem_of_nil in Hin| |simpl; lia].
  exfalso. rewrite list_elem_of_singleton in *. destruct K1 as [K1|K1], K2 as [K2|K2]; congruence.
Qed.

Lemma queue_one s q z dc : Good s q z dc -> (0 < length q)%nat.
Proof.
  intros G. destruct (keeper_queued _ _ _ _ _ _ G (g_keep1 _ _ _ _ G)) as [_ K1].
  destruct (keeper_queued _ _ _ _ _ _ G (g_keep2 _ _ _ _ G)) as [_ K2]. pose proof (g_keep _ _ _ _ G).
  destruct q; simpl in *; [|lia]. destruct K1 as [K1|?%not_elem_of_nil]; [|done]. destruct K2 as [K2|?%not_elem_of_nil]; [congruence|done].
Qed.

(** Annexes and domain of [d] are as before. *)
Definition untouched (s s' : t) (d : Z) : Prop :=
  (forall a n, annexes s !! a = Some n -> cdaOf n = d -> annexes s' !! a = Some n) /\ domains s' !! d = domains s !! d.

(** The fields that choosing a domain leaves alone. *)
Definition same_disp (s s' : t) : Prop :=
  dispatchedCDA s' = dispatchedCDA s /\ dispatchedPA s' = dispatchedPA s /\ preemptedPA s' = preemptedPA s /\
  clock s' = clock s /\ borrowers s' = borrowers s /\ unblocked s' = unblocked s.

Lemma inRing_untouched s s' d a : untouched s s' d -> inRing (annexes s) d a -> inRing (annexes s') d a.
Proof. intros [H _] (n & Hn & Hx & Hd). exists n. eauto. Qed.

Lemma shrinks_cda d h h' a n n' : shrinks d h h' -> h !! a = Some n -> h' !! a = Some n' -> cdaOf n' = cdaOf n.
Proof.
  intros H Hn Hn'. destruct (relinked_Some _ _ _ _ _ _ H Hn) as (m & Hm & (E & _) & _).
  assert (m = n') as -> by congruence. by rewrite E.
Qed.

(** ** stillRunnable *)

Lemma good_still s q dc d x :
  Good s q NULL dc -> domains s !! d = Some x -> currentPA x <> NULL ->
  wp (stillRunnable d) (fun b s' => evolves s s' /\ same_disp s s' /\ heap s' = heap s /\
    (forall d', d' <> d -> untouched s s' d') /\
    (exists x', domains s' !! d = Some x' /\ cda x' = cda x /\
      if b then Good s' q NULL dc /\ currentPA x' <> NULL /\
                exists n, annexes s' !! currentPA x' = Some n /\ Ring.canRun n = true
      else Good s' q d dc /\ currentPA x' = NULL)) s.
Proof.
  intros G Hx Hcur. pose proof (g_core _ _ _ _ G) as HC. pose proof HC as [Cr Ca Cn Ce Cd Cu Cf].
  destruct (Cr d x Hx) as [Hd Hr].
  eapply wp_mono; [apply (wp_stillRunnable d x); [done..|exact (g_stats _ _ _ _ G)]|].
  intros b s' (h' & cur' & st & -> & Hst & Hsh & Hr' & Hb).
  assert (He : evolves s (ring_set h' d (mkDom (cda x) cur') s)) by (eapply evolves_shrinks; [apply G|done..]).
  set (s' := set_stats st _). assert (He' : evolves s s') by (by eapply evolves_ext).
  assert (Hdom : forall d' y, domains s' !! d' = Some y -> domOk y).
  { simpl. intros d' y. destruct (decide (d' = d)) as [->|].
    - rewrite lookup_insert_eq. intros [= <-]. pose proof (g_doms _ _ _ _ G d x Hx) as Hok. exact Hok.
    - rewrite lookup_insert_ne by done. apply G. }
  assert (Hcore : forall z', (z' = NULL \/ z' = d) -> (cur' <> NULL <-> d <> z') ->
    Core (annexes s') (domains s') q z' dc).
  { intros z' Hz' Hiff. apply (core_step HC d x); try done; auto.
    - intros d' c Hne. eapply relinked_frame; [exact Hsh| |done]. by intros a n n' (-> & _).
    - intros a n' Hn'. destruct (relinked_inv _ _ _ _ _ _ Hsh Hn') as (n & Hn & (E & Hnull & _) & _).
      destruct (Ca a n Hn) as (? & H0 & ?). rewrite E. split; [done|]. split; [|done]. auto.
    - intros p Hin _. destruct (Ce p d Hin) as (_ & H). destruct (H Hd) as (y & Hy & ->). assert (y = x) as -> by congruence. done.
    - simpl. rewrite Hiff. pose proof (proj1 (Cu d x Hx) Hcur) as [_ ?]. tauto.
    - simpl. intros E Hz. by apply Hiff in Hz. }
  split; [done|]. split; [by split_and!|]. split; [done|]. split.
  - intros d' Hne. split; [|simpl; by rewrite lookup_insert_ne].
    intros a n Hn Hdn. destruct (relinked_Some _ _ _ _ _ _ Hsh Hn) as (n' & Hn' & _ & E). simpl.
    rewrite Hn', E by congruence. done.
  - exists (mkDom (cda x) cur'). split; [simpl; by rewrite lookup_insert_eq|]. split; [done|].
    destruct b.
    + destruct Hb as (Hc' & n & Hn & Hrun). split; [|by eauto].
      eapply good_step; [exact G|done| |apply G|done|apply G|done|apply G|done]. apply Hcore; [by left|]. tauto.
    + split; [|done]. eapply good_step; [exact G|done| |apply G|done|apply G|done|apply G|done].
      apply Hcore; [by right|]. tauto.
Qed.

(** ** A domain leaves the queue *)

Lemma same_disp_refl s : same_disp s s.
Proof. by split_and!. Qed.

Lemma same_disp_trans s1 s2 s3 : same_disp s1 s2 -> same_disp s2 s3 -> same_disp s1 s3.
Proof. intros (? & ? & ? & ? & ? & ?) (? & ? & ? & ? & ? & ?). split_and!; congruence. Qed.

Lemma untouched_trans s1 s2 s3 d : untouched s1 s2 d -> untouched s2 s3 d -> untouched s1 s3 d.
Proof. intros [H1 E1] [H2 E2]. split; [|congruence]. eauto. Qed.

Lemma good_retire s q dc d x :
  Good s q d dc -> domains s !! d = Some x -> currentPA x = NULL ->
  wp (retire d) (fun _ s' => exists c, Good s' q d dc /\ CDA.consumedTicks c = 0 /\
    domains s' = <[d := mkDom c NULL]> (domains s) /\
    evolves s s' /\ same_disp s s' /\ heap s' = heap s /\ annexes s' = annexes s) s.
Proof.
  intros G Hx Hn. pose proof (g_core _ _ _ _ G) as HC. unfold retire. wsteps.
  eapply wp_mono; [apply (wp_flushQuantum d x); [done|by apply (g_doms _ _ _ _ G d)|by apply (g_clock _ _ _ _ G)]|].
  intros [] s1 (c & -> & Hok & Hc & Hcl). rewrite Hn in *.
  eapply wp_mono; [apply (wp_statCDANotRunnable d (mkDom c NULL))|].
  - simpl. by rewrite lookup_insert_eq.
  - by destruct Hok as (_ & ? & _).
  - apply (g_stats _ _ _ _ G).
  - intros [] s' (st & -> & Hst). exists c.
    assert (He : evolves s (set_stats st (set_domains (<[d:=mkDom c NULL]> (domains s)) s))).
    { eapply evolves_ext; [apply (evolves_dom s d x (mkDom c NULL)); [apply G|done..]|done..]. }
    split; [|split; [done|split; [done|split; [done|split; [by split_and!|done]]]]].
    eapply good_step; [exact G|done| |apply G| |apply G|done|apply G|done].
    + pose proof (core_cda HC d x c Hx ltac:(by right) ltac:(done) ltac:(done)) as HC'. rewrite Hn in HC'. exact HC'.
    + simpl. intros d' y. destruct (decide (d' = d)) as [->|]; [rewrite lookup_insert_eq; by intros [= <-]|].
      rewrite lookup_insert_ne by done. apply G.
Qed.

Lemma head_min h q :
  Heap.wf h q -> (0 < length q)%nat -> exists e, Heap.getHead h = Some e.2 /\ Heap.minimal e q.
Proof.
  intros Hw Hl. destruct (Heap.wf_head h q Hw) as (e & He & Hin & Hmin); [by rewrite (Heap.wf_count _ _ Hw)|].
  exists e. split; [|done]. unfold Heap.getHead. rewrite bool_decide_true by (by rewrite (Heap.wf_count _ _ Hw)).
  simpl. by rewrite He.
Qed.

(** Entries are determined by their domains. *)
Lemma entry_unique (q : list (Z * Z)) e e' : NoDup q.*2 -> e ∈ q -> e' ∈ q -> e.2 = e'.2 -> e = e'.
Proof.
  induction q as [|x q IH]; csimpl; [by intros _ ?%not_elem_of_nil|].
  intros [Hx Hnd]%NoDup_cons [->|H1]%elem_of_cons [->|H2]%elem_of_cons E; [done| | |auto].
  - exfalso. apply Hx. rewrite E. apply list_elem_of_fmap. eauto.
  - exfalso. apply Hx. rewrite <- E. apply list_elem_of_fmap. eauto.
Qed.

(** A domain without annexes is dropped from the heap [h'] or from being
    dispatched. *)
Lemma good_drop s q dc d x h' q' dc' :
  Good s q d dc -> domains s !! d = Some x -> currentPA x = NULL -> CDA.consumedTicks (cda x) = 0 ->
  Heap.wf h' q' -> NoDup q'.*2 -> dc' ∉ q'.*2 -> d <> dc' -> d ∉ q'.*2 -> q' ⊆ q ->
  (forall d', d' <> d -> (d' = dc \/ d' ∈ q.*2) <-> (d' = dc' \/ d' ∈ q'.*2)) ->
  Good (set_heap h' s) q' NULL dc' /\ evolves s (set_heap h' s).
Proof.
  intros G Hx Hn Hc Hw Hnd Hdc Hd Hdq Hsub Hiff. pose proof (g_core _ _ _ _ G) as HC.
  assert (He : evolves s (set_heap h' s)) by (eapply evolves_ext; [apply evolves_refl, G|done..]).
  split; [|done]. eapply good_step; [exact G|done| |done|apply G|apply G|apply G|apply G|done].
  apply (core_requeue HC d x); try done; auto.
  - intros p Hin. exfalso. apply Hdq, list_elem_of_fmap. by exists (p, d).
  - rewrite Hn. split; [done|]. intros [_ [->|]]; done.
Qed.

(** The entries of a heap without one of them. *)
Lemma queue_split (q q' : list (Z * Z)) e :
  NoDup q.*2 -> q ≡ₚ e :: q' ->
  NoDup q'.*2 /\ (e.2 ∉ q'.*2) /\ q' ⊆ q /\ (forall d, d ∈ q.*2 <-> d = e.2 \/ d ∈ q'.*2) /\ length q = S (length q').
Proof.
  intros Hnd Hp. rewrite Hp in Hnd. csimpl in Hnd. apply NoDup_cons in Hnd as [He Hnd]. split_and!; try done.
  - intros a Ha. rewrite Hp. by right.
  - intros d. rewrite Hp. csimpl. by rewrite elem_of_cons.
  - by rewrite Hp.
Qed.

Lemma good_deleteHead s q dc d x :
  Good s q d dc -> domains s !! d = Some x -> currentPA x = NULL -> CDA.consumedTicks (cda x) = 0 ->
  Heap.getHead (heap s) = Some d -> (1 < length q)%nat ->
  exists h' q', Heap.deleteHead (heap s) = Some h' /\ Good (set_heap h' s) q' NULL dc /\ evolves s (set_heap h' s) /\
    (length q' < length q)%nat /\ q' ⊆ q.
Proof.
  intros G Hx Hn Hc Hg Hl. pose proof (g_core _ _ _ _ G) as [Cr Ca Cn Ce Cd Cu Cf].
  destruct (Heap.deleteHead_spec (heap s) q (g_heap _ _ _ _ G)) as (h' & y & q' & E & Eg & Hp & Hw & _).
  { by rewrite (Heap.wf_count _ _ (g_heap _ _ _ _ G)). }
  exists h', q'. split; [done|]. assert (y.2 = d) as <- by congruence.
  destruct (queue_split q q' y Cn Hp) as (Hnd & Hyq & Hsub & Hel & Hlen).
  destruct (good_drop s q dc y.2 x h' q' dc) as [G' Hev]; try done.
  - intros Hin. apply Cd, Hel. by right.
  - intros E0. apply Cd, Hel. by left.
  - intros d' Hne. rewrite Hel. tauto.
  - split_and!; try done. lia.
Qed.

(** ** cleanHeap *)

(** The head of the heap can run and no domain in it has a better priority. *)
Definition head_runs (s : t) (q : list (Z * Z)) : Prop :=
  exists e x n, Heap.getHead (heap s) = Some e.2 /\ Heap.minimal e q /\ domains s !! e.2 = Some x /\
    e.1 = prio x /\ currentPA x <> NULL /\ annexes s !! currentPA x = Some n /\ Ring.canRun n = true.

Lemma good_clean dc fuel : forall s q,
  (length q < fuel)%nat -> Good s q NULL dc ->
  wp (cleanHeap_loop fuel) (fun _ s' => exists q', Good s' q' NULL dc /\ evolves s s' /\ same_disp s s' /\
    q'.*2 ⊆ q.*2 /\ (forall d, d ∉ q.*2 -> untouched s s' d) /\ head_runs s' q') s.
Proof.
  induction fuel as [|fuel IH]; intros s q Hf G; [lia|]. cbn [cleanHeap_loop].
  pose proof (g_core _ _ _ _ G) as [Cr Ca Cn Ce Cd Cu Cf].
  destruct (head_min _ _ (g_heap _ _ _ _ G) (queue_one _ _ _ _ G)) as ([pr d] & Hg & Hmin).
  destruct (Ce pr d (proj1 Hmin)) as ([x Hx] & Hpr). destruct (Cr d x Hx) as [Hd _].
  destruct (Hpr Hd) as (y & Hy & Epr). assert (y = x) as -> by congruence.
  assert (Hdq : d ∈ q.*2) by (apply list_elem_of_fmap; exists (pr, d); split; [done|apply Hmin]).
  assert (Hcur : currentPA x <> NULL) by (apply (Cu d x Hx); tauto).
  unfold getHead. wsteps. eapply wp_need; [exact Hg|]. cbn [snd]. wsteps.
  eapply wp_mono; [by apply (good_still s q dc d x)|].
  intros b s1 (He1 & Hsd1 & Eh1 & Hunt1 & x1 & Hx1 & Ec1 & Hb). destruct b.
  - destruct Hb as (G1 & Hc1 & n & Hn & Hrun). wsteps. exists q. split_and!; try done.
    + intros d' Hd'. apply Hunt1. by intros ->.
    + exists (pr, d), x1, n. rewrite Eh1. split_and!; try done. simpl. unfold prio. rewrite Ec1. exact Epr.
  - destruct Hb as (G1 & Hc1). wsteps. eapply wp_mono; [by apply (good_retire s1 q dc d x1)|].
    intros [] s2 (c & G2 & Hcc & Ed2 & He2 & Hsd2 & Eh2 & Ea2). wsteps.
    destruct (keeper_queued _ _ _ _ _ _ G1 (g_keep1 _ _ _ _ G1)) as [Hk1 _].
    destruct (keeper_queued _ _ _ _ _ _ G1 (g_keep2 _ _ _ _ G1)) as [Hk2 _].
    destruct (good_deleteHead s2 q dc d (mkDom c NULL)) as (h' & q' & Edel & G3 & He3 & Hlen & Hsub); try done.
    { by rewrite Ed2, lookup_insert_eq. }
    { by rewrite Eh2, Eh1. }
    { by apply (queue_two s q NULL dc d). }
    eapply wp_updHeap; [exact Edel|]. eapply wp_mono; [apply (IH _ q'); [lia|done]|].
    intros [] s' (q2 & G' & He' & Hsd' & Hsub' & Hunt' & Hhead).
    assert (Hsub2 : q'.*2 ⊆ q.*2) by (intros a (e & -> & He)%list_elem_of_fmap; apply list_elem_of_fmap; eauto).
    exists q2. split; [done|]. split; [|split; [|split; [|split; [|done]]]].
    + eapply evolves_trans; [exact He1|]. eapply evolves_trans; [exact He2|]. by eapply evolves_trans.
    + eapply same_disp_trans; [exact Hsd1|]. eapply same_disp_trans; [exact Hsd2|]. done.
    + by intros a ?%Hsub'%Hsub2.
    + intros d' Hd'. assert (Hne : d' <> d) by (by intros ->).
      eapply untouched_trans; [by apply Hunt1|]. apply untouched_trans with s2.
      * split; [intros a n; by rewrite Ea2|]. by rewrite Ed2, lookup_insert_ne.
      * apply (Hunt' d'). intros Hin. by apply Hd', Hsub2.
Qed.

(** ** Choosing a domain *)

(** The dispatched domain takes the place in the heap of another one, which is
    dispatched instead. *)
Lemma good_swap s q q' dc x h' y :
  Good s q NULL dc -> domains s !! dc = Some x -> q ≡ₚ y :: q' -> Heap.wf h' ((prio x, dc) :: q') ->
  Good (set_heap h' s) ((prio x, dc) :: q') NULL y.2 /\ evolves s (set_heap h' s).
Proof.
  intros G Hx Hp Hw. pose proof (g_core _ _ _ _ G) as HC. pose proof HC as [Cr Ca Cn Ce Cd Cu Cf].
  assert (He : evolves s (set_heap h' s)) by (eapply evolves_ext; [apply evolves_refl, G|done..]).
  destruct (queue_split q q' y Cn Hp) as (Hnd & Hyq & Hsub & Hel & _).
  assert (Hyin : y.2 ∈ q.*2) by (apply Hel; by left).
  assert (Hne : y.2 <> dc) by congruence.
  destruct (Ce y.1 y.2) as ([xo Hxo] & _); [rewrite Hp; apply elem_of_cons; left; by destruct y|].
  assert (Hdq : dc ∉ q'.*2) by (intros Hin; apply Cd, Hel; by right).
  split; [|done]. eapply good_step; [exact G|done| |done|apply G..|done].
  apply (core_requeue HC y.2 xo); csimpl; try done; auto.
  - by apply NoDup_cons.
  - by apply not_elem_of_cons.
  - intros p d' Hd' [[= -> ->]|Hin]%elem_of_cons; [right; eauto|left; auto].
  - intros d' Hd' _. rewrite Hel, elem_of_cons. tauto.
  - intros p [[= _ E]|Hin]%elem_of_cons; [done|]. exfalso. apply Hyq, list_elem_of_fmap. by exists (p, y.2).
  - rewrite (Cu _ _ Hxo). tauto.
  - intros E Hz. by apply (Cf y.2).
Qed.

(** After a swap or a choice: the dispatched domain and what [evolves]. *)
Lemma two_keepers s q dc : Good s q dc dc -> (1 < length q)%nat.
Proof.
  intros G. destruct (keeper_queued _ _ _ _ _ _ G (g_keep1 _ _ _ _ G)) as [H1 [->|K1]]; [done|].
  destruct (keeper_queued _ _ _ _ _ _ G (g_keep2 _ _ _ _ G)) as [H2 [->|K2]]; [done|].
  pose proof (g_keep _ _ _ _ G). rewrite <- (length_fmap snd).
  destruct q.*2 as [|a [|b l]]; [by apply not_elem_of_nil in K1| |simpl; lia].
  rewrite list_elem_of_singleton in *. congruence.
Qed.

(** The dispatched domain can run, and no other domain has a better priority. *)
Definition best (s : t) (q : list (Z * Z)) : Prop :=
  exists x n, domains s !! dispatchedCDA s = Some x /\ currentPA x <> NULL /\
    annexes s !! currentPA x = Some n /\ Ring.canRun n = true /\ forall e, e ∈ q -> prio x <= e.1.

(** What choosing leaves alone. *)
Definition same_rest (s s' : t) : Prop :=
  preemptedPA s' = preemptedPA s /\ clock s' = clock s /\ unblocked s' = unblocked s.

Lemma good_choose s q :
  Good s q NULL (dispatchedCDA s) -> inRing (annexes s) (dispatchedCDA s) (dispatchedPA s) -> head_runs s q ->
  wp chooseDomain (fun _ s' => exists q', Good s' q' NULL (dispatchedCDA s') /\ evolves s s' /\ same_rest s s' /\
    best s' q') s.
Proof.
  intros G Hdp (e & xh & nh & Hg & Hmin & Hxh & Eeh & Hch & Hnh & Hrh). set (dc := dispatchedCDA s) in *.
  pose proof (g_core _ _ _ _ G) as HC. pose proof HC as [Cr Ca Cn Ce Cd Cu Cf].
  destruct (core_member HC dc _ Hdp (core_member_nz HC _ _ Hdp)) as (x & Hx & _ & Hcur).
  assert (Hehq : e.2 ∈ q.*2) by (apply list_elem_of_fmap; exists e; split; [done|apply Hmin]).
  assert (Hed : e.2 <> dc) by congruence.
  unfold chooseDomain, getHead. wsteps. eapply wp_need; [exact Hg|]. wsteps. fold dc.
  eapply wp_mono; [by apply (good_still s q dc dc x)|].
  intros b s1 (He1 & (Ed1 & Ep1 & Epp1 & Ek1 & Eb1 & Eu1) & Eh1 & Hunt1 & x1 & Hx1 & Ec1 & Hb).
  destruct (Hunt1 e.2 Hed) as [Hua Hud]. rewrite Hxh in Hud.
  assert (Hnh1 : annexes s1 !! currentPA xh = Some nh).
  { apply Hua; [done|]. destruct (Cr _ _ Hxh) as [_ Hr]. destruct (ringOf_cur _ _ _ Hr Hch) as (m & Hm & _ & ?). congruence. }
  destruct b.
  - destruct Hb as (G1 & Hc1 & n1 & Hn1 & Hr1). unfold hasHigherPriorityThan. wsteps. unfold CDA.hasHigherPriorityThan.
    change (CDA.whole (CDA.priority (cda xh))) with (prio xh). change (CDA.whole (CDA.priority (cda x1))) with (prio x1).
    apply wp_when; intros Hlt.
    + apply Z.ltb_lt in Hlt. wsteps.
      destruct (Heap.replaceHead_head (heap s1) q (prio x1, dc) (g_heap _ _ _ _ G1)) as (h' & y & q' & E & Eg & Hp & Hw).
      { rewrite (Heap.wf_count _ _ (g_heap _ _ _ _ G1)). by eapply queue_one. }
      eapply wp_updHeap; [exact E|]. wsteps. assert (Ey : y.2 = e.2) by congruence.
      destruct (good_swap s1 q q' dc x1 h' y G1 Hx1 Hp Hw) as [G2 He2]. rewrite Ey in G2.
      eexists. split; [|split; [|split]].
      * eapply good_step; [exact G2| |apply G2..|done]. eapply evolves_ext; [apply evolves_refl, G2|done..].
      * eapply evolves_ext; [eapply evolves_trans; [exact He1|exact He2]|done..].
      * by split_and!.
      * exists xh, nh. split_and!; try done. intros a [->|Ha]%elem_of_cons; simpl; [lia|].
        rewrite <- Eeh. apply Hmin. rewrite Hp. by right.
    + apply Z.ltb_ge in Hlt. exists q. rewrite Ed1. split_and!; try done.
      exists x1, n1. rewrite Ed1. split_and!; try done. intros a Ha. transitivity (prio xh); [done|]. rewrite <- Eeh. by apply Hmin.
  - destruct Hb as (G1 & Hc1). wsteps. eapply wp_mono; [by apply (good_retire s1 q dc dc x1)|].
    intros [] s2 (c & G2 & Hcc & Ed2 & He2 & (Edc2 & Edp2 & Epp2 & Ek2 & Eb2 & Eu2) & Eh2 & Ea2). wsteps.
    destruct (Heap.deleteHead_spec (heap s2) q (g_heap _ _ _ _ G2)) as (h' & y & q' & E & Eg & Hp & Hw & _).
    { rewrite (Heap.wf_count _ _ (g_heap _ _ _ _ G2)). by eapply two_keepers. }
    assert (Ey : y.2 = e.2) by congruence. destruct (queue_split q q' y Cn Hp) as (Hnd & Hyq & Hsub & Hel & _).
    eapply wp_updHeap; [exact E|]. wsteps.
    destruct (good_drop s2 q dc dc (mkDom c NULL) h' q' e.2) as [G3 He3]; try done.
    { by rewrite Ed2, lookup_insert_eq. }
    { by rewrite <- Ey. }
    { intros Hin. apply Cd, Hel. by right. }
    { intros d' Hd'. rewrite Hel, Ey. tauto. }
    exists q'. split; [|split; [|split]].
    + eapply good_step; [exact G3| |apply G3..|done]. eapply evolves_ext; [apply evolves_refl, G3|done..].
    + eapply evolves_ext; [eapply evolves_trans; [exact He1|]; eapply evolves_trans; [exact He2|exact He3]|done..].
    + by split_and!; simpl; congruence.
    + exists xh, nh. simpl. rewrite Ed2, lookup_insert_ne, Ea2 by done. split_and!; try done.
      intros a Ha. rewrite <- Eeh. apply Hmin. by apply Hsub.
Qed.

(** ** One annex or one domain at a time *)

(** Links and domains of the annexes are the same. *)
Definition views (s s' : t) : Prop := forall a,
  (fun n => (Ring.cpuDomainNext n, cdaOf n)) <$> annexes s' !! a =
  (fun n => (Ring.cpuDomainNext n, cdaOf n)) <$> annexes s !! a.

Lemma views_refl s : views s s.
Proof. by intros a. Qed.

Lemma views_trans s1 s2 s3 : views s1 s2 -> views s2 s3 -> views s1 s3.
Proof. intros H1 H2 a. by rewrite H2, H1. Qed.

Lemma inRing_views s s' d a : views s s' -> inRing (annexes s) d a -> inRing (annexes s') d a.
Proof.
  intros Hv (n & Hn & Hx & Hd). specialize (Hv a). rewrite Hn in Hv. destruct (annexes s' !! a) as [n'|] eqn:Hn'; [|done].
  injection Hv as E1 E2. exists n'. by rewrite E1, E2.
Qed.

Definition upd_annex (a : Z) (n : Ring.PA) (i : info) (s : t) : t :=
  set_annexes (<[a := Ring.mkPA (Ring.cpuDomainNext n) i]> (annexes s)) s.

Lemma good_updPA s q z dc a n i :
  Good s q z dc -> annexes s !! a = Some n -> keeps (Ring.annex n) i -> annexOk (lastDispatchTime (clock s)) i ->
  (a = kernelPA s -> warningTicks (Ring.annex n) = noTime -> warningTicks i = noTime) ->
  (pending i = true -> pending (Ring.annex n) = true \/ Ring.cpuDomainNext n <> NULL) ->
  let s' := upd_annex a n i s in Good s' q z dc /\ evolves s s' /\ views s s'.
Proof.
  intros G Hn Hk Ho Hw Hi s'. pose proof (evolves_upd s a n i (g_times _ _ _ _ G) Hn Hk Ho Hw Hi) as He.
  split; [|split; [done|]].
  - eapply good_step; [exact G|exact He| |apply G..|done]. apply (core_upd (g_core _ _ _ _ G)); [done|apply Hk].
  - intros b. simpl. destruct (decide (b = a)) as [->|]; [|by rewrite lookup_insert_ne].
    rewrite lookup_insert_eq, Hn. simpl. by destruct Hk as (-> & _).
Qed.

Definition upd_dom (d : Z) (x : domain) (s : t) : t := set_domains (<[d := x]> (domains s)) s.

Lemma good_dom s q z dc d x x' :
  Good s q z dc -> domains s !! d = Some x -> Core (annexes s) (<[d := x']> (domains s)) q z dc ->
  domOk x' -> pclass x' = pclass x ->
  Good (upd_dom d x' s) q z dc /\ evolves s (upd_dom d x' s).
Proof.
  intros G Hx HC Hok Hp. pose proof (evolves_dom s d x x' (g_times _ _ _ _ G) Hx Hp) as He. split; [|done].
  eapply good_step; [exact G|exact He|done|apply G| |apply G..|done].
  simpl. intros d' y. destruct (decide (d' = d)) as [->|]; [rewrite lookup_insert_eq; by intros [= <-]|].
  rewrite lookup_insert_ne by done. apply G.
Qed.

(** Fields that the invariant does not mention, or only by their shape. *)
Lemma good_other s s' q z dc :
  Good s q z dc -> annexes s' = annexes s -> domains s' = domains s -> heap s' = heap s ->
  clock s' = clock s -> preemptedPA s' = preemptedPA s -> kernelPA s' = kernelPA s ->
  statsOk (stats s') -> length (cdaBorrowers (borrowers s')) = 8%nat ->
  Good s' q z dc /\ evolves s s' /\ views s s'.
Proof.
  intros G E1 E2 E3 E4 E5 E6 Hs Hb.
  assert (He : evolves s s') by (eapply evolves_ext; [apply evolves_refl, G|congruence..]).
  split; [|split; [done|intros a; by rewrite E1]].
  eapply good_step; [exact G|done|rewrite E1, E2; apply G|rewrite E3; apply G|rewrite E2; apply G|rewrite E4; apply G|done..].
Qed.

(** ** startDispatch *)

Lemma annexOk_mono l l' i : l <= l' -> annexOk l i -> annexOk l' i.
Proof. unfold annexOk. lia. Qed.

Lemma good_clock s q z dc k :
  Good s q z dc -> clockOk k -> lastDispatchTime (clock s) <= lastDispatchTime k ->
  Good (set_clock k s) q z dc /\ evolves s (set_clock k s) /\ views s (set_clock k s).
Proof.
  intros G Hk Hl. pose proof (g_times _ _ _ _ G) as Ht.
  assert (He : evolves s (set_clock k s)).
  { split; simpl; eauto. intros a n Hn. exists n. split; [done|]. apply evo_refl. eapply annexOk_mono; [exact Hl|]. by eapply Ht. }
  split; [|split; [done|by intros a]]. eapply good_step; [exact G|exact He|apply G..|done|apply G|apply G|done].
Qed.

(** The clock after the inflation has been brought up to date. *)
Definition inflated (k : Clock) (now : Z) : Clock :=
  if nextInflationTime k <=? now then
    let nit := uadd (nextInflationTime k) (inflationInterval k) in
    if nit <=? now
    then mkClock (usub now (inflationInterval k)) (uadd (inflation k) 1) (uadd now (inflationInterval k))
           (inflationInterval k) (tickScale k) (warningQuantum k)
    else mkClock (lastDispatchTime k) (uadd (inflation k) 1) nit (inflationInterval k) (tickScale k) (warningQuantum k)
  else k.

Definition clock_at (now : Z) (k : Clock) : Clock :=
  mkClock now (inflation k) (nextInflationTime k) (inflationInterval k) (tickScale k) (warningQuantum k).

(** The time since the last dispatch is charged at most once, and the next
    inflation is ahead. *)
Lemma inflated_ok k now :
  clockOk k -> lastDispatchTime k <= now < 2 ^ 61 ->
  let k1 := inflated k now in
  clockOk (clock_at now k1) /\
  0 <= usub now (lastDispatchTime k1) /\ lastDispatchTime k + usub now (lastDispatchTime k1) <= now.
Proof.
  intros (H1 & H2 & H3 & H4 & H5 & H6) Hn. unfold inflated. rewrite (uadd_small (nextInflationTime k)) by lia.
  assert (Hinf : 0 <= uadd (inflation k) 1) by apply uadd_range.
  destruct (Z.leb_spec (nextInflationTime k) now); [destruct (Z.leb_spec (nextInflationTime k + inflationInterval k) now)|];
    unfold clockOk, clock_at; cbn [lastDispatchTime nextInflationTime inflationInterval inflation warningQuantum].
  - rewrite (uadd_small now), (usub_small now (inflationInterval k)) by lia.
    rewrite usub_small by lia. lia.
  - rewrite usub_small by lia. lia.
  - rewrite usub_small by lia. lia.
Qed.

Lemma keeps_ticks i dt pt wt : keeps i (set_ticks dt pt wt i).
Proof. by split_and!. Qed.

Lemma keeps_interrupt i k : keeps i (setInterrupt k i).
Proof.
  split_and!; try done. unfold pending, setInterrupt. simpl. rewrite !negb_true_iff, !Z.eqb_neq.
  intros H E. by apply Z.lor_eq_0_iff in E as [? _].
Qed.

Lemma adjustQuantum_none c k sc delta :
  CDA.adjustQuantum c k sc delta = None ->
  let c0 := CDA.set_consumed c (uadd (CDA.consumedTicks c) delta) in
  CDA.adjustPriority c0 k sc (CDA.consumedTicks c0) = None.
Proof.
  unfold CDA.adjustQuantum, CDA.flushQuantum. destruct (_ <=? _); [|done].
  by destruct (CDA.adjustPriority _ _ _ _).
Qed.

Lemma adjustQuantum_some x k sc delta b c :
  CDA.adjustQuantum (cda x) k sc delta = Some (b, c) -> domOk x -> 0 <= k -> 0 <= delta < 2 ^ 62 ->
  forall cur, domOk (mkDom c cur) /\ pclass (mkDom c cur) = pclass x.
Proof.
  intros E (Hp & Hcl & Hcon & Hq & Hpu) Hk Hd cur. unfold CDA.adjustQuantum in E. cbn [CDA.set_consumed CDA.quantum CDA.consumedTicks] in E.
  rewrite uadd_small in E by lia. unfold domOk, pclass in *. simpl.
  destruct (Z.leb_spec (CDA.quantum (cda x)) (CDA.consumedTicks (cda x) + delta)).
  - unfold CDA.flushQuantum in E. destruct (CDA.adjustPriority _ _ _ _) as [c'|] eqn:Ea; [|done]. simpl in E.
    injection E as <- <-. apply adjustPriority_ok in Ea as (H1 & H2 & H3 & H4 & _); [|done|apply Hp]. simpl in *.
    rewrite H2, H3, H4. split_and!; try done; lia.
  - injection E as <- <-. simpl. split_and!; try done; lia.
Qed.

Lemma good_adjustQuantum s q dc delta :
  Good s q NULL dc -> inRing (annexes s) dc (dispatchedPA s) -> 0 <= delta < 2 ^ 62 ->
  wp (adjustQuantum dc delta) (fun _ s' => Good s' q NULL dc /\ evolves s s' /\ views s s' /\ same_disp s s' /\
    heap s' = heap s /\ stats s' = stats s) s.
Proof.
  intros G Hdp Hd. pose proof (g_core _ _ _ _ G) as HC. pose proof HC as [Cr Ca Cn Ce Cd Cu Cf].
  destruct (core_member HC dc _ Hdp (core_member_nz HC _ _ Hdp)) as (x & Hx & Hr & Hcur).
  unfold adjustQuantum. wsteps.
  destruct (CDA.adjustQuantum _ _ _ _) as [[b c]|] eqn:E; [|by apply adjustQuantum_none in E].
  assert (H0 : 0 <= inflation (clock s)) by apply (g_clock _ _ _ _ G).
  pose proof (adjustQuantum_some x _ _ _ _ _ E (g_doms _ _ _ _ G _ _ Hx) H0 Hd) as Hok.
  assert (HC1 : Core (annexes s) (<[dc := mkDom c (currentPA x)]> (domains s)) q NULL dc).
  { apply (core_cda HC); [done|by left| |done]. by intros ?%Cd. }
  destruct b.
  - destruct (ringOf_cur _ _ _ Hr Hcur) as (n & Hn & Hnx & Hdn). wsteps. eapply wp_updPA; [exact Hn|]. wsteps.
    eapply wp_getPA; [simpl; by rewrite lookup_insert_eq|]. wsteps. cbn [Ring.cpuDomainNext].
    pose proof (ringOf_next _ _ _ _ Hr Hcur Hn) as Hin.
    destruct (good_updPA s q NULL dc (currentPA x) n (resetPulse 0 (Ring.annex n))) as (G1 & He1 & Hv1); try done.
    + pose proof (g_times _ _ _ _ G _ _ Hn) as [? ?]. pose proof (g_clock _ _ _ _ G) as (_ & _ & _ & ? & _).
      unfold resetPulse, annexOk. simpl. rewrite uadd_small by lia. lia.
    + by left.
    + set (s1 := upd_annex _ _ _ s) in *.
      destruct (good_dom s1 q NULL dc dc x (mkDom c (Ring.cpuDomainNext n)) G1 Hx) as [G2 He2]; try apply Hok.
      * pose proof (core_cur HC1 dc (mkDom c (currentPA x)) (Ring.cpuDomainNext n)) as HC2.
        rewrite lookup_insert_eq, insert_insert_eq in HC2. specialize (HC2 eq_refl ltac:(by left) Hin).
        apply (core_upd HC2); [done|]. done.
      * split; [exact G2|]. split; [by eapply evolves_trans|]. split; [exact Hv1|]. by split_and!.
  - wsteps. destruct (good_dom s q NULL dc dc x (mkDom c (currentPA x)) G Hx HC1) as [G2 He2]; try apply Hok.
    split; [exact G2|]. split; [exact He2|]. split; [by intros a|]. by split_and!.
Qed.

(** The fields that dispatching the same annex leaves alone. *)
Definition same_who (s s' : t) : Prop :=
  dispatchedCDA s' = dispatchedCDA s /\ dispatchedPA s' = dispatchedPA s /\ preemptedPA s' = preemptedPA s /\
  unblocked s' = unblocked s.

Lemma good_start s q now :
  Good s q NULL (dispatchedCDA s) -> inRing (annexes s) (dispatchedCDA s) (dispatchedPA s) ->
  lastDispatchTime (clock s) <= now < 2 ^ 61 ->
  wp (startDispatch now) (fun r s' => r = now /\ Good s' q NULL (dispatchedCDA s) /\ evolves s s' /\ views s s' /\
    same_who s s' /\ lastDispatchTime (clock s') = now) s.
Proof.
  intros G Hdp Hnow. set (k := clock s) in *. pose proof (inflated_ok k now (g_clock _ _ _ _ G) Hnow) as (Hk & Hd0 & Hd1).
  set (k1 := inflated k now) in *.
  unfold startDispatch. wsteps. fold k.
  (* the inflation *)
  assert (Hinf : forall (Q : unit -> t -> Prop), (forall st, statsOk st -> Q tt (set_stats st (set_clock k1 s))) ->
    wp (when (nextInflationTime k <=? now)
     (let nit := uadd (nextInflationTime k) (inflationInterval k) in
      (if nit <=? now
       then modify (set_clock (mkClock (usub now (inflationInterval k)) (uadd (inflation k) 1)
                                 (uadd now (inflationInterval k)) (inflationInterval k) (tickScale k) (warningQuantum k)))
       else modify (set_clock (mkClock (lastDispatchTime k) (uadd (inflation k) 1) nit
                                 (inflationInterval k) (tickScale k) (warningQuantum k)))) ;;; statPublish)) Q s).
  { intros Q HQ. apply wp_when; intros Hb.
    - cbv zeta. wsteps.
      assert (Hp : wp statPublish Q (set_clock k1 s)).
      { eapply wp_mono; [apply wp_statPublish, (g_stats _ _ _ _ G)|]. intros [] s' (st & -> & Hst). by apply HQ. }
      unfold k1, inflated in Hp. rewrite Hb in Hp. cbv zeta in Hp. destruct (uadd (nextInflationTime k) (inflationInterval k) <=? now); by apply wp_modify.
    - specialize (HQ (stats s) (g_stats _ _ _ _ G)). unfold k1, inflated in HQ. rewrite Hb in HQ. by destruct s. }
  apply Hinf. intros st Hst. wsteps. cbn [clock set_stats set_clock].
  set (delta := usub now (lastDispatchTime k1)) in *.
  (* the clock is set, in place of the old one *)
  destruct (good_clock s q NULL _ (clock_at now k1) G Hk (proj1 Hnow)) as (G1 & He1 & Hv1).
  destruct (good_other (set_clock (clock_at now k1) s) (set_stats st (set_clock (clock_at now k1) s)) q NULL _ G1)
    as (G2 & He2 & Hv2); try done; [apply G1|].
  set (s2 := set_stats st (set_clock (clock_at now k1) s)) in *.
  change (wp (updPA (dispatchedPA s) (addTime delta)) (fun _ s' =>
    wp (d <-- gets dispatchedCDA ;; adjustQuantum d delta ;;; statAdvance d delta ;;; ret now) (fun r s' => r = now /\ Good s' q NULL (dispatchedCDA s) /\ evolves s s' /\ views s s' /\
    same_who s s' /\ lastDispatchTime (clock s') = now) s') s2).
  pose proof Hdp as (n & Hn & Hnx & Hdn).
  eapply wp_updPA; [exact Hn|].
  destruct (good_updPA s2 q NULL _ (dispatchedPA s) n (addTime delta (Ring.annex n)) G2 Hn) as (G3 & He3 & Hv3); try done.
  { pose proof (g_times _ _ _ _ G _ _ Hn) as Ht. fold k in Ht. pose proof (g_clock _ _ _ _ G) as (? & _ & _ & ? & _).
    unfold addTime, annexOk in *. simpl. rewrite uadd_small by lia. lia. }
  { by left. }
  set (s3 := upd_annex _ _ _ s2) in *.
  change (set_annexes _ s2) with s3. wsteps. change (dispatchedCDA s3) with (dispatchedCDA s).
  eapply wp_mono; [apply (good_adjustQuantum s3 q)|].
  { exact G3. }
  { apply (inRing_views s2 s3); [done|]. exact Hdp. }
  { split; [done|]. unfold k in *. pose proof (g_clock _ _ _ _ G) as (? & _). lia. }
  intros [] s4 (G4 & He4 & Hv4 & (E1 & E2 & E3 & E4 & E5 & E8) & E6 & E7). wsteps.
  assert (Hv : views s s4) by (do 2 (eapply views_trans; [|exact Hv4 || exact Hv3]); exact Hv2).
  assert (Hdp4 : inRing (annexes s4) (dispatchedCDA s) (dispatchedPA s)) by (by apply (inRing_views s s4)).
  destruct (core_member (g_core _ _ _ _ G4) _ _ Hdp4 (core_member_nz (g_core _ _ _ _ G4) _ _ Hdp4)) as (x4 & Hx4 & _).
  eapply wp_mono; [apply (wp_statAdvance _ x4); [done|by apply (g_doms _ _ _ _ G4 _ _ Hx4)|apply (g_stats _ _ _ _ G4)]|].
  intros [] s5 (st5 & -> & Hst5). wsteps.
  destruct (good_other s4 (set_stats st5 s4) q NULL _ G4) as (G5 & He5 & Hv5); try done; [apply G4|].
  split; [done|]. split; [done|]. split; [|split; [done|split]].
  - do 4 (eapply evolves_trans; [eassumption|]). done.
  - by split_and!.
  - simpl. by rewrite E4.
Qed.

(** ** finishDispatch *)

Lemma getTimeout_ok i :
  dispatchTicks i <= warningTicks i -> dispatchTicks i <= pulseTicks i -> exists v, getTimeout i = Some v.
Proof. intros H1%Z.leb_le H2%Z.leb_le. unfold getTimeout. rewrite H1, H2. simpl. eauto. Qed.

Lemma cda_getTimeout_ok x : domOk x -> exists v, CDA.getTimeout (cda x) = Some v.
Proof.
  intros (_ & _ & Hc & _). unfold CDA.getTimeout. destruct (Z.leb_spec (CDA.consumedTicks (cda x)) (CDA.quantum (cda x))); [|lia].
  simpl. eauto.
Qed.

Lemma good_finish s q n now :
  Good s q NULL (dispatchedCDA s) -> annexes s !! dispatchedPA s = Some n -> Ring.cpuDomainNext n <> NULL ->
  cdaOf n = dispatchedCDA s -> dispatchTicks (Ring.annex n) <= warningTicks (Ring.annex n) ->
  wp (finishDispatch now) (fun _ s' => Good s' q NULL (dispatchedCDA s) /\ evolves s s' /\ views s s' /\
    same_who s s' /\ heap s' = heap s /\ domains s' = domains s /\ clock s' = clock s) s.
Proof.
  intros G Hn Hnx Hdn Hw. pose proof (g_core _ _ _ _ G) as HC.
  assert (Hdp : inRing (annexes s) (dispatchedCDA s) (dispatchedPA s)) by (exists n; done).
  destruct (core_member HC _ _ Hdp (core_member_nz HC _ _ Hdp)) as (x & Hx & _).
  pose proof (g_doms _ _ _ _ G _ _ Hx) as Hok. pose proof (g_times _ _ _ _ G _ _ Hn) as [Ht1 Ht2].
  pose proof (g_clock _ _ _ _ G) as (_ & _ & _ & Hl & _).
  unfold finishDispatch. wsteps.
  (* the end, in any state with the same links and a pulse ahead *)
  assert (Hend : forall s1 n1, Good s1 q NULL (dispatchedCDA s) -> evolves s s1 -> views s s1 -> same_who s s1 ->
    heap s1 = heap s -> domains s1 = domains s -> clock s1 = clock s -> annexes s1 !! dispatchedPA s = Some n1 ->
    dispatchTicks (Ring.annex n1) <= warningTicks (Ring.annex n1) -> dispatchTicks (Ring.annex n1) <= pulseTicks (Ring.annex n1) ->
    wp (n <-- getPA (dispatchedPA s) ;;
        cdaTimeout <-- need (CDA.getTimeout (cda x)) ;;
        paTimeout <-- need (getTimeout (Ring.annex n)) ;;
        modify (set_timer (now, if cdaTimeout <? paTimeout then cdaTimeout else paTimeout)) ;;;
        b <-- gets borrowers ;; b' <-- need (resetCDABorrowers b (dispatchedPA s)) ;; modify (set_borrowers b'))
      (fun _ s' => Good s' q NULL (dispatchedCDA s) /\ evolves s s' /\ views s s' /\ same_who s s' /\
        heap s' = heap s /\ domains s' = domains s /\ clock s' = clock s) s1).
  { intros s1 n1 G1 He1 Hv1 Hs1 E1 E2 E3 Hn1 H1 H2. wsteps.
    destruct (cda_getTimeout_ok x Hok) as [ct Ect]. eapply wp_need; [exact Ect|]. wsteps.
    destruct (getTimeout_ok (Ring.annex n1) H1 H2) as [pt Ept]. eapply wp_need; [exact Ept|]. wsteps.
    pose proof (g_borrowers _ _ _ _ G1) as Hb. simpl.
    destruct (lookup_lt_is_Some_2 (cdaBorrowers (borrowers s1)) 0 ltac:(lia)) as [b0 Hb0].
    assert (Eb : resetCDABorrowers (borrowers s1) (dispatchedPA s) =
      Some (mkBorrowers 0 (<[0%nat := dispatchedPA s]> (cdaBorrowers (borrowers s1))))).
    { unfold resetCDABorrowers, setBorrower. change (Z.to_nat 0) with 0%nat. by rewrite Hb0. }
    eapply wp_need; [exact Eb|]. wsteps.
    match goal with |- Good ?s2 _ _ _ /\ _ => destruct (good_other s1 s2 q NULL _ G1) as (G2 & He2 & Hv2); try done end.
    - apply (g_stats _ _ _ _ G1).
    - simpl. by rewrite length_insert.
    - split; [done|]. split; [by eapply evolves_trans|]. split; [by eapply views_trans|]. done. }
  apply wp_when; intros Hpn.
  - wsteps. eapply wp_updPA; [exact Hn|]. wsteps.
    eapply wp_getPA; [simpl; by rewrite lookup_insert_eq|]. wsteps. cbn [Ring.annex Ring.cpuDomainNext].
    destruct Hok as (_ & _ & _ & _ & Hpu).
    destruct (reschedulePulse_spec (CDA.pulseInterval (cda x)) (setInterrupt PULSE (Ring.annex n))) as (pt & Ept & Hpt);
      [lia|apply Ht2|simpl; lia|done|]. simpl in Hpt.
    eapply wp_need; [exact Ept|]. set (i := set_ticks _ pt _ _). apply wp_modify. cbv beta.
    assert (Es : forall y, set_annexes (<[dispatchedPA s := Ring.mkPA (Ring.cpuDomainNext n) i]>
        (annexes (set_annexes (<[dispatchedPA s := y]> (annexes s)) s)))
        (set_annexes (<[dispatchedPA s := y]> (annexes s)) s) = upd_annex (dispatchedPA s) n i s).
    { intros y. unfold upd_annex, set_annexes. simpl. by rewrite insert_insert_eq. }
    rewrite Es.
    destruct (good_updPA s q NULL (dispatchedCDA s) (dispatchedPA s) n i G Hn) as (G1 & He1 & Hv1); try done.
    + exact (keeps_interrupt (Ring.annex n) PULSE).
    + unfold annexOk. simpl. lia.
    + intros _. by right.
    + apply (Hend _ (Ring.mkPA (Ring.cpuDomainNext n) i)); try done.
      * simpl. by rewrite lookup_insert_eq.
      * apply Hpt.
  - unfold pulseNeeded in Hpn. apply Z.leb_gt in Hpn. apply (Hend s n); try done.
    + apply evolves_refl, G.
    + lia.
Qed.

(** ** The thread and the work of an annex *)

(** An annex changes in what is not about time or its place. *)
Lemma good_setinfo s q z dc a n i :
  Good s q z dc -> annexes s !! a = Some n -> cpuDomainAnnex i = cdaOf n ->
  dispatchTicks i = dispatchTicks (Ring.annex n) -> pulseTicks i = pulseTicks (Ring.annex n) ->
  warningTicks i = warningTicks (Ring.annex n) ->
  (forall c, preemptedPA s !! c <> Some a) \/ awaitingDispatch i = true ->
  (hasWork (Ring.annex n) = true -> reservedThread (Ring.annex n) = NULL -> a = p1 \/ a = p2 ->
    hasWork i = true /\ reservedThread i = NULL) ->
  (a ∉ T -> cdaOf n <> NULL -> reservedThread i = NULL -> pending i = true -> Ring.cpuDomainNext n <> NULL) ->
  (terminationPending i = true -> a ∈ T) ->
  Good (upd_annex a n i s) q z dc /\ views s (upd_annex a n i s).
Proof.
  intros G Hn Hc Ht1 Ht2 Ht3 Hpre Hkeep Hint Hterm.
  assert (Hlk : forall b m, annexes (upd_annex a n i s) !! b = Some m ->
    (b = a /\ m = Ring.mkPA (Ring.cpuDomainNext n) i) \/ (b <> a /\ annexes s !! b = Some m)).
  { intros b m. simpl. destruct (decide (b = a)) as [->|]; [rewrite lookup_insert_eq; intros [= <-]; by left|].
    rewrite lookup_insert_ne by done. by right. }
  assert (Hk : forall d p, p = p1 \/ p = p2 -> keeper (annexes s) d p -> keeper (annexes (upd_annex a n i s)) d p).
  { intros d p Hp (m & Hm & Hx & Hd & Hw & Hr). unfold keeper. simpl. destruct (decide (p = a)) as [->|].
    - rewrite lookup_insert_eq. eexists. split; [done|]. simpl. assert (m = n) as -> by congruence. rewrite Hc.
      destruct Hkeep; try done; tauto.
    - rewrite lookup_insert_ne by done. eauto 10. }
  split; [|intros b; simpl; destruct (decide (b = a)) as [->|]; [rewrite lookup_insert_eq, Hn; simpl; by rewrite Hc|by rewrite lookup_insert_ne]].
  destruct G as [Gc Gh Gd Gk Gs Gb Gz Gt G1 G2 G3 Gl Gp Gi Gtm Gke]. split; simpl; try done; auto.
  - by apply (core_upd Gc).
  - intros b m [[-> ->]|[Hb Hm]]%Hlk; [|by apply Gt in Hm]. pose proof (Gt a n Hn) as Ho. unfold annexOk in *. simpl. lia.
  - intros c p Hp Hnn. destruct (Gp c p Hp Hnn) as (Hpk & m & x & Hm & Hx & Ha & Hdx & Hcx). split; [done|].
    destruct (decide (p = a)) as [->|].
    + rewrite lookup_insert_eq. assert (m = n) as -> by congruence. eexists _, x. split; [done|]. simpl. rewrite Hc.
      split_and!; try done. destruct Hpre as [Hpre|]; [by apply Hpre in Hp|done].
    + rewrite lookup_insert_ne by done. eauto 10.
  - intros b m [[-> ->]|[Hb Hm]]%Hlk; simpl; [rewrite Hc; auto|by apply (Gi b)].
  - intros b m [[-> ->]|[Hb Hm]]%Hlk; simpl; [auto|by apply (Gtm b)].
  - intros Hkn. destruct (Gke Hkn) as (m & Hm & Hw & Hd & Hal).
    assert (Hal' : forall b m', annexes (upd_annex a n i s) !! b = Some m' -> cdaOf m' = cdaOf m -> b = kernelPA s).
    { intros b m' [[-> ->]|[Hb Hm']]%Hlk E; [|by apply (Hal b m')]. apply (Hal a n); [done|]. simpl in E. congruence. }
    destruct (decide (kernelPA s = a)) as [Ea|].
    + rewrite Ea in *. rewrite lookup_insert_eq. assert (m = n) as -> by congruence. eexists. split; [done|]. simpl.
      rewrite Hc, Ht3. split_and!; done.
    + rewrite lookup_insert_ne by done. exists m. by split_and!.
Qed.

Lemma good_unpreempt s q z dc c :
  Good s q z dc -> Good (set_preempted (<[c := NULL]> (preemptedPA s)) s) q z dc.
Proof.
  intros [Gc Gh Gd Gk Gs Gb Gz Gt G1 G2 G3 Gl Gp Gi Gtm Gke]. split; simpl; try done.
  - by rewrite length_insert.
  - intros c' p Hp Hnn. apply (Gp c' p); [|done]. destruct (decide (c = c')) as [->|]; [|by rewrite list_lookup_insert_ne in Hp].
    destruct (decide (c' < length (preemptedPA s))%nat).
    + rewrite list_lookup_insert_eq in Hp by done. congruence.
    + by rewrite list_insert_ge in Hp by lia.
Qed.

(** ** getNextProcessAnnex *)

Lemma class_slot s q z dc x : Good s q z dc -> domOk x -> exists p, preemptedPA s !! Z.to_nat (pclass x) = Some p.
Proof.
  intros G (_ & Hc & _). apply lookup_lt_is_Some. rewrite (g_plen _ _ _ _ G). unfold NUM_PRIORITY_CLASSES. lia.
Qed.

(** The dispatched annex [n]: in the ring of the dispatched domain, not among the
    preempted, and of class [c]. *)
Definition dispatched (s : t) (c : Z) (n : Ring.PA) : Prop :=
  annexes s !! dispatchedPA s = Some n /\ Ring.cpuDomainNext n <> NULL /\ cdaOf n = dispatchedCDA s /\
  (forall c, preemptedPA s !! c <> Some (dispatchedPA s)) /\
  exists x, domains s !! dispatchedCDA s = Some x /\ pclass x = c.

Lemma good_swapped s q dc x pd :
  Good s q NULL dc -> domains s !! dc = Some x -> pd ∈ q.*2 ->
  exists h' q', Heap.swap (heap s) (prio x) dc pd = Some h' /\
    Good (set_heap h' s) q' NULL pd /\ evolves s (set_heap h' s).
Proof.
  intros G Hx Hin.
  destruct (Heap.swap_spec (heap s) q (prio x, dc) pd (g_heap _ _ _ _ G) Hin) as (h' & y & q' & E & Ey & Hp & Hw & _).
  destruct (good_swap s q q' dc x h' y G Hx Hp Hw) as [G' He]. rewrite Ey in G'. eauto.
Qed.

Lemma good_choosePreempted s q x n :
  Good s q NULL (dispatchedCDA s) -> domains s !! dispatchedCDA s = Some x ->
  annexes s !! dispatchedPA s = Some n -> Ring.cpuDomainNext n <> NULL -> cdaOf n = dispatchedCDA s -> Ring.canRun n = true ->
  wp (choosePreempted (dispatchedCDA s) x (dispatchedPA s)) (fun _ s' => exists q' n',
    Good s' q' NULL (dispatchedCDA s') /\ evolves s s' /\ annexes s' = annexes s /\ domains s' = domains s /\ clock s' = clock s /\
    unblocked s' = unblocked s /\ dispatched s' (pclass x) n' /\ Ring.canRun n' = true /\
    exists p, preemptedPA s !! Z.to_nat (pclass x) = Some p /\ dispatchedPA s' = (if p =? NULL then dispatchedPA s else p)) s.
Proof.
  intros G Hx Hn Hnx Hdn Hrun. pose proof (g_core _ _ _ _ G) as HC. pose proof HC as [Cr Ca Cn Ce Cd Cu Cf].
  set (d := dispatchedCDA s) in *. set (pa := dispatchedPA s) in *.
  assert (Hpan : pa <> NULL) by (by apply (Ca pa n)).
  destruct (class_slot s q NULL d x G (g_doms _ _ _ _ G _ _ Hx)) as [p Hp].
  (* an annex of this class in another slot *)
  assert (Hslot : forall a m y c, annexes s !! a = Some m -> a <> NULL -> domains s !! cdaOf m = Some y -> pclass y = pclass x ->
    preemptedPA s !! c = Some a -> c = Z.to_nat (pclass x)).
  { intros a m y c Ha Hann Hy Hcy Hc. destruct (g_preempted _ _ _ _ G c a Hc Hann) as (_ & m' & y' & Ha' & _ & _ & Hy' & <-).
    assert (m' = m) as -> by congruence. congruence. }
  (* the end: the slot is cleared *)
  assert (Hend : forall s1 q1 n1, Good s1 q1 NULL (dispatchedCDA s1) -> evolves s s1 -> annexes s1 = annexes s -> domains s1 = domains s ->
    clock s1 = clock s -> unblocked s1 = unblocked s -> preemptedPA s1 = preemptedPA s ->
    annexes s !! dispatchedPA s1 = Some n1 -> Ring.cpuDomainNext n1 <> NULL -> cdaOf n1 = dispatchedCDA s1 -> Ring.canRun n1 = true ->
    (exists y, domains s !! dispatchedCDA s1 = Some y /\ pclass y = pclass x) -> p <> NULL -> dispatchedPA s1 = p ->
    wp (putPreempted (pclass x) NULL) (fun _ s' => exists q' n',
      Good s' q' NULL (dispatchedCDA s') /\ evolves s s' /\ annexes s' = annexes s /\ domains s' = domains s /\ clock s' = clock s /\
      unblocked s' = unblocked s /\ dispatched s' (pclass x) n' /\ Ring.canRun n' = true /\
      exists p, preemptedPA s !! Z.to_nat (pclass x) = Some p /\ dispatchedPA s' = (if p =? NULL then pa else p)) s1).
  { intros s1 q1 n1 G1 He1 E1 E2 E3 E4 E5 Hn1 Hnx1 Hd1 Hr1 (y & Hy & Hcy) Hpn Edp. unfold putPreempted. wsteps.
    exists q1, n1. assert (Hdn1 : dispatchedPA s1 <> NULL) by (by apply (Ca _ n1)). split; [by apply good_unpreempt|].
    split; [by eapply evolves_ext|]. split_and!; try done.
    - split; [simpl; by rewrite E1|]. split; [done|]. split; [done|]. split; [|simpl; rewrite E2; eauto].
      simpl. rewrite E5. intros c Hc. destruct (decide (c = Z.to_nat (pclass x))) as [->|Hne].
      + rewrite list_lookup_insert_eq in Hc; [congruence|by apply lookup_lt_Some in Hp].
      + rewrite list_lookup_insert_ne in Hc by done. apply Hne. apply (Hslot (dispatchedPA s1) n1 y); [done..|by rewrite Hd1|done|done].
    - exists p. split; [done|]. by rewrite (proj2 (Z.eqb_neq _ _) Hpn). }
  unfold choosePreempted, getPreempted. wsteps. eapply wp_need; [exact Hp|]. apply wp_when; intros Hpn.
  - apply negb_true_iff, Z.eqb_neq in Hpn.
    destruct (g_preempted _ _ _ _ G _ p Hp Hpn) as (Hpk & m & y & Hm & Hmx & Hma & Hy & Hcy).
    pose proof (g_doms _ _ _ _ G _ _ Hy) as (_ & Hyc & _). pose proof (g_doms _ _ _ _ G _ _ Hx) as (_ & Hxc & _).
    assert (Hcyx : pclass y = pclass x) by lia.
    wsteps. apply wp_when; intros Hpp.
    + wsteps. eapply wp_getCDA; [exact Hm|]. wsteps.
      assert (Hrunm : Ring.canRun m = true) by (unfold Ring.canRun, awaitingDispatchInKernel; by rewrite Hma, orb_true_r).
      apply wp_when; intros Hdd.
      * apply negb_true_iff, Z.eqb_neq in Hdd.
        assert (Hin : cdaOf m ∈ q.*2).
        { assert (Hi : inRing (annexes s) (cdaOf m) p) by (exists m; done).
          destruct (core_member HC _ _ Hi (core_member_nz HC _ _ Hi)) as (y' & Hy' & _ & Hcur).
          destruct (proj1 (Cu _ _ Hy') Hcur) as [_ [E|]]; [|done]. by rewrite E in Hdd. }
        destruct (good_swapped s q d x (cdaOf m) G Hx Hin) as (h' & q' & E & G' & He').
        eapply wp_updHeap; [exact E|]. apply wp_modify. cbv beta.
        destruct (good_other (set_heap h' s) (set_dispatched (cdaOf m) p (set_heap h' s)) q' NULL _ G') as (G2 & He2 & _); try done.
        { apply (g_stats _ _ _ _ G). } { apply (g_borrowers _ _ _ _ G). }
        eapply (Hend _ q' m); try done; [by eapply evolves_trans|by eauto].
      * apply negb_false_iff, Z.eqb_eq in Hdd. apply wp_modify. cbv beta.
        destruct (good_other s (set_dispatched (cdaOf m) p s) q NULL _ G) as (G2 & He2 & _); try done; try apply G.
        rewrite Hdd in G2. eapply (Hend _ q m); try done. by eauto.
    + apply negb_false_iff, Z.eqb_eq in Hpp. apply (Hend s q n); try done; [apply evolves_refl, G|by eauto].
  - apply negb_false_iff, Z.eqb_eq in Hpn.
    exists q, n. split; [done|]. split; [apply evolves_refl, G|]. split_and!; try done; [|exists p; split; [done|by rewrite Hpn]].
    split; [done|]. split; [done|]. split; [done|]. split; [|by eauto].
    intros c Hc. assert (c = Z.to_nat (pclass x)) as -> by (apply (Hslot pa n x); try done; congruence).
    fold pa in Hc. congruence.
Qed.

(** A domain with annexes has at least the best priority. *)
Lemma best_all s q x :
  Good s q NULL (dispatchedCDA s) -> domains s !! dispatchedCDA s = Some x -> (forall e, e ∈ q -> prio x <= e.1) ->
  forall d y, domains s !! d = Some y -> currentPA y <> NULL -> prio x <= prio y.
Proof.
  intros G Hx Hb d y Hy Hc. pose proof (g_core _ _ _ _ G) as [Cr Ca Cn Ce Cd Cu Cf].
  destruct (proj1 (Cu d y Hy) Hc) as [Hd [->|Hin]]; [by assert (y = x) as -> by congruence|].
  apply list_elem_of_fmap in Hin as ([p d'] & Ed & Hin). simpl in Ed. subst d'.
  destruct (Ce p d Hin) as (_ & H). destruct (H Hd) as (y' & Hy' & ->). assert (y' = y) as -> by congruence. by apply (Hb _ Hin).
Qed.

(** The chosen annex, [m] before and [n] after, is dispatched and [r] returned. *)
Definition launched (s s' : t) (m n : Ring.PA) (r : Z) : Prop :=
  if awaitingDispatchInKernel (Ring.annex m)
  then r = kernelPA s' /\ unblocked s' = unblocked s ++ [reservedThread (Ring.annex m)] /\
       awaitingDispatchInKernel (Ring.annex n) = false
  else r = dispatchedPA s' /\ unblocked s' = unblocked s /\ ProcessAnnex.stillRunnable (Ring.annex n) = true.

(** What getNextProcessAnnex chooses: the annex that was preempted in the class of
    the best domain [db], or, if there is none, the current annex of [db].  If it
    was awaiting dispatch in the kernel, the thread that waits is unblocked, the
    annex no longer awaits dispatch and the kernel is returned; otherwise it can run
    and is returned. *)
Definition picks (s s' : t) (r : Z) : Prop :=
  exists db xb x m n p, domains s' !! db = Some xb /\ currentPA xb <> NULL /\
    (forall d y, domains s' !! d = Some y -> currentPA y <> NULL -> prio xb <= prio y) /\
    domains s' !! dispatchedCDA s' = Some x /\ pclass x = pclass xb /\
    preemptedPA s !! Z.to_nat (pclass xb) = Some p /\ dispatchedPA s' = (if p =? NULL then currentPA xb else p) /\
    (p = NULL -> dispatchedCDA s' = db) /\
    annexes s !! dispatchedPA s' = Some m /\
    annexes s' !! dispatchedPA s' = Some n /\ cdaOf n = dispatchedCDA s' /\ launched s s' m n r.

Lemma upd_upd a n i f s :
  set_annexes (<[a := Ring.mkPA (Ring.cpuDomainNext n) f]> (annexes (upd_annex a n i s))) (upd_annex a n i s) = upd_annex a n f s.
Proof. unfold upd_annex, set_annexes. simpl. by rewrite insert_insert_eq. Qed.

(** The last part: the annex [n] has been chosen in state [s2]. *)
Lemma good_launch s2 q c n now :
  Good s2 q NULL (dispatchedCDA s2) -> dispatched s2 c n -> Ring.canRun n = true ->
  lastDispatchTime (clock s2) = now ->
  wp (r <-- (if awaitingDispatchInKernel (Ring.annex n)
             then signalDispatch (dispatchedPA s2) ;;; gets kernelPA
             else ret (dispatchedPA s2)) ;;
      updPA (dispatchedPA s2) clearWarning ;;; finishDispatch now ;;; ret r)
    (fun r s' => exists q' n', Good s' q' NULL (dispatchedCDA s') /\ dispatched s' c n' /\ dispatchedCDA s' = dispatchedCDA s2 /\ dispatchedPA s' = dispatchedPA s2 /\
      preemptedPA s' = preemptedPA s2 /\ domains s' = domains s2 /\ lastDispatchTime (clock s') = now /\
      launched s2 s' n n' r) s2.
Proof.
  intros G (Hn & Hnx & Hdn & Hpre & x & Hx & Hcx) Hrun Hnow. set (pa := dispatchedPA s2) in *.
  (* clearWarning and finishDispatch *)
  assert (Hend : forall s3 n3 r, Good s3 q NULL (dispatchedCDA s3) -> dispatchedCDA s3 = dispatchedCDA s2 -> dispatchedPA s3 = pa -> preemptedPA s3 = preemptedPA s2 ->
    annexes s3 !! pa = Some n3 -> Ring.cpuDomainNext n3 <> NULL -> cdaOf n3 = dispatchedCDA s3 -> domains s3 = domains s2 ->
    lastDispatchTime (clock s3) = now ->
    (if awaitingDispatchInKernel (Ring.annex n)
     then r = kernelPA s3 /\ unblocked s3 = unblocked s2 ++ [reservedThread (Ring.annex n)] /\ awaitingDispatch (Ring.annex n3) = false
     else r = pa /\ unblocked s3 = unblocked s2 /\ ProcessAnnex.stillRunnable (Ring.annex n3) = true) ->
    wp (updPA pa clearWarning ;;; finishDispatch now ;;; ret r)
      (fun r s' => exists q' n', Good s' q' NULL (dispatchedCDA s') /\ dispatched s' c n' /\ dispatchedCDA s' = dispatchedCDA s2 /\ dispatchedPA s' = dispatchedPA s2 /\
      preemptedPA s' = preemptedPA s2 /\ domains s' = domains s2 /\ lastDispatchTime (clock s') = now /\
      launched s2 s' n n' r) s3).
  { intros s3 n3 r G3 W1 W2 W3 Hn3 Hnx3 Hdn3 Hd3 Hl3 Hr. wsteps.
    eapply wp_updPA; [exact Hn3|]. wsteps.
    pose proof (g_times _ _ _ _ G3 _ _ Hn3) as Ht. pose proof (g_clock _ _ _ _ G3) as (_ & _ & _ & Hl & _).
    destruct (good_updPA s3 q NULL _ pa n3 (clearWarning (Ring.annex n3)) G3 Hn3) as (G4 & He4 & Hv4); try done; [by left|].
    set (s4 := upd_annex pa n3 (clearWarning (Ring.annex n3)) s3) in *. change (set_annexes _ s3) with s4.
    eapply wp_mono; [apply (good_finish s4 q (Ring.mkPA (Ring.cpuDomainNext n3) (clearWarning (Ring.annex n3))) now G4)|].
    - simpl. rewrite W2. fold pa. by rewrite lookup_insert_eq.
    - done.
    - done.
    - unfold annexOk in Ht. unfold clearWarning, noTime. simpl. lia.
    - intros [] s5 (G5 & He5 & Hv5 & (V1 & V2 & V3 & V4) & Eh & Ed & Ek). wsteps. simpl in V1, V2, V3, V4.
      change (dispatchedCDA s4) with (dispatchedCDA s3) in G5.
      destruct (evolves_annex s3 s5 pa n3) as (n5 & Hn5 & Hv); [by eapply evolves_trans|done|].
      assert (Hin : inRing (annexes s5) (dispatchedCDA s5) pa).
      { rewrite V1. apply (inRing_views s4 s5); [done|]. apply (inRing_views s3 s4); [done|]. by exists n3. }
      destruct Hin as (n5' & Hn5' & Hnx5 & Hdn5). assert (n5' = n5) as -> by congruence.
      assert (V2' : dispatchedPA s5 = pa) by congruence.
      exists q, n5. rewrite V1. split; [done|]. split; [|split; [done|split; [done|split; [congruence|split; [by rewrite Ed|split; [by rewrite Ek|]]]]]].
      + split; [by rewrite V2'|]. split; [done|]. split; [done|]. rewrite V2', V3, V1, W3, W1, Ed. simpl. rewrite Hd3. split; [done|]. eauto.
      + pose proof (v_keeps _ _ _ _ Hv) as (_ & K2 & K3 & K4 & _ & Kp). unfold launched, awaitingDispatchInKernel in *. rewrite V2', V4.
        assert (Ekn : kernelPA s5 = kernelPA s3) by (rewrite (e_kernel _ _ He5); done). rewrite Ekn.
        destruct (awaitingDispatch (Ring.annex n)).
        * destruct Hr as (-> & Hu & Ha). by rewrite K4.
        * destruct Hr as (-> & Hu & Hs). split; [done|]. split; [done|].
          unfold ProcessAnnex.stillRunnable in *. rewrite K2, K3. apply andb_true_iff in Hs as [-> Hs].
          apply orb_true_iff in Hs as [->|Hs]; [done|]. by rewrite (Kp Hs), orb_true_r. }
  wsteps. unfold awaitingDispatchInKernel in *. destruct (awaitingDispatch (Ring.annex n)) eqn:Ea.
  - unfold signalDispatch. wsteps. eapply wp_updPA; [exact Hn|]. wsteps. cbn [unblocked].
    set (i := set_thread _ _ _ _).
    destruct (good_setinfo s2 q NULL _ pa n i G Hn) as (G3 & Hv3); try done; [by left|by apply (g_term _ _ _ _ G pa n)|].
    set (s3 := upd_annex pa n i s2) in *. change (set_annexes _ s2) with s3.
    destruct (good_other s3 (add_unblocked (reservedThread (Ring.annex n)) s3) q NULL _ G3) as (G4 & _ & _); try done; [apply G3..|].
    apply wp_bind_inv, (Hend _ (Ring.mkPA (Ring.cpuDomainNext n) i)); try done; simpl; by rewrite ?lookup_insert_eq, ?Ea.
  - wsteps. apply wp_bind_inv, (Hend s2 n); try done. split; [done|]. split; [done|].
    unfold Ring.canRun, awaitingDispatchInKernel in Hrun. by rewrite Ea, orb_false_r in Hrun.
Qed.

Lemma good_getNext s now :
  Inv s -> lastDispatchTime (clock s) <= now < 2 ^ 61 ->
  wp (getNextProcessAnnex now) (fun r s' => Inv s' /\ picks s s' r /\ lastDispatchTime (clock s') = now) s.
Proof.
  intros (q & G & Hdp & Hpre) Hnow. unfold getNextProcessAnnex. wsteps.
  eapply wp_mono; [by apply (good_start s q now)|].
  intros r s1 (-> & G1 & He1 & Hv1 & (E1 & E2 & E3 & E4) & Hl1). rewrite <- E1 in G1. wsteps.
  assert (Hlen : (length q < S Heap.HEAP_SIZE)%nat).
  { rewrite <- (Heap.wf_count _ _ (g_heap _ _ _ _ G1)). destruct (g_heap _ _ _ _ G1) as (_ & Hc & _). lia. }
  eapply wp_mono; [by apply (good_clean (dispatchedCDA s1) (S Heap.HEAP_SIZE) s1 q)|].
  intros [] s2 (q2 & G2 & He2 & (F1 & F2 & F3 & F4 & _ & F5) & _ & Hunt & Hhead). wsteps.
  assert (Hdp2 : inRing (annexes s2) (dispatchedCDA s2) (dispatchedPA s2)).
  { rewrite F1, F2. apply (inRing_untouched s1 s2).
    - apply Hunt. apply (c_disp _ _ _ _ _ (g_core _ _ _ _ G1)).
    - rewrite E1, E2. by apply (inRing_views s s1). }
  rewrite <- F1 in G2. eapply wp_mono; [by apply (good_choose s2 q2)|].
  intros [] s3 (q3 & G3 & He3 & (H1 & H2 & H3) & xb & nb & Hxb & Hcb & Hnb & Hrb & Hbest). wsteps.
  eapply wp_need; [by rewrite (proj2 (Z.eqb_neq _ _) Hcb)|]. wsteps. apply wp_assert; [done|]. wsteps.
  pose proof (g_core _ _ _ _ G3) as HC3.
  assert (Hib : inRing (annexes s3) (dispatchedCDA s3) (currentPA xb)).
  { apply ringOf_cur; [|done]. by apply (c_ring _ _ _ _ _ HC3). }
  destruct Hib as (nb' & Hnb' & Hnxb & Hdnb). assert (nb' = nb) as -> by congruence.
  set (s4 := set_dispatched (dispatchedCDA s3) (currentPA xb) s3).
  destruct (good_other s3 s4 q3 NULL _ G3) as (G4 & He4 & _); try done; [apply G3..|].
  eapply wp_mono; [by apply (good_choosePreempted s4 q3 xb nb)|].
  intros [] s5 (q5 & n5 & G5 & He5 & Ea5 & Ed5 & Ek5 & Eu5 & Hd5 & Hr5 & p & Hp & Hdp5). wsteps.
  eapply wp_getPA; [apply Hd5|].
  assert (Hl5 : lastDispatchTime (clock s5) = now) by (rewrite Ek5; simpl; rewrite H2, F4; done).
  eapply wp_mono; [by apply (good_launch s5 q5 (pclass xb) n5 now)|].
  intros r s6 (q6 & n6 & G6 & (Hn6 & Hnx6 & Hdn6 & Hpre6 & x6 & Hx6 & Hc6) & Edc6 & Epa6 & Ep6 & Ed6 & Hl6 & Hr6).
  split; [|split; [|done]].
  - exists q6. split; [done|]. split; [by exists n6|]. exact Hpre6.
  - assert (Ed : domains s6 = domains s3) by (rewrite Ed6, Ed5; done).
    assert (Eu : unblocked s5 = unblocked s) by (rewrite Eu5; simpl; rewrite H3, F5; exact E4).
    assert (Hpa6 : dispatchedPA s6 = (if p =? NULL then currentPA xb else p)) by (rewrite Epa6; exact Hdp5).
    assert (He : evolves s s5).
    { eapply evolves_trans; [exact He1|]. eapply evolves_trans; [exact He2|]. eapply evolves_trans; [exact He3|].
      by eapply evolves_trans. }
    destruct (e_annex _ _ He _ _ (proj1 Hd5)) as (m & Hm & V). rewrite <- Epa6 in Hm.
    exists (dispatchedCDA s3), xb, x6, m, n6, p. rewrite Ed. split_and!; try done.
    + apply (best_all s3 q3); done.
    + by rewrite <- Ed.
    + rewrite <- E3, <- F3, <- H1. exact Hp.
    + intros ->. destruct Hd5 as (Hn5 & _ & Hdn5 & _). rewrite Hdp5, Ea5 in Hn5. simpl in Hn5.
      assert (n5 = nb) as -> by congruence. rewrite Edc6, <- Hdn5. done.
    + pose proof (v_keeps _ _ _ _ V) as (_ & _ & K3 & K4 & _). unfold launched, awaitingDispatchInKernel in *.
      by rewrite <- Eu, <- K4, <- K3.
Qed.

(** ** makeReady *)

(** Everything that was in a ring still is. *)
Definition grows (s s' : t) : Prop := forall d b, inRing (annexes s) d b -> inRing (annexes s') d b.

(** There is room in the heap for one more domain. *)
Lemma heap_room s q z dc d :
  Good s q z dc -> is_Some (domains s !! dc) -> is_Some (domains s !! d) -> d <> dc -> d ∉ q.*2 ->
  (length q < Heap.HEAP_SIZE)%nat.
Proof.
  intros G Hdc Hd Hne Hnin. pose proof (g_core _ _ _ _ G) as [Cr Ca Cn Ce Cd Cu Cf].
  assert (Hnd : NoDup (d :: dc :: q.*2)).
  { apply NoDup_cons. split; [by apply not_elem_of_cons|]. by apply NoDup_cons. }
  assert (Hsub : (list_to_set (d :: dc :: q.*2) : gset Z) ⊆ dom (domains s)).
  { intros a. rewrite elem_of_list_to_set, !elem_of_cons, elem_of_dom. intros [->|[->|Hin]]; [done..|].
    apply list_elem_of_fmap in Hin as ([p a'] & -> & Hin). by apply (Ce p a'). }
  apply subseteq_size in Hsub. rewrite size_list_to_set, size_dom in Hsub by done. simpl in Hsub.
  rewrite length_fmap in Hsub. pose proof (g_size _ _ _ _ G). unfold Heap.HEAP_SIZE. lia.
Qed.

Lemma evolves_adds s d a x x' h' :
  timesOk s -> clockOk (clock s) -> domains s !! d = Some x -> domOk x -> pclass x' = pclass x ->
  adds d a (CDA.pulseInterval (cda x)) (annexes s) h' -> evolves s (ring_set h' d x' s).
Proof.
  intros Ht (_ & _ & _ & Hl & _) Hx (_ & _ & _ & _ & Hpu) Hp Had. eapply evolves_relinked; [done..|exact Had|].
  intros b n n' Hn (Ha & Hb). pose proof (Ht b n Hn) as Hok. destruct (decide (b = a)) as [->|Hne].
  - destruct (Ha eq_refl) as (E & Hnx). split; rewrite ?E; try apply keeps_ticks; auto.
    unfold annexOk, resetPulse in *. simpl. rewrite uadd_small by lia. lia.
  - destruct (Hb Hne) as (E & Hnx). split; rewrite ?E; auto using keeps_refl. intros H _. tauto.
Qed.

Lemma wp_hasHigher c d x y (Q : bool -> t -> Prop) s :
  domains s !! c = Some x -> domains s !! d = Some y -> Q (prio x <? prio y) s -> wp (hasHigherPriorityThan c d) Q s.
Proof. intros Hx Hy H. unfold hasHigherPriorityThan. wsteps. exact H. Qed.

Lemma good_makeReady s q dc a n :
  Good s q NULL dc -> is_Some (domains s !! dc) -> is_Some (domains s !! dispatchedCDA s) ->
  annexes s !! a = Some n -> cdaOf n <> NULL ->
  wp (makeReady a) (fun _ s' => exists q', Good s' q' NULL dc /\ evolves s s' /\ grows s s' /\
    inRing (annexes s') (cdaOf n) a /\ same_who s s' /\ clock s' = clock s) s.
Proof.
  intros G Hdc Hdisp Hn Hcn. pose proof (g_core _ _ _ _ G) as HC. pose proof HC as [Cr Ca Cn Ce Cd Cu Cf].
  unfold makeReady. wsteps. apply wp_when; intros Hz.
  2:{ apply Z.eqb_neq in Hz. exists q. split; [done|]. split; [apply evolves_refl, G|]. split; [by intros ??|].
      split; [by exists n|]. by split_and!. }
  apply Z.eqb_eq in Hz. destruct (Ca a n Hn) as (Ha & _ & Hsome). destruct (Hsome Hcn) as [x Hx]. set (d := cdaOf n) in *.
  destruct (Cr d x Hx) as [Hd Hr]. pose proof (g_doms _ _ _ _ G _ _ Hx) as Hok.
  destruct (ringOf_add (CDA.pulseInterval (cda x)) _ _ _ _ _ Hr Hn Ha Hz eq_refl) as (h' & E & Had & Hr').
  unfold addProcessAnnex, ringOp. wsteps. eapply wp_need; [rewrite E; done|]. cbn [snd fst Ring.store Ring.currentPA Ring.events].
  set (cur' := if currentPA x =? NULL then a else currentPA x) in *. set (x' := mkDom (cda x) cur').
  assert (Hcur' : cur' <> NULL) by (unfold cur'; destruct (Z.eqb_spec (currentPA x) NULL); done).
  assert (He : evolves s (ring_set h' d x' s)) by (eapply evolves_adds; [apply G|apply G|done..]).
  assert (Hgr : forall b d', inRing (annexes s) d' b -> inRing h' d' b).
  { intros b d' (m & Hm & Hmx & Hmd). destruct (relinked_Some _ _ _ _ _ _ Had Hm) as (m' & Hm' & (R1 & R2) & _).
    exists m'. split; [done|]. destruct (decide (b = a)) as [->|Hne].
    - destruct (R1 eq_refl) as (-> & ?). done.
    - destruct (R2 Hne) as (-> & Hiff). split; [tauto|done]. }
  assert (Hin' : inRing h' d a).
  { destruct (relinked_Some _ _ _ _ _ _ Had Hn) as (m' & Hm' & (R1 & _) & _). destruct (R1 eq_refl) as (Em & ?).
    exists m'. by rewrite Em. }
  assert (Hframe : forall d' c, d' <> d -> ringOf (annexes s) c d' -> ringOf h' c d').
  { intros d' c Hne. eapply relinked_frame; [exact Had| |done].
    intros b m m' (R1 & R2). destruct (decide (b = a)) as [->|Hb]; [by destruct (R1 eq_refl) as (-> & _)|by destruct (R2 Hb) as (-> & _)]. }
  assert (Han : forall b m, h' !! b = Some m -> b <> NULL /\ (cdaOf m = NULL -> Ring.cpuDomainNext m = NULL) /\
    (cdaOf m <> NULL -> is_Some (domains s !! cdaOf m))).
  { intros b m' Hm'. destruct (relinked_inv _ _ _ _ _ _ Had Hm') as (m & Hm & (R1 & R2) & _).
    destruct (Ca b m Hm) as (? & Hnull & ?). split; [done|]. destruct (decide (b = a)) as [->|Hb].
    - destruct (R1 eq_refl) as (-> & _). assert (m = n) as -> by congruence. by split.
    - destruct (R2 Hb) as (-> & Hiff). split; [tauto|done]. }
  assert (Hdom : forall d' y, domains (ring_set h' d x' s) !! d' = Some y -> domOk y).
  { simpl. intros d' y. destruct (decide (d' = d)) as [->|]; [rewrite lookup_insert_eq; intros [= <-]; exact Hok|].
    rewrite lookup_insert_ne by done. apply G. }
  assert (Hends : forall s' q', annexes s' = h' -> domains s' = <[d := x']> (domains s) -> preemptedPA s' = preemptedPA s ->
    kernelPA s' = kernelPA s -> clock s' = clock s -> Core h' (<[d := x']> (domains s)) q' NULL dc -> Heap.wf (heap s') q' ->
    statsOk (stats s') -> length (cdaBorrowers (borrowers s')) = 8%nat -> same_who s s' ->
    exists q', Good s' q' NULL dc /\ evolves s s' /\ grows s s' /\ inRing (annexes s') d a /\ same_who s s' /\ clock s' = clock s).
  { intros s' q' E1 E2 E3 E4 E5 HC' Hw Hst Hb Hwho. exists q'.
    assert (He' : evolves s s') by (eapply evolves_ext; [exact He|simpl; congruence..]).
    split; [|split; [done|split; [intros d' b; rewrite E1; apply Hgr|split; [by rewrite E1|done]]]].
    eapply good_step; [exact G|done|by rewrite E1, E2|done|rewrite E2; exact Hdom|rewrite E5; apply G|done..]. }
  wsteps. unfold x' in *. cbn [doEvents doEvent]. wsteps. unfold statPARunnable. wsteps.
  destruct (Z.eqb_spec (currentPA x) NULL) as [Hc0|Hc0]; cbn [doEvents doEvent]; wsteps.
  - (* the domain becomes runnable *)
    assert (Hdq : d <> dc /\ d ∉ q.*2).
    { assert (Hno : ~ (d <> NULL /\ (d = dc \/ d ∈ q.*2))) by (rewrite <- (Cu d x Hx); tauto). tauto. }
    unfold addCPUDomainAnnex. wsteps.
    eapply wp_getDom; [simpl; by rewrite lookup_insert_eq|]. wsteps.
    apply wp_assert; [unfold CDA.hasFreshQuantum; simpl; apply Z.eqb_eq; by apply (Cf d)|]. wsteps.
    eapply wp_mono; [apply (wp_statCDARunnable d (mkDom (cda x) cur')); [simpl; by rewrite lookup_insert_eq|by apply Hok|apply G]|].
    intros [] s2 (st & -> & Hst). wsteps.
    destruct (Heap.insert_spec (heap s) q (prio (mkDom (cda x) cur'), d) (g_heap _ _ _ _ G)) as (hp & Ei & Hw).
    { rewrite (Heap.wf_count _ _ (g_heap _ _ _ _ G)). eapply (heap_room s q NULL dc d); try done; by eexists || apply Hdq. }
    eapply wp_updHeap; [exact Ei|]. wsteps. unfold getHead. wsteps.
    destruct (head_min hp _ Hw ltac:(simpl; lia)) as (e & Hg & _). eapply wp_need; [exact Hg|].
    assert (HC' : Core h' (<[d := mkDom (cda x) cur']> (domains s)) ((prio (mkDom (cda x) cur'), d) :: q) NULL dc).
    { apply (core_step HC d x); try done; auto; csimpl.
      - apply NoDup_cons. split; [apply Hdq|done].
      - apply not_elem_of_cons. split; [|done]. destruct Hdq; congruence.
      - intros p d' Hne [[= -> ->]|Hin]%elem_of_cons; [done|by left].
      - intros d' Hne _. rewrite elem_of_cons. tauto.
      - intros p [[= ->]|Hin]%elem_of_cons _; [done|]. exfalso. apply Hdq, list_elem_of_fmap. by exists (p, d).
      - rewrite elem_of_cons. tauto. }
    destruct (Z.eqb_spec d e.2) as [Hde|Hde]; wsteps.
    + destruct Hdisp as [y Hy].
      assert (Hy' : exists y', <[d := mkDom (cda x) cur']> (domains s) !! dispatchedCDA s = Some y').
      { destruct (decide (dispatchedCDA s = d)) as [->|]; [rewrite lookup_insert_eq; eauto|rewrite lookup_insert_ne by done; eauto]. }
      destruct Hy' as [y' Hy']. simpl.
      eapply wp_hasHigher; [simpl; by rewrite lookup_insert_eq|exact Hy'|].
      apply wp_when; intros _; [unfold clearBorrowers; wsteps|]; eapply Hends; try done; apply G.
    + eapply Hends; try done; apply G.
  - eapply Hends; try done; try apply G.
    apply (core_step HC d x); try done; auto.
    + intros p Hin _. destruct (Ce p d Hin) as (_ & H). destruct (H Hd) as (y & Hy & ->).
      assert (y = x) as -> by congruence. done.
    + pose proof (proj1 (Cu d x Hx) Hc0) as [_ ?]. tauto.
Qed.

(** ** Switching to another annex *)

Lemma good_makeCurrent s q dc d a :
  Good s q NULL dc -> inRing (annexes s) d a ->
  wp (makeCurrent d a) (fun _ s' => Good s' q NULL dc /\ evolves s s' /\ annexes s' = annexes s /\ same_who s s' /\
    clock s' = clock s /\ heap s' = heap s) s.
Proof.
  intros G Hin. pose proof (g_core _ _ _ _ G) as HC. pose proof Hin as (n & Hn & Hnx & Hdn).
  destruct (core_member HC d a Hin (core_member_nz HC _ _ Hin)) as (x & Hx & _).
  unfold makeCurrent. wsteps. apply wp_assert; [by apply Z.eqb_eq|]. wsteps.
  apply wp_assert; [by apply negb_true_iff, Z.eqb_neq|]. wsteps.
  destruct (good_dom s q NULL dc d x (mkDom (cda x) a) G Hx) as [G' He']; try done.
  - by apply (core_cur HC); [|left|].
  - pose proof (g_doms _ _ _ _ G _ _ Hx) as Hok. exact Hok.
Qed.

Lemma good_switchToKernel s q dc early :
  Good s q NULL dc -> is_Some (domains s !! dc) -> is_Some (domains s !! dispatchedCDA s) -> kernelPA s <> NULL ->
  wp (switchToKernel early) (fun _ s' => exists q' nk, Good s' q' NULL dc /\ evolves s s' /\ grows s s' /\
    annexes s' !! kernelPA s = Some nk /\ Ring.cpuDomainNext nk <> NULL /\ cdaOf nk = dispatchedCDA s' /\
    dispatchedPA s' = kernelPA s /\ preemptedPA s' = preemptedPA s /\ unblocked s' = unblocked s /\ clock s' = clock s) s.
Proof.
  intros G Hdc Hdisp Hk. destruct (g_kernel _ _ _ _ G Hk) as (n & Hn & _ & Hcn & _). set (kpa := kernelPA s) in *.
  destruct (c_annex _ _ _ _ _ (g_core _ _ _ _ G) _ _ Hn) as (_ & _ & Hkd). specialize (Hkd Hcn).
  unfold switchToKernel. wsteps. eapply wp_getCDA; [exact Hn|]. wsteps. fold kpa.
  set (s1 := set_dispatched _ kpa s).
  destruct (good_other s s1 q NULL dc G) as (G1 & He1 & Hv1); try done; [apply G..|].
  eapply wp_mono; [apply (good_makeReady s1 q dc kpa n G1 Hdc)|]; try done.
  { simpl. by destruct early. }
  intros [] s2 (q2 & G2 & He2 & Hg2 & Hin2 & (E1 & E2 & E3 & E4) & Ek2). wsteps.
  set (s3 := set_dispatched (cdaOf n) kpa s2).
  destruct (good_other s2 s3 q2 NULL dc G2) as (G3 & He3 & _); try done; [apply G2..|].
  eapply wp_mono; [by apply (good_makeCurrent s3 q2 dc (cdaOf n) kpa)|].
  intros [] s4 (G4 & He4 & Ea4 & (F1 & F2 & F3 & F4) & Ek4 & _).
  pose proof Hin2 as (nk & Hnk & Hnxk & Hdk). exists q2, nk. rewrite Ea4, F1, F2, F3, F4, Ek4.
  split; [done|]. split; [do 3 (eapply evolves_trans; [eassumption|]); done|]. split; [|by split_and!].
  intros d b Hb. rewrite Ea4. by apply Hg2.
Qed.

(** The dispatched domain goes back to the heap and the kernel's is taken out. *)
Lemma good_toKernel s q dc x nk now :
  Good s q NULL dc -> domains s !! dc = Some x -> kernelPA s <> NULL ->
  annexes s !! kernelPA s = Some nk -> Ring.cpuDomainNext nk <> NULL -> cdaOf nk = dispatchedCDA s -> dispatchedPA s = kernelPA s ->
  dispatchedCDA s <> dc ->
  exists h' q', Heap.swap (heap s) (prio x) dc (dispatchedCDA s) = Some h' /\ Good (set_heap h' s) q' NULL (dispatchedCDA s) /\
    evolves s (set_heap h' s) /\
    wp (finishDispatch now) (fun _ s' => Good s' q' NULL (dispatchedCDA s) /\ evolves (set_heap h' s) s' /\ views s s' /\
      same_who s s' /\ clock s' = clock s) (set_heap h' s).
Proof.
  intros G Hx Hk Hnk Hnx Hd Hp Hne. pose proof (g_core _ _ _ _ G) as HC.
  assert (Hin : inRing (annexes s) (dispatchedCDA s) (kernelPA s)) by (exists nk; done).
  destruct (core_member HC _ _ Hin (core_member_nz HC _ _ Hin)) as (y & Hy & _ & Hcur).
  destruct (proj1 (c_run _ _ _ _ _ HC _ _ Hy) Hcur) as [_ [|Hq]]; [done|].
  destruct (good_swapped s q dc x (dispatchedCDA s) G Hx Hq) as (h' & q' & E & G' & He). exists h', q'.
  split; [done|]. split; [done|]. split; [done|].
  eapply wp_mono; [apply (good_finish (set_heap h' s) q' nk now G')|]; try done.
  - simpl. by rewrite Hp.
  - destruct (g_kernel _ _ _ _ G Hk) as (nk' & Hnk' & Hwk & _). assert (nk' = nk) as -> by congruence. rewrite Hwk.
    pose proof (g_times _ _ _ _ G _ _ Hnk) as Ht. pose proof (g_clock _ _ _ _ G) as (_ & _ & _ & Hl & _).
    unfold annexOk in Ht. unfold noTime. lia.
  - intros [] s' (G2 & He2 & Hv2 & Hw2 & _ & _ & Ek2). by split_and!.
Qed.

(** The conditions under which thread [me] brings annex [pa] to dispatch. *)
Definition await_ok (s : t) (me pa : Z) : Prop :=
  kernelPA s <> NULL /\ pa <> kernelPA s /\
  exists n, annexes s !! pa = Some n /\ cdaOf n <> NULL /\ awaitingDispatch (Ring.annex n) = false /\
    reservedThread (Ring.annex n) = me.

(** [d] and [cls] are the domain of annex [pa] and its class. *)
Definition in_domain (s : t) (pa d cls : Z) : Prop :=
  exists n x, annexes s !! pa = Some n /\ cdaOf n = d /\ domains s !! d = Some x /\ pclass x = cls.

Lemma good_becomeDispatched s q pa n :
  Good s q NULL (dispatchedCDA s) -> inRing (annexes s) (dispatchedCDA s) (dispatchedPA s) ->
  annexes s !! pa = Some n -> cdaOf n <> NULL ->
  wp (becomeDispatched pa (cdaOf n)) (fun _ s' => exists q', Good s' q' NULL (cdaOf n) /\ evolves s s' /\
    dispatchedCDA s' = cdaOf n /\ dispatchedPA s' = pa /\ inRing (annexes s') (cdaOf n) pa /\
    preemptedPA s' = preemptedPA s /\ unblocked s' = unblocked s /\ clock s' = clock s) s.
Proof.
  intros G Hdp Hn Hcn. set (dc := dispatchedCDA s) in *. set (nd := cdaOf n) in *.
  pose proof (g_core _ _ _ _ G) as HC. destruct (core_member HC _ _ Hdp (core_member_nz HC _ _ Hdp)) as (x0 & Hx0 & _).
  unfold becomeDispatched. wsteps. apply wp_when; intros Hne.
  2:{ apply negb_false_iff, Z.eqb_eq in Hne. destruct Hdp as (m & Hm & Hmx & Hmd). rewrite Hne in Hm.
      assert (m = n) as -> by congruence. exists q. unfold nd. rewrite Hmd. split; [done|]. split; [apply evolves_refl, G|].
      split_and!; try done. by exists n. }
  apply negb_true_iff, Z.eqb_neq in Hne. wsteps.
  eapply wp_mono; [apply (good_makeReady s q dc pa n G)|]; try done; [by eexists..|].
  intros [] s1 (q1 & G1 & He1 & Hg1 & Hin1 & (E1 & E2 & E3 & E4) & Ek1). wsteps.
  eapply wp_mono; [by apply (good_makeCurrent s1 q1 dc nd pa)|].
  intros [] s2 (G2 & He2 & Ea2 & (F1 & F2 & F3 & F4) & Ek2 & _). wsteps. rewrite F1, E1. fold dc.
  assert (Hdp2 : inRing (annexes s2) dc (dispatchedPA s)) by (rewrite Ea2; by apply Hg1).
  assert (Hin2 : inRing (annexes s2) nd pa) by (by rewrite Ea2).
  pose proof (g_core _ _ _ _ G2) as HC2. pose proof HC2 as [Cr Ca Cn Ce Cd Cu Cf].
  destruct (core_member HC2 _ _ Hdp2 (core_member_nz HC2 _ _ Hdp2)) as (x & Hx & _ & Hcur).
  (* the end *)
  assert (Hend : forall s3 q3, Good s3 q3 NULL nd -> evolves s2 s3 -> inRing (annexes s3) nd pa ->
    preemptedPA s3 = preemptedPA s2 -> unblocked s3 = unblocked s2 -> clock s3 = clock s2 ->
    wp (modify (set_dispatched nd pa)) (fun _ s' => exists q', Good s' q' NULL nd /\ evolves s s' /\
      dispatchedCDA s' = nd /\ dispatchedPA s' = pa /\ inRing (annexes s') nd pa /\
      preemptedPA s' = preemptedPA s /\ unblocked s' = unblocked s /\ clock s' = clock s) s3).
  { intros s3 q3 G3 He3 Hin3 P1 P2 P3. wsteps. exists q3.
    destruct (good_other s3 (set_dispatched nd pa s3) q3 NULL nd G3) as (G4 & He4 & _); try done; [apply G3..|].
    split; [done|]. split; [do 3 (eapply evolves_trans; [eassumption|]); done|]. split_and!; try done; simpl; congruence. }
  apply wp_when; intros Hdd.
  - apply negb_true_iff, Z.eqb_neq in Hdd. wsteps.
    eapply wp_mono; [by apply (good_still s2 q1 dc dc x)|].
    intros b s3 (He3 & (W1 & W2 & W3 & W4 & _ & W5) & Eh3 & Hunt3 & x3 & Hx3 & Ec3 & Hb).
    assert (Hin3 : inRing (annexes s3) nd pa) by (apply (inRing_untouched s2 s3); [by apply Hunt3|done]).
    assert (Hq : nd ∈ q1.*2).
    { destruct (core_member HC2 _ _ Hin2 (core_member_nz HC2 _ _ Hin2)) as (y & Hy & _ & Hc).
      destruct (proj1 (Cu _ _ Hy) Hc) as [_ [|]]; [congruence|done]. }
    destruct b; wsteps.
    + destruct Hb as (G3 & Hc3 & _). destruct (good_swapped s3 q1 dc x3 nd G3 Hx3 Hq) as (h' & q' & E & G4 & He4).
      eapply wp_updHeap; [exact E|]. apply (Hend _ q'); try done; [by eapply evolves_trans].
    + destruct Hb as (G3 & Hc3). eapply wp_mono; [by apply (good_retire s3 q1 dc dc x3)|].
      intros [] s4 (c & G4 & Hcc & Ed4 & He4 & (V1 & V2 & V3 & V4 & _ & V5) & Eh4 & Ea4).
      destruct (Heap.heap_remove_spec (heap s4) q1 nd (g_heap _ _ _ _ G4)) as (h' & y & q' & E & Ey & Hp & Hw); [|done..|].
      { rewrite (Heap.wf_count _ _ (g_heap _ _ _ _ G4)). by eapply two_keepers. }
      eapply wp_updHeap; [exact E|]. destruct (queue_split q1 q' y Cn Hp) as (Hnd & Hyq & Hsub & Hel & _).
      destruct (good_drop s4 q1 dc dc (mkDom c NULL) h' q' nd) as [G5 He5]; try done.
      { by rewrite Ed4, lookup_insert_eq. }
      { by rewrite <- Ey. }
      { intros Hin. apply Cd, Hel. by right. }
      { intros d' Hd'. rewrite Hel, Ey. tauto. }
      apply (Hend _ q'); try done; simpl; try congruence.
      eapply evolves_trans; [exact He3|]. by eapply evolves_trans.
  - apply negb_false_iff, Z.eqb_eq in Hdd. rewrite <- Hdd in *. apply (Hend s2 q1); try done. apply evolves_refl, G2.
Qed.

(** ** Preemption *)

(** finishDispatch does not look at the preempted annexes. *)
Lemma wp_finish_preempted now l (Q : unit -> t -> Prop) s :
  wp (finishDispatch now) (fun a s' => Q a (set_preempted l s')) s ->
  wp (finishDispatch now) Q (set_preempted l s).
Proof.
  unfold wp, finishDispatch, getDom, updPA, getPA, putPA, when, bind, gets, need, modify. simpl.
  destruct (domains s !! dispatchedCDA s) as [x|]; [|done]. simpl.
  destruct (annexes s !! dispatchedPA s) as [n|] eqn:En; [|done]. simpl.
  destruct (pulseNeeded (Ring.annex n)); simpl.
  - rewrite En. simpl. rewrite lookup_insert_eq. simpl. destruct (reschedulePulse _ _) as [i|]; [|done]. simpl.
    rewrite lookup_insert_eq. simpl. destruct (CDA.getTimeout _); [|done]. simpl.
    destruct (getTimeout _); [|done]. simpl. by destruct (resetCDABorrowers _ _).
  - simpl. rewrite En. simpl. destruct (CDA.getTimeout _); [|done]. simpl. destruct (getTimeout _); [|done]. simpl.
    by destruct (resetCDABorrowers _ _).
Qed.

Lemma good_preempt s q z dc p n x :
  Good s q z dc -> annexes s !! p = Some n -> Ring.cpuDomainNext n <> NULL -> awaitingDispatch (Ring.annex n) = true ->
  p <> kernelPA s -> domains s !! cdaOf n = Some x ->
  Good (set_preempted (<[Z.to_nat (pclass x) := p]> (preemptedPA s)) s) q z dc.
Proof.
  intros [Gc Gh Gd Gk Gs Gb Gz Gt G1 G2 G3 Gl Gp Gi Gtm Gke] Hn Hnx Ha Hk Hx. split; simpl; try done.
  - by rewrite length_insert.
  - intros c' p' Hp' Hnn. destruct (decide (Z.to_nat (pclass x) = c')) as [<-|Hne].
    + destruct (decide (Z.to_nat (pclass x) < length (preemptedPA s))%nat).
      * rewrite list_lookup_insert_eq in Hp' by done. injection Hp' as <-. split; [done|]. by exists n, x.
      * rewrite list_insert_ge in Hp' by lia. by apply Gp.
    + rewrite list_lookup_insert_ne in Hp' by done. by apply Gp.
Qed.

Lemma not_terminating i : terminationPending i = false -> terminator i = NullThreadID.
Proof. unfold terminationPending. intros E%negb_false_iff%Z.eqb_eq. by apply Z.lxor_eq. Qed.

Lemma not_preempted s q z dc a n :
  Good s q z dc -> annexes s !! a = Some n -> awaitingDispatch (Ring.annex n) = false -> a <> NULL ->
  forall c, preemptedPA s !! c <> Some a.
Proof.
  intros G Hn Ha Hz c Hc. destruct (g_preempted _ _ _ _ G c a Hc Hz) as (_ & m & x & Hm & _ & Haw & _). congruence.
Qed.

(** The thread of [pa] waits; if [pr], [pa] is remembered as preempted in [c]. *)
Lemma good_wait s q x pa n (pr : bool) :
  Good s q NULL (dispatchedCDA s) -> inRing (annexes s) (dispatchedCDA s) (dispatchedPA s) -> dispatchedPA s = kernelPA s ->
  annexes s !! pa = Some n -> Ring.cpuDomainNext n <> NULL -> terminationPending (Ring.annex n) = false ->
  pa <> kernelPA s -> kernelPA s <> NULL -> domains s !! cdaOf n = Some x ->
  wp (waitForDispatch (reservedThread (Ring.annex n)) pa) (fun _ s' => Inv s' /\ clock s' = clock s /\ dispatchedPA s' = kernelPA s' /\
      exists n', annexes s' !! pa = Some n' /\ awaitingDispatch (Ring.annex n') = true)
    (if pr then set_preempted (<[Z.to_nat (pclass x) := pa]> (preemptedPA s)) s else s).
Proof.
  intros G Hdp Hdk Hn Hnx Ht Hpk Hk Hx. unfold waitForDispatch.
  set (i := set_thread (reservedThread (Ring.annex n)) true (terminator (Ring.annex n)) (Ring.annex n)).
  destruct (good_setinfo s q NULL _ pa n i G Hn) as (G1 & Hv1); try done; [by right|by apply (g_term _ _ _ _ G pa n)|].
  set (s1 := upd_annex pa n i s) in *.
  assert (Hn1 : annexes s1 !! pa = Some (Ring.mkPA (Ring.cpuDomainNext n) i)) by (simpl; by rewrite lookup_insert_eq).
  assert (Hdp1 : inRing (annexes s1) (dispatchedCDA s) (dispatchedPA s)) by (by apply (inRing_views s s1)).
  assert (Hend : forall l, (l = preemptedPA s \/ l = <[Z.to_nat (pclass x) := pa]> (preemptedPA s)) ->
    Good (set_preempted l s1) q NULL (dispatchedCDA s) -> Inv (set_preempted l s1)).
  { intros l Hl G2. exists q. split; [done|]. split; [done|]. simpl. rewrite Hdk. intros c Hc.
    by destruct (g_preempted _ _ _ _ G2 c (kernelPA s) Hc Hk) as (? & _). }
  assert (Hgo : forall l, (l = preemptedPA s \/ l = <[Z.to_nat (pclass x) := pa]> (preemptedPA s)) ->
    wp (m <-- getPA pa ;; let i := Ring.annex m in
        need (assertK (reservedThread i =? reservedThread (Ring.annex n))) ;;;
        when (terminator i =? NullThreadID) (updPA pa (set_thread (reservedThread i) true (terminator i))))
      (fun _ s' => Inv s' /\ clock s' = clock s /\ dispatchedPA s' = kernelPA s' /\
        exists n', annexes s' !! pa = Some n' /\ awaitingDispatch (Ring.annex n') = true) (set_preempted l s)).
  { intros l Hl. apply wp_bind. eapply wp_getPA; [exact Hn|]. cbv zeta. apply wp_bind, wp_assert; [apply Z.eqb_refl|].
    rewrite (proj2 (Z.eqb_eq _ _) (not_terminating _ Ht)).
    eapply wp_updPA; [exact Hn|]. change (set_annexes _ _) with (set_preempted l s1).
    split; [|split_and!; try done; by eexists]. apply Hend; [done|]. destruct Hl as [->| ->]; [by destruct s|].
    by apply (good_preempt s1 q NULL _ pa (Ring.mkPA (Ring.cpuDomainNext n) i)). }
  destruct pr; [apply Hgo; by right|]. pose proof (Hgo (preemptedPA s) (or_introl eq_refl)) as H.
  by replace (set_preempted (preemptedPA s) s) with s in H by (by destruct s).
Qed.

Lemma good_hardPreempt s q pa n x now :
  Good s q NULL (dispatchedCDA s) -> dispatchedPA s = pa -> annexes s !! pa = Some n -> Ring.cpuDomainNext n <> NULL ->
  cdaOf n = dispatchedCDA s -> terminationPending (Ring.annex n) = false ->
  kernelPA s <> NULL -> pa <> kernelPA s -> domains s !! dispatchedCDA s = Some x ->
  wp (hardPreempt (reservedThread (Ring.annex n)) pa (dispatchedCDA s) (pclass x) now) (fun _ s' => Inv s' /\ clock s' = clock s /\
    dispatchedPA s' = kernelPA s' /\ exists n', annexes s' !! pa = Some n' /\ awaitingDispatch (Ring.annex n') = true) s.
Proof.
  intros G Hdp Hn Hnx Hdn Ht Hk Hpk Hx. set (nd := dispatchedCDA s) in *. unfold hardPreempt. wsteps.
  eapply wp_mono; [apply (good_switchToKernel s q nd false); try done; by eexists|].
  intros [] s1 (q1 & nk & G1 & He1 & Hg1 & Hnk & Hnxk & Hdk & Ep1 & Epp1 & Eu1 & Ek1). wsteps.
  assert (Ekn : kernelPA s1 = kernelPA s) by apply (e_kernel _ _ He1).
  destruct (e_dom _ _ He1 _ _ Hx) as (x1 & Hx1 & Hc1). wsteps.
  assert (Hin1 : inRing (annexes s1) nd pa) by (apply Hg1; by exists n).
  assert (Hkd : dispatchedCDA s1 <> nd).
  { intros E. destruct (g_kernel _ _ _ _ G1) as (nk' & Hnk' & _ & _ & Hal); [by rewrite Ekn|]. rewrite Ekn in *.
    assert (nk' = nk) as -> by congruence. destruct Hin1 as (m & Hm & _ & Hmd). apply Hpk, (Hal pa m); [done|]. congruence. }
  destruct (good_toKernel s1 q1 nd x1 nk now) as (h' & q' & E & G2 & He2 & Hfin); try done; try congruence.
  eapply wp_updHeap; [exact E|]. wsteps. set (s2 := set_heap h' s1) in *.
  pose proof (g_doms _ _ _ _ G _ _ Hx) as Hok. destruct (class_slot s q NULL nd x G Hok) as [p Hp].
  unfold getPreempted. wsteps. eapply wp_need; [simpl; rewrite Epp1; exact Hp|]. wsteps.
  destruct Hin1 as (n1 & Hn1 & Hnx1 & Hdn1). eapply wp_getPA; [exact Hn1|]. wsteps.
  (* finishDispatch and the wait, whether or not pa is remembered *)
  assert (Hend : forall pr : bool, wp (finishDispatch now ;;; waitForDispatch (reservedThread (Ring.annex n)) pa)
    (fun _ s' => Inv s' /\ clock s' = clock s /\ dispatchedPA s' = kernelPA s' /\
      exists n', annexes s' !! pa = Some n' /\ awaitingDispatch (Ring.annex n') = true)
    (if pr then set_preempted (<[Z.to_nat (pclass x) := pa]> (preemptedPA s2)) s2 else s2)).
  { intros pr. assert (Hw : wp (finishDispatch now) (fun _ s' => wp (waitForDispatch (reservedThread (Ring.annex n)) pa)
      (fun _ s' => Inv s' /\ clock s' = clock s /\ dispatchedPA s' = kernelPA s' /\
        exists n', annexes s' !! pa = Some n' /\ awaitingDispatch (Ring.annex n') = true)
      (if pr then set_preempted (<[Z.to_nat (pclass x) := pa]> (preemptedPA s')) s' else s')) s2).
    { eapply wp_mono; [exact Hfin|]. intros [] s3 (G3 & He3 & Hv3 & (W1 & W2 & W3 & W4) & Ek3).
      assert (He : evolves s s3) by (eapply evolves_trans; [exact He1|]; by eapply evolves_trans).
      destruct (evolves_annex s s3 pa n He Hn) as (n3 & Hn3 & V3). pose proof (v_keeps _ _ _ _ V3) as (K1 & _ & K3 & _ & K5 & _).
      destruct (e_dom _ _ He _ _ Hx) as (x3 & Hx3 & Hc3). rewrite <- Hc3.
      assert (Hin3 : inRing (annexes s3) nd pa) by (apply (inRing_views s1 s3); [done|]; by exists n1).
      destruct Hin3 as (n3' & Hn3' & Hnx3 & _). assert (n3' = n3) as -> by congruence.
      assert (Ekn3 : kernelPA s3 = kernelPA s) by apply (e_kernel _ _ He).
      rewrite <- W1 in G3. rewrite <- K3. eapply wp_mono; [apply (good_wait s3 q' x3 pa n3 pr G3)|]; try done.
      - rewrite W1, W2, Ep1. apply (inRing_views s1 s3); [done|]. by exists nk.
      - rewrite W2, Ep1. done.
      - unfold terminationPending in *. by rewrite K5.
      - by rewrite Ekn3.
      - by rewrite Ekn3.
      - by rewrite K1, Hdn.
      - intros [] s4 (HI & Ek4 & ?). split; [done|]. split; [|done]. by rewrite Ek4, Ek3. }
    apply wp_bind. destruct pr; [|exact Hw]. apply wp_finish_preempted.
    assert (Hpre : wp (finishDispatch now) (fun _ s' => preemptedPA s' = preemptedPA s2) s2).
    { eapply wp_mono; [exact Hfin|]. intros [] s3 (_ & _ & _ & (_ & _ & W3 & _) & _). exact W3. }
    revert Hw Hpre. unfold wp. destruct (finishDispatch now s2) as [[a s3]| |]; [|done..]. intros Hw E3. by rewrite E3 in Hw. }
  apply wp_when; intros _; [apply wp_modify; cbv beta; apply (Hend true)|apply (Hend false)].
Qed.

Lemma good_softPreempt s q pa n head y :
  Good s q NULL (dispatchedCDA s) -> annexes s !! pa = Some n -> Ring.cpuDomainNext n <> NULL -> cdaOf n = dispatchedCDA s ->
  pa <> kernelPA s -> warningExpired (Ring.annex n) = false -> domains s !! head = Some y ->
  wp (softPreempt pa (dispatchedCDA s) head) (fun _ s' => exists n', Good s' q NULL (dispatchedCDA s) /\ evolves s s' /\ views s s' /\
    same_who s s' /\ clock s' = clock s /\ domains s' = domains s /\ heap s' = heap s /\ annexes s' !! pa = Some n' /\
    dispatchTicks (Ring.annex n') <= warningTicks (Ring.annex n')) s.
Proof.
  intros G Hn Hnx Hdn Hpk Hw Hy. pose proof (g_core _ _ _ _ G) as HC.
  assert (Hin : inRing (annexes s) (dispatchedCDA s) pa) by (exists n; done).
  destruct (core_member HC _ _ Hin (core_member_nz HC _ _ Hin)) as (x & Hx & _).
  pose proof (g_times _ _ _ _ G _ _ Hn) as Ht. unfold annexOk in Ht. pose proof (g_clock _ _ _ _ G) as (_ & _ & _ & Hl & _ & Hq).
  unfold warningExpired in Hw. apply Z.leb_gt in Hw.
  assert (Hend : forall i, keeps (Ring.annex n) i -> dispatchTicks i = dispatchTicks (Ring.annex n) -> pulseTicks i = pulseTicks (Ring.annex n) ->
    dispatchTicks i <= warningTicks i ->
    exists n', Good (upd_annex pa n i s) q NULL (dispatchedCDA s) /\ evolves s (upd_annex pa n i s) /\ views s (upd_annex pa n i s) /\
    same_who s (upd_annex pa n i s) /\ clock (upd_annex pa n i s) = clock s /\ domains (upd_annex pa n i s) = domains s /\
    heap (upd_annex pa n i s) = heap s /\ annexes (upd_annex pa n i s) !! pa = Some n' /\
    dispatchTicks (Ring.annex n') <= warningTicks (Ring.annex n')).
  { intros i Hk E1 E2 Hwi. destruct (good_updPA s q NULL _ pa n i G Hn Hk) as (G1 & He1 & Hv1); try done.
    - unfold annexOk. lia.
    - intros _. by right.
    - eexists. split_and!; try done; [simpl; by rewrite lookup_insert_eq|done]. }
  unfold softPreempt. wsteps. eapply wp_hasHigher; [exact Hy|exact Hx|]. wsteps. unfold isCurrent. wsteps.
  destruct (negb _ && _).
  - eapply wp_updPA; [exact Hn|]. apply Hend; try done. unfold clearWarning, noTime. simpl. lia.
  - wsteps. apply wp_when; intros Hhw.
    + wsteps. eapply wp_updPA; [exact Hn|]. wsteps. eapply wp_updPA; [simpl; by rewrite lookup_insert_eq|].
      cbn [Ring.cpuDomainNext Ring.annex]. set (i := setInterrupt PREEMPT (Ring.annex n)).
      change (set_annexes (<[pa := Ring.mkPA (Ring.cpuDomainNext n) i]> (annexes s)) s) with (upd_annex pa n i s).
      rewrite upd_upd. apply Hend; try done.
      * exact (keeps_interrupt (Ring.annex n) PREEMPT).
      * unfold setWarning. simpl. rewrite uadd_small by lia. lia.
    + exists n. split; [done|]. split; [apply evolves_refl, G|]. split_and!; try done. lia.
Qed.

(** ** awaitDispatch *)

(** The state in which awaitDispatch decides: time is charged, the annex has become
    the dispatched one and the head of the heap can run. *)
Definition settled (pa d now : Z) : M unit :=
  _ <-- startDispatch now ;; becomeDispatched pa d ;;; cleanHeap.

(** A domain of a better class has annexes. *)
Definition outranked (s : t) (cls : Z) : Prop :=
  exists d y, domains s !! d = Some y /\ currentPA y <> NULL /\ pclass y < cls.

(** The annex gives way: to a better class, to an annex of its class that was
    preempted before, or because it has used up its warning. *)
Definition mustWait (s : t) (pa cls : Z) : Prop :=
  outranked s cls \/ (exists p, preemptedPA s !! Z.to_nat cls = Some p /\ p <> NULL) \/
  (exists n, annexes s !! pa = Some n /\ warningExpired (Ring.annex n) = true).

(** How awaitDispatch ends: if the process is being terminated, the thread has given
    way to the terminator; else, if it must wait, it was preempted by the kernel,
    for which the thread waits; else the annex is dispatched and no domain of a
    better class can run. *)
Definition awaited (s : t) (pa d cls now : Z) (o : outcome) (s' : t) : Prop :=
  exists n n', annexes s !! pa = Some n /\ annexes s' !! pa = Some n' /\
  match o with
  | Terminating => terminationPending (Ring.annex n) = true /\ unblocked s' = unblocked s ++ [terminator (Ring.annex n)] /\
      reservedThread (Ring.annex n') = NULL /\ terminator (Ring.annex n') = NullThreadID
  | Waiting d' cls' => d' = d /\ cls' = cls /\ terminationPending (Ring.annex n) = false /\
      (exists s3, settled pa d now s = Ok (tt, s3) /\ mustWait s3 pa cls) /\
      dispatchedPA s' = kernelPA s' /\ awaitingDispatch (Ring.annex n') = true
  | Dispatched => terminationPending (Ring.annex n) = false /\
      (exists s3, settled pa d now s = Ok (tt, s3) /\ ~ mustWait s3 pa cls /\ domains s' = domains s3) /\
      dispatchedPA s' = pa /\ dispatchedCDA s' = d /\ ~ outranked s' cls
  end.

Lemma prio_class x y : domOk x -> domOk y -> prio x <= prio y -> pclass x <= pclass y.
Proof.
  intros (Hx & _) (Hy & _) H. unfold prio in H. rewrite !CDA.whole_sum in H by done. unfold CDA.prio_ok, pclass in *. lia.
Qed.

(** No entry of the heap has a better class than its head, nor has the dispatched domain. *)
Lemma head_outranks s q e xh x :
  Good s q NULL (dispatchedCDA s) -> Heap.minimal e q -> domains s !! e.2 = Some xh -> e.1 = prio xh -> currentPA xh <> NULL ->
  domains s !! dispatchedCDA s = Some x -> outranked s (pclass x) <-> pclass xh < pclass x.
Proof.
  intros G Hmin Hxh Eeh Hch Hx. split; [|intros H; by exists e.2, xh].
  intros (d & y & Hy & Hcy & Hlt). pose proof (g_core _ _ _ _ G) as [Cr Ca Cn Ce Cd Cu Cf].
  destruct (proj1 (Cu d y Hy) Hcy) as [Hd [->|Hin]]; [assert (y = x) as -> by congruence; lia|].
  apply list_elem_of_fmap in Hin as ([pr d'] & -> & Hin). simpl in *. destruct (Ce pr d' Hin) as (_ & H).
  destruct (H Hd) as (y' & Hy' & ->). assert (y' = y) as -> by congruence.
  assert (pclass xh <= pclass y); [|lia].
  apply prio_class; [by apply (g_doms _ _ _ _ G e.2)|by apply (g_doms _ _ _ _ G d')|].
  rewrite <- Eeh. by apply (proj2 Hmin (prio y, d')).
Qed.

Lemma mustWait_iff s q e xh x p pa n :
  Good s q NULL (dispatchedCDA s) -> Heap.minimal e q -> domains s !! e.2 = Some xh -> e.1 = prio xh -> currentPA xh <> NULL ->
  domains s !! dispatchedCDA s = Some x -> preemptedPA s !! Z.to_nat (pclass x) = Some p -> annexes s !! pa = Some n ->
  (pclass xh <? pclass x) || negb (p =? NULL) || warningExpired (Ring.annex n) = true <-> mustWait s pa (pclass x).
Proof.
  intros G Hmin Hxh Eeh Hch Hx Hp Hn. unfold mustWait. rewrite (head_outranks s q e xh x) by done.
  rewrite !orb_true_iff, Z.ltb_lt, negb_true_iff, Z.eqb_neq. split.
  - intros [[H|H]|H]; [by left|right; left|right; right]; eauto.
  - intros [H|[(p' & Hp' & H)|(n' & Hn' & H)]]; [tauto| |].
    + assert (p' = p) as -> by congruence. tauto.
    + assert (n' = n) as -> by congruence. tauto.
Qed.

Lemma good_retry s me pa nd cls now :
  Inv s -> await_ok s me pa -> in_domain s pa nd cls -> lastDispatchTime (clock s) <= now < 2 ^ 61 ->
  wp (awaitRetry me pa nd cls now)
    (fun o s' => Inv s' /\ awaited s pa nd cls now o s' /\ lastDispatchTime (clock s') = now) s.
Proof.
  intros (q & G & Hdp & Hpre) (Hk & Hpk & n & Hn & Hcn & Haw & Hme) (m & nx & Hm & Hnd & Hnx & Hcls) Hnow.
  assert (m = n) as -> by congruence. destruct (c_annex _ _ _ _ _ (g_core _ _ _ _ G) _ _ Hn) as (Hpn & _ & _).
  unfold awaitRetry. wsteps.
  eapply wp_mono; [apply wp_ends; by apply (good_start s q now)|].
  intros r s1 ((-> & G1 & He1 & Hv1 & (E1 & E2 & E3 & E4) & Hl1) & R1). rewrite <- E1 in G1. wsteps.
  destruct (evolves_annex s s1 pa n He1 Hn) as (n1 & Hn1 & V1). pose proof (v_keeps _ _ _ _ V1) as (K1 & _ & K3 & K4 & K5 & _).
  assert (Ekn1 : kernelPA s1 = kernelPA s) by apply (e_kernel _ _ He1).
  assert (Hdp1 : inRing (annexes s1) (dispatchedCDA s1) (dispatchedPA s1)) by (rewrite E1, E2; by apply (inRing_views s s1)).
  assert (Etn : terminationPending (Ring.annex n1) = terminationPending (Ring.annex n)) by (unfold terminationPending; by rewrite K5).
  wsteps. destruct (terminationPending (Ring.annex n1)) eqn:Et.
  - (* the process is being terminated *)
    unfold resumeTermination. wsteps. apply wp_assert; [apply Z.eqb_eq; congruence|]. wsteps. eapply wp_updPA; [exact Hn1|]. wsteps.
    set (i := set_thread NULL _ NullThreadID _).
    destruct (good_setinfo s1 q NULL _ pa n1 i G1 Hn1) as (G2 & Hv2); try done.
    + left. apply (not_preempted s1 q NULL _ pa n1 G1 Hn1); [by rewrite K4|done].
    + intros HT. exfalso. by apply HT, (g_term _ _ _ _ G1 pa n1).
    + set (s2 := upd_annex pa n1 i s1) in *. change (set_annexes _ s1) with s2.
      destruct (good_other s2 (add_unblocked (terminator (Ring.annex n1)) s2) q NULL _ G2) as (G3 & _ & Hv3); try done; [apply G2..|].
      split; [|split; [|done]].
      * exists q. split; [done|]. split; [by apply (inRing_views s1)|]. simpl. rewrite E2, E3. exact Hpre.
      * eexists n, _. split; [done|]. split; [simpl; by rewrite lookup_insert_eq|]. split_and!; try done. simpl. by rewrite E4, K5.
  - wsteps. assert (Ecn : nd = cdaOf n1) by (by rewrite K1). rewrite Ecn.
    eapply wp_mono; [apply wp_ends, (good_becomeDispatched s1 q pa n1); try done; congruence|].
    intros [] s2 ((q2 & G2 & He2 & F1 & F2 & Hin2 & F3 & F4 & F5) & R2). rewrite <- Ecn in *. wsteps.
    assert (Hlen : (length q2 < S Heap.HEAP_SIZE)%nat).
    { rewrite <- (Heap.wf_count _ _ (g_heap _ _ _ _ G2)). destruct (g_heap _ _ _ _ G2) as (_ & Hc & _). lia. }
    eapply wp_mono; [apply wp_ends; by apply (good_clean nd (S Heap.HEAP_SIZE) s2 q2)|].
    intros [] s3 ((q3 & G3 & He3 & (W1 & W2 & W3 & W4 & _ & W5) & _ & Hunt & e & xh & nh & Hg & Hmin & Hxh & Eeh & Hch & _) & R3). wsteps.
    assert (Hset : settled pa nd now s = Ok (tt, s3)).
    { unfold settled, bind. rewrite R1. rewrite R2. exact R3. }
    unfold getHead. wsteps. eapply wp_need; [exact Hg|]. wsteps.
    assert (Hin3 : inRing (annexes s3) nd pa).
    { apply (inRing_untouched s2 s3); [|done]. apply Hunt. apply (c_disp _ _ _ _ _ (g_core _ _ _ _ G2)). }
    assert (He13 : evolves s1 s3) by (by eapply evolves_trans).
    destruct (e_dom _ _ (evolves_trans _ _ _ He1 He13) _ _ Hnx) as (x3 & Hx3 & Hc3).
    pose proof (g_doms _ _ _ _ G3 _ _ Hx3) as Hok3. destruct (class_slot s3 q3 NULL nd x3 G3 Hok3) as [p Hp].
    assert (Hcls3 : cls = pclass x3) by congruence. clear Hc3 Hcls. subst cls.
    unfold getPreempted. wsteps. eapply wp_need; [exact Hp|]. wsteps.
    destruct (evolves_annex s1 s3 pa n1 He13 Hn1) as (n3 & Hn3 & V3). pose proof (v_keeps _ _ _ _ V3) as (L1 & _ & L3 & _ & L5 & _).
    destruct Hin3 as (n3' & Hn3' & Hnx3 & Hdn3). assert (n3' = n3) as -> by congruence. wsteps.
    assert (D1 : dispatchedCDA s3 = nd) by congruence. assert (D2 : dispatchedPA s3 = pa) by congruence.
    assert (Ekn3 : kernelPA s3 = kernelPA s) by (rewrite (e_kernel _ _ He13); done).
    assert (Hl3 : lastDispatchTime (clock s3) = now) by (rewrite W4, F5; done).
    assert (Et3 : terminationPending (Ring.annex n3) = false) by (unfold terminationPending in *; by rewrite L5).
    assert (Hme3 : me = reservedThread (Ring.annex n3)) by congruence.
    rewrite <- D1 in G3, Hdn3, Hx3.
    pose proof (mustWait_iff s3 q3 e xh x3 p pa n3 G3 Hmin Hxh Eeh Hch Hx3 Hp Hn3) as Hmust.
    destruct ((pclass xh <? pclass x3) || negb (p =? NULL) || warningExpired (Ring.annex n3)) eqn:Ehard.
    + wsteps. rewrite Hme3, <- D1. eapply wp_mono; [apply (good_hardPreempt s3 q3 pa n3 x3 now); try done; congruence|].
      intros [] s4 (HI & Ek4 & Hdk & n4 & Hn4 & Ha4). wsteps. split; [done|]. split; [|by rewrite Ek4].
      exists n, n4. split_and!; try done; try congruence. rewrite D1. exists s3. split; [done|]. by apply Hmust.
    + assert (Hno : ~ mustWait s3 pa (pclass x3)) by (by rewrite <- Hmust).
      apply orb_false_iff in Ehard as [[Ehd _]%orb_false_iff Ewx]. apply Z.ltb_ge in Ehd. wsteps. rewrite <- D1.
      eapply wp_mono; [apply (good_softPreempt s3 q3 pa n3 e.2 xh); try done; congruence|].
      intros [] s4 (n4 & G4 & He4 & Hv4 & (X1 & X2 & X3 & X4) & Ek4 & Ed4 & Eh4 & Hn4 & Hw4). wsteps. rewrite <- X1 in G4.
      assert (Hin4 : inRing (annexes s4) (dispatchedCDA s4) pa) by (rewrite X1; apply (inRing_views s3 s4); [done|by exists n3]).
      destruct Hin4 as (n4' & Hn4' & Hnx4 & Hdn4). assert (n4' = n4) as -> by congruence.
      eapply wp_mono; [apply (good_finish s4 q3 n4 now G4); try done; by rewrite X2, D2|].
      intros [] s5 (G5 & He5 & Hv5 & (Y1 & Y2 & Y3 & Y4) & Eh5 & Ed5 & Ek5). wsteps. rewrite <- Y1 in G5.
      split; [|split].
      * exists q3. split; [done|]. split.
        -- rewrite Y1, Y2, X2, D2. apply (inRing_views s4 s5); [done|by exists n4].
        -- rewrite Y2, Y3, X2, X3, W3, F3, E3, D2. rewrite <- E3.
           apply (not_preempted s1 q NULL _ pa n1 G1 Hn1); [by rewrite K4|done].
      * destruct (evolves_annex s4 s5 pa n4 He5 Hn4) as (n5 & Hn5 & _). assert (Ed : domains s5 = domains s3) by congruence.
        exists n, n5. split_and!; try done; try congruence.
        -- rewrite D1. by exists s3.
        -- unfold outranked. rewrite Ed. intros H. apply Hno. by left.
      * by rewrite Ek5, Ek4.
Qed.

Lemma good_await s me pa nd cls now :
  Inv s -> await_ok s me pa -> in_domain s pa nd cls -> lastDispatchTime (clock s) <= now < 2 ^ 61 ->
  wp (awaitDispatch (kernelPA s) me pa now)
    (fun o s' => Inv s' /\ awaited s pa nd cls now o s' /\ lastDispatchTime (clock s') = now) s.
Proof.
  intros HI Ha Hd Hnow. pose proof Ha as (_ & Hpk & n & Hn & _ & _ & Hme). pose proof Hd as (m & x & Hm & Hc & Hx & Hcls).
  assert (m = n) as -> by congruence. unfold awaitDispatch. wsteps. apply wp_assert; [apply Z.eqb_refl|]. wsteps.
  apply wp_assert; [by apply negb_true_iff, Z.eqb_neq|]. wsteps. apply wp_assert; [by apply Z.eqb_eq|]. wsteps.
  eapply wp_getCDA; [exact Hn|]. rewrite Hc. wsteps. rewrite Hcls. by apply good_retry.
Qed.

(** The domain of an annex that is attached. *)
Lemma await_in_domain s me pa : Inv s -> await_ok s me pa -> exists d cls, in_domain s pa d cls.
Proof.
  intros (q & G & _) (_ & _ & n & Hn & Hc & _). destruct (c_annex _ _ _ _ _ (g_core _ _ _ _ G) _ _ Hn) as (_ & _ & Hs).
  destruct (Hs Hc) as [x Hx]. by exists (cdaOf n), (pclass x), n, x.
Qed.

(** ** An annex leaves the processor *)

Lemma good_dq_remove s pa n now :
  Inv s -> kernelPA s <> NULL -> pa <> kernelPA s -> annexes s !! pa = Some n -> Ring.cpuDomainNext n <> NULL ->
  lastDispatchTime (clock s) <= now < 2 ^ 61 ->
  wp (dq_removeProcessAnnex pa now) (fun _ s' => Inv s' /\ evolves s s' /\ dispatchedPA s' <> pa /\
    (forall c, preemptedPA s' !! c <> Some pa) /\ inRing (annexes s') (cdaOf n) pa /\ lastDispatchTime (clock s') <= now) s.
Proof.
  intros (q & G & Hdp & Hpre) Hk Hpk Hn Hnx Hnow. set (d := cdaOf n). pose proof (g_core _ _ _ _ G) as HC.
  assert (Hin : inRing (annexes s) d pa) by (exists n; done).
  destruct (core_member HC _ _ Hin (core_member_nz HC _ _ Hin)) as (x & Hx & _).
  assert (Hpn : pa <> NULL) by (by apply (c_annex _ _ _ _ _ HC pa n)).
  unfold dq_removeProcessAnnex. wsteps. eapply wp_getCDA; [exact Hn|]. fold d. wsteps.
  destruct (Z.eqb_spec pa (dispatchedPA s)) as [->|Hne].
  - (* the dispatched annex: switch to the kernel *)
    assert (Hdd : dispatchedCDA s = d) by (destruct Hdp as (m & Hm & _ & <-); unfold d; congruence).
    wsteps. eapply wp_mono; [by apply (good_start s q now)|].
    intros r s1 (-> & G1 & He1 & Hv1 & (E1 & E2 & E3 & E4) & Hl1). rewrite Hdd in G1. wsteps.
    assert (Ekn1 : kernelPA s1 = kernelPA s) by apply (e_kernel _ _ He1).
    destruct (e_dom _ _ He1 _ _ Hx) as (x1 & Hx1 & _).
    eapply wp_mono; [apply (good_switchToKernel s1 q d true G1); [by eexists|rewrite E1, Hdd; by eexists|by rewrite Ekn1]|].
    intros [] s2 (q2 & nk & G2 & He2 & Hg2 & Hnk & Hnxk & Hdk & Ep2 & Epp2 & Eu2 & Ek2). wsteps.
    assert (Ekn2 : kernelPA s2 = kernelPA s) by (rewrite (e_kernel _ _ He2); done).
    destruct (e_dom _ _ He2 _ _ Hx1) as (x2 & Hx2 & _). wsteps.
    assert (Hin2 : inRing (annexes s2) d (dispatchedPA s)) by (apply Hg2; by apply (inRing_views s s1)).
    assert (Hkd : dispatchedCDA s2 <> d).
    { intros E. destruct (g_kernel _ _ _ _ G2) as (nk' & Hnk' & _ & _ & Hal); [by rewrite Ekn2|].
      assert (nk' = nk) as -> by congruence. destruct Hin2 as (m & Hm & _ & Hmd). apply Hpk. rewrite <- Ekn2. apply (Hal _ m); [done|]. congruence. }
    destruct (good_toKernel s2 q2 d x2 nk now) as (h' & q' & E & G3 & He3 & Hfin); try done; try congruence.
    eapply wp_updHeap; [exact E|]. eapply wp_mono; [exact Hfin|].
    intros [] s4 (G4 & He4 & Hv4 & (W1 & W2 & W3 & W4) & Ek4). rewrite <- W1 in G4.
    assert (He : evolves s s4) by (eapply evolves_trans; [exact He1|]; eapply evolves_trans; [exact He2|]; by eapply evolves_trans).
    assert (Ek : kernelPA s4 = kernelPA s) by apply (e_kernel _ _ He).
    assert (Edp : dispatchedPA s4 = kernelPA s) by (rewrite W2, Ep2; done).
    split; [|split; [done|split; [|split; [|split]]]].
    + exists q'. split; [done|]. split.
      * rewrite W1, Edp, <- Ekn1. apply (inRing_views s2 s4); [done|]. by exists nk.
      * rewrite Edp. intros c Hc. destruct (g_preempted _ _ _ _ G4 c _ Hc Hk) as (? & _). congruence.
    + rewrite Edp. congruence.
    + rewrite W3, Epp2, E3. apply Hpre.
    + by apply (inRing_views s2 s4).
    + rewrite Ek4, Ek2. lia.
  - wsteps. pose proof (g_doms _ _ _ _ G _ _ Hx) as Hok. destruct (class_slot s q NULL _ x G Hok) as [p Hp].
    unfold getPreempted. wsteps. eapply wp_need; [exact Hp|].
    assert (Hslot : forall c, preemptedPA s !! c = Some pa -> c = Z.to_nat (pclass x)).
    { intros c Hc. destruct (g_preempted _ _ _ _ G c pa Hc Hpn) as (_ & m & y & Hm & _ & _ & Hy & <-).
      assert (m = n) as -> by congruence. unfold d in Hx. congruence. }
    apply wp_when; intros Hpp.
    + apply Z.eqb_eq in Hpp as ->. unfold putPreempted. wsteps.
      assert (Hlk : forall c b, <[Z.to_nat (pclass x) := NULL]> (preemptedPA s) !! c = Some b ->
        (b = NULL \/ preemptedPA s !! c = Some b) /\ (b = pa -> False)).
      { intros c b Hc. destruct (decide (Z.to_nat (pclass x) = c)) as [<-|Hcc].
        - rewrite list_lookup_insert_eq in Hc by (by apply lookup_lt_Some in Hp). split; [left|]; congruence.
        - rewrite list_lookup_insert_ne in Hc by done. split; [by right|]. intros ->. by apply Hcc, eq_sym, Hslot. }
      split; [|split; [|split; [done|split; [|split; [done|simpl; lia]]]]].
      * exists q. split; [by apply good_unpreempt|]. split; [done|]. simpl. intros c Hc.
        destruct (Hlk _ _ Hc) as [[E|E] _]; [|by apply Hpre in E].
        destruct Hdp as (m & Hm & _). by apply (c_annex _ _ _ _ _ HC _ _) in Hm as [? _].
      * eapply evolves_ext; [apply evolves_refl, G|done..].
      * simpl. intros c Hc. by destruct (Hlk _ _ Hc).
    + apply Z.eqb_neq in Hpp. split; [by exists q|]. split; [apply evolves_refl, G|]. split; [done|]. split; [|split; [done|lia]].
      intros c Hc. pose proof (Hslot c Hc) as ->. congruence.
Qed.

(** Links change, [pa] has left its ring. *)
Lemma good_removed s s' q z dc q' z' dc' pa :
  Good s q z dc -> pa ∈ T -> pa <> p1 -> pa <> p2 -> (forall c, preemptedPA s !! c <> Some pa) ->
  (forall a n', annexes s' !! a = Some n' -> exists n, annexes s !! a = Some n /\ Ring.annex n' = Ring.annex n /\
    (a <> pa -> (Ring.cpuDomainNext n' = NULL <-> Ring.cpuDomainNext n = NULL))) ->
  (forall a, is_Some (annexes s !! a) -> is_Some (annexes s' !! a)) ->
  (forall d x, domains s !! d = Some x -> exists x', domains s' !! d = Some x' /\ pclass x' = pclass x) ->
  dom (domains s') = dom (domains s) -> kernelPA s' = kernelPA s -> preemptedPA s' = preemptedPA s -> clock s' = clock s ->
  Core (annexes s') (domains s') q' z' dc' -> Heap.wf (heap s') q' ->
  (forall d x, domains s' !! d = Some x -> domOk x) -> statsOk (stats s') -> length (cdaBorrowers (borrowers s')) = 8%nat ->
  Good s' q' z' dc'.
Proof.
  intros G HT Hp1 Hp2 Hpp HA HS HD Hdom Ek Epp Ec HC Hw Hok Hst Hb.
  assert (HA' : forall a n, annexes s !! a = Some n -> exists n', annexes s' !! a = Some n' /\ Ring.annex n' = Ring.annex n /\
    (a <> pa -> (Ring.cpuDomainNext n' = NULL <-> Ring.cpuDomainNext n = NULL))).
  { intros a n Hn. destruct (HS a ltac:(by eexists)) as [n' Hn']. destruct (HA a n' Hn') as (m & Hm & ? & ?).
    assert (m = n) as -> by congruence. eauto. }
  assert (Hkeep : forall d p, p <> pa -> keeper (annexes s) d p -> keeper (annexes s') d p).
  { intros d p Hne (n & Hn & Hx & Hd & ? & ?). destruct (HA' p n Hn) as (n' & Hn' & E & Hi). exists n'. rewrite E. split_and!; try done. rewrite (Hi Hne). done. }
  destruct G as [Gc Gh Gd Gk Gs Gb Gz Gt G1 G2 G3 Gl Gp Gi Gtm Gke]. split; try done; try congruence.
  - by rewrite <- (size_dom (domains s')), Hdom, size_dom.
  - intros a n' Hn'. destruct (HA a n' Hn') as (n & Hn & -> & _). rewrite Ec. by apply (Gt a).
  - by apply Hkeep.
  - by apply Hkeep.
  - rewrite Epp, Ek. intros c p Hp Hnn. destruct (Gp c p Hp Hnn) as (? & n & x & Hn & Hnx & Ha & Hx & Hc). split; [done|].
    destruct (HA' p n Hn) as (n' & Hn' & E & Hi). destruct (HD _ _ Hx) as (x' & Hx' & Ex). exists n', x'. rewrite E, Ex.
    split_and!; try done. rewrite Hi; [done|]. intros ->. by apply Hpp in Hp.
  - intros a n' Hn' Ha Hd Hr Hpn. destruct (HA a n' Hn') as (n & Hn & E & Hi). rewrite E in *. rewrite Hi by (by intros ->). by apply (Gi a).
  - intros a n' Hn' Ht. destruct (HA a n' Hn') as (n & Hn & E & _). rewrite E in Ht. by apply (Gtm a n).
  - rewrite Ek. intros Hk. destruct (Gke Hk) as (n & Hn & Hwn & Hd & Hal). destruct (HA' _ _ Hn) as (n' & Hn' & E & _).
    exists n'. rewrite E. split_and!; try done. intros b m' Hm' Eb. destruct (HA b m' Hm') as (m & Hm & Em & _). apply (Hal b m Hm). by rewrite <- Em.
Qed.

(** The domain [d], without annexes, is taken out of the heap. *)
Lemma good_removeCDA s q d x :
  Good s q d (dispatchedCDA s) -> domains s !! d = Some x -> currentPA x = NULL -> d <> dispatchedCDA s -> d ∈ q.*2 ->
  wp (removeCPUDomainAnnex d) (fun _ s' => exists q', Good s' q' NULL (dispatchedCDA s) /\ same_disp s s' /\ annexes s' = annexes s /\
    kernelPA s' = kernelPA s) s.
Proof.
  intros G Hx Hn Hne Hin. pose proof (g_core _ _ _ _ G) as HC. pose proof HC as [Cr Ca Cn Ce Cd Cu Cf].
  unfold removeCPUDomainAnnex. wsteps. apply wp_assert; [by apply negb_true_iff, Z.eqb_neq|]. wsteps.
  destruct (keeper_queued _ _ _ _ _ _ G (g_keep1 _ _ _ _ G)) as [Hk1 _].
  destruct (keeper_queued _ _ _ _ _ _ G (g_keep2 _ _ _ _ G)) as [Hk2 _].
  destruct (Heap.heap_remove_spec (heap s) q d (g_heap _ _ _ _ G)) as (h' & y & q' & E & Ey & Hp & Hw); [|done..|].
  { rewrite (Heap.wf_count _ _ (g_heap _ _ _ _ G)). by apply (queue_two s q d (dispatchedCDA s) d). }
  destruct (queue_split q q' y Cn Hp) as (Hnd & Hyq & Hsub & Hel & _). rewrite Ey in *.
  eapply wp_updHeap; [exact E|]. set (s1 := set_heap h' s).
  assert (Hdc' : dispatchedCDA s ∉ q'.*2) by (intros Hi; apply Cd, Hel; by right).
  assert (G1 : Good s1 q' d (dispatchedCDA s)).
  { eapply good_step; [exact G|eapply evolves_ext; [apply evolves_refl, G|done..]| |done|apply G..|done].
    apply (core_requeue HC d x); try done; auto.
    - intros d' Hd' _. rewrite Hel. tauto.
    - rewrite Hn. tauto. }
  eapply wp_mono; [by apply (good_retire s1 q' (dispatchedCDA s) d x)|].
  intros [] s2 (c & G2 & Hcc & Ed2 & He2 & Hsd2 & Eh2 & Ea2).
  destruct (good_drop s2 q' (dispatchedCDA s) d (mkDom c NULL) h' q' (dispatchedCDA s)) as [G3 He3]; try done.
  { by rewrite Ed2, lookup_insert_eq. }
  exists q'. split; [|split; [done|split; [done|exact (e_kernel _ _ He2)]]]. assert (Es : set_heap h' s2 = s2); [|by rewrite Es in G3].
  assert (Eh : heap s2 = h') by done. rewrite <- Eh. by destruct s2.
Qed.

Lemma good_ring_remove s d pa n :
  Inv s -> annexes s !! pa = Some n -> Ring.cpuDomainNext n <> NULL -> cdaOf n = d -> dispatchedPA s <> pa ->
  (forall c, preemptedPA s !! c <> Some pa) -> pa ∈ T -> pa <> p1 -> pa <> p2 ->
  wp (ringOp d (fun r => r' ← Ring.removeProcessAnnex r pa; Some (tt, r'))) (fun _ s' => Inv s' /\
    clock s' = clock s /\ kernelPA s' = kernelPA s /\ preemptedPA s' = preemptedPA s /\ dispatchedPA s' = dispatchedPA s /\
    exists n', annexes s' !! pa = Some n' /\ Ring.cpuDomainNext n' = NULL /\ Ring.annex n' = Ring.annex n) s.
Proof.
  intros (q & G & Hdp & Hpre) Hn Hnx Hdn Hne Hpp HT Hp1 Hp2. pose proof (g_core _ _ _ _ G) as HC. pose proof HC as [Cr Ca Cn Ce Cd Cu Cf].
  assert (Hin : inRing (annexes s) d pa) by (exists n; done).
  destruct (core_member HC _ _ Hin (core_member_nz HC _ _ Hin)) as (x & Hx & Hr & Hcur). destruct (Cr d x Hx) as [Hd _].
  destruct (ringOf_remove _ _ _ _ Hr Hin) as (h' & cur' & E & Hrm & Hr').
  unfold ringOp. wsteps. eapply wp_need; [rewrite E; done|]. cbn [snd fst Ring.store Ring.currentPA Ring.events].
  set (x' := mkDom (cda x) cur'). set (s1 := ring_set h' d x' s). wsteps. change (set_domains _ _) with s1.
  destruct (relinked_Some _ _ _ _ _ _ Hrm Hn) as (n' & Hn' & (En' & Hnull & _) & _). specialize (Hnull eq_refl).
  assert (Hdp' : inRing h' (dispatchedCDA s) (dispatchedPA s)).
  { destruct Hdp as (m & Hm & Hmx & Hmd). destruct (relinked_Some _ _ _ _ _ _ Hrm Hm) as (m' & Hm' & (Em & _ & Hi) & _).
    exists m'. rewrite Em. split; [done|]. split; [|done]. rewrite (Hi Hne). done. }
  assert (Hcore : forall z', (z' = NULL \/ z' = d) -> (cur' <> NULL <-> d <> z') -> Core h' (<[d := x']> (domains s)) q z' (dispatchedCDA s)).
  { intros z' Hz' Hiff. apply (core_step HC d x); try done; auto.
    - intros d' c Hne'. eapply relinked_frame; [exact Hrm| |done]. by intros a m m' (-> & _).
    - intros a m' Hm'. destruct (relinked_inv _ _ _ _ _ _ Hrm Hm') as (m & Hm & (Em & Hnl & Hi) & _).
      destruct (Ca a m Hm) as (? & H0 & ?). rewrite Em. split; [done|]. split; [|done].
      intros E0. destruct (decide (a = pa)) as [->|Hap]; [by apply Hnl|]. apply Hi; auto.
    - intros p Hi _. destruct (Ce p d Hi) as (_ & H). destruct (H Hd) as (y & Hy & ->). assert (y = x) as -> by congruence. done.
    - simpl. rewrite Hiff. pose proof (proj1 (Cu d x Hx) Hcur) as [_ ?]. tauto.
    - simpl. intros E0 Hz. by apply Hiff in Hz. }
  assert (Hg1 : forall z', (z' = NULL \/ z' = d) -> (cur' <> NULL <-> d <> z') -> Good s1 q z' (dispatchedCDA s)).
  { intros z' Hz' Hiff. apply (good_removed s s1 q NULL (dispatchedCDA s) q z' (dispatchedCDA s) pa G); try done; try apply G.
    - intros a m' Hm'. destruct (relinked_inv _ _ _ _ _ _ Hrm Hm') as (m & Hm & (Em & _ & Hi) & _). eauto.
    - intros a [m Hm]. destruct (relinked_Some _ _ _ _ _ _ Hrm Hm) as (m' & Hm' & _). by exists m'.
    - simpl. intros d' y Hy. destruct (decide (d' = d)) as [->|]; [rewrite lookup_insert_eq|rewrite lookup_insert_ne by done; eauto].
      eexists. split; [done|]. assert (y = x) as -> by congruence. done.
    - simpl. apply dom_insert_lookup_L. by eexists.
    - by apply Hcore.
    - simpl. intros d' y. destruct (decide (d' = d)) as [->|]; [rewrite lookup_insert_eq; intros [= <-]; exact (g_doms _ _ _ _ G _ _ Hx)|].
      rewrite lookup_insert_ne by done. apply G. }
  (* the end: one annex less is counted *)
  assert (Hend : forall s2 q2, Good s2 q2 NULL (dispatchedCDA s) -> annexes s2 = h' -> kernelPA s2 = kernelPA s ->
    dispatchedCDA s2 = dispatchedCDA s -> dispatchedPA s2 = dispatchedPA s -> preemptedPA s2 = preemptedPA s -> clock s2 = clock s ->
    wp statPANotRunnable (fun _ s' => Inv s' /\ clock s' = clock s /\ kernelPA s' = kernelPA s /\ preemptedPA s' = preemptedPA s /\
      dispatchedPA s' = dispatchedPA s /\
      exists n', annexes s' !! pa = Some n' /\ Ring.cpuDomainNext n' = NULL /\ Ring.annex n' = Ring.annex n) s2).
  { intros s2 q2 G2 A2 K2 D2 P2 PP2 C2. unfold statPANotRunnable. wsteps. set (s3 := set_stats _ s2).
    destruct (good_other s2 s3 q2 NULL _ G2) as (G3 & _ & _); try done; [apply G2..|].
    split; [|split_and!; try done; simpl; rewrite A2; eauto]. exists q2. simpl. rewrite D2, P2, A2, PP2. split; [done|]. split; [done|]. exact Hpre. }
  destruct (Z.eqb_spec cur' NULL) as [Hc0|Hc0]; cbn [app doEvents doEvent]; wsteps.
  - assert (Hdd : d <> dispatchedCDA s).
    { intros E0. rewrite <- E0 in Hdp'. by apply (ringOf_null _ _ _ _ Hr') in Hdp'. }
    assert (Hdq : d ∈ q.*2) by (destruct (proj1 (Cu d x Hx) Hcur) as [_ [|]]; done).
    assert (G1 : Good s1 q d (dispatchedCDA s)) by (apply Hg1; [by right|tauto]).
    eapply wp_mono; [apply (good_removeCDA s1 q d x'); try done; simpl; by rewrite lookup_insert_eq|].
    intros [] s2 (q2 & G2 & (W1 & W2 & W3 & W4 & W5 & W6) & Ea2 & Ek2). wsteps.
    eapply wp_mono; [by apply (Hend s2 q2)|]. intros [] s3 H3. wsteps. exact H3.
  - eapply wp_mono; [apply (Hend s1 q); try done; apply Hg1; [by left|tauto]|]. intros [] s3 H3. wsteps. exact H3.
Qed.

End keepers.

End DispatchSafe.
