(* ===== verification/DispatchRun.v ===== *)
(** * DispatchRun: sequences of operations on the dispatch queue

    The operations of other parts of the kernel on the queue: annexes come and
    go, interrupts are delivered, processes run, enter the kernel and return.  The
    invariant of DispatchSafe.v holds after any sequence of them. *)

From stdpp Require Import base numbers option gmap list.
From S2P Require Import K42 Prelude ProcessAnnex CPUDomainAnnex CPUDomainRing DispatchHeap CPUDomainRings DispatchQueue DispatchInv DispatchSafe.

Module DispatchRun.

Import ProcessAnnex CPUDomainRings DispatchQueue DispatchInv DispatchSafe.

Section keepers.
Context (d1 p1 d2 p2 : Z).

Abbreviation Good := (DispatchSafe.Good d1 p1 d2 p2) (only parsing).
Abbreviation Inv := (DispatchSafe.Inv d1 p1 d2 p2) (only parsing).

(** ** Annexes being taken off the processor *)

Lemma good_track T T' s q z dc : T ⊆ T' -> Good T s q z dc -> Good T' s q z dc.
Proof.
  intros Hsub [Gc Gh Gd Gk Gs Gb Gz Gt G1 G2 G3 Gl Gp Gi Gtm Gke]. split; try done.
  - intros a n Hn HT. apply (Gi a n Hn). by intros ?%Hsub.
  - intros a n Hn Ht. by apply Hsub, (Gtm a n).
Qed.

Lemma good_untrack T a s q z dc :
  Good (T ∪ {[a]}) s q z dc ->
  (forall n, annexes s !! a = Some n ->
    (cdaOf n <> NULL -> reservedThread (Ring.annex n) = NULL -> pending (Ring.annex n) = true -> Ring.cpuDomainNext n <> NULL) /\
    (terminationPending (Ring.annex n) = true -> a ∈ T)) ->
  Good T s q z dc.
Proof.
  intros [Gc Gh Gd Gk Gs Gb Gz Gt G1 G2 G3 Gl Gp Gi Gtm Gke] Ha. split; try done.
  - intros b n Hn HT. destruct (decide (b = a)) as [->|]; [by apply Ha|]. apply (Gi b n Hn). set_solver.
  - intros b n Hn Ht. destruct (decide (b = a)) as [->|]; [by apply (Ha n)|]. pose proof (Gtm b n Hn Ht). set_solver.
Qed.

Lemma inv_track T T' s : T ⊆ T' -> Inv T s -> Inv T' s.
Proof. intros Hsub (q & G & H). exists q. split; [by eapply good_track|done]. Qed.

(** ** Attaching and detaching *)

(** The domain of an annex that is in no ring may change. *)
Lemma core_setcda h D q dc a n i :
  Core h D q NULL dc -> h !! a = Some n -> Ring.cpuDomainNext n = NULL ->
  (cpuDomainAnnex i <> NULL -> is_Some (D !! cpuDomainAnnex i)) ->
  Core (<[a := Ring.mkPA (Ring.cpuDomainNext n) i]> h) D q NULL dc.
Proof.
  intros [Cr Ca Cn Ce Cd Cu Cf] Hn Hnx Hi. split; try done.
  - intros d x Hx. destruct (Cr d x Hx) as [Hd Hr]. split; [done|]. revert Hr. apply ringOf_frame.
    + intros b m Hm Hmd Hmx. destruct (decide (b = a)) as [->|]; [exfalso; congruence|].
      rewrite lookup_insert_ne by done. eauto.
    + intros b (m & Hm & Hmx & Hmd). destruct (decide (b = a)) as [->|].
      * rewrite lookup_insert_eq in Hm. injection Hm as <-. done.
      * rewrite lookup_insert_ne in Hm by done. by exists m.
  - intros b m. destruct (decide (b = a)) as [->|].
    + rewrite lookup_insert_eq. intros [= <-]. simpl. destruct (Ca a n Hn) as (? & _). by split_and!.
    + rewrite lookup_insert_ne by done. apply Ca.
Qed.

Lemma good_setcda T s q dc a n d :
  Good T s q NULL dc -> annexes s !! a = Some n -> Ring.cpuDomainNext n = NULL -> a <> kernelPA s ->
  (d <> NULL -> is_Some (domains s !! d)) ->
  (forall nk, kernelPA s <> NULL -> annexes s !! kernelPA s = Some nk -> d <> cdaOf nk) ->
  a ∈ T \/ d = NULL ->
  Good T (upd_annex a n (set_cda d (Ring.annex n)) s) q NULL dc.
Proof.
  intros G Hn Hnx Hk Hd Hkd HT. set (i := set_cda d (Ring.annex n)).
  assert (Hlk : forall b m, annexes (upd_annex a n i s) !! b = Some m ->
    (b = a /\ m = Ring.mkPA (Ring.cpuDomainNext n) i) \/ (b <> a /\ annexes s !! b = Some m)).
  { intros b m. simpl. destruct (decide (b = a)) as [->|]; [rewrite lookup_insert_eq; intros [= <-]; by left|].
    rewrite lookup_insert_ne by done. by right. }
  assert (Hkeep : forall e p, keeper (annexes s) e p -> keeper (annexes (upd_annex a n i s)) e p).
  { intros e p (m & Hm & Hx & He). exists m. split; [|done]. simpl. rewrite lookup_insert_ne; [done|]. intros ->. congruence. }
  destruct G as [Gc Gh Gd Gk Gs Gb Gz Gt G1 G2 G3 Gl Gp Gi Gtm Gke]. split; simpl; try done; try by apply Hkeep.
  - by apply core_setcda.
  - intros b m [[-> ->]|[Hb Hm]]%Hlk; [exact (Gt a n Hn)|by apply (Gt b)].
  - intros c p Hp Hnn. destruct (Gp c p Hp Hnn) as (? & m & x & Hm & Hx & Hr). split; [done|]. exists m, x. split; [|done].
    rewrite lookup_insert_ne; [done|]. intros ->. congruence.
  - intros b m [[-> ->]|[Hb Hm]]%Hlk Hb' Hc; [|by apply (Gi b)]. destruct HT as [|E]; [done|]. simpl in Hc. by rewrite E in Hc.
  - intros b m [[-> ->]|[Hb Hm]]%Hlk; [exact (Gtm a n Hn)|by apply (Gtm b)].
  - intros Hkn. destruct (Gke Hkn) as (m & Hm & Hw & Hdm & Hal). exists m. rewrite lookup_insert_ne by done. split_and!; try done.
    intros b m' [[-> ->]|[Hb Hm']]%Hlk E; [|by apply (Hal b m')]. exfalso. simpl in E. by apply (Hkd m).
Qed.

Definition attach_ok (s : t) (pa d : Z) : Prop :=
  (exists n, annexes s !! pa = Some n /\ cdaOf n = NULL) /\ pa <> kernelPA s /\ d <> NULL /\ is_Some (domains s !! d) /\
  (kernelPA s <> NULL -> forall nk, annexes s !! kernelPA s = Some nk -> d <> cdaOf nk).

Lemma safe_attach T s pa d :
  Inv T s -> attach_ok s pa d -> wp (attach pa d) (fun _ s' => Inv T s' /\ inRing (annexes s') d pa) s.
Proof.
  intros (q & G & Hdp & Hpre) ((n & Hn & Hc) & Hpk & Hd & Hds & Hkd). pose proof (g_core _ _ _ _ _ _ _ _ _ G) as HC.
  destruct (c_annex _ _ _ _ _ HC _ _ Hn) as (Hpn & Hnull & _). specialize (Hnull Hc).
  unfold attach. wsteps. apply wp_assert; [by apply Z.eqb_eq|]. wsteps. apply wp_assert; [by apply Z.eqb_eq|]. wsteps.
  eapply wp_updPA; [exact Hn|]. set (i := set_cda d (Ring.annex n)).
  assert (G1 : Good (T ∪ {[pa]}) (upd_annex pa n i s) q NULL (dispatchedCDA s)).
  { apply good_setcda; try done; [eapply good_track; [|exact G]; set_solver|by intros nk ?; auto|left; set_solver]. }
  set (s1 := upd_annex pa n i s) in *. change (set_annexes _ s) with s1.
  assert (Hdc : is_Some (domains s !! dispatchedCDA s)).
  { destruct (core_member HC _ _ Hdp (core_member_nz HC _ _ Hdp)) as (x & Hx & _). by eexists. }
  assert (Hn1 : annexes s1 !! pa = Some (Ring.mkPA (Ring.cpuDomainNext n) i)) by (simpl; by rewrite lookup_insert_eq).
  eapply wp_mono; [apply (good_makeReady d1 p1 d2 p2 (T ∪ {[pa]}) s1 q (dispatchedCDA s) pa (Ring.mkPA (Ring.cpuDomainNext n) i)); done|].
  intros [] s2 (q2 & G2 & He2 & Hg2 & Hin2 & (E1 & E2 & E3 & E4) & Ek2). change (cdaOf (Ring.mkPA (Ring.cpuDomainNext n) i)) with d in Hin2.
  split; [|done]. exists q2. rewrite E1, E2, E3. split; [|split; [|exact Hpre]].
  - eapply good_untrack; [exact G2|]. intros m Hm. destruct Hin2 as (m' & Hm' & Hx' & _). assert (m' = m) as -> by congruence.
    split; [done|]. destruct (evolves_annex s1 s2 pa _ He2 Hn1) as (m' & Hm2 & V). assert (m' = m) as -> by congruence.
    pose proof (v_keeps _ _ _ _ V) as (_ & _ & _ & _ & K5 & _). unfold terminationPending. rewrite K5. apply (g_term _ _ _ _ _ _ _ _ _ G pa n Hn).
  - apply Hg2. destruct Hdp as (m & Hm & Hmx & Hmd). exists m. split; [|done]. simpl. rewrite lookup_insert_ne; [done|]. intros E. rewrite <- E in Hm. congruence.
Qed.

Definition detach_ok (s : t) (pa now : Z) : Prop :=
  kernelPA s <> NULL /\ pa <> kernelPA s /\ pa <> p1 /\ pa <> p2 /\ lastDispatchTime (clock s) <= now < 2 ^ 61 /\
  exists n, annexes s !! pa = Some n /\ cdaOf n <> NULL /\ terminationPending (Ring.annex n) = false.

Lemma safe_detach T s pa now :
  Inv T s -> detach_ok s pa now ->
  wp (detach pa now) (fun _ s' => Inv (T ∖ {[pa]}) s' /\ exists n, annexes s' !! pa = Some n /\ cdaOf n = NULL) s.
Proof.
  intros HI (Hk & Hpk & Hp1 & Hp2 & Hnow & n & Hn & Hcn & Ht). pose proof HI as (q & G & Hdp & Hpre).
  unfold detach. wsteps. apply wp_assert; [by apply negb_true_iff, Z.eqb_neq|]. wsteps.
  (* the end: the annex is in no ring *)
  assert (Hend : forall s1 n1, Inv (T ∪ {[pa]}) s1 -> annexes s1 !! pa = Some n1 -> Ring.cpuDomainNext n1 = NULL ->
    terminationPending (Ring.annex n1) = false -> pa <> kernelPA s1 ->
    wp (updPA pa (set_cda NULL)) (fun _ s' => Inv (T ∖ {[pa]}) s' /\ exists n, annexes s' !! pa = Some n /\ cdaOf n = NULL) s1).
  { intros s1 n1 (q1 & G1 & Hdp1 & Hpre1) Hn1 Hx1 Ht1 Hpk1. eapply wp_updPA; [exact Hn1|].
    pose proof (good_setcda _ _ _ _ pa n1 NULL G1 Hn1 Hx1 Hpk1) as G2.
    assert (G3 : Good (T ∪ {[pa]}) (upd_annex pa n1 (set_cda NULL (Ring.annex n1)) s1) q1 NULL (dispatchedCDA s1)).
    { apply G2; [done| |by right]. intros nk Hk1 Hnk. destruct (g_kernel _ _ _ _ _ _ _ _ _ G1 Hk1) as (nk' & Hnk' & _ & Hc & _).
      assert (nk' = nk) as -> by congruence. congruence. }
    change (set_annexes _ s1) with (upd_annex pa n1 (set_cda NULL (Ring.annex n1)) s1). split; [|eexists; split; [simpl; by rewrite lookup_insert_eq|done]].
    exists q1. split; [|split; [|done]].
    - eapply (good_untrack (T ∖ {[pa]}) pa); [eapply good_track; [|exact G3]|].
      + intros b [Hb|Hb]%elem_of_union; [|set_solver]. destruct (decide (b = pa)); set_solver.
      + simpl. rewrite lookup_insert_eq. intros m [= <-]. split; [done|]. intros E. exfalso. simpl in E. unfold terminationPending in *. simpl in E. congruence.
    - destruct Hdp1 as (m & Hm & Hmx & Hmd). exists m. split; [|done]. simpl. rewrite lookup_insert_ne; [done|]. intros E. rewrite <- E in Hm. congruence. }
  unfold makeNotReady. wsteps. apply wp_when; intros Hnx.
  - apply negb_true_iff, Z.eqb_neq in Hnx. unfold ring_remove. wsteps.
    eapply wp_mono; [by apply (good_dq_remove d1 p1 d2 p2 T s pa n now)|].
    intros [] s1 (HI1 & He1 & Hdp1 & Hpp1 & Hin1 & Hl1).
    destruct (evolves_annex s s1 pa n He1 Hn) as (n1 & Hn1 & V1). pose proof (v_keeps _ _ _ _ V1) as (K1 & _ & _ & _ & K5 & _).
    destruct Hin1 as (n1' & Hn1' & Hnx1 & Hdn1). assert (n1' = n1) as -> by congruence.
    eapply wp_mono; [apply (good_ring_remove d1 p1 d2 p2 (T ∪ {[pa]}) s1 (cdaOf n) pa n1); try done; [by eapply inv_track; [|exact HI1]; set_solver|set_solver]|].
    intros [] s2 (HI2 & Ek2 & Ekn2 & _ & _ & n2 & Hn2 & Hx2 & En2).
    apply (Hend s2 n2); try done.
    + rewrite En2. unfold terminationPending in *. by rewrite K5.
    + rewrite Ekn2, (e_kernel _ _ He1). done.
  - apply negb_false_iff, Z.eqb_eq in Hnx. apply (Hend s n); try done. eapply inv_track; [|exact HI]. set_solver.
Qed.

(** ** Interrupts *)

Lemma disp_some T s q : Good T s q NULL (dispatchedCDA s) -> inRing (annexes s) (dispatchedCDA s) (dispatchedPA s) ->
  is_Some (domains s !! dispatchedCDA s).
Proof.
  intros G Hdp. pose proof (g_core _ _ _ _ _ _ _ _ _ G) as HC.
  destruct (core_member HC _ _ Hdp (core_member_nz HC _ _ Hdp)) as (x & Hx & _). by eexists.
Qed.

Lemma preempted_or T s q z dc a n :
  Good T s q z dc -> annexes s !! a = Some n ->
  (forall c, preemptedPA s !! c <> Some a) \/ awaitingDispatch (Ring.annex n) = true.
Proof.
  intros G Hn. destruct (awaitingDispatch (Ring.annex n)) eqn:E; [by right|left].
  eapply not_preempted; [exact G|exact Hn|done|]. by apply (c_annex _ _ _ _ _ (g_core _ _ _ _ _ _ _ _ _ G) a n).
Qed.

(** makeReady of an attached annex. *)
Lemma safe_makeReady T s a n :
  Inv T s -> annexes s !! a = Some n -> cdaOf n <> NULL ->
  wp (makeReady a) (fun _ s' => Inv T s' /\ inRing (annexes s') (cdaOf n) a /\ evolves s s' /\ clock s' = clock s) s.
Proof.
  intros (q & G & Hdp & Hpre) Hn Hc. pose proof (disp_some T s q G Hdp) as Hd.
  eapply wp_mono; [by apply (good_makeReady d1 p1 d2 p2 T s q (dispatchedCDA s) a n)|].
  intros [] s' (q' & G' & He & Hg & Hin & (E1 & E2 & E3 & E4) & Ek). split; [|done].
  exists q'. rewrite E1, E2, E3. split; [done|]. split; [by apply Hg|exact Hpre].
Qed.

Lemma safe_deliver T s pa intr n :
  Inv T s -> annexes s !! pa = Some n -> cdaOf n <> NULL -> 0 <= intr ->
  wp (deliverInterrupt pa intr) (fun _ s' => Inv T s' /\ clock s' = clock s /\
    exists n', annexes s' !! pa = Some n' /\ pending (Ring.annex n') = true /\
      (pa ∉ T -> reservedThread (Ring.annex n') = NULL -> inRing (annexes s') (cdaOf n) pa)) s.
Proof.
  intros (q & G & Hdp & Hpre) Hn Hc Hi. unfold deliverInterrupt. wsteps. eapply wp_updPA; [exact Hn|].
  set (i := setInterrupt intr (Ring.annex n)).
  assert (Hpi : pending i = true).
  { unfold pending, i, setInterrupt. simpl. apply negb_true_iff, Z.eqb_neq. intros E. apply Z.lor_eq_0_iff in E as [_ E].
    pose proof (Z.pow_pos_nonneg 2 intr ltac:(lia) Hi). lia. }
  assert (G1 : Good (T ∪ {[pa]}) (upd_annex pa n i s) q NULL (dispatchedCDA s) /\ views s (upd_annex pa n i s)).
  { apply good_setinfo; try done.
    - eapply good_track; [|exact G]. set_solver.
    - by eapply preempted_or.
    - intros H. exfalso. set_solver.
    - set_solver. }
  destruct G1 as [G1 Hv1]. set (s1 := upd_annex pa n i s) in *. change (set_annexes _ s) with s1.
  assert (Hn1 : annexes s1 !! pa = Some (Ring.mkPA (Ring.cpuDomainNext n) i)) by (simpl; by rewrite lookup_insert_eq).
  assert (HI1 : Inv (T ∪ {[pa]}) s1) by (exists q; split; [done|]; split; [by apply (inRing_views s s1)|exact Hpre]).
  (* the end *)
  assert (Hend : forall s2 n2, Inv (T ∪ {[pa]}) s2 -> annexes s2 !! pa = Some n2 -> keeps i (Ring.annex n2) -> clock s2 = clock s ->
    (pa ∉ T -> reservedThread (Ring.annex n2) = NULL -> Ring.cpuDomainNext n2 <> NULL) ->
    Inv T s2 /\ clock s2 = clock s /\ exists n', annexes s2 !! pa = Some n' /\ pending (Ring.annex n') = true /\
      (pa ∉ T -> reservedThread (Ring.annex n') = NULL -> inRing (annexes s2) (cdaOf n) pa)).
  { intros s2 n2 (q2 & G2 & Hdp2 & Hpre2) Hn2 (K1 & K2 & K3 & K4 & K5 & K6) Hk2 Hr. split; [|split; [done|]].
    - exists q2. split; [|done]. destruct (decide (pa ∈ T)) as [HT|HT].
      + eapply good_track; [|exact G2]. set_solver.
      + eapply good_untrack; [exact G2|]. intros m Hm. assert (m = n2) as -> by congruence. split; [auto|].
        intros Ht. exfalso. unfold terminationPending in Ht. rewrite K5 in Ht. by apply HT, (g_term _ _ _ _ _ _ _ _ _ G pa n Hn).
    - exists n2. split; [done|]. split; [by apply K6|]. intros HT Hr2. exists n2. split; [done|]. split; [by apply Hr|by rewrite K1]. }
  apply wp_when; intros Hp.
  - eapply wp_mono; [apply (safe_makeReady (T ∪ {[pa]}) s1 pa _ HI1 Hn1); done|].
    intros [] s2 (HI2 & Hin2 & He2 & Ek2). destruct (evolves_annex s1 s2 pa _ He2 Hn1) as (n2 & Hn2 & V2).
    pose proof (v_keeps _ _ _ _ V2) as K. apply (Hend s2 n2); try done.
    intros _ _. destruct Hin2 as (m & Hm & ? & _). congruence.
  - apply negb_false_iff in Hp. apply (Hend s1 _ HI1 Hn1); [apply keeps_refl|done|]. simpl. intros HT Hr.
    by apply (g_int _ _ _ _ _ _ _ _ _ G pa n).
Qed.

(** ** Processes *)

Lemma inv_setinfo T T' s pa n i :
  Inv T s -> T ⊆ T' -> annexes s !! pa = Some n -> cpuDomainAnnex i = cdaOf n ->
  dispatchTicks i = dispatchTicks (Ring.annex n) -> pulseTicks i = pulseTicks (Ring.annex n) ->
  warningTicks i = warningTicks (Ring.annex n) ->
  (forall c, preemptedPA s !! c <> Some pa) \/ awaitingDispatch i = true ->
  (hasWork (Ring.annex n) = true -> reservedThread (Ring.annex n) = NULL -> pa = p1 \/ pa = p2 ->
    hasWork i = true /\ reservedThread i = NULL) ->
  (pa ∉ T' -> cdaOf n <> NULL -> reservedThread i = NULL -> pending i = true -> Ring.cpuDomainNext n <> NULL) ->
  (terminationPending i = true -> pa ∈ T') ->
  Inv T' (upd_annex pa n i s).
Proof.
  intros (q & G & Hdp & Hpre) HT Hn H1 H2 H3 H4 H5 H6 H7 H8.
  destruct (good_setinfo d1 p1 d2 p2 T' s q NULL _ pa n i (good_track _ _ _ _ _ _ HT G) Hn) as [G1 Hv1]; try done.
  exists q. split; [done|]. split; [by apply (inRing_views s (upd_annex pa n i s))|exact Hpre].
Qed.

Lemma inv_term T s pa n : Inv T s -> annexes s !! pa = Some n -> terminationPending (Ring.annex n) = true -> pa ∈ T.
Proof. intros (q & G & _) Hn Ht. by apply (g_term _ _ _ _ _ _ _ _ _ G pa n). Qed.

Lemma safe_runs T s pa n work :
  Inv T s -> annexes s !! pa = Some n -> (pa = p1 \/ pa = p2 -> work = true) ->
  wp (runs pa work) (fun _ s' => Inv T s' /\ clock s' = clock s) s.
Proof.
  intros HI Hn Hp. pose proof HI as (q & G & _). eapply wp_updPA; [exact Hn|]. split; [|done].
  apply (inv_setinfo T T s pa n (set_work work 0 (Ring.annex n))); try done; try auto.
  - by apply (preempted_or T s q NULL (dispatchedCDA s) pa n G).
  - by apply (inv_term T s pa n).
Qed.

Lemma safe_enters T s pa n th :
  Inv T s -> annexes s !! pa = Some n -> pa <> p1 -> pa <> p2 -> th <> NULL ->
  wp (enters pa th) (fun _ s' => Inv T s' /\ clock s' = clock s) s.
Proof.
  intros HI Hn H1 H2 Hth. pose proof HI as (q & G & _). eapply wp_updPA; [exact Hn|]. split; [|done].
  apply (inv_setinfo T T s pa n); try done.
  - by apply (preempted_or T s q NULL (dispatchedCDA s) pa n G).
  - intros _ _ [?|?]; done.
  - by apply (inv_term T s pa n).
Qed.

Lemma safe_leaves T s :
  Inv T s -> wp (leaves (dispatchedPA s)) (fun _ s' => Inv T s' /\ clock s' = clock s) s.
Proof.
  intros HI. pose proof HI as (q & G & (n & Hn & Hnx & _) & _). eapply wp_updPA; [exact Hn|]. split; [|done].
  apply (inv_setinfo T T s (dispatchedPA s) n); try done.
  - by apply (preempted_or T s q NULL (dispatchedCDA s) _ n G).
  - by apply (inv_term T s _ n).
Qed.

(** A new kernel thread [me] waits for the thread in [pa] to go. *)
Lemma safe_waitForTerminate T s pa n me :
  Inv T s -> annexes s !! pa = Some n -> (forall c, preemptedPA s !! c <> Some pa) ->
  wp (waitForTerminate pa me) (fun b s' => Inv (T ∪ {[pa]}) s' /\ clock s' = clock s /\
    exists n', annexes s' !! pa = Some n' /\ (b = false -> reservedThread (Ring.annex n') = NULL) /\
      (b = true -> terminator (Ring.annex n') = me /\ awaitingDispatch (Ring.annex n') = false)) s.
Proof.
  intros HI Hn Hpp. assert (HT : T ⊆ T ∪ {[pa]}) by set_solver. assert (Hpa : pa ∈ T ∪ {[pa]}) by set_solver.
  unfold waitForTerminate. wsteps. cbv zeta. destruct (Z.eqb_spec (reservedThread (Ring.annex n)) NULL) as [Hr|Hr].
  { wsteps. split; [by eapply inv_track|]. split; [done|]. by exists n. }
  destruct (Z.eqb_spec (reservedThread (Ring.annex n)) PPC_PRIMITIVE_MARKER) as [Hm|Hm].
  { wsteps. eapply wp_updPA; [exact Hn|]. wsteps. split; [|split; [done|eexists; split; [simpl; by rewrite lookup_insert_eq|done]]].
    apply (inv_setinfo T (T ∪ {[pa]}) s pa n); try done; by left. }
  wsteps. unfold clearBorrowers. wsteps. set (s1 := set_borrowers _ s).
  assert (HI1 : Inv T s1).
  { destruct HI as (q & G & Hdp & Hpre). exists q. split; [|done].
    apply (good_other d1 p1 d2 p2 T s s1 q NULL (dispatchedCDA s) G); try done; apply G. }
  (* the end *)
  assert (Hend : forall s2 i, Inv (T ∪ {[pa]}) s2 -> annexes s2 !! pa = Some (Ring.mkPA (Ring.cpuDomainNext n) i) -> clock s2 = clock s ->
    (forall c, preemptedPA s2 !! c <> Some pa) -> awaitingDispatch i = false -> reservedThread i = reservedThread (Ring.annex n) ->
    wp (n <-- getPA pa ;; let i := Ring.annex n in updPA pa (set_thread (reservedThread i) (awaitingDispatch i) me) ;;; ret true)
     (fun b s' => Inv (T ∪ {[pa]}) s' /\ clock s' = clock s /\
      exists n', annexes s' !! pa = Some n' /\ (b = false -> reservedThread (Ring.annex n') = NULL) /\
      (b = true -> terminator (Ring.annex n') = me /\ awaitingDispatch (Ring.annex n') = false)) s2).
  { intros s2 i HI2 Hn2 Hk2 Hp2 Ha Hri. apply wp_bind. eapply wp_getPA; [exact Hn2|]. cbv zeta. cbn [Ring.annex]. wsteps.
    eapply wp_updPA; [exact Hn2|]. wsteps. split; [|split; [done|eexists; split; [simpl; by rewrite lookup_insert_eq|done]]].
    apply (inv_setinfo (T ∪ {[pa]}) (T ∪ {[pa]}) s2 pa (Ring.mkPA (Ring.cpuDomainNext n) i)); try done; by left. }
  assert (HI1' : Inv (T ∪ {[pa]}) s1) by (by eapply inv_track).
  apply wp_when; intros Ha.
  - unfold signalDispatch. apply wp_bind. eapply wp_getPA; [exact Hn|]. cbv zeta. wsteps. eapply wp_updPA; [exact Hn|].
    set (i := set_thread _ false _ _). apply wp_modify.
    assert (HI2 : Inv (T ∪ {[pa]}) (upd_annex pa n i s1)) by (apply (inv_setinfo (T ∪ {[pa]}) (T ∪ {[pa]}) s1 pa n); try done; by left).
    apply (Hend _ i); try done; [|simpl; by rewrite lookup_insert_eq].
    destruct HI2 as (q & G & Hdp & Hpre). exists q. split; [|done].
    apply (good_other d1 p1 d2 p2 (T ∪ {[pa]}) (upd_annex pa n i s1) _ q NULL _ G); try done; apply G.
  - apply (Hend s1 (Ring.annex n)); try done. by destruct n.
Qed.

(** ** Domains and annexes come into being *)

(** A domain without annexes may be made, or given another class. *)
Lemma good_setdom T s q dc d x' :
  Good T s q NULL dc -> d <> NULL -> d <> dc -> (forall x, domains s !! d = Some x -> currentPA x = NULL) ->
  currentPA x' = NULL -> CDA.consumedTicks (cda x') = 0 -> domOk x' -> (size (<[d := x']> (domains s)) <= 17)%nat ->
  Good T (upd_dom d x' s) q NULL dc.
Proof.
  intros G Hd Hdc Hcur Hx' Hc Hok Hsz. pose proof (g_core _ _ _ _ _ _ _ _ _ G) as HC.
  assert (Hno : forall a, ~ inRing (annexes s) d a).
  { intros a Ha. destruct (core_member HC d a Ha Hd) as (x & Hx & _ & Hn). by apply Hn, Hcur. }
  assert (Hq : d ∉ q.*2).
  { intros [[p e] [E He]]%list_elem_of_fmap. simpl in E. subst e.
    destruct (c_entry _ _ _ _ _ HC p d He) as [[x Hx] _].
    apply (proj2 (c_run _ _ _ _ _ HC d x Hx)); [split; [done|right; apply list_elem_of_fmap; by exists (p, d)]|by apply Hcur]. }
  destruct G as [[Cr Ca Cn Ce Cd Cu Cf] Gh Gd Gk Gs Gb Gz Gt G1 G2 G3 Gl Gp Gi Gtm Gke].
  assert (Hlk : forall e y, <[d := x']> (domains s) !! e = Some y -> (e = d /\ y = x') \/ (e <> d /\ domains s !! e = Some y)).
  { intros e y [[<- <-]|[? ?]]%lookup_insert_Some; [by left|by right]. }
  split; try done.
  - split; simpl; try done.
    + intros e y [[-> ->]|[_ Hy]]%Hlk; [split; [done|rewrite Hx'; by apply ringOf_empty]|by apply Cr].
    + intros a n Hn. destruct (Ca a n Hn) as (? & ? & Hs). split_and!; try done. intros Hnn. rewrite lookup_insert_is_Some. 
      destruct (decide (d = cdaOf n)); [by left|right; split; [done|by apply Hs]].
    + intros p e He. assert (e <> d) as Hne by (intros ->; apply Hq, list_elem_of_fmap; by exists (p, d)).
      rewrite lookup_insert_ne by done. by apply Ce.
    + intros e y [[-> ->]|[_ Hy]]%Hlk; [|by apply Cu]. split; [done|]. intros [_ [?|?]]; done.
    + intros e y [[-> ->]|[_ Hy]]%Hlk; [done|by apply Cf].
  - simpl. intros e y [[-> ->]|[_ Hy]]%Hlk; [done|by apply (Gd e)].
  - simpl. intros c p Hp Hn. destruct (Gp c p Hp Hn) as (? & n & x & Hpn & Hnx & Ha & Hx & Hcx). split; [done|].
    exists n, x. split_and!; try done. rewrite lookup_insert_ne; [done|]. intros E. apply (Hno p). by exists n.
Qed.

Lemma inv_setdom T s d x' :
  Inv T s -> d <> NULL -> d <> dispatchedCDA s -> (forall x, domains s !! d = Some x -> currentPA x = NULL) ->
  currentPA x' = NULL -> CDA.consumedTicks (cda x') = 0 -> domOk x' -> (size (<[d := x']> (domains s)) <= 17)%nat ->
  Inv T (upd_dom d x' s).
Proof. intros (q & G & Hdp & Hpre) **. exists q. split; [by apply good_setdom|done]. Qed.

(** What CPUDomainAnnex::init makes, of a clock of 10 kHz to 1 THz. *)
Definition made (c : CDA.t) : Prop := exists tps cls w qm pm, 10000 <= tps <= 2 ^ 40 /\ CDA.init tps cls w qm pm = Some c.

Lemma made_ok c : made c -> domOk (mkDom c NULL) /\ CDA.consumedTicks c = 0.
Proof.
  intros (tps & cls & w & qm & pm & Ht & E). unfold CDA.init in E.
  apply bind_Some in E as ([] & E1 & E). apply bind_Some in E as ([] & E2 & E). apply bind_Some in E as ([] & E3 & E).
  apply bind_Some in E as ([] & E4 & E).
  apply assertK_inv in E1, E2, E3, E4. rewrite andb_true_iff, !Z.leb_le in E1, E2, E3, E4.
  injection E as <-. split; [|done]. unfold CDA.PRIORITY_CLASS_KERNEL, CDA.PRIORITY_CLASS_UNRUNNABLE, CDA.MIN_QUANTUM_MICROSECS,
    CDA.MAX_QUANTUM_MICROSECS, CDA.MIN_PULSE_MICROSECS, CDA.MAX_PULSE_MICROSECS in *.
  assert (Hb : forall m, 100 <= m <= 40000 -> 0 < umul tps m / 1000000 < 2 ^ 50).
  { intros m Hm. unfold umul, uwrap. rewrite Z.mod_small by nia. split; [apply Z.div_str_pos; nia|apply Z.div_lt_upper_bound; nia]. }
  unfold domOk, pclass, CDA.prio_ok. simpl. pose proof (Hb qm E2). pose proof (Hb pm E3). lia.
Qed.

Lemma create_made tps mem cls w qm pm :
  10000 <= tps <= 2 ^ 40 ->
  match CDA.Create tps mem cls w qm pm with Some (inr c) => made c | Some (inl _) => True | None => False end.
Proof.
  intros Ht. unfold CDA.Create. repeat (zcase; [done|..]; simpl). destruct mem; [simpl|done].
  destruct (CDA.init tps cls w qm pm) as [c|] eqn:E; simpl; [by exists tps, cls, w, qm, pm|].
  revert E. unfold CDA.init. repeat zcase; simpl; done || lia.
Qed.

Lemma disp_dom T s : Inv T s -> is_Some (domains s !! dispatchedCDA s).
Proof. intros (q & G & Hdp & _). by eapply disp_some. Qed.

Lemma safe_newDomain T s d c :
  Inv T s -> d <> NULL -> domains s !! d = None -> (size (domains s) < 17)%nat -> made c ->
  wp (newDomain d c) (fun _ s' => Inv T s') s.
Proof.
  intros HI Hd Hn Hsz [Hok Hc]%made_ok. apply wp_modify. apply (inv_setdom T s d (mkDom c NULL)); try done.
  - intros ->. destruct (disp_dom T s HI). congruence.
  - rewrite Hn. done.
  - rewrite map_size_insert_None by done. lia.
Qed.

Lemma good_newAnnex T s q dc pa work :
  Good T s q NULL dc -> pa <> NULL -> annexes s !! pa = None ->
  Good T (set_annexes (<[pa := Ring.mkPA NULL (ProcessAnnex.init work)]> (annexes s)) s) q NULL dc.
Proof.
  intros G Hpn Hn. set (n0 := Ring.mkPA NULL (ProcessAnnex.init work)).
  assert (Hlk : forall b m, <[pa := n0]> (annexes s) !! b = Some m -> (b = pa /\ m = n0) \/ (b <> pa /\ annexes s !! b = Some m)).
  { intros b m [[<- <-]|[? ?]]%lookup_insert_Some; [by left|by right]. }
  assert (Hne : forall b m, annexes s !! b = Some m -> <[pa := n0]> (annexes s) !! b = Some m).
  { intros b m Hm. rewrite lookup_insert_ne; [done|]. intros ->. congruence. }
  destruct G as [[Cr Ca Cn Ce Cd Cu Cf] Gh Gd Gk Gs Gb Gz Gt G1 G2 G3 Gl Gp Gi Gtm Gke].
  split; simpl; try done.
  - split; try done.
    + intros d x Hx. destruct (Cr d x Hx) as [Hd Hr]. split; [done|]. revert Hr. apply ringOf_frame.
      * intros b m Hm Hmd Hmx. exists m. split; [by apply Hne|done].
      * intros b (m & [[-> ->]|[_ Hm]]%Hlk & Hmx & Hmd); [done|by exists m].
    + intros b m [[-> ->]|[_ Hm]]%Hlk; [by split_and!|by apply Ca].
  - intros b m [[-> ->]|[_ Hm]]%Hlk; [|by apply (Gt b)]. unfold annexOk. simpl. destruct Gk. lia.
  - destruct G1 as (m & Hm & Hr). exists m. split; [by apply Hne|done].
  - destruct G2 as (m & Hm & Hr). exists m. split; [by apply Hne|done].
  - intros c p Hp Hnn. destruct (Gp c p Hp Hnn) as (? & m & x & Hm & Hr). split; [done|]. exists m, x. split; [by apply Hne|done].
  - intros b m [[-> ->]|[_ Hm]]%Hlk; [done|by apply (Gi b)].
  - intros b m [[-> ->]|[_ Hm]]%Hlk; [done|by apply (Gtm b)].
  - intros Hk. destruct (Gke Hk) as (m & Hm & Hw & Hd & Hal). exists m. split; [by apply Hne|]. split_and!; try done.
    intros b m' [[-> ->]|[_ Hm']]%Hlk E; [|by apply (Hal b m')]. by rewrite <- E in Hd.
Qed.

Lemma safe_newAnnex T s pa work :
  Inv T s -> pa <> NULL -> annexes s !! pa = None -> wp (newAnnex pa work) (fun _ s' => Inv T s') s.
Proof.
  intros (q & G & Hdp & Hpre) Hpn Hn. apply wp_modify. exists q. split; [by apply good_newAnnex|]. split; [|done].
  destruct Hdp as (m & Hm & Hr). exists m. split; [|done]. simpl. rewrite lookup_insert_ne; [done|]. intros E. rewrite E in Hn. congruence.
Qed.

(** ** Yielding the processor *)

Lemma safe_yield T s cur n now :
  Inv T s -> annexes s !! cur = Some n -> cdaOf n <> NULL -> lastDispatchTime (clock s) <= now < 2 ^ 61 ->
  wp (GetNextProcess cur now) (fun r s' => Inv T s' /\ lastDispatchTime (clock s') = now) s.
Proof.
  intros HI Hn Hc Hnow. unfold GetNextProcess. wsteps.
  assert (Hend : forall s1, Inv T s1 -> clock s1 = clock s -> wp (getNextProcessAnnex now) (fun r s' => Inv T s' /\ lastDispatchTime (clock s') = now) s1).
  { intros s1 HI1 Ek. eapply wp_mono; [apply (good_getNext d1 p1 d2 p2 T s1 now HI1); by rewrite Ek|]. by intros r s2 (? & _ & ?). }
  apply wp_when; intros Hw; [|by apply Hend].
  eapply wp_mono; [by apply (safe_makeReady T s cur n)|]. intros [] s1 (HI1 & _ & _ & Ek). by apply Hend.
Qed.

(** ** Weights and classes *)

Lemma safe_setWeight T s here d w :
  Inv T s -> is_Some (domains s !! d) -> wp (setWeight here d w) (fun _ s' => Inv T s' /\ clock s' = clock s) s.
Proof.
  intros HI [x Hx]. unfold setWeight. destruct (negb here); [wsteps; by split|]. destruct ((w <? CDA.MIN_WEIGHT) || _); [wsteps; by split|].
  wsteps. split; [|done]. set (x' := mkDom _ _). destruct HI as (q & G & Hdp & Hpre). pose proof (g_core _ _ _ _ _ _ _ _ _ G) as HC.
  pose proof HC as [Cr Ca Cn Ce Cd Cu Cf].
  exists q. split; [|done]. apply (good_dom d1 p1 d2 p2 T s q NULL _ d x x' G Hx); try done; [|by apply (g_doms _ _ _ _ _ _ _ _ _ G d x)].
  apply (core_place HC d x); try done; try (by left); try by auto.
  - by apply (Cr d x).
  - intros p Hin Hd. destruct (Ce p d Hin) as [_ He]. destruct (He Hd) as (y & Hy & ->). assert (y = x) as -> by congruence. done.
  - by apply (Cu d x).
  - by apply (Cf d x).
Qed.

Lemma safe_setPriorityClass T s here d cls x :
  Inv T s -> domains s !! d = Some x -> currentPA x = NULL ->
  wp (setPriorityClass here d cls) (fun _ s' => Inv T s' /\ clock s' = clock s) s.
Proof.
  intros HI Hx Hcur. unfold setPriorityClass. destruct (negb here); [wsteps; by split|].
  destruct ((cls <? CDA.PRIORITY_CLASS_KERNEL) || _) eqn:Ecl; [wsteps; by split|]. apply orb_false_iff in Ecl as [E1 E2].
  apply Z.ltb_ge in E1, E2. unfold CDA.PRIORITY_CLASS_KERNEL, CDA.PRIORITY_CLASS_UNRUNNABLE in *.
  wsteps. rewrite Hcur. cbn [negb when]. wsteps. split; [|done]. set (x' := mkDom _ _).
  pose proof HI as (q & G & Hdp & Hpre). pose proof (g_core _ _ _ _ _ _ _ _ _ G) as HC.
  destruct (g_doms _ _ _ _ _ _ _ _ _ G d x Hx) as ((P1 & P2 & P3) & P4 & P5).
  destruct (c_ring _ _ _ _ _ HC d x Hx) as [Hd _].
  apply (inv_setdom T s d x'); try done.
  - intros ->. apply (proj2 (c_run _ _ _ _ _ HC _ _ Hx)); [by split; [|left]|done].
  - intros y Hy. congruence.
  - by apply (c_fresh _ _ _ _ _ HC d x Hx Hcur).
  - split; [|split; [unfold pclass; simpl; lia|done]]. unfold CDA.prio_ok in *. simpl. lia.
  - rewrite map_size_insert_Some by (by eexists). apply G.
Qed.

(** ** Sequences of operations *)

(** What happens around the queue of a processor.  Resume: a thread that blocked in
    awaitDispatch goes on from Retry, with the domain and the class that it read
    when it entered. *)
Inductive op :=
| NewDomain (d tps : Z) (mem : bool) (cls w qm pm : Z)
| NewAnnex (pa : Z) (work : bool)
| Attach (pa d : Z)
| Detach (pa now : Z)
| Deliver (pa intr : Z)
| Runs (pa : Z) (work : bool)
| Enters (pa th : Z)
| Leaves
| Yield (cur now : Z)
| Await (cur me pa now : Z)
| Resume (me pa cda cls now : Z)
| Terminate (pa me : Z)
| Timeout
| SetWeight (here : bool) (d w : Z)
| SetClass (here : bool) (d cls : Z).

Definition discard {A} (m : M A) : M unit := m ;;; ret tt.

Definition exec (o : op) : M unit :=
  match o with
  | NewDomain d tps mem cls w qm pm =>
      r <-- need (CDA.Create tps mem cls w qm pm) ;;
      match r with inr c => newDomain d c | inl _ => ret tt end
  | NewAnnex pa work => newAnnex pa work
  | Attach pa d => attach pa d
  | Detach pa now => detach pa now
  | Deliver pa intr => deliverInterrupt pa intr
  | Runs pa work => runs pa work
  | Enters pa th => enters pa th
  | Leaves => pa <-- gets dispatchedPA ;; leaves pa
  | Yield cur now => discard (GetNextProcess cur now)
  | Await cur me pa now => discard (awaitDispatch cur me pa now)
  | Resume me pa cda cls now => discard (awaitRetry me pa cda cls now)
  | Terminate pa me => discard (waitForTerminate pa me)
  | Timeout => dispatchTimeout
  | SetWeight here d w => discard (setWeight here d w)
  | SetClass here d cls => discard (setPriorityClass here d cls)
  end.

Fixpoint run (os : list op) : M unit :=
  match os with
  | [] => ret tt
  | o :: os => exec o ;;; run os
  end.

(** The clock goes on and does not reach 2^61. *)
Definition timeOk (s : t) (now : Z) : Prop := lastDispatchTime (clock s) <= now < 2 ^ 61.

Definition attached (s : t) (pa : Z) : Prop := exists n, annexes s !! pa = Some n /\ cdaOf n <> NULL.

(** When an operation may happen.  There are at most 17 domains, one of which is
    dispatched and the others fit in the heap.  The idle and the dummy annex [p1] and
    [p2] keep their work.  A thread that goes on in awaitDispatch finds its annex in
    the domain, and the domain in the class, that it read when it entered.  The
    lemmas at the end of DispatchCorrect show runs that get stuck without the
    conditions on Attach, Terminate and SetClass. *)
Definition allowed (s : t) (o : op) : Prop :=
  match o with
  | NewDomain d tps _ _ _ _ _ => d <> NULL /\ domains s !! d = None /\ (size (domains s) < 17)%nat /\ 10000 <= tps <= 2 ^ 40
  | NewAnnex pa _ => pa <> NULL /\ annexes s !! pa = None
  | Attach pa d => attach_ok s pa d
  | Detach pa now => detach_ok s pa now
  | Deliver pa intr => attached s pa /\ 0 <= intr
  | Runs pa work => is_Some (annexes s !! pa) /\ (pa = p1 \/ pa = p2 -> work = true)
  | Enters pa th => is_Some (annexes s !! pa) /\ pa <> p1 /\ pa <> p2 /\ th <> NULL
  | Leaves | Timeout => True
  | Yield cur now => attached s cur /\ timeOk s now
  | Await cur me pa now => cur = kernelPA s /\ await_ok s me pa /\ timeOk s now
  | Resume me pa cda cls now => await_ok s me pa /\ in_domain s pa cda cls /\ timeOk s now
  | Terminate pa _ => is_Some (annexes s !! pa) /\ forall c, preemptedPA s !! c <> Some pa
  | SetWeight _ d _ => is_Some (domains s !! d)
  | SetClass _ d _ => exists x, domains s !! d = Some x /\ currentPA x = NULL
  end.

(** Annexes whose thread has been asked to go, and that are not detached yet. *)
Definition track (T : gset Z) (o : op) : gset Z :=
  match o with
  | Terminate pa _ => T ∪ {[pa]}
  | Detach pa _ => T ∖ {[pa]}
  | _ => T
  end.

Fixpoint allowed_all (s : t) (os : list op) : Prop :=
  match os with
  | [] => True
  | o :: os => allowed s o /\ forall s', exec o s = Ok (tt, s') -> allowed_all s' os
  end.

Lemma wp_discard {A} (m : M A) (Q : A -> t -> Prop) (R : t -> Prop) s :
  wp m Q s -> (forall a s', Q a s' -> R s') -> wp (discard m) (fun _ s' => R s') s.
Proof. intros Hm HQ. unfold discard. apply wp_bind. eapply wp_mono; [exact Hm|]. intros a s' H. apply wp_ret. by eapply HQ. Qed.

Lemma safe_exec T s o : Inv T s -> allowed s o -> wp (exec o) (fun _ s' => Inv (track T o) s') s.
Proof.
  intros HI Ha. pose proof HI as (q & G & Hdp & Hpre). destruct o as [d tps mem cls w qm pm|pa work|pa d|pa now|pa intr|pa work|pa th| |cur now|cur me pa now|me pa cda cls now|pa me| |here d w|here d cls]; simpl in *.
  - destruct Ha as (? & ? & ? & Ht). wsteps. pose proof (create_made tps mem cls w qm pm Ht) as Hm.
    destruct (CDA.Create tps mem cls w qm pm) as [[rc|c]|]; [..|done]; (eapply wp_need; [done|]);
      [by apply wp_ret|by apply safe_newDomain].
  - destruct Ha. by apply safe_newAnnex.
  - eapply wp_mono; [by apply (safe_attach T)|]. by intros [] s' [? _].
  - eapply wp_mono; [by apply (safe_detach T)|]. by intros [] s' [? _].
  - destruct Ha as ((n & Hn & Hc) & Hi). eapply wp_mono; [by apply (safe_deliver T s pa intr n)|]. by intros [] s' [? _].
  - destruct Ha as ([n Hn] & Hp). eapply wp_mono; [by apply (safe_runs T s pa n)|]. by intros [] s' [? _].
  - destruct Ha as ([n Hn] & ? & ? & ?). eapply wp_mono; [by apply (safe_enters T s pa n)|]. by intros [] s' [? _].
  - wsteps. eapply wp_mono; [by apply (safe_leaves T s)|]. by intros [] s' [? _].
  - destruct Ha as ((n & Hn & Hc) & Ht). eapply wp_discard; [by apply (safe_yield T s cur n)|]. by intros a s' [? _].
  - destruct Ha as (-> & Ha & Ht). destruct (await_in_domain d1 p1 d2 p2 T s me pa HI Ha) as (d & cls & Hd).
    eapply wp_discard; [by apply (good_await d1 p1 d2 p2 T s me pa d cls now)|]. by intros a s' [? _].
  - destruct Ha as (Ha & Hd & Ht). eapply wp_discard; [by apply (good_retry d1 p1 d2 p2 T s me pa cda cls now)|]. by intros a s' [? _].
  - destruct Ha as ([n Hn] & Hp). eapply wp_discard; [by apply (safe_waitForTerminate T s pa n)|]. by intros a s' [? _].
  - apply wp_modify. exists q. split; [|done].
    apply (good_other d1 p1 d2 p2 T s _ q NULL (dispatchedCDA s) G); try done; apply G.
  - eapply wp_discard; [by apply (safe_setWeight T)|]. by intros a s' [? _].
  - destruct Ha as (x & Hx & Hc). eapply wp_discard; [by apply (safe_setPriorityClass T s here d cls x)|]. by intros a s' [? _].
Qed.

Lemma safe_run os : forall T s, Inv T s -> allowed_all s os -> wp (run os) (fun _ s' => Inv (foldl track T os) s') s.
Proof.
  induction os as [|o os IH]; intros T s HI Ha; simpl in *; [by apply wp_ret|]. destruct Ha as [Ha Hs].
  pose proof (safe_exec T s o HI Ha) as H. unfold wp, bind in *. destruct (exec o s) as [[[] s']|c k sc d|] eqn:E; try done.
  by apply IH, Hs.
Qed.

End keepers.

End DispatchRun.
