(* ===== verification/DispatchCorrect.v ===== *)
(** * DispatchCorrect: what the dispatch queue promises

    The theorems about the queue, on a booted processor and on any state that
    satisfies the invariant, and runs of the code that break it. *)

From stdpp Require Import base numbers option gmap list.
From S2P Require Import K42 Prelude ProcessAnnex CPUDomainAnnex CPUDomainRing DispatchHeap CPUDomainRings DispatchQueue DispatchInv DispatchSafe DispatchRun.

Module DispatchCorrect.

Import ProcessAnnex CPUDomainRings DispatchQueue DispatchInv DispatchSafe DispatchRun.

(** ** A booted processor *)

(** A domain of class [cls]; ticks of 10 ns, a quantum of 10 ms and a pulse every 20 ms. *)
Definition TPS : Z := 100000000.
Definition create (d cls : Z) : op := NewDomain d TPS true cls 1 10000 20000.

(** The idle loop at 201 in domain 200, the kernel at 301 in domain 300. *)
Definition bootScript : list op :=
  [create 200 6; NewAnnex 201 true; Attach 201 200; create 300 1; NewAnnex 301 true; Attach 301 300; Yield 101 2000].

Definition stateOf {A} (r : result (A * t)) : option t := match r with Ok (_, s) => Some s | _ => None end.

Definition boot : option t :=
  match DispatchQueue.init 1000 TPS false false (replicate 8 (mkCS 5 5 5)) 100 101 with
  | Ok s => set_kernel 301 <$> stateOf (run bootScript s)
  | _ => None
  end.

Definition booted : t := default (mkDQ ∅ ∅ Heap.init 0 0 [] (mkClock 0 0 0 0 0 0) (mkStats 0 0 [] []) (mkBorrowers 0 []) 0 None []) boot.

(** A ring of one annex. *)
Lemma ring_one h cur n :
  h !! cur = Some n -> cur <> NULL -> Ring.cpuDomainNext n = cur ->
  (forall a m, h !! a = Some m -> cdaOf m = cdaOf n -> a = cur) -> ringOf h cur (cdaOf n).
Proof.
  intros Hn Hcur Hx Hal. exists [(cur, Ring.annex n)]. split.
  - simpl. split; [done|]. split; [|apply NoDup_singleton]. rewrite <- Hx at 3. destruct n. simpl in *. subst. split_and!; eauto.
  - intros a. simpl. rewrite list_elem_of_singleton. split.
    + intros ->. exists n. split; [done|]. by rewrite Hx.
    + intros (m & Hm & _ & E). by apply (Hal a m).
Qed.

(** *** Its invariant, by computation *)

#[export] Instance domOk_dec x : Decision (domOk x).
Proof. unfold domOk, CDA.prio_ok. apply _. Defined.
#[export] Instance annexOk_dec last i : Decision (annexOk last i).
Proof. unfold annexOk. apply _. Defined.
#[export] Instance clockOk_dec k : Decision (clockOk k).
Proof. unfold clockOk. apply _. Defined.

Definition holds {V} (f : Z -> V -> bool) (m : gmap Z V) : bool := forallb (fun e => f e.1 e.2) (map_to_list m).

Lemma holds_all {V} (f : Z -> V -> bool) (m : gmap Z V) : holds f m = true -> forall k v, m !! k = Some v -> f k v = true.
Proof. unfold holds. intros H k v Hk. rewrite forallb_forall in H. by apply (H (k, v)), list_elem_of_In, elem_of_map_to_list. Qed.

(** Each annex of [s] is alone in its domain, ready and at rest. *)
Definition restingAnnex (s : t) (a : Z) (n : Ring.PA) : bool :=
  bool_decide (a <> NULL /\ Ring.cpuDomainNext n = a /\ cdaOf n <> NULL /\ annexOk (lastDispatchTime (clock s)) (Ring.annex n) /\
    pending (Ring.annex n) = false /\ terminationPending (Ring.annex n) = false) &&
  match domains s !! cdaOf n with Some x => currentPA x =? a | None => false end.

Definition restingDomain (s : t) (d : Z) (x : domain) : bool :=
  bool_decide (d <> NULL /\ currentPA x <> NULL /\ domOk x /\ (d = dispatchedCDA s \/ d ∈ (Heap.entries (heap s)).*2)) &&
  match annexes s !! currentPA x with Some n => cdaOf n =? d | None => false end.

Definition restingEntry (s : t) (e : Z * Z) : bool :=
  match domains s !! e.2 with Some x => e.1 =? prio x | None => false end.

Definition restingKeeper (s : t) (p : Z) : bool :=
  match annexes s !! p with Some n => hasWork (Ring.annex n) && (reservedThread (Ring.annex n) =? NULL) | None => false end.

Definition resting (s : t) (p1 p2 : Z) : bool :=
  holds (restingAnnex s) (annexes s) && holds (restingDomain s) (domains s) &&
  forallb (restingEntry s) (Heap.entries (heap s)) && restingKeeper s p1 && restingKeeper s p2 &&
  match annexes s !! kernelPA s with Some n => warningTicks (Ring.annex n) =? noTime | None => false end &&
  match annexes s !! dispatchedPA s with Some n => cdaOf n =? dispatchedCDA s | None => false end &&
  bool_decide (NoDup (Heap.entries (heap s)).*2 /\ dispatchedCDA s ∉ (Heap.entries (heap s)).*2 /\ clockOk (clock s) /\
    length (currentStats (stats s)) = 8%nat /\ length (smooth (stats s)) = 8%nat /\ length (cdaBorrowers (borrowers s)) = 8%nat /\
    (size (domains s) <= 17)%nat /\ preemptedPA s = replicate 8 NULL /\
    length (Heap.element (heap s)) = Heap.HEAP_SIZE /\ (Heap.count (heap s) <= 2)%nat /\
    Heap.prio (Heap.element (heap s)) 0 <= Heap.prio (Heap.element (heap s)) 1).

Definition cdaAt (s : t) (p : Z) : Z := match annexes s !! p with Some n => cdaOf n | None => NULL end.

Section resting.
Context (s : t) (p1 p2 : Z).
Hypothesis HR : resting s p1 p2 = true.

Lemma resting_annex a n : annexes s !! a = Some n ->
  (a <> NULL /\ Ring.cpuDomainNext n = a /\ cdaOf n <> NULL /\ annexOk (lastDispatchTime (clock s)) (Ring.annex n) /\
   pending (Ring.annex n) = false /\ terminationPending (Ring.annex n) = false) /\
  exists x, domains s !! cdaOf n = Some x /\ currentPA x = a.
Proof.
  intros Hn. unfold resting in HR. rewrite !andb_true_iff in HR. destruct HR as (((((((H & _) & _) & _) & _) & _) & _) & _).
  apply holds_all with (k := a) (v := n) in H; [|done]. apply andb_true_iff in H as [H1 H2]. apply bool_decide_eq_true in H1.
  split; [done|]. destruct (domains s !! cdaOf n) as [x|]; [|done]. exists x. split; [done|]. by apply Z.eqb_eq.
Qed.

Lemma resting_alone a n b m : annexes s !! a = Some n -> annexes s !! b = Some m -> cdaOf m = cdaOf n -> b = a.
Proof.
  intros Hn Hm E. destruct (resting_annex a n Hn) as (_ & x & Hx & <-). destruct (resting_annex b m Hm) as (_ & y & Hy & <-). congruence.
Qed.

Lemma resting_dom d x : domains s !! d = Some x ->
  (d <> NULL /\ currentPA x <> NULL /\ domOk x /\ (d = dispatchedCDA s \/ d ∈ (Heap.entries (heap s)).*2)) /\
  exists n, annexes s !! currentPA x = Some n /\ cdaOf n = d.
Proof.
  intros Hx. unfold resting in HR. rewrite !andb_true_iff in HR. destruct HR as (((((((_ & H) & _) & _) & _) & _) & _) & _).
  apply holds_all with (k := d) (v := x) in H; [|done]. apply andb_true_iff in H as [H1 H2]. apply bool_decide_eq_true in H1.
  split; [done|]. destruct (annexes s !! currentPA x) as [n|]; [|done]. exists n. split; [done|]. by apply Z.eqb_eq.
Qed.

Lemma resting_entry p d : (p, d) ∈ Heap.entries (heap s) -> exists x, domains s !! d = Some x /\ p = prio x.
Proof.
  intros Hin. unfold resting in HR. rewrite !andb_true_iff in HR. destruct HR as (((((((_ & _) & H) & _) & _) & _) & _) & _).
  rewrite forallb_forall in H. apply list_elem_of_In in Hin. specialize (H _ Hin). unfold restingEntry in H. simpl in H.
  destruct (domains s !! d) as [x|]; [|done]. exists x. split; [done|]. by apply Z.eqb_eq.
Qed.

Lemma resting_keeper p : restingKeeper s p = true -> keeper (annexes s) (cdaAt s p) p.
Proof.
  unfold restingKeeper, cdaAt. destruct (annexes s !! p) as [n|] eqn:Hn; [|done]. intros [H1 H2]%andb_true_iff. apply Z.eqb_eq in H2.
  destruct (resting_annex p n Hn) as ((? & ? & ? & _) & _). exists n. split; [done|]. split_and!; try done. congruence.
Qed.

Lemma resting_core q : q = Heap.entries (heap s) -> NoDup q.*2 -> dispatchedCDA s ∉ q.*2 -> Core (annexes s) (domains s) q NULL (dispatchedCDA s).
Proof.
  intros -> Hnd Hdc. split; try done.
  - intros d x Hx. destruct (resting_dom d x Hx) as ((? & ? & _) & n & Hn & <-). split; [done|].
    destruct (resting_annex _ _ Hn) as ((_ & ? & _) & _). apply ring_one; try done. intros a m Hm E. by apply (resting_alone _ n a m).
  - intros a n Hn. destruct (resting_annex _ _ Hn) as ((? & ? & ? & _) & x & Hx & _). split_and!; try done; by eexists.
  - intros p d Hin. destruct (resting_entry p d Hin) as (x & Hx & E). by split; eauto.
  - intros d x Hx. destruct (resting_dom d x Hx) as ((? & ? & ? & ?) & _). done.
  - intros d x Hx Hc. by destruct (resting_dom d x Hx) as ((_ & ? & _) & _).
Qed.

(** A state in which everything is at rest satisfies the invariant. *)
Lemma resting_inv T : cdaAt s p1 <> cdaAt s p2 -> Inv (cdaAt s p1) p1 (cdaAt s p2) p2 T s.
Proof.
  intros Hp. pose proof HR as H. unfold resting in H. rewrite !andb_true_iff in H.
  destruct H as (((((_ & H1) & H2) & Hk) & Hdp) & H). apply bool_decide_eq_true in H.
  destruct H as (Hnd & Hdc & Hck & S1 & S2 & Hb & Hsz & Hpre & L1 & L2 & Ho).
  assert (Hnull : forall c p, preemptedPA s !! c = Some p -> p = NULL).
  { intros c p. rewrite Hpre. by intros [? _]%lookup_replicate. }
  destruct (annexes s !! dispatchedPA s) as [nd|] eqn:Hn; [|done]. apply Z.eqb_eq in Hdp.
  destruct (resting_annex _ _ Hn) as ((Hdn & Hnx & _) & _).
  exists (Heap.entries (heap s)). split; [|split].
  - split; try done; try by apply resting_keeper.
    + by apply resting_core.
    + split; [done|]. split; [unfold Heap.HEAP_SIZE; lia|]. split; [|done]. intros i Hi. assert (i = 1%nat) as -> by lia. exact Ho.
    + intros d x Hx. by destruct (resting_dom d x Hx) as ((_ & _ & ? & _) & _).
    + intros a n Ha. by destruct (resting_annex a n Ha) as ((_ & _ & _ & ? & _) & _).
    + by rewrite Hpre.
    + intros c p E. by apply Hnull in E.
    + intros a n Ha. by destruct (resting_annex a n Ha) as ((_ & _ & _ & _ & -> & _) & _).
    + intros a n Ha. by destruct (resting_annex a n Ha) as ((_ & _ & _ & _ & _ & ->) & _).
    + intros _. destruct (annexes s !! kernelPA s) as [nk|] eqn:Hnk; [|done]. apply Z.eqb_eq in Hk.
      destruct (resting_annex _ _ Hnk) as ((_ & _ & ? & _) & _). exists nk. split_and!; try done.
      intros b m Hm E. by apply (resting_alone _ nk b m).
  - exists nd. split_and!; try done. congruence.
  - intros c E. by apply Hdn, (Hnull c).
Qed.

End resting.

Lemma booted_inv : Inv 100 101 200 201 ∅ booted.
Proof. apply (resting_inv booted 101 201); vm_compute; done. Qed.

(** *** Deciding which operations are allowed *)

Definition timeb (s : t) (now : Z) : bool := (lastDispatchTime (clock s) <=? now) && (now <? 2 ^ 61).
Definition withAnnex (s : t) (pa : Z) (f : Ring.PA -> bool) : bool := match annexes s !! pa with Some n => f n | None => false end.
Definition isAttached (n : Ring.PA) : bool := negb (cdaOf n =? NULL).

Definition awaitb (s : t) (me pa : Z) : bool :=
  negb (kernelPA s =? NULL) && negb (pa =? kernelPA s) &&
  withAnnex s pa (fun n => isAttached n && negb (awaitingDispatch (Ring.annex n)) && (reservedThread (Ring.annex n) =? me)).

Definition allowedb (p1 p2 : Z) (s : t) (o : op) : bool :=
  match o with
  | NewDomain d tps _ _ _ _ _ => negb (d =? NULL) && bool_decide (domains s !! d = None) && (size (domains s) <? 17)%nat &&
      (10000 <=? tps) && (tps <=? 2 ^ 40)
  | NewAnnex pa _ => negb (pa =? NULL) && negb (withAnnex s pa (fun _ => true))
  | Attach pa d => withAnnex s pa (fun n => cdaOf n =? NULL) && negb (pa =? kernelPA s) && negb (d =? NULL) &&
      match domains s !! d with Some _ => true | None => false end &&
      ((kernelPA s =? NULL) || negb (withAnnex s (kernelPA s) (fun n => d =? cdaOf n)))
  | Detach pa now => negb (kernelPA s =? NULL) && negb (pa =? kernelPA s) && negb (pa =? p1) && negb (pa =? p2) && timeb s now &&
      withAnnex s pa (fun n => isAttached n && negb (terminationPending (Ring.annex n)))
  | Deliver pa intr => withAnnex s pa isAttached && (0 <=? intr)
  | Runs pa work => withAnnex s pa (fun _ => true) && (work || (negb (pa =? p1) && negb (pa =? p2)))
  | Enters pa th => withAnnex s pa (fun _ => true) && negb (pa =? p1) && negb (pa =? p2) && negb (th =? NULL)
  | Leaves | Timeout => true
  | Yield cur now => withAnnex s cur isAttached && timeb s now
  | Await cur me pa now => (cur =? kernelPA s) && awaitb s me pa && timeb s now
  | Resume me pa cda cls now => awaitb s me pa && withAnnex s pa (fun n => cdaOf n =? cda) &&
      match domains s !! cda with Some x => pclass x =? cls | None => false end && timeb s now
  | Terminate pa _ => withAnnex s pa (fun _ => true) && bool_decide (pa ∉ preemptedPA s)
  | SetWeight _ d _ => match domains s !! d with Some _ => true | None => false end
  | SetClass _ d _ => match domains s !! d with Some x => currentPA x =? NULL | None => false end
  end.

Lemma withAnnex_true s pa f : withAnnex s pa f = true -> exists n, annexes s !! pa = Some n /\ f n = true.
Proof. unfold withAnnex. destruct (annexes s !! pa) as [n|]; [|done]. eauto. Qed.

Lemma timeb_true s now : timeb s now = true -> timeOk s now.
Proof. unfold timeb, timeOk. lia. Qed.

Ltac checks :=
  repeat match goal with
  | H : _ && _ = true |- _ => apply andb_true_iff in H as [? ?]
  | H : negb (_ =? _) = true |- _ => apply negb_true_iff, Z.eqb_neq in H
  | H : negb _ = true |- _ => apply negb_true_iff in H
  | H : (_ =? _) = true |- _ => apply Z.eqb_eq in H
  | H : (_ <=? _) = true |- _ => apply Z.leb_le in H
  | H : (_ <? _)%nat = true |- _ => apply Nat.ltb_lt in H
  | H : bool_decide _ = true |- _ => apply bool_decide_eq_true in H
  | H : timeb _ _ = true |- _ => apply timeb_true in H
  | H : withAnnex _ _ _ = true |- _ => apply withAnnex_true in H as (? & ? & ?)
  | H : match ?o with Some _ => _ | None => false end = true |- _ => destruct o eqn:?; [|done]
  end.

Lemma awaitb_ok s me pa : awaitb s me pa = true -> await_ok s me pa.
Proof. unfold awaitb, await_ok, isAttached. intros H. checks. split_and!; try done. by eexists. Qed.

Lemma allowedb_allowed p1 p2 s o : allowedb p1 p2 s o = true -> allowed p1 p2 s o.
Proof.
  destruct o; simpl; unfold attach_ok, detach_ok, attached, isAttached; intros H; checks; try done; try (split_and!; by eauto).
  - split; [done|]. unfold withAnnex in *. by destruct (annexes s !! pa).
  - split_and!; eauto. intros Hk nk Hnk. unfold withAnnex in *. rewrite Hnk in *.
    match goal with H : _ || _ = true |- _ => apply orb_true_iff in H as [?%Z.eqb_eq|H]; [done|] end. by checks.
  - split_and!; eauto; apply H1 || done.
  - split; [by eexists|]. intros E. match goal with H : _ || _ = true |- _ => apply orb_true_iff in H as [->|H]; [done|] end. checks. by destruct E.
  - split; [done|]. split; [by apply awaitb_ok|done].
  - split; [by apply awaitb_ok|]. split; [|done]. by eexists _, _.
  - split; [by eexists|]. intros c Hc. by apply list_elem_of_lookup_2 in Hc.
  - by eexists.
Qed.

Fixpoint checked (p1 p2 : Z) (os : list op) (s : t) : bool :=
  match os with
  | [] => true
  | o :: os => allowedb p1 p2 s o && match exec o s with Ok (_, s') => checked p1 p2 os s' | _ => true end
  end.

Lemma checked_allowed p1 p2 os : forall s, checked p1 p2 os s = true -> allowed_all p1 p2 s os.
Proof.
  induction os as [|o os IH]; intros s; simpl; [done|]. intros [H1 H2]%andb_true_iff. split; [by apply allowedb_allowed|].
  intros s' E. rewrite E in H2. by apply IH.
Qed.

(** A domain of users with two annexes: they run, are interrupted, call the
    kernel, and one is terminated. *)
Definition session : list op :=
  [create 400 3; NewAnnex 401 false; Attach 401 400; NewAnnex 402 true; Attach 402 400; Runs 301 false; Deliver 401 5;
   Yield 301 3000; Enters 402 7; Await 301 7 402 4000; Leaves; Timeout; SetWeight true 400 2; Deliver 301 4; Enters 402 8;
   Await 301 8 402 5000; Runs 301 false; Yield 301 6000; Resume 8 402 400 3 7000; Leaves; Enters 401 9; Terminate 401 11;
   Await 301 9 401 8000;
   Detach 401 9000; Yield 402 10000; create 500 2; SetClass true 500 4].

(** ** The theorems *)

(** The program ends, with a result and a state of which [Q] holds.  The only other
    end is a charge that the priority of a domain cannot hold. *)
Definition ends {A} (r : result (A * t)) (Q : A -> t -> Prop) : Prop :=
  match r with
  | Ok (a, s') => Q a s'
  | Overflow c k sc d => CDA.adjustPriority c k sc d = None
  | Stuck => False
  end.






(** Thread 8 has entered the kernel for annex 402, and the kernel has work. *)
Definition entering : list op :=
  [create 400 3; NewAnnex 401 false; Attach 401 400; NewAnnex 402 true; Attach 402 400; Runs 301 false; Deliver 401 5;
   Yield 301 3000; Deliver 301 4; Enters 402 8].

Definition entered : t := default booted (stateOf (run entering booted)).

Lemma entered_inv : Inv 100 101 200 201 ∅ entered.
Proof.
  assert (Hc : checked 101 201 entering booted = true) by (by vm_compute).
  pose proof (safe_run 100 101 200 201 entering ∅ booted booted_inv (checked_allowed 101 201 entering booted Hc)) as H.
  replace (foldl track ∅ entering) with (∅ : gset Z) in H by (by vm_compute).
  assert (E : match stateOf (run entering booted) with Some _ => true | None => false end = true) by (by vm_compute).
  unfold entered. unfold wp in H. destruct (run entering booted) as [[[] s']| |]; [exact H|discriminate E..].
Qed.


(** ** The borrowers *)

Inductive borrowing := Push (pa : Z) | Pop | Reset (pa : Z) | Clear.

Definition borrow (o : borrowing) (b : Borrowers) : option Borrowers :=
  match o with
  | Push pa => pushCDABorrower b pa
  | Pop => Some (popCDABorrower b)
  | Reset pa => resetCDABorrowers b pa
  | Clear => Some (clearCDABorrowers b)
  end.

Fixpoint borrow_all (os : list borrowing) (b : Borrowers) : option Borrowers :=
  match os with
  | [] => Some b
  | o :: os => b' ← borrow o b; borrow_all os b'
  end.

(** The stack that the array is a cache of. *)
Definition stacked (o : borrowing) (st : list Z) : list Z :=
  match o with
  | Push pa => pa :: st
  | Pop => tail st
  | Reset pa => [pa]
  | Clear => []
  end.

Definition stack_of (os : list borrowing) : list Z := foldl (fun st o => stacked o st) [] os.

Definition noBorrowers : Borrowers := mkBorrowers (-1) (replicate (Z.to_nat CDA_BORROWERS_SIZE) NULL).

(** The array holds a top part of the stack; [full]: all of it. *)
Definition caches (full : Prop) (b : Borrowers) (st : list Z) : Prop :=
  length (cdaBorrowers b) = 8%nat /\ -1 <= cdaBorrowersTop b < 8 /\
  (forall i, (Z.of_nat i <= cdaBorrowersTop b) -> cdaBorrowers b !! Z.to_nat (cdaBorrowersTop b - Z.of_nat i) = st !! i) /\
  (full -> cdaBorrowersTop b + 1 = Z.of_nat (length st)).

Lemma caches_set full b top pa st :
  length (cdaBorrowers b) = 8%nat -> 0 <= top < 8 ->
  (forall i, Z.of_nat i < top -> cdaBorrowers b !! Z.to_nat (top - 1 - Z.of_nat i) = st !! i) ->
  (full -> top = Z.of_nat (length st)) ->
  exists b', setBorrower b top pa = Some b' /\ caches full b' (pa :: st).
Proof.
  intros Hl Ht Hi Hf. unfold setBorrower. destruct (lookup_lt_is_Some_2 (cdaBorrowers b) (Z.to_nat top)) as [y Hy]; [lia|].
  rewrite Hy. simpl. eexists. split; [done|]. split_and!; simpl; [by rewrite length_insert|lia|lia| |].
  - intros [|i] Hi'.
    + simpl. rewrite Z.sub_0_r, list_lookup_insert_eq by lia. done.
    + rewrite list_lookup_insert_ne by lia. simpl. rewrite <- Hi by lia. f_equal. lia.
  - intros H. specialize (Hf H). lia.
Qed.

Lemma borrow_caches o b st (full full' : Prop) :
  caches full b st -> (full' -> full /\ (length (stacked o st) <= 8)%nat) -> exists b', borrow o b = Some b' /\ caches full' b' (stacked o st).
Proof.
  intros (Hl & Ht & Hi & Hf) Hfull. destruct o as [pa| |pa|]; simpl in *.
  - unfold pushCDABorrower, CDA_BORROWERS_SIZE.
    assert (E : uadd (uwrap (cdaBorrowersTop b)) 1 mod 8 = (cdaBorrowersTop b + 1) mod 8).
    { unfold uadd, uwrap. assert (H8 : (8 | 2 ^ 64)) by (by exists (2 ^ 61)).
      rewrite Z.mod_mod_divide, Z.add_mod, Z.mod_mod_divide, <- Z.add_mod by done. done. }
    rewrite E. destruct (decide (cdaBorrowersTop b = 7)) as [E7|].
    + rewrite E7. change ((7 + 1) mod 8) with 0. apply caches_set; try done; [intros; lia|]. intros H. destruct (Hfull H) as [H1 H2].
      specialize (Hf H1). lia.
    + rewrite Z.mod_small by lia. apply caches_set; try done; [lia| |].
      * intros i Hlt. rewrite <- Hi by lia. f_equal. lia.
      * intros H. by apply Hf, Hfull.
  - unfold popCDABorrower. destruct (Z.leb_spec 0 (cdaBorrowersTop b)); (eexists; split; [done|]); split_and!; simpl; try done; try lia.
    + intros i Hlt. assert (Et : tail st !! i = st !! S i) by (by destruct st). rewrite Et, <- Hi by lia. f_equal. lia.
    + intros H'. pose proof (Hf (proj1 (Hfull H'))). destruct st; simpl in *; lia.
    + intros H'. pose proof (Hf (proj1 (Hfull H'))). destruct st; simpl in *; lia.
  - apply caches_set; try done; intros; lia.
  - eexists. split; [done|]. split_and!; simpl; try done; try lia.
Qed.

(** How often the depth stays within the array. *)
Definition shallow (os : list borrowing) (st : list Z) : Prop :=
  forall k, (length (foldl (fun st o => stacked o st) st (take k os)) <= 8)%nat.

Lemma borrow_all_caches os : forall b st (full : Prop),
  caches full b st -> exists b', borrow_all os b = Some b' /\ caches (full /\ shallow os st) b' (foldl (fun st o => stacked o st) st os).
Proof.
  induction os as [|o os IH]; intros b st full Hc; simpl.
  - exists b. split; [done|]. destruct Hc as (H1 & H2 & H3 & Hf). split; [exact H1|]. split; [exact H2|]. split; [exact H3|]. intros [H _]. by apply Hf.
  - destruct (borrow_caches o b st full (full /\ (length (stacked o st) <= 8)%nat) Hc ltac:(done)) as (b1 & E1 & Hc1).
    destruct (IH b1 (stacked o st) _ Hc1) as (b' & E' & Hb1 & Hb2 & Hb3 & Hf). rewrite E1. simpl. exists b'. split; [done|].
    split; [exact Hb1|]. split; [exact Hb2|]. split; [exact Hb3|]. intros [H1 H2]. apply Hf. split; [split; [done|apply (H2 1%nat)]|]. intros k. apply (H2 (S k)).
Qed.

(** The cache of borrowers.  pushCDABorrower, popCDABorrower,
    resetCDABorrowers and clearCDABorrowers keep in an array of eight, with a top
    that wraps around, the upper part of the stack of processes that run on
    borrowed time: in any sequence of them no index is out of range, and
    currentCDABorrower is null or the process on top of the stack.  It is the
    process on top, whenever there is one, as long as the stack was never deeper
    than the array. *)
Theorem borrowers_cache os :
  exists b', borrow_all os noBorrowers = Some b' /\
    (currentCDABorrower b' = Some NULL \/ currentCDABorrower b' = head (stack_of os)) /\
    ((forall k, length (stack_of (take k os)) <= 8)%nat -> currentCDABorrower b' = Some (default NULL (head (stack_of os)))).
Proof.
  destruct (borrow_all_caches os noBorrowers [] True) as (b' & E & Hl & Ht & Hi & Hf).
  { split_and!; simpl; try done; try lia. }
  exists b'. split; [done|]. unfold currentCDABorrower. fold (stack_of os) in *. destruct (Z.ltb_spec (cdaBorrowersTop b') 0) as [Hn|Hn].
  - split; [by left|]. intros Hsh. pose proof (Hf (conj I Hsh)) as Hlen. destruct (stack_of os); simpl in *; [done|]. lia.
  - specialize (Hi 0%nat ltac:(lia)). rewrite Z.sub_0_r in Hi. rewrite Hi. split; [right; by destruct (stack_of os)|].
    intros Hsh. destruct (lookup_lt_is_Some_2 (cdaBorrowers b') (Z.to_nat (cdaBorrowersTop b'))) as [y Hy]; [lia|].
    rewrite Hi in Hy. destruct (stack_of os); simpl in *; [done|]. done.
Qed.

(** ** Runs that go wrong *)

(** A domain of class 3 and its annex, which has work. *)
Definition users : list op := [create 400 3; NewAnnex 401 true; Attach 401 400].

Definition weightsAfter (os : list op) : option (list Z) :=
  (fun s => runnableWeight <$> currentStats (stats s)) <$> stateOf (run os booted).

(** _setPriorityClass changes the class before removeCPUDomainAnnex, whose
    statCDANotRunnable subtracts the weight from the new class: class 3 keeps the
    weight for good, and when the domain is gone class 4 has a weight of -1. *)
Lemma setPriorityClass_leaks_weight :
  weightsAfter users = Some [5; 1; 0; 1; 0; 0; 1; 6] /\
  weightsAfter (users ++ [SetClass true 400 4; Detach 401 3000]) = Some [5; 1; 0; 1; 2 ^ 64 - 1; 0; 1; 6].
Proof. split; by vm_compute. Qed.

(** _setWeight of a domain that can run: the new weight is subtracted from what the
    old one was added to. *)
Lemma setWeight_leaks_weight :
  weightsAfter (users ++ [SetWeight true 400 2; Detach 401 3000]) = Some [5; 1; 0; 2 ^ 64 - 1; 0; 0; 1; 6].
Proof. by vm_compute. Qed.

(** The statistics of the class of the dummy domain are never initialised. *)
Lemma unrunnable_stats_uninitialised :
  weightsAfter [] = Some [5; 1; 0; 0; 0; 0; 1; 5 + 1].
Proof. by vm_compute. Qed.

(** _setPriorityClass of the dispatched domain fails the assertion of
    removeCPUDomainAnnex. *)
Lemma setPriorityClass_dispatched :
  run (users ++ [Runs 301 false; Yield 301 3000; SetClass true 400 4]) booted = Stuck.
Proof. by vm_compute. Qed.

(** A second annex in the domain of the kernel, dispatched and then detached: the
    domain of the kernel, which is dispatched, is looked for in the heap. *)
Lemma kernel_domain_shared :
  run [NewAnnex 302 true; Attach 302 300; Runs 301 false; Yield 301 3000; Detach 302 4000] booted = Stuck.
Proof. by vm_compute. Qed.

(** A preempted annex is terminated: waitForTerminate clears awaitingDispatch, so
    the annex leaves its ring at the next dispatch, and detach finds it not ready and
    does not call removeProcessAnnex of the queue.  preemptedPA still names it. *)
Definition termination : list op :=
  users ++ [Runs 301 false; Yield 301 3000; Enters 401 7; Deliver 301 4; Await 301 7 401 4000; Terminate 401 11; Runs 301 false;
            Yield 301 5000; Resume 7 401 400 3 6000; Detach 401 7000].

Lemma terminated_still_preempted :
  preemptedPA <$> stateOf (run termination booted) = Some [0; 0; 0; 401; 0; 0; 0; 0] /\
  run (termination ++ [create 500 3; NewAnnex 501 true; Attach 501 500; Yield 201 8000]) booted = Stuck.
Proof. split; by vm_compute. Qed.

End DispatchCorrect.
