(* ===== verification/KernelTimer.v ===== *)
(** * KernelTimer: the per-processor timer queue,
    os/kernel/exception/KernelTimer.C

    Timer events are chained through the process annexes that own them, sorted
    by time; a time of -1 marks an inactive event.  The store of events is kept
    at pointer level.  A reading of the clock is an argument [now].  [alarm] is
    the time for which the decrementer is set (exception/arch/powerpc/KernelClock.H),
    [None] when no pop is to come: before the first setInterval, and after the
    pop that timerInterrupt serves.  A pop whose time has passed is pending.
    Interrupts are disabled throughout, so the operations are atomic. *)

From stdpp Require Import base numbers option gmap list.
From S2P Require Import K42 Prelude.

Module KernelTimer.

Definition SYSTIME_MAX : Z := UMAX.

(** KernelTimerEvent, by the address of its annex. *)
Record event := mkEvent { ev_when : Z; ev_next : Z }.

Record t := mkTimer {
  store : gmap Z event;
  anchor : Z;
  when : Z;
  dispatchTime : Z;
  alarm : option Z;
}.

#[export] Instance event_linked : Linked event Z := {|
  next := ev_next; set_next := fun p e => mkEvent (ev_when e) p; payload := ev_when;
  next_set_next := fun _ _ => eq_refl; payload_set_next := fun _ _ => eq_refl;
|}.

Definition set_when (w : Z) (e : event) : event := mkEvent w (ev_next e).

Definition maxDecrementer : Z := 2147483647.

(** KernelClock::setInterval, called at [now]. *)
Definition setInterval (s : t) (now interval : Z) : t :=
  let interval := if maxDecrementer <? interval then maxDecrementer else interval in
  let interval := if interval =? 0 then 1 else interval in
  mkTimer (store s) (anchor s) (when s) (dispatchTime s) (Some (now + interval)).

Definition set_store (s : t) (h : gmap Z event) (a : Z) : t :=
  mkTimer h a (when s) (dispatchTime s) (alarm s).

Definition set_time (s : t) (w : Z) : t :=
  mkTimer (store s) (anchor s) w (dispatchTime s) (alarm s).

Definition init (h : gmap Z event) : t := mkTimer h NULL SYSTIME_MAX SYSTIME_MAX None.

Definition fuel (s : t) : nat := S (size (store s)).

#[global] Arguments fuel : simpl never.

(** case TimerEvent::reset *)
Definition request_reset (s : t) (now source : Z) : option t :=
  src ← store s !! source;
  if ev_when src =? SYSTIME_MAX then Some s
  else
    '(prev, cur) ← walk (fun a _ => a =? source) (fuel s) (store s) NULL (anchor s);
    if cur =? NULL then Some s
    else
      c ← store s !! cur;
      let h1 := <[cur := set_when SYSTIME_MAX c]> (store s) in
      if negb (prev =? NULL) then
        p ← h1 !! prev;
        Some (set_store s (<[prev := set_next (ev_next c) p]> h1) (anchor s))
      else
        let s1 := set_store s h1 (ev_next c) in
        newWhen ←
          (if negb (anchor s1 =? NULL) then
             a ← store s1 !! anchor s1;
             Some (if ev_when a <? dispatchTime s1 then ev_when a else dispatchTime s1)
           else Some (dispatchTime s1));
        if when s1 <? newWhen then
          let s2 := set_time s1 newWhen in
          Some (if now <? when s2 then setInterval s2 now (usub (when s2) now) else s2)
        else Some s1.

(** case TimerEvent::absolute; [now2] is the clock reading of the nested call
    timerRequest(0, reset, source). *)
Definition request_absolute (s : t) (now now2 whenTime source : Z) : option t :=
  src ← store s !! source;
  s1 ← (if negb (ev_when src =? SYSTIME_MAX) then request_reset s now2 source else Some s);
  src1 ← store s1 !! source;
  let h1 := <[source := set_when whenTime src1]> (store s1) in
  '(prev, cur) ← walk (fun _ e => negb (ev_when e <=? whenTime)) (fuel s1) h1 NULL (anchor s1);
  src2 ← h1 !! source;
  let h2 := <[source := set_next cur src2]> h1 in
  if negb (prev =? NULL) then
    p ← h2 !! prev;
    Some (set_store s1 (<[prev := set_next source p]> h2) (anchor s1))
  else
    let s2 := set_store s1 h2 source in
    if whenTime <? dispatchTime s2 then
      let w := if whenTime <? now then now else whenTime in
      Some (setInterval (set_time s2 w) now (usub w now))
    else Some s2.

Inductive Kind := reset | absolute | relative | queryNow | queryTicksPerSecond | otherKind.

(** Returns the time (or tick rate) and the new state. *)
Definition timerRequest (tps : Z) (s : t) (now now2 whenTime : Z) (kind : Kind) (source : Z)
  : option (Z * t) :=
  match kind with
  | otherKind => Some (0, s)
  | queryTicksPerSecond => Some (tps, s)
  | queryNow => Some (now, s)
  | reset => s' ← request_reset s now source; Some (now, s')
  | relative =>
      let whenTime := uadd whenTime now in
      src ← store s !! source;
      if ev_when src <? whenTime then Some (now, s)
      else s' ← request_absolute s now now2 whenTime source; Some (now, s')
  | absolute => s' ← request_absolute s now now2 whenTime source; Some (now, s')
  end.

Definition TimerRequestTime (s : t) (pa : Z) : option Z := ev_when <$> store s !! pa.

Definition setDispatchTime (s : t) (now quantum : Z) : option t :=
  let s1 := mkTimer (store s) (anchor s) (when s) (uadd now quantum) (alarm s) in
  first ← (if negb (anchor s1 =? NULL) then
             a ← store s1 !! anchor s1;
             Some (if ev_when a <? dispatchTime s1 then Some (ev_when a) else None)
           else Some None);
  match first with
  | Some w =>
      if negb (when s1 =? w) then
        let w' := if w <? now then now else w in
        Some (setInterval (set_time s1 w') now (usub w' now))
      else Some s1
  | None => Some (setInterval (set_time s1 (dispatchTime s1)) now quantum)
  end.

(** The delivery loop: the annexes interrupted, the store and the rest. *)
Fixpoint deliver (n : nat) (h : gmap Z event) (now cur : Z) : option (list Z * gmap Z event * Z) :=
  match n with
  | O => None
  | S n =>
      if cur =? NULL then Some ([], h, NULL)
      else
        c ← h !! cur;
        if ev_when c <=? now then
          let h1 := <[cur := set_when SYSTIME_MAX c]> h in
          '(ds, h2, rest) ← deliver n h1 now (ev_next c);
          Some (cur :: ds, h2, rest)
        else Some ([], h, cur)
  end.

(** Returns the annexes to which the timer interrupt was delivered, in order,
    and whether the dispatch queue was told that its time expired.  The pop
    that is served here is gone: the clock is not set until setInterval. *)
Definition timerInterrupt (s : t) (now : Z) : option (list Z * bool * t) :=
  '(ds, h, cur) ← deliver (fuel s) (store s) now (anchor s);
  let timeout := dispatchTime s <=? now in
  let dt := if timeout then SYSTIME_MAX else dispatchTime s in
  w ← (if negb (cur =? NULL) then
         c ← h !! cur; Some (if ev_when c <? dt then ev_when c else dt)
       else Some dt);
  Some (ds, timeout, setInterval (mkTimer h cur w dt None) now (usub w now)).

(** setTOD: seconds and microseconds of the epoch of the clock. *)
Definition setTOD (now tps sec usec : Z) : Z * Z :=
  let epoch_sec := now / tps in
  let epoch_usec := umul (now mod tps) 1000000 / tps in
  let '(epoch_sec, epoch_usec) :=
    if usec <? epoch_usec then (uadd epoch_sec 1, usub epoch_usec 1000000)
    else (epoch_sec, epoch_usec) in
  (usub sec epoch_sec, usub usec epoch_usec).

(** ** Invariant *)

(** Sorted by time. *)
Fixpoint sorted (lo : Z) (l : list (Z * Z)) : Prop :=
  match l with [] => True | (_, w) :: l' => lo <= w /\ sorted w l' end.

(** The earliest deadline. *)
Definition due (l : list (Z * Z)) (dt : Z) : Z :=
  match l with [] => dt | (_, w) :: _ => Z.min w dt end.

(** At time [tm] the clock is set to pop by the deadline [d], or at the next
    tick if that has passed; with no deadline it need not be set.  It never pops
    later than the field [when] says. *)
Definition armed (al : option Z) (wh d tm : Z) : Prop :=
  d = SYSTIME_MAX \/
  exists a, al = Some a /\ a <= Z.max d (tm + 1) /\ a <= Z.max wh (tm + 1).

(** [inv s tm l]: the active events are [l], in order of time; all other events
    are marked inactive; and at time [tm] the clock is set for the earliest
    deadline. *)
Record inv (s : t) (tm : Z) (l : list (Z * Z)) : Prop := {
  inv_chain : chain (store s) (anchor s) l NULL;
  inv_sorted : sorted 0 l;
  inv_active : Forall (fun x => x.2 < SYSTIME_MAX) l;
  inv_idle : forall a e, store s !! a = Some e -> a ∉ l.*1 -> ev_when e = SYSTIME_MAX;
  inv_dispatch : 0 <= dispatchTime s <= SYSTIME_MAX;
  inv_when : 0 <= when s <= SYSTIME_MAX;
  inv_alarm : armed (alarm s) (when s) (due l (dispatchTime s)) tm;
}.

(** ** Lemmas on sorted lists *)

Lemma sorted_weaken lo lo' l : lo' <= lo -> sorted lo l -> sorted lo' l.
Proof. destruct l as [|[a w] l]; simpl; [done|]. intros ? [? ?]. split; [lia|done]. Qed.

Lemma sorted_cons_inv lo a w l : sorted lo ((a, w) :: l) -> sorted lo l.
Proof. intros [? ?]. by eapply sorted_weaken. Qed.

Lemma sorted_remove lo l1 x l2 : sorted lo (l1 ++ x :: l2) -> sorted lo (l1 ++ l2).
Proof.
  revert lo. induction l1 as [|[a w] l1 IH]; intros lo; simpl.
  - destruct x as [a w]. by apply (sorted_cons_inv _ a w).
  - intros [? ?]. split; [done|]. by apply IH.
Qed.

Lemma sorted_insert lo l1 a w l2 :
  sorted lo (l1 ++ l2) -> lo <= w -> Forall (fun x => x.2 <= w) l1 ->
  match l2 with [] => True | x :: _ => w <= x.2 end -> sorted lo (l1 ++ (a, w) :: l2).
Proof.
  revert lo. induction l1 as [|[b v] l1 IH]; intros lo; simpl.
  - intros Hs Hw _ Hl. split; [done|]. destruct l2 as [|[c u] l2]; [done|]. simpl in *. by destruct Hs.
  - intros [? ?] Hw [Hv Hf]%Forall_cons Hl. split; [done|]. by apply IH.
Qed.

Lemma due_remove l1 x l2 dt : sorted 0 (l1 ++ x :: l2) -> due (l1 ++ x :: l2) dt <= due (l1 ++ l2) dt.
Proof.
  destruct l1 as [|[a w] l1]; simpl; [|lia]. destruct x as [b v], l2 as [|[c u] l2]; simpl; lia.
Qed.

Lemma due_active l1 x l2 dt :
  Forall (fun x => x.2 < SYSTIME_MAX) (l1 ++ x :: l2) -> due (l1 ++ x :: l2) dt < SYSTIME_MAX.
Proof.
  destruct l1 as [|[a w] l1]; [destruct x as [a w]|]; simpl; intros [? _]%Forall_cons; simpl in *; lia.
Qed.

Lemma due_range l dt : sorted 0 l -> 0 <= dt -> 0 <= due l dt <= dt.
Proof. destruct l as [|[a w] l]; simpl; lia. Qed.

Lemma armed_later al wh d tm tm' : tm <= tm' -> armed al wh d tm -> armed al wh d tm'.
Proof. intros Ht [?|(a & ? & ? & ?)]; [by left|]. right. exists a. split; [done|lia]. Qed.

(** A later deadline needs no other setting. *)
Lemma armed_delay al wh wh' d d' tm :
  d < SYSTIME_MAX -> d <= d' -> wh <= wh' -> armed al wh d tm -> armed al wh' d' tm.
Proof. intros ? ? ? [?|(a & ? & ? & ?)]; [lia|]. right. exists a. split; [done|lia]. Qed.

Lemma armed_set s now w d tm :
  0 <= now <= tm -> now <= w < 2 ^ 64 -> w <= Z.max d (tm + 1) ->
  armed (alarm (setInterval s now (usub w now))) w d tm.
Proof.
  intros Hn Hw Hd. right. unfold setInterval. rewrite usub_small by lia. simpl.
  eexists. split; [done|]. unfold maxDecrementer.
  destruct (Z.ltb_spec 2147483647 (w - now)); simpl; [lia|].
  destruct (Z.eqb_spec (w - now) 0); lia.
Qed.

Lemma setInterval_eq s now w :
  setInterval s now w =
    mkTimer (store s) (anchor s) (when s) (dispatchTime s) (alarm (setInterval s now w)).
Proof. done. Qed.

Lemma inv_later s tm tm' l : tm <= tm' -> inv s tm l -> inv s tm' l.
Proof. intros Ht []. constructor; try done. by eapply armed_later. Qed.

Lemma inv_nodup s tm l : inv s tm l -> NoDup l.*1.
Proof. intros H. eapply chain_nodup. apply (inv_chain _ _ _ H). Qed.

Lemma inv_fuel s tm l : inv s tm l -> (length l < fuel s)%nat.
Proof. intros H. pose proof (chain_length _ _ _ (inv_chain _ _ _ H)). unfold fuel. lia. Qed.

(** An event is active exactly when it is on the queue. *)
Lemma inv_active_iff s tm l a e :
  inv s tm l -> store s !! a = Some e -> ev_when e = SYSTIME_MAX <-> a ∉ l.*1.
Proof.
  intros H Ha. split; [|by apply (inv_idle _ _ _ H)].
  intros Hw ([b w] & -> & Hin)%list_elem_of_fmap. simpl in *.
  destruct (chain_elem _ _ _ _ _ _ (inv_chain _ _ _ H) Hin) as (_ & e' & He' & Hp).
  assert (e' = e) as -> by congruence. change (payload e) with (ev_when e) in Hp.
  pose proof (inv_active _ _ _ H) as Hact. rewrite Forall_forall in Hact. specialize (Hact _ Hin).
  simpl in Hact. lia.
Qed.

Definition is_source (source : Z) (x : Z * Z) : bool := x.1 =? source.

Lemma span_source l1 source w l2 :
  NoDup (l1 ++ (source, w) :: l2).*1 ->
  span_until (is_source source) (l1 ++ (source, w) :: l2) = (l1, (source, w) :: l2).
Proof.
  intros Hnd. rewrite fmap_app in Hnd. csimpl in Hnd. apply NoDup_app in Hnd as (_ & Hd & _).
  apply span_until_intro; [|unfold is_source; simpl; apply Z.eqb_refl].
  apply Forall_forall. intros [a v] Hin. unfold is_source. simpl. apply Z.eqb_neq. intros ->.
  apply (Hd source); [|by left]. apply list_elem_of_fmap. by exists (source, v).
Qed.

(** ** reset *)

Lemma request_reset_idle s tm l now source :
  inv s tm l -> source ∉ l.*1 -> is_Some (store s !! source) -> request_reset s now source = Some s.
Proof.
  intros H Hn [e He]. unfold request_reset. rewrite He. simpl.
  by rewrite (proj2 (inv_active_iff _ _ _ _ _ H He) Hn), Z.eqb_refl.
Qed.

(** Unchaining the event of [source]. *)
Lemma unchain h p l1 source w l2 c :
  chain h p (l1 ++ (source, w) :: l2) NULL -> h !! source = Some c ->
  let h1 := <[source := set_when SYSTIME_MAX c]> h in
  if last_addr NULL l1 =? NULL then l1 = [] /\ p = source /\ chain h1 (next c) l2 NULL
  else exists pr, h1 !! last_addr NULL l1 = Some pr /\ h !! last_addr NULL l1 = Some pr /\
    chain (<[last_addr NULL l1 := set_next (next c) pr]> h1) p (l1 ++ l2) NULL.
Proof.
  intros Hc Hs h1. pose proof (chain_nodup _ _ _ Hc) as Hnd.
  destruct l1 as [|[a v] l1 _] using rev_ind.
  - simpl in *. destruct Hc as (-> & _ & c' & Hc' & _ & Hc). assert (c' = c) as -> by congruence.
    split_and!; try done. apply chain_insert_ne; [|done]. by apply NoDup_cons in Hnd as [? _].
  - rewrite last_addr_snoc. rewrite <- app_assoc in *. simpl in *.
    destruct (chain_elem _ _ _ _ a v Hc) as (Ha & pr & Hpr & _).
    { apply elem_of_app. right. by left. }
    rewrite (proj2 (Z.eqb_neq _ _) Ha). exists pr.
    assert (Hnd2 : a <> source /\ source ∉ (l1 ++ (a, v) :: l2).*1).
    { rewrite fmap_app in Hnd |- *. csimpl in *. apply NoDup_app in Hnd as (_ & Hd & Hnd).
      apply NoDup_cons in Hnd as [H1 Hnd]. apply NoDup_cons in Hnd as [H2 _].
      split; [intros ->; apply H1; by left|]. rewrite elem_of_app, elem_of_cons.
      intros [Hin|[->|Hin]]; [|apply H1; by left|done]. apply (Hd _ Hin). right. by left. }
    destruct Hnd2 as [Hne Hnin]. unfold h1. rewrite lookup_insert_ne by done.
    split; [done|]. split; [done|]. rewrite insert_insert_ne by done.
    apply chain_insert_ne; [done|]. by eapply chain_bypass.
Qed.

Lemma request_reset_active s l1 source w l2 now :
  inv s now (l1 ++ (source, w) :: l2) -> 0 <= now < 2 ^ 64 ->
  exists s', request_reset s now source = Some s' /\ inv s' now (l1 ++ l2) /\
    dom (store s') = dom (store s) /\ dispatchTime s' = dispatchTime s.
Proof.
  intros H Hnow. pose proof H as [Hc Hso Hact Hidle Hdt Hwh Hal].
  destruct (chain_elem _ _ _ _ source w Hc) as (Hs0 & c & Hcs & Hw); [apply elem_of_app; right; by left|].
  change (payload c) with (ev_when c) in Hw.
  assert (Hwm : w < SYSTIME_MAX /\ Forall (fun x => x.2 < SYSTIME_MAX) (l1 ++ l2)).
  { apply Forall_app in Hact as [Ha1 Ha2]. apply Forall_cons in Ha2 as [Hx Ha2].
    split; [done|]. by apply Forall_app. }
  destruct Hwm as [Hwm Hact']. pose proof (due_remove _ _ _ (dispatchTime s) Hso) as Hdue.
  pose proof (sorted_remove _ _ _ _ Hso) as Hso'.
  assert (Hidle' : forall h' : gmap Z event, (forall a e, a <> source -> h' !! a = Some e -> exists e', store s !! a = Some e' /\
      ev_when e = ev_when e') -> (forall e, h' !! source = Some e -> ev_when e = SYSTIME_MAX) ->
    forall a e, h' !! a = Some e -> a ∉ (l1 ++ l2).*1 -> ev_when e = SYSTIME_MAX).
  { intros h' Ha Hsrc a e He Hnin. destruct (decide (a = source)) as [->|]; [by apply Hsrc|].
    destruct (Ha a e) as (e' & He' & ->); [done..|]. apply (Hidle a); [done|].
    rewrite fmap_app in *. csimpl. rewrite elem_of_app, elem_of_cons in *. tauto. }
  unfold request_reset. rewrite Hcs. simpl. rewrite Hw.
  destruct (Z.eqb_spec w SYSTIME_MAX) as [E|_]; [lia|].
  pose proof (walk_spec (fun a _ => a =? source) (is_source source) (store s) _ NULL (anchor s) (fuel s)
    (fun _ _ _ => eq_refl) Hc (inv_fuel _ _ _ H)) as Hwk.
  rewrite (span_source l1 source w l2 (inv_nodup _ _ _ H)) in Hwk. rewrite Hwk. simpl.
  rewrite (proj2 (Z.eqb_neq _ _) Hs0), Hcs. simpl.
  pose proof (unchain _ _ _ _ _ _ c Hc Hcs) as Hun. cbv zeta in Hun. change (ev_next c) with (next c).
  destruct (Z.eqb_spec (last_addr NULL l1) NULL) as [E|E]; simpl.
  - destruct Hun as (-> & Ha & Hch). simpl in *.
    assert (Hnew : (if negb (next c =? NULL) then
       a ← <[source := set_when SYSTIME_MAX c]> (store s) !! next c;
       Some (if ev_when a <? dispatchTime s then ev_when a else dispatchTime s)
     else Some (dispatchTime s)) = Some (due l2 (dispatchTime s))).
    { destruct l2 as [|[b v] l2]; [by rewrite Hch|].
      destruct Hch as (-> & Hb & eb & Heb & Hv & _). rewrite (proj2 (Z.eqb_neq _ _) Hb), Heb. simpl.
      change (payload eb) with (ev_when eb) in Hv. rewrite Hv.
      f_equal. destruct (Z.ltb_spec v (dispatchTime s)); lia. }
    rewrite Hnew. simpl. pose proof (due_range l2 _ Hso' (proj1 Hdt)) as Hdr.
    assert (Hinv : forall wh al, 0 <= wh <= SYSTIME_MAX ->
      armed al wh (due l2 (dispatchTime s)) now ->
      inv (mkTimer (<[source := set_when SYSTIME_MAX c]> (store s)) (next c) wh (dispatchTime s) al) now l2).
    { intros wh al H1 H2. constructor; simpl; try done.
      apply (Hidle' (<[source := set_when SYSTIME_MAX c]> (store s))).
      - intros a e Hne He. rewrite lookup_insert_ne in He by done. eauto.
      - intros e He. rewrite lookup_insert_eq in He. by simplify_eq. }
    destruct (Z.ltb_spec (when s) (due l2 (dispatchTime s))) as [Hlt|Hge];
      [destruct (Z.ltb_spec now (due l2 (dispatchTime s)))|].
    + unfold SYSTIME_MAX, UMAX in *. eexists. split; [done|]. split.
      * rewrite setInterval_eq. apply Hinv; [simpl; lia|]. apply armed_set; simpl; lia.
      * simpl. split; [|done]. apply dom_insert_lookup_L. eauto.
    + eexists. split; [done|]. split; [apply Hinv; simpl; [lia|]|split; [|done]; apply dom_insert_lookup_L; eauto].
      apply (armed_delay _ (when s) _ (Z.min w (dispatchTime s))); (done || lia).
    + eexists. split; [done|]. split; [apply Hinv; simpl; [lia|]|split; [|done]; apply dom_insert_lookup_L; eauto].
      apply (armed_delay _ (when s) _ (Z.min w (dispatchTime s))); (done || lia).
  - destruct Hun as (pr & Hp1 & Hp & Hch). rewrite Hp1. simpl. eexists. split; [done|]. split; [|split; [|done]].
    + constructor; simpl; try (done || lia);
        [|by apply (armed_delay _ (when s) _ (due (l1 ++ (source, w) :: l2) (dispatchTime s)));
          [eapply due_active|..]].
      apply (Hidle' (<[last_addr NULL l1 := set_next (next c) pr]>
        (<[source := set_when SYSTIME_MAX c]> (store s)))).
      * intros a e Hne He. apply lookup_insert_Some in He as [(<- & <-)|(_ & He)]; [by eauto|].
        rewrite lookup_insert_ne in He by done. eauto.
      * intros e He. apply lookup_insert_Some in He as [(Hx & <-)|(_ & He)].
        -- rewrite Hx in Hp1. rewrite lookup_insert_eq in Hp1. by simplify_eq.
        -- rewrite lookup_insert_eq in He. by simplify_eq.
    + simpl. rewrite dom_insert_lookup_L by eauto. apply dom_insert_lookup_L. eauto.
Qed.

(** ** What the operations mean for the list of active events *)

Definition drop_ev (source : Z) (l : list (Z * Z)) : list (Z * Z) :=
  filter (fun x => x.1 <> source) l.

(** After every event that is not later: requests for the same time are served
    in the order in which they were made. *)
Definition insert_ev (source w : Z) (l : list (Z * Z)) : list (Z * Z) :=
  let '(l1, l2) := span_until (fun x => negb (x.2 <=? w)) l in l1 ++ (source, w) :: l2.

Lemma drop_ev_notin source l : source ∉ l.*1 -> drop_ev source l = l.
Proof.
  unfold drop_ev. induction l as [|[a w] l IH]; [done|]. csimpl. intros [Hne Hn]%not_elem_of_cons.
  rewrite filter_cons_True by (simpl; congruence). by rewrite IH.
Qed.

Lemma drop_ev_split source w l1 l2 :
  NoDup (l1 ++ (source, w) :: l2).*1 -> drop_ev source (l1 ++ (source, w) :: l2) = l1 ++ l2.
Proof.
  intros Hnd. rewrite fmap_app in Hnd. csimpl in Hnd. apply NoDup_app in Hnd as (_ & Hd & Hnd).
  apply NoDup_cons in Hnd as [Hn _]. pose proof (drop_ev_notin source l1) as E1.
  pose proof (drop_ev_notin source l2 Hn) as E2. unfold drop_ev in *.
  rewrite filter_app, filter_cons_False by (simpl; tauto). rewrite E2, E1; [done|].
  intros Hin. apply (Hd _ Hin). by left.
Qed.

Lemma request_reset_spec s l source now :
  inv s now l -> 0 <= now < 2 ^ 64 -> is_Some (store s !! source) ->
  exists s', request_reset s now source = Some s' /\ inv s' now (drop_ev source l) /\
    dom (store s') = dom (store s) /\ dispatchTime s' = dispatchTime s.
Proof.
  intros H Hnow Hs. destruct (decide (source ∈ l.*1)) as [Hin|Hn].
  - apply list_elem_of_fmap in Hin as ([a w] & -> & Hin). simpl in *.
    apply list_elem_of_split in Hin as (l1 & l2 & ->).
    rewrite drop_ev_split by (by eapply inv_nodup). by eapply request_reset_active.
  - exists s. rewrite drop_ev_notin by done. split; [|done]. by eapply request_reset_idle.
Qed.

(** ** absolute *)

(** Chaining [source], not on the queue, in at its place. *)
Lemma chain_in h p l1 l2 source w e :
  chain h p (l1 ++ l2) NULL -> h !! source = Some e -> source ∉ (l1 ++ l2).*1 -> source <> NULL ->
  let h2 := <[source := set_next (default NULL (fst <$> head l2)) (set_when w e)]> h in
  if last_addr NULL l1 =? NULL then l1 = [] /\ chain h2 source ((source, w) :: l2) NULL
  else exists pr, h !! last_addr NULL l1 = Some pr /\ h2 !! last_addr NULL l1 = Some pr /\
    last_addr NULL l1 <> source /\
    chain (<[last_addr NULL l1 := set_next source pr]> h2) p (l1 ++ (source, w) :: l2) NULL.
Proof.
  intros Hc Hs Hn Hs0 h2. pose proof (chain_nodup _ _ _ Hc) as Hnd.
  assert (Hhd : forall q, chain h q l2 NULL -> default NULL (fst <$> head l2) = q).
  { destruct l2 as [|[b v] l2]; simpl; [done|]. by intros q [-> _]. }
  destruct l1 as [|[a v] l1 _] using rev_ind.
  - simpl in *. split; [done|]. split; [done|]. split; [done|].
    exists (set_next (default NULL (fst <$> head l2)) (set_when w e)). unfold h2.
    rewrite lookup_insert_eq. split; [done|]. split; [done|]. rewrite next_set_next.
    apply chain_insert_ne; [done|]. by rewrite (Hhd p).
  - rewrite last_addr_snoc. rewrite <- app_assoc in *. simpl in *.
    destruct (chain_elem _ _ _ _ a v Hc) as (Ha & pr & Hpr & _).
    { apply elem_of_app. right. by left. }
    rewrite (proj2 (Z.eqb_neq _ _) Ha). exists pr.
    assert (Hne : a <> source).
    { intros ->. apply Hn. rewrite fmap_app. apply elem_of_app. right. by left. }
    split; [done|]. unfold h2. rewrite lookup_insert_ne by done. split; [done|]. split; [done|].
    set (ne := set_next (default NULL (fst <$> head l2)) (set_when w e)).
    assert (Hne' : next ne = next pr).
    { unfold ne. rewrite next_set_next. apply Hhd.
      apply chain_app in Hc as (m & _ & Hc). simpl in Hc. destruct Hc as (-> & _ & pr' & Hp' & _ & Hc).
      by assert (pr' = pr) as -> by congruence. }
    exact (chain_link_in h p l1 a v l2 pr source ne Hc Hpr Hn Hs0 Hne').
Qed.

Lemma walk_later s tm l h w n :
  chain h (anchor s) l NULL -> (length l < n)%nat -> inv s tm l ->
  let '(l1, l2) := span_until (fun x => negb (x.2 <=? w)) l in
  walk (fun _ e => negb (ev_when e <=? w)) n h NULL (anchor s)
  = Some (last_addr NULL l1, default NULL (fst <$> head l2)).
Proof.
  intros Hc Hn H.
  exact (walk_spec (fun _ e => negb (ev_when e <=? w)) (fun x => negb (x.2 <=? w)) h l NULL (anchor s) n
    (fun _ _ _ => eq_refl) Hc Hn).
Qed.

Lemma due_insert l1 a w l2 dt :
  l1 <> [] -> due (l1 ++ (a, w) :: l2) dt = due (l1 ++ l2) dt.
Proof. by destruct l1 as [|[b v] l1]. Qed.

(** Inserting an event that is not on the queue. *)
Lemma request_insert_spec s l source e now tm w :
  inv s tm l -> store s !! source = Some e -> source ∉ l.*1 -> source <> NULL ->
  0 <= now <= tm -> tm < 2 ^ 64 -> 0 <= w < SYSTIME_MAX ->
  exists s',
    (let h1 := <[source := set_when w e]> (store s) in
     '(prev, cur) ← walk (fun _ e => negb (ev_when e <=? w)) (fuel s) h1 NULL (anchor s);
     src2 ← h1 !! source;
     let h2 := <[source := set_next cur src2]> h1 in
     if negb (prev =? NULL) then
       p ← h2 !! prev;
       Some (set_store s (<[prev := set_next source p]> h2) (anchor s))
     else
       let s2 := set_store s h2 source in
       if w <? dispatchTime s2 then
         let w' := if w <? now then now else w in
         Some (setInterval (set_time s2 w') now (usub w' now))
       else Some s2) = Some s' /\
    inv s' tm (insert_ev source w l) /\ dom (store s') = dom (store s) /\ dispatchTime s' = dispatchTime s.
Proof.
  intros H He Hn Hs0 Hnow Htm Hw. pose proof H as [Hc Hso Hact Hidle Hdt Hwh Hal].
  cbv zeta. assert (Hc1 : chain (<[source := set_when w e]> (store s)) (anchor s) l NULL)
    by by apply chain_insert_ne.
  pose proof (walk_later _ _ _ _ w (fuel s) Hc1 (inv_fuel _ _ _ H) H) as Hwk. unfold insert_ev.
  destruct (span_until _ l) as [l1 l2] eqn:E. rewrite Hwk. cbn [mbind option_bind].
  rewrite lookup_insert_eq. cbn [mbind option_bind]. rewrite insert_insert_eq.
  pose proof (span_until_app _ _ _ _ E) as El. pose proof (span_until_fail _ _ _ _ E) as Ef.
  assert (Hso' : sorted 0 (l1 ++ (source, w) :: l2)).
  { apply sorted_insert; [by rewrite <- El|lia| |].
    - eapply Forall_impl; [exact Ef|]. intros [a v]; simpl. rewrite negb_false_iff. lia.
    - destruct l2 as [|[a v] l2]; [done|]. apply span_until_head in E. simpl in *.
      rewrite negb_true_iff in E. lia. }
  assert (Hact' : Forall (fun x => x.2 < SYSTIME_MAX) (l1 ++ (source, w) :: l2)).
  { rewrite El in Hact. apply Forall_app in Hact as [? ?]. apply Forall_app. split; [done|].
    apply Forall_cons. split; [simpl; lia|done]. }
  assert (Hidle' : forall h' : gmap Z event, (forall a x, a <> source -> h' !! a = Some x ->
      exists x', store s !! a = Some x' /\ ev_when x = ev_when x') ->
    forall a x, h' !! a = Some x -> a ∉ (l1 ++ (source, w) :: l2).*1 -> ev_when x = SYSTIME_MAX).
  { intros h' Hh a x Hx Hnin. rewrite fmap_app in Hnin. csimpl in Hnin.
    apply not_elem_of_app in Hnin as [N1 N2]. apply not_elem_of_cons in N2 as [N2 N3].
    destruct (Hh a x) as (x' & Hx' & ->); [congruence|done|]. apply (Hidle a); [done|].
    rewrite El, fmap_app. apply not_elem_of_app. done. }
  rewrite El in Hc, Hn. pose proof (chain_in _ _ _ _ source w e Hc He Hn Hs0) as Hin. cbv zeta in Hin.
  destruct (Z.eqb_spec (last_addr NULL l1) NULL) as [E0|E0]; cbn [negb].
  - destruct Hin as (-> & Hch). simpl app in *. subst l2.
    assert (Hinv : forall wh al, 0 <= wh <= SYSTIME_MAX ->
      armed al wh (due ((source, w) :: l) (dispatchTime s)) tm ->
      inv (mkTimer (<[source := set_next (default NULL (fst <$> head l)) (set_when w e)]> (store s))
        source wh (dispatchTime s) al) tm ((source, w) :: l)).
    { intros wh al H1 H2. constructor; simpl; try done. apply Hidle'.
      intros a x Hne Hx. rewrite lookup_insert_ne in Hx by done. eauto. }
    pose proof (due_range l _ Hso (proj1 Hdt)). simpl in *.
    destruct (Z.ltb_spec w (dispatchTime s)); eexists; (split; [done|]).
    + split; [|split; [apply dom_insert_lookup_L; eauto|done]].
      rewrite setInterval_eq. unfold SYSTIME_MAX, UMAX in *.
      cbn [set_time set_store store anchor when dispatchTime].
      apply Hinv; [destruct (Z.ltb_spec w now); lia|].
      apply armed_set; destruct (Z.ltb_spec w now); lia.
    + split; [|split; [apply dom_insert_lookup_L; eauto|done]]. apply Hinv; simpl; [lia|].
      apply (armed_delay _ (when s) _ (due l (dispatchTime s))); (done || lia).
  - destruct Hin as (pr & Hp & Hp2 & Hne & Hch). rewrite Hp2. cbn [mbind option_bind].
    eexists. split; [done|]. split; [|split; [|done]].
    + constructor; simpl; try (done || lia).
      * apply Hidle'. intros a x Hx Ha. apply lookup_insert_Some in Ha as [(<- & <-)|(_ & Ha)]; [by eauto|].
        rewrite lookup_insert_ne in Ha by done. eauto.
      * rewrite due_insert by (by intros ->). by rewrite <- El.
    + simpl. rewrite dom_insert_lookup_L by eauto. apply dom_insert_lookup_L. eauto.
Qed.

Lemma request_absolute_spec s l source now now2 w :
  inv s now2 l -> 0 <= now <= now2 -> now2 < 2 ^ 64 -> is_Some (store s !! source) -> source <> NULL ->
  0 <= w < SYSTIME_MAX ->
  exists s', request_absolute s now now2 w source = Some s' /\
    inv s' now2 (insert_ev source w (drop_ev source l)) /\
    dom (store s') = dom (store s) /\ dispatchTime s' = dispatchTime s.
Proof.
  intros H Hnow Hnow2 Hs Hs0 Hw.
  assert (Hr : exists s1, (e ← store s !! source;
      if negb (ev_when e =? SYSTIME_MAX) then request_reset s now2 source else Some s) = Some s1 /\
    inv s1 now2 (drop_ev source l) /\ dom (store s1) = dom (store s) /\ dispatchTime s1 = dispatchTime s).
  { destruct Hs as [e He]. rewrite He. simpl.
    destruct (Z.eqb_spec (ev_when e) SYSTIME_MAX) as [Ee|_]; simpl.
    - exists s. rewrite drop_ev_notin by (by eapply inv_active_iff). done.
    - eapply request_reset_spec; [done|lia|eauto]. }
  destruct Hr as (s1 & Hs1 & H1 & Hd1 & Ht1). destruct Hs as [e He]. unfold request_absolute.
  rewrite He in Hs1 |- *. cbn [mbind option_bind] in *. rewrite Hs1. cbn [mbind option_bind].
  assert (exists e1, store s1 !! source = Some e1) as [e1 He1].
  { apply elem_of_dom. rewrite Hd1. apply elem_of_dom. eauto. }
  rewrite He1. cbn [mbind option_bind].
  destruct (request_insert_spec s1 _ source e1 now now2 w H1 He1) as (s' & Hs' & H' & Hd' & Ht'); [|done|lia|lia|lia|].
  { intros ([a v] & Ha & Hin)%list_elem_of_fmap. apply list_elem_of_filter in Hin as [? _]. done. }
  exists s'. split; [exact Hs'|]. split; [done|]. split; congruence.
Qed.

(** ** Dispatch time *)

(** The comparison made with the first event of the queue. *)
Lemma first_spec h p l dt :
  chain h p l NULL ->
  (if negb (p =? NULL) then a ← h !! p; Some (if ev_when a <? dt then ev_when a else dt) else Some dt)
  = Some (due l dt).
Proof.
  destruct l as [|[b v] l]; simpl; [by intros ->|].
  intros (-> & Hb & eb & Heb & Hv & _). rewrite (proj2 (Z.eqb_neq _ _) Hb), Heb. simpl.
  change (payload eb) with (ev_when eb) in Hv. rewrite Hv. f_equal. destruct (Z.ltb_spec v dt); lia.
Qed.

Lemma setDispatchTime_spec s l now quantum :
  inv s now l -> 0 <= now -> 0 <= quantum -> now + quantum < 2 ^ 64 ->
  exists s', setDispatchTime s now quantum = Some s' /\ inv s' now l /\
    store s' = store s /\ dispatchTime s' = now + quantum.
Proof.
  intros [Hc Hso Hact Hidle Hdt Hwh Hal] Hn Hq Hlt. unfold setDispatchTime.
  rewrite (uadd_small now quantum) by lia. cbn [anchor store when dispatchTime].
  assert (Hinv : forall wh al, 0 <= wh <= SYSTIME_MAX ->
    armed al wh (due l (now + quantum)) now ->
    inv (mkTimer (store s) (anchor s) wh (now + quantum) al) now l).
  { intros wh al H1 H2. constructor; simpl; try done. unfold SYSTIME_MAX, UMAX in *. lia. }
  assert (Hlate : exists s', Some (setInterval (mkTimer (store s) (anchor s) (now + quantum) (now + quantum)
      (alarm s)) now quantum) = Some s' /\ (now + quantum <= due l (now + quantum) ->
      inv s' now l /\ store s' = store s /\ dispatchTime s' = now + quantum)).
  { eexists. split; [done|]. intros Hdue. split; [|done]. rewrite setInterval_eq.
    apply Hinv; [simpl; unfold SYSTIME_MAX, UMAX; lia|].
    assert (Eq : usub (now + quantum) now = quantum) by (rewrite usub_small; lia).
    pose proof (armed_set s now (now + quantum) (due l (now + quantum)) now) as Ha.
    rewrite Eq in Ha. apply Ha; lia. }
  destruct Hlate as (sl & Esl & Hsl).
  destruct l as [|[b v] l]; simpl in Hc.
  - rewrite Hc in *. simpl in *. exists sl. split; [exact Esl|]. apply Hsl. lia.
  - destruct Hc as (Hb & Hb0 & eb & Heb & Hv & _). rewrite Hb in *.
    rewrite (proj2 (Z.eqb_neq _ _) Hb0), Heb. simpl. change (payload eb) with (ev_when eb) in Hv.
    rewrite Hv. destruct Hso as [Hv0 _]. simpl in *.
    destruct (Z.ltb_spec v (now + quantum)) as [Hl|Hl]; simpl;
      [|exists sl; split; [exact Esl|]; apply Hsl; lia].
    destruct (Z.eqb_spec (when s) v) as [Ev|Ev]; simpl; eexists; (split; [done|]); (split; [|done]).
    + apply Hinv; [lia|]. destruct Hal as [?|(a & Ha & ? & ?)].
      { apply Forall_cons in Hact as [? _]. simpl in *. lia. }
      right. exists a. split; [done|lia].
    + rewrite setInterval_eq. unfold SYSTIME_MAX, UMAX in *. simpl.
      apply Hinv; [destruct (Z.ltb_spec v now); lia|].
      apply (armed_set s); destruct (Z.ltb_spec v now); lia.
Qed.

(** ** The timer interrupt *)

Definition later (now : Z) (x : Z * Z) : bool := negb (x.2 <=? now).

Lemma deliver_spec n h now cur l :
  chain h cur l NULL -> (length l < n)%nat ->
  let '(l1, l2) := span_until (later now) l in
  exists h' cur', deliver n h now cur = Some (l1.*1, h', cur') /\ chain h' cur' l2 NULL /\
    dom h' = dom h /\
    forall a e, h' !! a = Some e ->
      (a ∈ l1.*1 /\ ev_when e = SYSTIME_MAX) \/ (a ∉ l1.*1 /\ h !! a = Some e).
Proof.
  revert h cur l. induction n as [|n IH]; intros h cur l Hc Hn; [lia|].
  destruct l as [|[b v] l]; cbn [span_until].
  - simpl in Hc. subst cur. exists h, NULL. simpl. split; [done|]. split; [done|]. split; [done|].
    intros a e He. right. split; [apply not_elem_of_nil|done].
  - pose proof (chain_nodup _ _ _ Hc) as Hnd. csimpl in Hnd. apply NoDup_cons in Hnd as [Hbn _].
    simpl in Hc. pose proof Hc as (-> & Hb & eb & Heb & Hv & Hc').
    unfold later at 1. simpl. rewrite (proj2 (Z.eqb_neq _ _) Hb), Heb. simpl.
    change (payload eb) with (ev_when eb) in Hv. rewrite Hv.
    destruct (Z.leb_spec v now) as [Hl|Hl]; simpl.
    + specialize (IH (<[b := set_when SYSTIME_MAX eb]> h) (next eb) l).
      destruct (span_until (later now) l) as [l1 l2] eqn:E.
      destruct IH as (h' & cur' & Hd & Hch & Hdom & Hin); [by apply chain_insert_ne|simpl in *; lia|].
      exists h', cur'. change (ev_next eb) with (next eb). rewrite Hd. simpl. split; [done|]. split; [done|].
      split; [rewrite Hdom; apply dom_insert_lookup_L; eauto|].
      intros a e He. destruct (Hin a e He) as [[Ha Hw]|[Ha Hw]]; [left; split; [by right|done]|].
      apply lookup_insert_Some in Hw as [(-> & <-)|(Hne & Hw)].
      * left. split; [by left|done].
      * right. split; [|done]. by apply not_elem_of_cons.
    + exists h, b. split; [done|]. split; [exact Hc|]. split; [done|]. intros a e He. right.
      split; [apply not_elem_of_nil|done].
Qed.

Lemma span_later_sorted lo l now :
  sorted lo l -> span_until (later now) l
  = (filter (fun x => x.2 <= now) l, filter (fun x => now < x.2) l).
Proof.
  revert lo. induction l as [|[a w] l IH]; intros lo; [done|]. intros [Hlo Hs]. cbn [span_until].
  unfold later at 1. simpl. destruct (Z.leb_spec w now) as [Hl|Hl]; simpl.
  - rewrite (IH w) by done. rewrite filter_cons_True by done. rewrite filter_cons_False by (simpl; lia). done.
  - assert (Hall : forall lo l, now < lo -> sorted lo l ->
      filter (fun x : Z * Z => x.2 <= now) l = [] /\ filter (fun x : Z * Z => now < x.2) l = l).
    { clear. intros lo l. revert lo. induction l as [|[a w] l IH]; [done|]. intros lo Hlo [? ?].
      rewrite filter_cons_False by (simpl; lia). rewrite filter_cons_True by (simpl; lia).
      destruct (IH w) as [-> E]; [lia|done|]. split; [done|by rewrite E]. }
    destruct (Hall w l Hl Hs) as [E1 E2]. rewrite filter_cons_False by (simpl; lia).
    rewrite filter_cons_True by (simpl; lia). by rewrite E1, E2.
Qed.

Lemma sorted_filter_later lo l now : sorted lo l -> sorted lo (filter (fun x => now < x.2) l).
Proof.
  revert lo. induction l as [|[a w] l IH]; intros lo; [done|]. intros [Hlo Hs].
  rewrite filter_cons. case_decide; simpl; [by auto|].
  apply (sorted_weaken w); [done|]. by apply IH.
Qed.

Lemma due_later l now dt : now < dt -> now < due (filter (fun x => now < x.2) l) dt.
Proof.
  intros Hdt. destruct (filter _ l) as [|[a w] l'] eqn:E; [done|].
  assert (Hin : (a, w) ∈ filter (fun x : Z * Z => now < x.2) l) by (rewrite E; by left).
  apply list_elem_of_filter in Hin as [? _]. simpl in *. lia.
Qed.

Lemma timerInterrupt_spec s l tm now :
  inv s tm l -> 0 <= now < SYSTIME_MAX ->
  exists s', timerInterrupt s now
      = Some ((filter (fun x => x.2 <= now) l).*1, dispatchTime s <=? now, s') /\
    inv s' now (filter (fun x => now < x.2) l) /\ dom (store s') = dom (store s) /\
    dispatchTime s' = (if dispatchTime s <=? now then SYSTIME_MAX else dispatchTime s).
Proof.
  intros H Hn. pose proof H as [Hc Hso Hact Hidle Hdt Hwh Hal]. unfold timerInterrupt.
  pose proof (deliver_spec (fuel s) _ now _ _ Hc (inv_fuel _ _ _ H)) as Hd.
  rewrite (span_later_sorted 0) in Hd by done. destruct Hd as (h & cur & Hd & Hch & Hdom & Hin).
  rewrite Hd. cbn [mbind option_bind].
  set (l2 := filter (fun x : Z * Z => now < x.2) l) in *.
  set (dt := if dispatchTime s <=? now then SYSTIME_MAX else dispatchTime s) in *.
  assert (Hdt' : now < dt <= SYSTIME_MAX).
  { unfold dt. destruct (Z.leb_spec (dispatchTime s) now); lia. }
  pose proof (first_spec h cur l2 dt Hch) as Hf. rewrite Hf. cbn [mbind option_bind].
  pose proof (due_later l now dt (proj1 Hdt')) as Hlt. fold l2 in Hlt.
  assert (Hs2 : sorted 0 l2) by by apply sorted_filter_later.
  pose proof (due_range l2 dt Hs2) as Hr.
  eexists. split; [done|]. rewrite setInterval_eq. split; [|done].
  unfold SYSTIME_MAX, UMAX in *.
  constructor; simpl; unfold SYSTIME_MAX, UMAX; try (done || lia).
  - apply Forall_forall. intros x Hx. unfold l2 in Hx. apply list_elem_of_filter in Hx as [_ Hx].
    rewrite Forall_forall in Hact. by apply Hact.
  - intros a e He Ha. destruct (Hin a e He) as [[_ Hw]|[Hn1 Hw]]; [done|].
    apply (Hidle a); [done|]. intros ([b v] & -> & Hx)%list_elem_of_fmap.
    destruct (decide (v <= now)).
    + apply Hn1, list_elem_of_fmap. exists (b, v). split; [done|]. by apply list_elem_of_filter.
    + apply Ha, list_elem_of_fmap. exists (b, v). split; [done|].
      apply list_elem_of_filter. split; [simpl; lia|done].
  - apply (armed_set s); lia.
Qed.

(** ** Sequences of operations *)

Inductive op :=
| OpRequest (now now2 whenTime : Z) (kind : Kind) (source : Z)
| OpDispatch (now quantum : Z)
| OpInterrupt (now : Z).

(** What a call returns: the time, or the interrupts it raises. *)
Inductive result := RTime (now : Z) | RDone | RIntr (ds : list Z) (timeout : bool).

Definition step (tps : Z) (s : t) (o : op) : option (result * t) :=
  match o with
  | OpRequest now now2 w k src => '(r, s') ← timerRequest tps s now now2 w k src; Some (RTime r, s')
  | OpDispatch now q => s' ← setDispatchTime s now q; Some (RDone, s')
  | OpInterrupt now => '(ds, tm, s') ← timerInterrupt s now; Some (RIntr ds tm, s')
  end.

Fixpoint run (tps : Z) (s : t) (os : list op) : option (list result * t) :=
  match os with
  | [] => Some ([], s)
  | o :: os => '(r, s1) ← step tps s o; '(rs, s2) ← run tps s1 os; Some (r :: rs, s2)
  end.

(** The specification: the pending events and the dispatch deadline. *)
Definition a_later (source w : Z) (l : list (Z * Z)) : bool :=
  bool_decide (Exists (fun x => x.1 = source /\ x.2 < w) l).

Definition a_request (tps : Z) (l : list (Z * Z)) (now w : Z) (k : Kind) (source : Z)
  : Z * list (Z * Z) :=
  match k with
  | otherKind => (0, l)
  | queryTicksPerSecond => (tps, l)
  | queryNow => (now, l)
  | reset => (now, drop_ev source l)
  | absolute => (now, insert_ev source w (drop_ev source l))
  | relative =>
      (now, if a_later source (now + w) l then l else insert_ev source (now + w) (drop_ev source l))
  end.

Definition a_step (tps : Z) (a : list (Z * Z) * Z) (o : op) : result * (list (Z * Z) * Z) :=
  let '(l, dt) := a in
  match o with
  | OpRequest now _ w k source => let '(r, l') := a_request tps l now w k source in (RTime r, (l', dt))
  | OpDispatch now q => (RDone, (l, now + q))
  | OpInterrupt now =>
      (RIntr (filter (fun x => x.2 <= now) l).*1 (dt <=? now),
       (filter (fun x => now < x.2) l, if dt <=? now then SYSTIME_MAX else dt))
  end.

Fixpoint a_run (tps : Z) (a : list (Z * Z) * Z) (os : list op) : list result * (list (Z * Z) * Z) :=
  match os with
  | [] => ([], a)
  | o :: os => let '(r, a1) := a_step tps a o in let '(rs, a2) := a_run tps a1 os in (r :: rs, a2)
  end.

(** The time an operation ends at. *)
Definition op_end (o : op) : Z :=
  match o with OpRequest _ now2 _ _ _ => now2 | OpDispatch now _ => now | OpInterrupt now => now end.

(** Operations on the annexes [dom], their clock readings not decreasing, and
    no deadline at or beyond the last representable time. *)
Definition op_ok (h : gset Z) (tm : Z) (o : op) : Prop :=
  match o with
  | OpRequest now now2 w k src =>
      tm <= now /\ now <= now2 /\ now2 < SYSTIME_MAX /\ src ∈ h /\ src <> NULL /\ 0 <= w /\
      w + (if k is relative then now else 0) < SYSTIME_MAX
  | OpDispatch now q => tm <= now /\ 0 <= q /\ now + q < SYSTIME_MAX
  | OpInterrupt now => tm <= now /\ now < SYSTIME_MAX
  end.

Fixpoint ops_ok (h : gset Z) (tm : Z) (os : list op) : Prop :=
  match os with [] => True | o :: os => op_ok h tm o /\ ops_ok h (op_end o) os end.

Lemma a_later_spec s tm l source e w :
  inv s tm l -> store s !! source = Some e -> 0 <= w < SYSTIME_MAX ->
  Z.ltb (ev_when e) w = a_later source w l.
Proof.
  intros H He Hw. unfold a_later. destruct (decide (source ∈ l.*1)) as [Hin|Hn].
  - apply list_elem_of_fmap in Hin as ([a v] & -> & Hin). simpl in *.
    destruct (chain_elem _ _ _ _ _ _ (inv_chain _ _ _ H) Hin) as (_ & e' & He' & Hp).
    assert (e' = e) as -> by congruence. change (payload e) with (ev_when e) in Hp. rewrite Hp.
    apply eq_bool_prop_intro. rewrite Is_true_true, bool_decide_spec, Exists_exists, Z.ltb_lt. split.
    + intros. exists (a, v). done.
    + intros ([a' v'] & Hin' & <- & ?). simpl in *.
      destruct (chain_elem _ _ _ _ _ _ (inv_chain _ _ _ H) Hin') as (_ & e2 & He2 & Hp2).
      assert (e2 = e) as -> by congruence. change (payload e) with (ev_when e) in Hp2. lia.
  - rewrite (proj2 (inv_active_iff _ _ _ _ _ H He) Hn).
    destruct (Z.ltb_spec SYSTIME_MAX w); [lia|]. symmetry. apply bool_decide_eq_false.
    intros ([a v] & Hin & <- & _)%Exists_exists. apply Hn, list_elem_of_fmap. by exists (a, v).
Qed.

Lemma timerRequest_spec tps s l tm now now2 w k source :
  inv s tm l -> 0 <= tm -> op_ok (dom (store s)) tm (OpRequest now now2 w k source) ->
  exists s', timerRequest tps s now now2 w k source
      = Some ((a_request tps l now w k source).1, s') /\
    inv s' now2 (a_request tps l now w k source).2 /\
    dom (store s') = dom (store s) /\ dispatchTime s' = dispatchTime s.
Proof.
  intros H Htm (H1 & H2 & H3 & Hsrc & Hs0 & Hw & Hk).
  assert (Hn : inv s now l) by (by apply (inv_later s tm)).
  assert (Hn2 : inv s now2 l) by (by apply (inv_later s now)).
  apply elem_of_dom in Hsrc. unfold SYSTIME_MAX, UMAX in *.
  destruct k; simpl a_request; cbn [fst snd]; unfold timerRequest; try (exists s; done).
  - destruct (request_reset_spec s l source now) as (s' & -> & Hi & Hd); [done|lia|done|].
    exists s'. split; [done|]. split; [by apply (inv_later _ now)|done].
  - destruct (request_absolute_spec s l source now now2 w) as (s' & -> & Hi & Hd);
      [done|lia|lia|done|done|unfold SYSTIME_MAX, UMAX; lia|].
    by exists s'.
  - rewrite (uadd_small w now) by lia. rewrite (Z.add_comm w now). pose proof Hsrc as [e He].
    rewrite He. cbn [mbind option_bind].
    rewrite (a_later_spec s tm l source e (now + w)) by (done || unfold SYSTIME_MAX, UMAX; lia).
    destruct (a_later source (now + w) l); [by exists s|].
    destruct (request_absolute_spec s l source now now2 (now + w)) as (s' & -> & Hi & Hd);
      [done|lia|lia|done|done|unfold SYSTIME_MAX, UMAX; lia|].
    by exists s'.
Qed.

Lemma step_refines tps s l tm o :
  inv s tm l -> 0 <= tm -> op_ok (dom (store s)) tm o ->
  exists r s' l' dt', step tps s o = Some (r, s') /\ a_step tps (l, dispatchTime s) o = (r, (l', dt')) /\
    inv s' (op_end o) l' /\ dom (store s') = dom (store s) /\ dispatchTime s' = dt' /\ tm <= op_end o.
Proof.
  intros H Htm Hok. destruct o as [now now2 w k source|now q|now]; simpl.
  - destruct (timerRequest_spec tps s l tm now now2 w k source H Htm Hok) as (s' & Es & Hi & Hd & Ht).
    rewrite Es. destruct Hok as (? & ? & _). simpl. destruct (a_request _ _ _ _ _ _) as [r l'].
    exists (RTime r), s', l', (dispatchTime s). repeat (split; [done|]). lia.
  - destruct Hok as (H1 & H2 & H3). unfold SYSTIME_MAX, UMAX in *.
    destruct (setDispatchTime_spec s l now q) as (s' & -> & Hi & Hst & Ht); [by apply (inv_later _ tm)|lia..|].
    exists RDone, s', l, (now + q). rewrite Hst. repeat (split; [done|]). done.
  - destruct Hok as (H1 & H2).
    destruct (timerInterrupt_spec s l tm now) as (s' & -> & Hi & Hd & Ht); [done|lia|].
    eexists _, s', _, _. split; [done|]. split; [done|]. repeat (split; [done|]). done.
Qed.

(** The time at which a sequence of operations ends. *)
Fixpoint end_time (tm : Z) (os : list op) : Z :=
  match os with [] => tm | o :: os => end_time (op_end o) os end.


Definition ex_store : gmap Z event :=
  <[16 := mkEvent SYSTIME_MAX 0]> (<[32 := mkEvent SYSTIME_MAX 0]> {[48 := mkEvent SYSTIME_MAX 0]}).

Definition ex_ops : list op :=
  [OpRequest 5 5 100 absolute 16; OpRequest 6 6 50 relative 32; OpDispatch 7 40; OpRequest 8 9 100 absolute 48;
   OpInterrupt 60; OpRequest 61 61 0 reset 16; OpInterrupt 100].

Lemma init_inv h :
  (forall a e, h !! a = Some e -> ev_when e = SYSTIME_MAX) -> inv (init h) 0 [].
Proof.
  intros Hh. constructor; simpl; try done.
  - eauto.
  - by left.
Qed.


(** ** Requests for the last representable time *)

Lemma walk_cycle n h prev source e :
  h !! source = Some e -> ev_next e = source -> ev_when e = SYSTIME_MAX -> source <> NULL ->
  walk (fun _ e => negb (ev_when e <=? SYSTIME_MAX)) n h prev source = None.
Proof.
  intros He Hn Hw Hs. revert prev. induction n as [|n IH]; intros prev; [done|].
  unfold walk; fold (@walk event Z event_linked).
  rewrite (proj2 (Z.eqb_neq _ _) Hs), He. simpl. rewrite Hw. simpl. change (next e) with (ev_next e). rewrite Hn. apply IH.
Qed.

(** An absolute request for the time -1, the value that also marks an event
    as inactive, is chained but looks inactive: a second such request does not
    unchain the event first and links it to itself, and the walk made by the
    third never ends, for any bound on its number of steps. *)
Theorem request_max_cycles source nxt now :
  source <> NULL ->
  exists s1 s2, request_absolute (init {[source := mkEvent SYSTIME_MAX nxt]}) now now SYSTIME_MAX source = Some s1 /\
    request_absolute s1 now now SYSTIME_MAX source = Some s2 /\
    (forall n h, h !! source = store s2 !! source -> anchor s2 = source /\
      walk (fun _ e => negb (ev_when e <=? SYSTIME_MAX)) n h NULL (anchor s2) = None).
Proof.
  intros Hs. pose proof (proj2 (Z.eqb_neq _ _) Hs) as Hs'.
  set (e1 := mkEvent SYSTIME_MAX NULL). set (e2 := mkEvent SYSTIME_MAX source).
  assert (Hf : forall e p w d a, fuel (mkTimer {[source := e]} p w d a) = 2%nat).
  { intros. unfold fuel. simpl. by rewrite map_size_singleton. }
  exists (mkTimer {[source := e1]} source SYSTIME_MAX SYSTIME_MAX None).
  exists (mkTimer {[source := e2]} source SYSTIME_MAX SYSTIME_MAX None).
  split; [|split].
  - unfold request_absolute, init. simpl. rewrite lookup_singleton_eq. simpl.
    rewrite lookup_singleton_eq. simpl. rewrite insert_singleton_eq, lookup_singleton_eq. simpl.
    by rewrite insert_singleton_eq.
  - unfold request_absolute. simpl. rewrite lookup_singleton_eq. simpl.
    rewrite lookup_singleton_eq. simpl. rewrite insert_singleton_eq, Hf.
    unfold walk. simpl. rewrite Hs', lookup_singleton_eq. simpl.
    rewrite Hs', insert_singleton_eq. simpl. rewrite lookup_singleton_eq. simpl.
    by rewrite insert_singleton_eq.
  - intros n h Hh. split; [done|]. simpl in Hh. rewrite lookup_singleton_eq in Hh.
    by apply (walk_cycle n h NULL source e2).
Qed.

Lemma request_max_cycles_witness :
  exists s1 s2, request_absolute (init {[4096 := mkEvent SYSTIME_MAX 0]}) 9 9 SYSTIME_MAX 4096 = Some s1 /\
    request_absolute s1 9 9 SYSTIME_MAX 4096 = Some s2 /\
    (forall n h, h !! 4096 = store s2 !! 4096 -> anchor s2 = 4096 /\
      walk (fun _ e => negb (ev_when e <=? SYSTIME_MAX)) n h NULL (anchor s2) = None).
Proof. apply (request_max_cycles 4096 0 9). done. Defined.

(** ** Time of day *)

(** The epoch computed by setTOD is normalised (its microseconds are below
    one million although the intermediate subtraction wraps around) and, added
    to the time the clock has been running, rounded down to microseconds, gives
    the time of day it was called with. *)
Theorem setTOD_epoch now tps sec usec :
  0 <= now < 2 ^ 64 -> 0 < tps -> tps * 1000000 <= 2 ^ 64 -> now / tps < sec < 2 ^ 64 ->
  0 <= usec < 1000000 ->
  let '(es, eu) := setTOD now tps sec usec in
  0 <= es /\ 0 <= eu < 1000000 /\
  (es * 1000000 + eu) + now * 1000000 / tps = sec * 1000000 + usec.
Proof.
  intros Hn Ht Htm Hsec Hu. unfold setTOD.
  pose proof (Z.mod_pos_bound now tps Ht) as Hm. pose proof (Z_div_pos now tps) as Hd.
  assert (Hq : 0 <= (now mod tps) * 1000000 / tps < 1000000).
  { split; [apply Z.div_pos; lia|]. apply Z.div_lt_upper_bound; lia. }
  assert (Hdec : now * 1000000 / tps = now / tps * 1000000 + (now mod tps) * 1000000 / tps).
  { rewrite (Z.div_mod now tps) at 1 by lia.
    replace ((tps * (now / tps) + now mod tps) * 1000000)
      with ((now / tps) * 1000000 * tps + (now mod tps) * 1000000) by lia.
    by rewrite Z.div_add_l by lia. }
  rewrite umul_small by lia. rewrite Hdec.
  set (q := (now mod tps) * 1000000 / tps) in *. set (d := now / tps) in *.
  destruct (Z.ltb_spec usec q) as [Hlt|Hge].
  - rewrite (uadd_small d 1), (usub_small sec) by lia.
    assert (E : usub usec (usub q 1000000) = usec - q + 1000000).
    { unfold usub, uwrap. rewrite Zminus_mod_idemp_r, Z.mod_small; lia. }
    rewrite E. lia.
  - rewrite (usub_small sec), (usub_small usec) by lia. lia.
Qed.

Lemma setTOD_epoch_witness :
  let '(es, eu) := setTOD 123456789 1000000 999999 17 in
  0 <= es /\ 0 <= eu < 1000000 /\
  (es * 1000000 + eu) + 123456789 * 1000000 / 1000000 = 999999 * 1000000 + 17.
Proof. apply (setTOD_epoch 123456789 1000000 999999 17); (lia || (vm_compute; split; done)). Defined.

End KernelTimer.
