(* ===== verification/PageTree.v ===== *)
(** * PageTree: the tree of free blocks of the page allocator,
    lib/libc/alloc/PageAllocatorDefault.C

    A Cartesian tree: ordered by address from low to high and by size from the
    root down.  A node keeps the address [p] at which it is stored, because the
    nodes live in pages the allocator takes from the memory it manages.  The
    source updates the tree through a pointer [top] to the pointer to the
    current node; here a position in the tree is a path and a subtree, and
    [*top = x] is [plug path x]. *)

From stdpp Require Import base numbers option gmap sorting list.
From S2P Require Import K42 Prelude.

Module PageTree.

(** Normalise concatenations to the right. *)
Ltac app_norm := do 3 (rewrite <- ?app_assoc; cbn [app]).

Inductive tree := Null | Node (p : Z) (low : tree) (start size : Z) (high : tree).

Definition is_null (t : tree) : bool := match t with Null => true | _ => false end.

(** Where [top] points: into the low or the high field of an enclosing node. *)
Inductive frame :=
| InLow (p start size : Z) (high : tree)
| InHigh (p : Z) (low : tree) (start size : Z).

Definition path := list frame.

Fixpoint plug (k : path) (t : tree) : tree :=
  match k with
  | [] => t
  | InLow p s n high :: k => plug k (Node p t s n high)
  | InHigh p low s n :: k => plug k (Node p low s n t)
  end.

(** merge: the addresses in [low] are all below those in [high]. *)
Fixpoint merge (low : tree) : tree -> tree :=
  fix merge_high (high : tree) : tree :=
    match low, high with
    | Node pl ll sl nl hl, Node ph lh sh nh hh =>
        if nh <? nl then Node pl ll sl nl (merge hl high)
        else Node ph (merge_high lh) sh nh hh
    | Null, _ => high
    | _, Null => low
    end.

(** The two loops that split the tree below a new node.  [findlow x n] treats
    [n = cur->low] for a [cur] on the high side, [findhigh x n] treats
    [n = cur->high] for a [cur] on the low side; both return what stays below
    [cur] and what goes to the other side. *)
Fixpoint findlow (x : Z) (n : tree) : tree * tree :=
  match n with
  | Null => (Null, Null)
  | Node p l s z h =>
      if x <? s then let '(stay, other) := findlow x l in (Node p stay s z h, other)
      else let '(stay, other) := findhigh x h in (other, Node p l s z stay)
  end
with findhigh (x : Z) (n : tree) : tree * tree :=
  match n with
  | Null => (Null, Null)
  | Node p l s z h =>
      if s <? x then let '(stay, other) := findhigh x h in (Node p l s z stay, other)
      else let '(stay, other) := findlow x l in (other, Node p stay s z h)
  end.

(** The descent of add to the place of the new node. *)
Fixpoint add_at (p start size : Z) (cur : tree) : tree :=
  match cur with
  | Null => Node p Null start size Null
  | Node q l s n h =>
      if size <? n then
        if s <? start then Node q l s n (add_at p start size h)
        else Node q (add_at p start size l) s n h
      else if s <? start then
        let '(stay, other) := findhigh start h in
        Node p (Node q l s n stay) start size other
      else
        let '(stay, other) := findlow start l in
        Node p other start size (Node q stay s n h)
  end.

Definition add (tree node : tree) : PageTree.tree :=
  match node with
  | Null => tree
  | Node p _ start size _ => add_at p start size tree
  end.

(** while (cur->low) { top = &(cur->low); cur = cur->low; } *)
Fixpoint leftmost (k : path) (cur : tree) : path * tree :=
  match cur with
  | Node p (Node _ _ _ _ _ as l) s n h => leftmost (InLow p s n h :: k) l
  | _ => (k, cur)
  end.

(** while (cur->high) { top = &(cur->high); cur = cur->high; } *)
Fixpoint rightmost (k : path) (cur : tree) : path * tree :=
  match cur with
  | Node p l s n (Node _ _ _ _ _ as h) => rightmost (InHigh p l s n :: k) h
  | _ => (k, cur)
  end.

(** ** Views of a tree *)

(** The free blocks (start, size) in order of address. *)
Fixpoint blocks (t : tree) : list (Z * Z) :=
  match t with Null => [] | Node _ l s n h => blocks l ++ (s, n) :: blocks h end.

(** The addresses of the nodes. *)
Fixpoint nodes (t : tree) : list Z :=
  match t with Null => [] | Node p l _ _ h => nodes l ++ p :: nodes h end.

Definition rsize (t : tree) : Z := match t with Null => 0 | Node _ _ _ n _ => n end.

(** No block is larger than the one above it. *)
Fixpoint heap (t : tree) : Prop :=
  match t with
  | Null => True
  | Node _ l _ n h => 0 < n /\ rsize l <= n /\ rsize h <= n /\ heap l /\ heap h
  end.

Fixpoint tsize (t : tree) : nat :=
  match t with Null => O | Node _ l _ _ h => S (tsize l + tsize h) end.

Fixpoint left_of (k : path) : list (Z * Z) :=
  match k with
  | [] => []
  | InLow _ _ _ _ :: k => left_of k
  | InHigh _ l s n :: k => left_of k ++ blocks l ++ [(s, n)]
  end.

Fixpoint right_of (k : path) : list (Z * Z) :=
  match k with
  | [] => []
  | InLow _ s n h :: k => (s, n) :: blocks h ++ right_of k
  | InHigh _ _ _ _ :: k => right_of k
  end.

Fixpoint path_nodes (k : path) : list Z :=
  match k with
  | [] => []
  | InLow p _ _ h :: k => p :: nodes h ++ path_nodes k
  | InHigh p l _ _ :: k => nodes l ++ p :: path_nodes k
  end.

Lemma plug_blocks k t : blocks (plug k t) = left_of k ++ blocks t ++ right_of k.
Proof.
  revert t. induction k as [|[p s n h|p l s n] k IH]; intros t; simpl.
  - by rewrite app_nil_r.
  - rewrite IH. simpl. by rewrite <- !app_assoc.
  - rewrite IH. simpl. by rewrite <- !app_assoc.
Qed.

Lemma plug_nodes k t : nodes (plug k t) ≡ₚ nodes t ++ path_nodes k.
Proof.
  revert t. induction k as [|[p s n h|p l s n] k IH]; intros t; simpl.
  - by rewrite app_nil_r.
  - rewrite IH. simpl. by rewrite <- app_assoc.
  - rewrite IH. simpl. solve_Permutation.
Qed.

Lemma plug_rsize k t t' : rsize t' <= rsize t -> rsize (plug k t') <= rsize (plug k t).
Proof. revert t t'. induction k as [|[] k IH]; intros t t' H; simpl; [done|apply IH; simpl; lia..]. Qed.

Lemma plug_heap_inv k t : heap (plug k t) -> heap t.
Proof. revert t. induction k as [|[] k IH]; simpl; intros t H; [done|..]; apply IH in H; simpl in H; tauto. Qed.

Lemma plug_heap k t t' : heap (plug k t) -> heap t' -> rsize t' <= rsize t -> heap (plug k t').
Proof.
  revert t t'. induction k as [|f k IH]; intros t t' Hk Ht Hr; [done|].
  destruct f; simpl in *; pose proof (plug_heap_inv _ _ Hk) as Hi; simpl in Hi;
    (eapply IH; [exact Hk| |simpl; lia]); simpl; intuition lia.
Qed.

Lemma heap_max t : heap t -> forall x, x ∈ blocks t -> x.2 <= rsize t.
Proof.
  induction t as [|p l IHl s n h IHh]; simpl; intros H x; [by intros ?%not_elem_of_nil|].
  destruct H as (? & ? & ? & Hl & Hh). rewrite elem_of_app, elem_of_cons. intros [Hx|[->|Hx]]; simpl.
  - specialize (IHl Hl x Hx). lia.
  - lia.
  - specialize (IHh Hh x Hx). lia.
Qed.

(** ** merge *)

Lemma merge_null_r t : merge t Null = t.
Proof. by destruct t. Qed.

Lemma merge_node pl ll sl nl hl ph lh sh nh hh :
  merge (Node pl ll sl nl hl) (Node ph lh sh nh hh) =
  if nh <? nl then Node pl ll sl nl (merge hl (Node ph lh sh nh hh))
  else Node ph (merge (Node pl ll sl nl hl) lh) sh nh hh.
Proof. done. Qed.

Lemma merge_blocks low high : blocks (merge low high) = blocks low ++ blocks high.
Proof.
  revert high. induction low as [|pl ll IHl sl nl hl IHh]; intros high; [by destruct high|].
  induction high as [|ph lh IHl' sh nh hh IHh']; [by rewrite merge_null_r, app_nil_r|].
  rewrite merge_node. destruct (nh <? nl); cbn [blocks].
  - rewrite IHh. cbn [blocks]. by rewrite <- !app_assoc.
  - rewrite IHl'. cbn [blocks]. by rewrite <- !app_assoc.
Qed.

Lemma merge_nodes low high : nodes (merge low high) ≡ₚ nodes low ++ nodes high.
Proof.
  revert high. induction low as [|pl ll IHl sl nl hl IHh]; intros high; [by destruct high|].
  induction high as [|ph lh IHl' sh nh hh IHh']; [by rewrite merge_null_r, app_nil_r|].
  rewrite merge_node. destruct (nh <? nl); cbn [nodes].
  - rewrite IHh. cbn [nodes]. by rewrite <- !app_assoc.
  - rewrite IHl'. cbn [nodes]. by rewrite <- !app_assoc.
Qed.

Lemma merge_rsize low high b : rsize low <= b -> rsize high <= b -> rsize (merge low high) <= b.
Proof.
  destruct low as [|pl ll sl nl hl], high as [|ph lh sh nh hh]; try done.
  rewrite merge_node. by destruct (nh <? nl).
Qed.

Lemma merge_heap low high : heap low -> heap high -> heap (merge low high).
Proof.
  revert high. induction low as [|pl ll IHl sl nl hl IHh]; intros high Hl Hh; [by destruct high|].
  induction high as [|ph lh IHl' sh nh hh IHh']; [done|].
  rewrite merge_node. simpl in Hl, Hh.
  destruct (Z.ltb_spec nh nl); cbn [heap].
  - split; [tauto|]. split; [tauto|]. split; [apply merge_rsize; simpl; [tauto|lia]|]. split; [tauto|]. apply IHh; simpl; tauto.
  - split; [tauto|]. split; [apply merge_rsize; simpl; [lia|tauto]|]. split; [tauto|]. split; [|tauto]. apply IHl'. tauto.
Qed.

(** ** Splitting a tree at an address *)

(** [cut x l1 l2]: the starts in [l1] are below [x], those in [l2] above. *)
Definition cut (x : Z) (l1 l2 : list (Z * Z)) : Prop :=
  Forall (fun b => b.1 < x) l1 /\ Forall (fun b => x < b.1) l2.

Lemma cut_low x l1 l2 a s n b :
  cut x l1 l2 -> a ++ (s, n) :: b = l1 ++ l2 -> s < x ->
  exists l1', l1 = a ++ (s, n) :: l1' /\ b = l1' ++ l2 /\ cut x l1' l2.
Proof.
  intros [H1 H2] E Hs. apply app_eq_inv in E as [(k & -> & E)|(k & -> & E)].
  - exfalso. subst l2. apply Forall_app in H2 as [_ H2]. apply Forall_cons in H2 as [? _]. simpl in *. lia.
  - destruct k as [|y k]; simplify_eq/=.
    + exfalso. apply Forall_cons in H2 as [? _]. simpl in *. lia.
    + exists k. split; [done|]. split; [done|]. apply Forall_app in H1 as [_ H1].
      apply Forall_cons in H1 as [_ H1]. by split.
Qed.

Lemma cut_high x l1 l2 a s n b :
  cut x l1 l2 -> a ++ (s, n) :: b = l1 ++ l2 -> x <= s ->
  exists l2', l2 = l2' ++ (s, n) :: b /\ a = l1 ++ l2' /\ cut x l1 l2' /\ x < s.
Proof.
  intros [H1 H2] E Hs. apply app_eq_inv in E as [(k & -> & ->)|(k & -> & E)].
  - exists k. apply Forall_app in H2 as [H2 H3]. apply Forall_cons in H3 as [? _].
    split; [done|]. split; [done|]. split; [|done]. by split.
  - destruct k as [|y k]; simplify_eq/=.
    + exists []. rewrite !app_nil_r. apply Forall_cons in H2 as [? _]. rewrite app_nil_r in H1.
      split; [done|]. split; [done|]. split; [|done]. by split.
    + exfalso. apply Forall_app in H1 as [_ H1]. apply Forall_cons in H1 as [? _]. simpl in *. lia.
Qed.

(** Both loops split the blocks of [n] at [x]. *)
Lemma find_blocks x n l1 l2 :
  cut x l1 l2 -> blocks n = l1 ++ l2 ->
  (let '(stay, other) := findlow x n in blocks stay = l2 /\ blocks other = l1) /\
  (let '(stay, other) := findhigh x n in blocks stay = l1 /\ blocks other = l2).
Proof.
  revert l1 l2. induction n as [|p l IHl s z h IHh]; intros l1 l2 Hc E; simpl in E.
  - symmetry in E. apply app_nil in E as [-> ->]. done.
  - destruct (Z.lt_ge_cases s x) as [Hs|Hs].
    + destruct (cut_low _ _ _ _ _ _ _ Hc E Hs) as (l1' & -> & Eh & Hc').
      destruct (IHh _ _ Hc' Eh) as [_ Hh]. simpl.
      destruct (Z.ltb_spec x s); [lia|]. destruct (Z.ltb_spec s x); [|lia].
      destruct (findhigh x h) as [stay other]. destruct Hh as [<- <-]. done.
    + destruct (cut_high _ _ _ _ _ _ _ Hc E Hs) as (l2' & -> & El & Hc' & Hlt).
      destruct (IHl _ _ Hc' El) as [Hl _]. simpl.
      destruct (Z.ltb_spec x s); [|lia]. destruct (Z.ltb_spec s x); [lia|].
      destruct (findlow x l) as [stay other]. destruct Hl as [<- <-]. done.
Qed.

Lemma find_nodes x n :
  (let '(stay, other) := findlow x n in nodes stay ++ nodes other ≡ₚ nodes n) /\
  (let '(stay, other) := findhigh x n in nodes stay ++ nodes other ≡ₚ nodes n).
Proof.
  induction n as [|p l [IHl1 IHl2] s z h [IHh1 IHh2]]; [by split; simpl|]. simpl.
  destruct (findlow x l) as [a b], (findhigh x h) as [c d].
  split; [destruct (x <? s)|destruct (s <? x)]; simpl; rewrite <- ?IHl1, <- ?IHh2; solve_Permutation.
Qed.

Lemma heap_rsize t : heap t -> 0 <= rsize t.
Proof. destruct t; simpl; lia. Qed.

Lemma find_heap x n :
  heap n ->
  (let '(stay, other) := findlow x n in
   heap stay /\ heap other /\ rsize stay <= rsize n /\ rsize other <= rsize n) /\
  (let '(stay, other) := findhigh x n in
   heap stay /\ heap other /\ rsize stay <= rsize n /\ rsize other <= rsize n).
Proof.
  induction n as [|p l IHl s z h IHh]; [done|]. simpl. intros (Hz & Hl & Hh & HHl & HHh).
  destruct (IHl HHl) as [L _], (IHh HHh) as [_ R].
  destruct (findlow x l) as [a b], (findhigh x h) as [c d].
  destruct L as (La & Lb & L), R as (Rc & Rd & R).
  split; [destruct (x <? s)|destruct (s <? x)]; simpl; repeat split; (done || lia).
Qed.

(** ** add *)

Lemma add_at_blocks p start size t l1 l2 :
  cut start l1 l2 -> blocks t = l1 ++ l2 ->
  blocks (add_at p start size t) = l1 ++ (start, size) :: l2.
Proof.
  revert l1 l2. induction t as [|q l IHl s n h IHh]; intros l1 l2 Hc E; cbn [blocks] in E.
  - symmetry in E. apply app_nil in E as [-> ->]. done.
  - destruct (Z.lt_ge_cases s start) as [Hs|Hs].
    + destruct (cut_low _ _ _ _ _ _ _ Hc E Hs) as (l1' & -> & Eh & Hc').
      destruct (find_blocks _ _ _ _ Hc' Eh) as [_ Hf]. cbn [add_at].
      destruct (Z.ltb_spec s start); [|lia]. destruct (size <? n); cbn [blocks].
      * rewrite (IHh _ _ Hc' Eh). by rewrite <- app_assoc.
      * destruct (findhigh start h) as [stay other]. destruct Hf as [<- <-]. cbn [blocks].
        by rewrite <- app_assoc.
    + destruct (cut_high _ _ _ _ _ _ _ Hc E Hs) as (l2' & -> & El & Hc' & Hlt).
      destruct (find_blocks _ _ _ _ Hc' El) as [Hf _]. cbn [add_at].
      destruct (Z.ltb_spec s start); [lia|]. destruct (size <? n); cbn [blocks].
      * rewrite (IHl _ _ Hc' El). by rewrite <- app_assoc.
      * destruct (findlow start l) as [stay other]. destruct Hf as [<- <-]. by cbn [blocks].
Qed.

Lemma add_at_nodes p start size t : nodes (add_at p start size t) ≡ₚ p :: nodes t.
Proof.
  induction t as [|q l IHl s n h IHh]; [done|]. cbn [add_at].
  destruct (find_nodes start l) as [Fl _], (find_nodes start h) as [_ Fh].
  destruct (size <? n), (s <? start); cbn [nodes].
  - rewrite IHh. solve_Permutation.
  - rewrite IHl. solve_Permutation.
  - destruct (findhigh start h) as [a b]. cbn [nodes]. rewrite <- Fh. solve_Permutation.
  - destruct (findlow start l) as [a b]. cbn [nodes]. rewrite <- Fl. solve_Permutation.
Qed.

Lemma add_at_rsize p start size t b : size <= b -> rsize t <= b -> rsize (add_at p start size t) <= b.
Proof.
  intros H1 H2. destruct t as [|q l s n h]; [done|]. cbn [add_at].
  destruct (size <? n), (s <? start); try done;
    [destruct (findhigh start h)|destruct (findlow start l)]; done.
Qed.

Lemma add_at_heap p start size t : heap t -> 0 < size -> heap (add_at p start size t).
Proof.
  intros Ht Hs. induction t as [|q l IHl s n h IHh]; [simpl; lia|]. cbn [add_at].
  destruct Ht as (Hn & Hl & Hh & HHl & HHh).
  destruct (find_heap start l HHl) as [L _], (find_heap start h HHh) as [_ R].
  destruct (Z.ltb_spec size n), (s <? start).
  - cbn [heap]. pose proof (add_at_rsize p start size h n). intuition lia.
  - cbn [heap]. pose proof (add_at_rsize p start size l n). intuition lia.
  - destruct (findhigh start h) as [a b]. simpl. intuition lia.
  - destruct (findlow start l) as [a b]. simpl. intuition lia.
Qed.

(** ** leftmost and rightmost *)

Lemma leftmost_spec k t :
  t <> Null -> exists k' p s n h, leftmost k t = (k', Node p Null s n h) /\
    plug k' (Node p Null s n h) = plug k t /\ left_of k' = left_of k.
Proof.
  revert k. induction t as [|p l IHl s n h _]; intros k Ht; [done|].
  destruct l as [|pl ll sl nl hl]; [by exists k, p, s, n, h|].
  change (leftmost k (Node p (Node pl ll sl nl hl) s n h))
    with (leftmost (InLow p s n h :: k) (Node pl ll sl nl hl)).
  destruct (IHl (InLow p s n h :: k)) as (k' & p' & s' & n' & h' & E & Hp & Hl); [done|].
  exists k', p', s', n', h'. done.
Qed.

Lemma rightmost_spec k t :
  t <> Null -> exists k' p l s n, rightmost k t = (k', Node p l s n Null) /\
    plug k' (Node p l s n Null) = plug k t /\ right_of k' = right_of k.
Proof.
  revert k. induction t as [|p l _ s n h IHh]; intros k Ht; [done|].
  destruct h as [|ph lh sh nh hh]; [by exists k, p, l, s, n|].
  change (rightmost k (Node p l s n (Node ph lh sh nh hh)))
    with (rightmost (InHigh p l s n :: k) (Node ph lh sh nh hh)).
  destruct (IHh (InHigh p l s n :: k)) as (k' & p' & l' & s' & n' & E & Hp & Hl); [done|].
  exists k', p', l', s', n'. done.
Qed.

End PageTree.
