(* ===== verification/PageAllocator.v ===== *)
(** * PageAllocator: PageAllocatorDefault, lib/libc/alloc/PageAllocatorDefault.C

    The page allocator keeps its free blocks in the tree of PageTree.v and its
    unused tree nodes on [freeList]; when that list runs out it takes a page of
    the memory it manages and carves it into nodes.  The operations below are
    those of the class itself (getMoreMem fails, getFreePagesMemory takes the
    page from the block in hand) in a build without the leak detector. *)

From stdpp Require Import base numbers option gmap sorting list.
From S2P Require Import K42 Prelude PageTree.

Module PageAllocator.
Import PageTree.

Record t := mkPA { anchor : tree; freeList : list Z; available : Z }.

(** sizeof(freePages) *)
Definition NODE_SIZE : Z := 32.

Definition page_aligned (a : Z) : bool := Z.land a (unot PAGE_MASK) =? a.

(** The nodes of a new page, chained in the order of their addresses. *)
Definition nodes_in (l : Z) : list Z := (fun i => l + i * NODE_SIZE) <$> seqZ 0 (PAGE_SIZE / NODE_SIZE).

(** Returns the page and the shortened block. *)
Definition getFreePagesMemory (vaddr size : Z) : Z * Z * Z :=
  (vaddr, uadd vaddr PAGE_SIZE, usub size PAGE_SIZE).

(** Returns the state and the block [vaddr], [size], from which a page is taken
    when the tree is empty. *)
Definition extendFreeList (s : t) (vaddr size : Z) : t * Z * Z :=
  let av := usub (available s) PAGE_SIZE in
  match leftmost [] (anchor s) with
  | (top, Node p low st n high) =>
      if n =? PAGE_SIZE then
        (mkPA (plug top high) (nodes_in st ++ [p]) av, vaddr, size)
      else
        let start' := uadd st PAGE_SIZE in
        let size' := usub n PAGE_SIZE in
        let a' :=
          if negb (is_null high) && (size' <? rsize high)
          then add (plug top high) (Node p low start' size' high)
          else plug top (Node p low start' size' high) in
        (mkPA a' (nodes_in st ++ freeList s) av, vaddr, size)
  | (_, Null) =>
      let '(l, vaddr', size') := getFreePagesMemory vaddr size in
      (mkPA (anchor s) (nodes_in l ++ freeList s) av, vaddr', size')
  end.

(** [cur] is the node [Node p low st n high] at [top]. *)
Definition allocFromBlock (s : t) (top : path) (p : Z) (low : tree) (st n : Z) (high : tree)
    (vaddr size : Z) : option t :=
  let a0 := plug top (merge low high) in
  let '(extraaddr, extrasize) := if st <? vaddr then (st, usub vaddr st) else (0, 0) in
  let rest := usub (uadd st n) (uadd vaddr size) in
  if negb (rest =? 0) then
    let a1 := add a0 (Node p low (uadd vaddr size) rest high) in
    if negb (extraaddr =? 0) then
      match freeList s with
      | [] => None
      | cur :: fl =>
          let s1 := mkPA a1 fl (available s) in
          let '(s2, extraaddr, extrasize) :=
            if bool_decide (fl = []) then extendFreeList s1 extraaddr extrasize
            else (s1, extraaddr, extrasize) in
          Some (mkPA (add (anchor s2) (Node cur Null extraaddr extrasize Null))
                  (freeList s2) (available s2))
      end
    else Some (mkPA a1 (freeList s) (available s))
  else if negb (extraaddr =? 0) then
    Some (mkPA (add a0 (Node p low extraaddr extrasize high)) (freeList s) (available s))
  else Some (mkPA a0 (p :: freeList s) (available s)).

Definition init (start size : Z) : option t :=
  _ ← assertK (PAGE_ROUND_UP start =? start);
  let '(s, start, size) := extendFreeList (mkPA Null [] size) start size in
  match freeList s with
  | [] => None
  | a :: fl => Some (mkPA (Node a Null start size Null) fl (available s))
  end.

(** The search of allocPages, which rotates a low child of the same size up. *)
Fixpoint find_block (fuel : nat) (top : path) (cur : tree) (size : Z) : option (path * tree) :=
  match fuel with
  | O => None
  | S fuel =>
      match cur with
      | Null => None
      | Node p l s n h =>
          let try_high :=
            match h with
            | Node _ _ _ nh _ =>
                if size <=? nh then find_block fuel (InHigh p l s n :: top) h size else Some (top, cur)
            | Null => Some (top, cur)
            end in
          match l with
          | Node pl ll sl nl hl =>
              if nl =? n then find_block fuel top (Node pl ll sl nl (Node p hl s n h)) size
              else if size <=? nl then find_block fuel (InLow p s n h :: top) l size
              else try_high
          | Null => try_high
          end
      end
  end.

Definition search_fuel (a : tree) : nat := (S (tsize a) * S (tsize a))%nat.

(** Returns the status, the address and the state. *)
Definition locked_allocPages (size : Z) (s : t) : option (Z * Z * t) :=
  let size := PAGE_ROUND_UP size in
  if negb (is_null (anchor s)) && negb (rsize (anchor s) <? size) then
    '(top, cur) ← find_block (search_fuel (anchor s)) [] (anchor s) size;
    match cur with
    | Null => None
    | Node p low st n high =>
        let vaddr := st in
        _ ← assertK (page_aligned vaddr);
        let start' := uadd st size in
        let size' := usub n size in
        let next := merge low high in
        let '(next, fl) :=
          if negb (size' =? 0) then (add next (Node p low start' size' high), freeList s)
          else (next, p :: freeList s) in
        Some (0, vaddr, mkPA (plug top next) fl (usub (available s) size))
    end
  else Some (_SERROR 1474 0 ENOMEM, 0, s).

Fixpoint find_at (top : path) (cur : tree) (vaddr size : Z) : option (path * tree) :=
  match cur with
  | Null => None
  | Node p l s n h =>
      if (s <=? vaddr) && (vaddr <? uadd s n) then
        if uadd vaddr size <=? uadd s n then Some (top, cur) else None
      else if vaddr <? s then find_at (InLow p s n h :: top) l vaddr size
      else find_at (InHigh p l s n :: top) h vaddr size
  end.

Definition locked_allocPagesAt (vaddr size : Z) (s : t) : option (Z * t) :=
  _ ← assertK (page_aligned vaddr);
  match find_at [] (anchor s) vaddr size with
  | Some (top, Node p low st n high) =>
      s' ← allocFromBlock s top p low st n high vaddr size;
      Some (0, mkPA (anchor s') (freeList s') (usub (available s') size))
  | _ => Some (_SERROR 1475 0 ENOMEM, s)
  end.

Definition STACK_SIZE : nat := 64.

(** The first address at or above [start] that is [offset] modulo [align]. *)
Definition align_from (start align offset : Z) : Z :=
  uadd (umul (usub (usub (uadd start align) offset) 1 / align) align) offset.

(** The search of allocPagesAligned; [stack] holds the positions whose high
    subtree is still to be searched. *)
Fixpoint find_aligned (fuel : nat) (stack : list (path * tree)) (top : path) (cur : tree)
    (found : option (path * tree)) (size align offset : Z) : option (option (path * tree)) :=
  match fuel with
  | O => None
  | S fuel =>
      match cur with
      | Null => None
      | Node p l s n h =>
          let vaddr := align_from s align offset in
          let found := if uadd vaddr size <=? uadd s n then Some (top, cur) else found in
          if (n <? size) || (is_null l && is_null h) then
            match found with
            | Some _ => Some found
            | None =>
                match stack with
                | (k, Node p' l' s' n' h') :: stack =>
                    find_aligned fuel stack (InHigh p' l' s' n' :: k) h' found size align offset
                | (_, Null) :: _ => None
                | [] => Some None
                end
            end
          else if negb (is_null l) then
            let stack :=
              if negb (is_null h) && bool_decide (length stack < STACK_SIZE)%nat
              then (top, cur) :: stack else stack in
            find_aligned fuel stack (InLow p s n h :: top) l found size align offset
          else find_aligned fuel stack (InHigh p l s n :: top) h found size align offset
      end
  end.

Definition locked_allocPagesAligned (size align offset : Z) (s : t) : option (Z * Z * t) :=
  let size := PAGE_ROUND_UP size in
  let bad := Some (_SERROR 1476 0 ENOMEM, 0, s) in
  if is_null (anchor s) then bad
  else
    _ ← assertK (negb (align =? 0));
    found ← find_aligned (S (tsize (anchor s))) [] [] (anchor s) None size align offset;
    match found with
    | Some (top, Node p low st n high) =>
        let vaddr := align_from st align offset in
        s' ← allocFromBlock s top p low st n high vaddr size;
        _ ← assertK (Z.land vaddr PAGE_MASK =? 0);
        Some (0, vaddr, mkPA (anchor s') (freeList s') (usub (available s') size))
    | _ => bad
    end.

(** The loop of locked_deallocPages: a block that ends where the freed one
    begins ([true]) or begins where it ends ([false]). *)
Fixpoint find_coalesce (top : path) (cur : tree) (vaddr size : Z) : option (bool * path * tree) :=
  match cur with
  | Null => None
  | Node p l s n h =>
      if uadd s n =? vaddr then Some (true, top, cur)
      else if uadd vaddr size =? s then Some (false, top, cur)
      else if vaddr <? s then find_coalesce (InLow p s n h :: top) l vaddr size
      else find_coalesce (InHigh p l s n :: top) h vaddr size
  end.

Definition top_size (f : frame) : Z :=
  match f with InLow _ _ n _ => n | InHigh _ _ _ n => n end.

(** enlarge: [cur] has grown, and moves if it no longer fits below its parent. *)
Definition enlarge (top : path) (p : Z) (low : tree) (st n : Z) (high : tree) : tree :=
  match top with
  | f :: _ =>
      if top_size f <? n then add (plug top (merge low high)) (Node p low st n high)
      else plug top (Node p low st n high)
  | [] => Node p low st n high
  end.

Definition locked_deallocPages (vaddr size : Z) (s : t) : option (Z * t) :=
  let size := PAGE_ROUND_UP size in
  _ ← assertK (Z.land vaddr PAGE_MASK =? 0);
  _ ← assertK (page_aligned vaddr);
  let av := uadd (available s) size in
  match find_coalesce [] (anchor s) vaddr size with
  | Some (true, top, Node p low st n high) =>
      let n1 := uadd n size in
      let '(n2, high', fl) :=
        match leftmost [] high with
        | (top1, Node p1 _ s1 m1 h1) =>
            if uadd st n1 =? s1 then (uadd n1 m1, plug top1 h1, p1 :: freeList s)
            else (n1, high, freeList s)
        | (_, Null) => (n1, high, freeList s)
        end in
      Some (0, mkPA (enlarge top p low st n2 high') fl av)
  | Some (false, top, Node p low st n high) =>
      let n1 := uadd n size in
      let '(st2, n2, low', fl) :=
        match rightmost [] low with
        | (top1, Node p1 l1 s1 m1 _) =>
            if uadd s1 m1 =? vaddr then (s1, uadd n1 m1, plug top1 l1, p1 :: freeList s)
            else (vaddr, n1, low, freeList s)
        | (_, Null) => (vaddr, n1, low, freeList s)
        end in
      Some (0, mkPA (enlarge top p low' st2 n2 high) fl av)
  | _ =>
      match freeList s with
      | [] => None
      | cur :: fl =>
          let s1 := mkPA (anchor s) fl av in
          let '(s2, vaddr, size) :=
            if bool_decide (fl = []) then extendFreeList s1 vaddr size else (s1, vaddr, size) in
          if bool_decide (fl = []) && (size =? 0) then Some (0, s2)
          else Some (0, mkPA (add (anchor s2) (Node cur Null vaddr size Null)) (freeList s2) (available s2))
      end
  end.

(** The public operations take the lock. *)
Definition allocPages (size : Z) := AutoLock (locked_allocPages size).
Definition allocPagesAt (vaddr size : Z) := AutoLock (locked_allocPagesAt vaddr size).
Definition allocPagesAligned (size align offset : Z) := AutoLock (locked_allocPagesAligned size align offset).
Definition deallocPages (vaddr size : Z) := AutoLock (locked_deallocPages vaddr size).
Definition getMemoryFree := AutoLock (fun s => Some (0, available s, s)).

(** ** Lists of free blocks *)

Definition before (x y : Z * Z) : Prop := x.1 + x.2 < y.1.

Definition blk_ok (b : Z * Z) : Prop :=
  0 < b.1 /\ 0 < b.2 /\ b.1 mod PAGE_SIZE = 0 /\ b.2 mod PAGE_SIZE = 0 /\ b.1 + b.2 < 2 ^ 64.

(** In order of address, separated by at least one byte, and page aligned. *)
Definition blocks_ok (l : list (Z * Z)) : Prop := StronglySorted before l /\ Forall blk_ok l.

Definition inside (a : Z) (b : Z * Z) : Prop := b.1 <= a < b.1 + b.2.

(** The address [a] is free. *)
Definition free (l : list (Z * Z)) (a : Z) : Prop := Exists (inside a) l.

Fixpoint total (l : list (Z * Z)) : Z :=
  match l with [] => 0 | b :: l => b.2 + total l end.

Lemma total_app l1 l2 : total (l1 ++ l2) = total l1 + total l2.
Proof. induction l1 as [|b l1 IH]; simpl; [lia|]. rewrite IH. lia. Qed.

Lemma free_app l1 l2 a : free (l1 ++ l2) a <-> free l1 a \/ free l2 a.
Proof. apply Exists_app. Qed.

Lemma free_cons b l a : free (b :: l) a <-> inside a b \/ free l a.
Proof. apply Exists_cons. Qed.

Lemma free_nil a : free [] a <-> False.
Proof. apply Exists_nil. Qed.

Lemma free_elem l a : free l a <-> exists b, b ∈ l /\ inside a b.
Proof. apply Exists_exists. Qed.

Lemma blocks_ok_nil : blocks_ok [].
Proof. split; constructor. Qed.

Lemma blocks_ok_app l1 l2 :
  blocks_ok (l1 ++ l2) <-> blocks_ok l1 /\ blocks_ok l2 /\ (forall x y, x ∈ l1 -> y ∈ l2 -> before x y).
Proof. unfold blocks_ok. rewrite StronglySorted_app, Forall_app. tauto. Qed.

Lemma blocks_ok_cons b l : blocks_ok (b :: l) <-> blk_ok b /\ blocks_ok l /\ (forall y, y ∈ l -> before b y).
Proof.
  unfold blocks_ok. rewrite Forall_cons. split.
  - intros [Hs [Hb Hf]]. apply StronglySorted_inv in Hs as [Hs Ha]. rewrite Forall_forall in Ha. tauto.
  - intros (Hb & [Hs Hf] & Ha). split; [|tauto]. constructor; [done|]. by apply Forall_forall.
Qed.

Lemma blocks_ok_elem l b : blocks_ok l -> b ∈ l -> blk_ok b.
Proof. intros [_ H] Hb. rewrite Forall_forall in H. by apply H. Qed.

(** The parts of a list around one of its blocks. *)
Lemma blocks_ok_mid l1 s n l2 :
  blocks_ok (l1 ++ (s, n) :: l2) ->
  blk_ok (s, n) /\ blocks_ok l1 /\ blocks_ok l2 /\
  (forall x, x ∈ l1 -> x.1 + x.2 < s) /\ (forall y, y ∈ l2 -> s + n < y.1) /\
  (forall x y, x ∈ l1 -> y ∈ l2 -> before x y).
Proof.
  intros (H1 & H2 & H3)%blocks_ok_app. apply blocks_ok_cons in H2 as (Hb & H2 & H4).
  split; [done|]. split; [done|]. split; [done|]. split; [|split].
  - intros x Hx. apply (H3 x (s, n)); [done|by left].
  - intros y Hy. by apply (H4 y).
  - intros x y Hx Hy. apply H3; [done|by right].
Qed.

(** Replacing what lies between [l1] and [l2]. *)
Lemma blocks_ok_replace l1 mid l2 lo hi :
  blocks_ok l1 -> blocks_ok l2 -> blocks_ok mid -> (forall x y, x ∈ l1 -> y ∈ l2 -> before x y) ->
  (forall x, x ∈ l1 -> x.1 + x.2 < lo) -> (forall y, y ∈ l2 -> hi < y.1) ->
  (forall b, b ∈ mid -> lo <= b.1 /\ b.1 + b.2 <= hi) ->
  blocks_ok (l1 ++ mid ++ l2).
Proof.
  intros H1 H2 Hm H12 Hlo Hhi Hmid. rewrite !blocks_ok_app. split; [done|]. split.
  - split; [done|]. split; [done|]. intros x y Hx Hy. specialize (Hmid x Hx). specialize (Hhi y Hy).
    unfold before. lia.
  - intros x y Hx Hy. apply elem_of_app in Hy as [Hy|Hy]; [|by apply H12].
    specialize (Hlo x Hx). specialize (Hmid y Hy). unfold before. lia.
Qed.

Lemma blocks_ok_one s n : blk_ok (s, n) -> blocks_ok [(s, n)].
Proof. intros H. apply blocks_ok_cons. split; [done|]. split; [apply blocks_ok_nil|]. by intros y ?%not_elem_of_nil. Qed.

(** A free list of blocks fits the address space. *)
Lemma total_bound l lo : blocks_ok l -> 0 <= lo < 2 ^ 64 -> (forall b, b ∈ l -> lo <= b.1) -> 0 <= total l < 2 ^ 64 - lo.
Proof.
  revert lo. induction l as [|[s n] l IH]; intros lo Hok Hlo Hb; simpl; [lia|].
  apply blocks_ok_cons in Hok as ((? & ? & _ & _ & ?) & Hok & Hs). simpl in *.
  pose proof (Hb (s, n)) as Hsn. simpl in Hsn. specialize (Hsn ltac:(by left)).
  destruct (IH (s + n)) as [Ht1 Ht2]; [done|lia| |lia].
  intros b Hin. specialize (Hs b Hin). unfold before in Hs. simpl in Hs. lia.
Qed.

Lemma total_range l : blocks_ok l -> 0 <= total l < 2 ^ 64.
Proof.
  intros H. pose proof (total_bound l 0 H ltac:(lia)) as Hb. rewrite Z.sub_0_r in Hb. apply Hb.
  intros b Hin. destruct (blocks_ok_elem _ _ H Hin). lia.
Qed.

(** ** Invariant *)

(** The tree [a] is well formed; the nodes it uses and the unused nodes [ns] are
    distinct and none of them lies in a free block. *)
Record good (a : tree) (ns : list Z) : Prop := {
  good_heap : heap a;
  good_blocks : blocks_ok (blocks a);
  good_nodup : NoDup (nodes a ++ ns);
  good_meta : forall p, p ∈ nodes a ++ ns -> ~ free (blocks a) p;
}.

(** [available] is the free memory, and there is always an unused node. *)
Record wf (s : t) : Prop := {
  wf_good : good (anchor s) (freeList s);
  wf_free : freeList s <> [];
  wf_avail : available s = total (blocks (anchor s));
}.

Lemma good_intro a ns a' ns' :
  good a ns -> heap a' -> blocks_ok (blocks a') -> nodes a' ++ ns' ≡ₚ nodes a ++ ns ->
  (forall p, free (blocks a') p -> p ∈ nodes a ++ ns -> free (blocks a) p) -> good a' ns'.
Proof.
  intros [Hh Hb Hn Hm] Hh' Hb' HP Hf. constructor; [done|done|by rewrite HP|].
  intros p Hp Hfree. rewrite HP in Hp. apply (Hm p Hp). by apply Hf.
Qed.

(** [start] lies strictly between the two parts of a block list. *)
Lemma cut_intro start l1 l2 :
  blocks_ok l1 -> (forall x, x ∈ l1 -> x.1 + x.2 <= start) -> (forall y, y ∈ l2 -> start < y.1) -> cut start l1 l2.
Proof.
  intros H1 Hl Hr. split; apply Forall_forall; [|done].
  intros x Hx. specialize (Hl x Hx). destruct (blocks_ok_elem _ _ H1 Hx). lia.
Qed.

Lemma page_round_range size :
  0 < size -> size + 4095 < 2 ^ 64 ->
  size <= PAGE_ROUND_UP size < 2 ^ 64 /\ PAGE_ROUND_UP size mod PAGE_SIZE = 0.
Proof.
  intros H1 H2. rewrite page_round_up_spec by done. unfold PAGE_SIZE.
  pose proof (Z.mod_pos_bound (size + 4095) 4096). split; [lia|].
  by rewrite Zminus_mod_idemp_r, Z.sub_diag.
Qed.

Lemma mod_add0 a b : a mod PAGE_SIZE = 0 -> b mod PAGE_SIZE = 0 -> (a + b) mod PAGE_SIZE = 0.
Proof. intros Ha Hb. unfold PAGE_SIZE in *. by rewrite Z.add_mod, Ha, Hb. Qed.

Lemma mod_sub0 a b : a mod PAGE_SIZE = 0 -> b mod PAGE_SIZE = 0 -> (a - b) mod PAGE_SIZE = 0.
Proof. intros Ha Hb. unfold PAGE_SIZE in *. by rewrite Zminus_mod, Ha, Hb. Qed.

Lemma page_aligned_mod a : 0 <= a < 2 ^ 64 -> a mod PAGE_SIZE = 0 -> page_aligned a = true.
Proof.
  intros Ha Hm. unfold page_aligned. apply Z.eqb_eq. change PAGE_MASK with (2 ^ 12 - 1).
  rewrite (land_unot_mask a 12) by (unfold is_uval; lia). unfold PAGE_SIZE in Hm.
  change (2 ^ 12) with 4096. lia.
Qed.

Lemma land_mask_mod a : 0 <= a -> a mod PAGE_SIZE = 0 -> (Z.land a PAGE_MASK =? 0) = true.
Proof.
  intros Ha Hm. apply Z.eqb_eq. unfold PAGE_MASK. change 4095 with (Z.ones 12).
  rewrite Z.land_ones by lia. done.
Qed.

(** ** allocPages *)

(** The search ends, at a block that is large enough; the rotations it makes
    preserve the order of the tree. *)
Lemma find_block_spec fuel top cur size :
  heap (plug top cur) -> size <= rsize cur -> cur <> Null ->
  (tsize cur * tsize cur + tsize (match cur with Node _ l _ _ _ => l | Null => Null end) < fuel)%nat ->
  exists top' p l s n h, find_block fuel top cur size = Some (top', Node p l s n h) /\
    size <= n /\ heap (plug top' (Node p l s n h)) /\
    blocks (plug top' (Node p l s n h)) = blocks (plug top cur) /\
    nodes (plug top' (Node p l s n h)) ≡ₚ nodes (plug top cur).
Proof.
  revert top cur. induction fuel as [|fuel IH]; intros top cur Hh Hs Hn Hf; [lia|].
  destruct cur as [|p l s n h]; [done|].
  pose proof (plug_heap_inv _ _ Hh) as Hc. cbn [heap rsize] in Hc, Hs. destruct Hc as (Hn0 & Hl & Hr & HHl & HHr).
  assert (Hhigh : exists top' p' l' s' n' h',
    match h with
    | Node _ _ _ nh _ =>
        if size <=? nh then find_block fuel (InHigh p l s n :: top) h size else Some (top, Node p l s n h)
    | Null => Some (top, Node p l s n h)
    end = Some (top', Node p' l' s' n' h') /\
    size <= n' /\ heap (plug top' (Node p' l' s' n' h')) /\
    blocks (plug top' (Node p' l' s' n' h')) = blocks (plug top (Node p l s n h)) /\
    nodes (plug top' (Node p' l' s' n' h')) ≡ₚ nodes (plug top (Node p l s n h))).
  { destruct h as [|ph lh sh nh hh]; [exists top, p, l, s, n, Null; done|].
    destruct (Z.leb_spec size nh) as [Hle|Hle]; [|exists top, p, l, s, n, (Node ph lh sh nh hh); done].
    apply (IH (InHigh p l s n :: top)); [done|done|done|]. cbn [tsize] in *. nia. }
  cbn [find_block]. destruct l as [|pl ll sl nl hl]; [exact Hhigh|].
  destruct (Z.eqb_spec nl n) as [->|Hne].
  - cbn [heap rsize] in HHl, Hl.
    destruct (IH top (Node pl ll sl n (Node p hl s n h))) as (top' & p' & l' & s' & n' & h' & E & Hsz & Hh' & Hb' & Hn').
    + apply (plug_heap top (Node p (Node pl ll sl n hl) s n h)); [done| |simpl; lia].
      cbn [heap rsize]. intuition lia.
    + done.
    + done.
    + cbn [tsize] in *. lia.
    + exists top', p', l', s', n', h'. split; [exact E|]. split; [done|]. split; [done|]. split.
      * rewrite Hb', !plug_blocks. cbn [blocks]. by app_norm.
      * rewrite Hn', !plug_nodes. cbn [nodes]. by app_norm.
  - destruct (Z.leb_spec size nl) as [Hle|Hle]; [|exact Hhigh].
    apply (IH (InLow p s n h :: top)); [done|done|done|]. cbn [tsize] in *. nia.
Qed.

(** ** What an allocation does to the free memory *)

Definition in_range (v size a : Z) : Prop := v <= a < v + size.

(** The page taken for nodes, if any. *)
Definition in_page (m : option Z) (a : Z) : Prop :=
  match m with Some q => in_range q PAGE_SIZE a | None => False end.

Definition page_cost (m : option Z) : Z := match m with Some _ => PAGE_SIZE | None => 0 end.

(** The nodes that the page holds. *)
Definition page_nodes (m : option Z) : list Z := match m with Some q => nodes_in q | None => [] end.

(** [v .. v + size) was free and is taken out of the free memory, together with
    at most one page [m] that now holds nodes. *)
Record taken (s s' : t) (v size : Z) (m : option Z) : Prop := {
  tk_free : forall a, in_range v size a -> free (blocks (anchor s)) a;
  tk_page : forall a, in_page m a -> free (blocks (anchor s)) a /\ ~ in_range v size a;
  tk_rest : forall a, free (blocks (anchor s')) a <->
    free (blocks (anchor s)) a /\ ~ in_range v size a /\ ~ in_page m a;
  tk_avail : available s' = available s - size - page_cost m;
  tk_nodes : nodes (anchor s') ++ freeList s' ≡ₚ page_nodes m ++ nodes (anchor s) ++ freeList s;
}.

Lemma carve_free l1 s n l2 mid R :
  blocks_ok (l1 ++ (s, n) :: l2) ->
  (forall a, R a -> inside a (s, n)) -> (forall a, free mid a <-> inside a (s, n) /\ ~ R a) ->
  forall a, free (l1 ++ mid ++ l2) a <-> free (l1 ++ (s, n) :: l2) a /\ ~ R a.
Proof.
  intros Hok HR Hm a. apply blocks_ok_mid in Hok as (Hb & H1 & H2 & Hl & Hr & _).
  rewrite !free_app, free_cons, Hm.
  assert (D1 : forall x, free l1 x -> ~ inside x (s, n)).
  { intros x (b & Hb1 & Hb2)%free_elem [? ?]. specialize (Hl b Hb1). destruct Hb2. simpl in *. lia. }
  assert (D2 : forall x, free l2 x -> ~ inside x (s, n)).
  { intros x (b & Hb1 & Hb2)%free_elem [? ?]. specialize (Hr b Hb1). destruct Hb2. simpl in *. lia. }
  specialize (D1 a). specialize (D2 a). specialize (HR a). tauto.
Qed.

Lemma free_mid l1 s n l2 a : inside a (s, n) -> free (l1 ++ (s, n) :: l2) a.
Proof. intros H. rewrite free_app, free_cons. tauto. Qed.

Lemma elem_mid {A} (l1 l2 : list A) x : x ∈ l1 ++ x :: l2.
Proof. apply elem_of_app. right. by left. Qed.

(** The block left after the first [size] bytes are taken. *)
Definition tail_block (s n size : Z) : list (Z * Z) := if n =? size then [] else [(s + size, n - size)].

Lemma tail_block_ok s n size :
  blk_ok (s, n) -> 0 < size <= n -> size mod PAGE_SIZE = 0 ->
  blocks_ok (tail_block s n size) /\ total (tail_block s n size) = n - size /\
  (forall b, b ∈ tail_block s n size -> s <= b.1 /\ b.1 + b.2 <= s + n) /\
  (forall a, free (tail_block s n size) a <-> inside a (s, n) /\ ~ in_range s size a).
Proof.
  intros (H1 & H2 & H3 & H4 & H5) Hs Hm. simpl in *. unfold tail_block.
  destruct (Z.eqb_spec n size) as [->|Hne].
  - split; [apply blocks_ok_nil|]. simpl. split; [lia|]. split; [by intros b ?%not_elem_of_nil|].
    intros a. rewrite free_nil. unfold inside, in_range. simpl. lia.
  - split; [|split; [|split]].
    + apply blocks_ok_one. split; [simpl; lia|]. split; [simpl; lia|]. simpl.
      split; [by apply mod_add0|]. split; [by apply mod_sub0|lia].
    + simpl. lia.
    + intros b ->%list_elem_of_singleton. simpl. lia.
    + intros a. rewrite free_cons, free_nil. unfold inside, in_range. simpl. lia.
Qed.

(** Adding a block at its place next to the blocks of a subtree. *)
Lemma add_blocks a p st n lo hi l1 l2 :
  blocks a = l1 ++ l2 -> cut st l1 l2 -> blocks (add a (Node p lo st n hi)) = l1 ++ (st, n) :: l2.
Proof. intros E Hc. simpl. by apply add_at_blocks. Qed.

Lemma is_null_spec a : a = Null \/ is_null a = false /\ a <> Null.
Proof. destruct a; [by left|by right]. Qed.

(** Taking the first [sz] bytes of the node at [top]: the rest of the block is
    put back below [top], or its node becomes unused. *)
Lemma take_front s top p l st n h sz :
  heap (plug top (Node p l st n h)) -> nodes (plug top (Node p l st n h)) ≡ₚ nodes (anchor s) ->
  freeList s <> [] -> blocks_ok (blocks (plug top (Node p l st n h))) -> 0 < sz <= n ->
  exists next fl,
    (if negb (n - sz =? 0) then (add (merge l h) (Node p l (st + sz) (n - sz) h), freeList s)
     else (merge l h, p :: freeList s)) = (next, fl) /\
    blocks (plug top next) = left_of top ++ blocks l ++ tail_block st n sz ++ blocks h ++ right_of top /\
    heap (plug top next) /\
    nodes (plug top next) ++ fl ≡ₚ nodes (anchor s) ++ freeList s /\ fl <> [].
Proof.
  intros Hh' Hn' Hfl Hok Hsz. pose proof (plug_heap_inv _ _ Hh') as (Z0 & Z1 & Z2 & Z3 & Z4).
  pose proof (merge_heap l h Z3 Z4) as Hmh.
  assert (Hmr : rsize (merge l h) <= n) by (by apply merge_rsize).
  unfold tail_block. destruct (Z.eqb_spec (n - sz) 0) as [E|E], (Z.eqb_spec n sz) as [E'|E']; try lia;
    eexists _, _; (split; [done|]).
  - rewrite plug_blocks, merge_blocks. split; [by app_norm|].
    split; [by apply (plug_heap top (Node p l st n h))|].
    split; [|done]. rewrite <- Hn', !plug_nodes, merge_nodes. cbn [nodes]. solve_Permutation.
  - rewrite plug_blocks, (add_blocks _ _ _ _ _ _ (blocks l) (blocks h)); [|apply merge_blocks|].
    + split; [by app_norm|]. cbn [add]. split.
      * apply (plug_heap top (Node p l st n h)); [done|apply add_at_heap; [done|lia]|].
        apply add_at_rsize; simpl; lia.
      * split; [|done]. rewrite <- Hn', !plug_nodes, add_at_nodes, merge_nodes. cbn [nodes]. solve_Permutation.
    + rewrite plug_blocks in Hok. cbn [blocks] in Hok. apply blocks_ok_app in Hok as (_ & Hok & _).
      apply blocks_ok_app in Hok as (Hok & _ & _).
      apply blocks_ok_mid in Hok as (_ & Hk1 & _ & Hlo & Hhi & _). apply cut_intro; [done|..].
      * intros x Hx. specialize (Hlo x Hx). lia.
      * intros y Hy. specialize (Hhi y Hy). lia.
Qed.

Lemma locked_allocPages_spec s size :
  wf s -> 0 < size -> size + 4095 < 2 ^ 64 ->
  (exists v s', locked_allocPages size s = Some (0, v, s') /\ wf s' /\ v mod PAGE_SIZE = 0 /\
     taken s s' v (PAGE_ROUND_UP size) None) \/
  (locked_allocPages size s = Some (_SERROR 1474 0 ENOMEM, 0, s) /\
   forall b, b ∈ blocks (anchor s) -> b.2 < PAGE_ROUND_UP size).
Proof.
  intros [Hg Hfl Hav] H0 H1. pose proof (page_round_range size H0 H1) as [Hr Hrm].
  unfold locked_allocPages. set (sz := PAGE_ROUND_UP size) in *.
  destruct (is_null_spec (anchor s)) as [Ea|[Ea Hne]].
  { right. rewrite Ea. split; [done|]. by intros b ?%not_elem_of_nil. }
  rewrite Ea. pose proof Hg as [Hh Hb Hnd Hm].
  destruct (Z.ltb_spec (rsize (anchor s)) sz) as [Hlt|Hge].
  { right. split; [done|]. intros b Hin. pose proof (heap_max _ Hh b Hin). lia. }
  left. cbn [negb andb].
  destruct (find_block_spec (search_fuel (anchor s)) [] (anchor s) sz)
    as (top & p & l & st & n & h & -> & Hn & Hh' & Hb' & Hn'); [done|done|done| |].
  { unfold search_fuel. destruct (anchor s); cbn [tsize]; lia. }
  cbn [mbind option_bind plug] in *. rewrite plug_blocks in Hb'. cbn [blocks] in Hb'.
  set (l1 := left_of top ++ blocks l) in *. set (l2 := blocks h ++ right_of top) in *.
  assert (El : blocks (anchor s) = l1 ++ (st, n) :: l2) by (rewrite <- Hb'; unfold l1, l2; by app_norm).
  rewrite El in Hb. pose proof (blocks_ok_mid _ _ _ _ Hb) as (Hblk & Hk1 & Hk2 & Hlo & Hhi & H12).
  pose proof Hblk as (B1 & B2 & B3 & B4 & B5). simpl in B1, B2, B3, B4, B5.
  rewrite (page_aligned_mod st) by (done || lia). cbn [mbind option_bind assertK].
  rewrite (uadd_small st sz), (usub_small n sz) by lia.
  destruct (tail_block_ok st n sz) as (T1 & T2 & T3 & T4); [done|lia|done|].
  destruct (take_front s top p l st n h sz) as (next & fl & -> & Hbn & Hhn & Hnn & Hfl');
    [done|done|done|by rewrite plug_blocks; cbn [blocks]; rewrite Hb', El|lia|].
  rewrite app_assoc in Hbn. fold l1 l2 in Hbn.
  assert (Hbo : blocks_ok (l1 ++ tail_block st n sz ++ l2)) by (by apply (blocks_ok_replace _ _ _ st (st + n))).
  pose proof (carve_free l1 st n l2 (tail_block st n sz) (in_range st sz) Hb) as Hcf.
  assert (Hin : forall a, in_range st sz a -> inside a (st, n)) by (unfold in_range, inside; simpl; lia).
  specialize (Hcf Hin T4).
  exists st. eexists. split; [done|]. split; [|split; [done|]].
  - constructor; cbn [anchor freeList available]; [|done|].
    + apply (good_intro (anchor s) (freeList s)); [done|done|by rewrite Hbn|done|].
      intros a Ha _. rewrite Hbn in Ha. rewrite El. by apply Hcf in Ha as [? _].
    + rewrite Hbn, Hav, El. pose proof (total_range _ Hb) as Hto. rewrite !total_app in *. cbn [total] in *.
      pose proof (total_range _ Hk1). pose proof (total_range _ Hk2). cbn [snd] in *.
      rewrite usub_small; lia.
  - constructor; cbn [anchor available page_cost in_page].
    + intros a Ha. rewrite El. apply free_mid. by apply Hin.
    + done.
    + intros a. rewrite Hbn, El, Hcf. tauto.
    + rewrite Hav, El. pose proof (total_range _ Hb) as Hto. rewrite !total_app in *. cbn [total] in *.
      pose proof (total_range _ Hk1). pose proof (total_range _ Hk2). cbn [snd] in *.
      rewrite usub_small; lia.
    + by rewrite Hnn.
Qed.

(** ** Moving a block between the tree and the outside *)

Lemma blocks_ok_gap l st n b :
  blocks_ok l -> blk_ok (st, n) -> (forall a, st - 1 <= a <= st + n -> ~ free l a) -> b ∈ l ->
  b.1 + b.2 < st \/ st + n < b.1.
Proof.
  intros Hok (S1 & S2 & _) Hf Hb. simpl in *. pose proof (blocks_ok_elem _ _ Hok Hb) as (B1 & B2 & _).
  destruct (Z.lt_ge_cases (b.1 + b.2) st) as [?|H1]; [by left|].
  destruct (Z.lt_ge_cases (st + n) b.1) as [?|H2]; [by right|]. exfalso.
  apply (Hf (Z.max (st - 1) b.1)); [lia|]. apply free_elem. exists b. split; [done|]. unfold inside. lia.
Qed.

Lemma split_gap l st n :
  blocks_ok l -> 0 < n -> (forall b, b ∈ l -> b.1 + b.2 < st \/ st + n < b.1) ->
  exists l1 l2, l = l1 ++ l2 /\ (forall b, b ∈ l1 -> b.1 + b.2 < st) /\ (forall b, b ∈ l2 -> st + n < b.1).
Proof.
  intros Hok Hn Hg. induction l as [|b l IH].
  - exists [], []. split; [done|]. split; by intros b ?%not_elem_of_nil.
  - apply blocks_ok_cons in Hok as ((B1 & B2 & _) & Hok & Hs).
    destruct (Hg b) as [Hlt|Hgt]; [by left| |].
    + destruct IH as (l1 & l2 & -> & C1 & C2); [done|intros x Hx; apply Hg; by right|].
      exists (b :: l1), l2. split; [done|]. split; [|done].
      intros x [->|Hx]%elem_of_cons; [done|by apply C1].
    + exists [], (b :: l). split; [done|]. split; [by intros x ?%not_elem_of_nil|].
      intros x [->|Hx]%elem_of_cons; [done|]. specialize (Hs x Hx). unfold before in Hs. lia.
Qed.

(** A block with a gap around it has a place in the list. *)
Lemma insert_block_ok l st n :
  blocks_ok l -> blk_ok (st, n) -> (forall a, st - 1 <= a <= st + n -> ~ free l a) ->
  exists l1 l2, l = l1 ++ l2 /\ cut st l1 l2 /\ blocks_ok (l1 ++ (st, n) :: l2).
Proof.
  intros Hok Hb Hf. pose proof Hb as (S1 & S2 & _). simpl in S1, S2.
  destruct (split_gap l st n) as (l1 & l2 & -> & C1 & C2); [done|done| |].
  { intros b Hin. by apply (blocks_ok_gap l). }
  apply blocks_ok_app in Hok as (H1 & H2 & H12). exists l1, l2. split; [done|]. split.
  - apply cut_intro; [done|..]; intros x Hx; [specialize (C1 x Hx)|specialize (C2 x Hx)]; lia.
  - apply (blocks_ok_replace l1 [(st, n)] l2 st (st + n)); [done|done|by apply blocks_ok_one|done|done|done|].
    intros b ->%list_elem_of_singleton. simpl. lia.
Qed.

(** Putting a block into the tree. *)
Lemma add_good a ns p st n lo hi :
  good a (p :: ns) -> blk_ok (st, n) -> (forall x, st - 1 <= x <= st + n -> ~ free (blocks a) x) ->
  (forall q, q ∈ nodes a ++ p :: ns -> ~ inside q (st, n)) ->
  good (add a (Node p lo st n hi)) ns /\
  (forall x, free (blocks (add a (Node p lo st n hi))) x <-> free (blocks a) x \/ inside x (st, n)) /\
  total (blocks (add a (Node p lo st n hi))) = total (blocks a) + n.
Proof.
  intros [Hh Hb Hnd Hm] Hblk Hgap Hq.
  destruct (insert_block_ok _ _ _ Hb Hblk Hgap) as (l1 & l2 & El & Hc & Hok).
  pose proof (add_blocks a p st n lo hi l1 l2 El Hc) as Eb.
  assert (Hfr : forall x, free (blocks (add a (Node p lo st n hi))) x <-> free (blocks a) x \/ inside x (st, n)).
  { intros x. rewrite Eb, El, !free_app, free_cons. tauto. }
  assert (HP : nodes (add a (Node p lo st n hi)) ++ ns ≡ₚ nodes a ++ p :: ns).
  { cbn [add]. rewrite add_at_nodes. solve_Permutation. }
  split; [|split; [exact Hfr|]].
  - constructor.
    + apply add_at_heap; [done|]. by destruct Hblk as (_ & ? & _).
    + by rewrite Eb.
    + by rewrite HP.
    + intros q Hin. rewrite HP in Hin. rewrite Hfr. intros [Hx|Hx]; [by apply (Hm q)|by apply (Hq q)].
  - rewrite Eb, El, !total_app. cbn [total snd]. lia.
Qed.

(** Taking a block out of the tree: its node becomes unused. *)
Lemma remove_good top p l st n h ns :
  good (plug top (Node p l st n h)) ns ->
  good (plug top (merge l h)) (p :: ns) /\ blk_ok (st, n) /\
  (forall x, free (blocks (plug top (merge l h))) x <->
     free (blocks (plug top (Node p l st n h))) x /\ ~ inside x (st, n)) /\
  (forall x, st - 1 <= x <= st + n -> ~ free (blocks (plug top (merge l h))) x) /\
  total (blocks (plug top (merge l h))) = total (blocks (plug top (Node p l st n h))) - n.
Proof.
  intros [Hh Hb Hnd Hm].
  assert (E1 : blocks (plug top (Node p l st n h)) = (left_of top ++ blocks l) ++ (st, n) :: (blocks h ++ right_of top)).
  { rewrite plug_blocks. cbn [blocks]. by app_norm. }
  assert (E2 : blocks (plug top (merge l h)) = (left_of top ++ blocks l) ++ [] ++ (blocks h ++ right_of top)).
  { rewrite plug_blocks, merge_blocks. by app_norm. }
  rewrite E1 in *. pose proof (blocks_ok_mid _ _ _ _ Hb) as (Hblk & H1 & H2 & Hlo & Hhi & H12).
  assert (Hfr : forall x, free (blocks (plug top (merge l h))) x <->
     free ((left_of top ++ blocks l) ++ (st, n) :: blocks h ++ right_of top) x /\ ~ inside x (st, n)).
  { intros x. rewrite E2. apply (carve_free _ st n _ [] (fun a => inside a (st, n))); [done|done|].
    intros a. rewrite free_nil. tauto. }
  assert (HP : nodes (plug top (merge l h)) ++ p :: ns ≡ₚ nodes (plug top (Node p l st n h)) ++ ns).
  { rewrite !plug_nodes, merge_nodes. cbn [nodes]. solve_Permutation. }
  pose proof (plug_heap_inv _ _ Hh) as (Z0 & Z1 & Z2 & Z3 & Z4).
  split; [|split; [done|split; [exact Hfr|split]]].
  - constructor.
    + apply (plug_heap top (Node p l st n h)); [done|by apply merge_heap|by apply merge_rsize].
    + rewrite E2. apply (blocks_ok_replace _ [] _ st (st + n)); try done; [apply blocks_ok_nil|].
      by intros b ?%not_elem_of_nil.
    + by rewrite HP.
    + intros q Hin. rewrite HP in Hin. rewrite Hfr. intros [Hx _]. by apply (Hm q).
  - intros x Hx. rewrite E2. cbn [app]. rewrite free_app, !free_elem. intros [(b & Hin & Hi)|(b & Hin & Hi)].
    + specialize (Hlo b Hin). unfold inside in Hi. lia.
    + specialize (Hhi b Hin). unfold inside in Hi. lia.
  - rewrite E2, !total_app. cbn [total snd]. rewrite total_app. lia.
Qed.

(** ** Unused nodes *)

Lemma nodes_in_range l p : p ∈ nodes_in l -> in_range l PAGE_SIZE p.
Proof.
  intros (i & -> & Hi)%list_elem_of_fmap. apply elem_of_seqZ in Hi.
  unfold in_range, PAGE_SIZE, NODE_SIZE in *. change (4096 / 32) with 128 in Hi. lia.
Qed.

Lemma nodes_in_nodup l : NoDup (nodes_in l).
Proof.
  apply NoDup_fmap_2; [|apply NoDup_seqZ]. intros i j. unfold NODE_SIZE. lia.
Qed.

Lemma nodes_in_cons l : exists ns, nodes_in l = l :: ns.
Proof.
  unfold nodes_in. change (PAGE_SIZE / NODE_SIZE) with 128. rewrite seqZ_cons by lia. rewrite fmap_cons.
  eexists. f_equal. lia.
Qed.

(** The nodes of a page that was free become unused nodes. *)
Lemma good_extend a ns a' ns' m :
  good a ns -> heap a' -> blocks_ok (blocks a') -> nodes a' ++ ns' ≡ₚ nodes a ++ ns ->
  (forall x, in_range m PAGE_SIZE x -> free (blocks a) x) ->
  (forall x, free (blocks a') x -> free (blocks a) x /\ ~ in_range m PAGE_SIZE x) ->
  good a' (nodes_in m ++ ns').
Proof.
  intros [Hh Hb Hnd Hm] Hh' Hb' HP Hpg Hf.
  assert (HP' : nodes a' ++ nodes_in m ++ ns' ≡ₚ nodes_in m ++ (nodes a ++ ns)).
  { rewrite <- HP. solve_Permutation. }
  constructor; [done|done|..].
  - rewrite HP'. apply NoDup_app. split; [apply nodes_in_nodup|]. split; [|done].
    intros p Hp Hin. apply (Hm p Hin), Hpg. by apply nodes_in_range.
  - intros p Hp Hfr. rewrite HP' in Hp. apply Hf in Hfr as [H1 H2].
    apply elem_of_app in Hp as [Hp|Hp]; [by apply H2, nodes_in_range|by apply (Hm p)].
Qed.

Lemma good_perm a ns ns' : ns ≡ₚ ns' -> good a ns -> good a ns'.
Proof. intros HP []. constructor; [done|done|..]; by setoid_rewrite <- HP. Qed.

Lemma add_first_blocks k h p m n l2 :
  left_of k = [] -> l2 = blocks h ++ right_of k -> blocks_ok ((m, n) :: l2) -> 0 < PAGE_SIZE <= n ->
  blocks (add (plug k h) (Node p Null (m + PAGE_SIZE) (n - PAGE_SIZE) h)) = (m + PAGE_SIZE, n - PAGE_SIZE) :: l2.
Proof.
  intros Hk -> Hok Hn. apply (add_blocks _ _ _ _ _ _ []).
  - by rewrite plug_blocks, Hk.
  - apply cut_intro; [apply blocks_ok_nil|by intros x ?%not_elem_of_nil|].
    intros y Hy. apply blocks_ok_cons in Hok as (_ & _ & Hs). specialize (Hs y Hy). unfold before in Hs.
    simpl in Hs. lia.
Qed.

(** Taking the first page of the lowest block, which stays in place unless the
    block above its high subtree would then be too small. *)
Lemma shrink_first k p m n h :
  heap (plug k (Node p Null m n h)) -> left_of k = [] ->
  blocks_ok (blocks (plug k (Node p Null m n h))) -> PAGE_SIZE < n ->
  let a' := if negb (is_null h) && (n - PAGE_SIZE <? rsize h)
            then add (plug k h) (Node p Null (m + PAGE_SIZE) (n - PAGE_SIZE) h)
            else plug k (Node p Null (m + PAGE_SIZE) (n - PAGE_SIZE) h) in
  heap a' /\ blocks a' = tail_block m n PAGE_SIZE ++ blocks h ++ right_of k /\
  nodes a' ≡ₚ nodes (plug k (Node p Null m n h)).
Proof.
  intros Hh Hk Hok Hn. cbv zeta. pose proof (plug_heap_inv _ _ Hh) as (_ & _ & Z2 & _ & Z4).
  rewrite plug_blocks, Hk in Hok. cbn [blocks app] in Hok.
  unfold tail_block. destruct (Z.eqb_spec n PAGE_SIZE); [lia|]. unfold PAGE_SIZE in *.
  destruct (negb (is_null h) && (n - 4096 <? rsize h)) eqn:Ec.
  - split; [|split].
    + apply add_at_heap; [by apply (plug_heap k (Node p Null m n h))|lia].
    + apply (add_first_blocks k h p m n); [done|done|done|unfold PAGE_SIZE; lia].
    + cbn [add]. rewrite add_at_nodes, !plug_nodes. by cbn [nodes app].
  - split; [|split].
    + apply (plug_heap k (Node p Null m n h)); [done| |simpl; lia]. cbn [heap rsize].
      split; [lia|]. split; [lia|]. split; [|done].
      destruct h as [|]; cbn [is_null negb andb rsize] in *; [lia|]. apply Z.ltb_ge in Ec. lia.
    + rewrite plug_blocks, Hk. by cbn [blocks app].
    + rewrite !plug_nodes. by cbn [nodes].
Qed.

(** With a block in the tree, the page comes from the lowest one. *)
Lemma extendFreeList_tree s cur v z :
  anchor s <> Null -> freeList s = [] -> good (anchor s) [cur] ->
  exists s2 m n l2, extendFreeList s v z = (s2, v, z) /\ blocks (anchor s) = (m, n) :: l2 /\
    blocks (anchor s2) = tail_block m n PAGE_SIZE ++ l2 /\
    good (anchor s2) (cur :: freeList s2) /\ freeList s2 <> [] /\
    available s2 = usub (available s) PAGE_SIZE /\
    nodes (anchor s2) ++ freeList s2 ≡ₚ nodes_in m ++ nodes (anchor s).
Proof.
  intros Hne Hfl Hg. pose proof Hg as [Hh Hb Hnd Hm].
  destruct (leftmost_spec [] (anchor s) Hne) as (k & p & m & n & h & El & Hp & Hk). cbn [plug left_of] in Hp, Hk.
  unfold extendFreeList. rewrite El.
  assert (Eb : blocks (anchor s) = (m, n) :: blocks h ++ right_of k).
  { rewrite <- Hp, plug_blocks, Hk. by cbn [blocks app]. }
  rewrite Eb in Hb. pose proof Hb as (Hblk & Hok & Hs)%blocks_ok_cons.
  pose proof Hblk as (B1 & B2 & B3 & B4 & B5). cbn [fst snd] in *.
  rewrite <- Hp in Hh. pose proof (plug_heap_inv _ _ Hh) as (_ & _ & Z2 & _ & Z4).
  assert (Hn : PAGE_SIZE <= n) by (unfold PAGE_SIZE in *; apply Z.mod_divide in B4 as [q ->]; lia).
  destruct (tail_block_ok m n PAGE_SIZE Hblk) as (T1 & _ & T3 & T4); [unfold PAGE_SIZE in *; lia|done|].
  assert (Hok2 : blocks_ok (tail_block m n PAGE_SIZE ++ blocks h ++ right_of k)).
  { apply (blocks_ok_replace [] _ _ m (m + n)); try done; try apply blocks_ok_nil.
    - by intros x y ?%not_elem_of_nil.
    - by intros x ?%not_elem_of_nil. }
  assert (Hgd : forall a' ns', heap a' -> blocks a' = tail_block m n PAGE_SIZE ++ blocks h ++ right_of k ->
    nodes a' ++ ns' ≡ₚ nodes (anchor s) ++ [cur] -> good a' (nodes_in m ++ ns')).
  { intros a' ns' Hha Hba HPa. apply (good_extend (anchor s) [cur]); [done|done|by rewrite Hba|done|..]; rewrite Eb.
    - intros x Hx. rewrite free_cons. left. unfold in_range, inside in *. simpl. lia.
    - intros x. rewrite Hba.
      apply (carve_free [] m n (blocks h ++ right_of k) (tail_block m n PAGE_SIZE) (in_range m PAGE_SIZE));
        [done| |done]. unfold in_range, inside. simpl. lia. }
  destruct (nodes_in_cons m) as [nm Enm].
  destruct (Z.eqb_spec n PAGE_SIZE) as [En|En].
  - eexists _, m, n, _. split; [done|]. cbn [anchor freeList available].
    assert (Ebn : blocks (plug k h) = tail_block m n PAGE_SIZE ++ blocks h ++ right_of k).
    { rewrite plug_blocks, Hk. unfold tail_block. by rewrite (proj2 (Z.eqb_eq _ _) En). }
    split; [done|]. split; [done|]. split; [|split; [by rewrite Enm|split; [done|]]].
    2:{ rewrite <- Hp, !plug_nodes. cbn [nodes]. solve_Permutation. }
    apply (good_perm _ (nodes_in m ++ [p; cur])); [solve_Permutation|].
    apply Hgd; [by apply (plug_heap k (Node p Null m n h))|done|].
    rewrite <- Hp, !plug_nodes. cbn [nodes]. solve_Permutation.
  - unfold PAGE_SIZE in *. rewrite (uadd_small m), (usub_small n) by lia. rewrite Hfl, app_nil_r.
    destruct (shrink_first k p m n h Hh Hk) as (Ha1 & Ha2 & Ha3); [by rewrite Hp, Eb|unfold PAGE_SIZE; lia|].
    unfold PAGE_SIZE in *. rewrite Hp in Ha3.
    set (a' := if negb (is_null h) && (n - 4096 <? rsize h)
      then add (plug k h) (Node p Null (m + 4096) (n - 4096) h)
      else plug k (Node p Null (m + 4096) (n - 4096) h)) in *.
    eexists _, m, n, _. split; [done|]. cbn [anchor freeList available].
    split; [done|]. split; [done|]. split; [|split; [by rewrite Enm|split; [done|]]].
    2:{ rewrite Ha3. solve_Permutation. }
    apply (good_perm _ (nodes_in m ++ [cur])); [solve_Permutation|]. apply Hgd; [done|done|by rewrite Ha3].
Qed.

(** The same in terms of the free memory. *)
Lemma extendFreeList_spec s cur v z :
  anchor s <> Null -> freeList s = [] -> good (anchor s) [cur] ->
  exists s2 m, extendFreeList s v z = (s2, v, z) /\
    good (anchor s2) (cur :: freeList s2) /\ freeList s2 <> [] /\
    available s2 = usub (available s) PAGE_SIZE /\
    nodes (anchor s2) ++ freeList s2 ≡ₚ nodes_in m ++ nodes (anchor s) /\
    (forall x, in_range m PAGE_SIZE x -> free (blocks (anchor s)) x) /\
    (forall x, free (blocks (anchor s2)) x <-> free (blocks (anchor s)) x /\ ~ in_range m PAGE_SIZE x) /\
    total (blocks (anchor s2)) = total (blocks (anchor s)) - PAGE_SIZE.
Proof.
  intros Hne Hfl Hg. destruct (extendFreeList_tree s cur v z Hne Hfl Hg)
    as (s2 & m & n & l2 & E & Eb & Eb2 & Hg2 & Hfl2 & Hav & HP).
  pose proof (good_blocks _ _ Hg) as Hb. rewrite Eb in Hb. pose proof Hb as (Hblk & _ & _)%blocks_ok_cons.
  pose proof Hblk as (_ & B2 & _ & B4 & _). cbn [snd] in *.
  assert (Hn : PAGE_SIZE <= n) by (unfold PAGE_SIZE in *; apply Z.mod_divide in B4 as [q ->]; lia).
  destruct (tail_block_ok m n PAGE_SIZE Hblk) as (_ & T2 & _ & T4); [unfold PAGE_SIZE in *; lia|done|].
  assert (Hin : forall x, in_range m PAGE_SIZE x -> inside x (m, n)) by (unfold in_range, inside; simpl; lia).
  exists s2, m. split; [done|]. split; [done|]. split; [done|]. split; [done|]. split; [done|]. rewrite Eb. split; [|split].
  - intros x Hx. rewrite free_cons. left. by apply Hin.
  - intros x. rewrite Eb2. by apply (carve_free [] m n l2 (tail_block m n PAGE_SIZE) (in_range m PAGE_SIZE)).
  - rewrite Eb2, total_app, T2. cbn [total snd]. lia.
Qed.

(** ** allocFromBlock *)

Definition charge (av : Z) (m : option Z) : Z :=
  match m with Some _ => usub av PAGE_SIZE | None => av end.

(** What allocFromBlock does, the accounting of [available] apart. *)
Record carved (s s' : t) (v size : Z) (m : option Z) : Prop := {
  cv_good : good (anchor s') (freeList s');
  cv_free : freeList s' <> [];
  cv_total : total (blocks (anchor s')) = total (blocks (anchor s)) - size - page_cost m;
  cv_avail : available s' = charge (available s) m;
  cv_page : forall a, in_page m a -> free (blocks (anchor s)) a /\ ~ in_range v size a;
  cv_rest : forall a, free (blocks (anchor s')) a <->
    free (blocks (anchor s)) a /\ ~ in_range v size a /\ ~ in_page m a;
  cv_nodes : nodes (anchor s') ++ freeList s' ≡ₚ page_nodes m ++ nodes (anchor s) ++ freeList s;
}.

Lemma add_not_null a p lo st n hi : add a (Node p lo st n hi) <> Null.
Proof.
  simpl. destruct a as [|q l s k h]; [done|]. cbn [add_at].
  destruct (n <? k), (s <? st); try done; [destruct (findhigh st h)|destruct (findlow st l)]; done.
Qed.

Lemma blk_ok_sub st n a b :
  blk_ok (st, n) -> st <= a -> 0 < b -> a + b <= st + n -> a mod PAGE_SIZE = 0 -> b mod PAGE_SIZE = 0 -> blk_ok (a, b).
Proof. intros (H1 & H2 & H3 & H4 & H5) Ha Hb Hab Hma Hmb. simpl in *. repeat split; simpl; (done || lia). Qed.

(** A block enters the tree with a node from the free list; when that was the
    last unused one, a page of the tree is turned into nodes first. *)
Lemma new_block_spec a1 cur fl st k av :
  good a1 (cur :: fl) -> (fl = [] -> a1 <> Null) -> blk_ok (st, k) ->
  (forall x, st - 1 <= x <= st + k -> ~ free (blocks a1) x) ->
  (forall q, q ∈ nodes a1 ++ cur :: fl -> ~ inside q (st, k)) ->
  exists s2 m,
    (if bool_decide (fl = []) then extendFreeList (mkPA a1 fl av) st k else (mkPA a1 fl av, st, k))
      = (s2, st, k) /\
    let a2 := add (anchor s2) (Node cur Null st k Null) in
    good a2 (freeList s2) /\ freeList s2 <> [] /\ available s2 = charge av m /\
    (forall x, in_page m x -> free (blocks a1) x) /\
    (forall x, free (blocks a2) x <-> (free (blocks a1) x /\ ~ in_page m x) \/ inside x (st, k)) /\
    total (blocks a2) = total (blocks a1) + k - page_cost m /\
    nodes a2 ++ freeList s2 ≡ₚ page_nodes m ++ nodes a1 ++ cur :: fl.
Proof.
  intros Hg Hne Hblk Hgap Hq. cbv zeta. case_bool_decide as Hfl.
  - subst fl. destruct (extendFreeList_spec (mkPA a1 [] av) cur st k)
      as (s2 & m & E & Hg2 & Hfl2 & Hav & Hnd & Hpg & Hfr & Hto); [by apply Hne|done..|]. cbn [anchor available] in *.
    exists s2, (Some m). split; [done|].
    destruct (add_good (anchor s2) (freeList s2) cur st k Null Null) as (Ha1 & Ha2 & Ha3); [done|done|..].
    + intros x Hx Hf. apply Hfr in Hf as [Hf _]. by apply (Hgap x).
    + intros q Hin. rewrite <- Permutation_middle in Hin. apply elem_of_cons in Hin as [->|Hin].
      { apply Hq. apply elem_of_app. right. by left. }
      rewrite Hnd in Hin. apply elem_of_app in Hin as [Hin%nodes_in_range|Hin]; [|apply Hq, elem_of_app; by left].
      intros Hi. apply (Hgap q); [unfold inside in Hi; simpl in Hi; lia|by apply Hpg].
    + split; [done|]. split; [done|]. split; [done|]. split; [done|].
      split; [intros x; rewrite Ha2, Hfr; done|]. split; [cbn [page_cost]; lia|].
      cbn [add]. rewrite add_at_nodes. cbn [app page_nodes nodes]. rewrite Hnd. solve_Permutation.
  - exists (mkPA a1 fl av), None. split; [done|]. cbn [anchor freeList available].
    destruct (add_good a1 fl cur st k Null Null) as (Ha1 & Ha2 & Ha3); [done..|].
    split; [done|]. split; [done|]. split; [done|]. split; [done|].
    split; [intros x; rewrite Ha2; cbn [in_page]; tauto|]. split; [cbn [page_cost]; lia|].
    cbn [add]. rewrite add_at_nodes. cbn [app page_nodes]. solve_Permutation.
Qed.

(** Decide the ranges of addresses that the goal mentions. *)
Ltac decide_ranges :=
  repeat match goal with
  | |- context [?a <= ?x < ?b] =>
      lazymatch goal with
      | H : a <= x < b |- _ => fail
      | H : ~ (a <= x < b) |- _ => fail
      | _ => destruct (decide (a <= x < b))
      end
  end; try (exfalso; lia); try tauto.

(** Decide where [x] lies relative to the block; all of the block is free. *)
Ltac free_cases Hall x :=
  match type of Hall with
  | forall x, ?lo <= x < ?hi -> _ =>
      let H := fresh in destruct (decide (lo <= x < hi)) as [H|H]; [pose proof (Hall x H)|]; decide_ranges
  end.

(** With the block at [top] taken out of the tree, any part of it can be put
    back with its node. *)
Lemma detach s top p low st n high :
  wf s -> plug top (Node p low st n high) = anchor s ->
  let a0 := plug top (merge low high) in
  good a0 (p :: freeList s) /\ blk_ok (st, n) /\
  (forall x, free (blocks a0) x <-> free (blocks (anchor s)) x /\ ~ (st <= x < st + n)) /\
  (forall x, st - 1 <= x <= st + n -> ~ free (blocks a0) x) /\
  total (blocks a0) = total (blocks (anchor s)) - n /\
  (forall x, st <= x < st + n -> free (blocks (anchor s)) x) /\
  nodes a0 ++ p :: freeList s ≡ₚ nodes (anchor s) ++ freeList s /\
  (forall a b, st <= a -> 0 < b -> a + b <= st + n -> a mod PAGE_SIZE = 0 -> b mod PAGE_SIZE = 0 ->
    good (add a0 (Node p low a b high)) (freeList s) /\
    (forall x, free (blocks (add a0 (Node p low a b high))) x <-> free (blocks a0) x \/ inside x (a, b)) /\
    total (blocks (add a0 (Node p low a b high))) = total (blocks a0) + b).
Proof.
  intros [Hg _ _] Ea a0. rewrite <- Ea in *.
  destruct (remove_good _ _ _ _ _ _ _ Hg) as (G0 & Hblk & F0 & Gap0 & T0). fold a0 in G0, F0, Gap0, T0.
  assert (Hall : forall x, st <= x < st + n -> free (blocks (plug top (Node p low st n high))) x).
  { intros x Hx. rewrite plug_blocks. cbn [blocks]. rewrite !free_app, free_cons. unfold inside. simpl. tauto. }
  assert (HP : nodes a0 ++ p :: freeList s ≡ₚ nodes (plug top (Node p low st n high)) ++ freeList s).
  { unfold a0. rewrite !plug_nodes, merge_nodes. cbn [nodes]. solve_Permutation. }
  repeat (split; [done|]). intros a b H1 H2 H3 H4 H5. apply add_good; [done|by apply (blk_ok_sub st n)|..].
  - intros x Hx. apply Gap0. lia.
  - intros q Hq Hi. rewrite HP in Hq. apply (good_meta _ _ Hg q Hq), Hall. unfold inside in Hi. simpl in Hi. lia.
Qed.

Lemma allocFromBlock_spec s top p low st n high v size :
  wf s -> plug top (Node p low st n high) = anchor s -> st <= v -> v + size <= st + n -> 0 < size ->
  v mod PAGE_SIZE = 0 -> size mod PAGE_SIZE = 0 ->
  exists s' m, allocFromBlock s top p low st n high v size = Some s' /\ carved s s' v size m.
Proof.
  intros Hwf Ea Hv Hvn Hs0 Hmv Hms.
  destruct (detach _ _ _ _ _ _ _ Hwf Ea) as (G0 & Hblk & F0 & Gap0 & T0 & Hall & HP & Hpart).
  pose proof Hblk as (B1 & B2 & B3 & B4 & B5). cbn [fst snd] in *. destruct Hwf as [Hg Hfl Hav].
  unfold allocFromBlock. rewrite (uadd_small st n), (uadd_small v size), (usub_small (st + n)) by lia.
  set (a0 := plug top (merge low high)) in *. pose proof (mod_sub0 v st Hmv B3) as Hmf.
  assert (Hmr : (st + n - (v + size)) mod PAGE_SIZE = 0) by (by apply mod_sub0; apply mod_add0).
  assert (Hnd : forall a b, nodes (add a0 (Node p low a b high)) ++ freeList s ≡ₚ nodes (anchor s) ++ freeList s).
  { intros a b. cbn [add]. rewrite add_at_nodes, <- HP. cbn [app]. solve_Permutation. }
  destruct (Z.ltb_spec st v) as [Hlt|Hge]; [rewrite (usub_small v st) by lia|].
  all: destruct (Z.eqb_spec (st + n - (v + size)) 0) as [Er|Er]; cbn [negb Z.eqb].
  - rewrite (proj2 (Z.eqb_neq st 0)) by lia. cbn [negb].
    destruct (Hpart st (v - st)) as (P1 & P2 & P3); [lia|lia|lia|done|done|].
    eexists _, None. split; [done|]. constructor; cbn [anchor freeList available charge in_page page_cost]; try (done || lia).
    intros x. rewrite P2, F0. unfold inside, in_range. simpl. free_cases Hall x.
  - rewrite (proj2 (Z.eqb_neq st 0)) by lia. cbn [negb].
    destruct (Hpart (v + size) (st + n - (v + size))) as (P1 & P2 & P3); [lia|lia|lia|by apply mod_add0|done|].
    specialize (Hnd (v + size) (st + n - (v + size))).
    destruct (freeList s) as [|cur fl] eqn:Efl; [done|].
    destruct (new_block_spec (add a0 (Node p low (v + size) (st + n - (v + size)) high)) cur fl st (v - st) (available s))
      as (s2 & m & E & N1 & N2 & N3 & N4 & N5 & N6 & N7).
    + done.
    + intros _. apply add_not_null.
    + apply (blk_ok_sub st n); (done || lia).
    + intros x Hx. rewrite P2. intros [Hf|Hf]; [apply (Gap0 x); [lia|done]|]. unfold inside in Hf. simpl in Hf. lia.
    + intros q Hq Hi. rewrite Hnd in Hq. apply (good_meta _ _ Hg q); [done|]. apply Hall. unfold inside in Hi. simpl in Hi. lia.
    + rewrite E. eexists _, m. split; [done|].
      constructor; cbn [anchor freeList available]; rewrite ?Efl; try done.
      * lia.
      * intros x Hx. apply N4 in Hx. revert Hx. rewrite P2, F0. unfold inside, in_range. simpl. free_cases Hall x.
      * intros x. rewrite N5, P2, F0. specialize (N4 x). rewrite P2, F0 in N4.
        revert N4. unfold inside, in_range. simpl. free_cases Hall x.
      * by rewrite N7, Hnd.
  - eexists _, None. split; [done|].
    constructor; cbn [anchor freeList available charge in_page page_cost]; try (done || lia).
    intros x. rewrite F0. unfold in_range. free_cases Hall x.
  - destruct (Hpart (v + size) (st + n - (v + size))) as (P1 & P2 & P3); [lia|lia|lia|by apply mod_add0|done|].
    eexists _, None. split; [done|]. constructor; cbn [anchor freeList available charge in_page page_cost]; try (done || lia).
    intros x. rewrite P2, F0. unfold inside, in_range. simpl. free_cases Hall x.
Qed.

(** ** allocPagesAt *)

(** The parts of the tree around a position. *)
Lemma plug_ok top p l s n h :
  blocks_ok (blocks (plug top (Node p l s n h))) ->
  blk_ok (s, n) /\ (forall x, x ∈ left_of top ++ blocks l -> x.1 + x.2 < s) /\
  (forall y, y ∈ blocks h ++ right_of top -> s + n < y.1).
Proof.
  intros Hok. rewrite plug_blocks in Hok. cbn [blocks] in Hok.
  assert (E : left_of top ++ (blocks l ++ (s, n) :: blocks h) ++ right_of top
    = (left_of top ++ blocks l) ++ (s, n) :: blocks h ++ right_of top) by by app_norm.
  rewrite E in Hok. apply blocks_ok_mid in Hok as (H1 & _ & _ & H2 & H3 & _). done.
Qed.

Lemma free_none l1 l2 v :
  (forall x, x ∈ l1 -> x.1 + x.2 <= v) -> (forall y, y ∈ l2 -> v < y.1) -> ~ free (l1 ++ l2) v.
Proof.
  intros H1 H2. rewrite free_app, !free_elem. intros [(b & Hb & Hi)|(b & Hb & Hi)]; unfold inside in Hi.
  - specialize (H1 b Hb). lia.
  - specialize (H2 b Hb). lia.
Qed.

Lemma find_at_spec top cur v size :
  blocks_ok (blocks (plug top cur)) -> 0 <= v -> 0 < size -> v + size < 2 ^ 64 ->
  (forall x, x ∈ left_of top -> x.1 + x.2 <= v) -> (forall y, y ∈ right_of top -> v < y.1) ->
  match find_at top cur v size with
  | Some (top', Node p l s n h) =>
      plug top' (Node p l s n h) = plug top cur /\ s <= v /\ v + size <= s + n
  | Some (_, Null) => False
  | None => exists a, in_range v size a /\ ~ free (blocks (plug top cur)) a
  end.
Proof.
  revert top. induction cur as [|p l IHl s n h IHh]; intros top Hok Hv Hs Hvs Hl Hr; cbn [find_at].
  - exists v. split; [unfold in_range; lia|]. rewrite plug_blocks. cbn [blocks app]. by apply free_none.
  - destruct (plug_ok _ _ _ _ _ _ Hok) as ((B1 & B2 & _ & _ & B5) & Hlo & Hhi). cbn [fst snd] in *.
    rewrite (uadd_small s n), (uadd_small v size) by lia.
    destruct (Z.leb_spec s v) as [Hsv|Hsv], (Z.ltb_spec v (s + n)) as [Hvn|Hvn]; cbn [andb];
      try (destruct (Z.ltb_spec v s); [|lia]); try (destruct (Z.ltb_spec v s); [lia|]).
    + destruct (Z.leb_spec (v + size) (s + n)); [done|]. exists (s + n). split; [unfold in_range; lia|].
      rewrite plug_blocks. cbn [blocks]. rewrite <- app_assoc, app_assoc. cbn [app]. rewrite (cons_middle (s, n)), app_assoc.
      apply free_none; [|done].
      intros x [Hx|Hx]%elem_of_app; [specialize (Hlo x Hx); lia|]. apply list_elem_of_singleton in Hx as ->. simpl. lia.
    + apply (IHh (InHigh p l s n :: top)); try done. cbn [left_of].
      intros x Hx. rewrite app_assoc in Hx. apply elem_of_app in Hx as [Hx|Hx]; [specialize (Hlo x Hx); lia|].
      apply list_elem_of_singleton in Hx as ->. simpl. lia.
    + apply (IHl (InLow p s n h :: top)); try done. cbn [right_of].
      intros y [->|Hy]%elem_of_cons; [done|]. specialize (Hhi y Hy). lia.
    + apply (IHl (InLow p s n h :: top)); try done. cbn [right_of].
      intros y [->|Hy]%elem_of_cons; [done|]. specialize (Hhi y Hy). lia.
Qed.

(** The accounting of [available]. *)
Lemma carved_taken s s' v size m :
  wf s -> carved s s' v size m -> (forall a, in_range v size a -> free (blocks (anchor s)) a) -> 0 < size ->
  let s'' := mkPA (anchor s') (freeList s') (usub (available s') size) in
  wf s'' /\ taken s s'' v size m.
Proof.
  intros [Hg Hfl Hav] [C1 C2 C3 C4 C5 C6] Hfree Hs. cbv zeta.
  pose proof (total_range _ (good_blocks _ _ C1)) as Hto. pose proof (total_range _ (good_blocks _ _ Hg)) as Hto0.
  assert (Hav' : usub (available s') size = total (blocks (anchor s'))).
  { rewrite C4, C3, Hav in *. destruct m; cbn [charge page_cost] in *.
    - rewrite (usub_small (total (blocks (anchor s)))), usub_small; unfold PAGE_SIZE in *; lia.
    - rewrite usub_small; lia. }
  split; constructor; cbn [anchor freeList available]; try done.
  rewrite Hav', C3, Hav. done.
Qed.

Lemma locked_allocPagesAt_spec s v size :
  wf s -> 0 <= v -> v mod PAGE_SIZE = 0 -> 0 < size -> size mod PAGE_SIZE = 0 -> v + size < 2 ^ 64 ->
  (exists s' m, locked_allocPagesAt v size s = Some (0, s') /\ wf s' /\ taken s s' v size m) \/
  (locked_allocPagesAt v size s = Some (_SERROR 1475 0 ENOMEM, s) /\
   exists a, in_range v size a /\ ~ free (blocks (anchor s)) a).
Proof.
  intros Hwf Hv Hvm Hs Hsm Hvs. unfold locked_allocPagesAt.
  rewrite (page_aligned_mod v) by (done || lia). cbn [assertK mbind option_bind].
  pose proof (find_at_spec [] (anchor s) v size) as Hf. cbn [plug left_of right_of] in Hf.
  specialize (Hf (good_blocks _ _ (wf_good _ Hwf)) Hv Hs Hvs
    ltac:(by intros x ?%not_elem_of_nil) ltac:(by intros x ?%not_elem_of_nil)).
  destruct (find_at [] (anchor s) v size) as [[top [|p l st n h]]|]; [done| |by right].
  destruct Hf as (Ep & H1 & H2). left.
  destruct (allocFromBlock_spec s top p l st n h v size) as (s' & m & -> & Hc); [done..|].
  cbn [mbind option_bind]. eexists _, m. split; [done|]. apply carved_taken; try done.
  intros a Ha. rewrite <- Ep, plug_blocks. cbn [blocks]. rewrite !free_app, free_cons.
  unfold inside, in_range in *. simpl. right; left; right; left. lia.
Qed.

(** ** allocPagesAligned *)

Lemma align_from_spec start align offset :
  0 <= start -> 0 < align -> 0 <= offset < align -> start + align < 2 ^ 64 ->
  start <= align_from start align offset < start + align /\ align_from start align offset mod align = offset.
Proof.
  intros Hs Ha Ho Hw. unfold align_from.
  rewrite (uadd_small start align), (usub_small (start + align) offset), (usub_small (start + align - offset) 1) by lia.
  set (x := start + align - offset - 1).
  pose proof (Z.mul_div_le x align Ha). pose proof (Z.mul_succ_div_gt x align Ha).
  assert (0 <= x / align) by (apply Z.div_pos; lia).
  rewrite umul_small, uadd_small by nia. split; [nia|].
  rewrite Z.add_comm, Z.mod_add by lia. apply Z.mod_small. lia.
Qed.

(** A multiple of the page size when both parameters are. *)
Lemma align_from_page start align offset :
  0 <= start -> 0 < align -> 0 <= offset < align -> start + align < 2 ^ 64 ->
  align mod PAGE_SIZE = 0 -> offset mod PAGE_SIZE = 0 -> align_from start align offset mod PAGE_SIZE = 0.
Proof.
  intros Hs Ha Ho Hw Hma Hmo. destruct (align_from_spec start align offset) as [_ Hm]; [done..|].
  set (v := align_from start align offset) in *. rewrite (Z.div_mod v align) by lia. rewrite Hm.
  apply mod_add0; [|done]. unfold PAGE_SIZE in *. by rewrite Z.mul_mod, Hma by lia.
Qed.

Fixpoint height (a : tree) : nat :=
  match a with Null => O | Node _ l _ _ h => S (Nat.max (height l) (height h)) end.

Lemma plug_height top cur : (length top + height cur <= height (plug top cur))%nat.
Proof.
  revert cur. induction top as [|[p s n h|p l s n] top IH]; intros cur; simpl; [lia|..].
  - specialize (IH (Node p cur s n h)). simpl in IH. lia.
  - specialize (IH (Node p l s n cur)). simpl in IH. lia.
Qed.

Lemma plug_elem a k p l s n h : plug k (Node p l s n h) = a -> (s, n) ∈ blocks a.
Proof. intros <-. rewrite plug_blocks. cbn [blocks]. rewrite !elem_of_app, elem_of_cons. tauto. Qed.

Section aligned.
Context (a : tree) (size align offset : Z).
Hypothesis Hheap : heap a.
Hypothesis Hok : blocks_ok (blocks a).
Hypothesis Hsize : 0 < size.
Hypothesis Halign : 0 < align.
Hypothesis Hoffset : 0 <= offset < align.
Hypothesis Hwrap : forall b, b ∈ blocks a -> b.1 + align + size < 2 ^ 64.

(** The block can serve the request. *)
Definition fits (b : Z * Z) : Prop := align_from b.1 align offset + size <= b.1 + b.2.

Definition found_ok (f : option (path * tree)) : Prop :=
  match f with
  | None => True
  | Some (k, Node p l s n h) => plug k (Node p l s n h) = a /\ fits (s, n)
  | Some (_, Null) => False
  end.

(** Every position on the stack has a high subtree, and lies at least as deep
    as the number of positions below it. *)
Fixpoint stack_ok (st : list (path * tree)) : Prop :=
  match st with
  | [] => True
  | (k, Node p l s n h) :: st => plug k (Node p l s n h) = a /\ h <> Null /\ (length st <= length k)%nat /\ stack_ok st
  | (_, Null) :: _ => False
  end.

Fixpoint stack_blocks (st : list (path * tree)) : list (Z * Z) :=
  match st with
  | (_, Node _ _ _ _ h) :: st => blocks h ++ stack_blocks st
  | _ => []
  end.

Fixpoint stack_size (st : list (path * tree)) : nat :=
  match st with
  | (_, Node _ _ _ _ h) :: st => (tsize h + stack_size st)%nat
  | _ => O
  end.

Lemma fits_bound k p l s n h :
  plug k (Node p l s n h) = a ->
  0 <= s /\ s <= align_from s align offset /\ align_from s align offset + size < 2 ^ 64 /\ s + n < 2 ^ 64 /\ 0 < n.
Proof.
  intros Ep. apply plug_elem in Ep. destruct (blocks_ok_elem _ _ Hok Ep) as (B1 & B2 & _ & _ & B5).
  pose proof (Hwrap _ Ep) as Hw. cbn [fst snd] in *.
  destruct (align_from_spec s align offset) as [? _]; lia.
Qed.

(** A subtree whose root is too small holds no block that fits. *)
Lemma small_no_fit top cur b :
  plug top cur = a -> rsize cur < size -> b ∈ blocks cur -> ~ fits b.
Proof.
  intros Ep Hlt Hb Hf. rewrite <- Ep in Hheap. pose proof (heap_max _ (plug_heap_inv _ _ Hheap) b Hb).
  assert (Hin : b ∈ blocks a) by (rewrite <- Ep, plug_blocks, !elem_of_app; tauto).
  destruct (blocks_ok_elem _ _ Hok Hin) as (B1 & B2 & _ & _ & B5). pose proof (Hwrap _ Hin).
  destruct (align_from_spec b.1 align offset) as [? _]; [lia..|]. unfold fits in Hf. lia.
Qed.

Lemma find_aligned_spec fuel stack top cur found :
  plug top cur = a -> cur <> Null -> stack_ok stack -> (length stack <= length top)%nat -> found_ok found ->
  (tsize cur + stack_size stack < fuel)%nat ->
  exists r, find_aligned fuel stack top cur found size align offset = Some r /\ found_ok r /\
    (r = None -> found = None /\ ((height a <= STACK_SIZE)%nat ->
       forall b, b ∈ blocks cur ++ stack_blocks stack -> ~ fits b)).
Proof.
  revert stack top cur found. induction fuel as [|fuel IH]; intros stack top cur found Ep Hne Hst Hlen Hfo Hfu; [lia|].
  destruct cur as [|p l s n h]; [done|]. cbn [find_aligned].
  destruct (fits_bound _ _ _ _ _ _ Ep) as (F1 & F2 & F3 & F4 & F5).
  rewrite (uadd_small _ size), (uadd_small s n) by lia.
  set (found1 := if align_from s align offset + size <=? s + n then Some (top, Node p l s n h) else found).
  assert (Hf1 : found_ok found1 /\ (found1 = None -> found = None /\ ~ fits (s, n))).
  { unfold found1. destruct (Z.leb_spec (align_from s align offset + size) (s + n)); [done|].
    split; [done|]. intros E. split; [done|]. unfold fits. simpl. lia. }
  destruct Hf1 as [Hf1 Hf1n]. clearbody found1. cbn [tsize] in Hfu.
  destruct ((n <? size) || (is_null l && is_null h)) eqn:Eb.
  - assert (Hcur : found1 = None -> forall b, b ∈ blocks (Node p l s n h) -> ~ fits b).
    { intros E b Hb. apply orb_true_iff in Eb as [Hn|Hn].
      - apply Z.ltb_lt in Hn. by apply (small_no_fit top (Node p l s n h)).
      - destruct l, h; try done. apply list_elem_of_singleton in Hb as ->. by apply Hf1n. }
    destruct found1 as [f|]; [by exists (Some f)|]. destruct Hf1n as [Hfn Hnf]; [done|].
    destruct stack as [|[k [|p' l' s' n' h']] stack]; [|done|].
    + exists None. split; [done|]. split; [done|]. intros _. split; [done|]. intros _ b Hb.
      cbn [stack_blocks] in Hb. rewrite app_nil_r in Hb. by apply Hcur.
    + destruct Hst as (S1 & S2 & S3 & S4). cbn [stack_size stack_blocks] in *.
      destruct (IH stack (InHigh p' l' s' n' :: k) h' None) as (r & Er & Hr & Hrn);
        [done|done|done|simpl; lia|done|lia|].
      exists r. split; [done|]. split; [done|]. intros E. split; [done|]. intros Hh b Hb.
      apply elem_of_app in Hb as [Hb|Hb]; [by apply Hcur|]. destruct (Hrn E) as [_ Hall]. by apply Hall.
  - apply orb_false_iff in Eb as [En Elh]. destruct (is_null_spec l) as [->|[El Hl]]; cbn [is_null negb].
    + destruct (is_null_spec h) as [->|[Eh Hh]]; [done|].
      destruct (IH stack (InHigh p Null s n :: top) h found1) as (r & Er & Hr & Hrn);
        [done|done|done|simpl; lia|done|lia|].
      exists r. split; [done|]. split; [done|]. intros E. destruct (Hrn E) as [E1 Hall].
      destruct (Hf1n E1) as [E2 Hnf]. split; [done|]. intros Hh2 b. cbn [blocks app].
      rewrite elem_of_cons. intros [->|Hb]; [done|by apply Hall].
    + rewrite El. cbn [negb].
      set (stack1 := if negb (is_null h) && bool_decide (length stack < STACK_SIZE)%nat
                     then (top, Node p l s n h) :: stack else stack).
      assert (Hs1 : stack_ok stack1 /\ (length stack1 <= S (length top))%nat /\
        (stack_size stack1 <= tsize h + stack_size stack)%nat /\
        ((height a <= STACK_SIZE)%nat -> forall b, b ∈ blocks h ++ stack_blocks stack -> b ∈ stack_blocks stack1)).
      { unfold stack1. destruct (is_null_spec h) as [->|[Eh Hh]]; cbn [is_null negb andb].
        - split; [done|]. split; [lia|]. split; [lia|]. done.
        - rewrite Eh. cbn [negb andb]. case_bool_decide as Hc.
          + cbn [stack_ok stack_size stack_blocks length]. split; [done|]. split; [lia|]. split; [lia|]. done.
          + split; [done|]. split; [lia|]. split; [lia|]. intros Hht.
            pose proof (plug_height top (Node p l s n h)) as Hph. rewrite Ep in Hph. cbn [height] in Hph. lia. }
      destruct Hs1 as (T1 & T2 & T3 & T4).
      destruct (IH stack1 (InLow p s n h :: top) l found1) as (r & Er & Hr & Hrn);
        [done|done|done|simpl; lia|done|lia|].
      exists r. split; [done|]. split; [done|]. intros E. destruct (Hrn E) as [E1 Hall].
      destruct (Hf1n E1) as [E2 Hnf]. split; [done|]. intros Hht b. cbn [blocks].
      rewrite <- app_assoc, elem_of_app. cbn [app]. rewrite elem_of_cons. intros [Hb|[->|Hb]]; [|done|].
      * apply Hall; [done|]. apply elem_of_app. by left.
      * apply Hall; [done|]. apply elem_of_app. right. by apply T4.
Qed.

End aligned.

#[export] Instance inside_dec a b : Decision (inside a b).
Proof. unfold inside. apply _. Defined.

(** A range lies within one block or is not all free, because blocks do not touch. *)
Lemma range_in_block l v size :
  blocks_ok l -> 0 < size ->
  (exists b, b ∈ l /\ b.1 <= v /\ v + size <= b.1 + b.2) \/ (exists a, in_range v size a /\ ~ free l a).
Proof.
  intros Hok Hs. destruct (decide (Exists (inside v) l)) as [Hf|Hf].
  2:{ right. exists v. split; [unfold in_range; lia|done]. }
  apply Exists_exists in Hf as ([s n] & Hb & Hi). unfold inside in Hi. cbn [fst snd] in Hi.
  destruct (Z.lt_ge_cases (s + n) (v + size)) as [Hlt|].
  2:{ left. exists (s, n). cbn [fst snd]. split; [done|lia]. }
  right. exists (s + n). split; [unfold in_range; lia|]. apply list_elem_of_split in Hb as (l1 & l2 & ->).
  pose proof (blocks_ok_mid _ _ _ _ Hok) as ((B1 & B2 & _) & _ & _ & Hlo & Hhi & _). cbn [fst snd] in *.
  rewrite (cons_middle (s, n)), app_assoc. apply free_none; [|done].
  intros x [Hx|Hx]%elem_of_app; [specialize (Hlo x Hx); lia|]. apply list_elem_of_singleton in Hx as ->. simpl. lia.
Qed.

(** [align_from] is the least suitable address. *)
Lemma align_from_least start align offset v :
  0 <= start <= v -> 0 < align -> 0 <= offset < align -> start + align < 2 ^ 64 -> v mod align = offset ->
  align_from start align offset <= v.
Proof.
  intros Hs Ha Ho Hw Hv. destruct (align_from_spec start align offset) as [Hr Hm]; [lia..|].
  set (w := align_from start align offset) in *.
  pose proof (Z.div_mod w align ltac:(lia)). pose proof (Z.div_mod v align ltac:(lia)).
  destruct (Z.le_gt_cases w v); [done|]. assert (v / align < w / align) by nia. nia.
Qed.

Lemma locked_allocPagesAligned_spec s size align offset :
  wf s -> 0 < size -> size + 4095 < 2 ^ 64 -> 0 < align -> 0 <= offset < align ->
  align mod PAGE_SIZE = 0 -> offset mod PAGE_SIZE = 0 ->
  (forall b, b ∈ blocks (anchor s) -> b.1 + align + PAGE_ROUND_UP size < 2 ^ 64) ->
  (exists v s' m, locked_allocPagesAligned size align offset s = Some (0, v, s') /\ wf s' /\
     v mod PAGE_SIZE = 0 /\ v mod align = offset /\ taken s s' v (PAGE_ROUND_UP size) m) \/
  (locked_allocPagesAligned size align offset s = Some (_SERROR 1476 0 ENOMEM, 0, s) /\
   ((height (anchor s) <= STACK_SIZE)%nat -> forall v, 0 <= v -> v mod align = offset ->
      exists a, in_range v (PAGE_ROUND_UP size) a /\ ~ free (blocks (anchor s)) a)).
Proof.
  intros Hwf H0 H1 Ha Ho Hma Hmo Hw. pose proof (page_round_range size H0 H1) as [Hr Hrm].
  unfold locked_allocPagesAligned. set (sz := PAGE_ROUND_UP size) in *.
  destruct (is_null_spec (anchor s)) as [Ea|[Ea Hne]]; rewrite Ea; cbn [is_null].
  { right. split; [done|]. intros _ v _ _. exists v. split; [unfold in_range; lia|].
    by intros ?%free_nil. }
  destruct (Z.eqb_spec align 0) as [|_]; [lia|]. cbn [negb assertK mbind option_bind].
  pose proof (good_heap _ _ (wf_good _ Hwf)) as Hh. pose proof (good_blocks _ _ (wf_good _ Hwf)) as Hb.
  destruct (find_aligned_spec (anchor s) sz align offset Hh Hb ltac:(lia) Ha Ho Hw
    (S (tsize (anchor s))) [] [] (anchor s) None) as (r & -> & Hfo & Hn); [done|done|done|done|done|simpl; lia|].
  cbn [mbind option_bind]. destruct r as [[top [|p l st n h]]|]; [done| |].
  - left. destruct Hfo as [Ep Hfit].
    pose proof Ep as Hbd. apply (fits_bound _ sz align offset) in Hbd; try (done || lia).
    destruct Hbd as (F1 & F2 & F3 & F4 & F5).
    unfold fits in Hfit. cbn [fst snd] in Hfit.
    assert (Hwst : st + align < 2 ^ 64).
    { specialize (Hw (st, n) (plug_elem (anchor s) _ _ _ _ _ _ Ep)). cbn [fst] in Hw. lia. }
    destruct (align_from_spec st align offset) as [_ Hmod]; [done..|].
    pose proof (align_from_page st align offset F1 Ha Ho Hwst Hma Hmo) as Hpg.
    set (v := align_from st align offset) in *.
    destruct (allocFromBlock_spec s top p l st n h v sz) as (s' & m & -> & Hc); try (done || lia).
    cbn [mbind option_bind]. rewrite (land_mask_mod v) by (done || lia). cbn [assertK mbind option_bind].
    exists v. eexists _, m. split; [done|].
    destruct (carved_taken s s' v sz m) as [Hwf' Htk]; try (done || lia).
    intros x Hx. rewrite <- Ep, plug_blocks. cbn [blocks]. rewrite !free_app, free_cons.
    unfold inside, in_range in *. simpl. right; left; right; left. lia.
  - right. split; [done|]. destruct (Hn eq_refl) as [_ Hall]. intros Hht v Hv Hvm.
    destruct (range_in_block (blocks (anchor s)) v sz Hb) as [(b & Hin & H2 & H3)|?]; [lia| |done]. exfalso.
    apply (Hall Hht b); [cbn [stack_blocks]; by rewrite app_nil_r|]. unfold fits.
    pose proof (Hw b Hin). destruct (blocks_ok_elem _ _ Hb Hin) as (B1 & _).
    pose proof (align_from_least b.1 align offset v). lia.
Qed.

(** ** deallocPages *)

(** Either a block lies before the freed range or after it. *)
Lemma disjoint_side l b v sz :
  blocks_ok l -> b ∈ l -> 0 < sz -> (forall a, in_range v sz a -> ~ free l a) -> b.1 + b.2 <= v \/ v + sz <= b.1.
Proof.
  intros Hok Hb Hsz Hd. destruct (blocks_ok_elem _ _ Hok Hb) as (B1 & B2 & _).
  destruct (Z.le_gt_cases (b.1 + b.2) v) as [?|H1]; [by left|].
  destruct (Z.le_gt_cases (v + sz) b.1) as [?|H2]; [by right|]. exfalso.
  apply (Hd (Z.max v b.1)); [unfold in_range; lia|]. apply free_elem. exists b. split; [done|]. unfold inside. lia.
Qed.

Lemma find_coalesce_spec top cur v sz :
  blocks_ok (blocks (plug top cur)) -> 0 < sz -> 0 <= v -> v + sz < 2 ^ 64 ->
  (forall a, in_range v sz a -> ~ free (blocks (plug top cur)) a) ->
  (forall x, x ∈ left_of top -> x.1 + x.2 < v) -> (forall y, y ∈ right_of top -> v + sz < y.1) ->
  match find_coalesce top cur v sz with
  | None => forall x, v - 1 <= x <= v + sz -> ~ free (blocks (plug top cur)) x
  | Some (side, top', Node p l s n h) =>
      plug top' (Node p l s n h) = plug top cur /\
      (forall x, x ∈ left_of top' -> x.1 + x.2 < v) /\ (forall y, y ∈ right_of top' -> v + sz < y.1) /\
      (if side : bool then s + n = v else v + sz = s)
  | Some (_, _, Null) => False
  end.
Proof.
  revert top. induction cur as [|p l IHl s n h IHh]; intros top Hok Hsz Hv Hvs Hd Hl Hr; cbn [find_coalesce].
  - intros x Hx. rewrite plug_blocks. cbn [blocks app]. apply free_none.
    + intros b Hb. specialize (Hl b Hb). lia.
    + intros b Hb. specialize (Hr b Hb). lia.
  - destruct (plug_ok _ _ _ _ _ _ Hok) as ((B1 & B2 & _ & _ & B5) & Hlo & Hhi).
    destruct (disjoint_side _ (s, n) v sz Hok (plug_elem _ _ _ _ _ _ _ eq_refl) Hsz Hd) as [Hside|Hside];
      cbn [fst snd] in *; rewrite (uadd_small s n), (uadd_small v sz) by lia.
    + destruct (Z.eqb_spec (s + n) v) as [E|E]; [done|]. destruct (Z.eqb_spec (v + sz) s); [lia|].
      destruct (Z.ltb_spec v s); [lia|]. apply (IHh (InHigh p l s n :: top)); try done. cbn [left_of].
      intros x Hx. rewrite app_assoc in Hx. apply elem_of_app in Hx as [Hx|Hx]; [specialize (Hlo x Hx); lia|].
      apply list_elem_of_singleton in Hx as ->. simpl. lia.
    + destruct (Z.eqb_spec (s + n) v); [lia|]. destruct (Z.eqb_spec (v + sz) s) as [E|E]; [done|].
      destruct (Z.ltb_spec v s); [|lia]. apply (IHl (InLow p s n h :: top)); try done. cbn [right_of].
      intros y [->|Hy]%elem_of_cons; [simpl; lia|]. specialize (Hhi y Hy). lia.
Qed.

(** The blocks [mid] and the freed range become one block. *)
Lemma coalesce_ok l1 mid l2 a b v sz :
  blocks_ok (l1 ++ mid ++ l2) -> blk_ok (a, b) ->
  (forall x, x ∈ l1 -> x.1 + x.2 < a) -> (forall y, y ∈ l2 -> a + b < y.1) ->
  (forall x, inside x (a, b) <-> free mid x \/ in_range v sz x) -> b = total mid + sz ->
  blocks_ok (l1 ++ (a, b) :: l2) /\
  (forall x, free (l1 ++ (a, b) :: l2) x <-> free (l1 ++ mid ++ l2) x \/ in_range v sz x) /\
  total (l1 ++ (a, b) :: l2) = total (l1 ++ mid ++ l2) + sz.
Proof.
  intros Hok Hb H1 H2 Hin Htot. rewrite !blocks_ok_app in Hok. destruct Hok as (K1 & (_ & K2 & _) & K12).
  split; [|split].
  - apply (blocks_ok_replace l1 [(a, b)] l2 a (a + b)); try done; [by apply blocks_ok_one|..].
    + intros x y Hx Hy. apply K12; [done|]. apply elem_of_app. by right.
    + intros x ->%list_elem_of_singleton. simpl. lia.
  - intros x. rewrite !free_app, free_cons, Hin. tauto.
  - rewrite !total_app. cbn [total snd]. lia.
Qed.

Lemma plug_heap_top f k t t' :
  heap (plug (f :: k) t) -> heap t' -> rsize t' <= top_size f -> heap (plug (f :: k) t').
Proof.
  intros Hk Ht Hr. destruct f as [p s n h|p l s n]; cbn [plug top_size] in *;
    apply (plug_heap k (Node p t s n h)) || apply (plug_heap k (Node p l s n t)); try done;
    apply plug_heap_inv in Hk; cbn [heap rsize] in *; intuition lia.
Qed.

(** A node that has grown finds its place. *)
Lemma enlarge_spec top p l st n h l' st' n' h' :
  heap (plug top (Node p l st n h)) -> heap l' -> heap h' -> rsize l' <= n -> rsize h' <= n -> n <= n' ->
  blocks_ok ((left_of top ++ blocks l') ++ (st', n') :: blocks h' ++ right_of top) ->
  heap (enlarge top p l' st' n' h') /\
  blocks (enlarge top p l' st' n' h') = (left_of top ++ blocks l') ++ (st', n') :: blocks h' ++ right_of top /\
  nodes (enlarge top p l' st' n' h') ≡ₚ p :: nodes l' ++ nodes h' ++ path_nodes top.
Proof.
  intros Hh Hl Hr Hln Hrn Hn Hok. pose proof (plug_heap_inv _ _ Hh) as (Z0 & _).
  assert (Hnode : heap (Node p l' st' n' h')) by (cbn [heap]; split; [lia|]; split; [lia|]; split; [lia|]; done).
  assert (Hplug : blocks (plug top (Node p l' st' n' h')) = (left_of top ++ blocks l') ++ (st', n') :: blocks h' ++ right_of top).
  { rewrite plug_blocks. cbn [blocks]. by app_norm. }
  assert (Hpn : nodes (plug top (Node p l' st' n' h')) ≡ₚ p :: nodes l' ++ nodes h' ++ path_nodes top).
  { rewrite plug_nodes. cbn [nodes]. solve_Permutation. }
  destruct top as [|f top]; [done|]. cbn [enlarge].
  destruct (Z.ltb_spec (top_size f) n') as [Hlt|Hge].
  - split; [|split].
    + apply add_at_heap; [|lia]. apply (plug_heap (f :: top) (Node p l st n h)); [done|by apply merge_heap|].
      by apply merge_rsize.
    + apply add_blocks; [rewrite plug_blocks, merge_blocks; by app_norm|].
      apply blocks_ok_mid in Hok as (_ & K1 & _ & K2 & K3 & _). apply cut_intro; [done|..].
      * intros x Hx. specialize (K2 x Hx). lia.
      * intros y Hy. specialize (K3 y Hy). lia.
    + cbn [add]. rewrite add_at_nodes, plug_nodes, merge_nodes. by rewrite <- app_assoc.
  - split; [|split; [exact Hplug|exact Hpn]]. by apply (plug_heap_top f top (Node p l st n h)).
Qed.

(** The node that deallocPages takes from the list and drops: the last one, when
    nothing is free and the freed page is used up for new nodes. *)
Definition dropped (s : t) (size : Z) : list Z :=
  match anchor s, freeList s with Null, [cur] => if size =? PAGE_SIZE then [cur] else [] | _, _ => [] end.

(** [v .. v + size) is given to the allocator, which may turn one page of its
    free memory into nodes. *)
Record returned (s s' : t) (v size : Z) (m : option Z) : Prop := {
  rt_page : forall a, in_page m a -> free (blocks (anchor s)) a \/ in_range v size a;
  rt_free : forall a, free (blocks (anchor s')) a <->
    (free (blocks (anchor s)) a \/ in_range v size a) /\ ~ in_page m a;
  rt_avail : available s' = available s + size - page_cost m;
  rt_nodes : (nodes (anchor s') ++ freeList s') ++ dropped s size ≡ₚ page_nodes m ++ nodes (anchor s) ++ freeList s;
}.

(** The freed range: page aligned, not free, and without nodes in it. *)
Record freeable (s : t) (v sz : Z) : Prop := {
  fr_size : 0 < sz;
  fr_blk : blk_ok (v, sz);
  fr_busy : forall a, in_range v sz a -> ~ free (blocks (anchor s)) a;
  fr_nodes : forall q, q ∈ nodes (anchor s) ++ freeList s -> ~ in_range v sz q;
}.

Lemma dealloc_result s v sz a' fl' :
  wf s -> freeable s v sz -> heap a' -> blocks_ok (blocks a') ->
  (forall x, free (blocks a') x <-> free (blocks (anchor s)) x \/ in_range v sz x) ->
  total (blocks a') = total (blocks (anchor s)) + sz ->
  nodes a' ++ fl' ≡ₚ nodes (anchor s) ++ freeList s -> fl' <> [] -> anchor s <> Null ->
  wf (mkPA a' fl' (uadd (available s) sz)) /\ returned s (mkPA a' fl' (uadd (available s) sz)) v sz None.
Proof.
  intros [Hg Hfl Hav] [F1 F2 F3 F4] Hh Hok Hfr Htot HP Hne Hnn.
  assert (E : uadd (available s) sz = available s + sz).
  { apply uadd_small. rewrite Hav, <- Htot. apply (total_range _ Hok). }
  rewrite E. split.
  - constructor; cbn [anchor freeList available]; [|done|lia].
    apply (good_intro (anchor s) (freeList s)); [done|done|done|done|].
    intros q Hq Hin. apply Hfr in Hq as [?|Hq]; [done|]. by destruct (F4 q Hin).
  - constructor; cbn [anchor freeList available in_page page_cost]; [done| |lia|].
    + intros x. rewrite Hfr. tauto.
    + unfold dropped. destruct (anchor s); [done|]. by rewrite HP, app_nil_r.
Qed.

Lemma wf_plug s top p l st n h :
  wf s -> plug top (Node p l st n h) = anchor s ->
  heap (plug top (Node p l st n h)) /\ heap l /\ heap h /\ rsize l <= n /\ rsize h <= n /\
  blocks (anchor s) = (left_of top ++ blocks l) ++ (st, n) :: blocks h ++ right_of top /\
  blocks_ok ((left_of top ++ blocks l) ++ (st, n) :: blocks h ++ right_of top) /\
  nodes (anchor s) ≡ₚ p :: nodes l ++ nodes h ++ path_nodes top.
Proof.
  intros [Hg _ _] Ep. pose proof (good_heap _ _ Hg) as Hh. pose proof (good_blocks _ _ Hg) as Hb.
  rewrite <- Ep in Hh. pose proof (plug_heap_inv _ _ Hh) as (_ & H1 & H2 & H3 & H4).
  assert (Eb : blocks (anchor s) = (left_of top ++ blocks l) ++ (st, n) :: blocks h ++ right_of top).
  { rewrite <- Ep, plug_blocks. cbn [blocks]. by app_norm. }
  rewrite Eb in Hb. repeat (split; [done|]). rewrite <- Ep, plug_nodes. cbn [nodes]. solve_Permutation.
Qed.

(** The block at [top] absorbs the freed range and the blocks [midl] below and
    [midr] above it. *)
Lemma grow s top p l st n h v sz midl midr l' h' a n2 fl :
  wf s -> freeable s v sz -> plug top (Node p l st n h) = anchor s ->
  blocks l = blocks l' ++ midl -> blocks h = midr ++ blocks h' -> heap l' -> heap h' ->
  rsize l' <= n -> rsize h' <= n -> n <= n2 -> blk_ok (a, n2) ->
  (forall x, x ∈ left_of top ++ blocks l' -> x.1 + x.2 < a) ->
  (forall y, y ∈ blocks h' ++ right_of top -> a + n2 < y.1) ->
  (forall x, inside x (a, n2) <-> free (midl ++ (st, n) :: midr) x \/ in_range v sz x) ->
  n2 = total (midl ++ (st, n) :: midr) + sz ->
  nodes l' ++ nodes h' ++ fl ≡ₚ nodes l ++ nodes h ++ freeList s -> fl <> [] ->
  let s' := mkPA (enlarge top p l' a n2 h') fl (uadd (available s) sz) in
  wf s' /\ returned s s' v sz None.
Proof.
  intros Hwf Hfr Ep El Eh Hhl' Hhh' Hrl' Hrh' Hn2 Hb2 Hx Hy Hins Htot HPf Hfl. cbv zeta.
  destruct (wf_plug _ _ _ _ _ _ _ Hwf Ep) as (Hh & _ & _ & _ & _ & Eb & Hok & HP).
  assert (Eb' : blocks (anchor s) = (left_of top ++ blocks l') ++ (midl ++ (st, n) :: midr) ++ blocks h' ++ right_of top).
  { rewrite Eb, El, Eh. by app_norm. }
  destruct (coalesce_ok (left_of top ++ blocks l') (midl ++ (st, n) :: midr) (blocks h' ++ right_of top) a n2 v sz)
    as (C1 & C2 & C3); try done.
  { rewrite <- Eb'. by rewrite Eb. }
  destruct (enlarge_spec top p l st n h l' a n2 h') as (E1 & E2 & E3); try done.
  rewrite <- Eb' in C2, C3. apply dealloc_result; try done.
  - by rewrite E2.
  - intros x. rewrite E2. apply C2.
  - by rewrite E2.
  - rewrite E3, HP. cbn [app]. apply perm_skip.
    transitivity ((nodes l' ++ nodes h' ++ fl) ++ path_nodes top); [solve_Permutation|].
    rewrite HPf. solve_Permutation.
  - intros En. rewrite En in Eb. symmetry in Eb. by apply app_nil in Eb as [_ ?].
Qed.

(** The blocks of a subtree on the far side of the freed range. *)
Lemma freed_side s top p l st n h v sz y :
  wf s -> freeable s v sz -> plug top (Node p l st n h) = anchor s ->
  (st + n = v -> y ∈ blocks h -> v + sz <= y.1) /\ (v + sz = st -> y ∈ blocks l -> y.1 + y.2 <= v).
Proof.
  intros Hwf Hfr Ep. destruct (wf_plug _ _ _ _ _ _ _ Hwf Ep) as (_ & _ & _ & _ & _ & Eb & Hok & _).
  pose proof (blocks_ok_mid _ _ _ _ Hok) as (_ & _ & _ & Hlo & Hhi & _).
  assert (Hside : y ∈ (left_of top ++ blocks l) ++ (st, n) :: blocks h ++ right_of top ->
    0 < y.2 /\ (y.1 + y.2 <= v \/ v + sz <= y.1)).
  { intros Hy. destruct (blocks_ok_elem _ y Hok Hy) as (_ & ? & _). split; [done|].
    apply (disjoint_side _ y v sz Hok Hy); [apply (fr_size _ _ _ Hfr)|]. rewrite <- Eb. apply (fr_busy _ _ _ Hfr). }
  split; intros Hv Hy.
  - specialize (Hhi y). rewrite elem_of_app in Hhi. specialize (Hhi (or_introl Hy)).
    destruct Hside; [rewrite !elem_of_app, elem_of_cons, elem_of_app; tauto|lia].
  - specialize (Hlo y). rewrite elem_of_app in Hlo. specialize (Hlo (or_intror Hy)).
    destruct Hside; [rewrite !elem_of_app; tauto|]. pose proof (fr_size _ _ _ Hfr). lia.
Qed.

(** The freed range follows the block at [top]. *)
Lemma grow_up s top p l st n h v sz :
  wf s -> freeable s v sz -> plug top (Node p l st n h) = anchor s -> st + n = v ->
  (forall y, y ∈ right_of top -> v + sz < y.1) ->
  exists n2 high' fl,
    (match leftmost [] h with
     | (top1, Node p1 _ s1 m1 h1) =>
         if uadd st (uadd n sz) =? s1 then (uadd (uadd n sz) m1, plug top1 h1, p1 :: freeList s)
         else (uadd n sz, h, freeList s)
     | (_, Null) => (uadd n sz, h, freeList s)
     end) = (n2, high', fl) /\
    let s' := mkPA (enlarge top p l st n2 high') fl (uadd (available s) sz) in
    wf s' /\ returned s s' v sz None.
Proof.
  intros Hwf Hfr Ep Hv Hr. cbv zeta.
  destruct (wf_plug _ _ _ _ _ _ _ Hwf Ep) as (Hh & Hhl & Hhh & Hrl & Hrh & Eb & Hok & HP).
  pose proof (blocks_ok_mid _ _ _ _ Hok) as (Hblk & _ & Hok2 & Hlo & Hhi & _).
  pose proof Hblk as (B1 & B2 & B3 & B4 & B5). cbn [fst snd] in *.
  pose proof (fr_blk _ _ _ Hfr) as (V1 & V2 & V3 & V4 & V5). cbn [fst snd] in *.
  rewrite (uadd_small n sz), (uadd_small st (n + sz)) by lia.
  assert (Hplain : (forall y, y ∈ blocks h -> v + sz < y.1) ->
    let s' := mkPA (enlarge top p l st (n + sz) h) (freeList s) (uadd (available s) sz) in
    wf s' /\ returned s s' v sz None).
  { intros Hgt. apply (grow s top p l st n h v sz [] []); try (done || lia || apply Hwf).
    - by rewrite app_nil_r.
    - split; [simpl; lia|]. split; [simpl; lia|]. simpl. split; [done|]. split; [by apply mod_add0|lia].
    - intros y [Hy|Hy]%elem_of_app; [specialize (Hgt y Hy)|specialize (Hr y Hy)]; lia.
    - intros x. cbn [app]. rewrite free_cons, free_nil. unfold inside, in_range. simpl. lia.
    - simpl. lia. }
  destruct (is_null_spec h) as [->|[Eh Hne]].
  { eexists _, _, _. split; [done|]. apply Hplain. by intros y ?%not_elem_of_nil. }
  destruct (leftmost_spec [] h Hne) as (k1 & p1 & s1 & m1 & h1 & -> & Ek & Hk). cbn [plug left_of] in Ek, Hk.
  assert (Ebh : blocks h = (s1, m1) :: blocks (plug k1 h1)).
  { rewrite <- Ek, !plug_blocks, Hk. by cbn [blocks app]. }
  assert (Hs1 : (s1, m1) ∈ blocks h) by (rewrite Ebh; by left).
  pose proof (proj1 (freed_side s top p l st n h v sz (s1, m1) Hwf Hfr Ep) Hv Hs1) as Hge. cbn [fst] in Hge.
  rewrite Ebh in Hok2. cbn [app] in Hok2. pose proof Hok2 as ((M1 & M2 & M3 & M4 & M5) & _ & Hbef)%blocks_ok_cons.
  cbn [fst snd] in *.
  destruct (Z.eqb_spec (st + (n + sz)) s1) as [E|E].
  - rewrite (uadd_small (n + sz)) by lia. eexists _, _, _. split; [done|].
    rewrite <- Ek in Hhh. pose proof (plug_heap_inv _ _ Hhh) as (Y0 & _ & Y1 & _ & Y2).
    apply (grow s top p l st n h v sz [] [(s1, m1)]); try (done || lia || apply Hwf).
    + by rewrite app_nil_r.
    + by apply (plug_heap k1 (Node p1 Null s1 m1 h1)).
    + rewrite <- Ek in Hrh. etransitivity; [apply plug_rsize|exact Hrh]. done.
    + split; [simpl; lia|]. split; [simpl; lia|]. simpl. split; [done|].
      split; [apply mod_add0; [by apply mod_add0|done]|lia].
    + intros y Hy. specialize (Hbef y Hy). unfold before in Hbef. simpl in Hbef. lia.
    + intros x. cbn [app]. rewrite !free_cons, free_nil. unfold inside, in_range. simpl. lia.
    + simpl. lia.
    + rewrite <- Ek, !plug_nodes. cbn [nodes]. solve_Permutation.
  - eexists _, _, _. split; [done|]. apply Hplain. rewrite Ebh. intros y [->|Hy]%elem_of_cons; [simpl; lia|].
    specialize (Hbef y). rewrite elem_of_app in Hbef. specialize (Hbef (or_introl Hy)).
    unfold before in Hbef. simpl in Hbef. lia.
Qed.

(** The freed range precedes the block at [top]. *)
Lemma grow_down s top p l st n h v sz :
  wf s -> freeable s v sz -> plug top (Node p l st n h) = anchor s -> v + sz = st ->
  (forall x, x ∈ left_of top -> x.1 + x.2 < v) ->
  exists st2 n2 low' fl,
    (match rightmost [] l with
     | (top1, Node p1 l1 s1 m1 _) =>
         if uadd s1 m1 =? v then (s1, uadd (uadd n sz) m1, plug top1 l1, p1 :: freeList s)
         else (v, uadd n sz, l, freeList s)
     | (_, Null) => (v, uadd n sz, l, freeList s)
     end) = (st2, n2, low', fl) /\
    let s' := mkPA (enlarge top p low' st2 n2 h) fl (uadd (available s) sz) in
    wf s' /\ returned s s' v sz None.
Proof.
  intros Hwf Hfr Ep Hv Hr. cbv zeta.
  destruct (wf_plug _ _ _ _ _ _ _ Hwf Ep) as (Hh & Hhl & Hhh & Hrl & Hrh & Eb & Hok & HP).
  pose proof (blocks_ok_mid _ _ _ _ Hok) as (Hblk & Hok1 & _ & Hlo & Hhi & _).
  pose proof Hblk as (B1 & B2 & B3 & B4 & B5). cbn [fst snd] in *.
  pose proof (fr_blk _ _ _ Hfr) as (V1 & V2 & V3 & V4 & V5). cbn [fst snd] in *.
  rewrite (uadd_small n sz) by lia.
  assert (Hplain : (forall x, x ∈ blocks l -> x.1 + x.2 < v) ->
    let s' := mkPA (enlarge top p l v (n + sz) h) (freeList s) (uadd (available s) sz) in
    wf s' /\ returned s s' v sz None).
  { intros Hgt. apply (grow s top p l st n h v sz [] []); try (done || lia || apply Hwf).
    - by rewrite app_nil_r.
    - split; [simpl; lia|]. split; [simpl; lia|]. simpl. split; [done|]. split; [by apply mod_add0|lia].
    - intros x [Hx|Hx]%elem_of_app; [specialize (Hr x Hx)|specialize (Hgt x Hx)]; lia.
    - intros y Hy. specialize (Hhi y Hy). lia.
    - intros x. cbn [app]. rewrite free_cons, free_nil. unfold inside, in_range. simpl. lia.
    - simpl. lia. }
  destruct (is_null_spec l) as [->|[El Hne]].
  { eexists _, _, _, _. split; [done|]. apply Hplain. by intros y ?%not_elem_of_nil. }
  destruct (rightmost_spec [] l Hne) as (k1 & p1 & l1 & s1 & m1 & -> & Ek & Hk). cbn [plug right_of] in Ek, Hk.
  assert (Ebl : blocks l = blocks (plug k1 l1) ++ [(s1, m1)]).
  { rewrite <- Ek, !plug_blocks, Hk. cbn [blocks]. rewrite !app_nil_r. by app_norm. }
  assert (Hs1 : (s1, m1) ∈ blocks l) by (rewrite Ebl, elem_of_app; right; by left).
  pose proof (proj2 (freed_side s top p l st n h v sz (s1, m1) Hwf Hfr Ep) Hv Hs1) as Hge. cbn [fst snd] in Hge.
  rewrite Ebl, app_assoc in Hok1. pose proof (blocks_ok_mid _ _ _ _ Hok1) as ((M1 & M2 & M3 & M4 & M5) & _ & _ & Hbef & _).
  cbn [fst snd] in *. rewrite (uadd_small s1 m1) by lia.
  destruct (Z.eqb_spec (s1 + m1) v) as [E|E].
  - rewrite (uadd_small (n + sz)) by lia. eexists _, _, _, _. split; [done|].
    rewrite <- Ek in Hhl. pose proof (plug_heap_inv _ _ Hhl) as (Y0 & Y1 & _ & Y2 & _).
    apply (grow s top p l st n h v sz [(s1, m1)] []); try (done || lia || apply Hwf).
    + by apply (plug_heap k1 (Node p1 l1 s1 m1 Null)).
    + rewrite <- Ek in Hrl. etransitivity; [apply plug_rsize|exact Hrl]. done.
    + split; [simpl; lia|]. split; [simpl; lia|]. simpl. split; [done|].
      split; [apply mod_add0; [by apply mod_add0|done]|lia].
    + intros y Hy. specialize (Hhi y Hy). lia.
    + intros x. cbn [app]. rewrite !free_cons, free_nil. unfold inside, in_range. simpl. lia.
    + simpl. lia.
    + rewrite <- Ek, !plug_nodes. cbn [nodes]. solve_Permutation.
  - eexists _, _, _, _. split; [done|]. apply Hplain. rewrite Ebl. intros x [Hx|Hx]%elem_of_app.
    + specialize (Hbef x). rewrite elem_of_app in Hbef. specialize (Hbef (or_intror Hx)). lia.
    + apply list_elem_of_singleton in Hx as ->. simpl. lia.
Qed.

(** The first page of the freed range becomes nodes when the allocator has
    neither an unused node to spare nor other free memory. *)
Lemma dealloc_first s v sz cur :
  wf s -> freeable s v sz -> anchor s = Null -> freeList s = [cur] ->
  let '(s2, v', sz') := extendFreeList (mkPA Null [] (uadd (available s) sz)) v sz in
  let s' := if sz' =? 0 then s2
            else mkPA (add (anchor s2) (Node cur Null v' sz' Null)) (freeList s2) (available s2) in
  wf s' /\ returned s s' v sz (Some v).
Proof.
  intros [Hg Hfl Hav] [F1 F2 F3 F4] Ea Ef. pose proof F2 as (V1 & V2 & V3 & V4 & V5). cbn [fst snd] in *.
  unfold extendFreeList. cbn [anchor leftmost getFreePagesMemory freeList available].
  rewrite Ea, Ef in *. cbn [blocks total nodes app] in *. rewrite Hav.
  assert (Hsz : PAGE_SIZE <= sz) by (unfold PAGE_SIZE in *; apply Z.mod_divide in V4 as [q ->]; lia).
  destruct (nodes_in_cons v) as [nm Enm].
  assert (Hav2 : usub (uadd 0 sz) PAGE_SIZE = sz - PAGE_SIZE).
  { unfold PAGE_SIZE in *. rewrite uadd_small, usub_small; lia. }
  rewrite Hav2, (usub_small sz) by (unfold PAGE_SIZE in *; lia). rewrite app_nil_r.
  destruct (Z.eqb_spec (sz - PAGE_SIZE) 0) as [E0|E0].
  - split; constructor; cbn [anchor freeList available blocks total in_page page_cost]; try (done || lia).
    + constructor; cbn [nodes blocks app]; [done|apply blocks_ok_nil|apply nodes_in_nodup|by intros q _ ?%free_nil].
    + unfold in_range. intros a Ha. right. lia.
    + intros a. rewrite Ea. cbn [blocks]. rewrite free_nil. unfold in_range. lia.
    + unfold dropped. rewrite Ea, Ef. rewrite (proj2 (Z.eqb_eq _ _)) by lia. by cbn [page_nodes nodes app].
  - rewrite (uadd_small v) by (unfold PAGE_SIZE in *; lia). cbn [anchor freeList available].
    destruct (add_good Null (nodes_in v) cur (v + PAGE_SIZE) (sz - PAGE_SIZE) Null Null) as (G1 & G2 & G3).
    + constructor; cbn [nodes blocks app]; [done|apply blocks_ok_nil| |by intros q _ ?%free_nil].
      apply NoDup_cons. split; [|apply nodes_in_nodup]. intros Hc%nodes_in_range.
      apply (F4 cur); [by left|]. unfold in_range in *. lia.
    + apply (blk_ok_sub v sz); unfold PAGE_SIZE in *; try (done || lia).
      * by apply (mod_add0 v 4096).
      * by apply (mod_sub0 sz 4096).
    + cbn [blocks]. by intros x _ ?%free_nil.
    + cbn [nodes app]. intros q [->|Hq]%elem_of_cons Hi; unfold inside in Hi; cbn [fst snd] in Hi.
      * apply (F4 cur); [by left|]. unfold in_range, PAGE_SIZE in *. lia.
      * apply nodes_in_range in Hq. unfold in_range in Hq. lia.
    + split; constructor; cbn [anchor freeList available in_page page_cost]; try done.
      * unfold in_range. intros a Ha. right. lia.
      * intros a. rewrite G2, Ea. cbn [blocks]. rewrite free_nil. unfold in_range, inside, PAGE_SIZE. simpl. lia.
      * rewrite Hav. lia.
      * unfold dropped. rewrite Ea, Ef, (proj2 (Z.eqb_neq _ _)) by lia.
        cbn [add add_at nodes app page_nodes]. solve_Permutation.
Qed.

(** The accounting when the freed range becomes a block of its own. *)
Lemma new_block_result s s2 v sz m cur :
  let a2 := add (anchor s2) (Node cur Null v sz Null) in
  wf s -> freeable s v sz -> good a2 (freeList s2) -> freeList s2 <> [] ->
  available s2 = charge (uadd (available s) sz) m ->
  (forall x, in_page m x -> free (blocks (anchor s)) x) ->
  (forall x, free (blocks a2) x <-> (free (blocks (anchor s)) x /\ ~ in_page m x) \/ in_range v sz x) ->
  total (blocks a2) = total (blocks (anchor s)) + sz - page_cost m ->
  nodes a2 ++ freeList s2 ≡ₚ page_nodes m ++ nodes (anchor s) ++ freeList s -> dropped s sz = [] ->
  wf (mkPA a2 (freeList s2) (available s2)) /\ returned s (mkPA a2 (freeList s2) (available s2)) v sz m.
Proof.
  cbv zeta. intros [Hg Hfl Hav] Hfr H1 H2 H3 H4 H5 H6 H7 H8.
  pose proof (total_range _ (good_blocks _ _ H1)) as Ht. pose proof (total_range _ (good_blocks _ _ Hg)) as Ht0.
  pose proof (fr_size _ _ _ Hfr) as Hsz. pose proof (fr_blk _ _ _ Hfr) as (_ & _ & _ & _ & V5). cbn [fst snd] in V5.
  assert (Hav2 : available s2 = total (blocks (anchor s)) + sz - page_cost m).
  { rewrite H3, Hav. rewrite H6 in Ht. destruct m; cbn [charge page_cost] in *.
    - unfold usub, uadd, uwrap. rewrite Zminus_mod_idemp_l. by apply Z.mod_small.
    - rewrite uadd_small; lia. }
  split; constructor; cbn [anchor freeList available]; try done.
  - by rewrite Hav2, H6.
  - intros x Hx. left. by apply H4.
  - intros x. rewrite H5. specialize (H4 x). pose proof (fr_busy _ _ _ Hfr x). tauto.
  - by rewrite Hav2, Hav.
  - by rewrite H8, app_nil_r.
Qed.

Lemma locked_deallocPages_spec s v size :
  wf s -> 0 < size -> size + 4095 < 2 ^ 64 -> freeable s v (PAGE_ROUND_UP size) ->
  exists s' m, locked_deallocPages v size s = Some (0, s') /\ wf s' /\ returned s s' v (PAGE_ROUND_UP size) m.
Proof.
  intros Hwf H0 H1 Hfr. unfold locked_deallocPages. set (sz := PAGE_ROUND_UP size) in *.
  pose proof (fr_blk _ _ _ Hfr) as Hblk. pose proof Hblk as (V1 & V2 & V3 & V4 & V5). cbn [fst snd] in *.
  rewrite (land_mask_mod v), (page_aligned_mod v) by (done || lia). cbn [assertK mbind option_bind].
  pose proof (good_blocks _ _ (wf_good _ Hwf)) as Hb.
  pose proof (find_coalesce_spec [] (anchor s) v sz) as Hf. cbn [plug left_of right_of] in Hf.
  specialize (Hf Hb V2 ltac:(lia) V5 (fr_busy _ _ _ Hfr)
    ltac:(by intros x ?%not_elem_of_nil) ltac:(by intros x ?%not_elem_of_nil)).
  destruct (find_coalesce [] (anchor s) v sz) as [[[[] top] [|p l st n h]]|]; try done.
  - destruct Hf as (Ep & _ & Hr & Hv).
    destruct (grow_up s top p l st n h v sz) as (n2 & h' & fl & -> & Hw & Hrt); [done..|]. by eexists _, None.
  - destruct Hf as (Ep & Hl & _ & Hv).
    destruct (grow_down s top p l st n h v sz) as (st2 & n2 & l' & fl & -> & Hw & Hrt); [done..|]. by eexists _, None.
  - destruct (freeList s) as [|cur fl] eqn:Ef; [by destruct (wf_free _ Hwf)|].
    destruct (decide (fl = [] /\ is_null (anchor s) = true)) as [[-> Ea]|Hne].
    + assert (anchor s = Null) as En by by destruct (anchor s).
      rewrite bool_decide_eq_true_2 by done. pose proof (dealloc_first s v sz cur Hwf Hfr En Ef) as Hd.
      rewrite En. destruct (extendFreeList _ v sz) as [[s2 v'] sz']. cbn [andb] in *.
      destruct (sz' =? 0); eexists _, (Some v); (split; [done|]); done.
    + destruct (new_block_spec (anchor s) cur fl v sz (uadd (available s) sz))
        as (s2 & m & E & N1 & N2 & N3 & N4 & N5 & N6 & N7).
      * rewrite <- Ef. apply Hwf.
      * intros -> En. apply Hne. by rewrite En.
      * done.
      * done.
      * rewrite <- Ef. apply (fr_nodes _ _ _ Hfr).
      * rewrite E. rewrite (proj2 (Z.eqb_neq sz 0)), andb_false_r by lia. eexists _, m. split; [done|].
        apply (new_block_result s s2 v sz m cur); rewrite ?Ef; try done.
        unfold dropped. rewrite Ef. destruct (anchor s), fl; try done. by destruct Hne.
Qed.

(** ** The operations under the lock *)

(** Start-up: the first page of the memory holds the nodes. *)
Lemma init_spec start size :
  0 < start -> start mod PAGE_SIZE = 0 -> size mod PAGE_SIZE = 0 -> PAGE_SIZE < size -> start + size < 2 ^ 64 - PAGE_SIZE ->
  exists s, init start size = Some s /\ wf s /\ blocks (anchor s) = [(start + PAGE_SIZE, size - PAGE_SIZE)] /\
    nodes (anchor s) ++ freeList s = nodes_in start.
Proof.
  intros H0 Hm Hms Hsz Hb. unfold init. unfold PAGE_SIZE in *.
  rewrite (page_round_up_id start), Z.eqb_refl by (done || lia). cbn [assertK mbind option_bind].
  unfold extendFreeList. cbn [anchor leftmost getFreePagesMemory freeList available]. unfold PAGE_SIZE.
  rewrite (uadd_small start), (usub_small size) by lia. rewrite app_nil_r.
  pose proof (nodes_in_nodup start) as Hnd. pose proof (nodes_in_range start) as Hnr. unfold PAGE_SIZE in Hnr.
  destruct (nodes_in_cons start) as [nm E]. assert (Hne : nm <> []).
  { intros ->. apply (f_equal length) in E. unfold nodes_in in E. by rewrite length_fmap, length_seqZ in E. }
  rewrite E in *. eexists. split; [done|]. cbn [anchor freeList available blocks nodes app].
  split; [|split; [done|done]].
  constructor; cbn [anchor freeList available blocks total app snd]; [|done|lia].
  constructor; cbn [heap blocks nodes app rsize]; [lia| |done|].
  - apply blocks_ok_one. split; [simpl; lia|]. split; [simpl; lia|]. simpl.
    split; [by apply (mod_add0 start 4096)|]. split; [by apply (mod_sub0 size 4096)|lia].
  - intros q Hq. rewrite free_cons, free_nil. apply Hnr in Hq. unfold in_range, inside in *. simpl. lia.
Qed.

(** AllocPages succeeds exactly when some run of free pages is long enough.
    On success the returned range is page aligned, was free, and is taken out of
    the free memory and out of the count of available bytes; nothing else
    changes.  On failure no free range of the requested size exists and the
    allocator is unchanged.  The tree, the node pool and the count stay
    consistent. *)
Theorem allocPages_exact s size :
  wf s -> 0 < size -> size + 4095 < 2 ^ 64 ->
  (exists v s', allocPages size (s, false) = Some ((0, v), (s', false)) /\ wf s' /\ v mod PAGE_SIZE = 0 /\
     taken s s' v (PAGE_ROUND_UP size) None) \/
  (allocPages size (s, false) = Some ((_SERROR 1474 0 ENOMEM, 0), (s, false)) /\
   forall v, exists a, in_range v (PAGE_ROUND_UP size) a /\ ~ free (blocks (anchor s)) a).
Proof.
  intros Hwf H0 H1. pose proof (page_round_range size H0 H1) as [Hr _]. unfold allocPages.
  destruct (locked_allocPages_spec s size Hwf H0 H1) as [(v & s' & E & Hw & Hv & Ht)|[E Hsm]].
  - left. exists v, s'. split; [by apply AutoLock_free|]. done.
  - right. split; [by apply AutoLock_free|]. intros v.
    destruct (range_in_block (blocks (anchor s)) v (PAGE_ROUND_UP size)) as [(b & Hb & H2 & H3)|?].
    + apply Hwf.
    + lia.
    + specialize (Hsm b Hb). lia.
    + done.
Qed.

(** AllocPagesAt takes the given range if all of it is free, and fails and
    changes nothing if some address of it is not.  At most one further page of
    the free memory, outside the range, is turned into tree nodes. *)
Theorem allocPagesAt_exact s v size :
  wf s -> 0 <= v -> v mod PAGE_SIZE = 0 -> 0 < size -> size mod PAGE_SIZE = 0 -> v + size < 2 ^ 64 ->
  (exists s' m, allocPagesAt v size (s, false) = Some (0, (s', false)) /\ wf s' /\ taken s s' v size m) \/
  (allocPagesAt v size (s, false) = Some (_SERROR 1475 0 ENOMEM, (s, false)) /\
   exists a, in_range v size a /\ ~ free (blocks (anchor s)) a).
Proof.
  intros Hwf Hv Hm H0 Hms Hb. unfold allocPagesAt.
  destruct (locked_allocPagesAt_spec s v size Hwf Hv Hm H0 Hms Hb) as [(s' & m & E & Ht)|[E Hf]].
  - left. exists s', m. split; [by apply AutoLock_free|done].
  - right. split; [by apply AutoLock_free|done].
Qed.

(** AllocPagesAligned returns a free range whose address is [offset] modulo
    [align] and takes it out of the free memory.  If it fails nothing changes,
    and, as long as the tree is no deeper than its search stack, no free range
    of the requested size has a suitable address. *)
Theorem allocPagesAligned_exact s size align offset :
  wf s -> 0 < size -> size + 4095 < 2 ^ 64 -> 0 < align -> 0 <= offset < align ->
  align mod PAGE_SIZE = 0 -> offset mod PAGE_SIZE = 0 ->
  (forall b, b ∈ blocks (anchor s) -> b.1 + align + PAGE_ROUND_UP size < 2 ^ 64) ->
  (exists v s' m, allocPagesAligned size align offset (s, false) = Some ((0, v), (s', false)) /\ wf s' /\
     v mod PAGE_SIZE = 0 /\ v mod align = offset /\ taken s s' v (PAGE_ROUND_UP size) m) \/
  (allocPagesAligned size align offset (s, false) = Some ((_SERROR 1476 0 ENOMEM, 0), (s, false)) /\
   ((height (anchor s) <= STACK_SIZE)%nat -> forall v, 0 <= v -> v mod align = offset ->
      exists a, in_range v (PAGE_ROUND_UP size) a /\ ~ free (blocks (anchor s)) a)).
Proof.
  intros Hwf H0 H1 Ha Ho Hma Hmo Hw. unfold allocPagesAligned.
  destruct (locked_allocPagesAligned_spec s size align offset Hwf H0 H1 Ha Ho Hma Hmo Hw)
    as [(v & s' & m & E & Ht)|[E Hf]].
  - left. exists v, s', m. split; [by apply AutoLock_free|done].
  - right. split; [by apply AutoLock_free|done].
Qed.

(** DeallocPages makes the range free again, merged with the free blocks on
    either side so that no two free blocks touch, and adds its size to the count
    of available bytes; at most one page becomes tree nodes.  It always
    succeeds, whatever the shape of the tree. *)
Theorem deallocPages_exact s v size :
  wf s -> 0 < size -> size + 4095 < 2 ^ 64 -> freeable s v (PAGE_ROUND_UP size) ->
  exists s' m, deallocPages v size (s, false) = Some (0, (s', false)) /\ wf s' /\
    returned s s' v (PAGE_ROUND_UP size) m.
Proof.
  intros Hwf H0 H1 Hfr. unfold deallocPages.
  destruct (locked_deallocPages_spec s v size Hwf H0 H1 Hfr) as (s' & m & E & Ht).
  exists s', m. split; [by apply AutoLock_free|done].
Qed.

(** ** A concrete allocator *)

Definition ex_state : t := default (mkPA Null [] 0) (init 65536 32768).

Lemma ex_state_ok :
  wf ex_state /\ blocks (anchor ex_state) = [(69632, 28672)] /\
  (forall q, q ∈ nodes (anchor ex_state) ++ freeList ex_state -> in_range 65536 PAGE_SIZE q).
Proof.
  destruct (init_spec 65536 32768) as (s & E & Hw & Hb & Hn); [done..|]. unfold ex_state. rewrite E.
  split; [done|]. split; [done|]. simpl. rewrite Hn. apply nodes_in_range.
Qed.

Lemma allocPages_exact_witness :
  (exists v s', allocPages 5000 (ex_state, false) = Some ((0, v), (s', false)) /\ wf s' /\ v mod PAGE_SIZE = 0 /\
     taken ex_state s' v (PAGE_ROUND_UP 5000) None) \/
  (allocPages 5000 (ex_state, false) = Some ((_SERROR 1474 0 ENOMEM, 0), (ex_state, false)) /\
   forall v, exists a, in_range v (PAGE_ROUND_UP 5000) a /\ ~ free (blocks (anchor ex_state)) a).
Proof. apply (allocPages_exact ex_state 5000); [apply ex_state_ok|done|done]. Defined.

Lemma allocPagesAt_exact_witness :
  (exists s' m, allocPagesAt 73728 8192 (ex_state, false) = Some (0, (s', false)) /\ wf s' /\
     taken ex_state s' 73728 8192 m) \/
  (allocPagesAt 73728 8192 (ex_state, false) = Some (_SERROR 1475 0 ENOMEM, (ex_state, false)) /\
   exists a, in_range 73728 8192 a /\ ~ free (blocks (anchor ex_state)) a).
Proof. apply (allocPagesAt_exact ex_state 73728 8192); [apply ex_state_ok|done..]. Defined.

Lemma allocPagesAligned_exact_witness :
  (exists v s' m, allocPagesAligned 5000 16384 4096 (ex_state, false) = Some ((0, v), (s', false)) /\ wf s' /\
     v mod PAGE_SIZE = 0 /\ v mod 16384 = 4096 /\ taken ex_state s' v (PAGE_ROUND_UP 5000) m) \/
  (allocPagesAligned 5000 16384 4096 (ex_state, false) = Some ((_SERROR 1476 0 ENOMEM, 0), (ex_state, false)) /\
   ((height (anchor ex_state) <= STACK_SIZE)%nat -> forall v, 0 <= v -> v mod 16384 = 4096 ->
      exists a, in_range v (PAGE_ROUND_UP 5000) a /\ ~ free (blocks (anchor ex_state)) a)).
Proof.
  apply (allocPagesAligned_exact ex_state 5000 16384 4096); [apply ex_state_ok|done|done|done|done|done|done|].
  destruct ex_state_ok as (_ & -> & _). intros b ->%list_elem_of_singleton. done.
Defined.

Lemma deallocPages_exact_witness :
  exists s' m, deallocPages 98304 8000 (ex_state, false) = Some (0, (s', false)) /\ wf s' /\
    returned ex_state s' 98304 (PAGE_ROUND_UP 8000) m.
Proof.
  apply (deallocPages_exact ex_state 98304 8000); [apply ex_state_ok|done|done|].
  change (PAGE_ROUND_UP 8000) with 8192. destruct ex_state_ok as (_ & Hb & Hn). constructor; [done|done|..].
  - rewrite Hb. intros a Ha. rewrite free_cons, free_nil. unfold in_range, inside in *. simpl. lia.
  - intros q Hq%Hn. unfold in_range, PAGE_SIZE in *. lia.
Defined.

(** Two blocks that both can hold two pages, the lower one at the root. *)
Definition ex_two : t :=
  mkPA (Node 4096 Null 1048576 20480 (Node 4128 Null 2097152 12288 Null)) [4160] 32768.

(** AllocPages does not always take the lowest block that is large enough:
    when the low subtree offers none, the search goes on into the high subtree
    although the current block would do. *)
Theorem allocPages_not_lowest :
  wf ex_two /\
  exists v s' b, allocPages 8192 (ex_two, false) = Some ((0, v), (s', false)) /\
    b ∈ blocks (anchor ex_two) /\ PAGE_ROUND_UP 8192 <= b.2 /\ b.1 < v.
Proof.
  split.
  - constructor; [|done|done]. constructor.
    + simpl. lia.
    + apply blocks_ok_cons. split; [done|]. split; [by apply blocks_ok_one|].
      intros y ->%list_elem_of_singleton. done.
    + by apply (bool_decide_unpack _); vm_compute.
    + unfold ex_two. cbn [anchor freeList blocks nodes app]. intros p Hp.
      rewrite !free_cons, free_nil. unfold inside. simpl.
      repeat (apply elem_of_cons in Hp as [->|Hp]; [lia|]). by apply not_elem_of_nil in Hp.
  - eexists 2097152, _, (1048576, 20480). split; [by vm_compute|]. split; [by left|]. done.
Qed.

End PageAllocator.
