(* ===== verification/PageClient.v ===== *)
(** * PageClient: sequences of calls of the page allocator

    A client allocates ranges in the three ways the allocator offers and gives
    back ranges it holds, in any order.  The theorem below is what every user of
    the allocator relies on: ranges handed out do not overlap, never contain the
    allocator's own nodes, and no memory is lost. *)

From stdpp Require Import base numbers option gmap sorting list.
From S2P Require Import K42 Prelude PageTree PageAllocator.

Module PageClient.
Import PageTree PageAllocator.

Inductive op :=
| OpAlloc (size : Z)
| OpAllocAt (vaddr size : Z)
| OpAllocAligned (size align offset : Z)
| OpDealloc (i : nat).

(** The allocator with its lock, and the ranges (address, size) held. *)
Definition world : Type := (PageAllocator.t * bool) * list (Z * Z).

Definition hold (rc v size : Z) (held : list (Z * Z)) : list (Z * Z) :=
  if _SUCCESS rc then (v, size) :: held else held.

Definition step (w : world) (o : op) : option world :=
  let '(s, held) := w in
  match o with
  | OpAlloc size => '((rc, v), s') ← allocPages size s; Some (s', hold rc v (PAGE_ROUND_UP size) held)
  | OpAllocAt v size => '(rc, s') ← allocPagesAt v size s; Some (s', hold rc v size held)
  | OpAllocAligned size align offset =>
      '((rc, v), s') ← allocPagesAligned size align offset s; Some (s', hold rc v (PAGE_ROUND_UP size) held)
  | OpDealloc i =>
      match held !! i with
      | Some (v, n) => '(_, s') ← deallocPages v n s; Some (s', delete i held)
      | None => Some w
      end
  end.

Fixpoint run (w : world) (os : list op) : option world :=
  match os with [] => Some w | o :: os => w' ← step w o; run w' os end.

(** The arguments are in range: positive sizes that do not overflow, page
    multiples where the interface wants them. *)
Definition op_ok (hi : Z) (o : op) : Prop :=
  match o with
  | OpAlloc size => 0 < size /\ size + 4095 < 2 ^ 64
  | OpAllocAt v size => 0 <= v /\ v mod PAGE_SIZE = 0 /\ 0 < size /\ size mod PAGE_SIZE = 0 /\ v + size < 2 ^ 64
  | OpAllocAligned size align offset =>
      0 < size /\ size + 4095 < 2 ^ 64 /\ 0 < align /\ 0 <= offset < align /\
      align mod PAGE_SIZE = 0 /\ offset mod PAGE_SIZE = 0 /\ hi + align + PAGE_ROUND_UP size < 2 ^ 64
  | OpDealloc _ => True
  end.

Definition disj (r1 r2 : Z * Z) : Prop := forall a, inside a r1 -> ~ inside a r2.

Fixpoint all_disj (l : list (Z * Z)) : Prop :=
  match l with [] => True | r :: l => (forall r', r' ∈ l -> disj r r') /\ all_disj l end.

(** A held range: page aligned, in the memory [lo .. hi) of the allocator,
    without a free address and without a node of the allocator. *)
Record held_ok (lo hi : Z) (s : PageAllocator.t) (r : Z * Z) : Prop := {
  ho_blk : blk_ok r;
  ho_range : lo <= r.1 /\ r.1 + r.2 <= hi;
  ho_busy : forall a, inside a r -> ~ free (blocks (anchor s)) a;
  ho_nodes : forall q, q ∈ nodes (anchor s) ++ freeList s -> ~ inside q r;
}.

(** The node, if any, that an operation loses. *)
Definition lost_step (w : world) (o : op) : list Z :=
  match o with
  | OpDealloc i => match w.2 !! i with Some (v, n) => dropped w.1.1 (PAGE_ROUND_UP n) | None => [] end
  | _ => []
  end.

(** The nodes that a sequence of operations loses. *)
Fixpoint lost_run (w : world) (os : list op) : list Z :=
  match os with
  | [] => []
  | o :: os => lost_step w o ++ match step w o with Some w' => lost_run w' os | None => [] end
  end.

(** The nodes that fit into the given pages. *)
Definition nodes_of (pages : list Z) : list Z := concat (nodes_in <$> pages).

(** The memory [lo .. hi) is made up of the free memory, the ranges held and the
    pages of nodes, and all nodes of these pages are in the tree, unused in the
    list of the allocator, or lost. *)
Record accounted (lo hi : Z) (s : PageAllocator.t) (held : list (Z * Z)) (pages lost : list Z) : Prop := {
  ac_cover : forall a, lo <= a < hi <->
    free (blocks (anchor s)) a \/ free held a \/ Exists (fun p => in_range p PAGE_SIZE a) pages;
  ac_pages : forall p a, p ∈ pages -> in_range p PAGE_SIZE a ->
    ~ free (blocks (anchor s)) a /\ ~ free held a;
  ac_nodes : (nodes (anchor s) ++ freeList s) ++ lost ≡ₚ nodes_of pages;
  ac_sum : available s + total held + Z.of_nat (length pages) * PAGE_SIZE = hi - lo;
}.

Record inv (lo hi : Z) (pages lost : list Z) (s : PageAllocator.t) (held : list (Z * Z)) : Prop := {
  inv_wf : wf s;
  inv_held : Forall (held_ok lo hi s) held;
  inv_disj : all_disj held;
  inv_acc : accounted lo hi s held pages lost;
}.

(** ** Lemmas *)

Lemma all_disj_delete l1 r l2 :
  all_disj (l1 ++ r :: l2) -> all_disj (l1 ++ l2) /\ forall r', r' ∈ l1 ++ l2 -> disj r r'.
Proof.
  induction l1 as [|r1 l1 IH]; simpl.
  - intros [H1 H2]. done.
  - intros [H1 H2]. destruct (IH H2) as [H3 H4]. split; [split; [|done]|].
    + intros r' Hr'. apply H1. rewrite elem_of_app, elem_of_cons in *. tauto.
    + intros r' [->|Hr']%elem_of_cons; [|by apply H4].
      intros a Ha Hb. apply (H1 r ltac:(rewrite elem_of_app, elem_of_cons; tauto) a Hb Ha).
Qed.

(** The page that an operation turned into nodes joins the others. *)
Definition page_list (m : option Z) : list Z := match m with Some q => [q] | None => [] end.

Lemma page_list_in m pages a :
  Exists (fun p => in_range p PAGE_SIZE a) (page_list m ++ pages) <->
  in_page m a \/ Exists (fun p => in_range p PAGE_SIZE a) pages.
Proof. rewrite Exists_app. destruct m; simpl; [rewrite Exists_cons, Exists_nil|rewrite Exists_nil]; tauto. Qed.

Lemma page_list_elem m pages p : p ∈ page_list m ++ pages -> (forall a, in_range p PAGE_SIZE a -> in_page m a) \/ p ∈ pages.
Proof.
  intros [Hp|Hp]%elem_of_app; [|by right]. destruct m; [|by apply not_elem_of_nil in Hp].
  apply list_elem_of_singleton in Hp as ->. by left.
Qed.

Lemma page_list_nodes m pages : nodes_of (page_list m ++ pages) = page_nodes m ++ nodes_of pages.
Proof. destruct m; done. Qed.

Lemma page_list_cost m pages :
  Z.of_nat (length (page_list m ++ pages)) * PAGE_SIZE = page_cost m + Z.of_nat (length pages) * PAGE_SIZE.
Proof. rewrite length_app. destruct m; simpl; unfold PAGE_SIZE; lia. Qed.

Lemma page_nodes_in m q : q ∈ page_nodes m -> in_page m q.
Proof. destruct m; [apply nodes_in_range|by intros ?%not_elem_of_nil]. Qed.

#[export] Instance in_range_dec v sz a : Decision (in_range v sz a).
Proof. unfold in_range. apply _. Defined.

#[export] Instance in_page_dec m a : Decision (in_page m a).
Proof. destruct m; simpl; apply _. Defined.

Lemma inv_in lo hi pages lost s held a : inv lo hi pages lost s held -> free (blocks (anchor s)) a -> lo <= a < hi.
Proof. intros HI Ha. apply (ac_cover _ _ _ _ _ _ (inv_acc _ _ _ _ _ _ HI)). by left. Qed.

Lemma taken_accounted lo hi pages lost s s' held v sz m :
  accounted lo hi s held pages lost -> taken s s' v sz m ->
  (forall a, free held a -> ~ free (blocks (anchor s)) a) ->
  accounted lo hi s' ((v, sz) :: held) (page_list m ++ pages) lost.
Proof.
  intros [A1 A2 A3 A4] [T1 T2 T3 T4 T5] Hh. constructor.
  - intros a. rewrite A1, page_list_in, free_cons, T3. specialize (T1 a). specialize (T2 a).
    change (inside a (v, sz)) with (in_range v sz a).
    destruct (decide (in_range v sz a)), (decide (in_page m a)); tauto.
  - intros p a Hp Ha. rewrite T3, free_cons. change (inside a (v, sz)) with (in_range v sz a).
    specialize (T1 a). specialize (T2 a). specialize (Hh a). apply page_list_elem in Hp as [Hp|Hp].
    + specialize (Hp a Ha). tauto.
    + specialize (A2 p a Hp Ha). tauto.
  - rewrite T5, page_list_nodes, <- A3. solve_Permutation.
  - rewrite page_list_cost. cbn [total snd]. lia.
Qed.

(** A free range has no node of the allocator in it and lies in its memory. *)
Lemma taken_inv lo hi pages lost s s' held v sz m :
  inv lo hi pages lost s held -> wf s' -> blk_ok (v, sz) -> taken s s' v sz m ->
  inv lo hi (page_list m ++ pages) lost s' ((v, sz) :: held).
Proof.
  intros HI Hw Hblk HT. pose proof (fun a => inv_in _ _ _ _ _ _ a HI) as I2.
  pose proof HI as [I1 I3 I4 I5]. pose proof HT as [T1 T2 T3 T4 T5].
  pose proof Hblk as (B1 & B2 & _). cbn [fst snd] in B1, B2.
  assert (Hr : lo <= v /\ v + sz <= hi).
  { pose proof (I2 v (T1 v ltac:(unfold in_range; lia))).
    pose proof (I2 (v + sz - 1) (T1 (v + sz - 1) ltac:(unfold in_range; lia))). lia. }
  assert (Hbusy : forall a, free held a -> ~ free (blocks (anchor s)) a).
  { intros a (r & Hr1 & Hr2)%free_elem. rewrite Forall_forall in I3. by apply (ho_busy _ _ _ _ (I3 r Hr1)). }
  constructor; [done| | |by apply (taken_accounted lo hi pages lost s)].
  - constructor.
    + constructor; [done|done|..].
      * intros a Ha Hf. apply T3 in Hf as (_ & Hf & _). by apply Hf.
      * intros q Hq Hi. rewrite T5 in Hq. apply elem_of_app in Hq as [Hq%page_nodes_in|Hq].
        -- apply T2 in Hq as [_ Hq]. by apply Hq.
        -- apply (good_meta _ _ (wf_good _ I1) q Hq). by apply T1.
    + eapply Forall_impl; [exact I3|]. intros r [R1 R2 R3 R4]. constructor; [done|done|..].
      * intros a Ha Hf. apply T3 in Hf as (Hf & _). by apply (R3 a).
      * intros q Hq Hi. rewrite T5 in Hq. apply elem_of_app in Hq as [Hq%page_nodes_in|Hq]; [|by apply (R4 q)].
        apply T2 in Hq as [Hq _]. by apply (R3 q).
  - split; [|done]. intros r Hin a Ha Hb. rewrite Forall_forall in I3.
    apply (ho_busy _ _ _ _ (I3 r Hin) a Hb). by apply T1.
Qed.

Lemma free_held_mid l1 v sz l2 a : free (l1 ++ (v, sz) :: l2) a <-> in_range v sz a \/ free (l1 ++ l2) a.
Proof. rewrite !free_app, free_cons. change (inside a (v, sz)) with (in_range v sz a). tauto. Qed.

Lemma returned_accounted lo hi pages lost s s' l1 l2 v sz m :
  accounted lo hi s (l1 ++ (v, sz) :: l2) pages lost -> returned s s' v sz m ->
  (forall a, free (l1 ++ l2) a -> ~ free (blocks (anchor s)) a /\ ~ in_range v sz a) ->
  accounted lo hi s' (l1 ++ l2) (page_list m ++ pages) (lost ++ dropped s sz).
Proof.
  intros [A1 A2 A3 A4] [R1 R2 R3 R4] Hh. constructor.
  - intros a. rewrite A1, page_list_in, free_held_mid, R2. specialize (R1 a).
    destruct (decide (in_page m a)); tauto.
  - intros p a Hp Ha. rewrite R2. specialize (R1 a). specialize (Hh a). apply page_list_elem in Hp as [Hp|Hp].
    + specialize (Hp a Ha). tauto.
    + specialize (A2 p a Hp Ha). rewrite free_held_mid in A2. tauto.
  - rewrite page_list_nodes, <- A3.
    transitivity (((nodes (anchor s') ++ freeList s') ++ dropped s sz) ++ lost); [solve_Permutation|].
    rewrite R4. solve_Permutation.
  - rewrite page_list_cost. rewrite total_app in *. cbn [total snd] in A4. lia.
Qed.

Lemma returned_inv lo hi pages lost s s' l1 l2 v sz m :
  inv lo hi pages lost s (l1 ++ (v, sz) :: l2) -> wf s' -> returned s s' v sz m ->
  inv lo hi (page_list m ++ pages) (lost ++ dropped s sz) s' (l1 ++ l2).
Proof.
  intros [I1 I3 I4 I5] Hw HR. pose proof HR as [R1 R2 R3 R4].
  destruct (all_disj_delete _ _ _ I4) as [D1 D2].
  apply Forall_app in I3 as [F1 F2]. apply Forall_cons in F2 as [Fr F2]. pose proof Fr as [G1 G2 G3 G4].
  cbn [fst snd] in *.
  assert (Hok : Forall (held_ok lo hi s) (l1 ++ l2)) by (by apply Forall_app).
  rewrite Forall_forall in Hok.
  constructor; [done| |done|].
  - apply Forall_forall. intros r Hin. pose proof (D2 r Hin) as Hd.
    destruct (Hok r Hin) as [S1 S2 S3 S4].
    constructor; [done|done|..].
    + intros a Ha Hf. apply R2 in Hf as [[Hf|Hf] _]; [by apply (S3 a)|]. by apply (Hd a).
    + intros q Hq Hi.
      assert (Hq' : q ∈ page_nodes m ++ nodes (anchor s) ++ freeList s) by (rewrite <- R4, elem_of_app; by left).
      apply elem_of_app in Hq' as [Hq'%page_nodes_in|Hq']; [|by apply (S4 q)].
      apply R1 in Hq' as [Hq'|Hq']; [by apply (S3 q)|by apply (Hd q)].
  - apply (returned_accounted lo hi pages lost s s' l1 l2 v sz m); [done|done|].
    intros a (r & Hr1 & Hr2)%free_elem. destruct (Hok r Hr1) as [S1 S2 S3 S4].
    split; [by apply S3|]. intros Ha. by apply (D2 r Hr1 a).
Qed.

Lemma round_blk lo hi s r : held_ok lo hi s r -> hi < 2 ^ 64 - PAGE_SIZE -> PAGE_ROUND_UP r.2 = r.2.
Proof.
  intros [(B1 & B2 & _ & B4 & _) [R1 R2] _ _] Hhi. unfold PAGE_SIZE in *. apply page_round_up_id; [lia|lia|done].
Qed.

Lemma taken_blk s s' v sz m :
  wf s -> taken s s' v sz m -> 0 < sz -> v mod PAGE_SIZE = 0 -> sz mod PAGE_SIZE = 0 -> blk_ok (v, sz).
Proof.
  intros Hw Ht H0 Hv Hs.
  destruct (range_in_block (blocks (anchor s)) v sz) as [(b & Hb & H1 & H2)|(a & Ha & Hf)];
    [apply Hw|done| |by destruct (Hf (tk_free _ _ _ _ _ Ht a Ha))].
  destruct (blocks_ok_elem _ b (good_blocks _ _ (wf_good _ Hw)) Hb) as (B1 & B2 & B3 & B4 & B5).
  repeat split; cbn [fst snd]; (done || lia).
Qed.

Lemma step_inv lo hi pages lost s held o :
  inv lo hi pages lost s held -> op_ok hi o -> hi < 2 ^ 64 - PAGE_SIZE ->
  exists pages' s' held', step ((s, false), held) o = Some ((s', false), held') /\
    inv lo hi pages' (lost ++ lost_step ((s, false), held) o) s' held'.
Proof.
  intros HI Ho Hhi. pose proof (inv_wf _ _ _ _ _ _ HI) as Hw. destruct o as [size|v size|size align offset|i]; simpl.
  1-3: rewrite app_nil_r.
  - destruct Ho as [H0 H1]. pose proof (page_round_range size H0 H1) as [Hr Hrm]. unfold allocPages.
    destruct (locked_allocPages_spec s size Hw H0 H1) as [(v & s' & E & Hw' & Hv & Ht)|[E _]].
    + rewrite (AutoLock_free _ _ _ _ E). simpl. eexists (page_list None ++ pages), s', _. split; [done|].
      by apply (taken_inv lo hi pages lost s s' _ _ _ None); [..|apply (taken_blk s s' v _ None); try done; lia|].
    + rewrite (AutoLock_free _ _ _ _ E). simpl. by exists pages, s, held.
  - destruct Ho as (H0 & H1 & H2 & H3 & H4). unfold allocPagesAt.
    destruct (locked_allocPagesAt_spec s v size Hw H0 H1 H2 H3 H4) as [(s' & m & E & Hw' & Ht)|[E _]].
    + rewrite (AutoLock_free _ _ _ _ E). simpl. eexists (page_list m ++ pages), s', _. split; [done|].
      by apply (taken_inv lo hi pages lost s s' _ _ _ m); [..|apply (taken_blk s s' v _ m)|].
    + rewrite (AutoLock_free _ _ _ _ E). simpl. by exists pages, s, held.
  - destruct Ho as (H0 & H1 & H2 & H3 & H4 & H5 & H6). pose proof (page_round_range size H0 H1) as [Hr Hrm].
    unfold allocPagesAligned.
    destruct (locked_allocPagesAligned_spec s size align offset Hw H0 H1 H2 H3 H4 H5)
      as [(v & s' & m & E & Hw' & Hv & _ & Ht)|[E _]].
    + intros b Hb. destruct (blocks_ok_elem _ b (good_blocks _ _ (wf_good _ Hw)) Hb) as (B1 & B2 & _).
      assert (Hf : free (blocks (anchor s)) b.1) by (apply free_elem; exists b; split; [done|unfold inside; lia]).
      pose proof (inv_in _ _ _ _ _ _ _ HI Hf). lia.
    + rewrite (AutoLock_free _ _ _ _ E). simpl. eexists (page_list m ++ pages), s', _. split; [done|].
      by apply (taken_inv lo hi pages lost s s' _ _ _ m); [..|apply (taken_blk s s' v _ m); try done; lia|].
    + rewrite (AutoLock_free _ _ _ _ E). simpl. by exists pages, s, held.
  - destruct (held !! i) as [[v n]|] eqn:Ei; [|rewrite app_nil_r; by exists pages, s, held].
    pose proof (take_drop_middle _ _ _ Ei) as Em.
    assert (Hr : held_ok lo hi s (v, n)).
    { pose proof (inv_held _ _ _ _ _ _ HI) as Hf. rewrite Forall_forall in Hf.
      apply Hf. by apply list_elem_of_lookup_2 in Ei. }
    pose proof (round_blk _ _ _ _ Hr Hhi) as Ern. cbn [snd] in Ern.
    destruct Hr as [Hb [R1 R2] R3 R4]. pose proof Hb as (B1 & B2 & _ & _ & B5). cbn [fst snd] in *.
    destruct (locked_deallocPages_spec s v n Hw) as (s' & m & E & Hw' & Hrt); [lia|unfold PAGE_SIZE in *; lia| |].
    { rewrite Ern. by constructor. }
    unfold deallocPages. rewrite (AutoLock_free _ _ _ _ E). simpl. rewrite Ern in Hrt |- *.
    rewrite <- Em in HI. exists (page_list m ++ pages), s', (delete i held). split; [done|].
    rewrite delete_take_drop. by apply (returned_inv _ _ _ _ _ _ _ _ _ _ m HI).
Qed.

Lemma run_inv lo hi pages lost s held os :
  inv lo hi pages lost s held -> Forall (op_ok hi) os -> hi < 2 ^ 64 - PAGE_SIZE ->
  exists pages' s' held', run ((s, false), held) os = Some ((s', false), held') /\
    inv lo hi pages' (lost ++ lost_run ((s, false), held) os) s' held'.
Proof.
  intros HI Ho Hhi. revert pages lost s held HI.
  induction Ho as [|o os Hx Ho IH]; intros pages lost s held HI.
  { exists pages, s, held. cbn [lost_run]. by rewrite app_nil_r. }
  destruct (step_inv _ _ _ _ _ _ _ HI Hx Hhi) as (pages1 & s1 & held1 & E & HI1). cbn [run lost_run]. rewrite E.
  cbn [mbind option_bind]. rewrite app_assoc. by apply (IH pages1).
Qed.

(** The last unused node is lost when the only free page is used up for nodes. *)
Lemma dealloc_loses_node :
  let s := mkPA Null [8192] 0 in
  exists s', deallocPages 65536 4096 (s, false) = Some (0, (s', false)) /\
    nodes (anchor s') ++ freeList s' = nodes_in 65536 /\ 8192 ∉ nodes (anchor s') ++ freeList s'.
Proof.
  eexists. split; [vm_compute; reflexivity|]. split; [by vm_compute|]. apply (bool_decide_unpack _). by vm_compute.
Qed.

(** C1: Safety of the page allocator.  Started on a piece of memory and called
    in any sequence with arguments in range, the allocator never gets stuck (no
    assertion fails, no null pointer is used, every search ends) and the ranges
    it has handed out and not taken back are page aligned, lie within its memory,
    do not overlap one another, hold no address it considers free and none of
    its own nodes.  No memory is lost: every address it was given is free, held or
    in a page of nodes, never two of them; free bytes, held bytes and the pages of
    nodes add up to the memory; and the pages of nodes hold exactly the nodes of
    the tree, those of the free list and the nodes that deallocPages drops (one
    each time it turns a freed page into nodes while nothing else is free and one
    unused node is left), which are computed from the run. *)
Theorem allocations_safe start size os :
  0 < start -> start mod PAGE_SIZE = 0 -> size mod PAGE_SIZE = 0 -> PAGE_SIZE < size ->
  start + size < 2 ^ 64 - PAGE_SIZE -> Forall (op_ok (start + size)) os ->
  exists s0 s held pages, PageAllocator.init start size = Some s0 /\
    run ((s0, false), []) os = Some ((s, false), held) /\
    Forall (held_ok start (start + size) s) held /\ all_disj held /\
    accounted start (start + size) s held pages (lost_run ((s0, false), []) os).
Proof.
  intros H0 Hm Hms Hsz Hb Ho. destruct (init_spec start size) as (s0 & E & Hw & Eb & Hn); [done..|].
  assert (HI : inv start (start + size) [start] [] s0 []).
  { constructor; [done|constructor|done|]. constructor.
    - rewrite Eb. intros a. rewrite !free_cons, !free_nil, Exists_cons, Exists_nil.
      unfold inside, in_range, PAGE_SIZE in *. simpl. lia.
    - intros p a ->%list_elem_of_singleton Ha. rewrite Eb, free_cons, !free_nil.
      unfold inside, in_range, PAGE_SIZE in *. simpl. lia.
    - rewrite Hn. unfold nodes_of. cbn [fmap list_fmap concat]. done.
    - rewrite (wf_avail _ Hw), Eb. cbn [total snd length]. lia. }
  destruct (run_inv _ _ _ _ _ _ os HI Ho Hb) as (pages & s & held & Er & [_ Hh Hd Ha]).
  by exists s0, s, held, pages.
Qed.

Definition ex_ops : list op :=
  [OpAlloc 5000; OpAllocAt 86016 4096; OpAllocAligned 100 16384 4096; OpAlloc 1000000; OpDealloc 1; OpDealloc 0; OpDealloc 7].

Lemma allocations_safe_witness :
  exists s0 s held pages, PageAllocator.init 65536 65536 = Some s0 /\
    run ((s0, false), []) ex_ops = Some ((s, false), held) /\
    Forall (held_ok 65536 131072 s) held /\ all_disj held /\
    accounted 65536 131072 s held pages (lost_run ((s0, false), []) ex_ops).
Proof.
  apply (allocations_safe 65536 65536 ex_ops); try done.
  unfold ex_ops. repeat (apply Forall_cons; split; [by vm_compute|]). by apply Forall_nil.
Defined.

End PageClient.
