(* ===== verification/FairBLock.v ===== *)
(** * FairBLock: the fair blocking lock, lib/libc/sync/FairBLock.C

    A queue lock without storage allocation: waiting threads chain elements on
    their own stacks, and the holder of the lock is not on the queue.  Threads
    run concurrently; every shared access (read, write or compare-and-store) is
    one step of one thread, and the steps interleave in any order.  Tracing and
    the owner field for debugging are left out. *)

From stdpp Require Import base numbers option gmap list.
From S2P Require Import K42 Prelude.

Module FairBLock.

(** Element *: null, [&lock], or the element on the stack of a thread. *)
Inductive ptr := Null | Lock | El (t : Z).

#[export] Instance ptr_eq_dec : EqDecision ptr.
Proof. solve_decision. Defined.

(** Where a thread is in the code, with its local variables. *)
Inductive PC :=
(* _acquire *)
| PIdle                   (* not in the lock's code *)
| PSpin (spinCount : nat) (* el = lock.tail, in the spinning loop *)
| PSpinCAS (spinCount : nat)
| PLoop                   (* el = lock.tail, in while(1) *)
| PCAS                    (* CompareAndStore(tail, 0, &lock) *)
| PInit (el : ptr)        (* myel.nextThread = 0; myel.waiter = me *)
| PCASq (el : ptr)        (* CompareAndStore(tail, el, &myel) *)
| PLink (el : ptr)        (* el->nextThread = &myel *)
| PWait                   (* while (myel.waiter != NullThreadID) *)
| PBlock                  (* Scheduler::Block() *)
| PGot                    (* lock.nextThread = 0 *)
| PBet                    (* CompareAndStore(tail, &myel, &lock) *)
| PNext                   (* while (myel.nextThread == 0) *)
| PRec                    (* lock.nextThread = myel.nextThread *)
| PHeld                   (* acquire or tryAcquire has returned with the lock *)
(* _release *)
| PRel                    (* CompareAndStore(tail, &lock, 0) *)
| PRelNext                (* while ((el = lock.nextThread) == 0) *)
| PRelW (el : Z)          (* waiter = el->waiter *)
| PRelClr (el : Z)        (* el->waiter = NullThreadID *)
| PUnblock (waiter : Z)   (* Scheduler::Unblock(waiter) *)
| PCrash.                 (* a failed assertion or a dead stack element *)

(** A thread: its place, its element [myel] ([waiter] says whether the field
    holds the thread's id or NullThreadID), and whether an Unblock is pending. *)
Record thread := mkThread { pc : PC; nextThread : option Z; waiter : bool; token : bool }.

Record t := mkLock { tail : ptr; lnext : option Z; threads : gmap Z thread }.

Definition init (ts : list Z) : t :=
  mkLock Null None (list_to_map ((fun i => (i, mkThread PIdle None false false)) <$> ts)).

Definition set_pc (c : PC) (x : thread) : thread := mkThread c (nextThread x) (waiter x) (token x).

Definition put (s : t) (i : Z) (x : thread) : t := mkLock (tail s) (lnext s) (<[i := x]> (threads s)).

(** Thread [i] goes on at [c]. *)
Definition goto (s : t) (i : Z) (c : PC) : t :=
  match threads s !! i with Some x => put s i (set_pc c x) | None => s end.

Definition set_tail (s : t) (p : ptr) : t := mkLock p (lnext s) (threads s).
Definition set_lnext (s : t) (n : option Z) : t := mkLock (tail s) n (threads s).

(** The element [myel] of a thread exists while it is in the blocking part of _acquire. *)
Definition frame_live (c : PC) : bool :=
  match c with
  | PLoop | PCAS | PInit _ | PCASq _ | PLink _ | PWait | PBlock | PGot | PBet | PNext | PRec => true
  | _ => false
  end.

(** Writing through a pointer to another thread's element. *)
Definition update_el (s : t) (u : Z) (f : thread -> thread) : option t :=
  y ← threads s !! u;
  if frame_live (pc y) then Some (put s u (f y)) else None.

Definition set_next (n : option Z) (x : thread) : thread := mkThread (pc x) n (waiter x) (token x).
Definition set_waiter (b : bool) (x : thread) : thread := mkThread (pc x) (nextThread x) b (token x).
Definition set_token (b : bool) (x : thread) : thread := mkThread (pc x) (nextThread x) (waiter x) b.

(** FairBLockSpinCount + FairBLockYieldCount + FairBLockYieldVPCount *)
Definition yieldVPLimit : nat := 201.

(** One step of thread [i], at [x], in _acquire.  [None]: it cannot move. *)
Definition acquire_step (s : t) (i : Z) (x : thread) : option t :=
  match pc x with
  | PSpin n =>
      if bool_decide (n < yieldVPLimit)%nat then
        match tail s with
        | Null => Some (goto s i (PSpinCAS n))
        | Lock => Some (goto s i (PSpin (S n)))
        | El _ => Some (goto s i PLoop)
        end
      else Some (goto s i PLoop)
  | PSpinCAS n =>
      if bool_decide (tail s = Null) then Some (goto (set_tail s Lock) i PHeld)
      else Some (goto s i (PSpin (S n)))
  | PLoop =>
      match tail s with
      | Null => Some (goto s i PCAS)
      | el => Some (goto s i (PInit el))
      end
  | PCAS =>
      if bool_decide (tail s = Null) then Some (goto (set_tail s Lock) i PHeld)
      else Some (goto s i PLoop)
  | PInit el => Some (goto (put s i (set_next None (set_waiter true x))) i (PCASq el))
  | PCASq el =>
      if bool_decide (tail s = el) then Some (goto (set_tail s (El i)) i (PLink el))
      else Some (goto s i PLoop)
  | PLink el =>
      match el with
      | Null => Some (goto s i PCrash)
      | Lock => Some (goto (set_lnext s (Some i)) i PWait)
      | El u =>
          match update_el s u (set_next (Some i)) with
          | Some s' => Some (goto s' i PWait)
          | None => Some (goto s i PCrash)
          end
      end
  | PWait => Some (goto s i (if waiter x then PBlock else PGot))
  | PBlock => if token x then Some (goto (put s i (set_token false x)) i PWait) else None
  | PGot => Some (goto (set_lnext s None) i PBet)
  | PBet =>
      if bool_decide (tail s = El i) then Some (goto (set_tail s Lock) i PHeld)
      else Some (goto s i PNext)
  | PNext => Some (goto s i (match nextThread x with None => PNext | Some _ => PRec end))
  | PRec => Some (goto (set_lnext s (nextThread x)) i PHeld)
  | _ => None
  end.

(** One step in _release. *)
Definition release_step (s : t) (i : Z) (x : thread) : option t :=
  match pc x with
  | PRel =>
      if bool_decide (tail s = Lock) then Some (goto (set_tail s Null) i PIdle)
      else Some (goto s i PRelNext)
  | PRelNext =>
      match lnext s with
      | None => Some (goto s i PRelNext)
      | Some u => Some (goto s i (PRelW u))
      end
  | PRelW u =>
      match threads s !! u with
      | Some y => if frame_live (pc y) && waiter y then Some (goto s i (PRelClr u)) else Some (goto s i PCrash)
      | None => Some (goto s i PCrash)
      end
  | PRelClr u =>
      match update_el s u (set_waiter false) with
      | Some s' => Some (goto s' i (PUnblock u))
      | None => Some (goto s i PCrash)
      end
  | PUnblock u =>
      match threads s !! u with
      | Some y => Some (goto (put s u (set_token true y)) i PIdle)
      | None => Some (goto s i PIdle)
      end
  | _ => None
  end.

Inductive cmd := Acquire | TryAcquire | Release | Go.

(** A client thread calls the lock, or runs on in its code. *)
Definition step (s : t) (i : Z) (c : cmd) : option t :=
  x ← threads s !! i;
  match pc x, c with
  | PIdle, Acquire => Some (goto s i (PSpin 0))
  | PIdle, TryAcquire =>
      if bool_decide (tail s = Null) then Some (goto (set_tail s Lock) i PHeld) else Some s
  | PHeld, Release =>
      Some (goto s i (if bool_decide (tail s = Null) then PCrash else PRel))
  | PRel, Go | PRelNext, Go | PRelW _, Go | PRelClr _, Go | PUnblock _, Go => release_step s i x
  | _, Go => acquire_step s i x
  | _, _ => None
  end.

(** A schedule: steps that are not enabled do not happen. *)
Fixpoint run (s : t) (sch : list (Z * cmd)) : t :=
  match sch with
  | [] => s
  | (i, c) :: sch => run (default s (step s i c)) sch
  end.

(** ** Invariant *)

(** The specification of the lock: who has it, and who waits, in order. *)
Record queue := mkQ { owner : option Z; waiting : list Z }.

Definition next_of (s : t) (e : ptr) : option Z :=
  match e with Null => None | Lock => lnext s | El u => (threads s !! u) ≫= nextThread end.

(** The waiting threads [q] are chained behind element [e]; a thread that has
    swung the tail but not yet linked itself leaves a gap. *)
Fixpoint links (s : t) (e : ptr) (q : list Z) : Prop :=
  match q with
  | [] => next_of s e = None
  | u :: q =>
      (exists y, threads s !! u = Some y /\ waiter y = true /\
         ((pc y = PLink e /\ next_of s e = None) \/
          ((pc y = PWait \/ pc y = PBlock) /\ next_of s e = Some u))) /\
      links s (El u) q
  end.

Definition tail_of (b : ptr) (q : list Z) : ptr :=
  match last q with Some u => El u | None => b end.

(** Some thread is about to unblock [i], or has done so. *)
Definition wakeup_pending (s : t) (i : Z) (x : thread) : Prop :=
  token x = true \/ exists v y, threads s !! v = Some y /\ pc y = PUnblock i.

(** The element the queue hangs on: that of the owner until it has completed
    the transition of the lock it was handed, then the lock's. *)
Definition base (i : Z) (c : PC) : ptr :=
  match c with PWait | PBlock | PGot | PBet | PNext | PRec => El i | _ => Lock end.

Definition owner_ok (s : t) (i : Z) (x : thread) (q : list Z) : Prop :=
  match pc x with
  | PHeld | PRel => True
  | PRelNext => q <> []
  | PRelW u | PRelClr u => head q = Some u /\ lnext s = Some u
  | PWait => waiter x = false
  | PBlock => waiter x = false /\ wakeup_pending s i x
  | PGot => True
  | PBet => lnext s = None
  | PNext => lnext s = None /\ q <> []
  | PRec => q <> [] /\ nextThread x = head q
  | _ => False
  end.

(** A thread that is neither the owner nor waiting. *)
Definition outside (x : thread) : Prop :=
  match pc x with
  | PIdle | PSpin _ | PSpinCAS _ | PLoop | PCAS | PUnblock _ => True
  | PInit el => el <> Null
  | PCASq el => el <> Null /\ nextThread x = None /\ waiter x = true
  | _ => False
  end.

Record inv (s : t) (o : option Z) (q : list Z) : Prop := {
  inv_distinct : NoDup q;
  inv_holder : match o with
    | None => q = [] /\ tail s = Null /\ lnext s = None
    | Some i => (i ∉ q) /\ exists x, threads s !! i = Some x /\ owner_ok s i x q /\
        tail s = tail_of (base i (pc x)) q /\ links s (base i (pc x)) q
    end;
  inv_others : forall i x, threads s !! i = Some x -> i ∉ q -> o <> Some i -> outside x;
}.

(** ** Lemmas on the chain of waiters *)

Lemma goto_put s i c x : threads s !! i = Some x -> goto s i c = put s i (set_pc c x).
Proof. intros H. unfold goto. by rewrite H. Qed.

Lemma tail_of_cons e u q : tail_of e (u :: q) = tail_of (El u) q.
Proof. unfold tail_of. rewrite last_cons. by destruct (last q). Qed.

Lemma tail_of_snoc e q u : tail_of e (q ++ [u]) = El u.
Proof. unfold tail_of. by rewrite last_snoc. Qed.

(** The elements [e] and those of [q]. *)
Definition on_chain (e : ptr) (q : list Z) (e' : ptr) : Prop := e' = e \/ exists w, w ∈ q /\ e' = El w.

Lemma on_chain_cons e u q e' : on_chain (El u) q e' -> on_chain e (u :: q) e'.
Proof.
  intros [->|(w & Hw & ->)]; right; [exists u|exists w]; (split; [|done]); rewrite elem_of_cons; tauto.
Qed.

(** A thread that waits keeps waiting. *)
Definition same_wait (y y' : thread) : Prop :=
  waiter y' = waiter y /\ (pc y' = pc y \/ (pc y = PWait \/ pc y = PBlock) /\ (pc y' = PWait \/ pc y' = PBlock)).

Lemma same_wait_refl y : same_wait y y.
Proof. split; [done|by left]. Qed.

Lemma links_frame s s' e q :
  links s e q ->
  (forall e', on_chain e q e' -> next_of s' e' = next_of s e') ->
  (forall w y, w ∈ q -> threads s !! w = Some y -> exists y', threads s' !! w = Some y' /\ same_wait y y') ->
  links s' e q.
Proof.
  revert e. induction q as [|u q IH]; intros e Hl Hn Ht; cbn [links] in *.
  - rewrite Hn; [done|by left].
  - destruct Hl as [(y & Hy & Hw & Hp) Hl]. split.
    + destruct (Ht u y) as (y' & Hy' & Hw' & Hp'); [by left|done|]. exists y'. split; [done|].
      split; [congruence|]. rewrite (Hn e) by by left.
      destruct Hp as [[Hp Hne]|[Hp Hne]], Hp' as [Hp'|[Hp' Hp'']].
      * left. split; [congruence|done].
      * destruct Hp'; congruence.
      * right. rewrite Hp'. done.
      * right. done.
    + apply IH; [done|..].
      * intros e' He'. apply Hn. by apply on_chain_cons.
      * intros w y' Hin. apply Ht. by right.
Qed.

(** Where the missing link of a waiting thread is. *)
Lemma links_pred s e q i y e' :
  links s e q -> i ∈ q -> threads s !! i = Some y -> pc y = PLink e' ->
  on_chain e q e' /\ next_of s e' = None.
Proof.
  revert e. induction q as [|u q IH]; intros e Hl Hin Hy Hp; [by apply not_elem_of_nil in Hin|].
  cbn [links] in Hl. destruct Hl as [(z & Hz & _ & Hc) Hl].
  destruct (decide (u = i)) as [->|Hne].
  - assert (z = y) as -> by congruence. rewrite Hp in Hc.
    destruct Hc as [[E ?]|[[?|?] _]]; try congruence. assert (e' = e) as -> by congruence.
    split; [by left|done].
  - apply elem_of_cons in Hin as [->|Hin]; [done|].
    destruct (IH (El u)) as [H1 H2]; [done..|]. split; [by apply on_chain_cons|done].
Qed.

Lemma links_waiting s e q i :
  links s e q -> i ∈ q -> exists y, threads s !! i = Some y /\ waiter y = true /\
    ((exists e', pc y = PLink e') \/ pc y = PWait \/ pc y = PBlock).
Proof.
  revert e. induction q as [|u q IH]; intros e Hl Hin; [by apply not_elem_of_nil in Hin|].
  cbn [links] in Hl. destruct Hl as [(z & Hz & Hw & Hc) Hl].
  apply elem_of_cons in Hin as [->|Hin]; [|by eapply IH]. exists z. split; [done|]. split; [done|].
  destruct Hc as [[? _]|[? _]]; [left; by exists e|by right].
Qed.

(** A new waiter at the end of the queue. *)
Lemma links_snoc s s' e q i y :
  links s e q -> i ∉ q -> e <> El i ->
  threads s' !! i = Some y -> pc y = PLink (tail_of e q) -> nextThread y = None -> waiter y = true ->
  (forall w, w <> i -> threads s' !! w = threads s !! w) -> lnext s' = lnext s ->
  links s' e (q ++ [i]).
Proof.
  intros Hl Hi He Hy Hp Hn Hw Ht Hln.
  assert (Hne : forall e', e' <> El i -> next_of s' e' = next_of s e').
  { intros [| |w] Hx; simpl; [done|done|]. rewrite Ht; [done|congruence]. }
  revert e He Hl Hp. induction q as [|u q IH]; intros e He Hl Hp; cbn [links app] in *.
  - split; [|cbn [next_of]; by rewrite Hy]. exists y. split; [done|]. split; [done|]. left.
    split; [exact Hp|]. by rewrite Hne.
  - apply not_elem_of_cons in Hi as [Hiu Hi]. destruct Hl as [(z & Hz & Hzw & Hc) Hl]. split.
    + exists z. rewrite Ht by done. rewrite Hne by done. done.
    + apply IH; [done|congruence|done|]. by rewrite <- tail_of_cons with (e := e).
Qed.

(** A waiter completes the chain. *)
Lemma links_link s s' e q i y y' e' :
  links s e q -> NoDup q -> (forall w, w ∈ q -> e <> El w) -> i ∈ q ->
  threads s !! i = Some y -> pc y = PLink e' ->
  threads s' !! i = Some y' -> pc y' = PWait -> waiter y' = waiter y ->
  next_of s' e' = Some i -> (forall e'', e'' <> e' -> next_of s' e'' = next_of s e'') ->
  (forall w z, w <> i -> threads s !! w = Some z ->
     exists z', threads s' !! w = Some z' /\ pc z' = pc z /\ waiter z' = waiter z) ->
  links s' e q.
Proof.
  intros Hl Hnd He Hin Hy Hp Hy' Hp' Hw' Hn' Hne Ht. revert e Hl He Hnd Hin.
  induction q as [|u q IH]; intros e Hl He Hnd Hin; [by apply not_elem_of_nil in Hin|].
  apply NoDup_cons in Hnd as [Hu Hnd]. pose proof Hl as Hl0. cbn [links] in Hl |- *.
  destruct Hl as [(z & Hz & Hzw & Hc) Hl].
  assert (Hue : forall w, w ∈ q -> El u <> El w) by (intros w Hw [= ->]; done).
  destruct (decide (u = i)) as [->|Hui].
  - assert (z = y) as -> by congruence. rewrite Hp in Hc.
    assert (e' = e) as -> by (destruct Hc as [[E ?]|[[?|?] _]]; congruence).
    split; [exists y'; split; [done|]; split; [congruence|]; right; split; [by left|done]|].
    apply (links_frame s); [done|..].
    + intros e'' [->|(w & Hw & ->)]; apply Hne; intros E; symmetry in E.
      * by apply (He i); [left|].
      * by apply (He w); [right|].
    + intros w z Hw Hz'. destruct (Ht w z) as (z' & E1 & E2 & E3); [intros ->; done|done|].
      exists z'. split; [done|]. split; [done|by left].
  - apply elem_of_cons in Hin as [->|Hin]; [done|].
    destruct (links_pred _ _ _ _ _ _ Hl Hin Hy Hp) as [Hoc _].
    assert (e <> e').
    { destruct Hoc as [->|(w & Hw & ->)]; apply He; [by left|by right]. }
    destruct (Ht u z Hui Hz) as (z' & E1 & E2 & E3). split; [|by apply IH].
    exists z'. split; [done|]. split; [congruence|]. by rewrite E2, Hne.
Qed.

(** ** Lemmas on the invariant *)

Lemma wakeup_keep s s' i x x' :
  wakeup_pending s i x -> token x' = token x ->
  (forall v y, threads s !! v = Some y -> pc y = PUnblock i -> exists y', threads s' !! v = Some y' /\ pc y' = PUnblock i) ->
  wakeup_pending s' i x'.
Proof. intros [H|(v & y & Hv & Hp)] Ht Hk; [left; congruence|]. destruct (Hk v y Hv Hp) as (y' & ? & ?). right; eauto. Qed.

Lemma base_chain i c (q : list Z) : i ∉ q -> forall w, w ∈ q -> base i c <> El w.
Proof. intros Hi w Hw. destruct c; simpl; intros [=]; congruence. Qed.

Lemma owner_ok_keep s s' i x q :
  owner_ok s i x q -> lnext s' = lnext s -> (wakeup_pending s i x -> wakeup_pending s' i x) -> owner_ok s' i x q.
Proof. unfold owner_ok. destruct (pc x); intros H Hl Hw; rewrite ?Hl; try done. destruct H. auto. Qed.

(** The queue and its chain do not see a change of a thread that is neither
    waiting nor the owner. *)
Lemma put_links s i x' e q :
  links s e q -> i ∉ q -> e <> El i -> links (put s i x') e q.
Proof.
  intros Hl Hi He. apply (links_frame s); [done|..].
  - intros [| |w] Hc; simpl; [done|done|]. rewrite lookup_insert_ne; [done|].
    intros ->. destruct Hc as [<-|(v & Hv & [= ->])]; done.
  - intros w y Hw Hy. exists y. split; [|apply same_wait_refl]. simpl.
    rewrite lookup_insert_ne; [done|]. by intros ->.
Qed.

Lemma put_wakeup s i x x' j y :
  threads s !! i = Some x -> i <> j -> (pc x = PUnblock j -> pc x' = PUnblock j) ->
  wakeup_pending s j y -> wakeup_pending (put s i x') j y.
Proof.
  intros Hx Hne Hp Hw. eapply wakeup_keep; [exact Hw|done|]. intros v z Hv Hz. simpl.
  destruct (decide (v = i)) as [->|Hvi].
  - rewrite lookup_insert_eq. exists x'. split; [done|]. apply Hp. congruence.
  - rewrite lookup_insert_ne by done. by exists z.
Qed.

Lemma inv_put_gen s o q i x x' :
  inv s o q -> threads s !! i = Some x -> i ∉ q -> o <> Some i -> outside x' ->
  (forall j y, o = Some j -> threads s !! j = Some y -> wakeup_pending s j y -> wakeup_pending (put s i x') j y) ->
  inv (put s i x') o q.
Proof.
  intros [Hnd Ho Hout] Hx Hi Hoi Hx' Hu. constructor; [done|..].
  - destruct o as [j|]; [|done]. destruct Ho as (Hj & y & Hy & Hok & Ht & Hl).
    assert (Hij : i <> j) by congruence. split; [done|]. exists y. simpl. rewrite lookup_insert_ne by done.
    split; [done|]. split; [|split; [done|]].
    + apply (owner_ok_keep s); [done|done|]. by apply Hu.
    + apply put_links; [done|done|]. destruct (pc y); simpl; congruence.
  - intros j y Hy Hj Hoj. simpl in Hy. apply lookup_insert_Some in Hy as [(<- & <-)|(_ & Hy)]; [done|by eapply Hout].
Qed.

Lemma inv_put_other s o q i x x' :
  inv s o q -> threads s !! i = Some x -> i ∉ q -> o <> Some i -> outside x' ->
  (forall u, pc x <> PUnblock u) -> inv (put s i x') o q.
Proof.
  intros Hinv Hx Hi Hoi Hx' Hu. apply (inv_put_gen s o q i x); try done.
  intros j y -> Hy. apply (put_wakeup s i x); [done|congruence|]. intros E. by destruct (Hu j).
Qed.

(** ** The specification *)

(** What a step of thread [i] does, seen from outside: it takes the free lock, it
    joins the end of the queue of a lock that is held, or as the owner it passes
    the lock to the head of the queue, or frees it. *)
Inductive qstep (i : Z) : queue -> queue -> Prop :=
| q_stutter q : qstep i q q
| q_grab : qstep i (mkQ None []) (mkQ (Some i) [])
| q_enqueue o q : i ∉ q -> i <> o -> qstep i (mkQ (Some o) q) (mkQ (Some o) (q ++ [i]))
| q_free : qstep i (mkQ (Some i) []) (mkQ None [])
| q_handoff u q : qstep i (mkQ (Some i) (u :: q)) (mkQ (Some u) q).

Definition simulated (i : Z) (s' : t) (o : option Z) (q : list Z) : Prop :=
  exists o' q', inv s' o' q' /\ qstep i (mkQ o q) (mkQ o' q').

Lemma simulated_same i s' o q : inv s' o q -> simulated i s' o q.
Proof. intros H. exists o, q. split; [done|constructor]. Qed.

(** Compare-and-store of a free lock. *)
Lemma grab_sim s o q i x :
  inv s o q -> threads s !! i = Some x -> i ∉ q -> o <> Some i -> tail s = Null -> (forall u, pc x <> PUnblock u) ->
  simulated i (goto (set_tail s Lock) i PHeld) o q.
Proof.
  intros Hinv Hx Hi Hoi Ht Hu. pose proof Hinv as [Hnd Ho Hout].
  assert (Ho0 : o = None /\ q = [] /\ lnext s = None).
  { destruct o as [j|]; [|tauto]. destruct Ho as (_ & y & _ & _ & Ht' & _). rewrite Ht in Ht'.
    unfold tail_of in Ht'. destruct (last q), (pc y); done. }
  destruct Ho0 as (-> & -> & Hn). exists (Some i), []. split; [|constructor].
  rewrite (goto_put _ _ _ x) by done. constructor; [constructor| |].
  - split; [apply not_elem_of_nil|]. eexists. simpl. rewrite lookup_insert_eq. split; [done|]. done.
  - intros j y Hy _ Hj. simpl in Hy. rewrite lookup_insert_ne in Hy by congruence. eapply Hout; [done|..|done].
    apply not_elem_of_nil.
Qed.

Lemma owner_ok_snoc s s' j y q i :
  owner_ok s j y q -> lnext s' = lnext s -> (wakeup_pending s j y -> wakeup_pending s' j y) ->
  owner_ok s' j y (q ++ [i]).
Proof.
  unfold owner_ok. intros H Hl Hw. destruct (pc y); rewrite ?Hl; try done; destruct q as [|z q]; simpl in *;
    try done; try tauto; try (destruct H; done); destruct H; auto.
Qed.

(** Compare-and-store that puts a thread at the end of the queue. *)
Lemma enqueue_sim s o q i x el :
  inv s o q -> threads s !! i = Some x -> i ∉ q -> o <> Some i -> pc x = PCASq el -> tail s = el ->
  simulated i (goto (set_tail s (El i)) i (PLink el)) o q.
Proof.
  intros Hinv Hx Hi Hoi Hp Ht. pose proof Hinv as [Hnd Ho Hout].
  pose proof (Hout _ _ Hx Hi Hoi) as Hx0. unfold outside in Hx0. rewrite Hp in Hx0. destruct Hx0 as (Hel & Hn & Hw).
  destruct o as [j|]; [|destruct Ho as (_ & ? & _); congruence].
  destruct Ho as (Hj & y & Hy & Hok & Ht' & Hl). assert (Hij : i <> j) by congruence.
  exists (Some j), (q ++ [i]). split; [|by constructor]. rewrite (goto_put _ _ _ x) by done.
  assert (Hb : base j (pc y) <> El i) by (destruct (pc y); simpl; congruence).
  constructor.
  - apply NoDup_app. split; [done|]. split; [|by apply NoDup_singleton].
    intros u Hu ->%list_elem_of_singleton. done.
  - split; [rewrite elem_of_app, list_elem_of_singleton; intros [?|?]; congruence|].
    exists y. simpl. rewrite lookup_insert_ne by done. split; [done|]. split; [|split].
    + apply (owner_ok_snoc s _ j y q i); [done|done|].
      apply (put_wakeup (set_tail s (El i)) i x); [done|done|congruence].
    + by rewrite tail_of_snoc.
    + apply (links_snoc s _ _ _ i (set_pc (PLink el) x)); try done; simpl.
      * by rewrite lookup_insert_eq.
      * congruence.
      * intros w Hw'. by rewrite lookup_insert_ne.
  - intros v z Hv Hvq Hvo. simpl in Hv. rewrite not_elem_of_app, not_elem_of_cons in Hvq.
    destruct Hvq as (Hvq & Hvi & _). rewrite lookup_insert_ne in Hv by congruence. by eapply Hout.
Qed.

(** ** Steps of a waiting thread *)

Lemma inv_put_wait s o q i x x' :
  inv s o q -> threads s !! i = Some x -> i ∈ q -> same_wait x x' -> nextThread x' = nextThread x ->
  (forall u, pc x <> PUnblock u) -> inv (put s i x') o q.
Proof.
  intros [Hnd Ho Hout] Hx Hi Hsw Hn Hu. constructor; [done|..].
  - destruct o as [j|]; [|by destruct Ho as (-> & _); apply not_elem_of_nil in Hi].
    destruct Ho as (Hj & y & Hy & Hok & Ht & Hl). assert (Hij : i <> j) by congruence.
    split; [done|]. exists y. simpl. rewrite lookup_insert_ne by done. split; [done|]. split; [|split; [done|]].
    + apply (owner_ok_keep s); [done|done|]. apply (put_wakeup s i x); [done|done|]. intros E. by destruct (Hu j).
    + apply (links_frame s); [done|..].
      * intros [| |w] _; simpl; [done|done|]. destruct (decide (w = i)) as [->|].
        -- rewrite lookup_insert_eq, Hx. simpl. done.
        -- by rewrite lookup_insert_ne.
      * intros w z Hw Hz. simpl. destruct (decide (w = i)) as [->|].
        -- rewrite lookup_insert_eq. exists x'. split; [done|]. by assert (z = x) as -> by congruence.
        -- rewrite lookup_insert_ne by done. exists z. split; [done|apply same_wait_refl].
  - intros j y Hy Hj Hoj. simpl in Hy. rewrite lookup_insert_ne in Hy by congruence. by eapply Hout.
Qed.

Lemma links_pred_ne s e q i y :
  links s e q -> NoDup q -> i ∈ q -> e <> El i -> threads s !! i = Some y -> pc y <> PLink (El i).
Proof.
  revert e. induction q as [|u q IH]; intros e Hl Hnd Hin He Hy Hp; [by apply not_elem_of_nil in Hin|].
  cbn [links] in Hl. destruct Hl as [(z & Hz & _ & Hc) Hl]. apply NoDup_cons in Hnd as [Hu Hnd].
  apply elem_of_cons in Hin as [->|Hin].
  - assert (z = y) as -> by congruence. rewrite Hp in Hc. destruct Hc as [[E _]|[[?|?] _]]; congruence.
  - apply (IH (El u)); try done. intros [= ->]. done.
Qed.

Lemma owner_frame_live i c u : base i c = El u -> u = i /\ frame_live c = true.
Proof. by destruct c; intros [= ->]. Qed.

(** The write [lock.nextThread = &myel]. *)
Lemma link_lock_sim s o q i x :
  inv s o q -> threads s !! i = Some x -> i ∈ q -> pc x = PLink Lock ->
  inv (put (set_lnext s (Some i)) i (set_pc PWait x)) o q.
Proof.
  intros [Hnd Ho Hout] Hx Hi Hp. constructor; [done|..].
  - destruct o as [j|]; [|by destruct Ho as (-> & _); apply not_elem_of_nil in Hi].
    destruct Ho as (Hj & y & Hy & Hok & Ht & Hl). assert (Hij : i <> j) by congruence.
    destruct (links_pred _ _ _ _ _ _ Hl Hi Hx Hp) as [Hoc Hnx]. cbn [next_of] in Hnx.
    assert (Hb : base j (pc y) = Lock) by (destruct Hoc as [<-|(w & _ & ?)]; done).
    split; [done|]. exists y. simpl. rewrite lookup_insert_ne by done. split; [done|]. split; [|split; [done|]].
    + revert Hok Hb. unfold owner_ok. destruct (pc y); simpl; try done. all: intros [_ E]; congruence.
    + apply (links_link s _ _ _ i x (set_pc PWait x) Lock); try done; simpl.
      * by apply base_chain.
      * by rewrite lookup_insert_eq.
      * intros [| |w] Hne; [done|done|]. simpl. destruct (decide (w = i)) as [->|].
        -- by rewrite lookup_insert_eq, Hx.
        -- by rewrite lookup_insert_ne.
      * intros w z Hwi Hz. rewrite lookup_insert_ne by done. by exists z.
  - intros j y Hy Hj Hoj. simpl in Hy. rewrite lookup_insert_ne in Hy by congruence. by eapply Hout.
Qed.

(** The write [el->nextThread = &myel] to the element of another thread: that
    thread is still in _acquire, so its element exists. *)
Lemma link_el_sim s o q i x u :
  inv s o q -> threads s !! i = Some x -> i ∈ q -> pc x = PLink (El u) ->
  exists y, threads s !! u = Some y /\ frame_live (pc y) = true /\ u <> i /\
    inv (put (put s u (set_next (Some i) y)) i (set_pc PWait x)) o q.
Proof.
  intros [Hnd Ho Hout] Hx Hi Hp.
  destruct o as [j|]; [|by destruct Ho as (-> & _); apply not_elem_of_nil in Hi].
  destruct Ho as (Hj & y & Hy & Hok & Ht & Hl). assert (Hij : i <> j) by congruence.
  destruct (links_pred _ _ _ _ _ _ Hl Hi Hx Hp) as [Hoc Hnx]. cbn [next_of] in Hnx.
  assert (Hui : u <> i).
  { intros ->. apply (links_pred_ne _ _ _ i x Hl Hnd Hi); [|done|done]. by apply (base_chain _ _ q). }
  assert (Hu : exists z, threads s !! u = Some z /\ frame_live (pc z) = true /\ (u = j \/ u ∈ q)).
  { destruct Hoc as [E|(w & Hw & [= ->])].
    - symmetry in E. destruct (owner_frame_live _ _ _ E) as [-> ?]. exists y. auto.
    - destruct (links_waiting _ _ _ _ Hl Hw) as (z & Hz & _ & Hc). exists z. split; [done|]. split; [|by right].
      destruct Hc as [(e' & ->)|[->| ->]]; done. }
  destruct Hu as (z & Hz & Hlive & Hwhere). exists z. split; [done|]. split; [done|]. split; [done|].
  rewrite Hz in Hnx. simpl in Hnx.
  assert (Hl' : links (put (put s u (set_next (Some i) z)) i (set_pc PWait x)) (base j (pc y)) q).
  { apply (links_link s _ _ _ i x (set_pc PWait x) (El u)); try done; simpl.
    - by apply base_chain.
    - by rewrite lookup_insert_eq.
    - rewrite lookup_insert_ne, lookup_insert_eq by done. done.
    - intros [| |w] Hne; [done|done|]. simpl. destruct (decide (w = i)) as [->|].
      + by rewrite lookup_insert_eq, Hx.
      + rewrite lookup_insert_ne by done. rewrite lookup_insert_ne by congruence. done.
    - intros w z' Hwi Hz'. rewrite lookup_insert_ne by done. destruct (decide (w = u)) as [->|].
      + rewrite lookup_insert_eq. eexists. split; [done|]. by assert (z' = z) as -> by congruence.
      + rewrite lookup_insert_ne by done. by exists z'. }
  constructor; [done|..].
  - split; [done|]. simpl. rewrite lookup_insert_ne by done.
    assert (Hwk : forall y', token y' = token y -> wakeup_pending s j y ->
      wakeup_pending (put (put s u (set_next (Some i) z)) i (set_pc PWait x)) j y').
    { intros y' Hy' Hw. apply (wakeup_keep s _ j y); [done|done|]. intros v w Hv Hpv. simpl.
      rewrite lookup_insert_ne by congruence. destruct (decide (v = u)) as [->|].
      - rewrite lookup_insert_eq. eexists. split; [done|]. simpl. congruence.
      - rewrite lookup_insert_ne by done. by exists w. }
    destruct (decide (u = j)) as [->|Huj].
    + assert (z = y) as -> by congruence. exists (set_next (Some i) y). rewrite lookup_insert_eq.
      split; [done|]. split; [|by split].
      revert Hok. unfold owner_ok. simpl. destruct (pc y); simpl; try done.
      * intros [? ?]. split; [done|]. by apply Hwk.
      * intros [Hq E]. rewrite Hnx in E. by destruct q.
    + exists y. rewrite lookup_insert_ne by done. split; [done|]. split; [|by split].
      apply (owner_ok_keep s); [done|done|]. by apply Hwk.
  - intros v w Hv Hvq Hvo. simpl in Hv. rewrite lookup_insert_ne in Hv by congruence.
    rewrite lookup_insert_ne in Hv; [by eapply Hout|]. intros ->. destruct Hwhere as [->|?]; done.
Qed.

(** ** Steps of the owner *)

(** The owner changes itself, the tail or the lock's own element. *)
Lemma inv_put_owner s q i x x' tl ln :
  inv s (Some i) q -> threads s !! i = Some x ->
  let s' := mkLock tl ln (<[i := x']> (threads s)) in
  owner_ok s' i x' q -> tl = tail_of (base i (pc x')) q -> links s' (base i (pc x')) q -> inv s' (Some i) q.
Proof.
  intros [Hnd Ho Hout] Hx s' H1 H2 H3. destruct Ho as (Hi & _). constructor; [done|..].
  - split; [done|]. exists x'. unfold s'. simpl. rewrite lookup_insert_eq. done.
  - intros j y Hy Hj Hoj. simpl in Hy. rewrite lookup_insert_ne in Hy by congruence. by eapply Hout.
Qed.

(** The chain does not change when only the place of its owner does. *)
Lemma put_links_owner s i x x' e q ln :
  links s e q -> threads s !! i = Some x -> i ∉ q -> nextThread x' = nextThread x -> (e = Lock -> ln = lnext s) ->
  links (mkLock (tail s) ln (<[i := x']> (threads s))) e q.
Proof.
  intros Hl Hx Hi Hn Hln. apply (links_frame s); [done|..].
  - intros [| |w] Hc; simpl; [done| |].
    + apply Hln. by destruct Hc as [<-|(w & _ & ?)].
    + destruct (decide (w = i)) as [->|]; [by rewrite lookup_insert_eq, Hx|by rewrite lookup_insert_ne].
  - intros w y Hw Hy. exists y. split; [|apply same_wait_refl]. simpl. rewrite lookup_insert_ne; [done|].
    by intros ->.
Qed.

Lemma links_tail s tl e q : links s e q -> links (mkLock tl (lnext s) (threads s)) e q.
Proof. intros Hl. by apply (links_frame s); [done|intros []|intros w y _ Hy; exists y; split; [|apply same_wait_refl]]. Qed.

(** The head of a chain that has been linked. *)
Lemma links_head s e q u : links s e q -> next_of s e = Some u -> exists q', q = u :: q'.
Proof.
  destruct q as [|v q]; simpl; [congruence|]. intros [(y & _ & _ & [[_ E]|[_ E]]) _] H; [congruence|].
  assert (v = u) as -> by congruence. by exists q.
Qed.

Lemma tail_of_base i q : i ∉ q -> tail_of (El i) q = El i -> q = [].
Proof.
  unfold tail_of. destruct (last q) as [u|] eqn:E; [|by intros; apply last_None].
  intros Hi [= ->]. apply last_Some in E as [q' ->]. destruct Hi. apply elem_of_app. right. by left.
Qed.

Lemma tail_of_lock q : tail_of Lock q = Lock -> q = [].
Proof. unfold tail_of. destruct (last q) eqn:E; [done|]. by rewrite last_None in E. Qed.

(** Handing the lock to the head of the queue. *)
Lemma handoff_sim s q i x u y :
  inv s (Some i) (u :: q) -> threads s !! i = Some x -> pc x = PRelClr u -> threads s !! u = Some y ->
  inv (put (put s u (set_waiter false y)) i (set_pc (PUnblock u) x)) (Some u) q.
Proof.
  intros [Hnd Ho Hout] Hx Hp Hy. destruct Ho as (Hi & x0 & Hx0 & Hok & Ht & Hl).
  assert (x0 = x) as -> by congruence. unfold owner_ok in Hok. rewrite Hp in *. cbn [base] in *.
  destruct Hok as [_ Hln]. apply not_elem_of_cons in Hi as [Hiu Hi]. apply NoDup_cons in Hnd as [Huq Hnd].
  cbn [links next_of] in Hl. destruct Hl as [(y0 & Hy0 & Hw & Hc) Hl]. assert (y0 = y) as -> by congruence.
  assert (Hpc : pc y = PWait \/ pc y = PBlock) by (destruct Hc as [[_ ?]|[? _]]; [congruence|done]).
  assert (Hb : base u (pc (set_waiter false y)) = El u) by (simpl; by destruct Hpc as [-> | ->]).
  constructor; [done|..].
  - split; [done|]. exists (set_waiter false y). simpl. rewrite lookup_insert_ne, lookup_insert_eq by congruence.
    split; [done|]. simpl in Hb. rewrite Hb. split; [|split].
    + unfold owner_ok. simpl. destruct Hpc as [-> | ->]; simpl; [done|]. split; [done|].
      right. exists i, (set_pc (PUnblock u) x). simpl. by rewrite lookup_insert_eq.
    + rewrite Ht. apply tail_of_cons.
    + apply (links_frame s); [done|..].
      * intros [| |w] Hoc; simpl; [done|done|]. destruct (decide (w = i)) as [->|].
        -- rewrite lookup_insert_eq, Hx. done.
        -- rewrite lookup_insert_ne by done. destruct (decide (w = u)) as [->|].
           ++ rewrite lookup_insert_eq, Hy. done.
           ++ by rewrite lookup_insert_ne.
      * intros w z Hw' Hz. exists z. split; [|apply same_wait_refl]. simpl.
        rewrite lookup_insert_ne by congruence. rewrite lookup_insert_ne by congruence. done.
  - intros v z Hv Hvq Hvo. simpl in Hv. apply lookup_insert_Some in Hv as [(<- & <-)|(Hne & Hv)]; [done|].
    rewrite lookup_insert_ne in Hv by congruence. eapply Hout; [done| |congruence].
    apply not_elem_of_cons. split; congruence.
Qed.

Lemma free_sim s i x :
  inv s (Some i) [] -> threads s !! i = Some x -> base i (pc x) = Lock ->
  inv (put (set_tail s Null) i (set_pc PIdle x)) None [].
Proof.
  intros [Hnd Ho Hout] Hx Hb. destruct Ho as (Hi & x0 & Hx0 & _ & _ & Hl). assert (x0 = x) as -> by congruence.
  rewrite Hb in Hl. constructor; [done|by split_and!|].
  intros j y Hy Hj Hoj. simpl in Hy. apply lookup_insert_Some in Hy as [(<- & <-)|(Hne & Hy)]; [done|].
  eapply Hout; [done|done|congruence].
Qed.

(** Recording the rest of the queue in the lock. *)
Lemma record_links s i x q ln :
  links s (El i) q -> threads s !! i = Some x -> i ∉ q -> q <> [] -> nextThread x = head q -> ln = nextThread x ->
  links (mkLock (tail s) ln (<[i := set_pc PHeld x]> (threads s))) Lock q.
Proof.
  intros Hl Hx Hi Hq Hn ->. destruct q as [|u q]; [done|]. simpl in Hn. cbn [links next_of] in *.
  rewrite Hx in Hl. simpl in Hl. destruct Hl as [(y & Hy & Hw & Hc) Hl].
  apply not_elem_of_cons in Hi as [Hiu Hi]. split.
  - exists y. simpl. rewrite lookup_insert_ne by done. split; [done|]. split; [done|]. right.
    destruct Hc as [[_ ?]|[? _]]; [congruence|]. done.
  - apply (put_links_owner s i x); [done|done|done|done|done].
Qed.

(** Scheduler::Unblock of thread [u] by thread [i], which leaves _release. *)
Lemma unblock_sim s o q i x u y :
  inv s o q -> threads s !! i = Some x -> i ∉ q -> o <> Some i -> pc x = PUnblock u -> threads s !! u = Some y ->
  u <> i -> inv (put (put s u (set_token true y)) i (set_pc PIdle x)) o q.
Proof.
  intros [Hnd Ho Hout] Hx Hi Hoi Hp Hy Hui. constructor; [done|..].
  - destruct o as [j|]; [|done]. destruct Ho as (Hj & z & Hz & Hok & Ht & Hl).
    assert (Hij : i <> j) by congruence. split; [done|]. simpl. rewrite lookup_insert_ne by done.
    assert (Hl' : links (put (put s u (set_token true y)) i (set_pc PIdle x)) (base j (pc z)) q).
    { apply put_links; [|done|destruct (pc z); simpl; congruence]. apply (links_frame s); [done|..].
      - intros [| |w] _; simpl; [done|done|]. destruct (decide (w = u)) as [->|].
        + by rewrite lookup_insert_eq, Hy.
        + by rewrite lookup_insert_ne.
      - intros w v Hw Hv. simpl. destruct (decide (w = u)) as [->|].
        + rewrite lookup_insert_eq. eexists. split; [done|]. assert (v = y) as -> by congruence.
          split; [done|by left].
        + rewrite lookup_insert_ne by done. exists v. split; [done|apply same_wait_refl]. }
    destruct (decide (u = j)) as [->|Huj].
    + assert (z = y) as -> by congruence. exists (set_token true y). rewrite lookup_insert_eq. split; [done|].
      split; [|by split]. revert Hok. unfold owner_ok. simpl. destruct (pc y); simpl; try done.
      intros [? _]. split; [done|]. by left.
    + exists z. rewrite lookup_insert_ne by done. split; [done|]. split; [|by split].
      apply (owner_ok_keep s); [done|done|]. intros Hw. apply (wakeup_keep s _ j z); [done|done|].
      intros v w Hv Hpv. simpl. rewrite lookup_insert_ne by congruence. destruct (decide (v = u)) as [->|].
      * rewrite lookup_insert_eq. eexists. split; [done|]. simpl. congruence.
      * rewrite lookup_insert_ne by done. by exists w.
  - intros v z Hv Hvq Hvo. simpl in Hv. apply lookup_insert_Some in Hv as [(<- & <-)|(Hne & Hv)]; [done|].
    apply lookup_insert_Some in Hv as [(<- & <-)|(Hne2 & Hv)]; [|by eapply Hout].
    pose proof (Hout _ _ Hy Hvq Hvo) as Hy0. unfold outside in *. simpl. done.
Qed.

(** ** Every step *)

Lemma goto_goto_put s i x c : goto (put s i x) i c = put s i (set_pc c x).
Proof. rewrite (goto_put _ _ _ x) by (simpl; by rewrite lookup_insert_eq). unfold put. simpl. by rewrite insert_insert_eq. Qed.

Lemma unblock_outside s o q i x u :
  inv s o q -> threads s !! i = Some x -> i ∉ q -> o <> Some i -> pc x = PUnblock u ->
  simulated i (match threads s !! u with
             | Some y => goto (put s u (set_token true y)) i PIdle
             | None => goto s i PIdle
             end) o q.
Proof.
  intros Hinv Hx Hi Hoi Hp. apply simulated_same. destruct (threads s !! u) as [y|] eqn:Hy.
  - destruct (decide (u = i)) as [->|Hui].
    + rewrite goto_goto_put. apply (inv_put_gen s o q i x); try done. intros j z -> Hz.
      apply (put_wakeup s i x); [done|congruence|]. rewrite Hp. intros [= ->]. done.
    + rewrite (goto_put _ _ _ x) by (simpl; by rewrite lookup_insert_ne). by apply unblock_sim.
  - rewrite (goto_put _ _ _ x) by done. apply (inv_put_gen s o q i x); try done. intros j z -> Hz.
    apply (put_wakeup s i x); [done|congruence|]. rewrite Hp. intros [= ->]. congruence.
Qed.

(** A step of a thread that is neither the owner nor waiting, to a place outside. *)
Lemma goto_outside s o q i x c :
  inv s o q -> threads s !! i = Some x -> i ∉ q -> o <> Some i -> outside (set_pc c x) ->
  (forall u, pc x <> PUnblock u) -> simulated i (goto s i c) o q.
Proof.
  intros Hinv Hx Hi Hoi Hc Hu. apply simulated_same. rewrite (goto_put _ _ _ x) by done.
  by apply (inv_put_other s o q i x).
Qed.

Lemma outside_sim s o q i x c s' :
  inv s o q -> threads s !! i = Some x -> i ∉ q -> o <> Some i -> step s i c = Some s' -> simulated i s' o q.
Proof.
  intros Hinv Hx Hi Hoi Hs. pose proof (inv_others _ _ _ Hinv _ _ Hx Hi Hoi) as Hout.
  unfold step in Hs. rewrite Hx in Hs. cbn [mbind option_bind] in Hs. unfold acquire_step, release_step in Hs.
  unfold outside in Hout.
  destruct (pc x) eqn:Hp; try done; destruct c; try done; repeat case_bool_decide; try case_match; simplify_eq;
    try by (eapply goto_outside; [done..| |congruence]).
  all: try by (eapply grab_sim; [done..|congruence]).
  - by apply simulated_same.
  - rewrite goto_goto_put. apply simulated_same. by apply (inv_put_other s o q i x); [..|congruence].
  - by apply (enqueue_sim s o q i x).
  - pose proof (unblock_outside s o q i x waiter0 Hinv Hx Hi Hoi Hp) as Hu. case_match; simplify_eq; done.
  - pose proof (unblock_outside s o q i x waiter0 Hinv Hx Hi Hoi Hp) as Hu. case_match; simplify_eq; done.
Qed.

Lemma waiting_sim s o q i x c s' :
  inv s o q -> threads s !! i = Some x -> i ∈ q -> step s i c = Some s' -> simulated i s' o q.
Proof.
  intros Hinv Hx Hi Hs. apply simulated_same.
  assert (Hc : waiter x = true /\ ((exists e, pc x = PLink e) \/ pc x = PWait \/ pc x = PBlock)).
  { destruct Hinv as [_ Ho _]. destruct o as [j|]; [|by destruct Ho as (-> & _); apply not_elem_of_nil in Hi].
    destruct Ho as (_ & z & _ & _ & _ & Hl). destruct (links_waiting _ _ _ _ Hl Hi) as (y & Hy & H).
    by simplify_eq. }
  destruct Hc as (Hw & Hc). unfold step in Hs. rewrite Hx in Hs. cbn [mbind option_bind] in Hs.
  unfold acquire_step in Hs. destruct Hc as [(e & Hp)|[Hp|Hp]]; rewrite Hp in Hs; destruct c; try done.
  - destruct e as [| |u].
    + destruct Hinv as [_ Ho _]. destruct o as [j|]; [|by destruct Ho as (-> & _); apply not_elem_of_nil in Hi].
      destruct Ho as (_ & y & _ & _ & _ & Hl). destruct (links_pred _ _ _ _ _ _ Hl Hi Hx Hp) as [[E|(w & _ & E)] _];
        [by destruct (pc y)|done].
    + simplify_eq. rewrite (goto_put _ _ _ x) by done. by apply link_lock_sim.
    + destruct (link_el_sim s o q i x u Hinv Hx Hi Hp) as (y & Hy & Hf & Hui & Hinv').
      unfold update_el in Hs. rewrite Hy in Hs. cbn [mbind option_bind] in Hs. rewrite Hf in Hs. simplify_eq.
      rewrite (goto_put _ _ _ x) by (simpl; by rewrite lookup_insert_ne). done.
  - rewrite Hw in Hs. simplify_eq. rewrite (goto_put _ _ _ x) by done. apply (inv_put_wait s o q i x); try done.
    + split; [done|]. right. auto.
    + congruence.
  - case_match; simplify_eq. rewrite goto_goto_put. apply (inv_put_wait s o q i x); try done.
    + split; [done|]. right. auto.
    + congruence.
Qed.

(** A step of the owner that changes neither the queue nor the lock. *)
Lemma owner_goto s q i x x' c :
  inv s (Some i) q -> threads s !! i = Some x -> pc x' = pc x -> nextThread x' = nextThread x ->
  base i c = base i (pc x) -> owner_ok (put s i (set_pc c x')) i (set_pc c x') q ->
  simulated i (put s i (set_pc c x')) (Some i) q.
Proof.
  intros Hinv Hx Hpc Hn Hb Hok. apply simulated_same. pose proof Hinv as [_ Ho _].
  destruct Ho as (Hi & y & Hy & _ & Ht & Hl). assert (y = x) as -> by congruence.
  apply (inv_put_owner s q i x); simpl; rewrite ?Hb; try done. by apply (put_links_owner s i x).
Qed.

(** What the holder of the lock knows, by its place. *)
Lemma owner_facts s q i x :
  inv s (Some i) q -> threads s !! i = Some x ->
  (i ∉ q) /\ owner_ok s i x q /\ tail s = tail_of (base i (pc x)) q /\ links s (base i (pc x)) q.
Proof. intros [_ (Hi & y & Hy & H) _] Hx. assert (y = x) as -> by congruence. done. Qed.

Lemma owner_release_sim s q i x s' :
  inv s (Some i) q -> threads s !! i = Some x -> release_step s i x = Some s' ->
  simulated i s' (Some i) q.
Proof.
  intros Hinv Hx Hs. destruct (owner_facts _ _ _ _ Hinv Hx) as (Hi & Hok & Ht & Hl).
  unfold release_step in Hs. unfold owner_ok in Hok. destruct (pc x) eqn:Hp; try done; cbn [base] in *.
  - case_bool_decide as Htl; simplify_eq; rewrite (goto_put _ _ _ x) by done.
    + assert (q = []) as -> by (apply tail_of_lock; congruence). exists None, []. split; [|constructor].
      apply free_sim; [done|done|by rewrite Hp].
    + apply (owner_goto s q i x); simpl; rewrite ?Hp; try done. unfold owner_ok. simpl. intros ->. done.
  - case_match eqn:Hn; simplify_eq; rewrite (goto_put _ _ _ x) by done;
      apply (owner_goto s q i x); simpl; rewrite ?Hp; try done. unfold owner_ok. simpl.
    destruct (links_head s Lock q z Hl) as (q' & ->); done.
  - destruct q as [|v q]; [by destruct Hok|]. destruct Hok as [[= ->] Hn]. cbn [links next_of] in Hl.
    destruct Hl as [(y & Hy & Hw & Hc) _]. rewrite Hy in Hs. rewrite Hw in Hs.
    assert (Hf : frame_live (pc y) = true) by (destruct Hc as [[-> _]|[[-> | ->] _]]; done). rewrite Hf in Hs. simpl in Hs.
    simplify_eq. rewrite (goto_put _ _ _ x) by done. apply (owner_goto s _ i x); simpl; rewrite ?Hp; done.
  - destruct q as [|v q]; [by destruct Hok|]. destruct Hok as [[= ->] Hn]. cbn [links next_of] in Hl.
    destruct Hl as [(y & Hy & Hw & Hc) _]. unfold update_el in Hs. rewrite Hy in Hs. cbn [mbind option_bind] in Hs.
    assert (Hf : frame_live (pc y) = true) by (destruct Hc as [[-> _]|[[-> | ->] _]]; done). rewrite Hf in Hs.
    simplify_eq. apply not_elem_of_cons in Hi as [Hiu _].
    rewrite (goto_put _ _ _ x) by (simpl; by rewrite lookup_insert_ne).
    exists (Some el), q. split; [by apply handoff_sim|constructor].
Qed.

Lemma owner_acquire_sim s q i x s' :
  inv s (Some i) q -> threads s !! i = Some x -> acquire_step s i x = Some s' ->
  simulated i s' (Some i) q.
Proof.
  intros Hinv Hx Hs. destruct (owner_facts _ _ _ _ Hinv Hx) as (Hi & Hok & Ht & Hl).
  unfold acquire_step in Hs. unfold owner_ok in Hok. destruct (pc x) eqn:Hp; try done; cbn [base] in *.
  - rewrite Hok in Hs. simplify_eq. rewrite (goto_put _ _ _ x) by done.
    by apply (owner_goto s q i x); simpl; rewrite ?Hp.
  - case_match; simplify_eq. rewrite goto_goto_put. destruct Hok.
    by apply (owner_goto s q i x); simpl; rewrite ?Hp.
  - simplify_eq. rewrite (goto_put _ _ _ x) by done. apply simulated_same.
    apply (inv_put_owner s q i x); simpl; try done. by apply (put_links_owner s i x).
  - case_bool_decide as Htl; simplify_eq; rewrite (goto_put _ _ _ x) by done.
    + assert (q = []) as -> by (apply (tail_of_base i); congruence). apply simulated_same.
      apply (inv_put_owner s [] i x); simpl; done.
    + apply (owner_goto s q i x); simpl; rewrite ?Hp; try done. unfold owner_ok. simpl. split; [done|].
      intros ->. done.
  - simplify_eq. rewrite (goto_put _ _ _ x) by done. destruct Hok as [Hn Hq].
    apply (owner_goto s q i x); simpl; rewrite ?Hp; try done.
    + by case_match.
    + unfold owner_ok. simpl. destruct (nextThread x) as [n|] eqn:E; [|done]. split; [done|].
      destruct (links_head s (El i) q n Hl) as (q' & ->); [simpl; by rewrite Hx|done].
  - simplify_eq. rewrite (goto_put _ _ _ x) by done. destruct Hok as [Hq Hn]. apply simulated_same.
    apply (inv_put_owner s q i x); simpl; try done.
    + rewrite Ht. unfold tail_of. destruct (last q) eqn:E; [done|]. by apply last_None in E.
    + by apply (record_links s i x q).
Qed.

Lemma owner_sim s q i x c s' :
  inv s (Some i) q -> threads s !! i = Some x -> step s i c = Some s' -> simulated i s' (Some i) q.
Proof.
  intros Hinv Hx Hs. destruct (owner_facts _ _ _ _ Hinv Hx) as (Hi & Hok & Ht & _).
  unfold step in Hs. rewrite Hx in Hs. cbn [mbind option_bind] in Hs. unfold owner_ok in Hok.
  destruct (pc x) eqn:Hp; try done; destruct c; try done;
    try (apply (owner_acquire_sim s q i x); done); try (apply (owner_release_sim s q i x); done).
  rewrite bool_decide_false in Hs by (rewrite Ht; unfold tail_of; simpl; by destruct (last q)).
  simplify_eq. rewrite (goto_put _ _ _ x) by done. by apply (owner_goto s q i x); simpl; rewrite ?Hp.
Qed.

(** Every step of every thread keeps the invariant and is a step of the specification. *)
Lemma step_sim s o q i c s' : inv s o q -> step s i c = Some s' -> simulated i s' o q.
Proof.
  intros Hinv Hs. destruct (threads s !! i) as [x|] eqn:Hx; [|by unfold step in Hs; rewrite Hx in Hs].
  destruct (decide (o = Some i)) as [->|Hoi]; [by eapply owner_sim|].
  destruct (decide (i ∈ q)) as [Hi|Hi]; [by eapply waiting_sim|by eapply outside_sim].
Qed.

(** ** What the lock promises *)

(** The thread has the lock: acquire has returned, or _release has begun and
    not yet given it up. *)
Definition has_lock (c : PC) : bool :=
  match c with PHeld | PRel | PRelNext | PRelW _ | PRelClr _ => true | _ => false end.

(** The thread has its element on the chain of waiters. *)
Definition enqueued (c : PC) : bool :=
  match c with PLink _ | PWait | PBlock => true | _ => false end.

(** A state of the lock against a state of the specification. *)
Record agrees (s : t) (Q : queue) : Prop := {
  agrees_free : tail s = Null <-> owner Q = None;
  agrees_nodup : NoDup (waiting Q);
  agrees_owner : forall i x, threads s !! i = Some x -> has_lock (pc x) = true -> owner Q = Some i;
  agrees_enqueued : forall i x, threads s !! i = Some x -> enqueued (pc x) = true -> owner Q = Some i \/ i ∈ waiting Q;
  agrees_waiting : forall i, i ∈ waiting Q -> exists x, threads s !! i = Some x /\ enqueued (pc x) = true /\ waiter x = true;
  agrees_safe : forall i x, threads s !! i = Some x -> pc x <> PCrash;
}.

Lemma inv_agrees s o q : inv s o q -> agrees s (mkQ o q).
Proof.
  intros [Hnd Ho Hout].
  assert (Hpc : forall i x, threads s !! i = Some x ->
    o = Some i /\ owner_ok s i x q \/
    i ∈ q /\ waiter x = true /\ ((exists e, pc x = PLink e) \/ pc x = PWait \/ pc x = PBlock) \/ outside x).
  { intros i x Hx. destruct (decide (o = Some i)) as [->|Hoi].
    - left. destruct Ho as (_ & y & Hy & Hok & _). by simplify_eq.
    - right. destruct (decide (i ∈ q)) as [Hi|Hi]; [left|right; by eapply Hout].
      destruct o as [j|]; [|by destruct Ho as (-> & _); apply not_elem_of_nil in Hi].
      destruct Ho as (_ & y & _ & _ & _ & Hl). destruct (links_waiting _ _ _ _ Hl Hi) as (z & Hz & H). by simplify_eq. }
  constructor; simpl; [|done|..].
  - destruct o as [j|]; [|tauto]. destruct Ho as (_ & y & _ & _ & Ht & _). split; [|done]. rewrite Ht.
    unfold tail_of. by destruct (last q), (pc y).
  - intros i x Hx Hp. destruct (Hpc i x Hx) as [[? _]|[(_ & _ & H)|H]]; [done|..].
    + by destruct H as [(e & E)|[E|E]]; rewrite E in Hp.
    + unfold outside in H. by destruct (pc x).
  - intros i x Hx Hp. destruct (Hpc i x Hx) as [[? _]|[(? & _)|H]]; [by left|by right|].
    unfold outside in H. by destruct (pc x).
  - intros i Hi. destruct o as [j|]; [|by destruct Ho as (-> & _); apply not_elem_of_nil in Hi].
    destruct Ho as (_ & y & _ & _ & _ & Hl). destruct (links_waiting _ _ _ _ Hl Hi) as (z & Hz & Hw & H).
    exists z. split; [done|]. split; [|done]. by destruct H as [(e & ->)|[->| ->]].
  - intros i x Hx E. destruct (Hpc i x Hx) as [[_ H]|[(_ & _ & H)|H]].
    + unfold owner_ok in H. by rewrite E in H.
    + destruct H as [(e & ?)|[?|?]]; congruence.
    + unfold outside in H. by rewrite E in H.
Qed.

(** Along a schedule, every step of a thread is a step of the specification by
    that thread, and the states agree at every point. *)
Fixpoint follows (s : t) (Q : queue) (sch : list (Z * cmd)) : Prop :=
  agrees s Q /\
  match sch with
  | [] => True
  | (i, c) :: sch => exists Q', qstep i Q Q' /\ follows (default s (step s i c)) Q' sch
  end.

Lemma init_lookup ts i x : threads (init ts) !! i = Some x -> pc x = PIdle.
Proof.
  simpl. intros H. apply elem_of_list_to_map_2 in H. apply list_elem_of_fmap in H as (j & [= -> ->] & _). done.
Qed.

Lemma inv_init ts : inv (init ts) None [].
Proof.
  constructor; [constructor|done|]. intros i x Hx _ _. unfold outside. by rewrite (init_lookup _ _ _ Hx).
Qed.

Lemma inv_follows s o q sch : inv s o q -> follows s (mkQ o q) sch.
Proof.
  revert s o q. induction sch as [|[i c] sch IH]; intros s o q Hinv; simpl; (split; [by apply inv_agrees|]); [done|].
  destruct (step s i c) as [s'|] eqn:Hs; simpl.
  - destruct (step_sim _ _ _ _ _ _ Hinv Hs) as (o' & q' & Hinv' & Hq). exists (mkQ o' q'). auto.
  - exists (mkQ o q). split; [constructor|auto].
Qed.

Lemma lock_run_inv s o q sch : inv s o q -> exists o' q', inv (run s sch) o' q'.
Proof.
  revert s o q. induction sch as [|[i c] sch IH]; intros s o q Hinv; simpl; [eauto|].
  destruct (step s i c) as [s'|] eqn:Hs; simpl; [|by eapply IH].
  destruct (step_sim _ _ _ _ _ _ Hinv Hs) as (o' & q' & Hinv' & _). by eapply IH.
Qed.

(** The lock is the thread's, also while it completes the transition of a lock
    it was handed. *)
Definition owns (x : thread) : bool :=
  match pc x with
  | PHeld | PRel | PRelNext | PRelW _ | PRelClr _ | PGot | PBet | PNext | PRec => true
  | PWait | PBlock => negb (waiter x)
  | _ => false
  end.

(** Whoever waits, in the three places the code waits at, waits for a thread
    that is there to answer. *)
Definition answered (s : t) (i : Z) (x : thread) : Prop :=
  match pc x with
  | PBlock => wakeup_pending s i x \/
      waiter x = true /\ exists j y, j <> i /\ threads s !! j = Some y /\ owns y = true
  | PNext => nextThread x = None -> exists u y, threads s !! u = Some y /\ pc y = PLink (El i)
  | PRelNext => lnext s = None -> exists u y, threads s !! u = Some y /\ pc y = PLink Lock
  | _ => True
  end.

Lemma links_gap s e q : links s e q -> q <> [] -> next_of s e = None -> exists u y, threads s !! u = Some y /\ pc y = PLink e.
Proof.
  destruct q as [|u q]; [done|]. cbn [links]. intros [(y & Hy & _ & [[? _]|[_ ?]]) _] _ Hn; [|congruence]. eauto.
Qed.

Lemma inv_owns s i q y : inv s (Some i) q -> threads s !! i = Some y -> owns y = true.
Proof.
  intros Hinv Hy. destruct (owner_facts _ _ _ _ Hinv Hy) as (_ & Hok & _). unfold owner_ok in Hok. unfold owns.
  destruct (pc y); try done; [by rewrite Hok|destruct Hok as [-> _]; done].
Qed.

Lemma inv_answered s o q i x : inv s o q -> threads s !! i = Some x -> answered s i x.
Proof.
  intros Hinv Hx. destruct (decide (o = Some i)) as [->|Hoi].
  - destruct (owner_facts _ _ _ _ Hinv Hx) as (_ & Hok & _ & Hl). unfold owner_ok in Hok. unfold answered.
    destruct (pc x); try done; cbn [base] in Hl.
    + left. by destruct Hok.
    + intros Hn. destruct Hok. apply (links_gap s _ q); [done|done|]. simpl. by rewrite Hx.
    + intros Hn. by apply (links_gap s _ q).
  - pose proof Hinv as [_ Ho Hout]. destruct (decide (i ∈ q)) as [Hi|Hi].
    + destruct o as [j|]; [|by destruct Ho as (-> & _); apply not_elem_of_nil in Hi].
      destruct Ho as (_ & y & Hy & _ & _ & Hl). destruct (links_waiting _ _ _ _ Hl Hi) as (z & Hz & Hw & Hc).
      assert (z = x) as -> by congruence. unfold answered. destruct Hc as [(e & ->)|[->| ->]]; try done.
      right. split; [done|]. exists j, y. split; [congruence|]. split; [done|by eapply inv_owns].
    + pose proof (Hout _ _ Hx Hi Hoi) as H. unfold outside in H. unfold answered. by destruct (pc x).
Qed.

(** ** Theorems *)

(** C2: for any threads and any interleaving of their calls to acquire,
    tryAcquire and release, shared access by shared access, the lock behaves as
    a fair lock: at every point the states agree with an owner and a first-in
    first-out queue of waiters (one owner at most, every thread whose acquire
    has returned is that owner, every element on the chain belongs to a thread
    that is still inside _acquire), every step of a thread takes, joins, frees or
    hands over the lock as the specification allows, and no thread writes to a
    dead stack element or fails the assertions of the lock. *)
Theorem fairblock_fifo (ts : list Z) (sch : list (Z * cmd)) :
  follows (init ts) (mkQ None []) sch.
Proof. apply inv_follows, inv_init. Qed.

(** After any interleaving at most one thread has the lock. *)
Theorem fairblock_exclusive ts sch i j x y :
  threads (run (init ts) sch) !! i = Some x -> threads (run (init ts) sch) !! j = Some y ->
  has_lock (pc x) = true -> has_lock (pc y) = true -> i = j.
Proof.
  intros Hx Hy Hp Hp'. destruct (lock_run_inv _ _ _ sch (inv_init ts)) as (o & q & Hinv).
  pose proof (inv_agrees _ _ _ Hinv) as Ha.
  pose proof (agrees_owner _ _ Ha _ _ Hx Hp). pose proof (agrees_owner _ _ Ha _ _ Hy Hp'). congruence.
Qed.

(** C36: no wake-up is lost and no spin is for nothing.  After any interleaving, a
    thread asleep in _acquire has an unblock pending or another thread owns the
    lock and will pass it on; an acquirer that spins for its successor's link,
    and a releaser that spins for the head of the queue, have a waiter that has
    swung the tail and is about to write that very link. *)
Theorem fairblock_no_lost_wakeup ts sch i x :
  threads (run (init ts) sch) !! i = Some x -> answered (run (init ts) sch) i x.
Proof. destruct (lock_run_inv _ _ _ sch (inv_init ts)) as (o & q & Hinv). by apply (inv_answered _ o q). Qed.

(** Three threads: 1 takes the lock, 2 and 3 queue up behind it (3 has not
    linked itself yet), 1 releases, and 2 runs on to the point where it waits
    for the link of 3. *)
Definition demo : list (Z * cmd) :=
  [(1, Acquire); (1, Go); (1, Go)] ++
  (2, Acquire) :: replicate 202 (2, Go) ++ replicate 4 (2, Go) ++ [(2, Go); (2, Go)] ++
  (3, Acquire) :: replicate 4 (3, Go) ++
  [(1, Release); (1, Go); (1, Go); (1, Go); (1, Go); (1, Go)] ++ replicate 4 (2, Go) ++ [(2, Go)].

Lemma fairblock_exclusive_witness :
  has_lock PHeld = true /\ (1 = 1)%Z.
Proof.
  split; [reflexivity|].
  apply (fairblock_exclusive [1; 2] [(1, Acquire); (1, Go); (1, Go); (2, TryAcquire); (2, Acquire); (2, Go)]
           1 1 (mkThread PHeld None false false) (mkThread PHeld None false false)); vm_compute; reflexivity.
Defined.

Lemma fairblock_no_lost_wakeup_witness :
  exists u y, threads (run (init [1; 2; 3]) demo) !! u = Some y /\ pc y = PLink (El 2).
Proof.
  refine (fairblock_no_lost_wakeup [1; 2; 3] demo 2 (mkThread PNext None false false) _ _); vm_compute; reflexivity.
Defined.

End FairBLock.
