(* ===== verification/RWLock.v ===== *)
(** * RWLock: the reader-writer lock, lib/libc/sync/RWLock.H

    TmpRWLock<Lock> keeps a count of readers (-1: a writer) and a list of waiting
    threads, keyed by what they wait for, all of it changed under an inner lock.
    A waiting thread leaves a pointer to its variable [id], and waits until
    somebody sets it to null; a writer is handed the inner lock with it.

    What a thread does between lock.acquire() and lock.release() is one step, as
    nobody else can look at the count and the list; between the steps the inner
    lock is free or handed to a writer.  The list is any type that keeps the
    promise [KeyQueue] of ListSimpleKey.v. *)

From stdpp Require Import base numbers option gmap list.
From S2P Require Import K42 Prelude HTList ListSimpleKey.

Module RWLock.

(** enum LockerType *)
Definition Reader : Z := 0.
Definition Writer : Z := 1.

Inductive PC :=
| PIdle
| PAcqR                   (* reset: lock.acquire() in acquireR, after a wait *)
| PWaitR                  (* while (id != NullThreadID) in acquireR *)
| PBlockR                 (* Scheduler::Block() *)
| PRead                   (* holds the lock as a reader *)
| PWaitW                  (* while (id != NullThreadID) in acquireW and upgrade *)
| PBlockW                 (* Scheduler::Block() *)
| PSetW                   (* readers = -1; lock.release(), after a wait *)
| PWrite                  (* holds the lock as a writer *)
| PCrash.                 (* a failed assertion *)

#[export] Instance PC_eq_dec : EqDecision PC.
Proof. solve_decision. Defined.

(** [id]: whether the variable is still the thread's id; [token]: an Unblock
    that Block has not taken yet. *)
Record thread := mkT { pc : PC; id : bool; token : bool }.

Section ops.
Context {Q : Type} `{!KeyQueue Q}.

(** [lock]: the inner lock, [Some w] when it has been handed to writer [w]. *)
Record t := mkRW { readers : Z; waiters : Q; lock : option nat; threads : list thread }.

Definition init (n : nat) (q : Q) : t := mkRW 0 q None (replicate n (mkT PIdle false false)).

(** readers is an sval32. *)
Definition wrap32 (x : Z) : Z := (x + 2 ^ 31) mod 2 ^ 32 - 2 ^ 31.

Definition put (s : t) (i : nat) (x : thread) : t := mkRW (readers s) (waiters s) (lock s) (<[i := x]> (threads s)).
Definition set_readers (s : t) (r : Z) : t := mkRW r (waiters s) (lock s) (threads s).
Definition set_waiters (s : t) (q : Q) : t := mkRW (readers s) q (lock s) (threads s).
Definition set_lock (s : t) (o : option nat) : t := mkRW (readers s) (waiters s) o (threads s).

Definition goto (s : t) (i : nat) (x : thread) (c : PC) : t := put s i (mkT c (id x) (token x)).

(** Thread [i] adds a pointer to its [id] at the end and releases the lock. *)
Definition enqueue (s : t) (i : nat) (x : thread) (key : Z) (c : PC) : option t :=
  q ← kq_addToEnd (waiters s) key (Z.of_nat i);
  Some (put (set_waiters s q) i (mkT c true (token x))).

(** *threadIDp = NullThreadID; Scheduler::Unblock(id) *)
Definition wake (s : t) (threadIDp : Z) : option t :=
  let w := Z.to_nat threadIDp in
  y ← threads s !! w;
  Some (put s w (mkT (pc y) false true)).

Definition acquireR (s : t) (i : nat) (x : thread) : option t :=
  dummy ← kq_find (waiters s) Writer;
  if (readers s <? 0) || bool_decide (is_Some dummy) then enqueue s i x Reader PWaitR
  else Some (goto (set_readers s (wrap32 (readers s + 1))) i x PRead).

Definition releaseR (s : t) (i : nat) (x : thread) : option t :=
  _ ← assertK (0 <? readers s);
  let s1 := goto (set_readers s (wrap32 (readers s - 1))) i x PIdle in
  if readers s1 =? 0 then
    '(head, q) ← kq_removeHead (waiters s1);
    match head with
    | Some (type, threadIDp) =>
        _ ← assertK (type =? Writer);
        s2 ← wake (set_waiters s1 q) threadIDp;
        Some (set_lock s2 (Some (Z.to_nat threadIDp)))
    | None => Some (set_waiters s1 q)
    end
  else Some s1.

Definition acquireW (s : t) (i : nat) (x : thread) : option t :=
  if negb (readers s =? 0) then enqueue s i x Writer PWaitW
  else Some (goto (set_readers s (-1)) i x PWrite).

Definition upgrade (s : t) (i : nat) (x : thread) : option t :=
  _ ← assertK (0 <? readers s);
  let s1 := set_readers s (wrap32 (readers s - 1)) in
  if negb (readers s1 =? 0) then enqueue s1 i x Writer PWaitW
  else Some (goto (set_readers s1 (-1)) i x PWrite).

(** while (waiters.remove(Reader, threadIDp)) in downgrade *)
Fixpoint wake_readers (fuel : nat) (s : t) : option t :=
  match fuel with
  | O => None
  | S fuel =>
      '(r, q) ← kq_remove (waiters s) Reader;
      match r with
      | Some threadIDp => s1 ← wake (set_waiters s q) threadIDp; wake_readers fuel s1
      | None => Some (set_waiters s q)
      end
  end.

Definition downgrade (s : t) (i : nat) (x : thread) : option t :=
  _ ← assertK (readers s =? -1);
  wake_readers (S (length (threads s))) (goto (set_readers s 1) i x PRead).

(** while (waiters.removeHead(dummy, threadIDp)) in releaseW *)
Fixpoint wake_all (fuel : nat) (s : t) : option t :=
  match fuel with
  | O => None
  | S fuel =>
      '(r, q) ← kq_removeHead (waiters s);
      match r with
      | Some (_, threadIDp) => s1 ← wake (set_waiters s q) threadIDp; wake_all fuel s1
      | None => Some (set_waiters s q)
      end
  end.

Definition releaseW (s : t) (i : nat) (x : thread) : option t :=
  _ ← assertK (readers s =? -1);
  let s1 := goto (set_readers s 0) i x PIdle in
  '(r, q) ← kq_remove (waiters s1) Writer;
  match r with
  | Some threadIDp => s2 ← wake (set_waiters s1 q) threadIDp; Some (set_lock s2 (Some (Z.to_nat threadIDp)))
  | None => wake_all (S (length (threads s))) (set_waiters s1 q)
  end.

Definition tryAcquireW (s : t) (i : nat) (x : thread) : option t :=
  Some (if readers s =? 0 then goto (set_readers s (-1)) i x PWrite else s).

Definition tryUpgrade (s : t) (i : nat) (x : thread) : option t :=
  _ ← assertK (0 <? readers s);
  Some (if negb (readers s =? 1) then s else goto (set_readers s (-1)) i x PWrite).

Inductive cmd := AcquireR | ReleaseR | AcquireW | ReleaseW | Upgrade | Downgrade | TryAcquireW | TryUpgrade | Go.

(** A section under the inner lock, which must be free. *)
Definition under_lock (s : t) (i : nat) (x : thread) (f : t -> nat -> thread -> option t) : option t :=
  match lock s with
  | Some _ => None
  | None => Some (match f s i x with Some s' => s' | None => goto s i x PCrash end)
  end.

(** One step of thread [i]; [None]: it cannot move. *)
Definition step (s : t) (i : nat) (c : cmd) : option t :=
  x ← threads s !! i;
  match pc x, c with
  | PIdle, AcquireR => under_lock s i x acquireR
  | PIdle, AcquireW => under_lock s i x acquireW
  | PIdle, TryAcquireW => under_lock s i x tryAcquireW
  | PRead, ReleaseR => under_lock s i x releaseR
  | PRead, Upgrade => under_lock s i x upgrade
  | PRead, TryUpgrade => under_lock s i x tryUpgrade
  | PWrite, ReleaseW => under_lock s i x releaseW
  | PWrite, Downgrade => under_lock s i x downgrade
  | PAcqR, Go => under_lock s i x acquireR
  | PWaitR, Go => Some (goto s i x (if id x then PBlockR else PAcqR))
  | PBlockR, Go => if token x then Some (put s i (mkT PWaitR (id x) false)) else None
  | PWaitW, Go => Some (goto s i x (if id x then PBlockW else PSetW))
  | PBlockW, Go => if token x then Some (put s i (mkT PWaitW (id x) false)) else None
  | PSetW, Go => Some (goto (set_lock (set_readers s (-1)) None) i x PWrite)
  | _, _ => None
  end.

Inductive reachable (n : nat) (q : Q) : t -> Prop :=
| reach_init : reachable n q (init n q)
| reach_step s i c s' : reachable n q s -> step s i c = Some s' -> reachable n q s'.

End ops.

Arguments t : clear implicits.

(** ** What holds between the steps *)

(** The list [L] of waiting threads and the holder [lk] of the inner lock, seen
    from thread [i]. *)
Definition thr_ok (lk : option nat) (L : list (Z * Z)) (i : nat) (x : thread) : Prop :=
  match pc x with
  | PCrash => False
  | PIdle | PRead | PWrite | PAcqR => (Z.of_nat i ∉ L.*2) /\ lk <> Some i
  | PWaitR | PBlockR =>
      lk <> Some i /\ if id x then (Reader, Z.of_nat i) ∈ L else (Z.of_nat i ∉ L.*2) /\ (pc x = PBlockR -> token x = true)
  | PWaitW | PBlockW =>
      if id x then (Writer, Z.of_nat i) ∈ L /\ lk <> Some i else (Z.of_nat i ∉ L.*2) /\ lk = Some i /\ (pc x = PBlockW -> token x = true)
  | PSetW => (Z.of_nat i ∉ L.*2) /\ lk = Some i
  end.

Definition isR (x : thread) : Z := match pc x with PRead => 1 | _ => 0 end.
Definition isW (x : thread) : Z := match pc x with PWrite => 1 | _ => 0 end.

Lemma isR_range x : 0 <= isR x <= 1.
Proof. unfold isR. destruct (pc x); lia. Qed.

Lemma isW_range x : 0 <= isW x <= 1.
Proof. unfold isW. destruct (pc x); lia. Qed.

Section spec.
Context {Q : Type} `{!KeyQueue Q}.

(** The waiting threads. *)
Record winv (lk : option nat) (s : t Q) (L : list (Z * Z)) : Prop := {
  wi_rep : kq_rep (waiters s) L;
  wi_nodup : NoDup L.*2;
  wi_bound : forall d, d ∈ L.*2 -> exists i, d = Z.of_nat i /\ (i < length (threads s))%nat;
  wi_holder : forall w, lk = Some w -> (w < length (threads s))%nat;
  wi_thr : forall i x, threads s !! i = Some x -> thr_ok lk L i x;
}.

(** The count: [nR] readers and [nW] writers. *)
Record counted (s : t Q) : Prop := {
  co_count : readers s = sum_with isR (threads s) - sum_with isW (threads s);
  co_excl : sum_with isW (threads s) = 0 \/ (sum_with isW (threads s) = 1 /\ sum_with isR (threads s) = 0);
  co_small : Z.of_nat (length (threads s)) < 2 ^ 31;
}.

(** With the inner lock free a thread waits only for somebody. *)
Record inv (s : t Q) (L : list (Z * Z)) : Prop := {
  in_wait : winv (lock s) s L;
  in_count : counted s;
  in_handed : lock s <> None -> readers s = 0 /\ sum_with isW (threads s) = 0;
  in_free : lock s = None -> 0 <= readers s -> match L with [] => True | (k, _) :: _ => k = Writer /\ 0 < readers s end;
}.

Lemma thr_ok_frame lk lk' L L' j x :
  (forall k, (k, Z.of_nat j) ∈ L <-> (k, Z.of_nat j) ∈ L') -> (lk = Some j <-> lk' = Some j) -> thr_ok lk L j x -> thr_ok lk' L' j x.
Proof.
  intros HL Hlk. assert (Hs : (Z.of_nat j ∈ L.*2) <-> (Z.of_nat j ∈ L'.*2)).
  { rewrite !list_elem_of_fmap. split; intros ([k d] & E & Hin); cbn in E; subst d; exists (k, Z.of_nat j); (split; [done|]); by apply HL. }
  pose proof (HL Reader). pose proof (HL Writer). unfold thr_ok, not. destruct (pc x), (id x); tauto.
Qed.

(** Thread [i] moves, the list stays. *)
Lemma winv_put lk lk' s L i x x' :
  winv lk s L -> threads s !! i = Some x -> thr_ok lk' L i x' -> (forall j, j <> i -> lk = Some j <-> lk' = Some j) -> winv lk' (put s i x') L.
Proof.
  intros [Hr Hn Hb Hh Ht] Hx Hok Hlk. pose proof (lookup_lt_Some _ _ _ Hx). constructor; cbn [put waiters threads].
  - done.
  - done.
  - by rewrite length_insert.
  - rewrite length_insert. intros w Hw. destruct (decide (w = i)) as [->|Hne]; [done|]. apply Hh. by apply (Hlk w Hne).
  - intros j y Hy. apply list_lookup_insert_Some in Hy as [(<- & <- & _)|[Hne Hy]]; [done|].
    apply (thr_ok_frame lk lk' L L); [done|by apply Hlk|by apply Ht].
Qed.

(** Only the count changes. *)
Lemma winv_readers lk s L r : winv lk s L -> winv lk (set_readers s r) L.
Proof. by intros [????]. Qed.

(** The list is given back by an operation that changes nothing. *)
Lemma winv_queue lk s L q : winv lk s L -> kq_rep q L -> winv lk (set_waiters s q) L.
Proof. by intros [????]. Qed.

Lemma inv_queue s L q : inv s L -> kq_rep q L -> inv (set_waiters s q) L.
Proof. intros [Hw [] ? ?] Hq. constructor; [by apply winv_queue|by constructor|done|done]. Qed.

(** Thread [i] joins the list. *)
Lemma enqueue_winv s L i x key c :
  winv None s L -> threads s !! i = Some x -> (Z.of_nat i ∉ L.*2) ->
  (key = Reader /\ c = PWaitR) \/ (key = Writer /\ c = PWaitW) ->
  exists q, enqueue s i x key c = Some (put (set_waiters s q) i (mkT c true (token x))) /\
    winv None (put (set_waiters s q) i (mkT c true (token x))) (L ++ [(key, Z.of_nat i)]).
Proof.
  intros [Hr Hn Hb Hh Ht] Hx Hnin Hc. destruct (kq_addToEnd_ok _ _ key (Z.of_nat i) Hr) as (q & Hq & Hr'). exists q. unfold enqueue. rewrite Hq. split; [done|].
  pose proof (lookup_lt_Some _ _ _ Hx). constructor; cbn [put set_waiters waiters threads].
  - done.
  - rewrite fmap_app. apply NoDup_app. split_and!; [done| |apply NoDup_singleton]. intros d Hd Hd'. apply list_elem_of_singleton in Hd'. by subst.
  - intros d. rewrite fmap_app, elem_of_app, length_insert. intros [Hd|Hd]; [by apply Hb|]. apply list_elem_of_singleton in Hd. eauto.
  - done.
  - intros j y Hy. apply list_lookup_insert_Some in Hy as [(<- & <- & _)|[Hne Hy]].
    + assert (Hl : (key, Z.of_nat i) ∈ L ++ [(key, Z.of_nat i)]) by (apply elem_of_app; right; by left).
      unfold thr_ok. by destruct Hc as [[-> ->]|[-> ->]]; cbn [pc id].
    + apply (thr_ok_frame None None L); [|done|by apply Ht]. intros k. rewrite elem_of_app, list_elem_of_singleton. split; [by left|].
      intros [?|[= _ E]]; [done|]. apply Nat2Z.inj in E. congruence.
Qed.

(** A waiting thread is woken; a writer with the inner lock in its hands. *)
Lemma wake_winv s A k d C q :
  winv None s (A ++ (k, d) :: C) -> kq_rep q (A ++ C) -> k = Reader \/ k = Writer ->
  exists w y, d = Z.of_nat w /\ threads s !! w = Some y /\ wake (set_waiters s q) d = Some (put (set_waiters s q) w (mkT (pc y) false true)) /\
    winv (if k =? Writer then Some w else None) (put (set_waiters s q) w (mkT (pc y) false true)) (A ++ C).
Proof.
  intros [Hr Hn Hb Hh Ht] Hq Hk. assert (Hin : (k, d) ∈ A ++ (k, d) :: C) by (apply elem_of_app; right; by left).
  destruct (Hb d) as (w & -> & Hw); [apply list_elem_of_fmap; by exists (k, d)|]. destruct (lookup_lt_is_Some_2 _ _ Hw) as [y Hy]. exists w, y.
  split; [done|]. split; [done|]. unfold wake. rewrite Nat2Z.id. cbn [set_waiters threads]. rewrite Hy. split; [done|].
  rewrite fmap_app, fmap_cons in Hn. cbn [snd] in Hn.
  assert (Hnin : Z.of_nat w ∉ (A ++ C).*2).
  { rewrite fmap_app. rewrite not_elem_of_app. apply NoDup_app in Hn as (_ & H1 & [H2 _]%NoDup_cons). split; [|done]. intros Hd. apply (H1 _ Hd). by left. }
  assert (Hoth : forall j k', j <> w -> (k', Z.of_nat j) ∈ A ++ (k, Z.of_nat w) :: C <-> (k', Z.of_nat j) ∈ A ++ C).
  { intros j k' Hj. rewrite !elem_of_app, elem_of_cons. split; [|tauto]. intros [?|[[= _ E]|?]]; [tauto| |tauto]. apply Nat2Z.inj in E. congruence. }
  assert (Hself : forall k', (k', Z.of_nat w) ∈ A ++ (k, Z.of_nat w) :: C -> k' = k).
  { intros k' Hk'. rewrite elem_of_app, elem_of_cons in Hk'. destruct Hk' as [H|[[= ->]|H]]; [|done|]; destruct Hnin; apply list_elem_of_fmap; exists (k', Z.of_nat w); (split; [done|]); apply elem_of_app; tauto. }
  assert (Hwl : Z.of_nat w ∈ (A ++ (k, Z.of_nat w) :: C).*2) by (apply list_elem_of_fmap; by exists (k, Z.of_nat w)).
  pose proof (Ht w y Hy) as Hyok.
  constructor; cbn [put set_waiters waiters threads].
  - done.
  - rewrite fmap_app. apply NoDup_app in Hn as (H1 & H2 & [_ H3]%NoDup_cons). apply NoDup_app. split_and!; [done| |done]. intros z Hz Hz'. apply (H2 z Hz). by right.
  - intros z Hz. rewrite length_insert. apply Hb. rewrite fmap_app, fmap_cons, elem_of_app, elem_of_cons. rewrite fmap_app, elem_of_app in Hz. tauto.
  - rewrite length_insert. intros z. destruct (k =? Writer); [|done]. by intros [= <-].
  - intros j z Hz. apply list_lookup_insert_Some in Hz as [(<- & <- & _)|[Hne Hz]].
    + assert (HR : (Reader, Z.of_nat w) ∈ A ++ (k, Z.of_nat w) :: C -> (if k =? Writer then Some w else None) <> Some w) by (intros Hi; by rewrite <- (Hself _ Hi)).
      assert (HW : (Writer, Z.of_nat w) ∈ A ++ (k, Z.of_nat w) :: C -> (if k =? Writer then Some w else None) = Some w) by (intros Hi; by rewrite <- (Hself _ Hi)).
      unfold thr_ok in *. cbn [pc id token]. destruct (pc y), (id y); unfold not in *; tauto.
    + apply (thr_ok_frame None _ (A ++ (k, Z.of_nat w) :: C)); [intros k'; by apply Hoth| |by apply Ht]. destruct (k =? Writer); [|done]. split; [done|]. intros [= ->]. done.
Qed.

(** The threads are where they were. *)
Definition same_pcs (s s' : t Q) : Prop :=
  pc <$> threads s' = pc <$> threads s /\ readers s' = readers s /\ lock s' = lock s.

Lemma same_pcs_wake s q w y : threads s !! w = Some y -> same_pcs s (put (set_waiters s q) w (mkT (pc y) false true)).
Proof.
  intros Hy. split_and!; try done. cbn. rewrite list_fmap_insert. cbn. apply list_insert_id. by rewrite list_lookup_fmap, Hy.
Qed.

Lemma same_pcs_sum s s' : same_pcs s s' ->
  sum_with isR (threads s') = sum_with isR (threads s) /\ sum_with isW (threads s') = sum_with isW (threads s) /\ length (threads s') = length (threads s).
Proof.
  intros [H _]. revert H. generalize (threads s), (threads s'). induction l as [|x l IH]; intros [|y l'] E; try done. cbn in E. injection E as E1 E2.
  destruct (IH l' E2) as (H1 & H2 & H3). cbn [sum_with length]. rewrite H1, H2, H3. unfold isR, isW. by rewrite E1.
Qed.

Lemma winv_length lk s L : winv lk s L -> (length L <= length (threads s))%nat.
Proof.
  intros [_ Hn Hb _ _]. rewrite <- (length_fmap snd L). transitivity (length (Z.of_nat <$> seq 0 (length (threads s)))); [|by rewrite length_fmap, length_seq].
  apply submseteq_length, NoDup_submseteq; [done|]. intros d Hd. destruct (Hb d Hd) as (i & -> & Hi). apply list_elem_of_fmap. exists i. split; [done|]. apply elem_of_seq. lia.
Qed.

Definition other_keys (k : Z) (L : list (Z * Z)) : list (Z * Z) := filter (fun x => x.1 <> k) L.

Lemma first_key (L : list (Z * Z)) k :
  match find_first (fun x => x.1 =? k) L with
  | Some x => exists A C d, x = (k, d) /\ L = A ++ (k, d) :: C /\ remove_first (fun x => x.1 =? k) L = A ++ C /\ Forall (fun x => x.1 <> k) A
  | None => other_keys k L = L /\ remove_first (fun x => x.1 =? k) L = L /\ Forall (fun x => x.1 <> k) L
  end.
Proof.
  unfold find_first, remove_first. destruct (span_until (fun x : Z * Z => x.1 =? k) L) as [A [|[k' d] C]] eqn:E; cbn [snd head].
  - apply span_until_none in E as [-> H]. rewrite app_nil_r. assert (HF : Forall (fun x : Z * Z => x.1 <> k) L) by (eapply Forall_impl; [exact H|]; intros x Hx; by apply Z.eqb_neq).
    split_and!; [|done|done]. unfold other_keys. clear - HF. induction HF as [|x l Hx _ IH]; [done|]. rewrite filter_cons, decide_True by done. by rewrite IH.
  - pose proof (span_until_head _ _ _ _ _ E) as Hk. cbn in Hk. apply Z.eqb_eq in Hk as ->. exists A, C, d. pose proof (span_until_app _ _ _ _ E). split_and!; try done.
    pose proof (span_until_fail _ _ _ _ E) as HF. eapply Forall_impl; [exact HF|]. intros x Hx. by apply Z.eqb_neq.
Qed.

Lemma wake_readers_spec fuel s L :
  winv None s L -> (length L < fuel)%nat ->
  exists s', wake_readers fuel s = Some s' /\ winv None s' (other_keys Reader L) /\ same_pcs s s'.
Proof.
  revert s L. induction fuel as [|fuel IH]; intros s L H Hf; [lia|]. cbn [wake_readers].
  destruct (kq_remove_ok _ _ Reader (wi_rep _ _ _ H)) as (q & -> & Hq). cbn [mbind option_bind]. pose proof (first_key L Reader) as Hfk.
  destruct (find_first (fun x => x.1 =? Reader) L) as [x|]; cbn [fmap option_fmap option_map].
  - destruct Hfk as (A & C & d & -> & -> & Er & HA). rewrite Er in Hq. cbn [snd].
    destruct (wake_winv _ _ _ _ _ _ H Hq (or_introl eq_refl)) as (w & y & -> & Hy & -> & Hw). cbn [mbind option_bind].
    destruct (IH _ _ Hw) as (s' & -> & Hs' & (E1 & E2 & E3)); [rewrite length_app in *; cbn [length] in Hf; lia|]. exists s'. split; [done|].
    destruct (same_pcs_wake s q w y Hy) as (F1 & F2 & F3). split; [|split_and!; congruence].
    unfold other_keys in *. rewrite filter_app in Hs' |- *. rewrite filter_cons, decide_False by naive_solver. done.
  - destruct Hfk as (-> & Er & _). rewrite Er in Hq. eexists. split; [reflexivity|]. split; [by apply winv_queue|by split_and!].
Qed.

Lemma wake_all_spec fuel s L :
  winv None s L -> Forall (fun x => x.1 = Reader) L -> (length L < fuel)%nat ->
  exists s', wake_all fuel s = Some s' /\ winv None s' [] /\ same_pcs s s'.
Proof.
  revert s L. induction fuel as [|fuel IH]; intros s L H HL Hf; [lia|]. cbn [wake_all].
  destruct (kq_removeHead_ok _ _ (wi_rep _ _ _ H)) as (q & -> & Hq). cbn [mbind option_bind]. destruct L as [|[k d] L]; cbn [head tail] in *.
  - eexists. split; [reflexivity|]. split; [by apply winv_queue|by split_and!].
  - apply Forall_cons in HL as [Hk HL]. cbn in Hk. subst k.
    destruct (wake_winv s [] Reader d L q H Hq (or_introl eq_refl)) as (w & y & -> & Hy & -> & Hw). cbn [mbind option_bind app] in *.
    destruct (IH _ _ Hw HL) as (s' & -> & Hs' & (E1 & E2 & E3)); [cbn [length] in Hf; lia|]. exists s'. split; [done|]. split; [done|].
    destruct (same_pcs_wake s q w y Hy) as (F1 & F2 & F3). split_and!; congruence.
Qed.

(** ** The operations *)

(** The keys on the list. *)
Lemma winv_keys lk s L : winv lk s L -> Forall (fun x => x.1 = Reader \/ x.1 = Writer) L.
Proof.
  intros [_ Hn Hb _ Ht]. apply Forall_forall. intros [k d] Hin. cbn. assert (Hd : d ∈ L.*2) by (apply list_elem_of_fmap; by exists (k, d)).
  destruct (Hb d Hd) as (i & -> & Hi). destruct (lookup_lt_is_Some_2 _ _ Hi) as [x Hx]. specialize (Ht i x Hx).
  assert (Hu : forall k', (k', Z.of_nat i) ∈ L -> k' = k).
  { intros k' Hk'. apply list_elem_of_lookup in Hin as [a Ha], Hk' as [b Hb']. assert (a = b) as -> by (apply (NoDup_lookup _ _ _ (Z.of_nat i) Hn); by rewrite list_lookup_fmap, ?Ha, ?Hb'). congruence. }
  unfold thr_ok in Ht. destruct (pc x), (id x); try tauto; destruct Ht as [Ht1 Ht2]; try tauto; [left; symmetry; by apply Hu..|right; symmetry; by apply Hu|right; symmetry; by apply Hu].
Qed.

(** A count and places of threads that fit. *)
Lemma counted_step s s' i x x' :
  counted s -> threads s !! i = Some x -> pc <$> threads s' = pc <$> (<[i := x']> (threads s)) ->
  let nR := sum_with isR (threads s) - isR x + isR x' in
  let nW := sum_with isW (threads s) - isW x + isW x' in
  readers s' = nR - nW -> nW = 0 \/ (nW = 1 /\ nR = 0) ->
  counted s' /\ sum_with isR (threads s') = nR /\ sum_with isW (threads s') = nW.
Proof.
  intros [Hc He Hs] Hx Hp nR nW Hr Hex. destruct (same_pcs_sum (mkRW (readers s) (waiters s) (lock s) (<[i := x']> (threads s))) (mkRW (readers s) (waiters s) (lock s) (threads s'))) as (E1 & E2 & E3).
  { by split_and!. }
  cbn [threads] in E1, E2, E3. rewrite (sum_with_insert isR _ _ _ _ Hx) in E1. rewrite (sum_with_insert isW _ _ _ _ Hx) in E2. rewrite length_insert in E3. fold nR in E1. fold nW in E2.
  split; [|done]. constructor; rewrite ?E1, ?E2, ?E3; [done|tauto|done].
Qed.

Lemma wrap32_small x : - 2 ^ 31 <= x < 2 ^ 31 -> wrap32 x = x.
Proof. intros H. unfold wrap32. rewrite Z.mod_small; lia. Qed.

Lemma count_facts s i x : counted s -> threads s !! i = Some x ->
  0 <= sum_with isR (threads s) < 2 ^ 31 /\ isR x <= sum_with isR (threads s) /\ isW x <= sum_with isW (threads s) /\
  (sum_with isW (threads s) = 0 \/ (sum_with isW (threads s) = 1 /\ sum_with isR (threads s) = 0)) /\
  readers s = sum_with isR (threads s) - sum_with isW (threads s).
Proof.
  intros [Hc He Hs] Hx. pose proof (sum_with_range isR isR_range (threads s)). pose proof (sum_with_ge isR isR_range _ _ _ Hx). pose proof (sum_with_ge isW isW_range _ _ _ Hx).
  split_and!; try done; lia.
Qed.

Section op.
Variables (s : t Q) (L : list (Z * Z)) (i : nat) (x : thread).
Hypotheses (H : inv s L) (Hlk : lock s = None) (Hx : threads s !! i = Some x).

(** A section that leaves the list alone and moves thread [i] to a place where
    it does not wait. *)
Lemma inv_move r c :
  (Z.of_nat i ∉ L.*2) -> (c = PIdle \/ c = PRead \/ c = PWrite) ->
  let x' := mkT c (id x) (token x) in
  let nR := sum_with isR (threads s) - isR x + isR x' in
  let nW := sum_with isW (threads s) - isW x + isW x' in
  r = nR - nW -> nW = 0 \/ (nW = 1 /\ nR = 0) -> (0 <= r -> match L with [] => True | (k, _) :: _ => k = Writer /\ 0 < r end) ->
  inv (goto (set_readers s r) i x c) L.
Proof.
  intros Hnin Hc x' nR nW Hr Hex Hfree. pose proof H as [Hw Hcnt _ _]. rewrite Hlk in Hw.
  destruct (counted_step s (goto (set_readers s r) i x c) i x x' Hcnt Hx eq_refl Hr Hex) as (H1 & _ & _).
  constructor; [|done|by rewrite <- Hlk|by intros _]. cbn [goto put set_readers lock]. rewrite Hlk.
  apply (winv_put None None (set_readers s r) L i x); [by apply winv_readers|done| |done]. unfold thr_ok. cbn [pc]. destruct Hc as [-> |[-> | ->]]; by split.
Qed.

(** A section that ends with thread [i] on the list. *)
Lemma inv_enqueue r key c :
  (Z.of_nat i ∉ L.*2) -> (key = Reader /\ c = PWaitR) \/ (key = Writer /\ c = PWaitW) -> isW x = 0 ->
  r = sum_with isR (threads s) - isR x - sum_with isW (threads s) ->
  (sum_with isW (threads s) = 0 \/ (sum_with isW (threads s) = 1 /\ sum_with isR (threads s) - isR x = 0)) ->
  (0 <= r -> match L with [] => key = Writer | (k, _) :: _ => k = Writer end /\ 0 < r) ->
  exists s', enqueue (set_readers s r) i x key c = Some s' /\ inv s' (L ++ [(key, Z.of_nat i)]).
Proof.
  intros Hnin Hkc Hw0 Hr Hex Hfree. pose proof H as [Hw Hcnt _ _]. rewrite Hlk in Hw.
  destruct (enqueue_winv (set_readers s r) L i x key c (winv_readers _ _ _ r Hw) Hx Hnin Hkc) as (q & -> & Hw'). eexists. split; [reflexivity|].
  set (x' := mkT c true (token x)) in *. assert (E0 : isR x' = 0 /\ isW x' = 0) by (by destruct Hkc as [[-> ->]|[-> ->]]).
  destruct (counted_step s (put (set_waiters (set_readers s r) q) i x') i x x' Hcnt Hx eq_refl) as (H1 & _ & _); [cbn; lia|lia|].
  constructor; [by cbn; rewrite Hlk|done|by cbn; rewrite Hlk|]. intros _ Hr0. cbn in Hr0 |- *. destruct (Hfree Hr0) as [Hf1 Hf2]. by destruct L as [|[k d] L'].
Qed.

Lemma not_waiting : pc x = PIdle \/ pc x = PRead \/ pc x = PWrite \/ pc x = PAcqR -> Z.of_nat i ∉ L.*2.
Proof.
  intros Hp. pose proof (wi_thr _ _ _ (in_wait _ _ H) i x Hx) as Ht. unfold thr_ok in Ht. destruct Hp as [E|[E|[E|E]]]; rewrite E in Ht; tauto.
Qed.

Lemma acquireR_inv : pc x = PIdle \/ pc x = PAcqR -> exists s' L', acquireR s i x = Some s' /\ inv s' L'.
Proof.
  intros Hp. pose proof H as [Hw Hcnt _ Hfree]. destruct (count_facts s i x Hcnt Hx) as (F1 & F2 & F3 & F4 & F5).
  assert (Hnin : Z.of_nat i ∉ L.*2) by (apply not_waiting; tauto). assert (E0 : isR x = 0 /\ isW x = 0) by (unfold isR, isW; by destruct Hp as [-> | ->]). destruct E0 as [E0 E1].
  unfold acquireR. rewrite (kq_find_ok _ _ Writer (wi_rep _ _ _ Hw)). cbn [mbind option_bind]. pose proof (first_key L Writer) as Hfk. specialize (Hfree Hlk).
  destruct (_ || _) eqn:Ecase.
  - destruct (inv_enqueue (readers s) Reader PWaitR Hnin) as (s' & Hs' & Hi); [by left|done|lia|lia| |].
    + intros Hr0. rewrite (proj2 (Z.ltb_ge _ _) Hr0) in Ecase. cbn [orb] in Ecase. destruct (find_first _ L); [|done]. destruct Hfk as (A & C & d & _ & EL & _).
      specialize (Hfree Hr0). destruct L as [|[k d'] L']; [by destruct A|]. done.
    + exists s', (L ++ [(Reader, Z.of_nat i)]). split; [|done]. rewrite <- Hs'. by destruct s.
  - apply orb_false_iff in Ecase as [Hr0 Hno]. bool_props. exists (goto (set_readers s (wrap32 (readers s + 1))) i x PRead), L. split; [done|].
    assert (EL : L = []).
    { specialize (Hfree ltac:(lia)). destruct L as [|[k d] L']; [done|]. destruct Hfree as [-> _]. destruct (find_first _ _); [done|]. destruct Hfk as (_ & _ & Hall).
      apply Forall_cons in Hall as [Hk _]. done. }
    pose proof (sum_with_range isR isR_range (<[i := mkT PRead true true]> (threads s))) as Hsr. rewrite (sum_with_insert isR _ _ _ _ Hx), length_insert, E0 in Hsr. cbn [isR pc] in Hsr.
    pose proof (co_small _ Hcnt). rewrite wrap32_small by lia.
    apply inv_move; [done|tauto|cbn; lia|cbn; lia|]. by rewrite EL.
Qed.

Lemma acquireW_inv : pc x = PIdle -> exists s' L', acquireW s i x = Some s' /\ inv s' L'.
Proof.
  intros Hp. pose proof H as [Hw Hcnt _ Hfree]. destruct (count_facts s i x Hcnt Hx) as (F1 & F2 & F3 & F4 & F5). specialize (Hfree Hlk).
  assert (Hnin : Z.of_nat i ∉ L.*2) by (apply not_waiting; tauto). assert (E0 : isR x = 0 /\ isW x = 0) by (unfold isR, isW; by rewrite Hp). destruct E0 as [E0 E1].
  unfold acquireW. destruct (Z.eqb_spec (readers s) 0) as [Hz|Hz]; cbn [negb].
  - exists (goto (set_readers s (-1)) i x PWrite), L. split; [done|]. apply inv_move; [done|tauto|cbn; lia|cbn; lia|lia].
  - destruct (inv_enqueue (readers s) Writer PWaitW Hnin) as (s' & Hs' & Hi); [by right|done|lia|lia| |].
    + intros Hr0. specialize (Hfree Hr0). split; [|lia]. destruct L as [|[k d] L']; [done|by destruct Hfree].
    + exists s', (L ++ [(Writer, Z.of_nat i)]). split; [|done]. rewrite <- Hs'. by destruct s.
Qed.

Lemma upgrade_inv : pc x = PRead -> exists s' L', upgrade s i x = Some s' /\ inv s' L'.
Proof.
  intros Hp. pose proof H as [Hw Hcnt _ Hfree]. destruct (count_facts s i x Hcnt Hx) as (F1 & F2 & F3 & F4 & F5). specialize (Hfree Hlk).
  assert (Hnin : Z.of_nat i ∉ L.*2) by (apply not_waiting; tauto). assert (E0 : isR x = 1 /\ isW x = 0) by (unfold isR, isW; by rewrite Hp). destruct E0 as [E0 E1].
  unfold upgrade. rewrite (proj2 (Z.ltb_lt 0 (readers s))) by lia. cbn [assertK mbind option_bind set_readers readers]. rewrite wrap32_small by lia.
  destruct (Z.eqb_spec (readers s - 1) 0) as [Hz|Hz]; cbn [negb].
  - exists (goto (set_readers s (-1)) i x PWrite), L. split; [done|]. apply inv_move; [done|tauto|cbn; lia|cbn; lia|lia].
  - destruct (inv_enqueue (readers s - 1) Writer PWaitW Hnin) as (s' & Hs' & Hi); [by right|done|lia|lia| |].
    + intros Hr0. specialize (Hfree ltac:(lia)). split; [|lia]. destruct L as [|[k d] L']; [done|by destruct Hfree].
    + exists s', (L ++ [(Writer, Z.of_nat i)]). split; [|done]. rewrite <- Hs'. done.
Qed.

Lemma try_inv : (pc x = PIdle -> exists s' L', tryAcquireW s i x = Some s' /\ inv s' L') /\ (pc x = PRead -> exists s' L', tryUpgrade s i x = Some s' /\ inv s' L').
Proof.
  pose proof H as [Hw Hcnt _ Hfree]. destruct (count_facts s i x Hcnt Hx) as (F1 & F2 & F3 & F4 & F5).
  split; intros Hp; (assert (Hnin : Z.of_nat i ∉ L.*2) by (apply not_waiting; tauto)).
  - unfold tryAcquireW. destruct (Z.eqb_spec (readers s) 0) as [Hz|Hz]; eexists _, L; (split; [reflexivity|]); [|done]. assert (E0 : isR x = 0 /\ isW x = 0) by (unfold isR, isW; by rewrite Hp).
    apply inv_move; [done|tauto|cbn; lia|cbn; lia|lia].
  - assert (E0 : isR x = 1 /\ isW x = 0) by (unfold isR, isW; by rewrite Hp). unfold tryUpgrade. rewrite (proj2 (Z.ltb_lt 0 (readers s))) by lia. cbn [assertK mbind option_bind].
    destruct (Z.eqb_spec (readers s) 1) as [Hz|Hz]; eexists _, L; (split; [reflexivity|]); cbn [negb]; [|done]. apply inv_move; [done|tauto|cbn; lia|cbn; lia|lia].
Qed.

(** Thread [i] has let go; the first writer of the list is handed the lock. *)
Lemma inv_hand r A d C q :
  L = A ++ (Writer, d) :: C -> kq_rep q (A ++ C) -> (Z.of_nat i ∉ L.*2) -> isR x = sum_with isR (threads s) -> isW x = sum_with isW (threads s) -> r = 0 ->
  exists s2, wake (set_waiters (goto (set_readers s r) i x PIdle) q) d = Some s2 /\ inv (set_lock s2 (Some (Z.to_nat d))) (A ++ C).
Proof.
  intros EL Hq Hnin HnR HnW ->. pose proof H as [Hw Hcnt _ _]. rewrite Hlk, EL in Hw. rewrite EL in Hnin. set (s1 := goto (set_readers s 0) i x PIdle).
  assert (Hw1 : winv None s1 (A ++ (Writer, d) :: C)).
  { apply (winv_put None None (set_readers s 0) _ i x); [by apply winv_readers|done| |done]. by split. }
  destruct (counted_step s s1 i x (mkT PIdle (id x) (token x)) Hcnt Hx eq_refl) as (Hc1 & Er & Ew);
    change (isR (mkT PIdle (id x) (token x))) with 0 in *; change (isW (mkT PIdle (id x) (token x))) with 0 in *; [change (readers s1) with 0; lia|lia|].
  destruct (wake_winv s1 A Writer d C q Hw1 Hq (or_intror eq_refl)) as (w & y & -> & Hy & -> & Hw2). eexists. split; [reflexivity|]. rewrite Nat2Z.id.
  destruct (same_pcs_sum _ _ (same_pcs_wake s1 q w y Hy)) as (G1 & G2 & G3). constructor.
  - by destruct Hw2.
  - destruct Hc1. constructor; cbn [set_lock readers threads]; rewrite ?G1, ?G2, ?G3; done.
  - intros _. cbn [set_lock threads]. rewrite G2. split; [done|lia].
  - done.
Qed.

Lemma releaseR_inv : pc x = PRead -> exists s' L', releaseR s i x = Some s' /\ inv s' L'.
Proof.
  intros Hp. pose proof H as [Hw Hcnt _ Hfree]. destruct (count_facts s i x Hcnt Hx) as (F1 & F2 & F3 & F4 & F5). specialize (Hfree Hlk).
  assert (Hnin : Z.of_nat i ∉ L.*2) by (apply not_waiting; tauto). assert (E0 : isR x = 1 /\ isW x = 0) by (unfold isR, isW; by rewrite Hp). destruct E0 as [E0 E1].
  unfold releaseR. rewrite (proj2 (Z.ltb_lt 0 (readers s))) by lia. cbn [assertK mbind option_bind]. rewrite wrap32_small by lia.
  change (readers (goto (set_readers s (readers s - 1)) i x PIdle)) with (readers s - 1). change (waiters (goto (set_readers s (readers s - 1)) i x PIdle)) with (waiters s).
  specialize (Hfree ltac:(lia)). destruct (Z.eqb_spec (readers s - 1) 0) as [Hz|Hz].
  - destruct (kq_removeHead_ok _ _ (wi_rep _ _ _ Hw)) as (q & -> & Hq). cbn [mbind option_bind].
    assert (HL : L = [] \/ exists k d L', L = (k, d) :: L') by (destruct L as [|[k d] L']; eauto).
    destruct HL as [EL|(k & d & L' & EL)]; rewrite EL in Hq, Hfree |- *; cbn [head tail] in *.
    + eexists _, L. split; [reflexivity|].
      assert (Hm : inv (goto (set_readers s (readers s - 1)) i x PIdle) L) by (apply inv_move; [done|tauto|cbn; lia|cbn; lia|by rewrite EL]).
      apply inv_queue; [done|by rewrite EL].
    + destruct Hfree as [-> _]. cbn [Z.eqb assertK mbind option_bind]. destruct (inv_hand (readers s - 1) [] d L' q) as (s2 & Hs2 & Hi); [done|done|done|lia|lia|lia|].
      change (Writer =? Writer) with true. cbn [assertK mbind option_bind]. rewrite Hs2. cbn [mbind option_bind]. by eexists _, _.
  - eexists _, L. split; [reflexivity|]. apply inv_move; [done|tauto|cbn; lia|cbn; lia|]. intros _. destruct L as [|[k d] L']; [done|]. destruct Hfree. split; [done|lia].
Qed.

Lemma releaseW_inv : pc x = PWrite -> exists s' L', releaseW s i x = Some s' /\ inv s' L'.
Proof.
  intros Hp. pose proof H as [Hw Hcnt _ _]. destruct (count_facts s i x Hcnt Hx) as (F1 & F2 & F3 & F4 & F5).
  assert (Hnin : Z.of_nat i ∉ L.*2) by (apply not_waiting; tauto). assert (E0 : isR x = 0 /\ isW x = 1) by (unfold isR, isW; by rewrite Hp). destruct E0 as [E0 E1].
  unfold releaseW. rewrite (proj2 (Z.eqb_eq (readers s) (-1))) by lia. cbn [assertK mbind option_bind].
  change (waiters (goto (set_readers s 0) i x PIdle)) with (waiters s).
  destruct (kq_remove_ok _ _ Writer (wi_rep _ _ _ Hw)) as (q & -> & Hq). cbn [mbind option_bind]. pose proof (first_key L Writer) as Hfk.
  destruct (find_first (fun x => x.1 =? Writer) L) as [y|]; cbn [fmap option_fmap option_map].
  - destruct Hfk as (A & C & d & -> & EL & Er & _). rewrite Er in Hq. cbn [snd]. destruct (inv_hand 0 A d C q) as (s2 & -> & Hi); [done|done|done|lia|lia|lia|].
    cbn [mbind option_bind]. by eexists _, _.
  - destruct Hfk as (_ & Er & Hall). rewrite Er in Hq. rewrite Hlk in Hw. set (s1 := goto (set_readers s 0) i x PIdle).
    assert (Hw1 : winv None (set_waiters s1 q) L).
    { apply winv_queue; [|done]. apply (winv_put None None (set_readers s 0) _ i x); [by apply winv_readers|done|by split|done]. }
    assert (Hrd : Forall (fun x => x.1 = Reader) L).
    { pose proof (winv_keys _ _ _ Hw) as Hk. rewrite Forall_forall in *. intros z Hz. destruct (Hk z Hz) as [?|?]; [done|]. by destruct (Hall z Hz). }
    destruct (wake_all_spec (S (length (threads s))) _ _ Hw1 Hrd) as (s' & Hs' & Hw' & Hsame); [pose proof (winv_length _ _ _ Hw); lia|]. exists s', []. split; [done|].
    pose proof Hsame as (G1 & G2 & G3). destruct (counted_step s s' i x (mkT PIdle (id x) (token x)) Hcnt Hx) as (Hc' & _ & _); [by rewrite G1|rewrite G2; cbn; lia|cbn; lia|].
    cbn in G3. rewrite Hlk in G3. constructor; [by rewrite G3|done|by rewrite G3|done].
Qed.

Lemma downgrade_inv : pc x = PWrite -> exists s' L', downgrade s i x = Some s' /\ inv s' L'.
Proof.
  intros Hp. pose proof H as [Hw Hcnt _ _]. destruct (count_facts s i x Hcnt Hx) as (F1 & F2 & F3 & F4 & F5).
  assert (Hnin : Z.of_nat i ∉ L.*2) by (apply not_waiting; tauto). assert (E0 : isR x = 0 /\ isW x = 1) by (unfold isR, isW; by rewrite Hp). destruct E0 as [E0 E1].
  unfold downgrade. rewrite (proj2 (Z.eqb_eq (readers s) (-1))) by lia. cbn [assertK mbind option_bind]. rewrite Hlk in Hw. set (s1 := goto (set_readers s 1) i x PRead).
  assert (Hw1 : winv None s1 L) by (apply (winv_put None None (set_readers s 1) _ i x); [by apply winv_readers|done|by split|done]).
  destruct (wake_readers_spec (S (length (threads s))) _ _ Hw1) as (s' & Hs' & Hw' & Hsame); [pose proof (winv_length _ _ _ Hw); lia|]. exists s', (other_keys Reader L). split; [done|].
  pose proof Hsame as (G1 & G2 & G3). destruct (counted_step s s' i x (mkT PRead (id x) (token x)) Hcnt Hx) as (Hc' & _ & _); [by rewrite G1|rewrite G2; cbn; lia|cbn; lia|].
  cbn in G2, G3. rewrite Hlk in G3. constructor; [by rewrite G3|done|by rewrite G3|]. intros _ _. destruct (other_keys Reader L) as [|[k d] L'] eqn:EO; [done|]. split; [|lia].
  assert (Hin : (k, d) ∈ other_keys Reader L) by (rewrite EO; by left). apply list_elem_of_filter in Hin as [Hk Hin]. pose proof (winv_keys _ _ _ Hw) as HK. rewrite Forall_forall in HK.
  destruct (HK _ Hin) as [?|?]; [done|done].
Qed.

End op.

(** ** Every interleaving *)

Lemma under_lock_inv s L i x f s' :
  inv s L -> threads s !! i = Some x -> under_lock s i x f = Some s' -> (lock s = None -> exists s1 L1, f s i x = Some s1 /\ inv s1 L1) -> exists L', inv s' L'.
Proof.
  intros H Hx Hu Hf. unfold under_lock in Hu. destruct (lock s); [done|]. destruct (Hf eq_refl) as (s1 & L1 & E & Hi). rewrite E in Hu. injection Hu as <-. by exists L1.
Qed.

(** A waiting thread runs on. *)
Lemma inv_wait s L i x x' :
  inv s L -> threads s !! i = Some x -> isR x = 0 -> isW x = 0 -> isR x' = 0 -> isW x' = 0 -> thr_ok (lock s) L i x' -> inv (put s i x') L.
Proof.
  intros [Hw Hc Hh Hf] Hx E1 E2 E3 E4 Hok. pose proof Hc as [Hcc Hce Hcs].
  destruct (counted_step s (put s i x') i x x' Hc Hx eq_refl) as (H1 & _ & H3); [cbn; lia|lia|]. constructor; [|done| |done].
  - by apply (winv_put (lock s) (lock s) s L i x).
  - intros Hlk. rewrite H3. destruct (Hh Hlk). split; [done|lia].
Qed.

Lemma rw_step_inv s L i c s' : inv s L -> step s i c = Some s' -> exists L', inv s' L'.
Proof.
  intros H Hst. unfold step in Hst. destruct (threads s !! i) as [[p b tok]|] eqn:Hx; [|done]. cbn [mbind option_bind pc] in Hst.
  pose proof (wi_thr _ _ _ (in_wait _ _ H) i _ Hx) as Ht.
  destruct p, c; try discriminate Hst; try (eapply under_lock_inv; [done|done|done|]; intros Hlk; cbv beta).
  - apply (acquireR_inv s L i _ H Hlk Hx). by left.
  - by apply (acquireW_inv s L i _ H Hlk Hx).
  - by apply (try_inv s L i _ H Hlk Hx).
  - apply (acquireR_inv s L i _ H Hlk Hx). by right.
  - injection Hst as <-. exists L. apply (inv_wait s L i (mkT PWaitR b tok)); try done; cbn; destruct b; try done. unfold thr_ok in *. cbn in *. tauto.
  - cbn in Hst. destruct tok; [|done]. injection Hst as <-. exists L. apply (inv_wait s L i (mkT PBlockR b true)); try done. unfold thr_ok in *. cbn in *. destruct b; [done|]. by destruct Ht as (? & ? & _).
  - by apply (releaseR_inv s L i _ H Hlk Hx).
  - by apply (upgrade_inv s L i _ H Hlk Hx).
  - by apply (try_inv s L i _ H Hlk Hx).
  - injection Hst as <-. exists L. apply (inv_wait s L i (mkT PWaitW b tok)); try done; cbn; destruct b; try done. unfold thr_ok in *. cbn in *. tauto.
  - cbn in Hst. destruct tok; [|done]. injection Hst as <-. exists L. apply (inv_wait s L i (mkT PBlockW b true)); try done. unfold thr_ok in *. cbn in *. destruct b; [done|]. by destruct Ht as (? & ? & _).
  - injection Hst as <-. exists L. pose proof H as [Hw Hc Hh _]. destruct Ht as [Hnin Hlk]. cbn in Hnin. destruct Hh as [Hr0 Hw0]; [by rewrite Hlk|].
    destruct (count_facts s i _ Hc Hx) as (F1 & F2 & F3 & F4 & F5).
    destruct (counted_step s (goto (set_lock (set_readers s (-1)) None) i (mkT PSetW b tok) PWrite) i _ (mkT PWrite b tok) Hc Hx eq_refl) as (H1 & _ & _); [cbn; lia|cbn; lia|].
    constructor; [|done|done|cbn; lia]. rewrite Hlk in Hw. cbn [goto put set_lock lock].
    apply (winv_put (Some i) None (set_lock (set_readers s (-1)) None) L i (mkT PSetW b tok)); [by destruct Hw; constructor|done|by split|]. intros j Hj. split; [intros [= ->]; done|done].
  - by apply (releaseW_inv s L i _ H Hlk Hx).
  - by apply (downgrade_inv s L i _ H Hlk Hx).
Qed.

Lemma rw_reachable_inv n q s : kq_rep q [] -> Z.of_nat n < 2 ^ 31 -> reachable n q s -> exists L, inv s L.
Proof.
  intros Hq Hn. induction 1 as [|s i c s' _ [L IH] Hst]; [|by eapply rw_step_inv]. exists [].
  assert (Hz : sum_with isR (replicate n (mkT PIdle false false)) = 0 /\ sum_with isW (replicate n (mkT PIdle false false)) = 0).
  { split; apply sum_with_none; intros i x Hx; by apply lookup_replicate in Hx as [-> _]. }
  destruct Hz as [Hz1 Hz2]. constructor; [constructor|constructor|done|done]; cbn; try done.
  - constructor.
  - intros d Hd. by apply elem_of_nil in Hd.
  - intros i x Hx. apply lookup_replicate in Hx as [-> _]. split; [apply not_elem_of_nil|done].
  - lia.
  - by left.
  - by rewrite length_replicate.
Qed.

(** C21: the reader-writer lock, over any list that keeps the promise of a key
    queue and in every interleaving of fewer than 2^31 threads: no assertion
    fails; while a thread writes no other thread reads or writes; the count is
    the number of readers, or -1; and when nobody holds the lock, either every
    thread is done or a thread that is in the lock's code can move, so no wake-up
    is lost. *)
Theorem rwlock_correct n q (s : t Q) :
  kq_rep q [] -> Z.of_nat n < 2 ^ 31 -> reachable n q s ->
  (forall i x, threads s !! i = Some x -> pc x <> PCrash) /\
  (forall i j x y, threads s !! i = Some x -> threads s !! j = Some y -> i <> j -> pc x = PWrite -> pc y <> PWrite /\ pc y <> PRead) /\
  (readers s = sum_with isR (threads s) \/ readers s = -1) /\
  ((forall i x, threads s !! i = Some x -> pc x <> PRead /\ pc x <> PWrite) ->
    (forall i x, threads s !! i = Some x -> pc x = PIdle) \/ exists i s', step s i Go = Some s').
Proof.
  intros Hq Hn Hr. destruct (rw_reachable_inv n q s Hq Hn Hr) as (L & [Hw Hc Hh Hf]). pose proof Hc as [Hcc Hce _].
  assert (Ht : forall i x, threads s !! i = Some x -> thr_ok (lock s) L i x) by apply (wi_thr _ _ _ Hw). split_and!.
  - intros i x Hx E. specialize (Ht i x Hx). unfold thr_ok in Ht. by rewrite E in Ht.
  - intros i j x y Hx Hy Hij E. assert (Ex : isW x = 1) by (unfold isW; by rewrite E). pose proof (sum_with_ge isW isW_range _ _ _ Hx). split; intros Ey.
    + pose proof (sum_with_two isW isW_range _ _ _ _ _ Hx Hy Hij). assert (isW y = 1) by (unfold isW; by rewrite Ey). lia.
    + pose proof (sum_with_ge isR isR_range _ _ _ Hy). assert (isR y = 1) by (unfold isR; by rewrite Ey). lia.
  - lia.
  - intros Hno. destruct (lock s) as [w|] eqn:Hlk.
    + right. destruct (lookup_lt_is_Some_2 _ _ (wi_holder _ _ _ Hw w eq_refl)) as [[p b tok] Hx]. exists w. specialize (Ht w _ Hx). unfold thr_ok in Ht. cbn in Ht. unfold step. rewrite Hx. cbn.
      destruct p; try (by destruct Ht as [_ []]); try done; try (by destruct Ht as [[] _]); destruct b; try (by destruct Ht as [_ []]); try (eexists; reflexivity).
      destruct Ht as (_ & _ & Htok). rewrite Htok by done. by eexists.
    + assert (HR : sum_with isR (threads s) = 0) by (apply sum_with_none; intros i x Hx; destruct (Hno i x Hx) as [H1 _]; unfold isR; by destruct (pc x)).
      assert (HW : sum_with isW (threads s) = 0) by (apply sum_with_none; intros i x Hx; destruct (Hno i x Hx) as [_ H1]; unfold isW; by destruct (pc x)).
      specialize (Hf eq_refl ltac:(lia)). assert (EL : L = []) by (destruct L as [|[k d] L']; [done|]; destruct Hf; lia).
      destruct (decide (Exists (fun x => pc x <> PIdle) (threads s))) as [Hex|Hall].
      * right. apply Exists_exists in Hex as ([p b tok] & Hin & Hp). apply list_elem_of_lookup in Hin as [i Hx]. exists i. specialize (Ht i _ Hx). specialize (Hno i _ Hx). unfold thr_ok in Ht.
        unfold step. rewrite Hx. subst L. cbn in *. unfold under_lock. rewrite Hlk. destruct p; try tauto; try (by eexists); destruct b;
          try (by destruct Ht as [_ ?%elem_of_nil]); try (by destruct Ht as [?%elem_of_nil _]); try (by destruct Ht as (_ & ? & _)); try (by destruct Ht).
        destruct Ht as (_ & _ & Htok). rewrite Htok by done. by eexists.
      * left. intros i x Hx. destruct (decide (pc x = PIdle)) as [|Hne]; [done|]. destruct Hall. apply Exists_exists. exists x. split; [by eapply list_elem_of_lookup_2|done].
Qed.

Fixpoint run (s : t Q) (l : list (nat * cmd)) : option (t Q) :=
  match l with
  | [] => Some s
  | (i, c) :: l => s' ← step s i c; run s' l
  end.

Lemma rw_run_reachable n q l s s' : reachable n q s -> run s l = Some s' -> reachable n q s'.
Proof.
  revert s. induction l as [|[i c] l IH]; intros s Hr Hrun; cbn [run] in Hrun; [by injection Hrun as <-|].
  destruct (step s i c) as [s1|] eqn:E; [|done]. cbn [mbind option_bind] in Hrun. eapply IH; [by eapply reach_step|done].
Qed.

End spec.

(** ** On the list of ListSimpleKey.v

    Nodes come from an allocator that takes the address after the last one. *)

Definition next_address (h : gmap Z ListSimpleKey.Node) : Z := 1 + foldr Z.max 0 (map_to_list h).*1.

Lemma foldr_max (l : list Z) : 0 <= foldr Z.max 0 l /\ forall a, a ∈ l -> a <= foldr Z.max 0 l.
Proof.
  induction l as [|b l [IH1 IH2]]; cbn [foldr]; [split; [lia|]; intros a Ha; by apply elem_of_nil in Ha|]. split; [lia|].
  intros a [->|Ha]%elem_of_cons; [lia|]. specialize (IH2 a Ha). lia.
Qed.

Definition bump_alloc : NodeAlloc.
Proof.
  refine {| alloc_node := next_address |}. intros h. unfold next_address. destruct (foldr_max (map_to_list h).*1) as [H1 H2]. split; [lia|].
  destruct (h !! _) as [n|] eqn:E; [|done]. apply elem_of_map_to_list in E. assert (Hin : 1 + foldr Z.max 0 (map_to_list h).*1 ∈ (map_to_list h).*1) by (apply list_elem_of_fmap; eexists (_, n); split; [|exact E]; done).
  specialize (H2 _ Hin). lia.
Defined.

#[local] Existing Instance bump_alloc.

(** A writer holds the lock, a reader blocks behind it, the writer lets go. *)
Definition ex_steps : list (nat * cmd) := [(0%nat, AcquireW); (1%nat, AcquireR); (1%nat, Go); (0%nat, ReleaseW)].

Lemma rwlock_correct_witness :
  exists s, run (init 2 (∅ : gmap Z ListSimpleKey.Node, ListSimpleKey.reinit)) ex_steps = Some s /\ pc <$> threads s = [PIdle; PBlockR] /\
    exists i s', step s i Go = Some s'.
Proof.
  eexists. split; [vm_compute; reflexivity|]. split; [reflexivity|].
  edestruct (rwlock_correct 2 (∅ : gmap Z ListSimpleKey.Node, ListSimpleKey.reinit)) as (_ & _ & _ & Hd).
  - exists []. split; [|done]. by split.
  - reflexivity.
  - eapply (rw_run_reachable _ _ ex_steps); [apply reach_init|vm_compute; reflexivity].
  - destruct Hd as [Hall|Hgo].
    + intros [|[|i]] x Hx; [injection Hx as <-; done|injection Hx as <-; done|done].
    + by specialize (Hall 1%nat _ eq_refl).
    + exact Hgo.
Defined.

End RWLock.
