(* ===== verification/RequestCount.v ===== *)
(** * RequestCount: uses of an object and its shutdown, lib/libc/sync/RequestCount.H and .C

    A signed counter of the requests in progress; shutdown makes it negative by
    subtracting half of LONG_MAX and waits for the requests in progress, the last
    of which wakes it.  RequestCountWithStop adds a lock and the operations stop
    and restart.  As in FairBLock.v every shared access is one step of one
    thread, and the steps of the threads interleave in any order.  The lock of
    RequestCountWithStop is held by at most one thread; Scheduler::Unblock leaves
    a token that the next Scheduler::Block takes. *)

From stdpp Require Import base numbers option list.
From S2P Require Import K42 Prelude.

Module RequestCount.

(** LONG_MAX/2 *)
Definition HALF : Z := (2 ^ 63 - 1) / 2.

(** Which operation a thread is closing the counter for. *)
Inductive kind := Plain | WithStop | Stop.

(** Where a thread is in the code, with its local variables.  [ws]: in enter of
    RequestCountWithStop. *)
Inductive PC :=
| PIdle
| PInside                     (* enter has returned r >= 0 *)
| PFail (ws : bool)           (* r < 0: leave() in enter *)
| PSwap (ws : bool)           (* SwapSynced(&shutdownThread, NullThreadID) in leave *)
| PUnblock (ws : bool) (id : nat)
| PEnterWs                    (* FetchAndAdd(&requests, 1) in enterInternal *)
| PLock                       (* lock.acquire() in enterInternal *)
| PCheck                      (* (r = requests) < 0 *)
| PRetry                      (* lock.release(), retry *)
| PRefuse (r : Z)             (* lock.release(), return r *)
| PSh0 (k : kind)             (* lock.acquire() in shutdown and stop *)
| PSh1 (k : kind)             (* r = requests *)
| PSh2 (k : kind) (r : Z)     (* shutdownThread != NullThreadID *)
| PSh3 (k : kind)             (* CompareAndStore(&shutdownThread, NullThreadID, me) *)
| PSh4 (k : kind)             (* r = FetchAndAdd(&requests, -HALF) *)
| PShRel (r : Z)              (* lock.release() in shutdown, after that *)
| PShFail (r : Z)             (* lock.release(), return r *)
| PSh5 (k : kind)             (* SwapSynced(&shutdownThread, NullThreadID) *)
| PShWait (k : kind)          (* while (shutdownThread != NullThreadID) *)
| PShBlock (k : kind)         (* Scheduler::Block() *)
| PDone (k : kind)            (* shutdown or stop has returned 0 at its end *)
| PRet (r : Z)                (* shutdown or stop has returned r early *)
| PRestart                    (* lock.release() in restart *).

Record thread := mkT { pc : PC; token : bool }.

(** A ThreadID is the index of the thread; null is [None]. *)
Record t := mkRC { requests : Z; shutdownThread : option nat; lock : option nat; threads : list thread }.

Definition init (n : nat) : t := mkRC 0 None None (replicate n (mkT PIdle false)).

Definition goto (s : t) (i : nat) (x : thread) (c : PC) : t :=
  mkRC (requests s) (shutdownThread s) (lock s) (<[i := mkT c (token x)]> (threads s)).

Definition set_requests (s : t) (r : Z) : t := mkRC r (shutdownThread s) (lock s) (threads s).
Definition set_shutdownThread (s : t) (o : option nat) : t := mkRC (requests s) o (lock s) (threads s).
Definition set_lock (s : t) (o : option nat) : t := mkRC (requests s) (shutdownThread s) o (threads s).

(** FetchAndAddSigned *)
Definition add_requests (s : t) (d : Z) : t := set_requests s (swrap (requests s + d)).

(** Where enter goes on after its leave(). *)
Definition after (ws : bool) : PC := if ws then PLock else PIdle.

(** enter up to its FetchAndAdd *)
Definition enter (s : t) (i : nat) (x : thread) (ws : bool) : t :=
  let r := requests s in
  goto (add_requests s 1) i x (if r <? 0 then PFail ws else PInside).

(** leave up to its FetchAndAdd *)
Definition leave (s : t) (i : nat) (x : thread) (ws : bool) : t :=
  let r := requests s in
  goto (add_requests s (-1)) i x (if 0 <? r then after ws else if r =? - HALF + 1 then PSwap ws else after ws).

(** Scheduler::Unblock(id) *)
Definition unblock (s : t) (id : nat) : t :=
  match threads s !! id with
  | Some y => mkRC (requests s) (shutdownThread s) (lock s) (<[id := mkT (pc y) true]> (threads s))
  | None => s
  end.

(** The rest of leave, and of enter in RequestCountWithStop. *)
Definition use_step (s : t) (i : nat) (x : thread) : option t :=
  match pc x with
  | PFail ws => Some (leave s i x ws)
  | PSwap ws =>
      Some (goto (set_shutdownThread s None) i x (match shutdownThread s with Some id => PUnblock ws id | None => after ws end))
  | PUnblock ws id =>
      Some (unblock (goto s i x (after ws)) id)
  | PEnterWs => Some (enter s i x true)
  | PLock => match lock s with None => Some (goto (set_lock s (Some i)) i x PCheck) | Some _ => None end
  | PCheck => Some (goto s i x (if requests s <? 0 then PRefuse (requests s) else PRetry))
  | PRetry => Some (goto (set_lock s None) i x PEnterWs)
  | PRefuse r => Some (goto (set_lock s None) i x PIdle)
  | _ => None
  end.

(** What the refusal of shutdown and stop returns; both release the lock. *)
Definition refuse (k : kind) (r : Z) : PC :=
  match k with Plain => PRet r | WithStop => PShFail r | Stop => PShFail (-1) end.

(** RequestCount::shutdown, RequestCountWithStop::shutdown and stop *)
Definition shutdown_step (s : t) (i : nat) (x : thread) : option t :=
  match pc x with
  | PSh0 k => match lock s with None => Some (goto (set_lock s (Some i)) i x (PSh1 k)) | Some _ => None end
  | PSh1 k => Some (goto s i x (if requests s <? 0 then refuse k (requests s) else PSh2 k (requests s)))
  | PSh2 k r => Some (goto s i x (match shutdownThread s with Some _ => refuse k r | None => PSh3 k end))
  | PSh3 k =>
      match shutdownThread s with
      | None => Some (goto (set_shutdownThread s (Some i)) i x (PSh4 k))
      | Some _ => Some (goto s i x (PSh1 k))
      end
  | PSh4 k =>
      let r := requests s in
      Some (goto (add_requests s (- HALF)) i x
              (match k with WithStop => PShRel r | _ => if r =? 0 then PSh5 k else PShWait k end))
  | PShRel r => Some (goto (set_lock s None) i x (if r =? 0 then PSh5 WithStop else PShWait WithStop))
  | PShFail r => Some (goto (set_lock s None) i x (PRet r))
  | PSh5 k => Some (goto (set_shutdownThread s None) i x (PDone k))
  | PShWait k => Some (goto s i x (match shutdownThread s with None => PDone k | Some _ => PShBlock k end))
  | PShBlock k =>
      if token x then Some (mkRC (requests s) (shutdownThread s) (lock s) (<[i := mkT (PShWait k) false]> (threads s))) else None
  | PRet _ => Some (goto s i x PIdle)
  | PRestart => Some (goto (set_lock s None) i x PIdle)
  | _ => None
  end.

Inductive cmd := Enter | EnterWs | Leave | Shutdown (k : kind) | Restart | Go.

(** A client thread calls an operation, or runs on in its code. *)
Definition step (s : t) (i : nat) (c : cmd) : option t :=
  x ← threads s !! i;
  match pc x, c with
  | PIdle, Enter => Some (enter s i x false)
  | PIdle, EnterWs => Some (goto s i x PEnterWs)
  | PInside, Leave => Some (leave s i x false)
  | PIdle, Shutdown Plain => Some (goto s i x (PSh1 Plain))
  | PIdle, Shutdown k => Some (goto s i x (PSh0 k))
  | PDone Stop, Restart =>
      _ ← assertK (bool_decide (shutdownThread s = None));
      Some (goto (add_requests s HALF) i x PRestart)
  | _, Go => match use_step s i x with Some s' => Some s' | None => shutdown_step s i x end
  | _, _ => None
  end.

Fixpoint run (s : t) (l : list (nat * cmd)) : option t :=
  match l with
  | [] => Some s
  | (i, c) :: l => s' ← step s i c; run s' l
  end.

(** ** Executions in which the contract of the comments fails *)

(** Thread [i] takes [n] steps. *)
Definition go (i : nat) (n : nat) : list (nat * cmd) := replicate n (i, Go).

Definition at_pc (s : t) (i : nat) (c : PC) : Prop := pc <$> threads s !! i = Some c.

(** Two shutdowns at once: the second reads the count, then finds the first one's
    mark and returns that count, which is 0; a request enters afterwards. *)
Definition early_zero : list (nat * cmd) :=
  (1%nat, Shutdown Plain) :: go 1 1 ++ (0%nat, Shutdown Plain) :: go 0 3 ++ go 1 1 ++ [(2%nat, Enter)].

Lemma shutdown_returns_zero_early :
  exists s, run (init 3) early_zero = Some s /\ at_pc s 1 (PRet 0) /\ at_pc s 2 PInside.
Proof. eexists. split; [vm_compute; reflexivity|]. by vm_compute. Qed.

(** stop, whose wake-up by the last request is delayed: another thread wakes the
    stopper, which restarts; a request enters; the second stop is woken by the
    delayed one and returns while that request runs. *)
Definition stop_woken_early : list (nat * cmd) :=
  (1%nat, Enter) :: (0%nat, Shutdown Stop) :: go 0 5 ++ (1%nat, Leave) :: (2%nat, EnterWs) :: go 2 4 ++ go 0 1 ++ (0%nat, Restart) :: go 0 1 ++ go 2 4 ++
  (0%nat, Shutdown Stop) :: go 0 5 ++ go 1 1 ++ go 0 1.

Lemma stop_returns_early :
  exists s, run (init 3) stop_woken_early = Some s /\ at_pc s 0 (PDone Stop) /\ at_pc s 2 PInside.
Proof. eexists. split; [vm_compute; reflexivity|]. by vm_compute. Qed.

(** A second shutdown that reads the count before the first closes it and the
    mark after the first has cleared it closes the counter twice. *)
Definition twice_closed : list (nat * cmd) :=
  (0%nat, Shutdown Plain) :: (1%nat, Shutdown Plain) :: go 1 1 ++ go 0 5 ++ go 1 3.

Lemma shutdown_closes_twice :
  exists s, run (init 3) twice_closed = Some s /\ at_pc s 0 (PDone Plain) /\ at_pc s 1 (PShWait Plain) /\
    requests s = - 2 * HALF /\ shutdownThread s = Some 1%nat.
Proof. eexists. split; [vm_compute; reflexivity|]. by vm_compute. Qed.

(** ** The requests in progress *)

Definition inflight (x : thread) : Z := match pc x with PInside | PFail _ => 1 | _ => 0 end.

Definition cnt : list thread -> Z := sum_with inflight.

Lemma inflight_range x : 0 <= inflight x <= 1.
Proof. unfold inflight. destruct (pc x); lia. Qed.

Lemma cnt_range l : 0 <= cnt l <= Z.of_nat (length l).
Proof. apply sum_with_range, inflight_range. Qed.

Lemma cnt_insert l i x y : l !! i = Some x -> cnt (<[i := y]> l) = cnt l - inflight x + inflight y.
Proof. apply sum_with_insert. Qed.

Lemma cnt_ge l i x : l !! i = Some x -> inflight x <= cnt l.
Proof. apply sum_with_ge, inflight_range. Qed.

(** ** The second shutdown waits for ever *)

(** What the other threads can be at once the counter has been closed twice. *)
Definition refused_pc (c : PC) : bool :=
  match c with
  | PIdle | PFail _ | PEnterWs | PLock | PCheck | PRefuse _ | PSh0 _ | PSh1 _ | PShFail _ | PRet _ | PDone Plain => true
  | _ => false
  end.

Definition waiting_pc (c : PC) : bool := match c with PShWait Plain | PShBlock Plain => true | _ => false end.

(** Thread [w] waits and the counter is too low for anyone to wake it. *)
Record abandoned (w : nat) (s : t) : Prop := {
  ab_count : requests s = cnt (threads s) - 2 * HALF;
  ab_mark : shutdownThread s = Some w;
  ab_small : Z.of_nat (length (threads s)) < HALF;
  ab_waits : exists x, threads s !! w = Some x /\ waiting_pc (pc x) = true;
  ab_refused : forall j x, j <> w -> threads s !! j = Some x -> refused_pc (pc x) = true;
}.

(** Thread [i] moves on. *)
Lemma abandoned_goto w s s' i x x' :
  abandoned w s -> threads s !! i = Some x -> requests s' = requests s - inflight x + inflight x' -> shutdownThread s' = shutdownThread s ->
  threads s' = <[i := x']> (threads s) -> (if decide (i = w) then waiting_pc (pc x') = true else refused_pc (pc x') = true) -> abandoned w s'.
Proof.
  intros [Hc Hm Hs (y & Hy & Hw) Hr] Hx Hreq Hmk Ht Hpc. pose proof (lookup_lt_Some _ _ _ Hx). constructor; rewrite ?Ht.
  - rewrite (cnt_insert _ _ _ _ Hx). lia.
  - by rewrite Hmk.
  - by rewrite length_insert.
  - destruct (decide (i = w)) as [->|Hne]; [exists x'; by rewrite list_lookup_insert_eq|exists y; by rewrite list_lookup_insert_ne].
  - intros j z Hj Hz. apply list_lookup_insert_Some in Hz as [(-> & <- & _)|[_ Hz]]; [by rewrite decide_False in Hpc|by eapply Hr].
Qed.

Lemma HALF_val : HALF = 2 ^ 62 - 1.
Proof. reflexivity. Qed.

Lemma abandoned_step w s i c s' : abandoned w s -> step s i c = Some s' -> abandoned w s'.
Proof.
  intros H Hst. unfold step in Hst. destruct (threads s !! i) as [[p tok]|] eqn:Hx; [|done]. cbn [mbind option_bind pc] in Hst.
  pose proof H as [Hc Hm Hs (y & Hy & Hw) Hr]. pose proof (cnt_range (threads s)) as Hcr. pose proof HALF_val as HV.
  assert (Hneg : requests s < 0) by lia. pose proof (cnt_ge _ _ _ Hx) as Hge.
  destruct (decide (i = w)) as [->|Hne].
  - assert (y = mkT p tok) as -> by congruence. cbn [pc] in Hw. destruct p as [| | | | | | | | | | | | | | | | | |[]|[]| | |]; try discriminate Hw; (destruct c; try discriminate Hst); cbn in Hst.
    + injection Hst as <-. rewrite Hm. eapply abandoned_goto; [done|done| |done|reflexivity|by rewrite decide_True]. cbn. lia.
    + destruct tok; [|done]. injection Hst as <-. eapply abandoned_goto; [done|done| |done|reflexivity|by rewrite decide_True]. cbn. lia.
  - pose proof (Hr i _ Hne Hx) as Hp. cbn [pc] in Hp.
    assert (Hgo : forall s1 p', requests s1 = requests s - inflight (mkT p tok) + inflight (mkT p' tok) -> shutdownThread s1 = shutdownThread s ->
      threads s1 = threads s -> refused_pc p' = true -> abandoned w (goto s1 i (mkT p tok) p')).
    { intros s1 p' E1 E2 E3 E4. eapply (abandoned_goto w s _ i _ (mkT p' tok)); [done|done|done|done|cbn; by rewrite E3|]. by rewrite decide_False. }
    destruct p as [| |ws| | | | | | | |k|k| | | | | | | | |[]| |]; try discriminate Hp; (destruct c as [| | |k'| |]; try discriminate Hst); cbn in Hst;
      try (destruct k'; injection Hst as <-; apply Hgo; cbn; (done || lia)).
    + injection Hst as <-. unfold enter. rewrite (proj2 (Z.ltb_lt _ _) Hneg). apply Hgo; cbn; try done. rewrite swrap_small by lia. lia.
    + injection Hst as <-. apply Hgo; cbn; (done || lia).
    + injection Hst as <-. unfold leave. cbn in Hge. rewrite (proj2 (Z.ltb_ge _ _)) by lia. rewrite (proj2 (Z.eqb_neq _ _)) by lia.
      apply Hgo; cbn; try (by destruct ws). rewrite swrap_small by lia. destruct ws; cbn; lia.
    + injection Hst as <-. unfold enter. rewrite (proj2 (Z.ltb_lt _ _) Hneg). apply Hgo; cbn; try done. rewrite swrap_small by lia. lia.
    + destruct (lock s); [done|]. injection Hst as <-. apply Hgo; cbn; (done || lia).
    + injection Hst as <-. rewrite (proj2 (Z.ltb_lt _ _) Hneg). apply Hgo; cbn; (done || lia).
    + injection Hst as <-. apply Hgo; cbn; (done || lia).
    + destruct (lock s); [done|]. injection Hst as <-. apply Hgo; cbn; (done || lia).
    + injection Hst as <-. rewrite (proj2 (Z.ltb_lt _ _) Hneg). apply Hgo; cbn; (try by destruct k); destruct k; cbn; lia.
    + injection Hst as <-. apply Hgo; cbn; (done || lia).
    + injection Hst as <-. apply Hgo; cbn; (done || lia).
Qed.

Lemma abandoned_run w l s s' : abandoned w s -> run s l = Some s' -> abandoned w s'.
Proof.
  revert s. induction l as [|[i c] l IH]; intros s H Hr; cbn [run] in Hr; [by injection Hr as <-|].
  destruct (step s i c) as [s1|] eqn:E; [|done]. cbn [mbind option_bind] in Hr. by eapply IH; [eapply abandoned_step|].
Qed.

(** Two calls of shutdown can leave the second waiting for ever, whatever
    the threads do afterwards: it reads the count before the first closes it and
    the mark after the first has cleared it.  (The comment says that a second
    caller gets a non-zero value.) *)
Theorem second_shutdown_waits_forever :
  exists s, run (init 3) twice_closed = Some s /\ at_pc s 0 (PDone Plain) /\
    forall l s', run s l = Some s' -> exists x, threads s' !! 1%nat = Some x /\ waiting_pc (pc x) = true.
Proof.
  eexists. split; [vm_compute; reflexivity|]. split; [by vm_compute|]. intros l s' Hr. eapply (abandoned_run 1) in Hr; [by apply (ab_waits _ _ Hr)|].
  constructor; [by vm_compute|done|by vm_compute|by eexists|]. intros [|[|[|j]]] x Hj Hx; try done; by injection Hx as <-.
Qed.

(** ** One thread shuts down *)

(** Only plain operations, and shutdown only by thread [c]. *)
Definition allowed (c i : nat) (o : cmd) : bool :=
  match o with Enter | Leave | Go => true | Shutdown Plain => bool_decide (i = c) | _ => false end.

Inductive reachable (n c : nat) : t -> Prop :=
| reach_init : reachable n c (init n)
| reach_step s i o s' : reachable n c s -> allowed c i o = true -> step s i o = Some s' -> reachable n c s'.

(** The places of the threads before and after the counter is closed. *)
Definition open_pc (c j : nat) (p : PC) : bool :=
  match p with
  | PIdle | PInside => true
  | PSh1 Plain | PSh2 Plain _ | PSh3 Plain | PSh4 Plain => bool_decide (j = c)
  | _ => false
  end.

Definition closer_pc (p : PC) : bool := match p with PSh5 Plain | PShWait Plain | PShBlock Plain | PDone Plain => true | _ => false end.

Definition closed_pc (c : nat) (p : PC) : bool :=
  match p with PIdle | PInside | PFail false | PSwap false => true | PUnblock false id => bool_decide (id = c) | _ => false end.

Definition quiet (s : t) : Prop := forall j x, threads s !! j = Some x -> pc x <> PInside.

Record inv_open (c : nat) (s : t) : Prop := {
  op_count : requests s = cnt (threads s);
  op_small : Z.of_nat (length (threads s)) < HALF;
  op_pcs : forall j x, threads s !! j = Some x -> open_pc c j (pc x) = true;
  op_mark : forall x, threads s !! c = Some x -> shutdownThread s = match pc x with PSh4 _ => Some c | _ => None end;
}.

Record inv_closed (c : nat) (s : t) : Prop := {
  cl_count : requests s = cnt (threads s) - HALF;
  cl_small : Z.of_nat (length (threads s)) < HALF;
  cl_closer : exists x, threads s !! c = Some x /\ closer_pc (pc x) = true;
  cl_pcs : forall j x, j <> c -> threads s !! j = Some x -> closed_pc c (pc x) = true;
  cl_mark : shutdownThread s = None \/ shutdownThread s = Some c;
  cl_quiet_mark : shutdownThread s = None -> quiet s;
  cl_quiet_closer : forall x, threads s !! c = Some x -> pc x = PSh5 Plain \/ pc x = PDone Plain -> quiet s;
  cl_quiet_wake : forall j x, threads s !! j = Some x -> pc x = PSwap false \/ pc x = PUnblock false c -> quiet s;
  cl_last : forall x, threads s !! c = Some x -> pc x = PShWait Plain \/ pc x = PShBlock Plain -> shutdownThread s = Some c ->
    0 < cnt (threads s) \/ exists j y, threads s !! j = Some y /\ pc y = PSwap false;
  cl_wake : forall x, threads s !! c = Some x -> pc x = PShBlock Plain -> shutdownThread s = None ->
    token x = true \/ exists j y, threads s !! j = Some y /\ pc y = PUnblock false c;
}.

Lemma quiet_cnt s : cnt (threads s) = 0 -> quiet s.
Proof. intros Hc j x Hx E. pose proof (cnt_ge _ _ _ Hx) as Hg. unfold inflight in Hg. rewrite E in Hg. lia. Qed.

Lemma quiet_put s s' i x' : quiet s -> threads s' = <[i := x']> (threads s) -> pc x' <> PInside -> quiet s'.
Proof.
  intros H Ht Hp j x Hx. rewrite Ht in Hx. apply list_lookup_insert_Some in Hx as [(_ & <- & _)|[_ Hx]]; [done|by eapply H].
Qed.

(** A step of a thread before the counter is closed. *)
Lemma open_put c s s' i x x' :
  inv_open c s -> threads s !! i = Some x -> threads s' = <[i := x']> (threads s) -> requests s' = requests s - inflight x + inflight x' ->
  open_pc c i (pc x') = true ->
  (if decide (i = c) then shutdownThread s' = match pc x' with PSh4 _ => Some c | _ => None end else shutdownThread s' = shutdownThread s) ->
  inv_open c s'.
Proof.
  intros [Hc Hs Hp Hm] Hx Ht Hr Hpc Hmk. pose proof (lookup_lt_Some _ _ _ Hx). constructor; rewrite ?Ht.
  - rewrite (cnt_insert _ _ _ _ Hx). lia.
  - by rewrite length_insert.
  - intros j y Hy. apply list_lookup_insert_Some in Hy as [(<- & <- & _)|[_ Hy]]; [done|by apply Hp].
  - intros y Hy. apply list_lookup_insert_Some in Hy as [(-> & <- & _)|[Hne Hy]]; [by rewrite decide_True in Hmk|].
    rewrite decide_False in Hmk by done. rewrite Hmk. by apply Hm.
Qed.

(** The counter is closed. *)
Lemma open_close c s x k :
  inv_open c s -> threads s !! c = Some x -> pc x = PSh4 k ->
  inv_closed c (goto (add_requests s (- HALF)) c x (if requests s =? 0 then PSh5 Plain else PShWait Plain)).
Proof.
  intros [Hc Hs Hp Hm] Hx E. pose proof (lookup_lt_Some _ _ _ Hx). pose proof HALF_val as HV. pose proof (cnt_range (threads s)) as Hcr. specialize (Hm x Hx). rewrite E in Hm.
  set (p' := if requests s =? 0 then PSh5 Plain else PShWait Plain). set (l' := <[c := mkT p' (token x)]> (threads s)).
  assert (Hpc : p' = PSh5 Plain \/ p' = PShWait Plain) by (unfold p'; destruct (requests s =? 0); auto).
  assert (Ecnt : cnt l' = cnt (threads s)).
  { unfold l'. rewrite (cnt_insert _ _ _ _ Hx). unfold inflight. rewrite E. cbn [pc]. destruct Hpc as [-> | ->]; lia. }
  assert (Hc' : forall y, l' !! c = Some y -> y = mkT p' (token x)).
  { unfold l'. intros y Hy. rewrite list_lookup_insert_eq in Hy by done. by injection Hy as <-. }
  assert (Hoth : forall j y, j <> c -> l' !! j = Some y -> pc y = PIdle \/ pc y = PInside).
  { unfold l'. intros j y Hj Hy. rewrite list_lookup_insert_ne in Hy by done. specialize (Hp j y Hy). unfold open_pc in Hp.
    destruct (pc y) as [| | | | | | | | | | |[]|[]|[]|[]| | | | | | | |]; auto; try done; by apply bool_decide_eq_true in Hp. }
  constructor; cbn [goto add_requests set_requests requests shutdownThread threads]; fold p'; fold l'.
  - rewrite swrap_small, Ecnt by lia. lia.
  - unfold l'. by rewrite length_insert.
  - eexists. split; [unfold l'; by rewrite list_lookup_insert_eq|]. cbn [pc]. by destruct Hpc as [-> | ->].
  - intros j y Hj Hy. by destruct (Hoth j y Hj Hy) as [-> | ->].
  - by right.
  - by rewrite Hm.
  - intros y Hy Hd. rewrite (Hc' y Hy) in Hd. cbn [pc] in Hd. apply quiet_cnt. change (cnt l' = 0). rewrite Ecnt. unfold p' in Hd. destruct (Z.eqb_spec (requests s) 0); [lia|]. naive_solver.
  - intros j y Hy Hd. destruct (decide (j = c)) as [->|Hj].
    + rewrite (Hc' y Hy) in Hd. cbn [pc] in Hd. destruct Hpc as [Hpc|Hpc]; rewrite Hpc in Hd; naive_solver.
    + destruct (Hoth j y Hj Hy) as [E'|E']; rewrite E' in Hd; naive_solver.
  - intros y Hy Hd _. left. rewrite Ecnt. rewrite (Hc' y Hy) in Hd. cbn [pc] in Hd. unfold p' in Hd. destruct (Z.eqb_spec (requests s) 0); [naive_solver|lia].
  - intros y Hy Hd. rewrite (Hc' y Hy) in Hd. cbn [pc] in Hd. destruct Hpc as [Hpc|Hpc]; by rewrite Hpc in Hd.
Qed.

Lemma open_step c s i o s' : inv_open c s -> allowed c i o = true -> step s i o = Some s' -> inv_open c s' \/ inv_closed c s'.
Proof.
  intros H Hal Hst. unfold step in Hst. destruct (threads s !! i) as [[p tok]|] eqn:Hx; [|done]. cbn [mbind option_bind pc] in Hst.
  pose proof H as [Hc Hs Hp Hm]. pose proof (cnt_range (threads s)) as Hcr. pose proof HALF_val as HV. pose proof (Hp i _ Hx) as Hop. cbn [pc] in Hop.
  assert (Hge : requests s <? 0 = false) by (apply Z.ltb_ge; lia). pose proof (cnt_ge _ _ _ Hx) as Hin.
  assert (Hkeep : forall s1 p', threads s1 = threads s -> shutdownThread s1 = shutdownThread s -> requests s1 = requests s - inflight (mkT p tok) + inflight (mkT p' tok) ->
    open_pc c i p' = true -> (match p with PSh4 _ => False | _ => True end) -> (match p' with PSh4 _ => False | _ => True end) -> inv_open c (goto s1 i (mkT p tok) p')).
  { intros s1 p' E1 E2 E3 E4 E5 E6. eapply (open_put c s _ i _ (mkT p' tok)); [done|done|cbn; by rewrite E1|done|done|]. cbn. destruct (decide (i = c)) as [->|]; [|done].
    rewrite E2, (Hm _ Hx). cbn [pc]. by destruct p, p'. }
  destruct p as [| | | | | | | | | | |[]|[] r|[]|[]| | | | | | | |]; try discriminate Hop; (destruct o as [| | |[]| |]; try discriminate Hst; try discriminate Hal); cbn in Hst;
    try (apply bool_decide_eq_true in Hop; subst i); try (apply bool_decide_eq_true in Hal; subst i).
  - left. injection Hst as <-. unfold enter. rewrite Hge. apply Hkeep; try done. cbn. rewrite swrap_small by lia. lia.
  - left. injection Hst as <-. apply Hkeep; try done; cbn; [lia|]. by apply bool_decide_eq_true.
  - left. injection Hst as <-. unfold leave. cbn in Hin. rewrite (proj2 (Z.ltb_lt _ _)) by lia. apply Hkeep; try done. cbn. rewrite swrap_small by lia. lia.
  - left. injection Hst as <-. rewrite Hge. apply Hkeep; try done; cbn; [lia|]. by apply bool_decide_eq_true.
  - left. injection Hst as <-. rewrite (Hm _ Hx). cbn [pc]. apply Hkeep; try done; cbn; [lia|]. by apply bool_decide_eq_true.
  - left. rewrite (Hm _ Hx) in Hst. cbn [pc] in Hst. injection Hst as <-.
    eapply (open_put c s _ c _ (mkT (PSh4 Plain) tok)); [done|done|done|cbn; lia|cbn; by apply bool_decide_eq_true|]. by rewrite decide_True.
  - right. injection Hst as <-. by apply (open_close c s (mkT (PSh4 Plain) tok) Plain).
Qed.

(** A request comes or goes after the counter was closed. *)
Lemma closed_put c s s' i x x' :
  inv_closed c s -> i <> c -> threads s !! i = Some x -> threads s' = <[i := x']> (threads s) -> shutdownThread s' = shutdownThread s ->
  requests s' = requests s - inflight x + inflight x' ->
  pc x = PIdle \/ pc x = PInside \/ pc x = PFail false -> pc x' = PIdle \/ pc x' = PFail false \/ pc x' = PSwap false ->
  (cnt (threads s') = 0 -> pc x' = PSwap false \/ cnt (threads s) = 0) -> (pc x' = PSwap false -> cnt (threads s') = 0) -> inv_closed c s'.
Proof.
  intros [Hc Hs (y & Hy & Hcl) Hp Hm Hqm Hqc Hqw Hl Hw] Hne Hx Ht Hmk Hr Hpx Hpx' Hz Hsw. pose proof (lookup_lt_Some _ _ _ Hx).
  assert (Hput : quiet s -> quiet s') by (intros Hq; eapply quiet_put; [done|done|]; intros E; rewrite E in Hpx'; naive_solver).
  assert (Hsame : forall j z, j <> i -> threads s' !! j = Some z <-> threads s !! j = Some z) by (intros j z Hj; by rewrite Ht, list_lookup_insert_ne).
  assert (Hself : forall z, threads s' !! i = Some z -> z = x') by (intros z Hz'; rewrite Ht, list_lookup_insert_eq in Hz' by done; by injection Hz').
  assert (Hc' : forall z, threads s' !! c = Some z -> threads s !! c = Some z) by (intros z Hz'; apply Hsame; [congruence|done]).
  constructor.
  - rewrite Hr, Ht, (cnt_insert _ _ _ _ Hx). lia.
  - by rewrite Ht, length_insert.
  - exists y. split; [by apply Hsame; [congruence|]|done].
  - intros j z Hj Hjz. destruct (decide (j = i)) as [->|Hji]; [rewrite (Hself z Hjz); by destruct Hpx' as [-> |[-> | ->]]|]. apply (Hp j); [done|by apply Hsame].
  - by rewrite Hmk.
  - rewrite Hmk. auto.
  - intros z Hz' Hd. apply Hput. eapply Hqc; [by apply Hc'|done].
  - intros j z Hj Hd. destruct (decide (j = i)) as [->|Hji].
    + rewrite (Hself z Hj) in Hd. destruct Hd as [E|E]; [|rewrite E in Hpx'; naive_solver]. by apply quiet_cnt, Hsw.
    + apply Hput. eapply Hqw; [by apply Hsame|done].
  - intros z Hz' Hd Hmk'. rewrite Hmk in Hmk'. destruct (decide (cnt (threads s') = 0)) as [E0|].
    + right. destruct (Hz E0) as [E|E]; [exists i, x'; split; [by rewrite Ht, list_lookup_insert_eq|done]|].
      destruct (Hl z (Hc' z Hz') Hd Hmk') as [?|(j & w & Hj & Ew)]; [lia|]. exists j, w. split; [|done]. apply Hsame; [|done]. intros ->.
      assert (w = x) as -> by congruence. rewrite Ew in Hpx. naive_solver.
    + left. pose proof (cnt_range (threads s')). lia.
  - intros z Hz' Hd Hmk'. rewrite Hmk in Hmk'. destruct (Hw z (Hc' z Hz') Hd Hmk') as [?|(j & w & Hj & Ew)]; [by left|]. right. exists j, w. split; [|done].
    apply Hsame; [|done]. intros ->. assert (w = x) as -> by congruence. rewrite Ew in Hpx. naive_solver.
Qed.

(** A thread that saw the last request go clears the mark. *)
Lemma closed_swap c s i x :
  inv_closed c s -> i <> c -> threads s !! i = Some x -> pc x = PSwap false ->
  inv_closed c (goto (set_shutdownThread s None) i x (match shutdownThread s with Some id => PUnblock false id | None => PIdle end)).
Proof.
  intros [Hc Hs (y & Hy & Hcl) Hp Hm Hqm Hqc Hqw Hl Hw] Hne Hx Ep. pose proof (lookup_lt_Some _ _ _ Hx).
  set (p' := match shutdownThread s with Some id => PUnblock false id | None => PIdle end). set (s' := goto _ i x p').
  assert (Hp' : p' = PIdle \/ p' = PUnblock false c) by (unfold p'; destruct Hm as [-> | ->]; auto).
  assert (Hq : quiet s) by (eapply Hqw; [done|by left]).
  assert (Hq' : quiet s') by (apply (quiet_put s _ i (mkT p' (token x))); [done|done|]; cbn; destruct Hp' as [-> | ->]; done).
  assert (Hsame : forall j z, j <> i -> threads s' !! j = Some z <-> threads s !! j = Some z) by (intros j z Hj; cbn; by rewrite list_lookup_insert_ne).
  assert (Hself : threads s' !! i = Some (mkT p' (token x))) by by apply list_lookup_insert_eq.
  constructor; try (intros; exact Hq').
  - cbn [s' goto set_shutdownThread requests threads]. rewrite (cnt_insert _ _ _ _ Hx). unfold inflight. rewrite Ep. cbn [pc]. destruct Hp' as [-> | ->]; lia.
  - cbn [s' goto set_shutdownThread threads]. by rewrite length_insert.
  - exists y. split; [by apply Hsame; [congruence|]|done].
  - intros j z Hj Hjz. destruct (decide (j = i)) as [->|Hji]; [|apply (Hp j); [done|by apply Hsame]].
    assert (z = mkT p' (token x)) as -> by congruence. cbn [pc]. destruct Hp' as [-> | ->]; [done|]. by apply bool_decide_eq_true.
  - by left.
  - cbn. done.
  - intros z Hz Hd _. apply Hsame in Hz; [|congruence]. destruct Hm as [Hm|Hm].
    + destruct (Hw z Hz Hd Hm) as [?|(j & w & Hj & Ew)]; [by left|]. right. exists j, w. split; [|done]. apply Hsame; [|done]. intros ->. congruence.
    + right. exists i, (mkT p' (token x)). split; [done|]. cbn [pc]. unfold p'. by rewrite Hm.
Qed.

(** The closer is unblocked. *)
Lemma closed_unblock c s i x :
  inv_closed c s -> i <> c -> threads s !! i = Some x -> pc x = PUnblock false c -> inv_closed c (unblock (goto s i x PIdle) c).
Proof.
  intros [Hc Hs (y & Hy & Hcl) Hp Hm Hqm Hqc Hqw Hl Hw] Hne Hx Ep. pose proof (lookup_lt_Some _ _ _ Hx). pose proof (lookup_lt_Some _ _ _ Hy).
  assert (Hq : quiet s) by (eapply Hqw; [done|by right]).
  unfold unblock. cbn [goto threads]. rewrite list_lookup_insert_ne, Hy by done. cbn [requests shutdownThread lock].
  set (l1 := <[i := mkT PIdle (token x)]> (threads s)). assert (Hy1 : l1 !! c = Some y) by (unfold l1; by rewrite list_lookup_insert_ne).
  set (l' := <[c := mkT (pc y) true]> l1). set (s' := mkRC _ _ _ l').
  assert (Hlen : length l1 = length (threads s)) by (unfold l1; by rewrite length_insert).
  assert (Hc' : forall z, l' !! c = Some z -> z = mkT (pc y) true) by (intros z Hz; unfold l' in Hz; rewrite list_lookup_insert_eq in Hz by lia; by injection Hz).
  assert (Hoth : forall j z, j <> c -> l' !! j = Some z -> (j = i /\ pc z = PIdle) \/ (j <> i /\ threads s !! j = Some z)).
  { intros j z Hj Hz. unfold l' in Hz. rewrite list_lookup_insert_ne in Hz by done. unfold l1 in Hz. apply list_lookup_insert_Some in Hz as [(-> & <- & _)|[? Hz]]; auto. }
  assert (Hq' : quiet s').
  { intros j z Hz. destruct (decide (j = c)) as [->|Hj]; [rewrite (Hc' z Hz); by destruct (pc y)|]. destruct (Hoth j z Hj Hz) as [[_ ->]|[_ Hz']]; [done|by eapply Hq]. }
  assert (Ecnt : cnt l' = cnt (threads s)).
  { unfold l'. rewrite (cnt_insert _ _ _ _ Hy1). unfold l1. rewrite (cnt_insert _ _ _ _ Hx). unfold inflight. rewrite Ep. cbn [pc]. lia. }
  constructor; cbn [s' requests shutdownThread threads]; try (intros; exact Hq').
  - by rewrite Ecnt.
  - unfold l'. by rewrite length_insert, Hlen.
  - exists (mkT (pc y) true). split; [unfold l'; apply list_lookup_insert_eq; lia|done].
  - intros j z Hj Hz. destruct (Hoth j z Hj Hz) as [[_ ->]|[_ Hz']]; [done|by apply (Hp j)].
  - done.
  - intros z Hz Hd Hmk. rewrite (Hc' z Hz) in Hd. rewrite Ecnt. destruct (Hl y Hy Hd Hmk) as [?|(j & w & Hj & Ew)]; [by left|]. right. exists j, w. split; [|done].
    assert (j <> c) by (intros ->; assert (w = y) as -> by congruence; rewrite Ew in Hd; naive_solver). assert (j <> i) by (intros ->; congruence).
    unfold l', l1. by rewrite !list_lookup_insert_ne.
  - intros z Hz _ _. left. by rewrite (Hc' z Hz).
Qed.

(** A step of the closer. *)
Lemma closed_self c s x x' mk :
  inv_closed c s -> threads s !! c = Some x -> closer_pc (pc x') = true -> mk = None \/ mk = shutdownThread s ->
  (mk = None -> quiet s) -> (pc x' = PSh5 Plain \/ pc x' = PDone Plain -> quiet s) ->
  (pc x' = PShWait Plain \/ pc x' = PShBlock Plain -> mk = shutdownThread s /\ (pc x = PShWait Plain \/ pc x = PShBlock Plain)) ->
  (pc x' = PShBlock Plain -> mk <> None) ->
  inv_closed c (mkRC (requests s) mk (lock s) (<[c := x']> (threads s))).
Proof.
  intros [Hc Hs (y & Hy & Hcl) Hp Hm Hqm Hqc Hqw Hl Hw] Hx Hcl' Hmk Hq1 Hq2 Hlast Hblk. pose proof (lookup_lt_Some _ _ _ Hx). assert (y = x) as -> by congruence.
  set (s' := mkRC _ _ _ _). assert (Hput : quiet s -> quiet s') by (intros Hq; apply (quiet_put s _ c x'); [done|done|]; intros E; by rewrite E in Hcl').
  assert (Hself : forall z, threads s' !! c = Some z -> z = x') by (intros z Hz; cbn in Hz; rewrite list_lookup_insert_eq in Hz by done; by injection Hz).
  assert (Hsame : forall j z, j <> c -> threads s' !! j = Some z <-> threads s !! j = Some z) by (intros j z Hj; cbn; by rewrite list_lookup_insert_ne).
  assert (E0 : forall p : PC, closer_pc p = true -> inflight (mkT p false) = 0) by (intros p; by destruct p).
  assert (Ecnt : cnt (threads s') = cnt (threads s)).
  { cbn. rewrite (cnt_insert _ _ _ _ Hx). pose proof (E0 _ Hcl). pose proof (E0 _ Hcl'). unfold inflight in *. cbn [pc] in *. lia. }
  constructor.
  - rewrite Ecnt. exact Hc.
  - cbn. by rewrite length_insert.
  - exists x'. split; [by apply list_lookup_insert_eq|done].
  - intros j z Hj Hz. apply (Hp j); [done|by apply Hsame].
  - cbn. destruct Hmk as [-> | ->]; auto.
  - cbn. auto.
  - intros z Hz Hd. rewrite (Hself z Hz) in Hd. auto.
  - intros j z Hj Hd. apply Hput. destruct (decide (j = c)) as [->|Hne]; [|eapply Hqw; [by apply Hsame|done]].
    rewrite (Hself z Hj) in Hd. destruct Hd as [E|E]; by rewrite E in Hcl'.
  - intros z Hz Hd Hmk'. rewrite (Hself z Hz) in Hd. destruct (Hlast Hd) as [E Hd']. cbn in Hmk'. rewrite E in Hmk'. rewrite Ecnt.
    destruct (Hl x Hx Hd' Hmk') as [?|(j & w & Hj & Ew)]; [by left|]. right. exists j, w. split; [|done]. apply Hsame; [|done]. intros ->.
    assert (w = x) as -> by congruence. by rewrite Ew in Hcl.
  - intros z Hz Hd Hmk'. rewrite (Hself z Hz) in Hd. by destruct (Hblk Hd).
Qed.

(** The closer's own steps. *)
Lemma closer_step c s x o s' : inv_closed c s -> threads s !! c = Some x -> allowed c c o = true -> step s c o = Some s' -> inv_closed c s'.
Proof.
  intros H Hx Hal Hst. unfold step in Hst. rewrite Hx in Hst. cbn [mbind option_bind] in Hst. pose proof H as [_ _ (y & Hy & Hcl) _ Hm Hqm Hqc _ _ _].
  assert (y = x) as -> by congruence. destruct x as [p tok]. cbn [pc] in Hst, Hcl.
  destruct p as [| | | | | | | | | | | | | | | | |[]|[]|[]|[]| |]; try discriminate Hcl; (destruct o as [| | |[]| |]; try discriminate Hst; try discriminate Hal); cbn in Hst.
  - injection Hst as <-. apply (closed_self c s (mkT (PSh5 Plain) tok) (mkT (PDone Plain) tok) None); try done; [by left|..]; intros; try naive_solver; eapply Hqc; eauto.
  - injection Hst as <-. destruct Hm as [Hm|Hm]; rewrite Hm.
    + apply (closed_self c s (mkT (PShWait Plain) tok) (mkT (PDone Plain) tok) (shutdownThread s)); try done; [by right|intros; by apply Hqm|naive_solver].
    + apply (closed_self c s (mkT (PShWait Plain) tok) (mkT (PShBlock Plain) tok) (shutdownThread s)); try done; [by right|naive_solver|intros; split; [done|by left]|by rewrite Hm].
  - destruct tok; [|done]. injection Hst as <-.
    apply (closed_self c s (mkT (PShBlock Plain) true) (mkT (PShWait Plain) false) (shutdownThread s)); try done; [by right|naive_solver|intros; split; [done|by right]].
Qed.

Lemma closed_step c s i o s' : inv_closed c s -> allowed c i o = true -> step s i o = Some s' -> inv_closed c s'.
Proof.
  intros H Hal Hst. destruct (threads s !! i) as [x|] eqn:Hx; [|by unfold step in Hst; rewrite Hx in Hst].
  destruct (decide (i = c)) as [->|Hne]; [by eapply closer_step|]. unfold step in Hst. rewrite Hx in Hst. cbn [mbind option_bind] in Hst.
  pose proof (cl_pcs _ _ H i x Hne Hx) as Hp. pose proof (cl_count _ _ H) as Hc. pose proof (cl_small _ _ H) as Hs. pose proof (cnt_range (threads s)) as Hcr.
  pose proof HALF_val as HV. destruct x as [p tok]. cbn [pc] in *. pose proof (cnt_ge _ _ _ Hx) as Hge.
  assert (Hlv : inflight (mkT p tok) = 1 -> p = PInside \/ p = PFail false -> inv_closed c (leave s i (mkT p tok) false)).
  { intros Hin Hpp. rewrite Hin in Hge. unfold leave. rewrite (proj2 (Z.ltb_ge _ _)) by lia. cbn [after].
    eapply (closed_put c s _ i (mkT p tok)); [done|done|done|cbn; reflexivity|done|..]; cbn [goto add_requests set_requests requests threads pc]; rewrite ?(cnt_insert _ _ _ _ Hx), ?Hin.
    - rewrite swrap_small by lia. destruct (_ =? _); cbn; lia.
    - tauto.
    - destruct (_ =? _); auto.
    - destruct (Z.eqb_spec (requests s) (- HALF + 1)); cbn; [by left|]. lia.
    - destruct (Z.eqb_spec (requests s) (- HALF + 1)); cbn; [lia|]. naive_solver. }
  destruct p as [| |[]|[]|[] id| | | | | | | | | | | | | | | | | |]; try discriminate Hp; (destruct o as [| | |[]| |]; try discriminate Hst; try discriminate Hal); cbn in Hst.
  - injection Hst as <-. unfold enter. rewrite (proj2 (Z.ltb_lt _ _)) by lia.
    eapply (closed_put c s _ i (mkT PIdle tok)); [done|done|done|cbn; reflexivity|done|..]; cbn [goto add_requests set_requests requests threads pc]; rewrite ?(cnt_insert _ _ _ _ Hx); cbn.
    + rewrite swrap_small by lia. lia.
    + auto.
    + auto.
    + lia.
    + done.
  - apply bool_decide_eq_true in Hal. done.
  - injection Hst as <-. apply Hlv; [done|by left].
  - injection Hst as <-. apply Hlv; [done|by right].
  - injection Hst as <-. by apply (closed_swap c s i (mkT (PSwap false) tok)).
  - apply bool_decide_eq_true in Hp as ->. injection Hst as <-. by apply (closed_unblock c s i (mkT (PUnblock false c) tok)).
Qed.

Lemma reachable_inv n c s : Z.of_nat n < HALF -> reachable n c s -> inv_open c s \/ inv_closed c s.
Proof.
  intros Hn. induction 1 as [|s i o s' _ IH Hal Hst].
  - left. assert (Hz : cnt (replicate n (mkT PIdle false)) = 0) by (apply (sum_with_none inflight); intros j x Hx; by apply lookup_replicate in Hx as [-> _]).
    constructor; cbn; [done|by rewrite length_replicate|..].
    + intros j x Hx. apply lookup_replicate in Hx as [-> _]. done.
    + intros x Hx. apply lookup_replicate in Hx as [-> _]. done.
  - destruct IH as [IH|IH]; [by eapply open_step|right; by eapply closed_step].
Qed.

(** No request is in progress when every other thread is idle. *)
Lemma cnt_idle l c y :
  l !! c = Some y -> inflight y = 0 -> (forall j x, l !! j = Some x -> j <> c -> pc x = PIdle) -> cnt l = 0.
Proof.
  intros Hy H0 Hidle. apply (sum_with_none inflight). intros j x Hx. destruct (decide (j = c)) as [->|Hj]; [congruence|].
  unfold inflight. by rewrite (Hidle j x Hx Hj).
Qed.

(** C20: with one thread that shuts down, among any number of threads below
    LONG_MAX/2 and in every interleaving: once shutdown has returned 0 no request
    is in progress and the count is negative, so none enters later; and when no
    request is in progress and no thread is in the middle of enter or leave, a
    shutdown that waits is not lost: its mark is cleared and, if it blocked, its
    wake-up is pending. *)
Theorem shutdown_correct n c s :
  Z.of_nat n < HALF -> reachable n c s ->
  (at_pc s c (PDone Plain) -> requests s < 0 /\ quiet s) /\
  (at_pc s c (PShWait Plain) \/ at_pc s c (PShBlock Plain) -> (forall j x, threads s !! j = Some x -> j <> c -> pc x = PIdle) ->
    shutdownThread s = None /\ forall x, threads s !! c = Some x -> pc x = PShBlock Plain -> token x = true).
Proof.
  intros Hn Hr. destruct (reachable_inv n c s Hn Hr) as [[Hc Hs Hp Hm]|[Hc Hs (y & Hy & Hcl) Hp Hm Hqm Hqc Hqw Hl Hw]].
  - unfold at_pc. destruct (threads s !! c) as [x|] eqn:Hx; [|split; [done|intros [?|?]; done]]. specialize (Hp c x Hx).
    split; [intros [= E]|intros [[= E]|[= E]]]; by rewrite E in Hp.
  - unfold at_pc. rewrite Hy. pose proof (cnt_range (threads s)). split.
    + intros [= E]. split; [lia|]. eapply Hqc; [done|by right].
    + intros Hw' Hidle. assert (Hwt : pc y = PShWait Plain \/ pc y = PShBlock Plain) by (destruct Hw' as [[= E]|[= E]]; auto).
      assert (Hno : forall j z, threads s !! j = Some z -> pc z = PSwap false \/ pc z = PUnblock false c -> False).
      { intros j z Hz Hd. destruct (decide (j = c)) as [->|Hj]; [assert (z = y) as -> by congruence; destruct Hwt as [E|E]; rewrite E in Hd; naive_solver|].
        rewrite (Hidle j z Hz Hj) in Hd. naive_solver. }
      assert (Hz : cnt (threads s) = 0) by (apply (cnt_idle _ c y); [done|unfold inflight; destruct Hwt as [E|E]; by rewrite E|done]).
      destruct Hm as [Hm|Hm].
      * split; [done|]. intros x Hx E. assert (x = y) as -> by congruence. destruct (Hw y Hy E Hm) as [?|(j & z & Hz' & Ez)]; [done|]. destruct (Hno j z Hz'). by right.
      * destruct (Hl y Hy Hwt Hm) as [?|(j & z & Hz' & Ez)]; [lia|]. destruct (Hno j z Hz'). by left.
Qed.

Lemma run_reachable n c l s s' :
  reachable n c s -> forallb (fun x => allowed c x.1 x.2) l = true -> run s l = Some s' -> reachable n c s'.
Proof.
  revert s. induction l as [|[i o] l IH]; intros s Hr Hal Hrun; cbn [run forallb] in *; [by injection Hrun as <-|].
  apply andb_true_iff in Hal as [Ha Hal]. destruct (step s i o) as [s1|] eqn:E; [|done]. cbn [mbind option_bind] in Hrun.
  eapply IH; [by eapply reach_step|done|done].
Qed.

(** A request is in progress, shutdown blocks, the request leaves and wakes it. *)
Definition one_request : list (nat * cmd) :=
  (1%nat, Enter) :: (0%nat, Shutdown Plain) :: go 0 5 ++ (1%nat, Leave) :: go 1 2.

Lemma shutdown_correct_witness :
  (exists s, run (init 2) one_request = Some s /\ at_pc s 0 (PShBlock Plain) /\ shutdownThread s = None) /\
  (exists s, run (init 2) (one_request ++ go 0 2) = Some s /\ requests s < 0 /\ quiet s).
Proof.
  split; eexists; (split; [vm_compute; reflexivity|]).
  - split; [by vm_compute|]. eapply (shutdown_correct 2 0).
    + reflexivity.
    + apply (run_reachable 2 0 one_request (init 2)); [constructor|reflexivity|reflexivity].
    + right. by vm_compute.
    + intros [|[|j]] x Hx Hj; try done. by injection Hx as <-.
  - eapply (shutdown_correct 2 0).
    + reflexivity.
    + apply (run_reachable 2 0 (one_request ++ go 0 2) (init 2)); [constructor|reflexivity|reflexivity].
    + by vm_compute.
Defined.

End RequestCount.
