(* ===== verification/IPCTargetTable.v ===== *)
(** * IPCTargetTable: from a CommID to the process annex, os/kernel/exception/IPCTargetTable.C

    The kernel finds the target of an inter-process call in a hash table whose
    chains run through the process annexes.  A target may be a wild-carded
    CommID, which names any virtual processor of a process; wild and exact
    lookups share one table, since the hash ignores the processor number. *)

From stdpp Require Import base numbers option gmap list.
From S2P Require Import K42 Prelude.

Module IPCTargetTable.

(** ** CommIDs, lib/libc/sys/sysTypes.H and its 64-bit layout *)

Definition COMMID_PID_SHIFT : Z := 32.
Definition COMMID_RD_SHIFT : Z := 16.
Definition COMMID_VP_SHIFT : Z := 0.
Definition PID_MASK : Z := 2 ^ 32 - 1.
Definition RD_MASK : Z := 2 ^ 16 - 1.
Definition VP_MASK : Z := 2 ^ 16 - 1.

Definition DSPID (rd vp : Z) : Z := Z.lor (ushl rd 16) (ushl vp 0).
Definition COMMID (pid dspid : Z) : Z := Z.lor (ushl pid COMMID_PID_SHIFT) (ushl dspid 0).
Definition WILD_COMMID (commid : Z) : Z := Z.lor commid (ushl VP_MASK COMMID_VP_SHIFT).
Definition PID_FROM_COMMID (commid : Z) : Z := Z.land (Z.shiftr commid COMMID_PID_SHIFT) PID_MASK.
Definition RD_FROM_COMMID (commid : Z) : Z := Z.land (Z.shiftr commid COMMID_RD_SHIFT) RD_MASK.
Definition VP_FROM_COMMID (commid : Z) : Z := Z.land (Z.shiftr commid COMMID_VP_SHIFT) VP_MASK.

(** ** The table *)

(** The fields of ProcessAnnex the table uses. *)
Record ProcessAnnex := mkPA { ipcTargetNext : Z; commID : Z }.

#[export] Instance annex_linked : Linked ProcessAnnex Z := {|
  next := ipcTargetNext;
  set_next := fun p n => mkPA p (commID n);
  payload := commID;
  next_set_next := fun _ _ => eq_refl;
  payload_set_next := fun _ _ => eq_refl;
|}.

Record t := mkTable { _tableSize : Z; _tableIndexMask : Z; _tableOffsetMask : Z; _table : list Z }.

Abbreviation memory := (gmap Z ProcessAnnex) (only parsing).

Definition RD_HASH_OFFSET : Z := 4.
Definition INITIAL_TABLE_SIZE : Z := ushl 1 (RD_HASH_OFFSET + 1).

Definition init : t :=
  let size := INITIAL_TABLE_SIZE in
  let mask := usub size 1 in
  mkTable size mask (umul mask 8) (replicate (Z.to_nat size) NULL).

Definition hash (commID : Z) : Z :=
  Z.lxor (PID_FROM_COMMID commID) (ushl (RD_FROM_COMMID commID) RD_HASH_OFFSET).

Definition index (s : t) (c : Z) : nat := Z.to_nat (Z.land (hash c) (_tableIndexMask s)).

Definition set_slot (s : t) (i : nat) (p : Z) : t :=
  mkTable (_tableSize s) (_tableIndexMask s) (_tableOffsetMask s) (<[i := p]> (_table s)).

Definition enter (h : memory) (s : t) (pa : Z) : option (memory * t) :=
  n ← h !! pa;
  let i := index s (commID n) in
  first ← _table s !! i;
  Some (<[pa := set_next first n]> h, set_slot s i pa).

Definition remove (h : memory) (s : t) (pa : Z) : option (memory * t) :=
  n ← h !! pa;
  let i := index s (commID n) in
  first ← _table s !! i;
  '(last_pa, cur_pa) ← walk (fun a _ => a =? pa) (S (size h)) h NULL first;
  _ ← assertK (negb (cur_pa =? NULL));
  if negb (last_pa =? NULL) then
    l ← h !! last_pa;
    Some (<[last_pa := set_next (ipcTargetNext n) l]> h, s)
  else Some (h, set_slot s i (ipcTargetNext n)).

Definition lookupWild (h : memory) (s : t) (c : Z) : option Z :=
  _ ← assertK (WILD_COMMID c =? c);
  first ← _table s !! index s c;
  '(_, pa) ← walk (fun _ n => c =? WILD_COMMID (commID n)) (S (size h)) h NULL first;
  Some pa.

Definition lookupExact (h : memory) (s : t) (c : Z) : option Z :=
  _ ← assertK (negb (WILD_COMMID c =? c));
  first ← _table s !! index s c;
  '(_, pa) ← walk (fun _ n => c =? commID n) (S (size h)) h NULL first;
  Some pa.

#[global] Arguments hash : simpl never.
#[global] Arguments index : simpl never.

(** ** Hashing *)

(** The wild card covers the bits of the processor number only, so a CommID
    and its wild card fall in the same chain. *)
Lemma hash_wild c : hash (WILD_COMMID c) = hash c.
Proof.
  assert (Hs : forall k, 16 <= k -> Z.shiftr (WILD_COMMID c) k = Z.shiftr c k).
  { intros k Hk. unfold WILD_COMMID. rewrite Z.shiftr_lor.
    replace (Z.shiftr (ushl VP_MASK COMMID_VP_SHIFT) k) with 0; [apply Z.lor_0_r|].
    change (ushl VP_MASK COMMID_VP_SHIFT) with (Z.ones 16). symmetry. apply Z.shiftr_eq_0; [done|].
    change (Z.log2 (Z.ones 16)) with 15. lia. }
  unfold hash, PID_FROM_COMMID, RD_FROM_COMMID. by rewrite !Hs.
Qed.

Lemma index_wild s c : index s (WILD_COMMID c) = index s c.
Proof. unfold index. by rewrite hash_wild. Qed.

Lemma index_init c : (index init c < 32)%nat.
Proof.
  unfold index. change (_tableIndexMask init) with 31. pose proof (land_le_mask (hash c) 31). lia.
Qed.

(** ** Representation *)

Definition in_slot (s : t) (i : nat) (x : Z * Z) : Prop := index s x.2 = i.

#[export] Instance in_slot_dec s i x : Decision (in_slot s i x).
Proof. unfold in_slot. apply _. Defined.

(** [L] lists the annexes entered and their CommIDs, the latest first; the
    chain of slot [i] holds those of [L] that hash there, in the same order. *)
Record rep (h : memory) (s : t) (L : list (Z * Z)) : Prop := {
  rep_mask : _tableIndexMask s = 31;
  rep_length : length (_table s) = 32%nat;
  rep_nodup : NoDup L.*1;
  rep_chain : forall i p, _table s !! i = Some p -> chain h p (filter (in_slot s i) L) NULL;
}.

Lemma rep_init h : rep h init [].
Proof.
  constructor; [done|done|constructor|]. intros i p Hp. change (_table init) with (replicate 32 NULL) in Hp. apply lookup_replicate in Hp as [-> _]. done.
Qed.

Lemma rep_slot h s L c : rep h s L ->
  exists p, _table s !! index s c = Some p /\ chain h p (filter (in_slot s (index s c)) L) NULL.
Proof.
  intros Hr. destruct (lookup_lt_is_Some_2 (_table s) (index s c)) as [p Hp].
  - rewrite (rep_length _ _ _ Hr). unfold index. rewrite (rep_mask _ _ _ Hr).
    pose proof (land_le_mask (hash c) 31). lia.
  - exists p. split; [done|]. by apply (rep_chain _ _ _ Hr).
Qed.

Lemma in_slot_set s i p j x : in_slot (set_slot s i p) j x <-> in_slot s j x.
Proof. done. Qed.

Lemma rep_elem h s L a c : rep h s L -> (a, c) ∈ L -> a <> NULL /\ exists n, h !! a = Some n /\ commID n = c.
Proof.
  intros Hr Hin. destruct (rep_slot _ _ _ c Hr) as (p & _ & Hc).
  apply (chain_elem _ _ _ _ a c Hc). apply list_elem_of_filter. done.
Qed.

Lemma elem_slot (L : list (Z * Z)) s i a : a ∈ (filter (in_slot s i) L).*1 -> exists c, (a, c) ∈ L /\ index s c = i.
Proof.
  intros Hin. apply list_elem_of_fmap in Hin as ([b c] & -> & Hin). apply list_elem_of_filter in Hin as [? ?].
  by exists c.
Qed.

Lemma nodup_payload (L : list (Z * Z)) a c d : NoDup L.*1 -> (a, c) ∈ L -> (a, d) ∈ L -> c = d.
Proof.
  induction L as [|[b e] L IH]; simpl; intros Hnd Hc Hd; [by apply not_elem_of_nil in Hc|].
  apply NoDup_cons in Hnd as [Hb Hnd]. rewrite elem_of_cons in Hc, Hd.
  assert (Hx : forall c', (b, c') ∉ L) by (intros c' Hin; apply Hb; apply list_elem_of_fmap; by exists (b, c')).
  destruct Hc as [Hc|Hc], Hd as [Hd|Hd]; simplify_eq; [done|by destruct (Hx d)|by destruct (Hx c)|by apply IH].
Qed.

Lemma enter_rep h s L pa n :
  rep h s L -> h !! pa = Some n -> pa <> NULL -> pa ∉ L.*1 ->
  exists h' s', enter h s pa = Some (h', s') /\ rep h' s' ((pa, commID n) :: L) /\
    (forall a, commID <$> h' !! a = commID <$> h !! a).
Proof.
  intros Hr Hn Hpa Hnin. destruct (rep_slot _ _ _ (commID n) Hr) as (p & Hp & Hc).
  unfold enter. rewrite Hn. cbn [mbind option_bind]. rewrite Hp. cbn [mbind option_bind].
  eexists _, _. split; [done|]. assert (Hnf : forall j, pa ∉ (filter (in_slot s j) L).*1).
  { intros j Hin. apply elem_slot in Hin as (c & Hin & _). apply Hnin. apply list_elem_of_fmap. by exists (pa, c). }
  split; [|intros a; destruct (decide (a = pa)) as [->|];
    [rewrite lookup_insert_eq, Hn; done|by rewrite lookup_insert_ne]].
  destruct Hr as [Hm Hl Hnd Hch]. constructor; cbn [_tableIndexMask _table set_slot]; [done|by rewrite length_insert|by constructor|].
  intros j q Hq. change (chain (<[pa:=set_next p n]> h) q (filter (in_slot s j) ((pa, commID n) :: L)) NULL).
  apply list_lookup_insert_Some in Hq as [(<- & <- & _)|(Hne & Hq)].
  - rewrite filter_cons_True by done. cbn [chain]. split_and!; [done..|]. exists (set_next p n).
    rewrite lookup_insert_eq, next_set_next, payload_set_next. split_and!; [done..|].
    by apply chain_insert_ne.
  - rewrite filter_cons_False by (unfold in_slot; simpl; congruence). apply chain_insert_ne; [done|by apply Hch].
Qed.

(** Unlinking [pa] from its chain. *)
Lemma remove_annex_rep h s A pa c B :
  rep h s (A ++ (pa, c) :: B) ->
  exists h' s', remove h s pa = Some (h', s') /\ rep h' s' (A ++ B) /\
    (forall a, commID <$> h' !! a = commID <$> h !! a).
Proof.
  intros Hr. destruct (rep_elem _ _ _ pa c Hr) as (Hpa & n & Hn & Hcn); [apply elem_of_app; right; by left|].
  destruct (rep_slot _ _ _ c Hr) as (p & Hp & Hc). pose proof (rep_nodup _ _ _ Hr) as Hnd.
  pose proof (chain_length _ _ _ Hc) as Hlen. set (i := index s c) in *.
  assert (Hf : filter (in_slot s i) (A ++ (pa, c) :: B) = filter (in_slot s i) A ++ (pa, c) :: filter (in_slot s i) B).
  { by rewrite filter_app, filter_cons_True. }
  rewrite Hf in Hc, Hlen. set (fA := filter (in_slot s i) A) in *. set (fB := filter (in_slot s i) B) in *.
  assert (HA : (pa ∉ A.*1) /\ (pa ∉ B.*1) /\ NoDup (A ++ B).*1).
  { rewrite fmap_app in *. cbn [fmap list_fmap fst] in Hnd. rewrite NoDup_app, NoDup_cons in Hnd.
    destruct Hnd as (H1 & H2 & H3 & H4). split; [intros Hin; apply (H2 pa Hin); by left|]. split; [done|].
    apply NoDup_app. split; [done|]. split; [|done]. intros a Ha Hb. apply (H2 a Ha). by right. }
  destruct HA as (HA & HB & HndAB).
  assert (Hspan : span_until (fun x => x.1 =? pa) (fA ++ (pa, c) :: fB) = (fA, (pa, c) :: fB)).
  { apply span_until_intro; [|simpl; by apply Z.eqb_refl]. apply Forall_forall. intros [b e] Hin. simpl.
    apply Z.eqb_neq. intros ->. apply HA. apply list_elem_of_fmap. exists (pa, e).
    split; [done|]. by apply list_elem_of_filter in Hin as [_ ?]. }
  pose proof (walk_spec (fun a _ => a =? pa) (fun x => x.1 =? pa) h _ NULL p (S (size h))
    (fun _ _ _ => eq_refl) Hc ltac:(lia)) as Hw. rewrite Hspan in Hw.
  unfold remove. rewrite Hn. cbn [mbind option_bind]. rewrite Hcn. fold i. rewrite Hp. cbn [mbind option_bind].
  rewrite Hw. cbn [head fmap option_fmap option_map default fst from_option id mbind option_bind].
  rewrite (proj2 (Z.eqb_neq pa NULL) Hpa). cbn [negb assertK].
  destruct Hr as [Hm Hl _ Hch].
  assert (Hother : forall j, j <> i -> filter (in_slot s j) (A ++ (pa, c) :: B) = filter (in_slot s j) (A ++ B)).
  { intros j Hj. rewrite !filter_app. rewrite filter_cons_False; [done|]. unfold in_slot. cbn [snd]. fold i. congruence. }
  assert (Hsame : filter (in_slot s i) (A ++ B) = fA ++ fB) by apply filter_app.
  destruct fA as [|[b e] fA' _] eqn:EfA using rev_ind.
  - cbn [last_addr last fmap option_fmap option_map default from_option]. eexists _, _. split; [reflexivity|].
    split; [|done]. constructor; cbn [_tableIndexMask _table set_slot]; [done|by rewrite length_insert|done|]. intros j q Hq.
    change (chain h q (filter (in_slot s j) (A ++ B)) NULL).
    apply list_lookup_insert_Some in Hq as [(<- & <- & _)|(Hne & Hq)].
    + rewrite Hsame. destruct Hc as (_ & _ & n' & Hn' & _ & Hc). by simplify_eq.
    + rewrite <- Hother by done. by apply Hch.
  - rewrite last_addr_snoc. rewrite <- app_assoc in Hc. cbn [app] in Hc.
    destruct (chain_elem _ _ _ _ b e Hc) as (Hb & nb & Hnb & _); [apply elem_of_app; right; by left|].
    rewrite (proj2 (Z.eqb_neq b NULL) Hb). cbn [negb]. rewrite Hnb. cbn [mbind option_bind].
    eexists _, _. split; [reflexivity|]. split.
    + constructor; [done|done|done|]. intros j q Hq. destruct (decide (j = i)) as [->|Hj].
      * assert (q = p) as -> by congruence. rewrite Hsame, <- app_assoc. cbn [app].
        exact (chain_bypass h p fA' b e pa c fB nb n Hc Hnb Hn).
      * rewrite <- Hother by done. apply chain_insert_ne; [|by apply Hch]. intros Hin.
        apply elem_slot in Hin as (d & Hin & <-). apply Hj.
        assert (Hbe : (b, e) ∈ A /\ index s e = i).
        { assert (Hin' : (b, e) ∈ filter (in_slot s i) A) by (change (filter (in_slot s i) A) with fA; rewrite EfA; apply elem_of_app; right; by left).
          by apply list_elem_of_filter in Hin' as [? ?]. }
        destruct Hbe as [Hbe Hei]. rewrite <- Hei. apply (f_equal (index s)).
        apply (nodup_payload (A ++ (pa, c) :: B) b); [done|done|]. apply elem_of_app. by left.
    + intros a. destruct (decide (a = b)) as [->|]; [rewrite lookup_insert_eq, Hnb; done|by rewrite lookup_insert_ne].
Qed.

(** ** Lookups *)

Lemma find_first_filter {A} (P : A -> bool) (Q : A -> Prop) {HQd : forall x, Decision (Q x)} (l : list A) :
  (forall x, x ∈ l -> P x = true -> Q x) -> find_first P (filter Q l) = find_first P l.
Proof.
  induction l as [|x l IH]; intros H; [done|]. rewrite find_first_cons.
  assert (H' : forall y, y ∈ l -> P y = true -> Q y) by (intros y Hy; apply H; by right).
  destruct (decide (Q x)) as [HQ|HQ].
  - rewrite filter_cons_True by done. rewrite find_first_cons. destruct (P x); [done|by apply IH].
  - rewrite filter_cons_False by done. destruct (P x) eqn:E; [|by apply IH].
    destruct HQ. apply H; [by left|done].
Qed.

(** The walk along the chain of a CommID finds the first of all the annexes
    that match, when matching annexes hash to that chain. *)
Lemma walk_lookup h s L c p stop P :
  rep h s L -> _table s !! index s c = Some p ->
  (forall a n, h !! a = Some n -> stop a n = P (a, commID n)) ->
  (forall x, x ∈ L -> P x = true -> index s x.2 = index s c) ->
  exists prev, walk stop (S (size h)) h NULL p = Some (prev, default NULL (fst <$> find_first P L)).
Proof.
  intros Hr Hp Hs HP. pose proof (rep_chain _ _ _ Hr _ _ Hp) as Hc. pose proof (chain_length _ _ _ Hc) as Hlen.
  pose proof (walk_spec stop P h _ NULL p (S (size h)) Hs Hc ltac:(lia)) as Hw.
  rewrite <- (find_first_filter P (in_slot s (index s c)) L HP). unfold find_first.
  destruct (span_until P (filter (in_slot s (index s c)) L)) as [l1 l2]. eauto.
Qed.

Definition exact_match (c : Z) (x : Z * Z) : bool := c =? x.2.
Definition wild_match (c : Z) (x : Z * Z) : bool := c =? WILD_COMMID x.2.

Lemma lookupExact_rep h s L c :
  rep h s L -> WILD_COMMID c <> c ->
  lookupExact h s c = Some (default NULL (fst <$> find_first (exact_match c) L)).
Proof.
  intros Hr Hc. destruct (rep_slot _ _ _ c Hr) as (p & Hp & _). unfold lookupExact.
  rewrite (proj2 (Z.eqb_neq _ _) Hc). cbn [negb assertK mbind option_bind]. rewrite Hp. cbn [mbind option_bind].
  edestruct (walk_lookup h s L c p (fun _ n => c =? commID n) (exact_match c)) as [prev Hw]; [done..| |by rewrite Hw].
  intros x _ Hx. unfold exact_match in Hx. bool_props. by subst.
Qed.

Lemma lookupWild_rep h s L c :
  rep h s L -> WILD_COMMID c = c ->
  lookupWild h s c = Some (default NULL (fst <$> find_first (wild_match c) L)).
Proof.
  intros Hr Hc. destruct (rep_slot _ _ _ c Hr) as (p & Hp & _). unfold lookupWild.
  rewrite (proj2 (Z.eqb_eq _ _) Hc). cbn [negb assertK mbind option_bind]. rewrite Hp. cbn [mbind option_bind].
  edestruct (walk_lookup h s L c p (fun _ n => c =? WILD_COMMID (commID n)) (wild_match c)) as [prev Hw];
    [done..| |by rewrite Hw].
  intros x _ Hx. unfold wild_match in Hx. bool_props. subst c. symmetry. apply index_wild.
Qed.

(** ** Refinement *)

Inductive op := Enter (pa : Z) | Remove (pa : Z) | Wild (c : Z) | Exact (c : Z).

Definition exec (hs : memory * t) (o : op) : option (Z * (memory * t)) :=
  match o with
  | Enter pa => hs' ← enter hs.1 hs.2 pa; Some (0, hs')
  | Remove pa => hs' ← remove hs.1 hs.2 pa; Some (0, hs')
  | Wild c => r ← lookupWild hs.1 hs.2 c; Some (r, hs)
  | Exact c => r ← lookupExact hs.1 hs.2 c; Some (r, hs)
  end.

Fixpoint run (hs : memory * t) (ops : list op) : option (list Z) :=
  match ops with
  | [] => Some []
  | o :: ops => '(r, hs') ← exec hs o; rs ← run hs' ops; Some (r :: rs)
  end.

(** The specification: a list of annexes, the latest first. *)
Definition spec (ids : Z -> option Z) (L : list (Z * Z)) (o : op) : Z * list (Z * Z) :=
  match o with
  | Enter pa => (0, (pa, default 0 (ids pa)) :: L)
  | Remove pa => (0, remove_first (fun x => x.1 =? pa) L)
  | Wild c => (default NULL (fst <$> find_first (wild_match c) L), L)
  | Exact c => (default NULL (fst <$> find_first (exact_match c) L), L)
  end.

(** What the callers guarantee: an annex is entered once and removed when it is
    there, a wild lookup has a wild-carded target and an exact one has not. *)
Definition allowed (ids : Z -> option Z) (L : list (Z * Z)) (o : op) : bool :=
  match o with
  | Enter pa => negb (pa =? NULL) && bool_decide (is_Some (ids pa)) && bool_decide (pa ∉ L.*1)
  | Remove pa => bool_decide (pa ∈ L.*1)
  | Wild c => WILD_COMMID c =? c
  | Exact c => negb (WILD_COMMID c =? c)
  end.

Fixpoint spec_run (ids : Z -> option Z) (L : list (Z * Z)) (ops : list op) : option (list Z) :=
  match ops with
  | [] => Some []
  | o :: ops =>
      if allowed ids L o then let '(r, L') := spec ids L o in rs ← spec_run ids L' ops; Some (r :: rs) else None
  end.

Lemma remove_first_split (L : list (Z * Z)) pa :
  pa ∈ L.*1 -> exists A c B, L = A ++ (pa, c) :: B /\ remove_first (fun x => x.1 =? pa) L = A ++ B.
Proof.
  induction L as [|[a d] L IH]; cbn [fmap list_fmap fst]; intros Hin; [by apply not_elem_of_nil in Hin|].
  rewrite remove_first_cons. cbn [fst]. destruct (Z.eqb_spec a pa) as [->|Hne].
  - by exists [], d, L.
  - apply elem_of_cons in Hin as [->|Hin]; [done|]. destruct (IH Hin) as (A & c & B & -> & ->).
    by exists ((a, d) :: A), c, B.
Qed.

Lemma exec_rep ids h s L o :
  rep h s L -> (forall a, commID <$> h !! a = ids a) -> allowed ids L o = true ->
  exists h' s', exec (h, s) o = Some ((spec ids L o).1, (h', s')) /\ rep h' s' (spec ids L o).2 /\
    (forall a, commID <$> h' !! a = ids a).
Proof.
  intros Hr Hids Ha. destruct o as [pa|pa|c|c]; cbn [allowed spec exec fst snd] in *.
  - bool_props. apply bool_decide_eq_true in H0, H1. destruct H1 as [c Hc]. rewrite Hc.
    pose proof (Hids pa) as Hpa. rewrite Hc in Hpa. apply fmap_Some in Hpa as (n & Hn & ->).
    destruct (enter_rep h s L pa n) as (h' & s' & -> & Hr' & Hk); [done..|].
    exists h', s'. split; [done|]. split; [done|]. intros a. by rewrite Hk.
  - apply bool_decide_eq_true in Ha. destruct (remove_first_split _ _ Ha) as (A & c & B & -> & ->).
    destruct (remove_annex_rep h s A pa c B Hr) as (h' & s' & -> & Hr' & Hk).
    exists h', s'. split; [done|]. split; [done|]. intros a. by rewrite Hk.
  - exists h, s. bool_props. by rewrite (lookupWild_rep h s L c Hr Ha).
  - exists h, s. bool_props. by rewrite (lookupExact_rep h s L c Hr Ha).
Qed.

Lemma run_refines ids h s L ops rs :
  rep h s L -> (forall a, commID <$> h !! a = ids a) -> spec_run ids L ops = Some rs -> run (h, s) ops = Some rs.
Proof.
  revert h s L rs. induction ops as [|o ops IH]; intros h s L rs Hr Hids Hs; [done|]. cbn [spec_run run] in *.
  destruct (allowed ids L o) eqn:Ha; [|done]. destruct (exec_rep ids h s L o Hr Hids Ha) as (h' & s' & He & Hr' & Hk).
  destruct (spec ids L o) as [r L']. destruct (spec_run ids L' ops) as [rs'|] eqn:E; [|done]. simplify_eq/=.
  rewrite He. cbn [mbind option_bind]. by rewrite (IH h' s' L' rs' Hr' Hk E).
Qed.

(** C40: from the empty table, any sequence of calls the callers may make returns
    without a fault and gives the answers of a list of the annexes entered and
    not removed, the latest first: an exact lookup finds the latest annex with
    that CommID, a wild lookup the latest annex of any processor of that process
    and resource domain, and null when there is none.  Collisions of the hash
    are invisible and no annex is lost when another of its chain is removed. *)
Theorem ipc_table_refines (h : gmap Z ProcessAnnex) (ops : list op) (rs : list Z) :
  spec_run (fun a => commID <$> h !! a) [] ops = Some rs -> run (h, init) ops = Some rs.
Proof. apply run_refines; [apply rep_init|done]. Qed.

(** Two processors of process 5 and one of process 37, all in one chain. *)
Lemma ipc_table_refines_witness :
  let h := {[ 100 := mkPA 0 (COMMID 5 (DSPID 0 1)); 200 := mkPA 0 (COMMID 37 (DSPID 0 1));
              300 := mkPA 0 (COMMID 5 (DSPID 0 2)) ]} : gmap Z ProcessAnnex in
  let ops := [Enter 100; Enter 200; Enter 300; Wild (COMMID 5 (DSPID 0 VP_MASK));
              Exact (COMMID 5 (DSPID 0 1)); Remove 200; Exact (COMMID 37 (DSPID 0 1));
              Remove 300; Wild (COMMID 5 (DSPID 0 VP_MASK))] in
  run (h, init) ops = Some [0; 0; 0; 300; 100; 0; 0; 0; 100].
Proof. intros h ops. apply (ipc_table_refines h ops). vm_compute. reflexivity. Defined.

End IPCTargetTable.
