(* ===== verification/PageDesc.v ===== *)
(** * PageDesc: page descriptors and the list of candidates for eviction

    os/kernel/mem/PageDesc.H and the free list that PageList.C and PageSet.C
    keep, with the same code, through the descriptors of a cache: a doubly linked
    list of the pages that may be evicted.  PageList.v and PageSet.v use the
    operations and lemmas of this file. *)

From stdpp Require Import base numbers option gmap list.
From S2P Require Import K42 Prelude DList.

Module PageDesc.

(** The fields of PageDesc that the classes that keep pages do not look at. *)
Record Rest := mkRest {
  used : bool; freeAfterIO : bool; mapped : bool; cacheSynced : bool; established : bool;
  forkCopied1 : bool; forkCopied2 : bool; forkIO : bool; forkIOLock : bool; forkMapParent : bool; copiedOnFork : bool;
  pinCount : Z; fn : Z; ppset : Z;
}.

(** The Entry of these classes. *)
Record Entry := mkEntry {
  fileOffset : Z; paddr : Z; len : Z;
  dirty : bool; doingIO : bool; free : bool; rest : Rest;
  e_next : Z; freeListNext : Z; freeListPrev : Z;
}.

#[export] Instance entry_linked : Linked Entry Z := {|
  next := e_next;
  set_next := fun p n => mkEntry (fileOffset n) (paddr n) (len n) (dirty n) (doingIO n) (free n) (rest n) p (freeListNext n) (freeListPrev n);
  payload := fileOffset;
  next_set_next := fun _ _ => eq_refl;
  payload_set_next := fun _ _ => eq_refl;
|}.

#[export] Instance entry_dlinked : DLinked Entry := {|
  dnext := freeListNext; dprev := freeListPrev;
  set_dnext := fun p n => mkEntry (fileOffset n) (paddr n) (len n) (dirty n) (doingIO n) (free n) (rest n) (e_next n) p (freeListPrev n);
  set_dprev := fun p n => mkEntry (fileOffset n) (paddr n) (len n) (dirty n) (doingIO n) (free n) (rest n) (e_next n) (freeListNext n) p;
  dnext_set_dnext := fun _ _ => eq_refl; dprev_set_dnext := fun _ _ => eq_refl;
  dnext_set_dprev := fun _ _ => eq_refl; dprev_set_dprev := fun _ _ => eq_refl;
|}.

Definition set_free (b : bool) (n : Entry) : Entry :=
  mkEntry (fileOffset n) (paddr n) (len n) (dirty n) (doingIO n) b (rest n) (e_next n) (freeListNext n) (freeListPrev n).

Definition set_flags (d io : bool) (n : Entry) : Entry :=
  mkEntry (fileOffset n) (paddr n) (len n) d io (free n) (rest n) (e_next n) (freeListNext n) (freeListPrev n).

Abbreviation memory := (gmap Z Entry) (only parsing).

Definition set_rest (r : Rest) (n : Entry) : Entry :=
  mkEntry (fileOffset n) (paddr n) (len n) (dirty n) (doingIO n) (free n) r (e_next n) (freeListNext n) (freeListPrev n).

(** PageDesc::init *)
Definition init_rest : Rest :=
  mkRest true false false false false false false false false false false 0 NULL 0.

(** The field len has 32 bits. *)
Definition len_field (ln : Z) : Z := ln mod 2 ^ 32.

Definition init_entry (fo pa ln : Z) : Entry := mkEntry fo pa (len_field ln) false false false init_rest NULL NULL NULL.

(** The fields of the free list. *)
Record flist := mkFL { freeListHead : Z; freeListTail : Z; numPagesFree : Z }.

(** dequeueFreeList(PageDesc *pg) *)
Definition dequeueFreeList (h : memory) (f : flist) (p : Z) : option (memory * flist) :=
  n ← h !! p;
  _ ← assertK (free n);
  '(h1, hd) ←
    (if freeListPrev n =? NULL then
       _ ← assertK (freeListHead f =? p);
       Some (h, freeListNext n)
     else
       q ← h !! freeListPrev n;
       _ ← assertK (negb (freeListHead f =? p));
       Some (<[freeListPrev n := set_dnext (freeListNext n) q]> h, freeListHead f));
  '(h2, tl) ←
    (if freeListNext n =? NULL then
       _ ← assertK (freeListTail f =? p);
       Some (h1, freeListPrev n)
     else
       q ← h1 !! freeListNext n;
       Some (<[freeListNext n := set_dprev (freeListPrev n) q]> h1, freeListTail f));
  n2 ← h2 !! p;
  Some (<[p := set_dprev NULL (set_dnext NULL n2)]> h2, mkFL hd tl (usub (numPagesFree f) 1)).

Definition enqueueFreeList (h : memory) (f : flist) (p : Z) : option (memory * flist) :=
  n ← h !! p;
  _ ← assertK (freeListNext n =? NULL);
  _ ← assertK (freeListPrev n =? NULL);
  _ ← assertK (free n);
  let t := freeListTail f in
  let h1 := <[p := set_dprev t n]> h in
  if negb (t =? NULL) then
    _ ← assertK (negb (freeListHead f =? NULL));
    nt ← h1 !! t;
    Some (<[t := set_dnext p nt]> h1, mkFL (freeListHead f) p (uadd (numPagesFree f) 1))
  else
    _ ← assertK (freeListHead f =? NULL);
    Some (h1, mkFL p p (uadd (numPagesFree f) 1)).

Inductive dqtype := DQ_CLEAN | DQ_DIRTY | DQ_HEAD.

Definition wanted (type : dqtype) (n : Entry) : bool :=
  match type with
  | DQ_HEAD => true
  | DQ_DIRTY => doingIO n || dirty n
  | DQ_CLEAN => negb (doingIO n || dirty n)
  end.

Fixpoint free_loop (fuel : nat) (h : memory) (type : dqtype) (pg : Z) : option Z :=
  match fuel with
  | O => None
  | S fuel =>
      if pg =? NULL then Some NULL
      else
        n ← h !! pg;
        if wanted type n then Some pg else free_loop fuel h type (freeListNext n)
  end.

(** dequeueFreeList(PageDesc::dqtype type) *)
Definition dequeueFreeListType (h : memory) (f : flist) (type : dqtype) : option (Z * (memory * flist)) :=
  pg ← free_loop (S (size h)) h type (freeListHead f);
  if pg =? NULL then Some (NULL, (h, f))
  else
    hs ← dequeueFreeList h f pg;
    Some (pg, hs).

(** ** How the cache managers use the free list (FCMDefault.C) *)

(** A page that is no longer mapped becomes a candidate for eviction. *)
Definition markFree (h : memory) (f : flist) (p : Z) : option (memory * flist) :=
  n ← h !! p;
  if negb (free n) then enqueueFreeList (<[p := set_free true n]> h) f p else Some (h, f).

(** A page that is used again. *)
Definition reclaim (h : memory) (f : flist) (p : Z) : option (memory * flist) :=
  n ← h !! p;
  if free n then
    '(h1, f1) ← dequeueFreeList h f p;
    n1 ← h1 !! p;
    Some (<[p := set_free false n1]> h1, f1)
  else Some (h, f).

(** Choosing a victim. *)
Definition takeFree (h : memory) (f : flist) (type : dqtype) : option (Z * (memory * flist)) :=
  '(pg, (h1, f1)) ← dequeueFreeListType h f type;
  if pg =? NULL then Some (NULL, (h1, f1))
  else
    n1 ← h1 !! pg;
    Some (pg, (<[pg := set_free false n1]> h1, f1)).

(** The dirty and I/O flags belong to the cache manager. *)
Definition setFlags (h : memory) (p : Z) (d io : bool) : option memory :=
  n ← h !! p;
  Some (<[p := set_flags d io n]> h).

(** ** Representation *)

Definition off_list (F : list Z) (a : Z) (n : Entry) : Prop :=
  if bool_decide (a ∈ F) then free n = true
  else free n = false /\ freeListNext n = NULL /\ freeListPrev n = NULL.

Lemma uadd_uwrap_succ (n : nat) : uadd (uwrap (Z.of_nat n)) 1 = uwrap (Z.of_nat (S n)).
Proof. unfold uadd, uwrap. rewrite Zplus_mod_idemp_l. f_equal. lia. Qed.

Lemma usub_uwrap_pred (n : nat) : usub (uwrap (Z.of_nat (S n))) 1 = uwrap (Z.of_nat n).
Proof. unfold usub, uwrap. rewrite Zminus_mod_idemp_l. f_equal. lia. Qed.

(** What a change of the free list's links leaves alone. *)
Definition core (n : Entry) := (fileOffset n, paddr n, len n, dirty n, doingIO n, free n, rest n, e_next n).

Definition same_core (h h' : memory) : Prop := forall a, core <$> h' !! a = core <$> h !! a.

#[export] Instance same_core_refl : Reflexive same_core.
Proof. by intros h a. Qed.

#[export] Instance same_core_trans : Transitive same_core.
Proof. intros h1 h2 h3 H1 H2 a. by rewrite H2, H1. Qed.

Lemma same_core_insert h a n n' : h !! a = Some n -> core n' = core n -> same_core h (<[a := n']> h).
Proof.
  intros Hn Hc b. destruct (decide (b = a)) as [->|]; [|by rewrite lookup_insert_ne].
  rewrite lookup_insert_eq, Hn. simpl. by rewrite Hc.
Qed.

Lemma same_core_lookup h h' a n' :
  same_core h h' -> h' !! a = Some n' -> exists n, h !! a = Some n /\ core n = core n'.
Proof.
  intros H Hn'. specialize (H a). rewrite Hn' in H. simpl in H. symmetry in H.
  apply fmap_Some in H as (n & Hn & E). eauto.
Qed.

Lemma same_core_lookup_inv h h' a n :
  same_core h h' -> h !! a = Some n -> exists n', h' !! a = Some n' /\ core n' = core n.
Proof. intros H Hn. specialize (H a). rewrite Hn in H. simpl in H. apply fmap_Some in H as (n' & Hn' & E). eauto. Qed.

Lemma same_core_chain h h' p l q : same_core h h' -> chain h p l q -> chain h' p l q.
Proof.
  intros H. revert p. induction l as [|[a d] l IH]; intros p Hc; [done|].
  destruct Hc as (-> & Ha & n & Hn & Hd & Hc). destruct (same_core_lookup_inv _ _ _ _ H Hn) as (n' & Hn' & E).
  injection E as E1 _ _ _ _ _ _ E2. split_and!; [done..|]. exists n'. split; [done|].
  split; [by rewrite <- Hd|]. apply IH. by replace (next n') with (next n).
Qed.

(** ** The links *)

Lemma dequeueFreeList_links h f F1 p F2 n :
  dll h (freeListHead f) (freeListTail f) (F1 ++ p :: F2) -> h !! p = Some n -> free n = true ->
  numPagesFree f = uwrap (Z.of_nat (length (F1 ++ p :: F2))) ->
  exists h' hd tl, dequeueFreeList h f p = Some (h', mkFL hd tl (uwrap (Z.of_nat (length (F1 ++ F2))))) /\
    dll h' hd tl (F1 ++ F2) /\ same_core h h' /\ (p ∉ F1 ++ F2) /\
    (forall a, a ∉ F1 ++ p :: F2 -> h' !! a = h !! a) /\
    (forall n', h' !! p = Some n' -> freeListNext n' = NULL /\ freeListPrev n' = NULL).
Proof.
  intros Hd Hn Hf Hnum. destruct (dll_unlink _ _ _ _ _ _ _ Hd Hn) as (Hp & Hnin & h1 & h2 & Hp1 & Hp2 & Hk & Hfr & Hd').
  unfold dequeueFreeList. rewrite Hn. cbn [mbind option_bind]. rewrite Hf. cbn [assertK mbind option_bind].
  change (freeListPrev n) with (dprev n). change (freeListNext n) with (dnext n).
  assert (Hnum' : usub (numPagesFree f) 1 = uwrap (Z.of_nat (length (F1 ++ F2)))).
  { rewrite Hnum, !length_app. simpl. rewrite Nat.add_succ_r. apply usub_uwrap_pred. }
  assert (Hfin : forall hd tl, dll h2 hd tl (F1 ++ F2) -> same_core h h2 -> exists h' hd' tl',
    (n2 ← h2 !! p; Some (<[p:=set_dprev NULL (set_dnext NULL n2)]> h2, mkFL hd tl (usub (numPagesFree f) 1)))
      = Some (h', mkFL hd' tl' (uwrap (Z.of_nat (length (F1 ++ F2))))) /\
    dll h' hd' tl' (F1 ++ F2) /\ same_core h h' /\ (p ∉ F1 ++ F2) /\
    (forall a, a ∉ F1 ++ p :: F2 -> h' !! a = h !! a) /\
    (forall n', h' !! p = Some n' -> freeListNext n' = NULL /\ freeListPrev n' = NULL)).
  { intros hd tl Hdl Hsc. rewrite Hk. cbn [mbind option_bind]. rewrite Hnum'. eexists _, hd, tl. split; [reflexivity|].
    split; [by apply dseg_insert_ne|]. split; [etrans; [done|by eapply same_core_insert]|]. split; [done|]. split.
    { intros a Ha. rewrite not_elem_of_app, not_elem_of_cons in Ha. rewrite lookup_insert_ne by (destruct Ha as (_ & ? & _); congruence).
      apply Hfr. rewrite not_elem_of_app. tauto. }
    intros n'. rewrite lookup_insert_eq. intros [= <-]. done. }
  assert (Hsc1 : same_core h h1).
  { destruct (dprev n =? NULL); [by destruct Hp1 as [-> _]|]. destruct Hp1 as (np & Hnp & _ & ->).
    by eapply same_core_insert. }
  assert (Hsc2 : same_core h h2).
  { destruct (dnext n =? NULL); [by destruct Hp2 as [-> _]|]. destruct Hp2 as (nn & Hnn & ->).
    etrans; [done|]. by eapply same_core_insert. }
  destruct (dprev n =? NULL); [destruct Hp1 as [-> Hhd]; rewrite Hhd, Z.eqb_refl
    |destruct Hp1 as (np & Hnp & Hhd & ->); rewrite Hnp, (proj2 (Z.eqb_neq _ _) Hhd)];
    (destruct (dnext n =? NULL); [destruct Hp2 as [-> Htl]; rewrite Htl, Z.eqb_refl|destruct Hp2 as (nn & Hnn & ->)]);
    cbn [assertK negb mbind option_bind]; rewrite ?Hnn; cbn [mbind option_bind]; by apply Hfin.
Qed.

(** The pages of [F1 ++ F2] are those of [F1 ++ p :: F2] other than [p]. *)
Lemma elem_unlinked (F1 F2 : list Z) p a : a <> p -> a ∈ F1 ++ F2 <-> a ∈ F1 ++ p :: F2.
Proof. intros Hne. rewrite !elem_of_app, elem_of_cons. tauto. Qed.

Lemma off_list_unlinked F1 F2 p a n : a <> p -> off_list (F1 ++ p :: F2) a n -> off_list (F1 ++ F2) a n.
Proof.
  intros Hne. unfold off_list. rewrite (bool_decide_ext (a ∈ F1 ++ F2) (a ∈ F1 ++ p :: F2)); [done|]. by apply elem_unlinked.
Qed.

Lemma off_list_core F a n n' : core n' = core n -> a ∈ F -> off_list F a n -> off_list F a n'.
Proof.
  intros E Hin. unfold off_list. rewrite !(bool_decide_true (a ∈ F)) by done. injection E. congruence.
Qed.

Lemma enqueueFreeList_links h f F p n :
  dll h (freeListHead f) (freeListTail f) F -> h !! p = Some n -> p <> NULL -> p ∉ F ->
  freeListNext n = NULL -> freeListPrev n = NULL -> free n = true ->
  numPagesFree f = uwrap (Z.of_nat (length F)) ->
  exists h' hd tl, enqueueFreeList h f p = Some (h', mkFL hd tl (uwrap (Z.of_nat (length (F ++ [p]))))) /\
    dll h' hd tl (F ++ [p]) /\ same_core h h' /\ (forall a, a ∉ F ++ [p] -> h' !! a = h !! a).
Proof.
  intros Hd Hn Hp Hin Hnx Hpv Hf Hnum. set (n' := set_dprev (freeListTail f) n).
  pose proof (dll_push_back _ _ _ p _ n' Hd Hin Hp Hnx eq_refl) as Hpush.
  destruct (dll_nil_iff _ _ _ _ Hd) as [_ Htl].
  unfold enqueueFreeList. rewrite Hn. cbn [mbind option_bind]. rewrite Hnx, Hpv, Hf, Hnum, uadd_uwrap_succ.
  replace (S (length F)) with (length (F ++ [p])) by (rewrite length_app; simpl; lia).
  cbn [assertK Z.eqb mbind option_bind]. fold n'.
  assert (Hsc : same_core h (<[p := n']> h)) by by apply (same_core_insert h p n).
  destruct (freeListTail f =? NULL) eqn:E; cbn [negb].
  - destruct Hpush as (-> & -> & Hd'). cbn [Z.eqb assertK mbind option_bind]. eexists _, p, p. split; [reflexivity|].
    split; [done|]. split; [done|]. intros a Ha. apply lookup_insert_ne. intros <-. apply Ha. by left.
  - destruct Hpush as (Hh & nt & Hnt & Hne & Hd'). rewrite (proj2 (Z.eqb_neq _ _) Hh). cbn [negb assertK mbind option_bind].
    rewrite lookup_insert_ne by done. rewrite Hnt. cbn [mbind option_bind]. eexists _, _, p. split; [reflexivity|].
    split; [done|]. split; [etrans; [done|]; apply (same_core_insert _ _ nt); [by rewrite lookup_insert_ne|done]|].
    intros a Ha. rewrite not_elem_of_app, not_elem_of_cons in Ha. destruct Ha as (Ha & Hap & _).
    rewrite !lookup_insert_ne; [done|congruence|]. intros <-. apply Ha. bool_props.
    destruct F as [|b F _] using rev_ind; [by destruct E; apply Htl|].
    rewrite (dll_tail _ _ _ _ _ Hd). apply elem_of_app. right. by left.
Qed.

Lemma off_list_snoc F p a n : a <> p -> off_list F a n -> off_list (F ++ [p]) a n.
Proof.
  intros Hne. unfold off_list. rewrite (bool_decide_ext (a ∈ F ++ [p]) (a ∈ F)); [done|].
  rewrite elem_of_app, elem_of_cons, elem_of_nil. tauto.
Qed.

(** Which candidates a kind of request accepts. *)
Definition accepts (B : Z -> bool) (type : dqtype) (a : Z) : bool :=
  match type with DQ_HEAD => true | DQ_DIRTY => B a | DQ_CLEAN => negb (B a) end.

Lemma free_loop_spec h type W p prev F tl fuel :
  dseg h p prev F NULL tl -> (forall a n, h !! a = Some n -> wanted type n = W a) -> (length F < fuel)%nat ->
  free_loop fuel h type p = Some (default NULL (find_first W F)).
Proof.
  revert fuel p prev. induction F as [|a F IH]; intros fuel p prev Hd HW Hf; (destruct fuel as [|fuel]; [simpl in Hf; lia|]); cbn [free_loop].
  - destruct Hd as [-> _]. done.
  - destruct Hd as (-> & Ha & n & Hn & _ & Hd). rewrite (proj2 (Z.eqb_neq _ _) Ha), Hn. cbn [mbind option_bind].
    rewrite (HW a n Hn), find_first_cons. destruct (W a); [done|]. apply (IH _ _ a); [done|done|]. simpl in Hf. lia.
Qed.

Lemma find_first_split (W : Z -> bool) F p :
  find_first W F = Some p -> exists F1 F2, F = F1 ++ p :: F2 /\ remove_first W F = F1 ++ F2.
Proof.
  induction F as [|a F IH]; [done|]. rewrite find_first_cons, remove_first_cons. destruct (W a).
  - intros [= ->]. by exists [], F.
  - intros H. destruct (IH H) as (F1 & F2 & -> & ->). by exists (a :: F1), F2.
Qed.

(** What a change of the list's links leaves alone. *)
Definition fcore (n : Entry) :=
  (fileOffset n, paddr n, len n, dirty n, doingIO n, free n, rest n, freeListNext n, freeListPrev n).

Definition same_fcore (h h' : memory) : Prop := forall a, fcore <$> h' !! a = fcore <$> h !! a.

#[export] Instance same_fcore_trans : Transitive same_fcore.
Proof. intros h1 h2 h3 H1 H2 a. by rewrite H2, H1. Qed.

Lemma same_fcore_set_next (h : gmap Z Entry) a n p : h !! a = Some n -> same_fcore h (<[a := set_next p n]> h).
Proof.
  intros Hn b. destruct (decide (b = a)) as [->|]; [rewrite lookup_insert_eq, Hn; done|by rewrite lookup_insert_ne].
Qed.

Lemma same_fcore_lookup h h' a n' :
  same_fcore h h' -> h' !! a = Some n' -> exists n, h !! a = Some n /\ fcore n' = fcore n.
Proof.
  intros H Hn'. specialize (H a). rewrite Hn' in H. simpl in H. symmetry in H.
  apply fmap_Some in H as (n & Hn & E). eauto.
Qed.

Lemma same_fcore_inv h h' a n :
  same_fcore h h' -> h !! a = Some n -> exists n', h' !! a = Some n' /\ fcore n' = fcore n.
Proof. intros H Hn. specialize (H a). rewrite Hn in H. simpl in H. apply fmap_Some in H as (n' & Hn' & E). eauto. Qed.

Lemma same_fcore_dseg h h' p prev l q lst : same_fcore h h' -> dseg h p prev l q lst -> dseg h' p prev l q lst.
Proof.
  intros H. revert p prev. induction l as [|a l IH]; intros p prev Hd; [done|].
  destruct Hd as (-> & Ha & n & Hn & Hp & Hd). destruct (same_fcore_inv _ _ _ _ H Hn) as (n' & Hn' & E).
  injection E as _ _ _ _ _ _ _ E1 E2. split_and!; [done..|]. exists n'. split; [done|].
  split; [by rewrite <- Hp|]. apply IH. by replace (dnext n') with (dnext n).
Qed.

Lemma remove_addr (F : list Z) p :
  p ∈ F -> exists F1 F2, F = F1 ++ p :: F2 /\ remove_first (fun a => a =? p) F = F1 ++ F2.
Proof.
  intros Hin. assert (E : find_first (fun a => a =? p) F = Some p).
  { destruct (find_first (fun a => a =? p) F) as [q|] eqn:E.
    - apply find_first_elem in E as [_ E]. bool_props. by subst.
    - apply find_first_None in E. rewrite Forall_forall in E. specialize (E p Hin). bool_props. done. }
  by apply find_first_split.
Qed.

(** ** The free list as a whole *)

(** [F] lists the candidates in order; [B] says which pages are dirty or in transit. *)
Record frep (h : memory) (f : flist) (F : list Z) (B : Z -> bool) : Prop := {
  fr_dll : dll h (freeListHead f) (freeListTail f) F;
  fr_num : numPagesFree f = uwrap (Z.of_nat (length F));
  fr_flags : forall a n, h !! a = Some n -> off_list F a n;
  fr_busy : forall a n, h !! a = Some n -> B a = doingIO n || dirty n;
}.

(** What the free list leaves to the class that keeps the pages. *)
Definition link (n : Entry) : Z * Z := (fileOffset n, e_next n).

Definition same_links (h h' : memory) : Prop := forall a, link <$> h' !! a = link <$> h !! a.

#[export] Instance same_links_refl : Reflexive same_links.
Proof. by intros h a. Qed.

#[export] Instance same_links_trans : Transitive same_links.
Proof. intros h1 h2 h3 H1 H2 a. by rewrite H2, H1. Qed.

Lemma same_links_insert h a n n' : h !! a = Some n -> link n' = link n -> same_links h (<[a := n']> h).
Proof.
  intros Hn Hc b. destruct (decide (b = a)) as [->|]; [|by rewrite lookup_insert_ne].
  rewrite lookup_insert_eq, Hn. simpl. by rewrite Hc.
Qed.

Lemma same_core_links h h' : same_core h h' -> same_links h h'.
Proof.
  intros H a. specialize (H a). destruct (h !! a), (h' !! a); try done. injection H. intros. cbn. unfold link. congruence.
Qed.

Lemma same_links_inv h h' a n : same_links h h' -> h !! a = Some n -> exists n', h' !! a = Some n' /\ link n' = link n.
Proof. intros H Hn. specialize (H a). rewrite Hn in H. simpl in H. apply fmap_Some in H as (n' & Hn' & E). eauto. Qed.

Lemma same_links_dom h h' a : same_links h h' -> is_Some (h' !! a) -> is_Some (h !! a).
Proof. intros H [n Hn]. specialize (H a). rewrite Hn in H. destruct (h !! a); [by eexists|done]. Qed.

Lemma same_links_chain h h' p l q : same_links h h' -> chain h p l q -> chain h' p l q.
Proof.
  intros H. revert p. induction l as [|[a d] l IH]; intros p Hc; [done|].
  destruct Hc as (-> & Ha & n & Hn & Hd & Hc). destruct (same_links_inv _ _ _ _ H Hn) as (n' & Hn' & E).
  injection E as E1 E2. split_and!; [done..|]. exists n'. split; [done|].
  split; [by rewrite <- Hd|]. apply IH. by replace (next n') with (next n).
Qed.

Lemma free_flag h f F B p n : frep h f F B -> h !! p = Some n -> free n = bool_decide (p ∈ F).
Proof.
  intros Hr Hn. pose proof (fr_flags _ _ _ _ Hr p n Hn) as Ho. unfold off_list in Ho.
  case_bool_decide; [done|by destruct Ho].
Qed.

Lemma frep_elem h f F B p : frep h f F B -> p ∈ F -> p <> NULL /\ exists n, h !! p = Some n /\ free n = true.
Proof.
  intros Hr Hin. destruct (dseg_elem _ _ _ _ _ _ p (fr_dll _ _ _ _ Hr) Hin) as (Hp & n & Hn). split; [done|].
  exists n. split; [done|]. rewrite (free_flag _ _ _ _ _ _ Hr Hn). by apply bool_decide_true.
Qed.

(** The flags and links of [F] carry over to a store that differs from [h] in
    the links of the pages of [F1 ++ p :: F2] only, once [p] is marked. *)
Lemma frep_unlinked h f F1 p F2 B h1 f1 n1 :
  frep h f (F1 ++ p :: F2) B -> p ∉ F1 ++ F2 -> same_core h h1 ->
  (forall a, a ∉ F1 ++ p :: F2 -> h1 !! a = h !! a) ->
  dll h1 (freeListHead f1) (freeListTail f1) (F1 ++ F2) -> numPagesFree f1 = uwrap (Z.of_nat (length (F1 ++ F2))) ->
  h1 !! p = Some n1 -> freeListNext n1 = NULL -> freeListPrev n1 = NULL ->
  frep (<[p := set_free false n1]> h1) f1 (F1 ++ F2) B.
Proof.
  intros [Hd Hnf Hfl Hb] Hnin Hsc Hfr Hd1 Hn1f Hn1 Hx1 Hx2. constructor; [by apply dseg_insert_ne|done|..].
  - intros a m Hm. apply lookup_insert_Some in Hm as [[<- <-]|[Hne Hm]].
    + unfold off_list. by rewrite bool_decide_false.
    + destruct (same_core_lookup _ _ _ _ Hsc Hm) as (m' & Hm' & E).
      pose proof (Hfl a m' Hm') as Ho. apply (off_list_unlinked F1 F2 p); [done|].
      destruct (decide (a ∈ F1 ++ p :: F2)) as [Hin|Hin]; [by apply (off_list_core _ _ m')|].
      rewrite Hfr in Hm by done. by assert (m' = m) as -> by congruence.
  - intros a m Hm. apply lookup_insert_Some in Hm as [[<- <-]|[Hne Hm]].
    + destruct (same_core_lookup _ _ _ _ Hsc Hn1) as (m' & Hm' & E). rewrite (Hb _ _ Hm'). injection E. cbn. congruence.
    + destruct (same_core_lookup _ _ _ _ Hsc Hm) as (m' & Hm' & E). rewrite (Hb _ _ Hm'). injection E. congruence.
Qed.

(** Taking [p] off the free list and clearing its flag. *)
Lemma unfree_frep h f F1 p F2 B :
  frep h f (F1 ++ p :: F2) B ->
  exists h1 f1 n1, dequeueFreeList h f p = Some (h1, f1) /\ h1 !! p = Some n1 /\
    frep (<[p := set_free false n1]> h1) f1 (F1 ++ F2) B /\ same_links h (<[p := set_free false n1]> h1) /\ same_core h h1.
Proof.
  intros Hr. destruct (frep_elem _ _ _ _ p Hr) as (Hp & n & Hn & Hf); [apply elem_of_app; right; by left|].
  destruct (dequeueFreeList_links _ _ _ _ _ _ (fr_dll _ _ _ _ Hr) Hn Hf (fr_num _ _ _ _ Hr)) as (h1 & hd & tl & Hdq & Hd1 & Hsc & Hnin & Hfr & Hlk).
  destruct (same_core_lookup_inv _ _ _ _ Hsc Hn) as (n1 & Hn1 & E1). destruct (Hlk _ Hn1) as [Hx1 Hx2].
  eexists _, _, n1. split; [exact Hdq|]. split; [done|]. split; [by eapply frep_unlinked|].
  split; [|done]. etrans; [by apply same_core_links|]. by apply (same_links_insert _ _ n1).
Qed.

Lemma reclaim_frep h f F B p n :
  frep h f F B -> h !! p = Some n ->
  exists h' f', reclaim h f p = Some (h', f') /\ frep h' f' (remove_first (fun a => a =? p) F) B /\ same_links h h'.
Proof.
  intros Hr Hn. unfold reclaim. rewrite Hn. cbn [mbind option_bind]. rewrite (free_flag _ _ _ _ _ _ Hr Hn). case_bool_decide as HF.
  - destruct (remove_addr F p HF) as (F1 & F2 & -> & ->). destruct (unfree_frep _ _ _ _ _ _ Hr) as (h1 & f1 & n1 & -> & Hn1 & Hr' & Hl & Hsc).
    cbn [mbind option_bind]. rewrite Hn1. cbn [mbind option_bind]. eauto.
  - exists h, f. split; [done|]. split; [|done]. rewrite remove_first_none; [done|]. apply Forall_forall. intros a Ha. apply Z.eqb_neq. by intros ->.
Qed.

Lemma markFree_frep h f F B p n :
  frep h f F B -> p <> NULL -> h !! p = Some n ->
  exists h' f', markFree h f p = Some (h', f') /\ frep h' f' (if bool_decide (p ∈ F) then F else F ++ [p]) B /\ same_links h h'.
Proof.
  intros Hr Hp Hn. unfold markFree. rewrite Hn. cbn [mbind option_bind]. rewrite (free_flag _ _ _ _ _ _ Hr Hn).
  case_bool_decide as HF; cbn [negb]; [by exists h, f|]. destruct Hr as [Hd Hnf Hfl Hb].
  pose proof (Hfl p n Hn) as Ho. unfold off_list in Ho. rewrite bool_decide_false in Ho by done. destruct Ho as (Hf & Hnx & Hpv).
  set (h0 := <[p := set_free true n]> h).
  destruct (enqueueFreeList_links h0 f F p (set_free true n)) as (h' & hd & tl & -> & Hd' & Hsc & Hfr); try done.
  { by apply dseg_insert_ne. }
  { unfold h0. by rewrite lookup_insert_eq. }
  assert (Hcore : forall a m, h' !! a = Some m -> exists m', h !! a = Some m' /\ core (if decide (a = p) then set_free true m' else m') = core m).
  { intros a m Hm. destruct (same_core_lookup _ _ _ _ Hsc Hm) as (m' & Hm' & E). unfold h0 in Hm'.
    apply lookup_insert_Some in Hm' as [[<- <-]|[Hne Hm']]; [exists n|exists m']; case_decide; done. }
  eexists _, _. split; [reflexivity|]. split; [constructor; [done|done|..]|].
  - intros a m Hm. destruct (Hcore a m Hm) as (m' & Hm' & E). case_decide as Hap.
    + unfold off_list. rewrite bool_decide_true; [injection E; cbn; congruence|]. subst. apply elem_of_app. right. by left.
    + apply off_list_snoc; [done|]. pose proof (Hfl a m' Hm') as Ho.
      destruct (decide (a ∈ F)) as [HaF|HaF]; [by apply (off_list_core _ _ m')|].
      rewrite Hfr in Hm by (rewrite not_elem_of_app, list_elem_of_singleton; done). unfold h0 in Hm.
      rewrite lookup_insert_ne in Hm by done. by assert (m' = m) as -> by congruence.
  - intros a m Hm. destruct (Hcore a m Hm) as (m' & Hm' & E). rewrite (Hb a m' Hm'). case_decide; injection E; cbn; congruence.
  - etrans; [|by apply same_core_links]. by apply (same_links_insert _ _ n).
Qed.

Lemma takeFree_frep h f F B type :
  frep h f F B ->
  exists h' f', takeFree h f type = Some (default NULL (find_first (accepts B type) F), (h', f')) /\
    frep h' f' (remove_first (accepts B type) F) B /\ same_links h h'.
Proof.
  intros Hr. pose proof (fr_dll _ _ _ _ Hr) as Hd. pose proof (dseg_length _ _ _ _ _ Hd) as Hlen. unfold takeFree, dequeueFreeListType.
  rewrite (free_loop_spec h type (accepts B type) _ _ F _ (S (size h)) Hd); [| |lia].
  2:{ intros a n Hn. unfold wanted, accepts. rewrite (fr_busy _ _ _ _ Hr a n Hn). by destruct type. }
  cbn [mbind option_bind]. destruct (find_first (accepts B type) F) as [p|] eqn:E; cbn [default from_option id].
  - destruct (find_first_split _ _ _ E) as (F1 & F2 & -> & ->). destruct (unfree_frep _ _ _ _ _ _ Hr) as (h1 & f1 & n1 & -> & Hn1 & Hr' & Hl & Hsc).
    destruct (frep_elem _ _ _ _ p Hr) as (Hp & _); [apply elem_of_app; right; by left|].
    rewrite (proj2 (Z.eqb_neq _ _) Hp). cbn [mbind option_bind]. rewrite (proj2 (Z.eqb_neq _ _) Hp), Hn1. cbn [mbind option_bind]. eauto.
  - cbn. exists h, f. split; [done|]. apply find_first_None in E. by rewrite remove_first_none.
Qed.

Definition set_busy (B : Z -> bool) (p : Z) (b : bool) (a : Z) : bool := if a =? p then b else B a.

Lemma setFlags_frep h f F B p n d io :
  frep h f F B -> h !! p = Some n ->
  exists h', setFlags h p d io = Some h' /\ frep h' f F (set_busy B p (io || d)) /\ same_links h h'.
Proof.
  intros [Hd Hnf Hfl Hb] Hn. unfold setFlags. rewrite Hn. cbn [mbind option_bind].
  eexists. split; [reflexivity|]. split; [constructor; [|done|..]|by apply (same_links_insert _ _ n)].
  - by apply (dseg_insert_same h _ _ _ _ _ p n).
  - intros a m Hm. apply lookup_insert_Some in Hm as [[<- <-]|[_ Hm]]; [exact (Hfl p n Hn)|by apply Hfl].
  - intros a m Hm. unfold set_busy. apply lookup_insert_Some in Hm as [[<- <-]|[Hne Hm]]; [by rewrite Z.eqb_refl|].
    rewrite (proj2 (Z.eqb_neq a p)) by congruence. by apply Hb.
Qed.

(** A new descriptor. *)
Lemma insert_frep h f F B p fo pa ln :
  frep h f F B -> h !! p = None -> frep (<[p := init_entry fo pa ln]> h) f F (set_busy B p false).
Proof.
  intros [Hd Hnf Hfl Hb] Hn. pose proof (dseg_addr_ne h _ _ _ _ _ _ Hn Hd) as HF. constructor; [by apply dseg_insert_ne|done|..].
  - intros a m Hm. apply lookup_insert_Some in Hm as [[<- <-]|[_ Hm]]; [|by apply Hfl]. unfold off_list. by rewrite bool_decide_false.
  - intros a m Hm. unfold set_busy. apply lookup_insert_Some in Hm as [[<- <-]|[Hne Hm]]; [by rewrite Z.eqb_refl|].
    rewrite (proj2 (Z.eqb_neq a p)) by congruence. by apply Hb.
Qed.

(** Relinking the pages. *)
Lemma same_fcore_frep h h' f F B : same_fcore h h' -> frep h f F B -> frep h' f F B.
Proof.
  intros H [Hd Hnf Hfl Hb]. constructor; [by apply (same_fcore_dseg h)|done|..].
  - intros a m Hm. destruct (same_fcore_lookup _ _ _ _ H Hm) as (m' & Hm' & E). specialize (Hfl a m' Hm'). unfold off_list in *.
    injection E. case_bool_decide; intros; [congruence|]. destruct Hfl as (? & ? & ?). split_and!; congruence.
  - intros a m Hm. destruct (same_fcore_lookup _ _ _ _ H Hm) as (m' & Hm' & E). rewrite (Hb a m' Hm'). injection E. congruence.
Qed.

(** Dropping a descriptor, from the free list too when it is there. *)
Lemma drop_frep h f F B p n :
  frep h f F B -> h !! p = Some n ->
  exists h' f', (if free n then dequeueFreeList h f p else Some (h, f)) = Some (h', f') /\
    frep (delete p h') f' (remove_first (fun a => a =? p) F) B /\ same_core h h'.
Proof.
  intros Hr Hn. rewrite (free_flag _ _ _ _ _ _ Hr Hn).
  assert (Hdel : forall h' f' F', frep h' f' F' B -> p ∉ F' -> frep (delete p h') f' F' B).
  { intros h' f' F' [Hd Hnf Hfl Hb] Hin. constructor; [by apply dseg_delete_ne|done|..].
    - intros a m [_ Hm]%lookup_delete_Some. by apply Hfl.
    - intros a m [_ Hm]%lookup_delete_Some. by apply Hb. }
  case_bool_decide as HF.
  - destruct (remove_addr F p HF) as (F1 & F2 & -> & ->). destruct (unfree_frep _ _ _ _ _ _ Hr) as (h1 & f1 & n1 & -> & Hn1 & Hr' & Hl & Hsc).
    exists h1, f1. split; [done|]. split.
    + rewrite <- (delete_insert_eq h1 p (set_free false n1)). apply Hdel; [done|].
      pose proof (dseg_nodup _ _ _ _ _ (fr_dll _ _ _ _ Hr)) as Hnd. apply NoDup_app in Hnd as (_ & H1 & [H2 _]%NoDup_cons).
      rewrite not_elem_of_app. split; [|done]. intros Hin. apply (H1 p Hin). by left.
    + done.
  - exists h, f. split; [done|]. split; [|done]. rewrite remove_first_none; [by apply Hdel|].
    apply Forall_forall. intros a Ha. apply Z.eqb_neq. by intros ->.
Qed.

(** What a cache manager keeps in a descriptor. *)
Definition data (n : Entry) := (fileOffset n, paddr n, len n, dirty n, doingIO n, rest n).

(** The data of every page other than [p] is the same. *)
Definition same_data_but (p : Z) (h h' : memory) : Prop := forall a, a <> p -> data <$> h' !! a = data <$> h !! a.

Lemma same_core_data p h h' : same_core h h' -> same_data_but p h h'.
Proof. intros H a _. specialize (H a). destruct (h !! a), (h' !! a); try done. injection H. intros. cbn. unfold data. congruence. Qed.

Lemma same_fcore_data p h h' : same_fcore h h' -> same_data_but p h h'.
Proof. intros H a _. specialize (H a). destruct (h !! a), (h' !! a); try done. injection H. intros. cbn. unfold data. congruence. Qed.

#[export] Instance same_data_trans p : Transitive (same_data_but p).
Proof. intros h1 h2 h3 H1 H2 a Ha. by rewrite H2, H1. Qed.

Lemma same_data_delete p h : same_data_but p h (delete p h).
Proof. intros a Ha. by rewrite lookup_delete_ne. Qed.

Lemma same_data_insert p h n : same_data_but p h (<[p := n]> h).
Proof. intros a Ha. by rewrite lookup_insert_ne. Qed.

(** Changing the other fields of a page. *)
Lemma set_rest_frep h f F B p n r :
  frep h f F B -> h !! p = Some n -> frep (<[p := set_rest r n]> h) f F B /\ same_links h (<[p := set_rest r n]> h).
Proof.
  intros [Hd Hnf Hfl Hb] Hn. split; [constructor; [|done|..]|by apply (same_links_insert _ _ n)].
  - by apply (dseg_insert_same h _ _ _ _ _ p n).
  - intros a m Hm. apply lookup_insert_Some in Hm as [[<- <-]|[_ Hm]]; [exact (Hfl p n Hn)|by apply Hfl].
  - intros a m Hm. apply lookup_insert_Some in Hm as [[<- <-]|[_ Hm]]; [exact (Hb p n Hn)|by apply Hb].
Qed.

(** Pages are pairs of the address of the descriptor and the offset. *)
Definition at_offset (fo : Z) (x : Z * Z) : bool := x.2 =? fo.

Lemma span_at (L : list (Z * Z)) a fo : NoDup L.*2 -> (a, fo) ∈ L -> exists A C, L = A ++ (a, fo) :: C /\ span_until (at_offset fo) L = (A, (a, fo) :: C).
Proof.
  intros Hnd Hin. apply list_elem_of_split in Hin as (A & C & ->). exists A, C. split; [done|].
  apply span_until_intro; [|apply Z.eqb_refl]. apply Forall_forall. intros [b e] Hin. apply Z.eqb_neq. cbn [snd]. intros ->.
  rewrite fmap_app in Hnd. apply NoDup_app in Hnd as (_ & H & _). apply (H fo); [apply list_elem_of_fmap; by exists (b, fo)|by left].
Qed.

Lemma remove_at A a fo C : NoDup (A ++ (a, fo) :: C).*2 -> remove_first (at_offset fo) (A ++ (a, fo) :: C) = A ++ C.
Proof.
  intros Hnd. unfold remove_first. rewrite span_until_intro; [done| |apply Z.eqb_refl].
  apply Forall_forall. intros [b e] Hin. apply Z.eqb_neq. cbn [snd]. intros ->.
  rewrite fmap_app in Hnd. apply NoDup_app in Hnd as (_ & H & _). apply (H fo); [apply list_elem_of_fmap; by exists (b, fo)|by left].
Qed.

End PageDesc.
