(* ===== verification/PageHolder.v ===== *)
(** * PageHolder: what a cache manager expects of the class that keeps its pages

    FCMCommon is a template over the class [PL] that keeps the resident pages:
    PageList, PageSet or PageSetDense.  This file states their common promise as
    a class of types; PageList.v, PageSet.v and PageSetDense.v discharge it, and
    FCMCommon.v is proved from it.

    The promise: the pages form a list, in the order of the walk that starts with
    getFirst; removing a page keeps the order of the others; the free list is
    that of PageDesc.v; no operation touches what the cache manager keeps in the
    descriptors of other pages. *)

From stdpp Require Import base numbers option gmap list.
From S2P Require Import K42 Prelude PageDesc.

Module PageHolder.
Import PageDesc.

Abbreviation memory := (gmap Z Entry) (only parsing).

Class PageHolder (PL : Type) := {
  (** The operations; the flag of [enqueue] says whether the allocator has room
      for a bigger table, and its first address is what new returned. *)
  find : memory -> PL -> Z -> option Z;
  enqueue : memory -> PL -> bool -> Z -> Z -> Z -> Z -> option (Z * (memory * PL));
  remove : memory -> PL -> Z -> option (memory * PL);
  getFirst : memory -> PL -> option (Z * PL);
  getNext : memory -> PL -> Z -> option Z;
  getNumPages : PL -> Z;
  freeList : PL -> flist;
  set_freeList : PL -> flist -> PL;

  (** The offsets the class can hold. *)
  offset_ok : Z -> bool;

  (** [L]: the pages in order, address and offset; [F]: the candidates for
      eviction; [B]: the pages that are dirty or in transit. *)
  holds : memory -> PL -> list (Z * Z) -> list Z -> (Z -> bool) -> Prop;

  holds_offsets h s L F B : holds h s L F B -> NoDup L.*2;
  holds_page h s L F B a fo :
    holds h s L F B -> (a, fo) ∈ L -> a <> NULL /\ exists n, h !! a = Some n /\ fileOffset n = fo;
  holds_dom h s L F B a : holds h s L F B -> is_Some (h !! a) -> a ∈ L.*1;
  holds_free h s L F B : holds h s L F B -> frep h (freeList s) F B;
  holds_freeList h s L F B h' f' F' B' :
    holds h s L F B -> same_links h h' -> frep h' f' F' B' -> holds h' (set_freeList s f') L F' B';
  set_freeList_id s : set_freeList s (freeList s) = s;

  find_holds h s L F B fo :
    holds h s L F B -> offset_ok fo = true -> find h s fo = Some (default NULL (fst <$> find_first (at_offset fo) L));
  enqueue_holds h s L F B ok p fo pa ln :
    holds h s L F B -> offset_ok fo = true -> Z.of_nat (length L) < 2 ^ 58 -> p <> NULL -> p ∉ L.*1 -> fo ∉ L.*2 ->
    exists h' s' L', enqueue h s ok p fo pa ln = Some (p, (h', s')) /\ L' ≡ₚ (p, fo) :: L /\
      holds h' s' L' F (set_busy B p false) /\ same_data_but p h h' /\ data <$> h' !! p = Some (data (init_entry fo pa ln));
  remove_holds h s A a fo C F B :
    holds h s (A ++ (a, fo) :: C) F B -> offset_ok fo = true ->
    exists h' s', remove h s fo = Some (h', s') /\ holds h' s' (A ++ C) (remove_first (fun x => x =? a) F) B /\
      same_data_but a h h';
  getFirst_holds h s L F B :
    holds h s L F B -> exists s', getFirst h s = Some (default NULL (fst <$> head L), s') /\ holds h s' L F B;
  getNext_holds h s A a fo C F B :
    holds h s (A ++ (a, fo) :: C) F B -> getNext h s a = Some (default NULL (fst <$> head C));
  getNumPages_holds h s L F B : holds h s L F B -> getNumPages s = uwrap (Z.of_nat (length L));
}.

#[global] Arguments holds : simpl never.

Section lemmas.
Context {PL : Type} `{!PageHolder PL}.

(** Addresses are distinct, because a descriptor has one offset. *)
Lemma holds_addrs h s L F B : holds h s L F B -> NoDup L.*1.
Proof.
  intros H. pose proof (holds_offsets _ _ _ _ _ H) as Hnd. apply NoDup_fmap_2_strong; [|by apply NoDup_fmap_1 in Hnd].
  intros [a fo] [b fo'] Ha Hb E. cbn [fst] in E. subst b. destruct (holds_page _ _ _ _ _ _ _ H Ha) as (_ & n & Hn & <-).
  destruct (holds_page _ _ _ _ _ _ _ H Hb) as (_ & n' & Hn' & <-). congruence.
Qed.

(** There are as many pages as descriptors. *)
Lemma holds_size h s L F B : holds h s L F B -> (length L <= size h)%nat.
Proof.
  intros H. rewrite <- (length_fmap fst L), <- (size_dom h), <- (size_list_to_set (C := gset Z) L.*1) by by eapply holds_addrs.
  apply subseteq_size. intros a. rewrite elem_of_list_to_set, list_elem_of_fmap, elem_of_dom.
  intros ([b fo] & -> & Hin). destruct (holds_page _ _ _ _ _ _ _ H Hin) as (_ & n & Hn & _). by exists n.
Qed.

End lemmas.

End PageHolder.
