(* ===== verification/PageList.v ===== *)
(** * PageList: the resident pages of a file cache, os/kernel/mem/PageList.C

    A file cache manager keeps a descriptor per resident page on a list in
    order of arrival, and threads the pages that may be evicted on a second,
    doubly linked list through the same descriptors (PageDesc.v).  A cursor
    remembers where the last walk by offset stopped. *)

From stdpp Require Import base numbers option gmap list.
From S2P Require Import K42 Prelude DList HTList PageDesc PageHolder.

Module PageList.
Import PageDesc.

Abbreviation memory := (gmap Z Entry) (only parsing).

Record t := mkPL {
  head : Z; tail : Z; numPages : Z;
  freeList : flist;
  savedOffset : Z; savedEntry : Z;
}.

Definition init : t := mkPL NULL NULL 0 (mkFL NULL NULL 0) UMAX NULL.

Definition find (h : memory) (s : t) (fo : Z) : option Z :=
  '(_, p) ← walk (fun _ n => fileOffset n =? fo) (S (size h)) h NULL (head s);
  Some p.

Definition set_list (s : t) (hd tl num : Z) : t := mkPL hd tl num (freeList s) (savedOffset s) (savedEntry s).

Definition set_freelist (s : t) (f : flist) : t := mkPL (head s) (tail s) (numPages s) f (savedOffset s) (savedEntry s).

Definition set_saved (s : t) (fo e : Z) : t := mkPL (head s) (tail s) (numPages s) (freeList s) fo e.

(** enqueue(Entry *p) *)
Definition enqueue_entry (h : memory) (s : t) (p : Z) : option (memory * t) :=
  n ← h !! p;
  let h1 := <[p := set_next NULL n]> h in
  if negb (tail s =? NULL) then
    nt ← h1 !! tail s;
    Some (<[tail s := set_next p nt]> h1, set_list s (head s) p (uadd (numPages s) 1))
  else Some (h1, set_list s p p (uadd (numPages s) 1)).

(** enqueue(fileOffset, paddr, len); [p] is what new returned. *)
Definition enqueue (h : memory) (s : t) (p fo pa ln : Z) : option (Z * (memory * t)) :=
  if negb (p =? NULL) then
    hs ← enqueue_entry (<[p := init_entry fo pa ln]> h) s p;
    Some (p, hs)
  else Some (p, (h, s)).

(** The free list's operations on its fields. *)
Definition on_freelist (s : t) (r : option (memory * flist)) : option (memory * t) :=
  '(h, f) ← r; Some (h, set_freelist s f).

Definition dequeueFreeList (h : memory) (s : t) (p : Z) : option (memory * t) :=
  on_freelist s (PageDesc.dequeueFreeList h (freeList s) p).

Definition enqueueFreeList (h : memory) (s : t) (p : Z) : option (memory * t) :=
  on_freelist s (PageDesc.enqueueFreeList h (freeList s) p).

(** dequeueFreeList(PageDesc::dqtype type) *)
Definition dequeueFreeListType (h : memory) (s : t) (type : dqtype) : option (Z * (memory * t)) :=
  '(pg, (h1, f)) ← PageDesc.dequeueFreeListType h (freeList s) type;
  Some (pg, (h1, set_freelist s f)).

Definition dequeue (h : memory) (s : t) (fo : Z) : option (Z * (memory * t)) :=
  '(prev, p) ← walk (fun _ n => fileOffset n =? fo) (S (size h)) h NULL (head s);
  if p =? NULL then Some (NULL, (h, s))
  else
    n ← h !! p;
    '(h1, hd, tl) ←
      (if p =? head s then
         if head s =? tail s then Some (h, NULL, NULL) else Some (h, next n, tail s)
       else
         np ← h !! prev;
         Some (<[prev := set_next (next n) np]> h, head s, if next n =? NULL then prev else tail s));
    let s1 := set_list s hd tl (usub (numPages s) 1) in
    let s2 := if fo =? savedOffset s1 then set_saved s1 UMAX (savedEntry s1) else s1 in
    n1 ← h1 !! p;
    let h2 := <[p := set_next NULL n1]> h1 in
    hs ← (if free n1 then dequeueFreeList h2 s2 p else Some (h2, s2));
    Some (p, hs).

Definition remove (h : memory) (s : t) (fo : Z) : option (memory * t) :=
  '(pg, (h1, s1)) ← dequeue h s fo;
  Some (if negb (pg =? NULL) then delete pg h1 else h1, s1).

(** Remember where the walk is; a null pointer leaves the cursor alone. *)
Definition save (h : memory) (s : t) (e : Z) : option (Z * t) :=
  if negb (e =? NULL) then n ← h !! e; Some (e, set_saved s (fileOffset n) e)
  else Some (e, s).

Definition getNext (h : memory) (s : t) (offset : Z) : option (Z * t) :=
  if offset =? UMAX then save h s (head s)
  else if savedOffset s =? offset then
    _ ← assertK (negb (savedEntry s =? NULL));
    n ← h !! savedEntry s;
    save h s (next n)
  else
    e ← find h s offset;
    if e =? NULL then save h s (head s)
    else n ← h !! e; save h s (next n).

Definition getFirst (s : t) : Z := head s.

(** getNext(PageDesc *p) *)
Definition getNextEntry (h : memory) (p : Z) : option Z := n ← h !! p; Some (next n).

(** ** Representation *)

(** What the specification keeps: the pages in order of arrival, each the
    address of its descriptor and its offset; the candidates for eviction in
    order; which pages are dirty or in transit. *)
Record pages := mkPages { list_of : list (Z * Z); free_of : list Z; busy : Z -> bool }.

Record rep (h : memory) (s : t) (sp : pages) : Prop := {
  rep_list : htrep h (head s) (tail s) (list_of sp);
  rep_dom : forall a, is_Some (h !! a) -> a ∈ (list_of sp).*1;
  rep_offsets : NoDup (list_of sp).*2;
  rep_num : numPages s = uwrap (Z.of_nat (length (list_of sp)));
  rep_free : frep h (freeList s) (free_of sp) (busy sp);
  rep_saved : savedOffset s = UMAX \/ (savedEntry s, savedOffset s) ∈ list_of sp;
}.

Lemma rep_lookup h s sp p : rep h s sp -> p ∈ (list_of sp).*1 -> p <> NULL /\ exists n, h !! p = Some n.
Proof.
  intros Hr Hin. apply list_elem_of_fmap in Hin as ([a d] & -> & Hin).
  destruct (htrep_elem _ _ _ _ _ _ (rep_list _ _ _ Hr) Hin) as (? & n & ? & _). eauto.
Qed.

(** A step of the free list. *)
Lemma rep_freelist h s L F B h' f' F' B' :
  rep h s (mkPages L F B) -> same_links h h' -> frep h' f' F' B' -> rep h' (set_freelist s f') (mkPages L F' B').
Proof.
  intros [[Hc Ht] Hdom Hoff Hnum _ Hsv] Hs Hf. constructor; cbn [list_of free_of busy] in *; try done.
  - split; [by apply (same_links_chain h)|done].
  - intros a Ha. apply Hdom. by apply (same_links_dom h h').
Qed.

(** ** The list of pages *)

Lemma same_fcore_dom h h' a : same_fcore h h' -> is_Some (h' !! a) -> is_Some (h !! a).
Proof. intros H [n Hn]. destruct (same_fcore_lookup _ _ _ _ H Hn) as (m & Hm & _). by exists m. Qed.

Lemma enqueue_rep h s L F B p fo pa ln :
  rep h s (mkPages L F B) -> p <> NULL -> p ∉ L.*1 -> fo ∉ L.*2 ->
  exists h' s', enqueue h s p fo pa ln = Some (p, (h', s')) /\
    rep h' s' (mkPages (L ++ [(p, fo)]) F (set_busy B p false)) /\ same_fcore (<[p := init_entry fo pa ln]> h) h'.
Proof.
  intros Hr Hp Hnin Hfo. assert (Hnone : h !! p = None).
  { destruct (h !! p) eqn:E; [|done]. destruct Hnin. apply (rep_dom _ _ _ Hr). by eexists. }
  destruct Hr as [Hl Hdom Hoff Hnum Hf Hsv]. cbn [list_of free_of busy] in *.
  pose proof (htrep_push_back _ _ _ _ p (init_entry fo pa ln) Hl Hnone Hp eq_refl) as Hpush.
  pose proof (htrep_head_null _ _ _ _ Hl) as Hhn. pose proof (htrep_tail_null _ _ _ _ Hl) as Htn.
  pose proof (insert_frep _ _ _ _ p fo pa ln Hf Hnone) as Hf1.
  set (h1 := <[p := init_entry fo pa ln]> h) in *. cbn [payload entry_linked fileOffset init_entry] in Hpush.
  assert (Hdom1 : forall a, is_Some (h1 !! a) -> a ∈ (L ++ [(p, fo)]).*1).
  { intros a [m Hm]. rewrite fmap_app. apply elem_of_app. apply lookup_insert_Some in Hm as [[<- _]|[_ Hm]]; [right; by left|].
    left. apply Hdom. by exists m. }
  assert (Hnd : NoDup (L ++ [(p, fo)]).*2).
  { rewrite fmap_app. apply NoDup_app. split; [done|]. split; [|by apply NoDup_singleton].
    intros x Hx Hx'. apply list_elem_of_singleton in Hx'. simpl in Hx'. by subst. }
  assert (Hsv1 : savedOffset s = UMAX \/ (savedEntry s, savedOffset s) ∈ L ++ [(p, fo)]).
  { destruct Hsv; [by left|]. right. apply elem_of_app. by left. }
  assert (Hnum1 : uadd (numPages s) 1 = uwrap (Z.of_nat (length (L ++ [(p, fo)])))).
  { rewrite Hnum, uadd_uwrap_succ, length_app. simpl. do 3 f_equal. lia. }
  unfold enqueue, enqueue_entry. rewrite (proj2 (Z.eqb_neq _ _) Hp). cbn [negb]. fold h1.
  replace (h1 !! p) with (Some (init_entry fo pa ln)) by (unfold h1; by rewrite lookup_insert_eq).
  cbn [mbind option_bind]. change (set_next NULL (init_entry fo pa ln)) with (init_entry fo pa ln).
  replace (<[p:=init_entry fo pa ln]> h1) with h1 by (unfold h1; by rewrite insert_insert_eq).
  destruct (Z.eqb_spec (tail s) NULL) as [E|E]; cbn [negb].
  - assert (Eh : head s = NULL) by (apply Hhn, Htn, E). rewrite Eh in Hpush. cbn [mbind option_bind].
    eexists _, _. split; [reflexivity|]. split; [by constructor|by intros a].
  - assert (Eh : head s <> NULL) by (intros Eh; apply E, Htn, Hhn, Eh). rewrite (proj2 (Z.eqb_neq _ _) Eh) in Hpush.
    destruct Hpush as (nt & Hnt & Hpush). fold h1 in Hnt. rewrite Hnt. cbn [mbind option_bind].
    pose proof (same_fcore_set_next h1 (tail s) nt p Hnt) as Hs.
    eexists _, _. split; [reflexivity|]. split; [|done]. constructor; cbn [list_of free_of busy]; try done.
    + intros a Ha. apply Hdom1. by apply (same_fcore_dom h1 (<[tail s := set_next p nt]> h1)).
    + by apply (same_fcore_frep h1).
Qed.

Lemma find_rep h s sp fo :
  rep h s sp -> find h s fo = Some (default NULL (fst <$> find_first (at_offset fo) (list_of sp))).
Proof.
  intros Hr. destruct (rep_list _ _ _ Hr) as [Hc _]. pose proof (chain_length _ _ _ Hc) as Hlen.
  unfold find. pose proof (walk_spec (fun _ n => fileOffset n =? fo) (at_offset fo) h _ NULL (head s) (S (size h))
    (fun _ _ _ => eq_refl) Hc ltac:(lia)) as Hw. unfold find_first.
  destruct (span_until (at_offset fo) (list_of sp)) as [l1 l2]. by rewrite Hw.
Qed.

(** A node of a list is the last one when it has no successor. *)
Lemma last_node h hd tl l1 b e l2 nb :
  htrep h hd tl (l1 ++ (b, e) :: l2) -> h !! b = Some nb -> (next nb =? NULL) = (tl =? b).
Proof.
  intros Hr Hb. pose proof (htrep_nodup _ _ _ _ Hr) as Hnd. destruct Hr as [Hc ->].
  apply chain_app in Hc as (m & _ & (-> & Hb0 & n' & Hn' & _ & Hc)). assert (n' = nb) as -> by congruence.
  destruct l2 as [|[u v] l2 _] using rev_ind.
  - simpl in Hc. rewrite Hc. by rewrite last_addr_snoc, !Z.eqb_refl.
  - rewrite app_comm_cons, app_assoc, last_addr_snoc. transitivity false.
    + apply Z.eqb_neq. intros E. apply (chain_null h) in Hc. apply Hc in E. by destruct l2.
    + symmetry. apply Z.eqb_neq. intros ->. rewrite fmap_app in Hnd. cbn [fmap list_fmap fst] in Hnd.
      apply NoDup_app in Hnd as (_ & _ & Hnd). apply NoDup_cons in Hnd as [Hnin _]. apply Hnin.
      rewrite fmap_app. apply elem_of_app. right. by left.
Qed.

(** The list surgery of dequeue. *)
Lemma dequeue_unlink h s A p fo C n :
  htrep h (head s) (tail s) (A ++ (p, fo) :: C) -> fo ∉ A.*2 -> h !! p = Some n ->
  exists prev h1 hd tl,
    walk (fun _ n => fileOffset n =? fo) (S (size h)) h NULL (head s) = Some (prev, p) /\ p <> NULL /\
    (if p =? head s then
       if head s =? tail s then Some (h, NULL, NULL) else Some (h, next n, tail s)
     else np ← h !! prev; Some (<[prev := set_next (next n) np]> h, head s, if next n =? NULL then prev else tail s))
    = Some (h1, hd, tl) /\
    htrep h1 hd tl (A ++ C) /\ same_fcore h h1 /\ (p ∉ (A ++ C).*1).
Proof.
  intros Hr Hfo Hn. pose proof (htrep_elem _ _ _ _ p fo Hr) as [Hp _]; [apply elem_of_app; right; by left|].
  pose proof (htrep_nodup _ _ _ _ Hr) as Hnd. pose proof Hr as [Hc _]. pose proof (chain_length _ _ _ Hc) as Hlen.
  assert (Hspan : span_until (at_offset fo) (A ++ (p, fo) :: C) = (A, (p, fo) :: C)).
  { apply span_until_intro; [|apply Z.eqb_refl]. apply Forall_forall. intros [b e] Hin. apply Z.eqb_neq. cbn [snd].
    intros ->. apply Hfo. apply list_elem_of_fmap. by exists (b, fo). }
  pose proof (walk_spec (fun _ n => fileOffset n =? fo) (at_offset fo) h _ NULL (head s) (S (size h))
    (fun _ _ _ => eq_refl) Hc ltac:(lia)) as Hw. rewrite Hspan in Hw. exists (last_addr NULL A).
  destruct A as [|[b e] A _] using rev_ind.
  - cbn [app] in *. destruct (htrep_pop _ _ _ _ _ _ Hr) as (Eh & _ & Hnin & n' & Hn' & _ & Hr').
    assert (n' = n) as -> by congruence. rewrite Eh, Z.eqb_refl. destruct (Z.eqb_spec p (tail s)) as [E|E].
    + rewrite <- E, Z.eqb_refl in Hr'. assert (C = []) as -> by by apply (htrep_tail_null _ _ _ _ Hr').
      exists h, NULL, NULL. rewrite Eh in Hw. done.
    + rewrite (proj2 (Z.eqb_neq (tail s) p)) in Hr' by congruence. exists h, (next n), (tail s). rewrite Eh in Hw. done.
  - rewrite last_addr_snoc in Hw |- *. rewrite <- app_assoc in Hr, Hnd. cbn [app] in Hr, Hnd.
    destruct (htrep_elem _ _ _ _ b e Hr) as (Hb & nb & Hnb & _); [apply elem_of_app; right; by left|].
    destruct (htrep_bypass _ _ _ _ _ _ _ _ _ _ _ Hr Hnb Hn) as [Hr' Hnin].
    assert (Hhd : p <> head s).
    { intros ->. apply Hnin. destruct Hr as [Hc' _]. destruct A as [|[u v] A]; destruct Hc' as (-> & _); by left. }
    rewrite (proj2 (Z.eqb_neq _ _) Hhd), Hnb. cbn [mbind option_bind].
    assert (Hln : (next n =? NULL) = (tail s =? p)).
    { eapply (last_node h (head s) (tail s) (A ++ [(b, e)])); [|done]. rewrite <- app_assoc. exact Hr. }
    eexists _, _, _. split; [exact Hw|]. split; [done|]. split; [reflexivity|]. rewrite Hln.
    rewrite <- app_assoc. cbn [app]. split; [exact Hr'|]. split; [by apply same_fcore_set_next|done].
Qed.

Lemma remove_page_rep h s A p fo C F B :
  rep h s (mkPages (A ++ (p, fo) :: C) F B) ->
  exists h' s', remove h s fo = Some (h', s') /\ rep h' s' (mkPages (A ++ C) (remove_first (fun a => a =? p) F) B) /\
    same_data_but p h h'.
Proof.
  intros [Hl Hdom Hoff Hnum Hf Hsv]. cbn [list_of free_of busy] in *.
  pose proof Hoff as Hoff'. rewrite fmap_app, fmap_cons in Hoff'. cbn [snd] in Hoff'. apply NoDup_app in Hoff' as (H1 & H2 & H3).
  apply NoDup_cons in H3 as [H3 H4].
  assert (Hfo : fo ∉ A.*2) by (intros Hin; apply (H2 fo Hin); by left).
  destruct (htrep_elem _ _ _ _ p fo Hl) as (_ & n & Hn & _); [apply elem_of_app; right; by left|].
  destruct (dequeue_unlink _ _ _ _ _ _ _ Hl Hfo Hn) as (prev & h1 & hd & tl & Hw & Hp & Hif & Hl1 & Hsf1 & Hnin).
  unfold remove, dequeue. rewrite Hw. cbn [mbind option_bind]. rewrite (proj2 (Z.eqb_neq _ _) Hp), Hn. cbn [mbind option_bind].
  rewrite Hif. cbn [mbind option_bind].
  destruct (same_fcore_inv _ _ _ _ Hsf1 Hn) as (n1 & Hn1 & E1). rewrite Hn1. cbn [mbind option_bind].
  set (h2 := <[p := set_next NULL n1]> h1).
  set (s1 := set_list s hd tl (usub (numPages s) 1)).
  set (s2 := if fo =? savedOffset s1 then set_saved s1 UMAX (savedEntry s1) else s1).
  assert (Hs2 : head s2 = hd /\ tail s2 = tl /\ numPages s2 = usub (numPages s) 1 /\ freeList s2 = freeList s /\
    (savedOffset s2 = UMAX \/ savedOffset s2 <> fo /\ savedOffset s2 = savedOffset s /\ savedEntry s2 = savedEntry s)).
  { unfold s2. cbn [savedOffset s1 set_list]. destruct (Z.eqb_spec fo (savedOffset s)) as [E|E]; split_and!; try done; [by left|].
    right. split_and!; [unfold s1; cbn [savedOffset set_list]; congruence|done|done]. }
  destruct Hs2 as (E_hd & E_tl & E_num & E_f & E_sv).
  assert (Hsf : same_fcore h h2) by (etrans; [exact Hsf1|by apply same_fcore_set_next]).
  pose proof (same_fcore_frep _ _ _ _ _ Hsf Hf) as Hf2. rewrite <- E_f in Hf2.
  assert (Hn2 : h2 !! p = Some (set_next NULL n1)) by (unfold h2; by rewrite lookup_insert_eq).
  destruct (drop_frep _ _ _ _ _ _ Hf2 Hn2) as (h3 & f3 & Hdq & Hf3 & Hsc3). pose proof (same_core_links _ _ Hsc3) as Hlk.
  change (free (set_next NULL n1)) with (free n1) in Hdq.
  assert (Hrun : (if free n1 then dequeueFreeList h2 s2 p else Some (h2, s2)) = Some (h3, set_freelist s2 f3)).
  { unfold dequeueFreeList, on_freelist. destruct (free n1); [by rewrite Hdq|]. injection Hdq as <- <-. by destruct s2. }
  rewrite Hrun. cbn [mbind option_bind]. rewrite (proj2 (Z.eqb_neq _ _) Hp). cbn [negb]. eexists _, _. split; [reflexivity|].
  split; [|etrans; [by apply same_fcore_data|etrans; [by apply same_core_data|apply same_data_delete]]].
  constructor; cbn [list_of free_of busy head tail numPages freeList savedOffset savedEntry set_freelist].
  - apply htrep_delete_ne; [done|]. rewrite E_hd, E_tl. pose proof (htrep_insert_ne _ _ _ _ p (set_next NULL n1) Hnin Hl1) as [Hc Ht].
    split; [|done]. by apply (same_links_chain h2).
  - intros a Ha. assert (Hap : a <> p) by (intros ->; rewrite lookup_delete_eq in Ha; by destruct Ha).
    rewrite lookup_delete_ne in Ha by done. assert (Ha' : a ∈ (A ++ (p, fo) :: C).*1).
    { apply Hdom. apply (same_fcore_dom h h2); [done|]. by apply (same_links_dom h2 h3). }
    rewrite fmap_app in *. cbn [fmap list_fmap fst] in Ha'. rewrite elem_of_app, elem_of_cons in Ha'. rewrite elem_of_app. tauto.
  - rewrite fmap_app. apply NoDup_app. split; [done|]. split; [|done]. intros x Hx Hx'. apply (H2 x Hx). by right.
  - rewrite E_num, Hnum, !length_app. cbn [length]. rewrite Nat.add_succ_r. apply usub_uwrap_pred.
  - done.
  - destruct E_sv as [?|(Hne & E2 & E3)]; [by left|]. destruct Hsv as [?|Hsv]; [left; congruence|]. right.
    rewrite E2, E3. rewrite E2 in Hne. rewrite elem_of_app, elem_of_cons in Hsv. rewrite elem_of_app.
    destruct Hsv as [?|[?|?]]; [by left|simplify_eq|by right].
Qed.

(** Removing an offset that is not there. *)
Lemma remove_absent h s sp fo : rep h s sp -> fo ∉ (list_of sp).*2 -> remove h s fo = Some (h, s).
Proof.
  intros Hr Hfo. pose proof (find_rep _ _ _ fo Hr) as Hf. unfold remove, dequeue. unfold find in Hf.
  destruct (walk (fun _ n => fileOffset n =? fo) (S (size h)) h NULL (head s)) as [[prev q]|]; [|done].
  cbn [mbind option_bind] in *. injection Hf as ->.
  replace (find_first (at_offset fo) (list_of sp)) with (@None (Z * Z)); [done|]. symmetry. apply find_first_None.
  apply Forall_forall. intros [a d] Hin. apply Z.eqb_neq. cbn [snd]. intros ->. apply Hfo. apply list_elem_of_fmap. by exists (a, fo).
Qed.

(** ** The walk by offset *)

(** The page after the one at [fo], without any cursor: the first page for the
    start marker and for an offset that is not there. *)
Definition next_page (L : list (Z * Z)) (fo : Z) : option (Z * Z) :=
  if fo =? UMAX then List.hd_error L
  else match snd (span_until (at_offset fo) L) with
       | [] => List.hd_error L
       | _ :: l => List.hd_error l
       end.

Lemma save_rep h s sp e d l0 l1 :
  rep h s sp -> list_of sp = l0 ++ l1 -> chain h e l1 NULL -> d = default NULL (fst <$> List.hd_error l1) ->
  exists s', save h s e = Some (d, s') /\ rep h s' sp.
Proof.
  intros Hr HL Hc ->. unfold save. destruct l1 as [|[a fo] l1].
  - simpl in Hc. subst e. exists s. done.
  - destruct Hc as (-> & Ha & n & Hn & Hfo & _). rewrite (proj2 (Z.eqb_neq _ _) Ha). cbn [negb]. rewrite Hn. cbn [mbind option_bind].
    eexists. split; [reflexivity|]. destruct Hr. constructor; try done. right. cbn [savedEntry savedOffset set_saved].
    change (fileOffset n) with (payload n). rewrite Hfo, HL. apply elem_of_app. right. by left.
Qed.

Lemma getNext_rep h s sp fo :
  rep h s sp ->
  exists s', getNext h s fo = Some (default NULL (fst <$> next_page (list_of sp) fo), s') /\ rep h s' sp.
Proof.
  intros Hr. pose proof Hr as [[Hc _] _ Hoff _ _ Hsv]. set (L := list_of sp) in *. unfold getNext, next_page.
  assert (Hafter : forall A a C, L = A ++ (a, fo) :: C -> exists n, h !! a = Some n /\ chain h (next n) C NULL).
  { intros A a C E. rewrite E in Hc. apply chain_app in Hc as (m & _ & (-> & _ & n & Hn & _ & Hc)). eauto. }
  destruct (fo =? UMAX) eqn:EU; [by apply (save_rep h s sp _ _ [] L)|].
  destruct (Z.eqb_spec (savedOffset s) fo) as [E|E].
  - destruct Hsv as [Hsv|Hsv]; [bool_props; congruence|]. rewrite E in Hsv.
    destruct (span_at L (savedEntry s) fo Hoff Hsv) as (A & C & HL & ->). cbn [snd].
    destruct (chain_elem _ _ _ _ _ _ Hc Hsv) as (Hne & _). rewrite (proj2 (Z.eqb_neq _ _) Hne). cbn [negb assertK mbind option_bind].
    destruct (Hafter A _ C HL) as (n & -> & Hn). cbn [mbind option_bind].
    apply (save_rep h s sp _ _ (A ++ [(savedEntry s, fo)]) C); [done|by rewrite <- app_assoc|done|done].
  - rewrite (find_rep _ _ _ fo Hr). cbn [mbind option_bind]. fold L. unfold find_first.
    destruct (span_until (at_offset fo) L) as [A [|[a d] C]] eqn:Es; cbn [snd List.hd_error].
    + by apply (save_rep h s sp _ _ [] L).
    + pose proof (span_until_head _ _ _ _ _ Es) as Hd. unfold at_offset in Hd. cbn [snd] in Hd. bool_props. subst d.
      apply span_until_app in Es. destruct (Hafter A a C Es) as (n & Hn & Hcn).
      destruct (chain_elem _ _ _ _ a fo Hc) as (Hne & _); [rewrite Es; apply elem_of_app; right; by left|].
      cbn. rewrite (proj2 (Z.eqb_neq _ _) Hne). fold (h !! a). rewrite Hn. cbn [mbind option_bind].
      apply (save_rep h s sp _ _ (A ++ [(a, fo)]) C); [done|rewrite <- app_assoc; exact Es|done|done].
Qed.

(** ** Refinement *)

Inductive op :=
| Enqueue (p fo pa ln : Z) | Find (fo : Z) | Remove (fo : Z) | GetNext (fo : Z)
| MarkFree (p : Z) | Reclaim (p : Z) | TakeFree (type : dqtype) | SetFlags (p : Z) (d io : bool)
| NumPages | NumPagesFree.

Definition exec (hs : memory * t) (o : op) : option (Z * (memory * t)) :=
  let '(h, s) := hs in
  match o with
  | Enqueue p fo pa ln => enqueue h s p fo pa ln
  | Find fo => r ← find h s fo; Some (r, hs)
  | Remove fo => hs' ← remove h s fo; Some (0, hs')
  | GetNext fo => '(r, s') ← getNext h s fo; Some (r, (h, s'))
  | MarkFree p => hs' ← on_freelist s (markFree h (freeList s) p); Some (0, hs')
  | Reclaim p => hs' ← on_freelist s (reclaim h (freeList s) p); Some (0, hs')
  | TakeFree type => '(pg, (h', f)) ← takeFree h (freeList s) type; Some (pg, (h', set_freelist s f))
  | SetFlags p d io => h' ← setFlags h p d io; Some (0, (h', s))
  | NumPages => Some (numPages s, hs)
  | NumPagesFree => Some (numPagesFree (freeList s), hs)
  end.

Fixpoint run (hs : memory * t) (ops : list op) : option (list Z) :=
  match ops with
  | [] => Some []
  | o :: ops => '(r, hs') ← exec hs o; rs ← run hs' ops; Some (r :: rs)
  end.

(** What the cache manager guarantees: a descriptor is new (or the allocator
    had none) and its offset is not cached yet; the pages it names are there. *)
Definition allowed (sp : pages) (o : op) : bool :=
  match o with
  | Enqueue p fo _ _ => (p =? NULL) || bool_decide (p ∉ (list_of sp).*1) && bool_decide (fo ∉ (list_of sp).*2)
  | MarkFree p | Reclaim p | SetFlags p _ _ => bool_decide (p ∈ (list_of sp).*1)
  | _ => true
  end.

Definition spec (sp : pages) (o : op) : Z * pages :=
  let '(mkPages L F B) := sp in
  match o with
  | Enqueue p fo _ _ => (p, if p =? NULL then sp else mkPages (L ++ [(p, fo)]) F (set_busy B p false))
  | Find fo => (default NULL (fst <$> find_first (at_offset fo) L), sp)
  | Remove fo =>
      (0, match find_first (at_offset fo) L with
          | Some (p, _) => mkPages (remove_first (at_offset fo) L) (remove_first (fun a => a =? p) F) B
          | None => sp
          end)
  | GetNext fo => (default NULL (fst <$> next_page L fo), sp)
  | MarkFree p => (0, if bool_decide (p ∈ F) then sp else mkPages L (F ++ [p]) B)
  | Reclaim p => (0, mkPages L (remove_first (fun a => a =? p) F) B)
  | TakeFree type => (default NULL (find_first (accepts B type) F), mkPages L (remove_first (accepts B type) F) B)
  | SetFlags p d io => (0, mkPages L F (set_busy B p (io || d)))
  | NumPages => (uwrap (Z.of_nat (length L)), sp)
  | NumPagesFree => (uwrap (Z.of_nat (length F)), sp)
  end.

Fixpoint spec_run (sp : pages) (ops : list op) : option (list Z) :=
  match ops with
  | [] => Some []
  | o :: ops =>
      if allowed sp o then let '(r, sp') := spec sp o in rs ← spec_run sp' ops; Some (r :: rs) else None
  end.

Definition empty_pages : pages := mkPages [] [] (fun _ => false).

Lemma pagelist_init_rep : rep ∅ init empty_pages.
Proof.
  constructor; [done| |constructor|done| |by left].
  - intros a [m Hm]. by rewrite lookup_empty in Hm.
  - constructor; [done|done|..]; intros a m Hm; by rewrite lookup_empty in Hm.
Qed.

Lemma exec_remove h s L F B fo :
  rep h s (mkPages L F B) -> exists h' s', remove h s fo = Some (h', s') /\ rep h' s' (spec (mkPages L F B) (Remove fo)).2.
Proof.
  intros Hr. cbn [spec snd]. unfold find_first, remove_first. destruct (span_until (at_offset fo) L) as [A [|[p d] C]] eqn:Es; cbn [snd head].
  - exists h, s. split; [|done]. apply (remove_absent _ _ _ _ Hr). cbn [list_of]. apply span_until_none in Es as [_ Hf].
    rewrite Forall_forall in Hf. intros Hin. apply list_elem_of_fmap in Hin as ([a e] & -> & Hin). specialize (Hf _ Hin).
    unfold at_offset in Hf. bool_props. done.
  - pose proof (span_until_head _ _ _ _ _ Es) as Hd. unfold at_offset in Hd. cbn [snd] in Hd. bool_props. subst d.
    apply span_until_app in Es as ->. destruct (remove_page_rep _ _ _ _ _ _ _ _ Hr) as (h' & s' & ? & ? & _). eauto.
Qed.

Lemma pagelist_exec_rep h s sp o :
  rep h s sp -> allowed sp o = true ->
  exists h' s', exec (h, s) o = Some ((spec sp o).1, (h', s')) /\ rep h' s' (spec sp o).2.
Proof.
  intros Hr Ha. destruct sp as [L F B]. pose proof (rep_free _ _ _ Hr) as Hf. cbn [free_of busy] in Hf.
  assert (Hpage : forall p, bool_decide (p ∈ L.*1) = true -> p <> NULL /\ exists n, h !! p = Some n).
  { intros p Hp. apply bool_decide_eq_true in Hp. by apply (rep_lookup _ _ _ p Hr). }
  destruct o as [p fo pa ln|fo|fo|fo|p|p|type|p d io| |]; cbn [exec allowed list_of free_of] in *.
  - cbn [spec fst snd]. destruct (Z.eqb_spec p NULL) as [->|Hp]; [by exists h, s|]. cbn [orb] in Ha. bool_props.
    apply bool_decide_eq_true in H, H0. destruct (enqueue_rep _ _ _ _ _ p fo pa ln Hr Hp H H0) as (h' & s' & ? & ? & _). eauto.
  - exists h, s. rewrite (find_rep _ _ _ fo Hr). done.
  - destruct (exec_remove _ _ _ _ _ fo Hr) as (h' & s' & -> & Hr'). exists h', s'. done.
  - destruct (getNext_rep _ _ _ fo Hr) as (s' & -> & Hr'). exists h, s'. done.
  - destruct (Hpage p Ha) as (Hp & n & Hn). destruct (markFree_frep _ _ _ _ _ _ Hf Hp Hn) as (h' & f' & -> & Hf' & Hs).
    exists h', (set_freelist s f'). split; [done|]. cbn [spec snd]. pose proof (rep_freelist _ _ _ _ _ _ _ _ _ Hr Hs Hf') as Hr'. by case_bool_decide.
  - destruct (Hpage p Ha) as (Hp & n & Hn). destruct (reclaim_frep _ _ _ _ _ _ Hf Hn) as (h' & f' & -> & Hf' & Hs).
    exists h', (set_freelist s f'). split; [done|]. by apply (rep_freelist h s L F B).
  - destruct (takeFree_frep _ _ _ _ type Hf) as (h' & f' & -> & Hf' & Hs).
    exists h', (set_freelist s f'). split; [done|]. by apply (rep_freelist h s L F B).
  - destruct (Hpage p Ha) as (Hp & n & Hn). destruct (setFlags_frep _ _ _ _ _ _ d io Hf Hn) as (h' & -> & Hf' & Hs).
    exists h', s. split; [done|]. pose proof (rep_freelist _ _ _ _ _ _ _ _ _ Hr Hs Hf') as Hr'. by destruct s.
  - exists h, s. cbn [spec fst snd]. by rewrite (rep_num _ _ _ Hr).
  - exists h, s. cbn [spec fst snd]. by rewrite (fr_num _ _ _ _ Hf).
Qed.

Lemma pagelist_run_rep h s sp ops rs : rep h s sp -> spec_run sp ops = Some rs -> run (h, s) ops = Some rs.
Proof.
  revert h s sp rs. induction ops as [|o ops IH]; intros h s sp rs Hr Hs; [done|]. cbn [spec_run run] in *.
  destruct (allowed sp o) eqn:Ha; [|done]. destruct (pagelist_exec_rep h s sp o Hr Ha) as (h' & s' & He & Hr').
  destruct (spec sp o) as [r sp']. cbn [fst snd] in *. destruct (spec_run sp' ops) as [rs'|] eqn:E; [|done]. injection Hs as <-.
  rewrite He. cbn [mbind option_bind]. by rewrite (IH h' s' sp' rs' Hr' E).
Qed.

(** The list of resident pages and the list of candidates for eviction,
    which share their descriptors, behave as two plain lists under any sequence
    of calls a cache manager makes: pages are found by offset and walked in
    order of arrival (with the cursor giving the same page as a search would),
    candidates leave in order of arrival among those of the wanted kind, a page
    that is removed leaves both lists, the counters are exact, and no assertion
    fails and no freed descriptor is touched. *)
Theorem pagelist_refines (ops : list op) (rs : list Z) :
  spec_run empty_pages ops = Some rs -> run (∅, init) ops = Some rs.
Proof. apply pagelist_run_rep, pagelist_init_rep. Qed.

Lemma pagelist_refines_witness :
  let ops := [Enqueue 100 0 0x1000 4096; Enqueue 200 4096 0x2000 4096; Enqueue 300 8192 0x3000 4096;
              MarkFree 200; MarkFree 100; MarkFree 300; SetFlags 200 true false; GetNext UMAX; GetNext 0;
              Remove 4096; GetNext 4096; TakeFree DQ_DIRTY; TakeFree DQ_HEAD; GetNext 0; NumPages; NumPagesFree] in
  run (∅, init) ops = Some [100; 200; 300; 0; 0; 0; 0; 100; 200; 0; 100; 0; 100; 300; 2; 1].
Proof. intros ops. apply (pagelist_refines ops). vm_compute. reflexivity. Defined.

(** ** The promise to the cache managers *)

#[export] Instance pagelist_holder : PageHolder.PageHolder t.
Proof.
  refine {|
    PageHolder.find := find;
    PageHolder.enqueue := fun h s _ p fo pa ln => enqueue h s p fo pa ln;
    PageHolder.remove := remove;
    PageHolder.getFirst := fun h s => Some (getFirst s, s);
    PageHolder.getNext := fun h s p => getNextEntry h p;
    PageHolder.getNumPages := numPages;
    PageHolder.freeList := freeList;
    PageHolder.set_freeList := set_freelist;
    PageHolder.offset_ok := fun _ => true;
    PageHolder.holds := fun h s L F B => rep h s (mkPages L F B);
  |}.
  - intros h s L F B Hr. exact (rep_offsets _ _ _ Hr).
  - intros h s L F B a fo Hr Hin. destruct (htrep_elem _ _ _ _ _ _ (rep_list _ _ _ Hr) Hin) as (? & n & ? & ?). eauto.
  - intros h s L F B a Hr Ha. exact (rep_dom _ _ _ Hr a Ha).
  - intros h s L F B Hr. exact (rep_free _ _ _ Hr).
  - intros h s L F B h' f' F' B'. apply rep_freelist.
  - by intros [].
  - intros h s L F B fo Hr _. exact (find_rep _ _ _ fo Hr).
  - intros h s L F B _ p fo pa ln Hr _ _ Hp Hnin Hfo. destruct (enqueue_rep _ _ _ _ _ p fo pa ln Hr Hp Hnin Hfo) as (h' & s' & He & Hr' & Hs).
    exists h', s', (L ++ [(p, fo)]). split; [done|]. split; [by rewrite Permutation_app_comm|]. split; [done|]. split.
    + etrans; [apply same_data_insert|by apply same_fcore_data].
    + specialize (Hs p). rewrite lookup_insert_eq in Hs. destruct (h' !! p) as [n|]; [|done]. injection Hs. intros. cbn. unfold data, init_entry. cbn. congruence.
  - intros h s A a fo C F B Hr _. by apply remove_page_rep.
  - intros h s L F B Hr. exists s. split; [|done]. destruct (rep_list _ _ _ Hr) as [Hc _]. cbn [list_of] in Hc. f_equal. f_equal. exact (chain_head _ _ _ Hc).
  - intros h s A a fo C F B Hr. destruct (rep_list _ _ _ Hr) as [Hc _]. cbn [list_of] in Hc.
    apply chain_app in Hc as (m & _ & (_ & _ & n & Hn & _ & Hc)). unfold getNextEntry. rewrite Hn. cbn [mbind option_bind]. f_equal. exact (chain_head _ _ _ Hc).
  - intros h s L F B Hr. exact (rep_num _ _ _ Hr).
Defined.

End PageList.
