(* ===== verification/PageSet.v ===== *)
(** * PageSet: the resident pages of a file cache as a hash table, os/kernel/mem/PageSet.C

    The same descriptors and free list as PageList, with the pages in a hash
    table by file offset that starts with four buckets inside the object and
    grows.  The chains run through the descriptors; [mem] lists the sizes of the
    tables obtained from the allocator and not yet returned. *)

From stdpp Require Import base numbers option gmap list.
From S2P Require Import K42 Prelude DList PageDesc PageHolder.

Module PageSet.
Import PageDesc.

Abbreviation memory := (gmap Z Entry) (only parsing).

Definition InitialHashTableSize : Z := 4.

Record t := mkPS {
  hashTable : list Z;
  isInitial : bool;               (* hashTable == initialTable *)
  hashMask : Z; numPages : Z; firstIndexUsed : Z;
  freeList : flist;
  mem : list Z;
}.

Definition init : t :=
  mkPS (replicate 4 NULL) true (InitialHashTableSize - 1) 0 (InitialHashTableSize - 1) (mkFL NULL NULL 0) [].

Definition bucket (mask fo : Z) : Z := Z.land (Z.shiftr fo LOG_PAGE_SIZE) mask.

Definition hash (s : t) (fo : Z) : Z := bucket (hashMask s) fo.

Definition set_table (s : t) (tab : list Z) (num first : Z) : t :=
  mkPS tab (isInitial s) (hashMask s) num first (freeList s) (mem s).

Definition set_freelist (s : t) (f : flist) : t :=
  mkPS (hashTable s) (isInitial s) (hashMask s) (numPages s) (firstIndexUsed s) f (mem s).

(** ALLOC::free of a table. *)
Definition free_table (sz : Z) (m : list Z) : option (list Z) :=
  _ ← assertK (bool_decide (sz ∈ m));
  Some (remove_first (fun x => x =? sz) m).

(** enqueue(Entry *p) *)
Definition enqueue_entry (h : memory) (s : t) (p : Z) : option (memory * t) :=
  n ← h !! p;
  let index := hash s (fileOffset n) in
  first ← hashTable s !! Z.to_nat index;
  Some (<[p := set_next first n]> h,
        set_table s (<[Z.to_nat index := p]> (hashTable s)) (uadd (numPages s) 1)
          (if index <? firstIndexUsed s then index else firstIndexUsed s)).

(** The new size: while (2*numPages >= i) i = 2*i. *)
Fixpoint grow (fuel : nat) (num i : Z) : option Z :=
  match fuel with
  | O => None
  | S fuel => if i <=? umul 2 num then grow fuel num (umul 2 i) else Some i
  end.

(** Moving one chain of the old table. *)
Fixpoint move_chain (fuel : nat) (h : memory) (s : t) (nexte : Z) : option (memory * t) :=
  match fuel with
  | O => None
  | S fuel =>
      if nexte =? NULL then Some (h, s)
      else
        n ← h !! nexte;
        '(h1, s1) ← enqueue_entry h s nexte;
        move_chain fuel h1 s1 (next n)
  end.

Fixpoint move_table (old : list Z) (h : memory) (s : t) : option (memory * t) :=
  match old with
  | [] => Some (h, s)
  | p :: old => '(h1, s1) ← move_chain (S (size h)) h s p; move_table old h1 s1
  end.

(** [ok]: the allocator has a table. *)
Definition extendHash (h : memory) (s : t) (ok : bool) : option (memory * t) :=
  let i := umul 2 (uadd (hashMask s) 1) in
  i ← grow 64 (numPages s) (if i <? 128 then 128 else i);
  if negb ok then
    Some (h, mkPS (hashTable s) (isInitial s) (hashMask s) (numPages s) 0 (freeList s) (mem s))
  else
    let s0 := mkPS (replicate (Z.to_nat i) NULL) false (usub i 1) 0 (firstIndexUsed s) (freeList s) (umul 8 i :: mem s) in
    '(h1, s1) ← move_table (hashTable s) h s0;
    _ ← assertK (numPages s1 =? numPages s);
    if isInitial s then Some (h1, s1)
    else
      m ← free_table (umul 8 (uadd (hashMask s) 1)) (mem s1);
      Some (h1, mkPS (hashTable s1) (isInitial s1) (hashMask s1) (numPages s1) (firstIndexUsed s1) (freeList s1) m).

Definition destroy (s : t) : option (list Z) :=
  if isInitial s then Some (mem s) else free_table (umul 8 (uadd (hashMask s) 1)) (mem s).

Definition find (h : memory) (s : t) (fo : Z) : option Z :=
  first ← hashTable s !! Z.to_nat (hash s fo);
  '(_, p) ← walk (fun _ n => fileOffset n =? fo) (S (size h)) h NULL first;
  Some p.

(** enqueue(fileOffset, paddr, len); [p] is what new returned. *)
Definition enqueue (h : memory) (s : t) (ok : bool) (p fo pa ln : Z) : option (Z * (memory * t)) :=
  '(h1, s1) ← (if hashMask s <? umul 2 (numPages s) then extendHash h s ok else Some (h, s));
  if negb (p =? NULL) then
    hs ← enqueue_entry (<[p := init_entry fo pa ln]> h1) s1 p;
    Some (p, hs)
  else Some (p, (h1, s1)).

Definition on_freelist (s : t) (r : option (memory * flist)) : option (memory * t) :=
  '(h, f) ← r; Some (h, set_freelist s f).

(** dequeueFreeList(PageDesc *pg) *)
Definition dequeueFreeList (h : memory) (s : t) (p : Z) : option (memory * t) :=
  on_freelist s (PageDesc.dequeueFreeList h (freeList s) p).

Definition enqueueFreeList (h : memory) (s : t) (p : Z) : option (memory * t) :=
  on_freelist s (PageDesc.enqueueFreeList h (freeList s) p).

(** dequeueFreeList(PageDesc::dqtype type) *)
Definition dequeueFreeListType (h : memory) (s : t) (type : dqtype) : option (Z * (memory * t)) :=
  '(pg, (h1, f)) ← PageDesc.dequeueFreeListType h (freeList s) type;
  Some (pg, (h1, set_freelist s f)).

Definition dequeue (h : memory) (s : t) (fo : Z) : option (Z * (memory * t)) :=
  let index := hash s fo in
  first ← hashTable s !! Z.to_nat index;
  '(prev, p) ← walk (fun _ n => fileOffset n =? fo) (S (size h)) h NULL first;
  if p =? NULL then Some (NULL, (h, s))
  else
    n ← h !! p;
    '(h1, tab) ←
      (if prev =? NULL then Some (h, <[Z.to_nat index := next n]> (hashTable s))
       else
         np ← h !! prev;
         Some (<[prev := set_next (next n) np]> h, hashTable s));
    n1 ← h1 !! p;
    let h2 := <[p := set_next NULL n1]> h1 in
    let s2 := set_table s tab (usub (numPages s) 1) (firstIndexUsed s) in
    hs ← (if free n1 then dequeueFreeList h2 s2 p else Some (h2, s2));
    Some (p, hs).

Definition remove (h : memory) (s : t) (fo : Z) : option (memory * t) :=
  '(pg, (h1, s1)) ← dequeue h s fo;
  Some (if negb (pg =? NULL) then delete pg h1 else h1, s1).

(** The first non-empty bucket from [index] on. *)
Fixpoint scan (fuel : nat) (s : t) (index : Z) : option (option (Z * Z)) :=
  match fuel with
  | O => None
  | S fuel =>
      if index <=? hashMask s then
        e ← hashTable s !! Z.to_nat index;
        if negb (e =? NULL) then Some (Some (index, e)) else scan fuel s (uadd index 1)
      else Some None
  end.

Definition scan_fuel (s : t) : nat := S (S (length (hashTable s))).

Definition getFirst (s : t) : option (Z * t) :=
  r ← scan (scan_fuel s) s (firstIndexUsed s);
  Some (match r with
        | Some (index, e) => (e, set_table s (hashTable s) (numPages s) index)
        | None => (NULL, s)
        end).

(** getNext(PageDesc *p) *)
Definition getNextEntry (h : memory) (s : t) (p : Z) : option Z :=
  n ← h !! p;
  if negb (next n =? NULL) then Some (next n)
  else
    r ← scan (scan_fuel s) s (uadd (hash s (fileOffset n)) 1);
    Some (match r with Some (_, e) => e | None => NULL end).

(** getNext(uval fileOffset) *)
Definition getNext (h : memory) (s : t) (fo : Z) : option (Z * t) :=
  if fo =? UMAX then getFirst s
  else
    e ← find h s fo;
    if e =? NULL then
      r ← scan (scan_fuel s) s (uadd (hash s fo) 1);
      match r with
      | Some (_, node) => Some (node, s)
      | None => getFirst s
      end
    else e' ← getNextEntry h s e; Some (e', s).

(** ** The buckets

    [M] maps the offsets of the resident pages to their descriptors; the chain
    of bucket [i] holds those that hash there. *)
Definition holds (M : gmap Z Z) (mask : Z) (i : nat) (l : list (Z * Z)) : Prop :=
  forall a fo, (a, fo) ∈ l <-> M !! fo = Some a /\ bucket mask fo = Z.of_nat i.

Definition buckets (h : memory) (tab : list Z) (mask : Z) (M : gmap Z Z) : Prop :=
  forall i p, tab !! i = Some p -> exists l, chain h p l NULL /\ holds M mask i l.

Lemma bucket_range mask fo : 0 <= mask -> 0 <= bucket mask fo <= mask.
Proof. apply land_le_mask. Qed.

Lemma bucket_lookup (tab : list Z) mask fo :
  0 <= mask -> Z.of_nat (length tab) = mask + 1 -> exists p, tab !! Z.to_nat (bucket mask fo) = Some p.
Proof. intros Hm Hl. pose proof (bucket_range mask fo Hm). apply lookup_lt_is_Some_2. lia. Qed.

(** The search along the chain of an offset. *)
Lemma walk_bucket h p l M mask fo :
  chain h p l NULL -> holds M mask (Z.to_nat (bucket mask fo)) l -> 0 <= mask ->
  (M !! fo = None /\ exists prev, walk (fun _ n => fileOffset n =? fo) (S (size h)) h NULL p = Some (prev, NULL)) \/
  (exists a A C, M !! fo = Some a /\ l = A ++ (a, fo) :: C /\
     walk (fun _ n => fileOffset n =? fo) (S (size h)) h NULL p = Some (last_addr NULL A, a)).
Proof.
  intros Hc Hh Hm. pose proof (chain_length _ _ _ Hc) as Hlen. pose proof (bucket_range mask fo Hm) as Hb.
  pose proof (walk_spec (fun _ n => fileOffset n =? fo) (at_offset fo) h _ NULL p (S (size h)) (fun _ _ _ => eq_refl) Hc ltac:(lia)) as Hw.
  destruct (span_until (at_offset fo) l) as [A [|[a d] C]] eqn:Es.
  - left. split; [|by eexists]. destruct (M !! fo) as [a|] eqn:E; [|done]. exfalso. apply span_until_none in Es as [_ Hf].
    rewrite Forall_forall in Hf. assert (Hin : (a, fo) ∈ l) by (apply Hh; split; [done|lia]). specialize (Hf _ Hin).
    unfold at_offset in Hf. bool_props. done.
  - right. pose proof (span_until_head _ _ _ _ _ Es) as Hd. unfold at_offset in Hd. cbn [snd] in Hd. bool_props. subst d.
    apply span_until_app in Es as ->. exists a, A, C. split; [|done]. apply Hh. apply elem_of_app. right. by left.
Qed.

(** A page that is on no chain is put on its own. *)
Lemma buckets_enqueue h tab mask M p n first :
  buckets h tab mask M -> 0 <= mask -> h !! p = Some n -> p <> NULL ->
  M !! fileOffset n = None -> (forall fo, M !! fo <> Some p) ->
  tab !! Z.to_nat (bucket mask (fileOffset n)) = Some first ->
  buckets (<[p := set_next first n]> h) (<[Z.to_nat (bucket mask (fileOffset n)) := p]> tab) mask (<[fileOffset n := p]> M).
Proof.
  intros Hb Hm Hn Hp Hfo Hnew Hfirst i q Hq. pose proof (bucket_range mask (fileOffset n) Hm) as Hr. set (fo := fileOffset n) in *.
  assert (Hnin : forall j l, holds M mask j l -> p ∉ l.*1).
  { intros j l Hl Hin. apply list_elem_of_fmap in Hin as ([a e] & E & Hin). cbn [fst] in E. subst a. apply Hl in Hin as [Hin _]. by apply (Hnew e). }
  apply list_lookup_insert_Some in Hq as [(<- & <- & _)|(Hne & Hq)].
  - destruct (Hb _ _ Hfirst) as (l & Hc & Hl). exists ((p, fo) :: l). split.
    + split; [done|]. split; [done|]. exists (set_next first n). rewrite lookup_insert_eq. split; [done|]. split; [done|].
      rewrite next_set_next. by apply chain_insert_ne; [eapply Hnin|].
    + intros a e. rewrite elem_of_cons, (Hl a e). destruct (decide (e = fo)) as [->|He].
      * rewrite lookup_insert_eq, Hfo. split; [intros [[= ->]|[? _]]; [split; [done|lia]|done]|intros [[= ->] _]; by left].
      * rewrite lookup_insert_ne by done. split; [intros [?|?]; [congruence|done]|by right].
  - destruct (Hb _ _ Hq) as (l & Hc & Hl). exists l. split; [by apply chain_insert_ne; [eapply Hnin|]|].
    intros a e. rewrite (Hl a e). destruct (decide (e = fo)) as [->|He]; [|by rewrite lookup_insert_ne].
    rewrite Hfo. split; [by intros [? _]|]. intros [_ E]. destruct Hne. lia.
Qed.

(** The table and its counters. *)
Record tbl (h : memory) (s : t) (M : gmap Z Z) : Prop := {
  tb_mask : 0 <= hashMask s;
  tb_len : Z.of_nat (length (hashTable s)) = hashMask s + 1;
  tb_buckets : buckets h (hashTable s) (hashMask s) M;
  tb_num : numPages s = uwrap (Z.of_nat (size M));
  tb_first : 0 <= firstIndexUsed s <= hashMask s;
  tb_low : forall fo a, M !! fo = Some a -> firstIndexUsed s <= hash s fo;
}.

Definition same_rest (s s' : t) : Prop :=
  isInitial s' = isInitial s /\ hashMask s' = hashMask s /\ freeList s' = freeList s /\ mem s' = mem s.

Lemma enqueue_entry_tbl h s M p n :
  tbl h s M -> h !! p = Some n -> p <> NULL -> M !! fileOffset n = None -> (forall fo, M !! fo <> Some p) ->
  exists first s', enqueue_entry h s p = Some (<[p := set_next first n]> h, s') /\
    tbl (<[p := set_next first n]> h) s' (<[fileOffset n := p]> M) /\ same_rest s s'.
Proof.
  intros [Hm Hl Hb Hnum H0 Hlow] Hn Hp Hfo Hnew. destruct (bucket_lookup _ _ (fileOffset n) Hm Hl) as (first & Hfirst).
  pose proof (bucket_range (hashMask s) (fileOffset n) Hm) as Hr.
  exists first. unfold enqueue_entry. rewrite Hn. cbn [mbind option_bind]. unfold hash. rewrite Hfirst. cbn [mbind option_bind].
  eexists. split; [reflexivity|]. split; [|done]. constructor; cbn [set_table hashMask hashTable numPages firstIndexUsed]; [done| | | | |].
  - by rewrite length_insert.
  - by apply buckets_enqueue.
  - rewrite map_size_insert_None by done. by rewrite Hnum, uadd_uwrap_succ.
  - case_match; lia.
  - intros fo a. unfold hash in *. cbn [set_table hashMask]. destruct (decide (fo = fileOffset n)) as [->|Hne].
    + intros _. destruct (Z.ltb_spec (bucket (hashMask s) (fileOffset n)) (firstIndexUsed s)); lia.
    + rewrite lookup_insert_ne by done. intros Ha. specialize (Hlow fo a Ha).
      destruct (Z.ltb_spec (bucket (hashMask s) (fileOffset n)) (firstIndexUsed s)); lia.
Qed.

Lemma move_chain_spec fuel h s p l M1 :
  tbl h s M1 -> chain h p l NULL -> (length l < fuel)%nat -> NoDup l.*2 ->
  (forall a fo, (a, fo) ∈ l -> M1 !! fo = None /\ forall fo', M1 !! fo' <> Some a) ->
  exists h' s' M2, move_chain fuel h s p = Some (h', s') /\ tbl h' s' M2 /\ same_rest s s' /\ same_fcore h h' /\
    (forall a, a ∉ l.*1 -> h' !! a = h !! a) /\
    (forall fo a, M2 !! fo = Some a <-> M1 !! fo = Some a \/ (a, fo) ∈ l).
Proof.
  revert h s p l M1. induction fuel as [|fuel IH]; intros h s p l M1 Ht Hc Hf Hnd Hnew; [lia|]. cbn [move_chain].
  pose proof (chain_nodup _ _ _ Hc) as Hnd1. destruct l as [|[a fo] l].
  { cbn in Hc. subst p. exists h, s, M1. rewrite Z.eqb_refl. split; [done|]. split; [done|]. split; [done|]. split; [by intros b|].
    split; [done|]. intros fo a. rewrite elem_of_nil. tauto. }
  destruct Hc as (-> & Ha & n & Hn & Hfo & Hc). rewrite (proj2 (Z.eqb_neq _ _) Ha), Hn. cbn [mbind option_bind].
  cbn [fmap list_fmap fst snd] in Hnd, Hnd1. apply NoDup_cons in Hnd as [Hfol Hnd]. apply NoDup_cons in Hnd1 as [Hal Hnd1].
  change (fileOffset n = fo) in Hfo. destruct (Hnew a fo ltac:(by left)) as [HM1 HM2].
  destruct (enqueue_entry_tbl h s M1 a n Ht Hn Ha) as (first & s1 & He & Ht1 & Hr1); [by rewrite Hfo|done|]. rewrite He. cbn [mbind option_bind].
  rewrite Hfo in Ht1.
  destruct (IH (<[a := set_next first n]> h) s1 (next n) l (<[fo := a]> M1) Ht1) as (h' & s' & M2 & Hrun & Ht2 & Hr2 & Hs2 & Hfr & HM).
  - by apply chain_insert_ne.
  - cbn [length] in Hf. lia.
  - done.
  - intros b e Hin. destruct (Hnew b e ltac:(by right)) as [Hb1 Hb2].
    assert (e <> fo) by (intros ->; apply Hfol; apply list_elem_of_fmap; by exists (b, fo)).
    assert (b <> a) by (intros ->; apply Hal; apply list_elem_of_fmap; by exists (a, e)).
    split; [by rewrite lookup_insert_ne|]. intros fo'. destruct (decide (fo' = fo)) as [->|]; [rewrite lookup_insert_eq; congruence|by rewrite lookup_insert_ne].
  - exists h', s', M2. split; [done|]. split; [done|]. split.
    { destruct Hr1 as (? & ? & ? & ?), Hr2 as (? & ? & ? & ?). split_and!; congruence. }
    split; [etrans; [by apply same_fcore_set_next|exact Hs2]|]. split.
    + intros b Hb. cbn [fmap list_fmap fst] in Hb. apply not_elem_of_cons in Hb as [Hba Hbl]. rewrite Hfr, lookup_insert_ne by done. done.
    + intros e b. rewrite HM, elem_of_cons. destruct (decide (e = fo)) as [->|He'].
      * rewrite lookup_insert_eq, HM1. split; [intros [[= ->]|?]; [by right; left|by right; right]|intros [?|[[= ->]|?]]; [done|by left|by right]].
      * rewrite lookup_insert_ne by done. split; [intros [?|?]; tauto|intros [?|[?|?]]; [tauto|congruence|tauto]].
Qed.

(** The offsets on one chain are distinct. *)
Lemma holds_nodup M mask i l : holds M mask i l -> NoDup l.*1 -> NoDup l.*2.
Proof.
  intros Hl Hnd. apply NoDup_fmap_2_strong; [|by apply NoDup_fmap_1 in Hnd]. intros [a fo] [b fo'] Ha Hb E. cbn [snd] in E. subst fo'.
  apply Hl in Ha as [Ha _]. apply Hl in Hb as [Hb _]. congruence.
Qed.

Lemma same_fcore_refl' (h : memory) : same_fcore h h.
Proof. by intros a. Qed.

(** A resident page has its descriptor. *)
Lemma tbl_page h s M fo a : tbl h s M -> M !! fo = Some a -> a <> NULL /\ exists n, h !! a = Some n /\ fileOffset n = fo.
Proof.
  intros Ht Ha. destruct (bucket_lookup _ _ fo (tb_mask _ _ _ Ht) (tb_len _ _ _ Ht)) as (p & Hp).
  destruct (tb_buckets _ _ _ Ht _ _ Hp) as (l & Hc & Hl). pose proof (bucket_range (hashMask s) fo (tb_mask _ _ _ Ht)).
  destruct (chain_elem _ _ _ _ a fo Hc) as (Hne & n & Hn & Hfo); [apply Hl; split; [done|lia]|]. eauto.
Qed.

(** The old table from bucket [i] on; what was before it is in the new one. *)
Lemma move_table_spec M m0 : forall (old : list Z) i h s M1,
  0 <= m0 -> tbl h s M1 ->
  (forall fo a, M1 !! fo = Some a <-> M !! fo = Some a /\ bucket m0 fo < Z.of_nat i) ->
  (forall j p, old !! j = Some p -> exists l, chain h p l NULL /\ holds M m0 (i + j) l) ->
  exists h' s' M2, move_table old h s = Some (h', s') /\ tbl h' s' M2 /\ same_rest s s' /\ same_fcore h h' /\
    (forall fo a, M2 !! fo = Some a <-> M !! fo = Some a /\ bucket m0 fo < Z.of_nat (i + length old)).
Proof.
  induction old as [|p old IH]; intros i h s M1 Hm0 Ht HM1 Hold; cbn [move_table].
  { exists h, s, M1. split; [done|]. split; [done|]. split; [done|]. split; [apply same_fcore_refl'|]. cbn [length]. by rewrite Nat.add_0_r. }
  destruct (Hold 0%nat p eq_refl) as (l & Hc & Hl). rewrite Nat.add_0_r in Hl.
  pose proof (chain_nodup _ _ _ Hc) as Hnd. pose proof (chain_length _ _ _ Hc) as Hlen.
  destruct (move_chain_spec (S (size h)) h s p l M1 Ht Hc) as (h1 & s1 & M1' & Hrun & Ht1 & Hr1 & Hs1 & Hfr & HM1'); [lia|by eapply holds_nodup| |].
  { intros a fo Hin. pose proof Hin as [HMa Hba]%Hl. destruct (chain_elem _ _ _ _ _ _ Hc Hin) as (_ & n & Hn & Hfo). split.
    - destruct (M1 !! fo) as [b|] eqn:E; [|done]. apply HM1 in E as [_ E]. lia.
    - intros fo' E. destruct (tbl_page _ _ _ _ _ Ht E) as (_ & n' & Hn' & Hfo'). assert (n' = n) as -> by congruence.
      change (fileOffset n = fo) in Hfo. apply HM1 in E as [_ E]. assert (fo' = fo) as -> by congruence. lia. }
  rewrite Hrun. cbn [mbind option_bind].
  destruct (IH (S i) h1 s1 M1' Hm0 Ht1) as (h' & s' & M2 & Hrun' & Ht2 & Hr2 & Hs2 & HM2).
  - intros fo a. rewrite HM1', HM1, (Hl a fo). split; [intros [[? ?]|[? ?]]; split; (done || lia)|].
    intros [? ?]. destruct (decide (bucket m0 fo = Z.of_nat i)); [by right|left; split; [done|lia]].
  - intros j q Hq. destruct (Hold (S j) q Hq) as (l' & Hc' & Hl'). exists l'. split; [|by replace (S i + j)%nat with (i + S j)%nat by lia].
    apply (chain_agree h); [|done]. intros a Ha. apply Hfr. intros Ha'.
    apply list_elem_of_fmap in Ha as ([b fo'] & -> & Hin'). apply list_elem_of_fmap in Ha' as ([b' fo] & E & Hin). cbn [fst] in *. subst b'.
    destruct (chain_elem _ _ _ _ _ _ Hc Hin) as (_ & n & Hn & Hfo). destruct (chain_elem _ _ _ _ _ _ Hc' Hin') as (_ & n' & Hn' & Hfo').
    apply Hl in Hin as [_ Hin]. apply Hl' in Hin' as [_ Hin']. assert (fo' = fo) as -> by congruence. lia.
  - exists h', s', M2. split; [done|]. split; [done|]. split.
    { destruct Hr1 as (? & ? & ? & ?), Hr2 as (? & ? & ? & ?). split_and!; congruence. }
    split; [etrans; [exact Hs1|exact Hs2]|]. cbn [length]. by replace (i + S (length old))%nat with (S i + length old)%nat by lia.
Qed.

(** ** Growing *)

Lemma pageset_grow_spec fuel num i :
  0 <= num < 2 ^ 58 -> 0 < i -> i <= 2 ^ 60 -> 2 ^ 60 < i * 2 ^ Z.of_nat fuel ->
  exists m, 0 <= m /\ grow fuel num i = Some (i * 2 ^ m) /\ i * 2 ^ m <= 2 ^ 60.
Proof.
  intros Hnum. revert i. induction fuel as [|fuel IH]; intros i Hi Hle Hf; [change (2 ^ Z.of_nat 0) with 1 in Hf; lia|].
  cbn [grow]. unfold umul. rewrite (uwrap_small (2 * num)) by (unfold is_uval; lia).
  destruct (Z.leb_spec i (2 * num)) as [Hc|Hc].
  - rewrite uwrap_small by (unfold is_uval; lia). rewrite Nat2Z.inj_succ, Z.pow_succ_r in Hf by lia.
    destruct (IH (2 * i)) as (m & Hm & -> & Hb); [lia|lia|lia|]. exists (m + 1). split; [lia|].
    replace (i * 2 ^ (m + 1)) with (2 * i * 2 ^ m) by (rewrite Z.pow_add_r, Z.pow_1_r by lia; lia). done.
  - exists 0. rewrite Z.pow_0_r, Z.mul_1_r. done.
Qed.

Record rep (h : memory) (s : t) (M : gmap Z Z) (F : list Z) (B : Z -> bool) : Prop := {
  rep_tbl : tbl h s M;
  rep_pow : exists k, 2 <= k <= 60 /\ hashMask s + 1 = 2 ^ k;
  rep_dom : forall a, is_Some (h !! a) -> exists fo, M !! fo = Some a;
  rep_free : frep h (freeList s) F B;
  rep_mem : mem s = if isInitial s then [] else [8 * (hashMask s + 1)];
}.

Lemma empty_tbl h s i :
  0 < i -> hashMask s = i - 1 -> hashTable s = replicate (Z.to_nat i) NULL -> numPages s = 0 -> 0 <= firstIndexUsed s < i -> tbl h s ∅.
Proof.
  intros Hi Em Et En Hf. constructor; [lia|rewrite Et, length_replicate; lia| |by rewrite En|lia|by intros].
  intros j p Hp. rewrite Et in Hp. apply lookup_replicate in Hp as [-> _]. exists []. split; [done|]. intros a fo. rewrite elem_of_nil, lookup_empty. by split; [|intros [? _]].
Qed.

(** Only the table changes: the pages and the free list are the same. *)
Lemma extendHash_rep h s M F B ok :
  rep h s M F B -> Z.of_nat (size M) < 2 ^ 58 -> hashMask s < 2 * Z.of_nat (size M) ->
  exists h' s', extendHash h s ok = Some (h', s') /\ rep h' s' M F B /\ same_fcore h h'.
Proof.
  intros [Ht (k & Hk & Ek) Hdom Hfr Hmem] Hsz Hfull. pose proof Ht as [Hm Hl Hb Hnum H0 Hlow].
  assert (Hn : numPages s = Z.of_nat (size M)) by (rewrite Hnum; apply uwrap_small; unfold is_uval; lia).
  assert (Hpk : 2 ^ k <= 2 ^ 59) by lia.
  assert (Hpk4 : 2 ^ 2 <= 2 ^ k) by (apply Z.pow_le_mono_r; lia).
  assert (Eu : umul 2 (2 ^ k) = 2 * 2 ^ k) by (apply uwrap_small; unfold is_uval; lia).
  unfold extendHash. rewrite uadd_small, Ek by lia. cbv zeta. rewrite Eu.
  set (i0 := if 2 * 2 ^ k <? 128 then 128 else 2 * 2 ^ k).
  assert (Hi0 : exists k0, 3 <= k0 <= 60 /\ i0 = 2 ^ k0).
  { unfold i0. destruct (Z.ltb_spec (2 * 2 ^ k) 128); [by exists 7|]. exists (k + 1). rewrite Z.pow_add_r, Z.pow_1_r by lia. split; [|lia].
    split; [lia|]. apply (Z.pow_le_mono_r_iff 2); [lia|lia|]. rewrite Z.pow_add_r, Z.pow_1_r by lia. lia. }
  destruct Hi0 as (k0 & Hk0 & Ei0). assert (Hlo : 2 ^ 3 <= 2 ^ k0) by (apply Z.pow_le_mono_r; lia).
  assert (Hhi : 2 ^ k0 <= 2 ^ 60) by (apply Z.pow_le_mono_r; lia).
  destruct (pageset_grow_spec 64 (numPages s) i0) as (m & Hm' & Hg & Hgb); [lia|lia|lia| |].
  { change (Z.of_nat 64) with 64. lia. }
  rewrite Hg. cbn [mbind option_bind]. rewrite Ei0 in Hgb |- *. rewrite <- Z.pow_add_r in Hgb |- * by lia. set (k1 := k0 + m) in *.
  assert (Hk1 : 3 <= k1 <= 60).
  { unfold k1. split; [lia|]. apply (Z.pow_le_mono_r_iff 2); [lia|lia|done]. }
  assert (Hp1 : 2 ^ 3 <= 2 ^ k1) by (apply Z.pow_le_mono_r; lia).
  destruct ok; cbn [negb].
  2:{ exists h. eexists. split; [reflexivity|]. split; [|apply same_fcore_refl']. constructor; cbn [freeList mem isInitial hashMask]; try done; [|eauto].
      constructor; try done. intros fo a Ha. apply (bucket_range (hashMask s) fo Hm). }
  set (s0 := mkPS _ _ _ _ _ _ _).
  assert (Em : usub (2 ^ k1) 1 = 2 ^ k1 - 1) by (apply uwrap_small; unfold is_uval; lia).
  assert (Hlt : 2 ^ k < 2 ^ k1).
  { unfold k1. rewrite Z.pow_add_r by lia. rewrite <- Ei0. unfold i0.
    pose proof (Z.pow_pos_nonneg 2 m ltac:(lia) ltac:(lia)). destruct (Z.ltb_spec (2 * 2 ^ k) 128); nia. }
  assert (Ht0 : tbl h s0 ∅) by (apply (empty_tbl h s0 (2 ^ k1)); [lia|exact Em|done|done|]; cbn [s0 firstIndexUsed]; lia).
  destruct (move_table_spec M (hashMask s) (hashTable s) 0 h s0 ∅ Hm Ht0) as (h1 & s1 & M2 & -> & Ht1 & Hr1 & Hs1 & HM2).
  { intros fo a. rewrite lookup_empty. split; [done|]. intros [_ ?]. pose proof (bucket_range (hashMask s) fo Hm). lia. }
  { intros j p Hp. destruct (Hb j p Hp) as (l & Hc & Hh). by exists l. }
  assert (M2 = M) as ->.
  { apply map_eq. intros fo. apply option_eq. intros a. rewrite HM2. pose proof (bucket_range (hashMask s) fo Hm). cbn [Nat.add].
    split; [by intros [? _]|]. intros Ha. split; [done|]. lia. }
  cbn [mbind option_bind]. rewrite (tb_num _ _ _ Ht1), Hnum, Z.eqb_refl. cbn [assertK mbind option_bind].
  destruct Hr1 as (Ei & Emk & Efl & Emm). cbn [s0 isInitial hashMask freeList mem] in Ei, Emk, Efl, Emm.
  assert (E8 : forall k', 2 <= k' <= 60 -> umul 8 (2 ^ k') = 8 * 2 ^ k') by (intros; apply uwrap_small; unfold is_uval; assert (2 ^ k' <= 2 ^ 60) by (apply Z.pow_le_mono_r; lia); lia).
  assert (Hfin : forall h' s', tbl h' s' M -> h' = h1 -> isInitial s' = false -> hashMask s' = 2 ^ k1 - 1 -> freeList s' = freeList s -> mem s' = [8 * 2 ^ k1] ->
    rep h' s' M F B).
  { intros h' s' Ht' -> E1 E2 E3 E4. constructor; [done| | | |].
    - exists k1. rewrite E2. split; lia.
    - intros a [n Hn1]. destruct (same_fcore_lookup _ _ _ _ Hs1 Hn1) as (n' & Hn' & _). apply Hdom. by eexists.
    - rewrite E3. by apply (same_fcore_frep h).
    - rewrite E1, E2, E4. f_equal. lia. }
  destruct (isInitial s) eqn:Eini; rewrite Hmem in Emm.
  - exists h1, s1. split; [done|]. split; [|done]. apply Hfin; try done; [by rewrite Emk|]. rewrite Emm, E8 by lia. done.
  - assert (Eold : umul 8 (2 ^ k) = 8 * 2 ^ k) by (apply E8; lia). rewrite Ek in Emm.
    unfold free_table. rewrite Emm, Eold, E8 by lia. rewrite bool_decide_true by (right; by left). cbn [assertK mbind option_bind].
    eexists _, _. split; [reflexivity|]. split; [|done]. apply Hfin; cbn [isInitial hashMask freeList mem]; try done.
    + destruct Ht1 as [? ? ? ? ? ?]. by constructor.
    + by rewrite Emk.
    + rewrite remove_first_cons, (proj2 (Z.eqb_neq (8 * 2 ^ k1) (8 * 2 ^ k))) by lia. by rewrite remove_first_cons, Z.eqb_refl.
Qed.

(** ** The operations *)

Lemma buckets_agree (h h' : memory) tab mask M :
  (forall fo a, M !! fo = Some a -> h' !! a = h !! a) -> buckets h tab mask M -> buckets h' tab mask M.
Proof.
  intros He Hb i p Hp. destruct (Hb i p Hp) as (l & Hc & Hl). exists l. split; [|done]. apply (chain_agree h); [|done].
  intros a Ha. apply list_elem_of_fmap in Ha as ([b fo] & -> & Hin). apply Hl in Hin as [Hin _]. by eapply He.
Qed.

Lemma tbl_agree h h' s M : (forall fo a, M !! fo = Some a -> h' !! a = h !! a) -> tbl h s M -> tbl h' s M.
Proof. intros He [? ? ? ? ? ?]. constructor; try done. by apply (buckets_agree h). Qed.

Lemma tbl_links h h' s M f : same_links h h' -> tbl h s M -> tbl h' (set_freelist s f) M.
Proof.
  intros Hs [? ? Hb ? ? ?]. constructor; try done. intros i p Hp. destruct (Hb i p Hp) as (l & Hc & Hl). exists l.
  split; [by apply (same_links_chain h)|done].
Qed.

(** A step of the free list. *)
Lemma pageset_freelist h s M F B h' f' F' B' :
  rep h s M F B -> same_links h h' -> frep h' f' F' B' -> rep h' (set_freelist s f') M F' B'.
Proof.
  intros [Ht Hp Hdom _ Hm] Hs Hf. constructor; try done; [by apply (tbl_links h)|].
  intros a Ha. apply Hdom. by apply (same_links_dom h h').
Qed.

Lemma rep_fresh h s M F B p : rep h s M F B -> (forall fo, M !! fo <> Some p) -> h !! p = None.
Proof. intros Hr Hp. destruct (h !! p) eqn:E; [|done]. destruct (rep_dom _ _ _ _ _ Hr p) as (fo & Hfo); [by eexists|]. by destruct (Hp fo). Qed.

Lemma rep_page h s M F B fo a : rep h s M F B -> M !! fo = Some a -> a <> NULL /\ exists n, h !! a = Some n /\ fileOffset n = fo.
Proof. intros Hr. apply (tbl_page h s). apply Hr. Qed.

Lemma pageset_find_rep h s M F B fo : rep h s M F B -> find h s fo = Some (default NULL (M !! fo)).
Proof.
  intros Hr. destruct (rep_tbl _ _ _ _ _ Hr) as [Hm Hl Hb _ _ _]. destruct (bucket_lookup _ _ fo Hm Hl) as (p & Hp).
  unfold find, hash. rewrite Hp. cbn [mbind option_bind]. destruct (Hb _ _ Hp) as (l & Hc & Hh).
  destruct (walk_bucket _ _ _ _ _ _ Hc Hh Hm) as [(-> & prev & ->)|(a & A & C & -> & _ & ->)]; done.
Qed.

(** The growth that precedes an insertion. *)
Lemma maybe_extend h s M F B ok :
  rep h s M F B -> Z.of_nat (size M) < 2 ^ 58 ->
  exists h' s', (if hashMask s <? umul 2 (numPages s) then extendHash h s ok else Some (h, s)) = Some (h', s') /\ rep h' s' M F B /\
    same_fcore h h'.
Proof.
  intros Hr Hsz. assert (E : umul 2 (numPages s) = 2 * Z.of_nat (size M)).
  { rewrite (tb_num _ _ _ (rep_tbl _ _ _ _ _ Hr)). rewrite (uwrap_small (Z.of_nat (size M))) by (unfold is_uval; lia).
    apply uwrap_small. unfold is_uval. lia. }
  rewrite E. destruct (Z.ltb_spec (hashMask s) (2 * Z.of_nat (size M))).
  - destruct (extendHash_rep h s M F B ok Hr Hsz) as (h' & s' & ? & ? & ?); [done|]. eauto.
  - exists h, s. split; [done|]. split; [done|apply same_fcore_refl'].
Qed.

Lemma pageset_enqueue_rep h s M F B ok p fo pa ln :
  rep h s M F B -> Z.of_nat (size M) < 2 ^ 58 -> p <> NULL -> (forall fo', M !! fo' <> Some p) -> M !! fo = None ->
  exists h' s', enqueue h s ok p fo pa ln = Some (p, (h', s')) /\ rep h' s' (<[fo := p]> M) F (set_busy B p false) /\
    same_data_but p h h' /\ data <$> h' !! p = Some (data (init_entry fo pa ln)).
Proof.
  intros Hr Hsz Hp Hnew Hfo. unfold enqueue. destruct (maybe_extend h s M F B ok Hr Hsz) as (h1 & s1 & -> & Hr1 & Hx). cbn [mbind option_bind].
  rewrite (proj2 (Z.eqb_neq _ _) Hp). cbn [negb]. pose proof (rep_fresh _ _ _ _ _ p Hr1 Hnew) as Hnone.
  destruct Hr1 as [Ht1 Hpow Hdom Hfr Hmem]. set (h2 := <[p := init_entry fo pa ln]> h1).
  assert (Ht2 : tbl h2 s1 M).
  { apply (tbl_agree h1); [|done]. intros fo' a Ha. apply lookup_insert_ne. intros ->. by apply (Hnew fo'). }
  assert (Hn2 : h2 !! p = Some (init_entry fo pa ln)) by apply lookup_insert_eq.
  destruct (enqueue_entry_tbl h2 s1 M p _ Ht2 Hn2 Hp Hfo Hnew) as (first & s3 & -> & Ht3 & (E1 & E2 & E3 & E4)).
  cbn [mbind option_bind]. eexists _, _. split; [reflexivity|]. split; [|split].
  2:{ etrans; [by apply same_fcore_data|]. etrans; [apply same_data_insert|apply same_data_insert]. }
  2:{ by rewrite lookup_insert_eq. }
  constructor.
  - exact Ht3.
  - by rewrite E2.
  - intros a [n Hn]. destruct (decide (a = p)) as [->|Hne]; [exists fo; apply lookup_insert_eq|].
    unfold h2 in Hn. rewrite !lookup_insert_ne in Hn by done. destruct (Hdom a) as (fo' & Hfo'); [by eexists|].
    exists fo'. rewrite lookup_insert_ne; [done|]. intros <-. congruence.
  - rewrite E3. apply (same_fcore_frep h2); [by apply same_fcore_set_next|]. by apply insert_frep.
  - by rewrite E1, E2, E4.
Qed.

(** Taking a page off its chain. *)
Lemma buckets_unlink h tab mask M fo A a C p n :
  buckets h tab mask M -> 0 <= mask -> tab !! Z.to_nat (bucket mask fo) = Some p ->
  chain h p (A ++ (a, fo) :: C) NULL -> holds M mask (Z.to_nat (bucket mask fo)) (A ++ (a, fo) :: C) -> h !! a = Some n ->
  exists h1 tab1,
    (if last_addr NULL A =? NULL then Some (h, <[Z.to_nat (bucket mask fo) := next n]> tab)
     else np ← h !! last_addr NULL A; Some (<[last_addr NULL A := set_next (next n) np]> h, tab)) = Some (h1, tab1) /\
    buckets h1 tab1 mask (delete fo M) /\ length tab1 = length tab /\ same_fcore h h1 /\
    (forall k q l, tab !! k = Some q -> chain h q l NULL ->
       exists q', tab1 !! k = Some q' /\ chain h1 q' (remove_first (at_offset fo) l) NULL).
Proof.
  intros Hb Hm Hp Hc Hh Hn. pose proof (bucket_range mask fo Hm) as Hr. set (i := Z.to_nat (bucket mask fo)) in *.
  pose proof (chain_nodup _ _ _ Hc) as Hnd. rewrite fmap_app, fmap_cons in Hnd. cbn [fst] in Hnd.
  apply NoDup_app in Hnd as (_ & Hd & [HaC _]%NoDup_cons).
  assert (HMa : M !! fo = Some a) by (apply Hh; apply elem_of_app; right; by left).
  assert (Hh' : holds (delete fo M) mask i (A ++ C)).
  { intros b e. rewrite lookup_delete_Some. split.
    - intros Hin. assert (Hin' : (b, e) ∈ A ++ (a, fo) :: C) by (rewrite elem_of_app, elem_of_cons in *; tauto). apply Hh in Hin' as [HMb Hbe].
      split; [|done]. split; [|done]. intros <-. assert (b = a) as -> by congruence. apply elem_of_app in Hin as [Hin|Hin].
      + apply (Hd a); [apply list_elem_of_fmap; by exists (a, fo)|by left].
      + apply HaC. apply list_elem_of_fmap. by exists (a, fo).
    - intros [[Hne HMb] Hbe]. assert (Hin : (b, e) ∈ A ++ (a, fo) :: C) by (by apply Hh). rewrite elem_of_app, elem_of_cons in Hin.
      rewrite elem_of_app. destruct Hin as [?|[?|?]]; [tauto|congruence|tauto]. }
  assert (Hother : forall k l, k <> i -> holds M mask k l -> holds (delete fo M) mask k l).
  { intros k l Hk Hl b e. rewrite (Hl b e), lookup_delete_Some. split; [|tauto]. intros [? E]. split; [|done]. split; [|done].
    intros <-. apply Hk. lia. }
  assert (Hgone : forall k q l, tab !! k = Some q -> chain h q l NULL -> k <> i -> remove_first (at_offset fo) l = l).
  { intros k q l Hq Hcl Hk. destruct (Hb k q Hq) as (l2 & Hcl2 & Hl2). pose proof (chain_functional _ _ _ _ Hcl Hcl2) as ->.
    apply remove_first_none, Forall_forall. intros [b e] Hin. apply Z.eqb_neq. cbn [snd]. intros ->. apply Hl2 in Hin as [_ E]. apply Hk. lia. }
  assert (Hthis : forall q l, tab !! i = Some q -> chain h q l NULL -> remove_first (at_offset fo) l = A ++ C).
  { intros q l Hq Hcl. assert (q = p) as -> by congruence. pose proof (chain_functional _ _ _ _ Hcl Hc) as ->.
    apply remove_at. eapply holds_nodup; [exact Hh|by eapply chain_nodup]. }
  destruct A as [|[b e] A _] using rev_ind.
  - cbn [app] in *. change (last_addr NULL []) with NULL. rewrite Z.eqb_refl. eexists _, _. split; [reflexivity|].
    assert (Hi : (i < length tab)%nat) by by eapply lookup_lt_Some.
    destruct Hc as (_ & _ & n' & Hn' & _ & Hc). assert (n' = n) as -> by congruence.
    split; [|split; [by rewrite length_insert|split; [apply same_fcore_refl'|]]].
    2:{ intros k q l Hq Hcl. destruct (decide (k = i)) as [->|Hk].
        - exists (next n). rewrite list_lookup_insert_eq by done. split; [done|]. by rewrite (Hthis q l Hq Hcl).
        - exists q. rewrite list_lookup_insert_ne by done. split; [done|]. by rewrite (Hgone k q l Hq Hcl Hk). }
    intros k q Hq. apply list_lookup_insert_Some in Hq as [(<- & <- & _)|(Hne & Hq)].
    + exists C. by split.
    + destruct (Hb k q Hq) as (l & Hcl & Hl). exists l. split; [done|]. apply Hother; [congruence|done].
  - rewrite last_addr_snoc. rewrite <- app_assoc in Hc, Hh, Hh'. cbn [app] in Hc, Hh, Hh'.
    destruct (chain_elem _ _ _ _ b e Hc) as (Hb0 & nb & Hnb & Heb); [apply elem_of_app; right; by left|].
    rewrite (proj2 (Z.eqb_neq _ _) Hb0), Hnb. cbn [mbind option_bind]. eexists _, _. split; [reflexivity|].
    assert (Hnin : forall k q l, tab !! k = Some q -> chain h q l NULL -> k <> i -> b ∉ l.*1).
    2:{ split; [|split; [done|split; [by apply same_fcore_set_next|]]].
        - intros k q Hq. destruct (decide (k = i)) as [->|Hk].
          + assert (q = p) as -> by congruence. exists (A ++ (b, e) :: C). split; [|done]. by eapply chain_bypass.
          + destruct (Hb k q Hq) as (l & Hcl & Hl). exists l. split; [|by apply Hother]. apply chain_insert_ne; [by eapply Hnin|done].
        - intros k q l Hq Hcl. exists q. split; [done|]. destruct (decide (k = i)) as [->|Hk].
          + rewrite (Hthis q l Hq Hcl), <- app_assoc. assert (q = p) as -> by congruence. by eapply chain_bypass.
          + rewrite (Hgone k q l Hq Hcl Hk). apply chain_insert_ne; [by eapply Hnin|done]. }
    { intros k q l' Hq Hcl' Hk Hin. destruct (Hb k q Hq) as (l & Hcl & Hl). pose proof (chain_functional _ _ _ _ Hcl' Hcl) as ->.
      apply list_elem_of_fmap in Hin as ([b' e'] & E & Hin). cbn [fst] in E. subst b'.
      destruct (chain_elem _ _ _ _ _ _ Hcl Hin) as (_ & nb' & Hnb' & Heb'). assert (e' = e) as -> by congruence.
      apply Hl in Hin as [_ Hin]. assert (Hin2 : (b, e) ∈ A ++ (b, e) :: (a, fo) :: C) by (apply elem_of_app; right; by left).
      apply Hh in Hin2 as [_ Hin2]. lia. }
Qed.

Lemma pageset_remove_rep h s M F B fo :
  rep h s M F B ->
  exists h' s', remove h s fo = Some (h', s') /\
    rep h' s' (delete fo M) (match M !! fo with Some p => remove_first (fun a => a =? p) F | None => F end) B /\
    (forall a, M !! fo = Some a -> same_data_but a h h' /\ hashMask s' = hashMask s /\
      forall k q l, hashTable s !! k = Some q -> chain h q l NULL ->
        exists q', hashTable s' !! k = Some q' /\ chain h' q' (remove_first (at_offset fo) l) NULL).
Proof.
  intros Hr. pose proof Hr as [Ht Hpow Hdom Hf Hmem]. pose proof Ht as [Hm Hl Hb Hnum H0 Hlow].
  destruct (bucket_lookup _ _ fo Hm Hl) as (p & Hp). destruct (Hb _ _ Hp) as (l & Hc & Hh).
  unfold remove, dequeue, hash. rewrite Hp. cbn [mbind option_bind].
  destruct (walk_bucket _ _ _ _ _ _ Hc Hh Hm) as [(HM & prev & ->)|(a & A & C & HM & -> & ->)]; rewrite HM; cbn [mbind option_bind].
  { exists h, s. split; [done|]. split; [by rewrite delete_id|done]. }
  destruct (rep_page _ _ _ _ _ _ _ Hr HM) as (Ha & n & Hn & Hfo). rewrite (proj2 (Z.eqb_neq _ _) Ha), Hn. cbn [mbind option_bind].
  destruct (buckets_unlink _ _ _ _ _ _ _ _ _ _ Hb Hm Hp Hc Hh Hn) as (h1 & tab1 & -> & Hb1 & Hl1 & Hs1 & Hord). cbn [mbind option_bind].
  destruct (same_fcore_inv _ _ _ _ Hs1 Hn) as (n1 & Hn1 & E1). rewrite Hn1. cbn [mbind option_bind].
  set (h2 := <[a := set_next NULL n1]> h1). set (s2 := set_table s tab1 _ _).
  assert (Hs2 : same_fcore h h2) by (etrans; [exact Hs1|by apply same_fcore_set_next]).
  pose proof (same_fcore_frep _ _ _ _ _ Hs2 Hf) as Hf2.
  assert (Hn2 : h2 !! a = Some (set_next NULL n1)) by apply lookup_insert_eq.
  destruct (drop_frep _ _ _ _ _ _ Hf2 Hn2) as (h3 & f3 & Hdq & Hf3 & Hsc3). pose proof (same_core_links _ _ Hsc3) as Hlk. change (free (set_next NULL n1)) with (free n1) in Hdq.
  assert (Hrun : (if free n1 then dequeueFreeList h2 s2 a else Some (h2, s2)) = Some (h3, set_freelist s2 f3)).
  { unfold dequeueFreeList, on_freelist. destruct (free n1); [change (freeList s2) with (freeList s); by rewrite Hdq|]. injection Hdq as <- <-. done. }
  rewrite Hrun. cbn [mbind option_bind]. rewrite (proj2 (Z.eqb_neq _ _) Ha). cbn [negb]. eexists _, _. split; [reflexivity|].
  assert (Hinj : forall fo', delete fo M !! fo' <> Some a).
  { intros fo' E. apply lookup_delete_Some in E as [Hne E]. destruct (rep_page _ _ _ _ _ _ _ Hr E) as (_ & n' & Hn' & Hfo'). congruence. }
  assert (Ht3 : tbl h3 (set_freelist s2 f3) (delete fo M)).
  { apply (tbl_links h2); [done|]. apply (tbl_agree h1).
    - intros fo' b Hb'. apply lookup_insert_ne. intros ->. by apply (Hinj fo').
    - constructor; cbn [s2 set_table hashMask hashTable numPages firstIndexUsed]; [done|lia|done| |done|].
      + rewrite Hnum, map_size_delete, HM. cbn [is_Some_dec]. assert (size M <> 0%nat) by (intros E; apply map_size_empty_inv in E; by rewrite E, lookup_empty in HM).
        replace (size M) with (S (pred (size M))) at 1 by lia. rewrite usub_uwrap_pred. done.
      + intros fo' b Hb'. apply lookup_delete_Some in Hb' as [_ Hb']. by apply (Hlow fo' b). }
  split.
  2:{ intros a' E. assert (a' = a) as -> by congruence. split.
      - etrans; [by apply same_fcore_data|etrans; [by apply same_core_data|apply same_data_delete]].
      - split; [done|]. intros k q l Hq Hcl. destruct (Hord k q l Hq Hcl) as (q' & Hq' & Hcl'). exists q'. split; [done|].
        assert (Hna : a ∉ (remove_first (at_offset fo) l).*1).
        { intros Hin. apply list_elem_of_fmap in Hin as ([a' e] & E' & Hin). cbn [fst] in E'. subst a'.
          destruct (Hb1 k q' Hq') as (l2 & Hcl2 & Hl2). pose proof (chain_functional _ _ _ _ Hcl' Hcl2) as E2. rewrite E2 in Hin.
          apply Hl2 in Hin as [Hin _]. by apply (Hinj e). }
        apply chain_delete_ne; [done|]. apply (same_links_chain h2); [done|]. by apply chain_insert_ne. }
  constructor; [| done | | exact Hf3 | done].
  - apply (tbl_agree h3); [|done]. intros fo' b Hb'. apply lookup_delete_ne. intros ->. by apply (Hinj fo').
  - intros b Hb'. assert (Hba : b <> a) by (intros ->; rewrite lookup_delete_eq in Hb'; by destruct Hb'). rewrite lookup_delete_ne in Hb' by done.
    assert (Hb2 : is_Some (h2 !! b)) by (by apply (same_links_dom h2 h3)). destruct Hb2 as [nb Hnb].
    destruct (same_fcore_lookup _ _ _ _ Hs2 Hnb) as (nb' & Hnb' & _). destruct (Hdom b) as (fo' & Hfo'); [by eexists|].
    exists fo'. apply lookup_delete_Some. split; [|done]. intros <-. congruence.
Qed.

(** ** Walking over all pages *)

(** The first non-empty bucket of a list of heads. *)
Fixpoint first_used (l : list Z) : option (nat * Z) :=
  match l with
  | [] => None
  | e :: l => if negb (e =? NULL) then Some (0%nat, e) else prod_map S id <$> first_used l
  end.

Lemma pageset_scan_spec fuel s j :
  Z.of_nat (length (hashTable s)) = hashMask s + 1 -> hashMask s < 2 ^ 60 -> (j <= length (hashTable s) < j + fuel)%nat ->
  scan fuel s (Z.of_nat j) = Some (prod_map (fun i => Z.of_nat (j + i)) id <$> first_used (drop j (hashTable s))).
Proof.
  intros Hl Hm. revert j. induction fuel as [|fuel IH]; intros j Hf.
  - lia.
  - cbn [scan]. destruct (Z.leb_spec (Z.of_nat j) (hashMask s)) as [Hj|Hj]; [|by rewrite drop_ge by lia].
    rewrite Nat2Z.id. assert (is_Some (hashTable s !! j)) as [e He] by (apply lookup_lt_is_Some_2; lia). rewrite He. cbn [mbind option_bind].
    rewrite (drop_S _ _ _ He). cbn [first_used]. destruct (e =? NULL); cbn [negb].
    + rewrite uadd_small by lia. replace (Z.of_nat j + 1) with (Z.of_nat (S j)) by lia. rewrite IH by lia.
      destruct (first_used (drop (S j) (hashTable s))) as [[i e']|]; [|done]. cbn. do 4 f_equal. lia.
    + cbn. do 3 f_equal. lia.
Qed.

Definition ptr (r : option (nat * Z)) : Z := default NULL (snd <$> r).

(** [getNextEntry] leads from [p] through the pages of [l] and stops. *)
Fixpoint enum (h : memory) (s : t) (p : Z) (l : list Z) : Prop :=
  match l with
  | [] => p = NULL
  | a :: l => p = a /\ a <> NULL /\ exists q, getNextEntry h s a = Some q /\ enum h s q l
  end.

Lemma enum_chain h s j l p L :
  tbl h s L -> hashMask s < 2 ^ 60 -> chain h p l NULL -> (forall a fo, (a, fo) ∈ l -> hash s fo = Z.of_nat j) -> l <> [] ->
  forall l', enum h s (ptr (first_used (drop (S j) (hashTable s)))) l' -> enum h s p (l.*1 ++ l').
Proof.
  intros Ht Hm Hc Hh Hl l' Hl'. pose proof (tb_len _ _ _ Ht) as Hlen. revert p Hc Hh Hl. induction l as [|[a fo] l IH]; intros p Hc Hh Hl; [done|].
  destruct Hc as (-> & Ha & n & Hn & Hfo & Hc). change (fileOffset n = fo) in Hfo.
  cbn [fmap list_fmap fst app enum]. split; [done|]. split; [done|]. unfold getNextEntry. rewrite Hn. cbn [mbind option_bind]. destruct l as [|[b e] l].
  - cbn in Hc. rewrite Hc, Z.eqb_refl. cbn [negb]. rewrite Hfo, (Hh a fo) by by left.
    pose proof (bucket_range (hashMask s) fo (tb_mask _ _ _ Ht)) as Hb. fold (hash s fo) in Hb. rewrite (Hh a fo) in Hb by by left.
    rewrite uadd_small by lia. replace (Z.of_nat j + 1) with (Z.of_nat (S j)) by lia. unfold scan_fuel.
    rewrite pageset_scan_spec by lia. cbn [mbind option_bind]. eexists. split; [reflexivity|]. unfold ptr in Hl'.
    destruct (first_used (drop (S j) (hashTable s))) as [[i e]|]; done.
  - assert (Hnx : next n <> NULL) by (destruct Hc as (-> & Hb & _); done). rewrite (proj2 (Z.eqb_neq _ _) Hnx). cbn [negb].
    eexists. split; [reflexivity|]. apply IH; [done| |done]. intros a' fo' Hin. apply (Hh a'). by right.
Qed.

(** The chains from bucket [j] on, one after the other, are the walk. *)
Lemma order_from h s M k : forall j,
  tbl h s M -> hashMask s < 2 ^ 60 -> (j + k = length (hashTable s))%nat ->
  exists ls, Forall2 (fun p l => chain h p l NULL) (drop j (hashTable s)) ls /\
    enum h s (ptr (first_used (drop j (hashTable s)))) (concat ls).*1 /\ NoDup (concat ls).*2 /\
    forall a fo, (a, fo) ∈ concat ls <-> M !! fo = Some a /\ Z.of_nat j <= hash s fo.
Proof.
  induction k as [|k IH]; intros j Ht Hm Hj.
  - exists []. rewrite drop_ge by lia. split; [constructor|]. split; [done|]. split; [constructor|]. intros a fo. cbn [concat]. rewrite elem_of_nil. split; [done|].
    intros [_ Hb]. pose proof (bucket_range (hashMask s) fo (tb_mask _ _ _ Ht)) as Hr. fold (hash s fo) in Hr.
    pose proof (tb_len _ _ _ Ht). lia.
  - destruct (IH (S j) Ht Hm ltac:(lia)) as (ls & Hf2 & He' & Hnd' & Hl').
    assert (is_Some (hashTable s !! j)) as [p Hp] by (apply lookup_lt_is_Some_2; lia).
    destruct (tb_buckets _ _ _ Ht _ _ Hp) as (l & Hc & Hh). pose proof (holds_nodup _ _ _ _ Hh (chain_nodup _ _ _ Hc)) as Hnd.
    exists (l :: ls). rewrite (drop_S _ _ _ Hp). cbn [first_used concat]. split; [by constructor|]. rewrite !fmap_app. split; [|split].
    + destruct (Z.eqb_spec p NULL) as [E|E]; cbn [negb].
      * apply (chain_null h p l Hc) in E as ->. cbn [fmap list_fmap app]. unfold ptr in *.
        by destruct (first_used (drop (S j) (hashTable s))) as [[i e]|].
      * apply (enum_chain h s j l p M); [done|done|done| |by intros ->; cbn in Hc|done]. intros a fo Hin. by apply Hh in Hin as [_ ?].
    + apply NoDup_app. split; [done|]. split; [|done]. intros fo Hin Hin'.
      apply list_elem_of_fmap in Hin as ([a fo1] & -> & Hin). apply list_elem_of_fmap in Hin' as ([b fo2] & E & Hin'). cbn [snd] in E. subst fo2.
      apply Hh in Hin as [_ Hin]. apply Hl' in Hin' as [_ Hin']. unfold hash in Hin'. cbn [snd] in *. lia.
    + intros a fo. rewrite elem_of_app, (Hh a fo), Hl'. unfold hash. split; [intros [[? ?]|[? ?]]; (split; [done|lia])|].
      intros [Hfo Hb]. destruct (decide (bucket (hashMask s) fo = Z.of_nat j)); [by left|right; split; [done|lia]].
Qed.

(** The loop of a cache manager that visits every page. *)
Fixpoint follow (fuel : nat) (h : memory) (s : t) (p : Z) : option (list Z) :=
  match fuel with
  | O => None
  | S fuel =>
      if p =? NULL then Some []
      else
        q ← getNextEntry h s p;
        l ← follow fuel h s q;
        Some (p :: l)
  end.

Definition visit (h : memory) (s : t) : option (list Z) :=
  '(p, s1) ← getFirst s;
  follow (S (size h)) h s1 p.

Lemma follow_enum fuel h s p l : enum h s p l -> (length l < fuel)%nat -> follow fuel h s p = Some l.
Proof.
  revert p l. induction fuel as [|fuel IH]; intros p l He Hf; [lia|]. cbn [follow]. destruct l as [|a l].
  - cbn in He. by subst p.
  - destruct He as (-> & Ha & q & -> & He). rewrite (proj2 (Z.eqb_neq _ _) Ha). cbn [mbind option_bind].
    rewrite (IH q l He) by (cbn [length] in Hf; lia). done.
Qed.

Lemma first_used_spec l i e :
  first_used l = Some (i, e) -> l !! i = Some e /\ forall i' e', (i' < i)%nat -> l !! i' = Some e' -> e' = NULL.
Proof.
  revert i. induction l as [|x l IH]; intros i H; [done|]. cbn [first_used] in H. destruct (Z.eqb_spec x NULL) as [E|E]; cbn [negb] in H.
  - destruct (first_used l) as [[i0 e0]|]; [|done]. injection H as <- <-. destruct (IH i0 eq_refl) as [H1 H2]. split; [done|].
    intros [|i'] e' Hi Hl; [by injection Hl as <-|]. apply (H2 i'); [lia|done].
  - injection H as <- <-. split; [done|]. intros; lia.
Qed.

Lemma rep_mask_bound h s M F B : rep h s M F B -> hashMask s < 2 ^ 60.
Proof. intros Hr. destruct (rep_pow _ _ _ _ _ Hr) as (k & Hk & E). assert (2 ^ k <= 2 ^ 60) by (apply Z.pow_le_mono_r; lia). lia. Qed.

(** Raising [firstIndexUsed] to the first bucket in use. *)
Lemma pageset_getFirst_rep h s M F B :
  rep h s M F B -> exists s', getFirst s = Some (ptr (first_used (drop (Z.to_nat (firstIndexUsed s)) (hashTable s))), s') /\
    rep h s' M F B /\ hashTable s' = hashTable s /\ hashMask s' = hashMask s.
Proof.
  intros Hr. pose proof (rep_mask_bound _ _ _ _ _ Hr) as Hmb. pose proof (rep_tbl _ _ _ _ _ Hr) as Ht. pose proof Ht as [Hm Hl Hb Hnum H0 Hlow].
  unfold getFirst. set (j := Z.to_nat (firstIndexUsed s)). assert (Ej : firstIndexUsed s = Z.of_nat j) by lia.
  assert (Hsc : scan (scan_fuel s) s (firstIndexUsed s) = Some (prod_map (fun i => Z.of_nat (j + i)) id <$> first_used (drop j (hashTable s)))).
  { rewrite Ej. apply pageset_scan_spec; [done|done|unfold scan_fuel; lia]. }
  rewrite Hsc. cbn [mbind option_bind].
  destruct (first_used (drop j (hashTable s))) as [[i e]|] eqn:Efu; [|by exists s]. cbn.
  eexists. split; [reflexivity|]. split; [|done]. apply first_used_spec in Efu as [He Hbefore]. rewrite lookup_drop in He.
  pose proof (lookup_lt_Some _ _ _ He) as Hlt.
  destruct Hr as [_ Hp Hd Hf Hme]. constructor; try done. constructor; cbn [set_table hashMask hashTable numPages firstIndexUsed]; try done; [lia|].
  intros fo a Ha. specialize (Hlow fo a Ha). unfold hash in *. cbn [set_table hashMask]. destruct (Z_lt_le_dec (bucket (hashMask s) fo) (Z.of_nat (j + i))) as [Hc|]; [|done].
  exfalso. destruct (bucket_lookup _ _ fo Hm Hl) as (p & Hp'). destruct (Hb _ _ Hp') as (l & Hcl & Hh).
  assert (p = NULL) as ->.
  { apply (Hbefore (Z.to_nat (bucket (hashMask s) fo) - j)%nat); [lia|]. rewrite lookup_drop. by replace (j + (Z.to_nat (bucket (hashMask s) fo) - j))%nat with (Z.to_nat (bucket (hashMask s) fo)) by lia. }
  apply (chain_null h NULL l) in Hcl as [Hcl _]. rewrite (Hcl eq_refl) in Hh. destruct (Hh a fo) as [_ Hin].
  apply (elem_of_nil (a, fo)), Hin. split; [done|lia].
Qed.

Lemma pageset_getNextEntry_rep h s M F B fo a : rep h s M F B -> M !! fo = Some a -> is_Some (getNextEntry h s a).
Proof.
  intros Hr Ha. pose proof (rep_mask_bound _ _ _ _ _ Hr) as Hmb. pose proof (rep_tbl _ _ _ _ _ Hr) as Ht.
  destruct (rep_page _ _ _ _ _ _ _ Hr Ha) as (_ & n & Hn & Hfo). unfold getNextEntry. rewrite Hn. cbn [mbind option_bind].
  destruct (next n =? NULL); cbn [negb]; [|by eexists]. pose proof (bucket_range (hashMask s) (fileOffset n) (tb_mask _ _ _ Ht)) as Hb.
  unfold hash. rewrite uadd_small by lia. pose proof (tb_len _ _ _ Ht).
  replace (bucket (hashMask s) (fileOffset n) + 1) with (Z.of_nat (S (Z.to_nat (bucket (hashMask s) (fileOffset n))))) by lia.
  rewrite pageset_scan_spec by (unfold scan_fuel; lia). by eexists.
Qed.

Lemma pageset_getNext_rep h s M F B fo : rep h s M F B -> exists e s', getNext h s fo = Some (e, s') /\ rep h s' M F B.
Proof.
  intros Hr. pose proof (rep_mask_bound _ _ _ _ _ Hr) as Hmb. pose proof (rep_tbl _ _ _ _ _ Hr) as Ht.
  destruct (pageset_getFirst_rep _ _ _ _ _ Hr) as (s1 & Hgf & Hr1 & _). unfold getNext. destruct (fo =? UMAX); [by eexists _, s1|].
  rewrite (pageset_find_rep _ _ _ _ _ fo Hr). cbn [mbind option_bind]. destruct (M !! fo) as [a|] eqn:Ha; cbn [default from_option id].
  - destruct (rep_page _ _ _ _ _ _ _ Hr Ha) as (Hne & _). rewrite (proj2 (Z.eqb_neq _ _) Hne).
    destruct (pageset_getNextEntry_rep _ _ _ _ _ _ _ Hr Ha) as [e ->]. exists e, s. by split.
  - rewrite Z.eqb_refl. pose proof (bucket_range (hashMask s) fo (tb_mask _ _ _ Ht)) as Hb. unfold hash. rewrite uadd_small by lia.
    pose proof (tb_len _ _ _ Ht).
    replace (bucket (hashMask s) fo + 1) with (Z.of_nat (S (Z.to_nat (bucket (hashMask s) fo)))) by lia.
    rewrite pageset_scan_spec by (unfold scan_fuel; lia). cbn [mbind option_bind].
    destruct (first_used (drop (S (Z.to_nat (bucket (hashMask s) fo))) (hashTable s))) as [[i e]|]; cbn [fmap option_fmap option_map prod_map]; [|rewrite Hgf; by eexists _, s1].
    exists e, s. by split.
Qed.

Lemma visit_rep h s M F B : rep h s M F B -> exists l, visit h s = Some l /\ l ≡ₚ (map_to_list M).*2.
Proof.
  intros Hr. destruct (pageset_getFirst_rep _ _ _ _ _ Hr) as (s1 & Hgf & Hr1 & Etab & Emask). unfold visit. rewrite Hgf. cbn [mbind option_bind].
  pose proof (rep_tbl _ _ _ _ _ Hr) as Ht. pose proof (rep_tbl _ _ _ _ _ Hr1) as Ht1. pose proof (rep_mask_bound _ _ _ _ _ Hr1) as Hmb.
  pose proof (tb_first _ _ _ Ht) as Hfi. pose proof (tb_len _ _ _ Ht) as Hlen. set (j := Z.to_nat (firstIndexUsed s)) in *.
  destruct (order_from h s1 M (length (hashTable s1) - j) j Ht1 Hmb) as (ls & _ & He & Hnd2 & Hl); [rewrite Etab; lia|]. rewrite Etab in He.
  set (l := (concat ls).*1) in *.
  assert (Hl' : forall a, a ∈ l <-> exists fo, M !! fo = Some a).
  { intros a. unfold l. rewrite list_elem_of_fmap. split.
    - intros ([b fo] & -> & Hin). apply Hl in Hin as [? _]. eauto.
    - intros (fo & Hfo). exists (a, fo). split; [done|]. apply Hl. split; [done|].
      pose proof (tb_low _ _ _ Ht fo a Hfo) as Hlo. unfold hash in *. rewrite Emask. lia. }
  assert (Hnd : NoDup l).
  { apply NoDup_fmap_2_strong; [|by apply NoDup_fmap_1 in Hnd2]. intros [a fo] [b fo'] Ha Hb E. cbn [fst] in E. subst b.
    apply Hl in Ha as [Ha _]. apply Hl in Hb as [Hb _]. destruct (rep_page _ _ _ _ _ _ _ Hr Ha) as (_ & n & Hn & <-).
    destruct (rep_page _ _ _ _ _ _ _ Hr Hb) as (_ & n' & Hn' & <-). congruence. }
  exists l. split.
  - apply follow_enum; [done|]. apply Nat.lt_succ_r. rewrite <- (size_dom h), <- (size_list_to_set (C := gset Z) l) by done.
    apply subseteq_size. intros a. rewrite elem_of_list_to_set, elem_of_dom. intros Ha. apply Hl' in Ha as (fo & Hfo).
    destruct (rep_page _ _ _ _ _ _ _ Hr Hfo) as (_ & n & Hn & _). by exists n.
  - apply NoDup_Permutation; [done| |].
    + apply NoDup_fmap_2_strong; [|apply NoDup_map_to_list]. intros [fo a] [fo' b] H1 H2 E. cbn [snd] in E. subst b.
      apply elem_of_map_to_list in H1, H2. destruct (rep_page _ _ _ _ _ _ _ Hr H1) as (_ & n & Hn & <-).
      destruct (rep_page _ _ _ _ _ _ _ Hr H2) as (_ & n' & Hn' & <-). congruence.
    + intros a. rewrite Hl', list_elem_of_fmap. split.
      * intros (fo & Hfo). exists (fo, a). split; [done|]. by apply elem_of_map_to_list.
      * intros ([fo b] & -> & Hin). apply elem_of_map_to_list in Hin. by exists fo.
Qed.

(** ** Refinement *)

Inductive op :=
| Enqueue (ok : bool) (p fo pa ln : Z) | Find (fo : Z) | Remove (fo : Z) | GetNext (fo : Z)
| MarkFree (p : Z) | Reclaim (p : Z) | TakeFree (type : dqtype) | SetFlags (p : Z) (d io : bool)
| NumPages | NumPagesFree.

(** Which page GetNext answers depends on the table; only its effect counts here. *)
Definition exec (hs : memory * t) (o : op) : option (Z * (memory * t)) :=
  let '(h, s) := hs in
  match o with
  | Enqueue ok p fo pa ln => enqueue h s ok p fo pa ln
  | Find fo => r ← find h s fo; Some (r, hs)
  | Remove fo => hs' ← remove h s fo; Some (0, hs')
  | GetNext fo => '(_, s') ← getNext h s fo; Some (0, (h, s'))
  | MarkFree p => hs' ← on_freelist s (markFree h (freeList s) p); Some (0, hs')
  | Reclaim p => hs' ← on_freelist s (reclaim h (freeList s) p); Some (0, hs')
  | TakeFree type => '(pg, (h', f)) ← takeFree h (freeList s) type; Some (pg, (h', set_freelist s f))
  | SetFlags p d io => h' ← setFlags h p d io; Some (0, (h', s))
  | NumPages => Some (numPages s, hs)
  | NumPagesFree => Some (numPagesFree (freeList s), hs)
  end.

Fixpoint run (hs : memory * t) (ops : list op) : option (list Z * (memory * t)) :=
  match ops with
  | [] => Some ([], hs)
  | o :: ops => '(r, hs') ← exec hs o; '(rs, hs2) ← run hs' ops; Some (r :: rs, hs2)
  end.

(** The pages by offset, the candidates in order, the busy pages. *)
Record pages := mkPages { map_of : gmap Z Z; free_of : list Z; busy : Z -> bool }.

Definition is_page (M : gmap Z Z) (p : Z) : bool := bool_decide (p ∈ (map_to_list M).*2).

(** A descriptor is new and its offset not cached; pages named are there; fewer
    than 2^58 descriptors, of more than 64 bytes each, fit in memory. *)
Definition allowed (sp : pages) (o : op) : bool :=
  match o with
  | Enqueue _ p fo _ _ =>
      (Z.of_nat (size (map_of sp)) <? 2 ^ 58) &&
      ((p =? NULL) || negb (is_page (map_of sp) p) && bool_decide (map_of sp !! fo = None))
  | MarkFree p | Reclaim p | SetFlags p _ _ => is_page (map_of sp) p
  | _ => true
  end.

Definition spec (sp : pages) (o : op) : Z * pages :=
  let '(mkPages M F B) := sp in
  match o with
  | Enqueue _ p fo _ _ => (p, if p =? NULL then sp else mkPages (<[fo := p]> M) F (set_busy B p false))
  | Find fo => (default NULL (M !! fo), sp)
  | Remove fo => (0, mkPages (delete fo M) (match M !! fo with Some p => remove_first (fun a => a =? p) F | None => F end) B)
  | GetNext _ => (0, sp)
  | MarkFree p => (0, mkPages M (if bool_decide (p ∈ F) then F else F ++ [p]) B)
  | Reclaim p => (0, mkPages M (remove_first (fun a => a =? p) F) B)
  | TakeFree type => (default NULL (find_first (accepts B type) F), mkPages M (remove_first (accepts B type) F) B)
  | SetFlags p d io => (0, mkPages M F (set_busy B p (io || d)))
  | NumPages => (uwrap (Z.of_nat (size M)), sp)
  | NumPagesFree => (uwrap (Z.of_nat (length F)), sp)
  end.

Fixpoint spec_run (sp : pages) (ops : list op) : option (list Z * pages) :=
  match ops with
  | [] => Some ([], sp)
  | o :: ops =>
      if allowed sp o then let '(r, sp') := spec sp o in '(rs, sp2) ← spec_run sp' ops; Some (r :: rs, sp2) else None
  end.

Definition empty_pages : pages := mkPages ∅ [] (fun _ => false).

Definition prep (h : memory) (s : t) (sp : pages) : Prop := rep h s (map_of sp) (free_of sp) (busy sp).

Lemma is_page_spec M p : is_page M p = true <-> exists fo, M !! fo = Some p.
Proof.
  unfold is_page. rewrite bool_decide_eq_true, list_elem_of_fmap. split.
  - intros ([fo a] & -> & Hin). apply elem_of_map_to_list in Hin. by exists fo.
  - intros (fo & Hfo). exists (fo, p). split; [done|]. by apply elem_of_map_to_list.
Qed.

Lemma pageset_init_rep : prep ∅ init empty_pages.
Proof.
  constructor; cbn [map_of free_of busy empty_pages]; [by apply (empty_tbl _ _ 4)|by exists 2|..].
  - intros a [m Hm]. by rewrite lookup_empty in Hm.
  - constructor; [done|done|..]; intros a m Hm; by rewrite lookup_empty in Hm.
  - done.
Qed.

Lemma pageset_exec_rep h s sp o :
  prep h s sp -> allowed sp o = true ->
  exists h' s', exec (h, s) o = Some ((spec sp o).1, (h', s')) /\ prep h' s' (spec sp o).2.
Proof.
  intros Hr Ha. destruct sp as [M F B]. unfold prep in *. cbn [map_of free_of busy] in *. pose proof (rep_free _ _ _ _ _ Hr) as Hf.
  assert (Hpage : forall p, is_page M p = true -> p <> NULL /\ exists n, h !! p = Some n).
  { intros p Hp. apply is_page_spec in Hp as (fo & Hfo). destruct (rep_page _ _ _ _ _ _ _ Hr Hfo) as (? & n & ? & _). eauto. }
  destruct o as [ok p fo pa ln|fo|fo|fo|p|p|type|p d io| |]; cbn [exec allowed map_of free_of] in *; cbn [spec fst snd].
  - apply andb_true_iff in Ha as [Hsz Ha]. apply Z.ltb_lt in Hsz. destruct (Z.eqb_spec p NULL) as [->|Hp].
    + unfold enqueue. destruct (maybe_extend h s M F B ok Hr Hsz) as (h1 & s1 & -> & Hr1 & _). by exists h1, s1.
    + cbn [orb] in Ha. apply andb_true_iff in Ha as [Hnew Hfo]. apply bool_decide_eq_true in Hfo. apply negb_true_iff in Hnew.
      assert (Hfresh : forall fo', M !! fo' <> Some p) by (intros fo' E; assert (is_page M p = true) by (apply is_page_spec; eauto); congruence).
      destruct (pageset_enqueue_rep _ _ _ _ _ ok p fo pa ln Hr Hsz Hp Hfresh Hfo) as (h' & s' & ? & ? & _). eauto.
  - exists h, s. rewrite (pageset_find_rep _ _ _ _ _ fo Hr). done.
  - destruct (pageset_remove_rep _ _ _ _ _ fo Hr) as (h' & s' & -> & Hr' & _). by exists h', s'.
  - destruct (pageset_getNext_rep _ _ _ _ _ fo Hr) as (e & s' & -> & Hr'). by exists h, s'.
  - destruct (Hpage p Ha) as (Hp & n & Hn). destruct (markFree_frep _ _ _ _ _ _ Hf Hp Hn) as (h' & f' & -> & Hf' & Hs).
    exists h', (set_freelist s f'). split; [done|]. by apply (pageset_freelist h s M F B).
  - destruct (Hpage p Ha) as (Hp & n & Hn). destruct (reclaim_frep _ _ _ _ _ _ Hf Hn) as (h' & f' & -> & Hf' & Hs).
    exists h', (set_freelist s f'). split; [done|]. by apply (pageset_freelist h s M F B).
  - destruct (takeFree_frep _ _ _ _ type Hf) as (h' & f' & -> & Hf' & Hs).
    exists h', (set_freelist s f'). split; [done|]. by apply (pageset_freelist h s M F B).
  - destruct (Hpage p Ha) as (Hp & n & Hn). destruct (setFlags_frep _ _ _ _ _ _ d io Hf Hn) as (h' & -> & Hf' & Hs).
    exists h', s. split; [done|]. pose proof (pageset_freelist _ _ _ _ _ _ _ _ _ Hr Hs Hf') as Hr'. by destruct s.
  - exists h, s. by rewrite (tb_num _ _ _ (rep_tbl _ _ _ _ _ Hr)).
  - exists h, s. by rewrite (fr_num _ _ _ _ Hf).
Qed.

Lemma pageset_run_rep h s sp ops rs sp' :
  prep h s sp -> spec_run sp ops = Some (rs, sp') -> exists h' s', run (h, s) ops = Some (rs, (h', s')) /\ prep h' s' sp'.
Proof.
  revert h s sp rs. induction ops as [|o ops IH]; intros h s sp rs Hr Hs; cbn [spec_run run] in *; [injection Hs as <- <-; eauto|].
  destruct (allowed sp o) eqn:Ha; [|done]. destruct (pageset_exec_rep h s sp o Hr Ha) as (h1 & s1 & He & Hr1).
  destruct (spec sp o) as [r sp1]. cbn [fst snd] in *. destruct (spec_run sp1 ops) as [[rs' sp2]|] eqn:E; [|done]. injection Hs as <- <-.
  rewrite He. cbn [mbind option_bind]. destruct (IH h1 s1 sp1 rs' Hr1 E) as (h' & s' & -> & Hr'). by exists h', s'.
Qed.

Lemma pageset_destroy_rep h s sp : prep h s sp -> destroy s = Some [].
Proof.
  intros Hr. unfold destroy. rewrite (rep_mem _ _ _ _ _ Hr). destruct (isInitial s); [done|].
  destruct (rep_pow _ _ _ _ _ Hr) as (k & Hk & E). assert (2 ^ k <= 2 ^ 60) by (apply Z.pow_le_mono_r; lia).
  assert (0 < 2 ^ k) by (apply Z.pow_pos_nonneg; lia).
  rewrite uadd_small, E by lia. assert (E8 : umul 8 (2 ^ k) = 8 * 2 ^ k) by (apply uwrap_small; unfold is_uval; lia). rewrite E8.
  unfold free_table. rewrite bool_decide_true by by left. cbn [assertK mbind option_bind]. by rewrite remove_first_cons, Z.eqb_refl.
Qed.

(** C37: the hash set of pages with its list of candidates for eviction behaves
    as a map from offsets to descriptors and a plain list, under any sequence of
    calls a cache manager makes and whether or not the allocator has room for a
    bigger table: pages are found by offset, survive every growth of the table,
    leave both structures when removed; the counters are exact, no assertion
    fails, no freed descriptor is touched, the walk that starts with getFirst
    visits every resident page exactly once, and destroy returns the last table
    to the allocator with its size. *)
Theorem pageset_refines (ops : list op) (rs : list Z) (sp : pages) :
  spec_run empty_pages ops = Some (rs, sp) ->
  exists h s l, run (∅, init) ops = Some (rs, (h, s)) /\
    visit h s = Some l /\ l ≡ₚ (map_to_list (map_of sp)).*2 /\ destroy s = Some [].
Proof.
  intros Hs. destruct (pageset_run_rep _ _ _ _ _ _ pageset_init_rep Hs) as (h & s & Hrun & Hr).
  destruct (visit_rep _ _ _ _ _ Hr) as (l & Hv & Hp). exists h, s, l. split; [done|]. split; [done|]. split; [done|].
  by eapply pageset_destroy_rep.
Qed.

Definition ex_ops : list op :=
  [Enqueue true 100 0 0x1000 4096; Enqueue true 200 16384 0x2000 4096; Enqueue false 300 8192 0x3000 4096; MarkFree 200; MarkFree 300;
   Enqueue true 400 0x200000 0x4000 4096; Find 16384; SetFlags 300 true false; TakeFree DQ_DIRTY; Remove 16384; GetNext 0; Find 16384; NumPages; NumPagesFree].

Lemma pageset_refines_witness :
  exists h s l, run (∅, init) ex_ops = Some ([100; 200; 300; 0; 0; 400; 200; 0; 300; 0; 0; 0; 3; 0], (h, s)) /\
    visit h s = Some l /\ l ≡ₚ [100; 300; 400] /\ destroy s = Some [].
Proof.
  destruct (spec_run empty_pages ex_ops) as [[rs sp]|] eqn:E; [|vm_compute in E; discriminate].
  destruct (pageset_refines ex_ops rs sp E) as (h & s & l & Hr & Hv & Hp & Hd). vm_compute in E. injection E as <- <-.
  exists h, s, l. split; [exact Hr|]. split; [exact Hv|]. split; [|exact Hd]. etrans; [exact Hp|]. apply (bool_decide_unpack _). vm_compute. exact I.
Defined.

(** ** The promise to the cache managers *)

(** [L] is the walk: the chains, one after the other. *)
Definition order (h : memory) (s : t) (L : list (Z * Z)) : Prop :=
  exists ls, Forall2 (fun p l => chain h p l NULL) (hashTable s) ls /\ L = concat ls.

Lemma chains_functional h tab ls1 ls2 :
  Forall2 (fun p l => chain h p l NULL) tab ls1 -> Forall2 (fun p l => chain h p l NULL) tab ls2 -> ls1 = ls2.
Proof.
  intros H1. revert ls2. induction H1 as [|p l tab ls1 Hc _ IH]; intros ls2 H2; inversion H2 as [|? l2 ? ls2' Hc2 H2']; subst; [done|].
  f_equal; [by eapply chain_functional|by apply IH].
Qed.

Lemma order_facts h s M F B L :
  rep h s M F B -> order h s L ->
  enum h s (ptr (first_used (hashTable s))) L.*1 /\ NoDup L.*2 /\ (forall a fo, (a, fo) ∈ L <-> M !! fo = Some a).
Proof.
  intros Hr (ls & Hls & ->). pose proof (rep_tbl _ _ _ _ _ Hr) as Ht.
  destruct (order_from h s M (length (hashTable s)) 0 Ht (rep_mask_bound _ _ _ _ _ Hr) eq_refl) as (ls' & Hls' & He & Hnd & Hl).
  rewrite drop_0 in Hls', He. rewrite (chains_functional _ _ _ _ Hls Hls'). split; [done|]. split; [done|].
  intros a fo. rewrite Hl. pose proof (bucket_range (hashMask s) fo (tb_mask _ _ _ Ht)). unfold hash. split; [by intros [? _]|]. intros; split; [done|lia].
Qed.

Lemma order_exists h s M F B : rep h s M F B -> exists L, order h s L.
Proof.
  intros Hr. pose proof (rep_tbl _ _ _ _ _ Hr) as Ht.
  destruct (order_from h s M (length (hashTable s)) 0 Ht (rep_mask_bound _ _ _ _ _ Hr) eq_refl) as (ls & Hls & _).
  rewrite drop_0 in Hls. by exists (concat ls), ls.
Qed.

Lemma NoDup_pairs (L : list (Z * Z)) : NoDup L.*2 -> NoDup L.
Proof. apply NoDup_fmap_1. Qed.

Lemma order_length h s M F B L : rep h s M F B -> order h s L -> length L = size M.
Proof.
  intros Hr Ho. destruct (order_facts _ _ _ _ _ _ Hr Ho) as (_ & Hnd & Hl).
  rewrite <- length_map_to_list, <- (length_fmap prod_swap (map_to_list M)). apply Permutation_length, NoDup_Permutation.
  - by apply NoDup_pairs.
  - apply NoDup_fmap_2; [intros [] []; by intros [= -> ->]|apply NoDup_map_to_list].
  - intros [a fo]. rewrite Hl, list_elem_of_fmap, <- elem_of_map_to_list. split.
    + intros Hin. by exists (fo, a).
    + intros ([fo' a'] & E & Hin). cbn in E. by injection E as -> ->.
Qed.

Lemma find_first_at (L : list (Z * Z)) (M : gmap Z Z) fo :
  (forall a fo, (a, fo) ∈ L <-> M !! fo = Some a) -> fst <$> find_first (at_offset fo) L = M !! fo.
Proof.
  intros Hl. destruct (find_first (at_offset fo) L) as [[a e]|] eqn:E.
  - apply find_first_elem in E as [Hin E]. unfold at_offset in E. cbn [snd] in E. bool_props. subst e. apply Hl in Hin. by rewrite Hin.
  - apply find_first_None in E. destruct (M !! fo) as [a|] eqn:Ha; [|done]. apply Hl in Ha. rewrite Forall_forall in E. specialize (E _ Ha).
    unfold at_offset in E. bool_props. done.
Qed.

(** Buckets before the first one in use do not change where the walk starts. *)
Lemma first_used_skip (tab : list Z) j :
  (forall i e, (i < j)%nat -> tab !! i = Some e -> e = NULL) -> ptr (first_used tab) = ptr (first_used (drop j tab)).
Proof.
  revert j. induction tab as [|x tab IH]; intros j H; [by rewrite drop_nil|]. destruct j as [|j]; [by rewrite drop_0|].
  assert (x = NULL) as -> by (apply (H 0%nat); [lia|done]). cbn [first_used drop]. rewrite Z.eqb_refl. cbn [negb].
  rewrite <- (IH j); [by destruct (first_used tab) as [[]|]|]. intros i e Hi He. apply (H (S i)); [lia|done].
Qed.

Lemma enum_head h s p (L : list (Z * Z)) : enum h s p L.*1 -> p = default NULL (fst <$> head L).
Proof. destruct L as [|[a fo] L]; [done|]. by intros (-> & _). Qed.

Lemma enum_next h s A a fo (C : list (Z * Z)) : forall p,
  enum h s p (A ++ (a, fo) :: C).*1 -> getNextEntry h s a = Some (default NULL (fst <$> head C)).
Proof.
  induction A as [|[b e] A IH]; intros p He.
  - destruct He as (-> & _ & q & Hq & He). cbn [fst] in Hq. rewrite Hq. f_equal. by apply (enum_head h s).
  - destruct He as (_ & _ & q & _ & He). by apply (IH q).
Qed.

Lemma low_empty h s M j : tbl h s M -> j = Z.to_nat (firstIndexUsed s) -> forall i e, (i < j)%nat -> hashTable s !! i = Some e -> e = NULL.
Proof.
  intros Ht -> i e Hi He. pose proof (tb_first _ _ _ Ht) as H0. destruct (tb_buckets _ _ _ Ht _ _ He) as (l & Hc & Hl). destruct l as [|[a fo] l]; [done|].
  exfalso. assert (Hin : (a, fo) ∈ (a, fo) :: l) by by left. apply Hl in Hin as [Ha Hb]. pose proof (tb_low _ _ _ Ht fo a Ha). unfold hash in *. lia.
Qed.

Lemma remove_first_concat fo (ls : list (list (Z * Z))) :
  NoDup (concat ls).*2 -> concat (remove_first (at_offset fo) <$> ls) = remove_first (at_offset fo) (concat ls).
Proof.
  induction ls as [|l ls IH]; intros Hnd; [done|]. cbn [fmap list_fmap concat] in *. rewrite fmap_app in Hnd. apply NoDup_app in Hnd as (Hl & Hd & Hls).
  rewrite IH by done. destruct (decide (fo ∈ l.*2)) as [Hin|Hin].
  - apply list_elem_of_fmap in Hin as ([a e] & E & Hin). cbn [snd] in E. subst e.
    apply list_elem_of_split in Hin as (A & C & ->). rewrite remove_at by done. rewrite <- !app_assoc. cbn [app].
    assert (Hr : remove_first (at_offset fo) (concat ls) = concat ls).
    { apply remove_first_none, Forall_forall. intros [b e] Hb. apply Z.eqb_neq. cbn [snd]. intros ->.
      apply (Hd fo); apply list_elem_of_fmap; [exists (a, fo); split; [done|]; apply elem_of_app; right; by left|by exists (b, fo)]. }
    rewrite Hr, remove_at; [by rewrite app_assoc|]. rewrite app_comm_cons, app_assoc, fmap_app. by apply NoDup_app.
  - assert (Hn : Forall (fun x => at_offset fo x = false) l).
    { apply Forall_forall. intros [b e] Hb. apply Z.eqb_neq. cbn [snd]. intros ->. apply Hin. apply list_elem_of_fmap. by exists (b, fo). }
    rewrite (remove_first_none _ l) by done. clear -Hn. induction Hn as [|x l Hx Hn IHl]; [done|]. cbn [app]. by rewrite remove_first_cons, Hx, IHl.
Qed.

Definition holdsL (h : memory) (s : t) (L : list (Z * Z)) (F : list Z) (B : Z -> bool) : Prop :=
  exists M, rep h s M F B /\ order h s L.

Lemma pageset_enqueue_holds h s L F B ok p fo pa ln :
  holdsL h s L F B -> Z.of_nat (length L) < 2 ^ 58 -> p <> NULL -> p ∉ L.*1 -> fo ∉ L.*2 ->
  exists h' s' L', enqueue h s ok p fo pa ln = Some (p, (h', s')) /\ L' ≡ₚ (p, fo) :: L /\
    holdsL h' s' L' F (set_busy B p false) /\ same_data_but p h h' /\ data <$> h' !! p = Some (data (init_entry fo pa ln)).
Proof.
  intros (M & Hr & Ho) Hsz Hp Hnin Hfo. destruct (order_facts _ _ _ _ _ _ Hr Ho) as (_ & Hnd & Hl).
  rewrite (order_length _ _ _ _ _ _ Hr Ho) in Hsz.
  assert (Hnew : forall fo', M !! fo' <> Some p) by (intros fo' E; apply Hl in E; apply Hnin; apply list_elem_of_fmap; by exists (p, fo')).
  assert (HMfo : M !! fo = None).
  { destruct (M !! fo) as [a|] eqn:E; [|done]. apply Hl in E. destruct Hfo. apply list_elem_of_fmap. by exists (a, fo). }
  destruct (pageset_enqueue_rep _ _ _ _ _ ok p fo pa ln Hr Hsz Hp Hnew HMfo) as (h' & s' & He & Hr' & Hd & Hdp).
  destruct (order_exists _ _ _ _ _ Hr') as (L' & Ho'). destruct (order_facts _ _ _ _ _ _ Hr' Ho') as (_ & Hnd' & Hl').
  exists h', s', L'. split; [done|]. split; [|split; [by exists (<[fo := p]> M)|done]]. apply NoDup_Permutation.
  - by apply NoDup_pairs.
  - apply NoDup_cons. split; [|by apply NoDup_pairs]. intros Hin. apply Hfo. apply list_elem_of_fmap. by exists (p, fo).
  - intros [a e]. rewrite Hl', elem_of_cons, Hl. destruct (decide (e = fo)) as [->|Hne].
    + rewrite lookup_insert_eq, HMfo. split; [intros [= ->]; by left|intros [[= ->]|?]; done].
    + rewrite lookup_insert_ne by done. split; [by right|intros [?|?]; [congruence|done]].
Qed.

Lemma pageset_remove_holds h s A a fo C F B :
  holdsL h s (A ++ (a, fo) :: C) F B ->
  exists h' s', remove h s fo = Some (h', s') /\ holdsL h' s' (A ++ C) (remove_first (fun x => x =? a) F) B /\ same_data_but a h h'.
Proof.
  intros (M & Hr & Ho). destruct (order_facts _ _ _ _ _ _ Hr Ho) as (_ & Hnd & Hl).
  assert (Ha : M !! fo = Some a) by (apply Hl; apply elem_of_app; right; by left).
  destruct (pageset_remove_rep _ _ _ _ _ fo Hr) as (h' & s' & Hrun & Hr' & Hx). rewrite Ha in Hr'. destruct (Hx a Ha) as (Hd & Emask & Hch).
  exists h', s'. split; [done|]. split; [|done]. exists (delete fo M). split; [done|].
  destruct Ho as (ls & Hls & EL). exists (remove_first (at_offset fo) <$> ls). split.
  - apply Forall2_same_length_lookup. pose proof (tb_len _ _ _ (rep_tbl _ _ _ _ _ Hr)) as Hl1. pose proof (tb_len _ _ _ (rep_tbl _ _ _ _ _ Hr')) as Hl2.
    split; [rewrite length_fmap, <- (Forall2_length _ _ _ Hls); lia|].
    intros k q' l' Hq' Hl'. rewrite list_lookup_fmap in Hl'. apply fmap_Some in Hl' as (l & Hlk & ->).
    assert (is_Some (hashTable s !! k)) as [q Hq] by (apply lookup_lt_is_Some_2; rewrite (Forall2_length _ _ _ Hls); by eapply lookup_lt_Some).
    assert (Hcl : chain h q l NULL) by (by apply (Forall2_lookup_lr _ _ _ k q l Hls)).
    destruct (Hch k q l Hq Hcl) as (q2 & Hq2 & Hcl2). by assert (q2 = q') as -> by congruence.
  - rewrite remove_first_concat by (by rewrite <- EL). rewrite <- EL. symmetry. by apply remove_at.
Qed.

#[export] Instance pageset_holder : PageHolder.PageHolder t.
Proof.
  refine {|
    PageHolder.find := find;
    PageHolder.enqueue := enqueue;
    PageHolder.remove := remove;
    PageHolder.getFirst := fun h s => getFirst s;
    PageHolder.getNext := getNextEntry;
    PageHolder.getNumPages := numPages;
    PageHolder.freeList := freeList;
    PageHolder.set_freeList := set_freelist;
    PageHolder.offset_ok := fun _ => true;
    PageHolder.holds := holdsL;
  |}.
  - intros h s L F B (M & Hr & Ho). apply (order_facts _ _ _ _ _ _ Hr Ho).
  - intros h s L F B a fo (M & Hr & Ho) Hin. apply (rep_page _ _ _ _ _ _ _ Hr). by apply (order_facts _ _ _ _ _ _ Hr Ho).
  - intros h s L F B a (M & Hr & Ho) Ha. destruct (rep_dom _ _ _ _ _ Hr a Ha) as (fo & Hfo).
    apply list_elem_of_fmap. exists (a, fo). split; [done|]. by apply (order_facts _ _ _ _ _ _ Hr Ho).
  - intros h s L F B (M & Hr & _). apply Hr.
  - intros h s L F B h' f' F' B' (M & Hr & (ls & Hls & EL)) Hs Hf. exists M. split; [by apply (pageset_freelist h s M F B)|].
    exists ls. split; [|done]. eapply Forall2_impl; [exact Hls|]. intros p l. by apply same_links_chain.
  - by intros [].
  - intros h s L F B fo (M & Hr & Ho) _. rewrite (pageset_find_rep _ _ _ _ _ fo Hr), (find_first_at L M); [done|].
    apply (order_facts _ _ _ _ _ _ Hr Ho).
  - intros h s L F B ok p fo pa ln Hh _. by apply pageset_enqueue_holds.
  - intros h s A a fo C F B Hh _. by apply pageset_remove_holds.
  - intros h s L F B (M & Hr & Ho). destruct (pageset_getFirst_rep _ _ _ _ _ Hr) as (s' & -> & Hr' & Et & _). exists s'. split.
    + f_equal. f_equal. destruct (order_facts _ _ _ _ _ _ Hr Ho) as (He & _). rewrite <- (enum_head _ _ _ _ He). symmetry.
      apply first_used_skip. by apply (low_empty h s M _ (rep_tbl _ _ _ _ _ Hr)).
    + exists M. split; [done|]. destruct Ho as (ls & Hls & EL). exists ls. by rewrite Et.
  - intros h s A a fo C F B (M & Hr & Ho). destruct (order_facts _ _ _ _ _ _ Hr Ho) as (He & _). by eapply enum_next.
  - intros h s L F B (M & Hr & Ho). rewrite (order_length _ _ _ _ _ _ Hr Ho). apply (rep_tbl _ _ _ _ _ Hr).
Defined.

End PageSet.
