(* ===== verification/PageSetDense.v ===== *)
(** * PageSetDense: the resident pages of a small file, os/kernel/mem/PageSetDense.C

    An array of 512 descriptors indexed by page number, with the free list of
    PageDesc.v.  [init] does not initialise the fields of the free list and the
    descriptors' init does not clear their links, unlike the other two classes:
    what the memory held before is an argument of both. *)

From stdpp Require Import base numbers option gmap list.
From S2P Require Import K42 Prelude PageDesc PageHolder.

Module PageSetDense.
Import PageDesc.

Abbreviation memory := (gmap Z Entry) (only parsing).

Definition MAX_PAGES : Z := 512.

Record t := mkPD { pageArray : list Z; numPages : Z; freeList : flist }.

Definition init (s : t) : t := mkPD (replicate 512 NULL) 0 (freeList s).

(** Entry::init: the links of the free list keep what the storage held. *)
Definition init_entry (junkNext junkPrev fo pa ln : Z) : Entry :=
  mkEntry fo pa (len_field ln) false false false init_rest NULL junkNext junkPrev.

Definition IndexFromOffset (fo : Z) : option Z :=
  let i := Z.shiftr fo LOG_PAGE_SIZE in
  _ ← assertK (i <? MAX_PAGES);
  Some i.

Definition find (h : memory) (s : t) (fo : Z) : option Z :=
  index ← IndexFromOffset fo;
  e ← pageArray s !! Z.to_nat index;
  if e =? NULL then Some NULL
  else
    n ← h !! e;
    _ ← assertK (fileOffset n =? fo);
    Some e.

(** The first page at or after [i]. *)
Fixpoint scan (fuel : nat) (s : t) (i : Z) : option Z :=
  match fuel with
  | O => None
  | S fuel =>
      if i <? MAX_PAGES then
        p ← pageArray s !! Z.to_nat i;
        if negb (p =? NULL) then Some p else scan fuel s (uadd i 1)
      else Some NULL
  end.

Definition getFirst (s : t) : option Z := scan 513 s 0.

(** getNext(uval offset) *)
Definition getNext (s : t) (offset : Z) : option Z :=
  if offset =? UMAX then getFirst s
  else
    i ← IndexFromOffset offset;
    scan 513 s (uadd i 1).

(** getNext(PageDesc *p) *)
Definition getNextEntry (h : memory) (s : t) (p : Z) : option Z :=
  n ← h !! p;
  getNext s (fileOffset n).

Definition enqueue (h : memory) (s : t) (junkNext junkPrev p fo pa ln : Z) : option (Z * (memory * t)) :=
  index ← IndexFromOffset fo;
  if p =? NULL then Some (NULL, (h, s))
  else
    _ ← pageArray s !! Z.to_nat index;
    Some (p, (<[p := init_entry junkNext junkPrev fo pa ln]> h,
              mkPD (<[Z.to_nat index := p]> (pageArray s)) (uadd (numPages s) 1) (freeList s))).

Definition set_freelist (s : t) (f : flist) : t := mkPD (pageArray s) (numPages s) f.

Definition on_freelist (s : t) (r : option (memory * flist)) : option (memory * t) :=
  '(h, f) ← r; Some (h, set_freelist s f).

(** dequeueFreeList(PageDesc *pg) *)
Definition dequeueFreeList (h : memory) (s : t) (p : Z) : option (memory * t) :=
  on_freelist s (PageDesc.dequeueFreeList h (freeList s) p).

Definition enqueueFreeList (h : memory) (s : t) (p : Z) : option (memory * t) :=
  on_freelist s (PageDesc.enqueueFreeList h (freeList s) p).

(** dequeueFreeList(PageDesc::dqtype type) *)
Definition dequeueFreeListType (h : memory) (s : t) (type : dqtype) : option (Z * (memory * t)) :=
  '(pg, (h1, f)) ← PageDesc.dequeueFreeListType h (freeList s) type;
  Some (pg, (h1, set_freelist s f)).

Definition dequeue (h : memory) (s : t) (fo : Z) : option (Z * (memory * t)) :=
  index ← IndexFromOffset fo;
  p ← pageArray s !! Z.to_nat index;
  if p =? NULL then Some (NULL, (h, s))
  else
    n ← h !! p;
    let s1 := mkPD (<[Z.to_nat index := NULL]> (pageArray s)) (usub (numPages s) 1) (freeList s) in
    hs ← (if free n then dequeueFreeList h s1 p else Some (h, s1));
    Some (p, hs).

Definition remove (h : memory) (s : t) (fo : Z) : option (memory * t) :=
  '(pg, (h1, s1)) ← dequeue h s fo;
  Some (if negb (pg =? NULL) then delete pg h1 else h1, s1).

(** ** The array as a list of pages *)

Fixpoint listing (i : Z) (l : list Z) : list (Z * Z) :=
  match l with
  | [] => []
  | a :: l => (if a =? NULL then [] else [(a, Z.shiftl i LOG_PAGE_SIZE)]) ++ listing (i + 1) l
  end.

Lemma listing_app i l1 l2 : listing i (l1 ++ l2) = listing i l1 ++ listing (i + Z.of_nat (length l1)) l2.
Proof.
  revert i. induction l1 as [|a l1 IH]; intros i; cbn [listing app length]; [by rewrite Z.add_0_r|].
  rewrite IH, <- app_assoc. do 3 f_equal. lia.
Qed.

Lemma listing_elem i l a fo :
  (a, fo) ∈ listing i l <-> exists k, l !! k = Some a /\ a <> NULL /\ fo = Z.shiftl (i + Z.of_nat k) LOG_PAGE_SIZE.
Proof.
  revert i. induction l as [|b l IH]; intros i; cbn [listing].
  - rewrite elem_of_nil. split; [done|]. by intros (k & ? & _).
  - rewrite elem_of_app, IH. split.
    + intros [Hin|(k & Hk & Ha & E)].
      * destruct (Z.eqb_spec b NULL); [by apply elem_of_nil in Hin|]. apply list_elem_of_singleton in Hin. injection Hin as -> ->.
        exists 0%nat. split; [done|]. split; [done|]. f_equal. lia.
      * exists (S k). split; [done|]. split; [done|]. rewrite E. f_equal. lia.
    + intros ([|k] & Hk & Ha & E).
      * left. injection Hk as ->. rewrite (proj2 (Z.eqb_neq _ _) Ha). apply list_elem_of_singleton. rewrite E. f_equal. f_equal. lia.
      * right. exists k. split; [done|]. split; [done|]. rewrite E. f_equal. lia.
Qed.

Lemma shiftl_12 i : Z.shiftl i LOG_PAGE_SIZE = i * 4096.
Proof. rewrite Z.shiftl_mul_pow2 by done. done. Qed.

Lemma listing_nodup i l : NoDup (listing i l).*2.
Proof.
  revert i. induction l as [|b l IH]; intros i; cbn [listing]; [constructor|]. rewrite fmap_app. apply NoDup_app. split.
  - destruct (b =? NULL); [constructor|apply NoDup_singleton].
  - split; [|done]. intros fo Hin Hin'. destruct (b =? NULL); [by apply elem_of_nil in Hin|]. apply list_elem_of_singleton in Hin. cbn in Hin. subst fo.
    apply list_elem_of_fmap in Hin' as ([a fo] & E & Hin'). apply listing_elem in Hin' as (k & _ & _ & E'). cbn [snd] in E. rewrite E', !shiftl_12 in E. lia.
Qed.

(** Two ways to split a list at the page of an offset are the same. *)
Lemma split_unique (A C A' C' : list (Z * Z)) a a' fo :
  A ++ (a, fo) :: C = A' ++ (a', fo) :: C' -> NoDup (A ++ (a, fo) :: C).*2 -> A = A' /\ a = a' /\ C = C'.
Proof.
  intros E Hnd. assert (Hnd' : NoDup (A' ++ (a', fo) :: C').*2) by by rewrite <- E.
  destruct (span_at _ a fo Hnd) as (A1 & C1 & E1 & S1); [apply elem_of_app; right; by left|].
  assert (Hs : forall X x Y, NoDup (X ++ (x, fo) :: Y).*2 -> span_until (at_offset fo) (X ++ (x, fo) :: Y) = (X, (x, fo) :: Y)).
  { intros X x Y Hn. apply span_until_intro; [|apply Z.eqb_refl]. apply Forall_forall. intros [b e] Hin. apply Z.eqb_neq. cbn [snd]. intros ->.
    rewrite fmap_app in Hn. apply NoDup_app in Hn as (_ & H & _). apply (H fo); [apply list_elem_of_fmap; by exists (b, fo)|by left]. }
  pose proof (Hs A a C Hnd) as H1. pose proof (Hs A' a' C' Hnd') as H2. rewrite E, H2 in H1. by simplify_eq.
Qed.

(** The page at index [k], and what is before and after it. *)
Lemma listing_split (arr : list Z) k a :
  arr !! k = Some a -> a <> NULL ->
  listing 0 arr = listing 0 (take k arr) ++ (a, Z.shiftl (Z.of_nat k) LOG_PAGE_SIZE) :: listing (Z.of_nat (S k)) (drop (S k) arr).
Proof.
  intros Hk Ha. pose proof (lookup_lt_Some _ _ _ Hk) as Hlt. rewrite <- (take_drop_middle _ _ _ Hk) at 1. rewrite listing_app, length_take_le by lia. cbn [listing].
  rewrite (proj2 (Z.eqb_neq _ _) Ha). cbn [app]. rewrite Z.add_0_l. do 3 f_equal. lia.
Qed.

Lemma listing_clear (arr : list Z) k :
  (k < length arr)%nat -> listing 0 (<[k := NULL]> arr) = listing 0 (take k arr) ++ listing (Z.of_nat (S k)) (drop (S k) arr).
Proof.
  intros Hk. rewrite insert_take_drop by done. rewrite listing_app, length_take_le by lia. cbn [listing]. rewrite Z.eqb_refl. cbn [app]. do 2 f_equal. lia.
Qed.

Lemma scan_listing fuel s j :
  length (pageArray s) = 512%nat -> (j <= 512)%nat -> (512 < j + fuel)%nat ->
  scan fuel s (Z.of_nat j) = Some (default NULL (fst <$> head (listing (Z.of_nat j) (drop j (pageArray s))))).
Proof.
  intros Hl. revert j. induction fuel as [|fuel IH]; intros j Hj Hf; [lia|]. cbn [scan]. unfold MAX_PAGES.
  destruct (Z.ltb_spec (Z.of_nat j) 512) as [Hlt|Hge]; [|by rewrite drop_ge by lia].
  rewrite Nat2Z.id. assert (is_Some (pageArray s !! j)) as [p Hp] by (apply lookup_lt_is_Some_2; lia). rewrite Hp. cbn [mbind option_bind].
  rewrite (drop_S _ _ _ Hp). cbn [listing]. destruct (Z.eqb_spec p NULL) as [E|E]; cbn [negb]; [|done].
  rewrite uadd_small by lia. replace (Z.of_nat j + 1) with (Z.of_nat (S j)) by lia. rewrite IH by lia. done.
Qed.

(** ** The promise to the cache managers, with storage that was zeroed *)

Record rep (h : memory) (s : t) (L : list (Z * Z)) (F : list Z) (B : Z -> bool) : Prop := {
  rep_len : length (pageArray s) = 512%nat;
  rep_list : L = listing 0 (pageArray s);
  rep_pages : forall a fo, (a, fo) ∈ L -> exists n, h !! a = Some n /\ fileOffset n = fo;
  rep_dom : forall a, is_Some (h !! a) -> a ∈ L.*1;
  rep_num : numPages s = uwrap (Z.of_nat (length L));
  rep_free : frep h (freeList s) F B;
}.

(** Page aligned, and one of the first 512 pages. *)
Definition offset_ok (fo : Z) : bool :=
  (0 <=? fo) && (fo <? 512 * 4096) && (fo mod 4096 =? 0).

Lemma offset_index fo :
  offset_ok fo = true -> exists k, (k < 512)%nat /\ IndexFromOffset fo = Some (Z.of_nat k) /\ fo = Z.shiftl (Z.of_nat k) LOG_PAGE_SIZE.
Proof.
  unfold offset_ok. intros H. bool_props. pose proof (Z.div_mod fo 4096 ltac:(lia)) as E.
  exists (Z.to_nat (fo / 4096)). assert (Hr : 0 <= fo / 4096 < 512) by (split; [apply Z.div_pos; lia|apply Z.div_lt_upper_bound; lia]).
  split; [lia|]. unfold IndexFromOffset. change LOG_PAGE_SIZE with 12. rewrite Z.shiftr_div_pow2 by done. change (2 ^ 12) with 4096.
  rewrite assertK_true by (apply Z.ltb_lt; unfold MAX_PAGES; lia). cbn [mbind option_bind]. rewrite Z2Nat.id by lia. split; [done|].
  change 12 with LOG_PAGE_SIZE. rewrite shiftl_12. lia.
Qed.

Lemma IndexFromOffset_page k : (k < 512)%nat -> IndexFromOffset (Z.shiftl (Z.of_nat k) LOG_PAGE_SIZE) = Some (Z.of_nat k).
Proof.
  intros Hk. unfold IndexFromOffset. change LOG_PAGE_SIZE with 12. rewrite Z.shiftr_shiftl_l by lia. rewrite Z.sub_diag, Z.shiftl_0_r.
  rewrite assertK_true by (apply Z.ltb_lt; unfold MAX_PAGES; lia). done.
Qed.

(** The entry of the array for an offset says whether a page is there. *)
Lemma array_at h s L F B k e :
  rep h s L F B -> pageArray s !! k = Some e -> e <> NULL -> (e, Z.shiftl (Z.of_nat k) LOG_PAGE_SIZE) ∈ L.
Proof. intros Hr He Hn. rewrite (rep_list _ _ _ _ _ Hr). apply listing_elem. by exists k. Qed.

Lemma array_of h s L F B k a :
  rep h s L F B -> (a, Z.shiftl (Z.of_nat k) LOG_PAGE_SIZE) ∈ L -> pageArray s !! k = Some a /\ a <> NULL.
Proof.
  intros Hr Hin. rewrite (rep_list _ _ _ _ _ Hr) in Hin. apply listing_elem in Hin as (k' & Hk & Ha & E).
  rewrite !shiftl_12 in E. by replace k with k' by lia.
Qed.

Lemma dense_find_rep h s L F B fo :
  rep h s L F B -> offset_ok fo = true -> find h s fo = Some (default NULL (fst <$> find_first (at_offset fo) L)).
Proof.
  intros Hr Hfo. destruct (offset_index fo Hfo) as (k & Hk & Hix & Efo). unfold find. rewrite Hix. cbn [mbind option_bind]. rewrite Nat2Z.id.
  pose proof (rep_len _ _ _ _ _ Hr) as Hl. assert (is_Some (pageArray s !! k)) as [e He] by (apply lookup_lt_is_Some_2; lia). rewrite He. cbn [mbind option_bind].
  destruct (find_first (at_offset fo) L) as [[a d]|] eqn:Ef.
  - apply find_first_elem in Ef as [Hin Ef]. unfold at_offset in Ef. cbn [snd] in Ef. bool_props. subst d.
    destruct (rep_pages _ _ _ _ _ Hr _ _ Hin) as (n & Hn & Hnf). rewrite Efo in Hin. destruct (array_of _ _ _ _ _ _ _ Hr Hin) as [Ha Hne].
    assert (e = a) as -> by congruence. rewrite (proj2 (Z.eqb_neq _ _) Hne), Hn. cbn [mbind option_bind]. by rewrite Hnf, Z.eqb_refl.
  - destruct (Z.eqb_spec e NULL) as [->|Hne]; [done|]. apply find_first_None in Ef. rewrite Forall_forall in Ef.
    specialize (Ef _ (array_at _ _ _ _ _ _ _ Hr He Hne)). rewrite <- Efo in Ef. unfold at_offset in Ef. bool_props. done.
Qed.

Lemma dense_enqueue_rep h s L F B p fo pa ln :
  rep h s L F B -> offset_ok fo = true -> p <> NULL -> p ∉ L.*1 -> fo ∉ L.*2 ->
  exists h' s' L', enqueue h s NULL NULL p fo pa ln = Some (p, (h', s')) /\ L' ≡ₚ (p, fo) :: L /\
    rep h' s' L' F (set_busy B p false) /\ same_data_but p h h' /\ data <$> h' !! p = Some (data (PageDesc.init_entry fo pa ln)).
Proof.
  intros Hr Hfo Hp Hnin Hnfo. destruct (offset_index fo Hfo) as (k & Hk & Hix & Efo). unfold enqueue. rewrite Hix. cbn [mbind option_bind]. rewrite Nat2Z.id.
  rewrite (proj2 (Z.eqb_neq _ _) Hp). pose proof Hr as [Hl EL Hpg Hdom Hnum Hf].
  assert (is_Some (pageArray s !! k)) as [e He] by (apply lookup_lt_is_Some_2; lia). rewrite He. cbn [mbind option_bind].
  assert (e = NULL) as ->.
  { destruct (Z.eq_dec e NULL) as [|Hne]; [done|]. destruct Hnfo. pose proof (array_at _ _ _ _ _ _ _ Hr He Hne) as Hin. rewrite <- Efo in Hin.
    apply list_elem_of_fmap. by exists (e, fo). }
  assert (Hnone : h !! p = None) by (destruct (h !! p) eqn:E; [destruct Hnin; apply Hdom; by eexists|done]).
  eexists _, _, _. split; [reflexivity|].
  assert (Hperm : listing 0 (<[k := p]> (pageArray s)) ≡ₚ (p, fo) :: L).
  { rewrite (listing_split _ k p); [|by rewrite list_lookup_insert_eq by lia|done]. rewrite take_insert_ge, drop_insert_lt by lia. rewrite EL, <- Efo.
    rewrite <- (list_insert_id _ _ _ He) at 3. rewrite listing_clear by lia. by rewrite Permutation_middle. }
  split; [exact Hperm|]. split; [|split; [apply same_data_insert|by rewrite lookup_insert_eq]].
  constructor; cbn [pageArray numPages freeList].
  - by rewrite length_insert.
  - done.
  - intros a d Hin. rewrite Hperm, elem_of_cons in Hin. destruct Hin as [[= -> ->]|Hin]; [rewrite lookup_insert_eq; by eexists|].
    rewrite lookup_insert_ne; [by apply Hpg|]. intros ->. apply Hnin. apply list_elem_of_fmap. by exists (a, d).
  - intros a [n Hn]. rewrite Hperm. cbn [fmap list_fmap fst]. rewrite elem_of_cons. apply lookup_insert_Some in Hn as [[<- _]|[_ Hn]]; [by left|].
    right. apply Hdom. by eexists.
  - rewrite (Permutation_length Hperm). cbn [length]. by rewrite Hnum, uadd_uwrap_succ.
  - by apply insert_frep.
Qed.

Lemma dense_remove_rep h s A a fo C F B :
  rep h s (A ++ (a, fo) :: C) F B -> offset_ok fo = true ->
  exists h' s', remove h s fo = Some (h', s') /\ rep h' s' (A ++ C) (remove_first (fun x => x =? a) F) B /\ same_data_but a h h'.
Proof.
  intros Hr Hfo. destruct (offset_index fo Hfo) as (k & Hk & Hix & Efo). pose proof Hr as [Hl EL Hpg Hdom Hnum Hf].
  assert (Hin : (a, fo) ∈ A ++ (a, fo) :: C) by (apply elem_of_app; right; by left).
  destruct (Hpg _ _ Hin) as (n & Hn & Hnf). pose proof Hin as Hin'. rewrite Efo in Hin' at 1. destruct (array_of _ _ _ _ _ _ _ Hr Hin') as [Ha Hne].
  unfold remove, dequeue. rewrite Hix. cbn [mbind option_bind]. rewrite Nat2Z.id, Ha. cbn [mbind option_bind].
  rewrite (proj2 (Z.eqb_neq _ _) Hne), Hn. cbn [mbind option_bind]. set (s1 := mkPD _ _ _).
  destruct (drop_frep _ _ _ _ _ _ Hf Hn) as (h3 & f3 & Hdq & Hf3 & Hsc).
  assert (Hrun : (if free n then dequeueFreeList h s1 a else Some (h, s1)) = Some (h3, set_freelist s1 f3)).
  { unfold dequeueFreeList, on_freelist. destruct (free n); [change (freeList s1) with (freeList s); by rewrite Hdq|]. injection Hdq as <- <-. done. }
  rewrite Hrun. cbn [mbind option_bind]. rewrite (proj2 (Z.eqb_neq _ _) Hne). cbn [negb]. eexists _, _. split; [reflexivity|].
  split; [|etrans; [by apply same_core_data|apply same_data_delete]].
  pose proof (listing_nodup 0 (pageArray s)) as Hnd. rewrite <- EL in Hnd.
  rewrite (listing_split _ k a Ha Hne), <- Efo in EL. destruct (split_unique _ _ _ _ _ _ _ EL Hnd) as (EA & _ & EC).
  assert (Hother : forall b d, (b, d) ∈ A ++ C -> b <> a).
  { intros b d Hb ->. assert (Hb' : (a, d) ∈ A ++ (a, fo) :: C) by (rewrite elem_of_app, elem_of_cons in *; tauto).
    destruct (Hpg _ _ Hb') as (n' & Hn' & Hd). assert (d = fo) as -> by congruence. rewrite fmap_app, fmap_cons in Hnd. cbn [snd] in Hnd.
    apply NoDup_app in Hnd as (_ & H1 & [H2 _]%NoDup_cons). apply elem_of_app in Hb as [Hb|Hb].
    - apply (H1 fo); [apply list_elem_of_fmap; by exists (a, fo)|by left].
    - apply H2. apply list_elem_of_fmap. by exists (a, fo). }
  constructor; cbn [pageArray numPages freeList s1 set_freelist].
  - by rewrite length_insert.
  - rewrite listing_clear by lia. by rewrite EA, EC.
  - intros b d Hb. rewrite lookup_delete_ne by (apply not_eq_sym; by eapply Hother).
    assert (Hb' : (b, d) ∈ A ++ (a, fo) :: C) by (rewrite elem_of_app, elem_of_cons in *; tauto).
    destruct (Hpg _ _ Hb') as (m & Hm & Hd). destruct (same_core_lookup_inv _ _ _ _ Hsc Hm) as (m' & Hm' & E). exists m'. split; [done|].
    injection E. congruence.
  - intros b [m Hm]. apply lookup_delete_Some in Hm as [Hba Hm]. destruct (same_core_lookup _ _ _ _ Hsc Hm) as (m' & Hm' & _).
    assert (Hb : b ∈ (A ++ (a, fo) :: C).*1) by (apply Hdom; by eexists). rewrite fmap_app in *. cbn [fmap list_fmap fst] in Hb.
    rewrite elem_of_app, elem_of_cons in Hb. rewrite elem_of_app. destruct Hb as [?|[?|?]]; [tauto|congruence|tauto].
  - rewrite Hnum, !length_app. cbn [length]. rewrite Nat.add_succ_r. apply usub_uwrap_pred.
  - done.
Qed.

Lemma dense_getNext_rep h s A a fo C F B :
  rep h s (A ++ (a, fo) :: C) F B -> getNextEntry h s a = Some (default NULL (fst <$> head C)).
Proof.
  intros Hr. pose proof Hr as [Hl EL Hpg _ _ _]. assert (Hin : (a, fo) ∈ A ++ (a, fo) :: C) by (apply elem_of_app; right; by left).
  destruct (Hpg _ _ Hin) as (n & Hn & Hnf). unfold getNextEntry. rewrite Hn. cbn [mbind option_bind]. rewrite Hnf.
  rewrite EL in Hin. apply listing_elem in Hin as (k & Hk & Ha & Efo). rewrite Z.add_0_l in Efo. pose proof (lookup_lt_Some _ _ _ Hk) as Hlt.
  unfold getNext. assert (Hfo : fo <> UMAX) by (rewrite Efo, shiftl_12; unfold UMAX; lia). rewrite (proj2 (Z.eqb_neq _ _) Hfo).
  rewrite Efo at 1. rewrite IndexFromOffset_page by lia. cbn [mbind option_bind]. rewrite uadd_small by lia. replace (Z.of_nat k + 1) with (Z.of_nat (S k)) by lia.
  rewrite scan_listing by lia. pose proof (listing_nodup 0 (pageArray s)) as Hnd. rewrite <- EL in Hnd.
  rewrite (listing_split _ k a Hk Ha), <- Efo in EL. destruct (split_unique _ _ _ _ _ _ _ EL Hnd) as (_ & _ & ->). done.
Qed.

#[export] Instance dense_holder : PageHolder.PageHolder t.
Proof.
  refine {|
    PageHolder.find := find;
    PageHolder.enqueue := fun h s _ p fo pa ln => enqueue h s NULL NULL p fo pa ln;
    PageHolder.remove := remove;
    PageHolder.getFirst := fun h s => e ← getFirst s; Some (e, s);
    PageHolder.getNext := getNextEntry;
    PageHolder.getNumPages := numPages;
    PageHolder.freeList := freeList;
    PageHolder.set_freeList := set_freelist;
    PageHolder.offset_ok := offset_ok;
    PageHolder.holds := rep;
  |}.
  - intros h s L F B Hr. rewrite (rep_list _ _ _ _ _ Hr). apply listing_nodup.
  - intros h s L F B a fo Hr Hin. split; [|by apply (rep_pages _ _ _ _ _ Hr)]. rewrite (rep_list _ _ _ _ _ Hr) in Hin.
    by apply listing_elem in Hin as (_ & _ & ? & _).
  - intros h s L F B a Hr. apply (rep_dom _ _ _ _ _ Hr).
  - intros h s L F B Hr. apply (rep_free _ _ _ _ _ Hr).
  - intros h s L F B h' f' F' B' [Hl EL Hpg Hdom Hnum _] Hs Hf. constructor; try done.
    + intros a fo Hin. destruct (Hpg a fo Hin) as (n & Hn & <-). destruct (same_links_inv _ _ _ _ Hs Hn) as (n' & Hn' & E). exists n'. split; [done|]. by injection E.
    + intros a Ha. apply Hdom. by apply (same_links_dom h h').
  - by intros [].
  - intros h s L F B fo. apply dense_find_rep.
  - intros h s L F B _ p fo pa ln Hr Hfo _. by apply dense_enqueue_rep.
  - intros h s A a fo C F B. apply dense_remove_rep.
  - intros h s L F B Hr. exists s. split; [|done]. unfold getFirst. change 0 with (Z.of_nat 0).
    rewrite scan_listing by (rewrite ?(rep_len _ _ _ _ _ Hr); lia). cbn [mbind option_bind]. rewrite drop_0. by rewrite (rep_list _ _ _ _ _ Hr).
  - intros h s A a fo C F B. apply dense_getNext_rep.
  - intros h s L F B Hr. apply (rep_num _ _ _ _ _ Hr).
Defined.

(** With zeroed storage the constructor keeps the promise. *)
Lemma dense_init_rep s : freeList s = mkFL NULL NULL 0 -> rep ∅ (init s) [] [] (fun _ => false).
Proof.
  intros Hf. constructor; cbn [init pageArray numPages freeList]; [done|by vm_compute|..].
  - intros a fo Hin. by apply elem_of_nil in Hin.
  - intros a [m Hm]. by rewrite lookup_empty in Hm.
  - done.
  - rewrite Hf. constructor; [done|done|..]; intros a m Hm; by rewrite lookup_empty in Hm.
Qed.

(** Otherwise the free list starts from what the storage held: here the first
    page that becomes a candidate is linked behind address 8. *)
Lemma dense_init_junk :
  exists p h s, enqueue ∅ (init (mkPD [] 0 (mkFL 8 8 7))) NULL NULL 100 4096 0x1000 4096 = Some (p, (h, s)) /\
    numPagesFree (freeList s) = 7 /\ markFree h (freeList s) p = None.
Proof. eexists _, _, _. split; [vm_compute; reflexivity|]. by vm_compute. Qed.

End PageSetDense.
