(* ===== verification/FCMCommon.v ===== *)
(** * FCMCommon: the resident pages of a cache manager, os/kernel/mem/FCMCommon.C

    The operations of FCMCommon on its page list, for any class of pages that
    keeps the promise of PageHolder.v: looking up and adding pages, the walks
    over all pages, freeing all pages, established pages and the notifications
    that wait for a page.

    The page manager, the hardware mappings and the copying of frames are
    outside: what is asked of them is a list of [effect]s.  Where the code waits
    for I/O it releases the lock; the run ends there with [Blocked] and goes on
    as a new run of the loop from whatever state is found later. *)

From stdpp Require Import base numbers option gmap list.
From S2P Require Import K42 Prelude DList PageDesc PageHolder FreeFrameList PageList PageSet PageSetDense.

Module FCMCommon.
Import PageDesc PageHolder.

(** ** Notifications: os/kernel/mem/PageFaultNotification.C and .H *)

Record PageFaultNotification := mkN {
  processAnnex : Z; pageFaultId : Z; threadBlocked : bool; wasWoken : bool; success : bool; prefetch : bool; thread : Z;
  n_next : Z;
}.

#[export] Instance notification_linked : Linked PageFaultNotification Z := {|
  next := n_next;
  set_next := fun p n => mkN (processAnnex n) (pageFaultId n) (threadBlocked n) (wasWoken n) (success n) (prefetch n) (thread n) p;
  payload := thread;
  next_set_next := fun _ _ => eq_refl;
  payload_set_next := fun _ _ => eq_refl;
|}.

Abbreviation notes := (gmap Z PageFaultNotification) (only parsing).

(** What the world outside is asked to do. *)
Inductive effect :=
| Unblock (thread : Z)
| NotifyFaultCompletion (pa n : Z)
| UnmapPage (offset ppset : Z)
| Memcpy (dst src size : Z)
| DeallocPages (addr size : Z)
| DeallocListOfPages (ffl : FreeFrameList.t).

Definition initSynchronous (cur : Z) (n : PageFaultNotification) : PageFaultNotification :=
  mkN (processAnnex n) (pageFaultId n) true false (success n) (prefetch n) cur (n_next n).

Definition setRC (rc : Z) (n : PageFaultNotification) : PageFaultNotification :=
  mkN (processAnnex n) (pageFaultId n) (threadBlocked n) (wasWoken n) (_SUCCESS rc) (prefetch n) (thread n) (n_next n).

Definition set_woken (n : PageFaultNotification) : PageFaultNotification :=
  mkN (processAnnex n) (pageFaultId n) (threadBlocked n) true (success n) (prefetch n) (thread n) (n_next n).

Definition doNotification (nm : notes) (a : Z) : option (notes * list effect) :=
  n ← nm !! a;
  if threadBlocked n then Some (<[a := set_woken n]> nm, [Unblock (thread n)])
  else if prefetch n then Some (delete a nm, [])
  else Some (nm, [NotifyFaultCompletion (processAnnex n) a]).

(** The loop of notify. *)
Fixpoint notify_loop (fuel : nat) (nm : notes) (notf rc skipFn : Z) : option (notes * list effect) :=
  match fuel with
  | O => None
  | S fuel =>
      if notf =? NULL then Some (nm, [])
      else
        n ← nm !! notf;
        let nxt := n_next n in
        '(nm1, ev) ← (if negb (notf =? skipFn) then doNotification (<[notf := setRC rc n]> nm) notf else Some (nm, []));
        '(nm2, ev2) ← notify_loop fuel nm1 nxt rc skipFn;
        Some (nm2, ev ++ ev2)
  end.

(** Setters of PageDesc fields. *)
Definition set_fn (p : Z) (n : Entry) : Entry :=
  let r := rest n in
  set_rest (mkRest (used r) (freeAfterIO r) (mapped r) (cacheSynced r) (established r) (forkCopied1 r) (forkCopied2 r) (forkIO r)
                   (forkIOLock r) (forkMapParent r) (copiedOnFork r) (pinCount r) p (ppset r)) n.

Definition set_freeAfterIO (n : Entry) : Entry :=
  let r := rest n in
  set_rest (mkRest (used r) true (mapped r) (cacheSynced r) (established r) (forkCopied1 r) (forkCopied2 r) (forkIO r)
                   (forkIOLock r) (forkMapParent r) (copiedOnFork r) (pinCount r) (fn r) (ppset r)) n.

(** ppset and mapped cleared *)
Definition set_unmapped (n : Entry) : Entry :=
  let r := rest n in
  set_rest (mkRest (used r) (freeAfterIO r) false (cacheSynced r) (established r) (forkCopied1 r) (forkCopied2 r) (forkIO r)
                   (forkIOLock r) (forkMapParent r) (copiedOnFork r) (pinCount r) (fn r) 0) n.

Definition set_cacheSynced (n : Entry) : Entry :=
  let r := rest n in
  set_rest (mkRest (used r) (freeAfterIO r) (mapped r) true (established r) (forkCopied1 r) (forkCopied2 r) (forkIO r)
                   (forkIOLock r) (forkMapParent r) (copiedOnFork r) (pinCount r) (fn r) (ppset r)) n.

Definition set_established (b : bool) (n : Entry) : Entry :=
  let r := rest n in
  set_rest (mkRest (used r) (freeAfterIO r) (mapped r) (cacheSynced r) b (forkCopied1 r) (forkCopied2 r) (forkIO r)
                   (forkIOLock r) (forkMapParent r) (copiedOnFork r) (pinCount r) (fn r) (ppset r)) n.

Definition set_paddr (pa : Z) (n : Entry) : Entry :=
  mkEntry (fileOffset n) pa (len n) (dirty n) (doingIO n) (free n) (rest n) (e_next n) (freeListNext n) (freeListPrev n).

(** notify: returns whether the lock is still held. *)
Definition notify (h : memory) (nm : notes) (pg rc skipFn : Z) (keepLock : bool) : option (memory * notes * bool * list effect) :=
  n ← h !! pg;
  let notf := fn (rest n) in
  '(nm1, ev) ← notify_loop (S (size nm)) nm notf rc skipFn;
  Some (<[pg := set_fn 0 n]> h, nm1, keepLock, ev).

Definition unLockPage (h : memory) (nm : notes) (pg : Z) : option (memory * notes * bool * list effect) :=
  n ← h !! pg;
  _ ← assertK (doingIO n);
  notify (<[pg := set_flags (dirty n) false n]> h) nm pg 0 0 false.

(** PageAllocatorKernPinned: frames are addressed at a fixed distance. *)
Definition realToVirt (virtBase real : Z) : Z := uadd real virtBase.
Definition virtToReal (virtBase virt : Z) : Z := usub virt virtBase.

(** CacheSync for PowerPC; the cache instructions themselves have no state here. *)
Definition CacheSync (PCacheLineSize : Z) (n : Entry) : option Entry :=
  _ ← assertK (PCacheLineSize =? 128);
  Some (set_cacheSynced n).

Inductive block_t := DO_BLOCK | DONT_BLOCK.

Inductive outcome := Done | Blocked (pg : Z).

Section ops.
Context {PL : Type} `{!PageHolder PL}.

Definition findPage (h : memory) (s : PL) (fo : Z) : option Z :=
  p ← find h s fo;
  if negb (p =? NULL) then Some p else Some 0.

Definition addPage (h : memory) (s : PL) (ok : bool) (p fo pa ln : Z) : option (Z * (memory * PL)) :=
  _ ← assertK (negb (pa =? 0));
  enqueue h s ok p fo pa ln.

(** A walk over all pages that changes each descriptor with [g]. *)
Fixpoint each (g : Entry -> option Entry) (fuel : nat) (h : memory) (s : PL) (pg : Z) : option memory :=
  match fuel with
  | O => None
  | S fuel =>
      if pg =? NULL then Some h
      else
        n ← h !! pg;
        n' ← g n;
        let h1 := <[pg := n']> h in
        nx ← getNext h1 s pg;
        each g fuel h1 s nx
  end.

Definition each_page (g : Entry -> option Entry) (h : memory) (s : PL) : option (memory * PL) :=
  '(pg, s1) ← getFirst h s;
  h1 ← each g (S (size h)) h s1 pg;
  Some (h1, s1).

(** The page loop of locked_unmapAll. *)
Definition unmap_pages (h : memory) (s : PL) : option (memory * PL) :=
  each_page (fun pg => Some (set_unmapped pg)) h s.

Definition sync_page (PCacheLineSize : Z) (pg : Entry) : option Entry :=
  if negb (doingIO pg) && negb (cacheSynced (rest pg)) then
    _ ← assertK (negb (paddr pg =? 0));
    CacheSync PCacheLineSize pg
  else Some pg.

Definition locked_cacheSyncAll (PCacheLineSize : Z) (h : memory) (s : PL) : option (memory * PL) :=
  each_page (sync_page PCacheLineSize) h s.

(** sum.set(total, free) *)
Definition getSummary (s : PL) : Z * Z := (getNumPages s, numPagesFree (freeList s)).

(** ** Freeing all pages *)

Record dstate := mkD {
  d_mem : memory; d_pages : PL; d_notes : notes; d_frames : gmap Z FreeFrameList.FrameInfo; d_ffl : FreeFrameList.t;
  d_effects : list effect;
}.

Section dealloc.
Variables virtBase pageSize : Z.

(** The frame of a page goes to the list or, when it is a large page, to the
    page manager. *)
Definition free_frame (d : dstate) (tmp : Z) : option dstate :=
  if pageSize =? PAGE_SIZE then
    '(fm, ffl) ← FreeFrameList.freeFrame (d_frames d) (d_ffl d) tmp;
    Some (mkD (d_mem d) (d_pages d) (d_notes d) fm ffl (d_effects d))
  else Some (mkD (d_mem d) (d_pages d) (d_notes d) (d_frames d) (d_ffl d) (d_effects d ++ [DeallocPages tmp pageSize])).

Definition remove_page (d : dstate) (fo : Z) : option dstate :=
  '(h, s) ← remove (d_mem d) (d_pages d) fo;
  Some (mkD h s (d_notes d) (d_frames d) (d_ffl d) (d_effects d)).

(** The notification of the waiting thread is linked in front of pg->fn. *)
Definition wait_on (d : dstate) (p note cur : Z) : option dstate :=
  n ← d_mem d !! p;
  nt ← d_notes d !! note;
  Some (mkD (<[p := set_fn note n]> (d_mem d)) (d_pages d) (<[note := set_next (fn (rest n)) (initSynchronous cur nt)]> (d_notes d))
            (d_frames d) (d_ffl d) (d_effects d)).

(** One iteration up to the choice of the next page: the new [restart], and
    whether the thread has to wait. *)
Definition dealloc_page (block : block_t) (d : dstate) (p restart note cur : Z) : option (dstate * Z * bool) :=
  n ← d_mem d !! p;
  _ ← assertK (negb (paddr n =? 0));
  _ ← assertK (negb (established (rest n)) && (pinCount (rest n) =? 0));
  match doingIO n, block with
  | true, DONT_BLOCK => Some (mkD (<[p := set_freeAfterIO n]> (d_mem d)) (d_pages d) (d_notes d) (d_frames d) (d_ffl d) (d_effects d), p, false)
  | true, DO_BLOCK =>
      if forkIO (rest n) then
        _ ← assertK (negb (forkIOLock (rest n)));
        _ ← assertK (0 =? fn (rest n));
        d1 ← remove_page d (fileOffset n);
        Some (d1, restart, false)
      else
        d1 ← wait_on d p note cur;
        Some (d1, restart, true)
  | false, _ =>
      _ ← assertK (fn (rest n) =? 0);
      _ ← assertK (len n =? pageSize);
      d1 ← free_frame d (realToVirt virtBase (paddr n));
      d2 ← remove_page d1 (fileOffset n);
      Some (d2, restart, false)
  end.

Definition set_pages (d : dstate) (s : PL) : dstate := mkD (d_mem d) s (d_notes d) (d_frames d) (d_ffl d) (d_effects d).

(** The next page. *)
Definition advance (d : dstate) (restart : Z) : option (Z * dstate) :=
  if negb (restart =? NULL) then
    p ← getNext (d_mem d) (d_pages d) restart;
    Some (p, d)
  else
    '(p, s) ← getFirst (d_mem d) (d_pages d);
    Some (p, set_pages d s).

Fixpoint dealloc_loop (fuel : nat) (block : block_t) (d : dstate) (p restart note cur : Z) : option (outcome * dstate) :=
  match fuel with
  | O => None
  | S fuel =>
      if p =? NULL then Some (Done, d)
      else
        '(d1, restart1, wait) ← dealloc_page block d p restart note cur;
        if (wait : bool) then Some (Blocked p, d1)
        else
          '(p', d2) ← advance d1 restart1;
          dealloc_loop fuel block d2 p' restart1 note cur
  end.

(** The list of frames is handed to the page manager, whose answer is [rc]. *)
Definition give_list (d : dstate) (rc : Z) : option dstate :=
  if FreeFrameList.isNotEmpty (d_ffl d) then
    _ ← assertK (_SUCCESS rc);
    Some (mkD (d_mem d) (d_pages d) (d_notes d) (d_frames d) (d_ffl d) (d_effects d ++ [DeallocListOfPages (d_ffl d)]))
  else Some d.

(** From the start, or, with [restart] null, from the return of a wait. *)
Definition dealloc_run (block : block_t) (d : dstate) (note cur rc : Z) : option (outcome * dstate) :=
  '(p, s) ← getFirst (d_mem d) (d_pages d);
  '(o, d1) ← dealloc_loop (S (size (d_mem d))) block (set_pages d s) p NULL note cur;
  match o with
  | Done => d2 ← give_list d1 rc; Some (Done, d2)
  | Blocked _ => Some (o, d1)
  end.

Definition locked_deallocPageList (block : block_t) (h : memory) (s : PL) (nm : notes) (fm : gmap Z FreeFrameList.FrameInfo)
    (note cur rc : Z) : option (outcome * dstate) :=
  dealloc_run block (mkD h s nm fm FreeFrameList.init []) note cur rc.

End dealloc.

End ops.

Arguments dstate : clear implicits.

(** ** Descriptors without their links *)

Definition strip (n : Entry) : Entry :=
  mkEntry (fileOffset n) (paddr n) (len n) (dirty n) (doingIO n) false (rest n) NULL NULL NULL.

Definition desc (h : memory) (a : Z) : Entry :=
  match h !! a with Some n => strip n | None => init_entry 0 0 0 end.

Lemma desc_some (h : memory) a n : h !! a = Some n -> desc h a = strip n.
Proof. unfold desc. by intros ->. Qed.

Lemma desc_same p h h' a : same_data_but p h h' -> a <> p -> desc h' a = desc h a.
Proof.
  intros H Ha. specialize (H a Ha). unfold desc. destruct (h !! a), (h' !! a); try done. injection H. intros. unfold strip. congruence.
Qed.

Lemma desc_insert_ne (h : memory) p n a : a <> p -> desc (<[p := n]> h) a = desc h a.
Proof. intros Ha. unfold desc. by rewrite lookup_insert_ne. Qed.

Lemma desc_insert_eq (h : memory) p n : desc (<[p := n]> h) p = strip n.
Proof. unfold desc. by rewrite lookup_insert_eq. Qed.

Section spec.
Context {PL : Type} `{!PageHolder PL}.

Lemma holds_set_rest h (s : PL) L F B p n r :
  holds h s L F B -> h !! p = Some n -> holds (<[p := set_rest r n]> h) s L F B.
Proof.
  intros H Hn. destruct (set_rest_frep _ _ _ _ _ _ r (holds_free _ _ _ _ _ H) Hn) as [Hf Hs].
  rewrite <- (set_freeList_id s). by apply (holds_freeList h s L F B).
Qed.

Lemma holds_nodup_mid h (s : PL) A x C F B : holds h s (A ++ x :: C) F B -> x.1 ∉ A.*1 /\ x.1 ∉ C.*1.
Proof.
  intros H. apply holds_addrs in H. rewrite fmap_app, fmap_cons in H. apply NoDup_app in H as (_ & H1 & [H2 _]%NoDup_cons).
  split; [|done]. intros Hin. apply (H1 _ Hin). by left.
Qed.

Section dealloc.
Variables (virtBase pageSize : Z) (block : block_t).

(** What the loop does with a page: it stays, or the thread waits for it. *)
Definition stays (e : Entry) : bool := match block with DONT_BLOCK => doingIO e | DO_BLOCK => false end.

Definition waits (e : Entry) : bool :=
  match block with DONT_BLOCK => false | DO_BLOCK => doingIO e && negb (forkIO (rest e)) end.

(** The assertions of the loop. *)
Definition ready (e : Entry) : bool :=
  negb (paddr e =? 0) && negb (established (rest e)) && (pinCount (rest e) =? 0) &&
  (if doingIO e then stays e || waits e || negb (forkIOLock (rest e)) && (0 =? fn (rest e))
   else (fn (rest e) =? 0) && (len e =? pageSize)).

(** The frames of the pages that are not in transit. *)
Definition frame_of (e : Entry) : list Z := if doingIO e then [] else [realToVirt virtBase (paddr e)].

Definition freed (h : memory) (C : list (Z * Z)) : list Z := concat ((fun x => frame_of (desc h x.1)) <$> C).

(** [X]: the frames given back so far, in order; [Y]: those to come. *)
Definition given (d : dstate PL) (X Y : list Z) : Prop :=
  if pageSize =? PAGE_SIZE then
    d_effects d = [] /\ FreeFrameList.frames_ok (d_frames d) (Y ++ reverse X) /\
    exists l, FreeFrameList.inv2 (d_frames d) (d_ffl d) l FreeFrameList.init [] /\ FreeFrameList.frames (d_frames d) l = reverse X
  else d_effects d = (fun a => DeallocPages a pageSize) <$> X /\ d_ffl d = FreeFrameList.init.

Lemma given_ext d d' X Y :
  d_effects d' = d_effects d -> d_frames d' = d_frames d -> d_ffl d' = d_ffl d -> given d X Y -> given d' X Y.
Proof. unfold given. by intros -> -> ->. Qed.

Lemma frames_ok_app_r m Y X : FreeFrameList.frames_ok m (Y ++ X) -> FreeFrameList.frames_ok m X.
Proof. intros [H1 H2]. split; [by apply NoDup_app in H1 as (_ & _ & ?)|by apply Forall_app in H2 as [_ ?]]. Qed.

Lemma free_frame_spec d X a Y :
  given d X (a :: Y) ->
  exists d', free_frame pageSize d a = Some d' /\ given d' (X ++ [a]) Y /\
    d_mem d' = d_mem d /\ d_pages d' = d_pages d /\ d_notes d' = d_notes d.
Proof.
  unfold given, free_frame. destruct (Z.eqb_spec pageSize PAGE_SIZE) as [_|_].
  - intros (He & Hok & l & Hi & Hl). pose proof (FreeFrameList.freeFrame_spec _ _ _ _ _ a Hi) as Hs. destruct Hs as (m' & s' & l' & -> & Hi' & Hf & _ & Hd).
    { rewrite Hl. cbn. rewrite app_nil_r. apply (frames_ok_app_r _ Y). eapply FreeFrameList.frames_ok_perm; [|exact Hok]. exact (Permutation_middle _ _ _). }
    cbn [mbind option_bind]. eexists. split; [done|]. cbn [d_effects d_frames d_ffl d_mem d_pages d_notes]. split; [|done].
    split; [done|]. rewrite reverse_snoc. split; [|exists l'; by rewrite Hf, Hl].
    apply (FreeFrameList.frames_ok_dom (d_frames d)); [done|]. eapply FreeFrameList.frames_ok_perm; [|exact Hok]. exact (Permutation_middle _ _ _).
  - intros [He Hi]. eexists. split; [done|]. cbn. by rewrite He, fmap_app.
Qed.

Lemma freed_cons h x C : freed h (x :: C) = frame_of (desc h x.1) ++ freed h C.
Proof. done. Qed.

Lemma freed_ext h h' C : (forall x, x ∈ C -> desc h' x.1 = desc h x.1) -> freed h' C = freed h C.
Proof.
  intros H. unfold freed. f_equal. apply list_fmap_ext. intros i x Hx. by rewrite (H x) by (by eapply list_elem_of_lookup_2).
Qed.

Lemma Forall_desc_ext (P : Entry -> bool) h h' C :
  (forall x, x ∈ C -> desc h' x.1 = desc h x.1) -> Forall (fun x : Z * Z => P (desc h x.1) = true) C -> Forall (fun x : Z * Z => P (desc h' x.1) = true) C.
Proof. rewrite !Forall_forall. intros H HC x Hx. rewrite H by done. by apply HC. Qed.

(** The next page after the pages [A] that stay. *)
Lemma advance_spec d A C F B :
  holds (d_mem d) (d_pages d) (A ++ C) F B ->
  exists d', advance d (last_addr NULL A) = Some (default NULL (fst <$> head C), d') /\
    holds (d_mem d') (d_pages d') (A ++ C) F B /\ d_mem d' = d_mem d /\ d_notes d' = d_notes d /\
    d_effects d' = d_effects d /\ d_frames d' = d_frames d /\ d_ffl d' = d_ffl d.
Proof.
  intros H. unfold advance. destruct A as [|[a fo] A _] using rev_ind.
  - cbn [last_addr last fmap option_fmap option_map default negb Z.eqb].
    destruct (getFirst_holds _ _ _ _ _ H) as (s' & Hs & Hh). change (last_addr NULL []) with NULL. cbn [Z.eqb negb]. rewrite Hs. cbn [mbind option_bind].
    eexists. split; [reflexivity|]. cbn. done.
  - rewrite last_addr_snoc. rewrite <- app_assoc in H.
    destruct (holds_page _ _ _ _ _ a fo H) as [Ha _]; [apply elem_of_app; right; by left|].
    rewrite (proj2 (Z.eqb_neq _ _) Ha). cbn [negb]. rewrite (getNext_holds _ _ _ _ _ _ _ _ H). cbn [mbind option_bind]. eexists. split; [reflexivity|].
    by rewrite <- app_assoc.
Qed.

(** Removing a page of the list. *)
Lemma remove_page_spec d A a fo C F B :
  holds (d_mem d) (d_pages d) (A ++ (a, fo) :: C) F B -> offset_ok fo = true ->
  exists d' F', remove_page d fo = Some d' /\ holds (d_mem d') (d_pages d') (A ++ C) F' B /\ same_data_but a (d_mem d) (d_mem d') /\
    d_notes d' = d_notes d /\ d_effects d' = d_effects d /\ d_frames d' = d_frames d /\ d_ffl d' = d_ffl d.
Proof.
  intros H Hfo. destruct (remove_holds _ _ _ _ _ _ _ _ H Hfo) as (h' & s' & Hr & Hh & Hs). unfold remove_page. rewrite Hr. cbn [mbind option_bind].
  eexists _, _. split; [reflexivity|]. cbn. done.
Qed.

(** One page. *)
Lemma dealloc_page_spec d A a fo C F B X note cur :
  let e := desc (d_mem d) a in
  holds (d_mem d) (d_pages d) (A ++ (a, fo) :: C) F B -> offset_ok fo = true -> ready e = true -> is_Some (d_notes d !! note) ->
  given d X (freed (d_mem d) ((a, fo) :: C)) ->
  exists d' F', dealloc_page virtBase pageSize block d a (last_addr NULL A) note cur =
      Some (d', last_addr NULL (if stays e then A ++ [(a, fo)] else A), waits e) /\
    holds (d_mem d') (d_pages d') (A ++ (if stays e || waits e then (a, fo) :: C else C)) F' B /\
    same_data_but a (d_mem d) (d_mem d') /\ given d' (X ++ frame_of e) (freed (d_mem d) C) /\
    (stays e = true -> desc (d_mem d') a = set_freeAfterIO e) /\
    (waits e = true -> desc (d_mem d') a = set_fn note e) /\
    d_notes d' = if waits e then alter (fun nt => set_next (fn (rest e)) (initSynchronous cur nt)) note (d_notes d) else d_notes d.
Proof.
  intros e H Hfo Hrdy [nt Hnt] Hg. destruct (holds_page _ _ _ _ _ a fo H) as (Ha & n & Hn & Hnf); [apply elem_of_app; right; by left|].
  assert (He : e = strip n) by by apply desc_some. rewrite freed_cons in Hg. cbn [fst] in Hg. fold e in Hg.
  unfold dealloc_page. rewrite Hn. cbn [mbind option_bind]. unfold ready in Hrdy. rewrite He in Hrdy. cbn [strip paddr rest doingIO len] in Hrdy.
  apply andb_true_iff in Hrdy as [Hr1 Hrdy]. apply andb_true_iff in Hr1 as [Hr1 Hpin]. apply andb_true_iff in Hr1 as [Hpa Hest].
  rewrite Hpa, Hest, Hpin. cbn [assertK andb mbind option_bind].
  assert (Hfr : doingIO n = true -> frame_of e = []) by (intros E; unfold frame_of; rewrite He; cbn [strip doingIO]; by rewrite E).
  assert (Hrm : forall d1 C', d_mem d1 = d_mem d -> d_pages d1 = d_pages d -> d_notes d1 = d_notes d -> given d1 (X ++ frame_of e) C' ->
    exists d2 F', remove_page d1 (fileOffset n) = Some d2 /\ holds (d_mem d2) (d_pages d2) (A ++ C) F' B /\ same_data_but a (d_mem d) (d_mem d2) /\
      given d2 (X ++ frame_of e) C' /\ d_notes d2 = d_notes d).
  { intros d1 C' E1 E2 E3 Hg1. rewrite Hnf. rewrite <- E1, <- E2 in H. destruct (remove_page_spec _ _ _ _ _ _ _ H Hfo) as (d2 & F' & Hrp & Hh & Hs & E4 & E5 & E6 & E7).
    exists d2, F'. rewrite <- E1, <- E3. split_and!; try done. by apply (given_ext d1). }
  destruct (doingIO n) eqn:Hio.
  - specialize (Hfr eq_refl). rewrite Hfr in Hg |- *. cbn [app] in Hg. rewrite app_nil_r. unfold stays, waits in *. rewrite He in *. cbn [strip doingIO rest] in *.
    rewrite Hio in *. destruct block; cbn [orb andb negb] in *.
    + destruct (forkIO (rest n)) eqn:Hfk; cbn [negb orb] in *.
      * apply andb_true_iff in Hrdy as [Hlk Hfn]. rewrite Hlk, Hfn. cbn [assertK mbind option_bind].
        destruct (Hrm d (freed (d_mem d) C)) as (d2 & F' & -> & Hh & Hs & Hg2 & Hnts); [done|done|done|by rewrite Hfr, app_nil_r|]. cbn [mbind option_bind].
        eexists d2, F'. rewrite Hfr, app_nil_r in Hg2. by split_and!.
      * unfold wait_on. rewrite Hn, Hnt. cbn [mbind option_bind]. eexists _, F. split; [reflexivity|]. cbn [d_mem d_pages d_notes].
        split; [by apply holds_set_rest|]. split; [apply same_data_insert|]. split; [by apply (given_ext d)|]. split; [done|].
        split; [intros _; by rewrite desc_insert_eq|]. apply map_eq. intros k. destruct (decide (k = note)) as [->|Hk].
        -- by rewrite lookup_insert_eq, lookup_alter_eq, Hnt.
        -- by rewrite lookup_insert_ne, lookup_alter_ne by congruence.
    + rewrite last_addr_snoc. eexists _, F. split; [reflexivity|]. cbn [d_mem d_pages d_notes].
      split; [by apply holds_set_rest|]. split; [apply same_data_insert|]. split; [by apply (given_ext d)|]. split; [intros _; by rewrite desc_insert_eq|done].
  - apply andb_true_iff in Hrdy as [Hfn Hln]. rewrite Hfn, Hln. cbn [assertK mbind option_bind].
    assert (Hfo1 : frame_of e = [realToVirt virtBase (paddr n)]) by (unfold frame_of; rewrite He; cbn [strip doingIO paddr]; by rewrite Hio). rewrite Hfo1 in Hg |- *.
    destruct (free_frame_spec _ _ _ _ Hg) as (d1 & Hff & Hg1 & E1 & E2 & E3). rewrite Hff. cbn [mbind option_bind].
    destruct (Hrm d1 (freed (d_mem d) C)) as (d2 & F' & Hrp & Hh & Hs & Hg2 & Hnts); [done|done|done|by rewrite Hfo1|]. rewrite Hrp. cbn [mbind option_bind].
    assert (Hst : stays e = false /\ waits e = false) by (unfold stays, waits; rewrite He; cbn [strip doingIO]; rewrite Hio; by destruct block).
    destruct Hst as [-> ->]. rewrite Hfo1 in Hg2. destruct block; eexists d2, F'; by split_and!.
Qed.

(** The pages that stay of those before the first that has to be waited for. *)
Definition staying (h : memory) (C : list (Z * Z)) : list (Z * Z) := filter (fun x => stays (desc h x.1) = true) C.

Definition before_wait (h : memory) (C : list (Z * Z)) : list (Z * Z) * list (Z * Z) := span_until (fun x => waits (desc h x.1)) C.

(** The state when the loop over [C] ends; [C1] was dealt with, [C2] starts
    with the page the thread waits for. *)
Record dealt (d : dstate PL) (A C1 C2 : list (Z * Z)) (B : Z -> bool) (X : list Z) (note cur : Z) (o : outcome) (d' : dstate PL) : Prop := {
  dl_holds : exists F, holds (d_mem d') (d_pages d') (A ++ staying (d_mem d) C1 ++ C2) F B;
  dl_given : given d' (X ++ freed (d_mem d) C1) (freed (d_mem d) C2);
  dl_out : o = match C2 with [] => Done | x :: _ => Blocked x.1 end;
  dl_same : forall a, a ∉ C1.*1 -> Some a <> fst <$> head C2 -> desc (d_mem d') a = desc (d_mem d) a;
  dl_stays : forall x, x ∈ staying (d_mem d) C1 -> desc (d_mem d') x.1 = set_freeAfterIO (desc (d_mem d) x.1);
  dl_waits : forall x, head C2 = Some x ->
    desc (d_mem d') x.1 = set_fn note (desc (d_mem d) x.1) /\
    d_notes d' = alter (fun nt => set_next (fn (rest (desc (d_mem d) x.1))) (initSynchronous cur nt)) note (d_notes d);
  dl_notes : C2 = [] -> d_notes d' = d_notes d;
}.

Lemma staying_ext h h' C : (forall x, x ∈ C -> desc h' x.1 = desc h x.1) -> staying h' C = staying h C.
Proof.
  unfold staying. induction C as [|x C IH]; intros H; [done|]. rewrite !filter_cons, (H x) by by left.
  rewrite IH; [done|]. intros y Hy. apply H. by right.
Qed.

(** Nothing left to do. *)
Lemma dealt_nil d A F B X note cur :
  holds (d_mem d) (d_pages d) (A ++ []) F B -> given d X (freed (d_mem d) []) -> dealt d A [] [] B X note cur Done d.
Proof.
  intros H Hg. constructor; cbn [staying filter list_filter fmap list_fmap head app option_fmap option_map];
    change (freed (d_mem d) []) with (@nil Z) in *; rewrite ?app_nil_r in *; try done; [by exists F|].
  intros x Hx. by apply elem_of_nil in Hx.
Qed.

(** The thread waits for the first page. *)
Lemma dealt_wait d A a fo C F B X note cur d1 :
  waits (desc (d_mem d) a) = true -> holds (d_mem d1) (d_pages d1) (A ++ (a, fo) :: C) F B -> same_data_but a (d_mem d) (d_mem d1) ->
  given d1 (X ++ frame_of (desc (d_mem d) a)) (freed (d_mem d) C) -> desc (d_mem d1) a = set_fn note (desc (d_mem d) a) ->
  d_notes d1 = alter (fun nt => set_next (fn (rest (desc (d_mem d) a))) (initSynchronous cur nt)) note (d_notes d) ->
  dealt d A [] ((a, fo) :: C) B X note cur (Blocked a) d1.
Proof.
  intros Ew H Hs Hg Hd Hn. constructor; cbn [staying filter list_filter fmap list_fmap head app option_fmap option_map fst].
  - by exists F.
  - assert (E : frame_of (desc (d_mem d) a) = []) by (unfold frame_of; unfold waits in Ew; destruct block; [|done]; by destruct (doingIO (desc (d_mem d) a))).
    rewrite freed_cons. cbn [fst]. by rewrite E in *.
  - done.
  - intros b _ Hb. apply (desc_same a); [done|]. by intros ->.
  - intros x Hx. by apply elem_of_nil in Hx.
  - intros x [= <-]. done.
  - done.
Qed.

(** The first page was dealt with, leaving [d2]. *)
Lemma dealt_cons d A a fo C1 C2 B X note cur d2 o d' :
  let e := desc (d_mem d) a in
  dealt d2 (if stays e then A ++ [(a, fo)] else A) C1 C2 B (X ++ frame_of e) note cur o d' ->
  (a ∉ (C1 ++ C2).*1) -> same_data_but a (d_mem d) (d_mem d2) -> (stays e = true -> desc (d_mem d2) a = set_freeAfterIO e) ->
  d_notes d2 = d_notes d -> dealt d A ((a, fo) :: C1) C2 B X note cur o d'.
Proof.
  intros e [[F' Hh] Hg Hout Hsame Hst Hw Hn] Hna Hs Hsa Hnt. rewrite fmap_app, not_elem_of_app in Hna. destruct Hna as [Hn1 Hn2].
  assert (Hx : forall D : list (Z * Z), (a ∉ D.*1) -> forall x, x ∈ D -> desc (d_mem d2) x.1 = desc (d_mem d) x.1).
  { intros D HD x Hx. apply (desc_same a); [done|]. intros <-. apply HD, list_elem_of_fmap. by exists x. }
  rewrite (staying_ext (d_mem d) (d_mem d2) C1 (Hx _ Hn1)) in Hh. rewrite (freed_ext _ _ C1 (Hx _ Hn1)), (freed_ext _ _ C2 (Hx _ Hn2)) in Hg. constructor.
  - exists F'. unfold staying at 1. rewrite filter_cons. cbn [fst]. fold e. destruct (stays e).
    + rewrite decide_True by done. by rewrite <- app_assoc in Hh.
    + by rewrite decide_False by done.
  - rewrite freed_cons. cbn [fst]. by rewrite app_assoc.
  - done.
  - intros b Hb Hb2. rewrite fmap_cons, not_elem_of_cons in Hb. destruct Hb as [Hb1 Hb]. rewrite (Hsame b Hb Hb2). by apply (desc_same a).
  - intros x Hin. unfold staying in Hin. apply list_elem_of_filter in Hin as [Hsx Hin]. apply elem_of_cons in Hin as [->|Hin].
    + cbn [fst] in *. rewrite Hsame; [by apply Hsa|done|]. destruct C2 as [|y C2]; [done|]. cbn. intros [= ->]. apply Hn2. by left.
    + rewrite (Hst x), (Hx C1); [done|done|done|]. apply list_elem_of_filter. by rewrite (Hx C1).
  - intros x E. assert (Hin : x ∈ C2) by (destruct C2; [done|]; injection E as ->; by left).
    destruct (Hw x E) as [Hw1 Hw2]. by rewrite Hw1, Hw2, (Hx C2), Hnt.
  - intros E. by rewrite (Hn E).
Qed.

Lemma dealloc_loop_spec C A d F B X note cur fuel :
  holds (d_mem d) (d_pages d) (A ++ C) F B -> Forall (fun x => offset_ok x.2 = true) C ->
  Forall (fun x : Z * Z => ready (desc (d_mem d) x.1) = true) C -> is_Some (d_notes d !! note) ->
  given d X (freed (d_mem d) C) -> (length C < fuel)%nat ->
  let '(C1, C2) := before_wait (d_mem d) C in
  exists o d', dealloc_loop virtBase pageSize fuel block d (default NULL (fst <$> head C)) (last_addr NULL A) note cur = Some (o, d') /\
    dealt d A C1 C2 B X note cur o d'.
Proof.
  revert A d F X fuel. induction C as [|[a fo] C IH]; intros A d F X fuel H Hoff Hrdy Hnt Hg Hfuel.
  { destruct fuel as [|fuel]; [cbn in Hfuel; lia|]. exists Done, d. split; [done|]. by eapply dealt_nil. }
  destruct fuel as [|fuel]; [lia|]. apply Forall_cons in Hoff as [Hfo Hoff], Hrdy as [Hra Hrdy]. cbn [fst snd] in Hfo, Hra.
  destruct (holds_page _ _ _ _ _ a fo H) as (Ha & _); [apply elem_of_app; right; by left|].
  destruct (holds_nodup_mid _ _ _ _ _ _ _ H) as [_ HnC]. cbn [fst] in HnC.
  destruct (dealloc_page_spec d A a fo C F B X note cur H Hfo Hra Hnt Hg) as (d1 & F1 & Hpg & Hh1 & Hs1 & Hg1 & Hst & Hw & Hn1).
  change (default NULL (fst <$> head ((a, fo) :: C))) with a. cbn [dealloc_loop]. rewrite (proj2 (Z.eqb_neq _ _) Ha), Hpg. cbn [mbind option_bind].
  unfold before_wait. cbn [span_until fst]. destruct (waits (desc (d_mem d) a)) eqn:Ew.
  - exists (Blocked a), d1. split; [done|]. rewrite orb_true_r in Hh1. eapply dealt_wait; [done|done|done|done|by apply Hw|done].
  - rewrite orb_false_r in Hh1. set (A' := if stays (desc (d_mem d) a) then A ++ [(a, fo)] else A) in *.
    assert (Hh2 : holds (d_mem d1) (d_pages d1) (A' ++ C) F1 B).
    { unfold A'. destruct (stays (desc (d_mem d) a)); [by rewrite <- app_assoc|done]. }
    destruct (advance_spec d1 A' C F1 B Hh2) as (d2 & Hadv & Hh3 & E1 & E2 & E3 & E4 & E5). rewrite Hadv. cbn [mbind option_bind].
    assert (Hext : forall x, x ∈ C -> desc (d_mem d2) x.1 = desc (d_mem d) x.1).
    { intros x Hx. rewrite E1. apply (desc_same a); [done|]. intros <-. apply HnC. apply list_elem_of_fmap. by exists x. }
    specialize (IH A' d2 F1 (X ++ frame_of (desc (d_mem d) a)) fuel Hh3 Hoff).
    unfold before_wait in IH. rewrite (span_until_ext _ (fun x => waits (desc (d_mem d) x.1))) in IH by (intros x Hx; by rewrite Hext).
    destruct (span_until (fun x : Z * Z => waits (desc (d_mem d) x.1)) C) as [C1 C2] eqn:Esp. pose proof (span_until_app _ _ _ _ Esp) as EC.
    destruct IH as (o & d' & Hrun & Hd).
    { by apply (Forall_desc_ext ready (d_mem d)). }
    { by rewrite E2, Hn1. }
    { rewrite (freed_ext (d_mem d)) by done. by apply (given_ext d1). }
    { cbn [length] in Hfuel. lia. }
    exists o, d'. split; [done|]. eapply dealt_cons; [exact Hd|by rewrite <- EC|by rewrite E1|by rewrite E1|by rewrite E2].
Qed.

(** The frames are with the page manager; while the thread waits, small frames
    are still on the list. *)
Definition handed (o : outcome) (d : dstate PL) (X : list Z) : Prop :=
  if pageSize =? PAGE_SIZE then
    (exists l, FreeFrameList.rep (d_frames d) (d_ffl d) l /\ FreeFrameList.frames (d_frames d) l = reverse X) /\
    d_effects d = match o with Done => if decide (X = []) then [] else [DeallocListOfPages (d_ffl d)] | Blocked _ => [] end
  else d_effects d = (fun a => DeallocPages a pageSize) <$> X.

Lemma give_list_spec d X Y rc :
  given d X Y -> _SUCCESS rc = true ->
  exists d', give_list d rc = Some d' /\ handed Done d' X /\ d_mem d' = d_mem d /\ d_pages d' = d_pages d /\ d_notes d' = d_notes d.
Proof.
  unfold given, handed, give_list, FreeFrameList.isNotEmpty. intros Hg Hrc. destruct (pageSize =? PAGE_SIZE).
  - destruct Hg as (He & _ & l & Hi & Hl). pose proof (FreeFrameList.inv_rep1 _ _ _ _ _ Hi) as Hr. pose proof Hr as (_ & _ & Hc).
    rewrite Hl, length_reverse in Hc. rewrite Hc, Hrc. destruct X as [|x X].
    + eexists. split; [reflexivity|]. split; [|done]. rewrite decide_True by done. split; [by exists l|done].
    + destruct (Z.eqb_spec (Z.of_nat (length (x :: X))) 0) as [E|_]; [cbn [length] in E; lia|]. eexists. split; [reflexivity|].
      cbn [d_effects d_frames d_ffl d_mem d_pages d_notes]. split; [|done]. rewrite decide_False by done. split; [by exists l|by rewrite He].
  - destruct Hg as [He Hf]. rewrite Hf. eexists. by split.
Qed.

(** A run of the loop, also one that goes on after a wait. *)
Lemma dealloc_run_spec d L F B X note cur rc :
  holds (d_mem d) (d_pages d) L F B -> Forall (fun x => offset_ok x.2 = true) L ->
  Forall (fun x : Z * Z => ready (desc (d_mem d) x.1) = true) L -> is_Some (d_notes d !! note) -> _SUCCESS rc = true ->
  given d X (freed (d_mem d) L) ->
  let '(L1, L2) := before_wait (d_mem d) L in
  exists o d1 d', dealloc_run virtBase pageSize block d note cur rc = Some (o, d') /\ dealt d [] L1 L2 B X note cur o d1 /\
    handed o d' (X ++ freed (d_mem d) L1) /\ d_mem d' = d_mem d1 /\ d_pages d' = d_pages d1 /\ d_notes d' = d_notes d1.
Proof.
  intros H Hoff Hrdy Hnt Hrc Hg. destruct (getFirst_holds _ _ _ _ _ H) as (s' & Hs & Hh).
  pose proof (dealloc_loop_spec L [] (set_pages d s') F B X note cur (S (size (d_mem d))) Hh Hoff Hrdy Hnt) as Hloop. cbn [set_pages d_mem] in Hloop.
  specialize (Hloop (given_ext d _ _ _ eq_refl eq_refl eq_refl Hg)). pose proof (holds_size _ _ _ _ _ H) as Hsz.
  destruct (before_wait (d_mem d) L) as [L1 L2]. destruct Hloop as (o & d1 & Hl & Hd); [lia|].
  unfold dealloc_run. rewrite Hs. cbn [mbind option_bind]. change (last_addr NULL []) with 0 in Hl. rewrite Hl. cbn [mbind option_bind].
  assert (Hd' : dealt d [] L1 L2 B X note cur o d1) by by destruct Hd.
  pose proof (dl_given _ _ _ _ _ _ _ _ _ _ Hd') as Hg1. pose proof (dl_out _ _ _ _ _ _ _ _ _ _ Hd') as Ho. destruct L2 as [|x L2]; subst o.
  - destruct (give_list_spec _ _ _ rc Hg1 Hrc) as (d2 & -> & Hh2 & ?). cbn [mbind option_bind]. by exists Done, d1, d2.
  - exists (Blocked x.1), d1, d1. split_and!; try done. unfold given in Hg1. unfold handed. destruct (pageSize =? PAGE_SIZE); [|by destruct Hg1].
    destruct Hg1 as (He & _ & l & Hi & Hl1). split; [|done]. exists l. split; [by apply (FreeFrameList.inv_rep1 _ _ _ _ _ Hi)|done].
Qed.

End dealloc.

(** C17: locked_deallocPageList, for every class that keeps the promise of a page
    holder: if the loop's assertions hold for every page, the call returns, the
    pages up to the first that has to be waited for are dealt with, pages in
    transit that must not be waited for stay in order with freeAfterIO set and
    nothing else changed, every frame of the others is given back exactly once,
    and the notification of a waiting thread is linked in front of the page's. *)
Theorem dealloc_gives_back virtBase pageSize block h (s : PL) L F B nm fm note cur rc :
  holds h s L F B -> Forall (fun x => offset_ok x.2 = true) L ->
  Forall (fun x : Z * Z => ready pageSize block (desc h x.1) = true) L -> is_Some (nm !! note) -> _SUCCESS rc = true ->
  FreeFrameList.mem_ok fm -> FreeFrameList.frames_ok fm (freed virtBase h L) ->
  let '(L1, L2) := before_wait block h L in
  exists o d, locked_deallocPageList virtBase pageSize block h s nm fm note cur rc = Some (o, d) /\
    o = match L2 with [] => Done | x :: _ => Blocked x.1 end /\
    (exists F', holds (d_mem d) (d_pages d) (staying block h L1 ++ L2) F' B) /\
    handed pageSize o d (freed virtBase h L1) /\
    (forall x, x ∈ staying block h L1 -> desc (d_mem d) x.1 = set_freeAfterIO (desc h x.1)) /\
    (forall x, x ∈ tail L2 -> desc (d_mem d) x.1 = desc h x.1) /\
    (forall x, head L2 = Some x -> desc (d_mem d) x.1 = set_fn note (desc h x.1) /\
      d_notes d = alter (fun nt => set_next (fn (rest (desc h x.1))) (initSynchronous cur nt)) note nm).
Proof.
  intros H Hoff Hrdy Hnt Hrc Hm Hf. set (d := mkD h s nm fm FreeFrameList.init []).
  assert (Hg : given pageSize d [] (freed virtBase h L)).
  { unfold given. destruct (pageSize =? PAGE_SIZE); [|done]. cbn. rewrite app_nil_r. split_and!; [done|done|]. exists []. split; [|done].
    constructor; [done|done|done|]. split; [constructor|constructor]. }
  pose proof (dealloc_run_spec virtBase pageSize block d L F B [] note cur rc H Hoff Hrdy Hnt Hrc Hg) as Hr. cbn [d d_mem] in Hr.
  destruct (before_wait block h L) as [L1 L2] eqn:Esp. pose proof (span_until_app _ _ _ _ Esp) as EL.
  destruct Hr as (o & d1 & d' & Hr & Hd & Hh & E1 & E2 & E3). exists o, d'. split; [exact Hr|]. rewrite E1, E2, E3. destruct Hd as [Ho Hg1 Hout Hsame Hst Hw Hn].
  split; [done|]. split; [done|]. split; [done|]. split; [done|]. split; [|done].
  intros x Hx. destruct L2 as [|y L2]; [by apply elem_of_nil in Hx|]. cbn [tail] in Hx.
  assert (Hx1 : x.1 ∈ L2.*1) by (apply list_elem_of_fmap; by exists x).
  pose proof (holds_addrs _ _ _ _ _ H) as Hnd. rewrite EL, fmap_app, fmap_cons in Hnd. apply NoDup_app in Hnd as (_ & Hd1 & [Hd2 _]%NoDup_cons).
  apply Hsame; [|cbn; intros [= E]; by rewrite E in Hx1]. intros Hin. apply (Hd1 _ Hin). by right.
Qed.

(** ** The walks over all pages *)

Definition only_rest (g : Entry -> option Entry) (n : Entry) : Prop := exists r, g n = Some (set_rest r n).

Lemma each_spec g C A h (s : PL) F B fuel :
  holds h s (A ++ C) F B -> (forall x n, x ∈ C -> h !! x.1 = Some n -> only_rest g n) -> (length C < fuel)%nat ->
  exists h', each g fuel h s (default NULL (fst <$> head C)) = Some h' /\ holds h' s (A ++ C) F B /\
    (forall a, h' !! a = if decide (a ∈ C.*1) then h !! a ≫= g else h !! a).
Proof.
  revert A h fuel. induction C as [|[a fo] C IH]; intros A h fuel H Hg Hfuel; (destruct fuel as [|fuel]; [cbn in Hfuel; lia|]).
  { exists h. split_and!; [done|done|]. intros a. by rewrite decide_False by apply not_elem_of_nil. }
  destruct (holds_page _ _ _ _ _ a fo H) as (Ha & n & Hn & _); [apply elem_of_app; right; by left|].
  destruct (holds_nodup_mid _ _ _ _ _ _ _ H) as [_ HnC]. cbn [fst] in HnC.
  destruct (Hg (a, fo) n) as [r Hr]; [by left|done|]. pose proof (holds_set_rest _ _ _ _ _ _ _ r H Hn) as H1.
  change (default NULL (fst <$> head ((a, fo) :: C))) with a. cbn [each]. rewrite (proj2 (Z.eqb_neq _ _) Ha), Hn. cbn [mbind option_bind].
  rewrite Hr. cbn [mbind option_bind]. rewrite (getNext_holds _ _ _ _ _ _ _ _ H1). cbn [mbind option_bind].
  change (A ++ (a, fo) :: C) with (A ++ [(a, fo)] ++ C) in H1. rewrite app_assoc in H1.
  destruct (IH (A ++ [(a, fo)]) _ fuel H1) as (h' & He & Hh & Hl).
  { intros [b d] m Hb Hm. apply (Hg (b, d) m); [by right|]. cbn [fst] in *. rewrite lookup_insert_ne in Hm; [done|]. intros ->. apply HnC, list_elem_of_fmap. by exists (b, d). }
  { cbn [length] in Hfuel. lia. }
  exists h'. split; [done|]. split; [by rewrite <- app_assoc in Hh|]. intros b. rewrite Hl, fmap_cons. cbn [fst]. destruct (decide (b = a)) as [->|Hba].
  - rewrite decide_False by done. rewrite (decide_True (P := a ∈ a :: C.*1)) by by left. by rewrite lookup_insert_eq, Hn.
  - rewrite lookup_insert_ne by done. destruct (decide (b ∈ C.*1)).
    + by rewrite decide_True by by right.
    + rewrite decide_False; [done|]. by rewrite not_elem_of_cons.
Qed.

Lemma each_page_spec g h (s : PL) L F B :
  holds h s L F B -> (forall a n, h !! a = Some n -> only_rest g n) ->
  exists h' s', each_page g h s = Some (h', s') /\ holds h' s' L F B /\ (forall a, h' !! a = h !! a ≫= g).
Proof.
  intros H Hg. destruct (getFirst_holds _ _ _ _ _ H) as (s' & Hs & Hh). pose proof (holds_size _ _ _ _ _ H) as Hsz. unfold each_page. rewrite Hs. cbn [mbind option_bind].
  destruct (each_spec g L [] h s' F B (S (size h)) Hh) as (h' & He & Hh' & Hl); [eauto|lia|]. rewrite He. cbn [mbind option_bind].
  exists h', s'. split_and!; [done|done|]. intros a. rewrite Hl. destruct (decide (a ∈ L.*1)) as [|Hn]; [done|].
  destruct (h !! a) eqn:E; [|done]. destruct Hn. apply (holds_dom _ _ _ _ _ a H). by eexists.
Qed.

(** Unmapping all pages leaves none mapped and changes nothing else. *)
Lemma unmap_pages_spec h (s : PL) L F B :
  holds h s L F B -> exists h' s', unmap_pages h s = Some (h', s') /\ holds h' s' L F B /\ h' = set_unmapped <$> h.
Proof.
  intros H. destruct (each_page_spec (fun pg => Some (set_unmapped pg)) _ _ _ _ _ H) as (h' & s' & He & Hh & Hl); [intros a n _; by eexists|].
  exists h', s'. split_and!; [done|done|]. apply map_eq. intros a. rewrite Hl, lookup_fmap. by destruct (h !! a).
Qed.

(** Locked_cacheSyncAll, for every class of pages: if no page that is at
    rest has frame 0 and the cache lines are those the code handles, the call
    returns and has set cacheSynced in exactly the pages not in transit. *)
Theorem cacheSyncAll_syncs h (s : PL) L F B :
  holds h s L F B -> (forall a n, h !! a = Some n -> doingIO n = false -> paddr n <> 0) ->
  exists h' s', locked_cacheSyncAll 128 h s = Some (h', s') /\ holds h' s' L F B /\
    forall a, h' !! a = (fun n => if doingIO n then n else set_cacheSynced n) <$> h !! a.
Proof.
  intros H Hp. assert (Hid : forall n, set_rest (rest n) n = n) by by intros [].
  destruct (each_page_spec (sync_page 128) _ _ _ _ _ H) as (h' & s' & He & Hh & Hl).
  - intros a n Hn. unfold only_rest, sync_page. destruct (doingIO n) eqn:Hio; cbn [negb andb]; [exists (rest n); by rewrite Hid|].
    destruct (cacheSynced (rest n)); cbn [negb]; [exists (rest n); by rewrite Hid|].
    rewrite (proj2 (Z.eqb_neq _ _) (Hp a n Hn Hio)). by eexists.
  - exists h', s'. split_and!; [done|done|]. intros a. rewrite Hl. destruct (h !! a) as [n|] eqn:Hn; [|done]. cbn [mbind option_bind fmap option_fmap option_map].
    unfold sync_page. destruct (doingIO n) eqn:Hio; cbn [negb andb]; [done|]. destruct (cacheSynced (rest n)) eqn:Hcs; cbn [negb].
    + f_equal. destruct n as [? ? ? ? ? ? [] ? ? ?]. cbn in *. by subst.
    + by rewrite (proj2 (Z.eqb_neq _ _) (Hp a n Hn Hio)).
Qed.

End spec.

(** ** Notifications *)

(** What notify does with a waiting party. *)
Definition told (rc : Z) (n : PageFaultNotification) : option PageFaultNotification :=
  if threadBlocked n then Some (set_woken (setRC rc n)) else if prefetch n then None else Some (setRC rc n).

Definition message (a : Z) (n : PageFaultNotification) : list effect :=
  if threadBlocked n then [Unblock (thread n)] else if prefetch n then [] else [NotifyFaultCompletion (processAnnex n) a].

Definition messages (nm : notes) (skipFn : Z) (l : list (Z * Z)) : list effect :=
  concat ((fun x => if x.1 =? skipFn then [] else from_option (message x.1) [] (nm !! x.1)) <$> l).

Lemma doNotification_told (nm : notes) a n rc :
  exists nm', doNotification (<[a := setRC rc n]> nm) a = Some (nm', message a n) /\
    nm' !! a = told rc n /\ (forall b, b <> a -> nm' !! b = nm !! b).
Proof.
  unfold doNotification, told, message. rewrite lookup_insert_eq. cbn [mbind option_bind]. change (threadBlocked (setRC rc n)) with (threadBlocked n). change (prefetch (setRC rc n)) with (prefetch n).
  destruct (threadBlocked n); [|destruct (prefetch n)]; eexists; (split; [reflexivity|split]).
  - apply lookup_insert_eq.
  - intros b Hb. by rewrite !lookup_insert_ne.
  - apply lookup_delete_eq.
  - intros b Hb. by rewrite lookup_delete_ne, lookup_insert_ne.
  - apply lookup_insert_eq.
  - intros b Hb. by rewrite lookup_insert_ne.
Qed.

Lemma page_notify_loop_spec l nm p rc skipFn fuel :
  chain nm p l NULL -> (length l < fuel)%nat ->
  exists nm', notify_loop fuel nm p rc skipFn = Some (nm', messages nm skipFn l) /\
    (forall a, nm' !! a = if decide (a ∈ l.*1 /\ a <> skipFn) then nm !! a ≫= told rc else nm !! a).
Proof.
  revert nm p fuel. induction l as [|[a d] l IH]; intros nm p fuel Hc Hfuel; (destruct fuel as [|fuel]; [cbn in Hfuel; lia|]).
  { cbn in Hc. subst p. exists nm. split; [done|]. intros a. rewrite decide_False; [done|]. intros [H _]. by apply elem_of_nil in H. }
  pose proof (chain_nodup _ _ _ Hc) as Hnd. rewrite fmap_cons in Hnd. apply NoDup_cons in Hnd as [Hnl _]. cbn [fst] in Hnl.
  destruct Hc as (-> & Ha & n & Hn & _ & Hc). change (next n) with (n_next n) in Hc.
  cbn [notify_loop]. rewrite (proj2 (Z.eqb_neq _ _) Ha), Hn. cbn [mbind option_bind]. cbn [length] in Hfuel.
  assert (Hrest : forall nm1, (forall b, b <> a -> nm1 !! b = nm !! b) ->
    exists nm2, notify_loop fuel nm1 (n_next n) rc skipFn = Some (nm2, messages nm skipFn l) /\ nm2 !! a = nm1 !! a /\
      forall b, b <> a -> nm2 !! b = if decide (b ∈ l.*1 /\ b <> skipFn) then nm !! b ≫= told rc else nm !! b).
  { intros nm1 Hsame. destruct (IH nm1 (n_next n) fuel) as (nm2 & H2 & Hl); [|lia|].
    - eapply chain_agree; [|exact Hc]. intros b Hb. apply Hsame. by intros ->.
    - exists nm2. split; [|split].
      + rewrite H2. do 2 f_equal. unfold messages. f_equal. apply list_fmap_ext. intros i [b e] Hb. cbn [fst]. rewrite Hsame; [done|].
        intros ->. apply Hnl. apply list_elem_of_fmap. exists (a, e). split; [done|]. by eapply list_elem_of_lookup_2.
      + rewrite Hl, decide_False; [done|]. by intros [? _].
      + intros b Hb. rewrite Hl, Hsame by done. done. }
  unfold messages. cbn [fmap list_fmap concat fst]. fold (messages nm skipFn l). destruct (Z.eqb_spec a skipFn) as [->|Hsk]; cbn [negb].
  - destruct (Hrest nm) as (nm2 & H2 & Ha2 & Hl); [done|]. cbn [mbind option_bind]. rewrite H2. cbn [mbind option_bind]. exists nm2. split; [done|].
    intros b. destruct (decide (b = skipFn)) as [->|Hb]; [rewrite decide_False; [done|]; by intros [_ ?]|]. rewrite Hl by done. pose proof (elem_of_cons (l.*1) b skipFn) as Hec. cbn [fst].
    destruct (decide (b ∈ l.*1 /\ b <> skipFn)) as [?|Hd]; [by rewrite decide_True by tauto|]. rewrite decide_False; [done|]. tauto.
  - destruct (doNotification_told nm a n rc) as (nm1 & H1 & Ha1 & Hs1). rewrite H1. cbn [mbind option_bind].
    destruct (Hrest nm1 Hs1) as (nm2 & H2 & Ha2 & Hl). rewrite H2. cbn [mbind option_bind]. exists nm2. split; [by rewrite Hn|].
    intros b. destruct (decide (b = a)) as [->|Hb].
    + rewrite decide_True by (split; [by left|done]). by rewrite Ha2, Ha1, Hn.
    + rewrite Hl by done. pose proof (elem_of_cons (l.*1) b a) as Hec. cbn [fst].
      destruct (decide (b ∈ l.*1 /\ b <> skipFn)) as [?|Hd]; [by rewrite decide_True by tauto|]. rewrite decide_False; [done|]. tauto.
Qed.

(** C19: when the I/O of a page ends, unLockPage clears doingIO and tells
    every party on the page's chain exactly once and in order: threads are marked
    woken and unblocked, asynchronous faults completed, prefetch records freed;
    the chain is empty and no other record changes. *)
Theorem unLockPage_tells_all h nm pg n l :
  h !! pg = Some n -> doingIO n = true -> chain nm (fn (rest n)) l NULL ->
  exists nm', unLockPage h nm pg = Some (<[pg := set_fn 0 (set_flags (dirty n) false n)]> h, nm', false, messages nm 0 l) /\
    forall a, nm' !! a = if decide (a ∈ l.*1) then nm !! a ≫= told 0 else nm !! a.
Proof.
  intros Hn Hio Hc. unfold unLockPage, notify. rewrite Hn. cbn [mbind option_bind]. rewrite Hio. cbn [assertK mbind option_bind]. rewrite lookup_insert_eq. cbn [mbind option_bind].
  change (fn (rest (set_flags (dirty n) false n))) with (fn (rest n)).
  pose proof (chain_length _ _ _ Hc) as Hlen. destruct (page_notify_loop_spec l nm (fn (rest n)) 0 0 (S (size nm)) Hc) as (nm' & -> & Hl); [lia|].
  cbn [mbind option_bind]. exists nm'. split; [by rewrite insert_insert_eq|]. intros a. rewrite Hl. destruct (decide (a ∈ l.*1)) as [Hin|Hin].
  - rewrite decide_True; [done|]. split; [done|]. apply list_elem_of_fmap in Hin as ([b d] & -> & Hin). by destruct (chain_elem _ _ _ _ b d Hc Hin).
  - rewrite decide_False; [done|]. tauto.
Qed.

(** ** A page list with one page at rest and one in transit *)

#[local] Existing Instance PageList.pagelist_holder.

Definition ex_page (fo pa : Z) (io : bool) (nx : Z) : Entry := mkEntry fo pa 4096 false io false init_rest nx NULL NULL.

Definition ex_mem : memory := <[100 := ex_page 0 0x3000 false 200]> {[200 := ex_page 4096 0x5000 true NULL]}.

Definition ex_list : PageList.t := PageList.mkPL 100 200 2 (mkFL NULL NULL 0) UMAX NULL.

Definition ex_pages : list (Z * Z) := [(100, 0); (200, 4096)].

Lemma ex_holds : PageHolder.holds ex_mem ex_list ex_pages [] (fun a => a =? 200).
Proof.
  assert (Hdom : forall a n, ex_mem !! a = Some n -> (a = 100 /\ n = ex_page 0 0x3000 false 200) \/ (a = 200 /\ n = ex_page 4096 0x5000 true NULL)).
  { intros a n Hn. unfold ex_mem in Hn. apply lookup_insert_Some in Hn as [[<- <-]|[_ Hn]]; [by left|]. apply lookup_singleton_Some in Hn as [<- <-]. by right. }
  change (PageList.rep ex_mem ex_list (PageList.mkPages ex_pages [] (fun a => a =? 200))).
  constructor; cbn [PageList.list_of PageList.free_of PageList.busy].
  - split; [|done]. split_and!; [done|done|]. eexists. split_and!; [by vm_compute|done|]. split_and!; [done|done|]. eexists. split_and!; by vm_compute.
  - intros a [n Hn]. destruct (Hdom a n Hn) as [[-> _]|[-> _]]; [by left|right; by left].
  - apply (bool_decide_unpack _). vm_compute. exact I.
  - by vm_compute.
  - constructor; [done|done|..]; intros a n Hn; destruct (Hdom a n Hn) as [[-> ->]|[-> ->]]; by vm_compute.
  - by left.
Qed.

Definition ex_frame : FreeFrameList.FrameInfo := FreeFrameList.mkFI 0 0 0 (replicate 509 0).

Lemma dealloc_gives_back_witness :
  exists d, locked_deallocPageList 0xC000000000000000 4096 DONT_BLOCK ex_mem ex_list {[8 := mkN 0 0 true false true false 0 0]}
      {[0xC000000000003000 := ex_frame]} 8 77 0 = Some (Done, d) /\
    exists F, PageHolder.holds (d_mem d) (d_pages d) [(200, 4096)] F (fun a => a =? 200).
Proof.
  pose proof (dealloc_gives_back 0xC000000000000000 4096 DONT_BLOCK ex_mem ex_list ex_pages [] (fun a => a =? 200) {[8 := mkN 0 0 true false true false 0 0]}
    {[0xC000000000003000 := ex_frame]} 8 77 0 ex_holds) as H.
  change (before_wait DONT_BLOCK ex_mem ex_pages) with (ex_pages, @nil (Z * Z)) in H. destruct H as (o & d & Hr & -> & Hh & _).
  - apply (bool_decide_unpack _). vm_compute. exact I.
  - apply (bool_decide_unpack _). vm_compute. exact I.
  - by eexists.
  - reflexivity.
  - split; [|by vm_compute]. intros a n Hn. apply lookup_singleton_Some in Hn as [_ <-]. reflexivity.
  - split; [apply (bool_decide_unpack _); vm_compute; exact I|]. vm_compute freed. constructor; [|constructor]. split; [reflexivity|]. by eexists.
  - exists d. split; [exact Hr|]. exact Hh.
Defined.

Lemma cacheSyncAll_syncs_witness :
  exists h' s', locked_cacheSyncAll 128 ex_mem ex_list = Some (h', s') /\
    h' !! 100 = Some (set_cacheSynced (ex_page 0 0x3000 false 200)) /\ h' !! 200 = Some (ex_page 4096 0x5000 true NULL).
Proof.
  destruct (cacheSyncAll_syncs ex_mem ex_list ex_pages [] (fun a => a =? 200) ex_holds) as (h' & s' & Hr & _ & Hl).
  - intros a n Hn _. unfold ex_mem in Hn. apply lookup_insert_Some in Hn as [[_ <-]|[_ Hn]]; [done|]. by apply lookup_singleton_Some in Hn as [_ <-].
  - exists h', s'. split; [exact Hr|]. by rewrite !Hl.
Defined.

(** A blocked thread, a prefetch record and an asynchronous fault wait. *)
Definition ex_notes : notes :=
  <[8 := mkN 0 0 true false false false 77 16]> (<[16 := mkN 0 1 false false false true 0 24]> {[24 := mkN 5 3 false false false false 0 0]}).

Lemma unLockPage_tells_all_witness :
  exists h' nm', unLockPage {[100 := set_fn 8 (ex_page 0 0x3000 true 0)]} ex_notes 100 =
      Some (h', nm', false, [Unblock 77; NotifyFaultCompletion 5 24]) /\
    nm' !! 8 = Some (mkN 0 0 true true true false 77 16) /\ nm' !! 16 = None.
Proof.
  destruct (unLockPage_tells_all {[100 := set_fn 8 (ex_page 0 0x3000 true 0)]} ex_notes 100 (set_fn 8 (ex_page 0 0x3000 true 0)) [(8, 77); (16, 0); (24, 0)])
    as (nm' & Hr & Hl).
  - reflexivity.
  - reflexivity.
  - split_and!; [done|done|]. eexists. split_and!; [by vm_compute|done|]. split_and!; [done|done|]. eexists. split_and!; [by vm_compute|done|].
    split_and!; [done|done|]. eexists. split_and!; by vm_compute.
  - eexists _, nm'. split; [exact Hr|]. rewrite !Hl. by vm_compute.
Defined.

End FCMCommon.
