(* ===== verification/FCMEstablished.v ===== *)
(** * FCMEstablished: pages with given frames, os/kernel/mem/FCMCommon.C

    establishPage makes a range of a cache manager's pages live in frames the
    caller provides, disEstablishPage turns them into ordinary pages, and
    removeEstablishedPage takes them out and gives the frames back to the caller.
    As in FCMCommon.v the class that keeps the pages is arbitrary. *)

From stdpp Require Import base numbers option gmap list.
From S2P Require Import K42 Prelude DList PageDesc PageHolder FreeFrameList PageList FCMCommon.

Module FCMEstablished.
Import PageDesc PageHolder FCMCommon.

Section ops.
Context {PL : Type} `{!PageHolder PL}.
Variables virtBase pageSize : Z.

(** unmapPage of FCMCommon.H; internal_unmapPage is an effect. *)
Definition unmapPage (h : memory) (pg : Z) : option (memory * list effect) :=
  n ← h !! pg;
  _ ← assertK (mapped (rest n));
  Some (<[pg := set_unmapped n]> h, [UnmapPage (fileOffset n) (ppset (rest n))]).

(** Enough iterations for the pages of [length] bytes. *)
Definition range_fuel (length : Z) : nat := S (S (Z.to_nat (length / pageSize))).

(** The part of an iteration of establishPage for a page that is there:
    [None] of the inner option when its I/O has to be waited for. *)
Definition replace_frame (h : memory) (pg frameVmapsRaddr : Z) : option (option (memory * list effect)) :=
  n ← h !! pg;
  if doingIO n then Some None
  else
    '(h1, ev) ← unmapPage h pg;
    n1 ← h1 !! pg;
    let old := realToVirt virtBase (paddr n1) in
    Some (Some (<[pg := set_paddr (virtToReal virtBase frameVmapsRaddr) n1]> h1,
                ev ++ [Memcpy frameVmapsRaddr old pageSize; DeallocPages old pageSize])).

(** The flags of an established page. *)
Definition established_entry (n : Entry) : Entry := set_flags true (doingIO n) (set_cacheSynced (set_established true n)).

(** The loop of establishPage; [news] are the answers of new, [oks] those of
    the allocation of a bigger table. *)
Fixpoint establish_loop (fuel : nat) (h : memory) (s : PL) (news : list (Z * bool)) (offset frameVmapsRaddr endAddr : Z)
  : option (outcome * (memory * PL) * list effect) :=
  match fuel with
  | O => None
  | S fuel =>
      if frameVmapsRaddr <? endAddr then
        let pa := virtToReal virtBase frameVmapsRaddr in
        pg ← findPage h s offset;
        if negb (pg =? NULL) then
          r ← replace_frame h pg frameVmapsRaddr;
          match r with
          | None => Some (Blocked pg, (h, s), [])
          | Some (h1, ev) =>
              n ← h1 !! pg;
              '(o, hs, ev2) ← establish_loop fuel (<[pg := established_entry n]> h1) s news (uadd offset pageSize) (uadd frameVmapsRaddr pageSize) endAddr;
              Some (o, hs, ev ++ ev2)
          end
        else
          '(p, ok) ← head news;
          '(pg, (h1, s1)) ← addPage h s ok p offset pa pageSize;
          n ← h1 !! pg;
          establish_loop fuel (<[pg := established_entry n]> h1) s1 (tail news) (uadd offset pageSize) (uadd frameVmapsRaddr pageSize) endAddr
      else Some (Done, (h, s), [])
  end.

(** [mapBase]: locked_unmapBase asserts that it is clear. *)
Definition establishPage (mapBase : bool) (h : memory) (s : PL) (news : list (Z * bool)) (offset frameVmapsRaddr length : Z)
  : option (outcome * (memory * PL) * list effect) :=
  _ ← assertK (negb mapBase);
  let endAddr := uadd frameVmapsRaddr length in
  establish_loop (range_fuel length) h s news offset frameVmapsRaddr endAddr.

Definition establishPagePhysical (mapBase : bool) (h : memory) (s : PL) (news : list (Z * bool)) (offset paddr length : Z)
  : option (outcome * (memory * PL) * list effect) :=
  establishPage mapBase h s news offset (realToVirt virtBase paddr) length.

Fixpoint disEstablish_loop (fuel : nat) (h : memory) (s : PL) (offset endoffset : Z) : option memory :=
  match fuel with
  | O => None
  | S fuel =>
      if offset <? endoffset then
        pg ← findPage h s offset;
        h1 ← (if negb (pg =? NULL) then n ← h !! pg; Some (<[pg := set_established false n]> h) else Some h);
        disEstablish_loop fuel h1 s (uadd offset pageSize) endoffset
      else Some h
  end.

Definition disEstablishPage (h : memory) (s : PL) (offset length : Z) : option memory :=
  let endoffset := uadd offset length in
  disEstablish_loop (range_fuel length) h s offset endoffset.

(** The loop of removeEstablishedPage: status, vMapsRAddr, state and effects. *)
Fixpoint removeEst_loop (fuel : nat) (h : memory) (s : PL) (offset endoffset vMapsRAddr : Z) : option (Z * Z * (memory * PL) * list effect) :=
  match fuel with
  | O => None
  | S fuel =>
      if offset <? endoffset then
        pg ← findPage h s offset;
        if negb (pg =? NULL) then
          n ← h !! pg;
          let v := if vMapsRAddr =? UMAX then realToVirt virtBase (paddr n) else vMapsRAddr in
          '(h1, ev) ← unmapPage (<[pg := set_established false n]> h) pg;
          n1 ← h1 !! pg;
          _ ← assertK (0 =? fn (rest n1));
          '(h2, s2) ← remove h1 s offset;
          '(rc, v', hs, ev2) ← removeEst_loop fuel h2 s2 (uadd offset pageSize) endoffset v;
          Some (rc, v', hs, ev ++ ev2)
        else
          Some (_SERROR 2538 0 EINVAL, vMapsRAddr, (h, s), [])
      else Some (0, vMapsRAddr, (h, s), [])
  end.

Definition removeEstablishedPage (h : memory) (s : PL) (offset length : Z) : option (Z * Z * (memory * PL) * list effect) :=
  let endoffset := uadd offset length in
  removeEst_loop (range_fuel length) h s offset endoffset UMAX.

End ops.

(** ** Single steps *)

Section spec.
Context {PL : Type} `{!PageHolder PL}.

(** A descriptor whose links and place on the free list stay. *)
Lemma holds_entry h (s : PL) L F B p n n' :
  holds h s L F B -> h !! p = Some n -> link n' = link n -> free n' = free n ->
  freeListNext n' = freeListNext n -> freeListPrev n' = freeListPrev n ->
  holds (<[p := n']> h) s L F (set_busy B p (doingIO n' || dirty n')).
Proof.
  intros H Hn Hl Hfr Hnx Hpv. destruct (holds_free _ _ _ _ _ H) as [Hd Hnf Hfl Hb].
  rewrite <- (set_freeList_id s). apply (holds_freeList h s L F B); [done|by apply (same_links_insert _ _ n)|]. constructor; [|done|..].
  - by apply (dseg_insert_same h _ _ _ _ _ p n).
  - intros a m Hm. apply lookup_insert_Some in Hm as [[<- <-]|[_ Hm]]; [|by apply Hfl].
    pose proof (Hfl p n Hn) as Hp. unfold off_list in *. by rewrite Hfr, Hnx, Hpv.
  - intros a m Hm. unfold set_busy. apply lookup_insert_Some in Hm as [[<- <-]|[Hne Hm]]; [by rewrite Z.eqb_refl|].
    rewrite (proj2 (Z.eqb_neq a p)) by congruence. by apply Hb.
Qed.

Lemma findPage_there h (s : PL) L F B a fo :
  holds h s L F B -> offset_ok fo = true -> (a, fo) ∈ L -> findPage h s fo = Some a /\ a <> NULL.
Proof.
  intros H Hfo Hin. destruct (holds_page _ _ _ _ _ _ _ H Hin) as [Ha _]. split; [|done]. unfold findPage. rewrite (find_holds _ _ _ _ _ _ H Hfo).
  destruct (span_at _ _ _ (holds_offsets _ _ _ _ _ H) Hin) as (A & C & _ & Hs). unfold find_first. rewrite Hs. cbn. by rewrite (proj2 (Z.eqb_neq _ _) Ha).
Qed.

Lemma findPage_absent h (s : PL) L F B fo :
  holds h s L F B -> offset_ok fo = true -> fo ∉ L.*2 -> findPage h s fo = Some NULL.
Proof.
  intros H Hfo Hn. unfold findPage. rewrite (find_holds _ _ _ _ _ _ H Hfo). destruct (find_first (at_offset fo) L) as [[a d]|] eqn:E; [|done].
  apply find_first_elem in E as [Hin E]. unfold at_offset in E. cbn in E. bool_props. subst d. destruct Hn. apply list_elem_of_fmap. by exists (a, fo).
Qed.

Section range.
Variables virtBase pageSize : Z.

(** The page offsets of a range. *)
Fixpoint range (k : nat) (o : Z) : list Z :=
  match k with O => [] | S k => o :: range k (o + pageSize) end.

Lemma range_ge k o x : 0 < pageSize -> x ∈ range k o -> o <= x.
Proof.
  intros Hp. revert o. induction k as [|k IH]; intros o Hx; [by apply elem_of_nil in Hx|].
  apply elem_of_cons in Hx as [->|Hx]; [done|]. apply IH in Hx. lia.
Qed.

Lemma range_fuel_enough k : 0 < pageSize -> (k < range_fuel pageSize (Z.of_nat k * pageSize))%nat.
Proof. intros Hp. unfold range_fuel. rewrite Z.div_mul by lia. lia. Qed.

(** The descriptor of a page with a given frame. *)
Definition given_page (fo v : Z) : Entry := established_entry (init_entry fo (virtToReal virtBase v) pageSize).

(** One new page. *)
Lemma establish_new h (s : PL) L F B p ok fo v :
  holds h s L F B -> offset_ok fo = true -> Z.of_nat (length L) < 2 ^ 58 -> p <> NULL -> (p ∉ L.*1) -> (fo ∉ L.*2) -> virtToReal virtBase v <> 0 ->
  exists h1 n s1 L1 B1, addPage h s ok p fo (virtToReal virtBase v) pageSize = Some (p, (h1, s1)) /\ h1 !! p = Some n /\ L1 ≡ₚ (p, fo) :: L /\
    holds (<[p := established_entry n]> h1) s1 L1 F B1 /\ desc (<[p := established_entry n]> h1) p = given_page fo v /\
    (forall a, a <> p -> desc (<[p := established_entry n]> h1) a = desc h a).
Proof.
  intros H Hfo Hlen Hp Hpn Hfn Hv. destruct (enqueue_holds _ _ _ _ _ ok p fo (virtToReal virtBase v) pageSize H Hfo Hlen Hp Hpn Hfn) as (h1 & s1 & L1 & He & HL & Hh & Hs & Hd).
  destruct (h1 !! p) as [n|] eqn:Hn; [|done]. unfold addPage. rewrite (proj2 (Z.eqb_neq _ _) Hv). cbn [negb assertK mbind option_bind]. rewrite He.
  eexists h1, n, s1, L1, _. split_and!; [done|done|done|by eapply holds_entry| |].
  - rewrite desc_insert_eq. apply (inj Some) in Hd. unfold data in Hd. injection Hd as E1 E2 E3 E4 E5 E6. unfold strip, given_page, established_entry, set_flags, set_cacheSynced, set_established, set_rest.
    cbn. by rewrite E1, E2, E3, E5, E6.
  - intros a Ha. rewrite desc_insert_ne by done. by apply (desc_same p).
Qed.

Lemma establish_loop_spec news h (s : PL) L F B o v fuel :
  let k := length news in
  0 < pageSize -> holds h s L F B -> Forall (fun x => offset_ok x = true) (range k o) -> Forall (fun x => virtToReal virtBase x <> 0) (range k v) ->
  Z.of_nat (length L + k) < 2 ^ 58 -> NoDup news.*1 -> Forall (fun p => p <> NULL /\ (p ∉ L.*1)) news.*1 -> Forall (fun x => x ∉ L.*2) (range k o) ->
  0 <= o -> 0 <= v -> o + Z.of_nat k * pageSize < 2 ^ 64 -> v + Z.of_nat k * pageSize < 2 ^ 64 -> (k < fuel)%nat ->
  exists h' s' L' B', establish_loop virtBase pageSize fuel h s news o v (v + Z.of_nat k * pageSize) = Some (Done, (h', s'), []) /\
    holds h' s' L' F B' /\ L' ≡ₚ zip news.*1 (range k o) ++ L /\ (forall a, (a ∉ news.*1) -> desc h' a = desc h a) /\
    Forall2 (fun p x => desc h' p = given_page x (x - o + v)) news.*1 (range k o).
Proof.
  intros k Hps. subst k. revert h s L B o v fuel. induction news as [|[p ok] news IH]; intros h s L B o v fuel H Hoff Hpa Hlen Hnd Hnew Habs Ho Hv Hoe Hve Hfuel.
  { destruct fuel as [|fuel]; [cbn in Hfuel; lia|]. cbn [establish_loop length]. rewrite (proj2 (Z.ltb_ge _ _)) by (cbn; lia). exists h, s, L, B. by split_and!. }
  destruct fuel as [|fuel]; [lia|]. cbn [length range] in *. cbn [fmap list_fmap fst] in Hnd, Hnew. apply Forall_cons in Hoff as [Hfo Hoff], Hpa as [Hpa1 Hpa], Hnew as [[Hp Hpn] Hnew], Habs as [Hfn Habs].
  apply NoDup_cons in Hnd as [Hpnews Hnd].
  destruct (establish_new h s L F B p ok o v H Hfo) as (h1 & n & s1 & L1 & B1 & Hadd & Hn & HL1 & Hh1 & Hd1 & Hs1); [lia|done..|].
  destruct (IH _ s1 L1 B1 (o + pageSize) (v + pageSize) fuel Hh1 Hoff Hpa) as (h' & s' & L' & B' & Hl & Hh' & HL' & Hs' & Hf2); try (lia || done).
  { rewrite (Permutation_length HL1). cbn [length]. lia. }
  { apply Forall_forall. intros q Hq. rewrite Forall_forall in Hnew. destruct (Hnew q Hq) as [Hq1 Hq2]. split; [done|]. rewrite HL1. cbn [fmap list_fmap fst].
    rewrite not_elem_of_cons. split; [|done]. by intros ->. }
  { apply Forall_forall. intros x Hx. rewrite Forall_forall in Habs. rewrite HL1. cbn [fmap list_fmap snd]. rewrite not_elem_of_cons. split; [|by apply Habs].
    apply range_ge in Hx; [lia|done]. }
  exists h', s', L', B'. cbn [establish_loop]. rewrite (proj2 (Z.ltb_lt _ _)) by lia. rewrite (findPage_absent _ _ _ _ _ _ H Hfo Hfn). cbn [mbind option_bind negb Z.eqb head].
  rewrite Hadd. cbn [mbind option_bind]. rewrite Hn. cbn [mbind option_bind tail]. rewrite !uadd_small by lia.
  replace (v + Z.of_nat (S (length news)) * pageSize) with (v + pageSize + Z.of_nat (length news) * pageSize) by lia. split_and!; [done|done|..].
  - rewrite HL', HL1. cbn [fmap list_fmap fst zip zip_with app]. symmetry. apply Permutation_middle.
  - intros a Ha. cbn [fmap list_fmap fst] in Ha. apply not_elem_of_cons in Ha as [Ha1 Ha]. by rewrite (Hs' a Ha), Hs1.
  - cbn [fmap list_fmap fst]. constructor; [rewrite (Hs' p Hpnews), Hd1; f_equal; lia|]. eapply Forall2_impl; [exact Hf2|]. intros q x Hq. rewrite Hq. f_equal. lia.
Qed.

(** A page that can be removed: mapped, and nobody waits for it. *)
Definition removable (e : Entry) : bool := mapped (rest e) && (fn (rest e) =? 0).

Lemma range_length k o : length (range k o) = k.
Proof. revert o. induction k as [|k IH]; intros o; [done|]. cbn. by rewrite IH. Qed.

(** One iteration. *)
Lemma removeEst_one h (s : PL) L F B a o fuel endo v :
  holds h s L F B -> offset_ok o = true -> (a, o) ∈ L -> removable (desc h a) = true -> o < endo ->
  exists h' s' A C F', L = A ++ (a, o) :: C /\ holds h' s' (A ++ C) F' B /\ (forall b, b <> a -> desc h' b = desc h b) /\
    removeEst_loop virtBase pageSize (S fuel) h s o endo v =
      '(rc, v', hs, ev) ← removeEst_loop virtBase pageSize fuel h' s' (uadd o pageSize) endo
                            (if v =? UMAX then realToVirt virtBase (paddr (desc h a)) else v);
      Some (rc, v', hs, UnmapPage o (ppset (rest (desc h a))) :: ev).
Proof.
  intros H Hfo Hao Hra Hlt. destruct (findPage_there _ _ _ _ _ _ _ H Hfo Hao) as [Hfind Ha]. destruct (holds_page _ _ _ _ _ _ _ H Hao) as (_ & n & Hn & Hnf).
  destruct (list_elem_of_split _ _ Hao) as (A & C & ->).
  assert (Ed : desc h a = strip n) by by apply desc_some. unfold removable in Hra. rewrite Ed in Hra. cbn [strip rest] in Hra. apply andb_true_iff in Hra as [Hmp Hfn].
  set (n1 := set_established false n). set (n2 := set_unmapped n1). set (h1 := <[a := n1]> h). set (h2 := <[a := n2]> h1).
  assert (Hh1 : holds h1 s (A ++ (a, o) :: C) F B) by by apply holds_set_rest.
  assert (Hh2 : holds h2 s (A ++ (a, o) :: C) F B) by (apply holds_set_rest; [done|apply lookup_insert_eq]).
  destruct (remove_holds _ _ _ _ _ _ _ _ Hh2 Hfo) as (h3 & s3 & Hrem & Hh3 & Hs3). eexists h3, s3, A, C, _. split; [done|]. split; [done|]. split.
  - intros b Hb. rewrite (desc_same a h2 h3 b Hs3 Hb). unfold h2, h1. by rewrite !desc_insert_ne.
  - cbn [removeEst_loop]. rewrite (proj2 (Z.ltb_lt _ _)) by lia. rewrite Hfind. cbn [mbind option_bind]. rewrite (proj2 (Z.eqb_neq _ _) Ha). cbn [negb].
    rewrite Hn. cbn [mbind option_bind]. assert (Hl1 : h1 !! a = Some n1) by apply lookup_insert_eq. assert (Hl2 : h2 !! a = Some n2) by apply lookup_insert_eq.
    unfold unmapPage at 1. fold n1 h1. rewrite Hl1. cbn [mbind option_bind].
    change (mapped (rest n1)) with (mapped (rest n)). rewrite Hmp. cbn [assertK mbind option_bind]. fold n2 h2. rewrite Hl2. cbn [mbind option_bind].
    change (fn (rest n2)) with (fn (rest n)). rewrite (Z.eqb_sym 0), Hfn. cbn [assertK mbind option_bind]. rewrite Hrem. cbn [mbind option_bind]. rewrite Ed.
    change (fileOffset n1) with (fileOffset n). by rewrite Hnf.
Qed.

(** The page at one offset of the range is not one of the others. *)
Lemma range_fresh h (s : PL) L F B a as' o :
  holds h s L F B -> 0 < pageSize -> (a, o) ∈ L -> Forall (fun x => x ∈ L) (zip as' (range (length as') (o + pageSize))) -> a ∉ as'.
Proof.
  intros H Hps Hao Hin Hin'. apply list_elem_of_lookup in Hin' as [i Hi].
  destruct (lookup_lt_is_Some_2 (range (length as') (o + pageSize)) i) as [x Hx]; [rewrite range_length; by eapply lookup_lt_Some|].
  assert (Hax : (a, x) ∈ L). { rewrite Forall_forall in Hin. apply Hin. apply (list_elem_of_lookup_2 _ i). by rewrite lookup_zip_with, Hi, Hx. }
  destruct (holds_page _ _ _ _ _ _ _ H Hax) as (_ & m & Hm & Hmx). destruct (holds_page _ _ _ _ _ _ _ H Hao) as (_ & n & Hn & Hnx).
  assert (x = o) by congruence. apply list_elem_of_lookup_2 in Hx. apply range_ge in Hx; [lia|done].
Qed.

(** The unmap requests of a range. *)
Definition unmaps (h : memory) (as' l : list Z) : list effect := zip_with (fun a x => UnmapPage x (ppset (rest (desc h a)))) as' l.

Lemma unmaps_ext h h' as' l : (forall a, a ∈ as' -> desc h' a = desc h a) -> unmaps h' as' l = unmaps h as' l.
Proof.
  unfold unmaps. revert l. induction as' as [|b as' IH]; intros l H; [done|]. destruct l as [|x l]; [done|]. cbn. rewrite (H b) by by left.
  f_equal. apply IH. intros a Ha. apply H. by right.
Qed.

Lemma removeEst_loop_spec as' h (s : PL) L F B o v fuel :
  let k := length as' in
  0 < pageSize -> holds h s L F B -> Forall (fun x => offset_ok x = true) (range k o) -> Forall (fun x => x ∈ L) (zip as' (range k o)) ->
  Forall (fun a => removable (desc h a) = true) as' -> 0 <= o -> o + Z.of_nat k * pageSize < 2 ^ 64 -> (k < fuel)%nat ->
  let v' := match as' with [] => v | a :: _ => if v =? UMAX then realToVirt virtBase (paddr (desc h a)) else v end in
  (v' = UMAX -> as' = []) ->
  exists h' s' L' F', removeEst_loop virtBase pageSize fuel h s o (o + Z.of_nat k * pageSize) v = Some (0, v', (h', s'), unmaps h as' (range k o)) /\
    holds h' s' L' F' B /\ L ≡ₚ zip as' (range k o) ++ L' /\ sublist L' L /\ (forall a, (a ∉ as') -> desc h' a = desc h a).
Proof.
  intros k Hps. subst k. revert h s L F o v fuel. induction as' as [|a as' IH]; intros h s L F o v fuel H Hoff Hin Hrm Ho Hoe Hfuel v' Hv'.
  { destruct fuel as [|fuel]; [cbn in Hfuel; lia|]. cbn [removeEst_loop length]. rewrite (proj2 (Z.ltb_ge _ _)) by (cbn; lia). by exists h, s, L, F. }
  destruct fuel as [|fuel]; [lia|]. cbn [length range zip zip_with] in *. apply Forall_cons in Hoff as [Hfo Hoff], Hin as [Hao Hin], Hrm as [Hra Hrm].
  pose proof (range_fresh _ _ _ _ _ _ _ _ H Hps Hao Hin) as Hna.
  destruct (removeEst_one _ _ _ _ _ _ _ fuel (o + Z.of_nat (S (length as')) * pageSize) v H Hfo Hao Hra) as (h3 & s3 & A & C & F3 & -> & Hh3 & Hsame & Hrun); [lia|].
  assert (Hv2 : as' <> [] -> v' <> UMAX) by (intros _ E; by specialize (Hv' E)).
  destruct (IH h3 s3 (A ++ C) F3 (o + pageSize) v' fuel Hh3 Hoff) as (h' & s' & L' & F' & Hl & Hh' & HL & Hsub & Hs'); try (lia || done).
  { rewrite Forall_forall in Hin |- *. intros [b x] Hbx. pose proof (Hin _ Hbx) as Hbl. apply elem_of_zip_r in Hbx. apply range_ge in Hbx; [|done].
    rewrite elem_of_app. rewrite elem_of_app, elem_of_cons in Hbl. destruct Hbl as [?|[[= -> ->]|?]]; [by left|lia|by right]. }
  { rewrite Forall_forall in Hrm |- *. intros b Hb. rewrite Hsame; [by apply Hrm|]. by intros ->. }
  { intros E. destruct as' as [|b as']; [done|]. rewrite (proj2 (Z.eqb_neq _ _) (Hv2 ltac:(done))) in E. by destruct Hv2. }
  exists h', s', L', F'. rewrite Hrun. fold v'. rewrite uadd_small by lia.
  replace (o + Z.of_nat (S (length as')) * pageSize) with (o + pageSize + Z.of_nat (length as') * pageSize) by lia. rewrite Hl. cbn [mbind option_bind]. split_and!.
  - rewrite (unmaps_ext h) by (intros b Hb; apply Hsame; by intros ->). destruct as' as [|b as']; [done|]. by rewrite (proj2 (Z.eqb_neq _ _) (Hv2 ltac:(done))).
  - done.
  - rewrite <- Permutation_middle, HL. done.
  - etrans; [exact Hsub|]. apply sublist_app; [done|]. by apply sublist_cons.
  - intros b Hb. apply not_elem_of_cons in Hb as [Hb1 Hb]. by rewrite (Hs' b Hb), Hsame.
Qed.

(** disEstablishPage clears the flag of the pages in the range, whether all of
    them are there or not, and changes nothing else. *)
Lemma disEstablish_loop_spec k h (s : PL) L F B o fuel :
  0 < pageSize -> holds h s L F B -> Forall (fun x => offset_ok x = true) (range k o) -> 0 <= o -> o + Z.of_nat k * pageSize < 2 ^ 64 -> (k < fuel)%nat ->
  exists h', disEstablish_loop pageSize fuel h s o (o + Z.of_nat k * pageSize) = Some h' /\ holds h' s L F B /\
    forall a fo, (a, fo) ∈ L -> desc h' a = if decide (fo ∈ range k o) then set_established false (desc h a) else desc h a.
Proof.
  intros Hps. revert h o fuel. induction k as [|k IH]; intros h o fuel H Hoff Ho Hoe Hfuel; (destruct fuel as [|fuel]; [lia|]); cbn [disEstablish_loop].
  { rewrite (proj2 (Z.ltb_ge _ _)) by lia. exists h. split_and!; [done|done|]. intros a fo _. rewrite decide_False; [done|]. apply not_elem_of_nil. }
  cbn [range] in *. apply Forall_cons in Hoff as [Hfo Hoff]. rewrite (proj2 (Z.ltb_lt _ _)) by lia. rewrite uadd_small by lia.
  replace (o + Z.of_nat (S k) * pageSize) with (o + pageSize + Z.of_nat k * pageSize) by lia.
  assert (Hno : o ∉ range k (o + pageSize)) by (intros Hin; apply range_ge in Hin; [lia|done]).
  destruct (decide (o ∈ L.*2)) as [Hin|Hin].
  - apply list_elem_of_fmap in Hin as ([a o'] & E & Hin). cbn in E. subst o'. destruct (findPage_there _ _ _ _ _ _ _ H Hfo Hin) as [Hfind Ha].
    destruct (holds_page _ _ _ _ _ _ _ H Hin) as (_ & n & Hn & Hnf). rewrite Hfind. cbn [mbind option_bind]. rewrite (proj2 (Z.eqb_neq _ _) Ha). cbn [negb].
    rewrite Hn. cbn [mbind option_bind]. pose proof (holds_set_rest h s L F B a n _ H Hn : holds (<[a := set_established false n]> h) s L F B) as H1.
    destruct (IH _ _ fuel H1 Hoff) as (h' & Hl & Hh & Hd); [lia..|]. exists h'. split_and!; [done|done|]. intros b fo Hb. rewrite (Hd b fo Hb).
    destruct (decide (b = a)) as [->|Hba].
    + destruct (holds_page _ _ _ _ _ _ _ H Hb) as (_ & m & Hm & Hmf). assert (fo = o) as -> by congruence. rewrite decide_False by done.
      rewrite (decide_True (P := o ∈ o :: _)) by by left. by rewrite desc_insert_eq, (desc_some h a n).
    + rewrite desc_insert_ne by done. assert (fo <> o).
      { intros ->. apply Hba. pose proof (holds_offsets _ _ _ _ _ H) as Hnd. apply list_elem_of_lookup in Hb as [i Hi], Hin as [j Hj].
        assert (i = j) as -> by (apply (NoDup_lookup _ _ _ o Hnd); by rewrite list_lookup_fmap, ?Hi, ?Hj). congruence. }
      pose proof (elem_of_cons (range k (o + pageSize)) fo o). destruct (decide (fo ∈ range k (o + pageSize))) as [?|?]; [rewrite decide_True by tauto|rewrite decide_False by tauto]; done.
  - rewrite (findPage_absent _ _ _ _ _ _ H Hfo Hin). cbn [mbind option_bind Z.eqb negb]. destruct (IH _ _ fuel H Hoff) as (h' & Hl & Hh & Hd); [lia..|].
    exists h'. split_and!; [done|done|]. intros b fo Hb. rewrite (Hd b fo Hb). assert (fo <> o) by (intros ->; apply Hin, list_elem_of_fmap; by exists (b, o)).
    pose proof (elem_of_cons (range k (o + pageSize)) fo o). destruct (decide (fo ∈ range k (o + pageSize))) as [?|?]; [rewrite decide_True by tauto|rewrite decide_False by tauto]; done.
Qed.

(** A range that starts with a hole is refused and nothing has changed. *)
Lemma removeEst_missing h (s : PL) L F B o bytes :
  holds h s L F B -> offset_ok o = true -> (o ∉ L.*2) -> 0 <= o -> 0 < bytes -> o + bytes < 2 ^ 64 ->
  removeEstablishedPage virtBase pageSize h s o bytes = Some (_SERROR 2538 0 EINVAL, UMAX, (h, s), []).
Proof.
  intros H Hfo Hin Ho Hb Hoe. unfold removeEstablishedPage, range_fuel. cbn [removeEst_loop]. rewrite uadd_small by lia.
  rewrite (proj2 (Z.ltb_lt _ _)) by lia. by rewrite (findPage_absent _ _ _ _ _ _ H Hfo Hin).
Qed.

End range.

Lemma real_virt virtBase v : is_uval v -> realToVirt virtBase (virtToReal virtBase v) = v.
Proof.
  intros Hv. unfold realToVirt, virtToReal, uadd, usub, uwrap. rewrite Zplus_mod_idemp_l. replace (v - virtBase + virtBase) with v by lia. by apply Z.mod_small.
Qed.

(** C18: establishPage on a range of absent offsets adds a page for each, with
    the caller's frames in order, and removeEstablishedPage, once those pages are
    mapped and nobody waits for them, returns the address of the caller's frames
    and leaves exactly the pages there were before; for every class of pages. *)
Theorem establish_remove_roundtrip virtBase pageSize h (s : PL) L F B news o v :
  let k := length news in
  let bytes := Z.of_nat k * pageSize in
  0 < pageSize -> (0 < k)%nat -> holds h s L F B ->
  Forall (fun x => offset_ok x = true) (range pageSize k o) -> Forall (fun x => virtToReal virtBase x <> 0) (range pageSize k v) ->
  Z.of_nat (length L + k) < 2 ^ 58 -> NoDup news.*1 -> Forall (fun p => p <> NULL /\ (p ∉ L.*1)) news.*1 -> Forall (fun x => x ∉ L.*2) (range pageSize k o) ->
  0 <= o -> 0 <= v -> o + bytes < 2 ^ 64 -> v + bytes < 2 ^ 64 ->
  exists h1 s1 L1 B1, establishPage virtBase pageSize false h s news o v bytes = Some (Done, (h1, s1), []) /\
    holds h1 s1 L1 F B1 /\ L1 ≡ₚ zip news.*1 (range pageSize k o) ++ L /\ (forall a, (a ∉ news.*1) -> desc h1 a = desc h a) /\
    Forall2 (fun p x => desc h1 p = given_page virtBase pageSize x (x - o + v)) news.*1 (range pageSize k o) /\
    forall h2 s2 F2 B2, holds h2 s2 L1 F2 B2 ->
      Forall (fun p => removable (desc h2 p) = true /\ paddr (desc h2 p) = paddr (desc h1 p)) news.*1 ->
      exists h3 s3 L3 F3, removeEstablishedPage virtBase pageSize h2 s2 o bytes = Some (0, v, (h3, s3), unmaps h2 news.*1 (range pageSize k o)) /\
        holds h3 s3 L3 F3 B2 /\ L3 ≡ₚ L /\ (forall a, (a ∉ news.*1) -> desc h3 a = desc h2 a).
Proof.
  intros k bytes Hps Hk H Hoff Hpa Hlen Hnd Hnew Habs Ho Hv Hoe Hve. pose proof (range_fuel_enough pageSize k Hps) as Hfuel.
  destruct (establish_loop_spec virtBase pageSize news h s L F B o v (range_fuel pageSize bytes) Hps H Hoff Hpa Hlen Hnd Hnew Habs Ho Hv Hoe Hve Hfuel)
    as (h1 & s1 & L1 & B1 & He & Hh1 & HL1 & Hs1 & Hd1).
  exists h1, s1, L1, B1. unfold establishPage. cbn [negb assertK mbind option_bind]. rewrite uadd_small by lia. split_and!; try done.
  intros h2 s2 F2 B2 Hh2 Hrm. assert (Ek : length news.*1 = k) by by rewrite length_fmap.
  unfold removeEstablishedPage. rewrite uadd_small by lia.
  assert (Hvv : match news.*1 with [] => UMAX | a :: _ => if UMAX =? UMAX then realToVirt virtBase (paddr (desc h2 a)) else UMAX end = v).
  { destruct news as [|[p ok] news]; [cbn in Hk; lia|]. cbn [fmap list_fmap fst] in Hrm, Hd1 |- *. rewrite Z.eqb_refl. apply Forall_cons in Hrm as [[_ ->] _].
    subst k. cbn [range length] in Hd1. apply Forall2_cons in Hd1 as [-> _]. unfold given_page. cbn. rewrite real_virt; [lia|]. unfold is_uval. lia. }
  pose proof (removeEst_loop_spec virtBase pageSize news.*1 h2 s2 L1 F2 B2 o UMAX (range_fuel pageSize bytes) Hps Hh2) as Hr. rewrite Ek, Hvv in Hr.
  destruct Hr as (h3 & s3 & L3 & F3 & Hrun & Hh3 & HL3 & _ & Hs3).
  - done.
  - apply Forall_forall. intros x Hx. rewrite HL1. apply elem_of_app. by left.
  - eapply Forall_impl; [exact Hrm|]. by intros a [? _].
  - done.
  - done.
  - done.
  - unfold UMAX. intros E. subst bytes k. destruct news; [done|]. cbn [length] in Hve. nia.
  - exists h3, s3, L3, F3. fold bytes in Hrun. split_and!; [done|done| |done]. rewrite HL1 in HL3. by apply Permutation_app_inv_l in HL3.
Qed.

End spec.

#[local] Existing Instance PageList.pagelist_holder.

Lemma establish_remove_roundtrip_witness :
  exists h1 s1 L1, establishPage 0xC000000000000000 4096 false ∅ PageList.init [(100, true); (200, true)] 4096 0xC000000000003000 8192 =
      Some (Done, (h1, s1), []) /\
    L1 ≡ₚ [(100, 4096); (200, 8192)] /\
    forall h2 s2 F2 B2, PageHolder.holds h2 s2 L1 F2 B2 ->
      Forall (fun p => removable (desc h2 p) = true /\ paddr (desc h2 p) = paddr (desc h1 p)) [100; 200] ->
      exists h3 s3 ev, removeEstablishedPage 0xC000000000000000 4096 h2 s2 4096 8192 = Some (0, 0xC000000000003000, (h3, s3), ev).
Proof.
  destruct (establish_remove_roundtrip 0xC000000000000000 4096 ∅ PageList.init [] [] (fun _ => false) [(100, true); (200, true)] 4096 0xC000000000003000)
    as (h1 & s1 & L1 & B1 & He & _ & HL & _ & _ & Hr); try (cbn; lia).
  - apply PageList.pagelist_init_rep.
  - by repeat constructor.
  - by repeat constructor.
  - apply (bool_decide_unpack _). vm_compute. exact I.
  - repeat constructor; (done || apply not_elem_of_nil).
  - repeat constructor; apply not_elem_of_nil.
  - exists h1, s1, L1. split; [exact He|]. split; [exact HL|]. intros h2 s2 F2 B2 Hh2 Hrm. destruct (Hr h2 s2 F2 B2 Hh2 Hrm) as (h3 & s3 & _ & _ & Hx & _). by eexists h3, s3, _.
Defined.

(** Without a mapping in between, the assertion of unmapPage stops the removal
    of a page that was just established. *)
Lemma remove_unmapped_stuck :
  exists h s, establishPage 0xC000000000000000 4096 false ∅ PageList.init [(100, true)] 4096 0xC000000000003000 4096 = Some (Done, (h, s), []) /\
    removeEstablishedPage 0xC000000000000000 4096 h s 4096 4096 = None.
Proof. eexists _, _. split; [vm_compute; reflexivity|]. by vm_compute. Qed.

End FCMEstablished.
