(* ===== verification/PathName.v ===== *)
(** * PathName: path names between clients and file servers, lib/libc/io/PathName.C

    A path travels as a sequence of components, each a length byte followed by
    that many characters; its total length is kept outside.  The model keeps
    the bytes of each buffer as a list, so that every read and write of the
    code is checked against the buffer it is meant for ([None]: an access
    outside it, or a failed assertion). *)

From stdpp Require Import base numbers option list.
From S2P Require Import K42 Prelude.

Module PathName.

(** ** Buffers *)

Abbreviation bytes := (list Z) (only parsing).

Definition rd (b : bytes) (i : Z) : option Z := if 0 <=? i then b !! Z.to_nat i else None.

(** memcpy of [vs] to offset [i]; a single store is a copy of one byte. *)
Definition wr (b : bytes) (i : Z) (vs : bytes) : option bytes :=
  if (0 <=? i) && (i + Z.of_nat (length vs) <=? Z.of_nat (length b))
  then Some (take (Z.to_nat i) b ++ vs ++ drop (Z.to_nat i + length vs) b)
  else None.

Definition sub (b : bytes) (i n : Z) : option bytes :=
  if (0 <=? i) && (0 <=? n) && (i + n <=? Z.of_nat (length b))
  then Some (take (Z.to_nat n) (drop (Z.to_nat i) b)) else None.

Definition zlen (b : bytes) : Z := Z.of_nat (length b).

Definition SLASH : Z := 47.
Definition DOT : Z := 46.
Definition ERANGE : Z := 34.

(** ** class PathName; a path is a buffer and an offset into it *)

Definition getCompLen (b : bytes) (p thisLen : Z) : option Z :=
  if thisLen =? 0 then Some 0 else rd b p.

(** A null result is [None] inside. *)
Definition getNext (b : bytes) (p thisLen : Z) : option (option Z) :=
  if thisLen =? 0 then Some None
  else n ← rd b p; Some (Some (p + n + 1)).

(** getNext(thisLen, remLen) *)
Definition getNextRem (b : bytes) (p thisLen remLen : Z) : option (option Z * Z) :=
  if thisLen =? 0 then Some (None, remLen)
  else
    n ← rd b p;
    let nxt := p + n + 1 in
    let rem := usub thisLen (nxt - p) in
    Some (if rem =? 0 then None else Some nxt, rem).

Definition isLastComp (b : bytes) (p thisLen : Z) : option bool := n ← rd b p; Some (thisLen =? n + 1).

Definition matchComp (b : bytes) (p thisLen : Z) (str : bytes) (len : Z) : option bool :=
  if negb (thisLen =? 0) then
    nmLen ← rd b p;
    if len =? nmLen then
      nm ← sub b (p + 1) len;
      s ← sub str 0 len;
      Some (bool_decide (s = nm))
    else Some (len =? 0)
  else Some (len =? 0).

(** The loop of getPrev: while (thisLen != 0 && tmp->getNext(thisLen) != p). *)
Fixpoint getPrev_loop (fuel : nat) (b : bytes) (tmp thisLen p : Z) : option Z :=
  match fuel with
  | O => None
  | S fuel =>
      if thisLen =? 0 then None (* tassertMsg(0, "getPrev failed") *)
      else
        n ← rd b tmp;
        if tmp + n + 1 =? p then Some tmp
        else
          '(nxt, rem) ← getNextRem b tmp thisLen thisLen;
          match nxt with
          | Some tmp' => getPrev_loop fuel b tmp' rem p
          | None => None
          end
  end.

Definition getPrev (b : bytes) (this thisLen p : Z) : option Z :=
  if this =? p then Some this
  else if thisLen =? 0 then Some this
  else getPrev_loop (S (length b)) b this thisLen p.

(** getStart with a null pointer: all but the last component. *)
Fixpoint getStart_loop (fuel : nat) (b : bytes) (tmp remlen : Z) : option Z :=
  match fuel with
  | O => None
  | S fuel =>
      '(nxt, rem) ← getNextRem b tmp remlen remlen;
      match nxt with Some tmp' => getStart_loop fuel b tmp' rem | None => Some tmp end
  end.

Definition getStart (b : bytes) (this thisLen : Z) (ptr : option Z) : option Z :=
  if thisLen =? 0 then Some 0
  else match ptr with
       | None => tmp ← getStart_loop (S (length b)) b this thisLen; Some (tmp - this)
       | Some p => Some (usub p this)
       end.

(** PathFromBuf; [base] is the address of the buffer, which shows only when a
    component of length 0 makes getNext return null. *)
Fixpoint PathFromBuf_loop (fuel : nat) (base : Z) (b : bytes) (len ptr : Z) : option Z :=
  match fuel with
  | O => None
  | S fuel =>
      let off := usub ptr base in
      if len <? off then Some (_SERROR 1160 0 EINVAL)
      else if off =? len then Some 0
      else
        nmLen ← rd b off;
        nxt ← getNext b off nmLen;
        PathFromBuf_loop fuel base b len (match nxt with Some o => uadd base o | None => 0 end)
  end.

Definition PathFromBuf (base : Z) (b : bytes) (len : Z) : option Z :=
  PathFromBuf_loop (S (S (length b))) base b len base.

(** getUPath; [out] is the caller's buffer of bufLen bytes. *)
Fixpoint getUPath_loop (fuel : nat) (b : bytes) (pnp fin : Z) (to : option Z) (out : bytes) (ptr bLenlft : Z)
    : option (Z * bytes) :=
  match fuel with
  | O => None
  | S fuel =>
      if (pnp <? fin) && negb (bool_decide (to = Some pnp)) then
        out1 ← wr out ptr [SLASH];
        nmLen ← rd b pnp;
        let bLenlft := swrap (bLenlft - (nmLen + 1)) in
        if bLenlft <? 0 then Some (_SERROR 1049 0 ERANGE, out1)
        else
          nm ← sub b (pnp + 1) nmLen;
          out2 ← wr out1 (ptr + 1) nm;
          nxt ← getNext b pnp nmLen;
          match nxt with
          | Some q => getUPath_loop fuel b q fin to out2 (ptr + 1 + nmLen) bLenlft
          | None => None
          end
      else
        out' ← wr out ptr [0];
        Some (ptr + 1, out')
  end.

Definition getUPath (b : bytes) (this thisLen : Z) (out : bytes) (to : option Z) : option (Z * bytes) :=
  if thisLen =? 0 then
    out1 ← wr out 0 [SLASH];
    out2 ← wr out1 1 [0];
    Some (2, out2)
  else getUPath_loop (S (S (length b))) b this (this + thisLen) to out 0 (zlen out).

(** ** Editing in place: [b] is the buffer of bufLen bytes the path starts *)

Definition appendComp (b : bytes) (thisLen : Z) (str : bytes) : option (Z * bytes) :=
  let reqLen := uadd (uadd thisLen (zlen str)) 1 in
  if zlen b <? reqLen then Some (_SERROR 1503 0 ERANGE, b)
  else
    b1 ← wr b (thisLen + 1) str;
    b2 ← wr b1 thisLen [zlen str mod 256];
    Some (reqLen, b2).

(** appendPath and prependPath come in two forms, which differ in the number of
    the error and in whether the place of the added part is returned (it is
    [thisLen] and [zlen pth]). *)
Definition appendPath_ec (ec : Z) (b : bytes) (thisLen : Z) (pth : bytes) : option (Z * bytes) :=
  let reqLen := uadd thisLen (zlen pth) in
  if zlen b <? reqLen then Some (_SERROR ec 0 ERANGE, b)
  else b1 ← wr b thisLen pth; Some (reqLen, b1).

Definition appendPath_np := appendPath_ec 1504.
Definition appendPath := appendPath_ec 1052.

Definition prependPath_ec (ec : Z) (b : bytes) (thisLen : Z) (pth : bytes) : option (Z * bytes) :=
  if zlen b <? uadd thisLen (zlen pth) then Some (_SERROR ec 0 ERANGE, b)
  else
    this ← sub b 0 thisLen;
    b1 ← wr b (zlen pth) this;
    b2 ← wr b1 0 pth;
    Some (uadd thisLen (zlen pth), b2).

Definition prependPath_np := prependPath_ec 1155.
Definition prependPath := prependPath_ec 1508.

Definition dup (b : bytes) (thisLen : Z) (buf : bytes) : option (option bytes) :=
  if zlen buf <? thisLen then Some None
  else this ← sub b 0 thisLen; buf' ← wr buf 0 this; Some (Some buf').

(** ** class PathNameDynamic: new paths in buffers of their own.  [alloc n] is the
    content of a fresh buffer of [n] bytes. *)

Section dynamic.
Context (alloc : Z -> bytes).

(** Where Create is: the buffer, the length of the path built so far as the
    code counts it, the end of the path, the rest of the unix path up to and
    with its terminating null, and the number of characters left. *)
Record cstate := mkC { c_buf : bytes; npLen : Z; ptr : Z; frp : bytes; c_len : Z }.

Definition skip (st : cstate) (n : nat) : cstate :=
  mkC (c_buf st) (npLen st) (ptr st) (drop n (frp st)) (usub (c_len st) (Z.of_nat n)).

(** The dot cases of the noise loop. *)
Definition noise_dots (st : cstate) : option cstate :=
  c0 ← frp st !! 0%nat;
  if c0 =? DOT then
    c1 ← frp st !! 1%nat;
    if c1 =? 0 then Some (skip st 1)
    else if c1 =? SLASH then Some (skip st 2)
    else
      c2 ← frp st !! 2%nat;
      if (c1 =? DOT) && (c2 =? 0) || (c2 =? SLASH) then
        p ← getPrev (c_buf st) 0 (npLen st) (ptr st);
        nmLen ← rd (c_buf st) p;
        Some (skip (mkC (c_buf st) (usub (npLen st) (usub nmLen 1)) p (frp st) (c_len st)) 2)
      else Some st
  else Some st.

Definition noise_slash (st : cstate) : option cstate :=
  if c_len st =? 0 then Some st
  else c0 ← frp st !! 0%nat; if c0 =? SLASH then Some (skip st 1) else Some st.

(** do { ... } while ((len) && (prevLen != len)) *)
Fixpoint noise (fuel : nat) (st : cstate) : option cstate :=
  match fuel with
  | O => None
  | S fuel =>
      st1 ← noise_dots st;
      st2 ← noise_slash st1;
      if negb (c_len st2 =? 0) && negb (c_len st =? c_len st2) then noise fuel st2 else Some st2
  end.

Inductive copied := Copied (st : cstate) | TooLong | Overrun.

(** while ((len) && ( *frp != '/')): the characters of one component. *)
Fixpoint copy (fuel : nat) (maxptr top : Z) (st : cstate) : option copied :=
  match fuel with
  | O => None
  | S fuel =>
      if c_len st =? 0 then Some (Copied st)
      else
        c0 ← frp st !! 0%nat;
        if c0 =? SLASH then Some (Copied st)
        else
          nmLen ← rd (c_buf st) (ptr st);
          if 254 <? nmLen then Some TooLong
          else if maxptr <=? top then Some Overrun
          else
            b1 ← wr (c_buf st) top [c0];
            b2 ← wr b1 (ptr st) [(nmLen + 1) mod 256];
            copy fuel maxptr (top + 1) (skip (mkC b2 (npLen st) (ptr st) (frp st) (c_len st)) 1)
  end.

(** while (len): one component per round. *)
Fixpoint Create_loop (fuel : nat) (maxptr : Z) (st : cstate) : option copied :=
  match fuel with
  | O => None
  | S fuel =>
      if c_len st =? 0 then Some (Copied st)
      else
        st1 ← noise (S (S (length (frp st)))) st;
        if c_len st1 =? 0 then Some (Copied st1)
        else if maxptr <=? ptr st1 then Some Overrun
        else
          b ← wr (c_buf st1) (ptr st1) [0];
          r ← copy (S (length (frp st1))) maxptr (ptr st1 + 1) (mkC b (npLen st1) (ptr st1) (frp st1) (c_len st1));
          match r with
          | Copied st2 =>
              nmLen ← rd (c_buf st2) (ptr st2);
              if nmLen =? 0 then Create_loop fuel maxptr st2
              else
                let p := ptr st2 + nmLen + 1 in
                let n := uadd (uadd (npLen st2) nmLen) 1 in
                if c_len st2 =? 0 then Create_loop fuel maxptr (mkC (c_buf st2) n p (frp st2) (c_len st2))
                else if maxptr <=? p then Some Overrun
                else
                  b' ← wr (c_buf st2) p [0];
                  Create_loop fuel maxptr (mkC b' n p (frp st2) (c_len st2))
          | _ => Some r
          end
  end.

(** The new path, its length, or null. *)
Definition Create (unixPath start : bytes) (bufLen : Z) : option (option bytes * Z) :=
  let upLen := zlen unixPath in
  let startLen := zlen start in
  if negb (bufLen =? 0) && ((bufLen <? startLen) || (bufLen <=? upLen)) then Some (None, 0)
  else
    let expectedSize := if bufLen =? 0 then uadd (uadd upLen 1) startLen else bufLen in
    np ← wr (alloc expectedSize) 0 [0];
    np1 ← wr np 0 start;
    r ← Create_loop (S (S (length unixPath))) expectedSize (mkC np1 startLen startLen (unixPath ++ [0]) upLen);
    match r with
    | Copied st =>
        let realSize := ptr st in
        if (bufLen =? 0) && (realSize <? expectedSize) then
          if realSize =? 0 then Some (None, 0)
          else tmp ← sub (c_buf st) 0 realSize; Some (Some tmp, realSize)
        else _ ← assertK (realSize <=? expectedSize); Some (Some (c_buf st), realSize)
    | _ => Some (None, 0)
    end.

(** splitCreate: the two parts.  The check compares pointers to two-byte
    objects, so it allows twice the length. *)
Definition splitCreate (b : bytes) (thisLen p : Z) : option (option bytes * option bytes) :=
  if thisLen =? 0 then Some (None, None)
  else
    _ ← assertK ((0 <=? p) && (p <? 2 * thisLen));
    let len1 := p in
    let len2 := usub thisLen len1 in
    p1 ← (if len1 =? 0 then Some None else x ← sub b 0 len1; Some (Some x));
    p2 ← (if len2 =? 0 then Some None else x ← sub b p len2; Some (Some x));
    Some (p1, p2).

(** splitCreate(thisLen, ptr, part1): the first part and its length. *)
Definition splitCreate1 (b : bytes) (thisLen p : Z) : option (option bytes * Z) :=
  if thisLen =? 0 then Some (None, 0)
  else
    _ ← assertK ((0 <=? p) && (p <? 2 * thisLen));
    if p =? 0 then Some (None, 0) else x ← sub b 0 p; Some (Some x, p).

Definition dupCreate (b : bytes) (thisLen bufLen : Z) : option (option bytes * Z) :=
  if thisLen =? 0 then Some (if bufLen =? 0 then None else Some (alloc bufLen), 0)
  else
    this ← sub b 0 thisLen;
    np ← wr (alloc (if bufLen =? 0 then thisLen else bufLen)) 0 this;
    Some (Some np, thisLen).

Definition createFromComp (b : bytes) (thisLen : Z) : option (option bytes * Z) :=
  if thisLen =? 0 then Some (None, 0)
  else
    nmLen ← rd b 0;
    c ← sub b 0 (nmLen + 1);
    Some (Some c, nmLen + 1).

(** create: this path followed by [pth]. *)
Definition create (b : bytes) (thisLen : Z) (pth : bytes) (bufLen : Z) : option (option bytes * Z) :=
  let reqLen := uadd thisLen (zlen pth) in
  if negb (bufLen =? 0) && (bufLen <? reqLen) then Some (None, 0)
  else
    this ← sub b 0 thisLen;
    np ← wr (alloc (if bufLen =? 0 then reqLen else bufLen)) 0 this;
    np1 ← wr np thisLen pth;
    Some (Some np1, reqLen).

Definition appendCompCreate (b : bytes) (thisLen : Z) (str : bytes) (bufLen : Z) : option (option bytes * Z) :=
  let reqLen := uadd (uadd thisLen (zlen str)) 1 in
  if negb (bufLen =? 0) && (bufLen <? reqLen) then Some (None, 0)
  else
    this ← sub b 0 thisLen;
    np ← wr (alloc (if bufLen =? 0 then reqLen else bufLen)) 0 this;
    np1 ← wr np (thisLen + 1) str;
    np2 ← wr np1 thisLen [zlen str mod 256];
    Some (Some np2, reqLen).

End dynamic.

(** ** What the bytes mean *)

(** A path is a list of components. *)
Fixpoint encode (cs : list bytes) : bytes :=
  match cs with [] => [] | c :: cs => zlen c :: c ++ encode cs end.

Definition good (c : bytes) : Prop := (1 <= length c <= 255)%nat.

Lemma encode_app cs ds : encode (cs ++ ds) = encode cs ++ encode ds.
Proof. induction cs as [|c cs IH]; simpl; [done|]. by rewrite IH, <- app_assoc. Qed.

Lemma zlen_app (a b : bytes) : zlen (a ++ b) = zlen a + zlen b.
Proof. unfold zlen. rewrite length_app. lia. Qed.

Lemma zlen_cons x (a : bytes) : zlen (x :: a) = 1 + zlen a.
Proof. unfold zlen. simpl. lia. Qed.

Lemma zlen_drop n (a : bytes) : (n <= length a)%nat -> zlen (drop n a) = zlen a - Z.of_nat n.
Proof. unfold zlen. rewrite length_drop. lia. Qed.

Lemma zlen_nonneg (a : bytes) : 0 <= zlen a.
Proof. unfold zlen. lia. Qed.

Lemma zlen_encode_cons c cs : zlen (encode (c :: cs)) = zlen c + 1 + zlen (encode cs).
Proof. simpl. rewrite zlen_cons, zlen_app. lia. Qed.

Lemma zlen_encode_snoc cs c : zlen (encode (cs ++ [c])) = zlen (encode cs) + zlen c + 1.
Proof. rewrite encode_app, zlen_app, zlen_encode_cons. simpl. change (zlen []) with 0. lia. Qed.

Ltac zl := repeat first [rewrite zlen_app in * | rewrite zlen_cons in *]; change (zlen []) with 0 in *;
  repeat match goal with |- context [zlen ?a] => lazymatch goal with _ : 0 <= zlen a |- _ => fail | _ => pose proof (zlen_nonneg a) end end.

(** ** Accesses at a position that is written out *)

Lemma rd_at (a : bytes) x b : rd (a ++ x :: b) (zlen a) = Some x.
Proof.
  unfold rd, zlen. rewrite (proj2 (Z.leb_le _ _)) by lia. rewrite Nat2Z.id. rewrite lookup_app_r by lia. by rewrite Nat.sub_diag.
Qed.

Lemma wr_at (a old b vs : bytes) i :
  i = zlen a -> length old = length vs -> wr (a ++ old ++ b) i vs = Some (a ++ vs ++ b).
Proof.
  intros -> Hl. unfold wr, zlen. rewrite (proj2 (Z.leb_le 0 _)) by lia. rewrite !length_app.
  rewrite (proj2 (Z.leb_le _ _)) by lia. simpl. rewrite Nat2Z.id, take_app_length. do 2 f_equal.
  f_equal. replace (length a + length vs)%nat with (length (a ++ old)) by (rewrite length_app; lia).
  by rewrite app_assoc, drop_app_length.
Qed.

Lemma sub_at (a m b : bytes) i n : i = zlen a -> n = zlen m -> sub (a ++ m ++ b) i n = Some m.
Proof.
  intros -> ->. unfold sub, zlen. rewrite !(proj2 (Z.leb_le 0 _)) by lia. rewrite !length_app.
  rewrite (proj2 (Z.leb_le _ _)) by lia. simpl. by rewrite !Nat2Z.id, drop_app_length, take_app_length.
Qed.

(** ** getPrev *)

Lemma getPrev_loop_spec fuel pre cs c g thisLen :
  Forall good (cs ++ [c]) -> zlen (encode (cs ++ [c])) <= thisLen < 2 ^ 64 -> (length cs < fuel)%nat ->
  getPrev_loop fuel (pre ++ encode (cs ++ [c]) ++ g) (zlen pre) thisLen (zlen pre + zlen (encode (cs ++ [c])))
  = Some (zlen pre + zlen (encode cs)).
Proof.
  revert fuel pre thisLen. induction cs as [|d cs IH]; intros fuel pre thisLen Hg Hlen Hf;
    (destruct fuel as [|fuel]; [simpl in Hf; lia|]); cbn [getPrev_loop app encode].
  - simpl in Hlen. rewrite zlen_cons, zlen_app in Hlen. change (zlen []) with 0 in Hlen. pose proof (zlen_nonneg c).
    rewrite (proj2 (Z.eqb_neq thisLen 0)) by lia. rewrite rd_at. cbn [mbind option_bind].
    rewrite (proj2 (Z.eqb_eq _ _)); [f_equal; change (zlen []) with 0; lia|]. rewrite zlen_cons, zlen_app. change (zlen []) with 0. lia.
  - inversion Hg as [|? ? Hd Hg']; subst. rewrite <- app_comm_cons, zlen_encode_cons in Hlen.
    pose proof (zlen_nonneg d) as Hd0. assert (Hpos : 1 <= zlen (encode (cs ++ [c]))).
    { rewrite zlen_encode_snoc. pose proof (zlen_nonneg (encode cs)). pose proof (zlen_nonneg c). lia. }
    rewrite (proj2 (Z.eqb_neq thisLen 0)) by lia. rewrite rd_at. cbn [mbind option_bind].
    rewrite zlen_cons, zlen_app. rewrite (proj2 (Z.eqb_neq _ _)) by lia. unfold getNextRem.
    rewrite (proj2 (Z.eqb_neq thisLen 0)) by lia. rewrite rd_at. cbn [mbind option_bind].
    replace (zlen pre + zlen d + 1 - zlen pre) with (zlen d + 1) by lia. rewrite usub_small by lia.
    rewrite (proj2 (Z.eqb_neq (thisLen - (zlen d + 1)) 0)) by lia.
    replace (pre ++ zlen d :: (d ++ encode (cs ++ [c])) ++ g) with ((pre ++ zlen d :: d) ++ encode (cs ++ [c]) ++ g).
    2:{ rewrite <- !app_assoc. simpl. done. }
    replace (zlen pre + zlen d + 1) with (zlen (pre ++ zlen d :: d)) by (zl; lia).
    replace (zlen pre + (1 + (zlen d + zlen (encode (cs ++ [c]))))) with (zlen (pre ++ zlen d :: d) + zlen (encode (cs ++ [c]))) by (zl; lia).
    rewrite IH; [|done|lia|simpl in Hf; lia]. f_equal. rewrite !zlen_app, !zlen_cons, zlen_app. lia.
Qed.

Lemma encode_length_ge cs : (length cs <= length (encode cs))%nat.
Proof. induction cs as [|c cs IH]; simpl; [lia|]. rewrite length_app. lia. Qed.

Lemma getPrev_spec cs c g thisLen :
  Forall good (cs ++ [c]) -> zlen (encode (cs ++ [c])) <= thisLen < 2 ^ 64 ->
  getPrev (encode (cs ++ [c]) ++ g) 0 thisLen (zlen (encode (cs ++ [c]))) = Some (zlen (encode cs)).
Proof.
  intros Hg Hlen. unfold getPrev. pose proof (zlen_encode_snoc cs c) as E. pose proof (zlen_nonneg (encode cs)). pose proof (zlen_nonneg c).
  rewrite (proj2 (Z.eqb_neq 0 _)) by lia. rewrite (proj2 (Z.eqb_neq thisLen 0)) by lia.
  pose proof (getPrev_loop_spec (S (length (encode (cs ++ [c]) ++ g))) [] cs c g thisLen Hg Hlen) as H1.
  cbn [app] in H1. change (zlen []) with 0 in H1. rewrite !Z.add_0_l in H1. apply H1.
  rewrite length_app. pose proof (encode_length_ge (cs ++ [c])) as H2. rewrite length_app in H2. simpl in H2. lia.
Qed.

(** ** Unix paths *)

(** The components of a unix path, between slashes. *)
Fixpoint tokens (s : bytes) : list bytes :=
  match s with
  | [] => [[]]
  | c :: s =>
      if c =? SLASH then [] :: tokens s
      else match tokens s with t :: ts => (c :: t) :: ts | [] => [[c]] end
  end.

(** Following a unix path from a directory; [None]: it climbs above the root. *)
Fixpoint resolve (cs : list bytes) (ts : list bytes) : option (list bytes) :=
  match ts with
  | [] => Some cs
  | t :: ts =>
      if bool_decide (t = [] \/ t = [DOT]) then resolve cs ts
      else if bool_decide (t = [DOT; DOT]) then
        match cs with [] => None | _ => resolve (removelast cs) ts end
      else resolve (cs ++ [t]) ts
  end.

(** A two-character name that starts with a dot. *)
Definition hidden (t : bytes) : bool :=
  match t with [a; x] => (a =? DOT) && negb (x =? DOT) | _ => false end.

(** No such name but the last, and no name over 255 characters. *)
Fixpoint plain (ts : list bytes) : bool :=
  match ts with
  | [] => true
  | t :: ts => (length t <=? 255)%nat && (bool_decide (ts = []) || negb (hidden t)) && plain ts
  end.

Lemma tokens_slash s : tokens (SLASH :: s) = [] :: tokens s.
Proof. done. Qed.

Lemma tokens_nonempty s : tokens s <> [].
Proof. destruct s as [|c s]; simpl; [done|]. destruct (c =? SLASH); [done|]. by destruct (tokens s). Qed.

(** The first component of a path, and the rest. *)
Lemma tokens_first t r :
  (SLASH ∉ t) -> tokens (t ++ SLASH :: r) = t :: tokens r /\ tokens t = [t].
Proof.
  induction t as [|c t IH]; intros Hn; [done|]. apply not_elem_of_cons in Hn as [Hc Hn]. destruct (IH Hn) as [E1 E2].
  cbn [tokens app]. rewrite (proj2 (Z.eqb_neq c SLASH)) by congruence. by rewrite E1, E2.
Qed.

Lemma split_slash (s : bytes) :
  exists t r, (SLASH ∉ t) /\ (s = t /\ r = [] \/ exists r', r = SLASH :: r' /\ s = t ++ SLASH :: r').
Proof.
  induction s as [|c s IH].
  - exists [], []. split; [apply not_elem_of_nil|by left].
  - destruct (Z.eqb_spec c SLASH) as [->|Hc].
    + exists [], (SLASH :: s). split; [apply not_elem_of_nil|]. right. by exists s.
    + destruct IH as (t & r & Hn & H). exists (c :: t), r. split; [apply not_elem_of_cons; split; congruence|].
      destruct H as [[-> ->]|(r' & -> & ->)]; [by left|right; by exists r'].
Qed.

(** ** Create *)

Section create.
Context (E M : Z).

(** In the middle of Create: [cs] is built, [s] is still to be read. *)
Record building (st : cstate) (cs : list bytes) (s : bytes) : Prop := {
  b_buf : exists g, c_buf st = encode cs ++ g;
  b_size : zlen (c_buf st) = E;
  b_ptr : ptr st = zlen (encode cs);
  b_frp : frp st = s ++ [0];
  b_len : c_len st = zlen s;
  b_good : Forall good cs;
  b_np : zlen (encode cs) <= npLen st /\ npLen st + 2 * zlen s <= M;
  b_space : zlen (encode cs) + zlen s + (if bool_decide (s = [] \/ List.hd_error s = Some SLASH) then 0 else 1) <= E;
  b_chars : 0 ∉ s;
}.

Context (HM : M < 2 ^ 64).

Lemma building_bounds st cs s : building st cs s -> 0 <= zlen s < 2 ^ 63 /\ 0 <= npLen st < 2 ^ 64.
Proof. intros [_ _ _ _ _ _ [H1 H2] _ _]. pose proof (zlen_nonneg s). pose proof (zlen_nonneg (encode cs)). lia. Qed.

(** Skipping characters of the path. *)
Lemma skip_building st cs s n k :
  building st cs s -> (n <= length s)%nat -> k = Z.of_nat n ->
  zlen (encode cs) + zlen (drop n s) + 1 <= E ->
  building (skip st n) cs (drop n s) /\ c_len (skip st n) = zlen s - k.
Proof.
  intros Hb Hn -> Hs. destruct (building_bounds _ _ _ Hb) as [Hz _]. destruct Hb as [Hbuf Hsz Hp Hf Hl Hg Hnp Hsp Hch].
  assert (Hd : zlen (drop n s) = zlen s - Z.of_nat n) by (unfold zlen; rewrite length_drop; lia).
  assert (Hcl : c_len (skip st n) = zlen s - Z.of_nat n) by (cbn [c_len skip]; rewrite Hl; apply usub_small; unfold zlen in *; lia).
  split; [|done]. constructor; cbn [c_buf npLen ptr frp skip]; try done.
  - rewrite Hf. by apply drop_app_le.
  - by rewrite Hcl.
  - destruct Hnp. split; [done|]. lia.
  - revert Hs. clear. case_bool_decide; lia.
  - intros Hin. apply Hch. rewrite <- (take_drop n s). apply elem_of_app. by right.
Qed.

(** Dropping the last component. *)
Lemma pop_building st cs c s :
  building st (cs ++ [c]) s ->
  exists n, getPrev (c_buf st) 0 (npLen st) (ptr st) = Some (zlen (encode cs)) /\
    rd (c_buf st) (zlen (encode cs)) = Some (zlen c) /\
    n = usub (npLen st) (usub (zlen c) 1) /\
    building (mkC (c_buf st) n (zlen (encode cs)) (frp st) (c_len st)) cs s.
Proof.
  intros Hb. pose proof (building_bounds _ _ _ Hb) as [_ Hn]. destruct Hb as [[g Hbuf] Hsz Hp Hf Hl Hg Hnp Hsp Hch].
  pose proof (zlen_encode_snoc cs c) as El. pose proof (zlen_nonneg (encode cs)).
  apply Forall_app in Hg as Hg'. destruct Hg' as [Hg1 Hg2]. inversion Hg2 as [|? ? Hc _]; subst.
  assert (Hcl : 1 <= zlen c <= 255) by (unfold zlen; destruct Hc; lia).
  exists (npLen st - (zlen c - 1)). split.
  { rewrite Hp, Hbuf. apply getPrev_spec; [done|]. lia. }
  split; [rewrite Hbuf, encode_app, <- app_assoc; apply rd_at|].
  split; [rewrite (usub_small (zlen c) 1) by lia; rewrite usub_small by lia; done|].
  constructor; cbn [c_buf npLen ptr frp c_len]; try done.
  - exists (encode [c] ++ g). by rewrite Hbuf, encode_app, <- app_assoc.
  - lia.
  - revert Hsp. rewrite El. clear - Hcl. case_bool_decide; lia.
Qed.

End create.

(** What is left to do after some characters: the same result [R]. *)
Definition leads (cs : list bytes) (s : bytes) (R : list bytes) : Prop :=
  resolve cs (tokens s) = Some R /\ plain (tokens s) = true.

Lemma plain_tail t ts : plain (t :: ts) = true -> plain ts = true.
Proof. simpl. intros H. by apply andb_true_iff in H as [_ ?]. Qed.

Lemma leads_slash cs s R : leads cs (SLASH :: s) R -> leads cs s R.
Proof. intros [H1 H2]. split; [exact H1|exact (plain_tail _ _ H2)]. Qed.

(** A component that is skipped. *)
Lemma leads_dot cs s R : leads cs (DOT :: s) R -> s = [] \/ List.hd_error s = Some SLASH ->
  leads cs (tail s) R.
Proof.
  intros [H1 H2] [->|Hs]; [done|]. destruct s as [|c s]; [done|]. injection Hs as ->. simpl. split; [exact H1|].
  exact (plain_tail _ _ H2).
Qed.

(** A component that pops the last one. *)
Lemma leads_dotdot cs s R : leads cs (DOT :: DOT :: s) R -> s = [] \/ List.hd_error s = Some SLASH ->
  exists ds d, cs = ds ++ [d] /\ leads ds s R.
Proof.
  intros [H1 H2] Hs. destruct cs as [|d ds _] using rev_ind.
  { destruct Hs as [->|Hs]; [done|]. destruct s as [|c s]; [done|]. injection Hs as ->. done. }
  exists ds, d. split; [done|].
  assert (Hne : exists c cs', ds ++ [d] = c :: cs') by (destruct ds; eauto). destruct Hne as (c & cs' & Ec).
  destruct Hs as [->|Hs]; [|destruct s as [|c' s]; [done|]; injection Hs as ->]; (split; [|done || exact (plain_tail _ _ H2)]);
    revert H1; cbn; rewrite Ec; rewrite <- Ec, removelast_last; done.
Qed.

Section noise.
Context (E M : Z) (HM : M < 2 ^ 64).

Lemma noise_dots_spec st cs s R :
  building E M st cs s -> s <> [] -> leads cs s R ->
  exists st' cs' s', noise_dots st = Some st' /\ building E M st' cs' s' /\ leads cs' s' R /\
    (st' = st /\ cs' = cs /\ s' = s /\ (forall r, s <> [DOT] /\ s <> DOT :: SLASH :: r /\ s <> [DOT; DOT] /\ s <> DOT :: DOT :: SLASH :: r)
     \/ zlen s' < zlen s).
Proof.
  intros Hb Hs Hl. destruct s as [|c0 s1]; [done|]. pose proof (b_frp _ _ _ _ _ Hb) as Hf.
  unfold noise_dots. rewrite Hf. cbn [lookup list_lookup app mbind option_bind].
  destruct (Z.eqb_spec c0 DOT) as [->|Hc0]; [|exists st, cs, (c0 :: s1); split_and!; try done; left; split_and!; try done; intros r; split_and!; congruence].
  assert (Hsp : zlen (encode cs) + zlen (DOT :: s1) + 1 <= E).
  { pose proof (b_space _ _ _ _ _ Hb) as H. rewrite bool_decide_false in H by (intros [?|?]; done). done. }
  pose proof (zlen_nonneg s1) as Hs1. rewrite zlen_cons in Hsp.
  destruct s1 as [|c1 s2].
  { cbn [app lookup list_lookup mbind option_bind]. change (0 =? 0) with true. cbn match.
    destruct (skip_building E M HM st cs [DOT] 1 1 Hb) as [Hb' _]; [simpl; lia|done|simpl; change (zlen []) with 0; lia|].
    exists (skip st 1), cs, []. split; [done|]. split; [done|]. split; [by apply (leads_dot cs []); [|left]|by right]. }
  pose proof (b_chars _ _ _ _ _ Hb) as H0. rewrite !not_elem_of_cons in H0. destruct H0 as (_ & Hc1 & Hs2).
  cbn [app lookup list_lookup mbind option_bind]. rewrite (proj2 (Z.eqb_neq c1 0)) by congruence.
  rewrite zlen_cons in Hsp. pose proof (zlen_nonneg s2).
  destruct (Z.eqb_spec c1 SLASH) as [->|Hcs].
  { destruct (skip_building E M HM st cs (DOT :: SLASH :: s2) 2 2 Hb) as [Hb' _]; [simpl; lia|done|cbn [drop]; change (drop 0 s2) with s2; lia|].
    exists (skip st 2), cs, s2. split; [done|]. split; [done|]. split; [|right; rewrite !zlen_cons; lia].
    apply (leads_dot cs (SLASH :: s2)); [done|by right]. }
  assert (Hpop : c1 = DOT -> s2 = [] \/ List.hd_error s2 = Some SLASH ->
    exists st' cs' s', (p ← getPrev (c_buf st) 0 (npLen st) (ptr st);
        nmLen ← rd (c_buf st) p;
        Some (skip (mkC (c_buf st) (usub (npLen st) (usub nmLen 1)) p (frp st) (c_len st)) 2)) = Some st' /\
      building E M st' cs' s' /\ leads cs' s' R /\
      (st' = st /\ cs' = cs /\ s' = DOT :: c1 :: s2 /\ (forall r, DOT :: c1 :: s2 <> [DOT] /\ DOT :: c1 :: s2 <> DOT :: SLASH :: r /\
        DOT :: c1 :: s2 <> [DOT; DOT] /\ DOT :: c1 :: s2 <> DOT :: DOT :: SLASH :: r) \/ zlen s' < zlen (DOT :: c1 :: s2))).
  { intros -> Hend. destruct (leads_dotdot cs s2 R Hl Hend) as (ds & d & -> & Hl').
    destruct (pop_building E M HM _ _ _ _ Hb) as (n & -> & Hrd & -> & Hb'). cbn [mbind option_bind]. rewrite Hrd. cbn [mbind option_bind].
    destruct (skip_building E M HM _ ds (DOT :: DOT :: s2) 2 2 Hb') as [Hb'' _]; [simpl; lia|done| |].
    { pose proof (zlen_encode_snoc ds d). pose proof (zlen_nonneg d). cbn [drop]. change (drop 0 s2) with s2. lia. }
    eexists _, ds, s2. split; [reflexivity|]. split; [exact Hb''|]. split; [done|]. right. rewrite !zlen_cons. lia. }
  rewrite Hf in Hpop. destruct s2 as [|c2 s3]; cbn [app lookup list_lookup mbind option_bind] in Hpop |- *.
  - change (0 =? 0) with true. change (0 =? SLASH) with false. rewrite andb_true_r, orb_false_r.
    destruct (Z.eqb_spec c1 DOT) as [->|Hd]; [apply Hpop; [done|by left]|].
    exists st, cs, [DOT; c1]. split_and!; try done. left. split_and!; try done. intros r. split_and!; congruence.
  - apply not_elem_of_cons in Hs2 as [Hc2 _]. rewrite (proj2 (Z.eqb_neq c2 0)) by congruence. rewrite andb_false_r, orb_false_l.
    destruct (Z.eqb_spec c2 SLASH) as [->|Hc2s].
    + destruct (decide (c1 = DOT)) as [->|Hd]; [apply Hpop; [done|by right]|]. exfalso. destruct Hl as [_ Hpl].
      revert Hpl. cbn [tokens]. rewrite (proj2 (Z.eqb_neq c1 SLASH)) by done. cbn. rewrite (proj2 (Z.eqb_neq c1 DOT)) by done.
      rewrite bool_decide_false by apply tokens_nonempty. done.
    + exists st, cs, (DOT :: c1 :: c2 :: s3). split_and!; try done. left. split_and!; try done. intros r. split_and!; congruence.
Qed.

(** Where the noise loop stops with characters left: at the first character of
    a component that names something. *)
Definition clean (s : bytes) : Prop :=
  s <> [] /\ List.hd_error s <> Some SLASH /\
  forall r, s <> [DOT] /\ s <> DOT :: SLASH :: r /\ s <> [DOT; DOT] /\ s <> DOT :: DOT :: SLASH :: r.

Lemma noise_slash_spec st cs s R :
  building E M st cs s -> leads cs s R ->
  exists st' s', noise_slash st = Some st' /\ building E M st' cs s' /\ leads cs s' R /\
    (st' = st /\ s' = s /\ List.hd_error s <> Some SLASH \/ zlen s' < zlen s).
Proof.
  intros Hb Hl. unfold noise_slash. rewrite (b_len _ _ _ _ _ Hb). destruct s as [|c s].
  - change (zlen [] =? 0) with true. exists st, []. split; [done|]. split; [done|]. split; [done|]. by left.
  - rewrite zlen_cons. pose proof (zlen_nonneg s). rewrite (proj2 (Z.eqb_neq _ 0)) by lia.
    rewrite (b_frp _ _ _ _ _ Hb). cbn [app lookup list_lookup mbind option_bind].
    destruct (Z.eqb_spec c SLASH) as [->|Hc].
    + destruct (skip_building E M HM st cs (SLASH :: s) 1 1 Hb) as [Hb' _]; [simpl; lia|done| |].
      { pose proof (b_space _ _ _ _ _ Hb) as Hsp. rewrite bool_decide_true in Hsp by by right. rewrite zlen_cons in Hsp.
        cbn [drop]. change (drop 0 s) with s. lia. }
      exists (skip st 1), s. split; [done|]. split; [done|]. split; [by apply leads_slash|]. right. lia.
    + exists st, (c :: s). split; [done|]. split; [done|]. split; [done|]. left. split_and!; try done. simpl. congruence.
Qed.

Lemma noise_spec fuel st cs s R :
  building E M st cs s -> s <> [] -> leads cs s R -> zlen s < Z.of_nat fuel ->
  exists st' cs' s', noise fuel st = Some st' /\ building E M st' cs' s' /\ leads cs' s' R /\ zlen s' <= zlen s /\
    (s' = [] \/ clean s').
Proof.
  revert st cs s. induction fuel as [|fuel IH]; intros st cs s Hb Hs Hl Hf; [pose proof (zlen_nonneg s); lia|].
  destruct (noise_dots_spec st cs s R Hb Hs Hl) as (st1 & cs1 & s1 & E1 & Hb1 & Hl1 & H1).
  destruct (noise_slash_spec st1 cs1 s1 R Hb1 Hl1) as (st2 & s2 & E2 & Hb2 & Hl2 & H2).
  cbn [noise]. rewrite E1. cbn [mbind option_bind]. rewrite E2. cbn [mbind option_bind].
  assert (Hle : zlen s2 <= zlen s1 <= zlen s) by (destruct H1 as [(_ & _ & -> & _)|?], H2 as [(_ & -> & _)|?]; lia).
  rewrite (b_len _ _ _ _ _ Hb), (b_len _ _ _ _ _ Hb2).
  destruct (Z.eqb_spec (zlen s2) 0) as [E0|E0]; cbn [negb andb].
  - exists st2, cs1, s2. split_and!; try done; [lia|]. left. destruct s2; [done|]. rewrite zlen_cons in E0. pose proof (zlen_nonneg s2). lia.
  - destruct (Z.eqb_spec (zlen s) (zlen s2)) as [Eq|Hne]; cbn [negb].
    + exists st2, cs1, s2. split_and!; try done; [lia|]. right.
      destruct H1 as [(-> & -> & -> & Hd)|?]; [|lia]. destruct H2 as [(-> & -> & Hsl)|?]; [|lia]. done.
    + destruct (IH st2 cs1 s2 Hb2) as (st' & cs' & s' & E3 & Hb3 & Hl3 & Hle3 & Hend); [by intros ->|done|lia|].
      exists st', cs', s'. split_and!; try done. lia.
Qed.

End noise.

(** ** Copying a component *)

Definition stops (r : bytes) : Prop := r = [] \/ List.hd_error r = Some SLASH.

Lemma copy_spec fuel E pre d g t r n :
  SLASH ∉ t -> stops r -> zlen d + zlen t <= 255 -> zlen t + zlen r < 2 ^ 64 ->
  zlen (pre ++ zlen d :: d ++ g) = E -> zlen pre + 1 + zlen d + zlen t <= E -> zlen t < Z.of_nat fuel ->
  exists g', zlen (pre ++ zlen (d ++ t) :: (d ++ t) ++ g') = E /\
    copy fuel E (zlen pre + 1 + zlen d) (mkC (pre ++ zlen d :: d ++ g) n (zlen pre) (t ++ r ++ [0]) (zlen t + zlen r))
    = Some (Copied (mkC (pre ++ zlen (d ++ t) :: (d ++ t) ++ g') n (zlen pre) (r ++ [0]) (zlen r))).
Proof.
  revert fuel d g. induction t as [|c t IH]; intros fuel d g Hn Hr H255 H64 HE Hsp Hf; (destruct fuel as [|fuel]; [pose proof (zlen_nonneg []); unfold zlen in Hf; simpl in Hf; lia|]).
  - exists g. rewrite app_nil_r. split; [done|]. cbn [copy c_len frp app]. change (zlen []) with 0. rewrite Z.add_0_l.
    destruct r as [|c r]; [done|]. destruct Hr as [Hr|Hr]; [done|]. injection Hr as ->. rewrite zlen_cons.
    pose proof (zlen_nonneg r). rewrite (proj2 (Z.eqb_neq _ 0)) by lia. done.
  - apply not_elem_of_cons in Hn as [Hc Hn]. rewrite zlen_cons in *. pose proof (zlen_nonneg t). pose proof (zlen_nonneg r).
    pose proof (zlen_nonneg d). pose proof (zlen_nonneg pre).
    cbn [copy c_len frp app c_buf ptr]. rewrite (proj2 (Z.eqb_neq _ 0)) by lia. cbn [lookup list_lookup mbind option_bind].
    rewrite (proj2 (Z.eqb_neq c SLASH)) by congruence. rewrite rd_at. cbn [mbind option_bind].
    rewrite (proj2 (Z.ltb_ge 254 _)) by lia. rewrite (proj2 (Z.leb_gt E _)) by lia.
    destruct g as [|x g]; [rewrite zlen_app, zlen_cons, app_nil_r in HE; lia|].
    rewrite (app_comm_cons d (x :: g) (zlen d)). rewrite app_assoc.
    rewrite (wr_at (pre ++ zlen d :: d) [x] g [c]); [|rewrite zlen_app, zlen_cons; lia|done]. cbn [mbind option_bind].
    replace ((pre ++ zlen d :: d) ++ [c] ++ g) with (pre ++ [zlen d] ++ (d ++ [c] ++ g)) by (by rewrite <- app_assoc).
    rewrite (wr_at pre [zlen d] (d ++ [c] ++ g)) by done. unfold skip. cbn [mbind option_bind c_buf npLen ptr frp c_len].
    replace ((zlen d + 1) mod 256) with (zlen (d ++ [c])) by (rewrite zlen_app; change (zlen [c]) with 1; rewrite Z.mod_small; lia).
    replace (usub (1 + zlen t + zlen r) (Z.of_nat 1)) with (zlen t + zlen r) by (rewrite usub_small; lia).
    change (drop 1 (c :: t ++ r ++ [0])) with (t ++ r ++ [0]).
    replace (zlen pre + 1 + zlen d + 1) with (zlen pre + 1 + zlen (d ++ [c])) by (rewrite zlen_app; change (zlen [c]) with 1; lia).
    change ([zlen (d ++ [c])] ++ d ++ [c] ++ g) with (zlen (d ++ [c]) :: d ++ [c] ++ g). rewrite (app_assoc d [c] g).
    destruct (IH fuel (d ++ [c]) g) as (g' & Hg' & Hcp); try done.
    + rewrite zlen_app. change (zlen [c]) with 1. lia.
    + lia.
    + rewrite <- HE, !zlen_app, !zlen_cons, !zlen_app. change (zlen [c]) with 1. rewrite zlen_cons. lia.
    + rewrite zlen_app. change (zlen [c]) with 1. lia.
    + lia.
    + exists g'. replace ((d ++ [c]) ++ t) with (d ++ c :: t) in Hg', Hcp by (by rewrite <- app_assoc). done.
Qed.

Lemma leads_push cs t r R :
  leads cs (t ++ r) R -> SLASH ∉ t -> stops r -> t <> [] -> t <> [DOT] -> t <> [DOT; DOT] ->
  leads (cs ++ [t]) r R /\ (length t <= 255)%nat.
Proof.
  intros [H1 H2] Hn Hr Ht1 Ht2 Ht3. assert (Hts : exists ts, tokens (t ++ r) = t :: ts /\
    resolve (cs ++ [t]) ts = resolve (cs ++ [t]) (tokens r) /\ (plain ts = true -> plain (tokens r) = true)).
  { destruct r as [|c r].
    - exists []. rewrite app_nil_r. split; [by apply tokens_first|done].
    - destruct Hr as [?|Hr]; [done|]. injection Hr as ->. exists (tokens r). split; [by apply tokens_first|]. split; [done|].
      intros Hp. cbn [tokens plain]. change (SLASH =? SLASH) with true. cbn match. cbn [plain]. rewrite Hp. rewrite andb_true_r.
      destruct (bool_decide (tokens r = [])); done. }
  destruct Hts as (ts & Et & E1 & E2). rewrite Et in H1, H2. cbn [resolve plain] in H1, H2.
  rewrite bool_decide_false in H1 by (intros [?|?]; done). rewrite bool_decide_false in H1 by done.
  apply andb_true_iff in H2 as [H2 H3]. apply andb_true_iff in H2 as [H2 _]. apply Nat.leb_le in H2.
  split; [|done]. split; [by rewrite <- E1|by apply E2].
Qed.

(** The first component at a clean place names something. *)
Lemma clean_first s : clean s ->
  exists t r, s = t ++ r /\ (SLASH ∉ t) /\ stops r /\ t <> [] /\ t <> [DOT] /\ t <> [DOT; DOT].
Proof.
  intros (Hne & Hhd & Hd). destruct (split_slash s) as (t & r & Hn & Hs). exists t, r.
  assert (Es : s = t ++ r) by (destruct Hs as [[-> ->]|(r' & -> & ->)]; [by rewrite app_nil_r|done]).
  split; [done|]. split; [done|]. split; [destruct Hs as [[_ ->]|(r' & -> & _)]; [by left|by right]|].
  subst s. split_and!; intros ->; cbn [app] in *.
  - destruct Hs as [[? ->]|(r' & -> & _)]; done.
  - destruct Hs as [[? ->]|(r' & -> & _)]; [destruct (Hd []); done|destruct (Hd r') as (_ & ? & _); done].
  - destruct Hs as [[? ->]|(r' & -> & _)]; [destruct (Hd []) as (_ & _ & ? & _); done|destruct (Hd r') as (_ & _ & _ & ?); done].
Qed.

Section main_loop.
Context (E M : Z) (HM : M < 2 ^ 64).

(** The component [t] has been copied behind [cs]. *)
Lemma push_building st cs t r g :
  building E M st cs (t ++ r) -> SLASH ∉ t -> stops r -> (1 <= length t <= 255)%nat ->
  zlen (encode (cs ++ [t]) ++ g) = E ->
  building E M (mkC (encode (cs ++ [t]) ++ g) (uadd (uadd (npLen st) (zlen t)) 1) (zlen (encode (cs ++ [t]))) (r ++ [0]) (zlen r))
    (cs ++ [t]) r /\ (r <> [] -> g <> []).
Proof.
  intros Hb Hn Hr Ht Hg. destruct (building_bounds _ _ HM _ _ _ Hb) as [_ Hnp0].
  destruct Hb as [_ Hsz Hp Hf Hl Hgood [Hnp1 Hnp2] Hsp Hch]. rewrite zlen_app in Hnp2, Hsp.
  pose proof (zlen_encode_snoc cs t) as El. pose proof (zlen_nonneg r). pose proof (zlen_nonneg (encode cs)).
  assert (Htl : zlen t = Z.of_nat (length t)) by done.
  rewrite bool_decide_false in Hsp.
  2:{ intros [?|Hh]; destruct t as [|c t]; simpl in *; try done; try lia. injection Hh as ->. apply Hn. by left. }
  assert (Hsp' : zlen (encode (cs ++ [t])) + zlen r <= E) by lia.
  split.
  - assert (Hu : uadd (uadd (npLen st) (zlen t)) 1 = npLen st + zlen t + 1) by (rewrite (uadd_small (npLen st)) by lia; apply uadd_small; lia).
    constructor; cbn [c_buf npLen ptr frp c_len]; try done.
    + by exists g.
    + apply Forall_app. split; [done|]. by constructor.
    + rewrite Hu. lia.
    + rewrite bool_decide_true by done. lia.
    + intros Hin. apply Hch. apply elem_of_app. by right.
  - intros Hr0 ->. rewrite app_nil_r in Hg. destruct r; [done|]. rewrite zlen_cons in Hsp'. pose proof (zlen_nonneg r). lia.
Qed.

Lemma Create_loop_spec fuel st cs s R :
  building E M st cs s -> leads cs s R -> zlen s < Z.of_nat fuel ->
  exists st', Create_loop fuel E st = Some (Copied st') /\ building E M st' R [].
Proof.
  revert st cs s. induction fuel as [|fuel IH]; intros st cs s Hb Hl Hf; [pose proof (zlen_nonneg s); lia|].
  cbn [Create_loop]. rewrite (b_len _ _ _ _ _ Hb). destruct s as [|c0 s0].
  { exists st. split; [done|]. destruct Hl as [Hl _]. injection Hl as <-. done. }
  set (s := c0 :: s0) in *. assert (Hs0 : zlen s <> 0) by (unfold s; rewrite zlen_cons; pose proof (zlen_nonneg s0); lia).
  rewrite (proj2 (Z.eqb_neq _ _) Hs0).
  destruct (noise_spec E M HM (S (S (length (frp st)))) st cs s R Hb ltac:(done) Hl) as (st1 & cs1 & s1 & -> & Hb1 & Hl1 & Hle & Hend).
  { rewrite (b_frp _ _ _ _ _ Hb), length_app. unfold zlen. lia. }
  cbn [mbind option_bind]. rewrite (b_len _ _ _ _ _ Hb1). destruct Hend as [->|Hcl].
  { exists st1. split; [done|]. destruct Hl1 as [Hl1 _]. injection Hl1 as <-. done. }
  destruct (clean_first s1 Hcl) as (t & r & -> & Hn & Hr & Ht1 & Ht2 & Ht3).
  destruct (leads_push _ _ _ _ Hl1 Hn Hr Ht1 Ht2 Ht3) as [Hl2 H255].
  assert (Htl : (1 <= length t)%nat) by (destruct t; [done|simpl; lia]).
  pose proof Hb1 as [[g Hbuf] Hsz Hp Hfr _ _ [Hnp0 Hnp] Hsp _]. pose proof (zlen_nonneg r). pose proof (zlen_nonneg (encode cs1)).
  assert (Hz : 1 <= zlen t <= 255) by (unfold zlen; lia). rewrite zlen_app in *.
  assert (Hsp' : zlen (encode cs1) + 1 + zlen t + zlen r <= E).
  { rewrite bool_decide_false in Hsp; [lia|]. intros [?|Hh]; destruct t as [|c t]; simpl in *; try done. injection Hh as ->. apply Hn. by left. }
  rewrite (proj2 (Z.eqb_neq (zlen t + zlen r) 0)) by lia. rewrite Hp, (proj2 (Z.leb_gt E _)) by lia.
  destruct g as [|x g]; [rewrite Hbuf, app_nil_r in Hsz; lia|]. rewrite Hbuf.
  rewrite (wr_at (encode cs1) [x] g [0]) by done. cbn [mbind option_bind]. rewrite Hfr, <- app_assoc.
  destruct (copy_spec (S (length (t ++ r ++ [0]))) E (encode cs1) [] g t r (npLen st1)) as (g' & Hg' & Hcp); try done.
  { change (zlen []) with 0. lia. } { lia. }
  { rewrite <- Hsz, Hbuf, !zlen_app, !zlen_cons. done. }
  { change (zlen []) with 0. lia. }
  { rewrite length_app. unfold zlen. lia. }
  change (zlen []) with 0 in Hcp. rewrite Z.add_0_r in Hcp. cbn [app] in Hcp, Hg' |- *. rewrite Hcp. cbn [mbind option_bind c_buf ptr].
  rewrite rd_at. cbn [mbind option_bind npLen c_len frp]. rewrite (proj2 (Z.eqb_neq (zlen t) 0)) by lia.
  assert (Eb : forall g0, encode cs1 ++ zlen t :: t ++ g0 = encode (cs1 ++ [t]) ++ g0).
  { intros g0. rewrite encode_app, <- app_assoc. simpl. by rewrite app_nil_r. }
  rewrite Eb in *. replace (zlen (encode cs1) + zlen t + 1) with (zlen (encode (cs1 ++ [t]))) by apply zlen_encode_snoc.
  destruct (push_building st1 cs1 t r g' Hb1 Hn Hr ltac:(lia) Hg') as [Hb2 Hg2].
  assert (Hfu : zlen r < Z.of_nat fuel) by lia.
  destruct (Z.eqb_spec (zlen r) 0) as [Er|Er]; [by apply (IH _ (cs1 ++ [t]) r)|].
  rewrite (proj2 (Z.leb_gt E _)) by (rewrite zlen_encode_snoc; lia).
  destruct g' as [|x' g']; [by destruct Hg2; [intros ->|]|].
  rewrite (wr_at (encode (cs1 ++ [t])) [x'] g' [0]) by done. cbn [mbind option_bind].
  apply (IH _ (cs1 ++ [t]) r); [|done|done].
  apply push_building; [done|done|done|lia|]. rewrite <- Hg', !zlen_app, !zlen_cons. done.
Qed.

End main_loop.

(** ** Theorems on Create *)

(** Resolving keeps components whole. *)
Lemma Create_result alloc u cs R :
  (forall n, 0 <= n -> zlen (alloc n) = n) ->
  Forall good cs -> 0 ∉ u -> zlen (encode cs) + 2 * zlen u + 2 < 2 ^ 64 ->
  leads cs u R ->
  Create alloc u (encode cs) 0 =
    Some (if bool_decide (R = []) then None else Some (encode R), zlen (encode R)).
Proof.
  intros Ha Hg Hu H64 Hl. pose proof (zlen_nonneg u). pose proof (zlen_nonneg (encode cs)).
  unfold Create. change (0 =? 0) with true. cbn [negb andb].
  assert (HE : uadd (uadd (zlen u) 1) (zlen (encode cs)) = zlen u + 1 + zlen (encode cs)).
  { rewrite (uadd_small (zlen u)) by lia. apply uadd_small. lia. }
  rewrite HE. set (E := zlen u + 1 + zlen (encode cs)). pose proof (Ha E ltac:(lia)) as HaE.
  assert (Hw : exists g, (np ← wr (alloc E) 0 [0]; wr np 0 (encode cs)) = Some (encode cs ++ g) /\ zlen (encode cs ++ g) = E).
  { destruct (alloc E) as [|x b] eqn:Eb; [change (zlen []) with 0 in HaE; lia|].
    pose proof (wr_at [] [x] b [0] 0 eq_refl eq_refl) as W1. cbn [app] in W1. rewrite W1. cbn [mbind option_bind].
    exists (drop (length (encode cs)) (0%Z :: b)).
    assert (Hlen : (length (encode cs) <= length (0%Z :: b))%nat) by (rewrite zlen_cons in HaE; unfold zlen in *; simpl in *; lia).
    pose proof (wr_at [] (take (length (encode cs)) (0%Z :: b)) (drop (length (encode cs)) (0%Z :: b)) (encode cs) 0 eq_refl) as W2.
    cbn [app] in W2. rewrite take_drop in W2. rewrite W2 by (rewrite length_take; lia). split; [done|].
    rewrite zlen_app, zlen_drop by done. rewrite !zlen_cons in *. change (Z.of_nat (length (encode cs))) with (zlen (encode cs)). lia. }
  destruct Hw as (g & Hw & HgE). destruct (wr (alloc E) 0 [0]) as [np|]; [|done]. cbn [mbind option_bind] in *. rewrite Hw. cbn [mbind option_bind].
  destruct (Create_loop_spec E (zlen (encode cs) + 2 * zlen u) ltac:(lia) (S (S (length u)))
    (mkC (encode cs ++ g) (zlen (encode cs)) (zlen (encode cs)) (u ++ [0]) (zlen u)) cs u R) as (st' & -> & Hb').
  - constructor; cbn [c_buf npLen ptr frp c_len]; try done; [by exists g|]. unfold E. case_bool_decide; lia.
  - done.
  - unfold zlen. lia.
  - cbn [mbind option_bind]. destruct Hb' as [[g' Hbuf] Hsz Hp _ _ Hgood _ Hsp _].
    rewrite bool_decide_true in Hsp by by left. change (zlen []) with 0 in Hsp. rewrite Hp.
    destruct R as [|c R].
    + change (zlen (encode [])) with 0. rewrite (proj2 (Z.ltb_lt 0 E)) by lia. done.
    + rewrite bool_decide_false by done. pose proof (zlen_encode_cons c R). pose proof (zlen_nonneg c). pose proof (zlen_nonneg (encode R)).
      destruct (Z.ltb_spec (zlen (encode (c :: R))) E) as [Hlt|Hge].
      * rewrite (proj2 (Z.eqb_neq _ 0)) by lia. rewrite Hbuf. rewrite (sub_at [] (encode (c :: R)) g') by done. done.
      * rewrite (proj2 (Z.leb_le _ _)) by lia. cbn [assertK mbind option_bind]. rewrite Hbuf.
        assert (g' = []) as -> by (rewrite Hbuf, zlen_app in Hsz; unfold zlen in *; destruct g'; [done|simpl in *; lia]).
        by rewrite app_nil_r.
Qed.

(** ** PathFromBuf *)

Lemma good_zlen c : good c <-> 1 <= zlen c <= 255.
Proof. unfold good, zlen. lia. Qed.

Lemma encode_inv n b cs : encode cs = n :: b -> exists c ds, cs = c :: ds /\ n = zlen c /\ b = c ++ encode ds.
Proof. destruct cs as [|c ds]; [done|]. intros [= <- <-]. by exists c, ds. Qed.

Lemma usub_uadd base o : 0 <= o < 2 ^ 64 -> usub (uadd base o) base = o.
Proof.
  intros Ho. unfold usub, uadd, uwrap. rewrite Zminus_mod_idemp_l. replace (base + o - base) with o by lia. by apply Z.mod_small.
Qed.

(** The bytes are those of a path. *)
Definition is_path (b : bytes) : Prop := exists cs, Forall good cs /\ encode cs = b.

Lemma is_path_cons c b : good c -> is_path (zlen c :: c ++ b) <-> is_path b.
Proof.
  intros Hc. split.
  - intros (cs & Hg & Hb). apply encode_inv in Hb as (c' & ds & -> & E & Hb). inversion Hg; subst.
    apply app_inj_1 in Hb as [-> ->]; [by exists ds|]. unfold zlen in E. lia.
  - intros (cs & Hg & <-). exists (c :: cs). split; [by constructor|done].
Qed.

(** Past the end of the buffer, or at the null pointer, the answer is EINVAL. *)
Lemma PathFromBuf_over fuel base b len p : len < usub p base -> PathFromBuf_loop (S fuel) base b len p = Some (_SERROR 1160 0 EINVAL).
Proof. intros H. cbn [PathFromBuf_loop]. by rewrite (proj2 (Z.ltb_lt _ _) H). Qed.

Lemma PathFromBuf_loop_spec fuel base pre b :
  0 < base -> base + zlen (pre ++ b) + 256 < 2 ^ 64 -> Forall (fun x => 0 <= x < 256) b -> (length b + 1 < fuel)%nat ->
  exists r, PathFromBuf_loop fuel base (pre ++ b) (zlen (pre ++ b)) (uadd base (zlen pre)) = Some r /\
    (r = 0 /\ is_path b \/ r = _SERROR 1160 0 EINVAL /\ ~ is_path b).
Proof.
  intros Hbase. revert pre b. induction fuel as [|fuel IH]; intros pre b Hlen Hby Hf; [lia|].
  pose proof (zlen_nonneg pre). pose proof (zlen_nonneg b). rewrite zlen_app in Hlen.
  cbn [PathFromBuf_loop]. rewrite usub_uadd by lia. rewrite zlen_app, (proj2 (Z.ltb_ge _ _)) by lia.
  destruct b as [|n b].
  { change (zlen []) with 0. rewrite Z.add_0_r, Z.eqb_refl. exists 0. split; [done|]. left. split; [done|by exists []]. }
  rewrite zlen_cons in *. pose proof (zlen_nonneg b). rewrite (proj2 (Z.eqb_neq _ _)) by lia. rewrite rd_at. cbn [mbind option_bind].
  unfold getNext. inversion Hby as [|? ? Hn Hby']; subst. destruct (Z.eqb_spec n 0) as [->|Hn0]; cbn [mbind option_bind].
  { destruct fuel as [|fuel]; [simpl in Hf; lia|]. eexists. split.
    - apply PathFromBuf_over. unfold usub, uwrap. replace (0 - base) with (2 ^ 64 - base + (-1) * 2 ^ 64) by lia.
      rewrite Z.mod_add, Z.mod_small by lia. lia.
    - right. split; [done|]. intros (cs & Hg & Hb). apply encode_inv in Hb as (c & ds & -> & E & _). inversion Hg as [|? ? Hc _]; subst.
      apply good_zlen in Hc. lia. }
  rewrite rd_at. cbn [mbind option_bind]. destruct (decide (n <= zlen b)) as [Hle|Hgt].
  - assert (Hsp : exists c b', b = c ++ b' /\ zlen c = n).
    { exists (take (Z.to_nat n) b), (drop (Z.to_nat n) b). rewrite take_drop. split; [done|]. unfold zlen in *. rewrite length_take. lia. }
    destruct Hsp as (c & b' & -> & Hc). subst n. rewrite zlen_app in Hlen. destruct (IH (pre ++ zlen c :: c) b') as (r & Hr & Hres).
    + zl. lia.
    + by apply Forall_app in Hby' as [_ ?].
    + simpl in Hf. rewrite length_app in Hf. unfold zlen in Hn0. lia.
    + exists r. rewrite is_path_cons by (apply good_zlen; lia). split; [|done]. rewrite <- Hr, <- app_assoc. cbn [app].
      rewrite !zlen_app, !zlen_cons, !zlen_app. repeat first [lia | f_equal].
  - destruct fuel as [|fuel]; [simpl in Hf; lia|]. eexists. split.
    + apply PathFromBuf_over. rewrite usub_uadd by lia. lia.
    + right. split; [done|]. intros (cs & _ & Hb). apply encode_inv in Hb as (c & ds & _ & -> & ->). rewrite zlen_app in Hgt.
      pose proof (zlen_nonneg (encode ds)). lia.
Qed.

(** ** getUPath *)

(** The unix form of a path. *)
Fixpoint text (cs : list bytes) : bytes := match cs with [] => [] | c :: cs => SLASH :: c ++ text cs end.

Lemma text_zlen cs : zlen (text cs) = zlen (encode cs).
Proof. induction cs as [|c cs IH]; simpl; [done|]. rewrite !zlen_cons, !zlen_app. lia. Qed.

Lemma text_app cs ds : text (cs ++ ds) = text cs ++ text ds.
Proof. induction cs as [|c cs IH]; simpl; [done|]. by rewrite IH, <- app_assoc. Qed.

(** As far as the components fit, they are written. *)
Lemma getUPath_loop_spec pre cs ds done_ g fuel :
  Forall good cs -> zlen (encode cs) <= zlen g -> zlen g < 2 ^ 63 -> (length cs < fuel)%nat ->
  exists g' fuel', (fuel = length cs + fuel')%nat /\ zlen g' = zlen g - zlen (encode cs) /\
    getUPath_loop fuel (pre ++ encode (cs ++ ds)) (zlen pre) (zlen pre + zlen (encode (cs ++ ds))) None
      (done_ ++ g) (zlen done_) (zlen g) =
    getUPath_loop fuel' (pre ++ encode (cs ++ ds)) (zlen pre + zlen (encode cs)) (zlen pre + zlen (encode (cs ++ ds))) None
      (done_ ++ text cs ++ g') (zlen done_ + zlen (encode cs)) (zlen g').
Proof.
  revert pre done_ g fuel. induction cs as [|c cs IH]; intros pre dn g fuel Hg Hle H63 Hf.
  { exists g, fuel. split; [done|]. split; [change (zlen (encode [])) with 0; lia|]. cbn [app text encode]. change (zlen []) with 0. by rewrite !Z.add_0_r. }
  destruct fuel as [|fuel]; [simpl in Hf; lia|]. inversion Hg as [|? ? Hc Hg']; subst. pose proof (proj1 (good_zlen c) Hc) as Hcz.
  rewrite zlen_encode_cons in Hle. pose proof (zlen_nonneg (encode cs)). pose proof (zlen_nonneg (encode (cs ++ ds))).
  assert (Hsp : exists x m g1, g = x :: m ++ g1 /\ length m = length c /\ zlen g1 = zlen g - zlen c - 1).
  { destruct g as [|x g]; [change (zlen []) with 0 in Hle; lia|]. exists x, (take (length c) g), (drop (length c) g). rewrite take_drop.
    rewrite zlen_cons in *. assert (length c <= length g)%nat by (unfold zlen in *; lia). rewrite length_take, zlen_drop by done.
    split_and!; [done|lia|]. unfold zlen. lia. }
  destruct Hsp as (x & m & g1 & -> & Hm & Hg1).
  cbn [getUPath_loop app]. rewrite (proj2 (Z.ltb_lt _ _)) by (rewrite zlen_encode_cons; lia).
  rewrite bool_decide_false by done. cbn [andb negb].
  rewrite (wr_at dn [x] (m ++ g1) [SLASH]) by done. cbn [mbind option_bind encode]. rewrite rd_at. cbn [mbind option_bind].
  rewrite swrap_small by lia. rewrite (proj2 (Z.ltb_ge _ 0)) by lia.
  change (zlen c :: c ++ encode (cs ++ ds)) with ([zlen c] ++ c ++ encode (cs ++ ds)). rewrite app_assoc.
  rewrite (sub_at (pre ++ [zlen c]) c) by (rewrite ?zlen_app; done). cbn [mbind option_bind].
  rewrite (app_assoc dn). rewrite (wr_at (dn ++ [SLASH]) m g1 c) by (rewrite ?zlen_app; done). cbn [mbind option_bind].
  unfold getNext. rewrite (proj2 (Z.eqb_neq (zlen c) 0)) by lia.
  replace (rd ((pre ++ [zlen c]) ++ c ++ encode (cs ++ ds)) (zlen pre)) with (Some (zlen c)).
  2:{ rewrite <- app_assoc. symmetry. apply rd_at. }
  cbn [mbind option_bind].
  destruct (IH (pre ++ [zlen c] ++ c) (dn ++ [SLASH] ++ c) g1 fuel) as (g' & fuel' & -> & Hg'' & Heq); [done|lia|lia|simpl in Hf; lia|].
  exists g', fuel'. split; [done|]. change (zlen c :: c ++ encode cs) with (encode (c :: cs)). split; [rewrite zlen_encode_cons; lia|].
  rewrite <- !app_assoc in Heq. rewrite <- !app_assoc. rewrite !zlen_app in Heq. change (zlen [zlen c]) with 1 in Heq. change (zlen [SLASH]) with 1 in Heq.
  cbn [text app encode]. rewrite !zlen_cons, !zlen_app. rewrite <- !app_assoc.
  assert (Hmz : zlen m = zlen c) by (unfold zlen; lia).
  replace (zlen pre + zlen c + 1) with (zlen pre + (1 + zlen c)) by lia.
  replace (zlen dn + 1 + zlen c) with (zlen dn + (1 + zlen c)) by lia.
  replace (1 + (zlen m + zlen g1) - (zlen c + 1)) with (zlen g1) by lia.
  replace (zlen pre + (1 + (zlen c + zlen (encode (cs ++ ds))))) with (zlen pre + (1 + zlen c) + zlen (encode (cs ++ ds))) by lia.
  replace (zlen pre + (1 + (zlen c + zlen (encode cs)))) with (zlen pre + (1 + zlen c) + zlen (encode cs)) by lia.
  replace (zlen dn + (1 + (zlen c + zlen (encode cs)))) with (zlen dn + (1 + zlen c) + zlen (encode cs)) by lia.
  exact Heq.
Qed.

(** A buffer with room for the text and its null. *)
Lemma getUPath_fits cs out :
  Forall good cs -> cs <> [] -> zlen (encode cs) < zlen out < 2 ^ 63 ->
  exists rest, getUPath (encode cs) 0 (zlen (encode cs)) out None = Some (zlen (encode cs) + 1, text cs ++ 0 :: rest).
Proof.
  intros Hg Hne Hout. destruct cs as [|c cs]; [done|]. set (L := c :: cs) in *.
  assert (Hpos : 0 < zlen (encode L)) by (unfold L; rewrite zlen_encode_cons; pose proof (zlen_nonneg c); pose proof (zlen_nonneg (encode cs)); lia).
  unfold getUPath. rewrite (proj2 (Z.eqb_neq _ 0)) by lia.
  destruct (getUPath_loop_spec [] L [] [] out (S (S (length (encode L)))) Hg) as (g' & fuel' & Hf & Hg' & Heq); [lia|lia| |].
  { pose proof (encode_length_ge L). lia. }
  rewrite app_nil_r in Heq. cbn [app] in Heq. change (zlen []) with 0 in Heq. rewrite !Z.add_0_l in Heq. rewrite Z.add_0_l, Heq.
  destruct fuel' as [|fuel']; [pose proof (encode_length_ge L); lia|]. cbn [getUPath_loop]. rewrite Z.ltb_irrefl. cbn [andb].
  destruct g' as [|x g']; [change (zlen []) with 0 in Hg'; lia|]. exists g'.
  by rewrite (wr_at (text L) [x] g' [0]) by (rewrite ?text_zlen; done).
Qed.

(** A buffer that the first components fill exactly: the next byte, the null or
    the next slash, goes outside it. *)
Lemma getUPath_full cs ds out :
  Forall good cs -> cs <> [] -> zlen out = zlen (encode cs) -> zlen out < 2 ^ 63 ->
  getUPath (encode (cs ++ ds)) 0 (zlen (encode (cs ++ ds))) out None = None.
Proof.
  intros Hg Hne Hout H63. destruct cs as [|c cs]; [done|]. set (L := c :: cs) in *.
  assert (Hpos : 0 < zlen (encode L)) by (unfold L; rewrite zlen_encode_cons; pose proof (zlen_nonneg c); pose proof (zlen_nonneg (encode cs)); lia).
  unfold getUPath. rewrite encode_app, zlen_app. pose proof (zlen_nonneg (encode ds)). rewrite (proj2 (Z.eqb_neq _ 0)) by lia.
  destruct (getUPath_loop_spec [] L ds [] out (S (S (length (encode L ++ encode ds)))) Hg) as (g' & fuel' & Hf & Hg' & Heq); [lia|lia| |].
  { pose proof (encode_length_ge L). rewrite length_app. lia. }
  rewrite encode_app, zlen_app in Heq. cbn [app] in Heq. change (zlen []) with 0 in Heq. rewrite !Z.add_0_l in Heq. rewrite Z.add_0_l, Heq.
  assert (g' = []) as -> by (destruct g'; [done|]; rewrite zlen_cons in Hg'; pose proof (zlen_nonneg g'); lia).
  assert (Hw : forall v, wr (text L ++ []) (zlen (encode L)) [v] = None).
  { intros v. rewrite app_nil_r, <- text_zlen. unfold wr. rewrite (proj2 (Z.leb_gt (zlen (text L) + _) _)) by (unfold zlen; simpl; lia). by rewrite andb_false_r. }
  destruct fuel' as [|fuel']; [done|]. cbn [getUPath_loop]. rewrite !Hw. by destruct (_ && _).
Qed.

(** ** Round trip *)

(** A name a directory entry can have. *)
Definition nameable (c : bytes) : bool :=
  (1 <=? length c)%nat && (length c <=? 255)%nat && bool_decide (SLASH ∉ c) && bool_decide (0 ∉ c) &&
  bool_decide (c <> [DOT]) && bool_decide (c <> [DOT; DOT]).

Lemma nameable_facts c : nameable c = true -> good c /\ (SLASH ∉ c) /\ (0 ∉ c) /\ c <> [] /\ c <> [DOT] /\ c <> [DOT; DOT].
Proof.
  unfold nameable. rewrite !andb_true_iff, !bool_decide_eq_true, !Nat.leb_le. intros (((((H1 & H2) & H3) & H4) & H5) & H6).
  split_and!; try done. intros ->. simpl in H1. lia.
Qed.

Lemma tokens_text cs : Forall (fun c => nameable c = true) cs -> cs <> [] -> tokens (text cs) = [] :: cs.
Proof.
  induction 1 as [|c cs Hc Hcs IH]; intros Hne; [done|]. apply nameable_facts in Hc as (_ & Hs & _). cbn [text]. rewrite tokens_slash. f_equal.
  destruct cs as [|d cs]; [cbn [text]; rewrite app_nil_r; by apply tokens_first|].
  cbn [text]. rewrite (proj1 (tokens_first c (d ++ text cs) Hs)). f_equal. specialize (IH ltac:(done)).
  cbn [text] in IH. rewrite tokens_slash in IH. by injection IH.
Qed.

Lemma resolve_names cs ds : Forall (fun c => nameable c = true) ds -> resolve cs ds = Some (cs ++ ds).
Proof.
  intros H. revert cs. induction H as [|c ds Hc _ IH]; intros cs; [by rewrite app_nil_r|]. apply nameable_facts in Hc as (_ & _ & _ & H1 & H2 & H3).
  cbn [resolve]. rewrite bool_decide_false by tauto. rewrite bool_decide_false by done. by rewrite IH, <- app_assoc.
Qed.

Lemma text_no_null cs : Forall (fun c => nameable c = true) cs -> 0 ∉ text cs.
Proof.
  induction 1 as [|c cs Hc _ IH]; cbn [text]; [apply not_elem_of_nil|]. apply nameable_facts in Hc as (_ & _ & H0 & _).
  rewrite not_elem_of_cons, not_elem_of_app. done.
Qed.

Lemma leads_text cs : Forall (fun c => nameable c = true) cs -> cs <> [] -> plain cs = true -> leads [] (text cs) cs.
Proof.
  intros Hn Hne Hp. unfold leads. rewrite tokens_text by done. cbn [resolve plain]. rewrite bool_decide_true by by left.
  rewrite resolve_names by done. split; [done|]. rewrite Hp. by destruct (bool_decide (cs = [])).
Qed.

(** ** Theorems *)

(** A unix path is turned into components as it reads.  Starting at any
    valid path, for any unix path without null characters whose names are at
    most 255 long, that does not climb above the root and in which no
    two-character name starting with a dot is followed by a slash, Create
    returns the path that dropping empty and dot components and following
    dot-dot gives, whatever the fresh buffer held: it never runs out of the
    buffer it computed, never takes an error exit and never reads past the
    string. *)
Theorem create_resolves alloc u cs R :
  (forall n, 0 <= n -> zlen (alloc n) = n) ->
  Forall good cs -> 0 ∉ u -> zlen (encode cs) + 2 * zlen u + 2 < 2 ^ 64 ->
  resolve cs (tokens u) = Some R -> plain (tokens u) = true ->
  Create alloc u (encode cs) 0 = Some (if bool_decide (R = []) then None else Some (encode R), zlen (encode R)).
Proof. intros Ha Hg Hu H64 H1 H2. by apply Create_result. Qed.

(** "/usr/./lib//../bin" from "home" *)
Lemma create_resolves_witness :
  Create (fun n => replicate (Z.to_nat n) 170) [47;117;115;114;47;46;47;108;105;98;47;47;46;46;47;98;105;110]
    (encode [[104;111;109;101]]) 0
  = Some (Some (encode [[104;111;109;101]; [117;115;114]; [98;105;110]]), 13).
Proof.
  apply (create_resolves _ _ [[104;111;109;101]] [[104;111;109;101]; [117;115;114]; [98;105;110]]).
  - intros n Hn. unfold zlen. rewrite length_replicate. lia.
  - apply (bool_decide_unpack _). vm_compute. exact I.
  - apply (bool_decide_unpack _). vm_compute. exact I.
  - vm_compute. reflexivity.
  - vm_compute. reflexivity.
  - vm_compute. reflexivity.
Defined.

(** C28: printing and parsing a path are inverse.  For a non-empty path whose
    components are names a directory can hold (and no two-character name with a
    leading dot before the last), getUPath into a buffer with room for the null
    writes the unix path and Create reads it back to the same components. *)
Theorem path_roundtrip alloc cs out :
  (forall n, 0 <= n -> zlen (alloc n) = n) ->
  Forall (fun c => nameable c = true) cs -> cs <> [] -> plain cs = true -> zlen (encode cs) < zlen out < 2 ^ 62 ->
  exists u rest,
    getUPath (encode cs) 0 (zlen (encode cs)) out None = Some (zlen u + 1, u ++ 0 :: rest) /\
    Create alloc u [] 0 = Some (Some (encode cs), zlen (encode cs)).
Proof.
  intros Ha Hn Hne Hp Hout. assert (Hg : Forall good cs) by (eapply Forall_impl; [exact Hn|]; intros c Hc; by apply nameable_facts).
  destruct (getUPath_fits cs out Hg Hne ltac:(lia)) as (rest & Hrest). exists (text cs), rest. rewrite text_zlen. split; [done|].
  pose proof (Create_result alloc (text cs) [] cs Ha ltac:(constructor) (text_no_null cs Hn)) as Hc. rewrite text_zlen in Hc.
  cbn [encode] in Hc. change (zlen []) with 0 in Hc. pose proof (zlen_nonneg (encode cs)).
  rewrite Hc by first [lia | by apply leads_text]. by rewrite bool_decide_false.
Qed.

Lemma path_roundtrip_witness :
  exists u rest,
    getUPath (encode [[97]; [46; 98]]) 0 5 (replicate 8 170) None = Some (zlen u + 1, u ++ 0 :: rest) /\
    Create (fun n => replicate (Z.to_nat n) 85) u [] 0 = Some (Some (encode [[97]; [46; 98]]), 5).
Proof.
  apply (path_roundtrip (fun n => replicate (Z.to_nat n) 85) [[97]; [46; 98]] (replicate 8 170)).
  - intros n Hn. unfold zlen. rewrite length_replicate. lia.
  - apply (bool_decide_unpack _). vm_compute. exact I.
  - discriminate.
  - vm_compute. reflexivity.
  - split; vm_compute; reflexivity.
Defined.

(** C29: the check servers make of a client's buffer is exact: it terminates, and
    answers success when the bytes are a sequence of components of 1 to 255
    characters that ends where the buffer does, EINVAL otherwise. *)
Theorem PathFromBuf_exact base b :
  0 < base -> base + zlen b + 256 < 2 ^ 64 -> Forall (fun x => 0 <= x < 256) b ->
  exists r, PathFromBuf base b (zlen b) = Some r /\
    (r = 0 /\ is_path b \/ r = _SERROR 1160 0 EINVAL /\ ~ is_path b).
Proof.
  intros H1 H2 H3. pose proof (PathFromBuf_loop_spec (S (S (length b))) base [] b H1 H2 H3 ltac:(lia)) as H.
  change (zlen []) with 0 in H. rewrite uadd_small in H by (pose proof (zlen_nonneg b); lia). rewrite Z.add_0_r in H. exact H.
Qed.

Lemma PathFromBuf_exact_witness :
  exists r, PathFromBuf 4096 [1; 97; 5; 98] 4 = Some r /\
    (r = 0 /\ is_path [1; 97; 5; 98] \/ r = _SERROR 1160 0 EINVAL /\ ~ is_path [1; 97; 5; 98]).
Proof.
  apply (PathFromBuf_exact 4096 [1; 97; 5; 98]).
  - reflexivity.
  - vm_compute. reflexivity.
  - repeat constructor; lia.
Defined.

(** GetUPath writes past the caller's buffer when the components fill it
    exactly, with the terminating null or with the slash of the next component,
    before it looks at the space left. *)
Theorem getUPath_overflows cs ds out :
  Forall good cs -> cs <> [] -> zlen out = zlen (encode cs) -> zlen out < 2 ^ 63 ->
  getUPath (encode (cs ++ ds)) 0 (zlen (encode (cs ++ ds))) out None = None.
Proof. apply getUPath_full. Qed.

Lemma getUPath_overflows_witness :
  getUPath (encode ([[97; 98]] ++ [])) 0 3 [0; 0; 0] None = None.
Proof.
  apply (getUPath_overflows [[97; 98]] [] [0; 0; 0]).
  - apply Forall_singleton. unfold good. simpl. lia.
  - discriminate.
  - reflexivity.
  - reflexivity.
Defined.

(** ** Editing paths in place *)

(** Replacing the bytes from [a] on, when they fit. *)
Lemma wr_tail (a g vs : bytes) :
  zlen vs <= zlen g -> exists g', wr (a ++ g) (zlen a) vs = Some (a ++ vs ++ g') /\ zlen g' = zlen g - zlen vs.
Proof.
  intros H. exists (drop (length vs) g). assert (length vs <= length g)%nat by (unfold zlen in H; lia).
  pose proof (wr_at a (take (length vs) g) (drop (length vs) g) vs _ eq_refl) as W. rewrite take_drop in W.
  rewrite W by (rewrite length_take; lia). split; [done|]. by apply zlen_drop.
Qed.

Lemma appendComp_spec cs g str :
  zlen (encode cs ++ g) < 2 ^ 63 -> zlen str < 2 ^ 63 ->
  if zlen g <? zlen str + 1 then appendComp (encode cs ++ g) (zlen (encode cs)) str = Some (_SERROR 1503 0 ERANGE, encode cs ++ g)
  else exists g', appendComp (encode cs ++ g) (zlen (encode cs)) str =
    Some (zlen (encode cs) + zlen str + 1, encode cs ++ (zlen str mod 256) :: str ++ g').
Proof.
  intros H1 H2. rewrite zlen_app in H1. pose proof (zlen_nonneg (encode cs)). pose proof (zlen_nonneg g). pose proof (zlen_nonneg str).
  unfold appendComp. rewrite (uadd_small _ (zlen str)), uadd_small by lia. rewrite zlen_app.
  destruct (Z.ltb_spec (zlen g) (zlen str + 1)) as [Hlt|Hge].
  - by rewrite (proj2 (Z.ltb_lt _ _)) by lia.
  - rewrite (proj2 (Z.ltb_ge _ _)) by lia. destruct g as [|x g]; [change (zlen []) with 0 in Hge; lia|]. rewrite zlen_cons in Hge.
    destruct (wr_tail (encode cs ++ [x]) g str ltac:(lia)) as (g' & Hw & _). rewrite zlen_app in Hw. change (zlen [x]) with 1 in Hw.
    rewrite <- app_assoc in Hw. cbn [app] in Hw. rewrite Hw. cbn [mbind option_bind]. rewrite <- app_assoc.
    rewrite (wr_at (encode cs) [x] (str ++ g')) by done. cbn [mbind option_bind]. by exists g'.
Qed.

(** The editing operations keep a buffer a path.  On a buffer that starts
    with a valid path, appendComp of a name of 1 to 255 characters, appendPath
    and prependPath of a valid path either fail with ERANGE and leave the
    buffer alone, exactly when the result does not fit, or leave in the buffer
    the path with the component or path added, and return its length. *)
Theorem path_edits cs g str ds :
  zlen (encode cs ++ g) < 2 ^ 62 -> zlen (encode ds) < 2 ^ 62 -> good str ->
  let b := encode cs ++ g in
  let n := zlen (encode cs) in
  (if zlen b <? n + zlen str + 1 then appendComp b n str = Some (_SERROR 1503 0 ERANGE, b)
   else exists g', appendComp b n str = Some (zlen (encode (cs ++ [str])), encode (cs ++ [str]) ++ g')) /\
  (if zlen b <? n + zlen (encode ds) then
     appendPath b n (encode ds) = Some (_SERROR 1052 0 ERANGE, b) /\
     prependPath b n (encode ds) = Some (_SERROR 1508 0 ERANGE, b)
   else
     (exists g', appendPath b n (encode ds) = Some (zlen (encode (cs ++ ds)), encode (cs ++ ds) ++ g')) /\
     (exists g', prependPath b n (encode ds) = Some (zlen (encode (ds ++ cs)), encode (ds ++ cs) ++ g'))).
Proof.
  intros H1 H2 Hs b n. apply good_zlen in Hs. pose proof (zlen_nonneg (encode cs)). pose proof (zlen_nonneg (encode ds)).
  pose proof (zlen_nonneg g). unfold b, n. split.
  - pose proof (appendComp_spec cs g str ltac:(lia) ltac:(lia)) as Ha. rewrite zlen_app.
    destruct (Z.ltb_spec (zlen g) (zlen str + 1)); [by rewrite (proj2 (Z.ltb_lt _ _)) by lia|].
    rewrite (proj2 (Z.ltb_ge _ _)) by lia. destruct Ha as (g' & ->). exists g'. rewrite zlen_encode_snoc, encode_app, <- app_assoc.
    simpl. rewrite app_nil_r, Z.mod_small by lia. done.
  - unfold appendPath, prependPath, appendPath_ec, prependPath_ec. rewrite zlen_app in *. rewrite uadd_small by lia.
    destruct (Z.ltb_spec (zlen (encode cs) + zlen g) (zlen (encode cs) + zlen (encode ds))) as [Hlt|Hge]; [done|]. split.
    + destruct (wr_tail (encode cs) g (encode ds) ltac:(lia)) as (g' & -> & _). cbn [mbind option_bind]. exists g'.
      by rewrite encode_app, zlen_app, <- app_assoc.
    + rewrite (sub_at [] (encode cs) g) by done. cbn [mbind option_bind].
      assert (Hsp : exists x y, encode cs ++ g = x ++ y /\ zlen x = zlen (encode ds)).
      { exists (take (length (encode ds)) (encode cs ++ g)), (drop (length (encode ds)) (encode cs ++ g)). rewrite take_drop. split; [done|].
        unfold zlen in *. rewrite length_take, length_app. lia. }
      destruct Hsp as (x & y & Exy & Hx). assert (Hy : zlen (encode cs) <= zlen y).
      { assert (Hlen : zlen (x ++ y) = zlen (encode cs ++ g)) by by rewrite Exy. rewrite !zlen_app in Hlen. lia. }
      rewrite Exy.
      destruct (wr_tail x y (encode cs) Hy) as (g' & Hw & _). rewrite <- Hx, Hw. cbn [mbind option_bind].
      rewrite (wr_at [] x (encode cs ++ g') (encode ds)) by (unfold zlen in Hx; first [done|lia]). cbn [mbind option_bind app].
      exists g'. rewrite encode_app, zlen_app, <- app_assoc. rewrite Hx. by rewrite Z.add_comm.
Qed.

Lemma path_edits_witness :
  exists g', appendComp (encode [[97]] ++ [0; 0; 0; 0]) 2 [98; 99] = Some (5, encode [[97]; [98; 99]] ++ g').
Proof.
  pose proof (path_edits [[97]] [0; 0; 0; 0] [98; 99] [[100]]) as H.
  assert (H1 : zlen (encode [[97]] ++ [0; 0; 0; 0]) < 2 ^ 62) by (vm_compute; reflexivity).
  assert (H2 : zlen (encode [[100]]) < 2 ^ 62) by (vm_compute; reflexivity).
  assert (H3 : good [98; 99]) by (unfold good; simpl; lia).
  exact (proj1 (H H1 H2 H3)).
Defined.

Lemma is_path_app cs b : Forall good cs -> is_path (encode cs ++ b) <-> is_path b.
Proof. induction 1 as [|c cs Hc _ IH]; [done|]. cbn [encode app]. rewrite <- app_assoc. by rewrite is_path_cons. Qed.

(** AppendComp stores the length of a name in one byte without a check: a
    name of 256 characters is accepted, and the servers' check rejects the
    buffer it leaves. *)
Theorem appendComp_overlong cs g str base :
  Forall good cs -> zlen str = 256 -> 257 <= zlen g -> 0 < base -> base + zlen (encode cs ++ g) + 256 < 2 ^ 63 ->
  Forall (fun x => 0 <= x < 256) (concat cs ++ str) ->
  exists g', appendComp (encode cs ++ g) (zlen (encode cs)) str = Some (zlen (encode cs) + 257, encode cs ++ 0 :: str ++ g') /\
    PathFromBuf base (encode cs ++ 0 :: str) (zlen (encode cs) + 257) = Some (_SERROR 1160 0 EINVAL).
Proof.
  intros Hg Hs Hg0 Hb0 Hb Hby. pose proof (zlen_nonneg (encode cs)).
  pose proof (appendComp_spec cs g str ltac:(lia) ltac:(lia)) as Ha. rewrite (proj2 (Z.ltb_ge _ _)) in Ha by lia.
  destruct Ha as (g' & ->). exists g'. rewrite Hs. split; [f_equal; f_equal; lia|].
  assert (Hl : zlen (encode cs ++ 0 :: str) = zlen (encode cs) + 257) by (rewrite zlen_app, zlen_cons; lia). rewrite <- Hl.
  rewrite zlen_app in Hb. apply Forall_app in Hby as [Hby1 Hby2].
  assert (Hby' : Forall (fun x => 0 <= x < 256) (encode cs ++ 0 :: str)).
  { apply Forall_app. split; [|constructor; [lia|done]]. clear -Hg Hby1. induction Hg as [|c cs Hc _ IH]; [constructor|].
    cbn [concat] in Hby1. apply Forall_app in Hby1 as [H1 H2]. cbn [encode]. apply good_zlen in Hc. constructor; [lia|]. apply Forall_app. auto. }
  destruct (PathFromBuf_loop_spec (S (S (length (encode cs ++ 0 :: str)))) base [] (encode cs ++ 0 :: str) Hb0) as (r & Hr & Hres);
    [cbn [app]; lia|done|lia|].
  change (zlen []) with 0 in Hr. rewrite uadd_small in Hr by lia. rewrite Z.add_0_r in Hr. cbn [app] in Hr. unfold PathFromBuf. rewrite Hr.
  destruct Hres as [[_ Hp]|[-> _]]; [|done]. exfalso. apply is_path_app in Hp; [|done]. destruct Hp as (ds & Hgd & Hd).
  apply encode_inv in Hd as (c & ds' & -> & Ec & _). inversion Hgd as [|? ? Hc _]; subst. apply good_zlen in Hc. lia.
Qed.

Lemma appendComp_overlong_witness :
  exists g', appendComp (encode [[97]] ++ replicate 300 0) 2 (replicate 256 120) = Some (259, encode [[97]] ++ 0 :: replicate 256 120 ++ g') /\
    PathFromBuf 4096 (encode [[97]] ++ 0 :: replicate 256 120) 259 = Some (_SERROR 1160 0 EINVAL).
Proof.
  apply (appendComp_overlong [[97]] (replicate 300 0) (replicate 256 120) 4096).
  - apply Forall_singleton. unfold good. simpl. lia.
  - vm_compute. reflexivity.
  - vm_compute. discriminate.
  - reflexivity.
  - vm_compute. reflexivity.
  - apply (bool_decide_unpack _). vm_compute. exact I.
Defined.

(** A path that climbs above the root makes Create lose count of the path it
    builds; a later dot-dot then walks off it: "abc/../../../a/b/../c". *)
Lemma create_dotdot_fault :
  Create (fun n => replicate (Z.to_nat n) 170)
    [97;98;99;47;46;46;47;46;46;47;46;46;47;97;47;98;47;46;46;47;99] [] 0 = None.
Proof. vm_compute. reflexivity. Qed.

(** A directory with a two-character hidden name is taken for dot-dot:
    "x/.a/y" names "y". *)
Lemma create_hidden_lost :
  Create (fun n => replicate (Z.to_nat n) 170) [120;47;46;97;47;121] [] 0 = Some (Some (encode [[121]]), 2).
Proof. vm_compute. reflexivity. Qed.

(** The empty string matches every component. *)
Lemma matchComp_empty c b str : good c -> matchComp (encode [c] ++ b) 0 (zlen (encode [c])) str 0 = Some true.
Proof.
  intros Hc. apply good_zlen in Hc. unfold matchComp. rewrite (proj2 (Z.eqb_neq _ 0)) by (rewrite zlen_encode_cons; change (zlen (encode [])) with 0; lia).
  cbn [negb encode app rd]. change (rd (zlen c :: (c ++ []) ++ b) 0) with (Some (zlen c)). cbn [mbind option_bind].
  by rewrite (proj2 (Z.eqb_neq 0 _)) by lia.
Qed.

End PathName.
