(* ===== verification/IORingBuffer.v ===== *)
(** * IORingBuffer: a ring of bytes, lib/libc/io/IORingBuffer.C and .H

    The two positions grow past the length of the buffer and are taken modulo
    it; they are set back when the buffer becomes empty or full.  Bytes are [Z].
    A copy outside the buffer or the caller's data is [None]; so is the read of
    getDelimData past the caller's buffer. *)

From stdpp Require Import base numbers option list.
From S2P Require Import K42 Prelude.

Module IORingBuffer.

Record t := mkRB { len : Z; readNext : Z; writeNext : Z; buf : list Z }.

(** [buffer] is the caller's buffer or what allocGlobal returned. *)
Definition init (bSize : Z) (buffer : list Z) : t := mkRB bSize 0 0 buffer.

Definition bytesAvail (s : t) : Z := usub (writeNext s) (readNext s).
Definition spaceAvail (s : t) : Z := usub (len s) (bytesAvail s).

(** The two directions of memcpy, at offset [o] of a buffer. *)
Definition copy_in (b : list Z) (o : Z) (d : list Z) : option (list Z) :=
  if (0 <=? o) && (o + Z.of_nat (length d) <=? Z.of_nat (length b))
  then Some (take (Z.to_nat o) b ++ d ++ drop (Z.to_nat o + length d) b) else None.

Definition copy_out (b : list Z) (o n : Z) : option (list Z) :=
  if (0 <=? o) && (0 <=? n) && (o + n <=? Z.of_nat (length b))
  then Some (take (Z.to_nat n) (drop (Z.to_nat o) b)) else None.

Definition set_read (s : t) (r : Z) : t := mkRB (len s) r (writeNext s) (buf s).

(** The positions go back to the start of the buffer when it is empty ... *)
Definition when_empty (s : t) : t := if bytesAvail s =? 0 then mkRB (len s) 0 0 (buf s) else s.

(** ... and into its first two laps when it is full. *)
Definition when_full (s : t) : t :=
  if bytesAvail s =? len s then mkRB (len s) (readNext s mod len s) (uadd (writeNext s mod len s) (len s)) (buf s) else s.

(** The loop of putData; iterations end at the end of the buffer, of the space
    or of the data. *)
Fixpoint put_loop (fuel : nat) (s : t) (data : list Z) (size copy : Z) : option (t * Z) :=
  match fuel with
  | O => None
  | S fuel =>
      if (0 <? size) && (bytesAvail s <? len s) then
        let end1 := usub (uadd (writeNext s) (len s)) (writeNext s mod len s) in
        let end2 := if uadd (readNext s) (len s) <? end1 then uadd (readNext s) (len s) else end1 in
        let end3 := if uadd (writeNext s) size <? end2 then uadd (writeNext s) size else end2 in
        let n := usub end3 (writeNext s) in
        d ← copy_out data copy n;
        b ← copy_in (buf s) (writeNext s mod len s) d;
        put_loop fuel (mkRB (len s) (readNext s) end3 b) data (usub size n) (uadd copy n)
      else Some (s, copy)
  end.

Definition putData (s : t) (data : list Z) (size : Z) : option (Z * t) :=
  '(s1, copy) ← put_loop 4 s data size 0;
  Some (copy, when_full s1).

(** The loop of getData; [out] is what has been written to the caller's data. *)
Fixpoint get_loop (fuel : nat) (s : t) (out : list Z) (size : Z) : option (t * list Z) :=
  match fuel with
  | O => None
  | S fuel =>
      if (0 <? size) && (0 <? bytesAvail s) then
        let end1 := usub (uadd (readNext s) (len s)) (readNext s mod len s) in
        let end2 := if writeNext s <? end1 then writeNext s else end1 in
        let end3 := if uadd (readNext s) size <? end2 then uadd (readNext s) size else end2 in
        let n := usub end3 (readNext s) in
        d ← copy_out (buf s) (readNext s mod len s) n;
        get_loop fuel (set_read s end3) (out ++ d) (usub size n)
      else Some (s, out)
  end.

(** The bytes that reach the caller; copy is their number. *)
Definition getData (s : t) (size : Z) : option (list Z * t) :=
  '(s1, out) ← get_loop 4 s [] size;
  Some (out, when_empty s1).

(** size is signed. *)
Definition consumeBytes (s : t) (size : Z) : t :=
  let size := if (swrap (bytesAvail s) <? size) || (size =? -1) then bytesAvail s else size in
  when_empty (set_read s (uadd (readNext s) size)).

Definition commitSpace (s : t) (size : Z) : t :=
  let size := if (swrap (spaceAvail s) <? size) || (size =? -1) then spaceAvail s else size in
  when_full (mkRB (len s) (readNext s) (uadd (writeNext s) size) (buf s)).

(** The offset in the buffer of the reserved space, and its size. *)
Definition reserveSpace (s : t) (size : Z) : option (Z * Z) :=
  let p := writeNext s mod len s in
  let size := if (swrap (spaceAvail s) <? size) || (size =? -1) then spaceAvail s else size in
  let size := if len s <=? uadd (writeNext s) size then swrap (usub (len s) (writeNext s)) else size in
  _ ← assertK (negb (negb (spaceAvail s =? 0) && (size =? 0)));
  Some (p, size).

(** The offset and number of the bytes that can be read at once. *)
Definition peekBytes (s : t) (bytes : Z) : Z * Z :=
  let end1 := usub (uadd (readNext s) (len s)) (readNext s mod len s) in
  let p := readNext s mod len s in
  let bytes := if (swrap (bytesAvail s) <? bytes) || (bytes =? -1) then swrap (bytesAvail s) else bytes in
  let end2 := if writeNext s <? end1 then writeNext s else end1 in
  let bytes := if usub end2 (readNext s) <? uwrap bytes then swrap (usub end2 (readNext s)) else bytes in
  (p, bytes).

(** The offset and number of the bytes taken back. *)
Definition unPutData (s : t) (length : Z) : (Z * Z) * t :=
  let length := if (length <? 0) || (swrap (bytesAvail s) <? length) then swrap (bytesAvail s) else length in
  let bytes_to_end := usub (len s) (readNext s mod len s) in
  let length := if usub (bytesAvail s) bytes_to_end <? uwrap length then swrap (usub (bytesAvail s) bytes_to_end) else length in
  let p := usub (writeNext s) length mod len s in
  ((p, length), when_empty (mkRB (len s) (readNext s) (usub (writeNext s) length) (buf s))).

(** The inner loop of getDelimData: [inl] when the delimiter was seen. *)
Fixpoint delim_inner (fuel : nat) (s : t) (data : list Z) (size copy i end' delim : Z) : option (bool * (t * list Z * Z * Z)) :=
  match fuel with
  | O => None
  | S fuel =>
      if i <? usub end' (readNext s) then
        b ← buf s !! Z.to_nat (readNext s mod len s);
        _ ← data !! Z.to_nat copy;
        let data := <[Z.to_nat copy := b]> data in
        let copy := uadd copy 1 in
        let s := set_read s (uadd (readNext s) 1) in
        let size := usub size 1 in
        c ← data !! Z.to_nat copy;
        if c =? delim then Some (true, (s, data, size, copy))
        else delim_inner fuel s data size copy (uadd i 1) end' delim
      else Some (false, (s, data, size, copy))
  end.

Fixpoint delim_loop (fuel : nat) (s : t) (data : list Z) (size copy delim : Z) : option (t * list Z * Z) :=
  match fuel with
  | O => None
  | S fuel =>
      if (0 <? size) && (0 <? bytesAvail s) then
        let end1 := usub (uadd (readNext s) (len s)) (readNext s mod len s) in
        let end2 := if writeNext s <? end1 then writeNext s else end1 in
        let end3 := if uadd (readNext s) size <? end2 then uadd (readNext s) size else end2 in
        '(stop, (s, data, size, copy)) ← delim_inner (S (length (buf s))) s data size copy 0 end3 delim;
        if (stop : bool) then Some (s, data, copy) else delim_loop fuel s data size copy delim
      else Some (s, data, copy)
  end.

(** [data] is the caller's buffer with what it holds before the call. *)
Definition getDelimData (s : t) (data : list Z) (size delim : Z) : option (Z * list Z * t) :=
  '(s1, data1, copy) ← delim_loop (S (Z.to_nat size)) s data size 0 delim;
  Some (copy, data1, when_empty s1).

(** ** The bytes in the buffer *)

Record ok (s : t) : Prop := {
  ok_len : 0 < len s <= 2 ^ 62;
  ok_buf : Z.of_nat (length (buf s)) = len s;
  ok_pos : 0 <= readNext s <= writeNext s;
  ok_fit : writeNext s - readNext s <= len s;
  ok_small : writeNext s < 2 ^ 63;
}.

(** The byte at position [p] of the stream. *)
Definition byte_at (s : t) (p : Z) : Z := nth (Z.to_nat (p mod len s)) (buf s) 0.

Definition contents (s : t) : list Z := (fun i => byte_at s (readNext s + Z.of_nat i)) <$> seq 0 (Z.to_nat (writeNext s - readNext s)).

Lemma bytesAvail_ok s : ok s -> bytesAvail s = writeNext s - readNext s.
Proof. intros [Hl _ Hp Hf Hs]. unfold bytesAvail. rewrite usub_small; lia. Qed.

Lemma spaceAvail_ok s : ok s -> spaceAvail s = len s - (writeNext s - readNext s).
Proof. intros H. unfold spaceAvail. rewrite (bytesAvail_ok s H). destruct H. rewrite usub_small; lia. Qed.

Lemma contents_length s : ok s -> Z.of_nat (length (contents s)) = writeNext s - readNext s.
Proof. intros [_ _ Hp _ _]. unfold contents. rewrite length_fmap, length_seq. lia. Qed.

Lemma contents_lookup s i : (i < Z.to_nat (writeNext s - readNext s))%nat -> contents s !! i = Some (byte_at s (readNext s + Z.of_nat i)).
Proof. intros Hi. unfold contents. rewrite list_lookup_fmap, lookup_seq_lt by done. done. Qed.

(** Buffers that agree at the positions in use. *)
Lemma contents_eq s l :
  (forall i, (i < Z.to_nat (writeNext s - readNext s))%nat -> l !! i = Some (byte_at s (readNext s + Z.of_nat i))) ->
  length l = Z.to_nat (writeNext s - readNext s) -> contents s = l.
Proof.
  intros H Hl. apply list_eq. intros i. destruct (decide (i < Z.to_nat (writeNext s - readNext s))%nat) as [Hi|Hi].
  - by rewrite contents_lookup, H.
  - rewrite !lookup_ge_None_2; [done|lia|]. unfold contents. rewrite length_fmap, length_seq. lia.
Qed.

Lemma copy_in_ok b o d : 0 <= o -> o + Z.of_nat (length d) <= Z.of_nat (length b) ->
  exists b', copy_in b o d = Some b' /\ length b' = length b /\
    forall k, nth k b' 0 = if decide (Z.to_nat o <= k < Z.to_nat o + length d)%nat then nth (k - Z.to_nat o) d 0 else nth k b 0.
Proof.
  intros Ho Hd. unfold copy_in. rewrite (proj2 (Z.leb_le _ _) Ho), (proj2 (Z.leb_le _ _) Hd). eexists. split; [reflexivity|]. split.
  - rewrite !length_app, length_take, length_drop. lia.
  - intros k. assert (Hlt : length (take (Z.to_nat o) b) = Z.to_nat o) by (rewrite length_take; lia).
    destruct (decide _) as [Hk|Hk].
    + rewrite app_nth2 by lia. rewrite Hlt. rewrite app_nth1 by lia. done.
    + destruct (decide (k < Z.to_nat o)%nat) as [Hlo|Hlo].
      * rewrite app_nth1 by lia. rewrite !nth_lookup. by rewrite lookup_take_lt.
      * rewrite app_nth2 by lia. rewrite Hlt. rewrite app_nth2 by lia. rewrite !nth_lookup, lookup_drop. do 2 f_equal. lia.
Qed.

Lemma copy_out_ok b o n : 0 <= o -> 0 <= n -> o + n <= Z.of_nat (length b) ->
  exists d, copy_out b o n = Some d /\ length d = Z.to_nat n /\ (forall i, (i < Z.to_nat n)%nat -> d !! i = Some (nth (Z.to_nat o + i) b 0)).
Proof.
  intros Ho Hn Hb. unfold copy_out. rewrite (proj2 (Z.leb_le _ _) Ho), (proj2 (Z.leb_le _ _) Hn), (proj2 (Z.leb_le _ _) Hb). eexists. split; [reflexivity|]. split.
  - rewrite length_take, length_drop. lia.
  - intros i Hi. rewrite lookup_take_lt, lookup_drop by done. rewrite nth_lookup. destruct (lookup_lt_is_Some_2 b (Z.to_nat o + i)) as [x ->]; [lia|done].
Qed.

Lemma no_multiple l q : 0 < l -> 0 < l * q < l -> False.
Proof.
  intros Hl [H1 H2]. destruct (Z.le_gt_cases q 0) as [Hq|Hq].
  - pose proof (Z.mul_le_mono_nonneg_l q 0 l ltac:(lia) Hq). lia.
  - pose proof (Z.mul_le_mono_nonneg_l 1 q l ltac:(lia) ltac:(lia)). lia.
Qed.

(** Writing after the last byte, up to the end of the buffer. *)
Lemma contents_write s d b :
  ok s -> writeNext s mod len s + Z.of_nat (length d) <= len s -> writeNext s - readNext s + Z.of_nat (length d) <= len s ->
  copy_in (buf s) (writeNext s mod len s) d = Some b ->
  contents (mkRB (len s) (readNext s) (writeNext s + Z.of_nat (length d)) b) = contents s ++ d.
Proof.
  intros Hok Hw Hs Hc. pose proof Hok as [Hl Hb Hp Hf Hsm]. pose proof (Z.mod_pos_bound (writeNext s) (len s) ltac:(lia)) as Hm.
  destruct (copy_in_ok (buf s) (writeNext s mod len s) d) as (b' & Hc' & Hlb & Hn); [lia|lia|]. assert (b' = b) as -> by congruence.
  set (av := writeNext s - readNext s) in *. apply contents_eq.
  - cbn [readNext writeNext]. intros i Hi. unfold byte_at. cbn [buf len]. rewrite Hn. destruct (decide (Z.of_nat i < av)) as [Hlt|Hge].
    + rewrite lookup_app_l by (unfold contents; rewrite length_fmap, length_seq; lia). rewrite contents_lookup by lia. rewrite decide_False; [done|].
      pose proof (Z.mod_pos_bound (readNext s + Z.of_nat i) (len s) ltac:(lia)) as Hmi. intros Hk.
      assert (Hd : (readNext s + Z.of_nat i) mod len s - writeNext s mod len s < Z.of_nat (length d)) by lia.
      pose proof (Z.div_mod (readNext s + Z.of_nat i) (len s) ltac:(lia)) as E1. pose proof (Z.div_mod (writeNext s) (len s) ltac:(lia)) as E2.
      set (q1 := (readNext s + Z.of_nat i) / len s) in *. set (q2 := writeNext s / len s) in *.
      set (m1 := (readNext s + Z.of_nat i) mod len s) in *. set (m2 := writeNext s mod len s) in *.
      assert (Hge : m2 <= m1) by lia. assert (E : len s * (q2 - q1) = av - Z.of_nat i + (m1 - m2)) by (rewrite Z.mul_sub_distr_l; unfold av; lia).
      clearbody m1 m2 q1 q2 av. set (Q := q2 - q1) in *. apply (no_multiple (len s) Q); [lia|]. rewrite E. lia.
    + rewrite lookup_app_r by (unfold contents; rewrite length_fmap, length_seq; lia). unfold contents. rewrite length_fmap, length_seq. fold av.
      assert (Ed : (readNext s + Z.of_nat i) mod len s = writeNext s mod len s + (Z.of_nat i - av)).
      { symmetry. apply (Z.mod_unique_pos _ _ (writeNext s / len s)); [unfold av in *; lia|]. pose proof (Z.div_mod (writeNext s) (len s) ltac:(lia)). unfold av. lia. }
      rewrite Ed. rewrite decide_True by lia. rewrite nth_lookup. replace (Z.to_nat (writeNext s mod len s + (Z.of_nat i - av)) - Z.to_nat (writeNext s mod len s))%nat with (i - Z.to_nat av)%nat by lia.
      destruct (lookup_lt_is_Some_2 d (i - Z.to_nat av)) as [x ->]; [unfold av in *; lia|done].
  - cbn [readNext writeNext]. rewrite length_app. unfold contents. rewrite length_fmap, length_seq. unfold av in *. lia.
Qed.

(** Reading the first bytes, up to the end of the buffer. *)
Lemma contents_read s n :
  ok s -> 0 <= n <= writeNext s - readNext s -> readNext s mod len s + n <= len s ->
  copy_out (buf s) (readNext s mod len s) n = Some (take (Z.to_nat n) (contents s)).
Proof.
  intros [Hl Hb Hp Hf Hsm] Hn Hm. pose proof (Z.mod_pos_bound (readNext s) (len s) ltac:(lia)) as Hmr.
  destruct (copy_out_ok (buf s) (readNext s mod len s) n) as (d & -> & Hld & Hd); [lia..|]. f_equal. apply list_eq. intros i.
  destruct (decide (i < Z.to_nat n)%nat) as [Hi|Hi].
  - rewrite Hd, lookup_take_lt, contents_lookup by lia. f_equal. unfold byte_at. f_equal.
    assert (E : (readNext s + Z.of_nat i) mod len s = readNext s mod len s + Z.of_nat i).
    { symmetry. apply (Z.mod_unique_pos _ _ (readNext s / len s)); [lia|]. pose proof (Z.div_mod (readNext s) (len s) ltac:(lia)). lia. }
    lia.
  - rewrite !lookup_ge_None_2; [done|rewrite length_take; lia|lia].
Qed.

Lemma contents_drop s n : ok s -> 0 <= n <= writeNext s - readNext s -> contents (set_read s (readNext s + n)) = drop (Z.to_nat n) (contents s).
Proof.
  intros Hok Hn. apply contents_eq; cbn [set_read readNext writeNext].
  - intros i Hi. rewrite lookup_drop, contents_lookup by lia. unfold byte_at. cbn [len buf set_read]. do 4 f_equal. lia.
  - rewrite length_drop. unfold contents. rewrite length_fmap, length_seq. lia.
Qed.

(** Positions moved by whole laps. *)
Lemma contents_lap s r w :
  r mod len s = readNext s mod len s -> w - r = writeNext s - readNext s -> contents (mkRB (len s) r w (buf s)) = contents s.
Proof.
  intros Hr Hw. unfold contents. cbn [readNext writeNext]. rewrite Hw. apply list_fmap_ext. intros i k _. unfold byte_at. cbn [len buf].
  by rewrite <- (Zplus_mod_idemp_l r), Hr, Zplus_mod_idemp_l.
Qed.

(** ** putData *)

Definition room (s : t) : Z := len s - (writeNext s - readNext s).

Lemma put_stop fuel s data size copy : ok s -> size = 0 \/ room s = 0 -> put_loop (S fuel) s data size copy = Some (s, copy).
Proof.
  intros Hok Hz. cbn [put_loop]. rewrite (bytesAvail_ok s Hok). unfold room in Hz. destruct Hz as [-> |Hz]; [done|].
  rewrite (proj2 (Z.ltb_ge (writeNext s - readNext s) (len s))) by lia. by rewrite andb_false_r.
Qed.

(** One iteration copies what fits before the end of the buffer. *)
Lemma put_iter fuel s data size copy :
  ok s -> 0 < size -> 0 < room s -> 0 <= copy -> copy + size <= Z.of_nat (length data) -> writeNext s + size < 2 ^ 63 -> copy + size < 2 ^ 63 ->
  let n := Z.min size (Z.min (room s) (len s - writeNext s mod len s)) in
  exists s', put_loop (S fuel) s data size copy = put_loop fuel s' data (size - n) (copy + n) /\ ok s' /\
    len s' = len s /\ readNext s' = readNext s /\ writeNext s' = writeNext s + n /\ contents s' = contents s ++ take (Z.to_nat n) (drop (Z.to_nat copy) data).
Proof.
  intros Hok Hsz Hrm Hcp Hdat Hsm Hcs n. pose proof Hok as [Hl Hb Hp Hf Hs]. unfold room in *. pose proof (Z.mod_pos_bound (writeNext s) (len s) ltac:(lia)) as Hm.
  cbn [put_loop]. rewrite (bytesAvail_ok s Hok). rewrite (proj2 (Z.ltb_lt 0 size)), (proj2 (Z.ltb_lt (writeNext s - readNext s) (len s))) by lia. cbn [andb].
  rewrite !uadd_small by lia. rewrite (usub_small (writeNext s + len s)) by lia.
  set (e1 := writeNext s + len s - writeNext s mod len s). set (e2 := if readNext s + len s <? e1 then readNext s + len s else e1).
  set (e3 := if writeNext s + size <? e2 then writeNext s + size else e2).
  assert (En : e3 = writeNext s + n).
  { assert (E2 : e2 = Z.min (readNext s + len s) e1) by (unfold e2; zcase; lia). assert (E3 : e3 = Z.min (writeNext s + size) e2) by (unfold e3; zcase; lia). lia. }
  assert (Hn : 0 < n) by lia. rewrite En. rewrite (usub_small (writeNext s + n)) by lia. replace (writeNext s + n - writeNext s) with n by lia.
  destruct (copy_out_ok data copy n) as (d & Hco & Hld & _); [lia..|]. rewrite Hco. cbn [mbind option_bind].
  destruct (copy_in_ok (buf s) (writeNext s mod len s) d) as (b & Hci & Hlb & _); [lia|lia|]. rewrite Hci. cbn [mbind option_bind]. rewrite usub_small, uadd_small by lia.
  eexists. split; [reflexivity|]. cbn [len readNext writeNext buf]. split_and!; try done.
  - constructor; cbn [len readNext writeNext buf]; lia.
  - assert (Ed : d = take (Z.to_nat n) (drop (Z.to_nat copy) data)).
    { unfold copy_out in Hco. destruct (_ && _); [by injection Hco as <-|done]. }
    rewrite <- Ed. replace (writeNext s + n) with (writeNext s + Z.of_nat (length d)) by lia. apply contents_write; [done|lia|lia|done].
Qed.

(** The loop: as much as there is room for, in order. *)
Lemma put_loop_spec s data size :
  ok s -> 0 <= size <= Z.of_nat (length data) -> writeNext s + size < 2 ^ 63 ->
  let k := Z.min size (room s) in
  exists s', put_loop 4 s data size 0 = Some (s', k) /\ ok s' /\ len s' = len s /\ readNext s' = readNext s /\
    writeNext s' = writeNext s + k /\ contents s' = contents s ++ take (Z.to_nat k) data.
Proof.
  intros Hok Hsz Hsm k. pose proof Hok as [Hl Hb Hp Hf Hs]. pose proof (Z.mod_pos_bound (writeNext s) (len s) ltac:(lia)) as Hm.
  destruct (decide (k = 0)) as [Ek|Hk].
  { exists s. rewrite Ek. split; [apply put_stop; [done|]; unfold room in *; lia|]. rewrite app_nil_r. split_and!; try done. lia. }
  assert (Hrm : 0 < room s) by (unfold room in *; lia).
  destruct (put_iter 3 s data size 0) as (s1 & Hr1 & Hok1 & El1 & Er1 & Ew1 & Ec1); [done|lia..|]. set (n1 := Z.min size (Z.min (room s) (len s - writeNext s mod len s))) in *.
  rewrite Hr1. change (drop (Z.to_nat 0) data) with data in Ec1. rewrite Z.add_0_l.
  destruct (decide (n1 = k)) as [E|Hne].
  { exists s1. split; [rewrite put_stop, E; [done|done|]; unfold room in *; lia|]. rewrite <- E. by split_and!. }
  assert (Hwrap : writeNext s1 mod len s1 = 0).
  { rewrite El1, Ew1. replace (writeNext s + n1) with ((writeNext s / len s + 1) * len s); [apply Z.mod_mul; lia|].
    pose proof (Z.div_mod (writeNext s) (len s) ltac:(lia)). lia. }
  destruct (put_iter 2 s1 data (size - n1) n1) as (s2 & Hr2 & Hok2 & El2 & Er2 & Ew2 & Ec2); [done|unfold room in *; lia..|].
  set (n2 := Z.min (size - n1) (Z.min (room s1) (len s1 - writeNext s1 mod len s1))) in *.
  assert (E2 : n1 + n2 = k) by (unfold n2; rewrite Hwrap; unfold room in *; rewrite El1, Er1, Ew1 in *; lia).
  exists s2. rewrite Hr2, put_stop; [|done|unfold room in *; lia]. rewrite El2, Er2, Ew2, El1, Er1, Ew1, E2. split_and!; try done; [lia|].
  rewrite Ec2, Ec1, <- app_assoc. f_equal. rewrite <- E2. rewrite Z2Nat.inj_add by lia. by rewrite take_take_drop.
Qed.

Lemma when_full_spec s : ok s -> ok (when_full s) /\ len (when_full s) = len s /\ contents (when_full s) = contents s /\
  writeNext (when_full s) <= Z.max (writeNext s) (2 * len s).
Proof.
  intros Hok. pose proof Hok as [Hl Hb Hp Hf Hs]. unfold when_full. rewrite (bytesAvail_ok s Hok). destruct (Z.eqb_spec (writeNext s - readNext s) (len s)) as [E|]; [|split_and!; [done..|lia]].
  pose proof (Z.mod_pos_bound (writeNext s) (len s) ltac:(lia)) as Hm. rewrite uadd_small by lia.
  assert (Er : readNext s mod len s = writeNext s mod len s).
  { replace (writeNext s) with (readNext s + 1 * len s) by lia. by rewrite Z.mod_add by lia. }
  split_and!; cbn [len readNext writeNext buf]; [constructor; cbn [len readNext writeNext buf]; lia|done| |lia].
  apply contents_lap; [by rewrite Z.mod_mod by lia|lia].
Qed.

Lemma when_empty_spec s : ok s -> ok (when_empty s) /\ len (when_empty s) = len s /\ contents (when_empty s) = contents s /\
  writeNext (when_empty s) <= writeNext s.
Proof.
  intros Hok. pose proof Hok as [Hl Hb Hp Hf Hs]. unfold when_empty. rewrite (bytesAvail_ok s Hok). destruct (Z.eqb_spec (writeNext s - readNext s) 0) as [E|]; [|split_and!; [done..|lia]].
  split_and!; cbn [len readNext writeNext buf]; [constructor; cbn [len readNext writeNext buf]; lia|done| |lia].
  unfold contents. cbn [len readNext writeNext buf]. by rewrite E.
Qed.

(** ** getData *)

Lemma get_stop fuel s out size : ok s -> size = 0 \/ writeNext s - readNext s = 0 -> get_loop (S fuel) s out size = Some (s, out).
Proof.
  intros Hok Hz. cbn [get_loop]. rewrite (bytesAvail_ok s Hok). destruct Hz as [-> | ->]; [done|]. by rewrite andb_false_r.
Qed.

Lemma get_iter fuel s out size :
  ok s -> 0 < size < 2 ^ 63 -> 0 < writeNext s - readNext s ->
  let n := Z.min size (Z.min (writeNext s - readNext s) (len s - readNext s mod len s)) in
  get_loop (S fuel) s out size = get_loop fuel (set_read s (readNext s + n)) (out ++ take (Z.to_nat n) (contents s)) (size - n) /\
  ok (set_read s (readNext s + n)) /\ contents (set_read s (readNext s + n)) = drop (Z.to_nat n) (contents s).
Proof.
  intros Hok Hsz Hav n. pose proof Hok as [Hl Hb Hp Hf Hs]. pose proof (Z.mod_pos_bound (readNext s) (len s) ltac:(lia)) as Hm.
  assert (Hn : 0 < n) by lia. split_and!.
  - cbn [get_loop]. rewrite (bytesAvail_ok s Hok). rewrite (proj2 (Z.ltb_lt 0 size)), (proj2 (Z.ltb_lt 0 (writeNext s - readNext s))) by lia. cbn [andb].
    rewrite !uadd_small by lia. rewrite (usub_small (readNext s + len s)) by lia.
    set (e1 := readNext s + len s - readNext s mod len s). set (e2 := if writeNext s <? e1 then writeNext s else e1). set (e3 := if readNext s + size <? e2 then readNext s + size else e2).
    assert (En : e3 = readNext s + n).
    { assert (E2 : e2 = Z.min (writeNext s) e1) by (unfold e2; zcase; lia). assert (E3 : e3 = Z.min (readNext s + size) e2) by (unfold e3; zcase; lia). lia. }
    rewrite En. rewrite (usub_small (readNext s + n)) by lia. replace (readNext s + n - readNext s) with n by lia.
    rewrite contents_read by (done || lia). cbn [mbind option_bind]. by rewrite usub_small by lia.
  - constructor; cbn [set_read len readNext writeNext buf]; lia.
  - apply contents_drop; [done|lia].
Qed.

Lemma get_loop_spec s size :
  ok s -> 0 <= size < 2 ^ 63 ->
  let k := Z.min size (writeNext s - readNext s) in
  exists s', get_loop 4 s [] size = Some (s', take (Z.to_nat k) (contents s)) /\ ok s' /\ len s' = len s /\ writeNext s' = writeNext s /\
    contents s' = drop (Z.to_nat k) (contents s).
Proof.
  intros Hok Hsz k. pose proof Hok as [Hl Hb Hp Hf Hs]. pose proof (Z.mod_pos_bound (readNext s) (len s) ltac:(lia)) as Hm.
  destruct (decide (k = 0)) as [Ek|Hk].
  { exists s. rewrite Ek. split; [apply get_stop; [done|lia]|]. by split_and!. }
  destruct (get_iter 3 s [] size) as (Hr1 & Hok1 & Ec1); [done|lia..|]. set (n1 := Z.min size (Z.min (writeNext s - readNext s) (len s - readNext s mod len s))) in *.
  rewrite Hr1. set (s1 := set_read s (readNext s + n1)) in *. cbn [app].
  destruct (decide (n1 = k)) as [E|Hne].
  { exists s1. split; [rewrite get_stop, E; [done|done|]; cbn [s1 set_read writeNext readNext]; lia|]. rewrite <- E. by split_and!. }
  assert (Hwrap : readNext s1 mod len s1 = 0).
  { cbn [s1 set_read readNext len]. replace (readNext s + n1) with ((readNext s / len s + 1) * len s); [apply Z.mod_mul; lia|].
    pose proof (Z.div_mod (readNext s) (len s) ltac:(lia)). lia. }
  destruct (get_iter 2 s1 (take (Z.to_nat n1) (contents s)) (size - n1)) as (Hr2 & Hok2 & Ec2); [done|lia|cbn [s1 set_read writeNext readNext]; lia|].
  set (n2 := Z.min (size - n1) (Z.min (writeNext s1 - readNext s1) (len s1 - readNext s1 mod len s1))) in *.
  assert (E2 : n1 + n2 = k) by (unfold n2; rewrite Hwrap; cbn [s1 set_read readNext writeNext len]; lia).
  eexists. rewrite Hr2, get_stop; [|done|cbn [s1 set_read writeNext readNext] in *; lia]. split; [|split_and!; try done].
  - do 2 f_equal. rewrite Ec1, <- E2, Z2Nat.inj_add by lia. by rewrite take_take_drop.
  - rewrite Ec2, Ec1, drop_drop. f_equal. lia.
Qed.

(** ** The other operations *)

Lemma consume_spec s n :
  ok s -> -1 <= n < 2 ^ 63 ->
  let k := if n =? -1 then writeNext s - readNext s else Z.min n (writeNext s - readNext s) in
  ok (consumeBytes s n) /\ len (consumeBytes s n) = len s /\ writeNext (consumeBytes s n) <= writeNext s /\
  contents (consumeBytes s n) = drop (Z.to_nat k) (contents s).
Proof.
  intros Hok Hn k. pose proof Hok as [Hl Hb Hp Hf Hs]. unfold consumeBytes. rewrite (bytesAvail_ok s Hok), swrap_small by lia.
  set (n' := if _ || _ then _ else n). assert (En : n' = k) by (unfold n', k; repeat zcase; cbn; lia). rewrite En.
  assert (Hk : 0 <= k <= writeNext s - readNext s) by (unfold k; zcase; lia). rewrite uadd_small by lia.
  assert (Hok1 : ok (set_read s (readNext s + k))) by (constructor; cbn [set_read len readNext writeNext buf]; lia).
  destruct (when_empty_spec _ Hok1) as (H1 & H2 & H3 & H4). split_and!; [done|done|done|]. rewrite H3. by apply contents_drop.
Qed.

Lemma peek_spec s n :
  ok s -> -1 <= n < 2 ^ 63 ->
  exists m, (peekBytes s n).2 = m /\ 0 <= m <= writeNext s - readNext s /\ (0 <= n -> m <= n) /\ (n <> 0 -> readNext s < writeNext s -> 0 < m) /\
    copy_out (buf s) (peekBytes s n).1 m = Some (take (Z.to_nat m) (contents s)).
Proof.
  intros Hok Hn. pose proof Hok as [Hl Hb Hp Hf Hs]. pose proof (Z.mod_pos_bound (readNext s) (len s) ltac:(lia)) as Hm.
  unfold peekBytes. rewrite (bytesAvail_ok s Hok), !uadd_small by lia. rewrite (swrap_small (writeNext s - readNext s)) by lia. rewrite (usub_small (readNext s + len s)) by lia. cbn [fst snd].
  set (b1 := if _ || _ then writeNext s - readNext s else n).
  assert (Eb : b1 = if n =? -1 then writeNext s - readNext s else Z.min n (writeNext s - readNext s)) by (unfold b1; repeat zcase; cbn; lia).
  set (e2 := if writeNext s <? _ then _ else _). assert (E2 : e2 = Z.min (writeNext s) (readNext s + len s - readNext s mod len s)) by (unfold e2; zcase; lia).
  assert (Hb1 : 0 <= b1 <= writeNext s - readNext s) by (rewrite Eb; zcase; lia).
  rewrite (uwrap_small b1) by (unfold is_uval; lia). rewrite !(usub_small e2) by lia. rewrite swrap_small by lia.
  set (m := if _ <? b1 then _ else b1). assert (Em : m = Z.min b1 (e2 - readNext s)) by (unfold m; zcase; lia).
  exists m. split; [done|]. split; [lia|]. split; [revert Eb; zcase; lia|]. split; [revert Eb; zcase; lia|]. apply contents_read; [done|lia|lia].
Qed.

(** The last [m] bytes, when they do not wrap. *)
Lemma contents_last s m :
  ok s -> 0 <= m <= writeNext s - readNext s -> (writeNext s - m) mod len s + m <= len s ->
  copy_out (buf s) ((writeNext s - m) mod len s) m = Some (drop (Z.to_nat (writeNext s - readNext s - m)) (contents s)) /\
  contents (mkRB (len s) (readNext s) (writeNext s - m) (buf s)) = take (Z.to_nat (writeNext s - readNext s - m)) (contents s).
Proof.
  intros Hok Hm Hw. pose proof Hok as [Hl Hb Hp Hf Hs]. split.
  - set (s1 := set_read s (writeNext s - m)). assert (Hok1 : ok s1) by (constructor; cbn [s1 set_read len readNext writeNext buf]; lia).
    pose proof (contents_read s1 m Hok1) as Hr. cbn [s1 set_read len readNext writeNext buf] in Hr. rewrite Hr by lia. f_equal.
    assert (E : s1 = set_read s (readNext s + (writeNext s - readNext s - m))) by (unfold s1; f_equal; lia). fold s1. rewrite E.
    rewrite contents_drop by (done || lia). apply take_ge. rewrite length_drop. unfold contents. rewrite length_fmap, length_seq. lia.
  - apply contents_eq; cbn [readNext writeNext].
    + intros j Hj. rewrite lookup_take_lt by lia. rewrite contents_lookup by lia. done.
    + rewrite length_take. unfold contents. rewrite length_fmap, length_seq. lia.
Qed.

Lemma unput_spec s n :
  ok s -> - 2 ^ 63 <= n < 2 ^ 63 ->
  exists m, (unPutData s n).1.2 = m /\ 0 <= m <= writeNext s - readNext s /\ (0 <= n -> m <= n) /\
    copy_out (buf s) (unPutData s n).1.1 m = Some (drop (Z.to_nat (writeNext s - readNext s - m)) (contents s)) /\
    let s' := (unPutData s n).2 in
    ok s' /\ len s' = len s /\ writeNext s' <= writeNext s /\ contents s' = take (Z.to_nat (writeNext s - readNext s - m)) (contents s).
Proof.
  intros Hok Hn. pose proof Hok as [Hl Hb Hp Hf Hs]. pose proof (Z.mod_pos_bound (readNext s) (len s) ltac:(lia)) as Hm.
  unfold unPutData. rewrite (bytesAvail_ok s Hok). rewrite (swrap_small (writeNext s - readNext s)) by lia. rewrite (usub_small (len s)) by lia.
  set (l1 := if _ || _ then writeNext s - readNext s else n).
  assert (Hl1 : 0 <= l1 <= writeNext s - readNext s /\ (0 <= n -> l1 <= n)) by (unfold l1; repeat zcase; cbn; lia). rewrite (uwrap_small l1) by (unfold is_uval; lia).
  set (bte := len s - readNext s mod len s). set (m := if _ <? l1 then _ else l1). cbn [fst snd].
  assert (Em : m = if decide (bte <= writeNext s - readNext s) then Z.min l1 (writeNext s - readNext s - bte) else l1).
  { unfold m. destruct (decide (bte <= writeNext s - readNext s)) as [Hle|Hgt].
    - rewrite usub_small by lia. rewrite swrap_small by lia. zcase; lia.
    - destruct (Z.ltb_spec (usub (writeNext s - readNext s) bte) l1) as [Hlt|]; [|done]. exfalso.
      assert (E : usub (writeNext s - readNext s) bte = writeNext s - readNext s - bte + 2 ^ 64).
      { unfold usub, uwrap. symmetry. apply (Z.mod_unique_pos _ _ (-1)); lia. }
      lia. }
  assert (Hmr : 0 <= m <= writeNext s - readNext s /\ m <= l1) by (rewrite Em; destruct (decide _); lia).
  assert (Hlap : (writeNext s - m) mod len s + m <= len s).
  { pose proof (Z.div_mod (readNext s) (len s) ltac:(lia)) as Ed. set (q := readNext s / len s) in *. destruct (decide (bte <= writeNext s - readNext s)) as [Hle|Hgt].
    - assert (E : (writeNext s - m) mod len s + m <= len s \/ writeNext s - m = (q + 2) * len s).
      { destruct (decide (writeNext s - m < (q + 2) * len s)) as [Hlt|Hge]; [left|right; unfold bte in *; lia].
        rewrite <- (Z.mod_unique_pos (writeNext s - m) (len s) (q + 1) (writeNext s - m - (q + 1) * len s)); unfold bte in *; lia. }
      destruct E as [E|E]; [done|]. rewrite E, Z.mod_mul by lia. unfold bte in *. lia.
    - rewrite <- (Z.mod_unique_pos (writeNext s - m) (len s) q (writeNext s - m - q * len s)); unfold bte in *; lia. }
  destruct (contents_last s m Hok ltac:(lia) Hlap) as [Hco Hct]. rewrite usub_small by lia.
  assert (Hok1 : ok (mkRB (len s) (readNext s) (writeNext s - m) (buf s))) by (constructor; cbn [len readNext writeNext buf]; lia).
  destruct (when_empty_spec _ Hok1) as (H1 & H2 & H3 & H4). exists m. split_and!; try done; try lia. { cbn in H4. lia. } by rewrite H3.
Qed.

(** Space reserved in the first lap, filled with [d] and committed. *)
Lemma reserve_commit s n d p size :
  ok s -> writeNext s < len s -> -1 <= n < 2 ^ 63 -> reserveSpace s n = Some (p, size) -> Z.of_nat (length d) <= size ->
  exists b, copy_in (buf s) p d = Some b /\
    let s' := commitSpace (mkRB (len s) (readNext s) (writeNext s) b) (Z.of_nat (length d)) in
    ok s' /\ len s' = len s /\ contents s' = contents s ++ d.
Proof.
  intros Hok Hw Hn Hr Hd. pose proof Hok as [Hl Hb Hp Hf Hs]. unfold reserveSpace in Hr. rewrite (spaceAvail_ok s Hok) in Hr. fold (room s) in Hr.
  rewrite swrap_small in Hr by (unfold room; lia). set (n1 := if _ || _ then _ else n) in Hr.
  assert (Hn1 : 0 <= n1 <= room s) by (unfold n1, room in *; repeat zcase; cbn; lia). rewrite uadd_small in Hr by (unfold room in *; lia).
  rewrite usub_small, swrap_small in Hr by lia. set (n2 := if len s <=? _ then _ else n1) in Hr.
  assert (Hn2 : n2 <= Z.min n1 (len s - writeNext s)) by (unfold n2; zcase; lia). destruct (assertK _); [|done]. cbn in Hr. injection Hr as <- <-.
  rewrite Z.mod_small by lia. destruct (copy_in_ok (buf s) (writeNext s) d) as (b & Hc & Hlb & _); [lia|lia|]. exists b. split; [done|].
  set (s1 := mkRB (len s) (readNext s) (writeNext s) b). assert (Hok1 : ok s1) by (constructor; cbn; lia).
  unfold commitSpace. rewrite (spaceAvail_ok s1 Hok1). cbn [s1 len readNext writeNext buf]. fold (room s). rewrite swrap_small by (unfold room; lia).
  rewrite (proj2 (Z.ltb_ge _ _)) by lia. rewrite (proj2 (Z.eqb_neq _ _)) by lia. cbn [orb]. rewrite uadd_small by (unfold room in *; lia).
  destruct (when_full_spec (mkRB (len s) (readNext s) (writeNext s + Z.of_nat (length d)) b)) as (H1 & H2 & H3 & _).
  { constructor; cbn [len readNext writeNext buf]; unfold room in *; lia. }
  split_and!; [done|done|]. rewrite H3. apply contents_write; [done|rewrite Z.mod_small by lia; lia|unfold room in *; lia|by rewrite Z.mod_small by lia].
Qed.

(** ** Refinement of a bounded queue *)

Inductive op := Put (d : list Z) | Get (n : Z) | Consume (n : Z) | Peek (n : Z) | UnPut (n : Z).

Inductive result := Num (n : Z) | Bytes (d : list Z).

(** What a caller sees; the bytes behind a returned pointer are read at once. *)
Definition exec (s : t) (o : op) : option (result * t) :=
  match o with
  | Put d => '(k, s1) ← putData s d (Z.of_nat (length d)); Some (Num k, s1)
  | Get n => '(d, s1) ← getData s n; Some (Bytes d, s1)
  | Consume n => Some (Num 0, consumeBytes s n)
  | Peek n => let '(p, m) := peekBytes s n in d ← copy_out (buf s) p m; Some (Bytes d, s)
  | UnPut n => let '((p, m), s1) := unPutData s n in d ← copy_out (buf s) p m; Some (Bytes d, s1)
  end.

Fixpoint run (s : t) (ops : list op) : option (list result * t) :=
  match ops with
  | [] => Some ([], s)
  | o :: ops => '(r, s1) ← exec s o; '(rs, s2) ← run s1 ops; Some (r :: rs, s2)
  end.

(** A queue of at most [cap] bytes. *)
Definition spec (cap : Z) (q : list Z) (o : op) (r : result) (q' : list Z) : Prop :=
  let n := Z.of_nat (length q) in
  match o with
  | Put d => let k := Z.min (Z.of_nat (length d)) (cap - n) in r = Num k /\ q' = q ++ take (Z.to_nat k) d
  | Get m => r = Bytes (take (Z.to_nat m) q) /\ q' = drop (Z.to_nat m) q
  | Consume m => q' = if m =? -1 then [] else drop (Z.to_nat m) q
  | Peek m => exists k, r = Bytes (take k q) /\ (0 <= m -> Z.of_nat k <= m) /\ (m <> 0 -> q <> [] -> take k q <> []) /\ q' = q
  | UnPut m => exists k, r = Bytes (drop k q) /\ (0 <= m -> n - Z.of_nat k <= m) /\ q' = take k q
  end.

Inductive spec_run (cap : Z) : list Z -> list op -> list result -> list Z -> Prop :=
| spec_nil q : spec_run cap q [] [] q
| spec_cons q o r q1 ops rs q2 : spec cap q o r q1 -> spec_run cap q1 ops rs q2 -> spec_run cap q (o :: ops) (r :: rs) q2.

(** Sizes a caller may pass: -1 asks for all there is. *)
Definition valid (o : op) : bool :=
  match o with
  | Put _ => true
  | Get n => (0 <=? n) && (n <? 2 ^ 63)
  | Consume n | Peek n => (-1 <=? n) && (n <? 2 ^ 63)
  | UnPut n => (- 2 ^ 63 <=? n) && (n <? 2 ^ 63)
  end.

(** The bytes an operation can add. *)
Definition load (o : op) : Z := match o with Put d => Z.of_nat (length d) | _ => 0 end.

Lemma take_contents s k : ok s -> 0 <= k -> take (Z.to_nat (Z.min k (writeNext s - readNext s))) (contents s) = take (Z.to_nat k) (contents s) /\
  drop (Z.to_nat (Z.min k (writeNext s - readNext s))) (contents s) = drop (Z.to_nat k) (contents s).
Proof.
  intros Hok Hk. pose proof (contents_length s Hok) as Hl. destruct (Z.le_ge_cases k (writeNext s - readNext s)); [by rewrite Z.min_l by done|].
  rewrite Z.min_r by done. by rewrite !take_ge, !drop_ge by lia.
Qed.

Lemma exec_spec s o :
  ok s -> valid o = true -> writeNext s + load o < 2 ^ 63 ->
  exists r s', exec s o = Some (r, s') /\ spec (len s) (contents s) o r (contents s') /\ ok s' /\ len s' = len s /\
    writeNext s' <= Z.max (writeNext s + load o) (2 * len s).
Proof.
  intros Hok Hv Hld. pose proof Hok as [Hl Hb Hp Hf Hs]. pose proof (contents_length s Hok) as Hcl. destruct o as [d|n|n|n|n]; cbn [valid load exec spec] in *; bool_props.
  - destruct (put_loop_spec s d (Z.of_nat (length d))) as (s1 & Hr & Hok1 & El & _ & Ew & Ec); [done|lia|done|]. unfold putData. rewrite Hr. cbn [mbind option_bind].
    destruct (when_full_spec s1 Hok1) as (H1 & H2 & H3 & H4). eexists _, _. split; [reflexivity|]. rewrite H2, H3, Ec. unfold room in *. rewrite Hcl. split_and!; [done|done|done|done|].
    rewrite Ew, El in H4. lia.
  - destruct (get_loop_spec s n) as (s1 & Hr & Hok1 & El & Ew & Ec); [done|lia|]. unfold getData. rewrite Hr. cbn [mbind option_bind].
    destruct (when_empty_spec s1 Hok1) as (H1 & H2 & H3 & H4). destruct (take_contents s n Hok ltac:(lia)) as [E1 E2]. eexists _, _. split; [reflexivity|].
    rewrite H2, H3, Ec, E1, E2. split_and!; try done. lia.
  - destruct (consume_spec s n Hok) as (H1 & H2 & H3 & H4); [lia|]. eexists _, _. split; [reflexivity|]. split_and!; [|done|done|lia]. rewrite H4.
    destruct (Z.eqb_spec n (-1)); [apply drop_ge; lia|]. apply (take_contents s n Hok). lia.
  - destruct (peek_spec s n Hok) as (m & Em & H1 & H2 & H3 & H4); [lia|]. destruct (peekBytes s n) as [p m']. cbn [fst snd] in *. subst m'. rewrite H4. cbn [mbind option_bind].
    eexists _, _. split; [reflexivity|]. split_and!; [|done|done|lia]. exists (Z.to_nat m). split_and!; [done|lia| |done].
    intros Hn Hq E. apply (f_equal length) in E. rewrite length_take in E. cbn in E. destruct (contents s); [done|]. cbn [length] in *. lia.
  - destruct (unput_spec s n Hok) as (m & Em & H1 & H2 & H3 & H4 & H5 & H6 & H7); [lia|]. destruct (unPutData s n) as [[p m'] s1]. cbn [fst snd] in *. subst m'. rewrite H3. cbn [mbind option_bind].
    eexists _, _. split; [reflexivity|]. split_and!; [|done|done|lia]. eexists. split_and!; [reflexivity|lia|done].
Qed.

(** C26: the ring buffer refines a bounded queue: over any sequence of putData,
    getData, consumeBytes, peekBytes and unPutData with fewer than 2^61 bytes put
    in all, no call fails, bytes come out in the order they went in, putData
    takes as much as fits, and peeked or taken-back bytes are the first or last
    of the queue, at least one when there are any to peek at. *)
Theorem ring_refines_queue cap b ops :
  0 < cap <= 2 ^ 60 -> Z.of_nat (length b) = cap -> forallb valid ops = true -> foldr (fun o n => load o + n) 0 ops < 2 ^ 61 ->
  exists rs s, run (init cap b) ops = Some (rs, s) /\ spec_run cap [] ops rs (contents s).
Proof.
  intros Hcap Hb Hv Hld. assert (Hok : ok (init cap b)) by (constructor; cbn; lia).
  assert (Hgen : forall ops s w, ok s -> len s = cap -> forallb valid ops = true -> writeNext s <= w -> 2 * cap <= w -> w + foldr (fun o n => load o + n) 0 ops < 2 ^ 63 ->
    exists rs s', run s ops = Some (rs, s') /\ spec_run cap (contents s) ops rs (contents s')).
  { clear. induction ops as [|o ops IH]; intros s w Hok El Hv Hw Hw2 Hld; cbn [run forallb foldr] in *; [eexists _, _; split; [reflexivity|constructor]|].
    apply andb_true_iff in Hv as [Hvo Hv]. assert (H0 : forall l, 0 <= foldr (fun o n => load o + n) 0 l).
    { induction l as [|[] l IHl]; cbn [foldr load]; lia. }
    pose proof (H0 ops) as Hops. destruct (exec_spec s o Hok Hvo) as (r & s1 & He & Hsp & Hok1 & El1 & Hw1); [lia|]. rewrite He. cbn [mbind option_bind].
    assert (Hlo : 0 <= load o) by (destruct o; cbn [load]; lia).
    destruct (IH s1 (w + load o) Hok1) as (rs & s2 & Hr & Hsr); [congruence|done|rewrite El in Hw1; lia|lia|lia|]. rewrite Hr. cbn [mbind option_bind].
    eexists _, _. split; [reflexivity|]. rewrite El in Hsp. by econstructor. }
  destruct (Hgen ops (init cap b) (2 * cap) Hok) as (rs & s & Hr & Hs); [done|done|cbn; lia|lia|lia|]. by exists rs, s.
Qed.

Lemma ring_refines_queue_witness :
  let ops := [Put [1; 2; 3; 4; 5]; Get 2; Put [6; 7; 8]; Peek (-1); UnPut 1; Get 9] in
  exists rs s, run (init 6 [0; 0; 0; 0; 0; 0]) ops = Some (rs, s) /\ spec_run 6 [] ops rs (contents s).
Proof. intros ops. apply (ring_refines_queue 6 [0; 0; 0; 0; 0; 0] ops); [lia|reflexivity|reflexivity|reflexivity]. Defined.

Lemma ring_example :
  run (init 6 [0; 0; 0; 0; 0; 0]) [Put [1; 2; 3; 4; 5]; Get 2; Put [6; 7; 8]; Peek (-1); UnPut 1; Get 9] =
  Some ([Num 5; Bytes [1; 2]; Num 3; Bytes [3; 4; 5; 6]; Bytes [8]; Bytes [3; 4; 5; 6; 7]], init 6 [7; 8; 3; 4; 5; 6]).
Proof. reflexivity. Qed.

(** ** Calls that do not do what their names say *)

(** getDelimData compares the byte after the one it has copied: the delimiter 10
    is copied and passed over. *)
Lemma getDelim_misses_delimiter :
  getDelimData (mkRB 8 0 3 [97; 10; 98; 0; 0; 0; 0; 0]) [0; 0; 0; 0] 4 10 = Some (3, [97; 10; 98; 0], init 8 [97; 10; 98; 0; 0; 0; 0; 0]).
Proof. reflexivity. Qed.

(** reserveSpace fails its assertion although there is space when the write
    position is past the first lap. *)
Lemma reserve_after_lap_stuck :
  exists rs s, run (init 4 [0; 0; 0; 0]) [Put [1; 2; 3; 4]; Get 2] = Some (rs, s) /\ spaceAvail s = 2 /\ reserveSpace s 1 = None.
Proof. eexists _, _. split; [reflexivity|]. by vm_compute. Qed.

End IORingBuffer.
