(* ===== verification/IPCRetryManager.v ===== *)
(** * IPCRetryManager: waking the callers of busy processes, os/kernel/exception/IPCRetryManager.C

    When a process refuses an inter-process call, its caller is queued to be
    told to retry.  Processes are folded into 64 retry identifiers: a target
    keeps a bit vector of the identifiers of the callers that wait for it, and a
    caller, on the list of its own identifier, a bit vector of the identifiers
    of the targets it waits for. *)

From stdpp Require Import base numbers option gmap list.
From S2P Require Import K42 Prelude IPCTargetTable.

Module IPCRetryManager.

(** The fields of ProcessAnnex and of its dispatcher that take part. *)
Record ProcessAnnex := mkPA {
  commID : Z;
  reservedThread : bool;          (* reservedThread != NULL *)
  ipcRetryTargets : Z;            (* who we wait for *)
  ipcRetrySources : Z;            (* who waits for us *)
  ipcDeferredRetrySources : Z;
  ipcRetryNext : Z;
  preempt : bool;                 (* SoftIntr::PREEMPT requested *)
  ipcRetryID : Z;                 (* dispatcher->ipcRetryID *)
  ipcRetry : Z;                   (* dispatcher->ipcRetry *)
  retryNotify : bool;             (* SoftIntr::IPC_RETRY_NOTIFY delivered *)
}.

Definition NUM_IPC_RETRY_IDS : Z := 64.
Definition REMOTE_IPC_RETRY_ID : Z := NUM_IPC_RETRY_IDS - 1.

Definition getRetryID (pa : ProcessAnnex) : Z :=
  IPCTargetTable.PID_FROM_COMMID (commID pa) mod NUM_IPC_RETRY_IDS.

#[export] Instance retry_linked : Linked ProcessAnnex Z := {|
  next := ipcRetryNext;
  set_next := fun p n => mkPA (commID n) (reservedThread n) (ipcRetryTargets n) (ipcRetrySources n)
    (ipcDeferredRetrySources n) p (preempt n) (ipcRetryID n) (ipcRetry n) (retryNotify n);
  payload := getRetryID;
  next_set_next := fun _ _ => eq_refl;
  payload_set_next := fun _ _ => eq_refl;
|}.

Definition set_targets (v : Z) (n : ProcessAnnex) : ProcessAnnex :=
  mkPA (commID n) (reservedThread n) v (ipcRetrySources n) (ipcDeferredRetrySources n) (ipcRetryNext n)
    (preempt n) (ipcRetryID n) (ipcRetry n) (retryNotify n).

Definition set_sources (v : Z) (n : ProcessAnnex) : ProcessAnnex :=
  mkPA (commID n) (reservedThread n) (ipcRetryTargets n) v (ipcDeferredRetrySources n) (ipcRetryNext n)
    (preempt n) (ipcRetryID n) (ipcRetry n) (retryNotify n).

Record t := mkM { headSource : list Z; remoteIPCRetrySources : Z }.

Abbreviation memory := (gmap Z ProcessAnnex) (only parsing).

(** [init] clears the lists only. *)
Definition init (s : t) : t := mkM (replicate 64 NULL) (remoteIPCRetrySources s).

Definition bit (i : Z) : Z := ushl 1 i.

(** A source joins the list of its identifier when it starts to wait. *)
Definition add_source (h : memory) (s : t) (source targetBit : Z) : option (memory * t) :=
  n ← h !! source;
  let sourceBit := getRetryID n in
  '(n1, heads) ←
    (if ipcRetryTargets n =? 0 then
       first ← headSource s !! Z.to_nat sourceBit;
       Some (set_next first n, <[Z.to_nat sourceBit := source]> (headSource s))
     else Some (n, headSource s));
  let n2 := mkPA (commID n1) (reservedThread n1) (Z.lor (ipcRetryTargets n1) (bit targetBit)) (ipcRetrySources n1)
    (ipcDeferredRetrySources n1) (ipcRetryNext n1) (preempt n1) targetBit (ipcRetry n1) (retryNotify n1) in
  Some (<[source := n2]> h, mkM heads (remoteIPCRetrySources s)).

(** The target remembers the source, for now or for when its entry point is set. *)
Definition note_source (sourceBit : Z) (m : ProcessAnnex) : ProcessAnnex :=
  if reservedThread m then
    mkPA (commID m) (reservedThread m) (ipcRetryTargets m) (Z.lor (ipcRetrySources m) (bit sourceBit))
      (ipcDeferredRetrySources m) (ipcRetryNext m) true (ipcRetryID m) (ipcRetry m) (retryNotify m)
  else
    mkPA (commID m) (reservedThread m) (ipcRetryTargets m) (ipcRetrySources m)
      (Z.lor (ipcDeferredRetrySources m) (bit sourceBit)) (ipcRetryNext m) (preempt m) (ipcRetryID m) (ipcRetry m) (retryNotify m).

Definition requestNotification (h : memory) (s : t) (source target : Z) : option (memory * t) :=
  n ← h !! source;
  m ← h !! target;
  add_source (<[target := note_source (getRetryID n) m]> h) s source (getRetryID m).

(** What a match does to a source. *)
Definition deliver (matches : Z) (n : ProcessAnnex) : ProcessAnnex :=
  mkPA (commID n) (reservedThread n) (Z.land (ipcRetryTargets n) (unot matches)) (ipcRetrySources n)
    (ipcDeferredRetrySources n) (ipcRetryNext n) (preempt n) (ipcRetryID n) (Z.lor (ipcRetry n) matches) true.

(** Taking the node whose successor is [nx] off a list, given the node before it. *)
Definition unlink_after (h : memory) (first prev nx : Z) : option (memory * Z) :=
  if prev =? NULL then Some (h, nx)
  else
    p ← h !! prev;
    Some (<[prev := set_next nx p]> h, first).

(** The inner loop: the list of one identifier. *)
Fixpoint notify_chain (fuel : nat) (h : memory) (first prev source targets : Z) : option (memory * Z) :=
  match fuel with
  | O => None
  | S fuel =>
      if source =? NULL then Some (h, first)
      else
        n ← h !! source;
        let matches := Z.land (ipcRetryTargets n) targets in
        if negb (matches =? 0) then
          let n1 := deliver matches n in
          let h1 := <[source := n1]> h in
          if ipcRetryTargets n1 =? 0 then
            '(h2, first2) ← unlink_after h1 first prev (next n1);
            notify_chain fuel h2 first2 prev (next n1) targets
          else notify_chain fuel h1 first source (next n1) targets
        else notify_chain fuel h first source (next n) targets
  end.

(** One of the six tests that find the lowest bit. *)
Definition shift_if (k : Z) (sb : Z * Z) : Z * Z :=
  let '(sources, sourceBit) := sb in
  if Z.land sources (2 ^ k - 1) =? 0 then (Z.shiftr sources k, sourceBit + k) else (sources, sourceBit).

Definition lowest (sources sourceBit : Z) : Z * Z :=
  shift_if 1 (shift_if 2 (shift_if 4 (shift_if 8 (shift_if 16 (shift_if 32 (sources, sourceBit)))))).

Fixpoint notify_loop (fuel : nat) (h : memory) (s : t) (sources sourceBit targets : Z) : option (memory * t) :=
  match fuel with
  | O => None
  | S fuel =>
      if sources =? 0 then Some (h, s)
      else
        let '(sources1, sourceBit1) := lowest sources sourceBit in
        first ← headSource s !! Z.to_nat sourceBit1;
        '(h1, first1) ← notify_chain (S (size h)) h first NULL first targets;
        notify_loop fuel h1 (mkM (<[Z.to_nat sourceBit1 := first1]> (headSource s)) (remoteIPCRetrySources s))
          (Z.shiftr sources1 1) (sourceBit1 + 1) targets
  end.

Definition internal_notify (h : memory) (s : t) (sources targets : Z) : option (memory * t) :=
  notify_loop 65 h s sources 0 targets.

Definition notify (h : memory) (s : t) (target : Z) : option (memory * t) :=
  m ← h !! target;
  internal_notify (<[target := set_sources 0 m]> h) s (ipcRetrySources m) (bit (getRetryID m)).

Definition requestNotificationRemote (h : memory) (s : t) (source : Z) : option (memory * t) :=
  n ← h !! source;
  add_source h (mkM (headSource s) (Z.lor (remoteIPCRetrySources s) (bit (getRetryID n)))) source REMOTE_IPC_RETRY_ID.

Definition notifyRemote (h : memory) (s : t) : option (memory * t) :=
  internal_notify h (mkM (headSource s) 0) (remoteIPCRetrySources s) (bit REMOTE_IPC_RETRY_ID).

Definition checkRemoteNotifications (h : memory) (s : t) : option (memory * t) :=
  if negb (remoteIPCRetrySources s =? 0) then notifyRemote h s else Some (h, s).

Definition remove (h : memory) (s : t) (pa : Z) : option (memory * t) :=
  n ← h !! pa;
  '(h1, s1) ← (if negb (ipcRetrySources n =? 0) then notify h s pa else Some (h, s));
  n1 ← h1 !! pa;
  if negb (ipcRetryTargets n1 =? 0) then
    let h2 := <[pa := set_targets 0 n1]> h1 in
    let i := Z.to_nat (getRetryID n1) in
    first ← headSource s1 !! i;
    '(prev, source) ← walk (fun a _ => a =? pa) (S (size h2)) h2 NULL first;
    _ ← assertK (negb (source =? NULL));
    src ← h2 !! source;
    '(h3, first3) ← unlink_after h2 first prev (next src);
    Some (h3, mkM (<[i := first3]> (headSource s1)) (remoteIPCRetrySources s1))
  else Some (h1, s1).

Definition GetIPCRetryIDs (n : ProcessAnnex) : Z := ipcRetryTargets n.

(** ProcessAnnex::setEntryPoint of the IPC call entry: refused calls may be retried. *)
Definition enableEntry (h : memory) (pa : Z) (pendingCall : bool) : option memory :=
  n ← h !! pa;
  Some (if (ipcDeferredRetrySources n =? 0) && negb pendingCall then h
        else <[pa := mkPA (commID n) (reservedThread n) (ipcRetryTargets n)
                       (Z.lor (ipcRetrySources n) (ipcDeferredRetrySources n)) 0 (ipcRetryNext n) true
                       (ipcRetryID n) (ipcRetry n) (retryNotify n)]> h).

(** ** Bits *)

Lemma bit_spec i j : 0 <= i < 64 -> Z.testbit (bit i) j = (j =? i).
Proof. apply ushl1_bits. Qed.

Lemma getRetryID_range n : 0 <= getRetryID n < 64.
Proof. unfold getRetryID, NUM_IPC_RETRY_IDS. apply Z.mod_pos_bound. lia. Qed.

(** The low [k] bits are clear. *)
Lemma land_mask_zero x k : 0 <= k -> Z.land x (2 ^ k - 1) = 0 <-> (forall j, 0 <= j < k -> Z.testbit x j = false).
Proof.
  intros Hk. replace (2 ^ k - 1) with (Z.ones k) by (rewrite Z.ones_equiv; lia). split.
  - intros H j Hj. assert (Ht : Z.testbit (Z.land x (Z.ones k)) j = false) by (rewrite H; apply Z.bits_0).
    rewrite Z.land_spec, Z.testbit_ones in Ht by lia. destruct (Z.leb_spec 0 j), (Z.ltb_spec j k); try lia.
    by rewrite andb_true_r in Ht.
  - intros H. apply Z.bits_inj'. intros j Hj. rewrite Z.land_spec, Z.bits_0, Z.testbit_ones by lia.
    rewrite (proj2 (Z.leb_le 0 j) Hj). destruct (Z.ltb_spec j k); [rewrite H by lia; done|apply andb_false_r].
Qed.

(** [sb] has moved up by [d] positions from [x], over zeros only. *)
Definition moved (x b : Z) (sb : Z * Z) (d : Z) : Prop :=
  0 <= d /\ sb.2 = b + d /\ sb.1 = Z.shiftr x d /\ forall j, 0 <= j < d -> Z.testbit x j = false.

Lemma shift_if_spec k x b sb d :
  0 < k -> moved x b sb d -> (exists j, 0 <= j < 2 * k /\ Z.testbit sb.1 j = true) ->
  exists d', moved x b (shift_if k sb) d' /\ d <= d' <= d + k /\ exists j, 0 <= j < k /\ Z.testbit (shift_if k sb).1 j = true.
Proof.
  intros Hk (Hd & E2 & E1 & Hz) (j & Hj & Hb). destruct sb as [y c]. cbn [fst snd] in *. unfold shift_if.
  destruct (Z.eqb_spec (Z.land y (2 ^ k - 1)) 0) as [E|E].
  - pose proof (proj1 (land_mask_zero y k ltac:(lia)) E) as Hlow. assert (Hkj : k <= j) by (destruct (Z_lt_le_dec j k); [rewrite Hlow in Hb by lia; done|done]).
    exists (d + k). split; [|split; [lia|exists (j - k); split; [lia|]]].
    + split; [lia|]. cbn [fst snd]. split; [lia|]. split; [rewrite E1, Z.shiftr_shiftr by lia; done|].
      intros i Hi. destruct (Z_lt_le_dec i d); [apply Hz; lia|]. specialize (Hlow (i - d) ltac:(lia)).
      rewrite E1, Z.shiftr_spec in Hlow by lia. by replace (i - d + d) with i in Hlow by lia.
    + cbn [fst]. rewrite Z.shiftr_spec by lia. by replace (j - k + k) with j by lia.
  - exists d. split; [done|]. split; [lia|]. cbn [fst]. set (l := Z.land y (2 ^ k - 1)) in *.
    assert (Hmask : 2 ^ k - 1 = Z.ones k) by (rewrite Z.ones_equiv; lia).
    assert (Hl : 0 < l) by (pose proof (Z.pow_pos_nonneg 2 k ltac:(lia) ltac:(lia)); assert (0 <= l) by (apply Z.land_nonneg; lia); lia).
    pose proof (Z.bit_log2 l Hl) as Hlog. pose proof (Z.log2_nonneg l). unfold l in Hlog at 1. rewrite Z.land_spec, Hmask, Z.testbit_ones in Hlog by lia.
    apply andb_true_iff in Hlog as [Hy Hr]. apply andb_true_iff in Hr as [_ Hr]. bool_props. exists (Z.log2 l). done.
Qed.

(** The six tests find the lowest bit. *)
Lemma lowest_spec x b :
  0 < x < 2 ^ 64 -> exists d, moved x b (lowest x b) d /\ 0 <= d < 64 /\ Z.testbit x d = true.
Proof.
  intros Hx. assert (H0 : moved x b (x, b) 0).
  { split; [lia|]. cbn [fst snd]. split; [lia|]. split; [by rewrite Z.shiftr_0_r|]. intros; lia. }
  assert (Hj : exists j, 0 <= j < 2 * 32 /\ Z.testbit x j = true).
  { exists (Z.log2 x). split; [|apply Z.bit_log2; lia]. split; [apply Z.log2_nonneg|]. apply Z.log2_lt_pow2; lia. }
  destruct (shift_if_spec 32 x b _ 0 ltac:(lia) H0 Hj) as (d1 & M1 & B1 & J1).
  destruct (shift_if_spec 16 x b _ d1 ltac:(lia) M1 J1) as (d2 & M2 & B2 & J2).
  destruct (shift_if_spec 8 x b _ d2 ltac:(lia) M2 J2) as (d3 & M3 & B3 & J3).
  destruct (shift_if_spec 4 x b _ d3 ltac:(lia) M3 J3) as (d4 & M4 & B4 & J4).
  destruct (shift_if_spec 2 x b _ d4 ltac:(lia) M4 J4) as (d5 & M5 & B5 & J5).
  destruct (shift_if_spec 1 x b _ d5 ltac:(lia) M5 J5) as (d6 & M6 & B6 & (j & Hj6 & J6)).
  exists d6. assert (j = 0) as -> by lia. split; [exact M6|]. split; [lia|].
  destruct M6 as (_ & _ & E & _). unfold lowest in *. rewrite E, Z.shiftr_spec in J6 by lia. by rewrite Z.add_0_l in J6.
Qed.

Lemma land_uval x y : is_uval x -> is_uval (Z.land x y).
Proof.
  rewrite !is_uval_bits. intros [Hx Bx]. split; [apply Z.land_nonneg; lia|].
  intros j Hj. by rewrite Z.land_spec, Bx.
Qed.

Lemma bit_uval i : is_uval (bit i).
Proof. apply uwrap_range. Qed.

(** ** The lists

    [core] forgets the list pointer: what is left of an annex is what its
    process and the other annexes can observe. *)
Definition core (n : ProcessAnnex) : ProcessAnnex := set_next NULL n.

(** What a notification of [targets] does to one annex. *)
Definition hit (targets : Z) (n : ProcessAnnex) : ProcessAnnex :=
  let matches := Z.land (ipcRetryTargets n) targets in
  if matches =? 0 then n else deliver matches n.

Lemma core_hit targets n : core (hit targets n) = hit targets (core n).
Proof. unfold hit. cbn. by destruct (_ =? 0). Qed.

Lemma next_hit targets n : next (hit targets n) = next n.
Proof. unfold hit. by destruct (_ =? 0). Qed.

Lemma getRetryID_hit targets n : getRetryID (hit targets n) = getRetryID n.
Proof. unfold hit. by destruct (_ =? 0). Qed.

Lemma chain_unlink_after h first A a d B n :
  chain h first (A ++ (a, d) :: B) NULL -> h !! a = Some n ->
  exists h' f', unlink_after h first (last_addr NULL A) (next n) = Some (h', f') /\
    chain h' f' (A ++ B) NULL /\ core <$> h' = core <$> h /\ (forall b, b ∉ A.*1 -> h' !! b = h !! b).
Proof.
  intros Hc Ha. unfold unlink_after. destruct A as [|[b e] A _] using rev_ind.
  - exists h, (next n). split; [done|]. destruct Hc as (_ & _ & n' & Hn' & _ & Hc).
    assert (n' = n) as -> by congruence. done.
  - rewrite last_addr_snoc. rewrite <- app_assoc in Hc |- *. cbn [app] in Hc |- *.
    destruct (chain_elem _ _ _ _ b e Hc) as (Hb & nb & Hnb & _); [apply elem_of_app; right; by left|].
    rewrite (proj2 (Z.eqb_neq b NULL) Hb), Hnb. cbn [mbind option_bind]. eexists _, _. split; [reflexivity|].
    split; [by eapply chain_bypass|]. split.
    + rewrite fmap_insert. apply insert_id. by rewrite lookup_fmap, Hnb.
    + intros c Hc'. apply lookup_insert_ne. intros ->. apply Hc'. rewrite fmap_app. apply elem_of_app. right. by left.
Qed.

(** From a list [l1 ++ l2] in [h], the annexes of [l2] have been hit and those
    that still wait for someone make up, with [l1], the list [l']. *)
Definition notified (targets : Z) (h : memory) (l1 l2 : list (Z * Z)) (h' : memory) (first' : Z) (l' : list (Z * Z)) : Prop :=
  chain h' first' l' NULL /\
  (forall a, core <$> h' !! a = (if decide (a ∈ l2.*1) then hit targets else id) <$> (core <$> h !! a)) /\
  (forall a, a ∉ (l1 ++ l2).*1 -> h' !! a = h !! a) /\
  (forall a, a ∈ l'.*1 <-> a ∈ l1.*1 \/ a ∈ l2.*1 /\ exists n, core <$> h !! a = Some n /\ ipcRetryTargets (hit targets n) <> 0).

(** One round on [a], which stays on the list or not. *)
Lemma notified_step targets h l1 a d l2 n h2 l1' h' first' l' :
  h !! a = Some n -> a ∉ l2.*1 ->
  core <$> h2 = <[a := core (hit targets n)]> (core <$> h) ->
  (forall b, b ∉ (l1 ++ (a, d) :: l2).*1 -> h2 !! b = h !! b) ->
  (forall b, b ∈ l1'.*1 <-> b ∈ l1.*1 \/ b = a /\ ipcRetryTargets (hit targets n) <> 0) ->
  notified targets h2 l1' l2 h' first' l' -> notified targets h l1 ((a, d) :: l2) h' first' l'.
Proof.
  intros Hn Hal2 Hcore Hfr Hmem (Hch & Hco & Hfr' & Hmem').
  assert (Hlk : forall b, core <$> h2 !! b = if decide (b = a) then Some (core (hit targets n)) else core <$> h !! b).
  { intros b. rewrite <- lookup_fmap, Hcore. case_decide as Hb; [subst; by rewrite lookup_insert_eq|].
    by rewrite lookup_insert_ne, lookup_fmap. }
  assert (Hlk2 : forall b, b ∈ l2.*1 -> core <$> h2 !! b = core <$> h !! b).
  { intros b Hb. rewrite Hlk. case_decide; [by subst|done]. }
  split; [done|]. split; [|split].
  - intros b. rewrite Hco, Hlk, fmap_cons. cbn [fst]. destruct (decide (b = a)) as [->|Hba].
    + rewrite decide_False by done. rewrite decide_True by by left. rewrite Hn. cbn. f_equal. apply core_hit.
    + destruct (decide (b ∈ l2.*1)); [by rewrite decide_True by by right|rewrite decide_False; [done|]].
      by rewrite not_elem_of_cons.
  - intros b Hb. rewrite <- (Hfr b Hb). apply Hfr'. revert Hb. rewrite !fmap_app, !not_elem_of_app, fmap_cons, not_elem_of_cons.
    cbn [fst]. intros (H1 & H2 & H3). rewrite Hmem. split; [tauto|done].
  - intros b. rewrite Hmem', Hmem, fmap_cons, elem_of_cons. cbn [fst]. split.
    + intros [[|[-> HT']]|[Hb Hm]]; [by left| |].
      * right. split; [by left|]. exists (core n). rewrite Hn. split; [done|]. by rewrite <- core_hit.
      * right. split; [by right|]. by rewrite <- (Hlk2 b Hb).
    + intros [|[[->|Hb] Hm]]; [by left; left| |].
      * left. right. split; [done|]. destruct Hm as (m & Hm & HT'). rewrite Hn in Hm. injection Hm as <-.
        by rewrite <- core_hit in HT'.
      * right. split; [done|]. by rewrite (Hlk2 b Hb).
Qed.

(** The inner loop hits every annex of the rest of the list and keeps those
    that still wait for someone. *)
Lemma notify_chain_spec targets fuel h first l1 l2 :
  chain h first (l1 ++ l2) NULL ->
  (forall a n, a ∈ l2.*1 -> core <$> h !! a = Some n -> ipcRetryTargets n <> 0) -> (length l2 < fuel)%nat ->
  exists h' first' l',
    notify_chain fuel h first (last_addr NULL l1) (default NULL (fst <$> head l2)) targets = Some (h', first') /\
    notified targets h l1 l2 h' first' l'.
Proof.
  revert h first l1 l2. induction fuel as [|fuel IH]; intros h first l1 l2 Hc HT Hf; [lia|].
  destruct l2 as [|[a d] l2].
  { exists h, first, l1. rewrite app_nil_r in Hc. split; [done|]. split; [done|]. split; [|split; [done|]].
    - intros a. cbn. destruct (h !! a); done.
    - intros a. split; [by left|]. intros [|[Hin _]]; [done|]. by apply elem_of_nil in Hin. }
  pose proof (chain_nodup _ _ _ Hc) as Hnd. rewrite fmap_app, fmap_cons in Hnd. cbn [fst] in Hnd.
  apply NoDup_app in Hnd as (_ & Hd & [Hal2 Hnd2]%NoDup_cons).
  destruct (chain_elem _ _ _ _ a d Hc) as (Ha & n & Hn & Hp); [apply elem_of_app; right; by left|].
  assert (Hnx : next n = default NULL (fst <$> head l2)).
  { apply chain_app in Hc as (m & _ & (_ & _ & n' & Hn' & _ & Hc)). assert (n' = n) as -> by congruence.
    exact (chain_head _ _ _ Hc). }
  cbn [notify_chain head fmap option_fmap option_map default from_option id fst length] in Hf |- *.
  rewrite (proj2 (Z.eqb_neq a NULL) Ha), Hn. cbn [mbind option_bind].
  assert (Hgo : forall h2 first2 l1', chain h2 first2 (l1' ++ l2) NULL ->
    core <$> h2 = <[a := core (hit targets n)]> (core <$> h) ->
    (forall b, b ∉ (l1 ++ (a, d) :: l2).*1 -> h2 !! b = h !! b) ->
    (forall b, b ∈ l1'.*1 <-> b ∈ l1.*1 \/ b = a /\ ipcRetryTargets (hit targets n) <> 0) ->
    exists h' first' l', notify_chain fuel h2 first2 (last_addr NULL l1') (next n) targets = Some (h', first') /\
      notified targets h l1 ((a, d) :: l2) h' first' l').
  { intros h2 first2 l1' Hc2 Hcore Hfr Hmem. destruct (IH h2 first2 l1' l2 Hc2) as (h' & first' & l' & Hrun & Hno).
    - intros b m Hb. rewrite <- lookup_fmap, Hcore, lookup_insert_ne, lookup_fmap by congruence. apply HT. by right.
    - lia.
    - exists h', first', l'. rewrite Hnx. split; [done|]. by eapply notified_step. }
  assert (Hc2 : chain (<[a := hit targets n]> h) first (l1 ++ (a, d) :: l2) NULL).
  { apply (chain_insert_same h _ _ _ a n); [done|apply next_hit|apply getRetryID_hit|done]. }
  assert (Hcore2 : core <$> <[a := hit targets n]> h = <[a := core (hit targets n)]> (core <$> h)) by apply fmap_insert.
  assert (Hfr2 : forall b, b ∉ (l1 ++ (a, d) :: l2).*1 -> <[a := hit targets n]> h !! b = h !! b).
  { intros b Hb. apply lookup_insert_ne. intros ->. apply Hb. rewrite fmap_app. apply elem_of_app. right. by left. }
  assert (Hsnoc : ipcRetryTargets (hit targets n) <> 0 ->
    forall b, b ∈ (l1 ++ [(a, d)]).*1 <-> b ∈ l1.*1 \/ b = a /\ ipcRetryTargets (hit targets n) <> 0).
  { intros HT' b. rewrite fmap_app, elem_of_app. cbn. rewrite list_elem_of_singleton. tauto. }
  assert (Eapp : l1 ++ (a, d) :: l2 = (l1 ++ [(a, d)]) ++ l2) by by rewrite <- app_assoc.
  assert (Hlast : last_addr NULL (l1 ++ [(a, d)]) = a) by apply last_addr_snoc.
  destruct (Z.land (ipcRetryTargets n) targets =? 0) eqn:Em; cbn [negb].
  - assert (Eh : hit targets n = n) by (unfold hit; by rewrite Em).
    specialize (Hgo h first (l1 ++ [(a, d)])). rewrite Hlast in Hgo. rewrite Eh, insert_id in Hcore2 by done.
    apply Hgo; [by rewrite <- Eapp|by rewrite Eh|done|]. apply Hsnoc. rewrite Eh. apply (HT a (core n)); [by left|by rewrite Hn].
  - assert (Eh : hit targets n = deliver (Z.land (ipcRetryTargets n) targets) n) by (unfold hit; by rewrite Em).
    rewrite <- Eh, next_hit. destruct (Z.eqb_spec (ipcRetryTargets (hit targets n)) 0) as [E0|E0].
    + destruct (chain_unlink_after _ _ _ _ _ _ (hit targets n) Hc2 ltac:(apply lookup_insert_eq)) as (h2 & f2 & Hu & Hc3 & Hco3 & Hfr3).
      rewrite next_hit in Hu. rewrite Hu. cbn [mbind option_bind]. apply Hgo; [done|by rewrite Hco3| |].
      * intros b Hb. rewrite Hfr3, Hfr2; [done..|]. intros Hin. apply Hb. rewrite fmap_app. apply elem_of_app. by left.
      * intros b. split; [by left|]. intros [|[_ ?]]; done.
    + specialize (Hgo (<[a := hit targets n]> h) first (l1 ++ [(a, d)])). rewrite Hlast in Hgo. apply Hgo; [by rewrite <- Eapp|done|done|]. by apply Hsnoc.
Qed.

(** ** Well-formed managers

    The list of identifier [i] holds exactly the annexes of that identifier
    that wait for someone. *)
Record wf (h : memory) (s : t) : Prop := {
  wf_heads : length (headSource s) = 64%nat;
  wf_null : h !! NULL = None;
  wf_chain : forall i p, headSource s !! i = Some p -> exists l, chain h p l NULL /\
    forall a, a ∈ l.*1 <-> exists n, core <$> h !! a = Some n /\ getRetryID n = Z.of_nat i /\ ipcRetryTargets n <> 0;
  wf_words : forall a n, h !! a = Some n ->
    is_uval (ipcRetryTargets n) /\ is_uval (ipcRetrySources n) /\ is_uval (ipcDeferredRetrySources n);
  wf_remote : is_uval (remoteIPCRetrySources s);
}.

Lemma hit_uval targets n : is_uval (ipcRetryTargets n) -> is_uval (ipcRetryTargets (hit targets n)).
Proof.
  intros Hn. unfold hit. destruct (_ =? 0); [done|]. cbn [deliver ipcRetryTargets]. rewrite land_unot; [by apply ldiff_uval|done|by apply land_uval].
Qed.

Lemma core_Some (h : memory) a n : core <$> h !! a = Some n -> exists m, h !! a = Some m /\ n = core m.
Proof. destruct (h !! a) as [m|]; [|done]. cbn. intros [= <-]. eauto. Qed.

Lemma core_lookup (h h' : memory) a : core <$> h' = core <$> h -> core <$> h' !! a = core <$> h !! a.
Proof. intros H. by rewrite <- !lookup_fmap, H. Qed.

(** A change confined to the annexes of identifier [i] and the head of its list. *)
Lemma wf_slot h s h' i p' r :
  wf h s ->
  (forall a, getRetryID <$> h' !! a = getRetryID <$> h !! a) ->
  (forall a n, h !! a = Some n -> getRetryID n <> Z.of_nat i -> h' !! a = Some n) ->
  (exists l, chain h' p' l NULL /\
    forall a, a ∈ l.*1 <-> exists n, core <$> h' !! a = Some n /\ getRetryID n = Z.of_nat i /\ ipcRetryTargets n <> 0) ->
  (forall a n, h' !! a = Some n ->
    is_uval (ipcRetryTargets n) /\ is_uval (ipcRetrySources n) /\ is_uval (ipcDeferredRetrySources n)) ->
  is_uval r -> wf h' (mkM (<[i := p']> (headSource s)) r).
Proof.
  intros [Hl H0 Hc _ _] Hid Hfr Hi Hw Hr. constructor; cbn [headSource remoteIPCRetrySources]; [by rewrite length_insert| | |done|done].
  - specialize (Hid NULL). rewrite H0 in Hid. by destruct (h' !! NULL).
  - intros j q Hq. apply list_lookup_insert_Some in Hq as [(<- & <- & _)|(Hne & Hq)]; [done|].
    destruct (Hc j q Hq) as (l & Hch & Hmem).
    assert (Heq : forall a n, core <$> h !! a = Some n -> getRetryID n = Z.of_nat j -> h' !! a = h !! a).
    { intros a n Hn Hg. apply core_Some in Hn as (m & Hm & ->). rewrite Hm. apply (Hfr a m Hm).
      change (getRetryID (core m)) with (getRetryID m) in Hg. lia. }
    exists l. split.
    + apply (chain_agree h); [|done]. intros a Ha. apply Hmem in Ha as (n & Hn & Hg & _). by eapply Heq.
    + intros a. rewrite Hmem. split.
      * intros (n & Hn & Hg & HT). exists n. by rewrite (Heq a n Hn Hg).
      * intros (n & Hn & Hg & HT). exists n. split; [|done]. rewrite <- Hn. symmetry. f_equal.
        specialize (Hid a). apply core_Some in Hn as (m & Hm & ->). rewrite Hm in Hid |- *. change (getRetryID (core m)) with (getRetryID m) in Hg.
        destruct (h !! a) as [m'|] eqn:Hm'; [|done]. injection Hid as Hid. rewrite <- Hm. apply Hfr; [done|lia].
Qed.

Lemma retry_head h s i : wf h s -> 0 <= i < 64 -> exists p, headSource s !! Z.to_nat i = Some p.
Proof. intros Hw Hi. apply lookup_lt_is_Some_2. rewrite (wf_heads _ _ Hw). lia. Qed.

Lemma hit_idle targets n : ipcRetryTargets n = 0 -> hit targets n = n.
Proof. intros H. unfold hit. by rewrite H, Z.land_0_l. Qed.

(** A write that keeps the link, the identity and the wait vector. *)
Lemma wf_same h s a n n' r :
  wf h s -> h !! a = Some n -> next n' = next n -> commID n' = commID n -> ipcRetryTargets n' = ipcRetryTargets n ->
  is_uval (ipcRetrySources n') -> is_uval (ipcDeferredRetrySources n') -> is_uval r ->
  wf (<[a := n']> h) (mkM (headSource s) r).
Proof.
  intros Hw Hn Enx Eid ET HS HD Hr. assert (Eg : getRetryID n' = getRetryID n) by (unfold getRetryID; by rewrite Eid).
  destruct Hw as [Hl H0 Hc Hww _]. constructor; cbn [headSource remoteIPCRetrySources]; [done| | | |done].
  - rewrite lookup_insert_ne; [done|]. congruence.
  - intros j q Hq. destruct (Hc j q Hq) as (l & Hch & Hmem). exists l. split; [by apply (chain_insert_same h _ _ _ a n)|].
    intros b. rewrite Hmem. destruct (decide (b = a)) as [->|]; [|by rewrite lookup_insert_ne].
    rewrite lookup_insert_eq, Hn. cbn [fmap option_fmap option_map]. split; intros (m & [= <-] & Hg & HT).
    + exists (core n'). split; [done|]. change (getRetryID (core n')) with (getRetryID n'). rewrite Eg. split; [done|].
      change (ipcRetryTargets (core n')) with (ipcRetryTargets n'). by rewrite ET.
    + exists (core n). split; [done|]. change (getRetryID (core n)) with (getRetryID n). rewrite <- Eg. split; [done|].
      change (ipcRetryTargets (core n)) with (ipcRetryTargets n). by rewrite <- ET.
  - intros b m Hm. apply lookup_insert_Some in Hm as [[<- <-]|[_ Hm]]; [|by eapply Hww]. rewrite ET.
    split; [by eapply Hww|done].
Qed.

(** One list, whole. *)
Lemma notify_slot h s i first targets :
  wf h s -> headSource s !! i = Some first ->
  exists h' first', notify_chain (S (size h)) h first NULL first targets = Some (h', first') /\
    wf h' (mkM (<[i := first']> (headSource s)) (remoteIPCRetrySources s)) /\
    core <$> h' = (fun n => if getRetryID n =? Z.of_nat i then hit targets n else n) <$> (core <$> h).
Proof.
  intros Hw Hp. destruct (wf_chain _ _ Hw i first Hp) as (l & Hc & Hmem). pose proof (chain_length _ _ _ Hc) as Hlen.
  destruct (notify_chain_spec targets (S (size h)) h first [] l Hc) as (h' & first' & l' & Hrun & Hch & Hco & Hfr & Hmem').
  { intros a n Ha Hn. apply Hmem in Ha as (m & Hm & _ & HT). congruence. }
  { lia. }
  change (last_addr NULL []) with NULL in Hrun. rewrite <- (chain_head _ _ _ Hc) in Hrun.
  exists h', first'. split; [done|].
  assert (Hcore : forall a, core <$> h' !! a = (fun n => if getRetryID n =? Z.of_nat i then hit targets n else n) <$> (core <$> h !! a)).
  { intros a. rewrite Hco. destruct (decide (a ∈ l.*1)) as [Ha|Ha].
    - apply Hmem in Ha as (n & -> & Hg & _). cbn [fmap option_fmap option_map]. by rewrite Hg, Z.eqb_refl.
    - destruct (core <$> h !! a) as [n|] eqn:Hn; [|done]. cbn [fmap option_fmap option_map id]. destruct (Z.eqb_spec (getRetryID n) (Z.of_nat i)) as [Hg|]; [|done].
      destruct (Z.eq_dec (ipcRetryTargets n) 0) as [HT|HT]; [by rewrite hit_idle|]. destruct Ha. apply Hmem. eauto. }
  split; [|apply map_eq; intros a; rewrite !lookup_fmap; apply Hcore].
  apply (wf_slot h); [done| | | | |apply Hw].
  - intros a. specialize (Hcore a). destruct (h !! a) as [n|], (h' !! a) as [n'|]; try done. cbn [fmap option_fmap option_map] in *.
    apply (inj Some) in Hcore. f_equal. change (getRetryID (core n') = getRetryID (core n)). rewrite Hcore. destruct (_ =? _); [apply getRetryID_hit|done].
  - intros a n Hn Hg. rewrite Hfr; [done|]. intros Ha. apply Hmem in Ha as (m & Hm & Hg' & _). rewrite Hn in Hm. injection Hm as <-. done.
  - exists l'. split; [done|]. intros a. rewrite Hmem', Hcore. cbn [fmap list_fmap]. rewrite elem_of_nil, Hmem. split.
    + intros [[]|[(m & Hm & Hg & HT) (n & Hn & HT')]]. assert (m = n) as -> by congruence.
      exists (hit targets n). rewrite Hn. cbn [fmap option_fmap option_map]. rewrite Hg, Z.eqb_refl, getRetryID_hit. done.
    + intros (n & Hn & Hg & HT). right. destruct (core <$> h !! a) as [m|]; [|done]. cbn [fmap option_fmap option_map] in Hn. apply (inj Some) in Hn.
      assert (Hgm : getRetryID m = Z.of_nat i). { rewrite <- Hg, <- Hn. destruct (_ =? _); [by rewrite getRetryID_hit|done]. }
      rewrite Hgm, Z.eqb_refl in Hn. subst n. split; [|eauto]. exists m. split; [done|]. split; [done|].
      intros E. by rewrite hit_idle in HT.
  - intros a n' Hn'. specialize (Hcore a). rewrite Hn' in Hcore. destruct (h !! a) as [n|] eqn:Hn; [|done].
    cbn [fmap option_fmap option_map] in Hcore. apply (inj Some) in Hcore. destruct (wf_words _ _ Hw a n Hn) as (HT & HS & HD).
    change (is_uval (ipcRetryTargets (core n')) /\ is_uval (ipcRetrySources (core n')) /\ is_uval (ipcDeferredRetrySources (core n'))).
    rewrite Hcore. destruct (_ =? _); [|done]. split; [by apply hit_uval|]. unfold hit. by destruct (_ =? 0).
Qed.

(** The bits of [sources] above the lowest one, seen from the next position. *)
Lemma rest_bits x b d j :
  0 <= d -> Z.testbit x d = true -> (forall k, 0 <= k < d -> Z.testbit x k = false) ->
  Z.testbit x (j - b) = (j =? b + d) || Z.testbit (Z.shiftr x (d + 1)) (j - (b + d + 1)).
Proof.
  intros Hd Hb Hz. destruct (Z.eqb_spec j (b + d)) as [->|Hne]; cbn [orb]; [by replace (b + d - b) with d by lia|].
  destruct (Z_lt_le_dec j (b + d)) as [Hlt|Hge].
  - rewrite (Z.testbit_neg_r _ (j - (b + d + 1))) by lia.
    destruct (Z_lt_le_dec (j - b) 0); [apply Z.testbit_neg_r; lia|apply Hz; lia].
  - rewrite Z.shiftr_spec by lia. f_equal. lia.
Qed.

Lemma shiftr_bound x d m : 0 <= d <= m -> 0 <= x < 2 ^ m -> 0 <= Z.shiftr x d < 2 ^ (m - d).
Proof.
  intros Hd Hx. rewrite Z.shiftr_div_pow2 by lia. pose proof (Z.pow_pos_nonneg 2 d ltac:(lia) ltac:(lia)).
  split; [apply Z.div_pos; lia|]. apply Z.div_lt_upper_bound; [lia|]. rewrite <- Z.pow_add_r by lia.
  replace (d + (m - d)) with m by lia. lia.
Qed.

Lemma testbit_lt x d m : 0 <= m -> 0 <= x < 2 ^ m -> Z.testbit x d = true -> d < m.
Proof.
  intros Hm Hx Hb. destruct (Z_lt_le_dec d m) as [|Hge]; [done|]. destruct (Z.eq_dec x 0) as [->|]; [by rewrite Z.bits_0 in Hb|].
  pose proof (proj1 (Z.log2_lt_pow2 x m ltac:(lia)) ltac:(lia)). rewrite Z.bits_above_log2 in Hb; [done|lia|lia].
Qed.

Lemma notify_loop_spec targets fuel h s sources b :
  wf h s -> 0 <= b <= 64 -> 0 <= sources < 2 ^ (64 - b) -> 64 - b < Z.of_nat fuel ->
  exists h' s', notify_loop fuel h s sources b targets = Some (h', s') /\ wf h' s' /\
    remoteIPCRetrySources s' = remoteIPCRetrySources s /\
    core <$> h' = (fun n => if Z.testbit sources (getRetryID n - b) then hit targets n else n) <$> (core <$> h).
Proof.
  revert h s sources b. induction fuel as [|fuel IH]; intros h s sources b Hw Hb Hs Hf; [lia|]. cbn [notify_loop].
  destruct (Z.eqb_spec sources 0) as [->|H0].
  { exists h, s. split; [done|]. split; [done|]. split; [done|]. apply map_eq. intros a. rewrite !lookup_fmap.
    destruct (h !! a); [|done]. cbn [fmap option_fmap option_map]. by rewrite Z.bits_0. }
  assert (Hle : 2 ^ (64 - b) <= 2 ^ 64) by (apply Z.pow_le_mono_r; lia).
  destruct (lowest_spec sources b ltac:(lia)) as (d & (_ & E2 & E1 & Hz) & Hd & Htb).
  pose proof (testbit_lt _ _ (64 - b) ltac:(lia) Hs Htb) as Hdb.
  destruct (lowest sources b) as [sources1 b1]. cbn [fst snd] in E1, E2. subst sources1 b1.
  destruct (retry_head h s (b + d) Hw ltac:(lia)) as (first & Hfirst). rewrite Hfirst. cbn [mbind option_bind].
  destruct (notify_slot h s _ first targets Hw Hfirst) as (h1 & first1 & Hrun & Hw1 & Hco1). rewrite Hrun. cbn [mbind option_bind].
  rewrite Z2Nat.id in Hco1 by lia. rewrite Z.shiftr_shiftr by lia.
  pose proof (shiftr_bound sources (d + 1) (64 - b) ltac:(lia) Hs) as Hsh.
  destruct (IH h1 _ (Z.shiftr sources (d + 1)) (b + d + 1) Hw1) as (h' & s' & Hrun' & Hw' & Hr' & Hco'); [lia| |lia|].
  { by replace (64 - (b + d + 1)) with (64 - b - (d + 1)) by lia. }
  exists h', s'. split; [exact Hrun'|]. split; [done|]. split; [exact Hr'|]. rewrite Hco', Hco1.
  apply map_eq. intros a. rewrite !lookup_fmap. destruct (h !! a) as [n|]; [|done]. cbn [fmap option_fmap option_map]. f_equal.
  rewrite (rest_bits sources b d _ ltac:(lia) Htb Hz). destruct (Z.eqb_spec (getRetryID (core n)) (b + d)) as [E|E]; cbn [orb]; [|done].
  rewrite getRetryID_hit, Z.testbit_neg_r by lia. done.
Qed.

(** Everyone whose identifier is in [sources] is hit. *)
Definition tell (sources targets : Z) (n : ProcessAnnex) : ProcessAnnex :=
  if Z.testbit sources (getRetryID n) then hit targets n else n.

Lemma internal_notify_spec h s sources targets :
  wf h s -> is_uval sources ->
  exists h' s', internal_notify h s sources targets = Some (h', s') /\ wf h' s' /\
    remoteIPCRetrySources s' = remoteIPCRetrySources s /\ core <$> h' = tell sources targets <$> (core <$> h).
Proof.
  intros Hw Hs. destruct (notify_loop_spec targets 65 h s sources 0 Hw) as (h' & s' & H1 & H2 & H3 & H4); [lia|exact Hs|lia|].
  exists h', s'. split; [done|]. split; [done|]. split; [done|]. rewrite H4. apply map_fmap_ext. intros a n _. unfold tell.
  by rewrite Z.sub_0_r.
Qed.

(** Joining the list. *)
Lemma add_source_spec h s source targetBit n :
  wf h s -> h !! source = Some n -> 0 <= targetBit < 64 ->
  exists h' s', add_source h s source targetBit = Some (h', s') /\ wf h' s' /\
    remoteIPCRetrySources s' = remoteIPCRetrySources s /\
    core <$> h' = <[source := mkPA (commID n) (reservedThread n) (Z.lor (ipcRetryTargets n) (bit targetBit)) (ipcRetrySources n)
      (ipcDeferredRetrySources n) NULL (preempt n) targetBit (ipcRetry n) (retryNotify n)]> (core <$> h).
Proof.
  intros Hw Hn Ht. unfold add_source. rewrite Hn. cbn [mbind option_bind]. pose proof (getRetryID_range n) as Hg.
  destruct (wf_words _ _ Hw _ _ Hn) as (HT & HS & HD).
  destruct (retry_head h s _ Hw Hg) as (first & Hfirst).
  assert (Hne : Z.lor (ipcRetryTargets n) (bit targetBit) <> 0).
  { intros E. assert (Hb : Z.testbit (Z.lor (ipcRetryTargets n) (bit targetBit)) targetBit = true).
    - rewrite Z.lor_spec, bit_spec, Z.eqb_refl by done. apply orb_true_r.
    - by rewrite E, Z.bits_0 in Hb. }
  destruct (wf_chain _ _ Hw _ _ Hfirst) as (l & Hc & Hmem).
  set (n2 nx := mkPA (commID n) (reservedThread n) (Z.lor (ipcRetryTargets n) (bit targetBit)) (ipcRetrySources n)
      (ipcDeferredRetrySources n) nx (preempt n) targetBit (ipcRetry n) (retryNotify n)).
  set (i := Z.to_nat (getRetryID n)) in *. assert (Ei : Z.of_nat i = getRetryID n) by (unfold i; lia).
  assert (Hmem2 : forall nx a, (a = source \/ a ∈ l.*1) <->
    exists m, core <$> <[source := n2 nx]> h !! a = Some m /\ getRetryID m = Z.of_nat i /\ ipcRetryTargets m <> 0).
  { intros nx a. destruct (decide (a = source)) as [->|Ha].
    - rewrite lookup_insert_eq. split; [intros _|by left]. exists (core (n2 nx)). split; [done|]. split; [exact (eq_sym Ei)|exact Hne].
    - rewrite lookup_insert_ne, Hmem by done. split; [by intros [|]|by right]. }
  assert (Hslot : forall nx p', (exists l', chain (<[source := n2 nx]> h) p' l' NULL /\ forall a, a ∈ l'.*1 <-> a = source \/ a ∈ l.*1) ->
    wf (<[source := n2 nx]> h) (mkM (<[i := p']> (headSource s)) (remoteIPCRetrySources s))).
  { intros nx p' (l' & Hl' & Hm'). apply (wf_slot h); [done| | | | |apply Hw].
    - intros a. destruct (decide (a = source)) as [->|]; [by rewrite lookup_insert_eq, Hn|by rewrite lookup_insert_ne].
    - intros a m Hm Hgm. rewrite lookup_insert_ne; [done|]. intros <-. congruence.
    - exists l'. split; [done|]. intros a. by rewrite Hm', Hmem2.
    - intros a m Hm. apply lookup_insert_Some in Hm as [[<- <-]|[_ Hm]]; [|by eapply wf_words].
      split; [apply lor_uval; [done|apply bit_uval]|done]. }
  assert (Hcore : forall nx, core <$> <[source := n2 nx]> h = <[source := n2 NULL]> (core <$> h)) by (intros nx; rewrite fmap_insert; reflexivity).
  assert (Hs0 : source <> NULL) by (intros ->; rewrite (wf_null _ _ Hw) in Hn; done).
  destruct (Z.eqb_spec (ipcRetryTargets n) 0) as [E|E].
  - fold i. rewrite Hfirst. cbn [mbind option_bind]. eexists _, _. split; [reflexivity|]. split; [|split; [done|apply (Hcore first)]].
    apply (Hslot first). exists ((source, getRetryID n) :: l). split; [|intros a; cbn; by rewrite elem_of_cons].
    split; [done|]. split; [done|]. exists (n2 first). rewrite lookup_insert_eq. split; [done|]. split; [done|].
    apply chain_insert_ne; [|done]. intros Hin. apply Hmem in Hin as (m & Hm & _ & HTm). rewrite Hn in Hm. injection Hm as <-. done.
  - cbn [mbind option_bind]. eexists _, _. split; [reflexivity|]. split; [|split; [done|apply (Hcore (ipcRetryNext n))]].
    rewrite <- (list_insert_id (headSource s) i first Hfirst). apply (Hslot (ipcRetryNext n)). exists l. split.
    + by apply (chain_insert_same h _ _ _ source n).
    + intros a. split; [by right|]. intros [->|]; [|done]. apply Hmem. exists (core n). rewrite Hn. split; [done|]. split; [exact (eq_sym Ei)|exact E].
Qed.

(** Leaving the list. *)
Lemma quit_spec h s pa n :
  wf h s -> h !! pa = Some n -> ipcRetryTargets n <> 0 ->
  exists first prev h' s' first',
    let h2 := <[pa := set_targets 0 n]> h in
    headSource s !! Z.to_nat (getRetryID n) = Some first /\
    walk (fun a _ => a =? pa) (S (size h2)) h2 NULL first = Some (prev, pa) /\
    unlink_after h2 first prev (next n) = Some (h', first') /\
    s' = mkM (<[Z.to_nat (getRetryID n) := first']> (headSource s)) (remoteIPCRetrySources s) /\
    wf h' s' /\ core <$> h' = <[pa := core (set_targets 0 n)]> (core <$> h).
Proof.
  intros Hw Hn HT. pose proof (getRetryID_range n) as Hg. set (i := Z.to_nat (getRetryID n)).
  assert (Ei : Z.of_nat i = getRetryID n) by (unfold i; lia).
  destruct (retry_head h s _ Hw Hg) as (first & Hfirst). destruct (wf_chain _ _ Hw _ _ Hfirst) as (l & Hc & Hmem). fold i in Hfirst, Hmem.
  assert (Hpa : pa ∈ l.*1) by (apply Hmem; exists (core n); rewrite Hn; split; [done|split; [exact (eq_sym Ei)|exact HT]]).
  apply list_elem_of_fmap in Hpa as ([pa' d] & -> & Hpa). cbn [fst] in *. apply list_elem_of_split in Hpa as (A & B & ->).
  set (h2 := <[pa' := set_targets 0 n]> h).
  assert (Hc2 : chain h2 first (A ++ (pa', d) :: B) NULL) by (by apply (chain_insert_same h _ _ _ pa' n)).
  pose proof (chain_nodup _ _ _ Hc2) as Hnd. rewrite fmap_app, fmap_cons in Hnd. cbn [fst] in Hnd.
  apply NoDup_app in Hnd as (_ & Hd & [HB _]%NoDup_cons). pose proof (chain_length _ _ _ Hc2) as Hlen.
  assert (HA : pa' ∉ A.*1) by (intros HA; apply (Hd _ HA); by left).
  assert (Hspan : span_until (fun x => x.1 =? pa') (A ++ (pa', d) :: B) = (A, (pa', d) :: B)).
  { apply span_until_intro; [|simpl; by apply Z.eqb_refl]. apply Forall_forall. intros [b e] Hin. cbn.
    apply Z.eqb_neq. intros ->. apply HA. apply list_elem_of_fmap. by exists (pa', e). }
  pose proof (walk_spec (fun a _ => a =? pa') (fun x => x.1 =? pa') h2 _ NULL first (S (size h2)) (fun _ _ _ => eq_refl) Hc2 ltac:(lia)) as Hwalk.
  rewrite Hspan in Hwalk.
  destruct (chain_unlink_after h2 first A pa' d B (set_targets 0 n) Hc2 ltac:(apply lookup_insert_eq)) as (h' & first' & Hu & Hc' & Hco & Hfr).
  exists first, (last_addr NULL A), h', (mkM (<[i := first']> (headSource s)) (remoteIPCRetrySources s)), first'.
  split; [done|]. split; [exact Hwalk|]. split; [exact Hu|]. split; [done|].
  assert (Hco' : core <$> h' = <[pa' := core (set_targets 0 n)]> (core <$> h)) by (rewrite Hco; apply fmap_insert).
  split; [|done].
  assert (Hlk : forall a, a <> pa' -> core <$> h' !! a = core <$> h !! a).
  { intros a Ha. rewrite <- lookup_fmap, Hco', lookup_insert_ne, lookup_fmap by done. done. }
  assert (Hlk' : core <$> h' !! pa' = Some (core (set_targets 0 n))) by (rewrite <- lookup_fmap, Hco'; apply lookup_insert_eq).
  apply (wf_slot h); [done| | | | |apply Hw].
  - intros a. destruct (decide (a = pa')) as [->|Ha].
    + apply core_Some in Hlk' as (m & Hm & Em). rewrite Hm, Hn. cbn [fmap option_fmap option_map]. f_equal.
      change (getRetryID m) with (getRetryID (core m)). by rewrite <- Em.
    + specialize (Hlk a Ha). destruct (h !! a) as [m|], (h' !! a) as [m'|]; try done. cbn [fmap option_fmap option_map] in *.
      apply (inj Some) in Hlk. f_equal. change (getRetryID (core m') = getRetryID (core m)). by rewrite Hlk.
  - intros a m Hm Hgm. assert (Ha : a <> pa') by (intros ->; congruence). rewrite Hfr; [by unfold h2; rewrite lookup_insert_ne|].
    intros Hin. assert (Hin' : a ∈ (A ++ (pa', d) :: B).*1) by (rewrite fmap_app; apply elem_of_app; by left).
    apply Hmem in Hin' as (m' & Hm' & Hg' & _). rewrite Hm in Hm'. injection Hm' as <-. done.
  - exists (A ++ B). split; [done|]. intros a. destruct (decide (a = pa')) as [->|Ha].
    + rewrite Hlk', fmap_app, elem_of_app. split; [tauto|]. intros (m & [= <-] & _ & HT0). done.
    + rewrite Hlk by done. rewrite <- Hmem, !fmap_app, !elem_of_app, fmap_cons, elem_of_cons. cbn [fst]. tauto.
  - intros a m Hm. destruct (decide (a = pa')) as [->|Ha].
    + rewrite Hm in Hlk'. apply (inj Some) in Hlk'. destruct (wf_words _ _ Hw _ _ Hn) as (_ & HS & HD).
      change (is_uval (ipcRetryTargets (core m)) /\ is_uval (ipcRetrySources (core m)) /\ is_uval (ipcDeferredRetrySources (core m))).
      rewrite Hlk'. split; [change (is_uval 0); unfold is_uval; lia|exact (conj HS HD)].
    + specialize (Hlk a Ha). rewrite Hm in Hlk. symmetry in Hlk. apply core_Some in Hlk as (m' & Hm' & Em).
      change (is_uval (ipcRetryTargets (core m)) /\ is_uval (ipcRetrySources (core m)) /\ is_uval (ipcDeferredRetrySources (core m))).
      rewrite Em. exact (wf_words _ _ Hw _ _ Hm').
Qed.

(** ** The abstract manager: no lists, one step per operation *)

Definition wait (targetBit : Z) (n : ProcessAnnex) : ProcessAnnex :=
  mkPA (commID n) (reservedThread n) (Z.lor (ipcRetryTargets n) (bit targetBit)) (ipcRetrySources n)
    (ipcDeferredRetrySources n) (ipcRetryNext n) (preempt n) targetBit (ipcRetry n) (retryNotify n).

Definition enabled (pendingCall : bool) (n : ProcessAnnex) : ProcessAnnex :=
  if (ipcDeferredRetrySources n =? 0) && negb pendingCall then n
  else mkPA (commID n) (reservedThread n) (ipcRetryTargets n) (Z.lor (ipcRetrySources n) (ipcDeferredRetrySources n)) 0
         (ipcRetryNext n) true (ipcRetryID n) (ipcRetry n) (retryNotify n).

(** The exception level gives the process a reserved thread or takes it away. *)
Definition reserve (b : bool) (n : ProcessAnnex) : ProcessAnnex :=
  mkPA (commID n) b (ipcRetryTargets n) (ipcRetrySources n) (ipcDeferredRetrySources n) (ipcRetryNext n)
    (preempt n) (ipcRetryID n) (ipcRetry n) (retryNotify n).

Inductive op :=
  | Request (source target : Z)
  | Notify (target : Z)
  | RequestRemote (source : Z)
  | CheckRemote
  | Remove (pa : Z)
  | EnableEntry (pa : Z) (pendingCall : bool)
  | Reserve (pa : Z) (b : bool).

Definition exec (o : op) (st : memory * t) : option (memory * t) :=
  let '(h, s) := st in
  match o with
  | Request source target => requestNotification h s source target
  | Notify target => notify h s target
  | RequestRemote source => requestNotificationRemote h s source
  | CheckRemote => checkRemoteNotifications h s
  | Remove pa => remove h s pa
  | EnableEntry pa b => h' ← enableEntry h pa b; Some (h', s)
  | Reserve pa b => n ← h !! pa; Some (<[pa := reserve b n]> h, s)
  end.

Definition astate : Type := memory * Z.

Definition a_notify (K : memory) (m : ProcessAnnex) (target : Z) : memory :=
  tell (ipcRetrySources m) (bit (getRetryID m)) <$> <[target := set_sources 0 m]> K.

Definition aexec (o : op) (st : astate) : option astate :=
  let '(K, R) := st in
  match o with
  | Request source target =>
      n ← K !! source;
      m ← K !! target;
      let K1 := <[target := note_source (getRetryID n) m]> K in
      n1 ← K1 !! source;
      Some (<[source := wait (getRetryID m) n1]> K1, R)
  | Notify target => m ← K !! target; Some (a_notify K m target, R)
  | RequestRemote source =>
      n ← K !! source;
      Some (<[source := wait REMOTE_IPC_RETRY_ID n]> K, Z.lor R (bit (getRetryID n)))
  | CheckRemote => Some (tell R (bit REMOTE_IPC_RETRY_ID) <$> K, 0)
  | Remove pa => n ← K !! pa; let K1 := a_notify K n pa in n1 ← K1 !! pa; Some (<[pa := set_targets 0 n1]> K1, R)
  | EnableEntry pa b => n ← K !! pa; Some (<[pa := enabled b n]> K, R)
  | Reserve pa b => n ← K !! pa; Some (<[pa := reserve b n]> K, R)
  end.

Definition abs (st : memory * t) : astate := (core <$> st.1, remoteIPCRetrySources st.2).

(** [exec] is simulated by [aexec], and stays well formed. *)
Definition simulated (r : option (memory * t)) (a : option astate) : Prop :=
  abs <$> r = a /\ forall st, r = Some st -> wf st.1 st.2.

Lemma simulated_intro r h' s' a :
  r = Some (h', s') -> wf h' s' -> abs (h', s') = a -> simulated r (Some a).
Proof. intros -> Hw <-. split; [done|]. by intros st [= <-]. Qed.

Lemma sim_notify h s target m :
  wf h s -> h !! target = Some m -> simulated (notify h s target) (Some (a_notify (core <$> h) (core m) target, remoteIPCRetrySources s)).
Proof.
  intros Hw Hm. unfold notify. rewrite Hm. cbn [mbind option_bind]. destruct (wf_words _ _ Hw _ _ Hm) as (HT & HS & HD).
  destruct s as [heads R]. destruct (internal_notify_spec (<[target := set_sources 0 m]> h) (mkM heads R) (ipcRetrySources m) (bit (getRetryID m)))
    as (h' & s' & Hrun & Hw' & HR & Hco); [|done|].
  - apply (wf_same _ (mkM heads R) _ m); [done..| |done|apply Hw]. change (is_uval 0). unfold is_uval. lia.
  - apply (simulated_intro _ h' s'); [done..|]. unfold abs. cbn [fst snd]. rewrite HR, Hco, fmap_insert. reflexivity.
Qed.

Lemma sim_add h s source targetBit n :
  wf h s -> h !! source = Some n -> 0 <= targetBit < 64 ->
  simulated (add_source h s source targetBit) (Some (<[source := wait targetBit (core n)]> (core <$> h), remoteIPCRetrySources s)).
Proof.
  intros Hw Hn Ht. destruct (add_source_spec h s source targetBit n Hw Hn Ht) as (h' & s' & Hrun & Hw' & HR & Hco).
  apply (simulated_intro _ h' s'); [done..|]. unfold abs. cbn [fst snd]. by rewrite HR, Hco.
Qed.

Lemma tell_0 targets n : tell 0 targets n = n.
Proof. unfold tell. by rewrite Z.bits_0. Qed.

Lemma simulated_None (a : option astate) : a = None -> simulated None a.
Proof. by intros ->. Qed.

(** Updating one annex in place. *)
Lemma sim_update h s a n n' r :
  wf h s -> h !! a = Some n -> next n' = next n -> commID n' = commID n -> ipcRetryTargets n' = ipcRetryTargets n ->
  is_uval (ipcRetrySources n') -> is_uval (ipcDeferredRetrySources n') ->
  r = Some (<[a := n']> h, s) -> simulated r (Some (<[a := core n']> (core <$> h), remoteIPCRetrySources s)).
Proof.
  intros Hw Hn Enx Eid ET HS HD ->. destruct s as [heads R]. apply (simulated_intro _ (<[a := n']> h) (mkM heads R)); [done| |].
  - apply (wf_same _ (mkM heads R) _ n); [done..|apply Hw].
  - unfold abs. cbn [fst snd remoteIPCRetrySources]. by rewrite fmap_insert.
Qed.

Lemma sim_request h s source target :
  wf h s -> simulated (requestNotification h s source target) (aexec (Request source target) (abs (h, s))).
Proof.
  intros Hw. unfold requestNotification, aexec, abs. cbn [fst snd]. rewrite !lookup_fmap.
  destruct (h !! source) as [n|] eqn:Hn; [|by apply simulated_None]. destruct (h !! target) as [m|] eqn:Hm; [|by apply simulated_None].
  cbn [mbind option_bind fmap option_fmap option_map]. destruct (wf_words _ _ Hw _ _ Hm) as (HT & HS & HD).
  set (m1 := note_source (getRetryID n) m). destruct s as [heads R].
  assert (Hw1 : wf (<[target := m1]> h) (mkM heads R)).
  { apply (wf_same _ (mkM heads R) _ m); try done; unfold m1, note_source; destruct (reservedThread m); try done;
      [apply lor_uval; [done|apply bit_uval]..|apply Hw|apply Hw]. }
  assert (E1 : note_source (getRetryID (core n)) (core m) = core m1) by (unfold m1, note_source; change (reservedThread (core m)) with (reservedThread m); destruct (reservedThread m); reflexivity).
  rewrite E1, <- fmap_insert, lookup_fmap.
  assert (is_Some (<[target := m1]> h !! source)) as [n1 Hn1] by (apply lookup_insert_is_Some'; right; eauto).
  rewrite Hn1. cbn [mbind option_bind fmap option_fmap option_map].
  apply (sim_add _ (mkM heads R) source (getRetryID m) n1 Hw1 Hn1), getRetryID_range.
Qed.

(** After a notification the annex itself waits for fewer, under the same identity. *)
Lemma notified_self h s pa n :
  wf h s -> h !! pa = Some n ->
  exists h1 s1 n1, (if negb (ipcRetrySources n =? 0) then notify h s pa else Some (h, s)) = Some (h1, s1) /\ wf h1 s1 /\
    abs (h1, s1) = (a_notify (core <$> h) (core n) pa, remoteIPCRetrySources s) /\ h1 !! pa = Some n1.
Proof.
  intros Hw Hn. destruct (Z.eqb_spec (ipcRetrySources n) 0) as [E|E]; cbn [negb].
  - exists h, s, n. split; [done|]. split; [done|]. split; [|done]. unfold abs, a_notify. cbn [fst snd].
    change (ipcRetrySources (core n)) with (ipcRetrySources n). rewrite E, insert_id.
    + f_equal. apply map_eq. intros a. rewrite !lookup_fmap. destruct (h !! a); [|done]. cbn [fmap option_fmap option_map]. by rewrite tell_0.
    + rewrite lookup_fmap, Hn. cbn [fmap option_fmap option_map]. f_equal. unfold set_sources, core. destruct n; cbn in *. by rewrite E.
  - destruct (sim_notify h s pa n Hw Hn) as [Ha Hw1]. destruct (notify h s pa) as [[h1 s1]|]; [|done].
    assert (Hk : core <$> h1 = a_notify (core <$> h) (core n) pa) by (by injection Ha).
    assert (is_Some (h1 !! pa)) as [n1 Hn1].
    { apply (fmap_is_Some core). rewrite <- lookup_fmap, Hk. unfold a_notify. rewrite lookup_fmap, lookup_insert_eq. by eexists. }
    exists h1, s1, n1. split; [done|]. split; [by apply (Hw1 (h1, s1))|]. split; [|done]. by apply (inj Some) in Ha.
Qed.

Lemma sim_remove h s pa : wf h s -> simulated (remove h s pa) (aexec (Remove pa) (abs (h, s))).
Proof.
  intros Hw. unfold remove, aexec, abs. cbn [fst snd]. rewrite lookup_fmap.
  destruct (h !! pa) as [n|] eqn:Hn; [|by apply simulated_None]. cbn [mbind option_bind fmap option_fmap option_map].
  destruct (notified_self h s pa n Hw Hn) as (h1 & s1 & n1 & -> & Hw1 & Ha & Hn1). unfold abs in Ha. cbn [fst snd] in Ha.
  injection Ha as Hk HR. rewrite <- Hk, <- HR, lookup_fmap, Hn1. cbn [mbind option_bind fmap option_fmap option_map]. rewrite Hn1. cbn [mbind option_bind].
  destruct (Z.eqb_spec (ipcRetryTargets n1) 0) as [E|E]; cbn [negb].
  - apply (simulated_intro _ h1 s1); [done..|]. unfold abs. cbn [fst snd]. f_equal. symmetry. apply insert_id. rewrite lookup_fmap, Hn1.
    cbn [fmap option_fmap option_map]. f_equal. unfold set_targets, core. destruct n1; cbn in *. by rewrite E.
  - destruct (quit_spec h1 s1 pa n1 Hw1 Hn1 E) as (first & prev & h' & s' & first' & Hf & Hwk & Hu & Es & Hw' & Hco). cbv zeta in *.
    rewrite Hf. cbn [mbind option_bind]. rewrite Hwk. cbn [mbind option_bind].
    assert (Hpa : pa <> NULL) by (intros ->; by rewrite (wf_null _ _ Hw1) in Hn1).
    rewrite (proj2 (Z.eqb_neq pa NULL) Hpa). cbn [negb assertK mbind option_bind]. rewrite lookup_insert_eq. cbn [mbind option_bind].
    change (next (set_targets 0 n1)) with (next n1). rewrite Hu. cbn [mbind option_bind].
    apply (simulated_intro _ h' s'); [by rewrite Es|done|]. unfold abs. cbn [fst snd]. by rewrite Hco, Es.
Qed.

Lemma sim_exec o h s : wf h s -> simulated (exec o (h, s)) (aexec o (abs (h, s))).
Proof.
  intros Hw. destruct o as [source target|target|source| |pa|pa b|pa b].
  - by apply sim_request.
  - cbn [exec aexec abs fst snd]. rewrite lookup_fmap. destruct (h !! target) as [m|] eqn:Hm.
    + cbn [mbind option_bind fmap option_fmap option_map]. by apply sim_notify.
    + unfold notify. rewrite Hm. by apply simulated_None.
  - cbn [exec aexec abs fst snd]. unfold requestNotificationRemote. rewrite lookup_fmap. destruct (h !! source) as [n|] eqn:Hn; [|by apply simulated_None].
    cbn [mbind option_bind fmap option_fmap option_map]. destruct s as [heads R]. cbn [headSource remoteIPCRetrySources].
    pose proof (wf_remote _ _ Hw) as HR.
    destruct (wf_words _ _ Hw _ _ Hn) as (HT & HS & HD).
    assert (Hw1 : wf h (mkM heads (Z.lor R (bit (getRetryID n))))).
    { rewrite <- (insert_id h source n Hn) at 1. apply (wf_same _ (mkM heads R) _ n); try done. apply lor_uval; [done|apply bit_uval]. }
    apply (sim_add h _ source REMOTE_IPC_RETRY_ID n Hw1 Hn). unfold REMOTE_IPC_RETRY_ID, NUM_IPC_RETRY_IDS. lia.
  - cbn [exec aexec abs fst snd]. unfold checkRemoteNotifications. destruct (Z.eqb_spec (remoteIPCRetrySources s) 0) as [E|E]; cbn [negb].
    + apply (simulated_intro _ h s); [done..|]. unfold abs. cbn [fst snd]. rewrite E. f_equal. apply map_eq. intros a.
      rewrite !lookup_fmap. destruct (h !! a); [|done]. cbn [fmap option_fmap option_map]. by rewrite tell_0.
    + unfold notifyRemote. pose proof (wf_remote _ _ Hw) as HR.
      assert (Hw1 : wf h (mkM (headSource s) 0)).
      { destruct Hw as [Hl H0 Hc Hww _]. constructor; try done. }
      destruct (internal_notify_spec h (mkM (headSource s) 0) (remoteIPCRetrySources s) (bit REMOTE_IPC_RETRY_ID) Hw1 HR) as (h' & s' & Hrun & Hw' & HR' & Hco).
      apply (simulated_intro _ h' s'); [done..|]. unfold abs. cbn [fst snd]. by rewrite HR', Hco.
  - by apply sim_remove.
  - cbn [exec aexec abs fst snd]. unfold enableEntry. rewrite lookup_fmap. destruct (h !! pa) as [n|] eqn:Hn; [|by apply simulated_None].
    cbn [mbind option_bind fmap option_fmap option_map]. destruct (wf_words _ _ Hw _ _ Hn) as (HT & HS & HD).
    assert (E : enabled b (core n) = core (enabled b n)) by (unfold enabled; cbn; by destruct (_ && _)). rewrite E.
    apply (sim_update h s pa n); try done; unfold enabled; destruct (_ && _); try done.
    + by apply lor_uval.
    + by rewrite insert_id.
  - cbn [exec aexec abs fst snd]. rewrite lookup_fmap. destruct (h !! pa) as [n|] eqn:Hn; [|by apply simulated_None].
    cbn [mbind option_bind fmap option_fmap option_map]. destruct (wf_words _ _ Hw _ _ Hn) as (HT & HS & HD).
    by apply (sim_update h s pa n (reserve b n)).
Qed.

(** Sequences of operations. *)
Fixpoint runs {S : Type} (step : op -> S -> option S) (ops : list op) (st : S) : option S :=
  match ops with
  | [] => Some st
  | o :: ops => st1 ← step o st; runs step ops st1
  end.

Lemma sim_runs ops h s : wf h s -> simulated (runs exec ops (h, s)) (runs aexec ops (abs (h, s))).
Proof.
  revert h s. induction ops as [|o ops IH]; intros h s Hw; [by apply (simulated_intro _ h s)|]. cbn [runs].
  destruct (sim_exec o h s Hw) as [Ha Hw1]. rewrite <- Ha. destruct (exec o (h, s)) as [[h1 s1]|]; [|by apply simulated_None].
  cbn [mbind option_bind fmap option_fmap option_map]. apply IH. by apply (Hw1 (h1, s1)).
Qed.

(** Annexes that wait for nobody yet. *)
Definition idle (h : memory) : Prop :=
  h !! NULL = None /\
  map_Forall (fun _ n => ipcRetryTargets n = 0 /\ is_uval (ipcRetrySources n) /\ is_uval (ipcDeferredRetrySources n)) h.

Lemma retry_init_wf h s0 : idle h -> is_uval (remoteIPCRetrySources s0) -> wf h (init s0).
Proof.
  intros [H0 Hi] HR. constructor; cbn [init headSource remoteIPCRetrySources]; [done|done| | |done].
  - intros i p Hp. apply lookup_replicate in Hp as [-> _]. exists []. split; [done|]. intros a. cbn. rewrite elem_of_nil. split; [done|].
    intros (n & Hn & _ & HT). apply core_Some in Hn as (m & Hm & ->). by destruct (Hi a m Hm) as [HT0 _].
  - intros a n Hn. destruct (Hi a n Hn) as (-> & HS & HD). split; [|done]. unfold is_uval. lia.
Qed.

(** C39: the retry manager refines bit vectors with no lists: after [init], any
    sequence of requests, notifications, remote requests and notifications,
    entry-point changes and removals has exactly the effect on the annexes of
    the abstract steps, where a notification reaches at once every waiting
    process whose identifier is in the target's vector; no step dereferences a
    dangling link, misses a waiting process or fails to terminate. *)
Theorem retry_refines h s0 ops :
  idle h -> is_uval (remoteIPCRetrySources s0) ->
  abs <$> runs exec ops (h, init s0) = runs aexec ops (core <$> h, remoteIPCRetrySources s0).
Proof. intros Hi HR. apply (sim_runs ops h (init s0)), retry_init_wf; done. Qed.

(** ** No request is forgotten *)

(** As a source: what was delivered stays delivered, and what was waited for
    is still waited for or has been delivered. *)
Definition keepsT (n n' : ProcessAnnex) : Prop :=
  getRetryID n' = getRetryID n /\
  forall j, (Z.testbit (ipcRetry n) j = true -> Z.testbit (ipcRetry n') j = true) /\
    (Z.testbit (ipcRetryTargets n) j = true -> Z.testbit (ipcRetryTargets n') j = true \/ Z.testbit (ipcRetry n') j = true).

(** The sources an annex remembers, now or deferred. *)
Definition noted (m : ProcessAnnex) (i : Z) : bool :=
  Z.testbit (ipcRetrySources m) i || Z.testbit (ipcDeferredRetrySources m) i.

(** As a target. *)
Definition keepsS (m m' : ProcessAnnex) : Prop :=
  getRetryID m' = getRetryID m /\ forall i, noted m i = true -> noted m' i = true.

(** The source has been told, or waits and the target remembers it. *)
Definition pending (K : memory) (source target i j : Z) : Prop :=
  exists n m, K !! source = Some n /\ K !! target = Some m /\ getRetryID n = i /\ getRetryID m = j /\
    (Z.testbit (ipcRetry n) j = true \/ Z.testbit (ipcRetryTargets n) j = true /\ noted m i = true).

Definition words (K : memory) : Prop := map_Forall (fun _ n => is_uval (ipcRetryTargets n)) K.

Lemma keepsT_refl n : keepsT n n.
Proof. split; [done|]. intros j. split; [done|by left]. Qed.

Lemma keepsS_refl n : keepsS n n.
Proof. by split. Qed.

Lemma hit_keepsT targets n : is_uval (ipcRetryTargets n) -> keepsT n (hit targets n).
Proof.
  intros HT. unfold hit. destruct (_ =? 0); [apply keepsT_refl|]. split; [done|]. intros j. cbn [deliver ipcRetry ipcRetryTargets].
  rewrite land_unot by (done || by apply land_uval). rewrite Z.lor_spec, Z.ldiff_spec, !Z.land_spec. split; [by intros ->|].
  intros ->. rewrite !andb_true_l. destruct (Z.testbit targets j); [right; by rewrite orb_true_r|by left].
Qed.

Lemma hit_told targets n j :
  is_uval (ipcRetryTargets n) -> Z.testbit targets j = true ->
  Z.testbit (ipcRetry n) j = true \/ Z.testbit (ipcRetryTargets n) j = true -> Z.testbit (ipcRetry (hit targets n)) j = true.
Proof.
  intros HT Hj [H|H]; [by apply (proj2 (hit_keepsT targets n HT) j)|]. unfold hit.
  destruct (Z.eqb_spec (Z.land (ipcRetryTargets n) targets) 0) as [E|E].
  - assert (Hb : Z.testbit (Z.land (ipcRetryTargets n) targets) j = true) by by rewrite Z.land_spec, H, Hj. by rewrite E, Z.bits_0 in Hb.
  - cbn [deliver ipcRetry]. rewrite Z.lor_spec, Z.land_spec, H, Hj. apply orb_true_r.
Qed.

Lemma hit_keepsS targets n : keepsS n (hit targets n).
Proof. unfold hit. destruct (_ =? 0); [apply keepsS_refl|by split]. Qed.

Lemma tell_keepsT sources targets n : is_uval (ipcRetryTargets n) -> keepsT n (tell sources targets n).
Proof. intros HT. unfold tell. destruct (Z.testbit _ _); [by apply hit_keepsT|apply keepsT_refl]. Qed.

Lemma tell_keepsS sources targets n : keepsS n (tell sources targets n).
Proof. unfold tell. destruct (Z.testbit _ _); [apply hit_keepsS|apply keepsS_refl]. Qed.

Lemma wait_keepsT b n : keepsT n (wait b n).
Proof. split; [done|]. intros j. split; [done|]. intros H. left. cbn [wait ipcRetryTargets]. by rewrite Z.lor_spec, H. Qed.

Lemma note_source_keepsT b m : keepsT m (note_source b m).
Proof. unfold note_source. destruct (reservedThread m); (split; [done|]; intros j; split; [done|by left]). Qed.

Lemma note_source_keepsS b m : keepsS m (note_source b m).
Proof.
  unfold note_source, keepsS, noted. destruct (reservedThread m); (split; [done|]; intros i; cbn [ipcRetrySources ipcDeferredRetrySources];
    rewrite Z.lor_spec; intros [H|H]%orb_true_iff; rewrite H; rewrite ?orb_true_r; done).
Qed.

Lemma note_source_noted b m : 0 <= b < 64 -> noted (note_source b m) b = true.
Proof.
  intros Hb. unfold note_source, noted. destruct (reservedThread m); cbn [ipcRetrySources ipcDeferredRetrySources];
    rewrite Z.lor_spec, bit_spec, Z.eqb_refl by done; by rewrite ?orb_true_r.
Qed.

Lemma enabled_keeps b n : keepsT n (enabled b n) /\ keepsS n (enabled b n).
Proof.
  unfold enabled. destruct (_ && _); [split; [apply keepsT_refl|apply keepsS_refl]|]. split.
  - split; [done|]. intros j. split; [done|by left].
  - split; [done|]. intros i. unfold noted. cbn [ipcRetrySources ipcDeferredRetrySources]. rewrite Z.lor_spec, Z.bits_0. by rewrite orb_false_r.
Qed.

Lemma enabled_deferred b n : ipcDeferredRetrySources (enabled b n) = 0.
Proof. unfold enabled. destruct (Z.eqb_spec (ipcDeferredRetrySources n) 0); [|done]. by destruct b. Qed.

(** Steps that keep both roles keep the request. *)
Lemma pending_keeps K K' source target i j :
  (forall n, K !! source = Some n -> exists n', K' !! source = Some n' /\ keepsT n n') ->
  (forall m, K !! target = Some m -> exists m', K' !! target = Some m' /\ keepsS m m') ->
  pending K source target i j -> pending K' source target i j.
Proof.
  intros Hs Ht (n & m & Hn & Hm & <- & <- & Hp). destruct (Hs n Hn) as (n' & Hn' & En & HT). destruct (Ht m Hm) as (m' & Hm' & Em & HS).
  exists n', m'. split; [done|]. split; [done|]. split; [done|]. split; [done|]. destruct (HT (getRetryID m)) as [H1 H2].
  destruct Hp as [Hp|[Hp1 Hp2]]; [left; auto|]. destruct (H2 Hp1); [right; auto|by left].
Qed.

Lemma pending_update K source target i j a n n' :
  K !! a = Some n -> (a = source -> keepsT n n') -> (a = target -> keepsS n n') ->
  pending K source target i j -> pending (<[a := n']> K) source target i j.
Proof.
  intros Ha HT HS. apply pending_keeps.
  - intros m Hm. destruct (decide (a = source)) as [->|]; [rewrite lookup_insert_eq|rewrite lookup_insert_ne by done].
    + exists n'. split; [done|]. assert (m = n) as -> by congruence. auto.
    + exists m. split; [done|apply keepsT_refl].
  - intros m Hm. destruct (decide (a = target)) as [->|]; [rewrite lookup_insert_eq|rewrite lookup_insert_ne by done].
    + exists n'. split; [done|]. assert (m = n) as -> by congruence. auto.
    + exists m. split; [done|apply keepsS_refl].
Qed.

Lemma pending_tell K source target i j sources targets :
  words K -> pending K source target i j -> pending (tell sources targets <$> K) source target i j.
Proof.
  intros Hw. apply pending_keeps; intros n Hn; exists (tell sources targets n); rewrite lookup_fmap, Hn; (split; [done|]).
  - apply tell_keepsT. by apply (Hw source).
  - apply tell_keepsS.
Qed.

Lemma set_sources_words K a n v : words K -> K !! a = Some n -> words (<[a := set_sources v n]> K).
Proof. intros Hw Hn. apply map_Forall_insert_2; [|done]. exact (Hw a n Hn). Qed.

(** The target's own notification tells the source, unless it is deferred. *)
Lemma a_notify_told K source target i j m :
  words K -> pending K source target i j -> K !! target = Some m -> noted m i = Z.testbit (ipcRetrySources m) i ->
  exists n', a_notify K m target !! source = Some n' /\ Z.testbit (ipcRetry n') j = true.
Proof.
  intros Hw (n & m' & Hn & Hm' & Hi & Hj & Hp) Hm HD. assert (m' = m) as -> by congruence. unfold a_notify. rewrite lookup_fmap.
  assert (Hn1 : exists n1, <[target := set_sources 0 m]> K !! source = Some n1 /\ getRetryID n1 = i /\
    ipcRetry n1 = ipcRetry n /\ ipcRetryTargets n1 = ipcRetryTargets n).
  { destruct (decide (target = source)) as [->|]; [rewrite lookup_insert_eq|rewrite lookup_insert_ne by done].
    - assert (n = m) as -> by congruence. by eexists.
    - by exists n. }
  destruct Hn1 as (n1 & -> & Hi1 & ER & ET). cbn [fmap option_fmap option_map]. eexists. split; [done|]. unfold tell. rewrite Hi1.
  assert (HT : is_uval (ipcRetryTargets n1)) by (rewrite ET; by apply (Hw source)).
  rewrite <- ER, <- ET in Hp. destruct Hp as [Hp|[Hp1 Hp2]].
  - destruct (Z.testbit (ipcRetrySources m) i); [by apply (proj2 (hit_keepsT _ n1 HT) j)|done].
  - rewrite HD in Hp2. rewrite Hp2. apply hit_told; [done| |by right]. rewrite Hj, bit_spec by (rewrite <- Hj; apply getRetryID_range). apply Z.eqb_refl.
Qed.

Lemma set_sources_keepsT v n : keepsT n (set_sources v n).
Proof. split; [done|]. intros j. split; [done|by left]. Qed.

Lemma a_notify_lookup K m t' a :
  K !! t' = Some m -> is_Some (K !! a) -> exists n', a_notify K m t' !! a = Some n' /\ getRetryID <$> K !! a = Some (getRetryID n').
Proof.
  intros Hm [n Hn]. unfold a_notify. rewrite lookup_fmap.
  assert (He : exists n1, <[t' := set_sources 0 m]> K !! a = Some n1 /\ getRetryID n1 = getRetryID n).
  { destruct (decide (t' = a)) as [->|]; [rewrite lookup_insert_eq|rewrite lookup_insert_ne by done; eauto].
    assert (n = m) as -> by congruence. by eexists. }
  destruct He as (n1 & -> & E). eexists. split; [done|]. rewrite Hn. cbn [fmap option_fmap option_map]. f_equal.
  rewrite <- E. symmetry. apply tell_keepsS.
Qed.

Lemma pending_notify K source target i j t' m0 :
  words K -> K !! t' = Some m0 -> pending K source target i j -> pending (a_notify K m0 t') source target i j.
Proof.
  intros Hw Hm Hp. destruct (decide (t' = target)) as [->|Hne].
  2:{ apply pending_tell; [by apply set_sources_words|]. apply (pending_update _ _ _ _ _ _ m0); [done| |done|done].
      intros _. apply set_sources_keepsT. }
  destruct (Z.testbit (ipcRetrySources m0) i) eqn:HS.
  - destruct (a_notify_told K source target i j m0 Hw Hp Hm) as (n' & Hn' & Ht); [unfold noted; by rewrite HS|].
    destruct Hp as (n & m & Hn & Hm' & <- & <- & _).
    destruct (a_notify_lookup K m0 target source Hm) as (n2 & Hn2 & E2); [eauto|]. rewrite Hn' in Hn2. injection Hn2 as <-.
    destruct (a_notify_lookup K m0 target target Hm) as (m' & Hm2 & E3); [eauto|]. rewrite Hn in E2. rewrite Hm' in E3.
    exists n', m'. split; [done|]. split; [done|]. split; [by injection E2|]. split; [by injection E3|]. by left.
  - apply pending_tell; [by apply set_sources_words|]. destruct Hp as (n & m & Hn & Hm' & Hi & Hj & Hp).
    assert (m = m0) as -> by congruence. unfold noted in Hp. rewrite HS, orb_false_l in Hp.
    assert (Hd : noted (set_sources 0 m0) i = Z.testbit (ipcDeferredRetrySources m0) i) by (unfold noted; cbn [set_sources ipcRetrySources]; by rewrite Z.bits_0).
    destruct (decide (target = source)) as [->|Hts].
    + assert (n = m0) as -> by congruence. exists (set_sources 0 m0), (set_sources 0 m0). rewrite !lookup_insert_eq, Hd. done.
    + exists n, (set_sources 0 m0). rewrite lookup_insert_ne, lookup_insert_eq, Hd by done. done.
Qed.

(** The operation does not take either party away. *)
Definition spares (source target : Z) (o : op) : Prop :=
  match o with Remove pa => pa <> source /\ pa <> target | _ => True end.

Lemma pending_step o K R K' R' source target i j :
  words K -> spares source target o -> aexec o (K, R) = Some (K', R') ->
  pending K source target i j -> pending K' source target i j.
Proof.
  intros Hw Hsp He Hp. destruct o as [src tgt|t'|src| |pa|pa b|pa b]; cbn [aexec] in He.
  - destruct (K !! src) as [n|] eqn:Hn; [|done]. destruct (K !! tgt) as [m|] eqn:Hm; [|done]. cbn [mbind option_bind] in He.
    destruct (<[tgt := note_source (getRetryID n) m]> K !! src) as [n1|] eqn:Hn1; [|done]. cbn [mbind option_bind] in He. injection He as <- _.
    apply (pending_update _ _ _ _ _ _ n1); [done|intros _; apply wait_keepsT|intros _; by split|].
    apply (pending_update _ _ _ _ _ _ m); [done|intros _; apply note_source_keepsT|intros _; apply note_source_keepsS|done].
  - destruct (K !! t') as [m|] eqn:Hm; [|done]. cbn [mbind option_bind] in He. injection He as <- _. by apply pending_notify.
  - destruct (K !! src) as [n|] eqn:Hn; [|done]. cbn [mbind option_bind] in He. injection He as <- _.
    apply (pending_update _ _ _ _ _ _ n); [done|intros _; apply wait_keepsT|intros _; by split|done].
  - injection He as <- _. by apply pending_tell.
  - destruct (K !! pa) as [n|] eqn:Hn; [|done]. cbn [mbind option_bind] in He.
    destruct (a_notify K n pa !! pa) as [n1|] eqn:Hn1; [|done]. cbn [mbind option_bind] in He. injection He as <- _. destruct Hsp as [Hs1 Hs2].
    apply (pending_update _ _ _ _ _ _ n1); [done..|]. by apply pending_notify.
  - destruct (K !! pa) as [n|] eqn:Hn; [|done]. cbn [mbind option_bind] in He. injection He as <- _.
    apply (pending_update _ _ _ _ _ _ n); [done|intros _; apply enabled_keeps|intros _; apply enabled_keeps|done].
  - destruct (K !! pa) as [n|] eqn:Hn; [|done]. cbn [mbind option_bind] in He. injection He as <- _.
    apply (pending_update _ _ _ _ _ _ n); [done| |intros _; by split|done]. intros _. split; [done|]. intros k. split; [done|by left].
Qed.

Lemma wf_words_core h s : wf h s -> words (core <$> h).
Proof.
  intros Hw a n Hn. rewrite lookup_fmap in Hn. apply core_Some in Hn as (m & Hm & ->). exact (proj1 (wf_words _ _ Hw a m Hm)).
Qed.

Lemma pending_runs ops h s h' s' source target i j :
  wf h s -> Forall (spares source target) ops -> runs exec ops (h, s) = Some (h', s') ->
  pending (core <$> h) source target i j -> wf h' s' /\ pending (core <$> h') source target i j.
Proof.
  revert h s. induction ops as [|o ops IH]; intros h s Hw Hsp Hr Hp; cbn [runs] in Hr; [by injection Hr as <- <-|].
  apply Forall_cons in Hsp as [Ho Hsp]. destruct (sim_exec o h s Hw) as [Ha Hw1]. destruct (exec o (h, s)) as [[h1 s1]|]; [|done].
  cbn [mbind option_bind] in Hr. specialize (Hw1 _ eq_refl). apply (IH h1 s1 Hw1 Hsp Hr).
  symmetry in Ha. by apply (pending_step o _ _ _ _ _ _ i j (wf_words_core h s Hw) Ho Ha).
Qed.

(** A request leaves it pending. *)
Lemma request_pending h s source target h1 s1 n m :
  wf h s -> h !! source = Some n -> h !! target = Some m -> requestNotification h s source target = Some (h1, s1) ->
  wf h1 s1 /\ pending (core <$> h1) source target (getRetryID n) (getRetryID m).
Proof.
  intros Hw Hn Hm Hr. destruct (sim_request h s source target Hw) as [Ha Hw1]. rewrite Hr in Ha. split; [by apply (Hw1 (h1, s1))|].
  cbn [aexec abs fst snd] in Ha. rewrite !lookup_fmap, Hn, Hm in Ha. cbn [mbind option_bind fmap option_fmap option_map] in Ha.
  set (K1 := <[target := note_source (getRetryID (core n)) (core m)]> (core <$> h)) in *.
  assert (He : exists n1, K1 !! source = Some n1 /\ getRetryID n1 = getRetryID n /\ (target = source -> n1 = note_source (getRetryID (core n)) (core m))).
  { unfold K1. destruct (decide (target = source)) as [->|]; [rewrite lookup_insert_eq|rewrite lookup_insert_ne, lookup_fmap, Hn by done].
    - eexists. split; [done|]. split; [|done]. assert (n = m) as -> by congruence. by rewrite (proj1 (note_source_keepsT _ _)).
    - by eexists. }
  destruct He as (n1 & Hn1 & E1 & Es). rewrite Hn1 in Ha. cbn [mbind option_bind] in Ha. injection Ha as -> _.
  pose proof (getRetryID_range m) as Hgm. pose proof (getRetryID_range n) as Hgn.
  assert (Hb : Z.testbit (ipcRetryTargets (wait (getRetryID (core m)) n1)) (getRetryID m) = true).
  { cbn [wait ipcRetryTargets]. change (getRetryID (core m)) with (getRetryID m). rewrite Z.lor_spec, bit_spec, Z.eqb_refl by done. apply orb_true_r. }
  assert (Hno : noted (note_source (getRetryID (core n)) (core m)) (getRetryID n) = true) by (by apply note_source_noted).
  assert (Hid : getRetryID (note_source (getRetryID (core n)) (core m)) = getRetryID m) by (by rewrite (proj1 (note_source_keepsT _ _))).
  destruct (decide (target = source)) as [->|Hne].
  - exists (wait (getRetryID (core m)) n1), (wait (getRetryID (core m)) n1). rewrite lookup_insert_eq. assert (n = m) as -> by congruence.
    split; [done|]. split; [done|]. split; [done|]. split; [done|]. right. split; [done|]. by rewrite (Es eq_refl).
  - exists (wait (getRetryID (core m)) n1), (note_source (getRetryID (core n)) (core m)). rewrite lookup_insert_eq, lookup_insert_ne by done.
    unfold K1. rewrite lookup_insert_eq. split; [done|]. split; [done|]. split; [done|]. split; [done|]. by right.
Qed.

Lemma pending_deferred K source target i j m :
  pending K source target i j -> K !! target = Some m -> ipcDeferredRetrySources m = 0 ->
  noted m i = Z.testbit (ipcRetrySources m) i.
Proof. intros _ _ HD. unfold noted. rewrite HD, Z.bits_0. apply orb_false_r. Qed.

(** A step of the manager that tells the source in the abstract tells it. *)
Lemma told_concrete o h s source j K' R' :
  wf h s -> aexec o (abs (h, s)) = Some (K', R') -> (exists n', K' !! source = Some n' /\ Z.testbit (ipcRetry n') j = true) ->
  exists h' s' n', exec o (h, s) = Some (h', s') /\ h' !! source = Some n' /\ Z.testbit (ipcRetry n') j = true.
Proof.
  intros Hw Ha (n' & Hn' & Ht). destruct (sim_exec o h s Hw) as [Hs _]. rewrite Ha in Hs. destruct (exec o (h, s)) as [[h' s']|]; [|done].
  cbn [fmap option_fmap option_map] in Hs. apply (inj Some) in Hs. injection Hs as HK _. cbn [fst] in HK. rewrite <- HK, lookup_fmap in Hn'.
  apply core_Some in Hn' as (m & Hm & ->). by exists h', s', m.
Qed.

Lemma notify_answers h s source target i j :
  wf h s -> pending (core <$> h) source target i j ->
  (exists m, h !! target = Some m /\ ipcDeferredRetrySources m = 0) ->
  exists h' s' n', notify h s target = Some (h', s') /\ h' !! source = Some n' /\ Z.testbit (ipcRetry n') j = true.
Proof.
  intros Hw Hp (m & Hm & HD). assert (Hk : (core <$> h) !! target = Some (core m)) by by rewrite lookup_fmap, Hm.
  apply (told_concrete (Notify target) h s source j (a_notify (core <$> h) (core m) target) (remoteIPCRetrySources s) Hw).
  - cbn [aexec abs fst snd]. by rewrite Hk.
  - apply (a_notify_told _ source target i); [by eapply wf_words_core|done|done|by eapply pending_deferred].
Qed.

Lemma remove_answers h s source target i j :
  wf h s -> pending (core <$> h) source target i j ->
  (exists m, h !! target = Some m /\ ipcDeferredRetrySources m = 0) ->
  exists h' s' n', remove h s target = Some (h', s') /\ h' !! source = Some n' /\ Z.testbit (ipcRetry n') j = true.
Proof.
  intros Hw Hp (m & Hm & HD). assert (Hk : (core <$> h) !! target = Some (core m)) by by rewrite lookup_fmap, Hm.
  destruct (a_notify_told _ source target i j (core m) (wf_words_core _ _ Hw) Hp Hk) as (n' & Hn' & Ht); [by eapply pending_deferred|].
  destruct (a_notify_lookup _ (core m) target target Hk) as (m1 & Hm1 & _); [eauto|].
  apply (told_concrete (Remove target) h s source j (<[target := set_targets 0 m1]> (a_notify (core <$> h) (core m) target)) (remoteIPCRetrySources s) Hw).
  - cbn [aexec abs fst snd]. rewrite Hk. cbn [mbind option_bind]. by rewrite Hm1.
  - destruct (decide (target = source)) as [->|]; [rewrite lookup_insert_eq|rewrite lookup_insert_ne by done; eauto].
    eexists. split; [done|]. assert (n' = m1) as -> by congruence. done.
Qed.

(** C38: no refused caller is forgotten.  Once a source has asked to be told
    about a target, then whatever requests, notifications, remote traffic and
    removals of other processes follow, in any order, the target's next yield
    after its entry point is enabled delivers the target's identifier in the
    source's [ipcRetry] (unless it was delivered already), and so does the
    target's destruction provided it has no deferred sources. *)
Theorem request_answered h0 s0 pre h s source target n m ops h1 s1 b :
  idle h0 -> is_uval (remoteIPCRetrySources s0) -> runs exec pre (h0, init s0) = Some (h, s) ->
  h !! source = Some n -> h !! target = Some m ->
  Forall (spares source target) ops -> runs exec (Request source target :: ops) (h, s) = Some (h1, s1) ->
  (exists h2 s2 n2, runs exec [EnableEntry target b; Notify target] (h1, s1) = Some (h2, s2) /\
    h2 !! source = Some n2 /\ Z.testbit (ipcRetry n2) (getRetryID m) = true) /\
  ((exists m1, h1 !! target = Some m1 /\ ipcDeferredRetrySources m1 = 0) ->
   exists h2 s2 n2, remove h1 s1 target = Some (h2, s2) /\ h2 !! source = Some n2 /\ Z.testbit (ipcRetry n2) (getRetryID m) = true).
Proof.
  intros Hi HR Hpre Hn Hm Hsp Hrun. pose proof (proj2 (sim_runs pre h0 (init s0) (retry_init_wf h0 s0 Hi HR)) _ Hpre) as Hw. cbn [fst snd] in Hw.
  cbn [runs exec] in Hrun. destruct (requestNotification h s source target) as [[ha sa]|] eqn:Hreq; [|done]. cbn [mbind option_bind] in Hrun.
  destruct (request_pending _ _ _ _ _ _ _ _ Hw Hn Hm Hreq) as [Hwa Hpa]. destruct (pending_runs _ _ _ _ _ _ _ _ _ Hwa Hsp Hrun Hpa) as [Hw1 Hp1].
  split; [|by apply (remove_answers _ _ _ _ (getRetryID n))].
  assert (Hm1 : exists m1, h1 !! target = Some m1).
  { destruct Hp1 as (_ & mk & _ & Hmk & _). rewrite lookup_fmap in Hmk. apply core_Some in Hmk as (m1 & ? & _). eauto. }
  destruct Hm1 as (m1 & Hm1). cbn [runs exec]. unfold enableEntry. rewrite Hm1. cbn [mbind option_bind].
  assert (He : (if (ipcDeferredRetrySources m1 =? 0) && negb b then h1 else
    <[target := mkPA (commID m1) (reservedThread m1) (ipcRetryTargets m1) (Z.lor (ipcRetrySources m1) (ipcDeferredRetrySources m1)) 0
       (ipcRetryNext m1) true (ipcRetryID m1) (ipcRetry m1) (retryNotify m1)]> h1) = <[target := enabled b m1]> h1).
  { unfold enabled. destruct (_ && _); [by rewrite insert_id|done]. }
  rewrite He. pose proof (pending_runs [EnableEntry target b] h1 s1 (<[target := enabled b m1]> h1) s1 source target (getRetryID n) (getRetryID m) Hw1) as Hpe.
  cbn [runs exec] in Hpe. unfold enableEntry in Hpe. rewrite Hm1 in Hpe. cbn [mbind option_bind] in Hpe. rewrite He in Hpe.
  destruct Hpe as [Hw2 Hp2]; [by repeat constructor|done|done|].
  destruct (notify_answers _ _ _ _ _ _ Hw2 Hp2) as (h2 & s2 & n2 & E2 & H2 & H3).
  - exists (enabled b m1). rewrite lookup_insert_eq. split; [done|apply enabled_deferred].
  - exists h2, s2, n2. split; [|done]. cbn [mbind option_bind exec]. by rewrite E2.
Qed.

(** ** Examples *)

Module Ex.
Definition pa (pid : Z) (reserved : bool) : ProcessAnnex := mkPA (IPCTargetTable.COMMID pid 0) reserved 0 0 0 0 false 0 0 false.
(** Processes 1 and 65 share an identifier; process 2 has no entry point yet. *)
Definition heap : gmap Z ProcessAnnex := {[ 4096 := pa 1 true; 8192 := pa 65 true; 12288 := pa 2 false; 16384 := pa 3 true ]}.
End Ex.

Lemma retry_refines_witness :
  abs <$> runs exec [Request 4096 16384; Request 8192 16384; Request 4096 12288; RequestRemote 8192; Notify 16384; CheckRemote; EnableEntry 12288 false; Notify 12288; Remove 4096]
    (Ex.heap, init (mkM [] 0))
  = runs aexec [Request 4096 16384; Request 8192 16384; Request 4096 12288; RequestRemote 8192; Notify 16384; CheckRemote; EnableEntry 12288 false; Notify 12288; Remove 4096]
    (core <$> Ex.heap, 0).
Proof.
  apply (retry_refines Ex.heap (mkM [] 0)); apply (bool_decide_unpack _); vm_compute; exact I.
Defined.

(** The request is made while others wait, and survives the removal of the
    process that shares the identifier. *)
Definition ex_pre : list op := [Request 8192 16384; Notify 12288].
Definition ex_ops : list op := [Request 8192 12288; Remove 8192; CheckRemote; Notify 12288].

Lemma request_answered_witness :
  exists h s h1 s1, runs exec ex_pre (Ex.heap, init (mkM [] 0)) = Some (h, s) /\
    runs exec (Request 4096 12288 :: ex_ops) (h, s) = Some (h1, s1) /\
    exists h2 s2 n2, runs exec [EnableEntry 12288 false; Notify 12288] (h1, s1) = Some (h2, s2) /\
      h2 !! 4096 = Some n2 /\ Z.testbit (ipcRetry n2) 2 = true.
Proof.
  eexists _, _, _, _. split; [vm_compute; reflexivity|]. split; [vm_compute; reflexivity|].
  eapply (request_answered Ex.heap (mkM [] 0) ex_pre _ _ 4096 12288 _ (Ex.pa 2 false) ex_ops).
  - apply (bool_decide_unpack _). vm_compute. exact I.
  - apply (bool_decide_unpack _). vm_compute. exact I.
  - vm_compute. reflexivity.
  - vm_compute. reflexivity.
  - vm_compute. reflexivity.
  - repeat constructor; discriminate.
  - vm_compute. reflexivity.
Defined.

(** [remove] looks at [ipcRetrySources] only: a caller that was refused because
    the target had no entry point is not told when the target goes away, and
    keeps waiting. *)
Lemma remove_forgets_deferred :
  exists h s n, runs exec [Request 4096 12288; Remove 12288] (Ex.heap, init (mkM [] 0)) = Some (h, s) /\
    h !! 4096 = Some n /\ ipcRetry n = 0 /\ ipcRetryTargets n = bit 2.
Proof. eexists _, _, _. split; [vm_compute; reflexivity|]. split; [vm_compute; reflexivity|]. by vm_compute. Qed.

End IPCRetryManager.
