(* ===== verification/AtomicBitVec64.v ===== *)
(** * AtomicBitVec64: a 64-bit bit vector, lib/libc/misc/AtomicBitVec64.H

    Every method is a function of the word [bits].  The two methods that search
    and change a bit retry while another processor changes the word between the
    load and the compare-and-store: a round takes the value that is loaded and
    the value that the store finds. *)

From stdpp Require Import base numbers option list.
From S2P Require Import K42 Prelude.

Module AtomicBitVec64.

Definition setSize : Z := 64.

Definition setBit (b bits : Z) : Z := Z.lor bits (ushl 1 b).

(** The result and the new word. *)
Definition flipAllIfZero (bits : Z) : bool * Z := if bits =? 0 then (true, UMAX) else (false, bits).

Definition fetchAndSetBit (b bits : Z) : Z * Z := (bits, Z.lor bits (ushl 1 b)).

Definition clearBit (b bits : Z) : Z := Z.land bits (unot (ushl 1 b)).

Definition fetchAndClearBit (b bits : Z) : Z * Z := (bits, Z.land bits (unot (ushl 1 b))).

Definition isBitSet (b bits : Z) : bool := negb (Z.land bits (ushl 1 b) =? 0).

Definition setFirstBits (n : Z) : Z := usub (ushl 1 n) 1.

Definition clearFirstBits (n : Z) : Z := unot (usub (ushl 1 n) 1).

Definition clearAll : Z := 0.

Definition setAll : Z := UMAX.

Definition applyMask (mask bits : Z) : Z := Z.land bits mask.

(** [for (i = 0; i < setSize(); i++) { if (b & 1 is [stop]) break; b = b >> 1; }] *)
Fixpoint scan_shift (stop : bool) (fuel : nat) (i b : Z) : Z :=
  match fuel with
  | O => i
  | S f => if Bool.eqb (negb (Z.land b 1 =? 0)) stop then i else scan_shift stop f (i + 1) (Z.shiftr b 1)
  end.

(** [for (i = 0; i < setSize(); i++) if (b & (1 << i) is [stop]) break;] *)
Fixpoint scan_mask (stop : bool) (fuel : nat) (i b : Z) : Z :=
  match fuel with
  | O => i
  | S f => if Bool.eqb (negb (Z.land b (ushl 1 i) =? 0)) stop then i else scan_mask stop f (i + 1) b
  end.

(** One round of the loop: [None] when the store fails and the loop goes on. *)
Definition setFindFirstUnSet_round (old cur : Z) : option (Z * Z) :=
  let i := scan_shift false 64 0 old in
  if i =? setSize then Some (i, cur)
  else if cur =? old then Some (i, Z.lor old (ushl 1 i)) else None.

Definition clearFindFirstOne_round (old cur : Z) : option (Z * Z) :=
  let i := scan_shift true 64 0 old in
  if i =? setSize then Some (i, cur)
  else if cur =? old then Some (i, Z.land old (unot (ushl 1 i))) else None.

(** The do-while loop, over the values its rounds meet. *)
Fixpoint retry (round : Z -> Z -> option (Z * Z)) (rounds : list (Z * Z)) : option (Z * Z) :=
  match rounds with
  | [] => None
  | (old, cur) :: rest => match round old cur with Some r => Some r | None => retry round rest end
  end.

(** With no other processor at work the first round succeeds. *)
Definition setFindFirstUnSet (bits : Z) : option (Z * Z) := retry setFindFirstUnSet_round [(bits, bits)].
Definition clearFindFirstOne (bits : Z) : option (Z * Z) := retry clearFindFirstOne_round [(bits, bits)].

Definition findFirstOne (bits : Z) : Z :=
  if bits =? 0 then setSize else scan_mask true 64 0 bits.

Definition findFirstUnSet (bits : Z) : Z :=
  if bits =? 0 then 0 else scan_mask false 64 0 bits.

(** ** What the searches find *)

(** [i] is the lowest bit of value [v], or 64 when there is none. *)
Definition first_bit (v : bool) (bits i : Z) : Prop :=
  0 <= i <= 64 /\ (forall j, 0 <= j < i -> Z.testbit bits j = negb v) /\ (i < 64 -> Z.testbit bits i = v).

Lemma first_bit_unique v x i j : first_bit v x i -> first_bit v x j -> i = j.
Proof.
  intros (Ri & Li & Hi) (Rj & Lj & Hj). destruct (Z.lt_trichotomy i j) as [H|[H|H]]; [|done|].
  - specialize (Lj i ltac:(lia)). rewrite (Hi ltac:(lia)) in Lj. by destruct v.
  - specialize (Li j ltac:(lia)). rewrite (Hj ltac:(lia)) in Li. by destruct v.
Qed.

Lemma land_bit_zero x i : 0 <= i < 64 -> negb (Z.land x (ushl 1 i) =? 0) = Z.testbit x i.
Proof.
  intros Hi. destruct (Z.testbit x i) eqn:E.
  - apply negb_true_iff, Z.eqb_neq. intros H. assert (Z.testbit (Z.land x (ushl 1 i)) i = false) as Hf by (rewrite H; apply Z.bits_0).
    rewrite Z.land_spec, E, ushl1_bits, Z.eqb_refl in Hf by done. done.
  - apply negb_false_iff, Z.eqb_eq. apply Z.bits_inj'. intros j Hj. rewrite Z.land_spec, Z.bits_0, ushl1_bits by done.
    destruct (Z.eqb_spec j i) as [->|]; [by rewrite E|apply andb_false_r].
Qed.

Lemma land_1_zero x : negb (Z.land x 1 =? 0) = Z.testbit x 0.
Proof. apply (land_bit_zero x 0). lia. Qed.

Lemma scan_mask_spec v fuel i x :
  0 <= i -> i + Z.of_nat fuel = 64 -> (forall j, 0 <= j < i -> Z.testbit x j = negb v) ->
  first_bit v x (scan_mask v fuel i x).
Proof.
  revert i. induction fuel as [|f IH]; intros i Hi Hf Hl; cbn [scan_mask].
  { split; [lia|]. split; [done|lia]. }
  rewrite land_bit_zero by lia. destruct (Bool.eqb (Z.testbit x i) v) eqn:E.
  - apply eqb_prop in E. split; [lia|done].
  - apply IH; [lia|lia|]. intros j Hj. destruct (Z.eq_dec j i) as [->|]; [|apply Hl; lia]. by destruct v, (Z.testbit x i).
Qed.

Lemma scan_shift_spec v fuel i x :
  0 <= i -> i + Z.of_nat fuel = 64 -> (forall j, 0 <= j < i -> Z.testbit x j = negb v) ->
  first_bit v x (scan_shift v fuel i (Z.shiftr x i)).
Proof.
  revert i. induction fuel as [|f IH]; intros i Hi Hf Hl; cbn [scan_shift].
  { split; [lia|]. split; [done|lia]. }
  rewrite land_1_zero, Z.shiftr_spec, Z.add_0_l, Z.shiftr_shiftr by lia. destruct (Bool.eqb (Z.testbit x i) v) eqn:E.
  - apply eqb_prop in E. split; [lia|done].
  - apply IH; [lia|lia|]. intros j Hj. destruct (Z.eq_dec j i) as [->|]; [|apply Hl; lia]. by destruct v, (Z.testbit x i).
Qed.

Lemma findFirstUnSet_first x : first_bit false x (findFirstUnSet x).
Proof.
  unfold findFirstUnSet. zcase; [subst|apply scan_mask_spec; lia].
  split; [lia|]. split; [lia|]. intros _. apply Z.bits_0.
Qed.

Lemma findFirstOne_first x : first_bit true x (findFirstOne x).
Proof.
  unfold findFirstOne. zcase; [subst|apply scan_mask_spec; lia].
  unfold setSize. split; [lia|]. split; [|lia]. intros j _. apply Z.bits_0.
Qed.

Lemma scan_shift_first v x : first_bit v x (scan_shift v 64 0 x).
Proof. rewrite <- (Z.shiftr_0_r x) at 2. apply scan_shift_spec; lia. Qed.

(** The two loops that look for a bit, by shifting and by masking, agree. *)
Lemma scans_agree v x : scan_shift v 64 0 x = scan_mask v 64 0 x.
Proof. apply (first_bit_unique v x); [apply scan_shift_first|apply scan_mask_spec; lia]. Qed.

Lemma setFindFirstUnSet_spec x :
  exists i, first_bit false x i /\ setFindFirstUnSet x = Some (i, if i =? 64 then x else setBit i x).
Proof.
  exists (scan_shift false 64 0 x). split; [apply scan_shift_first|].
  unfold setFindFirstUnSet, retry, setFindFirstUnSet_round, setSize. rewrite Z.eqb_refl. by zcase.
Qed.

(** Whatever other processors do between the load and the store of any round, a
    successful search took a bit that was the lowest clear one of the word the
    store found, and changed nothing else of that word. *)
Lemma setFindFirstUnSet_atomic rounds i x' :
  retry setFindFirstUnSet_round rounds = Some (i, x') -> i <> 64 ->
  exists cur, cur ∈ rounds.*2 /\ first_bit false cur i /\ x' = setBit i cur.
Proof.
  induction rounds as [|[old cur] rest IH]; [done|]. cbn [retry]. intros H Hi.
  destruct (setFindFirstUnSet_round old cur) as [r|] eqn:E.
  - injection H as ->. unfold setFindFirstUnSet_round, setSize in E. destruct (Z.eqb_spec (scan_shift false 64 0 old) 64); [by simplify_eq|].
    destruct (Z.eqb_spec cur old) as [->|]; [|done]. simplify_eq. exists old. split; [left|]. split; [apply scan_shift_first|done].
  - destruct (IH H Hi) as (c & Hc & R). exists c. split; [by right|done].
Qed.

(** ** The bits after each change *)

Lemma setBit_bits b x j : 0 <= b < 64 -> Z.testbit (setBit b x) j = Z.testbit x j || (j =? b).
Proof. intros Hb. unfold setBit. by rewrite Z.lor_spec, ushl1_bits. Qed.

Lemma ushl1_uval b : is_uval (ushl 1 b).
Proof. apply uwrap_range. Qed.

Lemma setBit_uval b x : is_uval x -> is_uval (setBit b x).
Proof. intros H. apply lor_uval; [done|apply ushl1_uval]. Qed.

Lemma clearBit_bits b x j : 0 <= b < 64 -> is_uval x -> Z.testbit (clearBit b x) j = Z.testbit x j && negb (j =? b).
Proof. intros Hb Hx. unfold clearBit. rewrite (land_unot x _ Hx (ushl1_uval b)). by rewrite Z.ldiff_spec, ushl1_bits. Qed.

Lemma clearBit_uval b x : is_uval x -> is_uval (clearBit b x).
Proof. intros H. unfold clearBit. rewrite (land_unot x _ H (ushl1_uval b)). by apply ldiff_uval. Qed.

Lemma UMAX_bits j : 0 <= j -> Z.testbit UMAX j = (j <? 64).
Proof.
  intros Hj. unfold UMAX. replace (2 ^ 64 - 1) with (Z.ones 64) by done. rewrite Z.testbit_ones by lia.
  rewrite (proj2 (Z.leb_le 0 j) Hj). done.
Qed.

(** A word with all its bits set. *)
Lemma full_iff x : is_uval x -> x = UMAX <-> (forall j, 0 <= j < 64 -> Z.testbit x j = true).
Proof.
  intros Hx. split; [intros -> j Hj; rewrite UMAX_bits by lia; apply Z.ltb_lt; lia|]. intros H. apply Z.bits_inj'. intros j Hj.
  rewrite UMAX_bits by done. destruct (Z.ltb_spec j 64); [apply H; lia|]. apply is_uval_bits in Hx as [_ Hx]. by apply Hx.
Qed.

Lemma zero_iff x : is_uval x -> x = 0 <-> (forall j, 0 <= j < 64 -> Z.testbit x j = false).
Proof.
  intros Hx. split; [intros -> j _; apply Z.bits_0|]. intros H. apply Z.bits_inj'. intros j Hj. rewrite Z.bits_0.
  destruct (Z.ltb_spec j 64); [apply H; lia|]. apply is_uval_bits in Hx as [_ Hx]. by apply Hx.
Qed.

Lemma clearFirstBits_bits n j : 0 <= n < 64 -> 0 <= j < 64 -> Z.testbit (clearFirstBits n) j = (n <=? j).
Proof.
  intros Hn Hj. unfold clearFirstBits, ushl. rewrite Z.shiftl_1_l, uwrap_small.
  2:{ split; [apply Z.pow_nonneg; lia|apply Z.pow_lt_mono_r; lia]. }
  assert (1 <= 2 ^ n < 2 ^ 64) by (split; [apply (Z.pow_le_mono_r 2 0 n); lia|apply Z.pow_lt_mono_r; lia]).
  rewrite usub_small by lia.
  assert (E : unot (2 ^ n - 1) = Z.ldiff UMAX (2 ^ n - 1)).
  { rewrite <- land_unot by (unfold is_uval, UMAX; lia). apply Z.bits_inj'. intros k Hk. rewrite Z.land_spec, UMAX_bits by done.
    destruct (Z.ltb_spec k 64); [done|]. apply (testbit_bounded _ 64); [|lia]. unfold unot. lia. }
  rewrite E, Z.ldiff_spec, UMAX_bits, (proj2 (Z.ltb_lt j 64)) by lia. replace (2 ^ n - 1) with (Z.ones n) by (rewrite Z.ones_equiv; lia).
  rewrite Z.testbit_ones, (proj2 (Z.leb_le 0 j)) by lia. simpl. rewrite Z.leb_antisym. done.
Qed.

Lemma clearFirstBits_uval n : is_uval (clearFirstBits n).
Proof. pose proof (usub_range (ushl 1 n) 1). unfold clearFirstBits, unot, is_uval in *. lia. Qed.

Lemma first_bit_full x : first_bit false x 64 -> is_uval x -> x = UMAX.
Proof. intros (_ & H & _) Hx. apply full_iff; done. Qed.

Lemma findFirstUnSet_full x : is_uval x -> findFirstUnSet x = 64 <-> x = UMAX.
Proof.
  intros Hx. split; [intros E; apply first_bit_full; [|done]; rewrite <- E; apply findFirstUnSet_first|].
  intros ->. done.
Qed.

End AtomicBitVec64.
