(* ===== verification/BlockSet.v ===== *)
(** * BlockSet: the hierarchical bitmap of disk blocks, lib/libc/misc/BlockSet.C

    A disk of up to 64^4 blocks is a tree of bit vectors, 64 to a vector: a bit of
    L1 is a block, a bit of L2 a block set (a vector of L1, handed out as a
    whole), and a bit of L3 or L4 says that the vector below it is known to be
    full.  The bit of a full vector is set only when a search has met it, so a
    clear bit promises nothing: the search may have to come back up. *)

From stdpp Require Import base numbers option list.
From S2P Require Import K42 Prelude AtomicBitVec64.

Module BlockSet.
Import AtomicBitVec64.

Record t := mkBS { L1 : list Z; L2 : list Z; L3 : list Z; L4 : list Z }.

(** [mapLevel[level]] *)
Definition mapLevel (s : t) (level : nat) : list Z :=
  match level with 0%nat => L1 s | 1%nat => L2 s | 2%nat => L3 s | 3%nat => L4 s | _ => [] end.

Definition set_level (s : t) (level : nat) (l : list Z) : t :=
  match level with
  | 0%nat => mkBS l (L2 s) (L3 s) (L4 s)
  | 1%nat => mkBS (L1 s) l (L3 s) (L4 s)
  | 2%nat => mkBS (L1 s) (L2 s) l (L4 s)
  | 3%nat => mkBS (L1 s) (L2 s) (L3 s) l
  | _ => s
  end.

(** [mapLevel[level][id]], read and written; [None] outside the array. *)
Definition load (s : t) (level : nat) (id : Z) : option Z :=
  if 0 <=? id then mapLevel s level !! Z.to_nat id else None.
Definition store (s : t) (level : nat) (id v : Z) : option t :=
  _ ← load s level id; Some (set_level s level (<[Z.to_nat id := v]> (mapLevel s level))).

(** ** The constructor *)

(** The vector [i] of a level on which [numBlocks] bits are free. *)
Definition init_vec (numBlocks i : Z) : Z :=
  if 64 * i <=? numBlocks then
    let numBits := usub numBlocks (64 * i) in
    if 64 <=? numBits then clearAll else clearFirstBits numBits
  else setAll.

(** [for (i = 0; i < 1<<(6*(3-level)); ++i)] *)
Fixpoint init_loop (fuel : nat) (numBlocks i : Z) : list Z :=
  match fuel with O => [] | S f => init_vec numBlocks i :: init_loop f numBlocks (i + 1) end.

Definition init_level (numBlocks : Z) (level : Z) : list Z :=
  init_loop (Z.to_nat (Z.shiftl 1 (6 * (3 - level)))) numBlocks 0.

(** How many vectors of the level below are not full. *)
Definition parent_blocks (numBlocks : Z) : Z :=
  (if numBlocks mod 64 =? 0 then numBlocks else uadd numBlocks 64) / 64.

Definition BlockSet (numBlocks : Z) : t * bool :=
  let n1 := parent_blocks numBlocks in
  let n2 := parent_blocks n1 in
  let n3 := parent_blocks n2 in
  (mkBS (init_level numBlocks 0) (init_level n1 1) (init_level n2 2) (init_level n3 3), false).

(** ** The operations *)

(** The place of the bit vector above. *)
Definition parent (level : nat) (id : Z) : option (nat * Z) :=
  _ ← assertK (Nat.ltb level 3); Some (S level, id / 64).

(** A vector of L1, known by its index; the assertion is on that index. *)
Definition blockSetID (bv : Z) : option Z :=
  _ ← assertK ((0 <=? bv) && (bv <? 64 * 64 * 64)); Some bv.

(** The loop of getBlockSet.  [Some (None, _)]: the assertion "Out of space"
    stops the system. *)
Fixpoint get_loop (fuel : nat) (s : t) (level : nat) (setID : Z) : option (option Z * t) :=
  match fuel with
  | O => None
  | S f =>
    match level with
    | O => Some (Some setID, s)
    | S below =>
      bits ← load s level setID;
      '(tmp, s1) ← (if Nat.eqb level 1 then '(i, bits') ← setFindFirstUnSet bits; s' ← store s level setID bits'; Some (i, s')
                    else Some (findFirstUnSet bits, s));
      if tmp =? 64 then
        if Nat.eqb level 3 then Some (None, s1)
        else
          '(pl, pid) ← parent level setID;
          pbits ← load s1 pl pid;
          s2 ← store s1 pl pid (setBit (setID mod 64) pbits);
          get_loop f s2 (S level) (setID / 64)
      else get_loop f s1 below (setID * 64 + tmp)
    end
  end.

Definition get_fuel : nat := Z.to_nat 16644.

(** The index of the block set, whose bit vector is [&L1[setID]]. *)
Definition getBlockSet : t * bool -> option (option Z * (t * bool)) :=
  AutoLock (fun s => get_loop get_fuel s 3 0).

(** The loop of putBlockSet; [n] is what [level] lacks to 3. *)
Fixpoint put_loop (n : nat) (s : t) (level : nat) (curr : Z) : option t :=
  match n with
  | O => Some s
  | S n =>
    '(pl, pid) ← parent level curr;
    bits ← load s pl pid;
    s1 ← store s pl pid (clearBit (curr mod 64) bits);
    if findFirstUnSet bits =? 64 then put_loop n s1 (S level) (curr / 64) else Some s1
  end.

Definition putBlockSet (target : Z) (clearSet : bool) : t * bool -> option (unit * (t * bool)) :=
  AutoLock (fun s =>
    orig ← blockSetID target;
    s1 ← put_loop 3 s 0 orig;
    s2 ← (if clearSet then store s1 0 orig clearAll else Some s1);
    Some (tt, s2)).

(** ** The representation *)

Definition width (level : nat) : Z := 64 ^ (3 - Z.of_nat level).

(** Bit [id] of a level, counted over its vectors. *)
Definition bit (s : t) (level : nat) (id : Z) : bool :=
  match load s level (id / 64) with Some b => Z.testbit b (id mod 64) | None => true end.

Definition shaped (s : t) : Prop :=
  forall k, (k <= 3)%nat -> Z.of_nat (length (mapLevel s k)) = width k /\ Forall is_uval (mapLevel s k).

(** A set bit of L3 or L4 stands for a full vector, except perhaps at [e]. *)
Definition full_below (s : t) (e : nat * Z) : Prop :=
  forall k i, (1 <= k <= 2)%nat -> 0 <= i < 64 * width k -> (k, i / 64) <> e -> bit s (S k) (i / 64) = true -> bit s k i = true.

Record wf (s : t) : Prop := { wf_shape : shaped s; wf_full : full_below s (0%nat, 0) }.

(** The block sets that are not handed out. *)
Definition free_set (s : t) (i : Z) : Prop := 0 <= i < 64 ^ 3 /\ bit s 1 i = false.

#[export] Instance free_set_dec s i : Decision (free_set s i).
Proof. unfold free_set. apply _. Defined.

(** ** Reads and writes *)

Lemma width_pos k : (k <= 3)%nat -> 0 < width k.
Proof. intros H. apply Z.pow_pos_nonneg; lia. Qed.

Lemma width_S k : (k < 3)%nat -> width k = 64 * width (S k).
Proof. intros H. unfold width. rewrite <- Z.pow_succ_r by lia. f_equal. lia. Qed.

Lemma load_some s k id : shaped s -> (k <= 3)%nat -> 0 <= id < width k -> exists b, load s k id = Some b /\ is_uval b.
Proof.
  intros Hs Hk Hid. destruct (Hs k Hk) as [Hl Hu]. unfold load. rewrite (proj2 (Z.leb_le 0 id)) by lia.
  destruct (lookup_lt_is_Some_2 (mapLevel s k) (Z.to_nat id)) as [b Hb]; [lia|].
  exists b. split; [done|]. by apply (proj1 (Forall_lookup _ _) Hu (Z.to_nat id)).
Qed.

Lemma load_range s k id b : shaped s -> (k <= 3)%nat -> load s k id = Some b -> 0 <= id < width k /\ is_uval b.
Proof.
  intros Hs Hk Hb. destruct (Hs k Hk) as [Hl Hu]. unfold load in Hb. destruct (Z.leb_spec 0 id); [|done]. split; [|by apply (proj1 (Forall_lookup _ _) Hu (Z.to_nat id))].
  apply lookup_lt_Some in Hb. lia.
Qed.

Lemma mapLevel_set s k l k' : (k <= 3)%nat -> mapLevel (set_level s k l) k' = if decide (k = k') then l else mapLevel s k'.
Proof. intros H. do 4 (destruct k as [|k]; [do 4 (destruct k' as [|k']; [done|]); done|]). lia. Qed.

Lemma store_some s k id v b : load s k id = Some b -> exists s', store s k id v = Some s'.
Proof. intros H. unfold store. rewrite H. cbn [mbind option_bind]. eauto. Qed.

Lemma store_load s k id v s' k' id' :
  (k <= 3)%nat -> store s k id v = Some s' ->
  load s' k' id' = if decide ((k, id) = (k', id')) then Some v else load s k' id'.
Proof.
  intros Hk H. unfold store in H. destruct (load s k id) as [b|] eqn:Eb; [|done]. cbn [mbind option_bind] in H. simplify_eq.
  unfold load in *. destruct (Z.leb_spec 0 id); [|done]. rewrite mapLevel_set by done. destruct (Z.leb_spec 0 id') as [|].
  2:{ rewrite decide_False; [done|]. intros [=]. lia. }
  destruct (decide (k = k')) as [<-|Hne].
  - destruct (decide (id = id')) as [<-|Hni].
    + rewrite decide_True by done. apply list_lookup_insert_eq. by eapply lookup_lt_Some.
    + rewrite decide_False by congruence. apply list_lookup_insert_ne. lia.
  - rewrite decide_False by congruence. done.
Qed.

Lemma store_shaped s k id v s' : (k <= 3)%nat -> shaped s -> is_uval v -> store s k id v = Some s' -> shaped s'.
Proof.
  intros Hk Hs Hv H. unfold store in H. destruct (load s k id) as [b|] eqn:Eb; [|done]. cbn [mbind option_bind] in H. simplify_eq.
  intros k' Hk'. rewrite mapLevel_set by done. destruct (decide (k = k')) as [<-|]; [|by apply Hs].
  destruct (Hs k Hk) as [Hl Hu]. rewrite length_insert. split; [done|]. by apply Forall_insert.
Qed.

Lemma store_other s k id v s' k' : (k <= 3)%nat -> store s k id v = Some s' -> k <> k' -> mapLevel s' k' = mapLevel s k'.
Proof.
  intros Hk H Hne. unfold store in H. destruct (load s k id) as [b|]; [|done]. cbn [mbind option_bind] in H. simplify_eq.
  by rewrite mapLevel_set, decide_False.
Qed.

(** The bits after a write of one vector. *)
Lemma store_bit s k id v s' k' i :
  (k <= 3)%nat -> store s k id v = Some s' ->
  bit s' k' i = if decide ((k, id) = (k', i / 64)) then Z.testbit v (i mod 64) else bit s k' i.
Proof. intros Hk H. unfold bit. rewrite (store_load _ _ _ _ _ _ _ Hk H). by destruct (decide _). Qed.

Lemma split64 i j r : 0 <= r < 64 -> i = j * 64 + r -> i / 64 = j /\ i mod 64 = r.
Proof.
  intros Hr ->. rewrite Z.add_comm. rewrite Z.div_add, Z.mod_add, Z.div_small, Z.mod_small by lia. lia.
Qed.

Lemma join64 i j r : i / 64 = j -> i mod 64 = r -> i = j * 64 + r.
Proof. intros <- <-. pose proof (Z.div_mod i 64 ltac:(lia)). lia. Qed.

Lemma mod64 i : 0 <= i mod 64 < 64.
Proof. apply Z.mod_pos_bound. lia. Qed.

(** Writing a vector with one more bit set, or one more bit clear. *)
Lemma store_setBit s k id b s' k' i :
  (k <= 3)%nat -> load s k (id / 64) = Some b -> store s k (id / 64) (setBit (id mod 64) b) = Some s' ->
  bit s' k' i = bit s k' i || bool_decide ((k', i) = (k, id)).
Proof.
  intros Hk Hb Hs. rewrite (store_bit _ _ _ _ _ _ _ Hk Hs). destruct (decide _) as [E|Hne].
  - injection E as <- Eq. rewrite setBit_bits by apply mod64. unfold bit. rewrite <- Eq, Hb. f_equal.
    destruct (Z.eqb_spec (i mod 64) (id mod 64)) as [Em|Em].
    + symmetry. apply bool_decide_eq_true. f_equal. rewrite (Z.div_mod i 64), (Z.div_mod id 64) by lia. congruence.
    + symmetry. apply bool_decide_eq_false. congruence.
  - rewrite bool_decide_eq_false_2, orb_false_r; [done|]. intros [= -> ->]. done.
Qed.

Lemma store_clearBit s k id b s' k' i :
  (k <= 3)%nat -> is_uval b -> load s k (id / 64) = Some b -> store s k (id / 64) (clearBit (id mod 64) b) = Some s' ->
  bit s' k' i = bit s k' i && negb (bool_decide ((k', i) = (k, id))).
Proof.
  intros Hk Hu Hb Hs. rewrite (store_bit _ _ _ _ _ _ _ Hk Hs). destruct (decide _) as [E|Hne].
  - injection E as <- Eq. rewrite clearBit_bits by (apply mod64 || done). unfold bit. rewrite <- Eq, Hb. do 2 f_equal.
    destruct (Z.eqb_spec (i mod 64) (id mod 64)) as [Em|Em].
    + symmetry. apply bool_decide_eq_true. f_equal. rewrite (Z.div_mod i 64), (Z.div_mod id 64) by lia. congruence.
    + symmetry. apply bool_decide_eq_false. congruence.
  - rewrite bool_decide_eq_false_2, andb_true_r; [done|]. intros [= -> ->]. done.
Qed.

(** Bits of one vector. *)
Lemma bit_vec s k id b j : load s k id = Some b -> 0 <= j < 64 -> bit s k (id * 64 + j) = Z.testbit b j.
Proof. intros Hb Hj. destruct (split64 (id * 64 + j) id j Hj eq_refl) as [Ed Em]. unfold bit. by rewrite Ed, Em, Hb. Qed.

(** A free block set is visible on every level above it. *)
Lemma free_climbs s j k : wf s -> free_set s j -> (k <= 2)%nat -> bit s (S k) (j / 64 ^ Z.of_nat k) = false.
Proof.
  intros [Hs Hf] [Hj H]. induction k as [|k IH]; intros Hk; [by rewrite Z.pow_0_r, Z.div_1_r|].
  specialize (IH ltac:(lia)). destruct (bit s (S (S k)) (j / 64 ^ Z.of_nat (S k))) eqn:E; [|done].
  rewrite Nat2Z.inj_succ, Z.pow_succ_r, Z.mul_comm, <- Zdiv_Zdiv in E by lia.
  rewrite (Hf (S k) (j / 64 ^ Z.of_nat k)) in IH; [done|lia| |congruence|done].
  unfold width. rewrite <- Z.pow_succ_r by lia. split; [apply Z.div_pos; lia|]. apply Z.div_lt_upper_bound; [lia|].
  rewrite <- Z.pow_add_r by lia. replace (_ + _) with 3 by lia. lia.
Qed.

(** ** The search *)

Definition clear1 (s : t) (k : nat) (i : Z) : Z := if bit s k i then 0 else 1.

(** How often the search can still come back up. *)
Definition measure (s : t) : Z := sum_with (clear1 s 2) (seqZ 0 4096) + sum_with (clear1 s 3) (seqZ 0 64).

Lemma clear1_01 s k i : 0 <= clear1 s k i <= 1.
Proof. unfold clear1. destruct (bit s k i); lia. Qed.

Lemma measure_range s : 0 <= measure s <= 4160.
Proof.
  unfold measure. pose proof (sum_with_range _ (clear1_01 s 2) (seqZ 0 4096)). pose proof (sum_with_range _ (clear1_01 s 3) (seqZ 0 64)).
  rewrite length_seqZ in *. lia.
Qed.

Lemma measure_decreases s s' k id :
  (2 <= k <= 3)%nat -> 0 <= id < 64 * width k -> bit s k id = false ->
  (forall k' i, bit s' k' i = bit s k' i || bool_decide ((k', i) = (k, id))) -> measure s' < measure s.
Proof.
  intros Hk Hid Hb Hs.
  assert (Hle : forall k' i, clear1 s' k' i <= clear1 s k' i) by (intros k' i; unfold clear1; rewrite Hs; destruct (bit s k' i), (bool_decide _); simpl; lia).
  assert (Hlt : clear1 s' k id < clear1 s k id) by (unfold clear1; rewrite Hs, Hb, bool_decide_eq_true_2 by done; simpl; lia).
  unfold measure. destruct (decide (k = 2%nat)) as [->|].
  - assert (H2 : sum_with (clear1 s' 2) (seqZ 0 4096) < sum_with (clear1 s 2) (seqZ 0 4096)).
    { apply (sum_with_lt _ _ _ id); [apply elem_of_seqZ; unfold width in Hid; simpl in Hid; lia|done|done]. }
    pose proof (sum_with_le (clear1 s' 3) (clear1 s 3) (seqZ 0 64) (Hle 3%nat)). lia.
  - assert (k = 3%nat) as -> by lia.
    assert (H3 : sum_with (clear1 s' 3) (seqZ 0 64) < sum_with (clear1 s 3) (seqZ 0 64)).
    { apply (sum_with_lt _ _ _ id); [apply elem_of_seqZ; unfold width in Hid; simpl in Hid; lia|done|done]. }
    pose proof (sum_with_le (clear1 s' 2) (clear1 s 2) (seqZ 0 4096) (Hle 2%nat)). lia.
Qed.

(** What a search may do: nothing to the blocks, and to the block sets only what
    its result says. *)
Record searched (s s' : t) (r : option Z) : Prop := {
  sd_wf : wf s';
  sd_L1 : L1 s' = L1 s;
  sd_sets : forall j, bit s' 1 j = bit s 1 j || bool_decide (Some j = r);
  sd_result : match r with Some i => free_set s i /\ forall j, free_set s j -> i <= j | None => forall j, ~ free_set s j end;
}.

(** Setting a bit keeps the invariant when it is the bit of a block set or of a
    full vector. *)
Lemma setBit_wf s k id b s' :
  wf s -> (1 <= k <= 3)%nat -> is_uval b -> load s k (id / 64) = Some b ->
  (k <> 1%nat -> forall j, 0 <= j < 64 -> bit s (pred k) (id * 64 + j) = true) ->
  store s k (id / 64) (setBit (id mod 64) b) = Some s' -> wf s'.
Proof.
  intros [Hs Hf] Hk Hu Hb Hfull Hst. pose proof (fun k' i => store_setBit s k id b s' k' i ltac:(lia) Hb Hst) as B.
  split; [by eapply store_shaped, Hst; [lia|done|apply setBit_uval]|].
  intros k' i Hk' Hi He. rewrite !B. destruct (bit s (S k') (i / 64)) eqn:E.
  - intros _. by rewrite (Hf k' i Hk' Hi He E).
  - simpl. intros Hd. apply bool_decide_eq_true in Hd. injection Hd as <- <-.
    specialize (Hfull ltac:(lia) (i mod 64) (mod64 i)). simpl in Hfull. replace (i / 64 * 64 + i mod 64) with i in Hfull; [by rewrite Hfull|].
    pose proof (Z.div_mod i 64 ltac:(lia)). lia.
Qed.

(** Where the search stands: the bits on the way down to vector [id] of [level]
    are clear, and no block set before it is free. *)
Record at_vec (s : t) (level : nat) (id : Z) : Prop := {
  av_wf : wf s;
  av_level : (1 <= level <= 3)%nat;
  av_id : 0 <= id < width level;
  av_path : forall k, (level <= k <= 2)%nat -> bit s (S k) (id / 64 ^ Z.of_nat (k - level)) = false;
  av_least : forall j, free_set s j -> id * 64 ^ Z.of_nat level <= j;
}.

(** Down into the lowest clear bit of the vector. *)
Lemma free_not_below s level id b tmp j :
  at_vec s level id -> load s level id = Some b -> first_bit false b tmp -> free_set s j ->
  (id * 64 + tmp) * 64 ^ Z.of_nat (pred level) <= j.
Proof.
  intros [Hw Hl Hid _ Hm] Hb (Hr & Hlow & _) Hj. pose proof (free_climbs s j (pred level) Hw Hj ltac:(lia)) as Hc.
  replace (S (pred level)) with level in Hc by lia. specialize (Hm j Hj).
  set (q := 64 ^ Z.of_nat (pred level)) in *. assert (0 < q) by (apply Z.pow_pos_nonneg; lia).
  replace (64 ^ Z.of_nat level) with (64 * q) in Hm by (unfold q; rewrite <- Z.pow_succ_r by lia; f_equal; lia).
  assert (Hq : id * 64 <= j / q) by (apply Z.div_le_lower_bound; lia).
  destruct (Z_lt_le_dec (j / q) (id * 64 + tmp)) as [Hlt|Hge].
  - exfalso. specialize (Hlow (j / q - id * 64) ltac:(lia)). rewrite <- (bit_vec s level id) in Hlow by (done || lia).
    replace (id * 64 + (j / q - id * 64)) with (j / q) in Hlow by lia. by rewrite Hc in Hlow.
  - pose proof (Z.mul_div_le j q ltac:(lia)). nia.
Qed.

Lemma at_vec_down s level id b tmp :
  at_vec s level id -> (2 <= level)%nat -> load s level id = Some b -> first_bit false b tmp -> tmp < 64 ->
  at_vec s (pred level) (id * 64 + tmp).
Proof.
  intros Ha H2 Hb Hfb Ht. pose proof (fun j => free_not_below s level id b tmp j Ha Hb Hfb) as Hleast. destruct Ha as [Hw Hl Hid Hp _].
  destruct Hfb as (Hr & _ & Hclear). split; [done|lia| | |done].
  - rewrite (width_S (pred level)) by lia. replace (S (pred level)) with level by lia. nia.
  - intros k Hk. destruct (decide (k = pred level)) as [->|].
    + rewrite Nat.sub_diag, Z.pow_0_r, Z.div_1_r. replace (S (pred level)) with level by lia. rewrite (bit_vec s level id b) by (done || lia). by apply Hclear.
    + replace (k - pred level)%nat with (S (k - level)) by lia. rewrite Nat2Z.inj_succ, Z.pow_succ_r, <- Zdiv_Zdiv by lia.
      destruct (split64 (id * 64 + tmp) id tmp ltac:(lia) eq_refl) as [-> _]. apply Hp. lia.
Qed.

(** Up from a full vector, which is marked. *)
Lemma at_vec_up s level id b s' :
  at_vec s level id -> (level <= 2)%nat -> (forall j, 0 <= j < 64 -> bit s level (id * 64 + j) = true) ->
  is_uval b -> load s (S level) (id / 64) = Some b -> store s (S level) (id / 64) (setBit (id mod 64) b) = Some s' ->
  at_vec s' (S level) (id / 64) /\ measure s' < measure s /\ (forall j, bit s' 1 j = bit s 1 j) /\ L1 s' = L1 s.
Proof.
  intros [Hw Hl Hid Hp Hm] H2 Hfull Hu Hb Hst.
  pose proof (fun k' i => store_setBit s (S level) id b s' k' i ltac:(lia) Hb Hst) as B.
  assert (B1 : forall j, bit s' 1 j = bit s 1 j) by (intros j; rewrite B, bool_decide_eq_false_2, orb_false_r; [done|intros [=]; lia]).
  pose proof (width_S level ltac:(lia)) as Hw1.
  split_and!; [split; [|lia| | |]| |done|].
  - eapply (setBit_wf s (S level) id b s'); [done|lia|done|done|intros _; exact Hfull|done].
  - split; [apply Z.div_pos; lia|apply Z.div_lt_upper_bound; lia].
  - intros k Hk. rewrite B. specialize (Hp k ltac:(lia)). rewrite Zdiv_Zdiv by lia. rewrite <- Z.pow_succ_r by lia.
    replace (Z.succ (Z.of_nat (k - S level))) with (Z.of_nat (k - level)) by lia. rewrite Hp. apply bool_decide_eq_false. intros [=]; lia.
  - intros j Hj. assert (Hj' : free_set s j) by (unfold free_set in *; by rewrite <- B1). specialize (Hm j Hj').
    rewrite Nat2Z.inj_succ, Z.pow_succ_r by lia. pose proof (Z.mul_div_le id 64 ltac:(lia)).
    assert (0 < 64 ^ Z.of_nat level) by (apply Z.pow_pos_nonneg; lia). nia.
  - apply (measure_decreases s s' (S level) id); [lia|lia| |done]. specialize (Hp level ltac:(lia)). by rewrite Nat.sub_diag, Z.pow_0_r, Z.div_1_r in Hp.
  - apply (store_other s (S level) _ _ s' 0 ltac:(lia) Hst). lia.
Qed.

(** The rest of a search from a state that has only been marked. *)
Lemma searched_from s s1 s' r :
  searched s1 s' r -> (forall j, bit s1 1 j = bit s 1 j) -> L1 s1 = L1 s -> searched s s' r.
Proof.
  intros [Hw HL Hb Hr] B E. split; [done|congruence|intros j; rewrite Hb, B; done|].
  assert (F : forall j, free_set s j <-> free_set s1 j) by (intros j; unfold free_set; by rewrite B).
  destruct r as [i|]; [|intros j; rewrite F; apply Hr]. rewrite F. split; [apply Hr|]. intros j. rewrite F. apply Hr.
Qed.

(** Taking a block set. *)
Lemma bs_take_set s id b tmp s' :
  at_vec s 1 id -> load s 1 id = Some b -> first_bit false b tmp -> tmp < 64 ->
  store s 1 id (setBit tmp b) = Some s' -> searched s s' (Some (id * 64 + tmp)).
Proof.
  intros Ha Hb Hf Ht Hst. pose proof (fun j => free_not_below s 1 id b tmp j Ha Hb Hf) as Hleast. destruct Ha as [Hw _ Hid _ _].
  pose proof Hf as (Hr & _ & Hclear). destruct (split64 (id * 64 + tmp) id tmp ltac:(lia) eq_refl) as [Ed Em].
  destruct (load_range s 1 id b (wf_shape s Hw) ltac:(lia) Hb) as [_ Hu].
  assert (Hb' : load s 1 ((id * 64 + tmp) / 64) = Some b) by by rewrite Ed.
  assert (Hst' : store s 1 ((id * 64 + tmp) / 64) (setBit ((id * 64 + tmp) mod 64) b) = Some s') by by rewrite Ed, Em.
  split.
  - apply (setBit_wf s 1 (id * 64 + tmp) b); [done|lia|done|done|done|done].
  - by apply (store_other s 1 _ _ s' 0 ltac:(lia) Hst).
  - intros j. rewrite (store_setBit s 1 _ b s' 1 j ltac:(lia) Hb' Hst'). f_equal. apply bool_decide_ext. split; congruence.
  - split; [|intros j Hj; specialize (Hleast j Hj); simpl in Hleast; lia]. split; [unfold width in Hid; simpl in Hid; lia|].
    rewrite (bit_vec s 1 id b) by (done || lia). by apply Hclear.
Qed.

(** No set is free when the root is full. *)
Lemma root_full s b : at_vec s 3 0 -> load s 3 0 = Some b -> first_bit false b 64 -> forall j, ~ free_set s j.
Proof.
  intros Ha Hb Hf j Hj. pose proof (free_not_below s 3 0 b 64 j Ha Hb Hf Hj) as H. destruct Hj as [Hj _]. simpl in H. lia.
Qed.

(** From a full vector the search goes on above it. *)
Lemma full_vec_up s level id b s1 :
  at_vec s level id -> (level <= 2)%nat -> load s level id = Some b -> first_bit false b 64 -> s1 = s ->
  exists s2 pb, load s1 (S level) (id / 64) = Some pb /\ store s1 (S level) (id / 64) (setBit (id mod 64) pb) = Some s2 /\
    at_vec s2 (S level) (id / 64) /\ measure s2 < measure s /\ (forall j, bit s2 1 j = bit s 1 j) /\ L1 s2 = L1 s.
Proof.
  intros Ha H2 Hb (_ & Hf & _) ->. destruct (Ha) as [Hw Hl Hid _ _]. pose proof (width_S level ltac:(lia)).
  destruct (load_some s (S level) (id / 64) (wf_shape s Hw) ltac:(lia)) as (pb & Hpb & Hu).
  { split; [apply Z.div_pos; lia|apply Z.div_lt_upper_bound; lia]. }
  destruct (store_some s (S level) (id / 64) (setBit (id mod 64) pb) pb Hpb) as [s2 Hs2]. exists s2, pb. do 2 (split; [done|]).
  apply (at_vec_up s level id pb s2); try done. intros j Hj. rewrite (bit_vec s level id b) by done. by apply Hf.
Qed.

Lemma parent_eq level id : (level <= 2)%nat -> parent level id = Some (S level, id / 64).
Proof. intros H. unfold parent. rewrite (proj2 (Nat.ltb_lt level 3)) by lia. done. Qed.

(** Writing back the word that was read. *)
Lemma store_same s k id b : (k <= 3)%nat -> load s k id = Some b -> store s k id b = Some s.
Proof.
  intros Hk Hb. unfold store. rewrite Hb. cbn [mbind option_bind]. unfold load in Hb. destruct (0 <=? id); [|done].
  rewrite list_insert_id by done. destruct s. do 4 (destruct k as [|k]; [done|]). lia.
Qed.

(** The search ends, and finds the lowest free block set if there is one. *)
Lemma bs_get_loop_spec fuel s level id :
  at_vec s level id -> 4 * measure s + Z.of_nat level < Z.of_nat fuel ->
  exists r s', get_loop fuel s level id = Some (r, s') /\ searched s s' r.
Proof.
  revert s level id. induction fuel as [|f IH]; intros s level id Ha Hfuel; [pose proof (measure_range s); lia|].
  destruct (Ha) as [Hw Hl Hid _ _]. destruct level as [|below]; [lia|]. cbn [get_loop].
  destruct (load_some s (S below) id (wf_shape s Hw) ltac:(lia) Hid) as (b & Hb & Hu). rewrite Hb. cbn [mbind option_bind].
  destruct (Nat.eqb_spec (S below) 1) as [H1|H1].
  - assert (below = 0%nat) as -> by lia. destruct (setFindFirstUnSet_spec b) as (tmp & Hf & E). rewrite E. cbn [mbind option_bind].
    destruct (Z.eqb_spec tmp 64) as [->|Hne].
    + rewrite (store_same s 1 id b) by (done || lia). cbn [mbind option_bind Nat.eqb]. rewrite Z.eqb_refl, parent_eq by lia. cbn [mbind option_bind].
      destruct (full_vec_up s 1 id b s Ha ltac:(lia) Hb Hf eq_refl) as (s2 & pb & E1 & E2 & Ha2 & Hm & B & EL).
      rewrite E1. cbn [mbind option_bind]. rewrite E2. cbn [mbind option_bind].
      destruct (IH s2 2%nat (id / 64) Ha2 ltac:(lia)) as (r & s' & E' & Hs). exists r, s'. split; [done|]. by eapply searched_from.
    + assert (tmp < 64) by (destruct Hf; lia). destruct (store_some s 1 id (setBit tmp b) b Hb) as [s' Hst]. rewrite Hst. cbn [mbind option_bind].
      rewrite (proj2 (Z.eqb_neq tmp 64) Hne). destruct f as [|f]; [pose proof (measure_range s); lia|]. cbn [get_loop].
      exists (Some (id * 64 + tmp)), s'. split; [done|]. by apply (bs_take_set s id b tmp).
  - pose proof (findFirstUnSet_first b) as Hf. set (tmp := findFirstUnSet b) in *. clearbody tmp. cbn [mbind option_bind].
    destruct (Z.eqb_spec tmp 64) as [->|Hne].
    + destruct (Nat.eqb_spec (S below) 3) as [H3|H3].
      * assert (id = 0) as -> by (rewrite H3 in Hid; unfold width in Hid; simpl in Hid; lia). rewrite H3 in *.
        exists None, s. split; [done|]. split; [done|done|intros j; by rewrite bool_decide_eq_false_2, orb_false_r|]. by apply (root_full s b).
      * rewrite parent_eq by lia. cbn [mbind option_bind].
        destruct (full_vec_up s (S below) id b s Ha ltac:(lia) Hb Hf eq_refl) as (s2 & pb & E1 & E2 & Ha2 & Hm & B & EL).
        rewrite E1. cbn [mbind option_bind]. rewrite E2. cbn [mbind option_bind].
        destruct (IH s2 (S (S below)) (id / 64) Ha2 ltac:(lia)) as (r & s' & E' & Hs). exists r, s'. split; [done|]. by eapply searched_from.
    + assert (tmp < 64) by (destruct Hf; lia). apply IH; [|lia]. by apply (at_vec_down s (S below) id b tmp ltac:(done) ltac:(lia)).
Qed.

Lemma at_root s : wf s -> at_vec s 3 0.
Proof. intros Hw. split; [done|lia|unfold width; simpl; lia|lia|]. intros j [Hj _]. lia. Qed.

Lemma getBlockSet_spec s : wf s -> exists r s', getBlockSet (s, false) = Some (r, (s', false)) /\ searched s s' r.
Proof.
  intros Hw. pose proof (measure_range s). destruct (bs_get_loop_spec get_fuel s 3 0 (at_root s Hw)) as (r & s' & E & Hs).
  { unfold get_fuel. lia. }
  exists r, s'. split; [by apply AutoLock_free|done].
Qed.

(** ** Giving a set back *)

Lemma bits_full s k id b : shaped s -> (k <= 3)%nat -> load s k id = Some b -> (forall j, 0 <= j < 64 -> bit s k (id * 64 + j) = true) -> b = UMAX.
Proof.
  intros Hs Hk Hb H. destruct (load_range s k id b Hs Hk Hb) as [_ Hu]. apply full_iff; [done|]. intros j Hj.
  rewrite <- (bit_vec s k id) by done. by apply H.
Qed.

Lemma bs_put_loop_spec n s level curr :
  (n + level = 3)%nat -> shaped s -> full_below s (level, curr) -> 0 <= curr < width level ->
  exists s', put_loop n s level curr = Some s' /\ wf s' /\ (forall k, (k <= level)%nat -> mapLevel s' k = mapLevel s k) /\
    ((level < 3)%nat -> forall i, bit s' (S level) i = bit s (S level) i && negb (bool_decide (i = curr))).
Proof.
  revert s level curr. induction n as [|n IH]; intros s level curr Hn Hs Hf Hc.
  { exists s. split; [done|]. split; [|done || (split; [done|lia])]. split; [done|]. intros k i Hk Hi _. apply Hf; [done|done|]. intros [=]; lia. }
  cbn [put_loop]. rewrite parent_eq by lia. cbn [mbind option_bind]. pose proof (width_S level ltac:(lia)) as Hw.
  assert (Hp : 0 <= curr / 64 < width (S level)) by (split; [apply Z.div_pos; lia|apply Z.div_lt_upper_bound; lia]).
  destruct (load_some s (S level) (curr / 64) Hs ltac:(lia) Hp) as (b & Hb & Hu). rewrite Hb. cbn [mbind option_bind].
  destruct (store_some s (S level) (curr / 64) (clearBit (curr mod 64) b) b Hb) as [s1 Hst]. rewrite Hst. cbn [mbind option_bind].
  pose proof (fun k i => store_clearBit s (S level) curr b s1 k i ltac:(lia) Hu Hb Hst) as B.
  assert (Hs1 : shaped s1) by (by eapply store_shaped, Hst; [lia|done|apply clearBit_uval]).
  assert (Hlow : forall k, (k <= level)%nat -> mapLevel s1 k = mapLevel s k).
  { intros k Hk. apply (store_other s (S level) _ _ s1 k ltac:(lia) Hst). lia. }
  assert (Hkeep : forall k i, (1 <= k <= 2)%nat -> 0 <= i < 64 * width k -> (k, i / 64) <> (S level, curr / 64) -> bit s1 (S k) (i / 64) = true -> bit s1 k i = true).
  { intros k i Hk Hi He. rewrite !B. intros H. apply andb_true_iff in H as [H Hne]. apply negb_true_iff, bool_decide_eq_false in Hne.
    rewrite (Hf k i Hk Hi); [|congruence|done]. simpl. apply negb_true_iff, bool_decide_eq_false. congruence. }
  assert (B' : forall i, bit s1 (S level) i = bit s (S level) i && negb (bool_decide (i = curr))).
  { intros i. rewrite B. do 2 f_equal. apply bool_decide_ext. split; congruence. }
  destruct (Z.eqb_spec (findFirstUnSet b) 64) as [Efull|Enot].
  - destruct (IH s1 (S level) (curr / 64) ltac:(lia) Hs1 Hkeep Hp) as (s' & E & Hw' & Hl' & _). exists s'. split; [done|]. split; [done|].
    split; [intros k Hk; rewrite Hl', Hlow by lia; done|]. intros _ i. rewrite <- B'. unfold bit, load. rewrite Hl' by lia. done.
  - exists s1. split; [done|]. split; [|done]. split; [done|]. intros k i Hk Hi _. destruct (decide ((k, i / 64) = (S level, curr / 64))) as [[= -> Ei]|]; [|by apply Hkeep].
    rewrite Ei, B. intros H. apply andb_true_iff in H as [H _]. destruct Enot. apply findFirstUnSet_full; [done|].
    apply (bits_full s (S level) (curr / 64)); [done|lia|done|]. intros j Hj. destruct (split64 (curr / 64 * 64 + j) (curr / 64) j Hj eq_refl) as [Ed _].
    apply Hf; [lia|lia|intros [=]; lia|by rewrite Ed].
Qed.

(** Writing a vector of blocks changes no other level. *)
Lemma store_block_wf s i v s' :
  wf s -> is_uval v -> store s 0 i v = Some s' -> wf s' /\ forall k j, bit s' (S k) j = bit s (S k) j.
Proof.
  intros Hw Hv Hst.
  assert (B : forall k j, bit s' (S k) j = bit s (S k) j).
  { intros k j. rewrite (store_bit s 0 i v s' (S k) j ltac:(lia) Hst), decide_False; [done|congruence]. }
  split; [|done]. split; [eapply store_shaped, Hst; [lia|apply Hw|done]|].
  intros k j Hk Hj He. destruct k as [|k]; [lia|]. rewrite !B. by apply (wf_full s Hw).
Qed.

Lemma putBlockSet_spec s i clearSet :
  wf s -> 0 <= i < 64 ^ 3 ->
  exists s', putBlockSet i clearSet (s, false) = Some (tt, (s', false)) /\ wf s' /\
    L1 s' = (if clearSet then <[Z.to_nat i := 0]> (L1 s) else L1 s) /\
    forall j, bit s' 1 j = bit s 1 j && negb (bool_decide (j = i)).
Proof.
  intros [Hs Hf] Hi. destruct (bs_put_loop_spec 3 s 0 i eq_refl Hs) as (s1 & E1 & Hw1 & Hl1 & Hb1); [|done|].
  { intros k j Hk Hj _. apply Hf; [done|done|]. intros [=]; lia. }
  specialize (Hl1 0%nat ltac:(lia)). specialize (Hb1 ltac:(lia)). change (L1 s1 = L1 s) in Hl1.
  assert (Hid : blockSetID i = Some i) by (unfold blockSetID; rewrite (proj2 (Z.leb_le 0 i)), (proj2 (Z.ltb_lt i (64 * 64 * 64))) by lia; done).
  destruct clearSet.
  - destruct (load_some s1 0 i (wf_shape s1 Hw1) ltac:(lia) Hi) as (b & Hb & _). destruct (store_some s1 0 i clearAll b Hb) as [s2 Hst].
    exists s2. split; [apply AutoLock_free; rewrite Hid; cbn [mbind option_bind]; rewrite E1; cbn [mbind option_bind]; rewrite Hst; done|].
    destruct (store_block_wf s1 i clearAll s2 Hw1 ltac:(unfold clearAll, is_uval; lia) Hst) as [Hw2 B']. split; [done|].
    split; [|intros j; by rewrite B'].
    unfold store in Hst. rewrite Hb in Hst. cbn [mbind option_bind] in Hst. injection Hst as <-. simpl. by rewrite Hl1.
  - exists s1. split; [apply AutoLock_free; rewrite Hid; cbn [mbind option_bind]; rewrite E1; done|done].
Qed.

(** ** The constructor *)

Lemma init_vec_bits n i j : 0 <= n < 2 ^ 64 -> 0 <= i -> 0 <= j < 64 -> Z.testbit (init_vec n i) j = (n <=? i * 64 + j).
Proof.
  intros Hn Hi Hj. unfold init_vec. destruct (Z.leb_spec (64 * i) n).
  - rewrite usub_small by lia. destruct (Z.leb_spec 64 (n - 64 * i)).
    + unfold clearAll. rewrite Z.bits_0. symmetry. apply Z.leb_gt. lia.
    + rewrite clearFirstBits_bits by lia. apply eq_true_iff_eq. rewrite !Z.leb_le. lia.
  - unfold setAll. rewrite UMAX_bits by lia. rewrite (proj2 (Z.ltb_lt j 64)), (proj2 (Z.leb_le n _)) by lia. done.
Qed.

Lemma init_vec_uval n i : is_uval (init_vec n i).
Proof. unfold init_vec. repeat case_match; [unfold clearAll, is_uval; lia|apply clearFirstBits_uval|unfold setAll, UMAX, is_uval; lia]. Qed.

Lemma parent_blocks_eq n : 0 <= n < 2 ^ 63 -> parent_blocks n = (n + 63) / 64.
Proof.
  intros Hn. unfold parent_blocks. pose proof (Z.div_mod n 64 ltac:(lia)). pose proof (mod64 n).
  destruct (Z.eqb_spec (n mod 64) 0).
  - apply (Z.div_unique (n + 63) 64 (n / 64) 63); lia.
  - rewrite uadd_small by lia. transitivity (n / 64 + 1); [symmetry; apply (Z.div_unique _ 64 _ (n mod 64)); lia|].
    apply (Z.div_unique _ 64 _ (n mod 64 - 1)); lia.
Qed.

(** The number of free bits on each level at first. *)
Fixpoint level_blocks (n : Z) (k : nat) : Z := match k with O => n | S k => (level_blocks n k + 63) / 64 end.

Lemma level_blocks_range n k : 0 <= n < 2 ^ 63 -> 0 <= level_blocks n k < 2 ^ 63.
Proof.
  intros Hn. induction k as [|k IH]; [done|]. cbn [level_blocks]. split; [apply Z.div_pos; lia|]. apply Z.div_lt_upper_bound; lia.
Qed.

Lemma init_loop_seqZ fuel n i : init_loop fuel n i = init_vec n <$> seqZ i (Z.of_nat fuel).
Proof.
  revert i. induction fuel as [|f IH]; intros i; [done|]. cbn [init_loop]. rewrite seqZ_cons by lia. rewrite fmap_cons, IH. do 3 f_equal; lia.
Qed.

Lemma init_levels n k : 0 <= n < 2 ^ 63 -> (k <= 3)%nat -> mapLevel (BlockSet n).1 k = init_vec (level_blocks n k) <$> seqZ 0 (width k).
Proof.
  intros Hn Hk. pose proof (fun k => level_blocks_range n k Hn) as R. unfold BlockSet. cbn [fst].
  rewrite (parent_blocks_eq n) by done. change ((n + 63) / 64) with (level_blocks n 1). rewrite (parent_blocks_eq (level_blocks n 1)) by apply R.
  change ((level_blocks n 1 + 63) / 64) with (level_blocks n 2). rewrite (parent_blocks_eq (level_blocks n 2)) by apply R.
  change ((level_blocks n 2 + 63) / 64) with (level_blocks n 3). do 4 (destruct k as [|k]; [apply init_loop_seqZ|]). lia.
Qed.

Lemma init_bit n k i : 0 <= n < 2 ^ 63 -> (k <= 3)%nat -> 0 <= i < 64 * width k -> bit (BlockSet n).1 k i = (level_blocks n k <=? i).
Proof.
  intros Hn Hk Hi. pose proof (level_blocks_range n k Hn). assert (Hd : 0 <= i / 64 < width k) by (split; [apply Z.div_pos; lia|apply Z.div_lt_upper_bound; lia]).
  unfold bit, load. rewrite (proj2 (Z.leb_le 0 (i / 64))), init_levels, list_lookup_fmap by (done || lia).
  rewrite (proj2 (lookup_seqZ 0 (width k) (Z.to_nat (i / 64)) (i / 64)) ltac:(lia)). cbn [fmap option_fmap option_map].
  rewrite init_vec_bits by (apply mod64 || lia). f_equal. rewrite (Z.div_mod i 64) at 3 by lia. lia.
Qed.

Lemma bs_init_wf n : 0 <= n < 2 ^ 63 -> wf (BlockSet n).1.
Proof.
  intros Hn. split.
  - intros k Hk. rewrite init_levels by done. rewrite length_fmap, length_seqZ. pose proof (width_pos k Hk). split; [lia|].
    apply Forall_fmap, Forall_forall. intros i _. apply init_vec_uval.
  - intros k i Hk Hi _. pose proof (width_S k ltac:(lia)).
    rewrite (init_bit n k), (init_bit n (S k)) by (done || lia || (split; [apply Z.div_pos; lia|apply Z.div_lt_upper_bound; lia])).
    rewrite !Z.leb_le. cbn [level_blocks]. intros Hb. pose proof (Z.mul_div_le i 64 ltac:(lia)). pose proof (Z.mul_succ_div_gt (level_blocks n k + 63) 64 ltac:(lia)). lia.
Qed.

Lemma init_free n i : 0 <= n < 2 ^ 63 -> free_set (BlockSet n).1 i <-> 0 <= i < 64 ^ 3 /\ 64 * i < n.
Proof.
  intros Hn. unfold free_set. split; intros [Hi H]; (split; [done|]); rewrite (init_bit n 1) in * by (done || lia || (unfold width; simpl; lia)).
  - apply Z.leb_gt in H. cbn [level_blocks] in H. pose proof (Z.mul_div_le (n + 63) 64 ltac:(lia)). lia.
  - apply Z.leb_gt. cbn [level_blocks]. apply Z.lt_le_trans with (i + 1); [lia|]. apply Z.div_le_lower_bound; lia.
Qed.

(** ** The specification *)

Inductive op := Get | Put (i : Z) (clearSet : bool).

(** A run of calls, with the results of getBlockSet; it ends where the system
    runs out of space. *)
Fixpoint run (st : t * bool) (ops : list op) : option (list (option Z) * (t * bool)) :=
  match ops with
  | [] => Some ([], st)
  | Get :: ops =>
    '(r, st1) ← getBlockSet st;
    match r with None => Some ([None], st1) | Some i => '(rs, st2) ← run st1 ops; Some (Some i :: rs, st2) end
  | Put i c :: ops => '(_, st1) ← putBlockSet i c st; run st1 ops
  end.

(** The set of free block sets, and the results it allows: getBlockSet takes the
    least, and fails only when there is none. *)
Inductive allowed : (Z -> Prop) -> list op -> list (option Z) -> Prop :=
| al_nil F : allowed F [] []
| al_get F F' i ops rs : F i -> (forall j, F j -> i <= j) -> (forall j, F' j <-> F j /\ j <> i) ->
    allowed F' ops rs -> allowed F (Get :: ops) (Some i :: rs)
| al_none F ops : (forall j, ~ F j) -> allowed F (Get :: ops) [None]
| al_put F F' i c ops rs : (forall j, F' j <-> F j \/ j = i) -> allowed F' ops rs -> allowed F (Put i c :: ops) rs.

Definition valid (o : op) : Prop := match o with Get => True | Put i _ => 0 <= i < 64 ^ 3 end.

#[export] Instance valid_dec o : Decision (valid o).
Proof. destruct o; apply _. Defined.

Lemma searched_free s s' i : searched s s' (Some i) -> forall j, free_set s' j <-> free_set s j /\ j <> i.
Proof.
  intros Hs j. unfold free_set. rewrite (sd_sets _ _ _ Hs). destruct (decide (j = i)) as [->|Hne].
  - rewrite bool_decide_eq_true_2, orb_true_r by done. naive_solver.
  - rewrite bool_decide_eq_false_2, orb_false_r by congruence. naive_solver.
Qed.

Lemma put_free s s' i : 0 <= i < 64 ^ 3 ->
  (forall j, bit s' 1 j = bit s 1 j && negb (bool_decide (j = i))) -> forall j, free_set s' j <-> free_set s j \/ j = i.
Proof.
  intros Hi B j. unfold free_set. rewrite B. destruct (decide (j = i)) as [->|Hne].
  - rewrite bool_decide_eq_true_2, andb_false_r by done. naive_solver.
  - rewrite bool_decide_eq_false_2, andb_true_r by congruence. naive_solver.
Qed.

Lemma run_allowed s ops : wf s -> Forall valid ops -> exists rs st', run (s, false) ops = Some (rs, st') /\ allowed (free_set s) ops rs.
Proof.
  intros Hw Hv. revert s Hw. induction Hv as [|o ops Ho _ IH]; intros s Hw; [eexists _, _; split; [done|constructor]|].
  destruct o as [|i c]; cbn [run].
  - destruct (getBlockSet_spec s Hw) as (r & s' & E & Hs). rewrite E. cbn [mbind option_bind]. destruct r as [i|].
    + destruct (IH s' (sd_wf _ _ _ Hs)) as (rs & st' & E' & Ha). rewrite E'. cbn [mbind option_bind]. eexists _, _. split; [done|].
      destruct (sd_result _ _ _ Hs). by eapply al_get, Ha; [| |by apply searched_free].
    + eexists _, _. split; [done|]. apply al_none, Hs.
  - destruct (putBlockSet_spec s i c Hw Ho) as (s' & E & Hw' & _ & B). rewrite E. cbn [mbind option_bind].
    destruct (IH s' Hw') as (rs & st' & E' & Ha). exists rs, st'. split; [done|]. by eapply al_put, Ha; apply put_free.
Qed.

(** C16: the bitmap of four levels implements a set of free block sets.  For a disk
    of [n] blocks, the sets that hold at least one block are free at first (as
    many as 64^3); every call of getBlockSet returns, with the least free set,
    which it removes, or reports that space is out, and then no set is free;
    putBlockSet makes its set free.  The search ends although it may meet full
    vectors that are not marked, and never misses a free set. *)
Theorem blockset_refines n ops :
  0 <= n < 2 ^ 63 -> Forall valid ops ->
  exists rs st', run (BlockSet n) ops = Some (rs, st') /\ allowed (fun i => 0 <= i < 64 ^ 3 /\ 64 * i < n) ops rs.
Proof.
  intros Hn Hv. destruct (run_allowed (BlockSet n).1 ops (bs_init_wf n Hn) Hv) as (rs & st' & E & Ha). exists rs, st'. split; [done|].
  assert (Hext : forall F ops rs, allowed F ops rs -> forall G, (forall j, G j <-> F j) -> allowed G ops rs).
  { clear. intros F ops rs H. induction H as [|F F' i ops rs Hi Hl HF H IH|F ops HF|F F' i c ops rs HF H IH]; intros G HG.
    - constructor.
    - apply (al_get G F'); [by apply HG|intros j Hj; by apply Hl, HG|intros j; by rewrite HG|done].
    - constructor. intros j. rewrite HG. apply HF.
    - apply (al_put G F'); [intros j; by rewrite HG|done]. }
  apply (Hext _ _ _ Ha). intros j. by rewrite init_free.
Qed.

Lemma blockset_refines_witness :
  exists rs st', run (BlockSet 200) [Get; Get; Put 0 true; Get; Get; Get; Get] = Some (rs, st') /\
    allowed (fun i => 0 <= i < 64 ^ 3 /\ 64 * i < 200) [Get; Get; Put 0 true; Get; Get; Get; Get] rs.
Proof. apply (blockset_refines 200); [lia|]. apply (bool_decide_unpack _). vm_compute. exact I. Defined.

(** A disk of 200 blocks has four sets. *)
Example blockset_run : fst <$> run (BlockSet 200) [Get; Get; Put 0 true; Get; Get; Get; Get] = Some [Some 0; Some 1; Some 0; Some 2; Some 3; None].
Proof. vm_compute. reflexivity. Qed.

End BlockSet.
