(* ===== verification/DiskSwap.v ===== *)
(** * DiskSwap: swap space on block devices, os/kernel/bilge/DiskSwap.C

    A swap device has a bitmap of its blocks ([BlockSet]).  A file cache that
    writes pages out keeps a context, which names the block it got last: as long
    as the block set of that block has room, the next block comes from it, and
    else a new block set is taken from the devices in turn.  A block set whose
    blocks have all been freed goes back to its device.

    Devices are on a list of ListSimpleKey.v, keyed by their numbers; the list's
    lock covers allocation and freeing.  The block device driver, the translation
    of object handles and the mapping of physical pages are arguments. *)

From stdpp Require Import base numbers option gmap list.
From S2P Require Import K42 Prelude ListSimpleKey AtomicBitVec64 BlockSet.

Module DiskSwap.
Import AtomicBitVec64.

(** ** Block identifiers, DiskSwap.H *)

Definition SWAP_BLOCKSIZE : Z := 4096.
Definition SWAP_DEVID_SHIFT : Z := 52.
Definition SWAP_BLOCKNUM_MASK : Z := 2 ^ 52 - 1.
Definition INVALID_BLOCKID : Z := UMAX.
Definition INIT_PAGER_CONTEXT : Z := UMAX.

Definition GET_SWAP_DEVID (blockID : Z) : Z := Z.shiftr blockID SWAP_DEVID_SHIFT.
Definition GET_SWAP_BLOCKNUM (blockID : Z) : Z := Z.land blockID SWAP_BLOCKNUM_MASK.
Definition SET_SWAP_DEVID (blockID val : Z) : Z := Z.lor (ushl val SWAP_DEVID_SHIFT) (GET_SWAP_BLOCKNUM blockID).
Definition SET_SWAP_BLOCKNUM (blockID val : Z) : Z :=
  Z.lor (Z.land blockID (unot SWAP_BLOCKNUM_MASK)) (Z.land SWAP_BLOCKNUM_MASK val).

(** ** State *)

Record DeviceDesc := mkDD { bd : Z; usage : BlockSet.t * bool }.

(** [nodes] and [descs] are the memory of the list's nodes and of the device
    descriptors. *)
Record t := mkDS {
  nextDevID : Z;
  numPagesAvail : Z;
  currentDev : Z;
  devList : ListSimpleKey.locked;
  nodes : gmap Z ListSimpleKey.Node;
  descs : gmap Z DeviceDesc;
}.

Definition init : t := mkDS 0 0 NULL (ListSimpleKey.mkLocked ListSimpleKey.reinit false) ∅ ∅.

Definition set_pages (n : Z) (s : t) : t := mkDS (nextDevID s) n (currentDev s) (devList s) (nodes s) (descs s).
Definition set_current (c : Z) (s : t) : t := mkDS (nextDevID s) (numPagesAvail s) c (devList s) (nodes s) (descs s).
Definition set_usage (dd : Z) (u : BlockSet.t * bool) (s : t) : t :=
  mkDS (nextDevID s) (numPagesAvail s) (currentDev s) (devList s) (nodes s) (alter (fun d => mkDD (bd d) u) dd (descs s)).

Definition acquireLock (s : t) : option t :=
  _ ← assertK (negb (ListSimpleKey.k_lock (devList s)));
  Some (mkDS (nextDevID s) (numPagesAvail s) (currentDev s) (ListSimpleKey.mkLocked (ListSimpleKey.k_base (devList s)) true) (nodes s) (descs s)).

Definition releaseLock (s : t) : t :=
  mkDS (nextDevID s) (numPagesAvail s) (currentDev s) (ListSimpleKey.mkLocked (ListSimpleKey.k_base (devList s)) false) (nodes s) (descs s).

(** The constructor of DeviceDesc. *)
Definition new_DeviceDesc (bdr bytes : Z) : DeviceDesc := mkDD bdr (BlockSet.BlockSet (bytes / SWAP_BLOCKSIZE)).

(** attachDevice: [rc], [ref] and [isBlockDev] are what the translation of the
    object handle gives; [dd] and [node] are the memory for the descriptor and
    for the list's node. *)
Definition attachDevice (rc ref : Z) (isBlockDev : bool) (dd node bytes : Z) (s : t) : option (Z * t) :=
  if _FAILURE rc then Some (rc, s)
  else if negb isBlockDev then Some (_SERROR 2491 0 EINVAL, s)
  else
    let devID := nextDevID s in
    '(_, h', l') ← ListSimpleKey.locked_add (nodes s) (devList s) node devID dd;
    Some (0, mkDS (uadd devID 1) (uadd (numPagesAvail s) (bytes / PAGE_SIZE)) (currentDev s) l' h'
                  (<[dd := new_DeviceDesc ref bytes]> (descs s))).

(** ** Allocation *)

Definition list_fuel (s : t) : nat := S (S (size (nodes s))).

(** [while ((searchDev = devList.next(searchDev, id, tmp))) if (id == devID) break;] *)
Fixpoint find_dev (fuel : nat) (s : t) (searchDev devID : Z) : option (option Z) :=
  match fuel with
  | O => None
  | S f =>
    '(node, kd) ← ListSimpleKey.locked_next (nodes s) (devList s) searchDev;
    match kd with
    | None => Some None
    | Some (id, tmp) => if id =? devID then Some (Some tmp) else find_dev f s node devID
    end
  end.

(** [do { currentDev = devList.next(currentDev, devID, tmp); } while (!currentDev);] *)
Fixpoint next_dev (fuel : nat) (s : t) (cur : Z) : option (Z * Z * Z) :=
  match fuel with
  | O => None
  | S f =>
    '(node, kd) ← ListSimpleKey.locked_next (nodes s) (devList s) cur;
    match kd with None => next_dev f s node | Some (id, tmp) => Some (node, id, tmp) end
  end.

(** [bv->setFindFirstUnSet()] on [&usage->L1[set]] of a device. *)
Definition take_block (s : t) (dd set : Z) : option (Z * t) :=
  d ← descs s !! dd;
  bits ← BlockSet.load (usage d).1 0 set;
  '(block, bits') ← setFindFirstUnSet bits;
  u ← BlockSet.store (usage d).1 0 set bits';
  Some (block, set_usage dd (u, (usage d).2) s).

(** The part of allocBlock that follows the context.  A result is the device
    number, the block and the device. *)
Definition alloc_context (s : t) (ctx : Z) : option (option (Z * Z * Z) * t) :=
  if ctx =? INIT_PAGER_CONTEXT then Some (None, s)
  else
    let devID := GET_SWAP_DEVID ctx in
    found ← find_dev (list_fuel s) s NULL devID;
    match found with
    | None => Some (None, s)
    | Some dd2 =>
      d ← descs s !! dd2;
      '(block, s1) ← take_block s dd2 (GET_SWAP_BLOCKNUM ctx / 64);
      if block =? 64 then Some (None, s1)
      else Some (Some (devID, uadd block (Z.land ctx (unot 63)), bd d), s1)
    end.

Section build.

(** Whether debug assertions are compiled in. *)
Context (debug : bool).

Definition tassertMsg (b : bool) : option unit := if debug then assertK b else Some tt.

(** The part that takes a new block set.  [Some None]: out of space. *)
Definition alloc_new (s : t) : option (option (Z * Z * Z * t)) :=
  '(cur, devID, dd) ← next_dev (list_fuel s) s (currentDev s);
  let s1 := set_current cur s in
  d ← descs s1 !! dd;
  '(r, u) ← BlockSet.getBlockSet (usage d);
  match r with
  | None => Some None
  | Some newBlockSet =>
    '(block, s2) ← take_block (set_usage dd u s1) dd newBlockSet;
    _ ← tassertMsg (block <? 64);
    Some (Some (devID, uadd block (umul newBlockSet 64), bd d, s2))
  end.

(** From the label [end]; [bid0] is what the local variable bid holds. *)
Definition alloc_end (bid0 devID block : Z) (s : t) : Z * t :=
  let bid := SET_SWAP_BLOCKNUM (SET_SWAP_DEVID bid0 devID) block in
  (bid, releaseLock (set_pages (uadd (numPagesAvail s) (UMAX)) s)).

(** allocBlock: the block identifier, which is also the new context, and the
    device.  [Some None]: the system stops, out of space. *)
Definition allocBlock (bid0 : Z) (s : t) (ctx : Z) : option (option (Z * Z * t)) :=
  s0 ← acquireLock s;
  '(r, s1) ← alloc_context s0 ctx;
  match r with
  | Some (devID, block, bdref) => let '(bid, s') := alloc_end bid0 devID block s1 in Some (Some (bid, bdref, s'))
  | None =>
    r2 ← alloc_new s1;
    match r2 with
    | None => Some None
    | Some (devID, block, bdref, s2) => let '(bid, s') := alloc_end bid0 devID block s2 in Some (Some (bid, bdref, s'))
    end
  end.

Definition ENODEV : Z := 19.

(** freePage: status, state and context. *)
Definition freePage (blockID : Z) (s : t) (ctx : Z) : option (Z * t * Z) :=
  let devID := GET_SWAP_DEVID blockID in
  let block := GET_SWAP_BLOCKNUM blockID in
  s0 ← acquireLock s;
  found ← find_dev (list_fuel s0) s0 NULL devID;
  match found with
  | None => Some (_SERROR 2272 0 ENODEV, releaseLock s0, ctx)
  | Some dd =>
    d ← descs s0 !! dd;
    bits ← BlockSet.load (usage d).1 0 (block / 64);
    u1 ← BlockSet.store (usage d).1 0 (block / 64) (clearBit (block mod 64) bits);
    let s1 := set_pages (uadd (numPagesAvail s0) 1) s0 in
    bits1 ← BlockSet.load u1 0 (block / 64);
    let '(flipped, bits2) := flipAllIfZero bits1 in
    u2 ← BlockSet.store u1 0 (block / 64) bits2;
    if flipped then
      let ctx' := if block / 64 =? ctx / 64 then INIT_PAGER_CONTEXT else ctx in
      '(_, u3) ← BlockSet.putBlockSet (block / 64) true (u2, (usage d).2);
      Some (0, releaseLock (set_usage dd u3 s1), ctx')
    else Some (0, releaseLock (set_usage dd (u2, (usage d).2) s1), ctx)
  end.

(** ** Page I/O *)

(** The block device that holds a block identifier. *)
Definition device_of (s : t) (blockID : Z) : option Z :=
  '(r, _, _) ← ListSimpleKey.locked_find (nodes s) (devList s) (GET_SWAP_DEVID blockID);
  tmp ← r;
  d ← descs s !! tmp;
  Some (bd d).

(** A new block when [blockID] is all ones, else the block there is; with the
    status, the device, the block and the context. *)
Definition choose_block (bid0 blockID : Z) (s : t) (ctx : Z) : option (option (Z * Z * Z * t * Z)) :=
  if blockID =? UMAX then
    r ← allocBlock bid0 s ctx;
    match r with
    | None => Some None
    | Some (bid, bdref, s') => let rc := swrap bid in Some (Some (rc, bdref, if _FAILURE rc then blockID else uwrap rc, s', bid))
    end
  else d ← device_of s blockID; Some (Some (0, d, blockID, s, ctx)).

(** putPage; [putBlock] is the driver: device, address, size and offset to a
    status.  The result is the status, the block identifier, the state and the
    context. *)
Definition putPage (putBlock : Z -> Z -> Z -> Z -> Z) (bid0 physAddr blockID : Z) (s : t) (ctx : Z)
    : option (option (Z * Z * t * Z)) :=
  r ← choose_block bid0 blockID s ctx;
  match r with
  | None => Some None
  | Some (rc, bdref, bid, s1, ctx1) =>
    if _FAILURE rc then Some (Some (rc, bid, s1, ctx1))
    else
      let blockNum := GET_SWAP_BLOCKNUM bid in
      let rc := putBlock bdref physAddr SWAP_BLOCKSIZE (umul blockNum SWAP_BLOCKSIZE) in
      if _FAILURE rc then '(_, s2, ctx2) ← freePage bid s1 ctx1; Some (Some (rc, UMAX, s2, ctx2))
      else Some (Some (rc, bid, s1, ctx1))
  end.

(** What is to be done when an asynchronous operation is complete. *)
Record SwapIOCompletion := mkSIC { sic_offset : Z; sic_blockID : Z; sic_ref : Z }.

(** complete: the page is freed when its write has failed.  The second part is the
    call of ioComplete on the file representative. *)
Definition complete (sic : SwapIOCompletion) (err : Z) (s : t) : option (t * (Z * Z * Z)) :=
  s' ← (if _FAILURE err && negb (sic_blockID sic =? INVALID_BLOCKID)
        then '(_, s1, _) ← freePage (sic_blockID sic) s INIT_PAGER_CONTEXT; Some s1
        else Some s);
  Some (s', (sic_ref sic, sic_offset sic, err)).

(** The request given to the driver: device, write or read, address, size, offset
    and completion. *)
Record AsyncOp := mkAO { ao_bd : Z; ao_write : bool; ao_addr : Z; ao_size : Z; ao_offset : Z; ao_sic : SwapIOCompletion }.

(** startPutPage; [asyncOp] is the driver's answer, [realToVirt] the mapping of
    physical memory. *)
Definition startPutPage (asyncOp : AsyncOp -> Z) (realToVirt : Z -> Z) (bid0 physAddr ref offset blockID : Z) (s : t) (ctx : Z)
    : option (option (Z * Z * t * Z * option AsyncOp)) :=
  r ← choose_block bid0 blockID s ctx;
  match r with
  | None => Some None
  | Some (rc, bdref, bid, s1, ctx1) =>
    if _FAILURE rc then Some (Some (rc, bid, s1, ctx1, None))
    else
      let blockNum := GET_SWAP_BLOCKNUM bid in
      let op := mkAO bdref true (realToVirt physAddr) SWAP_BLOCKSIZE (umul blockNum SWAP_BLOCKSIZE) (mkSIC offset bid ref) in
      let ret := asyncOp op in
      _ ← tassertMsg (ret =? 0);
      Some (Some (if ret <? 0 then _SERROR 2492 0 (- ret) else rc, bid, s1, ctx1, Some op))
  end.

Definition startFillPage (asyncOp : AsyncOp -> Z) (realToVirt : Z -> Z) (physAddr ref offset blockID : Z) (s : t)
    : option (Z * AsyncOp) :=
  bdref ← device_of s blockID;
  let blockNum := GET_SWAP_BLOCKNUM blockID in
  let op := mkAO bdref false (realToVirt physAddr) SWAP_BLOCKSIZE (umul blockNum SWAP_BLOCKSIZE) (mkSIC offset UMAX ref) in
  let ret := asyncOp op in
  _ ← tassertMsg (ret =? 0);
  Some (if ret <? 0 then _SERROR 2296 0 (- ret) else 0, op).

End build.

Definition swapActive (s : t) : Z := swrap (numPagesAvail s).

(** ** Clients

    Contexts have names; a client writes pages to new blocks and frees or
    rewrites its blocks with the context they came from. *)

Record clients := mkC { ds : t; ctxs : gmap Z Z; owned : gmap Z Z }.

Inductive cmd :=
| PutNew (c physAddr bid0 rc : Z)           (* putPage to a new block; the driver answers rc *)
| StartPut (c physAddr bid0 : Z)            (* startPutPage to a new block; the write succeeds *)
| Rewrite (bid physAddr rc : Z)             (* putPage to a block there is *)
| Free (bid : Z)
| StartPutFails (bid : Z).                  (* the completion of startPutPage reports an error *)

(** [Full]: the system stopped, out of space, when context [c] asked for a block.
    [Clash]: a client was given a block that is in use. *)
Inductive outcome := Next (s : clients) | Full (s : clients) (c : Z) | Clash (bid : Z).

Definition add_page (c bid : Z) (s : t) (ctx : Z) (cl : clients) : outcome :=
  match owned cl !! bid with
  | Some _ => Clash bid
  | None => Next (mkC s (<[c := ctx]> (ctxs cl)) (<[bid := c]> (owned cl)))
  end.

Definition ctx_of (cl : clients) (c : Z) : Z := default INIT_PAGER_CONTEXT (ctxs cl !! c).

Definition client_step (debug : bool) (cl : clients) (o : cmd) : option outcome :=
  match o with
  | PutNew c phys bid0 rc =>
    r ← putPage debug (fun _ _ _ _ => rc) bid0 phys UMAX (ds cl) (ctx_of cl c);
    match r with
    | None => Some (Full cl c)
    | Some (_, bid, s, ctx) => Some (if bid =? UMAX then Next (mkC s (<[c := ctx]> (ctxs cl)) (owned cl)) else add_page c bid s ctx cl)
    end
  | StartPut c phys bid0 =>
    r ← startPutPage debug (fun _ => 0) (fun a => a) bid0 phys 0 0 UMAX (ds cl) (ctx_of cl c);
    match r with
    | None => Some (Full cl c)
    | Some (_, bid, s, ctx, _) => Some (add_page c bid s ctx cl)
    end
  | Rewrite bid phys rc =>
    match owned cl !! bid with
    | None => Some (Next cl)
    | Some c =>
      r ← putPage debug (fun _ _ _ _ => rc) 0 phys bid (ds cl) (ctx_of cl c);
      match r with
      | None => Some (Full cl c)
      | Some (_, bid', s, ctx) =>
        Some (Next (mkC s (<[c := ctx]> (ctxs cl)) (if bid' =? UMAX then delete bid (owned cl) else owned cl)))
      end
    end
  | Free bid =>
    match owned cl !! bid with
    | None => Some (Next cl)
    | Some c => '(_, s, ctx) ← freePage bid (ds cl) (ctx_of cl c); Some (Next (mkC s (<[c := ctx]> (ctxs cl)) (delete bid (owned cl))))
    end
  | StartPutFails bid =>
    match owned cl !! bid with
    | None => Some (Next cl)
    | Some c => '(s, _) ← complete (mkSIC 0 bid 0) (_SERROR 1 0 5) (ds cl); Some (Next (mkC s (ctxs cl) (delete bid (owned cl))))
    end
  end.

Fixpoint client_run (debug : bool) (cl : clients) (ops : list cmd) : option outcome :=
  match ops with
  | [] => Some (Next cl)
  | o :: ops => r ← client_step debug cl o; match r with Next cl' => client_run debug cl' ops | _ => Some r end
  end.

(** Devices of the given sizes, attached in this order, and no client yet. *)
Fixpoint attach_all (sizes : list Z) (addr : Z) (s : t) : option t :=
  match sizes with
  | [] => Some s
  | bytes :: sizes => '(_, s') ← attachDevice 0 addr true addr addr bytes s; attach_all sizes (addr + 1) s'
  end.

Definition start (sizes : list Z) : option clients := s ← attach_all sizes 1 init; Some (mkC s ∅ ∅).

(** ** Block identifiers *)

Lemma get_devid b : GET_SWAP_DEVID b = b / 2 ^ 52.
Proof. apply Z.shiftr_div_pow2. unfold SWAP_DEVID_SHIFT. lia. Qed.

Lemma get_blocknum b : GET_SWAP_BLOCKNUM b = b mod 2 ^ 52.
Proof. apply (Z.land_ones b 52). lia. Qed.

Lemma lor_high d r : 0 <= r < 2 ^ 52 -> Z.lor (d * 2 ^ 52) r = d * 2 ^ 52 + r.
Proof.
  intros Hr. rewrite <- Z.shiftl_mul_pow2 by lia. symmetry. rewrite <- Z.lxor_lor; [apply Z.add_nocarry_lxor|];
    (apply Z.bits_inj'; intros n Hn; rewrite Z.land_spec, Z.bits_0, Z.shiftl_spec by done; destruct (Z_lt_le_dec n 52);
      [by rewrite Z.testbit_neg_r by lia|by rewrite (testbit_bounded r 52), andb_false_r by lia]).
Qed.

(** A block identifier has a device number of 12 bits and a block number of 52,
    whatever the variable held before. *)
Lemma blockid_encode bid0 devID block :
  0 <= devID < 2 ^ 12 -> 0 <= block < 2 ^ 52 ->
  SET_SWAP_BLOCKNUM (SET_SWAP_DEVID bid0 devID) block = devID * 2 ^ 52 + block.
Proof.
  intros Hd Hb. unfold SET_SWAP_BLOCKNUM, SET_SWAP_DEVID, ushl, SWAP_DEVID_SHIFT.
  rewrite get_blocknum, Z.shiftl_mul_pow2, uwrap_small by (unfold is_uval; lia).
  pose proof (Z.mod_pos_bound bid0 (2 ^ 52) ltac:(lia)). rewrite lor_high by lia.
  unfold SWAP_BLOCKNUM_MASK. rewrite (land_unot_mask _ 52) by (unfold is_uval; lia).
  rewrite (Z.add_comm _ (bid0 mod 2 ^ 52)), Z.mod_add, Z.mod_mod by lia.
  rewrite Z.land_comm. change (2 ^ 52 - 1) with (Z.ones 52). rewrite Z.land_ones, (Z.mod_small block) by lia.
  replace (bid0 mod 2 ^ 52 + devID * 2 ^ 52 - bid0 mod 2 ^ 52) with (devID * 2 ^ 52) by lia. by apply lor_high.
Qed.

Lemma blockid_roundtrip bid0 devID block :
  0 <= devID < 2 ^ 12 -> 0 <= block < 2 ^ 52 ->
  GET_SWAP_DEVID (SET_SWAP_BLOCKNUM (SET_SWAP_DEVID bid0 devID) block) = devID /\
  GET_SWAP_BLOCKNUM (SET_SWAP_BLOCKNUM (SET_SWAP_DEVID bid0 devID) block) = block.
Proof.
  intros Hd Hb. rewrite blockid_encode, get_devid, get_blocknum by done. rewrite Z.add_comm.
  rewrite Z.div_add, Z.mod_add, Z.div_small, Z.mod_small by lia. lia.
Qed.

(** ** The blocks of a device *)

(** The bitmap of a device of [n] blocks of which those in [A] are in use. *)
Record holds (u : BlockSet.t) (n : Z) (A : gmap Z Z) : Prop := {
  h_wf : BlockSet.wf u;
  h_bits : forall b, 0 <= b < 64 ^ 4 -> BlockSet.bit u 0 b = true <-> is_Some (A !! b) \/ n <= b;
  h_dom : forall b o, A !! b = Some o -> 0 <= b < 64 ^ 4 /\ b < n;
  h_free : forall i, BlockSet.free_set u i -> 64 * i < n /\ forall b o, A !! b = Some o -> b / 64 <> i;
}.

(** A set that lies on the device and has no block in use can be handed out. *)
Definition busy (u : BlockSet.t) (n : Z) (A : gmap Z Z) : Prop := forall i,
  0 <= i < 64 ^ 3 -> 64 * i + 64 <= n -> (forall b o, A !! b = Some o -> b / 64 <> i) -> BlockSet.free_set u i.

Lemma busy_take u u' n A b c :
  busy u n A -> (forall j, j <> b / 64 -> BlockSet.free_set u j -> BlockSet.free_set u' j) -> busy u' n (<[b := c]> A).
Proof.
  intros Hb HF i Hi Hn Hno. assert (Hne : i <> b / 64) by (intros ->; by apply (Hno b c (lookup_insert_eq _ _ _))). apply HF; [done|]. apply Hb; [done|done|].
  intros b' o H. destruct (decide (b' = b)) as [->|]; [done|]. apply (Hno b' o). by rewrite lookup_insert_ne.
Qed.

(** A clear bit is a free block; when it is taken from a set that is handed out,
    the bitmap has it in use. *)
Lemma holds_take u n A c set :
  holds u n A -> 0 <= set < 64 ^ 3 -> ~ BlockSet.free_set u set ->
  exists i bits bits' u', BlockSet.load u 0 set = Some bits /\ setFindFirstUnSet bits = Some (i, bits') /\
    BlockSet.store u 0 set bits' = Some u' /\ 0 <= i <= 64 /\ (forall j, BlockSet.free_set u' j <-> BlockSet.free_set u j) /\
    if i =? 64 then u' = u /\ forall j, 0 <= j < 64 -> BlockSet.bit u 0 (set * 64 + j) = true
    else A !! (set * 64 + i) = None /\ set * 64 + i < n /\ holds u' n (<[set * 64 + i := c]> A).
Proof.
  intros [Hw Hb Hd Hf] Hset Hnf. destruct (BlockSet.load_some u 0 set (BlockSet.wf_shape u Hw) ltac:(lia) Hset) as (bits & Hl & Hu).
  destruct (setFindFirstUnSet_spec bits) as (i & Hfb & E). pose proof Hfb as (Hi & Hlow & Hclear).
  destruct (BlockSet.store_some u 0 set (if i =? 64 then bits else setBit i bits) bits Hl) as [u' Hst].
  assert (Hv : is_uval (if i =? 64 then bits else setBit i bits)) by (destruct (i =? 64); [done|by apply setBit_uval]).
  exists i, bits, (if i =? 64 then bits else setBit i bits), u'. split_and!; try done; try lia.
  - intros j. unfold BlockSet.free_set. rewrite (proj2 (BlockSet.store_block_wf u set _ u' Hw Hv Hst)). done.
  - destruct (Z.eqb_spec i 64) as [->|Hne].
    + rewrite (BlockSet.store_same u 0 set bits) in Hst by (done || lia). injection Hst as <-. split; [done|]. intros j Hj. rewrite (BlockSet.bit_vec u 0 set bits) by done. by apply Hlow.
    + assert (Hi' : 0 <= i < 64) by lia. destruct (BlockSet.split64 (set * 64 + i) set i Hi' eq_refl) as [Ed Em].
      assert (Hbit : BlockSet.bit u 0 (set * 64 + i) = false) by (rewrite (BlockSet.bit_vec u 0 set bits) by done; apply Hclear; lia).
      assert (Hnot : ~ (is_Some (A !! (set * 64 + i)) \/ n <= set * 64 + i)) by (rewrite <- Hb, Hbit by lia; done).
      assert (HA : A !! (set * 64 + i) = None) by (destruct (A !! (set * 64 + i)) eqn:EA; [destruct Hnot; left; eauto|done]).
      split; [done|]. split; [lia|]. 
      assert (Hst' : BlockSet.store u 0 ((set * 64 + i) / 64) (setBit ((set * 64 + i) mod 64) bits) = Some u') by by rewrite Ed, Em.
      assert (Hl' : BlockSet.load u 0 ((set * 64 + i) / 64) = Some bits) by by rewrite Ed.
      destruct (BlockSet.store_block_wf u _ _ u' Hw (setBit_uval _ _ Hu) Hst) as [Hw' B1].
      split; [done| | |].
      * intros b Hb'. rewrite (BlockSet.store_setBit u 0 _ bits u' 0 b ltac:(lia) Hl' Hst'). destruct (decide (b = set * 64 + i)) as [->|Hnb].
        -- rewrite bool_decide_eq_true_2, orb_true_r, lookup_insert_eq by done. split; [intros _; left; eauto|done].
        -- rewrite bool_decide_eq_false_2, orb_false_r, lookup_insert_ne by congruence. by apply Hb.
      * intros b o. rewrite lookup_insert_Some. intros [[<- _]|[_ H]]; [lia|by apply (Hd b o)].
      * intros j Hj. assert (Hj' : BlockSet.free_set u j) by (unfold BlockSet.free_set in *; by rewrite <- B1). split; [by apply Hf|].
        intros b o. rewrite lookup_insert_Some. intros [[<- _]|[_ H]]; [rewrite Ed; congruence|by apply (proj2 (Hf j Hj') b o)].
Qed.

(** Freeing a block: its bit is cleared, and a set that has become empty is
    handed back with all its bits clear. *)
Lemma holds_release u n A b c :
  holds u n A -> A !! b = Some c ->
  exists bits u1 bits1 u2, BlockSet.load u 0 (b / 64) = Some bits /\
    BlockSet.store u 0 (b / 64) (clearBit (b mod 64) bits) = Some u1 /\ BlockSet.load u1 0 (b / 64) = Some bits1 /\
    BlockSet.store u1 0 (b / 64) (flipAllIfZero bits1).2 = Some u2 /\
    if (flipAllIfZero bits1).1
    then exists u3, BlockSet.putBlockSet (b / 64) true (u2, false) = Some (tt, (u3, false)) /\ holds u3 n (delete b A) /\
           (forall j, BlockSet.free_set u3 j <-> BlockSet.free_set u j \/ j = b / 64) /\
           (forall b' o, delete b A !! b' = Some o -> b' / 64 <> b / 64)
    else holds u2 n (delete b A) /\ (forall j, BlockSet.free_set u2 j <-> BlockSet.free_set u j) /\
           (64 * (b / 64) + 64 <= n -> exists b' o, delete b A !! b' = Some o /\ b' / 64 = b / 64).
Proof.
  intros [Hw Hb Hd Hf] HA. destruct (Hd b c HA) as [Hr Hn].
  assert (Hset : 0 <= b / 64 < 64 ^ 3) by (split; [apply Z.div_pos; lia|apply Z.div_lt_upper_bound; lia]).
  destruct (BlockSet.load_some u 0 (b / 64) (BlockSet.wf_shape u Hw) ltac:(lia) Hset) as (bits & Hl & Hu).
  destruct (BlockSet.store_some u 0 (b / 64) (clearBit (b mod 64) bits) bits Hl) as [u1 Hst1].
  pose proof (fun k i => BlockSet.store_clearBit u 0 b bits u1 k i ltac:(lia) Hu Hl Hst1) as B.
  destruct (BlockSet.store_block_wf u _ _ u1 Hw (clearBit_uval _ _ Hu) Hst1) as [Hw1 B1].
  assert (F1 : forall j, BlockSet.free_set u1 j <-> BlockSet.free_set u j) by (intros j; unfold BlockSet.free_set; by rewrite B1).
  assert (H1 : holds u1 n (delete b A)).
  { split; [done| | |].
    - intros i Hi. rewrite B. destruct (decide (i = b)) as [->|Hne].
      + rewrite bool_decide_eq_true_2, andb_false_r, lookup_delete_eq by done. split; [done|]. intros [[? ?]|?]; [done|lia].
      + rewrite bool_decide_eq_false_2, andb_true_r, lookup_delete_ne by congruence. by apply Hb.
    - intros i o. rewrite lookup_delete_Some. intros [_ H]. by apply (Hd i o).
    - intros j Hj. apply F1 in Hj. split; [by apply Hf|]. intros i o. rewrite lookup_delete_Some. intros [_ H]. by apply (proj2 (Hf j Hj) i o). }
  destruct (BlockSet.load_some u1 0 (b / 64) (BlockSet.wf_shape u1 Hw1) ltac:(lia) Hset) as (bits1 & Hl1 & Hu1).
  destruct (BlockSet.store_some u1 0 (b / 64) (flipAllIfZero bits1).2 bits1 Hl1) as [u2 Hst2].
  exists bits, u1, bits1, u2. do 4 (split; [done|]). unfold flipAllIfZero in *. destruct (Z.eqb_spec bits1 0) as [->|Hnz]; cbn [fst snd] in *.
  2:{ rewrite (BlockSet.store_same u1 0 (b / 64) bits1) in Hst2 by (done || lia). injection Hst2 as <-. split; [done|]. split; [done|]. intros Hfull.
      assert (Hq : 0 <= Z.log2 bits1 < 64) by (split; [apply Z.log2_nonneg|apply Z.log2_lt_pow2; unfold is_uval in Hu1; lia]).
      pose proof (Z.bit_log2 bits1 ltac:(unfold is_uval in Hu1; lia)) as Ek.
      assert (Hbit : BlockSet.bit u1 0 (b / 64 * 64 + Z.log2 bits1) = true) by (rewrite (BlockSet.bit_vec u1 0 (b / 64) bits1) by done; done).
      apply (h_bits _ _ _ H1) in Hbit as [[o Ho]|?]; [|lia|lia]. exists (b / 64 * 64 + Z.log2 bits1), o. split; [done|]. by apply (BlockSet.split64 _ _ (Z.log2 bits1)). }
  destruct (BlockSet.store_block_wf u1 (b / 64) UMAX u2 Hw1 ltac:(unfold UMAX, is_uval; lia) Hst2) as [Hw2 B2].
  destruct (BlockSet.putBlockSet_spec u2 (b / 64) true Hw2 Hset) as (u3 & E3 & Hw3 & HL & B3). exists u3. split; [done|].
  assert (HL3 : BlockSet.L1 u3 = BlockSet.L1 u1).
  { rewrite HL. unfold BlockSet.store in Hst2. rewrite Hl1 in Hst2. cbn [mbind option_bind] in Hst2. injection Hst2 as <-. simpl.
    rewrite list_insert_insert_eq. apply list_insert_id. unfold BlockSet.load in Hl1. by destruct (0 <=? b / 64). }
  assert (B0 : forall i, BlockSet.bit u3 0 i = BlockSet.bit u1 0 i) by (intros i; unfold BlockSet.bit, BlockSet.load; simpl; by rewrite HL3).
  assert (F3 : forall j, BlockSet.free_set u3 j <-> BlockSet.free_set u j \/ j = b / 64).
  { intros j. rewrite (BlockSet.put_free u2 u3 (b / 64) Hset B3). rewrite <- F1. unfold BlockSet.free_set. by rewrite B2. }
  assert (Hempty : forall b' o, delete b A !! b' = Some o -> b' / 64 <> b / 64).
  { intros b' o H E. destruct (h_dom _ _ _ H1 b' o H) as [Hr' _]. assert (Hbit : BlockSet.bit u1 0 b' = true) by (apply (h_bits _ _ _ H1); [done|left; eauto]).
    unfold BlockSet.bit in Hbit. rewrite E, Hl1, Z.bits_0 in Hbit. done. }
  split_and!; [split; [done| |apply H1|]|done|done].
  - intros i Hi. rewrite B0. by apply H1.
  - intros j Hj. apply F3 in Hj as [Hj| ->].
    + apply F1 in Hj. by apply (h_free _ _ _ H1).
    + split; [pose proof (Z.mul_div_le b 64 ltac:(lia)); lia|done].
Qed.

(** ** Contexts *)

(** A context names a block set that is handed out, all of whose blocks in use
    are of that context; no two contexts name the same set. *)
Definition ctx_ok (u : BlockSet.t) (A C : gmap Z Z) : Prop := forall c v, C !! c = Some v -> v <> INIT_PAGER_CONTEXT ->
  0 <= v < 64 ^ 4 /\ ~ BlockSet.free_set u (v / 64) /\
  (forall b o, A !! b = Some o -> b / 64 = v / 64 -> o = c) /\
  (forall c' v', C !! c' = Some v' -> v' <> INIT_PAGER_CONTEXT -> v' / 64 = v / 64 -> c' = c).

Lemma small_not_init v : 0 <= v < 64 ^ 4 -> v <> INIT_PAGER_CONTEXT.
Proof. unfold INIT_PAGER_CONTEXT, UMAX. lia. Qed.

(** Another block of the set the context names, or the first of a set that was free. *)
Lemma ctx_ok_take u u' A C c b :
  ctx_ok u A C -> 0 <= b < 64 ^ 4 ->
  (BlockSet.free_set u (b / 64) /\ (forall b' o, A !! b' = Some o -> b' / 64 <> b / 64) \/
   exists v, C !! c = Some v /\ v <> INIT_PAGER_CONTEXT /\ v / 64 = b / 64) ->
  (forall j, BlockSet.free_set u' j <-> BlockSet.free_set u j /\ j <> b / 64) ->
  ctx_ok u' (<[b := c]> A) (<[c := b]> C).
Proof.
  intros Hc Hb Hsrc HF.
  assert (Hother : forall c1 v1, C !! c1 = Some v1 -> v1 <> INIT_PAGER_CONTEXT -> v1 / 64 = b / 64 -> c1 = c).
  { intros c1 v1 H1 Hn1 E1. destruct Hsrc as [[Hfree _]|(v & Hv & Hnv & Ev)].
    - destruct (Hc c1 v1 H1 Hn1) as (_ & Hnf & _). destruct Hnf. by rewrite E1.
    - destruct (Hc c v Hv Hnv) as (_ & _ & _ & Hu). apply (Hu c1 v1); [done|done|lia]. }
  assert (Howner : forall b1 o, A !! b1 = Some o -> b1 / 64 = b / 64 -> o = c).
  { intros b1 o H1 E1. destruct Hsrc as [[_ Hno]|(v & Hv & Hnv & Ev)]; [by destruct (Hno b1 o)|].
    destruct (Hc c v Hv Hnv) as (_ & _ & Ho & _). apply (Ho b1 o H1). lia. }
  intros c1 v1. rewrite lookup_insert_Some. intros [[<- <-]|[Hne H1]] Hn1.
  - split; [done|]. split; [rewrite HF; tauto|]. split.
    + intros b1 o. rewrite lookup_insert_Some. intros [[_ <-]|[_ H]] E; [done|by apply (Howner b1)].
    + intros c2 v2. rewrite lookup_insert_Some. intros [[<- _]|[_ H]] Hn2 E; [done|by apply (Hother c2 v2)].
  - destruct (Hc c1 v1 H1 Hn1) as (Hr & Hnf & Ho & Hu). split; [done|]. split; [rewrite HF; tauto|]. split.
    + intros b1 o. rewrite lookup_insert_Some. intros [[<- <-]|[_ H]] E; [symmetry; by apply (Hother c1 v1)|by apply (Ho b1)].
    + intros c2 v2. rewrite lookup_insert_Some. intros [[<- <-]|[_ H]] Hn2 E; [destruct Hne; symmetry; by apply (Hother c1 v1)|by apply (Hu c2 v2)].
Qed.

(** A block of context [c] goes; with it, when [gone], its whole set. *)
Lemma ctx_ok_free u u' A C c b v (gone : bool) :
  ctx_ok u A C -> A !! b = Some c ->
  (forall j, BlockSet.free_set u' j -> BlockSet.free_set u j \/ gone = true /\ j = b / 64) ->
  (v = INIT_PAGER_CONTEXT \/ C !! c = Some v /\ (gone = true -> v / 64 <> b / 64)) ->
  ctx_ok u' (delete b A) (<[c := v]> C).
Proof.
  intros Hc HA HF Hv.
  assert (Hkeep : forall c1 v1, C !! c1 = Some v1 -> v1 <> INIT_PAGER_CONTEXT -> (c1 = c -> gone = true -> v1 / 64 <> b / 64) ->
    0 <= v1 < 64 ^ 4 /\ ~ BlockSet.free_set u' (v1 / 64) /\ (forall b1 o, delete b A !! b1 = Some o -> b1 / 64 = v1 / 64 -> o = c1)).
  { intros c1 v1 H1 Hn1 Hg. destruct (Hc c1 v1 H1 Hn1) as (Hr & Hnf & Ho & _). split; [done|]. split.
    - intros Hf. destruct (HF _ Hf) as [?|[Eg Ej]]; [done|]. assert (c = c1) as -> by by apply (Ho b). by destruct (Hg eq_refl Eg).
    - intros b1 o. rewrite lookup_delete_Some. intros [_ H]. by apply Ho. }
  assert (Huniq : forall c1 v1 c2 v2, <[c := v]> C !! c1 = Some v1 -> <[c := v]> C !! c2 = Some v2 -> v1 <> INIT_PAGER_CONTEXT -> v2 <> INIT_PAGER_CONTEXT -> v2 / 64 = v1 / 64 -> c2 = c1).
  { assert (Hold : forall c1 v1, <[c := v]> C !! c1 = Some v1 -> v1 <> INIT_PAGER_CONTEXT -> C !! c1 = Some v1).
    { intros c1 v1. rewrite lookup_insert_Some. intros [[<- <-]|[_ H]] Hn; [|done]. by destruct Hv as [|[? _]]. }
    intros c1 v1 c2 v2 H1 H2 Hn1 Hn2 E. destruct (Hc c1 v1 (Hold c1 v1 H1 Hn1) Hn1) as (_ & _ & _ & Hu). by apply (Hu c2 v2 (Hold c2 v2 H2 Hn2)). }
  intros c1 v1 H1 Hn1.
  assert (Hold : C !! c1 = Some v1 /\ (c1 = c -> gone = true -> v1 / 64 <> b / 64)).
  { apply lookup_insert_Some in H1 as [[<- <-]|[Hne H]]; [|split; [done|congruence]]. destruct Hv as [|[? Hg]]; [done|]. split; [done|by intros _]. }
  destruct Hold as [Hold Hg]. destruct (Hkeep c1 v1 Hold Hn1 Hg) as (Hr & Hnf & Ho). split_and!; try done; try apply Hr.
  intros c2 v2 H2 Hn2 E. by apply (Huniq c1 v1 c2 v2).
Qed.

(** ** One device *)

#[local] Existing Instance ListSimpleKey.node_linked.

(** The only device has number 0, and [u] as its bitmap. *)
Record device (locked : bool) (s : t) (node dd bdv : Z) (u : BlockSet.t) : Prop := {
  d_list : ListSimpleKey.rep (nodes s) (ListSimpleKey.k_base (devList s)) [(node, (0, dd))];
  d_lock : ListSimpleKey.k_lock (devList s) = locked;
  d_cur : currentDev s = NULL \/ currentDev s = node;
  d_desc : descs s !! dd = Some (mkDD bdv (u, false));
}.

Lemma device_node l s node dd bdv u : device l s node dd bdv u ->
  node <> NULL /\ ListSimpleKey.l_head (ListSimpleKey.k_base (devList s)) = node /\
  nodes s !! node = Some (ListSimpleKey.mkNode NULL 0 dd).
Proof.
  intros [[Hch _] _ _ _]. destruct Hch as (-> & Hn & [nx k d] & Hl & Hp & E). cbv [next payload ListSimpleKey.node_linked ListSimpleKey.n_next ListSimpleKey.n_key ListSimpleKey.n_datum chain] in *.
  simplify_eq. done.
Qed.

Lemma device_next l s node dd bdv u : device l s node dd bdv u ->
  ListSimpleKey.locked_next (nodes s) (devList s) NULL = Some (node, Some (0, dd)) /\
  ListSimpleKey.locked_next (nodes s) (devList s) node = Some (NULL, None).
Proof.
  intros Hd. destruct (device_node _ _ _ _ _ _ Hd) as (Hn & Hh & Hl).
  unfold ListSimpleKey.locked_next, ListSimpleKey.next_node. rewrite Hh, Hl, (proj2 (Z.eqb_neq node NULL) Hn). simpl.
  rewrite (proj2 (Z.eqb_neq node NULL) Hn). split; [by rewrite Hl|done].
Qed.

Lemma find_dev_one l s node dd bdv u : device l s node dd bdv u -> find_dev (list_fuel s) s NULL 0 = Some (Some dd).
Proof. intros Hd. destruct (device_next _ _ _ _ _ _ Hd) as [E _]. unfold list_fuel. cbn [find_dev]. rewrite E. done. Qed.

Lemma next_dev_one l s node dd bdv u : device l s node dd bdv u -> next_dev (list_fuel s) s (currentDev s) = Some (node, 0, dd).
Proof.
  intros Hd. destruct (device_next _ _ _ _ _ _ Hd) as [E1 E2]. unfold list_fuel. cbn [next_dev]. destruct (d_cur _ _ _ _ _ _ Hd) as [->| ->].
  - by rewrite E1.
  - rewrite E2. cbn [mbind option_bind next_dev]. by rewrite E1.
Qed.

Lemma device_of_one s node dd bdv u b : device false s node dd bdv u -> GET_SWAP_DEVID b = 0 -> device_of s b = Some bdv.
Proof.
  intros Hd Hb. unfold device_of, ListSimpleKey.locked_find, ListSimpleKey.autolock. rewrite (d_lock _ _ _ _ _ _ Hd), Hb. cbn [negb assertK mbind option_bind].
  rewrite (ListSimpleKey.lk_find_spec _ _ _ 0 (d_list _ _ _ _ _ _ Hd)). simpl. by rewrite (d_desc _ _ _ _ _ _ Hd).
Qed.

Lemma device_usage l s node dd bdv u u' : device l s node dd bdv u -> device l (set_usage dd (u', false) s) node dd bdv u'.
Proof. intros [H1 H2 H3 H4]. split; [done|done|done|]. simpl. rewrite lookup_alter_eq, H4. done. Qed.

Lemma device_current l s node dd bdv u : device l s node dd bdv u -> device l (set_current node s) node dd bdv u.
Proof. intros [H1 H2 H3 H4]. split; [done|done|by right|done]. Qed.

Lemma device_pages l s node dd bdv u n : device l s node dd bdv u -> device l (set_pages n s) node dd bdv u.
Proof. by intros [H1 H2 H3 H4]. Qed.

Lemma device_acquire s node dd bdv u : device false s node dd bdv u ->
  exists s', acquireLock s = Some s' /\ device true s' node dd bdv u /\ numPagesAvail s' = numPagesAvail s.
Proof. intros [H1 H2 H3 H4]. unfold acquireLock. rewrite H2. eexists. split; [done|]. done. Qed.

Lemma device_release s l node dd bdv u : device l s node dd bdv u -> device false (releaseLock s) node dd bdv u.
Proof. by intros [H1 H2 H3 H4]. Qed.

(** take_block on a set that is handed out. *)
Lemma take_block_one s node dd bdv u n A c set :
  device true s node dd bdv u -> holds u n A -> 0 <= set < 64 ^ 3 -> ~ BlockSet.free_set u set ->
  exists i u' s', take_block s dd set = Some (i, s') /\ device true s' node dd bdv u' /\ numPagesAvail s' = numPagesAvail s /\
    0 <= i <= 64 /\ (forall j, BlockSet.free_set u' j <-> BlockSet.free_set u j) /\
    if i =? 64 then u' = u /\ forall j, 0 <= j < 64 -> BlockSet.bit u 0 (set * 64 + j) = true
    else A !! (set * 64 + i) = None /\ set * 64 + i < n /\ holds u' n (<[set * 64 + i := c]> A).
Proof.
  intros Hd Hh Hset Hnf. destruct (holds_take u n A c set Hh Hset Hnf) as (i & bits & bits' & u' & E1 & E2 & E3 & Hi & HF & R).
  exists i, u', (set_usage dd (u', false) s). unfold take_block. rewrite (d_desc _ _ _ _ _ _ Hd). cbn [mbind option_bind usage fst snd].
  rewrite E1. cbn [mbind option_bind]. rewrite E2. cbn [mbind option_bind]. rewrite E3. cbn [mbind option_bind].
  split; [done|]. split; [by eapply device_usage|done].
Qed.

Lemma holds_got u u' n A i : holds u n A -> BlockSet.searched u u' (Some i) -> holds u' n A.
Proof.
  intros [Hw Hb Hd Hf] Hs. split; [apply Hs| |done|].
  - intros b Hr. rewrite <- Hb by done. unfold BlockSet.bit, BlockSet.load. simpl. by rewrite (BlockSet.sd_L1 _ _ _ Hs).
  - intros j Hj. apply (BlockSet.searched_free _ _ _ Hs) in Hj as [Hj _]. by apply Hf.
Qed.

(** A free set has a free block. *)
Lemma free_set_room u n A i : holds u n A -> BlockSet.free_set u i -> exists j, 0 <= j < 64 /\ BlockSet.bit u 0 (i * 64 + j) = false.
Proof.
  intros [Hw Hb Hd Hf] Hi. destruct (Hf i Hi) as [Hn Hno]. exists 0. split; [lia|]. destruct (BlockSet.bit u 0 (i * 64 + 0)) eqn:E; [|done].
  destruct Hi as [Hr _]. apply Hb in E as [[o Ho]|?]; [|lia|lia]. destruct (BlockSet.split64 (i * 64 + 0) i 0 ltac:(lia) eq_refl) as [Ed _]. by destruct (Hno _ _ Ho).
Qed.

Lemma small_ids b : 0 <= b < 64 ^ 4 -> GET_SWAP_DEVID b = 0 /\ GET_SWAP_BLOCKNUM b = b.
Proof. intros H. rewrite get_devid, get_blocknum, Z.div_small, Z.mod_small by lia. done. Qed.

Lemma alloc_end_one bid0 b s node dd bdv u :
  device true s node dd bdv u -> 0 <= b < 64 ^ 4 ->
  exists s', alloc_end bid0 0 b s = (b, s') /\ device false s' node dd bdv u /\ numPagesAvail s' = uadd (numPagesAvail s) UMAX.
Proof.
  intros Hd Hb. eexists. unfold alloc_end. rewrite blockid_encode by lia. split; [by rewrite Z.add_0_l|]. split; [|done].
  by eapply device_release, device_pages.
Qed.

(** No block for context value [v]: every set on the device has a block in use, and so
    have all blocks of the set of the context.  (A set that the device has only a part of
    is not counted: it is not handed back when it is empty.) *)
Definition exhausted (n : Z) (A : gmap Z Z) (v : Z) : Prop :=
  (forall i, 0 <= i -> 64 * i + 64 <= Z.min n (64 ^ 4) -> exists b o, A !! b = Some o /\ b / 64 = i) /\
  (v <> INIT_PAGER_CONTEXT -> forall b, 0 <= b < n -> b / 64 = v / 64 -> is_Some (A !! b)).

(** What an allocation gives. *)
Definition allocated (n c : Z) (A C : gmap Z Z) (s : t) (node dd bdv b : Z) (s' : t) : Prop :=
  0 <= b < 64 ^ 4 /\ b < n /\ A !! b = None /\ numPagesAvail s' = uadd (numPagesAvail s) UMAX /\
  exists u', device false s' node dd bdv u' /\ holds u' n (<[b := c]> A) /\ ctx_ok u' (<[b := c]> A) (<[c := b]> C) /\ busy u' n (<[b := c]> A).

Lemma alloc_context_one s node dd bdv u n A C c :
  device true s node dd bdv u -> holds u n A -> ctx_ok u A C -> busy u n A ->
  exists r s', alloc_context s (default INIT_PAGER_CONTEXT (C !! c)) = Some (r, s') /\ numPagesAvail s' = numPagesAvail s /\
    match r with
    | None => device true s' node dd bdv u /\ let v := default INIT_PAGER_CONTEXT (C !! c) in v <> INIT_PAGER_CONTEXT -> forall b, 0 <= b < n -> b / 64 = v / 64 -> is_Some (A !! b)
    | Some (devID, b, bdref) => devID = 0 /\ bdref = bdv /\ 0 <= b < 64 ^ 4 /\ b < n /\ A !! b = None /\
        exists u', device true s' node dd bdv u' /\ holds u' n (<[b := c]> A) /\ ctx_ok u' (<[b := c]> A) (<[c := b]> C) /\ busy u' n (<[b := c]> A)
    end.
Proof.
  intros Hd Hh Hc Hbu. unfold alloc_context. destruct (C !! c) as [v|] eqn:Ev; [|eexists _, _; split; [done|done]]. change (default INIT_PAGER_CONTEXT (Some v)) with v.
  destruct (Z.eqb_spec v INIT_PAGER_CONTEXT) as [->|Hnv]; [eexists _, _; split; [done|done]|].
  destruct (Hc c v Ev Hnv) as (Hr & Hnf & _ & _). destruct (small_ids v Hr) as [-> ->]. rewrite (find_dev_one _ _ _ _ _ _ Hd). cbn [mbind option_bind].
  rewrite (d_desc _ _ _ _ _ _ Hd). cbn [mbind option_bind].
  assert (Hset : 0 <= v / 64 < 64 ^ 3) by (split; [apply Z.div_pos; lia|apply Z.div_lt_upper_bound; lia]).
  destruct (take_block_one s node dd bdv u n A c (v / 64) Hd Hh Hset Hnf) as (i & u' & s' & E & Hd' & Hp & Hi & HF & R). rewrite E. cbn [mbind option_bind].
  destruct (Z.eqb_spec i 64) as [->|Hne].
  - destruct R as [-> Hall]. eexists _, _. split; [done|]. split; [done|]. split; [done|]. cbv zeta. intros _ b Hb Eb.
    pose proof (Z.div_mod b 64 ltac:(lia)). pose proof (BlockSet.mod64 b). assert (Hbit : BlockSet.bit u 0 b = true) by (replace b with (v / 64 * 64 + b mod 64) by lia; by apply Hall).
    apply (h_bits _ _ _ Hh) in Hbit as [?|?]; [done|lia|lia].
  - destruct R as (HA & Hn & Hh'). eexists _, s'. split; [done|]. split; [done|].
    assert (Eb : uadd i (Z.land v (unot 63)) = v / 64 * 64 + i).
    { change 63 with (2 ^ 6 - 1). rewrite (land_unot_mask v 6) by (unfold is_uval; lia). change (2 ^ 6) with 64. pose proof (Z.div_mod v 64 ltac:(lia)). pose proof (BlockSet.mod64 v). rewrite uadd_small; lia. }
    rewrite Eb. destruct (BlockSet.split64 (v / 64 * 64 + i) (v / 64) i ltac:(lia) eq_refl) as [Ed _].
    split_and!; try done; try lia. exists u'. split; [done|]. split; [done|]. split; [|apply (busy_take u); [done|]; intros j _; by rewrite HF]. apply (ctx_ok_take u); [done|lia|right; exists v; by rewrite Ed|].
    intros j. rewrite HF, Ed. split; [intros Hj; split; [done|by intros ->]|tauto].
Qed.

Lemma alloc_new_one debug s node dd bdv u n A C c :
  device true s node dd bdv u -> holds u n A -> ctx_ok u A C -> busy u n A ->
  alloc_new debug s = Some None /\ (forall i, 0 <= i -> 64 * i + 64 <= Z.min n (64 ^ 4) -> exists b o, A !! b = Some o /\ b / 64 = i) \/
  exists b s', alloc_new debug s = Some (Some (0, b, bdv, s')) /\ numPagesAvail s' = numPagesAvail s /\
    0 <= b < 64 ^ 4 /\ b < n /\ A !! b = None /\
    exists u', device true s' node dd bdv u' /\ holds u' n (<[b := c]> A) /\ ctx_ok u' (<[b := c]> A) (<[c := b]> C) /\ busy u' n (<[b := c]> A).
Proof.
  intros Hd Hh Hc Hbu. unfold alloc_new. rewrite (next_dev_one _ _ _ _ _ _ Hd). cbn [mbind option_bind].
  assert (Hd1 : device true (set_current node s) node dd bdv u) by by eapply device_current. rewrite (d_desc _ _ _ _ _ _ Hd1). cbn [mbind option_bind usage].
  destruct (BlockSet.getBlockSet_spec u (h_wf _ _ _ Hh)) as (r & u1 & E & Hs). rewrite E. cbn [mbind option_bind]. destruct r as [i|].
  2:{ left. split; [done|]. intros i Hi Hin. destruct (decide (Exists (fun bo : Z * Z => bo.1 / 64 = i) (map_to_list A))) as [([b o] & Hbo & Ei)%Exists_exists|Hno]; [exists b, o; split; [by apply elem_of_map_to_list|done]|].
      exfalso. apply (BlockSet.sd_result _ _ _ Hs i). apply Hbu; [lia|lia|]. intros b o Hb Ei. apply Hno, Exists_exists. exists (b, o). by rewrite elem_of_map_to_list. }
  right.
  destruct (BlockSet.sd_result _ _ _ Hs) as [Hfree _]. pose proof (BlockSet.searched_free _ _ _ Hs) as HF1. pose proof (holds_got _ _ _ _ _ Hh Hs) as Hh1.
  assert (Hd2 : device true (set_usage dd (u1, false) (set_current node s)) node dd bdv u1) by by eapply device_usage.
  assert (Hnf : ~ BlockSet.free_set u1 i) by (rewrite HF1; tauto).
  destruct (take_block_one _ node dd bdv u1 n A c i Hd2 Hh1 (proj1 Hfree) Hnf) as (k & u2 & s2 & E2 & Hd' & Hp & Hk & HF2 & R). rewrite E2. cbn [mbind option_bind].
  destruct (Z.eqb_spec k 64) as [->|Hne].
  { exfalso. destruct R as [_ Hfull]. destruct (free_set_room u n A i Hh Hfree) as (j & Hj & Hb). specialize (Hfull j Hj).
    unfold BlockSet.bit, BlockSet.load in Hb, Hfull. simpl in Hb, Hfull. rewrite (BlockSet.sd_L1 _ _ _ Hs) in Hfull. congruence. }
  destruct R as (HA & Hn & Hh2). destruct Hfree as [Hri Hbi].
  assert (Ht : tassertMsg debug (k <? 64) = Some tt) by (unfold tassertMsg; rewrite (proj2 (Z.ltb_lt k 64)) by lia; by destruct debug). rewrite Ht. cbn [mbind option_bind].
  rewrite (umul_small i 64), (uadd_small k) by lia. replace (k + i * 64) with (i * 64 + k) by lia.
  destruct (BlockSet.split64 (i * 64 + k) i k ltac:(lia) eq_refl) as [Ed _].
  eexists _, s2. split; [done|]. split_and!; try done; try lia. exists u2. split; [done|]. split; [done|].
  split; [|apply (busy_take u); [done|]; intros j Hj Hjf; apply HF2, HF1; rewrite Ed in Hj; done].
  apply (ctx_ok_take u); [done|lia| |intros j; by rewrite HF2, HF1, Ed].
  left. rewrite Ed. split; [done|]. intros b' o Hb' E'. by destruct (h_free _ _ _ Hh i (conj Hri Hbi)) as [_ Hno]; destruct (Hno b' o Hb').
Qed.

Lemma allocBlock_one debug bid0 s node dd bdv u n A C c :
  device false s node dd bdv u -> holds u n A -> ctx_ok u A C -> busy u n A ->
  allocBlock debug bid0 s (default INIT_PAGER_CONTEXT (C !! c)) = Some None /\ exhausted n A (default INIT_PAGER_CONTEXT (C !! c)) \/
  exists b s', allocBlock debug bid0 s (default INIT_PAGER_CONTEXT (C !! c)) = Some (Some (b, bdv, s')) /\ allocated n c A C s node dd bdv b s'.
Proof.
  intros Hd Hh Hc Hbu. unfold allocBlock. destruct (device_acquire _ _ _ _ _ Hd) as (s0 & E0 & Hd0 & Hp0). rewrite E0. cbn [mbind option_bind].
  destruct (alloc_context_one s0 node dd bdv u n A C c Hd0 Hh Hc Hbu) as (r & s1 & E1 & Hp1 & R). rewrite E1. cbn [mbind option_bind].
  assert (Hfin : forall b s2 u', 0 <= b < 64 ^ 4 -> b < n -> A !! b = None -> numPagesAvail s2 = numPagesAvail s ->
    device true s2 node dd bdv u' -> holds u' n (<[b := c]> A) -> ctx_ok u' (<[b := c]> A) (<[c := b]> C) -> busy u' n (<[b := c]> A) ->
    exists b' s', (let '(bid, s') := alloc_end bid0 0 b s2 in Some (Some (bid, bdv, s'))) = Some (Some (b', bdv, s')) /\ allocated n c A C s node dd bdv b' s').
  { intros b s2 u' Hr Hn HA Hp2 Hd2 Hh2 Hc2 Hb2. destruct (alloc_end_one bid0 b s2 node dd bdv u' Hd2 Hr) as (s' & E & Hd' & Hp'). rewrite E.
    exists b, s'. split; [done|]. split_and!; try done; try lia; [by rewrite Hp', Hp2|]. by exists u'. }
  destruct r as [[[devID b] bdref]|].
  - destruct R as (-> & -> & Hr & Hn & HA & u' & Hd2 & Hh2 & Hc2 & Hb2). right. apply (Hfin b s1 u'); try done. lia.
  - destruct R as [R Hctx]. destruct (alloc_new_one debug s1 node dd bdv u n A C c R Hh Hc Hbu) as [[E2 Hall]|(b & s2 & E2 & Hp2 & Hr & Hn & HA & u' & Hd2 & Hh2 & Hc2 & Hb2)]; rewrite E2; cbn [mbind option_bind]; [by left|].
    right. apply (Hfin b s2 u'); try done. lia.
Qed.

Lemma freePage_one s node dd bdv u n A C c b :
  device false s node dd bdv u -> holds u n A -> ctx_ok u A C -> busy u n A -> A !! b = Some c ->
  exists s' v u', freePage b s (default INIT_PAGER_CONTEXT (C !! c)) = Some (0, s', v) /\ numPagesAvail s' = uadd (numPagesAvail s) 1 /\
    device false s' node dd bdv u' /\ holds u' n (delete b A) /\ ctx_ok u' (delete b A) (<[c := v]> C) /\ busy u' n (delete b A).
Proof.
  intros Hd Hh Hc Hbu HA. destruct (h_dom _ _ _ Hh b c HA) as [Hr _]. unfold freePage. destruct (small_ids b Hr) as [-> ->].
  destruct (device_acquire _ _ _ _ _ Hd) as (s0 & E0 & Hd0 & Hp0). rewrite E0. cbn [mbind option_bind].
  rewrite (find_dev_one _ _ _ _ _ _ Hd0). cbn [mbind option_bind]. rewrite (d_desc _ _ _ _ _ _ Hd0). cbn [mbind option_bind usage fst snd].
  destruct (holds_release u n A b c Hh HA) as (bits & u1 & bits1 & u2 & E1 & E2 & E3 & E4 & R).
  rewrite E1. cbn [mbind option_bind]. rewrite E2. cbn [mbind option_bind]. rewrite E3. cbn [mbind option_bind].
  destruct (flipAllIfZero bits1) as [flipped bits2]. cbn [fst snd] in *. rewrite E4. cbn [mbind option_bind].
  assert (Hdev : forall u', device false (releaseLock (set_usage dd (u', false) (set_pages (uadd (numPagesAvail s0) 1) s0))) node dd bdv u')
    by (intros u'; by eapply device_release, device_usage, device_pages).
  destruct flipped.
  - destruct R as (u3 & E5 & Hh3 & HF & _). rewrite E5. cbn [mbind option_bind]. eexists _, _, u3. split; [done|]. split; [simpl; by rewrite Hp0|].
    split; [apply Hdev|]. split; [done|]. split.
    2:{ intros i Hi Hn Hno. apply HF. destruct (decide (i = b / 64)) as [->|Hne]; [by right|left]. apply Hbu; [done|done|]. intros b' o Ho Eb. apply (Hno b' o); [|done]. rewrite lookup_delete_ne; [done|]. intros ->. done. }
    eapply (ctx_ok_free u u3 A C c b _ true); [done|done|intros j Hj; apply HF in Hj; tauto|].
    destruct (C !! c) as [v|]; [|left; by destruct (_ =? _)]. change (default INIT_PAGER_CONTEXT (Some v)) with v.
    destruct (Z.eqb_spec (b / 64) (v / 64)); [by left|right; split; [done|intros _; lia]].
  - destruct R as (Hh2 & HF & Hleft). eexists _, _, u2. split; [done|]. split; [simpl; by rewrite Hp0|]. split; [apply Hdev|]. split; [done|]. split.
    2:{ intros i Hi Hn Hno. apply HF. destruct (decide (i = b / 64)) as [->|Hne].
        - exfalso. destruct (Hleft Hn) as (b' & o & Ho & Eb). by apply (Hno b' o).
        - apply Hbu; [done|done|]. intros b' o Ho Eb. apply (Hno b' o); [|done]. rewrite lookup_delete_ne; [done|]. intros ->. done. }
    eapply (ctx_ok_free u u2 A C c b _ false); [done|done|intros j Hj; apply HF in Hj; tauto|].
    destruct (C !! c) as [v|]; [right; split; [done|done]|by left].
Qed.

(** ** All clients of one device *)

Definition inv (n : Z) (cl : clients) : Prop :=
  0 <= n < 2 ^ 52 /\ numPagesAvail (ds cl) = n - Z.of_nat (size (owned cl)) /\
  exists node dd bdv u, device false (ds cl) node dd bdv u /\ holds u n (owned cl) /\ ctx_ok u (owned cl) (ctxs cl) /\ busy u n (owned cl).

Lemma ds_holds_size u n A : 0 <= n -> holds u n A -> Z.of_nat (size A) <= n.
Proof.
  intros Hn Hh. rewrite <- size_dom. transitivity (Z.of_nat (size (list_to_set (seqZ 0 n) : gset Z))).
  - apply inj_le, subseteq_size. intros b Hb. apply elem_of_dom in Hb as [o Ho]. destruct (h_dom _ _ _ Hh b o Ho).
    apply elem_of_list_to_set, elem_of_seqZ. lia.
  - rewrite size_list_to_set, length_seqZ by apply NoDup_seqZ. lia.
Qed.

Lemma uval_block b : 0 <= b < 64 ^ 4 -> swrap b = b /\ _FAILURE b = false /\ uwrap b = b /\ (b =? UMAX) = false.
Proof.
  intros H. rewrite swrap_small, uwrap_small by (unfold is_uval; lia). split_and!; [done|apply Z.ltb_ge; lia|done|apply Z.eqb_neq; unfold UMAX; lia].
Qed.

(** A new block for context [c]: the choice of the block in putPage and
    startPutPage. *)
Lemma choose_new debug bid0 n cl c :
  inv n cl ->
  choose_block debug bid0 UMAX (ds cl) (ctx_of cl c) = Some None /\ exhausted n (owned cl) (ctx_of cl c) \/
  exists b bdv s', choose_block debug bid0 UMAX (ds cl) (ctx_of cl c) = Some (Some (b, bdv, b, s', b)) /\ 0 <= b < 64 ^ 4 /\ b < n /\
    owned cl !! b = None /\ inv n (mkC s' (<[c := b]> (ctxs cl)) (<[b := c]> (owned cl))).
Proof.
  intros (Hn & Hp & node & dd & bdv & u & Hd & Hh & Hc & Hbu). unfold choose_block. rewrite Z.eqb_refl. unfold ctx_of.
  destruct (allocBlock_one debug bid0 (ds cl) node dd bdv u n _ _ c Hd Hh Hc Hbu) as [[E Hex]|(b & s' & E & Hr & Hb & HA & Hp' & u' & Hd' & Hh' & Hc' & Hb')];
    rewrite E; cbn [mbind option_bind]; [by left|]. right. destruct (uval_block b Hr) as (-> & Hf & -> & _). rewrite Hf.
  exists b, bdv, s'. split; [done|]. split; [done|]. split; [done|]. split; [done|]. split; [done|]. split; [|by exists node, dd, bdv, u'].
  cbn [ds owned]. rewrite map_size_insert_None by done. pose proof (ds_holds_size u' n _ ltac:(lia) Hh') as Hsz. rewrite map_size_insert_None in Hsz by done.
  rewrite Hp', Hp. unfold uadd, uwrap, UMAX. replace (n - Z.of_nat (size (owned cl)) + (2 ^ 64 - 1)) with (n - Z.of_nat (size (owned cl)) - 1 + 1 * 2 ^ 64) by lia.
  rewrite Z.mod_add, Z.mod_small by lia. lia.
Qed.

Lemma free_client n cl b c :
  inv n cl -> owned cl !! b = Some c ->
  exists s' v, freePage b (ds cl) (ctx_of cl c) = Some (0, s', v) /\ inv n (mkC s' (<[c := v]> (ctxs cl)) (delete b (owned cl))).
Proof.
  intros (Hn & Hp & node & dd & bdv & u & Hd & Hh & Hc & Hbu) HA. unfold ctx_of.
  destruct (freePage_one _ node dd bdv u n _ _ c b Hd Hh Hc Hbu HA) as (s' & v & u' & E & Hp' & Hd' & Hh' & Hc' & Hb').
  exists s', v. split; [done|]. split; [done|]. split; [|by exists node, dd, bdv, u'].
  cbn [ds owned]. rewrite map_size_delete_Some by eauto. pose proof (ds_holds_size u n _ ltac:(lia) Hh) as Hsz.
  assert (0 < size (owned cl))%nat by (apply Nat.neq_0_lt_0; rewrite map_size_ne_0_lookup; eauto).
  rewrite Hp', Hp, uadd_small by lia. lia.
Qed.

Definition benign (o : cmd) : bool := match o with StartPutFails _ => false | _ => true end.

(** The context that an operation takes a new block for. *)
Definition asks (o : cmd) : option Z := match o with PutNew c _ _ _ | StartPut c _ _ => Some c | _ => None end.

(** A new block of context [c]. *)
Definition gains (n c : Z) (A A' : gmap Z Z) : Prop := exists b, 0 <= b < n /\ A !! b = None /\ A' = <[b := c]> A.

(** What an operation does to the blocks in use: a write to a new block takes one, and a
    synchronous write that fails gives it back. *)
Definition effect (n : Z) (o : cmd) (A A' : gmap Z Z) : Prop :=
  match o with
  | PutNew c _ _ rc => if _FAILURE rc then A' = A else gains n c A A'
  | StartPut c _ _ => gains n c A A'
  | Rewrite bid _ rc => A' = if _FAILURE rc then delete bid A else A
  | Free bid | StartPutFails bid => A' = delete bid A
  end.

Inductive follows (n : Z) : gmap Z Z -> list cmd -> gmap Z Z -> Prop :=
  | follows_nil A : follows n A [] A
  | follows_cons A o A1 ops A2 : effect n o A A1 -> follows n A1 ops A2 -> follows n A (o :: ops) A2.

(** What follows a step. *)
Definition fine (n : Z) (cl : clients) (o : cmd) (r : outcome) : Prop :=
  match r with
  | Next cl' => inv n cl' /\ effect n o (owned cl) (owned cl')
  | Full cl' c => cl' = cl /\ asks o = Some c /\ exhausted n (owned cl) (ctx_of cl c)
  | Clash _ => False
  end.

Lemma keep_context n cl c : inv n cl -> inv n (mkC (ds cl) (<[c := ctx_of cl c]> (ctxs cl)) (owned cl)).
Proof.
  intros (Hn1 & Hp & node1 & dd1 & bdv1 & u1 & Hd1 & Hh1 & Hc1 & Hb1). split; [done|]. split; [done|].
  exists node1, dd1, bdv1, u1. split; [done|]. split; [done|]. split; [|done]. cbn [ctxs owned]. unfold ctx_of. intros c1 v1. rewrite lookup_insert_Some. intros H1 Hn1'.
  assert (Hold : forall c2 v2, c = c2 /\ default INIT_PAGER_CONTEXT (ctxs cl !! c) = v2 \/ c <> c2 /\ ctxs cl !! c2 = Some v2 -> v2 <> INIT_PAGER_CONTEXT -> ctxs cl !! c2 = Some v2).
  { intros c2 v2 [[<- <-]|[_ H]] Hni; [|done]. by destruct (ctxs cl !! c). }
  destruct (Hc1 c1 v1 (Hold c1 v1 H1 Hn1') Hn1') as (R1 & R2 & R3 & R4). split_and!; try done; try apply R1.
  intros c2 v2. rewrite lookup_insert_Some. intros H2 Hn2. apply R4; [|done]. by apply Hold.
Qed.

Lemma client_step_fine debug n cl o : inv n cl -> benign o = true -> exists r, client_step debug cl o = Some r /\ fine n cl o r.
Proof.
  intros Hinv Hb. destruct o as [c phys bid0 rc|c phys bid0|bid phys rc|bid|bid]; [| | | |done]; cbn [client_step].
  - unfold putPage. destruct (choose_new debug bid0 n cl c Hinv) as [[E Hex]|(b & bdv & s' & E & Hr & Hbn & HA & Hi)]; rewrite E; cbn [mbind option_bind]; [by exists (Full cl c)|].
    destruct (uval_block b Hr) as (_ & Hf & _ & Hne). rewrite Hf. cbv zeta. unfold fine, effect. destruct (_FAILURE rc).
    + destruct (free_client n _ b c Hi (lookup_insert_eq _ _ _)) as (s2 & v & E2 & Hi2). unfold ctx_of in E2. cbn [ds ctxs owned] in E2, Hi2.
      rewrite lookup_insert_eq in E2. change (default INIT_PAGER_CONTEXT (Some b)) with b in E2. rewrite E2. cbn [mbind option_bind]. rewrite Z.eqb_refl.
      eexists. split; [done|]. rewrite insert_insert_eq, delete_insert_id in Hi2 by done. done.
    + cbn [mbind option_bind]. rewrite Hne. unfold add_page. rewrite HA. eexists. split; [done|]. split; [done|]. exists b. split; [lia|done].
  - unfold startPutPage. destruct (choose_new debug bid0 n cl c Hinv) as [[E Hex]|(b & bdv & s' & E & Hr & Hbn & HA & Hi)]; rewrite E; cbn [mbind option_bind]; [by exists (Full cl c)|].
    destruct (uval_block b Hr) as (_ & Hf & _ & Hne). rewrite Hf. cbv zeta.
    assert (Ht : tassertMsg debug (0 =? 0) = Some tt) by by destruct debug. rewrite Ht. cbn [mbind option_bind].
    unfold add_page. rewrite HA. eexists. split; [done|]. split; [done|]. exists b. split; [lia|done].
  - destruct (owned cl !! bid) as [c|] eqn:HA; [|eexists; split; [done|]; split; [done|]; simpl; destruct (_FAILURE rc); [by rewrite delete_id|done]].
    destruct (Hinv) as (Hn & _ & node & dd & bdv & u & Hd & Hh & _). destruct (h_dom _ _ _ Hh bid c HA) as [Hr _]. destruct (uval_block bid Hr) as (_ & _ & _ & Hne).
    unfold putPage, choose_block. rewrite Hne, (device_of_one _ _ _ _ _ bid Hd (proj1 (small_ids bid Hr))). cbn [mbind option_bind].
    change (_FAILURE 0) with false. cbv iota zeta. unfold fine, effect. destruct (_FAILURE rc).
    + destruct (free_client n cl bid c Hinv HA) as (s2 & v & E2 & Hi2). rewrite E2. cbn [mbind option_bind]. rewrite Z.eqb_refl. eexists. split; [done|]. done.
    + cbn [mbind option_bind]. rewrite Hne. eexists. split; [done|]. split; [|done]. by apply keep_context.
  - destruct (owned cl !! bid) as [c|] eqn:HA; [|eexists; split; [done|]; split; [done|]; simpl; by rewrite delete_id].
    destruct (free_client n cl bid c Hinv HA) as (s2 & v & E2 & Hi2). rewrite E2. cbn [mbind option_bind]. eexists. split; [done|]. done.
Qed.

Lemma client_run_fine debug n cl ops : inv n cl -> forallb benign ops = true ->
  exists r, client_run debug cl ops = Some r /\
    match r with
    | Next cl' => inv n cl' /\ follows n (owned cl) ops (owned cl')
    | Full cl' c => inv n cl' /\ exhausted n (owned cl') (ctx_of cl' c) /\ exists before o rest, ops = before ++ o :: rest /\ follows n (owned cl) before (owned cl') /\ asks o = Some c
    | Clash _ => False
    end.
Proof.
  revert cl. induction ops as [|o ops IH]; intros cl Hinv Hb; [exists (Next cl); split; [done|]; split; [done|constructor]|]. cbn [forallb] in Hb. apply andb_true_iff in Hb as [Ho Hb].
  destruct (client_step_fine debug n cl o Hinv Ho) as (r & E & Hr). cbn [client_run]. rewrite E. cbn [mbind option_bind].
  destruct r as [cl1|cl1 c|b]; [|destruct Hr as (-> & Ha & Hex); exists (Full cl c); split; [done|]; split; [done|]; split; [done|]; exists [], o, ops; split; [done|]; split; [constructor|done]|done].
  destruct Hr as [Hi1 He]. destruct (IH cl1 Hi1 Hb) as (r & Er & Hr). exists r. split; [done|]. destruct r as [cl'|cl' c|b]; [| |done].
  - destruct Hr as [Hi' Hf]. split; [done|]. by econstructor.
  - destruct Hr as (Hi' & Hex & before & o' & rest & -> & Hf & Ha). split; [done|]. split; [done|]. exists (o :: before), o', rest. split; [done|]. split; [by econstructor|done].
Qed.

Lemma start_one bytes : 0 <= bytes < 2 ^ 64 -> exists cl, start [bytes] = Some cl /\ inv (bytes / 4096) cl /\ owned cl = ∅.
Proof.
  intros Hb. assert (Hn : 0 <= bytes / 4096 < 2 ^ 52) by (split; [apply Z.div_pos; lia|apply Z.div_lt_upper_bound; lia]).
  eexists. split; [reflexivity|]. split; [|done]. split; [done|]. split; [cbn [ds owned numPagesAvail]; rewrite map_size_empty, uadd_small by (unfold PAGE_SIZE; simpl; lia); simpl; unfold PAGE_SIZE; lia|].
  exists 1, 1, 1, (BlockSet.BlockSet (bytes / 4096)).1. cbn [ds ctxs owned].
  assert (Hn' : 0 <= bytes / 4096 < 2 ^ 63) by lia. split; [|split; [|split]].
  - split; [|done|by left|done]. split; [|done]. split; [done|]. split; [done|]. eexists. split; [apply lookup_insert_eq|]. done.
  - split; [by apply BlockSet.bs_init_wf| |done|].
    + intros b Hr. rewrite (BlockSet.init_bit _ 0) by (done || lia || (unfold BlockSet.width; simpl; lia)). rewrite Z.leb_le. cbn [BlockSet.level_blocks].
      rewrite lookup_empty. split; [by right|]. intros [[? ?]|]; [done|done].
    + intros i Hi. apply BlockSet.init_free in Hi as [_ Hi]; [|done]. split; [done|]. intros b o. by rewrite lookup_empty.
  - intros c v. by rewrite lookup_empty.
  - intros i Hi Hin _. apply BlockSet.init_free; [done|lia].
Qed.

(** C15: swap space is safe on one device.  Any number of contexts write pages to new
    blocks, synchronously, whatever the driver answers, or asynchronously, and rewrite
    and free their blocks in any order.  The condition is that asynchronous writes do
    not fail: after a failed one a block can be given out twice (failed_write_clash), as
    it can with two devices (two_devices_clash).  Then every call returns; a write to a
    new block takes exactly one block that is on the device and in use by nobody, or
    none when a synchronous write fails; no block is ever given to two users; and
    numPagesAvail is exactly the number of blocks not in use.  The system stops, out of
    space, only when a context asks for a block while every whole set of 64 blocks on the
    device (up to the 64^4 blocks the bitmap has) has a block in use and no block is left
    of the set of that context.  The results do not depend on debug assertions being
    compiled in. *)
Theorem swap_blocks_exclusive debug bytes ops :
  0 <= bytes < 2 ^ 64 -> forallb benign ops = true ->
  exists cl r, start [bytes] = Some cl /\ client_run debug cl ops = Some r /\
    match r with
    | Next cl' => follows (bytes / 4096) ∅ ops (owned cl') /\ numPagesAvail (ds cl') = bytes / 4096 - Z.of_nat (size (owned cl')) /\
                  forall b c, owned cl' !! b = Some c -> 0 <= GET_SWAP_BLOCKNUM b < bytes / 4096 /\ GET_SWAP_DEVID b = 0
    | Full cl' c => exhausted (bytes / 4096) (owned cl') (ctx_of cl' c) /\
                  exists before o rest, ops = before ++ o :: rest /\ follows (bytes / 4096) ∅ before (owned cl') /\ asks o = Some c
    | Clash _ => False
    end.
Proof.
  intros Hb Hops. destruct (start_one bytes Hb) as (cl & E & Hi & E0). destruct (client_run_fine debug _ cl ops Hi Hops) as (r & Er & Hr). rewrite E0 in Hr.
  exists cl, r. split; [done|]. split; [done|]. destruct r as [cl'|cl' c|b]; [|by destruct Hr|done]. destruct Hr as [(Hn & Hp & node & dd & bdv & u & _ & Hh & _) Hf].
  split; [done|]. split; [done|]. intros b c Hbc. destruct (h_dom _ _ _ Hh b c Hbc) as [Hr Hlt]. destruct (small_ids b Hr) as [-> ->]. lia.
Qed.

Definition swap_demo : list cmd :=
  [PutNew 1 0 77 0; PutNew 1 0 0 (-5); StartPut 2 0 0; PutNew 1 0 0 0; Rewrite 0 0 (-5); Free 1; Free 64; StartPut 2 0 0; PutNew 3 0 0 0].

(** On a device of 244 blocks, and on one of 64, which has no set for a second context. *)
Lemma swap_blocks_exclusive_witness :
  (exists cl r, start [1000000] = Some cl /\ client_run true cl swap_demo = Some r /\
    match r with
    | Next cl' => follows (1000000 / 4096) ∅ swap_demo (owned cl') /\ numPagesAvail (ds cl') = 1000000 / 4096 - Z.of_nat (size (owned cl')) /\
                  forall b c, owned cl' !! b = Some c -> 0 <= GET_SWAP_BLOCKNUM b < 1000000 / 4096 /\ GET_SWAP_DEVID b = 0
    | Full cl' c => exhausted (1000000 / 4096) (owned cl') (ctx_of cl' c) /\
                  exists before o rest, swap_demo = before ++ o :: rest /\ follows (1000000 / 4096) ∅ before (owned cl') /\ asks o = Some c
    | Clash _ => False
    end) /\
  (cl ← start [262144]; r ← client_run true cl [PutNew 1 0 0 0; PutNew 2 0 0 0]; Some (match r with Full cl' c => Some (c, size (owned cl')) | _ => None end)) = Some (Some (2, 1%nat)).
Proof. split; [apply (swap_blocks_exclusive true 1000000 swap_demo); [lia|reflexivity]|by vm_compute]. Defined.

(** ** Where the code goes wrong *)

Definition run_from (debug : bool) (sizes : list Z) (ops : list cmd) : option (option Z) :=
  cl ← start sizes; r ← client_run debug cl ops; Some (match r with Clash b => Some b | _ => None end).

(** With two devices: freePage compares the block number with the whole context,
    device number included, so the context of a block on device 1 keeps naming a
    set that has gone back.  Through it the set is filled while it counts as free;
    the next allocation gets the full set, takes 64 for a bit in it, and returns
    block 64, which the allocation after that returns again. *)
Definition stale_context : list cmd :=
  [PutNew 1 0 0 0; Free (2 ^ 52)] ++ replicate 64 (PutNew 1 0 0 0) ++ [PutNew 2 0 0 0; PutNew 2 0 0 0; PutNew 3 0 0 0; PutNew 4 0 0 0; PutNew 5 0 0 0].

Lemma two_devices_clash :
  run_from false [1048576; 1048576] stale_context = Some (Some (2 ^ 52 + 64)) /\ run_from true [1048576; 1048576] stale_context = None.
Proof. split; vm_compute; reflexivity. Qed.

(** On one device: the completion of a failed asynchronous write frees the block
    with a context of its own, so the context of the writer keeps naming a set
    that has gone back, with the same end. *)
Lemma failed_write_clash :
  run_from false [1048576] ([StartPut 1 0 0; StartPutFails 0] ++ replicate 64 (PutNew 1 0 0 0) ++ [PutNew 2 0 0 0; PutNew 2 0 0 0]) = Some (Some 64).
Proof. vm_compute. reflexivity. Qed.

(** A set that the device has only a part of is not handed back when its last block is
    freed, since the bits past the end of the device are set: the system runs out of
    space with the one block of that set free. *)
Lemma partial_set_kept :
  (cl ← start [65 * 4096]; r ← client_run true cl [PutNew 1 0 0 0; PutNew 2 0 0 0; Free 64; PutNew 3 0 0 0];
   Some (match r with Full cl' c => Some (c, numPagesAvail (ds cl'), owned cl' !! 64) | _ => None end)) = Some (Some (3, 64, None)).
Proof. vm_compute. reflexivity. Qed.

(** swapActive reports the number of pages as a status: it is a success in every
    state, also when there is no swap space. *)
Lemma swapActive_empty : swapActive init = 0 /\ _SUCCESS (swapActive init) = true.
Proof. split; reflexivity. Qed.

End DiskSwap.
