(* ===== verification/Sem.v ===== *)
(** * Sem: the semaphore, lib/libc/sync/Sem.H

    A semaphore has a counter and two queues: of the threads that wait in P for
    units, and of those that wait in Z for the counter to be zero.  A waiting
    thread has an element on its stack, which is linked through a pointer to the
    last link.  Whoever wakes a thread takes its element off the queue, clears the
    element's thread and unblocks it; the woken thread starts again at the label
    [reset], and may find that others have been faster.

    The lock is the caller's: it is taken before every operation and released after
    it.  P and Z release it while they wait and take it again, but return without it
    when wakeup has given them an error.  TSemaphore releases it whatever P returns;
    the semaphores of os/servers/pty/SysVSemaphores.C release it only when there is no
    error.

    The steps of a thread are taking the lock, the section under it, the check of the
    element, the call of Scheduler::Block and releasing the lock.  The lock is a
    mutex: taking it waits until it is free, and releasing a lock that the thread does
    not have is a fault. *)

From stdpp Require Import base numbers option gmap list.
From S2P Require Import K42 Prelude HTList.

Module Sem.

(** ** Data *)

(** The element on the stack of thread [a] has address [a]; thread 0 is
    NullThreadID. *)
Record Element := mkEl { el_next : Z; el_id : Z; el_count : Z; el_error : Z }.

#[export] Instance el_linked : Linked Element (Z * Z * Z) := {|
  next := el_next;
  set_next := fun p e => mkEl p (el_id e) (el_count e) (el_error e);
  payload := fun e => (el_id e, el_count e, el_error e);
  next_set_next := fun _ _ => eq_refl;
  payload_set_next := fun _ _ => eq_refl;
|}.

(** Element **: null, the address of the head, or that of an element's link. *)
Inductive tailp := TNull | THead | TNext (a : Z).

Record queue := mkQ { head : Z; tail : tailp }.

(** What a thread waits for: [P] of so many units, or [Z]. *)
Inductive kind := KP (c : Z) | KZ.

Inductive op := OpP (c : Z) | OpZ | OpTryP (c : Z) | OpV (c : Z) | OpWakeup (error : Z) | OpSet (x : Z).

Definition op_of (k : kind) : op := match k with KP c => OpP c | KZ => OpZ end.

(** Where a thread is: outside, with the lock at the start of an operation or at the
    label [reset], at the test [el.id != NullThreadID], in Scheduler::Block, at
    [lock->acquire(); goto reset], or at the caller's [lock.release()], with the result
    of the operation. *)
Inductive PC := Out | Held (o : op) | Check (k : kind) | Blocked (k : kind) | Retry (k : kind) | Leave (rc : Z).

(** [token]: Scheduler::Unblock has been called since the last Block. *)
Record thread := mkTh { pc : PC; token : bool }.

Record t := mkS {
  counter : Z;
  neg : queue;
  zero : queue;
  els : gmap Z Element;
  threads : gmap Z thread;
}.

(** The semaphore with its lock: the thread that has it. *)
Record sys := mkSys { sem : t; lock : option Z }.

Definition init (ts : list Z) (c : Z) : t :=
  mkS c (mkQ NULL TNull) (mkQ NULL TNull) ∅ (list_to_map ((fun a => (a, mkTh Out false)) <$> ts)).

(** lock.release() of thread [a]. *)
Definition release (a : Z) (lk : option Z) : option (option Z) := if bool_decide (lk = Some a) then Some None else None.

(** ** Queues *)

(** [if (!tail) tail = &head; *tail = &el; tail = &el.next;] *)
Definition enqueue (q : queue) (m : gmap Z Element) (a : Z) (el : Element) : option (queue * gmap Z Element) :=
  let m1 := <[a := el]> m in
  match tail q with
  | TNext u => e ← m1 !! u; Some (mkQ (head q) (TNext a), <[u := set_next a e]> m1)
  | _ => Some (mkQ a (TNext a), m1)
  end.

Definition unblock (thr : Z) (ths : gmap Z thread) : gmap Z thread := alter (fun x => mkTh (pc x) true) thr ths.

(** Take the first element off, clear its thread and unblock that; wakeup also
    sets its error. *)
Definition wake_first (err : option Z) (q : queue) (m : gmap Z Element) (ths : gmap Z thread)
    : option (queue * gmap Z Element * gmap Z thread) :=
  let el := head q in
  e ← m !! el;
  let q' := mkQ (next e) (if next e =? NULL then THead else tail q) in
  Some (q', <[el := mkEl (el_next e) 0 (el_count e) (default (el_error e) err)]> m, unblock (el_id e) ths).

(** [while ((counter == 0) && (zeroHead != NULL))] *)
Fixpoint zero_loop (fuel : nat) (counter : Z) (q : queue) (m : gmap Z Element) (ths : gmap Z thread)
    : option (queue * gmap Z Element * gmap Z thread) :=
  match fuel with
  | O => None
  | S f =>
    if (counter =? 0) && negb (head q =? NULL) then '(q', m', ths') ← wake_first None q m ths; zero_loop f counter q' m' ths'
    else Some (q, m, ths)
  end.

(** [while (tmpCounter && negHead != NULL)] *)
Fixpoint v_loop (fuel : nat) (tmpCounter : Z) (q : queue) (m : gmap Z Element) (ths : gmap Z thread)
    : option (queue * gmap Z Element * gmap Z thread) :=
  match fuel with
  | O => None
  | S f =>
    if negb (tmpCounter =? 0) && negb (head q =? NULL) then
      e ← m !! head q;
      if tmpCounter <? el_count e then Some (q, m, ths)
      else '(q', m', ths') ← wake_first None q m ths; v_loop f (swrap (tmpCounter - el_count e)) q' m' ths'
    else Some (q, m, ths)
  end.

(** [while (zeroHead != NULL)] of wakeup. *)
Fixpoint drain_loop (fuel : nat) (error : Z) (q : queue) (m : gmap Z Element) (ths : gmap Z thread)
    : option (queue * gmap Z Element * gmap Z thread) :=
  match fuel with
  | O => None
  | S f =>
    if negb (head q =? NULL) then '(q', m', ths') ← wake_first (Some error) q m ths; drain_loop f error q' m' ths'
    else Some (q, m, ths)
  end.

Fixpoint count_loop (fuel : nat) (m : gmap Z Element) (ptr n : Z) : option Z :=
  match fuel with
  | O => None
  | S f => if ptr =? NULL then Some n else e ← m !! ptr; count_loop f m (next e) (n + 1)
  end.

(** ** The operations, under the lock *)

Definition fuel (s : t) : nat := S (size (els s)).

Definition tryZ (s : t) : Z := if counter s =? 0 then 0 else 1.

Definition tryP (s : t) (c : Z) : Z * t :=
  if counter s <? c then (0, s)
  else (1, mkS (swrap (counter s - c)) (neg s) (zero s) (els s) (threads s)).

Definition set_pc (a : Z) (p : PC) (ths : gmap Z thread) : gmap Z thread := alter (fun x => mkTh p (token x)) a ths.

(** P from the label [reset] to its wait, before which it releases the lock, or to its
    return. *)
Definition P_body (s : t) (lk : option Z) (a c : Z) : option (t * option Z) :=
  if counter s <? c then
    '(q, m) ← enqueue (neg s) (els s) a (mkEl NULL a c 0);
    lk ← release a lk;
    Some (mkS (counter s) q (zero s) m (set_pc a (Check (KP c)) (threads s)), lk)
  else
    let cnt := swrap (counter s - c) in
    '(q, m, ths) ← zero_loop (fuel s) cnt (zero s) (els s) (threads s);
    Some (mkS cnt (neg s) q m (set_pc a (Leave 0) ths), lk).

Definition Z_body (s : t) (lk : option Z) (a : Z) : option (t * option Z) :=
  if negb (counter s =? 0) then
    '(q, m) ← enqueue (zero s) (els s) a (mkEl NULL a 0 0);
    lk ← release a lk;
    Some (mkS (counter s) (neg s) q m (set_pc a (Check KZ) (threads s)), lk)
  else Some (mkS (counter s) (neg s) (zero s) (els s) (set_pc a (Leave 0) (threads s)), lk).

Definition V (s : t) (c : Z) : option t :=
  let cnt := swrap (counter s + c) in
  '(q, m, ths) ← v_loop (fuel s) cnt (neg s) (els s) (threads s);
  Some (mkS cnt q (zero s) m ths).

Definition wakeup (s : t) (error : Z) : option t :=
  '(q, m, ths) ← drain_loop (fuel s) error (zero s) (els s) (threads s);
  '(q2, m2, ths2) ← drain_loop (fuel s) error (neg s) m ths;
  Some (mkS (counter s) q2 q m2 ths2).

Definition waitCount (s : t) : option (Z * Z) :=
  z ← count_loop (fuel s) (els s) (head (zero s)) 0;
  n ← count_loop (fuel s) (els s) (head (neg s)) 0;
  Some (z, n).

Definition set (s : t) (x : Z) : t := mkS x (neg s) (zero s) (els s) (threads s).
Definition get (s : t) : Z := counter s.

(** ** Threads *)

(** The thread goes to the release of the lock. *)
Definition returns (a : Z) (s : t) : t := mkS (counter s) (neg s) (zero s) (els s) (set_pc a (Leave 0) (threads s)).

(** The section under the lock; the number is that of the units it takes. *)
Definition section (s : t) (lk : option Z) (a : Z) (o : op) : option (t * option Z * Z) :=
  match o with
  | OpP n => '(s', lk) ← P_body s lk a n; Some (s', lk, if counter s <? n then 0 else n)
  | OpZ => '(s', lk) ← Z_body s lk a; Some (s', lk, 0)
  | OpTryP n => let '(r, s') := tryP s n in Some (returns a s', lk, r * n)
  | OpV n => s' ← V s n; Some (returns a s', lk, - n)
  | OpWakeup e => s' ← wakeup s e; Some (returns a s', lk, 0)
  | OpSet v => Some (returns a (set s v), lk, counter s - v)
  end.

(** Leaving the loop [while (el.id != NullThreadID) Scheduler::Block();]: the
    element goes with its block. *)
Definition check (s : t) (a : Z) (k : kind) : option t :=
  e ← els s !! a;
  if negb (el_id e =? 0) then Some (mkS (counter s) (neg s) (zero s) (els s) (set_pc a (Blocked k) (threads s)))
  else Some (mkS (counter s) (neg s) (zero s) (delete a (els s))
                 (set_pc a (if el_error e =? 0 then Retry k else Leave (el_error e)) (threads s))).

Definition set_threads (s : t) (ths : gmap Z thread) : t := mkS (counter s) (neg s) (zero s) (els s) ths.

Inductive cmd := Call (o : op) | Go.

(** A step happens, cannot happen yet, or goes wrong. *)
Inductive result := Next (s : sys) (n : Z) | Waits | Fault.

(** lock.acquire(), on the way to an operation. *)
Definition acquire (s : sys) (a : Z) (o : op) : result :=
  match lock s with
  | None => Next (mkSys (set_threads (sem s) (set_pc a (Held o) (threads (sem s)))) (Some a)) 0
  | Some _ => Waits
  end.

Section caller.

(** Whether the caller releases the lock only when there was no error, as semop of
    SysVSemaphores.C does and TSemaphore does not. *)
Context (careful : bool).

Definition leave (s : sys) (a rc : Z) : result :=
  let out := set_threads (sem s) (set_pc a Out (threads (sem s))) in
  if careful && negb (rc =? 0) then Next (mkSys out (lock s)) 0
  else match release a (lock s) with Some lk => Next (mkSys out lk) 0 | None => Fault end.

(** One step of thread [a], with the number of units it takes. *)
Definition step (s : sys) (a : Z) (c : cmd) : result :=
  match threads (sem s) !! a with
  | None => Waits
  | Some x =>
    match pc x, c with
    | Out, Call o => acquire s a o
    | Held o, Go => match section (sem s) (lock s) a o with Some (s', lk, n) => Next (mkSys s' lk) n | None => Fault end
    | Check k, Go => match check (sem s) a k with Some s' => Next (mkSys s' (lock s)) 0 | None => Fault end
    | Blocked k, Go => if token x then Next (mkSys (set_threads (sem s) (<[a := mkTh (Check k) false]> (threads (sem s)))) (lock s)) 0 else Waits
    | Retry k, Go => acquire s a (op_of k)
    | Leave rc, Go => leave s a rc
    | _, _ => Waits
    end
  end.

(** A schedule: a step that has to wait does not happen, and one that goes wrong is the
    end.  The second part is the number of units taken so far. *)
Fixpoint run (s : sys) (taken : Z) (sch : list (Z * cmd)) : option (sys * Z) :=
  match sch with
  | [] => Some (s, taken)
  | (a, c) :: sch => match step s a c with Next s' n => run s' (taken + n) sch | Waits => run s taken sch | Fault => None end
  end.

Definition enabled (s : sys) (a : Z) : bool := match step s a Go with Next _ _ => true | _ => false end.

End caller.

(** ** Queues as lists *)

(** The threads of a queue with the units they wait for, as payloads. *)
Definition pl (l : list (Z * Z)) : list (Z * (Z * Z * Z)) := (fun '(a, c) => (a, (a, c, 0))) <$> l.

Lemma pl_fst l : (pl l).*1 = l.*1.
Proof. unfold pl. rewrite <- list_fmap_compose. apply list_fmap_ext. by intros ? [a c] _. Qed.

Lemma pl_app l1 l2 : pl (l1 ++ l2) = pl l1 ++ pl l2.
Proof. apply fmap_app. Qed.

Definition qrep (m : gmap Z Element) (q : queue) (l : list (Z * Z)) : Prop :=
  chain m (head q) (pl l) NULL /\
  match l with [] => forall a, tail q <> TNext a | _ => tail q = TNext (last_addr NULL (pl l)) end.

Lemma qrep_agree m m' q l : (forall a, a ∈ l.*1 -> m' !! a = m !! a) -> qrep m q l -> qrep m' q l.
Proof. intros H [Hc Ht]. split; [|done]. apply (chain_agree m m'); [|done]. by rewrite pl_fst. Qed.

Lemma qrep_length m q l : qrep m q l -> (length l <= size m)%nat.
Proof. intros [Hc _]. apply chain_length in Hc. unfold pl in Hc. by rewrite length_fmap in Hc. Qed.

Lemma qrep_null m q l : qrep m q l -> head q = NULL <-> l = [].
Proof. intros [Hc _]. rewrite (chain_null _ _ _ Hc). unfold pl. by destruct l. Qed.

Lemma qrep_elem m q l a c : qrep m q l -> (a, c) ∈ l -> exists e, m !! a = Some e /\ el_id e = a /\ el_count e = c /\ el_error e = 0.
Proof.
  intros [Hc _] Hin. destruct (chain_elem _ _ _ _ a (a, c, 0) Hc) as (_ & e & He & Hp).
  { apply list_elem_of_fmap. by exists (a, c). }
  exists e. split; [done|]. unfold payload, el_linked in Hp. by injection Hp.
Qed.

Lemma qrep_head m q a c l : qrep m q ((a, c) :: l) -> head q = a.
Proof. intros [Hc _]. by destruct Hc. Qed.

Lemma sem_enqueue_spec m q l a c :
  qrep m q l -> m !! a = None -> a <> 0 ->
  exists q' m', enqueue q m a (mkEl NULL a c 0) = Some (q', m') /\ qrep m' q' (l ++ [(a, c)]) /\
    (forall b, b <> a -> b ∉ l.*1 -> m' !! b = m !! b) /\ (forall b, is_Some (m' !! b) <-> b = a \/ is_Some (m !! b)) /\
    (forall b e', m' !! b = Some e' -> b <> a -> exists e, m !! b = Some e /\ payload e' = payload e) /\ exists e, m' !! a = Some e.
Proof.
  intros [Hc Ht] Hf Ha. unfold enqueue. destruct l as [|x l _] using rev_ind.
  - exists (mkQ a (TNext a)), (<[a := mkEl NULL a c 0]> m). split; [destruct (tail q) as [| |u]; [done|done|by destruct (Ht u)]|].
    split_and!.
    + split; [|done]. simpl. split; [done|]. split; [done|]. exists (mkEl NULL a c 0). rewrite lookup_insert_eq. done.
    + intros b Hb _. by rewrite lookup_insert_ne.
    + intros b. rewrite lookup_insert_is_Some. destruct (decide (a = b)); naive_solver.
    + intros b e' Hb Hne. rewrite lookup_insert_ne in Hb by done. eauto.
    + rewrite lookup_insert_eq. eauto.
  - destruct x as [b d]. rewrite pl_app in *. change (pl [(b, d)]) with [(b, (b, d, 0))] in *.
    assert (Htl : tail q = TNext b) by (destruct l; rewrite last_addr_snoc in Ht; done).
    destruct (chain_last _ _ _ _ _ _ Hc) as (nb & Hnb & _ & _). assert (Hne : a <> b) by congruence.
    rewrite Htl, lookup_insert_ne, Hnb by done. cbn [mbind option_bind].
    exists (mkQ (head q) (TNext a)), (<[b := set_next a nb]> (<[a := mkEl NULL a c 0]> m)). split; [done|].
    assert (Hc1 : chain (<[a := mkEl NULL a c 0]> m) (head q) (pl l ++ [(b, (b, d, 0))]) NULL).
    { apply chain_insert_ne; [|done]. by eapply chain_addr_ne, Hc. }
    pose proof (chain_nodup _ _ _ Hc) as Hnd. split_and!.
    + split; [|].
      * cbn [head]. rewrite !pl_app. change (pl [(a, c)]) with [(a, (a, c, 0))]. change (pl [(b, d)]) with [(b, (b, d, 0))].
        apply chain_app. exists a. split; [apply (chain_relink _ _ _ _ _ nb NULL); [done|by rewrite lookup_insert_ne|done]|].
        simpl. split; [done|]. split; [done|]. exists (mkEl NULL a c 0). rewrite lookup_insert_ne, lookup_insert_eq by done. done.
      * rewrite pl_app. change (pl [(a, c)]) with [(a, (a, c, 0))]. rewrite last_addr_snoc. by destruct (l ++ [(b, d)]).
    + intros x Hx Hxl. rewrite fmap_app in Hxl. apply not_elem_of_app in Hxl as [_ Hxl]. rewrite !lookup_insert_ne; [done|congruence|].
      intros ->. apply Hxl. left.
    + intros x. rewrite !lookup_insert_is_Some. destruct (decide (b = x)) as [<-|]; [split; [intros _; right; eauto|by left]|]. destruct (decide (a = x)); naive_solver.
    + intros x e' Hx Hxa. destruct (decide (x = b)) as [->|Hxb].
      * rewrite lookup_insert_eq in Hx. injection Hx as <-. exists nb. by rewrite payload_set_next.
      * rewrite !lookup_insert_ne in Hx by congruence. eauto.
    + exists (mkEl NULL a c 0). rewrite lookup_insert_ne, lookup_insert_eq by done. done.
Qed.

Lemma wake_first_spec err m q a c l ths :
  qrep m q ((a, c) :: l) ->
  exists q' nx, wake_first err q m ths = Some (q', <[a := mkEl nx 0 c (default 0 err)]> m, unblock a ths) /\
    qrep (<[a := mkEl nx 0 c (default 0 err)]> m) q' l.
Proof.
  intros Hq. pose proof (qrep_head _ _ _ _ _ Hq) as Hh. pose proof Hq as [Hc Ht]. pose proof (chain_nodup _ _ _ Hc) as Hnd.
  destruct Hc as (Hh' & Ha & [nx i ct er] & He & Hp & Hc). unfold payload, el_linked in Hp. cbn [el_id el_count el_error] in Hp. injection Hp as -> -> ->.
  unfold wake_first. rewrite Hh, He. cbn [mbind option_bind]. unfold next, el_linked in *. cbn [el_next el_id el_count el_error] in *.
  assert (Hnin : a ∉ l.*1) by (rewrite pl_fst in Hnd; by apply NoDup_cons in Hnd as [? _]).
  eexists _, nx. split; [done|]. split.
  - apply chain_insert_ne; [by rewrite pl_fst|done].
  - cbn [tail]. destruct l as [|[b d] l].
    + simpl in Hc. subst nx. by intros b.
    + destruct Hc as (-> & Hb & _). rewrite (proj2 (Z.eqb_neq b NULL) Hb), Ht. done.
Qed.

(** ** The invariant

    It treats the two queues alike: [K1] and [K2] say what the threads of a queue
    wait for. *)

Definition waits (x : thread) (k : kind) : Prop := pc x = Check k \/ pc x = Blocked k.

Record inv (K1 : Z -> kind) (q1 : queue) (l1 : list (Z * Z)) (K2 : Z -> kind) (q2 : queue) (l2 : list (Z * Z))
    (m : gmap Z Element) (ths : gmap Z thread) : Prop := {
  i_q1 : qrep m q1 l1;
  i_q2 : qrep m q2 l2;
  i_disj : forall a, a ∈ l1.*1 -> a ∈ l2.*1 -> False;
  i_pc1 : forall a c, (a, c) ∈ l1 -> exists x, ths !! a = Some x /\ waits x (K1 c);
  i_pc2 : forall a c, (a, c) ∈ l2 -> exists x, ths !! a = Some x /\ waits x (K2 c);
  i_el : forall a, is_Some (m !! a) -> exists x k, ths !! a = Some x /\ waits x k;
  i_wait : forall a x k, ths !! a = Some x -> waits x k ->
    exists e, m !! a = Some e /\ (a ∈ l1.*1 \/ a ∈ l2.*1 \/ el_id e = 0 /\ (pc x = Blocked k -> token x = true));
  i_ids : forall a, is_Some (ths !! a) -> a <> 0;
}.

Lemma inv_swap K1 q1 l1 K2 q2 l2 m ths : inv K1 q1 l1 K2 q2 l2 m ths -> inv K2 q2 l2 K1 q1 l1 m ths.
Proof.
  intros [H1 H2 H3 H4 H5 H6 H7 H8]. split; try done; [naive_solver|]. intros a x k Hx Hw. destruct (H7 a x k Hx Hw) as (e & He & R). exists e. tauto.
Qed.

Lemma set_pc_lookup a p ths b : set_pc a p ths !! b = if decide (a = b) then (fun x => mkTh p (token x)) <$> ths !! b else ths !! b.
Proof. unfold set_pc. destruct (decide (a = b)) as [<-|]; [apply lookup_alter_eq|by apply lookup_alter_ne]. Qed.

Lemma unblock_lookup a ths b : unblock a ths !! b = if decide (a = b) then (fun x => mkTh (pc x) true) <$> ths !! b else ths !! b.
Proof. unfold unblock. destruct (decide (a = b)) as [<-|]; [apply lookup_alter_eq|by apply lookup_alter_ne]. Qed.

(** A thread that waits is on at most one queue and has an element. *)
Lemma inv_fresh K1 q1 l1 K2 q2 l2 m ths a x :
  inv K1 q1 l1 K2 q2 l2 m ths -> ths !! a = Some x -> (forall k, ~ waits x k) -> m !! a = None /\ (a ∉ l1.*1) /\ (a ∉ l2.*1) /\ a <> 0.
Proof.
  intros Hi Hx Hw. split_and!.
  - destruct (m !! a) as [e|] eqn:E; [|done]. destruct (i_el _ _ _ _ _ _ _ _ Hi a ltac:(eauto)) as (y & k & Hy & Hk). simplify_eq. by destruct (Hw k).
  - intros Hin. apply list_elem_of_fmap in Hin as ([b c] & -> & Hin). destruct (i_pc1 _ _ _ _ _ _ _ _ Hi b c Hin) as (y & Hy & Hk). simpl in Hx. simplify_eq. by destruct (Hw (K1 c)).
  - intros Hin. apply list_elem_of_fmap in Hin as ([b c] & -> & Hin). destruct (i_pc2 _ _ _ _ _ _ _ _ Hi b c Hin) as (y & Hy & Hk). simpl in Hx. simplify_eq. by destruct (Hw (K2 c)).
  - by apply (i_ids _ _ _ _ _ _ _ _ Hi); eauto.
Qed.

(** Waking the first thread of a queue. *)
Lemma wake_inv err K1 q1 a c l1 K2 q2 l2 m ths :
  inv K1 q1 ((a, c) :: l1) K2 q2 l2 m ths ->
  exists q' nx, wake_first err q1 m ths = Some (q', <[a := mkEl nx 0 c (default 0 err)]> m, unblock a ths) /\
    inv K1 q' l1 K2 q2 l2 (<[a := mkEl nx 0 c (default 0 err)]> m) (unblock a ths).
Proof.
  intros [H1 H2 H3 H4 H5 H6 H7 H8]. destruct (wake_first_spec err m q1 a c l1 ths H1) as (q' & nx & E & Hq'). exists q', nx. split; [done|].
  destruct (H4 a c ltac:(left)) as (xa & Hxa & Hwa).
  assert (Ha1 : a ∉ l1.*1) by (destruct H1 as [Hc _]; apply chain_nodup in Hc; rewrite pl_fst in Hc; by apply NoDup_cons in Hc as [? _]).
  assert (Ha2 : a ∉ l2.*1) by (intros Hin; apply (H3 a); [left|done]).
  assert (Hother : forall b x, ths !! b = Some x -> exists x', unblock a ths !! b = Some x' /\ pc x' = pc x /\ (token x = true \/ a = b -> token x' = true)).
  { intros b x Hb. rewrite unblock_lookup. destruct (decide (a = b)) as [<-|]; rewrite Hb; eexists; (split; [done|]); naive_solver. }
  split; try done.
  - apply (qrep_agree m); [|done]. intros b Hb. rewrite lookup_insert_ne; [done|]. by intros ->.
  - intros b Hb. apply H3. by right.
  - intros b d Hin. destruct (H4 b d ltac:(by right)) as (x & Hx & Hw). destruct (Hother b x Hx) as (x' & Hx' & Ep & _). exists x'. split; [done|]. unfold waits. by rewrite Ep.
  - intros b d Hin. destruct (H5 b d Hin) as (x & Hx & Hw). destruct (Hother b x Hx) as (x' & Hx' & Ep & _). exists x'. split; [done|]. unfold waits. by rewrite Ep.
  - intros b Hb. destruct (H6 b) as (x & k & Hx & Hw).
    { apply lookup_insert_is_Some in Hb as [->|[_ Hb]]; [|done]. destruct (qrep_elem m q1 _ b c H1 ltac:(left)) as (e & He & _). eauto. }
    destruct (Hother b x Hx) as (x' & Hx' & Ep & _). exists x', k. split; [done|]. unfold waits. by rewrite Ep.
  - intros b x' k Hx' Hw. destruct (ths !! b) as [x|] eqn:Hx; [|rewrite unblock_lookup, Hx in Hx'; by destruct (decide _)].
    destruct (Hother b x Hx) as (x2 & Hx2 & Ep & Ht). simplify_eq. destruct (decide (b = a)) as [->|Hne].
    + eexists. split; [apply lookup_insert_eq|]. right; right. split; [done|]. intros _. apply Ht. by right.
    + destruct (H7 b x k Hx) as (e & He & R); [unfold waits in *; by rewrite <- Ep|]. exists e. rewrite lookup_insert_ne by done. split; [done|].
      destruct R as [R|[R|[R1 R2]]]; [left|by right; left|right; right].
      * rewrite fmap_cons in R. apply elem_of_cons in R as [R|R]; [by destruct Hne|done].
      * split; [done|]. intros Hb. apply Ht. left. apply R2. congruence.
  - intros b. rewrite unblock_lookup. destruct (decide (a = b)) as [<-|]; [|apply H8]. intros _. apply H8. eauto.
Qed.

(** A thread that is not waiting joins a queue. *)
Lemma enqueue_inv K1 q1 l1 K2 q2 l2 m ths a x c :
  inv K1 q1 l1 K2 q2 l2 m ths -> ths !! a = Some x -> (forall k, ~ waits x k) ->
  exists q' m', enqueue q1 m a (mkEl NULL a c 0) = Some (q', m') /\
    inv K1 q' (l1 ++ [(a, c)]) K2 q2 l2 m' (set_pc a (Check (K1 c)) ths) /\
    (forall b e', m' !! b = Some e' -> b <> a -> exists e, m !! b = Some e /\ payload e' = payload e) /\
    (forall b e, m !! b = Some e -> exists e', m' !! b = Some e' /\ payload e' = payload e).
Proof.
  intros Hi Hx Hnw. destruct (inv_fresh _ _ _ _ _ _ _ _ a x Hi Hx Hnw) as (Hm & Ha1 & Ha2 & Ha0). pose proof Hi as [H1 H2 H3 H4 H5 H6 H7 H8].
  destruct (sem_enqueue_spec m q1 l1 a c H1 Hm Ha0) as (q' & m' & E & Hq' & Hsame & Hdom & Hpay & (ea & Hea)). exists q', m'. split; [done|].
  assert (Hpay' : forall b e, m !! b = Some e -> exists e', m' !! b = Some e' /\ payload e' = payload e).
  { intros b e Hb. destruct (proj2 (Hdom b) ltac:(right; eauto)) as [e' He']. exists e'. split; [done|].
    destruct (Hpay b e' He' ltac:(intros ->; congruence)) as (e2 & He2 & Ep). congruence. }
  assert (Hths : forall b, b <> a -> set_pc a (Check (K1 c)) ths !! b = ths !! b) by (intros b Hb; rewrite set_pc_lookup, decide_False; congruence).
  assert (Hme : set_pc a (Check (K1 c)) ths !! a = Some (mkTh (Check (K1 c)) (token x))) by (rewrite set_pc_lookup, decide_True, Hx; done).
  split; [|done]. split; try done.
  - apply (qrep_agree m); [|done]. intros b Hb. apply Hsame; [by intros ->|]. intros Hb1. by apply (H3 b).
  - intros b Hb Hb2. rewrite fmap_app in Hb. apply elem_of_app in Hb as [Hb|Hb]; [by apply (H3 b)|]. apply list_elem_of_singleton in Hb. subst b. done.
  - intros b d Hin. apply elem_of_app in Hin as [Hin|Hin].
    + assert (Hb : b <> a) by (intros ->; apply Ha1, list_elem_of_fmap; by exists (a, d)). rewrite Hths by done. by apply H4.
    + apply list_elem_of_singleton in Hin. injection Hin as -> ->. eexists. split; [done|by left].
  - intros b d Hin. assert (Hb : b <> a) by (intros ->; apply Ha2, list_elem_of_fmap; by exists (a, d)). rewrite Hths by done. by apply H5.
  - intros b Hb. destruct (decide (b = a)) as [->|Hne]; [exists (mkTh (Check (K1 c)) (token x)), (K1 c); split; [done|by left]|].
    rewrite Hths by done. apply H6. apply Hdom in Hb as [?|?]; done.
  - intros b y k Hy Hw. destruct (decide (b = a)) as [->|Hne].
    + exists ea. split; [done|]. left. rewrite fmap_app. apply elem_of_app. right. left.
    + rewrite Hths in Hy by done. destruct (H7 b y k Hy Hw) as (e & He & R). destruct (Hpay' b e He) as (e' & He' & Ep). exists e'. split; [done|].
      unfold payload, el_linked in Ep. injection Ep as Ei _ _. rewrite fmap_app, elem_of_app, Ei. tauto.
  - intros b Hb. destruct (decide (b = a)) as [->|Hne]; [done|]. rewrite Hths in Hb by done. by apply H8.
Qed.

(** A thread whose element has been cleared is on no queue. *)
Lemma cleared_off K1 q1 l1 K2 q2 l2 m ths a e :
  inv K1 q1 l1 K2 q2 l2 m ths -> m !! a = Some e -> el_id e = 0 -> (a ∉ l1.*1) /\ (a ∉ l2.*1).
Proof.
  intros Hi He H0. destruct (i_el _ _ _ _ _ _ _ _ Hi a ltac:(eauto)) as (x & k & Hx & _). pose proof (i_ids _ _ _ _ _ _ _ _ Hi a ltac:(eauto)) as Ha.
  split; intros Hin; apply list_elem_of_fmap in Hin as ([b c] & E & Hin); simpl in E; subst b.
  - destruct (qrep_elem _ _ _ a c (i_q1 _ _ _ _ _ _ _ _ Hi) Hin) as (e' & He' & Hid & _). congruence.
  - destruct (qrep_elem _ _ _ a c (i_q2 _ _ _ _ _ _ _ _ Hi) Hin) as (e' & He' & Hid & _). congruence.
Qed.

(** Steps that leave the queues alone: the element of thread [a] is kept, or goes
    with the wait. *)
Lemma set_thread_inv K1 q1 l1 K2 q2 l2 m ths a x x' m' :
  inv K1 q1 l1 K2 q2 l2 m ths -> ths !! a = Some x -> m' = m \/ m' = delete a m ->
  (forall c, (a, c) ∈ l1 -> m' = m /\ waits x' (K1 c)) -> (forall c, (a, c) ∈ l2 -> m' = m /\ waits x' (K2 c)) ->
  (is_Some (m' !! a) -> exists k, waits x' k) ->
  (forall k, waits x' k -> exists e, m' !! a = Some e /\ (a ∈ l1.*1 \/ a ∈ l2.*1 \/ el_id e = 0 /\ (pc x' = Blocked k -> token x' = true))) ->
  inv K1 q1 l1 K2 q2 l2 m' (<[a := x']> ths).
Proof.
  intros [H1 H2 H3 H4 H5 H6 H7 H8] Hx Hm Hq1 Hq2 Hel Hw.
  assert (Hoth : forall b, b <> a -> m' !! b = m !! b) by (intros b Hb; destruct Hm as [->| ->]; [done|by rewrite lookup_delete_ne]).
  assert (Hin : forall (l : list (Z * Z)) b, b ∈ l.*1 -> exists c, (b, c) ∈ l) by (intros l b Hb; apply list_elem_of_fmap in Hb as ([b' c] & -> & Hb); eauto).
  split.
  - apply (qrep_agree m); [|done]. intros b Hb. destruct (decide (b = a)) as [->|]; [|by apply Hoth]. destruct (Hin l1 a Hb) as [c Hc]. by destruct (Hq1 c Hc) as [-> _].
  - apply (qrep_agree m); [|done]. intros b Hb. destruct (decide (b = a)) as [->|]; [|by apply Hoth]. destruct (Hin l2 a Hb) as [c Hc]. by destruct (Hq2 c Hc) as [-> _].
  - done.
  - intros b c Hb. destruct (decide (b = a)) as [->|Hne]; [exists x'; rewrite lookup_insert_eq; split; [done|by apply Hq1]|]. rewrite lookup_insert_ne by done. by apply H4.
  - intros b c Hb. destruct (decide (b = a)) as [->|Hne]; [exists x'; rewrite lookup_insert_eq; split; [done|by apply Hq2]|]. rewrite lookup_insert_ne by done. by apply H5.
  - intros b Hb. destruct (decide (b = a)) as [->|Hne]; [destruct (Hel Hb) as [k Hk]; exists x', k; by rewrite lookup_insert_eq|].
    rewrite lookup_insert_ne by done. apply H6. by rewrite <- Hoth.
  - intros b y k Hy Hk. destruct (decide (b = a)) as [->|Hne]; [rewrite lookup_insert_eq in Hy; injection Hy as <-; by apply Hw|].
    rewrite lookup_insert_ne in Hy by done. destruct (H7 b y k Hy Hk) as (e & He & R). exists e. split; [by rewrite Hoth|done].
  - intros b Hb. apply lookup_insert_is_Some in Hb as [<-|[_ Hb]]; [apply H8; eauto|by apply H8].
Qed.

Lemma set_pc_insert a p ths x : ths !! a = Some x -> set_pc a p ths = <[a := mkTh p (token x)]> ths.
Proof. intros Hx. unfold set_pc. rewrite <- (insert_id ths a x Hx) at 1. by rewrite alter_insert_eq. Qed.

Lemma idle_inv K1 q1 l1 K2 q2 l2 m ths a x p :
  inv K1 q1 l1 K2 q2 l2 m ths -> ths !! a = Some x -> (forall k, ~ waits x k) -> (forall b k, ~ waits (mkTh p b) k) ->
  inv K1 q1 l1 K2 q2 l2 m (set_pc a p ths).
Proof.
  intros Hi Hx Hn Hp. destruct (inv_fresh _ _ _ _ _ _ _ _ a x Hi Hx Hn) as (Hm & Ha1 & Ha2 & _). rewrite (set_pc_insert a p ths x Hx).
  eapply set_thread_inv; [done|done|by left| | | |].
  - intros c Hc. destruct Ha1. apply list_elem_of_fmap. by exists (a, c).
  - intros c Hc. destruct Ha2. apply list_elem_of_fmap. by exists (a, c).
  - rewrite Hm. by intros [? ?].
  - intros k Hk. by destruct (Hp (token x) k).
Qed.

Lemma leave_inv K1 q1 l1 K2 q2 l2 m ths a x e p :
  inv K1 q1 l1 K2 q2 l2 m ths -> ths !! a = Some x -> m !! a = Some e -> el_id e = 0 -> (forall b k, ~ waits (mkTh p b) k) ->
  inv K1 q1 l1 K2 q2 l2 (delete a m) (set_pc a p ths).
Proof.
  intros Hi Hx He H0 Hp. destruct (cleared_off _ _ _ _ _ _ _ _ a e Hi He H0) as [Ha1 Ha2]. rewrite (set_pc_insert a p ths x Hx).
  eapply set_thread_inv; [done|done|by right| | | |].
  - intros c Hc. destruct Ha1. apply list_elem_of_fmap. by exists (a, c).
  - intros c Hc. destruct Ha2. apply list_elem_of_fmap. by exists (a, c).
  - rewrite lookup_delete_eq. by intros [? ?].
  - intros k Hk. by destruct (Hp (token x) k).
Qed.

(** A waiting thread between its test and Scheduler::Block. *)
Lemma wait_inv K1 q1 l1 K2 q2 l2 m ths a x x' k :
  inv K1 q1 l1 K2 q2 l2 m ths -> ths !! a = Some x -> waits x k -> waits x' k ->
  (pc x' = Blocked k -> exists e, m !! a = Some e /\ el_id e <> 0) ->
  inv K1 q1 l1 K2 q2 l2 m (<[a := x']> ths).
Proof.
  intros Hi Hx Hw Hw' Hb. destruct (i_wait _ _ _ _ _ _ _ _ Hi a x k Hx Hw) as (e & He & R).
  assert (Hk : forall y k', waits y k' -> forall k'', waits y k'' -> k' = k'') by (unfold waits; intros y k1 [E1|E1] k2 [E2|E2]; congruence).
  eapply set_thread_inv; [done|done|by left| | |by eauto|].
  - intros c Hc. split; [done|]. destruct (i_pc1 _ _ _ _ _ _ _ _ Hi a c Hc) as (y & Hy & Hwy). rewrite Hx in Hy. injection Hy as <-. by rewrite (Hk x _ Hwy k Hw).
  - intros c Hc. split; [done|]. destruct (i_pc2 _ _ _ _ _ _ _ _ Hi a c Hc) as (y & Hy & Hwy). rewrite Hx in Hy. injection Hy as <-. by rewrite (Hk x _ Hwy k Hw).
  - intros k2 Hk2. rewrite (Hk x' k2 Hk2 k Hw') in *. exists e. split; [done|]. destruct R as [R|[R|[R1 R2]]]; [by left|by right; left|].
    right; right. split; [done|]. intros Hbl. destruct (Hb Hbl) as (e' & He' & Hne). congruence.
Qed.

(** ** The loops *)

(** Only the elements of threads of [l] change, and no thread moves. *)
Definition frame (l : list (Z * Z)) (m : gmap Z Element) (ths : gmap Z thread) (m' : gmap Z Element) (ths' : gmap Z thread) : Prop :=
  (forall b, b ∉ l.*1 -> m' !! b = m !! b) /\ (forall b, pc <$> ths' !! b = pc <$> ths !! b).

Lemma frame_refl l m ths : frame l m ths m ths.
Proof. done. Qed.

Lemma frame_wake a c l m ths e m' ths' : frame l (<[a := e]> m) (unblock a ths) m' ths' -> frame ((a, c) :: l) m ths m' ths'.
Proof.
  intros [H1 H2]. split; intros b.
  - rewrite fmap_cons. intros Hb. apply not_elem_of_cons in Hb as [Hne Hb]. rewrite H1 by done. by rewrite lookup_insert_ne.
  - rewrite H2, unblock_lookup. destruct (decide (a = b)) as [<-|]; [|done]. by destruct (ths !! a).
Qed.

Lemma inv_head K1 q1 l1 K2 q2 l2 m ths : inv K1 q1 l1 K2 q2 l2 m ths -> head q1 = NULL <-> l1 = [].
Proof. intros Hi. apply (qrep_null m), Hi. Qed.

Lemma zero_loop_inv cnt fuel K1 q1 l1 K2 q2 l2 m ths :
  inv K1 q1 l1 K2 q2 l2 m ths -> (length l1 < fuel)%nat ->
  exists q m' ths', zero_loop fuel cnt q1 m ths = Some (q, m', ths') /\
    inv K1 q (if cnt =? 0 then [] else l1) K2 q2 l2 m' ths' /\ frame l1 m ths m' ths'.
Proof.
  revert fuel q1 m ths. induction l1 as [|[a c] l1 IH]; intros [|f] q1 m ths Hi Hf; simpl in Hf; try lia; cbn [zero_loop].
  - rewrite (proj2 (inv_head _ _ _ _ _ _ _ _ Hi) eq_refl). rewrite andb_false_r. eexists _, _, _. split; [done|]. split; [by destruct (cnt =? 0)|apply frame_refl].
  - assert (Hh : head q1 <> NULL) by (intros E; apply (inv_head _ _ _ _ _ _ _ _ Hi) in E; done). rewrite (proj2 (Z.eqb_neq _ _) Hh). cbn [negb].
    destruct (cnt =? 0) eqn:Ec; cbn [andb]; [|eexists _, _, _; split; [done|]; split; [done|apply frame_refl]].
    destruct (wake_inv None _ _ _ _ _ _ _ _ _ _ Hi) as (q' & nx & E & Hi'). rewrite E. cbn [mbind option_bind].
    destruct (IH f q' _ _ Hi' ltac:(lia)) as (q & m' & ths' & E' & Hi2 & Hfr). eexists _, _, _. split; [done|]. split; [done|]. by eapply frame_wake.
Qed.

Lemma drain_loop_inv error fuel K1 q1 l1 K2 q2 l2 m ths :
  inv K1 q1 l1 K2 q2 l2 m ths -> (length l1 < fuel)%nat ->
  exists q m' ths', drain_loop fuel error q1 m ths = Some (q, m', ths') /\ inv K1 q [] K2 q2 l2 m' ths' /\ frame l1 m ths m' ths' /\
    (forall a, a ∈ l1.*1 -> exists e, m' !! a = Some e /\ el_id e = 0 /\ el_error e = error) /\ size m' = size m.
Proof.
  revert fuel q1 m ths. induction l1 as [|[a c] l1 IH]; intros [|f] q1 m ths Hi Hf; simpl in Hf; try lia; cbn [drain_loop].
  - rewrite (proj2 (inv_head _ _ _ _ _ _ _ _ Hi) eq_refl). eexists _, _, _. split; [done|]. split; [done|]. split; [apply frame_refl|]. split; [|done]. intros b Hb. by apply not_elem_of_nil in Hb.
  - assert (Hh : head q1 <> NULL) by (intros E; apply (inv_head _ _ _ _ _ _ _ _ Hi) in E; done). rewrite (proj2 (Z.eqb_neq _ _) Hh). cbn [negb].
    destruct (wake_inv (Some error) _ _ _ _ _ _ _ _ _ _ Hi) as (q' & nx & E & Hi'). rewrite E. cbn [mbind option_bind].
    destruct (IH f q' _ _ Hi' ltac:(lia)) as (q & m' & ths' & E' & Hi2 & Hfr & Hw & Hsz). eexists _, _, _. split; [done|]. split; [done|]. split; [by eapply frame_wake|].
    destruct (qrep_elem _ _ _ a c (i_q1 _ _ _ _ _ _ _ _ Hi) ltac:(left)) as (e & He & _). split; [|rewrite Hsz; apply map_size_insert_Some; eauto].
    intros b. rewrite fmap_cons. intros Hb. apply elem_of_cons in Hb as [->|Hb]; [|by apply Hw]. destruct (decide (a ∈ l1.*1)) as [Hin|Hnin]; [by apply Hw|].
    rewrite (proj1 Hfr) by done. simpl. rewrite lookup_insert_eq. eauto.
Qed.

(** V wakes a prefix of the queue; when every thread waits for one unit, it is as
    long as the counter or the queue allows. *)
Lemma v_loop_inv fuel tmp K1 q1 l1 K2 q2 l2 m ths :
  inv K1 q1 l1 K2 q2 l2 m ths -> (length l1 < fuel)%nat ->
  exists q m' ths' w r, v_loop fuel tmp q1 m ths = Some (q, m', ths') /\ l1 = w ++ r /\ inv K1 q r K2 q2 l2 m' ths' /\ frame w m ths m' ths' /\
    (forall a, a ∈ w.*1 -> exists e, m' !! a = Some e /\ el_id e = 0 /\ el_error e = 0) /\
    (Forall (fun x => x.2 = 1) l1 -> tmp < 2 ^ 63 -> r <> [] -> tmp <= Z.of_nat (length w)).
Proof.
  assert (Hstop : forall q1 l1 m ths, inv K1 q1 l1 K2 q2 l2 m ths -> forall tmp,
    (Forall (fun x => x.2 = 1) l1 -> l1 <> [] -> tmp <= 0) -> exists q m' ths' w r, Some (q1, m, ths) = Some (q, m', ths') /\ l1 = w ++ r /\ inv K1 q r K2 q2 l2 m' ths' /\ frame w m ths m' ths' /\
    (forall a, a ∈ w.*1 -> exists e, m' !! a = Some e /\ el_id e = 0 /\ el_error e = 0) /\
    (Forall (fun x => x.2 = 1) l1 -> tmp < 2 ^ 63 -> r <> [] -> tmp <= Z.of_nat (length w))).
  { clear. intros q1 l1 m ths Hi tmp Ht. exists q1, m, ths, [], l1. do 2 (split; [done|]). split; [done|]. split; [apply frame_refl|]. split; [|intros; by apply Ht].
    intros b Hb. by apply not_elem_of_nil in Hb. }
  revert fuel tmp q1 m ths. induction l1 as [|[a c] l1 IH]; intros [|f] tmp q1 m ths Hi Hf; simpl in Hf; try lia; cbn [v_loop].
  - rewrite (proj2 (inv_head _ _ _ _ _ _ _ _ Hi) eq_refl). rewrite andb_false_r. by apply Hstop.
  - assert (Hh : head q1 <> NULL) by (intros E; apply (inv_head _ _ _ _ _ _ _ _ Hi) in E; done). rewrite (proj2 (Z.eqb_neq _ _) Hh). cbn [negb].
    destruct (Z.eqb_spec tmp 0) as [->|Hnz]; cbn [negb andb]; [apply Hstop; [done|lia]|].
    pose proof (i_q1 _ _ _ _ _ _ _ _ Hi) as Hq. rewrite (qrep_head _ _ _ _ _ Hq). destruct (qrep_elem _ _ _ a c Hq ltac:(left)) as (e & He & _ & Hc & _).
    rewrite He. cbn [mbind option_bind]. rewrite Hc. destruct (Z.ltb_spec tmp c).
    { apply Hstop; [done|]. intros Hall _. apply Forall_cons in Hall as [H1 _]. simpl in H1. lia. }
    destruct (wake_inv None _ _ _ _ _ _ _ _ _ _ Hi) as (q' & nx & E & Hi'). rewrite E. cbn [mbind option_bind].
    destruct (IH f (swrap (tmp - c)) q' _ _ Hi' ltac:(lia)) as (q & m' & ths' & w & r & E' & -> & Hi2 & Hfr & Hw & Hl). exists q, m', ths', ((a, c) :: w), r.
    do 3 (split; [done|]). split; [by eapply frame_wake|]. split.
    + intros b. rewrite fmap_cons. intros Hb. apply elem_of_cons in Hb as [->|Hb]; [|by apply Hw]. destruct (decide (a ∈ w.*1)) as [Hin|Hnin]; [by apply Hw|].
      rewrite (proj1 Hfr) by done. simpl. rewrite lookup_insert_eq. eauto.
    + intros Hall Ht Hr. apply Forall_cons in Hall as [H1 Hall]. simpl in H1. subst c. rewrite swrap_small in Hl by lia. specialize (Hl Hall ltac:(lia) Hr). simpl length. lia.
Qed.

(** ** Steps of the system *)

Definition good (s : t) (nl zl : list (Z * Z)) : Prop := inv KP (neg s) nl (fun _ => KZ) (zero s) zl (els s) (threads s).

Lemma good_fuel s nl zl : good s nl zl -> (length nl < fuel s)%nat /\ (length zl < fuel s)%nat.
Proof.
  intros Hi. pose proof (qrep_length _ _ _ (i_q1 _ _ _ _ _ _ _ _ Hi)). pose proof (qrep_length _ _ _ (i_q2 _ _ _ _ _ _ _ _ Hi)). unfold fuel. lia.
Qed.

(** The units for which a thread is about to try. *)
Definition wants (p : PC) : option Z := match p with Retry (KP c) | Held (OpP c) => Some c | _ => None end.

(** A thread that tries to take units next: it has been woken from P, without an error,
    and has not retried, or is in P with the lock. *)
Definition pend (m : gmap Z Element) (ths : gmap Z thread) (b : Z) : Prop :=
  exists x c, ths !! b = Some x /\
    (wants (pc x) = Some c \/ waits x (KP c) /\ exists e, m !! b = Some e /\ el_id e = 0 /\ el_error e = 0).

Lemma pend_mono m ths m' ths' b :
  pend m ths b -> pc <$> ths' !! b = pc <$> ths !! b ->
  (forall e, m !! b = Some e -> el_id e = 0 -> exists e', m' !! b = Some e' /\ el_id e' = 0 /\ el_error e' = el_error e) -> pend m' ths' b.
Proof.
  intros (x & c & Hx & R) Hp He. rewrite Hx in Hp. destruct (ths' !! b) as [x'|] eqn:Hx'; [|done]. cbn in Hp. injection Hp as Hp.
  exists x', c. split; [done|]. unfold waits. rewrite Hp. destruct R as [R|(Hw & e & Hb & Hi & Hr)]; [by left|right]. split; [done|].
  destruct (He e Hb Hi) as (e' & He' & Hi' & Hr'). exists e'. split; [done|]. split; [done|congruence].
Qed.

Lemma pend_frame l K1 q1 l1 K2 q2 l2 m ths m' ths' b :
  inv K1 q1 l1 K2 q2 l2 m ths -> frame l m ths m' ths' -> (forall a, a ∈ l.*1 -> a ∈ l1.*1 \/ a ∈ l2.*1) -> pend m ths b -> pend m' ths' b.
Proof.
  intros Hi [Hm Ht] Hl Hp. apply (pend_mono m ths); [done|apply Ht|]. intros e He H0. destruct (cleared_off _ _ _ _ _ _ _ _ b e Hi He H0) as [Hn1 Hn2].
  exists e. split; [|done]. rewrite Hm; [done|]. intros Hb. by destruct (Hl b Hb).
Qed.

(** As many threads are on their way back to the counter as it has units, as long
    as any thread waits for one. *)
Definition awake (s : t) (nl : list (Z * Z)) : Prop :=
  nl <> [] -> exists W : gset Z, (forall b, b ∈ W -> pend (els s) (threads s) b) /\ counter s <= Z.of_nat (size W).

(** Every wait is for one unit. *)
Definition units (ths : gmap Z thread) : Prop :=
  forall a x c, ths !! a = Some x -> waits x (KP c) \/ wants (pc x) = Some c -> c = 1.

Lemma units_counts s nl zl : good s nl zl -> units (threads s) -> Forall (fun x => x.2 = 1) nl.
Proof.
  intros Hi Hu. apply Forall_forall. intros [a c] Hin. destruct (i_pc1 _ _ _ _ _ _ _ _ Hi a c Hin) as (x & Hx & Hw). apply (Hu a x c Hx). by left.
Qed.

Lemma units_frame l m ths m' ths' : frame l m ths m' ths' -> units ths -> units ths'.
Proof.
  intros [_ Ht] Hu a x c Hx Hw. specialize (Ht a). rewrite Hx in Ht. destruct (ths !! a) as [y|] eqn:Hy; [|done]. cbn in Ht. injection Ht as Ht.
  apply (Hu a y c Hy). unfold waits in *. by rewrite <- Ht.
Qed.

Lemma units_insert a x ths : units ths -> (forall c, waits x (KP c) \/ wants (pc x) = Some c -> c = 1) -> units (<[a := x]> ths).
Proof. intros Hu Hx b y c. rewrite lookup_insert_Some. intros [[_ <-]|[_ Hy]] Hw; [by apply Hx|by apply (Hu b y c)]. Qed.

Lemma frame_lookup l m ths m' ths' a x : frame l m ths m' ths' -> ths !! a = Some x -> exists x', ths' !! a = Some x' /\ pc x' = pc x.
Proof. intros [_ Ht] Hx. specialize (Ht a). rewrite Hx in Ht. destruct (ths' !! a) as [x'|]; [|done]. cbn in Ht. injection Ht as Ht. eauto. Qed.

(** The state after a step: the queues are in order, and wake-ups are pending. *)
Definition inv_state (s : t) : Prop :=
  - 2 ^ 63 <= counter s < 2 ^ 63 /\ exists nl zl, good s nl zl /\ units (threads s) /\ awake s nl.

Lemma swrap_range x : - 2 ^ 63 <= swrap x < 2 ^ 63.
Proof. unfold swrap. pose proof (Z.mod_pos_bound (x + 2 ^ 63) (2 ^ 64) ltac:(lia)). lia. Qed.

Lemma size_minus_one (W : gset Z) a : Z.of_nat (size W) - 1 <= Z.of_nat (size (W ∖ {[a]})).
Proof.
  rewrite size_difference_alt. pose proof (subseteq_size (W ∩ {[a]}) {[a]} ltac:(set_solver)) as H. rewrite size_singleton in H. lia.
Qed.

Definition not_waiting (p : PC) : Prop := match p with Check _ | Blocked _ => False | _ => True end.

Lemma not_waiting_waits x k : not_waiting (pc x) -> ~ waits x k.
Proof. unfold waits. intros H [E|E]; rewrite E in H; done. Qed.

(** ** Errors *)

(** Every error of [m'] is 0, [e], or was there. *)
Definition errs_from (e : Z) (m m' : gmap Z Element) : Prop :=
  forall b x, m' !! b = Some x -> el_error x = 0 \/ el_error x = e \/ exists y, m !! b = Some y /\ el_error x = el_error y.

Lemma errs_refl e m : errs_from e m m.
Proof. intros b x Hx. right. right. eauto. Qed.

Lemma errs_trans e m1 m2 m3 : errs_from e m1 m2 -> errs_from e m2 m3 -> errs_from e m1 m3.
Proof.
  intros H1 H2 b x Hx. destruct (H2 b x Hx) as [E|[E|(y & Hy & E)]]; [tauto|tauto|]. destruct (H1 b y Hy) as [E'|[E'|(z & Hz & E')]]; [left; congruence|right; left; congruence|].
  right; right. exists z. split; [done|congruence].
Qed.

Lemma errs_wake err e q m ths q' m' ths' : default 0 err = 0 \/ default 0 err = e -> wake_first err q m ths = Some (q', m', ths') -> errs_from e m m'.
Proof.
  unfold wake_first. destruct (m !! head q) as [el|] eqn:He; [|done]. cbn [mbind option_bind]. intros Herr [= <- <- <-] b x. rewrite lookup_insert_Some. intros [[<- <-]|[_ Hx]]; [|right; right; eauto].
  cbn [el_error]. destruct err as [e'|]; cbn in *; [tauto|]. right; right. eauto.
Qed.

Lemma errs_zero e f cnt : forall q m ths q' m' ths', zero_loop f cnt q m ths = Some (q', m', ths') -> errs_from e m m'.
Proof.
  induction f as [|f IH]; intros q m ths q' m' ths'; [done|]. cbn [zero_loop]. destruct (_ && _); [|intros [= <- <- <-]; apply errs_refl].
  destruct (wake_first None q m ths) as [[[q1 m1] ths1]|] eqn:E; [|done]. cbn [mbind option_bind]. intros H. eapply errs_trans; [eapply errs_wake, E; by left|by eapply IH].
Qed.

Lemma errs_v e f : forall tmp q m ths q' m' ths', v_loop f tmp q m ths = Some (q', m', ths') -> errs_from e m m'.
Proof.
  induction f as [|f IH]; intros tmp q m ths q' m' ths'; [done|]. cbn [v_loop]. destruct (_ && _); [|intros [= <- <- <-]; apply errs_refl].
  destruct (m !! head q) as [el|]; [|done]. cbn [mbind option_bind]. destruct (tmp <? el_count el); [intros [= <- <- <-]; apply errs_refl|].
  destruct (wake_first None q m ths) as [[[q1 m1] ths1]|] eqn:E; [|done]. cbn [mbind option_bind]. intros H. eapply errs_trans; [eapply errs_wake, E; by left|by eapply IH].
Qed.

Lemma errs_drain e f : forall q m ths q' m' ths', drain_loop f e q m ths = Some (q', m', ths') -> errs_from e m m'.
Proof.
  induction f as [|f IH]; intros q m ths q' m' ths'; [done|]. cbn [drain_loop]. destruct (negb _); [|intros [= <- <- <-]; apply errs_refl].
  destruct (wake_first (Some e) q m ths) as [[[q1 m1] ths1]|] eqn:E; [|done]. cbn [mbind option_bind]. intros H. eapply errs_trans; [eapply errs_wake, E; by right|by eapply IH].
Qed.

Lemma errs_enqueue e q m a c q' m' : enqueue q m a (mkEl NULL a c 0) = Some (q', m') -> errs_from e m m'.
Proof.
  unfold enqueue. assert (H1 : errs_from e m (<[a := mkEl NULL a c 0]> m)) by (intros b x; rewrite lookup_insert_Some; intros [[<- <-]|[_ Hx]]; [by left|right; right; eauto]).
  destruct (tail q) as [| |u]; [intros [= <- <-]; done|intros [= <- <-]; done|]. destruct (_ !! u) as [el|] eqn:Eu; [|done]. cbn [mbind option_bind]. intros [= <- <-].
  eapply errs_trans; [exact H1|]. intros b x. rewrite lookup_insert_Some. intros [[<- <-]|[_ Hx]]; right; right; eauto.
Qed.

(** ** The sections under the lock *)

(** Thread [a] moves to [p], and no other thread moves. *)
Definition moves (a : Z) (p : PC) (ths ths' : gmap Z thread) : Prop :=
  forall b, pc <$> ths' !! b = if decide (b = a) then Some p else pc <$> ths !! b.

Lemma moves_set_pc a p (ths ths' : gmap Z thread) x (l : list (Z * Z)) (m m' : gmap Z Element) : frame l m ths m' ths' -> ths !! a = Some x -> moves a p ths (set_pc a p ths').
Proof.
  intros [_ Ht] Hx b. rewrite set_pc_lookup. specialize (Ht b). destruct (decide (a = b)) as [<-|Hne]; [rewrite decide_True by done|by rewrite decide_False by congruence].
  rewrite Hx in Ht. by destruct (ths' !! a).
Qed.

Lemma moves_here a p (ths : gmap Z thread) x : ths !! a = Some x -> moves a p ths (set_pc a p ths).
Proof. intros Hx. eapply (moves_set_pc a p ths ths x [] ∅ ∅); [apply frame_refl|done]. Qed.

Section sections.
Context (s : t) (a : Z) (x : thread) (nl zl : list (Z * Z)).
Hypothesis Hr : - 2 ^ 63 <= counter s < 2 ^ 63.
Hypothesis Hi : good s nl zl.
Hypothesis Hu : units (threads s).
Hypothesis Ha : awake s nl.
Hypothesis Hx : threads s !! a = Some x.

Lemma P_body_inv :
  not_waiting (pc x) ->
  exists s' lk p, P_body s (Some a) a 1 = Some (s', lk) /\ inv_state s' /\ counter s' = (if counter s <? 1 then counter s else counter s - 1) /\
    (p = Check (KP 1) /\ lk = None \/ p = Leave 0 /\ lk = Some a) /\ moves a p (threads s) (threads s') /\ forall e, errs_from e (els s) (els s').
Proof.
  intros Hn. pose proof (fun k => not_waiting_waits x k Hn) as Hnw. unfold P_body. destruct (Z.ltb_spec (counter s) 1) as [Hlt|Hge].
  - destruct (enqueue_inv _ _ _ _ _ _ _ _ a x 1 Hi Hx Hnw) as (q & m & E & Hi' & _ & _). rewrite E. cbn [mbind option_bind]. unfold release. rewrite bool_decide_eq_true_2 by done. cbn [mbind option_bind].
    eexists _, None, (Check (KP 1)). split; [done|]. split; [|split; [done|]; split; [by left|]; split; [by apply (moves_here a _ _ x)|intros e; by eapply errs_enqueue]].
    split; [done|]. exists (nl ++ [(a, 1)]), zl. split; [done|]. cbn [threads els counter]. split.
    + rewrite (set_pc_insert a _ _ x Hx). apply units_insert; [done|]. intros c [[E1|E1]|E1]; cbn in E1; congruence.
    + intros _. exists ∅. split; [intros b Hb; by apply not_elem_of_empty in Hb|]. cbn [counter]. rewrite size_empty. lia.
  - destruct (zero_loop_inv (swrap (counter s - 1)) (fuel s) _ _ _ _ _ _ _ _ (inv_swap _ _ _ _ _ _ _ _ Hi)) as (q & m & ths & E & Hi' & Hfr); [apply (good_fuel s nl zl Hi)|].
    rewrite E. cbn [mbind option_bind]. eexists _, (Some a), (Leave 0). split; [done|]. cbn [counter]. split; [|split; [apply swrap_small; lia|]; split; [by right|]; split; [by eapply moves_set_pc|intros e; by eapply errs_zero]].
    destruct (frame_lookup _ _ _ _ _ a x Hfr Hx) as (x' & Hx' & Ep). split; [apply swrap_range|].
    exists nl, (if swrap (counter s - 1) =? 0 then [] else zl). split; [|split]; cbn [threads els counter neg zero].
    + apply inv_swap, (idle_inv _ _ _ _ _ _ _ _ a x'); [done|done| |]; intros; apply not_waiting_waits; [by rewrite Ep|done].
    + rewrite (set_pc_insert a _ _ x' Hx'). apply units_insert; [by eapply units_frame|]. intros c [[E1|E1]|E1]; cbn in E1; congruence.
    + intros Hnl. destruct (Ha Hnl) as (W & HW & Hsz). exists (W ∖ {[a]}). cbn [counter els threads]. split.
      * intros b Hb. apply elem_of_difference in Hb as [Hb Hne]. rewrite elem_of_singleton in Hne.
        assert (Hp : pend m ths b). { eapply (pend_frame zl); [exact (inv_swap _ _ _ _ _ _ _ _ Hi)|done|by left|by apply HW]. }
        apply (pend_mono m ths); [done| |eauto]. rewrite set_pc_lookup, decide_False by congruence. done.
      * pose proof (size_minus_one W a). rewrite swrap_small by lia. lia.
Qed.

(** A step of a thread that leaves the counter and the queues, and whose thread is
    still awake if it was. *)
Lemma local_step m x' :
  inv KP (neg s) nl (fun _ => KZ) (zero s) zl m (<[a := x']> (threads s)) ->
  (forall b, b <> a -> m !! b = els s !! b) -> (forall c, waits x' (KP c) \/ wants (pc x') = Some c -> c = 1) ->
  (pend (els s) (threads s) a -> pend m (<[a := x']> (threads s)) a) ->
  inv_state (mkS (counter s) (neg s) (zero s) m (<[a := x']> (threads s))).
Proof.
  intros Hi2 Hm Hx' Hp. split; [done|]. exists nl, zl. split; [done|]. split; [by apply units_insert|].
  intros Hnl. destruct (Ha Hnl) as (W & HW & Hsz). exists W. split; [|done]. intros b Hb. specialize (HW b Hb). cbn [els threads].
  destruct (decide (b = a)) as [->|Hne]; [by apply Hp|]. apply (pend_mono (els s) (threads s)); [done|by rewrite lookup_insert_ne|].
  intros e He H0. exists e. by rewrite Hm.
Qed.

Lemma not_pend_idle m : not_waiting (pc x) -> wants (pc x) = None -> ~ pend m (threads s) a.
Proof.
  intros Hn Hw (y & c & Hy & R). rewrite Hx in Hy. injection Hy as <-. destruct R as [R|[R _]]; [congruence|by destruct (not_waiting_waits x (KP c))].
Qed.

(** A thread that does not wait goes on to another place. *)
Lemma move_step p :
  not_waiting (pc x) -> not_waiting p -> (forall c, wants p = Some c -> c = 1) -> (forall c, wants (pc x) = Some c -> wants p <> None) ->
  inv_state (set_threads s (set_pc a p (threads s))) /\ moves a p (threads s) (set_pc a p (threads s)).
Proof.
  intros Hn Hp Hw Hk. split; [|by apply (moves_here a _ _ x)]. unfold set_threads. rewrite (set_pc_insert a _ _ x Hx). eapply local_step; try done.
  - rewrite <- (set_pc_insert a _ _ x Hx). eapply idle_inv; try done; intros; by apply not_waiting_waits.
  - intros c [Hwt|Hc]; [by destruct (not_waiting_waits (mkTh p (token x)) (KP c))|by apply Hw].
  - intros (y & c & Hy & R). rewrite Hx in Hy. injection Hy as <-. destruct R as [R|[R _]]; [|by destruct (not_waiting_waits x (KP c))].
    destruct (wants p) as [c'|] eqn:E; [|by destruct (Hk c R)]. exists (mkTh p (token x)), c'. rewrite lookup_insert_eq. split; [done|by left].
Qed.

Lemma Z_body_inv :
  not_waiting (pc x) -> wants (pc x) = None ->
  exists s' lk p, Z_body s (Some a) a = Some (s', lk) /\ inv_state s' /\ counter s' = counter s /\
    (p = Check KZ /\ lk = None \/ p = Leave 0 /\ lk = Some a) /\ moves a p (threads s) (threads s') /\ forall e, errs_from e (els s) (els s').
Proof.
  intros Hn Hnr. pose proof (fun k => not_waiting_waits x k Hn) as Hnw. unfold Z_body. destruct (counter s =? 0); cbn [negb].
  - destruct (move_step (Leave 0) Hn I ltac:(done) ltac:(congruence)) as [Hinv Hmv]. eexists _, (Some a), (Leave 0). split; [done|]. split; [exact Hinv|]. split; [done|]. split; [by right|]. split; [done|]. intros e. apply errs_refl.
  - destruct (enqueue_inv _ _ _ _ _ _ _ _ a x 0 (inv_swap _ _ _ _ _ _ _ _ Hi) Hx Hnw) as (q & m & E & Hi' & _ & Hpay). rewrite E. cbn [mbind option_bind]. unfold release. rewrite bool_decide_eq_true_2 by done. cbn [mbind option_bind].
    eexists _, None, (Check KZ). split; [done|]. split; [|split; [done|]; split; [by left|]; split; [by apply (moves_here a _ _ x)|intros e; by eapply errs_enqueue]].
    split; [done|]. exists nl, (zl ++ [(a, 0)]). split; [by apply inv_swap|]. cbn [threads els counter]. split.
    + rewrite (set_pc_insert a _ _ x Hx). apply units_insert; [done|]. intros c [[E1|E1]|E1]; cbn in E1; congruence.
    + intros Hnl. destruct (Ha Hnl) as (W & HW & Hsz). exists W. split; [|done]. intros b Hb. specialize (HW b Hb). cbn [els threads].
      assert (Hne : b <> a) by (intros ->; by apply (not_pend_idle (els s))).
      apply (pend_mono (els s) (threads s)); [done|by rewrite set_pc_lookup, decide_False by congruence|].
      intros e He H0. destruct (Hpay b e He) as (e' & He' & Ep). exists e'. split; [done|]. unfold payload, el_linked in Ep. injection Ep as -> _ ->. done.
Qed.

End sections.

(** The operations that only wake others. *)
Lemma V_inv s c nl zl :
  good s nl zl -> units (threads s) ->
  exists s', V s c = Some s' /\ inv_state s' /\ counter s' = swrap (counter s + c) /\ (forall b, pc <$> threads s' !! b = pc <$> threads s !! b) /\ forall e, errs_from e (els s) (els s').
Proof.
  intros Hi Hu. unfold V. destruct (v_loop_inv (fuel s) (swrap (counter s + c)) _ _ _ _ _ _ _ _ Hi) as (q & m & ths & w & r & E & -> & Hi' & Hfr & Hw & Hl); [apply (good_fuel s nl zl Hi)|].
  rewrite E. cbn [mbind option_bind]. eexists. split; [done|]. split; [|split; [done|]; split; [apply Hfr|intros e; by eapply errs_v]]. split; [apply swrap_range|]. exists r, zl. split; [done|]. split; [by eapply units_frame|].
  intros Hr. pose proof (units_counts s _ _ Hi Hu) as Hall. specialize (Hl Hall ltac:(apply swrap_range) Hr).
  assert (Hnd : NoDup w.*1). { destruct (i_q1 _ _ _ _ _ _ _ _ Hi) as [Hc _]. apply chain_nodup in Hc. rewrite pl_fst, fmap_app in Hc. by apply NoDup_app in Hc as [? _]. }
  exists (list_to_set w.*1). cbn [els threads counter]. split; [|rewrite size_list_to_set, length_fmap by done; done].
  intros b Hb. apply elem_of_list_to_set in Hb. pose proof Hb as Hb'. apply list_elem_of_fmap in Hb' as ([b' d] & E' & Hin). simpl in E'. subst b'.
  destruct (i_pc1 _ _ _ _ _ _ _ _ Hi b d ltac:(apply elem_of_app; by left)) as (x & Hx & Hwx). destruct (frame_lookup _ _ _ _ _ b x Hfr Hx) as (x' & Hx' & Ep).
  exists x', d. split; [done|]. right. split; [unfold waits; by rewrite Ep|]. by apply Hw.
Qed.

Lemma wakeup_inv s e nl zl :
  - 2 ^ 63 <= counter s < 2 ^ 63 -> good s nl zl -> units (threads s) ->
  exists s', wakeup s e = Some s' /\ inv_state s' /\ counter s' = counter s /\ (forall b, pc <$> threads s' !! b = pc <$> threads s !! b) /\ errs_from e (els s) (els s').
Proof.
  intros Hr Hi Hu. destruct (good_fuel s nl zl Hi) as [Hf1 Hf2]. unfold wakeup.
  destruct (drain_loop_inv e (fuel s) _ _ _ _ _ _ _ _ (inv_swap _ _ _ _ _ _ _ _ Hi) Hf2) as (q & m & ths & E & Hi' & Hfr & _ & _). rewrite E. cbn [mbind option_bind].
  destruct (drain_loop_inv e (fuel s) _ _ _ _ _ _ _ _ (inv_swap _ _ _ _ _ _ _ _ Hi') Hf1) as (q2 & m2 & ths2 & E2 & Hi2 & Hfr2 & _ & _). rewrite E2. cbn [mbind option_bind].
  eexists. split; [done|]. split; [|split; [done|]; split].
  - split; [done|]. exists [], []. split; [done|]. split; [exact (units_frame _ _ _ _ _ Hfr2 (units_frame _ _ _ _ _ Hfr Hu))|by intros []].
  - intros b. cbn [threads]. by rewrite (proj2 Hfr2), (proj2 Hfr).
  - cbn [els]. eapply errs_trans; by eapply errs_drain.
Qed.

(** The caller is at the release of the lock. *)
Lemma returns_inv s a x ths0 : inv_state s -> threads s !! a = Some x -> not_waiting (pc x) -> wants (pc x) = None -> (forall b, pc <$> threads s !! b = pc <$> ths0 !! b) ->
  inv_state (returns a s) /\ moves a (Leave 0) ths0 (threads (returns a s)).
Proof.
  intros (Hr & nl & zl & Hi & Hu & Ha) Hx Hn Hw He. destruct (move_step s a x nl zl Hr Hi Hu Ha Hx (Leave 0) Hn I ltac:(done) ltac:(congruence)) as [H1 H2]. split; [exact H1|].
  intros b. specialize (H2 b). unfold returns. cbn [threads]. rewrite H2. destruct (decide (b = a)); [done|apply He].
Qed.

(** Units are taken and waited for one at a time, and set is not used; a caller that
    releases the lock after an error is not given one. *)
Definition unit_op (careful : bool) (o : op) : bool :=
  match o with OpP n | OpTryP n => n =? 1 | OpV n => 0 <=? n | OpSet _ => false | OpZ => true | OpWakeup e => careful || (e =? 0) end.

Lemma section_inv careful s a x o :
  inv_state s -> threads s !! a = Some x -> pc x = Held o -> unit_op careful o = true ->
  exists s' lk n p, section s (Some a) a o = Some (s', lk, n) /\ inv_state s' /\
    counter s' = match o with OpV v => swrap (counter s + v) | _ => counter s - n end /\ (0 <= counter s -> n <= counter s) /\
    match o with OpV v => n = - v | _ => 0 <= n end /\
    ((exists k, p = Check k /\ (forall c, k = KP c -> c = 1)) /\ lk = None \/ p = Leave 0 /\ lk = Some a) /\ moves a p (threads s) (threads s') /\
    (careful = true \/ errs_from 0 (els s) (els s')).
Proof.
  intros Hinv Hx Ep Hc. pose proof Hinv as (Hr & nl & zl & Hi & Hu & Ha). assert (Hn : not_waiting (pc x)) by by rewrite Ep. unfold section. destruct o as [n| |n|n|e|v]; cbn [unit_op] in Hc; bool_props; subst; [| | | | |done].
  - destruct (P_body_inv s a x nl zl Hr Hi Hu Ha Hx Hn) as (s' & lk & p & -> & Hi' & Hcnt & Hp & Hm & He). cbn [mbind option_bind]. eexists s', lk, _, p. split; [done|]. split; [done|].
    rewrite Hcnt. destruct (Z.ltb_spec (counter s) 1); (split; [lia|]; split; [lia|]; split; [lia|]; split; [|split; [done|by right]]);
      (destruct Hp as [[-> ->]|[-> ->]]; [left; split; [exists (KP 1); split; [done|congruence]|done]|by right]).
  - destruct (Z_body_inv s a x nl zl Hr Hi Hu Ha Hx Hn) as (s' & lk & p & -> & Hi' & Hcnt & Hp & Hm & He); [by rewrite Ep|]. cbn [mbind option_bind]. eexists s', lk, 0, p. split; [done|]. split; [done|].
    split; [lia|]. split; [lia|]. split; [lia|]. split; [|split; [done|by right]]. destruct Hp as [[-> ->]|[-> ->]]; [left; split; [exists KZ; split; [done|congruence]|done]|by right].
  - assert (Ht : exists r, tryP s 1 = (r, mkS (counter s - r) (neg s) (zero s) (els s) (threads s)) /\ 0 <= r <= 1 /\ (0 <= counter s -> r <= counter s) /\ (r = 1 -> 1 <= counter s)).
    { unfold tryP. destruct (Z.ltb_spec (counter s) 1); [exists 0|exists 1]; (split; [|lia]).
      - rewrite Z.sub_0_r. by destruct s.
      - rewrite swrap_small by lia. done. }
    destruct Ht as (r & -> & Hr1 & Hr2 & Hr3). cbv beta iota.
    destruct (returns_inv (mkS (counter s - r) (neg s) (zero s) (els s) (threads s)) a x (threads s)) as [Hi' Hm]; try done; [|by rewrite Ep|].
    { split; [cbn [counter]; lia|]. exists nl, zl. split; [done|]. split; [done|]. intros Hnl. destruct (Ha Hnl) as (W & HW & Hsz). exists W. split; [done|]. cbn [counter]. lia. }
    eexists _, _, _, (Leave 0). split; [done|]. split; [done|]. cbn [returns counter]. split; [lia|]. split; [lia|]. split; [lia|]. split; [by right|]. split; [done|]. right. apply errs_refl.
  - destruct (V_inv s n nl zl Hi Hu) as (s1 & -> & Hi1 & Hcnt & Ht & He). cbn [mbind option_bind].
    assert (Hx1 : exists x1, threads s1 !! a = Some x1 /\ pc x1 = pc x) by (specialize (Ht a); rewrite Hx in Ht; destruct (threads s1 !! a) as [x1|]; [|done]; cbn in Ht; injection Ht as Ht; eauto).
    destruct Hx1 as (x1 & Hx1 & Ep1). destruct (returns_inv s1 a x1 (threads s) Hi1 Hx1) as [Hi' Hm]; [by rewrite Ep1, Ep|by rewrite Ep1, Ep|done|].
    eexists _, _, _, (Leave 0). split; [done|]. split; [done|]. cbn [returns counter]. split; [done|]. split; [lia|]. split; [done|]. split; [by right|]. split; [done|]. right. apply He.
  - destruct (wakeup_inv s e nl zl Hr Hi Hu) as (s1 & -> & Hi1 & Hcnt & Ht & He). cbn [mbind option_bind].
    assert (Hx1 : exists x1, threads s1 !! a = Some x1 /\ pc x1 = pc x) by (specialize (Ht a); rewrite Hx in Ht; destruct (threads s1 !! a) as [x1|]; [|done]; cbn in Ht; injection Ht as Ht; eauto).
    destruct Hx1 as (x1 & Hx1 & Ep1). destruct (returns_inv s1 a x1 (threads s) Hi1 Hx1) as [Hi' Hm]; [by rewrite Ep1, Ep|by rewrite Ep1, Ep|done|].
    eexists _, _, 0, (Leave 0). split; [done|]. split; [done|]. cbn [returns counter]. split; [lia|]. split; [lia|]. split; [lia|]. split; [by right|]. split; [done|].
    apply orb_true_iff in Hc as [->|E0]; [by left|right]. apply Z.eqb_eq in E0 as ->. exact He.
Qed.

(** ** Waiting *)

Lemma check_inv s a x k :
  inv_state s -> threads s !! a = Some x -> pc x = Check k ->
  exists s' p, check s a k = Some s' /\ inv_state s' /\ counter s' = counter s /\ moves a p (threads s) (threads s') /\
    (p = Blocked k \/ p = Retry k \/ exists e, els s !! a = Some e /\ p = Leave (el_error e) /\ el_error e <> 0) /\ forall b e, els s' !! b = Some e -> els s !! b = Some e.
Proof.
  intros (Hr & nl & zl & Hi & Hu & Ha) Hx Ep. unfold check. destruct (i_wait _ _ _ _ _ _ _ _ Hi a x k Hx ltac:(by left)) as (e & Hel & _). rewrite Hel. cbn [mbind option_bind].
  destruct (Z.eqb_spec (el_id e) 0) as [H0|H0]; cbn [negb].
  - set (p := if el_error e =? 0 then Retry k else Leave (el_error e)). assert (Hq : not_waiting p) by (unfold p; by destruct (el_error e =? 0)).
    eexists _, p. split; [done|]. split; [|split; [done|]; split; [by apply (moves_here a p _ x)|]; split].
    + rewrite (set_pc_insert a _ _ x Hx). apply (local_step s a nl zl Hr Hu Ha).
      * rewrite <- (set_pc_insert a _ _ x Hx). eapply leave_inv; try done. intros b k'. by apply not_waiting_waits.
      * intros b Hb. by rewrite lookup_delete_ne.
      * intros c [Hw|Hw]; [by destruct (not_waiting_waits (mkTh p (token x)) (KP c))|]. cbn [pc] in Hw. unfold p in Hw. destruct (el_error e =? 0); [|done]. destruct k as [c'|]; [|done]. injection Hw as ->.
        apply (Hu a x c Hx). by left; left.
      * intros (y & c & Hy & R). rewrite Hx in Hy. injection Hy as <-. destruct R as [R|[[R|R] (e2 & He2 & _ & Hr2)]]; [by rewrite Ep in R| |congruence].
        rewrite Hel in He2. injection He2 as <-. eexists _, c. rewrite lookup_insert_eq. split; [done|]. left. cbn [pc]. unfold p. rewrite Hr2. assert (k = KP c) as -> by congruence. done.
    + unfold p. destruct (Z.eqb_spec (el_error e) 0); [by right; left|]. right; right. by exists e.
    + intros b e'. cbn [els]. rewrite lookup_delete_Some. tauto.
  - eexists _, (Blocked k). split; [done|]. split; [|split; [done|]; split; [by apply (moves_here a _ _ x)|]; split; [by left|done]]. rewrite (set_pc_insert a _ _ x Hx).
    apply (local_step s a nl zl Hr Hu Ha); try done.
    + eapply (wait_inv _ _ _ _ _ _ _ _ a x _ k); try done; [by left|by right|]. intros _. eauto.
    + intros c [[E|E]|E]; cbn in E; try congruence. injection E as ->. apply (Hu a x c Hx). by left; left.
    + intros (y & c & Hy & R). rewrite Hx in Hy. injection Hy as <-. destruct R as [R|[_ (e2 & He2 & Hi2 & _)]]; [by rewrite Ep in R|]. congruence.
Qed.

Lemma wake_step_inv s a x k :
  inv_state s -> threads s !! a = Some x -> pc x = Blocked k ->
  inv_state (set_threads s (<[a := mkTh (Check k) false]> (threads s))) /\ moves a (Check k) (threads s) (<[a := mkTh (Check k) false]> (threads s)).
Proof.
  intros (Hr & nl & zl & Hi & Hu & Ha) Hx Ep. split.
  - apply (local_step s a nl zl Hr Hu Ha); try done.
    + eapply (wait_inv _ _ _ _ _ _ _ _ a x _ k); try done; [by right|by left].
    + intros c [[E|E]|E]; cbn in E; try congruence. injection E as ->. apply (Hu a x c Hx). by left; right.
    + intros (y & c & Hy & R). rewrite Hx in Hy. injection Hy as <-. destruct R as [R|[[R|R] R2]]; [by rewrite Ep in R|congruence|].
      eexists _, c. rewrite lookup_insert_eq. split; [done|]. right. split; [left; cbn; congruence|done].
  - intros b. destruct (decide (b = a)) as [->|Hne]; [by rewrite lookup_insert_eq|by rewrite lookup_insert_ne].
Qed.

(** ** Steps *)

Section caller.
Context (careful : bool).

(** The thread has the lock. *)
Definition inside (p : PC) : bool := match p with Held _ => true | Leave rc => rc =? 0 | _ => false end.

(** The lock is had by the one thread inside; every operation under way is allowed; and
    a caller that is not careful has no error to come. *)
Record sysInv (s : sys) : Prop := {
  y_sem : inv_state (sem s);
  y_lock : forall a, lock s = Some a <-> exists p, pc <$> threads (sem s) !! a = Some p /\ inside p = true;
  y_ops : forall a o, pc <$> threads (sem s) !! a = Some (Held o) -> unit_op careful o = true;
  y_errs : careful = true \/ (forall a e, els (sem s) !! a = Some e -> el_error e = 0) /\ (forall a rc, pc <$> threads (sem s) !! a = Some (Leave rc) -> rc = 0);
}.

(** A thread moves to [p] while the lock is free, or is its own. *)
Lemma sysInv_move s s' lk a p :
  sysInv s -> inv_state s' -> moves a p (threads (sem s)) (threads s') ->
  (forall b, lock s = Some b -> b = a) -> lk = (if inside p then Some a else None) -> (forall o, p = Held o -> unit_op careful o = true) ->
  (careful = true \/ (forall b e, els s' !! b = Some e -> el_error e = 0) /\ (forall rc, p = Leave rc -> rc = 0)) ->
  sysInv (mkSys s' lk).
Proof.
  intros [H1 H2 H3 H4] Hi Hm Hl -> Ho He. split; cbn [sem lock].
  - done.
  - intros b. destruct (decide (b = a)) as [->|Hne].
    + rewrite Hm, decide_True by done. destruct (inside p) eqn:E; [split; [intros _; by exists p|done]|]. split; [done|]. intros (q & [= <-] & Hq). congruence.
    + rewrite Hm, decide_False by done. split; [by destruct (inside p); congruence|]. intros Hb. apply H2, Hl in Hb. done.
  - intros b o. rewrite Hm. destruct (decide (b = a)) as [->|]; [intros [= ->]; by apply Ho|apply H3].
  - destruct He as [?|[He1 He2]]; [by left|]. destruct H4 as [?|[_ H5]]; [by left|]. right. split; [done|]. intros b rc. rewrite Hm. destruct (decide (b = a)) as [->|]; [intros [= ->]; by apply He2|apply H5].
Qed.

(** A thread without the lock moves, and does not get it. *)
Lemma sysInv_stay s s' a x p :
  sysInv s -> threads (sem s) !! a = Some x -> inside (pc x) = false -> inv_state s' -> moves a p (threads (sem s)) (threads s') -> inside p = false -> (forall o, p <> Held o) ->
  (careful = true \/ (forall b e, els s' !! b = Some e -> el_error e = 0) /\ (forall rc, p = Leave rc -> rc = 0)) ->
  sysInv (mkSys s' (lock s)).
Proof.
  intros [H1 H2 H3 H4] Hx Hin Hi Hm Hp Ho He. split; cbn [sem lock].
  - done.
  - intros b. rewrite H2, Hm. destruct (decide (b = a)) as [->|]; [|done]. rewrite Hx. cbn. split; intros (q & [= <-] & Hq); congruence.
  - intros b o. rewrite Hm. destruct (decide (b = a)) as [->|]; [intros [= ->]; by destruct (Ho o)|apply H3].
  - destruct He as [?|[He1 He2]]; [by left|]. destruct H4 as [?|[_ H5]]; [by left|]. right. split; [done|]. intros b rc. rewrite Hm. destruct (decide (b = a)) as [->|]; [intros [= ->]; by apply He2|apply H5].
Qed.

Definition unit_cmd (c : cmd) : bool := match c with Call o => unit_op careful o | Go => true end.

(** The units that an operation gives, and those that the operation under way will give. *)
Definition gives (o : op) : Z := match o with OpV v => v | _ => 0 end.
Definition owed (s : sys) : Z :=
  match lock s with Some h => match pc <$> threads (sem s) !! h with Some (Held o) => gives o | _ => 0 end | None => 0 end.

Lemma acquire_inv s a x o :
  sysInv s -> threads (sem s) !! a = Some x -> not_waiting (pc x) -> unit_op careful o = true -> (forall c, wants (pc x) = Some c -> o = OpP c) ->
  (forall c, o = OpP c -> c = 1) ->
  match acquire s a o with Next s' n => sysInv s' /\ n = 0 /\ counter (sem s') = counter (sem s) /\ owed s = 0 /\ owed s' = gives o | Waits => True | Fault => False end.
Proof.
  intros HI Hx Hn Ho Hw H1. unfold acquire. destruct (lock s) as [h|] eqn:El; [done|]. pose proof (y_sem _ HI) as (Hr & nl & zl & Hi & Hu & Ha).
  destruct (move_step (sem s) a x nl zl Hr Hi Hu Ha Hx (Held o) Hn I) as [Hinv Hmv].
  { intros c Hc. destruct o; try done. injection Hc as ->. by apply H1. }
  { intros c Hc. rewrite (Hw c Hc). done. }
  split; [|split; [done|]; split; [done|]; unfold owed; rewrite El; cbn [lock sem set_threads threads]; by rewrite (Hmv a), decide_True].
  eapply sysInv_move; try done; [by rewrite El|by intros o' [= <-]|]. destruct (y_errs _ HI) as [?|[He _]]; [by left|right]. split; [exact He|done].
Qed.

(** Steps that do not touch the operation under way. *)
Lemma owed_stay s s' a x p :
  sysInv s -> threads (sem s) !! a = Some x -> inside (pc x) = false -> moves a p (threads (sem s)) (threads s') -> owed (mkSys s' (lock s)) = owed s.
Proof.
  intros HI Hx Hin Hm. unfold owed. cbn [lock sem]. destruct (lock s) as [h|] eqn:El; [|done]. rewrite Hm. destruct (decide (h = a)) as [->|]; [|done].
  apply (y_lock _ HI) in El as (q & Hq & Hi). rewrite Hx in Hq. injection Hq as <-. congruence.
Qed.

(** A step with nothing taken and the counter as it was. *)
Definition settled (c : cmd) (s s' : sys) (n : Z) : Prop :=
  sysInv s' /\ counter (sem s') = counter (sem s) - n /\ 0 <= counter (sem s') /\ 0 <= owed s' /\
  counter (sem s') + owed s' <= counter (sem s) + owed s + match c with Call o => gives o | Go => 0 end.

Lemma sem_step_inv s a c :
  sysInv s -> unit_cmd c = true -> 0 <= counter (sem s) -> 0 <= owed s -> counter (sem s) + owed s + match c with Call o => gives o | Go => 0 end < 2 ^ 63 ->
  match step careful s a c with Next s' n => settled c s s' n | Waits => True | Fault => False end.
Proof.
  intros HI Hc H0 Hw0 Hbnd. unfold step. destruct (threads (sem s) !! a) as [x|] eqn:Hx; [|done]. pose proof (y_sem _ HI) as Hinv.
  assert (Hpc : pc <$> threads (sem s) !! a = Some (pc x)) by by rewrite Hx.
  assert (Herr : careful = true \/ (forall b e, els (sem s) !! b = Some e -> el_error e = 0) /\ (forall rc, pc x = Leave rc -> rc = 0)).
  { destruct (y_errs _ HI) as [?|[He Hl]]; [by left|right]. split; [done|]. intros rc E. apply (Hl a rc). by rewrite Hpc, E. }
  destruct (pc x) as [|o|k|k|k|rc] eqn:Ep; (destruct c as [o'|]; [try done|]); try done.
  - assert (H1 : forall c, o' = OpP c -> c = 1) by (intros c ->; simpl in Hc; by apply Z.eqb_eq in Hc).
    assert (Hg : 0 <= gives o') by (destruct o'; simpl in *; bool_props; lia).
    pose proof (acquire_inv s a x o' HI Hx ltac:(by rewrite Ep) Hc ltac:(by rewrite Ep) H1) as H. destruct (acquire s a o') as [s' n| |]; [|done|done].
    destruct H as (H & -> & E & Ew & Ew'). split; [done|]. lia.
  - assert (Hlk : lock s = Some a) by (apply (y_lock _ HI); by exists (Held o)). rewrite Hlk.
    destruct (section_inv careful (sem s) a x o Hinv Hx Ep (y_ops _ HI a o Hpc)) as (s' & lk & n & p & -> & Hi' & Hcnt & Hle & Hn & Hp & Hm & He).
    assert (Ew : owed s = gives o) by (unfold owed; by rewrite Hlk, Hpc).
    assert (Ew' : owed (mkSys s' lk) = 0).
    { unfold owed. cbn [lock sem]. destruct Hp as [[_ ->]|[-> ->]]; [done|]. by rewrite Hm, decide_True. }
    split.
    + eapply (sysInv_move s s' lk a p); try done.
      * intros b Hb. congruence.
      * destruct Hp as [[(k & -> & _) ->]|[-> ->]]; done.
      * intros o' ->. destruct Hp as [[(k & ? & _) _]|[? _]]; done.
      * destruct He as [?|He]; [by left|]. destruct Herr as [?|[Hz _]]; [by left|right]. split.
        -- intros b e Hb. destruct (He b e Hb) as [?|[?|(y & Hy & ->)]]; [done|done|by apply (Hz b)].
        -- intros rc ->. destruct Hp as [[(k & ? & _) _]|[[= ->] _]]; done.
    + rewrite Ew'. cbn [sem]. specialize (Hle H0). rewrite Ew in Hw0, Hbnd. rewrite Ew. destruct o; cbn [gives] in *; try lia. rewrite swrap_small in Hcnt by lia. lia.
  - destruct (check_inv (sem s) a x k Hinv Hx Ep) as (s' & p & -> & Hi' & Hcnt & Hm & Hp & Hels).
    assert (Hx0 : inside (pc x) = false) by by rewrite Ep. split; [|rewrite (owed_stay s s' a x p HI Hx Hx0 Hm); cbn [sem]; lia].
    assert (Hin : inside p = false) by (destruct Hp as [->|[->|(e & _ & -> & Hne)]]; [done|done|by apply Z.eqb_neq]).
    eapply (sysInv_stay s s' a x p); try done; [intros o ->; destruct Hp as [?|[?|(e & _ & ? & _)]]; done|].
    destruct Herr as [?|[Hz _]]; [by left|right]. split; [intros b e Hb; by apply (Hz b), Hels|]. intros rc ->. destruct Hp as [?|[?|(e & He & _ & Hne)]]; [done|done|]. by destruct Hne; apply (Hz a).
  - destruct (token x); [|done]. destruct (wake_step_inv (sem s) a x k Hinv Hx Ep) as [Hi' Hm]. assert (Hx0 : inside (pc x) = false) by by rewrite Ep.
    split; [|rewrite (owed_stay s (set_threads (sem s) _) a x _ HI Hx Hx0 Hm); cbn [sem set_threads counter]; lia].
    eapply (sysInv_stay s _ a x (Check k)); try done. destruct Herr as [?|[Hz _]]; [by left|right; split; [exact Hz|done]].
  - pose proof Hinv as (_ & nl & zl & _ & Hu & _). assert (Hw : forall c, wants (pc x) = Some c -> op_of k = OpP c) by (intros c; rewrite Ep; destruct k; simpl; congruence).
    assert (H1 : forall c, op_of k = OpP c -> c = 1) by (intros c Hk; apply (Hu a x c Hx); right; rewrite Ep; destruct k; simpl in *; congruence).
    assert (Ho : unit_op careful (op_of k) = true) by (destruct k as [c|]; [simpl; apply Z.eqb_eq, H1; done|done]).
    pose proof (acquire_inv s a x (op_of k) HI Hx ltac:(by rewrite Ep) Ho Hw H1) as H. destruct (acquire s a (op_of k)) as [s' n| |]; [|done|done].
    destruct H as (H & -> & E & Ew & Ew'). split; [done|]. assert (gives (op_of k) = 0) by by destruct k. lia.
  - pose proof Hinv as (Hr & nl & zl & Hi & Hu & Ha). destruct (move_step (sem s) a x nl zl Hr Hi Hu Ha Hx Out) as [Hi' Hm]; [by rewrite Ep|done|done|by rewrite Ep|].
    assert (Hz : careful = true \/ (forall b e, els (set_threads (sem s) (set_pc a Out (threads (sem s)))) !! b = Some e -> el_error e = 0) /\ (forall rc', Out = Leave rc' -> rc' = 0))
      by (destruct Herr as [?|[Hz _]]; [by left|right; split; [exact Hz|done]]).
    unfold leave. destruct (Z.eqb_spec rc 0) as [->|Hrc]; cbn [negb].
    + rewrite andb_false_r. assert (Hlk : lock s = Some a) by (apply (y_lock _ HI); by exists (Leave 0)). unfold release. rewrite Hlk, bool_decide_eq_true_2 by done.
      split; [|unfold owed at 1 2; cbn [lock sem set_threads counter]; lia]. eapply (sysInv_move s _ None a Out); try done. intros b Hb. congruence.
    + destruct Herr as [->|[_ Hl]]; [|by destruct Hrc; apply Hl]. cbn [andb]. assert (Hx0 : inside (pc x) = false) by (rewrite Ep; simpl; by apply Z.eqb_neq).
      split; [|rewrite (owed_stay s (set_threads (sem s) _) a x _ HI Hx Hx0 Hm); cbn [sem set_threads counter]; lia]. apply (sysInv_stay s _ a x Out); try done. by left.
Qed.

(** The units that the calls of V in a schedule give. *)
Fixpoint given (sch : list (Z * cmd)) : Z :=
  match sch with [] => 0 | (_, Call (OpV n)) :: sch => n + given sch | _ :: sch => given sch end.

Lemma given_nonneg sch : forallb (fun x => unit_cmd x.2) sch = true -> 0 <= given sch.
Proof.
  induction sch as [|[a c] sch IH]; [done|]. cbn [forallb given]. intros H. apply andb_true_iff in H as [Hc H]. specialize (IH H). destruct c as [[]|]; cbn in Hc; bool_props; lia.
Qed.

Lemma sem_run_inv sch s tk :
  sysInv s -> 0 <= counter (sem s) -> 0 <= owed s -> forallb (fun x => unit_cmd x.2) sch = true -> counter (sem s) + owed s + given sch < 2 ^ 63 ->
  exists s' tk', run careful s tk sch = Some (s', tk') /\ sysInv s' /\ counter (sem s') + tk' = counter (sem s) + tk /\ 0 <= counter (sem s') /\ 0 <= owed s' /\ counter (sem s') + owed s' < 2 ^ 63.
Proof.
  revert s tk. induction sch as [|[a c] sch IH]; intros s tk Hi H0 Hw Hc Hg; cbn [run]; [exists s, tk; simpl in Hg; split_and!; try done; lia|]. cbn [forallb] in Hc. apply andb_true_iff in Hc as [Hc1 Hc2]. cbn [snd] in Hc1.
  pose proof (given_nonneg sch Hc2) as Hg0.
  assert (Eg : given ((a, c) :: sch) = match c with Call o => gives o | Go => 0 end + given sch) by (by destruct c as [[]|]). rewrite Eg in Hg.
  assert (Hg1 : 0 <= match c with Call o => gives o | Go => 0 end) by (destruct c as [[]|]; cbn in *; bool_props; lia).
  pose proof (sem_step_inv s a c Hi Hc1 H0 Hw ltac:(lia)) as H. destruct (step careful s a c) as [s1 n| |]; [|apply IH; try done; lia|done].
  destruct H as (Hi1 & E1 & Hp1 & Hw1 & Hle). destruct (IH s1 (tk + n) Hi1 Hp1 Hw1 Hc2 ltac:(lia)) as (s' & tk' & E & Hi' & Ht & Hp'). exists s', tk'. split; [done|]. split; [done|]. lia.
Qed.

Lemma sem_init_inv ts c : Forall (fun a => a <> 0) ts -> - 2 ^ 63 <= c < 2 ^ 63 -> sysInv (mkSys (init ts c) None).
Proof.
  intros Hts Hc.
  assert (Hth : forall a x, threads (init ts c) !! a = Some x -> x = mkTh Out false /\ a <> 0).
  { intros a x Hx. apply elem_of_list_to_map_2 in Hx. apply list_elem_of_fmap in Hx as (b & [= -> ->] & Hb). split; [done|]. by apply (proj1 (Forall_forall _ ts) Hts). }
  assert (Hpc : forall a p, pc <$> threads (init ts c) !! a = Some p -> p = Out).
  { intros a p. destruct (threads (init ts c) !! a) as [x|] eqn:Hx; [|done]. destruct (Hth a x Hx) as [-> _]. by intros [= <-]. }
  split; cbn [sem lock].
  - split; [done|]. exists [], []. split; [|split; [|by intros []]].
    + split.
      * split; [done|]. by intros a.
      * split; [done|]. by intros a.
      * intros a Ha _. by apply not_elem_of_nil in Ha.
      * intros a d Ha. by apply not_elem_of_nil in Ha.
      * intros a d Ha. by apply not_elem_of_nil in Ha.
      * intros a [e He]. cbn [init els] in He. by rewrite lookup_empty in He.
      * intros a x k Hx [Hw|Hw]; destruct (Hth a x Hx) as [-> _]; done.
      * intros a [x Hx]. by apply (Hth a x).
    + intros a x n Hx Hw. destruct (Hth a x Hx) as [-> _]. destruct Hw as [[Hw|Hw]|Hw]; done.
  - intros a. split; [done|]. intros (p & Hp & Hin). by rewrite (Hpc a p Hp) in Hin.
  - intros a o Ho. by specialize (Hpc a _ Ho).
  - right. split; [intros a e He; cbn [init els] in He; by rewrite lookup_empty in He|]. intros a rc Hp. by specialize (Hpc a _ Hp).
Qed.

(** A thread inside can always go on. *)
Lemma inside_enabled s h : sysInv s -> 0 <= counter (sem s) -> 0 <= owed s -> counter (sem s) + owed s < 2 ^ 63 -> lock s = Some h -> enabled careful s h = true.
Proof.
  intros HI H0 Hw Hb Hl. pose proof (sem_step_inv s h Go HI eq_refl H0 Hw ltac:(simpl; lia)) as H. apply (y_lock _ HI) in Hl as Hp. destruct Hp as (p & Hp & Hin). unfold enabled. destruct (step careful s h Go) as [s' n| |] eqn:E; [done| |done].
  exfalso. unfold step in E. destruct (threads (sem s) !! h) as [x|]; [|done]. cbn in Hp. injection Hp as Hp. destruct (pc x) as [|o|k|k|k|rc]; subst p; try done.
  - by destruct (section (sem s) (lock s) h o) as [[[? ?] ?]|].
  - unfold leave in E. destruct (careful && negb (rc =? 0)); [done|]. by destruct (release h (lock s)).
Qed.

(** The thread is not asleep: it can go on, or waits for the lock only. *)
Definition ready (s : sys) (b : Z) : Prop :=
  enabled careful s b = true \/ exists k h, pc <$> threads (sem s) !! b = Some (Retry k) /\ lock s = Some h /\ enabled careful s h = true.

Lemma pend_ready s b :
  sysInv s -> 0 <= counter (sem s) -> 0 <= owed s -> counter (sem s) + owed s < 2 ^ 63 -> pend (els (sem s)) (threads (sem s)) b -> ready s b.
Proof.
  intros HI H0 Hw Hb (y & c & Hy & R). pose proof (y_sem _ HI) as (_ & nl & zl & Hi & _ & _).
  pose proof (sem_step_inv s b Go HI eq_refl H0 Hw ltac:(simpl; lia)) as H. destruct (step careful s b Go) as [s' n| |] eqn:E; [left; unfold enabled; by rewrite E| |done].
  right. unfold step in E. rewrite Hy in E. destruct R as [R|[[R|R] (eb & Heb & Hib & _)]].
  - destruct (pc y) as [|o|k|k|[c'|]|rc] eqn:Ep; try done.
    + by destruct (section (sem s) (lock s) b o) as [[[? ?] ?]|].
    + unfold acquire in E. destruct (lock s) as [h|] eqn:El; [|done]. exists (KP c'), h. split; [by rewrite Hy; cbn; rewrite Ep|]. split; [done|]. by apply (inside_enabled s h).
  - rewrite R in E. destruct (check (sem s) b (KP c)); done.
  - rewrite R in E. destruct (i_wait _ _ _ _ _ _ _ _ Hi b y (KP c) Hy ltac:(by right)) as (e2 & He2 & R2). destruct (cleared_off _ _ _ _ _ _ _ _ b eb Hi Heb Hib) as [Hn1 Hn2].
    destruct R2 as [R2|[R2|[_ R2]]]; [done|done|]. by rewrite (R2 R) in E.
Qed.

End caller.

(** ** Theorems *)

(** C22: a semaphore whose units are taken one at a time is correct for any threads
    and any interleaving of their steps, in which they call P, V, tryP, Z and wakeup,
    take and release its lock, wait and are woken.  The conditions: P and tryP ask for
    one unit, set is not used, the units there are and are given fit in 63 bits, and
    wakeup is called with an error only when the callers of P and Z do not release the
    lock after one ([careful]), as in SysVSemaphores.C; TSemaphore does release it, and
    that goes wrong (error_releases_lock).  A step that has to wait is one that takes
    the lock while another thread has it, or is in Block without having been unblocked.
    No step goes wrong: no thread releases a lock that it does not have, and every loop
    ends.  The lock is had by exactly the thread that is inside, so there is at most one,
    and that thread can go on.  The units taken are never more than those there were and
    were given: the counter is what is left, and is not negative.  And no wake-up is
    lost: while a thread waits in P, at least as many threads as the counter has units
    are about to try for one, and each can go on, or waits only for the lock. *)
Theorem semaphore_correct careful ts c0 sch :
  Forall (fun a => a <> 0) ts -> 0 <= c0 -> forallb (fun x => unit_cmd careful x.2) sch = true -> c0 + given sch < 2 ^ 63 ->
  exists s taken, run careful (mkSys (init ts c0) None) 0 sch = Some (s, taken) /\
  counter (sem s) = c0 - taken /\ 0 <= counter (sem s) /\
  (forall h, lock s = Some h <-> exists p, pc <$> threads (sem s) !! h = Some p /\ inside p = true) /\ (forall h, lock s = Some h -> enabled careful s h = true) /\
  ((exists a x e, threads (sem s) !! a = Some x /\ waits x (KP 1) /\ els (sem s) !! a = Some e /\ el_id e <> 0) ->
   exists W : gset Z, counter (sem s) <= Z.of_nat (size W) /\ forall b, b ∈ W -> pend (els (sem s)) (threads (sem s)) b /\ ready careful s b).
Proof.
  intros Hts H0 Hc Hg. pose proof (given_nonneg careful sch Hc).
  destruct (sem_run_inv careful sch (mkSys (init ts c0) None) 0 (sem_init_inv careful ts c0 Hts ltac:(lia)) H0 ltac:(done) Hc) as (s & taken & E & HI & Hcnt & Hpos & Hw & Hb); [cbn; lia|].
  cbn [sem init counter] in Hcnt. exists s, taken. split; [done|]. split; [lia|]. split; [done|]. split; [apply (y_lock _ _ HI)|]. split; [intros h; by apply (inside_enabled careful s h HI Hpos Hw)|].
  intros (a & x & e & Hx & Hwt & He & Hid). pose proof (y_sem _ _ HI) as (_ & nl & zl & Hi & Hu & Ha).
  destruct Ha as (W & HW & Hsz).
  { intros ->. destruct (i_wait _ _ _ _ _ _ _ _ Hi a x (KP 1) Hx Hwt) as (e' & He' & R). destruct R as [R|[R|[R _]]]; [by apply not_elem_of_nil in R| |congruence].
    apply list_elem_of_fmap in R as ([b d] & -> & R). destruct (i_pc2 _ _ _ _ _ _ _ _ Hi b d R) as (y & Hy & Hwy). simpl in Hx. rewrite Hx in Hy. injection Hy as <-.
    unfold waits in *. destruct Hwt as [Hwt|Hwt], Hwy as [Hwy|Hwy]; congruence. }
  exists W. split; [done|]. intros b Hbw. specialize (HW b Hbw). split; [done|]. by apply pend_ready.
Qed.

(** All steps of an operation that does not wait. *)
Definition whole (a : Z) (o : op) : list (Z * cmd) := [(a, Call o); (a, Go); (a, Go)].

(** Threads 1 and 2 wait, 3 gives a unit, 4 takes it before 1 runs, which waits
    again; then 3 gives two units, and 2 waits for the lock that 4 has. *)
Definition sem_demo : list (Z * cmd) :=
  whole 1 (OpP 1) ++ whole 2 (OpP 1) ++ whole 3 (OpV 1) ++ whole 4 (OpTryP 1) ++ [(1, Go); (1, Go); (1, Go); (1, Go)] ++ whole 3 (OpV 2) ++ [(2, Go); (2, Go); (4, Call OpZ); (2, Go)].

Lemma semaphore_correct_witness :
  exists s taken, run false (mkSys (init [1; 2; 3; 4] 0) None) 0 sem_demo = Some (s, taken) /\ counter (sem s) = 0 - taken /\ 0 <= counter (sem s) /\
    (forall h, lock s = Some h -> enabled false s h = true).
Proof.
  assert (Hts : Forall (fun a => a <> 0) [1; 2; 3; 4]) by (apply (bool_decide_unpack _); by vm_compute).
  destruct (semaphore_correct false [1; 2; 3; 4] 0 sem_demo Hts ltac:(lia) eq_refl ltac:(by vm_compute)) as (s & taken & E & H1 & H2 & _ & H3 & _).
  exists s, taken. split; [exact E|]. split; [exact H1|]. split; [exact H2|exact H3].
Defined.

Lemma sem_demo_end :
  ('(s, taken) ← run false (mkSys (init [1; 2; 3; 4] 0) None) 0 sem_demo; Some (counter (sem s), taken, lock s, (pc <$> threads (sem s) !! 1), (pc <$> threads (sem s) !! 2))) =
  Some (2, -2, Some 4, Some (Check (KP 1)), Some (Retry (KP 1))).
Proof. by vm_compute. Qed.

(** ** Behaviour beyond single units *)

(** Whether every thread of [ts] is asleep or outside. *)
Definition quiet (s : sys) (ts : list Z) : bool := forallb (fun a => negb (enabled false s a)) ts.

(** With requests of several units a wake-up can be lost: thread 1 wants two units
    and 2 one; two are given, and 1 is woken; 4 takes one of them; 1 waits again,
    behind 2.  A unit is left and the first thread of the queue wants one, but no
    thread will be woken. *)
Lemma counts_lose_wakeup :
  ('(s, _) ← run false (mkSys (init [1; 2; 3; 4] 0) None) 0
     (whole 1 (OpP 2) ++ whole 2 (OpP 1) ++ whole 3 (OpV 2) ++ whole 4 (OpTryP 1) ++ [(1, Go); (1, Go); (1, Go); (1, Go); (1, Go)]);
   Some (counter (sem s), head (neg (sem s)), el_count <$> els (sem s) !! 2, quiet s [1; 2; 3; 4])) = Some (1, 2, Some 1, true).
Proof. by vm_compute. Qed.

(** tryP wakes nobody: a thread that waits for zero sleeps on when tryP takes the
    last unit. *)
Lemma tryP_forgets_Z :
  ('(s, _) ← run false (mkSys (init [1; 2] 1) None) 0 (whole 1 OpZ ++ whole 2 (OpTryP 1)); Some (counter (sem s), head (zero (sem s)), quiet s [1; 2])) = Some (0, 1, true).
Proof. by vm_compute. Qed.

(** After wakeup with an error P returns without the lock: a caller that releases it
    then, as TSemaphore does, releases a lock that is free, or that of another thread.
    A caller that does not is right. *)
Lemma error_releases_lock :
  run false (mkSys (init [1; 2] 0) None) 0 (whole 1 (OpP 1) ++ whole 2 (OpWakeup 43) ++ [(1, Go); (1, Go); (1, Go)]) = None /\
  run false (mkSys (init [1; 2; 3] 0) None) 0 (whole 1 (OpP 1) ++ whole 2 (OpWakeup 43) ++ [(3, Call (OpV 1)); (1, Go); (1, Go); (1, Go)]) = None /\
  ('(s, _) ← run true (mkSys (init [1; 2] 0) None) 0 (whole 1 (OpP 1) ++ whole 2 (OpWakeup 43) ++ [(1, Go); (1, Go); (1, Go)]);
   Some (lock s, pc <$> threads (sem s) !! 1)) = Some (None, Some Out).
Proof. split_and!; by vm_compute. Qed.

End Sem.
