(* ===== verification/BlockedThreadQueues.v ===== *)
(** * BlockedThreadQueues: threads blocked on addresses, lib/libc/sync/BlockedThreadQueues.C

    A table of 1024 queues, found by a hash of the address a thread waits on.  An
    element is on the stack of the thread that waits; different addresses may
    share a queue.  Unblock is the scheduler's: the operations return the threads
    they unblock, in order. *)

From stdpp Require Import base numbers option gmap list.
From S2P Require Import K42 Prelude HTList.

Module BlockedThreadQueues.

Record Element := mkEl { el_next : Z; threadID : Z; blockedOn : Z }.

#[export] Instance btq_linked : Linked Element (Z * Z) := {|
  next := el_next;
  set_next := fun p e => mkEl p (threadID e) (blockedOn e);
  payload := fun e => (threadID e, blockedOn e);
  next_set_next := fun _ _ => eq_refl;
  payload_set_next := fun _ _ => eq_refl;
|}.

Definition hashSize : Z := 1024.

Record bucket := mkB { lock : bool; head : Z; tail : Z }.

Record t := mkT { table : list bucket; mem : gmap Z Element }.

(** [key * 0x9e3779b99e3779b9 >> (64-10)] *)
Definition hash (key : Z) : Z := Z.shiftr (umul key 11400714819842046393) 54.

Definition init (m : gmap Z Element) : t := mkT (replicate (Z.to_nat hashSize) (mkB false NULL NULL)) m.

(** postFork starts the table afresh. *)
Definition postFork (s : t) : t := init (mem s).

(** The section under the lock of bucket [i]. *)
Definition with_bucket {A} (s : t) (i : Z) (f : bucket -> gmap Z Element -> option (A * bucket * gmap Z Element)) : option (A * t) :=
  b ← table s !! Z.to_nat i;
  _ ← assertK (negb (lock b));
  '(r, b', m') ← f b (mem s);
  Some (r, mkT (<[Z.to_nat i := mkB false (head b') (tail b')]> (table s)) m').

Definition addCurThreadToQueue (s : t) (qe cur on : Z) : option (unit * t) :=
  with_bucket s (hash on) (fun b m =>
    let m1 := <[qe := mkEl NULL cur on]> m in
    if tail b =? NULL then Some (tt, mkB true qe qe, m1)
    else e ← m1 !! tail b; Some (tt, mkB true (head b) qe, <[tail b := set_next qe e]> m1)).

Definition fuel (m : gmap Z Element) : nat := S (size m).

(** Taking element [qe], read as [e0], out of a bucket. *)
Definition unlink (qe : Z) (e0 : Element) (b : bucket) (m : gmap Z Element) : option (unit * bucket * gmap Z Element) :=
  let m1 := <[qe := mkEl (el_next e0) (threadID e0) 0]> m in
  _ ← assertK (negb (head b =? NULL));
  if head b =? qe then
    Some (tt, mkB true (el_next e0) (if tail b =? qe then NULL else tail b), m1)
  else
    h ← m1 !! head b;
    '(prev, cur) ← walk (fun x _ => x =? qe) (fuel m1) m1 (head b) (next h);
    _ ← assertK (negb (cur =? NULL));
    p ← m1 !! prev;
    Some (tt, mkB true (head b) (if tail b =? qe then prev else tail b), <[prev := set_next (el_next e0) p]> m1).

Definition removeCurThreadFromQueue (s : t) (qe : Z) : option (unit * t) :=
  e0 ← mem s !! qe;
  with_bucket s (hash (blockedOn e0)) (unlink qe e0).

(** The first element that waits on the address. *)
Definition wakeupFirst (s : t) (on : Z) : option (list Z * t) :=
  with_bucket s (hash on) (fun b m =>
    '(_, ptr) ← walk (fun _ e => blockedOn e =? on) (fuel m) m NULL (head b);
    if ptr =? NULL then Some ([], b, m) else e ← m !! ptr; Some ([threadID e], b, m)).

Fixpoint wake_loop (fuel : nat) (m : gmap Z Element) (ptr on : Z) : option (list Z) :=
  match fuel with
  | O => None
  | S f =>
    if ptr =? NULL then Some []
    else e ← m !! ptr; rest ← wake_loop f m (next e) on; Some (if blockedOn e =? on then threadID e :: rest else rest)
  end.

Definition wakeupAll (s : t) (on : Z) : option (list Z * t) :=
  with_bucket s (hash on) (fun b m => ws ← wake_loop (fuel m) m (head b) on; Some (ws, b, m)).

(** ** The waiting threads *)

(** All elements in the order of their arrival: address, thread and address
    waited on. *)
Abbreviation waiters := (list (Z * (Z * Z))) (only parsing).

Definition in_bucket (i : Z) (x : Z * (Z * Z)) : bool := hash x.2.2 =? i.
Definition on_addr (on : Z) (x : Z * (Z * Z)) : bool := x.2.2 =? on.

Record rep (s : t) (G : waiters) : Prop := {
  r_len : length (table s) = 1024%nat;
  r_dup : NoDup G.*1;
  r_chains : forall i b, 0 <= i -> table s !! Z.to_nat i = Some b ->
    lock b = false /\ htrep (mem s) (head b) (tail b) (List.filter (in_bucket i) G);
}.

Lemma btq_hash_range on : 0 <= hash on < 1024.
Proof.
  unfold hash. rewrite Z.shiftr_div_pow2 by lia. pose proof (uwrap_range (on * 11400714819842046393)) as [H1 H2]. unfold umul.
  split; [apply Z.div_pos; lia|]. apply Z.div_lt_upper_bound; lia.
Qed.

Lemma filter_app_in i (G1 G2 : waiters) : List.filter (in_bucket i) (G1 ++ G2) = List.filter (in_bucket i) G1 ++ List.filter (in_bucket i) G2.
Proof. apply List.filter_app. Qed.

Lemma filter_sub (P : Z * (Z * Z) -> bool) (G : waiters) x : x ∈ (List.filter P G).*1 -> x ∈ G.*1.
Proof.
  intros H. apply list_elem_of_fmap in H as (y & -> & H). apply list_elem_of_In, List.filter_In in H as [H _].
  apply list_elem_of_fmap. exists y. split; [done|]. by apply list_elem_of_In.
Qed.

Lemma filter_nil_not (P : Z * (Z * Z) -> bool) (G : waiters) : (forall x, x ∈ G -> P x = false) -> List.filter P G = [].
Proof.
  induction G as [|x G IH]; intros H; [done|]. cbn [List.filter]. rewrite (H x) by left. apply IH. intros y Hy. apply H. by right.
Qed.

(** Two buckets have no element in common. *)
Lemma bucket_disjoint i j (G : waiters) a : NoDup G.*1 -> i <> j -> a ∈ (List.filter (in_bucket i) G).*1 -> a ∈ (List.filter (in_bucket j) G).*1 -> False.
Proof.
  intros Hnd Hij Hi Hj. apply list_elem_of_fmap in Hi as (x & -> & Hx). apply list_elem_of_fmap in Hj as (y & E & Hy).
  apply list_elem_of_In, List.filter_In in Hx as [Hx Px]. apply list_elem_of_In, List.filter_In in Hy as [Hy Py].
  assert (x = y) as <-.
  { apply list_elem_of_In, list_elem_of_lookup in Hx as [n Hn]. apply list_elem_of_In, list_elem_of_lookup in Hy as [k Hk].
    assert (n = k) as <-; [|congruence]. apply (NoDup_lookup G.*1 n k x.1); [done| |]; rewrite list_lookup_fmap; [by rewrite Hn|by rewrite Hk, E]. }
  unfold in_bucket in *. bool_props. lia.
Qed.

(** One bucket changes, and memory only in its own elements. *)
Lemma rep_update s G G' i b' m' :
  rep s G -> 0 <= i < 1024 -> NoDup G'.*1 ->
  htrep m' (head b') (tail b') (List.filter (in_bucket i) G') ->
  (forall j, j <> i -> List.filter (in_bucket j) G' = List.filter (in_bucket j) G) ->
  (forall a, m' !! a = mem s !! a \/ a ∈ (List.filter (in_bucket i) G).*1 \/ a ∉ G.*1) ->
  rep (mkT (<[Z.to_nat i := mkB false (head b') (tail b')]> (table s)) m') G'.
Proof.
  intros [Hl Hd Hc] Hi Hnd Hr Hoth Hm. split; [by cbn; rewrite length_insert|done|]. cbn [table mem]. intros j b Hj Hb.
  destruct (decide (j = i)) as [->|Hne].
  - rewrite list_lookup_insert_eq in Hb by lia. by injection Hb as <-.
  - rewrite list_lookup_insert_ne in Hb by lia. destruct (Hc j b Hj Hb) as [Hlk Hch]. split; [done|]. rewrite Hoth by done.
    destruct Hch as [Hch Ht]. split; [|done]. apply (chain_agree (mem s)); [|done]. intros a Ha. destruct (Hm a) as [?|[Hin|Hnone]]; [done| |].
    + exfalso. by apply (bucket_disjoint i j G a).
    + exfalso. by apply Hnone, (filter_sub (in_bucket j)).
Qed.

Lemma rep_bucket s G on : rep s G -> exists b, table s !! Z.to_nat (hash on) = Some b /\ lock b = false /\ htrep (mem s) (head b) (tail b) (List.filter (in_bucket (hash on)) G).
Proof.
  intros [Hl Hd Hc]. pose proof (btq_hash_range on). destruct (lookup_lt_is_Some_2 (table s) (Z.to_nat (hash on))) as [b Hb]; [lia|].
  exists b. split; [done|]. apply (Hc (hash on) b); [lia|done].
Qed.

Lemma init_rep m : rep (init m) [].
Proof.
  split; [by cbn; rewrite length_replicate|constructor|]. intros i b _ Hb. apply lookup_replicate in Hb as [-> _]. done.
Qed.

(** ** The operations *)

Definition drop_el (qe : Z) (G : waiters) : waiters := List.filter (fun x => negb (x.1 =? qe)) G.

Lemma filter_comm (P Q : Z * (Z * Z) -> bool) (G : waiters) : List.filter P (List.filter Q G) = List.filter Q (List.filter P G).
Proof. induction G as [|x G IH]; [done|]. cbn. destruct (P x) eqn:EP, (Q x) eqn:EQ; cbn; rewrite ?EP, ?EQ, IH; done. Qed.

Lemma drop_el_notin qe (G : waiters) : qe ∉ G.*1 -> drop_el qe G = G.
Proof.
  induction G as [|x G IH]; [done|]. rewrite fmap_cons. intros H. apply not_elem_of_cons in H as [Hne H]. unfold drop_el in *. cbn.
  rewrite (proj2 (Z.eqb_neq x.1 qe)) by congruence. cbn. by rewrite IH.
Qed.

Lemma drop_el_mid qe d (l1 l2 : waiters) : qe ∉ l1.*1 -> qe ∉ l2.*1 -> drop_el qe (l1 ++ (qe, d) :: l2) = l1 ++ l2.
Proof.
  intros H1 H2. unfold drop_el. rewrite List.filter_app. cbn. rewrite Z.eqb_refl. cbn. f_equal; [by apply drop_el_notin|by apply drop_el_notin].
Qed.

Lemma addCurThreadToQueue_spec s G qe cur on :
  rep s G -> qe <> NULL -> qe ∉ G.*1 ->
  exists s', addCurThreadToQueue s qe cur on = Some (tt, s') /\ rep s' (G ++ [(qe, (cur, on))]) /\
    dom (mem s') = {[qe]} ∪ dom (mem s).
Proof.
  intros Hr Hq Hn. destruct (rep_bucket s G on Hr) as (b & Hb & Hlk & Hch). unfold addCurThreadToQueue, with_bucket. rewrite Hb. cbn [mbind option_bind]. rewrite Hlk. cbn [negb assertK mbind option_bind].
  assert (Hch' : htrep (delete qe (mem s)) (head b) (tail b) (List.filter (in_bucket (hash on)) G)).
  { apply htrep_delete_ne; [|done]. intros H. by apply Hn, (filter_sub (in_bucket (hash on))). }
  pose proof (htrep_push_back (delete qe (mem s)) _ _ _ qe (mkEl NULL cur on) Hch' (lookup_delete_eq _ _) Hq eq_refl) as Hp. rewrite insert_delete_eq in Hp. change (payload (mkEl NULL cur on)) with (cur, on) in Hp.
  pose proof (htrep_tail_null _ _ _ _ Hch) as Htn. pose proof (htrep_head_null _ _ _ _ Hch) as Hhn.
  assert (Hf : List.filter (in_bucket (hash on)) (G ++ [(qe, (cur, on))]) = List.filter (in_bucket (hash on)) G ++ [(qe, (cur, on))]).
  { rewrite filter_app_in. cbn. unfold in_bucket at 2. cbn. by rewrite Z.eqb_refl. }
  assert (Hnd : NoDup (G ++ [(qe, (cur, on))]).*1).
  { rewrite fmap_app. apply NoDup_app. split; [apply Hr|]. split; [|apply NoDup_singleton]. intros a Ha Ha'. apply list_elem_of_singleton in Ha'. subst a. done. }
  assert (Hoth : forall j, j <> hash on -> List.filter (in_bucket j) (G ++ [(qe, (cur, on))]) = List.filter (in_bucket j) G).
  { intros j Hj. rewrite filter_app_in. cbn. unfold in_bucket at 2. cbn. rewrite (proj2 (Z.eqb_neq (hash on) j)) by congruence. apply app_nil_r. }
  destruct (Z.eqb_spec (tail b) NULL) as [Et|Et].
  - cbn [mbind option_bind]. eexists. split; [done|]. cbn [mem]. split.
    + apply (rep_update s G _ (hash on) (mkB true qe qe)); [done|apply btq_hash_range|done| |done|].
      * rewrite Hf. cbn [head tail]. rewrite (proj2 Hhn (proj1 Htn Et)) in Hp. done.
      * intros a. destruct (decide (a = qe)) as [->|]; [by right; right|left; by rewrite lookup_insert_ne].
    + apply dom_insert_L.
  - destruct Hp as (nt & Hnt & Hp). rewrite Hnt. cbn [mbind option_bind]. eexists. split; [done|]. cbn [mem].
    assert (Hhd : head b <> NULL) by (rewrite Hhn; rewrite Htn in Et; done). rewrite (proj2 (Z.eqb_neq _ _) Hhd) in Hp. split.
    + apply (rep_update s G _ (hash on) (mkB true (head b) qe)); [done|apply btq_hash_range|done|by rewrite Hf|done|].
      intros a. destruct (decide (a = tail b)) as [->|Hne].
      * right; left. destruct Hch as [_ Htl]. rewrite Htl. unfold last_addr. destruct (last (List.filter (in_bucket (hash on)) G)) as [x|] eqn:El; [|by rewrite Htl in Et; unfold last_addr in Et; rewrite El in Et].
        cbn. apply list_elem_of_fmap. exists x. split; [done|]. by apply last_Some_elem_of.
      * rewrite lookup_insert_ne by done. destruct (decide (a = qe)) as [->|]; [by right; right|left; by rewrite lookup_insert_ne].
    + rewrite !dom_insert_L. assert (tail b ∈ dom (<[qe := mkEl NULL cur on]> (mem s))) as H by (apply elem_of_dom; eauto). rewrite dom_insert_L in H. clear -H. set_solver.
Qed.

(** The walk stops behind the element before [qe]. *)
Lemma unlink_walk m hd tl l1 h0 d0 qe d l2 :
  htrep m hd tl ((l1 ++ [(h0, d0)]) ++ (qe, d) :: l2) ->
  exists h, m !! hd = Some h /\ walk (fun x _ => x =? qe) (fuel m) m hd (next h) = Some (h0, qe).
Proof.
  intros Hr. pose proof (htrep_nodup _ _ _ _ Hr) as Hnd. rewrite fmap_app in Hnd. apply NoDup_app in Hnd as (_ & Hd & _).
  destruct (l1 ++ [(h0, d0)]) as [|[a x] l] eqn:Ell; [by destruct l1|]. assert (hd = a) as -> by (destruct Hr as [Hc _]; cbn [app chain] in Hc; tauto).
  destruct (htrep_elem _ _ _ _ a x Hr ltac:(left)) as (_ & h & Hh & _). exists h. split; [done|].
  assert (Hspan : span_until (fun y => y.1 =? qe) (l ++ (qe, d) :: l2) = (l, (qe, d) :: l2)).
  { apply span_until_intro; [|cbn; by rewrite Z.eqb_refl]. apply Forall_forall. intros y Hy. apply Z.eqb_neq. intros E. apply (Hd qe); [|by left].
    rewrite fmap_cons. right. apply list_elem_of_fmap. by exists y. }
  pose proof (walk_tail_spec (fun y _ => y =? qe) (fun y => y.1 =? qe) m a tl a x (l ++ (qe, d) :: l2) h (fuel m) (fun _ _ _ => eq_refl) Hr Hh) as Hw.
  rewrite Hspan in Hw. destruct Hw as (mm & y & prev & Hw & Em & _).
  { destruct Hr as [Hc _]. apply chain_length in Hc. unfold fuel. cbn [app length] in Hc. lia. }
  rewrite Hw. rewrite <- Ell in Em. apply app_inj_tail in Em as [_ Em]. by injection Em as -> ->.
Qed.

(** One bucket without the element. *)
Lemma unlink_spec m hd tl lk l1 qe th on l2 e0 :
  htrep m hd tl (l1 ++ (qe, (th, on)) :: l2) -> m !! qe = Some e0 ->
  exists hd' tl' m', unlink qe e0 (mkB lk hd tl) m = Some (tt, mkB true hd' tl', m') /\ htrep m' hd' tl' (l1 ++ l2) /\
    (forall a, m' !! a = m !! a \/ a ∈ (l1 ++ (qe, (th, on)) :: l2).*1) /\ dom m' = dom m.
Proof.
  intros Hr He0. pose proof (htrep_nodup _ _ _ _ Hr) as Hnd. rewrite fmap_app, fmap_cons in Hnd. apply NoDup_app in Hnd as (_ & Hd1 & Hd2). apply NoDup_cons in Hd2 as [Hd2 _].
  assert (Hq1 : qe ∉ l1.*1) by (intros H; apply (Hd1 qe H); by left). destruct (htrep_elem _ _ _ _ qe (th, on) Hr ltac:(apply elem_of_app; right; left)) as (Hq & _).
  unfold unlink. cbn [head tail]. set (e1 := mkEl (el_next e0) (threadID e0) 0). set (m1 := <[qe := e1]> m).
  assert (Hnull : hd <> NULL) by (rewrite (htrep_head_null _ _ _ _ Hr); by destruct l1). rewrite (proj2 (Z.eqb_neq _ _) Hnull). cbn [negb assertK mbind option_bind].
  assert (Hdom1 : dom m1 = dom m) by (unfold m1; rewrite dom_insert_L; apply elem_of_dom_2 in He0; clear -He0; set_solver).
  assert (Hr1 : htrep m1 hd tl (l1 ++ (qe, payload e1) :: l2)).
  { destruct Hr as [Hc Ht]. split.
    - apply chain_app in Hc as (q & Hc1 & Hc2). cbn [chain] in Hc2. destruct Hc2 as (-> & _ & n & Hn & _ & Hc2). assert (n = e0) as -> by congruence.
      apply chain_app. exists qe. split; [by apply chain_insert_ne|]. cbn [chain]. split; [done|]. split; [done|]. exists e1. unfold m1. rewrite lookup_insert_eq. split; [done|]. split; [done|]. by apply chain_insert_ne.
    - rewrite Ht. destruct l2 as [|[u v] l2 _] using rev_ind; [by rewrite !last_addr_snoc|]. rewrite !app_comm_cons, !app_assoc, !last_addr_snoc. done. }
  assert (Hm1 : forall a, m1 !! a = m !! a \/ a ∈ (l1 ++ (qe, (th, on)) :: l2).*1).
  { intros a. destruct (decide (a = qe)) as [->|]; [right; rewrite fmap_app; apply elem_of_app; right; by left|left; unfold m1; by rewrite lookup_insert_ne]. }
  destruct l1 as [|[h0 d0] l1 _] using rev_ind.
  - destruct (htrep_pop _ _ _ _ _ _ Hr1) as (-> & _ & _ & n & Hn & _ & Hp). unfold m1 in Hn. rewrite lookup_insert_eq in Hn. injection Hn as <-. rewrite Z.eqb_refl.
    eexists _, _, _. split; [done|]. split; [exact Hp|done].
  - assert (Hne : hd <> qe) by (intros ->; apply Hq1; destruct Hr as [Hc _]; destruct l1 as [|[a d] l1]; cbn [app chain] in Hc; destruct Hc as (-> & _); by left).
    rewrite (proj2 (Z.eqb_neq _ _) Hne). destruct (unlink_walk m1 hd tl l1 h0 d0 qe (payload e1) l2 Hr1) as (h & Hh & Hw). rewrite Hh. cbn [mbind option_bind]. rewrite Hw. cbn [mbind option_bind].
    rewrite (proj2 (Z.eqb_neq _ _) Hq). cbn [negb assertK mbind option_bind].
    destruct (htrep_elem _ _ _ _ h0 d0 Hr1 ltac:(apply elem_of_app; left; apply elem_of_app; right; left)) as (Hh0 & p & Hp & _). rewrite Hp. cbn [mbind option_bind].
    rewrite <- app_assoc in Hr1. destruct (htrep_bypass m1 _ _ l1 h0 d0 qe (payload e1) l2 p e1 Hr1 Hp ltac:(unfold m1; apply lookup_insert_eq)) as [Hr2 _].
    eexists _, _, _. split; [done|]. rewrite <- app_assoc. split; [exact Hr2|]. split.
    + intros a. destruct (decide (a = h0)) as [->|]; [|rewrite lookup_insert_ne by done; apply Hm1]. right. rewrite !fmap_app. apply elem_of_app. left. apply elem_of_app. right. by left.
    + rewrite dom_insert_L, Hdom1. apply elem_of_dom_2 in Hp. rewrite Hdom1 in Hp. clear -Hp. set_solver.
Qed.

Lemma drop_el_nodup qe (G : waiters) : NoDup G.*1 -> NoDup (drop_el qe G).*1.
Proof.
  intros Hnd. induction G as [|x G IH]; [constructor|]. rewrite fmap_cons in Hnd. apply NoDup_cons in Hnd as [Hx Hnd]. unfold drop_el in *. cbn. destruct (negb (x.1 =? qe)); [|by apply IH].
  rewrite fmap_cons. apply NoDup_cons. split; [|by apply IH]. intros H. apply Hx. by apply (filter_sub (fun y => negb (y.1 =? qe))).
Qed.

Lemma removeCurThreadFromQueue_spec s G qe th on :
  rep s G -> (qe, (th, on)) ∈ G ->
  exists s', removeCurThreadFromQueue s qe = Some (tt, s') /\ rep s' (drop_el qe G) /\ dom (mem s') = dom (mem s).
Proof.
  intros Hr Hin. destruct (rep_bucket s G on Hr) as ([lk hd tl] & Hb & Hlk & Hch). cbn [lock head tail] in Hlk, Hch. subst lk.
  assert (Hinb : (qe, (th, on)) ∈ List.filter (in_bucket (hash on)) G).
  { apply list_elem_of_In, List.filter_In. split; [by apply list_elem_of_In|]. unfold in_bucket. apply Z.eqb_refl. }
  destruct (htrep_elem _ _ _ _ _ _ Hch Hinb) as (_ & e0 & He0 & Hp0). change (payload e0) with (threadID e0, blockedOn e0) in Hp0. injection Hp0 as _ Eon.
  unfold removeCurThreadFromQueue, with_bucket. rewrite He0. cbn [mbind option_bind]. rewrite Eon, Hb. cbn [lock negb assertK mbind option_bind].
  pose proof (htrep_nodup _ _ _ _ Hch) as Hnd. pose proof (filter_sub (in_bucket (hash on)) G) as Hsub. pose proof Hinb as Hsplit. apply list_elem_of_split in Hsplit as (l1 & l2 & El). rewrite El in Hch, Hnd.
  destruct (unlink_spec (mem s) hd tl false l1 qe th on l2 e0 Hch He0) as (hd' & tl' & m' & E & Hr' & Hm & Hdom). rewrite E. cbn [mbind option_bind].
  eexists. split; [done|]. split; [|done].
  rewrite fmap_app, fmap_cons in Hnd. apply NoDup_app in Hnd as (_ & Hd1 & Hd2). apply NoDup_cons in Hd2 as [Hd2 _].
  apply (rep_update s G _ (hash on) (mkB true hd' tl')); [done|apply btq_hash_range|apply drop_el_nodup, Hr| | |].
  - unfold drop_el. rewrite filter_comm, El. fold (drop_el qe (l1 ++ (qe, (th, on)) :: l2)). rewrite drop_el_mid; [done| |done]. intros H. apply (Hd1 qe H). by left.
  - intros j Hj. unfold drop_el. rewrite filter_comm. apply drop_el_notin. intros H. apply (bucket_disjoint (hash on) j G qe); [apply Hr|congruence| |done].
    apply list_elem_of_fmap. by exists (qe, (th, on)).
  - intros a. rewrite El. destruct (Hm a); [by left|by right; left].
Qed.

(** wakeupFirst and wakeupAll change nothing. *)
Lemma wake_loop_spec fuel m p l on :
  chain m p l NULL -> (length l < fuel)%nat -> wake_loop fuel m p on = Some ((fun x => x.2.1) <$> List.filter (on_addr on) l).
Proof.
  revert fuel p. induction l as [|[a [th o]] l IH]; intros [|f] p Hc Hf; cbn [length] in Hf; try lia; cbn [wake_loop chain] in *.
  - subst p. done.
  - destruct Hc as (-> & Ha & e & He & Hp & Hc). rewrite (proj2 (Z.eqb_neq a NULL) Ha), He. cbn [mbind option_bind]. rewrite (IH f (next e) Hc ltac:(lia)). cbn [mbind option_bind].
    change (payload e) with (threadID e, blockedOn e) in Hp. injection Hp as E1 E2. rewrite E1, E2. cbn [List.filter]. change (on_addr on (a, (th, o))) with (o =? on). by destruct (o =? on).
Qed.

Lemma filter_on on (G : waiters) : List.filter (on_addr on) (List.filter (in_bucket (hash on)) G) = List.filter (on_addr on) G.
Proof.
  induction G as [|x G IH]; [done|]. cbn [List.filter]. destruct (on_addr on x) eqn:E; [|destruct (in_bucket (hash on) x); cbn [List.filter]; rewrite ?E; exact IH].
  assert (in_bucket (hash on) x = true) as -> by (unfold in_bucket, on_addr in *; bool_props; rewrite E; apply Z.eqb_refl). cbn [List.filter]. by rewrite E, IH.
Qed.

Lemma rep_same s G i b : rep s G -> table s !! Z.to_nat i = Some b -> lock b = false -> mkT (<[Z.to_nat i := mkB false (head b) (tail b)]> (table s)) (mem s) = s.
Proof. intros Hr Hb Hl. destruct s as [tb m], b as [lk hd tl]. cbn in *. subst lk. by rewrite list_insert_id. Qed.

Lemma wakeupAll_spec s G on : rep s G -> wakeupAll s on = Some ((fun x => x.2.1) <$> List.filter (on_addr on) G, s).
Proof.
  intros Hr. destruct (rep_bucket s G on Hr) as (b & Hb & Hlk & Hch). unfold wakeupAll, with_bucket. rewrite Hb. cbn [mbind option_bind]. rewrite Hlk. cbn [negb assertK mbind option_bind].
  destruct Hch as [Hc _]. rewrite (wake_loop_spec _ _ _ _ on Hc) by (apply chain_length in Hc; unfold fuel; lia). cbn [mbind option_bind]. rewrite filter_on. by rewrite (rep_same s G).
Qed.

Lemma btq_find_first_filter (P : Z * (Z * Z) -> bool) (l : waiters) : find_first P l = list.head (List.filter P l).
Proof. induction l as [|x l IH]; [done|]. rewrite find_first_cons. cbn [List.filter]. by destruct (P x). Qed.

Lemma wakeupFirst_spec s G on : rep s G -> wakeupFirst s on = Some (take 1 ((fun x => x.2.1) <$> List.filter (on_addr on) G), s).
Proof.
  intros Hr. destruct (rep_bucket s G on Hr) as (b & Hb & Hlk & Hch). unfold wakeupFirst, with_bucket. rewrite Hb. cbn [mbind option_bind]. rewrite Hlk. cbn [negb assertK mbind option_bind].
  pose proof Hch as [Hc _]. pose proof (walk_spec (fun _ e => blockedOn e =? on) (on_addr on) (mem s) _ NULL (head b) (fuel (mem s)) (fun _ _ _ => eq_refl) Hc) as Hw.
  rewrite <- filter_on. set (l := List.filter (in_bucket (hash on)) G) in *. rewrite <- (fmap_take (fun x => x.2.1)).
  pose proof (btq_find_first_filter (on_addr on) l) as Hff. unfold find_first in Hff. destruct (span_until (on_addr on) l) as [l1 l2] eqn:E.
  rewrite Hw by (apply chain_length in Hc; unfold fuel; lia). cbn [mbind option_bind]. destruct l2 as [|[a [th o]] l2].
  - destruct (List.filter (on_addr on) l); [|done].
    change (default 0 (fst <$> list.head (@nil (Z * (Z * Z))))) with 0. change (0 =? 0) with true. cbv iota. cbn [mbind option_bind]. by rewrite (rep_same s G).
  - apply span_until_app in E. destruct (htrep_elem _ _ _ _ a (th, o) Hch ltac:(rewrite E; apply elem_of_app; right; left)) as (Ha & e & He & Hp).
    change (default NULL (fst <$> list.head ((a, (th, o)) :: l2))) with a. rewrite (proj2 (Z.eqb_neq a NULL) Ha), He.
    cbn [mbind option_bind]. change (payload e) with (threadID e, blockedOn e) in Hp. injection Hp as -> _. destruct (List.filter (on_addr on) l) as [|x r]; [done|]. cbn in Hff. injection Hff as <-.
    cbn [mbind option_bind]. by rewrite (rep_same s G).
Qed.

(** ** The specification *)

Inductive op := Add (qe cur on : Z) | Remove (qe : Z) | WakeFirst (on : Z) | WakeAll (on : Z).

(** A run of calls, with the threads that each wake-up unblocks. *)
Fixpoint run (s : t) (ops : list op) : option (list (list Z) * t) :=
  match ops with
  | [] => Some ([], s)
  | Add qe cur on :: ops => '(_, s') ← addCurThreadToQueue s qe cur on; run s' ops
  | Remove qe :: ops => '(_, s') ← removeCurThreadFromQueue s qe; run s' ops
  | WakeFirst on :: ops => '(ws, s') ← wakeupFirst s on; '(r, s2) ← run s' ops; Some (ws :: r, s2)
  | WakeAll on :: ops => '(ws, s') ← wakeupAll s on; '(r, s2) ← run s' ops; Some (ws :: r, s2)
  end.

(** One list of waiting elements, in the order of arrival. *)
Fixpoint spec_run (G : waiters) (ops : list op) : list (list Z) :=
  match ops with
  | [] => []
  | Add qe cur on :: ops => spec_run (G ++ [(qe, (cur, on))]) ops
  | Remove qe :: ops => spec_run (drop_el qe G) ops
  | WakeFirst on :: ops => take 1 ((fun x => x.2.1) <$> List.filter (on_addr on) G) :: spec_run G ops
  | WakeAll on :: ops => ((fun x => x.2.1) <$> List.filter (on_addr on) G) :: spec_run G ops
  end.

(** A thread adds an element that is on no queue, and removes one that is. *)
Fixpoint usage (G : waiters) (ops : list op) : Prop :=
  match ops with
  | [] => True
  | Add qe cur on :: ops => qe <> NULL /\ (qe ∉ G.*1) /\ usage (G ++ [(qe, (cur, on))]) ops
  | Remove qe :: ops => qe ∈ G.*1 /\ usage (drop_el qe G) ops
  | _ :: ops => usage G ops
  end.

#[export] Instance usage_dec G ops : Decision (usage G ops).
Proof. revert G. induction ops as [|[qe cur on|qe|on|on] ops IH]; intros G; cbn [usage]; apply _. Defined.

Lemma btq_run_refines s G ops : rep s G -> usage G ops -> exists s', run s ops = Some (spec_run G ops, s').
Proof.
  revert s G. induction ops as [|o ops IH]; intros s G Hr Hu; [by exists s|]. destruct o as [qe cur on|qe|on|on]; cbn [run spec_run usage] in *.
  - destruct Hu as (Hq & Hn & Hu). destruct (addCurThreadToQueue_spec s G qe cur on Hr Hq Hn) as (s' & E & Hr' & _). rewrite E. cbn [mbind option_bind]. by apply IH.
  - destruct Hu as [Hin Hu]. apply list_elem_of_fmap in Hin as ([q [th on]] & Eq & Hin). cbn in Eq. subst q.
    destruct (removeCurThreadFromQueue_spec s G qe th on Hr Hin) as (s' & E & Hr' & _). rewrite E. cbn [mbind option_bind]. by apply IH.
  - rewrite (wakeupFirst_spec s G on Hr). cbn [mbind option_bind]. destruct (IH s G Hr Hu) as (s' & E). rewrite E. cbn [mbind option_bind]. eauto.
  - rewrite (wakeupAll_spec s G on Hr). cbn [mbind option_bind]. destruct (IH s G Hr Hu) as (s' & E). rewrite E. cbn [mbind option_bind]. eauto.
Qed.

(** C24: the hashed table of linked queues implements one list of waiting threads in
    the order of their arrival.  For any sequence of calls in which a thread adds
    an element that is on no queue and removes one that is, every call returns;
    wakeupAll unblocks exactly the threads that wait on its address, in the order
    they came, and wakeupFirst the first of them, although other addresses share
    the queue. *)
Theorem btq_refines m ops : usage [] ops -> exists s', run (init m) ops = Some (spec_run [] ops, s').
Proof. apply btq_run_refines, init_rep. Qed.

Lemma btq_refines_witness :
  exists s', run (init ∅) [Add 16 1 4096; Add 32 2 8192; Add 48 3 4096; WakeFirst 4096; Remove 16; WakeAll 4096; Add 16 1 4096; WakeAll 4096; WakeFirst 64]
    = Some (spec_run [] [Add 16 1 4096; Add 32 2 8192; Add 48 3 4096; WakeFirst 4096; Remove 16; WakeAll 4096; Add 16 1 4096; WakeAll 4096; WakeFirst 64], s').
Proof. apply btq_refines. apply (bool_decide_unpack _). vm_compute. exact I. Defined.

(** ** What a lock needs of its waiting threads

    [wq_rep q l O]: the threads [l] wait, in this order; the elements [O] are on
    queues for other addresses. *)
Class WaitQueue (Q : Type) := {
  wq_rep : Q -> list Z -> gset Z -> Prop;
  wq_add : Q -> Z -> option Q;
  wq_remove : Q -> Z -> option Q;
  wq_wakeAll : Q -> option (list Z * Q);
  wq_add_ok : forall q l O a, wq_rep q l O -> a <> 0 -> a ∉ l -> a ∉ O -> exists q', wq_add q a = Some q' /\ wq_rep q' (l ++ [a]) O;
  wq_remove_ok : forall q l O a, wq_rep q l O -> a ∈ l -> exists q', wq_remove q a = Some q' /\ wq_rep q' (List.filter (fun b => negb (b =? a)) l) O;
  wq_wakeAll_ok : forall q l O, wq_rep q l O -> wq_wakeAll q = Some (l, q);
  wq_nodup : forall q l O, wq_rep q l O -> NoDup l;
}.

Section queue.
Context (on : Z).

Definition mine (l : list Z) : waiters := (fun a => (a, (a, on))) <$> l.

Lemma mine_fst l : (mine l).*1 = l.
Proof. unfold mine. rewrite <- list_fmap_compose. apply list_fmap_id. Qed.

Definition q_rep (s : t) (l : list Z) (O : gset Z) : Prop :=
  exists G, rep s G /\ List.filter (on_addr on) G = mine l /\ forall x, x ∈ G -> on_addr on x = false -> x.1 ∈ O.

Lemma q_rep_in l (O : gset Z) G a : List.filter (on_addr on) G = mine l -> (forall x, x ∈ G -> on_addr on x = false -> x.1 ∈ O) -> a ∈ G.*1 -> a ∈ l \/ a ∈ O.
Proof.
  intros Hl HO Hin. apply list_elem_of_fmap in Hin as (x & -> & Hin). destruct (on_addr on x) eqn:E; [left|right; by apply HO].
  rewrite <- (mine_fst l), <- Hl. apply list_elem_of_fmap. exists x. split; [done|]. apply list_elem_of_In, List.filter_In. split; [by apply list_elem_of_In|done].
Qed.

Lemma q_elem l G a : List.filter (on_addr on) G = mine l -> a ∈ l -> (a, (a, on)) ∈ G.
Proof.
  intros Hl Ha. assert (Hm : (a, (a, on)) ∈ mine l) by (apply list_elem_of_fmap; by exists a). rewrite <- Hl in Hm. by apply list_elem_of_In, List.filter_In in Hm as [Hm%list_elem_of_In _].
Qed.

(** The table is such a queue, for each address; the element of a thread has the
    address [a] of the thread. *)
#[export] Program Instance btq_waitqueue : WaitQueue t := {|
  wq_rep := q_rep;
  wq_add s a := '(_, s') ← addCurThreadToQueue s a a on; Some s';
  wq_remove s a := '(_, s') ← removeCurThreadFromQueue s a; Some s';
  wq_wakeAll s := wakeupAll s on;
|}.
Next Obligation.
  intros s l O a (G & Hr & Hl & HO) Ha Hnl HnO. destruct (addCurThreadToQueue_spec s G a a on Hr Ha) as (s' & E & Hr' & _).
  { intros Hin. by destruct (q_rep_in l O G a Hl HO Hin). }
  cbn beta. rewrite E. cbn [mbind option_bind]. eexists. split; [done|]. exists (G ++ [(a, (a, on))]). split; [done|]. split.
  - rewrite List.filter_app, Hl. cbn [List.filter]. change (on_addr on (a, (a, on))) with (on =? on). rewrite Z.eqb_refl. unfold mine. by rewrite fmap_app.
  - intros x Hx Hf. apply elem_of_app in Hx as [Hx|Hx]; [by apply HO|]. apply list_elem_of_singleton in Hx. subst x. change (on_addr on (a, (a, on))) with (on =? on) in Hf. by rewrite Z.eqb_refl in Hf.
Qed.
Next Obligation.
  intros s l O a (G & Hr & Hl & HO) Ha. destruct (removeCurThreadFromQueue_spec s G a a on Hr (q_elem l G a Hl Ha)) as (s' & E & Hr' & _).
  cbn beta. rewrite E. cbn [mbind option_bind]. eexists. split; [done|]. exists (drop_el a G). split; [done|]. split.
  - unfold drop_el. rewrite filter_comm, Hl. clear. unfold mine. induction l as [|b l IH]; [done|]. cbn. destruct (negb (b =? a)); cbn; by rewrite IH.
  - intros x Hx. apply HO. unfold drop_el in Hx. by apply list_elem_of_In, List.filter_In in Hx as [Hx%list_elem_of_In _].
Qed.
Next Obligation.
  intros s l O (G & Hr & Hl & HO). cbn beta. rewrite (wakeupAll_spec s G on Hr), Hl. unfold mine. rewrite <- list_fmap_compose. do 2 f_equal. apply list_fmap_id.
Qed.
Next Obligation.
  intros s l O (G & Hr & Hl & HO). rewrite <- (mine_fst l), <- Hl. destruct Hr as [_ Hnd _]. clear -Hnd. induction G as [|x G IH]; [constructor|].
  rewrite fmap_cons in Hnd. apply NoDup_cons in Hnd as [Hx Hnd]. cbn [List.filter]. destruct (on_addr on x); [|by apply IH]. rewrite fmap_cons. apply NoDup_cons. split; [|by apply IH].
  intros H. by apply Hx, (filter_sub (on_addr on)).
Qed.

End queue.

Lemma q_rep_init on m : q_rep on (init m) [] ∅.
Proof. exists []. split; [apply init_rep|]. split; [done|]. intros x Hx. by apply not_elem_of_nil in Hx. Qed.

End BlockedThreadQueues.
