(* ===== verification/BitBLock.v ===== *)
(** * BitBLock: a blocking lock in two bits of a word, lib/libc/sync/BLockGeneric.C, BLockImp.C, BLock.H

    A lock bit and a wait bit share a 64-bit word with data.  The lock is taken by
    an atomic or; a thread that finds it taken spins, then joins the queue of
    threads blocked on the word's address and, with the wait bit set, blocks.  A
    release that finds the wait bit clear is one compare-and-store; else the word
    is swapped, which drops both bits, and all threads of the queue are unblocked.

    Each access to the word and each call of the scheduler is one step of its
    thread; a call of the queue runs under the queue's own lock, which is held
    while wakeupAll goes from thread to thread.  The queue is any [WaitQueue]. *)

From stdpp Require Import base numbers option gmap list.
From S2P Require Import K42 Prelude AtomicBitVec64 BlockedThreadQueues.

Module BitBLock.
Import BlockedThreadQueues.

Section lock.
Context {Q : Type} `{!WaitQueue Q}.

(** The positions of the two bits. *)
Context (lockBit waitBit : Z).

Definition lockBitMask : Z := ushl 1 lockBit.
Definition waitBitMask : Z := ushl 1 waitBit.

(** BitBLockSpinCount + BitBLockYieldCount + BitBLockYieldVPCount *)
Definition yieldVPLimit : nat := 201.

(** Where a thread is; [f] says that it wants the data of the word. *)
Inductive PC :=
| Out
| Held (data : option Z)            (* acquire has returned, with the data asked for *)
| Spin (n : nat) (f : bool)         (* load in the spin loop *)
| SpinTry (n : nat) (f : bool)      (* FetchAndOr64Synced in the spin loop *)
| Enq (f : bool)                    (* addCurThreadToQueue *)
| Try (f : bool)                    (* FetchAndOr64Synced *)
| Look (f : bool)                   (* cur = *lptr *)
| SetWait (cur : Z) (f : bool)      (* CompareAndStore64Synced(lptr, cur, cur|waitBitMask) *)
| ToBlock (f : bool)                (* Scheduler::Block *)
| Deq (f : bool)                    (* removeCurThreadFromQueue *)
| Fetch (f : bool)                  (* *datap = *lptr & ~(lockBitMask|waitBitMask) *)
| RelLoad (d : option Z)            (* release: load; with the data to store *)
| RelCas (cur newval : Z)           (* CompareAndStore64Volatile *)
| RelSwap (newval : Z)              (* SwapSynced *)
| RelWake                           (* wakeupAll *)
| Waking (rest : list Z).           (* Scheduler::Unblock of each *)

Record thread := mkTh { pc : PC; token : bool }.

Record t := mkL { word : Z; queue : Q; qlock : option Z; threads : gmap Z thread }.

Definition init (w : Z) (q : Q) (ts : list Z) : t :=
  mkL w q None (list_to_map ((fun a => (a, mkTh Out false)) <$> ts)).

Definition locked (w : Z) : bool := negb (Z.land w lockBitMask =? 0).
Definition waiting (w : Z) : bool := negb (Z.land w waitBitMask =? 0).

(** The word without its two bits. *)
Definition data_of (w : Z) : Z := Z.land w (unot (Z.lor lockBitMask waitBitMask)).

Definition goto (s : t) (a : Z) (x : thread) (p : PC) : t := mkL (word s) (queue s) (qlock s) (<[a := mkTh p (token x)]> (threads s)).
Definition set_word (w : Z) (s : t) : t := mkL w (queue s) (qlock s) (threads s).

(** BitBLock_SlowAcquireAndFetch, the spin loop. *)
Definition spin (s : t) (a : Z) (x : thread) (n : nat) (f : bool) : t :=
  goto s a x (if Nat.ltb n yieldVPLimit then Spin n f else Enq f).

(** FetchAndOr64(lptr, lockBitMask): where to go when the bit was clear, and when
    it was set. *)
Definition fetch_and_or (s : t) (a : Z) (x : thread) (got lost : PC) : t :=
  goto (set_word (Z.lor (word s) lockBitMask) s) a x (if locked (word s) then lost else got).

Definition slowAcquire_step (s : t) (a : Z) (x : thread) : option t :=
  match pc x with
  | Spin n f =>
    let l := word s in
    Some (if negb (locked l) then goto s a x (SpinTry n f)
          else if waiting l then goto s a x (Enq f)
          else spin s a x (S n) f)
  | SpinTry n f =>
    Some (fetch_and_or s a x (Fetch f) (if Nat.ltb (S n) yieldVPLimit then Spin (S n) f else Enq f))
  | Enq f =>
    _ ← assertK (bool_decide (qlock s = None));
    q ← wq_add (queue s) a;
    Some (goto (mkL (word s) q (qlock s) (threads s)) a x (Try f))
  | Try f => Some (fetch_and_or s a x (Deq f) (Look f))
  | Look f =>
    let cur := word s in
    Some (if locked cur then if waiting cur then goto s a x (ToBlock f) else goto s a x (SetWait cur f)
          else goto s a x (Try f))
  | SetWait cur f =>
    Some (if word s =? cur then goto (set_word (Z.lor cur waitBitMask) s) a x (ToBlock f) else goto s a x (Try f))
  | ToBlock f =>
    if token x then Some (mkL (word s) (queue s) (qlock s) (<[a := mkTh (Try f) false]> (threads s))) else None
  | Deq f =>
    _ ← assertK (bool_decide (qlock s = None));
    q ← wq_remove (queue s) a;
    Some (goto (mkL (word s) q (qlock s) (threads s)) a x (Fetch f))
  | Fetch f => Some (goto s a x (Held (if f then Some (data_of (word s)) else None)))
  | _ => None
  end.

(** BitBLockGeneric_Release, BitBLockGeneric_StoreAndRelease and
    BitBLock_SlowStoreAndRelease. *)
Definition release_step (s : t) (a : Z) (x : thread) : option t :=
  match pc x with
  | RelLoad d =>
    let curval := Z.land (word s) (unot waitBitMask) in
    let newval := match d with Some d => d | None => Z.land curval (unot lockBitMask) end in
    Some (goto s a x (RelCas curval newval))
  | RelCas cur newval =>
    Some (if word s =? cur then goto (set_word newval s) a x Out else goto s a x (RelSwap newval))
  | RelSwap newval => Some (goto (set_word newval s) a x RelWake)
  | RelWake =>
    _ ← assertK (bool_decide (qlock s = None));
    '(ws, q) ← wq_wakeAll (queue s);
    Some (goto (mkL (word s) q (Some a) (threads s)) a x (Waking ws))
  | Waking [] => Some (goto (mkL (word s) (queue s) None (threads s)) a x Out)
  | Waking (b :: rest) =>
    let ths := alter (fun y => mkTh (pc y) true) b (threads s) in
    y ← ths !! a;
    Some (goto (mkL (word s) (queue s) (qlock s) ths) a y (Waking rest))
  | _ => None
  end.

Inductive cmd := Acquire (f : bool) | TryAcquire (f : bool) | Release | StoreAndRelease (data : Z) | Go.

(** A step of thread [a]: a call, or the next step of its code.  The fast path of
    BitBLockGeneric_AcquireAndFetch gives the word as it was. *)
Definition step (s : t) (a : Z) (c : cmd) : option t :=
  x ← threads s !! a;
  match pc x, c with
  | Out, Acquire f => Some (fetch_and_or s a x (Held (if f then Some (word s) else None)) (Spin 0 f))
  | Out, TryAcquire f => Some (fetch_and_or s a x (Held (if f then Some (word s) else None)) Out)
  | Held _, Release => Some (goto s a x (RelLoad None))
  | Held _, StoreAndRelease d => Some (goto s a x (RelLoad (Some d)))
  | Out, _ | Held _, _ => None
  | _, Go => match slowAcquire_step s a x with Some s' => Some s' | None => release_step s a x end
  | _, _ => None
  end.

Fixpoint run (s : t) (sch : list (Z * cmd)) : t :=
  match sch with [] => s | (a, c) :: sch => match step s a c with Some s' => run s' sch | None => run s sch end end.

(** ** Bits of the word *)

Context (Hlb : 0 <= lockBit < 64) (Hwb : 0 <= waitBit < 64) (Hne : lockBit <> waitBit).

Lemma locked_bit w : locked w = Z.testbit w lockBit.
Proof. by apply AtomicBitVec64.land_bit_zero. Qed.

Lemma waiting_bit w : waiting w = Z.testbit w waitBit.
Proof. by apply AtomicBitVec64.land_bit_zero. Qed.

Lemma masks_uval : is_uval (Z.lor lockBitMask waitBitMask).
Proof. apply lor_uval; apply AtomicBitVec64.ushl1_uval. Qed.

Lemma data_bits w j : is_uval w -> Z.testbit (data_of w) j = Z.testbit w j && negb ((j =? lockBit) || (j =? waitBit)).
Proof.
  intros Hw. unfold data_of. rewrite land_unot by (done || apply masks_uval). rewrite Z.ldiff_spec, Z.lor_spec. unfold lockBitMask, waitBitMask. by rewrite !ushl1_bits.
Qed.

(** A word is its two bits and its data. *)
Record view (w : Z) (l wt : bool) (d : Z) : Prop := { v_u : is_uval w; v_l : locked w = l; v_w : waiting w = wt; v_d : data_of w = d }.

Lemma data_ext w w' : is_uval w -> is_uval w' -> (forall j, 0 <= j -> j <> lockBit -> j <> waitBit -> Z.testbit w j = Z.testbit w' j) -> data_of w = data_of w'.
Proof.
  intros Hw Hw' H. apply Z.bits_inj'. intros j Hj. rewrite !data_bits by done. destruct (Z.eqb_spec j lockBit); [by rewrite !andb_false_r|].
  destruct (Z.eqb_spec j waitBit); [by rewrite !andb_false_r|]. by rewrite H.
Qed.

Lemma view_lock w l wt d : view w l wt d -> view (Z.lor w lockBitMask) true wt d.
Proof.
  intros [Hu Hl Hw Hd]. assert (B : forall j, Z.testbit (Z.lor w lockBitMask) j = Z.testbit w j || (j =? lockBit)) by (intros j; by apply AtomicBitVec64.setBit_bits).
  assert (Hu' : is_uval (Z.lor w lockBitMask)) by by apply AtomicBitVec64.setBit_uval. split; [done| | |].
  - rewrite locked_bit, B, Z.eqb_refl. apply orb_true_r.
  - rewrite waiting_bit, B, (proj2 (Z.eqb_neq waitBit lockBit)), orb_false_r by done. by rewrite <- waiting_bit.
  - rewrite <- Hd. apply data_ext; [done|done|]. intros j _ H1 _. rewrite B, (proj2 (Z.eqb_neq j lockBit)), orb_false_r by done. done.
Qed.

Lemma view_wait w l wt d : view w l wt d -> view (Z.lor w waitBitMask) l true d.
Proof.
  intros [Hu Hl Hw Hd]. assert (B : forall j, Z.testbit (Z.lor w waitBitMask) j = Z.testbit w j || (j =? waitBit)) by (intros j; by apply AtomicBitVec64.setBit_bits).
  assert (Hu' : is_uval (Z.lor w waitBitMask)) by by apply AtomicBitVec64.setBit_uval. split; [done| | |].
  - rewrite locked_bit, B, (proj2 (Z.eqb_neq lockBit waitBit)), orb_false_r by done. by rewrite <- locked_bit.
  - rewrite waiting_bit, B, Z.eqb_refl. apply orb_true_r.
  - rewrite <- Hd. apply data_ext; [done|done|]. intros j _ _ H1. rewrite B, (proj2 (Z.eqb_neq j waitBit)), orb_false_r by done. done.
Qed.

(** The values a release computes. *)
Lemma view_release w l wt d :
  view w l wt d ->
  view (Z.land w (unot waitBitMask)) l false d /\ view (Z.land (Z.land w (unot waitBitMask)) (unot lockBitMask)) false false d.
Proof.
  intros [Hu Hl Hw Hd]. set (c := Z.land w (unot waitBitMask)).
  assert (B : forall j, Z.testbit c j = Z.testbit w j && negb (j =? waitBit)) by (intros j; by apply AtomicBitVec64.clearBit_bits).
  assert (Hu' : is_uval c) by by apply AtomicBitVec64.clearBit_uval.
  assert (B2 : forall j, Z.testbit (Z.land c (unot lockBitMask)) j = Z.testbit c j && negb (j =? lockBit)) by (intros j; by apply AtomicBitVec64.clearBit_bits).
  assert (Hu2 : is_uval (Z.land c (unot lockBitMask))) by by apply AtomicBitVec64.clearBit_uval. split; split; try done.
  - rewrite locked_bit, B, (proj2 (Z.eqb_neq lockBit waitBit)), andb_true_r by done. by rewrite <- locked_bit.
  - rewrite waiting_bit, B, Z.eqb_refl. apply andb_false_r.
  - rewrite <- Hd. apply data_ext; [done|done|]. intros j _ _ H1. rewrite B, (proj2 (Z.eqb_neq j waitBit)), andb_true_r by done. done.
  - rewrite locked_bit, B2, Z.eqb_refl. apply andb_false_r.
  - rewrite waiting_bit, B2, B, Z.eqb_refl, andb_false_r. done.
  - rewrite <- Hd. apply data_ext; [done|done|]. intros j _ H1 H2. rewrite B2, B, (proj2 (Z.eqb_neq j waitBit)), (proj2 (Z.eqb_neq j lockBit)), !andb_true_r by done. done.
Qed.

(** A word whose two bits are clear is its own data. *)
Lemma view_clear w d : view w false false d -> w = d.
Proof.
  intros [Hu Hl Hw Hd]. rewrite <- Hd. apply Z.bits_inj'. intros j Hj. rewrite data_bits by done. rewrite locked_bit in Hl. rewrite waiting_bit in Hw.
  destruct (Z.eqb_spec j lockBit) as [->|]; [by rewrite Hl|]. destruct (Z.eqb_spec j waitBit) as [->|]; [by rewrite Hw|]. by rewrite andb_true_r.
Qed.

(** ** The invariant *)

Definition has_lock (p : PC) : bool :=
  match p with Held _ | Deq _ | Fetch _ | RelLoad _ | RelCas _ _ | RelSwap _ => true | _ => false end.

Definition queued (p : PC) : bool := match p with Try _ | Look _ | SetWait _ _ | ToBlock _ | Deq _ => true | _ => false end.

Definition is_waking (p : PC) : bool := match p with Waking _ => true | _ => false end.

(** What a thread knows at its place. *)
Definition pc_ok (w : Z) (p : PC) : Prop :=
  match p with
  | Held (Some d) => d = data_of w
  | RelLoad (Some d) => exists e, view d false false e
  | SetWait cur _ => locked cur = true
  | RelCas cur newval => waiting cur = false /\ exists e, view newval false false e
  | RelSwap newval => exists e, view newval false false e
  | _ => True
  end.

(** The thread is about to unblock thread [b]. *)
Definition wakes (p : PC) (b : Z) : Prop := p = RelWake \/ exists rest, p = Waking rest /\ b ∈ rest.

Record inv (s : t) (o : option Z) (l : list Z) (O : gset Z) : Prop := {
  i_word : exists wt d, view (word s) (bool_decide (is_Some o)) wt d /\ (wt = true -> is_Some o);
  i_own : forall a x, threads s !! a = Some x -> has_lock (pc x) = true <-> o = Some a;
  i_owner : forall a, o = Some a -> is_Some (threads s !! a);
  i_q : wq_rep (queue s) l O;
  i_in : forall a x, threads s !! a = Some x -> queued (pc x) = true <-> a ∈ l;
  i_ids : forall a, is_Some (threads s !! a) -> a <> 0 /\ a ∉ O;
  i_qlock : forall a x, threads s !! a = Some x -> is_waking (pc x) = true <-> qlock s = Some a;
  i_qthread : forall a, qlock s = Some a -> is_Some (threads s !! a);
  i_pc : forall a x, threads s !! a = Some x -> pc_ok (word s) (pc x);
  i_wake : forall a x f, threads s !! a = Some x -> pc x = ToBlock f -> token x = false ->
    waiting (word s) = true \/ exists b y, threads s !! b = Some y /\ wakes (pc y) a;
}.

Lemma update_inv s o l O a x w' o' q' l' ql' x' :
  inv s o l O -> threads s !! a = Some x ->
  (exists wt d, view w' (bool_decide (is_Some o')) wt d /\ (wt = true -> is_Some o')) ->
  (has_lock (pc x') = true <-> o' = Some a) -> (forall b, b <> a -> o' = Some b <-> o = Some b) ->
  wq_rep q' l' O -> (queued (pc x') = true <-> a ∈ l') -> (forall b, b <> a -> b ∈ l' <-> b ∈ l) ->
  (is_waking (pc x') = true <-> ql' = Some a) -> (forall b, b <> a -> ql' = Some b <-> qlock s = Some b) ->
  pc_ok w' (pc x') -> data_of w' = data_of (word s) \/ o = Some a ->
  (forall f, pc x' = ToBlock f -> token x' = false -> waiting w' = true) ->
  (waiting (word s) = true -> waiting w' = true \/ pc x' = RelWake) ->
  (forall b y, b ∈ l -> threads s !! b = Some y -> token y = false -> wakes (pc x) b -> wakes (pc x') b) ->
  inv (mkL w' q' ql' (<[a := x']> (threads s))) o' l' O.
Proof.
  intros [H1 H2 H3 H4 H5 H6 H7 H7t H8 H9] Hx Hw Ho Ho' Hq Hin Hin' Hql Hql' Hpc Hdat Hb Hwt Hwk. split; cbn [word queue qlock threads]; try done.
  - intros b y. rewrite lookup_insert_Some. intros [[<- <-]|[Hn Hy]]; [done|]. rewrite Ho' by done. by apply H2.
  - intros b Eb. destruct (decide (b = a)) as [->|Hn]; [rewrite lookup_insert_eq; eauto|]. rewrite lookup_insert_ne by done. apply H3. by apply Ho'.
  - intros b y. rewrite lookup_insert_Some. intros [[<- <-]|[Hn Hy]]; [done|]. rewrite Hin' by done. by apply H5.
  - intros b Hy. apply H6. apply lookup_insert_is_Some in Hy as [<-|[_ Hy]]; [eauto|done].
  - intros b y. rewrite lookup_insert_Some. intros [[<- <-]|[Hn Hy]]; [done|]. rewrite Hql' by done. by apply H7.
  - intros b Eb. destruct (decide (b = a)) as [->|Hn]; [rewrite lookup_insert_eq; eauto|]. rewrite lookup_insert_ne by done. apply H7t. by apply Hql'.
  - intros b y. rewrite lookup_insert_Some. intros [[<- <-]|[Hn Hy]]; [done|]. specialize (H8 b y Hy). destruct (pc y) as [|[d|]| | | | | | | | | |[d|]| | | |] eqn:Ep; try done.
    cbn in *. destruct Hdat as [->|Hoa]; [done|]. assert (o = Some b) by (apply (H2 b y Hy); by rewrite Ep). congruence.
  - intros b y f. rewrite lookup_insert_Some. intros [[<- <-]|[Hn Hy]] Ep Ht; [left; by apply (Hb f)|].
    destruct (H9 b y f Hy Ep Ht) as [Hwait|(c & z & Hz & Hcz)].
    + destruct (Hwt Hwait) as [?|Hr]; [by left|]. right. exists a, x'. rewrite lookup_insert_eq. split; [done|by left].
    + right. destruct (decide (c = a)) as [->|Hca]; [|exists c, z; by rewrite lookup_insert_ne].
      rewrite Hx in Hz. injection Hz as <-. exists a, x'. rewrite lookup_insert_eq. split; [done|]. apply (Hwk b y); try done. apply (H5 b y Hy). by rewrite Ep.
Qed.

(** A step of thread [a] that keeps the word, the queue and what the thread has. *)
Lemma goto_inv s o l O a x p :
  inv s o l O -> threads s !! a = Some x -> has_lock p = has_lock (pc x) -> queued p = queued (pc x) -> is_waking p = false -> is_waking (pc x) = false ->
  pc x <> RelWake -> pc_ok (word s) p -> (forall f, p = ToBlock f -> waiting (word s) = true) -> inv (goto s a x p) o l O.
Proof.
  intros Hi Hx Hh Hq Hk1 Hk2 Hr Hp Hb. unfold goto. eapply (update_inv s o l O a x); cbn [pc token]; try done; try apply Hi; try done.
  - rewrite Hh. by apply (i_own _ _ _ _ Hi).
  - rewrite Hq. by apply (i_in _ _ _ _ Hi).
  - rewrite Hk1, <- Hk2. by apply (i_qlock _ _ _ _ Hi).
  - by left.
  - intros f E _. by apply (Hb f).
  - by left.
  - intros b y _ _ _ [E|(rest & E & _)]; [done|]. by rewrite E in Hk2.
Qed.

(** A token for a thread never hurts. *)
Lemma token_inv s o l O b : inv s o l O -> inv (mkL (word s) (queue s) (qlock s) (alter (fun y => mkTh (pc y) true) b (threads s))) o l O.
Proof.
  intros [H1 H2 H3 H4 H5 H6 H7 H7t H8 H9].
  assert (Hl : forall c x, alter (fun y => mkTh (pc y) true) b (threads s) !! c = Some x -> exists y, threads s !! c = Some y /\ pc x = pc y /\ (token x = false -> token y = false)).
  { intros c x Hx. destruct (decide (c = b)) as [->|Hn]; [rewrite lookup_alter_eq in Hx; destruct (threads s !! b) as [y|]; [|done]; cbn in Hx; injection Hx as <-; by exists y|].
    rewrite lookup_alter_ne in Hx by done. by exists x. }
  split; cbn [word queue qlock threads]; try done.
  - intros c x Hx. destruct (Hl c x Hx) as (y & Hy & -> & _). by apply H2.
  - intros c Hc. destruct (decide (c = b)) as [->|Hn]; [rewrite lookup_alter_eq; apply fmap_is_Some; by apply H3|]. rewrite lookup_alter_ne by done. by apply H3.
  - intros c x Hx. destruct (Hl c x Hx) as (y & Hy & -> & _). by apply H5.
  - intros c [x Hx]. destruct (Hl c x Hx) as (y & Hy & _). apply H6. eauto.
  - intros c x Hx. destruct (Hl c x Hx) as (y & Hy & -> & _). by apply H7.
  - intros c Hc. destruct (decide (c = b)) as [->|Hn]; [rewrite lookup_alter_eq; apply fmap_is_Some; by apply H7t|]. rewrite lookup_alter_ne by done. by apply H7t.
  - intros c x Hx. destruct (Hl c x Hx) as (y & Hy & -> & _). by apply (H8 c).
  - intros c x f Hx Ep Ht. destruct (Hl c x Hx) as (y & Hy & Ep' & Ht'). destruct (H9 c y f Hy ltac:(congruence) (Ht' Ht)) as [?|(e & z & Hz & Hcz)]; [by left|right].
    destruct (decide (e = b)) as [->|Hn]; [exists b, (mkTh (pc z) true); rewrite lookup_alter_eq, Hz; done|exists e, z; by rewrite lookup_alter_ne].
Qed.

(** FetchAndOr64: the thread gets the free lock, or finds it taken. *)
Lemma fetch_and_or_inv s o l O a x got lost :
  inv s o l O -> threads s !! a = Some x -> has_lock (pc x) = false -> is_waking (pc x) = false -> pc x <> RelWake ->
  has_lock got = true -> has_lock lost = false -> queued got = queued (pc x) -> queued lost = queued (pc x) -> is_waking got = false -> is_waking lost = false ->
  (locked (word s) = false -> pc_ok (Z.lor (word s) lockBitMask) got) -> (locked (word s) = true -> pc_ok (Z.lor (word s) lockBitMask) lost) ->
  (forall f, got <> ToBlock f) -> (forall f, lost <> ToBlock f) ->
  inv (fetch_and_or s a x got lost) (if locked (word s) then o else Some a) l O.
Proof.
  intros Hi Hx Hnl Hnk Hnr Hg Hl Hqg Hql Hkg Hkl Hpg Hpl Hbg Hbl. destruct (i_word _ _ _ _ Hi) as (wt & d & Hv & Hw). pose proof (view_lock _ _ _ _ Hv) as Hv'.
  assert (Hnot : o <> Some a) by (rewrite <- (i_own _ _ _ _ Hi a x Hx); by rewrite Hnl).
  assert (Hwk : forall p b (y : thread), wakes (pc x) b -> wakes p b) by (intros p b y [E|(rest & E & _)]; [done|by rewrite E in Hnk]).
  unfold fetch_and_or, goto, set_word. cbn [word queue qlock threads].
  pose proof (v_l _ _ _ _ Hv) as El. destruct (locked (word s)) eqn:E.
  - apply (update_inv s o l O a x); cbn [pc token]; try done; try apply Hi; try done.
    + exists wt, d. split; [by rewrite <- El|done].
    + rewrite Hl. by split.
    + rewrite Hql. by apply (i_in _ _ _ _ Hi).
    + rewrite Hkl, <- Hnk. by apply (i_qlock _ _ _ _ Hi).
    + by apply Hpl.
    + left. rewrite (v_d _ _ _ _ Hv'), (v_d _ _ _ _ Hv). done.
    + intros f Ef. by destruct (Hbl f).
    + intros Hwait. left. rewrite (v_w _ _ _ _ Hv'), <- (v_w _ _ _ _ Hv). done.
    + intros b y _ _ _. by apply (Hwk lost b y).
  - assert (o = None) as -> by (destruct o; [done|done]).
    apply (update_inv s None l O a x); cbn [pc token]; try done; try apply Hi; try done.
    + exists wt, d. split; [done|]. intros _. eauto.
    + intros b Hb. split; congruence.
    + rewrite Hqg. by apply (i_in _ _ _ _ Hi).
    + rewrite Hkg, <- Hnk. by apply (i_qlock _ _ _ _ Hi).
    + by apply Hpg.
    + left. rewrite (v_d _ _ _ _ Hv'), (v_d _ _ _ _ Hv). done.
    + intros f Ef. by destruct (Hbg f).
    + intros Hwait. rewrite (v_w _ _ _ _ Hv) in Hwait. by destruct (Hw Hwait).
    + intros b y _ _ _. by apply (Hwk got b y).
Qed.

Lemma spin_inv s o l O a x n f :
  inv s o l O -> threads s !! a = Some x -> has_lock (pc x) = false -> queued (pc x) = false -> is_waking (pc x) = false -> pc x <> RelWake ->
  inv (spin s a x n f) o l O.
Proof. intros Hi Hx H1 H2 H3 H4. unfold spin. apply goto_inv; try done; destruct (Nat.ltb n yieldVPLimit); done. Qed.

Lemma filter_neq_elem (l : list Z) a b : b <> a -> b ∈ List.filter (fun c => negb (c =? a)) l <-> b ∈ l.
Proof.
  intros Hn. rewrite !list_elem_of_In, List.filter_In. split; [by intros [? _]|]. intros H. split; [done|]. apply negb_true_iff, Z.eqb_neq. done.
Qed.

Lemma filter_neq_not (l : list Z) a : a ∉ List.filter (fun c => negb (c =? a)) l.
Proof. rewrite list_elem_of_In, List.filter_In. intros [_ H]. by rewrite Z.eqb_refl in H. Qed.

(** Every step of acquiring keeps the invariant; only Block and the queue's lock
    can hold a thread up. *)
Lemma slowAcquire_step_inv s o l O a x s' :
  inv s o l O -> threads s !! a = Some x -> slowAcquire_step s a x = Some s' -> exists o' l', inv s' o' l' O.
Proof.
  intros Hi Hx Hs. unfold slowAcquire_step in Hs. destruct (pc x) as [|dt|n f|n f|f|f|f|cur f|f|f|f|dt|c nv|nv| |rest] eqn:Ep; try discriminate Hs.
  - injection Hs as <-. exists o, l. destruct (negb (locked (word s))); [apply goto_inv; try done; rewrite Ep; done|].
    destruct (waiting (word s)); [apply goto_inv; try done; rewrite Ep; done|]. apply spin_inv; try done; rewrite Ep; done.
  - injection Hs as <-. eexists _, l. apply fetch_and_or_inv; try done; try (by rewrite Ep); try (by destruct (Nat.ltb (S n) yieldVPLimit)); by rewrite Ep; destruct (Nat.ltb (S n) yieldVPLimit).
  - destruct (bool_decide (qlock s = None)); [|done]. cbn [assertK mbind option_bind] in Hs.
    assert (Hnl : a ∉ l) by (rewrite <- (i_in _ _ _ _ Hi a x Hx); by rewrite Ep). destruct (i_ids _ _ _ _ Hi a ltac:(eauto)) as [Ha HO].
    destruct (wq_add_ok (queue s) l O a (i_q _ _ _ _ Hi) Ha Hnl HO) as (q & E & Hq). rewrite E in Hs. cbn [mbind option_bind] in Hs. injection Hs as <-.
    exists o, (l ++ [a]). unfold goto. cbn [word queue qlock threads]. apply (update_inv s o l O a x); cbn [pc token]; try done; try apply Hi; try done.
    + rewrite <- (i_own _ _ _ _ Hi a x Hx). by rewrite Ep.
    + split; [intros _; apply elem_of_app; right; by left|done].
    + intros b Hb. rewrite elem_of_app, list_elem_of_singleton. tauto.
    + rewrite <- (i_qlock _ _ _ _ Hi a x Hx). by rewrite Ep.
    + by left.
    + by left.
    + intros b y _ _ _ [E'|(rest & E' & _)]; congruence.
  - injection Hs as <-. eexists _, l. apply fetch_and_or_inv; try done; by rewrite Ep.
  - injection Hs as <-. exists o, l. destruct (locked (word s)) eqn:El; [destruct (waiting (word s)) eqn:Ew|]; apply goto_inv; try done; by rewrite Ep.
  - injection Hs as <-. exists o, l. destruct (Z.eqb_spec (word s) cur) as [Ec|]; [|apply goto_inv; try done; by rewrite Ep].
    destruct (i_word _ _ _ _ Hi) as (wt & d & Hv & Hw). pose proof (view_wait _ _ _ _ Hv) as Hv'. rewrite Ec in Hv'.
    assert (Hl : locked cur = true) by (specialize (i_pc _ _ _ _ Hi a x Hx); by rewrite Ep). rewrite <- Ec, (v_l _ _ _ _ Hv) in Hl. apply bool_decide_eq_true in Hl.
    unfold goto, set_word. cbn [word queue qlock threads]. apply (update_inv s o l O a x); cbn [pc token]; try done; try apply Hi; try done.
    + exists true, d. split; [done|]. done.
    + rewrite <- (i_own _ _ _ _ Hi a x Hx). by rewrite Ep.
    + rewrite <- (i_in _ _ _ _ Hi a x Hx). by rewrite Ep.
    + rewrite <- (i_qlock _ _ _ _ Hi a x Hx). by rewrite Ep.
    + left. rewrite (v_d _ _ _ _ Hv'), (v_d _ _ _ _ Hv). done.
    + intros f' _ _. apply (v_w _ _ _ _ Hv').
    + intros _. left. apply (v_w _ _ _ _ Hv').
    + intros b y _ _ _ [E'|(rest & E' & _)]; congruence.
  - destruct (token x); [|done]. injection Hs as <-. exists o, l. apply (update_inv s o l O a x); cbn [pc token]; try done; try apply Hi; try done.
    + rewrite <- (i_own _ _ _ _ Hi a x Hx). by rewrite Ep.
    + rewrite <- (i_in _ _ _ _ Hi a x Hx). by rewrite Ep.
    + rewrite <- (i_qlock _ _ _ _ Hi a x Hx). by rewrite Ep.
    + by left.
    + by left.
    + intros b y _ _ _ [E'|(rest & E' & _)]; congruence.
  - destruct (bool_decide (qlock s = None)); [|done]. cbn [assertK mbind option_bind] in Hs.
    assert (Hin : a ∈ l) by (rewrite <- (i_in _ _ _ _ Hi a x Hx); by rewrite Ep).
    destruct (wq_remove_ok (queue s) l O a (i_q _ _ _ _ Hi) Hin) as (q & E & Hq). rewrite E in Hs. cbn [mbind option_bind] in Hs. injection Hs as <-.
    exists o, (List.filter (fun b => negb (b =? a)) l). unfold goto. cbn [word queue qlock threads]. apply (update_inv s o l O a x); cbn [pc token]; try done; try apply Hi; try done.
    + rewrite <- (i_own _ _ _ _ Hi a x Hx). by rewrite Ep.
    + split; [done|]. intros H. by destruct (filter_neq_not l a).
    + intros b Hb. by apply filter_neq_elem.
    + rewrite <- (i_qlock _ _ _ _ Hi a x Hx). by rewrite Ep.
    + by left.
    + by left.
    + intros b y _ _ _ [E'|(rest & E' & _)]; congruence.
  - injection Hs as <-. exists o, l. apply goto_inv; try done; try (by rewrite Ep); by destruct f.
Qed.

(** Giving the lock back: the word without its bits. *)
Lemma give_inv s o l O a x nv e p :
  inv s o l O -> threads s !! a = Some x -> has_lock (pc x) = true -> queued (pc x) = false -> is_waking (pc x) = false -> pc x <> RelWake ->
  view nv false false e -> has_lock p = false -> queued p = false -> is_waking p = false -> pc_ok nv p -> (waiting (word s) = true -> p = RelWake) ->
  inv (goto (set_word nv s) a x p) None l O.
Proof.
  intros Hi Hx Hh Hnq Hnk Hnr Hv Hp Hpq Hpk Hok Hw. assert (Ho : o = Some a) by by apply (i_own _ _ _ _ Hi a x Hx).
  unfold goto, set_word. cbn [word queue qlock threads]. apply (update_inv s o l O a x); cbn [pc token]; try done; try apply Hi; try done.
  - exists false, e. done.
  - by rewrite Hp.
  - intros b Hb. split; congruence.
  - rewrite Hpq, <- Hnq. by apply (i_in _ _ _ _ Hi).
  - rewrite Hpk, <- Hnk. by apply (i_qlock _ _ _ _ Hi).
  - by right.
  - intros f ->. done.
  - intros Hwt. right. by apply Hw.
  - intros b y _ _ _ [E'|(rest & E' & _)]; [done|]. by rewrite E' in Hnk.
Qed.

Lemma release_step_inv s o l O a x s' :
  inv s o l O -> threads s !! a = Some x -> release_step s a x = Some s' -> exists o' l', inv s' o' l' O.
Proof.
  intros Hi Hx Hs. unfold release_step in Hs. destruct (i_word _ _ _ _ Hi) as (wt & d & Hv & Hw). pose proof (i_pc _ _ _ _ Hi a x Hx) as Hpc.
  destruct (pc x) as [|dt|n f|n f|f|f|f|cur f|f|f|f|dt|c nv|nv| |rest] eqn:Ep; try discriminate Hs; cbn [pc_ok] in Hpc.
  - injection Hs as <-. exists o, l. destruct (view_release _ _ _ _ Hv) as [Hv1 Hv2]. apply goto_inv; try done; try (by rewrite Ep). cbn. split; [apply (v_w _ _ _ _ Hv1)|].
    destruct dt as [dt|]; [done|eauto].
  - destruct Hpc as [Hc (e & He)]. injection Hs as <-. destruct (Z.eqb_spec (word s) c) as [Ec|].
    + exists None, l. apply (give_inv s o l O a x nv e); try done; try (by rewrite Ep). rewrite Ec, Hc. done.
    + exists o, l. apply goto_inv; try done; try (by rewrite Ep). cbn. eauto.
  - destruct Hpc as (e & He). injection Hs as <-. exists None, l. apply (give_inv s o l O a x nv e); try done; by rewrite Ep.
  - destruct (bool_decide (qlock s = None)) eqn:Eq; [|done]. apply bool_decide_eq_true in Eq. cbn [assertK mbind option_bind] in Hs. rewrite (wq_wakeAll_ok _ l O (i_q _ _ _ _ Hi)) in Hs. cbn [mbind option_bind] in Hs.
    injection Hs as <-. exists o, l. unfold goto. cbn [word queue qlock threads]. apply (update_inv s o l O a x); cbn [pc token]; try done; try apply Hi; try done.
    + rewrite <- (i_own _ _ _ _ Hi a x Hx). by rewrite Ep.
    + rewrite <- (i_in _ _ _ _ Hi a x Hx). by rewrite Ep.
    + intros b Hb. rewrite Eq. split; congruence.
    + by left.
    + by left.
    + intros b y Hb _ _ _. right. by exists l.
  - destruct rest as [|b rest].
    + injection Hs as <-. exists o, l. assert (Hql : qlock s = Some a) by (apply (i_qlock _ _ _ _ Hi a x Hx); by rewrite Ep).
      unfold goto. cbn [word queue qlock threads]. apply (update_inv s o l O a x); cbn [pc token]; try done; try apply Hi; try done.
      * rewrite <- (i_own _ _ _ _ Hi a x Hx). by rewrite Ep.
      * rewrite <- (i_in _ _ _ _ Hi a x Hx). by rewrite Ep.
      * intros c Hc. rewrite Hql. split; congruence.
      * by left.
      * by left.
      * rewrite Ep. intros c y _ _ _ [E'|(rest & E' & Hin)]; [done|]. injection E' as <-. by apply not_elem_of_nil in Hin.
    + pose proof (token_inv s o l O b Hi) as Hi1. set (s1 := mkL _ _ _ (alter _ b (threads s))) in Hi1.
      destruct (alter (fun y => mkTh (pc y) true) b (threads s) !! a) as [y|] eqn:Ey; [|done]. cbn [mbind option_bind] in Hs. injection Hs as <-. exists o, l.
      assert (Epy : pc y = Waking (b :: rest)).
      { destruct (decide (a = b)) as [->|Hn]; [rewrite lookup_alter_eq, Hx in Ey; injection Ey as <-; done|rewrite lookup_alter_ne, Hx in Ey by done; by injection Ey as <-]. }
      unfold goto. cbn [word queue qlock threads]. apply (update_inv s1 o l O a y); cbn [pc token]; try done; try apply Hi1; try done.
      * rewrite <- (i_own _ _ _ _ Hi1 a y Ey). by rewrite Epy.
      * rewrite <- (i_in _ _ _ _ Hi1 a y Ey). by rewrite Epy.
      * assert (Hk := i_qlock _ _ _ _ Hi1 a y Ey). rewrite Epy in Hk. exact Hk.
      * by left.
      * by left.
      * rewrite Epy. intros c z _ Hz Ht [E'|(rest' & E' & Hin)]; [done|]. injection E' as <-. apply elem_of_cons in Hin as [->|Hin]; [|right; by exists rest].
        unfold s1 in Hz. cbn [threads] in Hz. rewrite lookup_alter_eq in Hz. destruct (threads s !! b); [|done]. cbn in Hz. injection Hz as <-. done.
Qed.

(** ** All steps *)

(** Data to store does not overlap the two bits. *)
Definition cmd_ok (c : cmd) : Prop := match c with StoreAndRelease d => view d false false (data_of d) | _ => True end.

Lemma bb_step_inv s o l O a c s' : inv s o l O -> cmd_ok c -> step s a c = Some s' -> exists o' l', inv s' o' l' O.
Proof.
  intros Hi Hc Hs. unfold step in Hs. destruct (threads s !! a) as [x|] eqn:Hx; [|done]. cbn [mbind option_bind] in Hs.
  assert (Hfast : forall f : bool, locked (word s) = false -> pc_ok (Z.lor (word s) lockBitMask) (Held (if f then Some (word s) else None))).
  { intros f Hl. destruct f; [|done]. cbn. destruct (i_word _ _ _ _ Hi) as (wt & d & Hv & Hw). assert (Ho : bool_decide (is_Some o) = false) by (by rewrite <- (v_l _ _ _ _ Hv)).
    assert (wt = false) as -> by (destruct wt; [apply bool_decide_eq_false in Ho; by destruct Ho; apply Hw|done]). rewrite Ho in Hv.
    rewrite (v_d _ _ _ _ (view_lock _ _ _ _ Hv)). by apply view_clear. }
  assert (Hgo : match slowAcquire_step s a x with Some s' => Some s' | None => release_step s a x end = Some s' -> exists o' l', inv s' o' l' O).
  { destruct (slowAcquire_step s a x) as [s1|] eqn:E; [intros [= <-]; by eapply slowAcquire_step_inv|intros Hr; by eapply release_step_inv]. }
  destruct (pc x) as [|dt|n f|n f|f|f|f|cur f|f|f|f|dt|cc nv|nv| |rest] eqn:Ep; destruct c as [g|g| |d|]; try discriminate Hs; try (by apply Hgo).
  - injection Hs as <-. eexists _, l. apply fetch_and_or_inv; try done; try (by rewrite Ep). apply Hfast.
  - injection Hs as <-. eexists _, l. apply fetch_and_or_inv; try done; try (by rewrite Ep). apply Hfast.
  - injection Hs as <-. exists o, l. apply goto_inv; try done; by rewrite Ep.
  - injection Hs as <-. exists o, l. apply goto_inv; try done; try (by rewrite Ep). cbn. eauto.
Qed.

Lemma bb_run_inv sch s o l O : inv s o l O -> Forall (fun x : Z * cmd => cmd_ok x.2) sch -> exists o' l', inv (run s sch) o' l' O.
Proof.
  revert s o l. induction sch as [|[a c] sch IH]; intros s o l Hi Hc; [eauto|]. apply Forall_cons in Hc as [Hc1 Hc]. cbn [run]. destruct (step s a c) as [s'|] eqn:E; [|by eapply IH].
  destruct (bb_step_inv s o l O a c s' Hi Hc1 E) as (o' & l' & Hi'). by eapply IH.
Qed.

(** The only places where a thread in the lock's code can be held up. *)
Definition held_up (s : t) (a : Z) (x : thread) : Prop :=
  (exists f, pc x = ToBlock f) /\ token x = false \/ exists b y, b <> a /\ qlock s = Some b /\ threads s !! b = Some y /\ step s b Go <> None.

Lemma step_total s o l O a x :
  inv s o l O -> threads s !! a = Some x -> pc x <> Out -> (forall d, pc x <> Held d) -> step s a Go = None -> held_up s a x.
Proof.
  intros Hi Hx Hno Hnh Hs. unfold step in Hs. rewrite Hx in Hs. cbn [mbind option_bind] in Hs.
  assert (Hq : is_waking (pc x) = false -> bool_decide (qlock s = None) = false -> held_up s a x).
  { intros Hnw Hf. apply bool_decide_eq_false in Hf. destruct (qlock s) as [b|] eqn:Eq; [|done]. destruct (i_qthread _ _ _ _ Hi b Eq) as [y Hy]. right. exists b, y.
    assert (Hyw : is_waking (pc y) = true) by by apply (i_qlock _ _ _ _ Hi b y Hy). split; [intros ->; congruence|]. split; [done|]. split; [done|].
    unfold step. rewrite Hy. cbn [mbind option_bind]. destruct (pc y) as [| | | | | | | | | | | | | | |[|c rest]] eqn:Ey; try discriminate Hyw; unfold slowAcquire_step, release_step; rewrite Ey; [done|].
    destruct (alter _ c (threads s) !! b) eqn:El; [done|]. exfalso. destruct (decide (c = b)) as [->|Hn]; [rewrite lookup_alter_eq, Hy in El|rewrite lookup_alter_ne, Hy in El]; done. }
  unfold slowAcquire_step, release_step in Hs. destruct (pc x) as [|dt|n f|n f|f|f|f|cur f|f|f|f|dt|cc nv|nv| |rest] eqn:Ep; try discriminate Hs; try done; try (by destruct (Hnh dt)).
  - destruct (bool_decide (qlock s = None)) eqn:E; [|by apply Hq]. cbn [assertK mbind option_bind] in Hs.
    assert (Hnl : a ∉ l) by (rewrite <- (i_in _ _ _ _ Hi a x Hx); by rewrite Ep). destruct (i_ids _ _ _ _ Hi a ltac:(eauto)) as [Ha HO].
    destruct (wq_add_ok (queue s) l O a (i_q _ _ _ _ Hi) Ha Hnl HO) as (q & Eq & _). by rewrite Eq in Hs.
  - destruct (token x) eqn:Et; [done|]. left. split; [eauto|done].
  - destruct (bool_decide (qlock s = None)) eqn:E; [|by apply Hq]. cbn [assertK mbind option_bind] in Hs.
    assert (Hin : a ∈ l) by (rewrite <- (i_in _ _ _ _ Hi a x Hx); by rewrite Ep).
    destruct (wq_remove_ok (queue s) l O a (i_q _ _ _ _ Hi) Hin) as (q & Eq & _). by rewrite Eq in Hs.
  - destruct (bool_decide (qlock s = None)) eqn:E; [|by apply Hq]. cbn [assertK mbind option_bind] in Hs. by rewrite (wq_wakeAll_ok _ l O (i_q _ _ _ _ Hi)) in Hs.
  - destruct rest as [|c rest]; [done|]. exfalso. destruct (alter _ c (threads s) !! a) eqn:El; [done|].
    destruct (decide (c = a)) as [->|Hn]; [rewrite lookup_alter_eq, Hx in El|rewrite lookup_alter_ne, Hx in El]; done.
Qed.

Lemma bb_init_inv w q ts O : view w false false (data_of w) -> wq_rep q [] O -> Forall (fun a => a <> 0 /\ a ∉ O) ts -> inv (init w q ts) None [] O.
Proof.
  intros Hw Hq Hts.
  assert (Hth : forall a x, threads (init w q ts) !! a = Some x -> x = mkTh Out false /\ a ∈ ts).
  { intros a x Hx. apply elem_of_list_to_map_2 in Hx. by apply list_elem_of_fmap in Hx as (b & [= -> ->] & Hb). }
  split; cbn [word queue qlock]; try done.
  - exists false, (data_of w). done.
  - intros a x Hx. by destruct (Hth a x Hx) as [-> _].
  - intros a x Hx. destruct (Hth a x Hx) as [-> _]. split; [done|]. intros H. by apply not_elem_of_nil in H.
  - intros a [x Hx]. destruct (Hth a x Hx) as [_ Ha]. by apply (proj1 (Forall_forall _ ts) Hts).
  - intros a x Hx. by destruct (Hth a x Hx) as [-> _].
  - intros a x Hx. by destruct (Hth a x Hx) as [-> _].
  - intros a x f Hx. by destruct (Hth a x Hx) as [-> _].
Qed.

(** What the lock promises in a state. *)
Record correct (s : t) : Prop := {
  c_excl : forall a b x y, threads s !! a = Some x -> threads s !! b = Some y -> has_lock (pc x) = true -> has_lock (pc y) = true -> a = b;
  c_data : forall a x d, threads s !! a = Some x -> pc x = Held (Some d) -> d = data_of (word s);
  c_wake : forall a x f, threads s !! a = Some x -> pc x = ToBlock f -> token x = false ->
    exists b y, threads s !! b = Some y /\ (has_lock (pc y) = true /\ waiting (word s) = true \/ wakes (pc y) a);
  c_step : forall a x, threads s !! a = Some x -> pc x <> Out -> (forall d, pc x <> Held d) -> step s a Go = None -> held_up s a x;
}.

Lemma inv_correct s o l O : inv s o l O -> correct s.
Proof.
  intros Hi. split.
  - intros a b x y Hx Hy Ha Hb. apply (i_own _ _ _ _ Hi a x Hx) in Ha. apply (i_own _ _ _ _ Hi b y Hy) in Hb. congruence.
  - intros a x d Hx Ep. pose proof (i_pc _ _ _ _ Hi a x Hx) as H. by rewrite Ep in H.
  - intros a x f Hx Ep Ht. destruct (i_wake _ _ _ _ Hi a x f Hx Ep Ht) as [Hw|(b & y & Hy & H)]; [|exists b, y; tauto].
    destruct (i_word _ _ _ _ Hi) as (wt & d & Hv & Ho). rewrite (v_w _ _ _ _ Hv) in Hw. destruct (Ho Hw) as [b Hb]. destruct (i_owner _ _ _ _ Hi b Hb) as [y Hy].
    exists b, y. split; [done|]. left. split; [by apply (i_own _ _ _ _ Hi b y Hy)|]. by rewrite (v_w _ _ _ _ Hv).
  - intros a x Hx H1 H2 H3. by eapply step_total.
Qed.

(** A release that finds the wait bit set takes the path that wakes. *)
Lemma release_wakes s o l O a x cur nv :
  inv s o l O -> threads s !! a = Some x -> pc x = RelCas cur nv -> waiting (word s) = true -> step s a Go = Some (goto s a x (RelSwap nv)).
Proof.
  intros Hi Hx Ep Hw. unfold step. rewrite Hx. cbn [mbind option_bind]. unfold slowAcquire_step, release_step. rewrite Ep. pose proof (i_pc _ _ _ _ Hi a x Hx) as Hpc. rewrite Ep in Hpc. destruct Hpc as [Hc _].
  destruct (Z.eqb_spec (word s) cur) as [E|]; [congruence|done].
Qed.

End lock.

(** ** Theorem *)

(** C23: the blocking lock in two bits of a word is correct, on any queue of blocked
    threads that keeps the promise [WaitQueue], for any threads and any
    interleaving of their acquires, tries and releases, each access to the word a
    step.  At most one thread has the lock.  The data an acquire returns is the
    data in the word.  A thread that has blocked without having been unblocked is
    answered: a thread has the lock and the wait bit is set, so that its release
    will wake the queue, or a thread is on its way to unblock it.  And no thread in
    the lock's code is held up anywhere else, except behind the queue's lock, whose
    holder can run. *)
Theorem bitblock_correct (Q : Type) (H : BlockedThreadQueues.WaitQueue Q) lockBit waitBit w q O ts sch :
  0 <= lockBit < 64 -> 0 <= waitBit < 64 -> lockBit <> waitBit ->
  view lockBit waitBit w false false (data_of lockBit waitBit w) -> BlockedThreadQueues.wq_rep q [] O ->
  Forall (fun a => a <> 0 /\ a ∉ O) ts -> Forall (fun x => cmd_ok lockBit waitBit x.2) sch ->
  correct lockBit waitBit (run lockBit waitBit (init w q ts) sch).
Proof.
  intros H1 H2 H3 Hw Hq Hts Hsch. destruct (bb_run_inv lockBit waitBit H1 H2 H3 sch (init w q ts) None [] O) as (o & l & Hi); [by apply bb_init_inv|done|].
  by eapply inv_correct.
Qed.

(** Thread 1 takes the lock; 2 spins, queues up, sets the wait bit and blocks; 1
    releases, finds the wait bit and wakes 2, which gets the lock. *)
Definition bitblock_demo : list (Z * cmd) :=
  [(1, Acquire true); (2, Acquire true)] ++ replicate 210 (2, Go) ++ [(1, StoreAndRelease 40)] ++ replicate 8 (1, Go) ++ replicate 8 (2, Go).

Lemma demo_ok : Forall (fun x => cmd_ok 0 1 x.2) bitblock_demo.
Proof.
  unfold bitblock_demo. rewrite !Forall_app. split; [by repeat constructor|]. split; [by apply Forall_replicate|].
  split; [|split; by apply Forall_replicate]. constructor; [|constructor]. split; [unfold is_uval; lia|reflexivity..].
Qed.

Lemma bitblock_correct_witness :
  correct (WaitQueue0 := BlockedThreadQueues.btq_waitqueue 4096) 0 1 (run (WaitQueue0 := BlockedThreadQueues.btq_waitqueue 4096) 0 1 (init 8 (BlockedThreadQueues.init ∅) [1; 2]) bitblock_demo).
Proof.
  apply (bitblock_correct _ (BlockedThreadQueues.btq_waitqueue 4096) 0 1 8 (BlockedThreadQueues.init ∅) ∅ [1; 2] bitblock_demo);
    [lia|lia|lia| |apply BlockedThreadQueues.q_rep_init| |apply demo_ok].
  - split; [unfold is_uval; lia|reflexivity..].
  - repeat constructor; set_solver.
Defined.

Example bitblock_run :
  pc <$> threads (run (WaitQueue0 := BlockedThreadQueues.btq_waitqueue 4096) 0 1 (init 8 (BlockedThreadQueues.init ∅) [1; 2]) bitblock_demo) !! 2 = Some (Held (Some 40)).
Proof. vm_compute. reflexivity. Qed.

End BitBLock.
