(* ===== verification/DirBlock.v ===== *)
(** * DirBlock: one block of a KFS directory, os/servers/kfs/LSOBasicDir.C and .H

    A directory is an array of blocks of 4096 bytes.  A block is a sequence of
    entries of variable length, each with the length of its record, and ends with
    an entry of length zero.  An entry whose object is zero is unused.  The fields
    are in the byte order of the processor, big-endian.

    Here are the bytes, the fields of an entry, the search for a name and for a
    hole in one block, and the changes to one block that the operations on a
    directory (LSOBasicDir.v) make. *)

From stdpp Require Import base numbers option list.
From S2P Require Import K42 Prelude.

Module DirBlock.

Definition OS_BLOCK_SHIFT : Z := 12.
Definition OS_BLOCK_SIZE : Z := 4096.

(** ** Bytes *)

Definition sub (b : list Z) (o n : Z) : list Z := take (Z.to_nat n) (drop (Z.to_nat o) b).

(** [n] bytes from offset [o], and their replacement; outside the block: stuck. *)
Definition rd (b : list Z) (o n : Z) : option (list Z) :=
  if (0 <=? o) && (0 <=? n) && (o + n <=? Z.of_nat (length b)) then Some (sub b o n) else None.

Definition wr (b : list Z) (o : Z) (bs : list Z) : option (list Z) :=
  if (0 <=? o) && (o + Z.of_nat (length bs) <=? Z.of_nat (length b))
  then Some (take (Z.to_nat o) b ++ bs ++ drop (Z.to_nat o + length bs) b) else None.

(** Big-endian numbers. *)
Definition be (bs : list Z) : Z := foldl (fun v x => 256 * v + x) 0 bs.

Fixpoint enc (n : nat) (v : Z) : list Z :=
  match n with
  | O => []
  | S n => enc n (v / 256) ++ [v mod 256]
  end.

(** ** The fields of an entry: otokID at 0, reclen at 4, nameLength at 6, name at 7 *)

Definition getOtokID (b : list Z) (de : Z) : option Z := be <$> rd b de 4.
Definition setOtokID (b : list Z) (de v : Z) : option (list Z) := wr b de (enc 4 v).
Definition getReclen (b : list Z) (de : Z) : option Z := be <$> rd b (de + 4) 2.
Definition setReclen (b : list Z) (de v : Z) : option (list Z) := wr b (de + 4) (enc 2 v).
Definition nameLength (b : list Z) (de : Z) : option Z := be <$> rd b (de + 6) 1.
Definition setNameLength (b : list Z) (de v : Z) : option (list Z) := wr b (de + 6) (enc 1 v).
Definition name (b : list Z) (de n : Z) : option (list Z) := rd b (de + 7) n.
Definition setName (b : list Z) (de : Z) (fname : list Z) : option (list Z) := wr b (de + 7) fname.

(** sizeof(struct DirEntry) is 264. *)
Definition GetPhysRecLen (lengthString : Z) : Z := ALIGN_UP (uadd (264 - 256) lengthString) 4.

(** ** Searching for a name *)

Definition matches (b : list Z) (de : Z) (fname : list Z) : option bool :=
  id ← getOtokID b de;
  if id =? 0 then Some false
  else
    nl ← nameLength b de;
    if nl =? Z.of_nat (length fname) then
      nm ← name b de (Z.of_nat (length fname));
      Some (bool_decide (nm = fname))
    else Some false.

(** while (de->getReclen() > 0) { ... }: the entry where it stops, and the one
    before it. *)
Fixpoint scan (fuel : nat) (b : list Z) (fname : list Z) (offset : Z) (prev : option Z)
  : option (Z * option Z) :=
  match fuel with
  | O => None
  | S fuel =>
      rl ← getReclen b offset;
      if 0 <? rl then
        hit ← matches b offset fname;
        if hit : bool then Some (offset, prev)
        else scan fuel b fname (offset + rl) (Some offset)
      else Some (offset, prev)
  end.

Definition SCAN_FUEL : nat := 4097.

(** The body of matchEntry for one block: the entry found and the one before. *)
Definition matchBlock (b : list Z) (fname : list Z) : option (option (Z * option Z)) :=
  r ← scan SCAN_FUEL b fname 0 None;
  id ← getOtokID b r.1;
  rl ← getReclen b r.1;
  Some (if negb (id =? 0) && negb (rl =? 0) then Some r else None).

(** ** Searching for a hole *)

(** The loop of findHole: the entry with enough space and the length in use
    there, or the end of the block. *)
Fixpoint hole (fuel : nat) (b : list Z) (entryLen offset : Z) : option (Z + Z * Z) :=
  match fuel with
  | O => None
  | S fuel =>
      rl ← getReclen b offset;
      if 0 <? rl then
        id ← getOtokID b offset;
        ptrLen ← (if id =? 0 then Some 0 else nl ← nameLength b offset; Some (GetPhysRecLen nl));
        if entryLen <=? usub rl ptrLen then Some (inr (offset, ptrLen))
        else hole fuel b entryLen (offset + rl)
      else Some (inl offset)
  end.

(** The space after the [ptrLen] bytes in use of an entry becomes the new one. *)
Definition splitEntry (b : list Z) (ptr ptrLen length : Z) : option (list Z * Z) :=
  let entry := ptr + ptrLen in
  rl ← getReclen b ptr;
  b ← setReclen b entry (usub rl ptrLen);
  b ← setNameLength b entry length;
  id ← getOtokID b ptr;
  b ← (if id =? 0 then Some b else setReclen b ptr ptrLen);
  Some (b, entry).

(** A new entry at the end, and a new end. *)
Definition appendEntry (b : list Z) (ptr entryLen length : Z) : option (list Z * Z) :=
  b ← setReclen b ptr entryLen;
  b ← setNameLength b ptr length;
  rl ← getReclen b ptr;
  b ← setReclen b (ptr + rl) 0;
  Some (b, ptr).

(** The answer is the block and the new entry. *)
Definition findHole (b : list Z) (length : Z) : option (option (list Z * Z)) :=
  let entryLen := GetPhysRecLen length in
  r ← hole SCAN_FUEL b entryLen 0;
  match r with
  | inr (ptr, ptrLen) => x ← splitEntry b ptr ptrLen length; Some (Some x)
  | inl ptr =>
      if uadd entryLen (GetPhysRecLen 0) <? usub OS_BLOCK_SIZE ptr
      then x ← appendEntry b ptr entryLen length; Some (Some x)
      else Some None
  end.

(** ** Changes to a block *)

(** The first entry of a new block. *)
Definition freshBlock (b : list Z) (length : Z) : option (list Z) :=
  b ← setReclen b 0 (GetPhysRecLen length);
  rl ← getReclen b 0;
  b ← setOtokID b rl 0;
  b ← setNameLength b rl 0;
  setReclen b rl 0.

(** An entry gets its name and its object. *)
Definition fillEntry (b : list Z) (entry : Z) (fname : list Z) (otok : Z) : option (list Z) :=
  b ← setNameLength b entry (Z.of_nat (length fname));
  b ← setName b entry fname;
  setOtokID b entry otok.

(** An entry is removed: the previous one grows; or the block is empty; or the
    first entry becomes unused. *)
Definition removeEntry (b : list Z) (entry : Z) (prev : option Z) : option (list Z) :=
  match prev with
  | Some p =>
      rp ← getReclen b p;
      re ← getReclen b entry;
      setReclen b p (rp + re)
  | None =>
      re ← getReclen b entry;
      rn ← getReclen b re;
      if rn =? 0 then setReclen b entry 0 else setOtokID b entry 0
  end.

(** ** Lemmas on bytes *)

Lemma enc_length n : forall v, length (enc n v) = n.
Proof. induction n as [|n IH]; intros v; simpl; [done|]. rewrite length_app, IH. simpl. lia. Qed.

Lemma be_snoc bs x : be (bs ++ [x]) = 256 * be bs + x.
Proof. unfold be. by rewrite foldl_app. Qed.

(** A number is read back, up to the width of its field. *)
Lemma be_enc n : forall v, 0 <= v < 256 ^ Z.of_nat n -> be (enc n v) = v.
Proof.
  induction n as [|n IH]; intros v Hv; simpl; [unfold be; simpl; lia|].
  rewrite be_snoc, IH.
  - pose proof (Z.div_mod v 256). lia.
  - rewrite Nat2Z.inj_succ, Z.pow_succ_r in Hv by lia. split; [apply Z.div_pos; lia|apply Z.div_lt_upper_bound; lia].
Qed.

Lemma rd_range b o n : 0 <= o -> 0 <= n -> o + n <= Z.of_nat (length b) -> rd b o n = Some (sub b o n).
Proof. intros. unfold rd. by rewrite !(proj2 (Z.leb_le _ _)) by lia. Qed.

Lemma rd_some b o n x : rd b o n = Some x -> 0 <= o /\ 0 <= n /\ o + n <= Z.of_nat (length b) /\ x = sub b o n /\ Z.of_nat (length x) = n.
Proof.
  unfold rd. destruct (_ && _) eqn:E; [|done]. intros [= <-]. apply andb_true_iff in E as [[E1 E2]%andb_true_iff E3].
  apply Z.leb_le in E1, E2, E3. split_and!; try lia; [done|]. unfold sub. rewrite length_take, length_drop. lia.
Qed.

Section wr.
Context {b b' : list Z} {o : Z} {bs : list Z}.
Hypothesis Hw : wr b o bs = Some b'.

Lemma wr_in : 0 <= o /\ o + Z.of_nat (length bs) <= Z.of_nat (length b) /\ b' = take (Z.to_nat o) b ++ bs ++ drop (Z.to_nat o + length bs) b.
Proof. unfold wr in Hw. destruct (_ && _) eqn:E; [|done]. injection Hw as <-. split_and!; try lia. done. Qed.

Lemma wr_length : length b' = length b.
Proof. destruct wr_in as (H1 & H2 & ->). rewrite !length_app, length_take, length_drop. lia. Qed.

Lemma rd_wr_eq : rd b' o (Z.of_nat (length bs)) = Some bs.
Proof.
  destruct wr_in as (H1 & H2 & E). rewrite rd_range by (rewrite ?wr_length; lia). f_equal. unfold sub. rewrite E, Nat2Z.id.
  rewrite drop_app_length' by (rewrite length_take; lia). by rewrite take_app_length.
Qed.

Lemma rd_wr_ne o' n : o' + n <= o \/ o + Z.of_nat (length bs) <= o' -> rd b' o' n = rd b o' n.
Proof.
  intros H. unfold rd. rewrite wr_length. destruct (_ && _) eqn:E; [|done]. f_equal. destruct wr_in as (H1 & H2 & ->).
  unfold sub. destruct H as [H|H].
  - rewrite drop_app_le, take_app_le by (rewrite ?length_drop, ?length_take; lia). rewrite skipn_firstn_comm, take_take.
    f_equal. lia.
  - rewrite app_assoc, drop_app_ge by (rewrite length_app, length_take; lia). rewrite drop_drop, length_app, length_take. do 2 f_equal. lia.
Qed.

End wr.

Lemma wr_some b o bs : 0 <= o -> o + Z.of_nat (length bs) <= Z.of_nat (length b) -> is_Some (wr b o bs).
Proof. intros. unfold wr. rewrite !(proj2 (Z.leb_le _ _)) by lia. by eexists. Qed.

(** [b'] is [b] but for the [n] bytes at [o]. *)
Definition unch (b b' : list Z) (o n : Z) : Prop :=
  length b' = length b /\ forall k m, k + m <= o \/ o + n <= k -> rd b' k m = rd b k m.

Lemma wr_unch b o bs b' : wr b o bs = Some b' -> unch b b' o (Z.of_nat (length bs)).
Proof. intros Hw. split; [by eapply wr_length|]. intros k m. by apply rd_wr_ne. Qed.

Lemma unch_trans b1 b2 b3 o n o1 n1 o2 n2 :
  unch b1 b2 o1 n1 -> unch b2 b3 o2 n2 -> o <= o1 -> o1 + n1 <= o + n -> o <= o2 -> o2 + n2 <= o + n -> unch b1 b3 o n.
Proof.
  intros [L1 H1] [L2 H2] ? ? ? ?. split; [congruence|]. intros k m Hk. rewrite H2, H1; [done|lia..].
Qed.

Lemma unch_weaken b b' o n o' n' : unch b b' o n -> o' <= o -> o + n <= o' + n' -> unch b b' o' n'.
Proof. intros [L H] ? ?. split; [done|]. intros k m Hk. apply H. lia. Qed.

(** A number of [n] bytes is written and read back. *)
Lemma set_field b o n v :
  0 <= o -> o + Z.of_nat n <= Z.of_nat (length b) -> 0 <= v < 256 ^ Z.of_nat n ->
  exists b', wr b o (enc n v) = Some b' /\ be <$> rd b' o (Z.of_nat n) = Some v /\ unch b b' o (Z.of_nat n).
Proof.
  intros Ho Hl Hv. destruct (wr_some b o (enc n v)) as [b' Hw]; [done|by rewrite enc_length|]. exists b'. split; [done|].
  pose proof (rd_wr_eq Hw) as Hr. pose proof (wr_unch _ _ _ _ Hw) as Hu. rewrite enc_length in Hr, Hu. rewrite Hr. simpl.
  rewrite be_enc by done. done.
Qed.

Lemma phys_bounds n : 0 <= n <= 255 -> 8 + n <= GetPhysRecLen n <= 11 + n /\ GetPhysRecLen n mod 4 = 0.
Proof.
  intros Hn. unfold GetPhysRecLen. rewrite uadd_small by lia. change 4 with (2 ^ 2) at 1 2 3.
  destruct (align_up_bounds (264 - 256 + n) 2) as [H1 H2]; [lia..|]. change (2 ^ 2) with 4 in *. lia.
Qed.

(** ** What a block holds *)

Record rec := mkRec { rid : Z; rlen : Z; rname : list Z }.

(** A name as it is stored. *)
Definition nameOk (fname : list Z) : Prop := 1 <= Z.of_nat (length fname) <= 255.

Record rec_at (b : list Z) (o : Z) (r : rec) : Prop := {
  r_id : getOtokID b o = Some (rid r);
  r_len : getReclen b o = Some (rlen r);
  r_long : 8 <= rlen r < 4096;
  r_name : rid r <> 0 -> nameLength b o = Some (Z.of_nat (length (rname r))) /\ name b o (Z.of_nat (length (rname r))) = Some (rname r) /\
    nameOk (rname r) /\ GetPhysRecLen (Z.of_nat (length (rname r))) <= rlen r;
}.

Fixpoint total (l : list rec) : Z := match l with [] => 0 | r :: l => rlen r + total l end.

(** The records [l] one after the other, from offset [o]. *)
Fixpoint seg (b : list Z) (o : Z) (l : list rec) : Prop :=
  match l with
  | [] => True
  | r :: l => rec_at b o r /\ seg b (o + rlen r) l
  end.

Record block_ok (b : list Z) (l : list rec) : Prop := {
  b_size : Z.of_nat (length b) = OS_BLOCK_SIZE;
  b_seg : seg b 0 l;
  b_tail : getReclen b (total l) = Some 0;
  b_room : total l + 8 < OS_BLOCK_SIZE;
}.

Lemma rlen_app l1 l2 : total (l1 ++ l2) = total l1 + total l2.
Proof. induction l1 as [|r l1 IH]; simpl; lia. Qed.

Lemma seg_app b l1 : forall o l2, seg b o (l1 ++ l2) <-> seg b o l1 /\ seg b (o + total l1) l2.
Proof.
  induction l1 as [|r l1 IH]; intros o l2; simpl; [rewrite Z.add_0_r; tauto|]. rewrite IH, Z.add_assoc. tauto.
Qed.

Lemma seg_total b l : forall o, seg b o l -> 8 * Z.of_nat (length l) <= total l.
Proof. induction l as [|r l IH]; intros o; simpl; [lia|]. intros [[_ _ ? _] H]. specialize (IH _ H). lia. Qed.

(** Records away from a change are as they were. *)
Lemma rec_unch b b' o n p r : unch b b' o n -> p + rlen r <= o \/ o + n <= p -> rec_at b p r -> rec_at b' p r.
Proof.
  intros [Hl Hu] Hd [H1 H2 H3 H4]. unfold getOtokID, getReclen, nameLength, name in *.
  split; unfold getOtokID, getReclen, nameLength, name; try done.
  - rewrite Hu; [done|lia].
  - rewrite Hu; [done|lia].
  - intros Hr. destruct (H4 Hr) as (N1 & N2 & N3 & N4). pose proof (phys_bounds _ (conj (Nat2Z.is_nonneg _) (proj2 N3))).
    split_and!; try apply N3; try done; rewrite Hu; [done|lia|done|lia].
Qed.

Lemma seg_unch b b' o n l : forall p, unch b b' o n -> p + total l <= o \/ o + n <= p -> seg b p l -> seg b' p l.
Proof.
  induction l as [|r l IH]; intros p Hu Hd; simpl in *; [done|]. intros [H1 H2].
  pose proof (seg_total _ _ _ H2). pose proof (r_long _ _ _ H1). split; [eapply rec_unch; [done| |done]; lia|]. apply IH; [done| |done]. lia.
Qed.

Lemma reclen_unch b b' o n p : unch b b' o n -> p + 6 <= o \/ o + n <= p + 4 -> getReclen b' p = getReclen b p.
Proof. intros [_ Hu] H. unfold getReclen. rewrite Hu; [done|lia]. Qed.
Lemma id_unch b b' o n p : unch b b' o n -> p + 4 <= o \/ o + n <= p -> getOtokID b' p = getOtokID b p.
Proof. intros [_ Hu] H. unfold getOtokID. rewrite Hu; [done|lia]. Qed.

(** ** The search for a name *)

Definition named (fname : list Z) (r : rec) : Prop := rid r <> 0 /\ rname r = fname.

#[export] Instance named_dec fname r : Decision (named fname r).
Proof. unfold named. apply _. Defined.

Lemma matches_spec b o r fname : rec_at b o r -> matches b o fname = Some (bool_decide (named fname r)).
Proof.
  intros [H1 H2 H3 H4]. unfold matches. rewrite H1. simpl. destruct (Z.eqb_spec (rid r) 0) as [E|E].
  - f_equal. symmetry. apply bool_decide_eq_false. by intros [? _].
  - destruct (H4 E) as (N1 & N2 & _). rewrite N1. simpl. destruct (Z.eqb_spec (Z.of_nat (length (rname r))) (Z.of_nat (length fname))) as [El|El].
    + rewrite <- El, N2. simpl. f_equal. apply bool_decide_ext. unfold named. tauto.
    + f_equal. symmetry. apply bool_decide_eq_false. intros [_ <-]. done.
Qed.

(** The record before the one at the end of [l]. *)
Fixpoint prevOf (o : Z) (prev : option Z) (l : list rec) : option Z :=
  match l with [] => prev | r :: l => prevOf (o + rlen r) (Some o) l end.

Lemma prevOf_snoc l : forall o prev x, prevOf o prev (l ++ [x]) = Some (o + total l).
Proof. induction l as [|r l IH]; intros o prev x; simpl; [by rewrite Z.add_0_r|]. by rewrite IH, Z.add_assoc. Qed.

Lemma scan_names b fname l : forall fuel o prev,
  seg b o l -> getReclen b (o + total l) = Some 0 -> (length l < fuel)%nat ->
  (exists l1 r l2, l = l1 ++ r :: l2 /\ named fname r /\ Forall (fun x => ~ named fname x) l1 /\
    scan fuel b fname o prev = Some (o + total l1, prevOf o prev l1)) \/
  (Forall (fun x => ~ named fname x) l /\ scan fuel b fname o prev = Some (o + total l, prevOf o prev l)).
Proof.
  induction l as [|r l IH]; intros [|fuel] o prev Hs Ht Hf; simpl in *; try lia.
  - right. split; [done|]. rewrite Z.add_0_r in *. by rewrite Ht.
  - destruct Hs as [Hr Hs]. rewrite (r_len _ _ _ Hr). simpl. pose proof (r_long _ _ _ Hr) as Hl. rewrite (proj2 (Z.ltb_lt _ _)) by lia.
    rewrite (matches_spec _ _ _ fname Hr). simpl. case_bool_decide as Hn.
    + left. exists [], r, l. split_and!; try done. simpl. by rewrite Z.add_0_r.
    + destruct (IH fuel (o + rlen r) (Some o) Hs) as [(l1 & r' & l2 & -> & Hn' & Hno & E)|[Hno E]]; [by rewrite <- Z.add_assoc|lia| |].
      * left. exists (r :: l1), r', l2. split_and!; try done; [by apply Forall_cons|]. rewrite E. simpl. by rewrite Z.add_assoc.
      * right. split; [by apply Forall_cons|]. rewrite E. by rewrite Z.add_assoc.
Qed.

Lemma seg_fuel b l : seg b 0 l -> total l + 8 < OS_BLOCK_SIZE -> (length l < SCAN_FUEL)%nat.
Proof. intros Hs Ht. pose proof (seg_total _ _ _ Hs). unfold SCAN_FUEL, OS_BLOCK_SIZE in *. lia. Qed.

(** The object of a tail can be read. *)
Lemma read_id b o : Z.of_nat (length b) = OS_BLOCK_SIZE -> 0 <= o -> o + 8 < OS_BLOCK_SIZE -> is_Some (getOtokID b o).
Proof. intros. unfold getOtokID. rewrite rd_range by lia. by eexists. Qed.

Lemma total_nonneg b l o : seg b o l -> 0 <= total l.
Proof. intros H. pose proof (seg_total _ _ _ H). lia. Qed.

Lemma matchBlock_spec b l fname :
  block_ok b l ->
  (exists l1 r l2, l = l1 ++ r :: l2 /\ named fname r /\ Forall (fun x => ~ named fname x) l1 /\
    matchBlock b fname = Some (Some (total l1, prevOf 0 None l1))) \/
  (Forall (fun x => ~ named fname x) l /\ matchBlock b fname = Some None).
Proof.
  intros [Hz Hs Ht Hr]. unfold matchBlock.
  destruct (scan_names b fname l SCAN_FUEL 0 None Hs Ht (seg_fuel _ _ Hs Hr)) as [(l1 & r & l2 & -> & Hn & Hno & E)|[Hno E]]; rewrite E; simpl.
  - left. exists l1, r, l2. split_and!; try done. apply seg_app in Hs as [_ [Hrec _]]. simpl in Hrec.
    rewrite (r_id _ _ _ Hrec), (r_len _ _ _ Hrec). simpl. destruct Hn as [Hid _]. pose proof (r_long _ _ _ Hrec).
    by rewrite (proj2 (Z.eqb_neq _ _) Hid), (proj2 (Z.eqb_neq (rlen r) 0)) by lia.
  - right. split; [done|]. destruct (read_id b (total l) Hz) as [id Hid]; [by eapply total_nonneg|done|].
    rewrite Z.add_0_l, Hid, Ht. simpl. by rewrite andb_false_r.
Qed.

(** ** The search for a hole *)

Definition used (r : rec) : Z := if rid r =? 0 then 0 else GetPhysRecLen (Z.of_nat (length (rname r))).

Lemma used_bounds b o r : rec_at b o r -> 0 <= used r <= rlen r /\ (rid r <> 0 -> 8 <= used r).
Proof.
  intros [H1 H2 H3 H4]. unfold used. destruct (Z.eqb_spec (rid r) 0) as [E|E]; [split; [lia|done]|].
  destruct (H4 E) as (_ & _ & N3 & N4). pose proof (phys_bounds _ (conj (Nat2Z.is_nonneg _) (proj2 N3))). unfold nameOk in N3. lia.
Qed.

Lemma hole_spec b n l : forall fuel o,
  seg b o l -> getReclen b (o + total l) = Some 0 -> (length l < fuel)%nat ->
  (exists l1 r l2, l = l1 ++ r :: l2 /\ n <= rlen r - used r /\ hole fuel b n o = Some (inr (o + total l1, used r))) \/
  hole fuel b n o = Some (inl (o + total l)).
Proof.
  induction l as [|r l IH]; intros [|fuel] o Hs Ht Hf; simpl in *; try lia.
  - right. rewrite Z.add_0_r in *. by rewrite Ht.
  - destruct Hs as [Hr Hs]. rewrite (r_len _ _ _ Hr). simpl. pose proof (r_long _ _ _ Hr) as Hl. rewrite (proj2 (Z.ltb_lt _ _)) by lia.
    rewrite (r_id _ _ _ Hr). simpl. pose proof (used_bounds _ _ _ Hr) as [Hu _].
    assert (E : (if rid r =? 0 then Some 0 else nl ← nameLength b o; Some (GetPhysRecLen nl)) = Some (used r)).
    { unfold used. destruct (Z.eqb_spec (rid r) 0) as [|Hid]; [done|]. destruct (r_name _ _ _ Hr Hid) as (-> & _). done. }
    rewrite E. simpl. rewrite usub_small by lia. destruct (Z.leb_spec n (rlen r - used r)) as [Hn|Hn].
    + left. exists [], r, l. split_and!; try done. simpl. by rewrite Z.add_0_r.
    + destruct (IH fuel (o + rlen r) Hs) as [(l1 & r' & l2 & -> & Hn' & E')|E']; [by rewrite <- Z.add_assoc|lia| |].
      * left. exists (r :: l1), r', l2. split_and!; try done. rewrite E'. simpl. by rewrite Z.add_assoc.
      * right. rewrite E'. by rewrite Z.add_assoc.
Qed.

(** ** Changes *)

(** The names of a block and their objects. *)
Definition live (l : list rec) : list (list Z * Z) := (fun r => (rname r, rid r)) <$> filter (fun r => rid r <> 0) l.

Lemma live_app l1 l2 : live (l1 ++ l2) = live l1 ++ live l2.
Proof. unfold live. by rewrite filter_app, fmap_app. Qed.

Lemma live_cons r l : live (r :: l) = (if decide (rid r <> 0) then [(rname r, rid r)] else []) ++ live l.
Proof. unfold live. rewrite filter_cons. by destruct (decide (rid r <> 0)). Qed.

(** Setting one number of an entry. *)
Lemma set_reclen b e v :
  0 <= e -> e + 6 <= Z.of_nat (length b) -> 0 <= v < 65536 ->
  exists b', setReclen b e v = Some b' /\ getReclen b' e = Some v /\ unch b b' (e + 4) 2.
Proof. intros. apply (set_field b (e + 4) 2 v); lia. Qed.
Lemma set_nameLength b e v :
  0 <= e -> e + 7 <= Z.of_nat (length b) -> 0 <= v < 256 ->
  exists b', setNameLength b e v = Some b' /\ nameLength b' e = Some v /\ unch b b' (e + 6) 1.
Proof. intros. apply (set_field b (e + 6) 1 v); lia. Qed.
Lemma set_otokID b e v :
  0 <= e -> e + 4 <= Z.of_nat (length b) -> 0 <= v < 2 ^ 32 ->
  exists b', setOtokID b e v = Some b' /\ getOtokID b' e = Some v /\ unch b b' e 4.
Proof. intros. apply (set_field b e 4 v); lia. Qed.

Definition idOk (id : Z) : Prop := 0 < id < 2 ^ 32.

(** An entry of length [rl] is filled. *)
Lemma fill_rec b e rl fname id :
  0 <= e -> e + rl <= Z.of_nat (length b) -> getReclen b e = Some rl -> 8 <= rl < 4096 ->
  nameOk fname -> GetPhysRecLen (Z.of_nat (length fname)) <= rl -> idOk id ->
  exists b', fillEntry b e fname id = Some b' /\ rec_at b' e (mkRec id rl fname) /\ unch b b' e rl.
Proof.
  intros He Hl Hrl Hr Hn Hp Hid. unfold nameOk, idOk in *. pose proof (phys_bounds (Z.of_nat (length fname))) as Hb.
  unfold fillEntry. destruct (set_nameLength b e (Z.of_nat (length fname))) as (b1 & -> & R1 & U1); [lia..|]. simpl.
  destruct (wr_some b1 (e + 7) fname) as [b2 Hw]; [lia|rewrite (proj1 U1); lia|].
  pose proof (rd_wr_eq Hw) as R2. pose proof (wr_unch _ _ _ _ Hw) as U2. unfold setName. rewrite Hw. simpl.
  destruct (set_otokID b2 e id) as (b3 & -> & R3 & U3); [lia|rewrite (proj1 U2), (proj1 U1); lia|lia|].
  exists b3. split; [done|]. split.
  - split; simpl; try done.
    + rewrite (reclen_unch b2 b3 _ _ e U3), (reclen_unch b1 b2 _ _ e U2), (reclen_unch b b1 _ _ e U1) by lia. done.
    + intros _. unfold nameLength, name in *. rewrite (proj2 U3 (e + 6)), (proj2 U2 (e + 6)), (proj2 U3 (e + 7)) by lia. done.
  - eapply (unch_trans b b2 b3); [eapply (unch_trans b b1 b2 e rl); [exact U1|exact U2|lia..]|exact U3|lia..].
Qed.

(** Replacing records in the middle of a block. *)
Lemma block_replace b b' l1 m m' l2 :
  block_ok b (l1 ++ m ++ l2) -> unch b b' (total l1) (total m) -> total m' = total m -> seg b' (total l1) m' -> block_ok b' (l1 ++ m' ++ l2).
Proof.
  intros [Hz Hs Ht Hr] Hu Hm Hm'. rewrite !rlen_app in Ht, Hr. apply seg_app in Hs as [S1 [S2 S3]%seg_app]. rewrite Z.add_0_l in *.
  pose proof (total_nonneg _ _ _ S3). pose proof (total_nonneg _ _ _ S2). pose proof (total_nonneg _ _ _ S1).
  split; [by rewrite (proj1 Hu)| | |]; rewrite ?rlen_app, ?Hm.
  - rewrite !seg_app, Z.add_0_l, Hm. split_and!; [|done|]; (eapply seg_unch; [exact Hu| |done]); lia.
  - rewrite <- Ht. eapply reclen_unch; [exact Hu|]. lia.
  - done.
Qed.

Lemma seg_one b o r : seg b o [r] <-> rec_at b o r.
Proof. simpl. tauto. Qed.

(** The block with [fname] and [id] placed at the entry that [x] gives. *)
Definition placed (x : option (list Z * Z)) (l : list rec) (fname : list Z) (id : Z) : Prop :=
  exists b1 e b2 l', x = Some (b1, e) /\ fillEntry b1 e fname id = Some b2 /\ block_ok b2 l' /\ live l' ≡ₚ (fname, id) :: live l.

Lemma live_insert l1 r r' l2 : rid r = 0 -> rid r' <> 0 -> live (l1 ++ r' :: l2) ≡ₚ (rname r', rid r') :: live (l1 ++ r :: l2).
Proof.
  intros H H'. rewrite !live_app, !live_cons, decide_True, decide_False by (done || by intros ?). simpl. by rewrite Permutation_middle.
Qed.

(** What the entry that is split becomes. *)
Lemma rec_cut b b' p r :
  rec_at b p r -> rid r <> 0 -> getReclen b' p = Some (used r) ->
  (forall k m, p <= k -> k + m <= p + used r -> k + m <= p + 4 \/ p + 6 <= k -> rd b' k m = rd b k m) ->
  rec_at b' p (mkRec (rid r) (used r) (rname r)).
Proof.
  intros Hrec Hid HR HU. destruct (r_name _ _ _ Hrec Hid) as (N1 & N2 & N3 & N4). pose proof (phys_bounds (Z.of_nat (length (rname r)))) as Hbr.
  assert (Eu : used r = GetPhysRecLen (Z.of_nat (length (rname r)))) by (unfold used; by rewrite (proj2 (Z.eqb_neq _ _) Hid)).
  pose proof (r_id _ _ _ Hrec) as R. pose proof (r_long _ _ _ Hrec). unfold nameOk, nameLength, name, getOtokID in *.
  split; simpl; unfold nameLength, name, getOtokID; [rewrite HU by lia; done|done|lia|]. intros _.
  rewrite (HU (p + 6)), (HU (p + 7)) by lia. split_and!; try done; lia.
Qed.

Lemma place_split b l1 r l2 fname id :
  block_ok b (l1 ++ r :: l2) -> nameOk fname -> idOk id -> GetPhysRecLen (Z.of_nat (length fname)) <= rlen r - used r ->
  placed (splitEntry b (total l1) (used r) (Z.of_nat (length fname))) (l1 ++ r :: l2) fname id.
Proof.
  intros HB Hn Hid Hfit. pose proof HB as [Hz [S1 [Hrec S2]]%seg_app _ Hr]. simpl in Hrec, S2. rewrite Z.add_0_l in Hrec, S2.
  pose proof (phys_bounds (Z.of_nat (length fname))) as Hb. unfold nameOk, OS_BLOCK_SIZE in *.
  unfold splitEntry. rewrite (r_len _ _ _ Hrec). simpl. pose proof (used_bounds _ _ _ Hrec) as [Hu Hu8]. pose proof (r_long _ _ _ Hrec) as Hrl.
  pose proof (total_nonneg _ _ _ S1). pose proof (total_nonneg _ _ _ S2). rewrite rlen_app in Hr. simpl in Hr.
  rewrite usub_small by lia. set (p := total l1) in *. set (u := used r) in *.
  destruct (set_reclen b (p + u) (rlen r - u)) as (b1 & -> & R1 & U1); [lia..|]. simpl.
  destruct (set_nameLength b1 (p + u) (Z.of_nat (length fname))) as (b2 & -> & _ & U2); [lia|rewrite (proj1 U1); lia|lia|]. simpl.
  assert (U12 : unch b b2 (p + u) (rlen r - u)) by (eapply (unch_trans b b1 b2); [exact U1|exact U2|lia..]).
  assert (R12 : getReclen b2 (p + u) = Some (rlen r - u)) by (rewrite (reclen_unch b1 b2 _ _ _ U2) by lia; done).
  rewrite (id_unch b1 b2 _ _ p U2), (id_unch b b1 _ _ p U1), (r_id _ _ _ Hrec) by lia. simpl.
  destruct (Z.eqb_spec (rid r) 0) as [Hid0|Hid0].
  - (* an unused entry is taken as it is *)
    assert (u = 0) as Eu by (unfold u, used; by rewrite Hid0). rewrite Eu, Z.add_0_r, Z.sub_0_r in *.
    destruct (fill_rec b2 p (rlen r) fname id) as (b3 & E3 & R3 & U3); try done; try lia; [rewrite (proj1 U12); lia|].
    exists b2, p, b3, (l1 ++ [mkRec id (rlen r) fname] ++ l2). split_and!; try done.
    + apply (block_replace b b3 l1 [r] _ l2 HB); simpl; try done. rewrite Z.add_0_r. eapply (unch_trans b b2 b3); [exact U12|exact U3|lia..].
    + apply (live_insert l1 r (mkRec id (rlen r) fname) l2 Hid0). unfold idOk in Hid. simpl. lia.
  - specialize (Hu8 Hid0). destruct (set_reclen b2 p u) as (b3 & -> & R3 & U3); [lia|rewrite (proj1 U12); lia|lia|]. simpl.
    destruct (fill_rec b3 (p + u) (rlen r - u) fname id) as (b4 & E4 & R4 & U4); try done; try lia;
      [rewrite (proj1 U3), (proj1 U12); lia|rewrite (reclen_unch b2 b3 _ _ _ U3) by lia; done|].
    exists b3, (p + u), b4, (l1 ++ [mkRec (rid r) u (rname r); mkRec id (rlen r - u) fname] ++ l2). split_and!; try done.
    + apply (block_replace b b4 l1 [r] _ l2 HB); simpl; [|lia|split; [|split; [exact R4|done]]].
      * rewrite Z.add_0_r. eapply (unch_trans b b3 b4); [eapply (unch_trans b b2 b3 p (rlen r)); [exact U12|exact U3|lia..]|exact U4|lia..].
      * eapply rec_unch; [exact U4|simpl; lia|]. apply (rec_cut b b3 p r); try done. fold u. intros k m ? ? ?.
        rewrite (proj2 U3), (proj2 U12) by lia. done.
    + rewrite !live_app, !live_cons. simpl. rewrite (decide_True (P := id <> 0)) by (unfold idOk in Hid; lia).
      rewrite decide_True by done. simpl. rewrite Permutation_middle. f_equiv. apply Permutation_swap.
Qed.

Lemma place_end b l fname id :
  block_ok b l -> nameOk fname -> idOk id -> GetPhysRecLen (Z.of_nat (length fname)) + 8 < OS_BLOCK_SIZE - total l ->
  placed (appendEntry b (total l) (GetPhysRecLen (Z.of_nat (length fname))) (Z.of_nat (length fname))) l fname id.
Proof.
  intros [Hz Hs Ht Hr] Hn Hid Hlt. set (n := GetPhysRecLen (Z.of_nat (length fname))) in *.
  pose proof (phys_bounds (Z.of_nat (length fname))) as Hb. unfold nameOk, OS_BLOCK_SIZE in *. fold n in Hb.
  pose proof (total_nonneg _ _ _ Hs). unfold appendEntry. set (p := total l) in *.
  destruct (set_reclen b p n) as (b1 & -> & R1 & U1); [lia..|]. simpl.
  destruct (set_nameLength b1 p (Z.of_nat (length fname))) as (b2 & -> & _ & U2); [lia|rewrite (proj1 U1); lia|lia|]. simpl.
  rewrite (reclen_unch b1 b2 _ _ _ U2), R1 by lia. simpl.
  destruct (set_reclen b2 (p + n) 0) as (b3 & -> & R3 & U3); [lia|rewrite (proj1 U2), (proj1 U1); lia|lia|]. simpl.
  destruct (fill_rec b3 p n fname id) as (b4 & E4 & R4 & U4); try done; try lia;
    [rewrite (proj1 U3), (proj1 U2), (proj1 U1); lia|rewrite (reclen_unch b2 b3 _ _ _ U3), (reclen_unch b1 b2 _ _ _ U2) by lia; done|].
  exists b3, p, b4, (l ++ [mkRec id n fname]). split_and!; try done.
  - assert (U : unch b b3 p (n + 6)) by (eapply (unch_trans b b2 b3); [eapply (unch_trans b b1 b2 p (n + 6)); [exact U1|exact U2|lia..]|exact U3|lia..]).
    split; rewrite ?rlen_app; simpl; fold p; rewrite ?Z.add_0_r.
    + by rewrite (proj1 U4), (proj1 U).
    + rewrite seg_app. fold p. rewrite Z.add_0_l. split; [|by split].
      eapply seg_unch; [exact U4|fold p; lia|]. eapply seg_unch; [exact U|fold p; lia|done].
    + rewrite (reclen_unch b3 b4 _ _ _ U4) by lia. done.
    + unfold OS_BLOCK_SIZE. lia.
  - rewrite live_app, live_cons. simpl. rewrite decide_True by (unfold idOk in Hid; lia). by rewrite Permutation_app_comm.
Qed.

(** A name and an object are placed in the block: in the hole that was found, or
    not at all. *)
Lemma place_spec b l fname id :
  block_ok b l -> nameOk fname -> idOk id ->
  findHole b (Z.of_nat (length fname)) = Some None \/
  exists x, findHole b (Z.of_nat (length fname)) = Some (Some x) /\ placed (Some x) l fname id.
Proof.
  intros HB Hn Hid. pose proof HB as [Hz Hs Ht Hr]. unfold findHole.
  pose proof (phys_bounds (Z.of_nat (length fname))) as Hb. unfold nameOk in Hn.
  destruct (hole_spec b (GetPhysRecLen (Z.of_nat (length fname))) l SCAN_FUEL 0 Hs Ht (seg_fuel _ _ Hs Hr)) as [(l1 & r & l2 & -> & Hfit & E)|E];
    rewrite E; simpl; rewrite ?Z.add_0_l.
  - right. destruct (place_split b l1 r l2 fname id HB Hn Hid Hfit) as (b1 & e & b2 & l' & E1 & Hp). rewrite E1. simpl.
    exists (b1, e). split; [done|]. by exists b1, e, b2, l'.
  - change (GetPhysRecLen 0) with 8. pose proof (total_nonneg _ _ _ Hs). unfold OS_BLOCK_SIZE in *. rewrite uadd_small, usub_small by lia.
    destruct (Z.ltb_spec (GetPhysRecLen (Z.of_nat (length fname)) + 8) (4096 - total l)) as [Hlt|]; [right|by left].
    destruct (place_end b l fname id HB Hn Hid Hlt) as (b1 & e & b2 & l' & E1 & Hp). rewrite E1. simpl.
    exists (b1, e). split; [done|]. by exists b1, e, b2, l'.
Qed.

(** A new block with one entry. *)
Lemma fresh_spec b fname id :
  Z.of_nat (length b) = OS_BLOCK_SIZE -> nameOk fname -> idOk id ->
  exists b1 b2, freshBlock b (Z.of_nat (length fname)) = Some b1 /\ fillEntry b1 0 fname id = Some b2 /\
    exists l, block_ok b2 l /\ live l = [(fname, id)].
Proof.
  intros Hz Hn Hid. unfold freshBlock. set (n := GetPhysRecLen (Z.of_nat (length fname))).
  pose proof (phys_bounds (Z.of_nat (length fname))) as Hb. unfold nameOk, OS_BLOCK_SIZE in *. fold n in Hb.
  destruct (set_reclen b 0 n) as (b1 & -> & R1 & U1); [lia..|]. simpl. rewrite R1. simpl.
  destruct (set_otokID b1 n 0) as (b2 & -> & R2 & U2); [lia|rewrite (proj1 U1); lia|lia|]. simpl.
  destruct (set_nameLength b2 n 0) as (b3 & -> & R3 & U3); [lia|rewrite (proj1 U2), (proj1 U1); lia|lia|]. simpl.
  destruct (set_reclen b3 n 0) as (b4 & -> & R4 & U4); [lia|rewrite (proj1 U3), (proj1 U2), (proj1 U1); lia|lia|].
  destruct (fill_rec b4 0 n fname id) as (b5 & E5 & R5 & U5); try done; try lia.
  { rewrite (proj1 U4), (proj1 U3), (proj1 U2), (proj1 U1). lia. }
  { rewrite (reclen_unch b3 b4 _ _ _ U4), (reclen_unch b2 b3 _ _ _ U3), (reclen_unch b1 b2 _ _ _ U2) by lia. done. }
  exists b4, b5. split; [done|]. split; [done|]. exists [mkRec id n fname]. split.
  - split; simpl; rewrite ?Z.add_0_r; [|by split|rewrite (reclen_unch b4 b5 _ _ _ U5) by lia; done|unfold OS_BLOCK_SIZE; lia].
    rewrite (proj1 U5), (proj1 U4), (proj1 U3), (proj1 U2), (proj1 U1). done.
  - rewrite live_cons. simpl. by rewrite decide_True by (unfold idOk in Hid; lia).
Qed.

Lemma remove_first b r l :
  block_ok b (r :: l) ->
  exists b' l', removeEntry b 0 None = Some b' /\ block_ok b' l' /\ live l' = live l.
Proof.
  intros HB. pose proof HB as [Hz [Hrec Hs] Ht Hr]. simpl in *. rewrite ?Z.add_0_l in *. pose proof (r_long _ _ _ Hrec) as Hl.
  pose proof (total_nonneg _ _ _ Hs). unfold OS_BLOCK_SIZE in *. rewrite (r_len _ _ _ Hrec). simpl.
  destruct l as [|x l]; simpl in *.
  - rewrite Z.add_0_r in *. rewrite Ht. simpl. destruct (set_reclen b 0 0) as (b' & -> & R & U); [lia..|].
    exists b', []. split_and!; try done. split; simpl; [by rewrite (proj1 U)|done|done|unfold OS_BLOCK_SIZE; lia].
  - destruct Hs as [Hx Hs]. rewrite (r_len _ _ _ Hx). simpl. pose proof (r_long _ _ _ Hx). rewrite (proj2 (Z.eqb_neq _ _)) by lia.
    destruct (set_otokID b 0 0) as (b' & -> & R & U); [lia..|]. exists b', ([] ++ [mkRec 0 (rlen r) []] ++ x :: l). split; [done|]. split; [|done].
    apply (block_replace b b' [] [r] [mkRec 0 (rlen r) []] (x :: l) HB); simpl; try done.
    + eapply unch_weaken; [exact U|lia..].
    + split; [|done]. split; simpl; try done. by rewrite (reclen_unch b b' _ _ _ U), (r_len _ _ _ Hrec) by lia.
Qed.

Lemma remove_grow b l0 x r l :
  block_ok b (l0 ++ x :: r :: l) ->
  exists b', removeEntry b (total (l0 ++ [x])) (Some (total l0)) = Some b' /\
    block_ok b' (l0 ++ mkRec (rid x) (rlen x + rlen r) (rname x) :: l).
Proof.
  intros HB. pose proof HB as [Hz Hs Ht Hr]. apply seg_app in Hs as [S0 [Hx [Hrec S1]]]. rewrite Z.add_0_l in *. simpl in S1.
  rewrite rlen_app in Hr. simpl in Hr. unfold OS_BLOCK_SIZE in *. pose proof (total_nonneg _ _ _ S0). pose proof (total_nonneg _ _ _ S1).
  pose proof (r_long _ _ _ Hx). pose proof (r_long _ _ _ Hrec).
  unfold removeEntry. rewrite (r_len _ _ _ Hx), rlen_app. simpl. rewrite Z.add_0_r, (r_len _ _ _ Hrec). simpl.
  destruct (set_reclen b (total l0) (rlen x + rlen r)) as (b' & -> & R & U); [lia..|]. exists b'. split; [done|].
  apply (block_replace b b' l0 [x; r] [mkRec (rid x) (rlen x + rlen r) (rname x)] l HB); simpl; [|lia|split; [|done]].
  - eapply unch_weaken; [exact U|lia..].
  - split; simpl; [by rewrite (id_unch b b' _ _ _ U), (r_id _ _ _ Hx) by lia|done|lia|].
    intros Hid. destruct (r_name _ _ _ Hx Hid) as (N1 & N2 & N3 & N4). unfold nameLength, name in *.
    rewrite (proj2 U (total l0 + 6)), (proj2 U (total l0 + 7)) by lia. split_and!; try done; lia.
Qed.

(** The record [r] is removed. *)
Lemma remove_spec b l1 r l2 :
  block_ok b (l1 ++ r :: l2) ->
  exists b' l', removeEntry b (total l1) (prevOf 0 None l1) = Some b' /\ block_ok b' l' /\ live l' = live (l1 ++ l2).
Proof.
  destruct l1 as [|x l0 _] using rev_ind; intros HB.
  - simpl. by apply (remove_first b r l2).
  - rewrite <- app_assoc in HB. destruct (remove_grow b l0 x r l2 HB) as (b' & E & HB'). rewrite prevOf_snoc, Z.add_0_l. exists b'.
    eexists. split; [exact E|]. split; [exact HB'|]. rewrite <- app_assoc. simpl. rewrite !live_app, !live_cons. done.
Qed.

Lemma update_spec b l1 r l2 id :
  block_ok b (l1 ++ r :: l2) -> rid r <> 0 -> idOk id ->
  exists b', setOtokID b (total l1) id = Some b' /\ block_ok b' (l1 ++ mkRec id (rlen r) (rname r) :: l2).
Proof.
  intros HB Hr Hid. pose proof HB as [Hz Hs Ht Hro]. apply seg_app in Hs as [S1 [Hrec S2]]. rewrite Z.add_0_l in *. simpl in S2.
  rewrite rlen_app in Hro. simpl in Hro. unfold OS_BLOCK_SIZE, idOk in *. pose proof (total_nonneg _ _ _ S1). pose proof (total_nonneg _ _ _ S2).
  pose proof (r_long _ _ _ Hrec). destruct (set_otokID b (total l1) id) as (b' & E & R & U); [lia..|]. exists b'. split; [done|].
  apply (block_replace b b' l1 [r] [mkRec id (rlen r) (rname r)] l2 HB); simpl; [|lia|split; [|done]].
  - eapply unch_weaken; [exact U|lia..].
  - split; simpl; [done|by rewrite (reclen_unch b b' _ _ _ U), (r_len _ _ _ Hrec) by lia|lia|].
    intros _. destruct (r_name _ _ _ Hrec Hr) as (N1 & N2 & N3 & N4). unfold nameLength, name in *.
    rewrite (proj2 U (total l1 + 6)), (proj2 U (total l1 + 7)) by lia. done.
Qed.

End DirBlock.
