(* ===== verification/LSOBasicDir.v ===== *)
(** * LSOBasicDir: directories of the file system KFS,
    os/servers/kfs/LSOBasicDir.C

    A directory is an array of the blocks of DirBlock.v.  Names are found, entered,
    removed and redirected in it; the search starts at the block of the last hit.
    The blocks are kept by a physical server object, of which readBlockCache and
    writeBlockCache are used: a block that was never written reads as zeros.
    Locks, time stamps and dirty marks are left out; the link counts of the objects
    are in FSFileKFS.v. *)

From stdpp Require Import base numbers option gmap list.
From S2P Require Import K42 Prelude DirBlock.

Module LSOBasicDir.

Import DirBlock.

Record dir := mkDir {
  pso : gmap Z (list Z);
  statSize : Z;
  statBlocks : Z;
  startLBlkno : Z;
}.

Definition zeroBlock : list Z := replicate (Z.to_nat OS_BLOCK_SIZE) 0.
Definition readBlockCache (s : dir) (i : Z) : list Z := default zeroBlock (pso s !! i).
Definition writeBlockCache (s : dir) (i : Z) (b : list Z) : dir :=
  mkDir (<[i := b]> (pso s)) (statSize s) (statBlocks s) (startLBlkno s).

Definition blocksInFile (s : dir) : Z := usub (uadd (statSize s) OS_BLOCK_SIZE) 1 / OS_BLOCK_SIZE.

Definition set_start (s : dir) (i : Z) : dir := mkDir (pso s) (statSize s) (statBlocks s) i.

(** ** matchEntry *)

(** The do loop: block, entry and previous entry. *)
Fixpoint match_loop (fuel : nat) (s : dir) (fname : list Z) (i : Z) : option (option (Z * Z * option Z)) :=
  match fuel with
  | O => None
  | S fuel =>
      r ← matchBlock (readBlockCache s i) fname;
      match r with
      | Some (e, p) => Some (Some (i, e, p))
      | None =>
          let i' := if blocksInFile s <=? i + 1 then 0 else i + 1 in
          if i' =? startLBlkno s then Some None else match_loop fuel s fname i'
      end
  end.

Definition matchEntry (s : dir) (fname : list Z) : option (option (Z * Z * option Z) * dir) :=
  _ ← assertK (negb (blocksInFile s =? 0));
  let s := if blocksInFile s <=? startLBlkno s then set_start s 0 else s in
  r ← match_loop (S (Z.to_nat (blocksInFile s))) s fname (startLBlkno s);
  match r with
  | Some (i, _, _) => Some (r, set_start s (i mod 2 ^ 32))
  | None => Some (None, s)
  end.

(** The object of a name, or -ENOENT. *)
Definition locked_matchDir (s : dir) (fname : list Z) : option ((Z + Z) * dir) :=
  '(r, s) ← matchEntry s fname;
  match r with
  | Some (i, e, _) => id ← getOtokID (readBlockCache s i) e; Some (inr id, s)
  | None => Some (inl (- ENOENT), s)
  end.

(** ** Changing entries *)

(** The answer is the object whose entry was removed. *)
Definition locked_deleteEntry (s : dir) (fname : list Z) : option (option Z * dir) :=
  '(r, s) ← matchEntry s fname;
  match r with
  | None => Some (None, s)
  | Some (i, e, p) =>
      let b := readBlockCache s i in
      id ← getOtokID b e;
      b ← removeEntry b e p;
      Some (Some id, writeBlockCache s i b)
  end.

(** The answer is the object the entry named before. *)
Definition updateEntry (s : dir) (fname : list Z) (otok : Z) : option (option Z * dir) :=
  '(r, s) ← matchEntry s fname;
  match r with
  | None => Some (None, s)
  | Some (i, e, _) =>
      let b := readBlockCache s i in
      old ← getOtokID b e;
      b ← setOtokID b e otok;
      Some (Some old, writeBlockCache s i b)
  end.

(** for (i = 0; i < blocksInFile; i++): the first block with a hole. *)
Fixpoint hole_loop (n : nat) (s : dir) (length i : Z) : option (option (Z * (list Z * Z))) :=
  match n with
  | O => Some None
  | S n =>
      r ← findHole (readBlockCache s i) length;
      match r with
      | Some x => Some (Some (i, x))
      | None => hole_loop n s length (i + 1)
      end
  end.

Definition OS_SECTOR_SIZE : Z := 512.

Definition locked_createEntry (s : dir) (fname : list Z) (otok : Z) : option dir :=
  let len := Z.of_nat (length fname) in
  let n := blocksInFile s in
  r ← hole_loop (Z.to_nat n) s len 0;
  match r with
  | Some (i, (b, entry)) => b ← fillEntry b entry fname otok; Some (writeBlockCache s i b)
  | None =>
      b ← freshBlock (readBlockCache s n) len;
      b ← fillEntry b 0 fname otok;
      Some (writeBlockCache (mkDir (pso s) (uadd (statSize s) OS_BLOCK_SIZE)
        ((statBlocks s + OS_BLOCK_SIZE / OS_SECTOR_SIZE) mod 2 ^ 32) (startLBlkno s)) n b)
  end.

(** ** Listing entries *)

(** The search for an entry in use, from position [pos] of block [cur]; [blocknr]
    and [offset] are the variables of the source.  The answer has the entry, if
    there is one, as its position, the length of its record and its object. *)
Fixpoint seek (fuel : nat) (s : dir) (cur blocknr pos offset : Z) : option (option (Z * Z * Z) * Z * Z * Z) :=
  match fuel with
  | O => None
  | S fuel =>
      let b := readBlockCache s cur in
      rl ← getReclen b pos;
      if rl =? 0 then
        let blocknr := blocknr + 1 in
        if blocknr * OS_BLOCK_SIZE <? statSize s
        then seek fuel s blocknr blocknr 0 (blocknr * OS_BLOCK_SIZE)
        else Some (None, cur, blocknr, offset)
      else
        id ← getOtokID b pos;
        if id =? 0 then seek fuel s cur blocknr (pos + rl) (offset + rl)
        else Some (Some (pos, rl, id), cur, blocknr, offset)
  end.

Definition seek_fuel (s : dir) : nat := S (Z.to_nat (statSize s)).

Definition blockOf (pos : Z) : Z := Z.shiftr pos OS_BLOCK_SHIFT.
Definition offsetOf (pos : Z) : Z := Z.land pos (OS_BLOCK_SIZE - 1).

(** The position after the first entry in use from [pos] on, and its object. *)
Definition locked_matchIndex (s : dir) (pos : Z) : option (option (Z * Z)) :=
  let blocknr := blockOf pos in
  '(r, _, blocknr, offset) ← seek (seek_fuel s) s blocknr blocknr (offsetOf pos) (offsetOf pos);
  match r with
  | None => Some None
  | Some (_, rl, id) => Some (Some (Z.lor (Z.shiftl blocknr OS_BLOCK_SHIFT) (offset + rl), id))
  end.

(** A struct direntk42; [hdr] is its size without the name. *)
Record dirent := mkDirent { d_ino : Z; d_off : Z; d_reclen : Z; d_name : list Z }.

Definition GetMemRecLen (hdr lengthString : Z) : Z := ALIGN_UP (uadd hdr (uadd lengthString 1)) 4.

(** strncpy and the terminating zero: the name up to its first zero. *)
Definition cstring (nm : list Z) : list Z := fst (span_until (fun c => c =? 0) nm).

(** prev->d_off = 0 *)
Definition closeLast (ds : list dirent) : list dirent :=
  match rev ds with
  | [] => []
  | d :: r => rev r ++ [mkDirent (d_ino d) 0 (d_reclen d) (d_name d)]
  end.

(** while (bufUsed < len): entries so far, cookie, bytes used. *)
Fixpoint dents_loop (fuel : nat) (s : dir) (hdr len : Z) (ds : list dirent) (cookie bufUsed : Z)
  : option (list dirent * Z * Z) :=
  match fuel with
  | O => None
  | S fuel =>
      if bufUsed <? len then
        let blocknr := blockOf cookie in
        '(r, cur, blocknr, offset) ← seek (seek_fuel s) s blocknr blocknr (offsetOf cookie) (offsetOf cookie);
        match r with
        | None => Some (closeLast ds, cookie, bufUsed)
        | Some (pos, rl, id) =>
            let b := readBlockCache s cur in
            nl ← nameLength b pos;
            if len <? uadd (GetMemRecLen hdr nl) bufUsed then Some (ds, cookie, bufUsed)
            else
              nm ← name b pos nl;
              let offset := Z.lor (Z.shiftl blocknr OS_BLOCK_SHIFT) (offset + rl) in
              let d := mkDirent id offset (GetMemRecLen hdr nl) (cstring nm) in
              dents_loop fuel s hdr len (ds ++ [d]) offset (uadd bufUsed (GetMemRecLen hdr nl))
        end
      else Some (ds, cookie, bufUsed)
  end.

Definition getDents (s : dir) (hdr cookie len : Z) : option (list dirent * Z * Z) :=
  dents_loop (S (Z.to_nat len)) s hdr len [] cookie 0.

(** ** What a directory holds *)

Abbreviation entries ls := (live (concat ls)) (only parsing).

Record dir_ok (s : dir) (ls : list (list rec)) : Prop := {
  d_size : statSize s = OS_BLOCK_SIZE * Z.of_nat (length ls);
  d_bound : Z.of_nat (length ls) < 2 ^ 32;
  d_blocks : forall j l, ls !! j = Some l -> block_ok (readBlockCache s (Z.of_nat j)) l;
  d_len : forall i b, pso s !! i = Some b -> Z.of_nat (length b) = OS_BLOCK_SIZE;
  d_start : 0 <= startLBlkno s;
}.

Lemma blocks_ok s ls : dir_ok s ls -> blocksInFile s = Z.of_nat (length ls).
Proof.
  intros [H1 H2 _ _ _]. unfold blocksInFile, OS_BLOCK_SIZE in *. rewrite H1, uadd_small, usub_small by lia.
  replace (4096 * Z.of_nat (length ls) + 4096 - 1) with (4095 + Z.of_nat (length ls) * 4096) by lia. rewrite Z.div_add by lia. done.
Qed.

Lemma block_length s ls i : dir_ok s ls -> Z.of_nat (length (readBlockCache s i)) = OS_BLOCK_SIZE.
Proof. intros H. unfold readBlockCache. destruct (pso s !! i) as [b|] eqn:E; simpl; [by apply (d_len _ _ H i)|done]. Qed.

Lemma start_ok s ls i : dir_ok s ls -> 0 <= i -> dir_ok (set_start s i) ls.
Proof. intros [H1 H2 H3 H4 H5] Hi. by split. Qed.

Lemma read_write_eq s i b : readBlockCache (writeBlockCache s i b) i = b.
Proof. unfold readBlockCache, writeBlockCache. simpl. by rewrite lookup_insert_eq. Qed.
Lemma read_write_ne s i j b : i <> j -> readBlockCache (writeBlockCache s i b) j = readBlockCache s j.
Proof. intros. unfold readBlockCache, writeBlockCache. simpl. by rewrite lookup_insert_ne. Qed.

(** One block changes. *)
Lemma write_ok s ls j l b l' : dir_ok s ls -> ls !! j = Some l -> block_ok b l' -> dir_ok (writeBlockCache s (Z.of_nat j) b) (<[j := l']> ls).
Proof.
  intros [H1 H2 H3 H4 H5] Hj Hb. split; simpl; rewrite ?length_insert; try done.
  - intros k x Hk. destruct (decide (k = j)) as [->|Hne].
    + rewrite read_write_eq. rewrite list_lookup_insert_eq in Hk by (by eapply lookup_lt_Some). by injection Hk as <-.
    + rewrite read_write_ne by lia. rewrite list_lookup_insert_ne in Hk by done. by apply H3.
  - intros i x. rewrite lookup_insert_Some. intros [[_ <-]|[_ Hx]]; [apply Hb|by apply (H4 i)].
Qed.

(** A block is appended. *)
Lemma append_ok s ls nb b l :
  dir_ok s ls -> Z.of_nat (length ls) + 1 < 2 ^ 32 -> block_ok b l ->
  dir_ok (writeBlockCache (mkDir (pso s) (uadd (statSize s) OS_BLOCK_SIZE) nb (startLBlkno s)) (Z.of_nat (length ls)) b) (ls ++ [l]).
Proof.
  intros [H1 H2 H3 H4 H5] Hn Hb. split; simpl; rewrite ?length_app; simpl; try done.
  - rewrite H1. unfold OS_BLOCK_SIZE in *. rewrite uadd_small by lia. lia.
  - lia.
  - intros k x Hk. destruct (decide (k = length ls)) as [->|Hne].
    + rewrite read_write_eq. rewrite list_lookup_middle in Hk by done. by injection Hk as <-.
    + rewrite read_write_ne by lia. rewrite lookup_app_l in Hk by (apply lookup_lt_Some in Hk; rewrite length_app in Hk; simpl in Hk; lia).
      by apply H3.
  - intros i x. rewrite lookup_insert_Some. intros [[_ <-]|[_ Hx]]; [apply Hb|by apply (H4 i)].
Qed.

Lemma concat_at {A} (ls : list (list A)) j l : ls !! j = Some l -> exists a c, ls = a ++ l :: c /\ forall l', <[j := l']> ls = a ++ l' :: c.
Proof.
  intros Hj. exists (take j ls), (drop (S j) ls). split; [by rewrite take_drop_middle|]. intros l'.
  apply insert_take_drop. by eapply lookup_lt_Some.
Qed.

Lemma entries_change ls j l l' x y :
  ls !! j = Some l -> x ++ live l' ≡ₚ y ++ live l -> x ++ entries (<[j := l']> ls) ≡ₚ y ++ entries ls.
Proof.
  intros Hj Hp. destruct (concat_at ls j l Hj) as (a & c & -> & ->). rewrite !concat_app. simpl. rewrite !live_app.
  rewrite (Permutation_app_swap_app x), (Permutation_app_swap_app y). f_equiv. rewrite !app_assoc, Hp. done.
Qed.

(** ** Finding a name *)

Definition absent (fname : list Z) (l : list rec) : Prop := Forall (fun x => ~ named fname x) l.

(** The entry at offset [e] of block [i], after entry [p], is that of [fname]. *)
Definition found (ls : list (list rec)) (fname : list Z) (i e : Z) (p : option Z) : Prop :=
  exists j l1 r l2, i = Z.of_nat j /\ ls !! j = Some (l1 ++ r :: l2) /\ named fname r /\ e = total l1 /\ p = prevOf 0 None l1.

Section matching.
Context (s : dir) (ls : list (list rec)) (fname : list Z).
Hypothesis Hok : dir_ok s ls.
Hypothesis Hstart : startLBlkno s < Z.of_nat (length ls).

(** The [k]th block from the start. *)
Definition turn (k : Z) : Z :=
  if startLBlkno s + k <? Z.of_nat (length ls) then startLBlkno s + k else startLBlkno s + k - Z.of_nat (length ls).

Lemma match_loop_spec fuel : forall k,
  0 <= k < Z.of_nat (length ls) -> (Z.to_nat (Z.of_nat (length ls) - k) <= fuel)%nat ->
  (exists i e p, found ls fname i e p /\ match_loop fuel s fname (turn k) = Some (Some (i, e, p))) \/
  (match_loop fuel s fname (turn k) = Some None /\
   forall k', k <= k' < Z.of_nat (length ls) -> forall l, ls !! Z.to_nat (turn k') = Some l -> absent fname l).
Proof.
  pose proof (d_start _ _ Hok) as H0.
  induction fuel as [|fuel IH]; intros k Hk Hf; [lia|]. simpl.
  assert (Hi : 0 <= turn k < Z.of_nat (length ls)) by (unfold turn; destruct (Z.ltb_spec (startLBlkno s + k) (Z.of_nat (length ls))); lia).
  destruct (lookup_lt_is_Some_2 ls (Z.to_nat (turn k))) as [l Hl]; [lia|].
  pose proof (d_blocks _ _ Hok _ _ Hl) as HB. rewrite Z2Nat.id in HB by lia.
  destruct (matchBlock_spec _ _ fname HB) as [(l1 & r & l2 & -> & Hn & _ & E)|[Hno E]]; rewrite E; simpl.
  - left. eexists _, _, _. split; [|done]. exists (Z.to_nat (turn k)), l1, r, l2. rewrite Z2Nat.id by lia. done.
  - rewrite (blocks_ok s ls Hok). set (i' := if _ <=? _ then 0 else _).
    assert (Ei : k + 1 < Z.of_nat (length ls) -> i' = turn (k + 1) /\ i' <> startLBlkno s).
    { intros. unfold i', turn. repeat zcase; lia. }
    assert (Ee : k + 1 = Z.of_nat (length ls) -> i' = startLBlkno s).
    { intros. unfold i', turn. repeat zcase; lia. }
    destruct (decide (k + 1 = Z.of_nat (length ls))) as [He|He].
    + rewrite (Ee He), Z.eqb_refl. right. split; [done|]. intros k' Hk' l' Hl'. assert (k' = k) as -> by lia. rewrite Hl in Hl'. by injection Hl' as <-.
    + destruct Ei as [Ei Hns]; [lia|]. rewrite (proj2 (Z.eqb_neq _ _) Hns), Ei.
      destruct (IH (k + 1)) as [?|[E' Hall]]; [lia|lia|by left|]. right. split; [done|].
      intros k' Hk' l' Hl'. destruct (decide (k' = k)) as [->|]; [rewrite Hl in Hl'; by injection Hl' as <-|]. apply (Hall k'); [lia|done].
Qed.

Lemma match_loop_all :
  (exists i e p, found ls fname i e p /\ match_loop (S (length ls)) s fname (startLBlkno s) = Some (Some (i, e, p))) \/
  (match_loop (S (length ls)) s fname (startLBlkno s) = Some None /\ absent fname (concat ls)).
Proof.
  pose proof (d_start _ _ Hok) as H0.
  assert (E0 : turn 0 = startLBlkno s) by (unfold turn; zcase; lia).
  destruct (match_loop_spec (S (length ls)) 0) as [?|[E Hall]]; [lia|lia|left; by rewrite <- E0|]. rewrite E0 in E.
  right. split; [done|]. apply Forall_concat, Forall_lookup. intros j l Hj. pose proof (lookup_lt_Some _ _ _ Hj).
  set (k := if startLBlkno s <=? Z.of_nat j then Z.of_nat j - startLBlkno s else Z.of_nat j - startLBlkno s + Z.of_nat (length ls)).
  assert (Hk : 0 <= k < Z.of_nat (length ls) /\ turn k = Z.of_nat j) by (unfold k, turn; repeat zcase; lia).
  destruct Hk as [Hk Et]. apply (Hall k Hk). by rewrite Et, Nat2Z.id.
Qed.

End matching.

(** The search is exact, wherever it starts. *)
Lemma matchEntry_spec s ls fname :
  dir_ok s ls -> ls <> [] ->
  exists r s', matchEntry s fname = Some (r, s') /\ dir_ok s' ls /\ pso s' = pso s /\
    match r with
    | Some (i, e, p) => found ls fname i e p
    | None => absent fname (concat ls)
    end.
Proof.
  intros Hok Hne. assert (Hl : (0 < length ls)%nat) by (destruct ls; simpl; [done|lia]).
  unfold matchEntry. rewrite (blocks_ok s ls Hok). rewrite assertK_true by (apply negb_true_iff, Z.eqb_neq; lia). cbn [mbind option_bind]. cbv zeta.
  set (s1 := if Z.of_nat (length ls) <=? startLBlkno s then set_start s 0 else s).
  assert (Hok1 : dir_ok s1 ls /\ pso s1 = pso s /\ startLBlkno s1 < Z.of_nat (length ls)).
  { unfold s1. zcase; split_and!; try done; simpl; try lia. apply start_ok; [done|lia]. }
  destruct Hok1 as (Hok1 & Ep & Hst). rewrite (blocks_ok s1 ls Hok1), Nat2Z.id.
  destruct (match_loop_all s1 ls fname Hok1 Hst) as [(i & e & p & Hf & E)|[E Ha]]; rewrite E; cbn [mbind option_bind].
  - exists (Some (i, e, p)), (set_start s1 (i mod 2 ^ 32)). split; [done|]. split; [|by split].
    apply start_ok; [done|]. apply Z.mod_pos_bound. lia.
  - by exists None, s1.
Qed.

(** ** The directory as a map from names to objects *)

Definition rep (s : dir) (m : gmap (list Z) Z) : Prop :=
  exists ls, dir_ok s ls /\ ls <> [] /\ NoDup (entries ls).*1 /\ m = list_to_map (entries ls).

Lemma rep_perm s ls m l :
  dir_ok s ls -> ls <> [] -> entries ls ≡ₚ l -> NoDup l.*1 -> m = list_to_map l -> rep s m.
Proof.
  intros Hok Hne Hp Hnd ->. exists ls. split; [done|]. split; [done|]. split; [by rewrite Hp|].
  symmetry. apply list_to_map_proper; [by rewrite Hp|done].
Qed.

(** The entry that was found, and the others. *)
Lemma found_split s ls fname i e p :
  dir_ok s ls -> found ls fname i e p ->
  exists j l1 r l2, i = Z.of_nat j /\ ls !! j = Some (l1 ++ r :: l2) /\ e = total l1 /\ p = prevOf 0 None l1 /\ rname r = fname /\ rid r <> 0 /\
    block_ok (readBlockCache s i) (l1 ++ r :: l2) /\ getOtokID (readBlockCache s i) e = Some (rid r) /\
    entries ls ≡ₚ (fname, rid r) :: entries (<[j := l1 ++ l2]> ls).
Proof.
  intros Hok (j & l1 & r & l2 & -> & Hj & [Hid Hnm] & -> & ->). exists j, l1, r, l2. pose proof (d_blocks _ _ Hok _ _ Hj) as HB.
  split_and!; try done.
  - destruct HB as [_ [_ [Hrec _]]%seg_app _ _]. rewrite Z.add_0_l in Hrec. apply Hrec.
  - symmetry. apply (entries_change ls j (l1 ++ r :: l2) (l1 ++ l2) [(fname, rid r)] [] Hj). simpl.
    rewrite !live_app, live_cons, decide_True by done. simpl. rewrite <- Hnm. by rewrite Permutation_middle.
Qed.

Lemma absent_lookup ls fname : absent fname (concat ls) -> (list_to_map (entries ls) : gmap (list Z) Z) !! fname = None.
Proof.
  intros Ha. apply not_elem_of_list_to_map_1. unfold live. intros [[n id] [-> [r [E [Hr Hin]%list_elem_of_filter]]%list_elem_of_fmap]]%list_elem_of_fmap.
  simpl in *. unfold absent in Ha. rewrite Forall_forall in Ha. apply (Ha r Hin). split; [done|]. congruence.
Qed.

(** What the search for a name finds in the map. *)
Lemma match_rep s m fname :
  rep s m ->
  exists r s' ls, matchEntry s fname = Some (r, s') /\ dir_ok s' ls /\ ls <> [] /\ NoDup (entries ls).*1 /\ m = list_to_map (entries ls) /\
    statSize s' = statSize s /\
    match r with Some (i, e, p) => found ls fname i e p | None => m !! fname = None end.
Proof.
  intros (ls & Hok & Hne & Hnd & ->). destruct (matchEntry_spec s ls fname Hok Hne) as (r & s' & E & Hok' & Ep & Hr).
  exists r, s', ls. split_and!; try done.
  - by rewrite (d_size _ _ Hok), (d_size _ _ Hok').
  - destruct r as [[[i e] p]|]; [done|]. by apply absent_lookup.
Qed.

Lemma found_map ls fname id rest :
  NoDup (entries ls).*1 -> entries ls ≡ₚ (fname, id) :: rest ->
  (list_to_map (entries ls) : gmap (list Z) Z) = <[fname := id]> (list_to_map rest) /\ (fname ∉ rest.*1) /\ NoDup rest.*1.
Proof.
  intros Hnd Hp. rewrite Hp in Hnd. simpl in Hnd. apply NoDup_cons in Hnd as [Hni Hnd]. split; [|done].
  rewrite (list_to_map_proper (entries ls) ((fname, id) :: rest)); [done| |done]. rewrite Hp. simpl. by apply NoDup_cons.
Qed.

Lemma matchDir_rep s m fname :
  rep s m ->
  exists s', locked_matchDir s fname = Some (match m !! fname with Some id => inr id | None => inl (- ENOENT) end, s') /\ rep s' m /\ statSize s' = statSize s.
Proof.
  intros HR. destruct (match_rep s m fname HR) as (r & s' & ls & E & Hok & Hne & Hnd & -> & Es & Hr). unfold locked_matchDir. rewrite E. simpl.
  exists s'. destruct r as [[[i e] p]|].
  - destruct (found_split s' ls fname i e p Hok Hr) as (j & l1 & x & l2 & -> & Hj & -> & -> & Hnm & Hid & HB & Eid & Hp).
    rewrite Eid. simpl. destruct (found_map ls fname (rid x) _ Hnd Hp) as (Em & _). rewrite Em, lookup_insert_eq. split; [done|]. split; [|done].
    rewrite <- Em. by exists ls.
  - rewrite Hr. split; [done|]. split; [by exists ls|done].
Qed.

Lemma deleteEntry_rep s m fname :
  rep s m -> exists s', locked_deleteEntry s fname = Some (m !! fname, s') /\ rep s' (delete fname m) /\ statSize s' = statSize s.
Proof.
  intros HR. destruct (match_rep s m fname HR) as (r & s' & ls & E & Hok & Hne & Hnd & -> & Es & Hr). unfold locked_deleteEntry. rewrite E. simpl.
  destruct r as [[[i e] p]|].
  - destruct (found_split s' ls fname i e p Hok Hr) as (j & l1 & x & l2 & -> & Hj & -> & -> & Hnm & Hid & HB & Eid & Hp).
    rewrite Eid. simpl. destruct (remove_spec _ _ _ _ HB) as (b' & l' & -> & HB' & Hl'). simpl. eexists.
    destruct (found_map ls fname (rid x) _ Hnd Hp) as (Em & Hni & Hnd'). rewrite Em, lookup_insert_eq. split; [done|]. split; [|done].
    eapply (rep_perm _ (<[j := l']> ls) _ (entries (<[j := l1 ++ l2]> ls))).
    + by eapply write_ok.
    + intros H%(f_equal length). rewrite length_insert in H. by destruct ls.
    + destruct (concat_at ls j _ Hj) as (a & c & _ & Ei). rewrite !Ei, !concat_app. simpl. rewrite !live_app. by rewrite Hl', live_app, <- app_assoc.
    + done.
    + rewrite delete_insert_id; [done|]. by apply not_elem_of_list_to_map_1.
  - exists s'. rewrite Hr. split; [done|]. split; [|done]. rewrite delete_id by done. by exists ls.
Qed.

(** Redirecting an entry leaves a map without the name as it is. *)
Definition redirected (m : gmap (list Z) Z) (fname : list Z) (id : Z) : gmap (list Z) Z :=
  match m !! fname with Some _ => <[fname := id]> m | None => m end.

Lemma updateEntry_rep s m fname id :
  rep s m -> idOk id ->
  exists s', updateEntry s fname id = Some (m !! fname, s') /\ rep s' (redirected m fname id) /\ statSize s' = statSize s.
Proof.
  intros HR Hido. unfold redirected. destruct (match_rep s m fname HR) as (r & s' & ls & E & Hok & Hne & Hnd & -> & Es & Hr). unfold updateEntry. rewrite E. simpl.
  destruct r as [[[i e] p]|]; [|exists s'; rewrite Hr; split; [done|]; split; [by exists ls|done]].
  destruct (found_split s' ls fname i e p Hok Hr) as (j & l1 & x & l2 & -> & Hj & -> & -> & Hnm & Hid & HB & Eid & Hp). simpl.
  rewrite Eid. simpl. destruct (update_spec _ _ _ _ id HB Hid Hido) as (b' & -> & HB'). simpl.
  destruct (found_map ls fname (rid x) _ Hnd Hp) as (Em & Hni & Hnd'). rewrite Em, lookup_insert_eq.
  eexists. split; [done|]. split; [|done].
  eapply (rep_perm _ (<[j := l1 ++ mkRec id (rlen x) (rname x) :: l2]> ls) _ ((fname, id) :: entries (<[j := l1 ++ l2]> ls))).
  - by eapply write_ok.
  - intros H%(f_equal length). rewrite length_insert in H. by destruct ls.
  - rewrite <- (list_insert_insert_eq ls j (l1 ++ mkRec id (rlen x) (rname x) :: l2) (l1 ++ l2)).
    apply (entries_change (<[j := l1 ++ l2]> ls) j (l1 ++ l2) _ [] [(fname, id)]); [apply list_lookup_insert_eq; by eapply lookup_lt_Some|].
    simpl. rewrite !live_app, live_cons. simpl. rewrite decide_True by (unfold idOk in Hido; lia). rewrite Hnm. simpl. by rewrite Permutation_middle.
  - simpl. by apply NoDup_cons.
  - simpl. by rewrite insert_insert_eq.
Qed.

(** The first block with a hole. *)
Lemma hole_loop_spec s ls fname id :
  dir_ok s ls -> nameOk fname -> idOk id -> forall n j, (j + n = length ls)%nat ->
  hole_loop n s (Z.of_nat (length fname)) (Z.of_nat j) = Some None \/
  exists k l x, ls !! k = Some l /\ hole_loop n s (Z.of_nat (length fname)) (Z.of_nat j) = Some (Some (Z.of_nat k, x)) /\ placed (Some x) l fname id.
Proof.
  intros Hok Hn Hid. induction n as [|n IH]; intros j Hj; simpl; [by left|].
  destruct (lookup_lt_is_Some_2 ls j) as [l Hl]; [lia|]. pose proof (d_blocks _ _ Hok _ _ Hl) as HB.
  destruct (place_spec _ l fname id HB Hn Hid) as [E|(x & E & Hx)]; rewrite E; simpl.
  - replace (Z.of_nat j + 1) with (Z.of_nat (S j)) by lia. apply IH. lia.
  - right. by exists j, l, x.
Qed.

(** A name is entered. *)
Lemma create_ok s ls fname id :
  dir_ok s ls -> nameOk fname -> idOk id -> Z.of_nat (length ls) + 1 < 2 ^ 32 ->
  exists s' ls', locked_createEntry s fname id = Some s' /\ dir_ok s' ls' /\ ls' <> [] /\
    entries ls' ≡ₚ (fname, id) :: entries ls /\ (length ls <= length ls' <= S (length ls))%nat.
Proof.
  intros Hok Hn Hid Hb. unfold locked_createEntry. rewrite (blocks_ok s ls Hok), Nat2Z.id.
  destruct (hole_loop_spec s ls fname id Hok Hn Hid (length ls) 0) as [E|(k & l & [b1 e] & Hk & E & (b1' & e' & b2 & l' & [= <- <-] & E2 & HB & Hp))]; [lia|..];
    change (Z.of_nat 0) with 0 in E; rewrite E; simpl.
  - destruct (fresh_spec (readBlockCache s (Z.of_nat (length ls))) fname id) as (b1 & b2 & -> & E2 & l & HB & El); [by eapply block_length|done|done|].
    simpl. rewrite E2. simpl. eexists _, (ls ++ [l]). split; [done|]. split; [by apply append_ok|]. split; [by destruct ls|]. split.
    + rewrite concat_app. simpl. rewrite app_nil_r, live_app, El. by rewrite Permutation_app_comm.
    + rewrite length_app. simpl. lia.
  - rewrite E2. simpl. eexists _, (<[k := l']> ls). split; [done|]. split; [by eapply write_ok|]. split.
    + intros H%(f_equal length). rewrite length_insert in H. apply lookup_lt_Some in Hk. simpl in H. lia.
    + split; [|rewrite length_insert; lia]. apply (entries_change ls k l l' [] [(fname, id)] Hk). done.
Qed.

(** As large as a directory may be before a name is entered. *)
Definition roomy (s : dir) : Prop := statSize s + OS_BLOCK_SIZE < OS_BLOCK_SIZE * 2 ^ 32.

Lemma createEntry_rep s m fname id :
  rep s m -> m !! fname = None -> nameOk fname -> idOk id -> roomy s ->
  exists s', locked_createEntry s fname id = Some s' /\ rep s' (<[fname := id]> m) /\ statSize s <= statSize s' <= statSize s + OS_BLOCK_SIZE.
Proof.
  intros (ls & Hok & Hne & Hnd & ->) Hm Hn Hid Hr. unfold roomy, OS_BLOCK_SIZE in *. pose proof (d_size _ _ Hok) as Es. unfold OS_BLOCK_SIZE in Es.
  destruct (create_ok s ls fname id Hok Hn Hid) as (s' & ls' & E & Hok' & Hne' & Hp & Hlen); [lia|]. exists s'. split; [done|]. split.
  - eapply rep_perm; [exact Hok'|done|exact Hp| |done]. simpl. apply NoDup_cons. split; [|done]. by apply not_elem_of_list_to_map_2 in Hm.
  - rewrite (d_size _ _ Hok'). unfold OS_BLOCK_SIZE. lia.
Qed.

(** ** A new directory *)

Definition emptyDir : dir := mkDir ∅ 0 0 0.
Definition DOT : list Z := [46].
Definition DOTDOT : list Z := [46; 46].

(** What createDir makes of a new directory. *)
Definition newDir (self parent : Z) : option dir :=
  s ← locked_createEntry emptyDir DOT self;
  locked_createEntry s DOTDOT parent.

Lemma newDir_rep self parent :
  idOk self -> idOk parent ->
  exists s, newDir self parent = Some s /\ rep s {[ DOT := self; DOTDOT := parent ]} /\ statSize s <= 2 * OS_BLOCK_SIZE.
Proof.
  intros Hs Hp. unfold newDir.
  assert (H0 : dir_ok emptyDir []) by (split; simpl; try done; unfold OS_BLOCK_SIZE; lia).
  destruct (create_ok emptyDir [] DOT self H0) as (s1 & ls1 & -> & Hok1 & Hne1 & Hp1 & Hl1); try done. simpl in *.
  assert (HR : rep s1 {[ DOT := self ]}).
  { eapply rep_perm; [exact Hok1|done|exact Hp1|apply NoDup_singleton|]. simpl. done. }
  assert (Hz : statSize s1 <= OS_BLOCK_SIZE) by (rewrite (d_size _ _ Hok1); unfold OS_BLOCK_SIZE; lia).
  destruct (createEntry_rep s1 _ DOTDOT parent HR) as (s2 & E2 & HR2 & Hz2); try done; [unfold roomy, OS_BLOCK_SIZE in *; lia|].
  exists s2. split; [done|]. split; [|unfold OS_BLOCK_SIZE in *; lia]. 
  unfold singletonM, map_singleton in *. by rewrite insert_insert_ne.
Qed.

(** ** Sequences of operations *)

Inductive op := Match (n : list Z) | Create (n : list Z) (id : Z) | Delete (n : list Z) | Update (n : list Z) (id : Z).
Inductive answer := NoEntry | Object (id : Z) | Done.

Definition exec (o : op) (s : dir) : option (answer * dir) :=
  match o with
  | Match n => '(r, s) ← locked_matchDir s n; Some (match r with inr id => Object id | inl _ => NoEntry end, s)
  | Create n id => s ← locked_createEntry s n id; Some (Done, s)
  | Delete n => '(r, s) ← locked_deleteEntry s n; Some (match r with Some id => Object id | None => NoEntry end, s)
  | Update n id => '(r, s) ← updateEntry s n id; Some (match r with Some id => Object id | None => NoEntry end, s)
  end.

Fixpoint run (os : list op) (s : dir) : option (list answer * dir) :=
  match os with
  | [] => Some ([], s)
  | o :: os => '(a, s) ← exec o s; '(l, s) ← run os s; Some (a :: l, s)
  end.

(** The same on a map. *)
Definition answerOf (o : option Z) : answer := match o with Some id => Object id | None => NoEntry end.

Definition spec (o : op) (m : gmap (list Z) Z) : answer * gmap (list Z) Z :=
  match o with
  | Match n => (answerOf (m !! n), m)
  | Create n id => (Done, <[n := id]> m)
  | Delete n => (answerOf (m !! n), delete n m)
  | Update n id => (answerOf (m !! n), redirected m n id)
  end.

(** Only a new name is entered. *)
Definition permitted (o : op) (m : gmap (list Z) Z) : Prop :=
  match o with
  | Match _ | Delete _ => True
  | Create n id => m !! n = None /\ nameOk n /\ idOk id
  | Update n id => idOk id
  end.

Fixpoint spec_run (os : list op) (m : gmap (list Z) Z) : list answer * gmap (list Z) Z :=
  match os with
  | [] => ([], m)
  | o :: os => let (a, m') := spec o m in let (l, m'') := spec_run os m' in (a :: l, m'')
  end.

Fixpoint permitted_all (os : list op) (m : gmap (list Z) Z) : Prop :=
  match os with
  | [] => True
  | o :: os => permitted o m /\ permitted_all os (spec o m).2
  end.

Lemma exec_refines o s m :
  rep s m -> permitted o m -> roomy s ->
  exists s', exec o s = Some ((spec o m).1, s') /\ rep s' (spec o m).2 /\ statSize s' <= statSize s + OS_BLOCK_SIZE.
Proof.
  intros HR Hp Hr. destruct o as [n|n id|n|n id]; simpl in *.
  - destruct (matchDir_rep s m n HR) as (s' & -> & HR' & Es). exists s'. simpl. split; [by destruct (m !! n)|]. split; [done|]. unfold OS_BLOCK_SIZE. lia.
  - destruct Hp as (Hm & Hn & Hid). destruct (createEntry_rep s m n id HR Hm Hn Hid Hr) as (s' & -> & HR' & Es). exists s'. split; [done|]. split; [done|]. lia.
  - destruct (deleteEntry_rep s m n HR) as (s' & -> & HR' & Es). exists s'. simpl. split; [by destruct (m !! n)|]. split; [done|]. unfold OS_BLOCK_SIZE. lia.
  - destruct (updateEntry_rep s m n id HR Hp) as (s' & -> & HR' & Es). exists s'. simpl. split; [by destruct (m !! n)|]. split; [done|]. unfold OS_BLOCK_SIZE. lia.
Qed.

Lemma dir_run_refines os : forall s m,
  rep s m -> permitted_all os m -> statSize s + OS_BLOCK_SIZE * Z.of_nat (length os) < OS_BLOCK_SIZE * 2 ^ 32 ->
  exists s', run os s = Some ((spec_run os m).1, s') /\ rep s' (spec_run os m).2.
Proof.
  induction os as [|o os IH]; intros s m HR Hp Hz; simpl in *; [by exists s|]. destruct Hp as [Hp Hps]. unfold OS_BLOCK_SIZE in *.
  destruct (exec_refines o s m HR Hp) as (s1 & -> & HR1 & Es); [unfold roomy, OS_BLOCK_SIZE; lia|]. simpl. unfold OS_BLOCK_SIZE in *.
  destruct (spec o m) as [a m1]. simpl in *. destruct (IH s1 m1 HR1 Hps) as (s' & -> & HR'); [lia|]. exists s'. simpl.
  by destruct (spec_run os m1).
Qed.

(** C13: A directory is a map from names to objects.  Made with its entries for
    itself and its parent, and then used by any sequence of searches, removals,
    entries of new names of 1 to 255 bytes and redirections, the
    blocks of variable records behave as a finite map: no access is outside a
    block, every search ends, each answer is that of the map (whatever block the
    search starts at), and at the end the records in use are the entries of the
    map. *)
Theorem dir_refines_map self parent os m0 :
  m0 = {[ DOT := self; DOTDOT := parent ]} ->
  idOk self -> idOk parent -> permitted_all os m0 -> Z.of_nat (length os) < 2 ^ 31 ->
  exists s s', newDir self parent = Some s /\ run os s = Some ((spec_run os m0).1, s') /\ rep s' (spec_run os m0).2.
Proof.
  intros -> Hs Hp Hos Hlen. destruct (newDir_rep self parent Hs Hp) as (s & E & HR & Hz). exists s.
  destruct (dir_run_refines os s _ HR Hos) as (s' & E' & HR'); [unfold OS_BLOCK_SIZE in *; lia|]. by exists s'.
Qed.

(** Two names in place of a removed one, a redirection and a removal. *)
Definition tour : list op :=
  [Create [97; 98; 99; 100; 101; 102; 103; 104; 105; 106; 107; 108] 7; Create [100] 8; Delete [97; 98; 99; 100; 101; 102; 103; 104; 105; 106; 107; 108];
   Create [120] 9; Match [100]; Update [100] 11; Match [100]; Match [97]; Delete DOT; Match DOTDOT].

Lemma dir_refines_map_witness :
  (spec_run tour {[ DOT := 2; DOTDOT := 1 ]}).1 = [Done; Done; Object 7; Done; Object 8; Object 8; Object 11; NoEntry; Object 2; Object 1] /\
  exists s s', newDir 2 1 = Some s /\ run tour s = Some ((spec_run tour {[ DOT := 2; DOTDOT := 1 ]}).1, s').
Proof.
  split; [by vm_compute|].
  destruct (dir_refines_map 2 1 tour _ eq_refl) as (s & s' & E & E' & _); [done|done| |by vm_compute|by exists s, s'].
  cbn [permitted_all tour permitted spec snd]. repeat split; try done; try (by vm_compute); by eexists.
Defined.

End LSOBasicDir.
