(* ===== verification/KFSReaddir.v ===== *)
(** * KFSReaddir: listing a KFS directory, getDents of
    os/servers/kfs/LSOBasicDir.C

    A cookie is a position in the blocks of a directory.  Calls of getDents, each
    from the cookie of the one before, list every entry once. *)

From stdpp Require Import base numbers option gmap list.
From S2P Require Import K42 Prelude DirBlock LSOBasicDir.

Module KFSReaddir.

Import DirBlock LSOBasicDir.

(** ** Positions *)

(** [rest] are the records from position [c] on: offset [o] of block [k]. *)
Definition at_pos (ls : list (list rec)) (k : nat) (o : Z) (rest : list rec) : Prop :=
  exists l1 l2, ls !! k = Some (l1 ++ l2) /\ o = total l1 /\ rest = l2 ++ concat (drop (S k) ls).

Definition at_cookie (ls : list (list rec)) (c : Z) (rest : list rec) : Prop :=
  exists k o, c = OS_BLOCK_SIZE * Z.of_nat k + o /\ at_pos ls k o rest.

Lemma pos_range s ls k l1 l2 :
  dir_ok s ls -> ls !! k = Some (l1 ++ l2) ->
  0 <= total l1 /\ 0 <= total l2 /\ total l1 + total l2 + 8 < OS_BLOCK_SIZE /\ seg (readBlockCache s (Z.of_nat k)) (total l1) l2 /\
  (l2 = [] -> getReclen (readBlockCache s (Z.of_nat k)) (total l1) = Some 0).
Proof.
  intros Hok Hk. destruct (d_blocks _ _ Hok _ _ Hk) as [_ Hs Ht Hr]. apply seg_app in Hs as [S1 S2]. rewrite Z.add_0_l in *. rewrite rlen_app in *.
  pose proof (total_nonneg _ _ _ S1). pose proof (total_nonneg _ _ _ S2). split_and!; try done. intros ->. simpl in Ht. by rewrite Z.add_0_r in Ht.
Qed.

Lemma cookie_parts k o : 0 <= k -> 0 <= o < OS_BLOCK_SIZE -> blockOf (OS_BLOCK_SIZE * k + o) = k /\ offsetOf (OS_BLOCK_SIZE * k + o) = o.
Proof.
  intros Hk Ho. unfold blockOf, offsetOf, OS_BLOCK_SIZE, OS_BLOCK_SHIFT in *. rewrite Z.shiftr_div_pow2 by lia. change (4096 - 1) with (Z.ones 12).
  rewrite Z.land_ones by lia. change (2 ^ 12) with 4096. replace (4096 * k + o) with (o + k * 4096) by lia. rewrite Z.div_add, Z.mod_add by lia.
  rewrite Z.div_small, Z.mod_small by lia. lia.
Qed.

(** The position after an entry, from either of the two forms of the offset. *)
Lemma cookie_join k x o : 0 <= k -> 0 <= o < OS_BLOCK_SIZE -> x = o \/ x = OS_BLOCK_SIZE * k + o ->
  Z.lor (Z.shiftl k OS_BLOCK_SHIFT) x = OS_BLOCK_SIZE * k + o.
Proof.
  intros Hk Ho Hx. unfold OS_BLOCK_SIZE, OS_BLOCK_SHIFT in *.
  assert (Hl : Z.land (Z.shiftl k 12) o = 0).
  { apply Z.bits_inj'. intros n Hn. rewrite Z.land_spec, Z.bits_0. destruct (Z_lt_le_dec n 12).
    - by rewrite Z.shiftl_spec_low.
    - rewrite (testbit_bounded o 12) by lia. apply andb_false_r. }
  assert (Hj : Z.lor (Z.shiftl k 12) o = 4096 * k + o).
  { rewrite <- Z.lxor_lor, <- Z.add_nocarry_lxor by done. rewrite Z.shiftl_mul_pow2 by lia. lia. }
  destruct Hx as [->| ->]; [done|]. by rewrite <- Hj at 1; rewrite Z.lor_assoc, Z.lor_diag.
Qed.

(** ** The next entry in use *)

Definition unused (r : rec) : Prop := rid r = 0.

(** How far [seek] may have to go. *)
Definition steps (ls : list (list rec)) (k : nat) (rest : list rec) : nat := (length rest + (length ls - k))%nat.

Lemma at_next ls k l : ls !! S k = Some l -> at_pos ls (S k) 0 (concat (drop (S k) ls)).
Proof. intros Hl. exists [], l. split; [done|]. split; [done|]. by rewrite (drop_S ls l) by done. Qed.

Lemma seek_spec s ls : dir_ok s ls -> forall fuel k o x rest,
  at_pos ls k o rest -> x = o \/ x = OS_BLOCK_SIZE * Z.of_nat k + o -> (steps ls k rest < fuel)%nat ->
  (Forall unused rest /\ exists cur bn off, seek fuel s (Z.of_nat k) (Z.of_nat k) o x = Some (None, cur, bn, off)) \/
  (exists us r rest' k' o' x', rest = us ++ r :: rest' /\ Forall unused us /\ ~ unused r /\
    seek fuel s (Z.of_nat k) (Z.of_nat k) o x = Some (Some (o', rlen r, rid r), Z.of_nat k', Z.of_nat k', x') /\
    (x' = o' \/ x' = OS_BLOCK_SIZE * Z.of_nat k' + o') /\ 0 <= o' /\ o' + rlen r < OS_BLOCK_SIZE /\
    rec_at (readBlockCache s (Z.of_nat k')) o' r /\ at_pos ls k' (o' + rlen r) rest').
Proof.
  intros Hok. induction fuel as [|fuel IH]; intros k o x rest (l1 & l2 & Hk & -> & ->) Hx Hf; [lia|].
  destruct (pos_range s ls k l1 l2 Hok Hk) as (R1 & R2 & R3 & Hs & Ht). pose proof (lookup_lt_Some _ _ _ Hk) as Hlk. simpl.
  destruct l2 as [|r l2].
  - rewrite Ht by done. simpl. replace (Z.of_nat k + 1) with (Z.of_nat (S k)) by lia. rewrite (d_size _ _ Hok).
    destruct (Z.ltb_spec (Z.of_nat (S k) * OS_BLOCK_SIZE) (OS_BLOCK_SIZE * Z.of_nat (length ls))) as [Hlt|Hge].
    + destruct (lookup_lt_is_Some_2 ls (S k)) as [l Hl]; [unfold OS_BLOCK_SIZE in *; lia|].
      apply (IH (S k) 0 _ (concat (drop (S k) ls)) (at_next ls k l Hl)); [right; lia|]. unfold steps in *. simpl in Hf. lia.
    + left. rewrite drop_ge by (unfold OS_BLOCK_SIZE in *; lia). split; [done|]. eauto.
  - destruct Hs as [Hrec Hs]. pose proof (r_long _ _ _ Hrec). rewrite (r_len _ _ _ Hrec). simpl. rewrite (proj2 (Z.eqb_neq _ _)) by lia.
    rewrite (r_id _ _ _ Hrec). simpl. simpl in R3. assert (Hnext : at_pos ls k (total l1 + rlen r) (l2 ++ concat (drop (S k) ls))).
    { exists (l1 ++ [r]), l2. rewrite <- app_assoc. split; [done|]. split; [|done]. rewrite rlen_app. simpl. lia. }
    destruct (Z.eqb_spec (rid r) 0) as [E|E].
    + destruct (IH k (total l1 + rlen r) (x + rlen r) _ Hnext) as [[Hu ?]|(us & r' & rest' & k' & o' & x' & -> & Hu & H')]; [lia|unfold steps in *; simpl in Hf; lia|left|right].
      * split; [by apply Forall_cons|done].
      * exists (r :: us), r', rest', k', o', x'. split; [done|]. split; [by apply Forall_cons|done].
    + right. exists [], r, (l2 ++ concat (drop (S k) ls)), k, (total l1), x. pose proof (total_nonneg _ _ _ Hs). split_and!; try done. lia.
Qed.

Lemma concat_length {A} (ls : list (list A)) n : Forall (fun l => (length l <= n)%nat) ls -> (length (concat ls) <= n * length ls)%nat.
Proof. induction 1 as [|l ls Hl _ IH]; simpl; [lia|]. rewrite length_app. lia. Qed.

Lemma steps_fuel s ls k o rest : dir_ok s ls -> at_pos ls k o rest -> (steps ls k rest < seek_fuel s)%nat.
Proof.
  intros Hok (l1 & l2 & Hk & -> & ->). unfold steps, seek_fuel. rewrite (d_size _ _ Hok).
  assert (Hb : Forall (fun l => (length l <= 511)%nat) ls).
  { apply Forall_lookup. intros j l Hj. destruct (d_blocks _ _ Hok _ _ Hj) as [_ Hs _ Hr]. pose proof (seg_total _ _ _ Hs). unfold OS_BLOCK_SIZE in *. lia. }
  assert (Hl : (length (l2 ++ concat (drop (S k) ls)) <= length (concat ls))%nat).
  { rewrite <- (take_drop_middle ls k (l1 ++ l2) Hk) at 2. rewrite concat_app. simpl. rewrite !length_app. lia. }
  pose proof (concat_length ls 511 Hb). pose proof (lookup_lt_Some _ _ _ Hk). unfold OS_BLOCK_SIZE. lia.
Qed.

Lemma live_unused us : Forall unused us -> live us = [].
Proof. induction 1 as [|r us Hr _ IH]; [done|]. rewrite live_cons, IH. by rewrite decide_False by (by intros ?). Qed.

(** ** getDents *)

(** An entry as getDents returns it; the offset of the last one may have been
    cleared. *)
Definition shown (d : dirent) : list Z * Z := (d_name d, d_ino d).
Definition listed (r : list Z * Z) : list Z * Z := (cstring r.1, r.2).

Lemma closeLast_shown ds : shown <$> closeLast ds = shown <$> ds.
Proof.
  unfold closeLast. destruct ds as [|d ds _] using rev_ind; [done|]. rewrite rev_app_distr. simpl. rewrite rev_involutive. by rewrite !fmap_app.
Qed.

Lemma mem_bounds hdr n : 0 <= hdr < 2 ^ 32 -> 0 <= n <= 255 -> 0 < GetMemRecLen hdr n <= hdr + 259 /\ hdr + n + 1 <= GetMemRecLen hdr n.
Proof.
  intros Hh Hn. unfold GetMemRecLen. rewrite (uadd_small n 1), uadd_small by lia. change 4 with (2 ^ 2).
  destruct (align_up_bounds (hdr + (n + 1)) 2) as [H1 H2]; [lia..|]. change (2 ^ 2) with 4 in *. lia.
Qed.

Section listing.
Context (s : dir) (ls : list (list rec)) (hdr len : Z).
Hypothesis Hok : dir_ok s ls.
Hypothesis Hhdr : 0 <= hdr < 2 ^ 32.
Hypothesis Hlen : 0 <= len < 2 ^ 62.

(** A call lists [now] and leaves [later]. *)
Definition goes (rest : list rec) (ds0 : list dirent) (r : option (list dirent * Z * Z)) (used0 : Z) : Prop :=
  exists ds c used now rest', r = Some (ds, c, used) /\ at_cookie ls c rest' /\ live rest = now ++ live rest' /\
    shown <$> ds = (shown <$> ds0) ++ (listed <$> now) /\ used0 <= used /\ (used = used0 <-> now = []) /\
    (used0 + hdr + 259 <= len -> now = [] -> live rest' = []).

Lemma dents_loop_spec fuel : forall c rest ds used,
  at_cookie ls c rest -> 0 <= used -> (Z.to_nat (len - used) < fuel)%nat ->
  goes rest ds (dents_loop fuel s hdr len ds c used) used.
Proof.
  induction fuel as [|fuel IH]; intros c rest ds used Hat Hu Hf; [lia|]. cbn [dents_loop].
  destruct (Z.ltb_spec used len) as [Hlt|Hge].
  2:{ exists ds, c, used, [], rest. split; [done|]. split; [done|]. split; [done|]. split; [by rewrite app_nil_r|]. split; [lia|]. split; [done|]. lia. }
  pose proof Hat as (k & o & -> & Hp). pose proof Hp as (l1 & l2 & Hk & Eo & _). destruct (pos_range s ls k l1 l2 Hok Hk) as (R1 & R2 & R3 & _).
  destruct (cookie_parts (Z.of_nat k) o) as [-> ->]; [lia|lia|].
  destruct (seek_spec s ls Hok (seek_fuel s) k o o rest Hp ltac:(by left) (steps_fuel s ls k o rest Hok Hp))
    as [[Hun (cur & bn & off & E)]|(us & r & rest' & k' & o' & x' & -> & Hun & Hr & E & Hx' & Ho' & Hor & Hrec & Hp')]; rewrite E; simpl.
  - exists (closeLast ds), (OS_BLOCK_SIZE * Z.of_nat k + o), used, [], rest. split; [done|]. split; [done|]. split; [done|].
    split; [by rewrite app_nil_r, closeLast_shown|]. split; [lia|]. split; [done|]. intros _ _. by apply live_unused.
  - destruct (r_name _ _ _ Hrec Hr) as (N1 & N2 & N3 & _). unfold nameOk in N3. rewrite N1. simpl.
    pose proof (mem_bounds hdr (Z.of_nat (length (rname r))) Hhdr ltac:(lia)) as [M1 M2]. set (g := GetMemRecLen hdr _) in *. rewrite (uadd_small g) by lia.
    assert (El : live (us ++ r :: rest') = (rname r, rid r) :: live rest').
    { rewrite live_app, live_cons, (live_unused us Hun), decide_True by done. done. }
    destruct (Z.ltb_spec len (g + used)) as [Hno|Hfit].
    + exists ds, (OS_BLOCK_SIZE * Z.of_nat k + o), used, [], (us ++ r :: rest'). split; [done|]. split; [done|]. split; [done|].
      split; [by rewrite app_nil_r|]. split; [lia|]. split; [done|]. lia.
    + rewrite N2. simpl. rewrite (cookie_join (Z.of_nat k') (x' + rlen r) (o' + rlen r)) by (destruct (r_long _ _ _ Hrec); lia). rewrite uadd_small by lia.
      set (d := mkDirent _ _ _ _).
      destruct (IH (OS_BLOCK_SIZE * Z.of_nat k' + (o' + rlen r)) rest' (ds ++ [d]) (used + g))
        as (ds' & c' & used' & now & rest'' & -> & Hat' & Hl' & Hs' & Hle & Heq & _); [by exists k', (o' + rlen r)|lia|lia|].
      exists ds', c', used', ((rname r, rid r) :: now), rest''. split; [done|]. split; [done|]. split; [by rewrite El, Hl'|].
      split; [rewrite Hs', fmap_app, <- app_assoc; done|]. split; [lia|]. split; [split; [lia|done]|done].
Qed.

Lemma getDents_goes c rest : at_cookie ls c rest -> goes rest [] (getDents s hdr c len) 0.
Proof. intros Hat. apply dents_loop_spec; [done|lia|lia]. Qed.

End listing.

(** ** Listing a whole directory *)

(** Calls of getDents until one returns nothing. *)
Fixpoint readdir (fuel : nat) (s : dir) (hdr len cookie : Z) : option (list dirent) :=
  match fuel with
  | O => None
  | S fuel =>
      '(ds, c, used) ← getDents s hdr cookie len;
      if used =? 0 then Some [] else r ← readdir fuel s hdr len c; Some (ds ++ r)
  end.

Lemma readdir_spec s ls hdr len : dir_ok s ls -> 0 <= hdr < 2 ^ 32 -> hdr + 259 <= len < 2 ^ 62 -> forall fuel c rest,
  at_cookie ls c rest -> (length (live rest) < fuel)%nat ->
  exists ds, readdir fuel s hdr len c = Some ds /\ shown <$> ds = listed <$> live rest.
Proof.
  intros Hok Hh Hl. induction fuel as [|fuel IH]; intros c rest Hat Hf; [lia|]. cbn [readdir].
  destruct (getDents_goes s ls hdr len Hok Hh ltac:(lia) c rest Hat) as (ds & c' & used & now & rest' & -> & Hat' & Hlv & Hs & Hle & Heq & Hend). simpl.
  destruct (Z.eqb_spec used 0) as [E|E].
  - apply Heq in E as ->. exists []. split; [done|]. by rewrite Hlv, Hend by (done || lia).
  - assert (Hne : now <> []) by (intros En; by apply E, Heq).
    destruct (IH c' rest' Hat') as (r & -> & Hr). { rewrite Hlv, length_app in Hf. destruct now; [done|]. simpl in Hf. lia. }
    exists (ds ++ r). split; [done|]. rewrite fmap_app, Hs, Hr, Hlv, fmap_app. done.
Qed.

Lemma at_start s ls : dir_ok s ls -> ls <> [] -> at_cookie ls 0 (concat ls).
Proof. intros _ Hne. destruct ls as [|l ls]; [done|]. exists 0%nat, 0. split; [done|]. exists [], l. split; [done|]. split; [done|]. simpl. by rewrite drop_0. Qed.

Lemma cstring_id nm : 0 ∉ nm -> cstring nm = nm.
Proof.
  unfold cstring. induction nm as [|c nm IH]; [done|]. intros [Hc Hnm]%not_elem_of_cons. simpl. rewrite (proj2 (Z.eqb_neq c 0)) by done.
  specialize (IH Hnm). destruct (span_until (λ c0 : Z, c0 =? 0) nm). simpl in *. by rewrite IH.
Qed.

(** C14: Listing a directory is complete.  For a directory whose names hold no zero
    byte, calls of getDents, each from the cookie of the one before and with a
    buffer for at least one entry, end after at most as many calls as there are
    entries, and list every name with its object exactly once. *)
Theorem readdir_complete s m hdr len :
  rep s m -> (forall n, is_Some (m !! n) -> 0 ∉ n) -> 0 <= hdr < 2 ^ 32 -> hdr + 259 <= len < 2 ^ 62 ->
  exists ds, readdir (S (size m)) s hdr len 0 = Some ds /\ shown <$> ds ≡ₚ map_to_list m.
Proof.
  intros (ls & Hok & Hne & Hnd & ->) Hz Hh Hl.
  assert (Hp : map_to_list (list_to_map (live (concat ls)) : gmap (list Z) Z) ≡ₚ live (concat ls)) by (by apply map_to_list_to_map).
  assert (Hsz : size (list_to_map (live (concat ls)) : gmap (list Z) Z) = length (live (concat ls))) by (by rewrite <- length_map_to_list, Hp).
  destruct (readdir_spec s ls hdr len Hok Hh Hl (S (length (live (concat ls)))) 0 (concat ls)) as (ds & E & Hs); [by eapply at_start|lia|].
  rewrite Hsz. exists ds. split; [done|]. rewrite Hs, Hp.
  assert (Hid : listed <$> live (concat ls) = live (concat ls)); [|by rewrite Hid].
  rewrite <- (list_fmap_id (live (concat ls))) at 2. apply list_fmap_ext. intros i [n id] Hi. unfold listed. simpl. f_equal. apply cstring_id, Hz.
  apply list_elem_of_lookup_2 in Hi. exists id. by apply elem_of_list_to_map_1.
Qed.

Lemma readdir_complete_witness :
  exists s ds, newDir 2 1 = Some s /\ readdir 3 s 24 512 0 = Some ds /\ shown <$> ds ≡ₚ map_to_list ({[ DOT := 2; DOTDOT := 1 ]} : gmap (list Z) Z).
Proof.
  destruct (newDir_rep 2 1) as (s & E & HR & _); [done|done|].
  assert (Hz : forall n, is_Some (({[ DOT := 2; DOTDOT := 1 ]} : gmap (list Z) Z) !! n) -> 0 ∉ n).
  { assert (H : map_Forall (fun n _ => 0 ∉ n) ({[ DOT := 2; DOTDOT := 1 ]} : gmap (list Z) Z)) by (apply (bool_decide_unpack _); by vm_compute).
    intros n [id Hn]. exact (H n id Hn). }
  destruct (readdir_complete s _ 24 512 HR Hz ltac:(lia) ltac:(lia)) as (ds & E' & Hd). exists s, ds.
  replace (S (size ({[ DOT := 2; DOTDOT := 1 ]} : gmap (list Z) Z))) with 3%nat in E' by (by vm_compute).
  split; [exact E|]. split; [exact E'|exact Hd].
Defined.

End KFSReaddir.
