(* ===== verification/FSFileKFS.v ===== *)
(** * FSFileKFS: names, directories and link counts of KFS,
    os/servers/kfs/FSFileKFS.C, LSOBasic.C and the operations of LSOBasicDir.C
    that touch more than one object

    The objects of a file system have numbers and link counts; the directories
    among them hold names.  Creating, linking, removing and renaming files and
    making and removing directories keep the count of every object equal to the
    number of entries that name it, in the directories that are still in the tree.

    The number of a new object is the answer of the record map, an argument here.
    The contents of files, the failure to allocate a record, locks and time stamps
    are left out. *)

From stdpp Require Import base numbers option gmap list.
From S2P Require Import K42 Prelude DirBlock LSOBasicDir KFSReaddir.

Module FSFileKFS.

Import DirBlock LSOBasicDir KFSReaddir.

Definition EEXIST : Z := 17.
Definition ENOTEMPTY : Z := 39.
Definition EMLINK : Z := 31.

(** [multi] lists the objects given to the manager of files with several links. *)
Record fs := mkFS { dirs : gmap Z dir; nlinks : gmap Z Z; multi : list Z }.

Definition set_dir (f : fs) (d : Z) (s : dir) : fs := mkFS (<[d := s]> (dirs f)) (nlinks f) (multi f).
Definition set_links (f : fs) (id n : Z) : fs := mkFS (dirs f) (<[id := n]> (nlinks f)) (multi f).

(** ** LSOBasic *)

Definition getNumLinks (f : fs) (id : Z) : option Z := nlinks f !! id.
Definition lso_link (f : fs) (id : Z) : option fs := n ← getNumLinks f id; Some (set_links f id (uadd n 1)).
Definition lso_unlink (f : fs) (id : Z) : option fs := n ← getNumLinks f id; Some (set_links f id (usub n 1)).

(** Only an object without links is deleted; its record is free then.  For one with
    links an assertion comes before the return of -1. *)
Definition lso_deleteFile (f : fs) (id : Z) : option (Z * fs) :=
  n ← getNumLinks f id;
  if negb (n =? 0) then _ ← assertK false; Some (-1, f)
  else Some (0, mkFS (delete id (dirs f)) (delete id (nlinks f)) (multi f)).

(** ** LSOBasicDir *)

Definition matchDir (f : fs) (d : Z) (fname : list Z) : option ((Z + Z) * fs) :=
  s ← dirs f !! d;
  '(r, s) ← locked_matchDir s fname;
  Some (r, set_dir f d s).

Definition createEntry (f : fs) (d : Z) (fname : list Z) (otok : Z) : option fs :=
  s ← dirs f !! d;
  s ← locked_createEntry s fname otok;
  lso_link (set_dir f d s) otok.

Definition deleteEntry (f : fs) (d : Z) (fname : list Z) (otok : option Z) : option (Z * fs) :=
  s ← dirs f !! d;
  '(r, s) ← locked_deleteEntry s fname;
  let f := set_dir f d s in
  match r with
  | None => Some (-1, f)
  | Some id => f ← lso_unlink f (default id otok); Some (0, f)
  end.

Definition redirectEntry (f : fs) (d : Z) (fname : list Z) (otok : Z) : option (Z * fs) :=
  s ← dirs f !! d;
  '(r, s) ← updateEntry s fname otok;
  match r with
  | None => _ ← assertK false; Some (-1, set_dir f d s)
  | Some old =>
      f ← lso_unlink (set_dir f d s) old;
      f ← lso_link f otok;
      Some (0, f)
  end.

Definition createDir (f : fs) (d : Z) (fname : list Z) (dtok : Z) : option fs :=
  s ← dirs f !! d;
  s ← locked_createEntry s fname dtok;
  f ← createEntry (set_dir f d s) dtok DOT dtok;
  f ← createEntry f dtok DOTDOT d;
  lso_link f dtok.

(** The offset matchIndex leaves, and whether it found an entry. *)
Definition matchIndex (s : dir) (pos : Z) : option (bool * Z) :=
  r ← locked_matchIndex s pos;
  Some (match r with Some (offset, _) => (true, offset) | None => (false, 0) end).

Definition holdsMore (s : dir) : option bool :=
  '(_, offset) ← matchIndex s 0;
  '(_, offset) ← matchIndex s offset;
  '(third, _) ← matchIndex s offset;
  Some third.

Definition deleteDir (f : fs) (d : Z) (fname : list Z) : option (Z * fs) :=
  '(r, f) ← matchDir f d fname;
  match r with
  | inl rc => Some (rc, f)
  | inr id =>
      s ← dirs f !! id;
      more ← holdsMore s;
      if more : bool then Some (_SERROR 2347 0 ENOTEMPTY, f)
      else
        '(rc, f) ← deleteEntry f d fname (Some id);
        _ ← assertK (rc =? 0);
        f ← lso_unlink f d;
        f ← lso_unlink f id;
        Some (rc, f)
  end.

(** ** FSFileKFS *)

(** createRecord and initAttribute: a new object has no links. *)
Definition createFile (f : fs) (d : Z) (name : list Z) (newTok : Z) : option (Z * fs) :=
  f ← createEntry (set_links f newTok 0) d name newTok;
  Some (0, f).

Definition link (f : fs) (id : Z) (newDir : Z) (newname : list Z) : option (Z * fs) :=
  '(r, f) ← matchDir f newDir newname;
  match r with
  | inl _ =>
      f ← createEntry f newDir newname id;
      n ← getNumLinks f id;
      Some (0, if n =? 1 then mkFS (dirs f) (nlinks f) (multi f ++ [id]) else f)
  | inr _ => Some (_SERROR 2342 0 EEXIST, f)
  end.

Definition unlink (f : fs) (d : Z) (pathName : list Z) (finfo : option Z) : option (Z * fs) :=
  '(rc, f) ← deleteEntry f d pathName finfo;
  Some (if rc <? 0 then _SERROR 2343 0 ENOENT else 0, f).

(** *nlinkRemain, asked for with the file. *)
Definition unlink_remaining (f : fs) (d : Z) (pathName : list Z) (file : Z) : option (Z * option Z * fs) :=
  '(rc, f) ← unlink f d pathName (Some file);
  if _FAILURE rc then Some (rc, None, f) else n ← getNumLinks f file; Some (rc, Some n, f).

Definition S_ISDIR (f : fs) (id : Z) : bool := bool_decide (is_Some (dirs f !! id)).

Definition rename (f : fs) (d : Z) (oldName : list Z) (newDir : Z) (newName : list Z) (renamed : Z) : option (Z * fs) :=
  '(r, f) ← matchDir f d oldName;
  match r with
  | inl _ => Some (_SERROR 2345 0 ENOENT, f)
  | inr _ =>
      _ ← getNumLinks f renamed;
      let isDir := S_ISDIR f renamed in
      '(r, f) ← matchDir f newDir newName;
      f ← match r with
          | inl _ => f ← createEntry f newDir newName renamed; if isDir then lso_link f newDir else Some f
          | inr _ => snd <$> redirectEntry f newDir newName renamed
          end;
      f ← (if isDir then lso_unlink f d else Some f);
      unlink f d oldName (Some renamed)
  end.

(** A name that exists ends in the deletion of a token that was never made. *)
Definition mkdir (f : fs) (d : Z) (compName : list Z) (newTok : Z) : option (Z * fs) :=
  '(r, f) ← matchDir f d compName;
  match r with
  | inr _ => None
  | inl _ =>
      f ← createDir (set_dir (set_links f newTok 0) newTok emptyDir) d compName newTok;
      Some (0, f)
  end.

Definition rmdir (f : fs) (d : Z) (name : list Z) : option (Z * fs) :=
  '(rc, f) ← deleteDir f d name;
  Some (if _FAILURE rc then rc else 0, f).

Definition deleteFile (f : fs) (id : Z) : option (Z * fs) :=
  '(rc, f) ← lso_deleteFile f id;
  if rc <? 0 then _ ← assertK false; Some (_SERROR 2344 0 EMLINK, f) else Some (0, f).

(** The root names itself as its parent. *)
Definition createRootDirectory (root : Z) : option fs :=
  let f := mkFS {[ root := emptyDir ]} {[ root := 0 ]} [] in
  f ← createEntry f root DOT root;
  createEntry f root DOTDOT root.


(** ** Counting names *)

Abbreviation names := (gmap (list Z) Z) (only parsing).

Definition hit (x id : Z) : Z := if decide (x = id) then 1 else 0.
Definition hitAt (o : option Z) (id : Z) : Z := match o with Some x => hit x id | None => 0 end.

(** The entries of one directory, and of all, that name an object. *)
Definition count (m : names) (id : Z) : Z := Z.of_nat (size (filter (fun kv => kv.2 = id) m)).
Definition refs (D : gmap Z names) (id : Z) : Z := map_fold (fun _ m a => count m id + a) 0 D.

Lemma count_new (m : names) n x id : m !! n = None -> count (<[n := x]> m) id = count m id + hit x id.
Proof.
  intros Hn. unfold count, hit. rewrite map_filter_insert. simpl. destruct (decide (x = id)) as [->|].
  - rewrite map_size_insert_None; [lia|]. apply map_lookup_filter_None. by left.
  - rewrite delete_id by done. lia.
Qed.

Lemma count_delete (m : names) n id : count (delete n m) id = count m id - hitAt (m !! n) id.
Proof.
  destruct (m !! n) as [x|] eqn:E; simpl; [|rewrite delete_id by done; lia].
  rewrite <- (insert_delete_id m n x E) at 2. rewrite count_new by apply lookup_delete_eq. lia.
Qed.

Lemma count_insert (m : names) n x id : count (<[n := x]> m) id = count m id - hitAt (m !! n) id + hit x id.
Proof. rewrite <- insert_delete_eq, count_new by apply lookup_delete_eq. rewrite count_delete. lia. Qed.

Lemma count_lookup (m : names) n id : m !! n = Some id -> 1 <= count m id.
Proof. intros E. pose proof (count_delete m n id) as H. rewrite E in H. simpl in H. unfold hit in H. rewrite decide_True in H by done. unfold count in *. lia. Qed.

Lemma count_nonneg (m : names) id : 0 <= count m id.
Proof. unfold count. lia. Qed.

Lemma refs_new D d m id : D !! d = None -> refs (<[d := m]> D) id = refs D id + count m id.
Proof. intros Hd. unfold refs. rewrite map_fold_insert_L; [lia| |done]. intros. lia. Qed.

Lemma refs_delete D d m id : D !! d = Some m -> refs (delete d D) id = refs D id - count m id.
Proof. intros E. rewrite <- (insert_delete_id D d m E) at 2. rewrite refs_new by apply lookup_delete_eq. lia. Qed.

Lemma refs_put D d m m' id : D !! d = Some m -> refs (<[d := m']> D) id = refs D id - count m id + count m' id.
Proof. intros E. rewrite <- insert_delete_eq, refs_new by apply lookup_delete_eq. rewrite (refs_delete D d m) by done. lia. Qed.

(** An entry is set, or removed. *)
Lemma refs_set D d m n x id : D !! d = Some m -> refs (<[d := <[n := x]> m]> D) id = refs D id - hitAt (m !! n) id + hit x id.
Proof. intros E. rewrite (refs_put D d m), count_insert by done. lia. Qed.
Lemma refs_unset D d m n id : D !! d = Some m -> refs (<[d := delete n m]> D) id = refs D id - hitAt (m !! n) id.
Proof. intros E. rewrite (refs_put D d m), count_delete by done. lia. Qed.

Lemma refs_nonneg D id : 0 <= refs D id.
Proof.
  induction D as [|d m D Hd IH] using map_ind; [done|]. rewrite refs_new by done. pose proof (count_nonneg m id). lia.
Qed.

Lemma refs_lookup D d m n id : D !! d = Some m -> m !! n = Some id -> 1 <= refs D id.
Proof. intros Hd Hn. pose proof (refs_delete D d m id Hd). pose proof (refs_nonneg (delete d D) id). pose proof (count_lookup m n id Hn). lia. Qed.

Lemma hit_bounds x id : 0 <= hit x id <= 1.
Proof. unfold hit. destruct (decide _); lia. Qed.
Lemma hit_refl x : hit x x = 1.
Proof. unfold hit. by rewrite decide_True. Qed.

(** ** The directories and the counts of a file system *)

(** The directories of the tree [D] are those of [ds], none larger than [B] blocks. *)
Definition holds (ds : gmap Z dir) (D : gmap Z names) (B : Z) : Prop :=
  forall d m, D !! d = Some m -> exists s, ds !! d = Some s /\ rep s m /\ statSize s <= OS_BLOCK_SIZE * B.

(** The objects [A] have the counts [g]. *)
Definition counts (nl : gmap Z Z) (A : gset Z) (g : Z -> Z) : Prop :=
  forall id, nl !! id = if decide (id ∈ A) then Some (g id) else None.

Record st (f : fs) (D : gmap Z names) (A K : gset Z) (g : Z -> Z) (B : Z) : Prop := {
  st_holds : holds (dirs f) D B;
  st_counts : counts (nlinks f) A g;
  st_kinds : dom (dirs f) = K;
}.

Lemma st_weaken f D A K g B g' B' : st f D A K g B -> (forall x, g x = g' x) -> B <= B' -> st f D A K g' B'.
Proof.
  intros [H1 H2 H3] Hg HB. split; [|intros id; rewrite <- Hg; apply H2|done].
  intros d m Hd. destruct (H1 d m Hd) as (s & ? & ? & ?). exists s. unfold OS_BLOCK_SIZE in *. split_and!; try done. lia.
Qed.

Lemma holds_set ds D B d s m B' :
  holds ds D B -> rep s m -> statSize s <= OS_BLOCK_SIZE * B' -> B <= B' -> holds (<[d := s]> ds) (<[d := m]> D) B'.
Proof.
  intros H Hr Hz HB d' m'. rewrite lookup_insert_Some. intros [[<- <-]|[Hne Hd']].
  - exists s. by rewrite lookup_insert_eq.
  - destruct (H d' m' Hd') as (s' & ? & ? & ?). exists s'. rewrite lookup_insert_ne by done. split_and!; try done. unfold OS_BLOCK_SIZE in *. lia.
Qed.

Lemma counts_set nl A g id v : counts nl A g -> counts (<[id := v]> nl) ({[id]} ∪ A) (fun x => if decide (x = id) then v else g x).
Proof.
  intros H x. rewrite lookup_insert. destruct (decide (id = x)) as [<-|Hne]; [rewrite !decide_True by set_solver; done|].
  rewrite H. destruct (decide (x = id)); [congruence|]. destruct (decide (x ∈ A)); [by rewrite decide_True by set_solver|by rewrite decide_False by set_solver].
Qed.

Section elementary.
Context (f : fs) (D : gmap Z names) (A K : gset Z) (g : Z -> Z) (B : Z).
Hypothesis Hst : st f D A K g B.

Lemma st_set_dir d s m B' :
  rep s m -> statSize s <= OS_BLOCK_SIZE * B' -> B <= B' -> d ∈ K -> st (set_dir f d s) (<[d := m]> D) A K g B'.
Proof.
  intros Hr Hz HB HK. destruct Hst as [H1 H2 H3]. split; simpl; [by eapply holds_set|done|]. rewrite dom_insert_L, H3. set_solver.
Qed.

Lemma st_dir d m : D !! d = Some m -> d ∈ K /\ exists s, dirs f !! d = Some s /\ rep s m /\ statSize s <= OS_BLOCK_SIZE * B.
Proof.
  intros Hd. destruct Hst as [H1 H2 <-]. destruct (H1 d m Hd) as (s & Es & ? & ?). split; [|by exists s]. by apply elem_of_dom_2 in Es.
Qed.

Lemma st_link id : id ∈ A -> 0 <= g id < 2 ^ 64 - 1 -> exists f', lso_link f id = Some f' /\ multi f' = multi f /\ st f' D A K (fun x => g x + hit id x) B.
Proof.
  intros HA Hg. destruct Hst as [H1 H2 H3]. unfold lso_link, getNumLinks. rewrite H2, decide_True by done. simpl. eexists. split; [done|]. split; [done|].
  split; simpl; [done| |done]. rewrite uadd_small by lia. intros x. rewrite (counts_set (nlinks f) A g id _ H2). unfold hit.
  replace ({[id]} ∪ A) with A by set_solver. destruct (decide (x ∈ A)); [|done]. f_equal. destruct (decide (x = id)), (decide (id = x)); subst; try done; lia.
Qed.

Lemma st_unlink id : id ∈ A -> 1 <= g id < 2 ^ 64 -> exists f', lso_unlink f id = Some f' /\ multi f' = multi f /\ st f' D A K (fun x => g x - hit id x) B.
Proof.
  intros HA Hg. destruct Hst as [H1 H2 H3]. unfold lso_unlink, getNumLinks. rewrite H2, decide_True by done. simpl. eexists. split; [done|]. split; [done|].
  split; simpl; [done| |done]. rewrite usub_small by lia. intros x. rewrite (counts_set (nlinks f) A g id _ H2). unfold hit.
  replace ({[id]} ∪ A) with A by set_solver. destruct (decide (x ∈ A)); [|done]. f_equal. destruct (decide (x = id)), (decide (id = x)); subst; try done; lia.
Qed.

Lemma st_match d m n :
  D !! d = Some m ->
  exists f', matchDir f d n = Some (match m !! n with Some id => inr id | None => inl (- ENOENT) end, f') /\ multi f' = multi f /\ st f' D A K g B.
Proof.
  intros Hd. destruct (st_dir d m Hd) as (HK & s & Es & Hr & Hz). unfold matchDir. rewrite Es. simpl.
  destruct (matchDir_rep s m n Hr) as (s' & -> & Hr' & Ez). simpl. eexists. split; [done|]. split; [done|].
  rewrite <- (insert_id D d m Hd). apply st_set_dir; try done. lia.
Qed.

End elementary.


(** A new directory gets its first entry. *)
Lemma first_rep n id : nameOk n -> idOk id -> exists s, locked_createEntry emptyDir n id = Some s /\ rep s {[ n := id ]} /\ statSize s <= OS_BLOCK_SIZE.
Proof.
  intros Hn Hid. assert (H0 : dir_ok emptyDir []) by (split; simpl; try done; unfold OS_BLOCK_SIZE; lia).
  destruct (create_ok emptyDir [] n id H0 Hn Hid) as (s & ls & E & Hok & Hne & Hp & Hl); [done|]. simpl in *. exists s. split; [done|]. split.
  - eapply rep_perm; [exact Hok|done|exact Hp|apply NoDup_singleton|done].
  - rewrite (d_size _ _ Hok). unfold OS_BLOCK_SIZE. lia.
Qed.

Section entering.
Context (f : fs) (D : gmap Z names) (A K : gset Z) (g : Z -> Z) (B : Z).
Hypothesis Hst : st f D A K g B.
Hypothesis HB : 0 <= B < 2 ^ 31.

Lemma st_enter d m n id :
  D !! d = Some m -> m !! n = None -> nameOk n -> idOk id ->
  exists s, dirs f !! d = Some s /\ exists s', locked_createEntry s n id = Some s' /\
    forall f', dirs f' = dirs f -> nlinks f' = nlinks f -> st (set_dir f' d s') (<[d := <[n := id]> m]> D) A K g (B + 1).
Proof.
  intros Hd Hm Hn Hid. destruct (st_dir f D A K g B Hst d m Hd) as (HK & s & Es & Hr & Hz). exists s. split; [done|].
  destruct (createEntry_rep s m n id Hr Hm Hn Hid) as (s' & E & Hr' & Hz'); [unfold roomy, OS_BLOCK_SIZE in *; lia|].
  exists s'. split; [done|]. intros f' Ed En. apply (st_set_dir f' D A K g B); try done; [|unfold OS_BLOCK_SIZE in *; lia|lia].
  destruct Hst as [H1 H2 H3]. split; by rewrite ?Ed, ?En.
Qed.

Lemma st_create d m n id :
  D !! d = Some m -> m !! n = None -> nameOk n -> idOk id -> id ∈ A -> 0 <= g id < 2 ^ 64 - 1 ->
  exists f', createEntry f d n id = Some f' /\ multi f' = multi f /\ st f' (<[d := <[n := id]> m]> D) A K (fun x => g x + hit id x) (B + 1).
Proof.
  intros Hd Hm Hn Hid HA Hg. unfold createEntry. destruct (st_enter d m n id Hd Hm Hn Hid) as (s & -> & s' & E & Hs'). simpl. rewrite E. simpl.
  by apply (st_link _ _ _ _ _ _ (Hs' f eq_refl eq_refl)).
Qed.

(** The first entry of a directory that is not yet in the tree. *)
Lemma st_first d n id :
  dirs f !! d = Some emptyDir -> nameOk n -> idOk id -> id ∈ A -> 0 <= g id < 2 ^ 64 - 1 ->
  exists f', createEntry f d n id = Some f' /\ multi f' = multi f /\ st f' (<[d := {[ n := id ]}]> D) A K (fun x => g x + hit id x) (B + 1).
Proof.
  intros Es Hn Hid HA Hg. unfold createEntry. rewrite Es. simpl. destruct (first_rep n id Hn Hid) as (s & -> & Hr & Hz). simpl.
  assert (Hs : st (set_dir f d s) (<[d := {[ n := id ]}]> D) A K g (B + 1)).
  { apply (st_set_dir f D A K g B Hst); [done|unfold OS_BLOCK_SIZE in *; lia|lia|]. destruct Hst as [_ _ <-]. by apply elem_of_dom_2 in Es. }
  by apply (st_link _ _ _ _ _ _ Hs).
Qed.

Lemma st_delete d m n o :
  D !! d = Some m -> (forall id, m !! n = Some id -> id ∈ A /\ 1 <= g id < 2 ^ 64 /\ default id o = id) ->
  exists f', deleteEntry f d n o = Some (match m !! n with Some _ => 0 | None => -1 end, f') /\ multi f' = multi f /\
    st f' (<[d := delete n m]> D) A K (fun x => g x - hitAt (m !! n) x) B.
Proof.
  intros Hd Hid. destruct (st_dir f D A K g B Hst d m Hd) as (HK & s & Es & Hr & Hz). unfold deleteEntry. rewrite Es. simpl.
  destruct (deleteEntry_rep s m n Hr) as (s' & -> & Hr' & Ez). simpl.
  assert (Hs : st (set_dir f d s') (<[d := delete n m]> D) A K g B) by (apply (st_set_dir f D A K g B Hst); try done; lia).
  destruct (m !! n) as [id|].
  - destruct (Hid id eq_refl) as (HA & Hg & ->). destruct (st_unlink _ _ _ _ _ _ Hs id HA Hg) as (f' & -> & Em & Hf'). simpl. by exists f'.
  - eexists. split; [done|]. split; [done|]. eapply st_weaken; [exact Hs| |lia]. intros x. simpl. lia.
Qed.

Lemma st_redirect d m n old id :
  D !! d = Some m -> m !! n = Some old -> idOk id -> old ∈ A -> id ∈ A -> 1 <= g old < 2 ^ 64 -> 0 <= g id < 2 ^ 64 - 1 ->
  exists f', redirectEntry f d n id = Some (0, f') /\ multi f' = multi f /\ st f' (<[d := <[n := id]> m]> D) A K (fun x => g x - hit old x + hit id x) B.
Proof.
  intros Hd Hm Hid HA1 HA2 Hg1 Hg2. destruct (st_dir f D A K g B Hst d m Hd) as (HK & s & Es & Hr & Hz). unfold redirectEntry. rewrite Es. simpl.
  destruct (updateEntry_rep s m n id Hr Hid) as (s' & -> & Hr' & Ez). unfold redirected in Hr'. rewrite Hm in *. simpl.
  assert (Hs : st (set_dir f d s') (<[d := <[n := id]> m]> D) A K g B) by (apply (st_set_dir f D A K g B Hst); try done; lia).
  destruct (st_unlink _ _ _ _ _ _ Hs old HA1 Hg1) as (f1 & -> & Em1 & Hf1). simpl.
  destruct (st_link _ _ _ _ _ _ Hf1 id HA2) as (f2 & -> & Em2 & Hf2); [pose proof (hit_bounds old id); unfold hit in *; destruct (decide (old = id)); subst; lia|].
  exists f2. split; [done|]. split; [by rewrite Em2, Em1|done].
Qed.

End entering.

(** ** Whether a directory holds more than two entries *)

Lemma matchIndex_spec s ls c rest :
  dir_ok s ls -> at_cookie ls c rest ->
  match live rest with
  | [] => matchIndex s c = Some (false, 0)
  | _ :: l => exists c' rest', matchIndex s c = Some (true, c') /\ at_cookie ls c' rest' /\ live rest' = l
  end.
Proof.
  intros Hok (k & o & -> & Hat). destruct Hat as (l1 & l2 & Hk & Ho & Er). destruct (pos_range s ls k l1 l2 Hok Hk) as (R1 & R2 & R3 & _).
  assert (Hat : at_pos ls k o rest) by (by exists l1, l2). unfold matchIndex, locked_matchIndex.
  destruct (cookie_parts (Z.of_nat k) o) as [-> ->]; [lia|lia|]. cbv zeta.
  destruct (seek_spec s ls Hok (seek_fuel s) k o o rest Hat) as [[Hu (cur & bn & off & ->)]|(us & r & rest' & k' & o' & x' & -> & Hu & Hr & -> & Hx & H0 & Ho' & Hrec & Hat')];
    [by left|by eapply steps_fuel| |].
  - rewrite live_unused by done. done.
  - rewrite live_app, live_unused, live_cons, decide_True by done. simpl. pose proof (r_long _ _ _ Hrec).
    rewrite (cookie_join (Z.of_nat k') (x' + rlen r) (o' + rlen r)) by lia. eexists _, rest'. split; [done|]. split; [by exists k', (o' + rlen r)|done].
Qed.

(** The test for an empty directory counts entries. *)
Lemma holdsMore_spec s m : rep s m -> (2 <= size m)%nat -> holdsMore s = Some (bool_decide (size m <> 2%nat)).
Proof.
  intros (ls & Hok & Hne & Hnd & ->) Hsz.
  assert (Hl : size (list_to_map (live (concat ls)) : names) = length (live (concat ls))) by (rewrite <- length_map_to_list, map_to_list_to_map; done).
  rewrite Hl in *. unfold holdsMore. pose proof (matchIndex_spec s ls 0 _ Hok (at_start s ls Hok Hne)) as M1.
  destruct (live (concat ls)) as [|x [|y l]]; simpl in *; [lia|lia|].
  destruct M1 as (c1 & r1 & -> & H1 & E1). simpl. pose proof (matchIndex_spec s ls c1 r1 Hok H1) as M2. rewrite E1 in M2.
  destruct M2 as (c2 & r2 & -> & H2 & E2). simpl. pose proof (matchIndex_spec s ls c2 r2 Hok H2) as M3. rewrite E2 in M3.
  destruct l as [|z l]; [by rewrite M3|]. destruct M3 as (? & ? & -> & _). by rewrite bool_decide_eq_true_2 by (simpl; lia).
Qed.


(** ** The tree a file system stands for *)

(** The entries of the directories, all objects, and those that are directories.
    A directory that was removed is an object without entries. *)
Record tree := mkTree { ents : gmap Z names; objs : gset Z; kinds : gset Z }.

Definition plain (n : list Z) : Prop := n <> DOT /\ n <> DOTDOT.

Definition entry (T : tree) (d : Z) (n : list Z) : option Z := m ← ents T !! d; m !! n.
Definition put (D : gmap Z names) (d : Z) (n : list Z) (x : Z) : gmap Z names := alter (insert n x) d D.
Definition unset (D : gmap Z names) (d : Z) (n : list Z) : gmap Z names := alter (delete n) d D.

Record wf (T : tree) : Prop := {
  w_dots : forall d m, ents T !! d = Some m -> m !! DOT = Some d /\ is_Some (m !! DOTDOT);
  w_objs : forall d m n id, ents T !! d = Some m -> m !! n = Some id -> id ∈ objs T;
  w_ids : forall id, id ∈ objs T -> idOk id;
  w_parent : forall d m n id mm, ents T !! d = Some m -> m !! n = Some id -> plain n -> ents T !! id = Some mm -> mm !! DOTDOT = Some d;
}.

Lemma put_eq D d m n x : D !! d = Some m -> put D d n x = <[d := <[n := x]> m]> D.
Proof. intros E. unfold put. rewrite <- (insert_id D d m E) at 1. by rewrite alter_insert_eq. Qed.
Lemma unset_eq D d m n : D !! d = Some m -> unset D d n = <[d := delete n m]> D.
Proof. intros E. unfold unset. rewrite <- (insert_id D d m E) at 1. by rewrite alter_insert_eq. Qed.

Lemma wf_self T d m : wf T -> ents T !! d = Some m -> d ∈ objs T.
Proof. intros HW Hd. destruct (w_dots T HW d m Hd) as [H _]. by apply (w_objs T HW d m DOT). Qed.

Lemma wf_absent T d m n : wf T -> ents T !! d = Some m -> m !! n = None -> plain n.
Proof. intros HW Hd Hn. destruct (w_dots T HW d m Hd) as [H1 [p H2]]. split; intros ->; congruence. Qed.

(** An entry is set. *)
Lemma wf_put T d m n x :
  wf T -> ents T !! d = Some m -> plain n -> idOk x -> (forall mm, ents T !! x = Some mm -> mm !! DOTDOT = Some d) ->
  wf (mkTree (<[d := <[n := x]> m]> (ents T)) ({[x]} ∪ objs T) (kinds T)).
Proof.
  intros HW Hd [P1 P2] Hx Hmm. split; simpl.
  - intros d' m'. rewrite lookup_insert_Some. intros [[<- <-]|[_ H]]; [|by apply (w_dots T HW)].
    rewrite !lookup_insert_ne by done. by apply (w_dots T HW).
  - intros d' m' n' id. rewrite lookup_insert_Some. intros [[<- <-]|[_ H]] Hn'; [|apply elem_of_union_r; by apply (w_objs T HW d' m' n')].
    rewrite lookup_insert_Some in Hn'. destruct Hn' as [[_ <-]|[_ Hn']]; [set_solver|apply elem_of_union_r; by apply (w_objs T HW d m n')].
  - intros id [->%elem_of_singleton|H]%elem_of_union; [done|by apply (w_ids T HW)].
  - intros d' m' n' id mm Hd' Hn' Hp Hmm'.
    assert (Hold : exists mo, ents T !! id = Some mo /\ mm !! DOTDOT = mo !! DOTDOT).
    { rewrite lookup_insert_Some in Hmm'. destruct Hmm' as [[<- <-]|[_ H]]; [exists m; by rewrite lookup_insert_ne|by exists mm]. }
    destruct Hold as (mo & Hmo & ->). rewrite lookup_insert_Some in Hd'. destruct Hd' as [[<- <-]|[_ Hd']]; [|by apply (w_parent T HW d' m' n' id)].
    rewrite lookup_insert_Some in Hn'. destruct Hn' as [[_ <-]|[_ Hn']]; [by apply Hmm|by apply (w_parent T HW d m n' id)].
Qed.

(** An entry is removed. *)
Lemma wf_unset T d m n : wf T -> ents T !! d = Some m -> plain n -> wf (mkTree (<[d := delete n m]> (ents T)) (objs T) (kinds T)).
Proof.
  intros HW Hd [P1 P2].
  assert (Hsub : forall d' m', <[d := delete n m]> (ents T) !! d' = Some m' -> exists mo, ents T !! d' = Some mo /\ m' ⊆ mo /\ m' !! DOT = mo !! DOT /\ m' !! DOTDOT = mo !! DOTDOT).
  { intros d' m'. rewrite lookup_insert_Some. intros [[<- <-]|[_ H]]; [|by exists m']. exists m. rewrite !lookup_delete_ne by done. split_and!; try done. apply delete_subseteq. }
  split; simpl.
  - intros d' m' H. destruct (Hsub d' m' H) as (mo & Hmo & _ & -> & ->). by apply (w_dots T HW).
  - intros d' m' n' id H Hn'. destruct (Hsub d' m' H) as (mo & Hmo & Hs & _). apply (w_objs T HW d' mo n'); [done|]. by eapply lookup_weaken.
  - apply (w_ids T HW).
  - intros d' m' n' id mm H Hn' Hp H2. destruct (Hsub d' m' H) as (mo & Hmo & Hs & _). destruct (Hsub id mm H2) as (mmo & Hmmo & _ & _ & ->).
    apply (w_parent T HW d' mo n' id); try done. by eapply lookup_weaken.
Qed.

(** A directory leaves the tree. *)
Lemma wf_delete T id : wf T -> wf (mkTree (delete id (ents T)) (objs T) (kinds T)).
Proof.
  intros HW. split; simpl.
  - intros d m [_ H]%lookup_delete_Some. by apply (w_dots T HW).
  - intros d m n x [_ H]%lookup_delete_Some. by apply (w_objs T HW d m n).
  - apply (w_ids T HW).
  - intros d m n x mm [_ H]%lookup_delete_Some Hn Hp [_ H2]%lookup_delete_Some. by apply (w_parent T HW d m n x).
Qed.

(** What a new directory holds. *)
Definition dots (self parent : Z) : names := {[ DOT := self; DOTDOT := parent ]}.

Lemma dots_lookup self parent n x : dots self parent !! n = Some x -> n = DOT /\ x = self \/ n = DOTDOT /\ x = parent.
Proof.
  unfold dots. rewrite lookup_insert_Some. intros [[<- <-]|[_ H]]; [by left|]. apply lookup_singleton_Some in H as [<- <-]. by right.
Qed.

Lemma count_dots self parent x : count (dots self parent) x = hit self x + hit parent x.
Proof. unfold dots, singletonM, map_singleton. rewrite !count_new by done. unfold count. rewrite map_filter_empty, map_size_empty. lia. Qed.

Lemma wf_newdir T self parent :
  wf T -> idOk self -> self ∉ objs T -> parent ∈ objs T ->
  wf (mkTree (<[self := dots self parent]> (ents T)) ({[self]} ∪ objs T) ({[self]} ∪ kinds T)).
Proof.
  intros HW Hid Hf Hp. split; simpl.
  - intros d m. rewrite lookup_insert_Some. intros [[<- <-]|[_ H]]; [|by apply (w_dots T HW)]. split; [done|by exists parent].
  - intros d m n x. rewrite lookup_insert_Some. intros [[<- <-]|[_ H]] Hn; [|apply elem_of_union_r; by apply (w_objs T HW d m n)].
    apply dots_lookup in Hn as [[_ ->]|[_ ->]]; set_solver.
  - intros id [->%elem_of_singleton|H]%elem_of_union; [done|by apply (w_ids T HW)].
  - intros d m n x mm. rewrite lookup_insert_Some. intros [[<- <-]|[_ H]] Hn [P1 P2].
    + apply dots_lookup in Hn as [[-> _]|[-> _]]; done.
    + rewrite lookup_insert_Some. intros [[<- <-]|[_ H2]]; [|by apply (w_parent T HW d m n x)]. by destruct Hf; apply (w_objs T HW d m n).
Qed.

(** An object outside the tree is named by nothing. *)
Lemma refs_zero D x : (forall d m n, D !! d = Some m -> m !! n <> Some x) -> refs D x = 0.
Proof.
  induction D as [|d m D Hd IH] using map_ind; intros H; [done|]. rewrite refs_new by done.
  rewrite IH. 2:{ intros d' m' n Hd'. apply (H d' m' n). rewrite lookup_insert_ne by congruence. done. }
  unfold count. replace (size _) with 0%nat; [lia|]. symmetry. apply map_size_empty_iff, map_empty. intros n. apply map_lookup_filter_None.
  right. intros y Hy. simpl. intros ->. by apply (H d m n); [rewrite lookup_insert_eq|].
Qed.


(** ** The operations on the tree *)

Inductive op :=
  | CreateFile (d : Z) (n : list Z) (new : Z) | Link (id d : Z) (n : list Z) | Unlink (d : Z) (n : list Z) (finfo : option Z)
  | Rename (d : Z) (n : list Z) (d2 : Z) (n2 : list Z) (id : Z) | Mkdir (d : Z) (n : list Z) (new : Z) | Rmdir (d : Z) (n : list Z)
  | DeleteFile (id : Z).

Definition exec (o : op) (f : fs) : option (Z * fs) :=
  match o with
  | CreateFile d n new => createFile f d n new
  | Link id d n => link f id d n
  | Unlink d n o => unlink f d n o
  | Rename d n d2 n2 id => rename f d n d2 n2 id
  | Mkdir d n new => mkdir f d n new
  | Rmdir d n => rmdir f d n
  | DeleteFile id => deleteFile f id
  end.

Definition spec (o : op) (T : tree) : Z * tree :=
  match o with
  | CreateFile d n new => (0, mkTree (put (ents T) d n new) ({[new]} ∪ objs T) (kinds T))
  | Link id d n =>
      match entry T d n with
      | None => (0, mkTree (put (ents T) d n id) (objs T) (kinds T))
      | Some _ => (_SERROR 2342 0 EEXIST, T)
      end
  | Unlink d n _ =>
      match entry T d n with
      | None => (_SERROR 2343 0 ENOENT, T)
      | Some _ => (0, mkTree (unset (ents T) d n) (objs T) (kinds T))
      end
  | Rename d n d2 n2 id =>
      match entry T d n with
      | None => (_SERROR 2345 0 ENOENT, T)
      | Some _ => (0, mkTree (unset (put (ents T) d2 n2 id) d n) (objs T) (kinds T))
      end
  | Mkdir d n new => (0, mkTree (<[new := dots new d]> (put (ents T) d n new)) ({[new]} ∪ objs T) ({[new]} ∪ kinds T))
  | Rmdir d n =>
      match entry T d n with
      | None => (- ENOENT, T)
      | Some id =>
          if decide (ents T !! id = Some (dots id d)) then (0, mkTree (delete id (unset (ents T) d n)) (objs T) (kinds T))
          else (_SERROR 2347 0 ENOTEMPTY, T)
      end
  | DeleteFile id => (0, mkTree (ents T) (objs T ∖ {[id]}) (kinds T ∖ {[id]}))
  end.

(** What the layers above ensure: operations are on directories of the tree, new
    objects are new, and the two entries every directory has are left alone.  A
    directory has one name: it is not linked, and is renamed to a new name in its own
    directory only.  An object is deleted when no entry names it. *)
Definition permitted (o : op) (T : tree) : Prop :=
  match o with
  | CreateFile d n new | Mkdir d n new =>
      is_Some (ents T !! d) /\ entry T d n = None /\ nameOk n /\ idOk new /\ new ∉ objs T
  | Link id d n => is_Some (ents T !! d) /\ nameOk n /\ id ∈ objs T /\ id ∉ kinds T
  | Unlink d n o => is_Some (ents T !! d) /\ plain n /\ forall id, entry T d n = Some id -> default id o = id
  | Rename d n d2 n2 id =>
      is_Some (ents T !! d) /\ is_Some (ents T !! d2) /\ plain n /\ plain n2 /\ nameOk n2 /\ (d, n) <> (d2, n2) /\
      (entry T d n = Some id \/ entry T d n = None) /\ (id ∈ kinds T -> d = d2 /\ entry T d n2 = None)
  | Rmdir d n => is_Some (ents T !! d) /\ plain n /\ forall id, entry T d n = Some id -> is_Some (ents T !! id)
  | DeleteFile id => id ∈ objs T /\ refs (ents T) id = 0
  end.

(** The file system stands for the tree: its directories hold the entries, and
    the count of every object is the number of entries that name it. *)
Record Inv (f : fs) (T : tree) (B : Z) : Prop := {
  i_st : st f (ents T) (objs T) (kinds T) (refs (ents T)) B;
  i_wf : wf T;
  i_bound : forall x, refs (ents T) x <= B;
}.

Lemma Inv_weaken f T B B' : Inv f T B -> B <= B' -> Inv f T B'.
Proof. intros [H1 H2 H3] HB. split; [by eapply st_weaken|done|]. intros x. specialize (H3 x). lia. Qed.

Lemma entry_at T d m n : ents T !! d = Some m -> entry T d n = m !! n.
Proof. intros E. unfold entry. by rewrite E. Qed.

Section operations.
Context (f : fs) (T : tree) (B : Z).
Hypothesis HI : Inv f T B.
Hypothesis HB : 0 <= B < 2 ^ 31.

Definition steps_to (r : option (Z * fs)) (a : Z * tree) : Prop := exists f', r = Some (a.1, f') /\ Inv f' a.2 (B + 3).

Lemma count_range x : 0 <= refs (ents T) x < 2 ^ 31.
Proof. pose proof (refs_nonneg (ents T) x). pose proof (i_bound _ _ _ HI x). lia. Qed.

(** Nothing changed. *)
Lemma steps_same f' : st f' (ents T) (objs T) (kinds T) (refs (ents T)) B -> Inv f' T (B + 3).
Proof. intros H. eapply Inv_weaken; [|instantiate (1 := B); lia]. split; [done|apply HI|apply HI]. Qed.

Lemma fresh_zero id : id ∉ objs T -> refs (ents T) id = 0.
Proof. intros Hf. apply refs_zero. intros d m n Hd Hn. apply Hf. by apply (w_objs T (i_wf _ _ _ HI) d m n). Qed.

(** A new object without links. *)
Lemma st_new id : id ∉ objs T -> st (set_links f id 0) (ents T) ({[id]} ∪ objs T) (kinds T) (refs (ents T)) B.
Proof.
  intros Hf. destruct (i_st _ _ _ HI) as [H1 H2 H3]. split; simpl; [done| |done].
  intros x. rewrite (counts_set _ _ _ id 0 H2). destruct (decide (x ∈ _)); [|done]. f_equal. destruct (decide (x = id)) as [->|]; [by rewrite fresh_zero|done].
Qed.

Lemma createFile_steps d n new : permitted (CreateFile d n new) T -> steps_to (createFile f d n new) (spec (CreateFile d n new) T).
Proof.
  intros ([m Hd] & He & Hn & Hid & Hf). rewrite (entry_at _ _ _ _ Hd) in He. unfold createFile, steps_to, spec. rewrite (put_eq _ _ m) by done.
  pose proof (fresh_zero new Hf) as H0.
  destruct (st_create _ _ _ _ _ _ (st_new new Hf) ltac:(lia) d m n new) as (f' & -> & _ & Hs); try done; [set_solver|lia|].
  simpl. exists f'. split; [done|]. split; simpl.
  - eapply st_weaken; [exact Hs| |lia]. intros x. rewrite (refs_set _ _ m), He by done. simpl. lia.
  - apply wf_put; try done; [apply HI|by eapply wf_absent; [apply HI|..]|]. intros mm Hmm. destruct Hf. by eapply wf_self; [apply HI|].
  - intros x. rewrite (refs_set _ _ m), He by done. simpl. pose proof (hit_bounds new x). pose proof (i_bound _ _ _ HI x). lia.
Qed.

(** Linking an existing object; the test for a single link comes after the new one
    is counted. *)
Lemma link_steps id d n :
  permitted (Link id d n) T -> steps_to (link f id d n) (spec (Link id d n) T) /\ (1 <= refs (ents T) id -> multi <$> (snd <$> link f id d n) = Some (multi f)).
Proof.
  intros ([m Hd] & Hn & HA & HK). unfold link, steps_to, spec. rewrite (entry_at _ _ _ _ Hd).
  destruct (st_match _ _ _ _ _ _ (i_st _ _ _ HI) d m n Hd) as (f1 & -> & Em & H1). simpl.
  destruct (m !! n) as [x|] eqn:En; simpl; [split; [exists f1; split; [done|by apply steps_same]|by rewrite Em]|].
  pose proof (count_range id). pose proof (w_ids T (i_wf _ _ _ HI) id HA).
  destruct (st_create _ _ _ _ _ _ H1 ltac:(lia) d m n id Hd En) as (f2 & -> & Em2 & H2); try done; [lia|]. simpl.
  assert (E2 : getNumLinks f2 id = Some (refs (ents T) id + 1)) by (unfold getNumLinks; by rewrite (st_counts _ _ _ _ _ _ H2), decide_True, hit_refl by done).
  rewrite !E2. simpl. rewrite (put_eq _ _ m) by done. split.
  - eexists. split; [done|]. split; simpl.
    + assert (Hs : st f2 (<[d := <[n := id]> m]> (ents T)) (objs T) (kinds T) (refs (<[d := <[n := id]> m]> (ents T))) (B + 3)).
      { eapply st_weaken; [exact H2| |lia]. intros x. rewrite (refs_set _ _ m), En by done. simpl. lia. }
      destruct (_ =? 1); [|done]. destruct Hs as [? ? ?]. by split.
    + replace (objs T) with ({[id]} ∪ objs T) by set_solver. apply wf_put; try done; [apply HI|by eapply wf_absent; [apply HI|..]|].
      intros mm Hmm. destruct HK. by apply (st_dir _ _ _ _ _ _ (i_st _ _ _ HI) id mm).
    + intros x. rewrite (refs_set _ _ m), En by done. simpl. pose proof (hit_bounds id x). pose proof (i_bound _ _ _ HI x). lia.
  - intros H1r. rewrite (proj2 (Z.eqb_neq _ _)) by lia. by rewrite Em2, Em.
Qed.

Lemma unlink_exact d n o :
  permitted (Unlink d n o) T -> exists f', unlink f d n o = Some ((spec (Unlink d n o) T).1, f') /\ Inv f' (spec (Unlink d n o) T).2 B.
Proof.
  intros ([m Hd] & Hp & Ho). rewrite (entry_at _ _ _ _ Hd) in Ho. unfold unlink, spec. rewrite (entry_at _ _ _ _ Hd).
  destruct (st_delete _ _ _ _ _ _ (i_st _ _ _ HI) d m n o Hd) as (f' & -> & _ & Hs).
  { intros id Hid. pose proof (count_range id). pose proof (refs_lookup _ _ _ _ _ Hd Hid). split_and!; try lia; [by apply (w_objs T (i_wf _ _ _ HI) d m n)|by apply Ho]. }
  simpl. destruct (m !! n) as [id|] eqn:En; simpl; exists f'; (split; [done|]).
  - rewrite (unset_eq _ _ m) by done. split; simpl.
    + eapply st_weaken; [exact Hs| |lia]. intros x. rewrite (refs_unset _ _ m), En by done. done.
    + apply wf_unset; try done. apply HI.
    + intros x. rewrite (refs_unset _ _ m), En by done. simpl. pose proof (hit_bounds id x). pose proof (i_bound _ _ _ HI x). lia.
  - rewrite delete_id, insert_id in Hs by done. split; [|apply HI|apply HI]. eapply st_weaken; [exact Hs| |lia]. intros x. simpl. lia.
Qed.

(** What unlink tells its caller is the number of names that are left. *)
Lemma unlink_tells d n id :
  permitted (Unlink d n (Some id)) T -> entry T d n = Some id ->
  exists f', unlink_remaining f d n id = Some (0, Some (refs (unset (ents T) d n) id), f') /\ Inv f' (mkTree (unset (ents T) d n) (objs T) (kinds T)) B.
Proof.
  intros Hp He. destruct (unlink_exact d n (Some id) Hp) as (f' & E & HI'). simpl in E, HI'. rewrite He in E, HI'. simpl in E, HI'.
  unfold unlink_remaining. rewrite E. simpl. unfold getNumLinks. rewrite (st_counts _ _ _ _ _ _ (i_st _ _ _ HI')). simpl.
  destruct Hp as ([m Hd] & _). rewrite (entry_at _ _ _ _ Hd) in He. rewrite decide_True by (by apply (w_objs T (i_wf _ _ _ HI) d m n)). by exists f'.
Qed.

Lemma deleteFile_steps id : permitted (DeleteFile id) T -> steps_to (deleteFile f id) (spec (DeleteFile id) T).
Proof.
  intros [HA H0]. unfold deleteFile, lso_deleteFile, getNumLinks, steps_to, spec. destruct (i_st _ _ _ HI) as [H1 H2 H3]. rewrite H2, decide_True by done. simpl.
  rewrite (proj2 (Z.eqb_eq _ _) H0). simpl.
  assert (Hno : forall d m n, ents T !! d = Some m -> m !! n <> Some id) by (intros d m n Hd Hn; pose proof (refs_lookup _ _ _ _ _ Hd Hn); lia).
  assert (Hd0 : ents T !! id = None).
  { destruct (ents T !! id) as [m|] eqn:E; [|done]. destruct (w_dots T (i_wf _ _ _ HI) id m E) as [Hdot _]. by destruct (Hno id m DOT E). }
  eexists. split; [done|]. split; simpl.
  - split; simpl.
    + intros d m Hd. destruct (H1 d m Hd) as (s & ? & ? & ?). exists s. rewrite lookup_delete_ne by congruence. split_and!; try done. unfold OS_BLOCK_SIZE in *. lia.
    + intros x. destruct (decide (x = id)) as [->|]; [rewrite lookup_delete_eq, decide_False by set_solver; done|]. rewrite lookup_delete_ne by done.
      rewrite H2. destruct (decide (x ∈ objs T)); [by rewrite decide_True by set_solver|by rewrite decide_False by set_solver].
    + by rewrite dom_delete_L, H3.
  - destruct (i_wf _ _ _ HI) as [W1 W2 W3 W4]. split; simpl; try done; [|intros x Hx; apply W3; set_solver].
    intros d m n x Hd Hn. pose proof (W2 d m n x Hd Hn). specialize (Hno d m n Hd). set_solver.
  - intros x. pose proof (i_bound _ _ _ HI x). lia.
Qed.

End operations.


(** A directory without further entries is one with two. *)
Lemma dots_size (mm : names) id d : mm !! DOT = Some id -> mm !! DOTDOT = Some d -> (2 <= size mm)%nat /\ (size mm = 2%nat <-> mm = dots id d).
Proof.
  intros H1 H2. set (r := delete DOTDOT (delete DOT mm)).
  assert (E : mm = <[DOT := id]> (<[DOTDOT := d]> r)).
  { unfold r. rewrite insert_delete_id by (by rewrite lookup_delete_ne). by rewrite insert_delete_id. }
  assert (Hsz : size mm = S (S (size r))).
  { rewrite E at 1. unfold r. rewrite map_size_insert_None; [rewrite map_size_insert_None; [done|apply lookup_delete_eq]|].
    rewrite lookup_insert_ne, lookup_delete_ne by done. apply lookup_delete_eq. }
  split; [lia|]. split; [|intros ->; by vm_compute]. intros Hs. assert (Hr : r = ∅) by (apply map_size_empty_iff; lia). rewrite E, Hr. done.
Qed.

Section directories.
Context (f : fs) (T : tree) (B : Z).
Hypothesis HI : Inv f T B.
Hypothesis HB : 0 <= B < 2 ^ 30.

Lemma mkdir_steps d n new : permitted (Mkdir d n new) T -> steps_to B (mkdir f d n new) (spec (Mkdir d n new) T).
Proof.
  intros ([m Hd] & He & Hn & Hid & Hf). rewrite (entry_at _ _ _ _ Hd) in He. pose proof (i_wf _ _ _ HI) as HW.
  assert (Hne : d <> new) by (intros ->; apply Hf; by eapply wf_self).
  assert (Hnew : ents T !! new = None) by (destruct (ents T !! new) as [mm|] eqn:E; [|done]; destruct Hf; by eapply wf_self).
  unfold mkdir, createDir, steps_to, spec. rewrite (put_eq _ _ m) by done.
  destruct (st_match _ _ _ _ _ _ (i_st _ _ _ HI) d m n Hd) as (f1 & -> & _ & H1). rewrite He. cbn [mbind option_bind].
  assert (HI1 : Inv f1 T B) by (split; [done|done|apply HI]).
  assert (H2 : st (set_dir (set_links f1 new 0) new emptyDir) (ents T) ({[new]} ∪ objs T) ({[new]} ∪ kinds T) (refs (ents T)) B).
  { destruct (st_new f1 T B HI1 new Hf) as [S1 S2 S3]. split; simpl in *; [|done|by rewrite dom_insert_L, S3].
    intros d' m' Hd'. rewrite lookup_insert_ne by congruence. by apply S1. }
  set (f2 := set_dir _ _ _) in *. destruct (st_enter _ _ _ _ _ _ H2 ltac:(lia) d m n new Hd He Hn Hid) as (s & -> & s' & E & H3).
  cbn [mbind option_bind]. rewrite E. cbn [mbind option_bind]. specialize (H3 f2 eq_refl eq_refl).
  pose proof (fresh_zero f T B HI new Hf) as H0. pose proof (count_range f T B HI ltac:(lia) d). pose proof (wf_self T d m HW Hd) as HdA.
  destruct (st_first _ _ _ _ _ _ H3 ltac:(lia) new DOT new) as (f4 & -> & _ & H4); try done; [|set_solver|lia|].
  { simpl. rewrite lookup_insert_ne by done. apply lookup_insert_eq. }
  cbn [mbind option_bind].
  assert (Ed : hit new d = 0) by (unfold hit; by rewrite decide_False by congruence). assert (Ed' : hit d new = 0) by (unfold hit; by rewrite decide_False by congruence).
  destruct (st_create _ _ _ _ _ _ H4 ltac:(lia) new {[ DOT := new ]} DOTDOT d) as (f5 & -> & _ & H5); try done;
    [apply lookup_insert_eq|by apply (w_ids T HW)|set_solver|rewrite Ed; lia|].
  cbn [mbind option_bind].
  destruct (st_link _ _ _ _ _ _ H5 new) as (f6 & -> & _ & H6); [set_solver|rewrite hit_refl, Ed'; lia|]. simpl. exists f6. split; [done|].
  assert (Er : forall x, refs (<[new := dots new d]> (<[d := <[n := new]> m]> (ents T))) x = refs (ents T) x + hit new x + hit d x + hit new x).
  { intros x. rewrite refs_new by (by rewrite lookup_insert_ne). rewrite (refs_set _ _ m), He, count_dots by done. simpl. lia. }
  split; simpl.
  - rewrite insert_insert_eq in H6.
    assert (Edots : <[DOTDOT := d]> {[ DOT := new ]} = dots new d) by (unfold dots, singletonM, map_singleton; by rewrite insert_insert_ne). rewrite Edots in H6.
    eapply st_weaken; [exact H6| |lia]. intros x. by rewrite Er.
  - rewrite insert_insert_ne by done. replace ({[new]} ∪ objs T) with ({[new]} ∪ ({[new]} ∪ objs T)) by set_solver.
    pose proof (wf_put (mkTree (<[new := dots new d]> (ents T)) ({[new]} ∪ objs T) ({[new]} ∪ kinds T)) d m n new) as HP. simpl in HP. apply HP; try done.
    + by apply wf_newdir.
    + by rewrite lookup_insert_ne.
    + by eapply wf_absent.
    + intros mm. rewrite lookup_insert_eq. by intros [= <-].
  - intros x. rewrite Er. pose proof (i_bound _ _ _ HI x). pose proof (hit_bounds new x). pose proof (hit_bounds d x). lia.
Qed.

Lemma rmdir_steps d n : permitted (Rmdir d n) T -> steps_to B (rmdir f d n) (spec (Rmdir d n) T).
Proof.
  intros ([m Hd] & Hp & Hdir). rewrite (entry_at _ _ _ _ Hd) in Hdir. pose proof (i_wf _ _ _ HI) as HW.
  unfold rmdir, deleteDir, steps_to, spec. rewrite (entry_at _ _ _ _ Hd).
  destruct (st_match _ _ _ _ _ _ (i_st _ _ _ HI) d m n Hd) as (f1 & -> & _ & H1). destruct (m !! n) as [id|] eqn:En; cbn [mbind option_bind].
  2:{ exists f1. split; [done|]. by eapply steps_same. }
  destruct (Hdir id eq_refl) as [mm Hmm]. destruct (st_dir _ _ _ _ _ _ H1 id mm Hmm) as (_ & s & -> & Hr & _). cbn [mbind option_bind].
  destruct (w_dots T HW id mm Hmm) as [D1 _]. pose proof (w_parent T HW d m n id mm Hd En Hp Hmm) as D2. destruct (dots_size mm id d D1 D2) as [Hge Hiff].
  rewrite (holdsMore_spec s mm Hr Hge). cbn [mbind option_bind]. rewrite Hmm.
  destruct (decide (Some mm = Some (dots id d))) as [[= E]|E].
  2:{ rewrite bool_decide_eq_true_2 by (intros H2; apply E; f_equal; by apply Hiff). exists f1. split; [done|]. by eapply steps_same. }
  rewrite bool_decide_eq_false_2 by (intros H2; apply H2; by apply Hiff).
  assert (Hne : id <> d).
  { intros ->. rewrite Hd in Hmm. injection Hmm as ->. rewrite E in En. destruct Hp. apply dots_lookup in En as [[-> _]|[-> _]]; done. }
  set (D' := <[d := delete n m]> (ents T)). assert (Er : forall x, refs D' x = refs (ents T) x - hit id x) by (intros x; unfold D'; rewrite (refs_unset _ _ m), En by done; done).
  pose proof (count_range f T B HI ltac:(lia) id) as C1. pose proof (count_range f T B HI ltac:(lia) d) as C2. pose proof (refs_lookup _ _ _ _ _ Hd En) as C3.
  destruct (st_delete _ _ _ _ _ _ H1 d m n (Some id) Hd) as (f2 & -> & _ & H2).
  { rewrite En. intros ? [= <-]. split_and!; try lia; [|done]. by apply (w_objs T HW d m n). }
  rewrite En in *. cbn [mbind option_bind]. rewrite assertK_true by done. cbn [mbind option_bind].
  assert (Hdd : 1 <= refs D' d). { apply (refs_lookup D' d (delete n m) DOT); [apply lookup_insert_eq|]. destruct Hp. rewrite lookup_delete_ne by done. by apply (w_dots T HW). }
  assert (Hid : 1 <= refs D' id). { apply (refs_lookup D' id mm DOT); [unfold D'; by rewrite lookup_insert_ne|done]. }
  rewrite !Er in *.
  destruct (st_unlink _ _ _ _ _ _ H2 d) as (f3 & -> & _ & H3); [by eapply wf_self|simpl; pose proof (hit_bounds id d); lia|]. cbn [mbind option_bind].
  destruct (st_unlink _ _ _ _ _ _ H3 id) as (f4 & -> & _ & H4); [by eapply wf_self|simpl; rewrite hit_refl in *; unfold hit; rewrite decide_False by done; lia|].
  simpl. exists f4. split; [done|]. rewrite (unset_eq _ _ m) by done. fold D'.
  assert (Er' : forall x, refs (delete id D') x = refs (ents T) x - hit id x - hit d x - hit id x).
  { intros x. rewrite (refs_delete D' id mm) by (unfold D'; by rewrite lookup_insert_ne). rewrite Er, E, count_dots. lia. }
  split; simpl.
  - apply (st_weaken _ _ _ _ (refs (delete id D')) B); [|done|lia]. destruct H4 as [S1 S2 S3]. split; [|intros x; rewrite Er'; apply S2|done].
    intros d' m' [_ Hd']%lookup_delete_Some. by apply S1.
  - pose proof (wf_delete (mkTree D' (objs T) (kinds T)) id) as HP. simpl in HP. apply HP. by apply wf_unset.
  - intros x. rewrite Er'. pose proof (i_bound _ _ _ HI x). pose proof (hit_bounds id x). pose proof (hit_bounds d x). lia.
Qed.


(** The new entry of a rename, before the old one is removed. *)
Lemma rename_middle d m n d2 m2 n2 id f1 :
  st f1 (ents T) (objs T) (kinds T) (refs (ents T)) B ->
  ents T !! d = Some m -> ents T !! d2 = Some m2 -> m !! n = Some id -> nameOk n2 -> (id ∈ kinds T -> d = d2 /\ m !! n2 = None) ->
  exists f2 f3 f4, matchDir f1 d2 n2 = Some (match m2 !! n2 with Some x => inr x | None => inl (- ENOENT) end, f2) /\
    match m2 !! n2 with
    | None => f ← createEntry f2 d2 n2 id; if bool_decide (id ∈ kinds T) then lso_link f d2 else Some f
    | Some _ => snd <$> redirectEntry f2 d2 n2 id
    end = Some f3 /\
    (if bool_decide (id ∈ kinds T) then lso_unlink f3 d else Some f3) = Some f4 /\
    st f4 (<[d2 := <[n2 := id]> m2]> (ents T)) (objs T) (kinds T) (refs (<[d2 := <[n2 := id]> m2]> (ents T))) (B + 1).
Proof.
  intros H1 Hd Hd2 En Hn2 HK. pose proof (i_wf _ _ _ HI) as HW. assert (HA : id ∈ objs T) by (by apply (w_objs T HW d m n)).
  pose proof (w_ids T HW id HA) as Hid. pose proof (count_range f T B HI ltac:(lia) id) as C1. pose proof (count_range f T B HI ltac:(lia) d) as C2.
  pose proof (wf_self T d m HW Hd) as HdA. pose proof (hit_bounds id d) as C4.
  destruct (st_match _ _ _ _ _ _ H1 d2 m2 n2 Hd2) as (f2 & E2 & _ & H2). exists f2.
  assert (Er : forall x, refs (ents T) x - hitAt (m2 !! n2) x + hit id x = refs (<[d2 := <[n2 := id]> m2]> (ents T)) x) by (intros x; by rewrite (refs_set _ _ m2)).
  destruct (m2 !! n2) as [old|] eqn:En2; simpl in Er.
  - assert (HnK : id ∉ kinds T). { intros H. destruct (HK H) as [-> Ha]. rewrite Hd in Hd2. injection Hd2 as ->. congruence. }
    pose proof (count_range f T B HI ltac:(lia) old) as C5. pose proof (refs_lookup _ _ _ _ _ Hd2 En2) as C6.
    destruct (st_redirect _ _ _ _ _ _ H2 d2 m2 n2 old id Hd2 En2 Hid) as (f3 & E3 & _ & H3); try done; [by apply (w_objs T HW d2 m2 n2)|lia|lia|].
    exists f3, f3. rewrite bool_decide_eq_false_2, E3 by done. split_and!; try done. eapply st_weaken; [exact H3|done|lia].
  - destruct (st_create _ _ _ _ _ _ H2 ltac:(lia) d2 m2 n2 id Hd2 En2) as (f3 & E3 & _ & H3); try done; [lia|]. rewrite E3. cbn [mbind option_bind].
    case_bool_decide as Hk.
    + destruct (HK Hk) as [<- _]. destruct (st_link _ _ _ _ _ _ H3 d HdA) as (f4 & -> & _ & H4); [lia|].
      destruct (st_unlink _ _ _ _ _ _ H4 d HdA) as (f5 & E5 & _ & H5); [rewrite hit_refl; lia|]. exists f4, f5. split_and!; try done.
      eapply st_weaken; [exact H5| |lia]. intros x. simpl. rewrite <- Er. lia.
    + exists f3, f3. split_and!; try done. eapply st_weaken; [exact H3| |lia]. intros x. rewrite <- Er. lia.
Qed.

Lemma rename_steps d n d2 n2 id : permitted (Rename d n d2 n2 id) T -> steps_to B (rename f d n d2 n2 id) (spec (Rename d n d2 n2 id) T).
Proof.
  intros ([m Hd] & [m2 Hd2] & Hp & Hp2 & Hn2 & Hne & He & HK). rewrite !(entry_at _ _ _ _ Hd) in *. pose proof (i_wf _ _ _ HI) as HW.
  unfold rename, steps_to, spec. rewrite (entry_at _ _ _ _ Hd).
  destruct (st_match _ _ _ _ _ _ (i_st _ _ _ HI) d m n Hd) as (f1 & -> & _ & H1). cbn [mbind option_bind].
  destruct He as [En|En]; rewrite En; cbn [mbind option_bind]; [|exists f1; split; [done|by eapply steps_same]].
  assert (HA : id ∈ objs T) by (by apply (w_objs T HW d m n)).
  assert (Eg : getNumLinks f1 id = Some (refs (ents T) id)) by (unfold getNumLinks; by rewrite (st_counts _ _ _ _ _ _ H1), decide_True).
  assert (Ek : S_ISDIR f1 id = bool_decide (id ∈ kinds T)) by (apply bool_decide_ext; by rewrite <- elem_of_dom, (st_kinds _ _ _ _ _ _ H1)).
  rewrite Eg, Ek. cbn [mbind option_bind]. cbv zeta.
  destruct (rename_middle d m n d2 m2 n2 id f1 H1 Hd Hd2 En Hn2 HK) as (f2 & f3 & f4 & -> & E3 & E4 & H4). cbn [mbind option_bind].
  rewrite (put_eq _ _ m2) by done. set (T1 := mkTree (<[d2 := <[n2 := id]> m2]> (ents T)) (objs T) (kinds T)).
  assert (HI1 : Inv f4 T1 (B + 1)).
  { split; [done| |].
    - unfold T1. replace (objs T) with ({[id]} ∪ objs T) by set_solver. apply wf_put; try done; [by apply (w_ids T HW)|].
      intros mm Hmm. destruct HK as [<- _]; [by apply (st_dir _ _ _ _ _ _ H1 id mm)|]. by apply (w_parent T HW d m n id mm).
    - intros x. simpl. rewrite (refs_set _ _ m2) by done. pose proof (i_bound _ _ _ HI x). pose proof (hit_bounds id x).
      destruct (m2 !! n2) as [y|]; simpl; [pose proof (hit_bounds y x)|]; lia. }
  assert (He1 : exists m', ents T1 !! d = Some m' /\ m' !! n = Some id).
  { simpl. destruct (decide (d = d2)) as [->|Hdd]; [|exists m; by rewrite lookup_insert_ne]. eexists. rewrite lookup_insert_eq. split; [done|].
    rewrite lookup_insert_ne by congruence. congruence. }
  destruct He1 as (m' & Hd' & En'). destruct (unlink_exact f4 T1 (B + 1) HI1 ltac:(lia) d n (Some id)) as (f5 & E5 & HI5).
  { split; [by exists m'|]. split; [done|]. intros x. rewrite (entry_at _ _ _ _ Hd'), En'. intros [= <-]. done. }
  simpl in E5, HI5. rewrite (entry_at _ _ _ _ Hd'), En' in E5, HI5. simpl in E5, HI5. exists f5. split; [|by eapply Inv_weaken; [exact HI5|lia]].
  destruct (m2 !! n2); rewrite E3; cbn [mbind option_bind]; rewrite E4; cbn [mbind option_bind]; exact E5.
Qed.

End directories.

Lemma fs_exec_refines o f T B : Inv f T B -> 0 <= B < 2 ^ 30 -> permitted o T -> exists f', exec o f = Some ((spec o T).1, f') /\ Inv f' (spec o T).2 (B + 3).
Proof.
  intros HI HB Hp. destruct o as [d n new|id d n|d n o|d n d2 n2 id|d n new|d n|id].
  - apply createFile_steps; [done|lia|done].
  - apply link_steps; [done|lia|done].
  - destruct (unlink_exact f T B HI ltac:(lia) d n o Hp) as (f' & E & H). exists f'. split; [exact E|]. eapply Inv_weaken; [exact H|lia].
  - by apply rename_steps.
  - by apply mkdir_steps.
  - by apply rmdir_steps.
  - apply deleteFile_steps; [done|lia|done].
Qed.


(** ** Sequences of operations from a new file system *)

Definition rootTree (root : Z) : tree := mkTree {[ root := dots root root ]} {[ root ]} {[ root ]}.

Lemma createRoot_inv root : idOk root -> exists f, createRootDirectory root = Some f /\ Inv f (rootTree root) 2.
Proof.
  intros Hid. unfold createRootDirectory.
  assert (H0 : st (mkFS {[ root := emptyDir ]} {[ root := 0 ]} []) ∅ {[ root ]} {[ root ]} (fun _ => 0) 0).
  { split; simpl; [done| |apply dom_singleton_L]. intros x. rewrite lookup_singleton. destruct (decide (root = x)) as [->|]; [by rewrite decide_True by set_solver|by rewrite decide_False by set_solver]. }
  destruct (st_first _ _ _ _ _ _ H0 ltac:(lia) root DOT root) as (f1 & -> & _ & H1); try done; [apply lookup_singleton_eq|set_solver|]. cbn [mbind option_bind].
  destruct (st_create _ _ _ _ _ _ H1 ltac:(lia) root {[ DOT := root ]} DOTDOT root) as (f2 & -> & _ & H2); try done; [apply lookup_insert_eq|set_solver|rewrite hit_refl; lia|].
  exists f2. split; [done|]. rewrite insert_insert_eq in H2.
  assert (Edots : <[DOTDOT := root]> {[ DOT := root ]} = dots root root) by (unfold dots, singletonM, map_singleton; by rewrite insert_insert_ne). rewrite Edots in H2.
  assert (Er : forall x, refs {[ root := dots root root ]} x = hit root x + hit root x).
  { intros x. unfold singletonM, map_singleton. rewrite refs_new, count_dots by done. by rewrite refs_zero. }
  split; simpl; [|split; simpl|].
  - eapply st_weaken; [exact H2| |lia]. intros x. rewrite Er. lia.
  - intros d m [<- <-]%lookup_singleton_Some. split; [done|by exists root].
  - intros d m n x [<- <-]%lookup_singleton_Some Hn. apply dots_lookup in Hn as [[_ ->]|[_ ->]]; set_solver.
  - by intros x ->%elem_of_singleton.
  - intros d m n x mm [<- <-]%lookup_singleton_Some Hn [P1 P2]. apply dots_lookup in Hn as [[-> _]|[-> _]]; done.
  - intros x. rewrite Er. pose proof (hit_bounds root x). lia.
Qed.

Fixpoint run (os : list op) (f : fs) : option (list Z * fs) :=
  match os with
  | [] => Some ([], f)
  | o :: os => '(a, f) ← exec o f; '(l, f) ← run os f; Some (a :: l, f)
  end.

Fixpoint spec_run (os : list op) (T : tree) : list Z * tree :=
  match os with
  | [] => ([], T)
  | o :: os => let (a, T') := spec o T in let (l, T'') := spec_run os T' in (a :: l, T'')
  end.

Fixpoint permitted_all (os : list op) (T : tree) : Prop :=
  match os with
  | [] => True
  | o :: os => permitted o T /\ permitted_all os (spec o T).2
  end.

Lemma fs_run_refines os : forall f T B,
  Inv f T B -> permitted_all os T -> 0 <= B -> B + 3 * Z.of_nat (length os) < 2 ^ 30 ->
  exists f', run os f = Some ((spec_run os T).1, f') /\ Inv f' (spec_run os T).2 (B + 3 * Z.of_nat (length os)).
Proof.
  induction os as [|o os IH]; intros f T B HI Hp H0 HB; simpl in *; [exists f; split; [done|]; eapply Inv_weaken; [exact HI|lia]|]. destruct Hp as [Hp Hps].
  destruct (fs_exec_refines o f T B HI ltac:(lia) Hp) as (f1 & -> & HI1). simpl. destruct (spec o T) as [a T1]. simpl in *.
  destruct (IH f1 T1 (B + 3) HI1 Hps) as (f' & -> & HI'); [lia|lia|]. exists f'. simpl. destruct (spec_run os T1). split; [done|].
  simpl in *. eapply Inv_weaken; [exact HI'|lia].
Qed.

(** C8: The link counts of KFS are exact.  From a new file system, any permitted
    sequence of fewer than 2^28 operations that create, link, remove and rename
    files, make and remove directories and delete objects runs without a failed
    assertion and answers as the operations on a tree do (a name that exists is not
    linked over, a missing one not removed, a directory with entries not removed); at
    the end the directories of the tree hold its entries, and the count of every
    object is the number of entries in the tree that name it.  Permitted: operations
    are on directories of the tree; files and directories are made with new names and
    new numbers; names are at most 255 bytes; . and .. are not removed or renamed; a
    directory is not linked, and is renamed to a new name in its own directory only;
    the file that is renamed is the one the old name names, and the new name is
    another; only directories are removed by rmdir; an object is deleted only when
    no entry names it (else the code fails an assertion, delete_linked_asserts). *)
Theorem kfs_links_counted root os T :
  T = rootTree root -> idOk root -> permitted_all os T -> Z.of_nat (length os) < 2 ^ 28 ->
  exists f f', createRootDirectory root = Some f /\ run os f = Some ((spec_run os T).1, f') /\
    (forall id, getNumLinks f' id = if decide (id ∈ objs (spec_run os T).2) then Some (refs (ents (spec_run os T).2) id) else None) /\
    (forall d m, ents (spec_run os T).2 !! d = Some m -> exists s, dirs f' !! d = Some s /\ rep s m).
Proof.
  intros -> Hid Hos Hlen. destruct (createRoot_inv root Hid) as (f & E & HI).
  destruct (fs_run_refines os f (rootTree root) 2 HI Hos) as (f' & E' & HI'); [lia|lia|]. exists f, f'. split; [done|]. split; [done|].
  destruct (i_st _ _ _ HI') as [S1 S2 _]. split; [exact S2|]. intros d m Hd. destruct (S1 d m Hd) as (s & ? & ? & _). by exists s.
Qed.

(** A file with two names in two directories, moved, and all of it removed. *)
Definition visit : list op :=
  [Mkdir 2 [97] 3; CreateFile 3 [120] 4; Link 4 2 [121]; Rmdir 2 [97]; Rename 3 [120] 2 [122] 4; Rmdir 2 [97]; Unlink 2 [121] None;
   Unlink 2 [123] None; Unlink 2 [122] (Some 4); DeleteFile 4; DeleteFile 3].

Ltac permit :=
  repeat match goal with
  | |- _ /\ _ => split
  | |- True => exact I
  | |- plain _ => by split
  | |- nameOk _ => by vm_compute
  | |- idOk _ => by vm_compute
  | |- is_Some ?x => by (let v := eval vm_compute in x in match v with Some ?y => exists y end)
  | |- _ ∉ _ => apply (bool_decide_unpack _); by vm_compute
  | |- _ ∈ _ => apply (bool_decide_unpack _); by vm_compute
  | |- _ = _ => by vm_compute
  | |- _ <> _ => done
  | |- _ = _ \/ _ => left; by vm_compute
  | |- _ ∈ _ -> _ => let H := fresh in intros H; exfalso; revert H; apply (bool_decide_unpack _); by vm_compute
  | |- forall id, _ = Some id -> _ => let H := fresh in intros ? H; vm_compute in H; injection H as <-
  | |- forall id, _ = Some id -> _ => let H := fresh in intros ? H; vm_compute in H; discriminate H
  end.

Lemma kfs_links_counted_witness :
  permitted_all visit (rootTree 2) /\ (spec_run visit (rootTree 2)).1 = [0; 0; 0; _SERROR 2347 0 ENOTEMPTY; 0; 0; 0; _SERROR 2343 0 ENOENT; 0; 0; 0] /\
  exists f f', createRootDirectory 2 = Some f /\ run visit f = Some ((spec_run visit (rootTree 2)).1, f') /\ getNumLinks f' 2 = Some 2 /\ getNumLinks f' 3 = None.
Proof.
  assert (Hp : permitted_all visit (rootTree 2)) by (cbn [permitted_all visit permitted]; permit).
  split; [exact Hp|]. split; [by vm_compute|].
  destruct (kfs_links_counted 2 visit _ eq_refl ltac:(by vm_compute) Hp ltac:(by vm_compute)) as (f & f' & E & E' & Hn & _). exists f, f'.
  split; [exact E|]. split; [exact E'|]. rewrite !Hn. split; by vm_compute.
Defined.


(** ** What the operations do outside the permitted cases *)

(** Renaming a file to the name it has removes the name: the entry is redirected
    to the file it names already, and then removed. *)
Lemma rename_to_itself f T B d n id :
  Inv f T B -> 0 <= B < 2 ^ 30 -> is_Some (ents T !! d) -> entry T d n = Some id -> plain n -> nameOk n -> id ∉ kinds T ->
  exists f', rename f d n d n id = Some (0, f') /\ Inv f' (mkTree (unset (ents T) d n) (objs T) (kinds T)) (B + 1).
Proof.
  intros HI HB [m Hd] En Hp Hn HK. rewrite (entry_at _ _ _ _ Hd) in En. pose proof (i_wf _ _ _ HI) as HW. unfold rename.
  destruct (st_match _ _ _ _ _ _ (i_st _ _ _ HI) d m n Hd) as (f1 & -> & _ & H1). rewrite En. cbn [mbind option_bind].
  assert (HA : id ∈ objs T) by (by apply (w_objs T HW d m n)).
  assert (Eg : getNumLinks f1 id = Some (refs (ents T) id)) by (unfold getNumLinks; by rewrite (st_counts _ _ _ _ _ _ H1), decide_True).
  assert (Ek : S_ISDIR f1 id = bool_decide (id ∈ kinds T)) by (apply bool_decide_ext; by rewrite <- elem_of_dom, (st_kinds _ _ _ _ _ _ H1)).
  rewrite Eg, Ek. cbn [mbind option_bind]. cbv zeta.
  destruct (rename_middle f T B HI HB d m n d m n id f1 H1 Hd Hd En Hn ltac:(done)) as (f2 & f3 & f4 & -> & E3 & E4 & H4). cbn [mbind option_bind].
  rewrite En in *. rewrite (insert_id m), (insert_id (ents T)) in H4 by done.
  assert (HI1 : Inv f4 T (B + 1)) by (split; [done|done|intros x; pose proof (i_bound _ _ _ HI x); lia]).
  destruct (unlink_exact f4 T (B + 1) HI1 ltac:(lia) d n (Some id)) as (f5 & E5 & HI5).
  { split; [by exists m|]. split; [done|]. intros x. rewrite (entry_at _ _ _ _ Hd), En. by intros [= <-]. }
  simpl in E5, HI5. rewrite (entry_at _ _ _ _ Hd), En in E5, HI5. exists f5. rewrite E3. cbn [mbind option_bind]. rewrite E4. done.
Qed.

(** A second directory of the same name: the token that is deleted was never set. *)
Lemma mkdir_existing f T B d n id new : Inv f T B -> is_Some (ents T !! d) -> entry T d n = Some id -> mkdir f d n new = None.
Proof.
  intros HI [m Hd] En. rewrite (entry_at _ _ _ _ Hd) in En. unfold mkdir. destruct (st_match _ _ _ _ _ _ (i_st _ _ _ HI) d m n Hd) as (f1 & -> & _). by rewrite En.
Qed.

(** The answer of rmdir for a missing name has no error code of SysStatus. *)
Lemma rmdir_missing f T B d n : Inv f T B -> is_Some (ents T !! d) -> entry T d n = None -> exists f' rc, rmdir f d n = Some (rc, f') /\ _FAILURE rc = true /\ _SGENCD rc <> ENOENT.
Proof.
  intros HI [m Hd] En. rewrite (entry_at _ _ _ _ Hd) in En. unfold rmdir, deleteDir.
  destruct (st_match _ _ _ _ _ _ (i_st _ _ _ HI) d m n Hd) as (f1 & -> & _). rewrite En. simpl. exists f1. by eexists.
Qed.

(** A file that gets its second name is not given to the manager of files with
    several names: the test for a single link comes after the new one is counted. *)
Lemma link_never_multi f T B id d n :
  Inv f T B -> 0 <= B < 2 ^ 31 -> permitted (Link id d n) T -> 1 <= refs (ents T) id -> multi <$> (snd <$> link f id d n) = Some (multi f).
Proof. intros HI HB Hp. by apply (link_steps f T B HI HB id d n Hp). Qed.

Definition play (os : list op) : option fs := f ← createRootDirectory 2; snd <$> run os f.
Definition parentOf (f : fs) (d : Z) : option (Z + Z) := fst <$> matchDir f d DOTDOT.

(** A directory that is moved still names its old parent, whose count goes down. *)
Lemma moved_directory_keeps_parent :
  (f ← play [Mkdir 2 [97] 3; Mkdir 2 [98] 4; Rename 2 [98] 3 [98] 4];
   p ← parentOf f 4; old ← getNumLinks f 2; new ← getNumLinks f 3; Some (p, old, new)) = Some (inr 2, 3, 3).
Proof. by vm_compute. Qed.

(** A directory that replaces another: the replaced one keeps a link for good, and
    deleting it fails an assertion. *)
Lemma replaced_directory_leaks :
  (f ← play [Mkdir 2 [97] 3; Mkdir 2 [98] 4; Rename 2 [98] 2 [97] 4];
   n ← getNumLinks f 3; Some (n, bool_decide (deleteFile f 3 = None))) = Some (1, true).
Proof. by vm_compute. Qed.

(** Deleting an object that still has names fails an assertion. *)
Lemma delete_linked_asserts f T B id : Inv f T B -> id ∈ objs T -> 0 < refs (ents T) id -> deleteFile f id = None.
Proof.
  intros HI HA Hr. unfold deleteFile, lso_deleteFile, getNumLinks. rewrite (st_counts _ _ _ _ _ _ (i_st _ _ _ HI)), decide_True by done.
  simpl. by rewrite (proj2 (Z.eqb_neq _ _)) by lia.
Qed.

(** A file that is replaced by a directory: the count of the parent lacks the
    directory, which names it. *)
Lemma directory_over_file_miscounts :
  (f ← play [CreateFile 2 [97] 3; Mkdir 2 [98] 4; Rename 2 [98] 2 [97] 4];
   p ← parentOf f 4; n ← getNumLinks f 2; Some (p, n)) = Some (inr 2, 2).
Proof. by vm_compute. Qed.

End FSFileKFS.
