(* ===== verification/SuperBlock.v ===== *)
(** * SuperBlock: the free blocks of a KFS disk,
    os/servers/kfs/SuperBlock.C, SuperBlock.H

    A bitmap says which blocks of the disk are in use, and a counter how many are
    free.  The bitmap is kept in blocks of 1024 words of 32 bits, so it may have more
    bits than the disk has blocks, and formatting does not mark the rest; that no
    block outside the disk is handed out follows from the order in which blocks are
    found.

    A word is modelled by its value, as TE32_TO_CPU reads it.  Of the block cache
    there is what freeing a block does to it: the entry of the block is forgotten.  Of
    the super block itself there are the two counts and the array with the blocks of
    the bitmap, which has as many slots as the block has room for.  Dirty marks, locks
    and the name of the file system are left out; the block that format takes for the
    record map is one of the operations that follow it.  The allocation of extents is
    switched off in the source. *)

From stdpp Require Import base numbers option gmap list.
From S2P Require Import K42 Prelude DirBlock.

Module SuperBlock.

Import DirBlock.

(** ** BlockMap *)

Record BlockMap := mkBM { block : list (list Z); numBlocks : Z; numBits : Z; lastAlloc : Z }.

Definition CEIL (n d : Z) : Z := usub (uadd n d) 1 / d.
Definition BLOCK_BITS : Z := OS_BLOCK_SIZE * 8.
Definition BLOCK_WORDS : Z := OS_BLOCK_SIZE / 4.
Definition FULL : Z := 4294967295.

(** The constructor and init; [blocks] is what the disk holds. *)
Definition newBlockMap (num_blocks : Z) (blocks : list (list Z)) : BlockMap :=
  mkBM blocks (CEIL num_blocks (4096 * 8)) (umul (8 * OS_BLOCK_SIZE) (CEIL num_blocks (4096 * 8))) 0.

Definition set_block (s : BlockMap) (i : Z) (buf : list Z) : BlockMap :=
  mkBM (<[Z.to_nat i := buf]> (block s)) (numBlocks s) (numBits s) (lastAlloc s).
Definition set_lastAlloc (s : BlockMap) (x : Z) : BlockMap := mkBM (block s) (numBlocks s) (numBits s) x.

(** for (; blocks; blocks--) bufv |= 1 << (blocks - 1) *)
Fixpoint reserve_bits (blocks : nat) (bufv : Z) : Z :=
  match blocks with
  | O => bufv
  | S blocks => reserve_bits blocks (Z.lor bufv (Z.shiftl 1 (Z.of_nat blocks)))
  end.

Definition formatBlock (numReserved : Z) : option (list Z) :=
  let buf := replicate (Z.to_nat BLOCK_WORDS) 0 in
  if numReserved =? 0 then Some buf
  else
    let chunks := numReserved / 32 in
    let blocks := numReserved mod 32 in
    if BLOCK_WORDS <? chunks then None
    else
      let buf := replicate (Z.to_nat chunks) FULL ++ drop (Z.to_nat chunks) buf in
      if blocks =? 0 then Some buf
      else w ← buf !! Z.to_nat chunks; Some (<[Z.to_nat chunks := reserve_bits (Z.to_nat blocks) w]> buf).

Fixpoint format_loop (n : nat) (s : BlockMap) (i numReserved blkCount : Z) : option (Z * BlockMap) :=
  match n with
  | O => Some (0, s)
  | S n =>
      if blkCount <? (i + 1) * OS_BLOCK_SIZE then Some (_SERROR 2802 0 0, s)
      else
        buf ← formatBlock numReserved;
        format_loop n (set_block s i buf) (i + 1) 0 blkCount
  end.

Definition format (s : BlockMap) (numReserved blkCount : Z) : option (Z * BlockMap) :=
  format_loop (Z.to_nat (numBlocks s)) s 0 numReserved blkCount.

(** for (j = 0; ...; j++) if (buf[j] != 0xFFFFFFFF) break; *)
Fixpoint word_loop (ws : list Z) (j : Z) : Z :=
  match ws with
  | [] => j
  | w :: ws => if w =? FULL then word_loop ws (j + 1) else j
  end.

(** The do loop: where it stops, and the word. *)
Fixpoint block_loop (fuel : nat) (s : BlockMap) (start i : Z) : option (Z * Z) :=
  match fuel with
  | O => None
  | S fuel =>
      buf ← block s !! Z.to_nat i;
      let j := word_loop buf 0 in
      if negb (j =? BLOCK_WORDS) then Some (i, j)
      else
        let i := (i + 1) mod numBlocks s in
        if i =? start then Some (i, j) else block_loop fuel s start i
  end.

(** The first bit that is not set, and the word with it set. *)
Fixpoint bit_loop (n : nat) (blkno bufv : Z) : Z * Z :=
  match n with
  | O => (blkno, bufv)
  | S n =>
      if Z.land bufv (Z.shiftl 1 blkno) =? 0 then (blkno, Z.lor bufv (Z.shiftl 1 blkno))
      else bit_loop n (blkno + 1) bufv
  end.

Definition u32 (x : Z) : Z := x mod 2 ^ 32.

Definition allocOne (s : BlockMap) : option (Z * BlockMap) :=
  let start := lastAlloc s / BLOCK_BITS in
  _ ← assertK ((0 <=? start) && (start <? numBlocks s));
  '(i, j) ← block_loop (Z.to_nat (numBlocks s)) s start start;
  _ ← assertK (negb ((j =? BLOCK_WORDS) && (i =? start)));
  buf ← block s !! Z.to_nat i;
  bufv ← buf !! Z.to_nat j;
  let (k, bufv) := bit_loop 32 0 bufv in
  let blkno := u32 (k + j * 32 + i * BLOCK_BITS) in
  let s := set_lastAlloc (set_block s i (<[Z.to_nat j := bufv]> buf)) (u32 (blkno + 1) mod numBits s) in
  _ ← assertK (negb (blkno =? 0));
  Some (blkno, s).

(** 1 << k of an int, as it enters a uval; a shift by more than 31 is undefined. *)
Definition shift1 (k : Z) : option Z := if k <? 31 then Some (2 ^ k) else if k =? 31 then Some (2 ^ 64 - 2 ^ 31) else None.

Fixpoint mask_loop (n : nat) (k mask : Z) : option Z :=
  match n with
  | O => Some mask
  | S n => b ← shift1 k; mask_loop n (k + 1) (Z.lor mask b)
  end.

Definition free_mask (index length : Z) : option Z :=
  if (index mod 32 =? 0) && (32 <=? length) then Some FULL
  else if length <? 32 then mask_loop (Z.to_nat length) (index mod 32) 0
  else mask_loop (Z.to_nat (32 - index mod 32)) (index mod 32) 0.

(** The words mask_i to mask_max of one block. *)
Fixpoint free_words (fuel : nat) (buf : list Z) (j mask_max index length : Z) : option (list Z * Z * Z) :=
  match fuel with
  | O => None
  | S fuel =>
      if j <=? mask_max then
        mask ← free_mask index length;
        bufv ← buf !! Z.to_nat j;
        let buf := <[Z.to_nat j := Z.land bufv (unot mask)]> buf in
        if length <? 32 then free_words fuel buf (j + 1) mask_max (index + length) 0
        else
          let m := 32 - index mod 32 in
          free_words fuel buf (j + 1) mask_max (index + m) (length - m)
      else Some (buf, index, length)
  end.

Fixpoint free_blocks (fuel : nat) (s : BlockMap) (i block_max mask_i mask_max index length : Z) : option BlockMap :=
  match fuel with
  | O => None
  | S fuel =>
      if i <=? block_max then
        buf ← block s !! Z.to_nat i;
        '(buf, index, length) ← free_words (S (Z.to_nat BLOCK_WORDS)) buf mask_i mask_max index length;
        free_blocks fuel (set_block s i buf) (i + 1) block_max 0 mask_max index length
      else Some s
  end.

Definition free (s : BlockMap) (blkno len : Z) : option BlockMap :=
  let last := usub (uadd blkno len) 1 in
  let block_i := blkno / BLOCK_BITS in
  let block_max := last / BLOCK_BITS in
  let mask_i := blkno mod BLOCK_BITS / 32 in
  _ ← assertK ((0 <=? block_i) && (block_i <? numBlocks s));
  _ ← assertK ((0 <=? block_max) && (block_max <? numBlocks s));
  _ ← assertK ((0 <=? mask_i) && (mask_i <? BLOCK_BITS / 32));
  let mask_max := if block_i =? block_max then last mod BLOCK_BITS / 32 else BLOCK_BITS / 32 - 1 in
  s ← free_blocks (S (Z.to_nat (numBlocks s))) s block_i block_max mask_i mask_max blkno len;
  Some (if blkno <? lastAlloc s then set_lastAlloc s blkno else s).

(** ** SuperBlock *)

(** [blockMapBlocks] is the array at the end of SuperBlockStruct. *)
Record SuperBlock := mkSB { diskBlocks : Z; freeBlocks : Z; bmap : BlockMap; blockMapBlocks : list Z }.

Definition BLKBIT_BLOCK : Z := 3.

(** The bytes before the array: the name and eight words of 32 bits. *)
Definition SB_HEADER : Z := 32 + 8 * 4.

(** The slots of the array that are in the block. *)
Definition SB_SLOTS : Z := (OS_BLOCK_SIZE - SB_HEADER) / 4.

(** for (i = 0; i < bmap->numBlocks; i++) superblock->blockMapBlocks[i] = i + BLKBIT_BLOCK;
    [None] is a store past the end of the block. *)
Fixpoint set_blockMap (n : nat) (slots : list Z) (i : Z) : option (list Z) :=
  match n with
  | O => Some slots
  | S n => _ ← slots !! Z.to_nat i; set_blockMap n (<[Z.to_nat i := u32 (i + BLKBIT_BLOCK)]> slots) (i + 1)
  end.

(** format of a disk of [n] blocks; [disk] is what the blocks of the map hold. *)
Definition formatDisk (n : Z) (disk : list (list Z)) : option (Z * SuperBlock) :=
  _ ← assertK (negb (n =? 0));
  let m := newBlockMap n disk in
  slots ← set_blockMap (Z.to_nat (numBlocks m)) (replicate (Z.to_nat SB_SLOTS) 0) 0;
  '(rc, m) ← format m (numBlocks m + BLKBIT_BLOCK) n;
  if _FAILURE rc then Some (rc, mkSB n 0 m slots)
  else Some (0, mkSB n (u32 (n - (numBlocks m + BLKBIT_BLOCK))) m slots).

Definition allocBlock (s : SuperBlock) : option (Z * SuperBlock) :=
  _ ← assertK (negb (freeBlocks s =? 0));
  '(blkno, m) ← allocOne (bmap s);
  _ ← assertK (0 <? blkno);
  Some (blkno, mkSB (diskBlocks s) (u32 (freeBlocks s - 1)) m (blockMapBlocks s)).

(** BlockCacheK42::forget: the entry of a block, if there is one, is removed. *)
Definition forget {A} (c : gmap Z A) (b : Z) : gmap Z A := delete b c.

(** [c] are the entries of the block cache. *)
Definition freeBlock {A} (c : gmap Z A) (s : SuperBlock) (blkno : Z) : option (Z * SuperBlock * gmap Z A) :=
  _ ← assertK (negb ((blkno =? 0) || (diskBlocks s <? blkno)));
  m ← free (bmap s) blkno 1;
  Some (0, mkSB (diskBlocks s) (u32 (freeBlocks s + 1)) m (blockMapBlocks s), forget c blkno).


(** ** The bits of the map *)

(** The bit of a block of the disk. *)
Definition bit (bs : list (list Z)) (b : Z) : bool :=
  default false (buf ← bs !! Z.to_nat (b / BLOCK_BITS); w ← buf !! Z.to_nat (b mod BLOCK_BITS / 32); Some (Z.testbit w (b mod 32))).

Definition word (w : Z) : Prop := 0 <= w < 2 ^ 32.
Definition shape (bs : list (list Z)) (nb : Z) : Prop :=
  Z.of_nat (length bs) = nb /\ Forall (fun buf => Z.of_nat (length buf) = BLOCK_WORDS /\ Forall word buf) bs.

Lemma addr_of i j k :
  0 <= i -> 0 <= j < BLOCK_WORDS -> 0 <= k < 32 -> let b := k + j * 32 + i * BLOCK_BITS in b / BLOCK_BITS = i /\ b mod BLOCK_BITS / 32 = j /\ b mod 32 = k.
Proof.
  unfold BLOCK_BITS, BLOCK_WORDS, OS_BLOCK_SIZE. intros Hi Hj Hk. change (4096 / 4) with 1024 in Hj. cbv zeta. change (4096 * 8) with 32768 in *.
  rewrite Z.div_add, Z.mod_add, (Z.div_small (k + j * 32)), (Z.mod_small (k + j * 32)), Z.div_add, (Z.div_small k) by lia.
  split; [lia|]. split; [lia|]. replace (k + j * 32 + i * 32768) with (k + (j + i * 1024) * 32) by lia. rewrite Z.mod_add, Z.mod_small by lia. done.
Qed.

Lemma addr_split b : 0 <= b -> exists i j k, b = k + j * 32 + i * BLOCK_BITS /\ 0 <= i /\ 0 <= j < BLOCK_WORDS /\ 0 <= k < 32.
Proof.
  intros Hb. exists (b / BLOCK_BITS), (b mod BLOCK_BITS / 32), (b mod BLOCK_BITS mod 32). unfold BLOCK_BITS, BLOCK_WORDS, OS_BLOCK_SIZE.
  change (4096 / 4) with 1024. change (4096 * 8) with 32768. pose proof (Z.mod_pos_bound b 32768 ltac:(lia)). pose proof (Z.div_mod b 32768 ltac:(lia)).
  pose proof (Z.mod_pos_bound (b mod 32768) 32 ltac:(lia)). pose proof (Z.div_mod (b mod 32768) 32 ltac:(lia)).
  split_and!; lia.
Qed.

Lemma bit_at bs i j k buf w : 0 <= i -> 0 <= j < BLOCK_WORDS -> 0 <= k < 32 -> bs !! Z.to_nat i = Some buf -> buf !! Z.to_nat j = Some w ->
  bit bs (k + j * 32 + i * BLOCK_BITS) = Z.testbit w k.
Proof. intros Hi Hj Hk Hb Hw. destruct (addr_of i j k Hi Hj Hk) as (E1 & E2 & E3). unfold bit. rewrite E1, E2, E3, Hb. simpl. by rewrite Hw. Qed.

Lemma shape_block bs nb i : shape bs nb -> 0 <= i < nb -> exists buf, bs !! Z.to_nat i = Some buf /\ Z.of_nat (length buf) = BLOCK_WORDS /\ Forall word buf.
Proof.
  intros [Hl Hf] Hi. destruct (lookup_lt_is_Some_2 bs (Z.to_nat i)) as [buf Hb]; [lia|]. exists buf. split; [done|]. rewrite Forall_lookup in Hf. by apply (Hf (Z.to_nat i)).
Qed.

Lemma buf_word buf j : Z.of_nat (length buf) = BLOCK_WORDS -> Forall word buf -> 0 <= j < BLOCK_WORDS -> exists w, buf !! Z.to_nat j = Some w /\ word w.
Proof.
  intros Hl Hf Hj. destruct (lookup_lt_is_Some_2 buf (Z.to_nat j)) as [w Hw]; [lia|]. exists w. split; [done|]. rewrite Forall_lookup in Hf. by apply (Hf (Z.to_nat j)).
Qed.

(** One word changes. *)
Lemma shape_set bs nb i buf j w' : shape bs nb -> bs !! i = Some buf -> word w' -> shape (<[i := <[j := w']> buf]> bs) nb.
Proof.
  intros [Hl Hf] Hb Hw. split; [by rewrite length_insert|]. rewrite Forall_lookup in Hf. destruct (Hf i buf Hb) as [H1 H2].
  apply Forall_insert; [by apply Forall_lookup|]. split; [by rewrite length_insert|by apply Forall_insert].
Qed.

Lemma bit_set bs nb i j k buf w w' c :
  shape bs nb -> 0 <= i < nb -> 0 <= j < BLOCK_WORDS -> 0 <= k < 32 -> bs !! Z.to_nat i = Some buf -> buf !! Z.to_nat j = Some w ->
  (forall q, 0 <= q < 32 -> q <> k -> Z.testbit w' q = Z.testbit w q) -> 0 <= c ->
  bit (<[Z.to_nat i := <[Z.to_nat j := w']> buf]> bs) c = if decide (c = k + j * 32 + i * BLOCK_BITS) then Z.testbit w' k else bit bs c.
Proof.
  intros Hs Hi Hj Hk Hb Hw Hq Hc. destruct (addr_split c Hc) as (i' & j' & k' & -> & Hi' & Hj' & Hk').
  assert (Hlt : (Z.to_nat i < length bs)%nat) by (by eapply lookup_lt_Some). assert (Hlt2 : (Z.to_nat j < length buf)%nat) by (by eapply lookup_lt_Some).
  destruct (decide (i' = i)) as [->|Hne].
  - destruct (decide (j' = j)) as [->|Hne2].
    + rewrite (bit_at _ i j k' (<[Z.to_nat j := w']> buf) w') by (try lia; by rewrite list_lookup_insert_eq by done).
      rewrite (bit_at bs i j k' buf w) by (done || lia). destruct (decide (k' = k)) as [->|]; [by rewrite decide_True|]. rewrite decide_False by lia. by apply Hq.
    + rewrite decide_False by (intros E; destruct (addr_of i j k) as (_ & E2 & _); [lia|done|done|]; rewrite <- E in E2; destruct (addr_of i j' k') as (_ & E3 & _); [lia|done|done|congruence]).
      destruct Hs as [_ Hf]. rewrite Forall_lookup in Hf. destruct (Hf _ _ Hb) as [Hl Hwf]. destruct (buf_word buf j' Hl Hwf Hj') as (w2 & Hw2 & _).
      rewrite (bit_at _ i j' k' (<[Z.to_nat j := w']> buf) w2), (bit_at bs i j' k' buf w2); try done; try lia; [by rewrite list_lookup_insert_eq|].
      by rewrite list_lookup_insert_ne by lia.
  - rewrite decide_False by (intros E; destruct (addr_of i j k) as (E2 & _); [lia|done|done|]; rewrite <- E in E2; destruct (addr_of i' j' k') as (E3 & _); [lia|done|done|congruence]).
    unfold bit. destruct (addr_of i' j' k') as (-> & -> & ->); [lia|done|done|]. by rewrite list_lookup_insert_ne by lia.
Qed.

(** ** Words *)

Lemma full_word w : word w -> (forall k, 0 <= k < 32 -> Z.testbit w k = true) -> w = FULL.
Proof.
  intros Hw H. change FULL with (Z.ones 32). apply Z.bits_inj'. intros k Hk. rewrite Z.testbit_ones by lia. rewrite (proj2 (Z.leb_le 0 k)) by lia. simpl.
  destruct (Z.ltb_spec k 32); [by apply H|]. by apply (testbit_bounded w 32).
Qed.

Lemma full_bit k : 0 <= k < 32 -> Z.testbit FULL k = true.
Proof. intros Hk. change FULL with (Z.ones 32). rewrite Z.testbit_ones by lia. apply andb_true_intro. split; [apply Z.leb_le|apply Z.ltb_lt]; lia. Qed.

Lemma land_shift w k : 0 <= k -> (Z.land w (Z.shiftl 1 k) =? 0) = negb (Z.testbit w k).
Proof.
  intros Hk. rewrite Z.shiftl_1_l. destruct (Z.testbit w k) eqn:E; simpl.
  - apply Z.eqb_neq. intros H. apply (f_equal (fun x => Z.testbit x k)) in H. rewrite Z.land_spec, Z.pow2_bits_true, E, Z.bits_0 in H by done. done.
  - apply Z.eqb_eq. apply Z.bits_inj'. intros n Hn. rewrite Z.land_spec, Z.bits_0, Z.pow2_bits_eqb by done.
    destruct (Z.eqb_spec k n) as [<-|]; [by rewrite E|apply andb_false_r].
Qed.

Lemma lor_shift_bits w k q : 0 <= k -> Z.testbit (Z.lor w (Z.shiftl 1 k)) q = Z.testbit w q || (k =? q).
Proof. intros Hk. by rewrite Z.lor_spec, Z.shiftl_1_l, Z.pow2_bits_eqb. Qed.

Lemma word_bits w : 0 <= w -> (forall q, 32 <= q -> Z.testbit w q = false) -> word w.
Proof.
  intros H0 Hq. split; [done|]. destruct (decide (w = 0)) as [->|]; [done|]. apply Z.log2_lt_pow2; [lia|].
  destruct (Z_lt_le_dec (Z.log2 w) 32) as [|Hge]; [done|]. pose proof (Z.bit_log2 w ltac:(lia)) as H. by rewrite Hq in H.
Qed.

Lemma word_set w k : word w -> 0 <= k < 32 -> word (Z.lor w (Z.shiftl 1 k)).
Proof.
  intros Hw Hk. apply word_bits; [apply Z.lor_nonneg; split; [apply Hw|apply Z.shiftl_nonneg; lia]|]. intros q Hq.
  rewrite lor_shift_bits by lia. rewrite (testbit_bounded w 32) by (done || lia). simpl. apply Z.eqb_neq. lia.
Qed.

(** ** The loops of allocOne *)

Lemma word_loop_at ws : forall p j,
  (p <= length ws)%nat -> (forall q, (q < p)%nat -> ws !! q = Some FULL) -> ((p < length ws)%nat -> ws !! p <> Some FULL) -> word_loop ws j = j + Z.of_nat p.
Proof.
  induction ws as [|w ws IH]; intros p j Hp Hq Hn; simpl in *; [lia|]. destruct p as [|p].
  - rewrite (proj2 (Z.eqb_neq w FULL)); [lia|]. intros ->. by apply Hn; [lia|].
  - pose proof (Hq 0%nat ltac:(lia)) as [= ->]. rewrite Z.eqb_refl. rewrite (IH p (j + 1)); [lia|lia| |].
    + intros q Hlt. apply (Hq (S q)). lia.
    + intros Hlt. apply Hn. lia.
Qed.

Lemma bit_loop_at w k : word w -> 0 <= k < 32 -> Z.testbit w k = false -> forall n j,
  0 <= j <= k -> k < j + Z.of_nat n -> (forall q, j <= q < k -> Z.testbit w q = true) -> bit_loop n j w = (k, Z.lor w (Z.shiftl 1 k)).
Proof.
  intros Hw Hk Hf. induction n as [|n IH]; intros j Hj Hn Hq; [lia|]. cbn [bit_loop]. rewrite land_shift by lia.
  destruct (decide (j = k)) as [->|]; [by rewrite Hf|]. rewrite Hq by lia. simpl. apply IH; [lia|lia|]. intros q Hlt. apply Hq. lia.
Qed.


Section searching.
Context (s : BlockMap) (nb b : Z).
Hypothesis Hshape : shape (block s) nb.
Hypothesis Hnum : numBlocks s = nb.
Hypothesis Hb : 0 <= b < nb * BLOCK_BITS.
Hypothesis Hfree : bit (block s) b = false.
Hypothesis Hlow : forall c, 0 <= c < b -> bit (block s) c = true.

(** A word whose bits are all below [b] is full. *)
Lemma word_below i j buf w :
  0 <= i -> 0 <= j < BLOCK_WORDS -> block s !! Z.to_nat i = Some buf -> buf !! Z.to_nat j = Some w -> word w -> 31 + j * 32 + i * BLOCK_BITS < b -> w = FULL.
Proof.
  intros Hi Hj Hbuf Hw Hr Hlt. apply full_word; [done|]. intros k Hk. rewrite <- (bit_at (block s) i j k buf w) by done. apply Hlow. unfold BLOCK_BITS, OS_BLOCK_SIZE in *. lia.
Qed.

Lemma block_loop_finds i j k fuel : forall i0,
  b = k + j * 32 + i * BLOCK_BITS -> 0 <= j < BLOCK_WORDS -> 0 <= k < 32 -> 0 <= i0 <= i -> i < nb -> (Z.to_nat (i - i0) < fuel)%nat -> forall start, start <= i0 ->
  block_loop fuel s start i0 = Some (i, j).
Proof.
  intros i0 Eb Hj Hk. revert i0. induction fuel as [|fuel IH]; intros i0 Hi Hnb Hf start Hst; [lia|]. cbn [block_loop].
  destruct (shape_block _ _ i0 Hshape ltac:(lia)) as (buf & Hbuf & Hlen & Hwf). rewrite Hbuf. cbn [mbind option_bind]. cbv zeta.
  assert (Hbw : BLOCK_WORDS = 1024) by done. assert (Hbb : BLOCK_BITS = 32768) by done.
  assert (Hpre : forall q, (q < length buf)%nat -> 31 + Z.of_nat q * 32 + i0 * BLOCK_BITS < b -> buf !! q = Some FULL).
  { intros q Hq Hlt. destruct (buf_word buf (Z.of_nat q) Hlen Hwf ltac:(lia)) as (w & Hw & Hr).
    rewrite (word_below i0 (Z.of_nat q) buf w) in Hw by (done || lia). by rewrite Nat2Z.id in Hw. }
  destruct (decide (i0 = i)) as [->|Hne].
  - rewrite (word_loop_at buf (Z.to_nat j) 0).
    + replace (0 + Z.of_nat (Z.to_nat j)) with j by lia. rewrite (proj2 (Z.eqb_neq j BLOCK_WORDS)) by lia. done.
    + lia.
    + intros q Hq. apply Hpre; lia.
    + intros _ Hw. rewrite Eb, (bit_at (block s) i j k buf FULL), full_bit in Hfree by (done || lia). done.
  - rewrite (word_loop_at buf (length buf) 0); [|lia|intros q Hq; apply Hpre; lia|lia].
    replace (0 + Z.of_nat (length buf)) with BLOCK_WORDS by lia. rewrite Z.eqb_refl. simpl. rewrite Hnum, Z.mod_small by lia.
    rewrite (proj2 (Z.eqb_neq (i0 + 1) start)) by lia. apply IH; lia.
Qed.

(** The lowest free block is found and marked. *)
Lemma allocOne_finds :
  numBits s = nb * BLOCK_BITS -> 0 <= lastAlloc s -> lastAlloc s / BLOCK_BITS * BLOCK_BITS <= b -> 0 < b < 2 ^ 32 - 1 ->
  exists s', allocOne s = Some (b, s') /\ shape (block s') nb /\ numBlocks s' = nb /\ numBits s' = numBits s /\ lastAlloc s' = (b + 1) mod numBits s /\
    forall c, 0 <= c -> bit (block s') c = if decide (c = b) then true else bit (block s) c.
Proof.
  intros Hbits Hl Hst Hr. destruct (addr_split b ltac:(lia)) as (i & j & k & Eb & Hi & Hj & Hk). unfold allocOne. cbv zeta.
  assert (Hbw : BLOCK_WORDS = 1024) by done. assert (Hbb : BLOCK_BITS = 32768) by done.
  assert (Hs0 : 0 <= lastAlloc s / BLOCK_BITS <= i) by (split; [apply Z.div_pos; lia|lia]).
  assert (Hin : i < nb) by lia. rewrite assertK_true by (apply andb_true_intro; split; [apply Z.leb_le|apply Z.ltb_lt]; lia). cbn [mbind option_bind].
  rewrite (block_loop_finds i j k) by (done || lia). cbn [mbind option_bind].
  rewrite assertK_true by (rewrite (proj2 (Z.eqb_neq j BLOCK_WORDS)) by lia; done). cbn [mbind option_bind].
  destruct (shape_block _ _ i Hshape ltac:(lia)) as (buf & Hbuf & Hlen & Hwf). destruct (buf_word buf j Hlen Hwf Hj) as (w & Hw & Hr'). rewrite Hbuf. cbn [mbind option_bind]. rewrite Hw. cbn [mbind option_bind].
  assert (Hwk : Z.testbit w k = false) by (rewrite <- (bit_at (block s) i j k buf w), <- Eb by done; done).
  rewrite (bit_loop_at w k) by (try done; try lia; intros q Hq; rewrite <- (bit_at (block s) i j q buf w) by (done || lia); apply Hlow; lia).
  cbv zeta. rewrite <- Eb. unfold u32. rewrite (Z.mod_small b), (Z.mod_small (b + 1)) by lia.
  rewrite assertK_true by (rewrite (proj2 (Z.eqb_neq b 0)) by lia; done). cbn [mbind option_bind]. eexists. split; [done|]. simpl.
  split; [apply shape_set; try done; by apply word_set|]. split_and!; try done. intros c Hc.
  rewrite (bit_set (block s) nb i j k buf w) by (try done; try lia; intros q Hq Hne; rewrite lor_shift_bits by lia; rewrite (proj2 (Z.eqb_neq k q)) by lia; apply orb_false_r).
  rewrite <- Eb. destruct (decide (c = b)); [|done]. rewrite lor_shift_bits by lia. rewrite Z.eqb_refl. apply orb_true_r.
Qed.

End searching.

(** ** Freeing one block *)

Lemma shift1_bits k : 0 <= k < 32 -> exists m, shift1 k = Some m /\ is_uval m /\ forall q, 0 <= q < 32 -> Z.testbit m q = (k =? q).
Proof.
  intros Hk. unfold shift1. destruct (Z.ltb_spec k 31).
  - exists (2 ^ k). split; [done|]. split; [split; [by apply Z.pow_nonneg|apply Z.pow_lt_mono_r; lia]|]. intros q Hq. by rewrite Z.pow2_bits_eqb by lia.
  - assert (k = 31) as -> by lia. exists (2 ^ 64 - 2 ^ 31). split; [done|]. split; [done|]. intros q Hq.
    replace (2 ^ 64 - 2 ^ 31) with (Z.shiftl (Z.ones 33) 31) by done. rewrite Z.shiftl_spec by lia. destruct (Z.eqb_spec 31 q) as [<-|]; [done|].
    apply Z.testbit_neg_r. lia.
Qed.

Lemma word_clear w k m : word w -> is_uval m -> (forall q, 0 <= q < 32 -> Z.testbit m q = (k =? q)) ->
  word (Z.land w (unot m)) /\ forall q, 0 <= q < 32 -> Z.testbit (Z.land w (unot m)) q = Z.testbit w q && negb (k =? q).
Proof.
  intros Hw Hm Hq. rewrite land_unot by (try done; destruct Hw; split; lia). split.
  - apply word_bits; [apply Z.ldiff_nonneg; left; apply Hw|]. intros q H32. rewrite Z.ldiff_spec, (testbit_bounded w 32) by (done || lia). done.
  - intros q H32. by rewrite Z.ldiff_spec, Hq.
Qed.

Lemma free_one s nb b :
  shape (block s) nb -> numBlocks s = nb -> 0 <= b < nb * BLOCK_BITS -> b < 2 ^ 32 ->
  exists s', free s b 1 = Some s' /\ shape (block s') nb /\ numBlocks s' = nb /\ numBits s' = numBits s /\ lastAlloc s' = Z.min b (lastAlloc s) /\
    forall c, 0 <= c -> bit (block s') c = if decide (c = b) then false else bit (block s) c.
Proof.
  intros Hs Hn Hb Hr. destruct (addr_split b ltac:(lia)) as (i & j & k & Eb & Hi & Hj & Hk). destruct (addr_of i j k Hi Hj Hk) as (A1 & A2 & A3). rewrite <- Eb in A1, A2, A3.
  assert (Hbw : BLOCK_WORDS = 1024) by done. assert (Hbb : BLOCK_BITS = 32768) by done. assert (Hin : i < nb) by lia.
  unfold free. cbv zeta. rewrite (uadd_small b 1), (usub_small (b + 1) 1) by lia. replace (b + 1 - 1) with b by lia. rewrite A1, A2, Hn, Z.eqb_refl.
  change (BLOCK_BITS / 32) with BLOCK_WORDS.
  rewrite !assertK_true by (apply andb_true_intro; split; [apply Z.leb_le|apply Z.ltb_lt]; lia). cbn [mbind option_bind].
  destruct (shape_block _ _ i Hs ltac:(lia)) as (buf & Hbuf & Hlen & Hwf). destruct (buf_word buf j Hlen Hwf Hj) as (w & Hw & Hr').
  destruct (shift1_bits k Hk) as (m & Em & Hm & Hmb). destruct (word_clear w k m Hr' Hm Hmb) as [Hw' Hcl].
  assert (Ef : free_words (S (Z.to_nat BLOCK_WORDS)) buf j j b 1 = Some (<[Z.to_nat j := Z.land w (unot m)]> buf, b + 1, 0)).
  { assert (Hfuel : exists n, S (Z.to_nat BLOCK_WORDS) = S (S n)) by (exists (Z.to_nat 1023); lia). destruct Hfuel as [n ->]. cbn [free_words]. rewrite (proj2 (Z.leb_le j j)) by lia.
    unfold free_mask. change (32 <=? 1) with false. rewrite andb_false_r, A3. change (1 <? 32) with true. change (Z.to_nat 1) with 1%nat. cbn [mask_loop]. rewrite Em.
    cbn [mbind option_bind]. rewrite Z.lor_0_l, Hw. cbn [mbind option_bind]. cbv zeta. rewrite (proj2 (Z.leb_gt (j + 1) j)) by lia. by rewrite andb_false_r. }
  destruct (Z.to_nat nb) as [|n] eqn:En; [lia|]. cbn [free_blocks]. rewrite (proj2 (Z.leb_le i i)) by lia. rewrite Hbuf. cbn [mbind option_bind]. rewrite Ef. cbn [mbind option_bind].
  rewrite (proj2 (Z.leb_gt (i + 1) i)) by lia. cbn [mbind option_bind]. set (s1 := set_block _ _ _).
  assert (H1 : shape (block s1) nb) by (unfold s1; simpl; by apply shape_set).
  assert (H2 : forall c, 0 <= c -> bit (block s1) c = if decide (c = b) then false else bit (block s) c).
  { intros c Hc. unfold s1. simpl. rewrite (bit_set (block s) nb i j k buf w) by (try done; try lia; intros q Hq Hne; rewrite Hcl by done; rewrite (proj2 (Z.eqb_neq k q)) by lia; apply andb_true_r).
    rewrite <- Eb. destruct (decide (c = b)); [|done]. rewrite Hcl, Z.eqb_refl by done. apply andb_false_r. }
  eexists. split; [done|]. change (lastAlloc s1) with (lastAlloc s). destruct (Z.ltb_spec b (lastAlloc s)); simpl; split_and!; try done; lia.
Qed.


(** ** Formatting *)

Lemma reserve_bits_spec n : forall w, word w -> (n <= 32)%nat -> word (reserve_bits n w) /\ forall q, 0 <= q -> Z.testbit (reserve_bits n w) q = Z.testbit w q || (q <? Z.of_nat n).
Proof.
  induction n as [|n IH]; intros w Hw Hn; cbn [reserve_bits].
  - split; [done|]. intros q Hq. rewrite (proj2 (Z.ltb_ge q (Z.of_nat 0))) by lia. by rewrite orb_false_r.
  - destruct (IH (Z.lor w (Z.shiftl 1 (Z.of_nat n)))) as [H1 H2]; [apply word_set; [done|lia]|lia|]. split; [done|]. intros q Hq. rewrite H2, lor_shift_bits by lia.
    rewrite <- orb_assoc. f_equal. destruct (Z.eqb_spec (Z.of_nat n) q), (Z.ltb_spec q (Z.of_nat n)), (Z.ltb_spec q (Z.of_nat (S n))); done || lia.
Qed.

(** The first [r] bits of a formatted block are set. *)
Lemma formatBlock_spec r : 0 <= r <= BLOCK_BITS - 32 ->
  exists buf, formatBlock r = Some buf /\ Z.of_nat (length buf) = BLOCK_WORDS /\ Forall word buf /\
    forall j k w, 0 <= j < BLOCK_WORDS -> 0 <= k < 32 -> buf !! Z.to_nat j = Some w -> Z.testbit w k = (k + j * 32 <? r).
Proof.
  intros Hr. assert (Hbw : BLOCK_WORDS = 1024) by done. assert (Hbb : BLOCK_BITS = 32768) by done. unfold formatBlock. cbv zeta.
  assert (Hz : word 0 /\ word FULL) by done. destruct Hz as [Hz Hfw]. rewrite Hbw. destruct (Z.eqb_spec r 0) as [->|Hr0].
  - exists (replicate (Z.to_nat 1024) 0). split; [done|]. split; [rewrite length_replicate; lia|]. split; [by apply Forall_replicate|].
    intros j k w Hj Hk [-> _]%lookup_replicate. rewrite Z.bits_0. symmetry. apply Z.ltb_ge. lia.
  - rewrite (proj2 (Z.ltb_ge 1024 (r / 32))) by (apply Z.div_le_upper_bound; lia).
    set (c := r / 32). pose proof (Z.div_mod r 32 ltac:(lia)) as Hdm. fold c in Hdm. pose proof (Z.mod_pos_bound r 32 ltac:(lia)) as Hm.
    assert (Hc : 0 <= c < 1024) by (unfold c in *; lia). rewrite drop_replicate. set (base := replicate (Z.to_nat c) FULL ++ _).
    assert (Hlen : length base = Z.to_nat 1024) by (unfold base; rewrite length_app, !length_replicate; lia).
    assert (Hbase : forall q, (q < Z.to_nat 1024)%nat -> base !! q = Some (if decide (q < Z.to_nat c)%nat then FULL else 0)).
    { intros q Hq. unfold base. destruct (decide (q < Z.to_nat c)%nat).
      - rewrite lookup_app_l by (rewrite length_replicate; lia). by apply lookup_replicate_2.
      - rewrite lookup_app_r by (rewrite length_replicate; lia). apply lookup_replicate_2. rewrite length_replicate. lia. }
    assert (Hwf : Forall word base) by (unfold base; apply Forall_app; split; by apply Forall_replicate).
    destruct (Z.eqb_spec (r mod 32) 0) as [E0|E0].
    + exists base. split; [done|]. split; [lia|]. split; [done|]. intros j k w Hj Hk. rewrite Hbase by lia. intros [= <-].
      destruct (decide _) as [Hlt|Hge]; [rewrite full_bit by done; symmetry; apply Z.ltb_lt; lia|rewrite Z.bits_0; symmetry; apply Z.ltb_ge; lia].
    + rewrite Hbase by lia. rewrite decide_False by lia. cbn [mbind option_bind].
      destruct (reserve_bits_spec (Z.to_nat (r mod 32)) 0 Hz ltac:(lia)) as [Hrw Hrb]. eexists. split; [done|]. rewrite length_insert. split; [lia|]. split; [by apply Forall_insert|].
      intros j k w Hj Hk. destruct (decide (j = c)) as [->|Hne].
      * rewrite list_lookup_insert_eq by lia. intros [= <-]. rewrite Hrb, Z.bits_0, Z2Nat.id by lia. simpl.
        destruct (Z.ltb_spec k (r mod 32)), (Z.ltb_spec (k + c * 32) r); done || lia.
      * rewrite list_lookup_insert_ne, Hbase by lia. intros [= <-].
        destruct (decide _) as [Hlt|Hge]; [rewrite full_bit by done; symmetry; apply Z.ltb_lt; lia|rewrite Z.bits_0; symmetry; apply Z.ltb_ge; lia].
Qed.

Lemma format_loop_spec cnt n : forall s i r,
  0 <= i -> Z.of_nat (length (block s)) = i + Z.of_nat n -> (i + Z.of_nat n) * OS_BLOCK_SIZE <= cnt -> 0 <= r <= BLOCK_BITS - 32 ->
  exists s', format_loop n s i r cnt = Some (0, s') /\ numBlocks s' = numBlocks s /\ numBits s' = numBits s /\ lastAlloc s' = lastAlloc s /\
    length (block s') = length (block s) /\ (forall p, Z.of_nat p < i -> block s' !! p = block s !! p) /\
    (forall p, i <= p < i + Z.of_nat n -> exists buf, block s' !! Z.to_nat p = Some buf /\ formatBlock (if p =? i then r else 0) = Some buf).
Proof.
  induction n as [|n IH]; intros s i r Hi Hl Hc Hr; cbn [format_loop].
  - exists s. split_and!; try done. intros p Hp. lia.
  - unfold OS_BLOCK_SIZE in *. rewrite (proj2 (Z.ltb_ge cnt ((i + 1) * 4096))) by lia. destruct (formatBlock_spec r Hr) as (buf & Eb & _). rewrite Eb. cbn [mbind option_bind].
    destruct (IH (set_block s i buf) (i + 1) 0) as (s' & -> & E1 & E2 & E3 & E4 & E5 & E6); [lia|simpl; rewrite length_insert; lia|lia|unfold BLOCK_BITS, OS_BLOCK_SIZE in *; lia|].
    simpl in *. rewrite length_insert in E4. exists s'. split_and!; try done.
    + intros p Hp. rewrite E5 by lia. rewrite list_lookup_insert_ne by lia. done.
    + intros p Hp. destruct (Z.eqb_spec p i) as [->|Hne].
      * exists buf. split; [|done]. rewrite E5 by lia. apply list_lookup_insert_eq. lia.
      * destruct (E6 p ltac:(lia)) as (buf' & Hb' & Ef). exists buf'. split; [done|]. by destruct (p =? i + 1).
Qed.

(** A formatted map: the reserved blocks are in use, and no others. *)
Lemma format_spec s r cnt :
  0 < numBlocks s -> Z.of_nat (length (block s)) = numBlocks s -> numBlocks s * OS_BLOCK_SIZE <= cnt -> 0 <= r <= BLOCK_BITS - 32 ->
  exists s', format s r cnt = Some (0, s') /\ shape (block s') (numBlocks s) /\ numBlocks s' = numBlocks s /\ numBits s' = numBits s /\ lastAlloc s' = lastAlloc s /\
    forall b, 0 <= b < numBlocks s * BLOCK_BITS -> bit (block s') b = (b <? r).
Proof.
  intros H0 Hl Hc Hr. assert (Hbb : BLOCK_BITS = 32768) by done. assert (Hbw : BLOCK_WORDS = 1024) by done.
  destruct (format_loop_spec cnt (Z.to_nat (numBlocks s)) s 0 r) as (s' & E & E1 & E2 & E3 & E4 & _ & E6); [lia|lia|unfold OS_BLOCK_SIZE in *; lia|done|].
  exists s'. split; [exact E|]. split_and!; try done.
  - split; [lia|]. apply Forall_lookup. intros p buf Hp. pose proof (lookup_lt_Some _ _ _ Hp). destruct (E6 (Z.of_nat p) ltac:(lia)) as (buf' & Hb & Ef).
    rewrite Nat2Z.id, Hp in Hb. injection Hb as <-. destruct (formatBlock_spec (if Z.of_nat p =? 0 then r else 0)) as (b2 & Ef2 & H1 & H2 & _); [destruct (_ =? _); lia|]. by simplify_eq.
  - intros b Hb. destruct (addr_split b ltac:(lia)) as (i & j & k & -> & Hi & Hj & Hk). destruct (E6 i ltac:(lia)) as (buf & Hbuf & Ef).
    destruct (formatBlock_spec (if i =? 0 then r else 0)) as (b2 & Ef2 & H1 & H2 & H3); [destruct (_ =? _); lia|]. rewrite Ef in Ef2. injection Ef2 as <-.
    destruct (buf_word buf j H1 H2 Hj) as (w & Hw & _). rewrite (bit_at _ i j k buf w), (H3 j k w) by (done || lia).
    destruct (Z.eqb_spec i 0) as [->|Hne]; [by rewrite Z.add_0_r|]. destruct (Z.ltb_spec (k + j * 32) 0), (Z.ltb_spec (k + j * 32 + i * BLOCK_BITS) r); done || lia.
Qed.


(** ** The blocks in use *)

(** All blocks of a disk of [n] blocks, and the lowest that is not in use. *)
Definition disk (n : Z) : gset Z := list_to_set (seqZ 0 n).
Definition lowest (used : gset Z) (n : Z) : option Z := snd <$> list_find (fun b => b ∉ used) (seqZ 0 n).

Record Inv (s : SuperBlock) (used : gset Z) (n nb r : Z) : Prop := {
  v_shape : shape (block (bmap s)) nb;
  v_num : numBlocks (bmap s) = nb;
  v_bitsn : numBits (bmap s) = nb * BLOCK_BITS;
  v_disk : diskBlocks s = n;
  v_n : 0 < r <= n /\ n <= nb * BLOCK_BITS /\ n < 2 ^ 32 - 1;
  v_bits : forall b, 0 <= b < nb * BLOCK_BITS -> bit (block (bmap s)) b = bool_decide (b ∈ used);
  v_used : used ⊆ disk n;
  v_reserved : forall b, 0 <= b < r -> b ∈ used;
  v_free : freeBlocks s = n - Z.of_nat (size used);
  v_hint : 0 <= lastAlloc (bmap s) /\ forall b, 0 <= b < lastAlloc (bmap s) / BLOCK_BITS * BLOCK_BITS -> b ∈ used;
}.

Lemma elem_disk n b : b ∈ disk n <-> 0 <= b < n.
Proof. unfold disk. rewrite elem_of_list_to_set, elem_of_seqZ. lia. Qed.

Lemma size_disk n : 0 <= n -> size (disk n) = Z.to_nat n.
Proof. intros Hn. unfold disk. rewrite size_list_to_set by apply NoDup_seqZ. by rewrite length_seqZ. Qed.

Lemma lowest_some used n b : lowest used n = Some b -> 0 <= b < n /\ b ∉ used /\ forall c, 0 <= c < b -> c ∈ used.
Proof.
  unfold lowest. destruct (list_find _ _) as [[p x]|] eqn:E; [|done]. intros [= <-]. apply list_find_Some in E as (Hx & Hn & Hlt).
  apply lookup_seqZ in Hx as [-> Hp]. split; [lia|]. split; [done|]. intros c Hc. destruct (decide (c ∈ used)); [done|].
  exfalso. apply (Hlt (Z.to_nat c) c); [apply lookup_seqZ; lia|lia|done].
Qed.

Lemma lowest_none used n : lowest used n = None -> disk n ⊆ used.
Proof.
  unfold lowest. destruct (list_find _ _) as [|] eqn:E; [done|]. intros _ b Hb. apply list_find_None in E. rewrite Forall_forall in E.
  destruct (decide (b ∈ used)); [done|]. exfalso. apply (E b); [|done]. unfold disk in Hb. by rewrite elem_of_list_to_set in Hb.
Qed.

Lemma alloc_exact s used n nb r :
  Inv s used n nb r ->
  match lowest used n with
  | Some b => exists s', allocBlock s = Some (b, s') /\ Inv s' ({[b]} ∪ used) n nb r
  | None => allocBlock s = None
  end.
Proof.
  intros [H1 H2 H3 H4 (Hr & Hn & H32) H5 H6 H7 H8 [H9 H10]]. unfold allocBlock.
  assert (Hbb : BLOCK_BITS = 32768) by done. pose proof (size_disk n ltac:(lia)) as Hsz. pose proof (subseteq_size _ _ H6) as Hle.
  destruct (lowest used n) as [b|] eqn:El.
  2:{ apply lowest_none in El. pose proof (subseteq_size _ _ El). rewrite H8. replace (n - Z.of_nat (size used)) with 0 by lia. done. }
  apply lowest_some in El as (Hb & Hnb & Hlow). assert (Hb0 : r <= b) by (destruct (Z_lt_le_dec b r); [exfalso; apply Hnb, H7; lia|done]).
  assert (Hu : {[b]} ∪ used ⊆ disk n) by (apply union_subseteq; split; [apply singleton_subseteq_l, elem_disk; lia|done]).
  assert (Hsz2 : size ({[b]} ∪ used) = S (size used)) by (rewrite size_union, size_singleton; [done|]; intros x ->%elem_of_singleton; done).
  pose proof (subseteq_size _ _ Hu) as Hsu. rewrite Hsz2 in Hsu.
  rewrite assertK_true by (rewrite (proj2 (Z.eqb_neq _ 0)) by lia; done). cbn [mbind option_bind].
  destruct (allocOne_finds (bmap s) nb b H1 H2 ltac:(lia)) as (m & -> & S1 & S2 & S3 & S4 & S5); try lia.
  - rewrite H5, bool_decide_eq_false_2 by (done || lia). done.
  - intros c Hc. rewrite H5, bool_decide_eq_true_2; [done|apply Hlow|]; lia.
  - destruct (Z_le_gt_dec (lastAlloc (bmap s) / BLOCK_BITS * BLOCK_BITS) b); [done|]. exfalso. apply Hnb, H10. lia.
  - cbn [mbind option_bind]. rewrite assertK_true by (apply Z.ltb_lt; lia). cbn [mbind option_bind]. eexists. split; [done|]. split; simpl; try done.
    + congruence.
    + intros c Hc. rewrite S5 by lia. destruct (decide (c = b)) as [->|Hne]; [by rewrite bool_decide_eq_true_2 by set_solver|].
      rewrite H5 by done. apply bool_decide_ext. set_solver.
    + intros c Hc. apply elem_of_union_r, H7, Hc.
    + unfold u32. rewrite Hsz2, Z.mod_small by lia. lia.
    + rewrite S4, H3. split; [apply Z.mod_pos_bound; lia|]. intros c Hc.
      assert (Hcb : c <= b). { pose proof (Z.mod_le (b + 1) (nb * BLOCK_BITS) ltac:(lia) ltac:(lia)). pose proof (Z.mul_div_le ((b + 1) mod (nb * BLOCK_BITS)) BLOCK_BITS ltac:(lia)). lia. }
      destruct (decide (c = b)) as [->|]; [set_solver|]. apply elem_of_union_r, Hlow. lia.
Qed.

Lemma free_exact {A} (cache : gmap Z A) s used n nb r b :
  Inv s used n nb r -> r <= b -> b ∈ used -> exists s', freeBlock cache s b = Some (0, s', forget cache b) /\ Inv s' (used ∖ {[b]}) n nb r.
Proof.
  intros [H1 H2 H3 H4 (Hr & Hn & H32) H5 H6 H7 H8 [H9 H10]] Hrb Hb. unfold freeBlock. assert (Hbb : BLOCK_BITS = 32768) by done.
  assert (Hbn : 0 <= b < n) by (by apply elem_disk, H6). pose proof (size_disk n ltac:(lia)) as Hsz. pose proof (subseteq_size _ _ H6) as Hle.
  rewrite H4, assertK_true by (rewrite (proj2 (Z.eqb_neq b 0)), (proj2 (Z.ltb_ge n b)) by lia; done). cbn [mbind option_bind].
  destruct (free_one (bmap s) nb b H1 H2) as (m & -> & S1 & S2 & S3 & S4 & S5); [lia|lia|]. cbn [mbind option_bind]. eexists. split; [done|].
  assert (Hsz' : Z.of_nat (size (used ∖ {[b]})) = Z.of_nat (size used) - 1).
  { rewrite size_difference, size_singleton by (by apply singleton_subseteq_l). pose proof (subseteq_size {[b]} used ltac:(by apply singleton_subseteq_l)) as Hone. rewrite size_singleton in Hone. lia. }
  split; simpl; try done.
  - congruence.
  - intros c Hc. rewrite S5 by lia. destruct (decide (c = b)) as [->|Hne]; [by rewrite bool_decide_eq_false_2 by set_solver|].
    rewrite H5 by done. apply bool_decide_ext. set_solver.
  - set_solver.
  - intros c Hc. apply elem_of_difference. split; [by apply H7|]. rewrite elem_of_singleton. lia.
  - unfold u32. rewrite Z.mod_small by lia. lia.
  - rewrite S4. split; [lia|]. intros c Hc. pose proof (Z.mul_div_le (Z.min b (lastAlloc (bmap s))) BLOCK_BITS ltac:(lia)).
    pose proof (Z.div_le_mono (Z.min b (lastAlloc (bmap s))) (lastAlloc (bmap s)) BLOCK_BITS ltac:(lia) ltac:(lia)).
    apply elem_of_difference. split; [apply H10; lia|]. rewrite elem_of_singleton. lia.
Qed.

(** ** Sequences of operations *)

Inductive op := AllocBlock | FreeBlock (b : Z).
#[export] Instance op_eq_dec : EqDecision op.
Proof. solve_decision. Defined.

Section sequences.
Context {A : Type}.

Definition exec (o : op) (s : SuperBlock) (c : gmap Z A) : option (Z * SuperBlock * gmap Z A) :=
  match o with AllocBlock => '(b, s) ← allocBlock s; Some (b, s, c) | FreeBlock b => freeBlock c s b end.

(** On the set of blocks in use: the lowest free block, or none. *)
Definition spec (n : Z) (o : op) (used : gset Z) : option (Z * gset Z) :=
  match o with
  | AllocBlock => b ← lowest used n; Some (b, {[b]} ∪ used)
  | FreeBlock b => Some (0, used ∖ {[b]})
  end.

Fixpoint run (os : list op) (s : SuperBlock) (c : gmap Z A) : option (list Z * SuperBlock * gmap Z A) :=
  match os with
  | [] => Some ([], s, c)
  | o :: os => '(a, s, c) ← exec o s c; '(l, s, c) ← run os s c; Some (a :: l, s, c)
  end.

Fixpoint spec_run (n : Z) (os : list op) (used : gset Z) : option (list Z * gset Z) :=
  match os with
  | [] => Some ([], used)
  | o :: os => '(a, used) ← spec n o used; '(l, used) ← spec_run n os used; Some (a :: l, used)
  end.

(** Only blocks in use that are not reserved are freed. *)
Fixpoint frees_held (n r : Z) (os : list op) (used : gset Z) : Prop :=
  match os with
  | [] => True
  | o :: os => match o with AllocBlock => True | FreeBlock b => r <= b /\ b ∈ used end /\
      match spec n o used with Some (_, used) => frees_held n r os used | None => True end
  end.

(** The cache keeps the entries of the blocks that were not freed. *)
Definition forgotten (os : list op) (c c' : gmap Z A) : Prop := forall b, c' !! b = if decide (FreeBlock b ∈ os) then None else c !! b.

Lemma forgotten_cons o os c c1 c2 :
  c1 = match o with AllocBlock => c | FreeBlock b => forget c b end -> forgotten os c1 c2 -> forgotten (o :: os) c c2.
Proof.
  intros -> H b. rewrite H. destruct (decide (FreeBlock b ∈ os)) as [Hb|Hb]; [by rewrite decide_True by (by right)|]. destruct o as [|x]; [by rewrite decide_False by (by intros [?|?]%elem_of_cons)|].
  unfold forget. destruct (decide (x = b)) as [->|Hne]; [rewrite lookup_delete_eq, decide_True by left; done|]. rewrite lookup_delete_ne by done. rewrite decide_False by (intros [?|?]%elem_of_cons; congruence). done.
Qed.

Lemma sb_run_refines n nb r os : forall s c used,
  Inv s used n nb r -> frees_held n r os used ->
  match spec_run n os used with
  | Some (l, used') => exists s' c', run os s c = Some (l, s', c') /\ Inv s' used' n nb r /\ forgotten os c c'
  | None => run os s c = None
  end.
Proof.
  induction os as [|o os IH]; intros s c used HI Hp; cbn [run spec_run frees_held] in *; [by exists s, c|]. destruct Hp as [Ho Hp].
  assert (Hstep : match spec n o used with
    | Some (a, used') => exists s' c', exec o s c = Some (a, s', c') /\ Inv s' used' n nb r /\ c' = match o with AllocBlock => c | FreeBlock b => forget c b end
    | None => exec o s c = None end).
  { destruct o as [|b]; simpl.
    - pose proof (alloc_exact s used n nb r HI) as H. destruct (lowest used n); cbn [mbind option_bind]; [|by rewrite H]. destruct H as (s' & -> & HI'). cbn [mbind option_bind]. by exists s', c.
    - destruct Ho as [Hr Hb]. destruct (free_exact c s used n nb r b HI Hr Hb) as (s' & E & HI'). by exists s', (forget c b). }
  destruct (spec n o used) as [[a used1]|]; cbn [mbind option_bind]; [|by rewrite Hstep].
  destruct Hstep as (s1 & c1 & -> & HI1 & Ec). cbn [mbind option_bind]. specialize (IH s1 c1 used1 HI1 Hp). destruct (spec_run n os used1) as [[l used2]|]; cbn [mbind option_bind].
  - destruct IH as (s2 & c2 & -> & HI2 & Hf). exists s2, c2. split_and!; try done. by apply (forgotten_cons o os c c1).
  - by rewrite IH.
Qed.

End sequences.

Lemma CEIL_bounds n : 0 < n < 2 ^ 32 -> (CEIL n (4096 * 8) - 1) * BLOCK_BITS < n <= CEIL n (4096 * 8) * BLOCK_BITS.
Proof.
  intros Hn. unfold CEIL, BLOCK_BITS, OS_BLOCK_SIZE. change (4096 * 8) with 32768. rewrite uadd_small, usub_small by lia.
  pose proof (Z.div_mod (n + 32768 - 1) 32768 ltac:(lia)). pose proof (Z.mod_pos_bound (n + 32768 - 1) 32768 ltac:(lia)). lia.
Qed.

(** The reserved blocks: the boot block, two super blocks and the map. *)
Definition reserved (n : Z) : Z := CEIL n (4096 * 8) + BLKBIT_BLOCK.

(** The array of the super block has room for the map of a disk of this size, 126
    gigabytes. *)
Definition LARGEST : Z := SB_SLOTS * BLOCK_BITS.

Lemma set_blockMap_spec k : forall slots i,
  0 <= i -> i + Z.of_nat k < 2 ^ 31 ->
  if decide (i + Z.of_nat k <= Z.of_nat (length slots))
  then exists slots', set_blockMap k slots i = Some slots' /\
    forall j, slots' !! j = if decide (i <= Z.of_nat j < i + Z.of_nat k) then Some (Z.of_nat j + BLKBIT_BLOCK) else slots !! j
  else k <> O -> set_blockMap k slots i = None.
Proof.
  induction k as [|k IH]; intros slots i Hi Hlt; cbn [set_blockMap].
  - destruct (decide _); [|done]. exists slots. split; [done|]. intros j. by rewrite decide_False by lia.
  - specialize (IH (<[Z.to_nat i := u32 (i + BLKBIT_BLOCK)]> slots) (i + 1) ltac:(lia) ltac:(lia)). rewrite length_insert in IH.
    destruct (decide (i + Z.of_nat (S k) <= Z.of_nat (length slots))) as [Hl|Hl].
    + rewrite decide_True in IH by lia. destruct (lookup_lt_is_Some_2 slots (Z.to_nat i)) as [x ->]; [lia|]. cbn [mbind option_bind]. destruct IH as (slots' & -> & H). exists slots'. split; [done|]. intros j. rewrite H.
      destruct (decide (Z.of_nat j = i)) as [<-|Hne].
      * rewrite decide_False, decide_True, Nat2Z.id, list_lookup_insert_eq by lia. unfold u32, BLKBIT_BLOCK. by rewrite Z.mod_small by lia.
      * rewrite list_lookup_insert_ne by lia. destruct (decide (i + 1 <= _ < _)); [by rewrite decide_True by lia|by rewrite decide_False by lia].
    + intros _. rewrite decide_False in IH by lia. destruct (slots !! Z.to_nat i) as [x|] eqn:E; [|done]. cbn [mbind option_bind]. apply IH. apply lookup_lt_Some in E. lia.
Qed.

(** The first slots of the array hold the numbers of the blocks of the map. *)
Definition listed (s : SuperBlock) (nb : Z) : Prop := forall i, 0 <= i < nb -> blockMapBlocks s !! Z.to_nat i = Some (i + BLKBIT_BLOCK).

Lemma formatDisk_listed n d :
  4096 <= n <= LARGEST -> Z.of_nat (length d) = CEIL n (4096 * 8) ->
  exists s, formatDisk n d = Some (0, s) /\ Inv s (disk (reserved n)) n (CEIL n (4096 * 8)) (reserved n) /\ listed s (CEIL n (4096 * 8)).
Proof.
  change LARGEST with 33030144. intros Hn Hd. pose proof (CEIL_bounds n ltac:(lia)) as Hc. unfold formatDisk, reserved, BLKBIT_BLOCK. rewrite assertK_true by (rewrite (proj2 (Z.eqb_neq n 0)) by lia; done). cbn [mbind option_bind].
  cbv zeta. set (nb := CEIL n (4096 * 8)) in *. change (numBlocks (newBlockMap n d)) with nb.
  assert (Hbb : BLOCK_BITS = 32768) by done. assert (Hos : OS_BLOCK_SIZE = 4096) by done.
  assert (Hnb : 0 < nb <= 1008) by lia. assert (Hle : nb * 4096 <= n) by lia.
  pose proof (set_blockMap_spec (Z.to_nat nb) (replicate (Z.to_nat SB_SLOTS) 0) 0 ltac:(lia) ltac:(lia)) as Hsm. rewrite decide_True in Hsm by (rewrite length_replicate; change (Z.to_nat SB_SLOTS) with 1008%nat; lia).
  destruct Hsm as (slots & -> & Hsm). cbn [mbind option_bind].
  destruct (format_spec (newBlockMap n d) (nb + 3) n) as (m & E & S1 & S2 & S3 & S4 & S5); simpl; fold nb; [lia|lia|lia|lia|].
  simpl in E, S1, S2, S3, S4, S5. fold nb in E, S1, S2, S3, S5. simpl. fold nb. rewrite E. cbn [mbind option_bind]. rewrite S2. eexists. split; [done|].
  split; [|intros i Hi; simpl; rewrite Hsm, decide_True, Z2Nat.id by lia; done]. split; simpl; try done.
  - rewrite S3, umul_small by lia. lia.
  - lia.
  - intros b Hb. rewrite S5 by lia. destruct (Z.ltb_spec b (nb + 3)); symmetry; [apply bool_decide_eq_true_2|apply bool_decide_eq_false_2]; rewrite elem_disk; lia.
  - intros b. rewrite !elem_disk. lia.
  - intros b Hb. apply elem_disk. lia.
  - rewrite size_disk by lia. unfold u32. rewrite Z.mod_small by lia. lia.
  - rewrite S4. split; [lia|]. intros b Hb. change (0 / BLOCK_BITS) with 0 in Hb. lia.
Qed.

Lemma formatDisk_inv n d :
  4096 <= n <= LARGEST -> Z.of_nat (length d) = CEIL n (4096 * 8) ->
  exists s, formatDisk n d = Some (0, s) /\ Inv s (disk (reserved n)) n (CEIL n (4096 * 8)) (reserved n).
Proof. intros Hn Hd. destruct (formatDisk_listed n d Hn Hd) as (s & E & HI & _). by exists s. Qed.


Definition blankMap : list (list Z) := [replicate (Z.to_nat BLOCK_WORDS) 0].
Definition errands : list op := [AllocBlock; AllocBlock; AllocBlock; FreeBlock 5; AllocBlock; AllocBlock].


(** ** What the code does beyond this *)

(** A run of blocks that crosses a word of the map is not freed: the shift that makes
    its mask is undefined, and nothing is left of the length for the next word. *)
Lemma free_straddles : ('(_, s) ← formatDisk 5000 blankMap; free (bmap s) 30 4) = None.
Proof. by vm_compute. Qed.

(** The block after the last one may be freed, and is counted. *)
Lemma free_past_disk :
  ('(_, s) ← formatDisk 5000 blankMap; '(rc, s', _) ← freeBlock (∅ : gmap Z Z) s 5000; Some (rc, freeBlocks s, freeBlocks s')) = Some (0, 4996, 4997).
Proof. by vm_compute. Qed.

(** A disk of less than 4096 blocks is refused: a number of blocks is compared with a
    number of bytes. *)
Lemma small_disk_refused n d : 0 < n < 4096 -> Z.of_nat (length d) = 1 -> fst <$> formatDisk n d = Some (_SERROR 2802 0 0).
Proof.
  intros Hn Hd. pose proof (CEIL_bounds n ltac:(lia)) as Hc. assert (Hbb : BLOCK_BITS = 32768) by done.
  assert (Ec : CEIL n (4096 * 8) = 1) by lia. unfold formatDisk, format, newBlockMap. rewrite assertK_true by (rewrite (proj2 (Z.eqb_neq n 0)) by lia; done). cbn [mbind option_bind numBlocks]. rewrite Ec.
  change (set_blockMap _ _ 0) with (Some (3 :: replicate 1007 0)). cbn [mbind option_bind]. change (Z.to_nat 1) with 1%nat. cbn [format_loop]. rewrite (proj2 (Z.ltb_lt n ((0 + 1) * OS_BLOCK_SIZE))) by (unfold OS_BLOCK_SIZE; lia). done.
Qed.

(** Formatting a larger disk stores past the end of the super block. *)
Lemma large_disk_overruns n d : LARGEST < n < 2 ^ 32 -> formatDisk n d = None.
Proof.
  change LARGEST with 33030144. intros Hn. pose proof (CEIL_bounds n ltac:(lia)) as Hc. assert (Hbb : BLOCK_BITS = 32768) by done. unfold formatDisk.
  rewrite assertK_true by (rewrite (proj2 (Z.eqb_neq n 0)) by lia; done). cbn [mbind option_bind]. cbv zeta. change (numBlocks (newBlockMap n d)) with (CEIL n (4096 * 8)).
  pose proof (set_blockMap_spec (Z.to_nat (CEIL n (4096 * 8))) (replicate (Z.to_nat SB_SLOTS) 0) 0 ltac:(lia) ltac:(lia)) as H. rewrite decide_False in H by (rewrite length_replicate; change (Z.to_nat SB_SLOTS) with 1008%nat; lia).
  rewrite H by lia. done.
Qed.

End SuperBlock.
