(* ===== verification/PSOSmall.v ===== *)
(** * PSOSmall: the blocks of a KFS file, os/servers/kfs/PSOSmall.C, PSOSmall.H

    The record of a file has the numbers of 25 data blocks and of the roots of
    three trees, of one, two and three levels of indirect blocks.  A logical block
    is found by a path of offsets through them; blocks are taken from and given
    back to the super block of SuperBlock.v.

    The contents of indirect blocks are a map from block numbers, as the block cache
    gives them; of data blocks only the number is modelled.  The super block has the
    cache forget a block that is freed, and a block that is released must be in the
    cache: BlockCacheK42::freeBlock asserts it and then uses its entry.  Locks, dirty
    marks and the counts of users of cached blocks are left out. *)

From stdpp Require Import base numbers option gmap list.
From S2P Require Import K42 Prelude DirBlock SuperBlock.

Module PSOSmall.

Import SuperBlock.

Definition PSO_SMALL_RECORD_MAXBLK : Z := 25.
Definition PSO_SMALL_DIRECT_MAXBLK : Z := 1024.
Definition PSO_SMALL_DIRECT_BITS : Z := 10.
Definition PSO_SMALL_MAXBLK : Z :=
  PSO_SMALL_RECORD_MAXBLK + Z.shiftl 1 PSO_SMALL_DIRECT_BITS + Z.shiftl 1 (2 * PSO_SMALL_DIRECT_BITS) + Z.shiftl 1 (3 * PSO_SMALL_DIRECT_BITS).

(** [dBlk] is the record: the direct pointers and the three that follow them. *)
Record state := mkState { dBlk : list Z; cache : gmap Z (list Z); super : SuperBlock }.

(** ** Paths *)

Definition blockToPath (lblkno : Z) : option (list Z) :=
  let ptrs := PSO_SMALL_DIRECT_MAXBLK in
  let bits := PSO_SMALL_DIRECT_BITS in
  let double := Z.shiftl 1 (bits * 2) in
  if lblkno <? PSO_SMALL_RECORD_MAXBLK then Some [lblkno]
  else
    let l := lblkno - PSO_SMALL_RECORD_MAXBLK in
    if l <? ptrs then Some [PSO_SMALL_RECORD_MAXBLK; l]
    else
      let l := l - ptrs in
      if l <? double then Some [PSO_SMALL_RECORD_MAXBLK + 1; Z.shiftr l bits; Z.land l (ptrs - 1)]
      else
        let l := l - double in
        if Z.shiftr l (bits * 2) <? ptrs
        then Some [PSO_SMALL_RECORD_MAXBLK + 2; Z.shiftr l (bits * 2); Z.land (Z.shiftr l bits) (ptrs - 1); Z.land l (ptrs - 1)]
        else None.

(** ** Pointers *)

(** The pointers of the record, or of an indirect block. *)
Definition ptrsOf (s : state) (cur : option Z) : option (list Z) :=
  match cur with None => Some (dBlk s) | Some b => cache s !! b end.

Definition getPtr (s : state) (cur : option Z) (o : Z) : option Z := ws ← ptrsOf s cur; ws !! Z.to_nat o.

Definition setPtr (s : state) (cur : option Z) (o p : Z) : option state :=
  match cur with
  | None => Some (mkState (<[Z.to_nat o := p]> (dBlk s)) (cache s) (super s))
  | Some b => ws ← cache s !! b; Some (mkState (dBlk s) (<[b := <[Z.to_nat o := p]> ws]> (cache s)) (super s))
  end.

Definition zeros : list Z := replicate (Z.to_nat PSO_SMALL_DIRECT_MAXBLK) 0.

(** A block is allocated for a pointer; an indirect one is cleared. *)
Definition newPtr (s : state) (cur : option Z) (o : Z) (indirect : bool) : option (Z * state) :=
  '(b, sb) ← allocBlock (super s);
  s ← setPtr (mkState (dBlk s) (cache s) sb) cur o b;
  Some (b, if indirect then mkState (dBlk s) (<[b := zeros]> (cache s)) (super s) else s).

(** while (depth--) { ... } *)
Fixpoint get_loop (offsets : list Z) (s : state) (cur : option Z) (create : bool) : option (Z * state) :=
  match offsets with
  | [] => Some (0, s)
  | o :: rest =>
      p ← getPtr s cur o;
      if (p =? 0) && negb create then Some (0, s)
      else
        '(p, s) ← (if p =? 0 then newPtr s cur o (negb (bool_decide (rest = []))) else Some (p, s));
        match rest with
        | [] => Some (p, s)
        | _ => get_loop rest s (Some p) create
        end
  end.

Definition getDblk (s : state) (lblkno : Z) (create : bool) : option (Z * state) :=
  offsets ← blockToPath lblkno; get_loop offsets s None create.

(** for (n = 0; n < depth; n++): where the pointers of the path are, as far as the blocks
    were read, and whether none is 0. *)
Fixpoint descend (offsets : list Z) (s : state) (cur : option Z) : option (bool * list (option Z * Z)) :=
  match offsets with
  | [] => Some (true, [])
  | o :: rest =>
      p ← getPtr s cur o;
      if p =? 0 then Some (false, [(cur, o)])
      else
        match rest with
        | [] => Some (true, [(cur, o)])
        | _ => '(found, l) ← descend rest s (Some p); Some (found, (cur, o) :: l)
        end
  end.

Definition allZero (ws : list Z) : bool := forallb (fun p => p =? 0) ws.

(** globals->super->freeBlock of the block of a pointer, which is then cleared. *)
Definition freePtr (s : state) (cur : option Z) (o p : Z) : option state :=
  '(_, sb, c) ← freeBlock (cache s) (super s) p;
  setPtr (mkState (dBlk s) c sb) cur o 0.

(** while (depth--) { ... }, from the last pointer of the path to the first; [false]
    is goto out. *)
Fixpoint free_up (path : list (option Z * Z)) (s : state) : option (bool * state) :=
  match path with
  | [] => Some (true, s)
  | (cur, o) :: path =>
      p ← getPtr s cur o;
      if p =? 0 then Some (false, s)
      else
        s ← freePtr s cur o p;
        match cur with
        | None => free_up path s
        | Some _ => ws ← ptrsOf s cur; if allZero ws then free_up path s else Some (false, s)
        end
  end.

(** BlockCacheK42::freeBlock: the block must be there. *)
Definition release (s : state) (b : Z) : option unit := assertK (bool_decide (is_Some (cache s !! b))).

(** for (n = 0; n < 4; n++) if (blocks[n]) globals->blkCache->freeBlock(blocks[n]); *)
Fixpoint releaseAll (s : state) (blocks : list (option Z)) : option unit :=
  match blocks with
  | [] => Some tt
  | None :: blocks => releaseAll s blocks
  | Some b :: blocks => _ ← release s b; releaseAll s blocks
  end.

Definition freeDblk (s : state) (lblkno : Z) : option state :=
  offsets ← blockToPath lblkno;
  '(found, path) ← descend offsets s None;
  s ← (if (found : bool) then '(_, s) ← free_up (rev path) s; Some s else Some s);
  _ ← releaseAll s path.*1;
  Some s.

(** ** truncate *)

(** The loop has a depth, the offsets of all levels, the array of the blocks that are
    held, one for each level, and the pointers it looks at. *)
Record sweep := mkSweep { depth : Z; offsets : list Z; blocks : list (option Z); dblk : option Z; mem : state }.

(** for (i = 0; i < depth; i++): the blocks along the path, the data block at its end
    too; [None] is a store past the end of the array. *)
Fixpoint get_buffers (path : list Z) (deep : bool) (i : nat) (s : state) (cur : option Z) (bs : list (option Z)) : option (list (option Z)) :=
  match path with
  | [] => Some bs
  | o :: path =>
      p ← getPtr s cur o;
      if p =? 0 then Some bs
      else if deep then
        if bool_decide (S i < length bs)%nat then get_buffers path deep (S i) s (Some p) (<[S i := Some p]> bs) else None
      else get_buffers path deep (S i) s cur bs
  end.

Definition endOfBlock (w : sweep) : option sweep :=
  let d := Z.to_nat (depth w) in
  ws ← ptrsOf (mem w) (dblk w);
  let unused := allZero (take (Z.to_nat PSO_SMALL_DIRECT_MAXBLK) ws) in
  _ ← assertK (negb (unused && bool_decide (length ws < Z.to_nat PSO_SMALL_DIRECT_MAXBLK)%nat));
  _ ← match blocks w !! d with Some (Some b) => release (mem w) b | _ => Some tt end;
  let bs := <[d := None]> (blocks w) in
  let offs := <[d := 0]> (offsets w) in
  let d := depth w - 1 in
  cur ← (if d =? 0 then Some None else b ← bs !! Z.to_nat d; b' ← b; Some (Some b'));
  o ← offs !! Z.to_nat d;
  p ← getPtr (mem w) cur o;
  s ← (if unused && negb (p =? 0)
       then freePtr (mem w) cur o p
       else Some (mem w));
  Some (mkSweep d (<[Z.to_nat d := o + 1]> offs) bs cur s).

Definition atLeaf (w : sweep) : option sweep :=
  let d := Z.to_nat (depth w) in
  o ← offsets w !! d;
  p ← getPtr (mem w) (dblk w) o;
  s ← (if p =? 0 then Some (mem w) else freePtr (mem w) (dblk w) o p);
  Some (mkSweep (depth w) (<[d := o + 1]> (offsets w)) (blocks w) (dblk w) s).

Definition atInternal (w : sweep) : option sweep :=
  let d := Z.to_nat (depth w) in
  o ← offsets w !! d;
  p ← getPtr (mem w) (dblk w) o;
  if p =? 0 then Some (mkSweep (depth w) (<[d := o + 1]> (offsets w)) (blocks w) (dblk w) (mem w))
  else
    _ ← cache (mem w) !! p;
    _ ← offsets w !! S d;
    Some (mkSweep (depth w + 1) (<[S d := 0]> (offsets w)) (<[S d := Some p]> (blocks w)) (Some p) (mem w)).

(** One round of the loop; [inr] is its end, where the blocks that are held are released. *)
Definition sweep_step (w : sweep) : option (sweep + state) :=
  o0 ← offsets w !! 0%nat;
  if o0 <? PSO_SMALL_RECORD_MAXBLK + 3 then
    od ← offsets w !! Z.to_nat (depth w);
    w ← (if negb (depth w =? 0) && (od =? PSO_SMALL_DIRECT_MAXBLK) then endOfBlock w
         else if (o0 <? PSO_SMALL_RECORD_MAXBLK) || (o0 + 1 - PSO_SMALL_RECORD_MAXBLK =? depth w) then atLeaf w
         else atInternal w);
    Some (inl w)
  else _ ← releaseAll (mem w) (blocks w); Some (inr (mem w)).

(** Up to 2 ^ k rounds. *)
Fixpoint rounds (k : nat) (w : sweep) : option (sweep + state) :=
  match k with
  | O => sweep_step w
  | S k =>
      r ← rounds k w;
      match r with inl w => rounds k w | inr s => Some (inr s) end
  end.

Definition ROUNDS : nat := 42.

Definition truncate (s : state) (lblkno : Z) : option state :=
  path ← blockToPath lblkno;
  bs ← get_buffers path (bool_decide (1 < length path)%nat) 0 s None (replicate 4 None);
  let offs := take 4 (path ++ [0; 0; 0]) in
  r ← rounds ROUNDS (mkSweep (Z.of_nat (length path) - 1) offs bs None s);
  match r with inr s => Some s | inl _ => None end.

(** for (i = to; i >= from; i--) freeDblk(i), for [n] blocks. *)
Fixpoint free_each (n : nat) (s : state) (i : Z) : option state :=
  match n with
  | O => Some s
  | S n => s ← freeDblk s i; free_each n s (i - 1)
  end.

Definition locked_freeBlocks (s : state) (fromLBlk toLBlk : Z) : option state :=
  if PSO_SMALL_MAXBLK <=? fromLBlk then Some s
  else
    let toLBlk := if PSO_SMALL_MAXBLK <=? toLBlk then PSO_SMALL_MAXBLK - 1 else toLBlk in
    if toLBlk =? PSO_SMALL_MAXBLK - 1 then truncate s fromLBlk
    else free_each (Z.to_nat (toLBlk - fromLBlk + 1)) s toLBlk.


(** ** The trees of a file *)

(** A block and, for an indirect one, what its pointers lead to. *)
Inductive node := Node (b : Z) (cs : list (option node)).

(** Pointer [p] leads to [t] over [k] levels of indirect blocks; no indirect block is
    without pointers. *)
Fixpoint leads (k : nat) (c : gmap Z (list Z)) (p : Z) (t : option node) : Prop :=
  match t with
  | None => p = 0
  | Some (Node b cs) => p = b /\ b <> 0 /\
      match k with
      | O => cs = []
      | S k => length cs = Z.to_nat PSO_SMALL_DIRECT_MAXBLK /\ (exists i n, cs !! i = Some (Some n)) /\
          exists ws, c !! b = Some ws /\ length ws = length cs /\ forall i p t, ws !! i = Some p -> cs !! i = Some t -> leads k c p t
      end
  end.

(** The blocks of a tree, and of several, of levels [f]. *)
Fixpoint owned (k : nat) (t : option node) : list Z :=
  match t with
  | None => []
  | Some (Node b cs) => b :: match k with O => [] | S k => concat (imap (fun _ => owned k) cs) end
  end.
Definition ownedAll (f : nat -> nat) (ts : list (option node)) : list Z := concat (imap (fun i => owned (f i)) ts).

(** The data block at the end of a path. *)
Fixpoint look (k : nat) (t : option node) (path : list Z) : option Z :=
  match t with
  | None => None
  | Some (Node b cs) =>
      match k, path with
      | O, [] => Some b
      | S k, o :: path => t ← cs !! Z.to_nat o; look k t path
      | _, _ => None
      end
  end.

(** The pointers [ws] lead to the trees [ts], of levels [f]. *)
Definition slots (f : nat -> nat) (c : gmap Z (list Z)) (ws : list Z) (ts : list (option node)) : Prop :=
  length ws = length ts /\ forall i p t, ws !! i = Some p -> ts !! i = Some t -> leads (f i) c p t.

Lemma leads_node k c p b cs :
  leads (S k) c p (Some (Node b cs)) <->
  p = b /\ b <> 0 /\ length cs = Z.to_nat PSO_SMALL_DIRECT_MAXBLK /\ (exists i n, cs !! i = Some (Some n)) /\ exists ws, c !! b = Some ws /\ slots (fun _ => k) c ws cs.
Proof. done. Qed.

Lemma owned_node k b cs : owned (S k) (Some (Node b cs)) = b :: ownedAll (fun _ => k) cs.
Proof. done. Qed.

Lemma leads_zero k c p t : leads k c p t -> p = 0 <-> t = None.
Proof. destruct k, t as [[b cs]|]; simpl; intros H; split; intros; try done; destruct H as (-> & H & _); congruence. Qed.

Lemma ownedAll_split f ts i t : ts !! i = Some t -> exists a e, ownedAll f ts = a ++ owned (f i) t ++ e /\ forall t', ownedAll f (<[i := t']> ts) = a ++ owned (f i) t' ++ e.
Proof.
  intros Hi. unfold ownedAll. pose proof (lookup_lt_Some _ _ _ Hi) as Hlt.
  exists (concat (imap (fun i => owned (f i)) (take i ts))), (concat (imap (fun j => owned (f (S (i + j)))) (drop (S i) ts))).
  assert (E : forall t', imap (fun i => owned (f i)) (take i ts ++ t' :: drop (S i) ts) =
    imap (fun i => owned (f i)) (take i ts) ++ owned (f i) t' :: imap (fun j => owned (f (S (i + j)))) (drop (S i) ts)).
  { intros t'. rewrite imap_app. simpl. rewrite length_take_le by lia. f_equal. f_equal; [by rewrite Nat.add_0_r|].
    apply imap_ext. intros j x _. simpl. do 2 f_equal. lia. }
  split.
  - rewrite <- (take_drop_middle ts i t Hi) at 1. by rewrite E, concat_app.
  - intros t'. rewrite insert_take_drop by done. by rewrite E, concat_app.
Qed.

(** A subtree changes: so do the blocks. *)
Lemma ownedAll_change f ts i t t' x y :
  ts !! i = Some t -> x ++ owned (f i) t' ≡ₚ y ++ owned (f i) t -> x ++ ownedAll f (<[i := t']> ts) ≡ₚ y ++ ownedAll f ts.
Proof.
  intros Hi Hp. destruct (ownedAll_split f ts i t Hi) as (a & e & -> & ->).
  rewrite (Permutation_app_swap_app x), (Permutation_app_swap_app y). f_equiv. rewrite !app_assoc. by rewrite Hp.
Qed.

Lemma ownedAll_in f ts i t x : ts !! i = Some t -> x ∈ owned (f i) t -> x ∈ ownedAll f ts.
Proof. intros Hi Hx. destruct (ownedAll_split f ts i t Hi) as (a & e & -> & _). rewrite !elem_of_app. tauto. Qed.

(** Different subtrees have different blocks. *)
Lemma ownedAll_disjoint f ts i j t u x : NoDup (ownedAll f ts) -> ts !! i = Some t -> ts !! j = Some u -> i <> j -> x ∈ owned (f i) t -> x ∉ owned (f j) u.
Proof.
  intros Hnd Hi Hj Hne Hx Hx'. destruct (ownedAll_split f ts i t Hi) as (a & e & E & E'). rewrite E in Hnd.
  assert (Hin : x ∈ a ++ owned (f i) None ++ e).
  { rewrite <- (E' None). apply (ownedAll_in f (<[i := None]> ts) j u); [by rewrite list_lookup_insert_ne|done]. }
  apply NoDup_app in Hnd as (_ & H1 & Hnd). apply NoDup_app in Hnd as (_ & H2 & _). simpl in Hin. destruct (f i); simpl in Hin; apply elem_of_app in Hin as [Hin|Hin];
    first [by apply (H2 x)|apply (H1 x Hin); apply elem_of_app; by left].
Qed.

Lemma ownedAll_nodup f ts i t : NoDup (ownedAll f ts) -> ts !! i = Some t -> NoDup (owned (f i) t).
Proof. intros Hnd Hi. destruct (ownedAll_split f ts i t Hi) as (a & e & E & _). rewrite E in Hnd. apply NoDup_app in Hnd as (_ & _ & Hnd). by apply NoDup_app in Hnd as [? _]. Qed.

(** Only the blocks of a tree matter to it. *)
Lemma leads_frame k : forall c c' p t, leads k c p t -> (forall x, x ∈ owned k t -> c' !! x = c !! x) -> leads k c' p t.
Proof.
  induction k as [|k IH]; intros c c' p [[b cs]|] H Hc; try done. apply leads_node in H as (-> & Hb & Hl & Hne & ws & Hw & Hlw & Hs). apply leads_node. rewrite owned_node in Hc.
  split_and!; try done. exists ws. rewrite Hc by left. split; [done|]. split; [done|]. intros i q t Hi Ht. apply (IH c); [by apply (Hs i)|].
  intros x Hx. apply Hc. right. by apply (ownedAll_in (fun _ => k) cs i t).
Qed.

Lemma slots_frame f c c' ws ts : slots f c ws ts -> (forall x, x ∈ ownedAll f ts -> c' !! x = c !! x) -> slots f c' ws ts.
Proof. intros [Hl Hs] Hc. split; [done|]. intros i p t Hi Ht. apply (leads_frame (f i) c); [by apply Hs|]. intros x Hx. apply Hc. by apply (ownedAll_in f ts i t). Qed.

(** One slot changes, and with it blocks that no other slot has. *)
Lemma slots_set f c c' ws ts i p t t' :
  slots f c ws ts -> NoDup (ownedAll f ts) -> ts !! i = Some t -> leads (f i) c' p t' ->
  (forall j u x, ts !! j = Some u -> j <> i -> x ∈ owned (f j) u -> c' !! x = c !! x) -> slots f c' (<[i := p]> ws) (<[i := t']> ts).
Proof.
  intros [Hl Hs] Hnd Hi Hp Hc. split; [by rewrite !length_insert|]. pose proof (lookup_lt_Some _ _ _ Hi). intros j q u Hj Hu. destruct (decide (j = i)) as [->|Hne].
  - rewrite list_lookup_insert_eq in Hj by lia. rewrite list_lookup_insert_eq in Hu by lia. by simplify_eq.
  - rewrite list_lookup_insert_ne in Hj by done. rewrite list_lookup_insert_ne in Hu by done. apply (leads_frame (f j) c); [by apply Hs|]. intros x Hx. by apply (Hc j u).
Qed.

Lemma slots_get f c ws ts i t : slots f c ws ts -> ts !! i = Some t -> exists p, ws !! i = Some p /\ leads (f i) c p t.
Proof. intros [Hl Hs] Hi. destruct (lookup_lt_is_Some_2 ws i) as [p Hp]; [rewrite Hl; by eapply lookup_lt_Some|]. exists p. split; [done|]. by apply Hs. Qed.


(** ** Finding and making the block of a path *)

Section paths.
Context (n nb r : Z).

(** The blocks in use, as the super block has them. *)
Definition ok (s : state) (used : gset Z) : Prop := Inv (super s) used n nb r.

Lemma alloc_room sb used : Inv sb used n nb r -> Z.of_nat (size used) < n -> exists b sb', allocBlock sb = Some (b, sb') /\ Inv sb' ({[b]} ∪ used) n nb r /\ (b ∉ used) /\ r <= b /\ 0 < b.
Proof.
  intros HI Hsz. pose proof (alloc_exact _ _ _ _ _ HI) as H. destruct (v_n _ _ _ _ _ HI) as (Hr & _). destruct (lowest used n) as [b|] eqn:El.
  - destruct H as (sb' & E & HI'). exists b, sb'. apply lowest_some in El as (Hb & Hn & _).
    assert (Hrb : r <= b) by (destruct (Z_lt_le_dec b r); [destruct Hn; apply (v_reserved _ _ _ _ _ HI); lia|done]). split_and!; try done. lia.
  - apply lowest_none, subseteq_size in El. rewrite size_disk in El by lia. lia.
Qed.

Lemma setPtr_ok s cur ws o p :
  ptrsOf s cur = Some ws -> (Z.to_nat o < length ws)%nat ->
  exists s', setPtr s cur o p = Some s' /\ super s' = super s /\ ptrsOf s' cur = Some (<[Z.to_nat o := p]> ws) /\ (cur <> None -> dBlk s' = dBlk s) /\
    forall x, cur <> Some x -> cache s' !! x = cache s !! x.
Proof.
  intros Hw Ho. destruct cur as [b|]; simpl in *.
  - rewrite Hw. simpl. eexists. split; [done|]. simpl. rewrite lookup_insert_eq. split_and!; try done. intros x Hx. by rewrite lookup_insert_ne by congruence.
  - simplify_eq. eexists. split; [done|]. simpl. by split_and!.
Qed.

(** A pointer that is not 0, set if need be. *)
Lemma open_slot s cur ws o p used indirect :
  ok s used -> Z.of_nat (size used) < n -> ptrsOf s cur = Some ws -> ws !! Z.to_nat o = Some p -> (forall b, cur = Some b -> b ∈ used) ->
  exists p1 s1 new, (if p =? 0 then newPtr s cur o indirect else Some (p, s)) = Some (p1, s1) /\ p1 <> 0 /\
    ptrsOf s1 cur = Some (<[Z.to_nat o := p1]> ws) /\ (cur <> None -> dBlk s1 = dBlk s) /\ ok s1 (list_to_set new ∪ used) /\
    (forall x, x ∈ used -> cur <> Some x -> cache s1 !! x = cache s !! x) /\
    (p <> 0 /\ p1 = p /\ new = [] /\ s1 = s \/ p = 0 /\ new = [p1] /\ (p1 ∉ used) /\ r <= p1 /\ (indirect = true -> cache s1 !! p1 = Some zeros)).
Proof.
  intros Hok Hsz Hw Hp Hcur. destruct (Z.eqb_spec p 0) as [->|Hp0].
  2:{ exists p, s, []. rewrite list_insert_id by done. split_and!; try done; [|by left]. simpl. by rewrite union_empty_l_L. }
  destruct (alloc_room _ _ Hok Hsz) as (b & sb & Ea & Hok' & Hnb & Hrb & Hb). unfold newPtr. rewrite Ea. cbn [mbind option_bind].
  destruct (setPtr_ok (mkState (dBlk s) (cache s) sb) cur ws o b) as (s1 & E1 & Es & Ew & Ed & Ec); [by destruct cur|by eapply lookup_lt_Some|].
  rewrite E1. cbn [mbind option_bind]. simpl in *. assert (Hne : cur <> Some b) by (intros ->; by apply Hnb, Hcur).
  exists b, (if indirect then mkState (dBlk s1) (<[b := zeros]> (cache s1)) (super s1) else s1), [b]. split; [done|]. split; [lia|].
  assert (Hu : list_to_set [b] ∪ used = {[b]} ∪ used) by (simpl; by rewrite union_empty_r_L). rewrite Hu.
  destruct indirect; simpl; unfold ok; simpl; split_and!; try done.
  - destruct cur as [x|]; simpl in *; [|done]. by rewrite lookup_insert_ne by congruence.
  - by rewrite Es.
  - intros x Hx Hcx. rewrite lookup_insert_ne by (intros ->; done). by apply Ec.
  - right. split_and!; try done. intros _. apply lookup_insert_eq.
  - by rewrite Es.
  - intros x Hx Hcx. by apply Ec.
  - right. by split_and!.
Qed.

Definition offsetsOk (path : list Z) : Prop := Forall (fun o => 0 <= o < PSO_SMALL_DIRECT_MAXBLK) path.

(** What getDblk does to a slot: the tree gets the path, with the blocks [new]. *)
Record got (k : nat) (s s' : state) (cur : option Z) (ws : list Z) (o : Z) (t t' : option node) (used : gset Z) (new : list Z) (rest : list Z) (b p' : Z) : Prop := {
  g_ptrs : ptrsOf s' cur = Some (<[Z.to_nat o := p']> ws);
  g_rec : cur <> None -> dBlk s' = dBlk s;
  g_leads : leads k (cache s') p' t';
  g_some : exists x, t' = Some x;
  g_owned : owned k t' ≡ₚ new ++ owned k t;
  g_ok : ok s' (list_to_set new ∪ used);
  g_fresh : NoDup new /\ (forall x, x ∈ new -> (x ∉ used) /\ r <= x) /\ (length new <= S k)%nat;
  g_frame : forall x, x ∈ used -> x ∉ owned k t -> cur <> Some x -> cache s' !! x = cache s !! x;
  g_look : look k t' rest = Some b;
  g_other : forall path, offsetsOk path -> path <> rest -> look k t' path = look k t path;
  g_old : look k t rest = Some b \/ look k t rest = None /\ b ∈ new;
}.

Lemma look_set k p o t' cs path :
  0 <= o < PSO_SMALL_DIRECT_MAXBLK -> (Z.to_nat o < length cs)%nat ->
  look (S k) (Some (Node p (<[Z.to_nat o := t']> cs))) (o :: path) = look k t' path /\
  forall o' path', 0 <= o' -> o' <> o -> look (S k) (Some (Node p (<[Z.to_nat o := t']> cs))) (o' :: path') = look (S k) (Some (Node p cs)) (o' :: path').
Proof.
  intros Ho Hl. simpl. rewrite list_lookup_insert_eq by done. split; [done|]. intros o' path' Ho' Hne. by rewrite list_lookup_insert_ne by lia.
Qed.

(** The pointers of an indirect block, and the next step of the path. *)
Lemma got_below k s s1 s' cur ws ws2 o o2 rest p1 p2 t cs t2 t2' used new1 new2 b :
  ok s used -> ptrsOf s cur = Some ws -> ptrsOf s1 cur = Some (<[Z.to_nat o := p1]> ws) -> (cur <> None -> dBlk s1 = dBlk s) ->
  (forall x, x ∈ used -> cur <> Some x -> cache s1 !! x = cache s !! x) ->
  length cs = Z.to_nat PSO_SMALL_DIRECT_MAXBLK -> cache s1 !! p1 = Some ws2 -> slots (fun _ => k) (cache s1) ws2 cs -> p1 <> 0 ->
  NoDup (p1 :: ownedAll (fun _ => k) cs) -> (forall x, x ∈ p1 :: ownedAll (fun _ => k) cs -> x ∈ list_to_set new1 ∪ used) ->
  p1 :: ownedAll (fun _ => k) cs ≡ₚ new1 ++ owned (S k) t -> NoDup new1 -> (forall x, x ∈ new1 -> (x ∉ used) /\ r <= x) -> (length new1 <= 1)%nat ->
  (forall c, cur = Some c -> c ∈ used /\ c ∉ owned (S k) t) ->
  (forall o' path, 0 <= o' -> look (S k) t (o' :: path) = look (S k) (Some (Node p1 cs)) (o' :: path)) ->
  0 <= o2 < PSO_SMALL_DIRECT_MAXBLK -> cs !! Z.to_nat o2 = Some t2 ->
  got k s1 s' (Some p1) ws2 o2 t2 t2' (list_to_set new1 ∪ used) new2 rest b p2 ->
  got (S k) s s' cur ws o t (Some (Node p1 (<[Z.to_nat o2 := t2']> cs))) used (new2 ++ new1) (o2 :: rest) b p1.
Proof.
  intros Hok Hw Hw1 Hd Hf Hcs Hws2 Hsl Hp1 Hnd Hin Hperm Hnd1 Hfr1 Hl1 Hcur Hlk Ho2 Ht2 [G1 G2 G3 [x2 G4] G5 G6 (G7a & G7b & G7c) G8 G9 G10 G11].
  assert (Hlt2 : (Z.to_nat o2 < length cs)%nat) by (by eapply lookup_lt_Some). apply NoDup_cons in Hnd as [Hnp Hnda].
  assert (Hsub : forall x, x ∈ owned k t2 -> x ∈ ownedAll (fun _ => k) cs) by (intros x; by apply (ownedAll_in (fun _ => k) cs (Z.to_nat o2) t2)).
  assert (Hc1 : forall c, cur = Some c -> cache s' !! c = cache s1 !! c).
  { intros c Hc. destruct (Hcur c Hc) as [Hcu Hco]. apply G8; [set_solver| |].
    - intros H. apply Hsub in H. assert (Hx : c ∈ new1 ++ owned (S k) t) by (rewrite <- Hperm; by right). apply elem_of_app in Hx as [Hx|Hx]; [by apply Hfr1 in Hx as [? _]|done].
    - intros [= ->]. assert (Hx : c ∈ new1 ++ owned (S k) t) by (rewrite <- Hperm; by left). apply elem_of_app in Hx as [Hx|Hx]; [by apply Hfr1 in Hx as [? _]|done]. }
  split.
  - destruct cur as [c|]; simpl in *; [rewrite (Hc1 c) by done; done|rewrite G2 by done; done].
  - intros Hne. rewrite G2 by done. by apply Hd.
  - apply leads_node. rewrite length_insert. split_and!; try done; [by exists (Z.to_nat o2), x2; rewrite list_lookup_insert_eq, G4|].
    exists (<[Z.to_nat o2 := p2]> ws2). split; [exact G1|]. apply (slots_set _ (cache s1) _ _ _ _ _ t2); try done. intros j u x Hj Hne Hx. apply G8.
    + apply Hin. right. by apply (ownedAll_in (fun _ => k) cs j u).
    + by apply (ownedAll_disjoint (fun _ => k) cs j (Z.to_nat o2) u t2).
    + intros [= ->]. apply Hnp. by apply (ownedAll_in (fun _ => k) cs j u).
  - by eexists.
  - rewrite owned_node. pose proof (ownedAll_change (fun _ => k) cs (Z.to_nat o2) t2 t2' [] new2 Ht2 G5) as Hch. simpl in Hch. rewrite Hch.
    rewrite <- app_assoc, <- Hperm. by rewrite Permutation_middle.
  - rewrite list_to_set_app_L, <- (assoc_L (∪)). done.
  - split; [|split].
    + apply NoDup_app. split; [done|]. split; [|done]. intros x Hx Hx1. apply G7b in Hx as [Hx _]. set_solver.
    + intros x [Hx|Hx]%elem_of_app; [apply G7b in Hx; set_solver|by apply Hfr1].
    + rewrite length_app. lia.
  - intros x Hx Hxo Hxc. rewrite G8; [by apply Hf|set_solver| |].
    + intros H. apply Hsub in H. assert (H2 : x ∈ new1 ++ owned (S k) t) by (rewrite <- Hperm; by right). apply elem_of_app in H2 as [H2|H2]; [by apply Hfr1 in H2 as [? _]|done].
    + intros [= ->]. assert (H2 : x ∈ new1 ++ owned (S k) t) by (rewrite <- Hperm; by left). apply elem_of_app in H2 as [H2|H2]; [by apply Hfr1 in H2 as [? _]|done].
  - destruct (look_set k p1 o2 t2' cs rest Ho2 Hlt2) as [-> _]. done.
  - intros path Hpath Hne. destruct path as [|o' path]; [by destruct t as [[? ?]|]|]. apply Forall_cons in Hpath as [Ho' Hpath']. destruct (decide (o' = o2)) as [->|Ho].
    + destruct (look_set k p1 o2 t2' cs path Ho2 Hlt2) as [-> _]. rewrite G10 by (done || congruence). rewrite Hlk by lia. simpl. by rewrite Ht2.
    + destruct (look_set k p1 o2 t2' cs path Ho2 Hlt2) as [_ E]. rewrite E, Hlk by lia. done.
  - rewrite Hlk by lia. simpl. rewrite Ht2. simpl. destruct G11 as [?|[? ?]]; [by left|right]. split; [done|]. apply elem_of_app. by left.
Qed.


(** A tree without blocks, one level down. *)
Lemma zeros_slots k c : slots (fun _ => k) c zeros (replicate (Z.to_nat PSO_SMALL_DIRECT_MAXBLK) None).
Proof. split; [by rewrite !length_replicate|]. intros i p t [-> _]%lookup_replicate [-> _]%lookup_replicate. by destruct k. Qed.

Lemma zeros_owned k m : ownedAll (fun _ => k) (replicate m None) = [].
Proof. unfold ownedAll. induction m as [|m IH]; [done|]. simpl. destruct k; simpl; exact IH. Qed.

Lemma get_slot rest : forall s cur o ws p t used,
  offsetsOk rest -> ok s used -> Z.of_nat (size used) + Z.of_nat (length rest) < n ->
  ptrsOf s cur = Some ws -> ws !! Z.to_nat o = Some p -> leads (length rest) (cache s) p t -> NoDup (owned (length rest) t) ->
  (forall x, x ∈ owned (length rest) t -> x ∈ used) -> (forall c, cur = Some c -> c ∈ used /\ c ∉ owned (length rest) t) ->
  exists b s' p' t' new, get_loop (o :: rest) s cur true = Some (b, s') /\ got (length rest) s s' cur ws o t t' used new rest b p'.
Proof.
  induction rest as [|o2 rest IH]; intros s cur o ws p t used Hoff Hok Hsz Hw Hp Hl Hnd Hin Hcur; cbn [length] in *; cbn [get_loop];
    unfold getPtr; rewrite Hw; cbn [mbind option_bind]; rewrite Hp; cbn [mbind option_bind]; rewrite andb_false_r.
  - destruct (open_slot s cur ws o p used (negb (bool_decide ([] = @nil Z))) Hok ltac:(lia) Hw Hp) as (p1 & s1 & new & -> & Hp1 & Ew & Ed & Hok1 & Hf & Hcase); [intros c Hc; by apply Hcur|].
    cbn [mbind option_bind]. exists p1, s1, p1, (Some (Node p1 [])), new. split; [done|]. destruct Hcase as [(Hp0 & -> & -> & ->)|(-> & -> & Hnu & Hr & _)].
    + destruct t as [[b cs]|]; simpl in Hl; [|done]. destruct Hl as (-> & _ & ->). split; try done; [by eexists|split; [apply NoDup_nil_2|split; [set_solver|simpl; lia]]|by left].
    + assert (t = None) as -> by (by apply (leads_zero 0 (cache s) 0)). simpl. split; simpl; try done; [by eexists| | | |by right; split; [|left]].
      * split; [apply NoDup_singleton|]. split; [|lia]. intros x ->%list_elem_of_singleton. done.
      * intros x Hx _ Hc. by apply Hf.
      * intros path Hpath Hne. by destruct path.
  - apply Forall_cons in Hoff as [Ho2 Hoff].
    destruct (open_slot s cur ws o p used (negb (bool_decide (o2 :: rest = []))) Hok ltac:(lia) Hw Hp) as (p1 & s1 & new & -> & Hp1 & Ew & Ed & Hok1 & Hf & Hcase); [intros c Hc; by apply Hcur|].
    cbn [mbind option_bind]. destruct Hcase as [(Hp0 & -> & -> & ->)|(-> & -> & Hnu & Hr & Hz)].
    + destruct t as [[b cs]|]; [|by apply leads_zero in Hl; destruct Hp0; apply Hl]. apply leads_node in Hl as (-> & Hb0 & Hlen & Hne & ws2 & Hws2 & Hsl). rewrite owned_node in *.
      destruct (lookup_lt_is_Some_2 cs (Z.to_nat o2)) as [t2 Ht2]; [rewrite Hlen; unfold PSO_SMALL_DIRECT_MAXBLK in *; lia|]. destruct (slots_get _ _ _ _ _ _ Hsl Ht2) as (p2 & Hp2 & Hl2).
      assert (Hin2 : forall x, x ∈ owned (length rest) t2 -> x ∈ ownedAll (fun _ => length rest) cs) by (intros x; by apply (ownedAll_in (fun _ => length rest) cs (Z.to_nat o2) t2)).
      pose proof Hnd as Hnd'. apply NoDup_cons in Hnd' as [Hnb Hnd2].
      destruct (IH s (Some b) o2 ws2 p2 t2 used Hoff Hok ltac:(lia) Hws2 Hp2 Hl2) as (d & s' & p' & t2' & new2 & E & G).
      { by apply (ownedAll_nodup (fun _ => length rest) cs (Z.to_nat o2)). } { intros x Hx. apply Hin. right. by apply Hin2. } { intros c [= <-]. split; [apply Hin; left|]. intros H. by apply Hnb, Hin2. }
      exists d, s', b, (Some (Node b (<[Z.to_nat o2 := t2']> cs))), (new2 ++ []). split; [exact E|].
      simpl in Hok1. rewrite union_empty_l_L in Hok1. eapply (got_below (length rest) s s s' cur ws ws2 o o2 rest b p' (Some (Node b cs)) cs t2 t2' used [] new2 d); try done.
      * intros x Hx. simpl. rewrite union_empty_l_L. by apply Hin.
      * apply NoDup_nil_2.
      * set_solver.
      * simpl. lia.
      * simpl. by rewrite union_empty_l_L.
    + assert (t = None) as -> by (by apply (leads_zero (S (length rest)) (cache s) 0)). specialize (Hz eq_refl).
      set (cs := replicate (Z.to_nat PSO_SMALL_DIRECT_MAXBLK) (@None node)).
      assert (Ht2 : cs !! Z.to_nat o2 = Some None) by (apply lookup_replicate_2; unfold PSO_SMALL_DIRECT_MAXBLK in *; lia).
      assert (Hp2 : zeros !! Z.to_nat o2 = Some 0) by (apply lookup_replicate_2; unfold PSO_SMALL_DIRECT_MAXBLK in *; lia).
      assert (Hu1 : list_to_set [p1] ∪ used = {[p1]} ∪ used) by (simpl; by rewrite union_empty_r_L).
      destruct (IH s1 (Some p1) o2 zeros 0 None (list_to_set [p1] ∪ used) Hoff Hok1) as (d & s' & p' & t2' & new2 & E & G); try done.
      { rewrite Hu1, size_union, size_singleton by (intros x ->%elem_of_singleton; done). lia. } { by destruct rest. } { destruct rest; apply NoDup_nil_2. } { intros x Hx. by destruct rest; apply elem_of_nil in Hx. }
      { intros c [= <-]. split; [set_solver|]. intros Hx. by destruct rest; apply elem_of_nil in Hx. }
      exists d, s', p1, (Some (Node p1 (<[Z.to_nat o2 := t2']> cs))), (new2 ++ [p1]). split; [exact E|].
      eapply (got_below (length rest) s s1 s' cur ws zeros o o2 rest p1 p' None cs None t2' used [p1] new2 d); try done.
      * apply zeros_slots.
      * unfold cs. rewrite zeros_owned. apply NoDup_singleton.
      * unfold cs. rewrite zeros_owned. intros x ->%list_elem_of_singleton. set_solver.
      * unfold cs. by rewrite zeros_owned.
      * apply NoDup_singleton.
      * intros x ->%list_elem_of_singleton. done.
      * intros o' path Ho'. simpl. destruct (cs !! Z.to_nat o') as [t|] eqn:E'; [|done]. apply lookup_replicate in E' as [-> _]. by destruct rest.
Qed.

(** Without creating anything. *)
Lemma get_only rest : forall s cur o ws p t,
  offsetsOk rest -> ptrsOf s cur = Some ws -> ws !! Z.to_nat o = Some p -> leads (length rest) (cache s) p t ->
  get_loop (o :: rest) s cur false = Some (default 0 (look (length rest) t rest), s).
Proof.
  induction rest as [|o2 rest IH]; intros s cur o ws p t Hoff Hw Hp Hl; cbn [length] in *; cbn [get_loop]; unfold getPtr; rewrite Hw; cbn [mbind option_bind]; rewrite Hp; cbn [mbind option_bind];
    rewrite andb_true_r; (destruct (Z.eqb_spec p 0) as [->|Hp0]; [apply leads_zero in Hl; by rewrite (proj1 Hl)|]).
  - destruct t as [[b cs]|]; [|done]. simpl in *. destruct Hl as (-> & _ & ->). done.
  - apply Forall_cons in Hoff as [Ho2 Hoff]. destruct t as [[b cs]|]; [|by apply leads_zero in Hl; destruct Hp0; apply Hl].
    apply leads_node in Hl as (-> & Hb0 & Hlen & Hne & ws2 & Hws2 & Hsl). cbn [mbind option_bind].
    destruct (lookup_lt_is_Some_2 cs (Z.to_nat o2)) as [t2 Ht2]; [rewrite Hlen; unfold PSO_SMALL_DIRECT_MAXBLK in *; lia|]. destruct (slots_get _ _ _ _ _ _ Hsl Ht2) as (p2 & Hp2 & Hl2).
    etransitivity; [exact (IH s (Some b) o2 ws2 p2 t2 Hoff Hws2 Hp2 Hl2)|]. simpl. by rewrite Ht2.
Qed.


(** ** Freeing the block of a path *)

(** The indirect blocks of a path through a tree. *)
Fixpoint pathBlocks (t : option node) (path : list Z) : list Z :=
  match t, path with
  | Some (Node b cs), o :: path => b :: pathBlocks (default None (cs !! Z.to_nat o)) path
  | _, _ => []
  end.

(** They do not depend on the last offset. *)
Lemma pathBlocks_last pre : forall t x y, pathBlocks t (pre ++ [x]) = pathBlocks t (pre ++ [y]).
Proof.
  induction pre as [|o pre IH]; intros [[b cs]|] x y; try done; simpl; [|by rewrite (IH _ x y)].
  f_equal. destruct (cs !! Z.to_nat x) as [[[? ?]|]|], (cs !! Z.to_nat y) as [[[? ?]|]|]; done.
Qed.

(** Those of a path to a block are in the cache. *)
Lemma pathBlocks_cached k : forall c p t path b, leads k c p t -> look k t path = Some b -> Forall (fun x => is_Some (c !! x)) (pathBlocks t path).
Proof.
  induction k as [|k IH]; intros c p [[q cs]|] [|o path] b Hl Hb; try discriminate Hb; [by apply Forall_nil|].
  apply leads_node in Hl as (-> & _ & _ & _ & ws & Hw & Hsl). simpl in Hb. destruct (cs !! Z.to_nat o) as [t|] eqn:Et; [|done]. simpl in Hb.
  destruct (slots_get _ _ _ _ _ _ Hsl Et) as (p2 & _ & Hl2). simpl. rewrite Et. simpl. apply Forall_cons. split; [by eexists|]. by eapply IH.
Qed.

Lemma releaseAll_ok s bs : Forall (fun x => match x with Some b => is_Some (cache s !! b) | None => True end) bs -> releaseAll s bs = Some tt.
Proof.
  induction bs as [|[b|] bs IH]; intros H; [done| |]; apply Forall_cons in H as [Hb H]; simpl; [|by apply IH].
  unfold release. rewrite assertK_true by (by apply bool_decide_eq_true). by apply IH.
Qed.

(** The pointers of a path through a tree. *)
Fixpoint pathOf (t : option node) (cur : option Z) (o : Z) (rest : list Z) : list (option Z * Z) :=
  (cur, o) :: match t, rest with
              | Some (Node b cs), o2 :: rest => pathOf (default None (cs !! Z.to_nat o2)) (Some b) o2 rest
              | _, _ => []
              end.

Lemma pathOf_blocks rest : forall t cur o b, look (length rest) t rest = Some b -> (pathOf t cur o rest).*1 = cur :: (Some <$> pathBlocks t rest).
Proof.
  induction rest as [|o2 rest IH]; intros [[q cs]|] cur o b H; try done. simpl in H. destruct (cs !! Z.to_nat o2) as [t|] eqn:Et; [|done]. simpl in H.
  cbn [pathOf pathBlocks]. rewrite Et. simpl. f_equal. by eapply IH.
Qed.

Lemma descend_spec rest : forall s cur o ws p t,
  offsetsOk rest -> ptrsOf s cur = Some ws -> ws !! Z.to_nat o = Some p -> leads (length rest) (cache s) p t ->
  match look (length rest) t rest with
  | Some _ => descend (o :: rest) s cur = Some (true, pathOf t cur o rest)
  | None => exists path, descend (o :: rest) s cur = Some (false, path) /\ releaseAll s path.*1 = Some tt
  end.
Proof.
  induction rest as [|o2 rest IH]; intros s cur o ws p t Hoff Hw Hp Hl; cbn [length] in *; cbn [descend]; unfold getPtr; rewrite Hw; cbn [mbind option_bind]; rewrite Hp; cbn [mbind option_bind].
  all: assert (Hone : forall l, releaseAll s l.*1 = Some tt -> releaseAll s ((cur, o) :: l).*1 = Some tt)
    by (intros l Hr; simpl; destruct cur as [c|]; [|done]; simpl in Hw; unfold release; rewrite bool_decide_eq_true_2 by (by eexists); done).
  all: destruct (Z.eqb_spec p 0) as [->|Hp0]; [apply leads_zero in Hl; rewrite (proj1 Hl eq_refl); eexists; split; [done|by apply Hone]|].
  - destruct t as [[b cs]|]; [|by destruct Hp0; apply (leads_zero _ _ _ _ Hl)]. done.
  - apply Forall_cons in Hoff as [Ho2 Hoff]. destruct t as [[b cs]|]; [|by apply leads_zero in Hl; destruct Hp0; apply Hl].
    apply leads_node in Hl as (-> & Hb0 & Hlen & Hne & ws2 & Hws2 & Hsl).
    destruct (lookup_lt_is_Some_2 cs (Z.to_nat o2)) as [t2 Ht2]; [rewrite Hlen; unfold PSO_SMALL_DIRECT_MAXBLK in *; lia|]. destruct (slots_get _ _ _ _ _ _ Hsl Ht2) as (p2 & Hp2 & Hl2).
    pose proof (IH s (Some b) o2 ws2 p2 t2 Hoff Hws2 Hp2 Hl2) as H. cbn [look]. rewrite Ht2. cbn [mbind option_bind]. destruct (look (length rest) t2 rest).
    + etransitivity; [apply (f_equal (fun x => x ≫= _)); exact H|]. cbn [mbind option_bind pathOf]. by rewrite Ht2.
    + destruct H as (path & E & Hr). eexists. split; [etransitivity; [apply (f_equal (fun x => x ≫= _)); exact E|]; cbn [mbind option_bind]; done|]. by apply Hone.
Qed.

Lemma free_up_app l1 l2 : forall s, free_up (l1 ++ l2) s = ('(go, s) ← free_up l1 s; if (go : bool) then free_up l2 s else Some (false, s)).
Proof.
  induction l1 as [|[cur o] l1 IH]; intros s; [done|]. cbn [free_up app]. destruct (getPtr s cur o) as [p|]; [|done]. cbn [mbind option_bind]. destruct (p =? 0); [done|].
  destruct (freePtr s cur o p) as [s1|]; [|done]. cbn [mbind option_bind].
  destruct cur as [c|]; [|apply IH]. cbn [ptrsOf]. destruct (cache s1 !! c) as [ws|]; [|done]. simpl. destruct (allZero ws); [apply IH|done].
Qed.

(** The pointer of a block that is freed. *)
Lemma freePtr_ok s cur ws o p used :
  ok s used -> ptrsOf s cur = Some ws -> (Z.to_nat o < length ws)%nat -> r <= p -> p ∈ used -> cur <> Some p ->
  exists s', freePtr s cur o p = Some s' /\ ok s' (used ∖ {[p]}) /\ ptrsOf s' cur = Some (<[Z.to_nat o := 0]> ws) /\ (cur <> None -> dBlk s' = dBlk s) /\
    forall x, x <> p -> cur <> Some x -> cache s' !! x = cache s !! x.
Proof.
  intros Hok Hw Ho Hr Hu Hc. unfold freePtr. destruct (free_exact (cache s) _ _ _ _ _ p Hok Hr Hu) as (sb & -> & Hok'). cbn [mbind option_bind].
  destruct (setPtr_ok (mkState (dBlk s) (forget (cache s) p) sb) cur ws o 0) as (s1 & E & Es & Ew & Ed & Ec); [|done|].
  { destruct cur as [c|]; simpl in *; [|done]. unfold forget. by rewrite lookup_delete_ne by congruence. }
  exists s1. unfold ok. rewrite Es. split_and!; try done. intros x Hx Hcx. rewrite Ec by done. simpl. unfold forget. by rewrite lookup_delete_ne by congruence.
Qed.

(** Whether the pointers above a cleared one are looked at. *)
Definition goesOn (cur : option Z) (ws : list Z) : bool := match cur with None => true | Some _ => allZero ws end.

(** The last pointer is freed and cleared. *)
Lemma free_top s cur ws o p used :
  ok s used -> ptrsOf s cur = Some ws -> ws !! Z.to_nat o = Some p -> p <> 0 -> r <= p -> p ∈ used -> cur <> Some p ->
  exists s', free_up [(cur, o)] s = Some (goesOn cur (<[Z.to_nat o := 0]> ws), s') /\ ok s' (used ∖ {[p]}) /\
    ptrsOf s' cur = Some (<[Z.to_nat o := 0]> ws) /\ (cur <> None -> dBlk s' = dBlk s) /\ forall x, x <> p -> cur <> Some x -> cache s' !! x = cache s !! x.
Proof.
  intros Hok Hw Hp Hp0 Hr Hu Hc. cbn [free_up]. unfold getPtr. rewrite Hw. cbn [mbind option_bind]. rewrite Hp. cbn [mbind option_bind]. rewrite (proj2 (Z.eqb_neq p 0)) by done.
  destruct (freePtr_ok s cur ws o p used Hok Hw (lookup_lt_Some _ _ _ Hp) Hr Hu Hc) as (s1 & -> & Hok' & Ew & Ed & Ec). cbn [mbind option_bind].
  exists s1. split; [|by split_and!]. destruct cur as [c|]; [|done]. rewrite Ew. cbn [mbind option_bind]. unfold goesOn. by destruct (allZero _).
Qed.

Record freed (k : nat) (s s' : state) (cur : option Z) (ws : list Z) (o : Z) (t t' : option node) (used : gset Z) (gone : list Z) (rest : list Z) (p' : Z) (go : bool) : Prop := {
  f_ptrs : ptrsOf s' cur = Some (<[Z.to_nat o := p']> ws);
  f_rec : cur <> None -> dBlk s' = dBlk s;
  f_leads : leads k (cache s') p' t';
  f_owned : owned k t ≡ₚ gone ++ owned k t';
  f_ok : ok s' (used ∖ list_to_set gone);
  f_frame : forall x, x ∉ owned k t -> cur <> Some x -> cache s' !! x = cache s !! x;
  f_look : look k t' rest = None;
  f_other : forall path, offsetsOk path -> path <> rest -> look k t' path = look k t path;
  f_path : forall path, look k t' path <> None -> pathBlocks t' path = pathBlocks t path;
  f_go : t' = None /\ go = goesOn cur (<[Z.to_nat o := 0]> ws) \/ (exists x, t' = Some x) /\ go = false;
}.

Lemma allZero_lookup ws : allZero ws = true <-> forall i p, ws !! i = Some p -> p = 0.
Proof.
  unfold allZero. rewrite forallb_forall. split.
  - intros H i p Hi. apply Z.eqb_eq, H. rewrite <- list_elem_of_In. by eapply list_elem_of_lookup_2.
  - intros H p Hp. apply Z.eqb_eq. rewrite <- list_elem_of_In in Hp. apply list_elem_of_lookup in Hp as [i Hi]. by apply (H i).
Qed.

(** All pointers are 0 when there are no subtrees. *)
Lemma allZero_slots f c ws ts : slots f c ws ts -> allZero ws = true <-> forall i t, ts !! i = Some t -> t = None.
Proof.
  intros [Hl Hs]. rewrite allZero_lookup. split.
  - intros H i t Ht. destruct (lookup_lt_is_Some_2 ws i) as [p Hp]; [rewrite Hl; by eapply lookup_lt_Some|]. apply (leads_zero (f i) c p); [by apply (Hs i)|]. by apply (H i).
  - intros H i p Hp. destruct (lookup_lt_is_Some_2 ts i) as [t Ht]; [rewrite <- Hl; by eapply lookup_lt_Some|]. apply (leads_zero (f i) c p t); [by apply (Hs i)|]. by apply (H i).
Qed.

Lemma ownedAll_none k ts : (forall i t, ts !! i = Some t -> t = None) -> ownedAll (fun _ => k) ts = [].
Proof.
  intros H. replace ts with (replicate (length ts) (@None node)); [apply zeros_owned|]. apply list_eq. intros i. destruct (ts !! i) as [t|] eqn:E.
  - rewrite (H i t E). apply lookup_replicate_2. by eapply lookup_lt_Some.
  - apply lookup_ge_None in E. apply lookup_ge_None. rewrite length_replicate. lia.
Qed.



(** An indirect block that keeps a pointer. *)
Lemma freed_stays k s s1 cur ws ws2 o o2 rest p p2 cs t2 t2' used gone go :
  ptrsOf s cur = Some ws -> ws !! Z.to_nat o = Some p -> p <> 0 -> length cs = Z.to_nat PSO_SMALL_DIRECT_MAXBLK -> slots (fun _ => k) (cache s) ws2 cs ->
  NoDup (owned (S k) (Some (Node p cs))) -> (forall c, cur = Some c -> c ∉ owned (S k) (Some (Node p cs))) ->
  0 <= o2 < PSO_SMALL_DIRECT_MAXBLK -> cs !! Z.to_nat o2 = Some t2 ->
  freed k s s1 (Some p) ws2 o2 t2 t2' used gone rest p2 go -> (exists i x, <[Z.to_nat o2 := t2']> cs !! i = Some (Some x)) ->
  freed (S k) s s1 cur ws o (Some (Node p cs)) (Some (Node p (<[Z.to_nat o2 := t2']> cs))) used gone (o2 :: rest) p false.
Proof.
  intros Hw Hp Hp0 Hcs Hsl Hnd Hcur Ho2 Ht2 [F1 F2 F3 F4 F5 F6 F7 F8 F9 _] Hne. rewrite owned_node in *. apply NoDup_cons in Hnd as [Hnp Hnda].
  assert (Hlt2 : (Z.to_nat o2 < length cs)%nat) by (by eapply lookup_lt_Some).
  assert (Hsub : forall x, x ∈ owned k t2 -> x ∈ ownedAll (fun _ => k) cs) by (intros x; by apply (ownedAll_in (fun _ => k) cs (Z.to_nat o2) t2)).
  assert (Hout : forall x, x ∉ p :: ownedAll (fun _ => k) cs -> cache s1 !! x = cache s !! x).
  { intros x [Hxp Hxo]%not_elem_of_cons. apply F6; [intros H; by apply Hxo, Hsub|congruence]. }
  split; try done.
  - rewrite list_insert_id by done. destruct cur as [c|]; simpl in *; [rewrite Hout by (by apply Hcur); done|rewrite F2 by done; done].
  - intros _. by apply F2.
  - apply leads_node. rewrite length_insert. split_and!; try done. exists (<[Z.to_nat o2 := p2]> ws2). split; [exact F1|].
    apply (slots_set _ (cache s) _ _ _ _ _ t2); try done. intros j u x Hj Hji Hx. apply F6.
    + by apply (ownedAll_disjoint (fun _ => k) cs j (Z.to_nat o2) u t2).
    + intros [= ->]. apply Hnp. by apply (ownedAll_in (fun _ => k) cs j u).
  - rewrite owned_node. pose proof (ownedAll_change (fun _ => k) cs (Z.to_nat o2) t2 t2' gone [] Ht2) as Hch. simpl in Hch.
    rewrite <- Hch by (by rewrite F4). by rewrite Permutation_middle.
  - intros x Hx _. by apply Hout.
  - destruct (look_set k p o2 t2' cs rest Ho2 Hlt2) as [-> _]. done.
  - intros path Hpath Hpne. destruct path as [|o' path]; [done|]. apply Forall_cons in Hpath as [Ho' Hpath']. destruct (decide (o' = o2)) as [->|Ho].
    + destruct (look_set k p o2 t2' cs path Ho2 Hlt2) as [-> _]. rewrite F8 by (done || congruence). simpl. by rewrite Ht2.
    + destruct (look_set k p o2 t2' cs path Ho2 Hlt2) as [_ E]. by rewrite E by lia.
  - intros path Hpath. destruct path as [|o' path]; [done|]. simpl in *. f_equal. destruct (decide (Z.to_nat o' = Z.to_nat o2)) as [E|E].
    + rewrite E in *. rewrite list_lookup_insert_eq in * by done. rewrite Ht2. simpl in *. by apply F9.
    + by rewrite list_lookup_insert_ne by done.
  - right. split; [by eexists|done].
Qed.

Lemma free_slot rest : forall s cur o ws p t used b,
  offsetsOk rest -> ok s used -> ptrsOf s cur = Some ws -> ws !! Z.to_nat o = Some p -> leads (length rest) (cache s) p t -> NoDup (owned (length rest) t) ->
  (forall x, x ∈ owned (length rest) t -> x ∈ used /\ r <= x) -> (forall c, cur = Some c -> c ∉ owned (length rest) t) -> look (length rest) t rest = Some b ->
  exists s' p' t' gone go, free_up (rev (pathOf t cur o rest)) s = Some (go, s') /\ freed (length rest) s s' cur ws o t t' used gone rest p' go.
Proof.
  induction rest as [|o2 rest IH]; intros s cur o ws p t used b Hoff Hok Hw Hp Hl Hnd Hin Hcur Hlook; cbn [length] in *; (destruct t as [[q cs]|]; [|done]).
  - simpl in Hl. destruct Hl as (-> & Hq0 & ->). destruct (Hin q) as [Hu Hr]; [left|].
    destruct (free_top s cur ws o q used Hok Hw Hp Hq0 Hr Hu) as (s' & E & Hok' & Ew & Ed & Ec); [intros Hc; apply (Hcur q Hc); left|].
    exists s', 0, None, [q], (goesOn cur (<[Z.to_nat o := 0]> ws)). split; [exact E|]. split; try done.
    + unfold ok in *. simpl. by rewrite union_empty_r_L.
    + intros x Hx Hc. apply Ec; [|done]. intros ->. apply Hx. left.
    + intros path Hpath Hne. by destruct path.
    + by left.
  - apply Forall_cons in Hoff as [Ho2 Hoff]. pose proof Hl as Hl0. apply leads_node in Hl as (-> & Hq0 & Hlen & Hne & ws2 & Hws2 & Hsl).
    destruct (lookup_lt_is_Some_2 cs (Z.to_nat o2)) as [t2 Ht2]; [rewrite Hlen; unfold PSO_SMALL_DIRECT_MAXBLK in *; lia|]. destruct (slots_get _ _ _ _ _ _ Hsl Ht2) as (p2 & Hp2 & Hl2).
    pose proof Hnd as Hnd0. rewrite owned_node in Hnd0. apply NoDup_cons in Hnd0 as [Hnq Hnda].
    assert (Hsub : forall x, x ∈ owned (length rest) t2 -> x ∈ ownedAll (fun _ => length rest) cs) by (intros x; by apply (ownedAll_in (fun _ => length rest) cs (Z.to_nat o2) t2)).
    simpl in Hlook. rewrite Ht2 in Hlook. simpl in Hlook.
    destruct (IH s (Some q) o2 ws2 p2 t2 used b Hoff Hok Hws2 Hp2 Hl2) as (s1 & p2' & t2' & gone & go & E & F); try done.
    { by apply (ownedAll_nodup (fun _ => length rest) cs (Z.to_nat o2)). } { intros x Hx. apply Hin. rewrite owned_node. right. by apply Hsub. } { intros c [= <-] H. by apply Hnq, Hsub. }
    cbn [pathOf]. rewrite Ht2. simpl (default _ _). simpl (rev _). rewrite free_up_app, E. cbn [mbind option_bind].
    pose proof (f_go _ _ _ _ _ _ _ _ _ _ _ _ _ F) as [[-> Ego]|[[x ->] ->]].
    2:{ exists s1, q, (Some (Node q (<[Z.to_nat o2 := Some x]> cs))), gone, false. split; [done|]. eapply freed_stays; try done.
        exists (Z.to_nat o2), x. apply list_lookup_insert_eq. by eapply lookup_lt_Some. }
    simpl in Ego. destruct go.
    2:{ exists s1, q, (Some (Node q (<[Z.to_nat o2 := None]> cs))), gone, false. split; [done|]. eapply freed_stays; try done.
        destruct (decide (Exists (fun t => t <> None) (<[Z.to_nat o2 := None]> cs))) as [H|H].
        - apply Exists_exists in H as (t & Ht & Htn). apply list_elem_of_lookup in Ht as [i Hi]. destruct t as [x|]; [by exists i, x|done].
        - exfalso. assert (Hz : allZero (<[Z.to_nat o2 := 0]> ws2) = true); [|congruence].
          apply (allZero_slots (fun _ => length rest) (cache s1) _ (<[Z.to_nat o2 := None]> cs)).
          + apply (slots_set _ (cache s) _ _ _ _ _ t2); try done; [by destruct rest|]. intros j u x Hj Hji Hx. apply (f_frame _ _ _ _ _ _ _ _ _ _ _ _ _ F).
            * by apply (ownedAll_disjoint (fun _ => length rest) cs j (Z.to_nat o2) u t2).
            * intros [= ->]. apply Hnq. by apply (ownedAll_in (fun _ => length rest) cs j u).
          + intros i t Hi. destruct t as [x|]; [|done]. exfalso. apply H. apply Exists_exists. exists (Some x). split; [by eapply list_elem_of_lookup_2|done]. }
    destruct F as [F1 F2 F3 F4 F5 F6 F7 F8 _ _].
    assert (Hout : forall x, x ∉ owned (S (length rest)) (Some (Node q cs)) -> cache s1 !! x = cache s !! x).
    { rewrite owned_node. intros x [Hxq Hxo]%not_elem_of_cons. apply F6; [intros H; by apply Hxo, Hsub|congruence]. }
    assert (Hw1 : ptrsOf s1 cur = Some ws) by (destruct cur as [c|]; simpl in *; [rewrite Hout by (by apply Hcur); done|rewrite F2 by done; done]).
    destruct (Hin q) as [Hu Hr]; [rewrite owned_node; left|].
    assert (Hgq : q ∉ gone). { intros H. apply Hnq, Hsub. rewrite F4. apply elem_of_app. by left. }
    destruct (free_top s1 cur ws o q (used ∖ list_to_set gone) F5 Hw1 Hp Hq0 Hr) as (s' & E' & Hok' & Ew & Ed & Ec); [set_solver|intros Hc; apply (Hcur q Hc); rewrite owned_node; left|].
    assert (Hsl1 : slots (fun _ => length rest) (cache s1) (<[Z.to_nat o2 := 0]> ws2) (<[Z.to_nat o2 := None]> cs)).
    { apply (slots_set _ (cache s) _ _ _ _ _ t2); try done; [by destruct rest|]. intros j u x Hj Hji Hx. apply F6.
      - by apply (ownedAll_disjoint (fun _ => length rest) cs j (Z.to_nat o2) u t2).
      - intros [= ->]. apply Hnq. by apply (ownedAll_in (fun _ => length rest) cs j u). }
    pose proof (proj1 (allZero_slots _ _ _ _ Hsl1) (eq_sym Ego)) as Hnone.
    exists s', 0, None, (gone ++ [q]), (goesOn cur (<[Z.to_nat o := 0]> ws)). split; [exact E'|]. split; try done.
    + intros Hc. rewrite Ed by done. by apply F2.
    + rewrite owned_node. pose proof (ownedAll_change (fun _ => length rest) cs (Z.to_nat o2) t2 None gone [] Ht2) as Hch. simpl in Hch.
      rewrite <- Hch by (by rewrite F4). rewrite (ownedAll_none _ _ Hnone). simpl. rewrite !app_nil_r. by rewrite Permutation_cons_append.
    + rewrite list_to_set_app_L. simpl. rewrite union_empty_r_L, <- difference_difference_l_L. done.
    + intros x Hx Hc. rewrite Ec; [by apply Hout| |done]. intros ->. apply Hx. rewrite owned_node. left.
    + intros path Hpath Hpne. destruct path as [|o' path]; [done|]. apply Forall_cons in Hpath as [Ho' Hpath']. simpl. destruct (decide (o' = o2)) as [->|Ho].
      * rewrite Ht2. simpl. rewrite <- F8 by (done || congruence). by destruct rest.
      * destruct (cs !! Z.to_nat o') as [u|] eqn:Eu; [|done]. simpl. rewrite (Hnone (Z.to_nat o') u); [by destruct rest|]. rewrite list_lookup_insert_ne by lia. done.
    + by left.
Qed.



End paths.

End PSOSmall.
