(* ===== verification/PSOFile.v ===== *)
(** * PSOFile: the blocks of a KFS file as a map, for os/servers/kfs/PSOSmall.C

    The trees of PSOSmall.v, put together under the record of a file: the map from
    logical to disk blocks that a record stands for, and what looking up, making and
    freeing a block does to it. *)

From stdpp Require Import base numbers option gmap list.
From S2P Require Import K42 Prelude DirBlock SuperBlock PSOSmall.

Module PSOFile.

Import SuperBlock PSOSmall.

(** ** Trees and logical blocks *)

Lemma look_owned k : forall t path b, look k t path = Some b -> b ∈ owned k t.
Proof.
  induction k as [|k IH]; intros [[q cs]|] path b H; try done.
  - destruct path; [|done]. simpl in *. injection H as ->. left.
  - destruct path as [|o path]; [done|]. simpl in H. destruct (cs !! Z.to_nat o) as [t|] eqn:E; [|done]. rewrite owned_node. right. eapply (ownedAll_in (fun _ => k)); [exact E|]. by eapply IH.
Qed.

(** Different paths end in different blocks. *)
Lemma look_inj k : forall t p1 p2 b, NoDup (owned k t) -> offsetsOk p1 -> offsetsOk p2 -> look k t p1 = Some b -> look k t p2 = Some b -> p1 = p2.
Proof.
  induction k as [|k IH]; intros [[q cs]|] p1 p2 b Hnd O1 O2 H1 H2; try done; [by destruct p1, p2|].
  destruct p1 as [|o1 p1], p2 as [|o2 p2]; try done. apply Forall_cons in O1 as [O1 O1'], O2 as [O2 O2']. simpl in H1, H2.
  destruct (cs !! Z.to_nat o1) as [t1|] eqn:E1; [|done]. destruct (cs !! Z.to_nat o2) as [t2|] eqn:E2; [|done]. simpl in H1, H2.
  rewrite owned_node in Hnd. apply NoDup_cons in Hnd as [_ Hnd]. destruct (decide (o1 = o2)) as [->|Hne].
  - rewrite E1 in E2. injection E2 as <-. f_equal. eapply IH; [|done|done|exact H1|exact H2]. by apply (ownedAll_nodup (fun _ => k) cs (Z.to_nat o2)).
  - exfalso. apply (ownedAll_disjoint (fun _ => k) cs (Z.to_nat o1) (Z.to_nat o2) t1 t2 b Hnd E1 E2); [lia|by eapply look_owned..].
Qed.

(** A tree with blocks has a data block. *)
Lemma leads_live k : forall c p x, leads k c p (Some x) -> exists path b, length path = k /\ offsetsOk path /\ look k (Some x) path = Some b.
Proof.
  induction k as [|k IH]; intros c p [q cs] H.
  - exists [], q. split; [done|]. split; [apply Forall_nil; done|done].
  - apply leads_node in H as (-> & Hq & Hlen & (i & y & Hi) & ws & Hws & Hsl). destruct (slots_get _ _ _ _ _ _ Hsl Hi) as (p2 & Hp2 & Hl2). destruct (IH _ _ _ Hl2) as (path & b & Hl & Ho & Hb).
    exists (Z.of_nat i :: path), b. split; [simpl; by rewrite Hl|]. split; [apply Forall_cons; split; [apply lookup_lt_Some in Hi; unfold PSO_SMALL_DIRECT_MAXBLK in *; lia|done]|].
    simpl. by rewrite Nat2Z.id, Hi.
Qed.

(** The levels of the pointers of a record. *)
Definition lvl (i : nat) : nat := i - 24.

Definition pathOk (path : list Z) : Prop :=
  match path with o :: rest => 0 <= o < PSO_SMALL_RECORD_MAXBLK + 3 /\ lvl (Z.to_nat o) = length rest /\ offsetsOk rest | [] => False end.

(** The logical block of a path. *)
Definition unpath (path : list Z) : Z :=
  match path with
  | [a] => a
  | [_; a] => 25 + a
  | [_; a; b] => 25 + 1024 + 1024 * a + b
  | [_; a; b; c] => 25 + 1024 + 2 ^ 20 + 2 ^ 20 * a + 1024 * b + c
  | _ => 0
  end.

Lemma path_parts l : 0 <= l -> Z.shiftr l 10 = l / 1024 /\ Z.shiftr l 20 = l / 2 ^ 20 /\ Z.land l 1023 = l mod 1024 /\ Z.land (Z.shiftr l 10) 1023 = l / 1024 mod 1024.
Proof. intros Hl. rewrite !Z.shiftr_div_pow2 by lia. change 1023 with (Z.ones 10). rewrite !Z.land_ones by lia. done. Qed.

Ltac dlia := Z.to_euclidean_division_equations; lia.

Lemma blockToPath_spec l : 0 <= l < PSO_SMALL_MAXBLK -> exists path, blockToPath l = Some path /\ pathOk path /\ unpath path = l.
Proof.
  intros Hl. change PSO_SMALL_MAXBLK with (25 + 1024 + 2 ^ 20 + 2 ^ 30) in Hl. unfold blockToPath, PSO_SMALL_RECORD_MAXBLK, PSO_SMALL_DIRECT_MAXBLK, PSO_SMALL_DIRECT_BITS.
  cbv zeta. change (Z.shiftl 1 (10 * 2)) with (2 ^ 20). change (10 * 2) with 20. change (1024 - 1) with 1023. unfold pathOk, offsetsOk, PSO_SMALL_RECORD_MAXBLK, PSO_SMALL_DIRECT_MAXBLK, lvl.
  destruct (Z.ltb_spec l 25). { eexists. split; [done|]. split; [split; [lia|]; split; [simpl; lia|by apply Forall_nil]|done]. }
  destruct (Z.ltb_spec (l - 25) 1024). { eexists. split; [done|]. split; [split; [lia|]; split; [done|]; rewrite Forall_singleton; lia|cbn [unpath]; dlia]. }
  destruct (Z.ltb_spec (l - 25 - 1024) (2 ^ 20)).
  { destruct (path_parts (l - 25 - 1024)) as (-> & _ & -> & _); [lia|]. eexists. split; [done|]. split; [split; [lia|]; split; [done|]; rewrite !Forall_cons; split_and!; try dlia; by apply Forall_nil|cbn [unpath]; dlia]. }
  destruct (path_parts (l - 25 - 1024 - 2 ^ 20)) as (_ & -> & -> & ->); [lia|]. rewrite (proj2 (Z.ltb_lt _ 1024)) by (apply Z.div_lt_upper_bound; lia).
  eexists. split; [done|]. split; [split; [lia|]; split; [done|]; rewrite !Forall_cons; split_and!; try dlia; by apply Forall_nil|cbn [unpath]; dlia].
Qed.

Lemma unpath_spec path : pathOk path -> 0 <= unpath path < PSO_SMALL_MAXBLK /\ blockToPath (unpath path) = Some path.
Proof.
  change PSO_SMALL_MAXBLK with (25 + 1024 + 2 ^ 20 + 2 ^ 30). unfold pathOk, lvl, PSO_SMALL_RECORD_MAXBLK. destruct path as [|o rest]; [done|]. intros (Ho & Hlv & Hoff).
  unfold blockToPath, PSO_SMALL_RECORD_MAXBLK, PSO_SMALL_DIRECT_BITS, offsetsOk, PSO_SMALL_DIRECT_MAXBLK in *. cbv zeta. change (Z.shiftl 1 (10 * 2)) with (2 ^ 20). change (10 * 2) with 20. change (1024 - 1) with 1023.
  destruct rest as [|a [|b [|c [|d rest]]]]; cbn [length] in Hlv; rewrite ?Forall_cons in Hoff; cbn [unpath]; [| | | |lia].
  - rewrite (proj2 (Z.ltb_lt o 25)) by lia. split; [lia|done].
  - rewrite (proj2 (Z.ltb_ge (25 + a) 25)), (proj2 (Z.ltb_lt (25 + a - 25) 1024)) by lia. split; [lia|]. do 3 f_equal; dlia.
  - rewrite (proj2 (Z.ltb_ge _ 25)), (proj2 (Z.ltb_ge _ 1024)), (proj2 (Z.ltb_lt _ _)) by lia. split; [lia|].
    destruct (path_parts (25 + 1024 + 1024 * a + b - 25 - 1024)) as (-> & _ & -> & _); [lia|]. f_equal. f_equal; [dlia|]. f_equal; [dlia|]. f_equal. dlia.
  - rewrite (proj2 (Z.ltb_ge _ 25)), (proj2 (Z.ltb_ge _ 1024)), (proj2 (Z.ltb_ge _ _)) by lia. split; [lia|].
    destruct (path_parts (25 + 1024 + 2 ^ 20 + 2 ^ 20 * a + 1024 * b + c - 25 - 1024 - 2 ^ 20)) as (_ & E1 & E2 & E3); [lia|]. change (2 ^ 20) with 1048576 in *. rewrite E1, E2, E3.
    rewrite (proj2 (Z.ltb_lt _ 1024)) by dlia. f_equal. f_equal; [dlia|]. f_equal; [dlia|]. f_equal; [dlia|]. f_equal. dlia.
Qed.

(** Logical blocks whose pointers are in the same indirect block. *)
Definition together (l x : Z) : Prop :=
  PSO_SMALL_RECORD_MAXBLK <= l /\ PSO_SMALL_RECORD_MAXBLK <= x /\
  (l - PSO_SMALL_RECORD_MAXBLK) / PSO_SMALL_DIRECT_MAXBLK = (x - PSO_SMALL_RECORD_MAXBLK) / PSO_SMALL_DIRECT_MAXBLK.

Lemma together_path l x o rest :
  together l x -> 0 <= x < PSO_SMALL_MAXBLK -> blockToPath l = Some (o :: rest) -> exists pre a b, rest = pre ++ [a] /\ blockToPath x = Some (o :: pre ++ [b]).
Proof.
  unfold together, PSO_SMALL_RECORD_MAXBLK, PSO_SMALL_DIRECT_MAXBLK. change PSO_SMALL_MAXBLK with (25 + 1024 + 2 ^ 20 + 2 ^ 30). intros (Hl & Hx & E) Hm.
  unfold blockToPath, PSO_SMALL_RECORD_MAXBLK, PSO_SMALL_DIRECT_MAXBLK, PSO_SMALL_DIRECT_BITS. cbv zeta. change (Z.shiftl 1 (10 * 2)) with (2 ^ 20). change (10 * 2) with 20. change (1024 - 1) with 1023.
  rewrite (proj2 (Z.ltb_ge l 25)), (proj2 (Z.ltb_ge x 25)) by lia.
  destruct (Z.ltb_spec (l - 25) 1024). { rewrite (proj2 (Z.ltb_lt (x - 25) 1024)) by dlia. intros [= <- <-]. by exists [], (l - 25), (x - 25). }
  assert (Hx1 : 1024 <= x - 25) by dlia. rewrite (proj2 (Z.ltb_ge (x - 25) 1024)) by lia. destruct (Z.ltb_spec (l - 25 - 1024) (2 ^ 20)).
  - rewrite (proj2 (Z.ltb_lt (x - 25 - 1024) (2 ^ 20))) by dlia. intros [= <- <-]. destruct (path_parts (l - 25 - 1024)) as (-> & _); [lia|]. destruct (path_parts (x - 25 - 1024)) as (-> & _); [lia|].
    assert (E1 : (l - 25 - 1024) / 1024 = (x - 25 - 1024) / 1024) by dlia. rewrite E1. by eexists [_], _, _.
  - assert (Hx2 : 2 ^ 20 <= x - 25 - 1024) by dlia. rewrite (proj2 (Z.ltb_ge (x - 25 - 1024) (2 ^ 20))) by lia. destruct (path_parts (l - 25 - 1024 - 2 ^ 20)) as (_ & -> & _ & ->); [lia|]. destruct (path_parts (x - 25 - 1024 - 2 ^ 20)) as (_ & -> & _ & ->); [lia|].
    assert (E1 : (l - 25 - 1024 - 2 ^ 20) / 1024 = (x - 25 - 1024 - 2 ^ 20) / 1024) by dlia.
    assert (E2 : (l - 25 - 1024 - 2 ^ 20) / 2 ^ 20 = (x - 25 - 1024 - 2 ^ 20) / 2 ^ 20) by (change (2 ^ 20) with (1024 * 1024) at 2 4; rewrite <- !Zdiv_Zdiv by lia; by rewrite E1).
    rewrite E1, E2. destruct (_ <? 1024); [|done]. intros [= <- <-]. by eexists [_; _], _, _.
Qed.

(** ** A file *)

Section paths.
Context (n nb r : Z).

Definition inFile (l : Z) : Prop := 0 <= l < PSO_SMALL_MAXBLK.

(** The disk block of a logical one. *)
Definition fmap (ts : list (option node)) (l : Z) : option Z :=
  if decide (inFile l) then path ← blockToPath l; match path with o :: rest => t ← ts !! Z.to_nat o; look (lvl (Z.to_nat o)) t rest | [] => None end else None.

(** The blocks [used0] belong to others, and hold [c0]. *)
Record FInv (s : state) (ts : list (option node)) (used0 used : gset Z) (c0 : gmap Z (list Z)) : Prop := {
  i_ok : ok n nb r s used;
  i_slots : slots lvl (cache s) (dBlk s) ts;
  i_len : length ts = 28%nat;
  i_nodup : NoDup (ownedAll lvl ts);
  i_own : forall x, x ∈ ownedAll lvl ts -> (x ∉ used0) /\ r <= x;
  i_used : used = used0 ∪ list_to_set (ownedAll lvl ts);
  i_frame : forall x, x ∈ used0 -> cache s !! x = c0 !! x;
}.

Section file.
Context (s : state) (ts : list (option node)) (used0 used : gset Z) (c0 : gmap Z (list Z)).
Hypothesis HI : FInv s ts used0 used c0.

(** The slot a logical block is under. *)
Lemma file_slot l : inFile l ->
  exists o rest t p, blockToPath l = Some (o :: rest) /\ pathOk (o :: rest) /\ unpath (o :: rest) = l /\ ts !! Z.to_nat o = Some t /\ dBlk s !! Z.to_nat o = Some p /\
    lvl (Z.to_nat o) = length rest /\ offsetsOk rest /\ leads (length rest) (cache s) p t /\ fmap ts l = look (length rest) t rest /\ NoDup (owned (length rest) t) /\
    (forall x, x ∈ owned (length rest) t -> x ∈ used /\ r <= x) /\ 0 <= o.
Proof.
  intros Hl. destruct (blockToPath_spec l Hl) as (path & E & Hp & Hu). destruct path as [|o rest]; [done|]. pose proof Hp as (Ho & Hlv & Hoff).
  destruct (lookup_lt_is_Some_2 ts (Z.to_nat o)) as [t Ht]; [rewrite (i_len _ _ _ _ _ HI); unfold PSO_SMALL_RECORD_MAXBLK in *; lia|].
  destruct (slots_get _ _ _ _ _ _ (i_slots _ _ _ _ _ HI) Ht) as (p & Hpp & Hld). exists o, rest, t, p. rewrite Hlv in Hld. split_and!; try done; try lia.
  - unfold fmap. rewrite decide_True by done. rewrite E. simpl. by rewrite Ht, <- Hlv.
  - rewrite <- Hlv. by apply (ownedAll_nodup lvl ts (Z.to_nat o)); [apply HI|].
  - rewrite <- Hlv. intros x Hx. assert (Hin : x ∈ ownedAll lvl ts) by (by apply (ownedAll_in lvl ts (Z.to_nat o) t)). split; [|by apply (i_own _ _ _ _ _ HI)].
    rewrite (i_used _ _ _ _ _ HI). apply elem_of_union_r, elem_of_list_to_set, Hin.
Qed.

(** The map after the tree of one slot changes. *)
Lemma fmap_set o rest t t' l :
  inFile l -> blockToPath l = Some (o :: rest) -> ts !! Z.to_nat o = Some t -> lvl (Z.to_nat o) = length rest -> 0 <= o ->
  (forall path, offsetsOk path -> path <> rest -> look (length rest) t' path = look (length rest) t path) ->
  fmap (<[Z.to_nat o := t']> ts) l = look (length rest) t' rest /\ forall l', l' <> l -> fmap (<[Z.to_nat o := t']> ts) l' = fmap ts l'.
Proof.
  intros Hl E Ht Hlv Ho Hoth. pose proof (lookup_lt_Some _ _ _ Ht) as Hlt. split.
  - unfold fmap. rewrite decide_True by done. rewrite E. simpl. rewrite list_lookup_insert_eq by done. simpl. by rewrite Hlv.
  - intros l' Hne. unfold fmap. destruct (decide (inFile l')) as [Hl'|]; [|done]. destruct (blockToPath_spec l' Hl') as (path & E' & Hp & Hu). rewrite E'. simpl.
    destruct path as [|o' rest']; [done|]. destruct Hp as (Ho' & Hlv' & Hoff'). destruct (decide (o' = o)) as [->|Hoo].
    + rewrite list_lookup_insert_eq, Ht by done. simpl. rewrite Hlv. apply Hoth; [done|]. intros ->. apply Hne.
      destruct (blockToPath_spec l Hl) as (path & E2 & _ & Hu2). rewrite E in E2. injection E2 as <-. congruence.
    + by rewrite list_lookup_insert_ne by lia.
Qed.

Lemma read_exact l : inFile l -> getDblk s l false = Some (default 0 (fmap ts l), s).
Proof.
  intros Hl. destruct (file_slot l Hl) as (o & rest & t & p & E & _ & _ & Ht & Hp & Hlv & Hoff & Hld & Ef & _). unfold getDblk. rewrite E. cbn [mbind option_bind].
  rewrite (get_only rest s None o (dBlk s) p t) by done. by rewrite Ef.
Qed.

Lemma write_exact l :
  inFile l -> Z.of_nat (size used) + 4 <= n ->
  exists b s' ts' used', getDblk s l true = Some (b, s') /\ FInv s' ts' used0 used' c0 /\ (Z.of_nat (size used') <= Z.of_nat (size used) + 4) /\
    fmap ts' l = Some b /\ (forall l', l' <> l -> fmap ts' l' = fmap ts l') /\ (fmap ts l = Some b \/ fmap ts l = None /\ b ∉ used).
Proof.
  intros Hl Hsz. destruct (file_slot l Hl) as (o & rest & t & p & E & Hpath & _ & Ht & Hp & Hlv & Hoff & Hld & Ef & Hnd & Hin & Ho).
  assert (Hlr : (length rest <= 3)%nat) by (rewrite <- Hlv; unfold lvl; destruct Hpath as [? _]; unfold PSO_SMALL_RECORD_MAXBLK in *; lia).
  unfold getDblk. rewrite E. cbn [mbind option_bind].
  destruct (get_slot n nb r rest s None o (dBlk s) p t used Hoff (i_ok _ _ _ _ _ HI) ltac:(lia) eq_refl Hp Hld Hnd) as (b & s' & p' & t' & new & Eg & [G1 G2 G3 G4 G5 G6 (G7 & G8 & G9) G10 G11 G12 G13]); [intros x Hx; by apply Hin|done|].
  pose proof (i_used _ _ _ _ _ HI) as Hused. assert (Hown : ownedAll lvl (<[Z.to_nat o := t']> ts) ≡ₚ new ++ ownedAll lvl ts).
  { apply (ownedAll_change lvl ts (Z.to_nat o) t t' [] new Ht). by rewrite Hlv. }
  destruct (fmap_set o rest t t' l Hl E Ht Hlv Ho G12) as [F1 F2].
  exists b, s', (<[Z.to_nat o := t']> ts), (list_to_set new ∪ used). split; [exact Eg|]. split; [split|split_and!].
  - done.
  - simpl in G1. injection G1 as ->. apply (slots_set lvl (cache s) _ _ _ _ _ t); try done; [apply HI|apply HI|by rewrite Hlv|].
    intros j u x Hj Hne Hx. apply G10; [|rewrite <- Hlv; by apply (ownedAll_disjoint lvl ts j (Z.to_nat o) u t); [apply HI|..]|done].
    rewrite Hused. apply elem_of_union_r, elem_of_list_to_set. by apply (ownedAll_in lvl ts j u).
  - rewrite length_insert. apply HI.
  - rewrite Hown. apply NoDup_app. split; [done|]. split; [|apply HI]. intros x Hx Hx'. apply G8 in Hx as [Hx _]. apply Hx. rewrite Hused. apply elem_of_union_r, elem_of_list_to_set, Hx'.
  - intros x Hx. rewrite Hown in Hx. apply elem_of_app in Hx as [Hx|Hx]; [|by apply (i_own _ _ _ _ _ HI)]. apply G8 in Hx as [Hx Hr]. rewrite Hused in Hx. set_solver.
  - rewrite Hown, list_to_set_app_L, Hused. set_solver.
  - intros x Hx. rewrite G10; [by apply (i_frame _ _ _ _ _ HI)|rewrite Hused; set_solver| |done].
    intros H. rewrite <- Hlv in H. destruct (i_own _ _ _ _ _ HI x) as [Hn _]; [by apply (ownedAll_in lvl ts (Z.to_nat o) t)|done].
  - rewrite size_union by (intros x Hx Hx'; rewrite elem_of_list_to_set in Hx; by apply G8 in Hx as [? _]). rewrite size_list_to_set by done. lia.
  - by rewrite F1.
  - done.
  - rewrite Ef. destruct G13 as [?|[? Hb]]; [by left|right]. split; [done|]. by apply G8.
Qed.

(** A tree gives blocks back. *)
Lemma shrink i s' p' t t' gone :
  ts !! i = Some t -> dBlk s' = <[i := p']> (dBlk s) -> leads (lvl i) (cache s') p' t' -> owned (lvl i) t ≡ₚ gone ++ owned (lvl i) t' ->
  ok n nb r s' (used ∖ list_to_set gone) -> (forall x, x ∉ owned (lvl i) t -> cache s' !! x = cache s !! x) ->
  FInv s' (<[i := t']> ts) used0 (used ∖ list_to_set gone) c0.
Proof.
  intros Ht Hd Hld Hg Hok Hc. pose proof (i_used _ _ _ _ _ HI) as Hused.
  assert (Hown : ownedAll lvl ts ≡ₚ gone ++ ownedAll lvl (<[i := t']> ts)).
  { symmetry. apply (ownedAll_change lvl ts i t t' gone [] Ht). simpl. by symmetry. }
  pose proof (i_nodup _ _ _ _ _ HI) as Hnd'. rewrite Hown in Hnd'. apply NoDup_app in Hnd' as (N1 & N2 & N3). split.
  - done.
  - rewrite Hd. apply (slots_set lvl (cache s) _ _ _ _ _ t); try done; [apply HI|apply HI|].
    intros j u x Hj Hne Hx. apply Hc. by apply (ownedAll_disjoint lvl ts j i u t); [apply HI|..].
  - rewrite length_insert. apply HI.
  - done.
  - intros x Hx. apply (i_own _ _ _ _ _ HI). rewrite Hown. apply elem_of_app. by right.
  - assert (Hg' : forall x, x ∈ gone -> x ∉ used0) by (intros x Hx; apply (i_own _ _ _ _ _ HI); rewrite Hown; apply elem_of_app; by left).
    rewrite Hused, Hown, list_to_set_app_L. apply set_eq. intros x. rewrite elem_of_difference, !elem_of_union, !elem_of_list_to_set. split; [tauto|].
    intros [Hx|Hx]; split; try tauto; intros Hx'; [by apply (Hg' x)|by apply (N2 x)].
  - intros x Hx. rewrite Hc; [by apply (i_frame _ _ _ _ _ HI)|].
    intros H. destruct (i_own _ _ _ _ _ HI x) as [Hn _]; [by apply (ownedAll_in lvl ts i t)|done].
Qed.

(** Freeing a block leaves a pointer in its indirect block, if it has one. *)
Definition spared (l : Z) : Prop := fmap ts l = None \/ l < PSO_SMALL_RECORD_MAXBLK \/ exists x, x <> l /\ together l x /\ fmap ts x <> None.

Lemma free_exact_block l :
  inFile l -> spared l -> exists s' ts' used', freeDblk s l = Some s' /\ FInv s' ts' used0 used' c0 /\ (Z.of_nat (size used') <= Z.of_nat (size used)) /\
    fmap ts' l = None /\ forall l', l' <> l -> fmap ts' l' = fmap ts l'.
Proof.
  intros Hl Hsp. destruct (file_slot l Hl) as (o & rest & t & p & E & Hpath & _ & Ht & Hp & Hlv & Hoff & Hld & Ef & Hnd & Hin & Ho).
  unfold freeDblk. rewrite E. cbn [mbind option_bind]. pose proof (descend_spec rest s None o (dBlk s) p t Hoff eq_refl Hp Hld) as Hd.
  destruct (look (length rest) t rest) as [b|] eqn:El.
  2:{ destruct Hd as (path & -> & Hr). cbn [mbind option_bind]. rewrite Hr. exists s, ts, used. by split_and!. }
  rewrite Hd. cbn [mbind option_bind].
  destruct (free_slot n nb r rest s None o (dBlk s) p t used b Hoff (i_ok _ _ _ _ _ HI) eq_refl Hp Hld Hnd Hin) as (s' & p' & t' & gone & go & -> & [F1 F2 F3 F4 F5 F6 F7 F8 F9 F10]); [done|done|].
  cbn [mbind option_bind]. simpl in F1. injection F1 as F1. destruct (fmap_set o rest t t' l Hl E Ht Hlv Ho F8) as [M1 M2].
  assert (Hrel : releaseAll s' (pathOf t None o rest).*1 = Some tt).
  { rewrite (pathOf_blocks rest t None o b El). apply releaseAll_ok, Forall_cons. split; [done|]. apply Forall_fmap. destruct Hsp as [Hn|[Hlt|(x & Hx & Htog & Hsome)]]; [congruence| |].
    - assert (rest = []) as -> by (unfold blockToPath in E; rewrite (proj2 (Z.ltb_lt _ _) Hlt) in E; by simplify_eq). destruct t as [[? ?]|]; by apply Forall_nil.
    - rewrite <- M2 in Hsome by done. assert (Hxf : inFile x) by (unfold fmap in Hsome; by destruct (decide (inFile x))).
      destruct (together_path l x o rest Htog Hxf E) as (pre & a & c & -> & Ex). unfold fmap in Hsome. rewrite decide_True in Hsome by done. rewrite Ex in Hsome. simpl in Hsome.
      rewrite list_lookup_insert_eq in Hsome by (by eapply lookup_lt_Some). simpl in Hsome. rewrite Hlv in Hsome. destruct (look _ t' (pre ++ [c])) as [d|] eqn:Ed; [|done].
      pose proof (pathBlocks_cached _ _ _ _ _ _ F3 Ed) as Hc. rewrite F9 in Hc by congruence. rewrite (pathBlocks_last pre t a c). exact Hc. }
  rewrite Hrel. cbn [mbind option_bind]. exists s', (<[Z.to_nat o := t']> ts), (used ∖ list_to_set gone). split; [done|]. split_and!.
  - apply (shrink (Z.to_nat o) s' p' t t' gone); rewrite ?Hlv; try done. intros x Hx. by apply F6.
  - apply inj_le, subseteq_size. set_solver.
  - by rewrite M1.
  - done.
Qed.

(** No two logical blocks share a disk block, and none is a block of others. *)
Lemma fmap_inj l l' b : fmap ts l = Some b -> fmap ts l' = Some b -> l = l'.
Proof.
  intros H H'. assert (Hl : inFile l) by (unfold fmap in H; by destruct (decide (inFile l))). assert (Hl' : inFile l') by (unfold fmap in H'; by destruct (decide (inFile l'))).
  destruct (file_slot l Hl) as (o & rest & t & p & _ & _ & U & Ht & _ & Hlv & Hoff & _ & Ef & Hnd & _ & Ho). destruct (file_slot l' Hl') as (o' & rest' & t' & p' & _ & _ & U' & Ht' & _ & Hlv' & Hoff' & _ & Ef' & _ & _ & Ho').
  rewrite Ef in H. rewrite Ef' in H'. destruct (decide (o = o')) as [->|Hne].
  - assert (t = t') as <- by congruence. assert (El : length rest = length rest') by congruence. rewrite El in *. assert (rest = rest') as <- by (by eapply look_inj). congruence.
  - exfalso. apply (ownedAll_disjoint lvl ts (Z.to_nat o) (Z.to_nat o') t t' b (i_nodup _ _ _ _ _ HI) Ht Ht'); [lia|..]; rewrite ?Hlv, ?Hlv'; by eapply look_owned.
Qed.

Lemma fmap_own l b : fmap ts l = Some b -> (b ∉ used0) /\ b ∈ used.
Proof.
  intros H. assert (Hl : inFile l) by (unfold fmap in H; by destruct (decide (inFile l))).
  destruct (file_slot l Hl) as (o & rest & t & p & _ & _ & _ & Ht & _ & Hlv & _ & _ & Ef & _). rewrite Ef in H. apply look_owned in H. rewrite <- Hlv in H.
  assert (Hin : b ∈ ownedAll lvl ts) by (by apply (ownedAll_in lvl ts (Z.to_nat o) t)). split; [by apply (i_own _ _ _ _ _ HI)|]. rewrite (i_used _ _ _ _ _ HI). apply elem_of_union_r, elem_of_list_to_set, Hin.
Qed.

(** Without data blocks there are no indirect blocks. *)
Lemma fmap_empty : (forall l, fmap ts l = None) -> used = used0.
Proof.
  intros H. rewrite (i_used _ _ _ _ _ HI). enough (E : ownedAll lvl ts = []) by (rewrite E; apply union_empty_r_L).
  assert (Hnone : forall i t, ts !! i = Some t -> t = None).
  { intros i t Hi. destruct t as [x|]; [|done]. exfalso. destruct (slots_get _ _ _ _ _ _ (i_slots _ _ _ _ _ HI) Hi) as (p & _ & Hld). destruct (leads_live _ _ _ _ Hld) as (rest & b & Hl & Hoff & Hb).
    pose proof (lookup_lt_Some _ _ _ Hi) as Hlt. rewrite (i_len _ _ _ _ _ HI) in Hlt.
    destruct (unpath_spec (Z.of_nat i :: rest)) as [Hr E]; [split; [unfold PSO_SMALL_RECORD_MAXBLK; lia|]; by rewrite Nat2Z.id|].
    specialize (H (unpath (Z.of_nat i :: rest))). unfold fmap in H. rewrite decide_True in H by done. rewrite E in H. simpl in H. rewrite Nat2Z.id, Hi in H. simpl in H. congruence. }
  unfold ownedAll. generalize lvl. clear -Hnone. induction ts as [|t l IH]; intros f; [done|]. simpl. rewrite (Hnone 0%nat t eq_refl). destruct (f 0%nat); simpl; apply (IH (fun i => Hnone (S i)) (f ∘ S)).
Qed.

End file.

End paths.

(** ** A new file *)

(** A record without blocks. *)
Definition newFile (c : gmap Z (list Z)) (sb : SuperBlock) : state := mkState (replicate 28 0) c sb.

Lemma newFile_inv n nb r c sb used : Inv sb used n nb r -> FInv n nb r (newFile c sb) (replicate 28 None) used used c.
Proof.
  intros HI. assert (E : ownedAll lvl (replicate 28 None) = []) by done. split; rewrite ?E; try done.
  - split; [done|]. intros i p t [-> _]%lookup_replicate [-> _]%lookup_replicate. by destruct (lvl i).
  - apply NoDup_nil_2.
  - intros x []%elem_of_nil.
  - simpl. by rewrite union_empty_r_L.
Qed.

Lemma fmap_new l : fmap (replicate 28 None) l = None.
Proof.
  unfold fmap. destruct (decide (inFile l)); [|done]. destruct (blockToPath l) as [[|o rest]|]; try done. cbn [mbind option_bind].
  destruct (replicate 28 None !! Z.to_nat o) as [t|] eqn:Et; [|done]. apply lookup_replicate in Et as [-> _]. simpl. by destruct (lvl (Z.to_nat o)).
Qed.

End PSOFile.
