(* ===== verification/PSOTruncate.v ===== *)
(** * PSOTruncate: cutting a KFS file, truncate of os/servers/kfs/PSOSmall.C

    The loop of truncate walks through the trees of a file with a depth and an
    array of offsets.  Started in the direct blocks it frees everything from there
    on, and ends. *)

From stdpp Require Import base numbers option gmap list.
From S2P Require Import K42 Prelude DirBlock SuperBlock PSOSmall PSOFile.

Module PSOTruncate.

Import SuperBlock PSOSmall PSOFile.

(** ** Rounds of the loop *)

Fixpoint steps (m : nat) (w : sweep) : option (sweep + state) :=
  match m with
  | O => Some (inl w)
  | S m => r ← sweep_step w; match r with inl w => steps m w | inr s => Some (inr s) end
  end.

Lemma steps_add a b w : steps (a + b) w = (r ← steps a w; match r with inl w => steps b w | inr s => Some (inr s) end).
Proof. revert w. induction a as [|a IH]; intros w; [done|]. simpl. destruct (sweep_step w) as [[w1|s]|]; [|done|done]. simpl. apply IH. Qed.

Lemma rounds_steps k w : rounds k w = steps (2 ^ k) w.
Proof.
  revert w. induction k as [|k IH]; intros w; cbn [rounds].
  - change (2 ^ 0)%nat with 1%nat. simpl. by destruct (sweep_step w) as [[?|?]|].
  - replace (2 ^ S k)%nat with (2 ^ k + 2 ^ k)%nat by (simpl; lia). rewrite steps_add, IH. destruct (steps (2 ^ k) w) as [[w1|s]|]; [|done|done]. simpl. apply IH.
Qed.

Lemma steps_end m m' w s : steps m w = Some (inr s) -> (m <= m')%nat -> steps m' w = Some (inr s).
Proof. intros E Hm. replace m' with (m + (m' - m))%nat by lia. by rewrite steps_add, E. Qed.

Lemma rounds_enough k m w s : steps m w = Some (inr s) -> Z.of_nat m <= 2 ^ Z.of_nat k -> rounds k w = Some (inr s).
Proof. intros E Hm. rewrite rounds_steps. apply (steps_end m); [done|]. apply Nat2Z.inj_le. by rewrite Nat2Z.inj_pow. Qed.

Section truncating.
Context (n nb r : Z).

(** A pointer and all blocks below it are cleared. *)
Record cleared (k : nat) (s s' : state) (cur : option Z) (ws : list Z) (o : Z) (t : option node) (used : gset Z) : Prop := {
  c_ptrs : ptrsOf s' cur = Some (<[Z.to_nat o := 0]> ws);
  c_rec : cur <> None -> dBlk s' = dBlk s;
  c_ok : ok n nb r s' (used ∖ list_to_set (owned k t));
  c_frame : forall x, x ∉ owned k t -> cur <> Some x -> cache s' !! x = cache s !! x;
}.

(** The round that frees a data block, or an indirect one that is empty. *)
Definition dropPtr (s : state) (cur : option Z) (o : Z) : option state :=
  p ← getPtr s cur o;
  if p =? 0 then Some s else freePtr s cur o p.

Lemma drop_spec s cur ws o p used :
  ok n nb r s used -> ptrsOf s cur = Some ws -> ws !! Z.to_nat o = Some p -> (p <> 0 -> r <= p /\ p ∈ used /\ cur <> Some p) ->
  exists s', dropPtr s cur o = Some s' /\ ptrsOf s' cur = Some (<[Z.to_nat o := 0]> ws) /\ (cur <> None -> dBlk s' = dBlk s) /\
    ok n nb r s' (if p =? 0 then used else used ∖ {[p]}) /\ forall x, (p <> 0 -> x <> p) -> cur <> Some x -> cache s' !! x = cache s !! x.
Proof.
  intros Hok Hw Hp Hu. unfold dropPtr, getPtr. rewrite Hw. cbn [mbind option_bind]. rewrite Hp. cbn [mbind option_bind]. destruct (Z.eqb_spec p 0) as [->|Hp0].
  - exists s. rewrite list_insert_id by done. by split_and!.
  - destruct (Hu Hp0) as (Hr & Hin & Hc). destruct (freePtr_ok n nb r s cur ws o p used Hok Hw (lookup_lt_Some _ _ _ Hp) Hr Hin Hc) as (s1 & -> & Hok' & Ew & Ed & Ec).
    exists s1. split; [done|]. split; [done|]. split; [done|]. split; [done|]. intros x Hx. apply Ec. by apply Hx.
Qed.

(** ** One pointer *)

(** Offset [o0] of the record: at depth [d] the pointers have [k] levels below them. *)
Definition levelAt (o0 : Z) (d k : nat) : Prop := (d = 0%nat /\ o0 < 25 /\ k = 0%nat) \/ (25 <= o0 < 28 /\ o0 + 1 - 25 = Z.of_nat (d + k)).

Record here (w : sweep) (d : nat) (cur : option Z) (o0 o : Z) : Prop := {
  h_depth : depth w = Z.of_nat d;
  h_d : (d <= 3)%nat;
  h_dblk : dblk w = cur;
  h_cur : match d with O => cur = None | _ => cur <> None /\ blocks w !! d = Some cur end;
  h_blocks : length (blocks w) = 4%nat;
  h_below : forall i, (d < i < 4)%nat -> blocks w !! i = Some None;
  h_offsets : length (offsets w) = 4%nat;
  h_o0 : offsets w !! 0%nat = Some o0;
  h_o : offsets w !! d = Some o;
  h_range : 0 <= o0 < 28 /\ 0 <= o /\ (d <> 0%nat -> o <= 1024);
}.

(** [w'] is at offset [o], with all above as before and no other blocks held. *)
Record next (w w' : sweep) (d : nat) (cur : option Z) (o : Z) : Prop := {
  x_depth : depth w' = depth w;
  x_dblk : dblk w' = cur;
  x_blocks : blocks w' = blocks w;
  x_offsets : length (offsets w') = 4%nat /\ forall i, (i < d)%nat -> offsets w' !! i = offsets w !! i;
  x_o : offsets w' !! d = Some o;
}.

Fixpoint bnd (k : nat) : Z := match k with O => 1 | S k => 2 + 1024 * bnd k end.

Lemma bnd_pos k : 1 <= bnd k.
Proof. induction k; simpl; lia. Qed.

Definition Visits (k : nat) : Prop := forall w d cur o0 o ws p t used,
  here w d cur o0 o -> levelAt o0 d k -> (d <> 0%nat -> o < 1024) -> ok n nb r (mem w) used ->
  ptrsOf (mem w) cur = Some ws -> ws !! Z.to_nat o = Some p -> leads k (cache (mem w)) p t -> NoDup (owned k t) ->
  (forall x, x ∈ owned k t -> x ∈ used /\ r <= x) -> (forall c, cur = Some c -> c ∉ owned k t) ->
  exists m w', Z.of_nat m <= bnd k /\ steps m w = Some (inl w') /\ next w w' d cur (o + 1) /\ cleared k (mem w) (mem w') cur ws o t used.

(** What a round does to a pointer that is not at the end of its block. *)
Lemma step_inside w d cur o0 o :
  here w d cur o0 o -> (d <> 0%nat -> o < 1024) ->
  sweep_step w = (w ← (if (o0 <? PSO_SMALL_RECORD_MAXBLK) || (o0 + 1 - PSO_SMALL_RECORD_MAXBLK =? depth w) then atLeaf w else atInternal w); Some (inl w)).
Proof.
  intros [H1 H2 H3 H4 H5 Hbl H6 H7 H8 H9] Ho. unfold sweep_step. rewrite H7. cbn [mbind option_bind]. unfold PSO_SMALL_RECORD_MAXBLK at 1. rewrite (proj2 (Z.ltb_lt o0 (25 + 3))) by lia.
  rewrite H1, Nat2Z.id, H8. cbn [mbind option_bind]. destruct d as [|d]; [done|]. rewrite (proj2 (Z.eqb_neq o PSO_SMALL_DIRECT_MAXBLK)) by (unfold PSO_SMALL_DIRECT_MAXBLK; specialize (Ho ltac:(lia)); lia).
  by rewrite andb_false_r.
Qed.

Lemma visit_leaf : Visits 0.
Proof.
  intros w d cur o0 o ws p t used HH HL Ho Hok Hw Hp Hld Hnd Hin Hcur. pose proof HH as [H1 H2 H3 H4 H5 Hbl H6 H7 H8 H9].
  assert (Hle : (o0 <? PSO_SMALL_RECORD_MAXBLK) || (o0 + 1 - PSO_SMALL_RECORD_MAXBLK =? depth w) = true).
  { apply orb_true_iff. unfold PSO_SMALL_RECORD_MAXBLK. destruct HL as [(_ & ? & _)|[_ ?]]; [left; by apply Z.ltb_lt|right; apply Z.eqb_eq; rewrite H1; lia]. }
  destruct (drop_spec (mem w) cur ws o p used Hok Hw Hp) as (s' & E & Ew & Ed & Hok' & Ec).
  { intros Hp0. destruct t as [[q cs]|]; simpl in Hld; [|done]. destruct Hld as (-> & _). destruct (Hin q) as [Hu Hr]; [left|]. split; [done|]. split; [done|]. intros Hc. apply (Hcur q Hc). left. }
  exists 1%nat, (mkSweep (depth w) (<[d := o + 1]> (offsets w)) (blocks w) cur s'). split; [simpl; lia|]. split; [|split].
  - cbn [steps]. rewrite (step_inside w d cur o0 o HH Ho), Hle. unfold atLeaf. rewrite H1, Nat2Z.id, H8. cbn [mbind option_bind]. rewrite H3. unfold dropPtr in E. destruct (getPtr (mem w) cur o) as [q|]; [|done]. cbn [mbind option_bind] in *.
    rewrite E. cbn [mbind option_bind]. done.
  - split; simpl; try done. { split; [by rewrite length_insert|]. intros i Hi. rewrite list_lookup_insert_ne by lia. done. } { apply list_lookup_insert_eq. lia. }
  - split; simpl; try done.
    2:{ intros x Hx Hc. apply Ec; [|done]. intros Hp0 ->. destruct t as [[q cs]|]; simpl in Hld; [|done]. destruct Hld as (-> & _). apply Hx. left. }
    destruct t as [[q cs]|]; simpl in Hld.
    + destruct Hld as (-> & Hq & ->). rewrite (proj2 (Z.eqb_neq q 0)) in Hok' by done. simpl. by rewrite union_empty_r_L.
    + subst p. simpl. by rewrite difference_empty_L.
Qed.

Lemma next_refl w d cur o0 o : here w d cur o0 o -> next w w d cur o.
Proof. intros []. by split. Qed.

Lemma next_trans w1 w2 w3 d cur o o' : next w1 w2 d cur o -> next w2 w3 d cur o' -> next w1 w3 d cur o'.
Proof.
  intros [A1 A2 A3 [A5 A6] A7] [B1 B2 B3 [B5 B6] B7]. split; try congruence. split; [done|]. intros i Hi. rewrite B6; auto.
Qed.

(** Below the record the offset in the record stays. *)
Lemma here_next w w' d cur o0 o o' : here w (S d) cur o0 o -> next w w' (S d) cur o' -> 0 <= o' <= 1024 -> here w' (S d) cur o0 o'.
Proof.
  intros [H1 H2 H3 [H4 H4'] H5 Hbl H6 H7 H8 H9] [A1 A2 A3 [A5 A6] A7] Ho. split; rewrite ?A3; try done; [congruence|rewrite A6 by lia; done|split; [lia|]; split; lia].
Qed.

Lemma ownedAll_snoc f ts j t : ts !! j = Some t -> ownedAll f (take (S j) ts) = ownedAll f (take j ts) ++ owned (f j) t.
Proof.
  intros Hj. pose proof (lookup_lt_Some _ _ _ Hj). rewrite (take_S_r ts j t Hj). unfold ownedAll. rewrite imap_app, concat_app. simpl. rewrite length_take_le by lia. by rewrite Nat.add_0_r, app_nil_r.
Qed.

Lemma ownedAll_take f ts j x : x ∈ ownedAll f (take j ts) -> exists i t, (i < j)%nat /\ ts !! i = Some t /\ x ∈ owned (f i) t.
Proof.
  induction j as [|j IH]; [by intros []%elem_of_nil|]. destruct (ts !! j) as [t|] eqn:Ej.
  - rewrite (ownedAll_snoc f ts j t Ej). intros [H|H]%elem_of_app; [destruct (IH H) as (i & u & ? & ? & ?); exists i, u; split_and!; try done; lia|exists j, t; split_and!; try done; lia].
  - apply lookup_ge_None in Ej. rewrite take_ge by lia. intros H. rewrite take_ge in IH by lia. destruct (IH H) as (i & u & ? & ? & ?). exists i, u. split_and!; try done. lia.
Qed.

Lemma inner_level w d cur o0 o k :
  here w d cur o0 o -> levelAt o0 d (S k) -> (o0 <? PSO_SMALL_RECORD_MAXBLK) || (o0 + 1 - PSO_SMALL_RECORD_MAXBLK =? depth w) = false.
Proof.
  intros [H1 _ _ _ _ _ _ _ _ _] HL. unfold PSO_SMALL_RECORD_MAXBLK. destruct HL as [(_ & _ & ?)|[? ?]]; [lia|]. apply orb_false_iff. split; [apply Z.ltb_ge|apply Z.eqb_neq]; lia.
Qed.

(** ** All pointers of an indirect block *)

Section children.
Context (k d : nat) (w1 : sweep) (p o0 : Z) (ws : list Z) (cs : list (option node)) (used : gset Z).
Hypothesis HV : Visits k.
Hypothesis HH : here w1 (S d) (Some p) o0 0.
Hypothesis HL : levelAt o0 (S d) k.
Hypothesis Hok : ok n nb r (mem w1) used.
Hypothesis Hws : cache (mem w1) !! p = Some ws.
Hypothesis Hsl : slots (fun _ => k) (cache (mem w1)) ws cs.
Hypothesis Hlen : length cs = 1024%nat.
Hypothesis Hnd : NoDup (p :: ownedAll (fun _ => k) cs).
Hypothesis Hin : forall x, x ∈ ownedAll (fun _ => k) cs -> x ∈ used /\ r <= x.

Record passed (j : nat) (w' : sweep) : Prop := {
  p_next : next w1 w' (S d) (Some p) (Z.of_nat j);
  p_rec : dBlk (mem w') = dBlk (mem w1);
  p_ws : cache (mem w') !! p = Some (replicate j 0 ++ drop j ws);
  p_ok : ok n nb r (mem w') (used ∖ list_to_set (ownedAll (fun _ => k) (take j cs)));
  p_frame : forall x, x ∉ ownedAll (fun _ => k) (take j cs) -> x <> p -> cache (mem w') !! x = cache (mem w1) !! x;
}.

Lemma pass_one j w' : (j < 1024)%nat -> passed j w' -> exists m w2, Z.of_nat m <= bnd k /\ steps m w' = Some (inl w2) /\ passed (S j) w2.
Proof.
  intros Hj [P1 P2 P3 P4 P5]. destruct (lookup_lt_is_Some_2 cs j) as [t Ht]; [lia|]. destruct (slots_get _ _ _ _ _ _ Hsl Ht) as (q & Hq & Hld).
  pose proof Hnd as [Hnp Hnd']%NoDup_cons. pose proof (proj1 Hsl) as Hlw.
  assert (Hown : forall x, x ∈ owned k t -> x ∈ ownedAll (fun _ => k) cs) by (intros x; by apply (ownedAll_in (fun _ => k) cs j t)).
  assert (Hdis : forall x, x ∈ owned k t -> x ∉ ownedAll (fun _ => k) (take j cs)).
  { intros x Hx H. apply ownedAll_take in H as (i & u & Hi & Hu & Hxu). by apply (ownedAll_disjoint (fun _ => k) cs i j u t x Hnd' Hu Ht ltac:(lia)). }
  assert (Hnpt : p ∉ owned k t) by (intros H; by apply Hnp, Hown).
  destruct (HV w' (S d) (Some p) o0 (Z.of_nat j) (replicate j 0 ++ drop j ws) q t (used ∖ list_to_set (ownedAll (fun _ => k) (take j cs)))) as (m & w2 & Hm & E & Hnx & [C1 C2 C3 C4]); try done.
  - apply (here_next w1 _ _ _ _ 0); [done|done|lia].
  - lia.
  - rewrite Nat2Z.id, lookup_app_r by (rewrite length_replicate; lia). rewrite length_replicate, Nat.sub_diag, lookup_drop, Nat.add_0_r. done.
  - apply (leads_frame k (cache (mem w1))); [done|]. intros x Hx. apply P5; [by apply Hdis|]. intros ->. done.
  - by apply (ownedAll_nodup (fun _ => k) cs j).
  - intros x Hx. destruct (Hin x (Hown x Hx)) as [Hu Hr]. split; [|done]. apply elem_of_difference. rewrite elem_of_list_to_set. split; [done|by apply Hdis].
  - intros c [= <-]. done.
  - exists m, w2. split; [done|]. split; [done|]. split.
    + replace (Z.of_nat (S j)) with (Z.of_nat j + 1) by lia. by eapply next_trans.
    + rewrite C2; done.
    + simpl in C1. rewrite C1, Nat2Z.id. f_equal. rewrite insert_app_r_alt by (rewrite length_replicate; lia). rewrite length_replicate, Nat.sub_diag, (drop_S ws q j Hq). simpl.
      by rewrite cons_middle, app_assoc, <- replicate_cons_app.
    + rewrite (ownedAll_snoc _ _ _ _ Ht), list_to_set_app_L, <- difference_difference_l_L. done.
    + intros x Hx Hxp. rewrite (ownedAll_snoc _ _ _ _ Ht), elem_of_app in Hx. rewrite C4; [apply P5; tauto|tauto|congruence].
Qed.

Lemma pass_all j : (j <= 1024)%nat -> exists m w', Z.of_nat m <= Z.of_nat j * bnd k /\ steps m w1 = Some (inl w') /\ passed j w'.
Proof.
  induction j as [|j IH]; intros Hj.
  - exists 0%nat, w1. split; [lia|]. split; [done|]. split; try done; [by eapply next_refl|]. simpl. by rewrite difference_empty_L.
  - destruct (IH ltac:(lia)) as (m & w' & Hm & E & HP). destruct (pass_one j w' ltac:(lia) HP) as (m2 & w2 & Hm2 & E2 & HP2).
    exists (m + m2)%nat, w2. split; [lia|]. split; [|done]. rewrite steps_add, E. exact E2.
Qed.

End children.

(** ** An indirect block *)

Definition child (w : sweep) (d : nat) (p : Z) : sweep :=
  mkSweep (depth w + 1) (<[S d := 0]> (offsets w)) (<[S d := Some p]> (blocks w)) (Some p) (mem w).

Lemma child_here w d cur o0 o p : here w d cur o0 o -> (d < 3)%nat -> here (child w d p) (S d) (Some p) o0 0.
Proof.
  intros [H1 H2 H3 H4 H5 Hbl H6 H7 H8 H9] Hd. unfold child. split; simpl; rewrite ?length_insert; try done; try lia.
  - split; [done|]. apply list_lookup_insert_eq. lia.
  - intros i Hi. rewrite list_lookup_insert_ne by lia. apply Hbl. lia.
  - rewrite list_lookup_insert_ne by lia. done.
  - apply list_lookup_insert_eq. lia.
Qed.

(** The step back to the parent. *)
Lemma step_back w w' d cur o0 o ws p s' :
  here w d cur o0 o -> (d < 3)%nat -> next (child w d p) w' (S d) (Some p) 1024 -> cache (mem w') !! p = Some ws -> length ws = 1024%nat -> allZero ws = true ->
  dropPtr (mem w') cur o = Some s' ->
  exists w2, steps 1 w' = Some (inl w2) /\ next w w2 d cur (o + 1) /\ mem w2 = s'.
Proof.
  intros HH Hd HN Hws Hlen Hz E. pose proof (here_next _ _ _ _ _ _ _ (child_here _ _ _ _ _ p HH Hd) HN ltac:(lia)) as [B1 B2 B3 B4 B5 _ B6 B7 B8 B9].
  destruct HH as [H1 H2 H3 H4 H5 Hbl H6 H7 H8 H9]. destruct HN as [N1 N2 N4 [N5 N6] N7]. simpl in N1, N4, N6.
  assert (Ho : offsets w' !! d = Some o). { rewrite N6, list_lookup_insert_ne by lia. done. }
  assert (Hb : forall i, (i <= d)%nat -> blocks w' !! i = blocks w !! i). { intros i Hi. rewrite N4, list_lookup_insert_ne by lia. done. }
  eexists. split; [|split].
  - cbn [steps]. unfold sweep_step. rewrite B7. cbn [mbind option_bind]. unfold PSO_SMALL_RECORD_MAXBLK at 1. rewrite (proj2 (Z.ltb_lt o0 (25 + 3))) by lia. rewrite B1, Nat2Z.id, B8. cbn [mbind option_bind].
    rewrite (proj2 (Z.eqb_neq (Z.of_nat (S d)) 0)) by lia. change (1024 =? PSO_SMALL_DIRECT_MAXBLK) with true. simpl (negb _ && _). cbv iota. unfold endOfBlock. rewrite B1, Nat2Z.id, B3. simpl (ptrsOf _ _). rewrite Hws. cbn [mbind option_bind].
    change (Z.to_nat PSO_SMALL_DIRECT_MAXBLK) with 1024%nat. rewrite take_ge by lia. rewrite Hz, bool_decide_false by lia. simpl (assertK _). cbn [mbind option_bind].
    rewrite (proj2 B4). unfold release. rewrite bool_decide_eq_true_2 by (by eexists). simpl (assertK _). cbn [mbind option_bind].
    replace (Z.of_nat (S d) - 1) with (Z.of_nat d) by lia. rewrite Nat2Z.id.
    replace (if Z.of_nat d =? 0 then Some None else _) with (Some cur).
    2:{ destruct d as [|d]; [by rewrite H4|]. rewrite (proj2 (Z.eqb_neq (Z.of_nat (S d)) 0)) by lia. rewrite list_lookup_insert_ne by lia. rewrite Hb by lia. destruct H4 as [Hc ->]. by destruct cur. }
    cbn [mbind option_bind]. rewrite list_lookup_insert_ne by lia. rewrite Ho. cbn [mbind option_bind]. unfold dropPtr in E. destruct (getPtr (mem w') cur o) as [q|]; [|done]. cbn [mbind option_bind] in *.
    replace (if negb (q =? 0) then _ else _) with (Some s') by (rewrite <- E; by destruct (q =? 0)). cbn [mbind option_bind]. done.
  - split; simpl; rewrite ?length_insert; try done.
    + rewrite N4, list_insert_insert_eq. apply list_insert_id, Hbl. lia.
    + split; [done|]. intros i Hi. rewrite !list_lookup_insert_ne by lia. rewrite N6 by lia. by rewrite list_lookup_insert_ne by lia.
    + apply list_lookup_insert_eq. rewrite length_insert. lia.
  - done.
Qed.

(** A pointer that is 0 is passed. *)
Lemma visit_none k w d cur o0 o ws used :
  here w d cur o0 o -> levelAt o0 d (S k) -> (d <> 0%nat -> o < 1024) -> ok n nb r (mem w) used -> ptrsOf (mem w) cur = Some ws -> ws !! Z.to_nat o = Some 0 ->
  exists w', steps 1 w = Some (inl w') /\ next w w' d cur (o + 1) /\ cleared (S k) (mem w) (mem w') cur ws o None used.
Proof.
  intros HH HL Ho Hok Hw Hp. pose proof HH as [H1 H2 H3 H4 H5 Hbl H6 H7 H8 H9].
  exists (mkSweep (depth w) (<[d := o + 1]> (offsets w)) (blocks w) cur (mem w)). split; [|split].
  - cbn [steps]. rewrite (step_inside w d cur o0 o HH Ho), (inner_level w d cur o0 o k HH HL). unfold atInternal. rewrite H1, Nat2Z.id, H8. cbn [mbind option_bind]. rewrite H3. unfold getPtr. rewrite Hw. cbn [mbind option_bind]. rewrite Hp.
    cbn [mbind option_bind]. done.
  - split; simpl; rewrite ?length_insert; try done. { split; [done|]. intros i Hi. by rewrite list_lookup_insert_ne by lia. } { apply list_lookup_insert_eq. lia. }
  - split; simpl; try done; [by rewrite list_insert_id|]. by rewrite difference_empty_L.
Qed.

Lemma visit_inner k : Visits k -> Visits (S k).
Proof.
  intros HV w d cur o0 o ws p t used HH HL Ho Hok Hw Hp Hld Hnd Hin Hcur. destruct t as [[q cs]|].
  2:{ simpl in Hld. subst p. destruct (visit_none k w d cur o0 o ws used HH HL Ho Hok Hw Hp) as (w' & E & Hn & Hc). exists 1%nat, w'. pose proof (bnd_pos k). split; [cbn [bnd]; lia|done]. }
  apply leads_node in Hld as (-> & Hq0 & Hlen & _ & ws2 & Hws2 & Hsl). pose proof Hnd as Hnd0. rewrite owned_node in Hnd0.
  assert (Hd : (d < 3)%nat) by (destruct HL as [(_ & _ & ?)|[? ?]]; lia). pose proof HH as [H1 H2 H3 H4 H5 Hbl H6 H7 H8 H9].
  assert (E1 : steps 1 w = Some (inl (child w d q))).
  { cbn [steps]. rewrite (step_inside w d cur o0 o HH Ho), (inner_level w d cur o0 o k HH HL). unfold atInternal. rewrite H1, Nat2Z.id, H8. cbn [mbind option_bind]. rewrite H3. unfold getPtr. rewrite Hw. cbn [mbind option_bind]. rewrite Hp.
    cbn [mbind option_bind]. rewrite (proj2 (Z.eqb_neq q 0)) by done. rewrite Hws2. cbn [mbind option_bind]. destruct (lookup_lt_is_Some_2 (offsets w) (S d)) as [? ->]; [lia|]. unfold child. by rewrite H1. }
  assert (HL' : levelAt o0 (S d) k) by (destruct HL as [(_ & _ & ?)|[? ?]]; [lia|right; lia]).
  assert (Hin' : forall x, x ∈ ownedAll (fun _ => k) cs -> x ∈ used /\ r <= x) by (intros x Hx; apply Hin; rewrite owned_node; by right).
  destruct (pass_all k d (child w d q) q o0 ws2 cs used HV (child_here _ _ _ _ _ q HH Hd) HL' Hok Hws2 Hsl Hlen Hnd0 Hin' 1024 ltac:(lia)) as (m & w' & Hm & E2 & [P1 P2 P3 P4 P5]).
  rewrite drop_ge, app_nil_r in P3 by (rewrite (proj1 Hsl), Hlen; done). rewrite take_ge in P4, P5 by (rewrite Hlen; done). simpl (mem (child _ _ _)) in *.
  apply NoDup_cons in Hnd0 as [Hnq Hnd1].
  assert (Hw' : ptrsOf (mem w') cur = Some ws).
  { destruct cur as [c|]; simpl in *; [|by rewrite P2]. specialize (Hcur c eq_refl). rewrite not_elem_of_cons in Hcur. rewrite P5; tauto. }
  destruct (drop_spec (mem w') cur ws o q _ P4 Hw' Hp) as (s' & E3 & D1 & D2 & D3 & D4).
  { intros _. destruct (Hin q) as [Hu Hr]; [rewrite owned_node; left|]. split; [done|]. split; [apply elem_of_difference; by rewrite elem_of_list_to_set|]. intros Hc. apply (Hcur q Hc). rewrite owned_node. left. }
  destruct (step_back w w' d cur o0 o (replicate 1024 0) q s' HH Hd P1 P3 eq_refl) as (w2 & E4 & Hn & <-); [by apply allZero_lookup; intros i x [-> _]%lookup_replicate|done|].
  exists (1 + m + 1)%nat, w2. split; [cbn [bnd]; lia|]. split; [rewrite !steps_add, E1; cbn [mbind option_bind]; rewrite E2; exact E4|]. split; [done|]. split.
  - done.
  - intros Hc. rewrite D2; done.
  - rewrite (proj2 (Z.eqb_neq q 0)) in D3 by done. rewrite owned_node. rewrite list_to_set_cons. replace (used ∖ ({[q]} ∪ list_to_set (ownedAll (fun _ => k) cs))) with (used ∖ list_to_set (ownedAll (fun _ => k) cs) ∖ {[q]}) by (apply set_eq; intros x; rewrite !elem_of_difference, elem_of_union, elem_of_singleton; tauto). done.
  - rewrite owned_node. intros x [Hx1 Hx2]%not_elem_of_cons Hc. rewrite D4 by done. by apply P5.
Qed.

Lemma visits k : Visits k.
Proof. induction k; [apply visit_leaf|by apply visit_inner]. Qed.

Lemma fmap_out ts x : PSO_SMALL_MAXBLK <= x -> fmap ts x = None.
Proof. intros Hx. unfold fmap. rewrite decide_False; [done|]. unfold inFile. lia. Qed.

(** ** The record *)

Record atRecord (w : sweep) (o : Z) : Prop := {
  a_depth : depth w = 0;
  a_dblk : dblk w = None;
  a_blocks : blocks w = replicate 4 None;
  a_offsets : length (offsets w) = 4%nat;
  a_o : offsets w !! 0%nat = Some o;
}.

Lemma bnd_three k : (k <= 3)%nat -> bnd k <= bnd 3.
Proof. intros Hk. destruct k as [|[|[|[|k]]]]; [by vm_compute..|lia]. Qed.

(** One pointer of the record. *)
Lemma record_slot w o ts used0 used c0 :
  atRecord w o -> 0 <= o < 28 -> FInv n nb r (mem w) ts used0 used c0 ->
  exists m w' used', Z.of_nat m <= bnd 3 /\ steps m w = Some (inl w') /\ atRecord w' (o + 1) /\
    FInv n nb r (mem w') (<[Z.to_nat o := None]> ts) used0 used' c0 /\ used' ⊆ used.
Proof.
  intros [A1 A2 A3 A4 A5] Ho HI. destruct (lookup_lt_is_Some_2 ts (Z.to_nat o)) as [t Ht]; [rewrite (i_len _ _ _ _ _ _ _ _ HI); lia|].
  destruct (slots_get _ _ _ _ _ _ (i_slots _ _ _ _ _ _ _ _ HI) Ht) as (p & Hp & Hld).
  destruct (visits (lvl (Z.to_nat o)) w 0%nat None o o (dBlk (mem w)) p t used) as (m & w' & Hm & E & [X1 X2 X3 [X4 _] X5] & [C1 C2 C3 C4]); try done.
  - split; try done; rewrite ?A3; try done; try lia. intros i Hi. apply lookup_replicate_2. lia.
  - unfold levelAt, lvl. destruct (decide (o < 25)); [left|right]; lia.
  - apply HI.
  - by apply (ownedAll_nodup lvl ts (Z.to_nat o)); [apply HI|].
  - intros x Hx. assert (Hx' : x ∈ ownedAll lvl ts) by (by apply (ownedAll_in lvl ts (Z.to_nat o) t)). split; [|by apply (i_own _ _ _ _ _ _ _ _ HI)].
    rewrite (i_used _ _ _ _ _ _ _ _ HI). apply elem_of_union_r, elem_of_list_to_set, Hx'.
  - exists m, w', (used ∖ list_to_set (owned (lvl (Z.to_nat o)) t)). pose proof (bnd_three (lvl (Z.to_nat o)) ltac:(unfold lvl; lia)). split; [lia|]. split; [done|]. split; [split; try done; congruence|].
    split; [|by apply subseteq_difference_l]. simpl in C1. injection C1 as C1. apply (shrink _ _ _ _ _ _ _ _ HI (Z.to_nat o) _ 0 t); try done; [by destruct (lvl _)|by destruct (lvl (Z.to_nat o)) at 3; simpl; rewrite app_nil_r|].
    intros x Hx. by apply C4.
Qed.

Lemma record_loop c : forall w o ts used0 used c0,
  atRecord w o -> 0 <= o -> o + Z.of_nat c = 28 -> FInv n nb r (mem w) ts used0 used c0 ->
  exists m s' ts' used', Z.of_nat m <= 1 + Z.of_nat c * bnd 3 /\ steps m w = Some (inr s') /\ FInv n nb r s' ts' used0 used' c0 /\ used' ⊆ used /\
    (forall i, (i < Z.to_nat o)%nat -> ts' !! i = ts !! i) /\ forall i t, (Z.to_nat o <= i)%nat -> ts' !! i = Some t -> t = None.
Proof.
  induction c as [|c IH]; intros w o ts used0 used c0 HA Ho Hc HI.
  - exists 1%nat, (mem w), ts, used. split; [lia|]. split; [cbn [steps]; unfold sweep_step; rewrite (a_o _ _ HA); cbn [mbind option_bind]; unfold PSO_SMALL_RECORD_MAXBLK; rewrite (proj2 (Z.ltb_ge o _)) by lia; by rewrite (a_blocks _ _ HA)|].
    split; [done|]. split; [done|]. split; [done|]. intros i t Hi H. apply lookup_lt_Some in H. rewrite (i_len _ _ _ _ _ _ _ _ HI) in H. lia.
  - destruct (record_slot w o ts used0 used c0 HA ltac:(lia) HI) as (m & w1 & used1 & Hm & E & HA1 & HI1 & Hu1).
    destruct (IH w1 (o + 1) _ _ _ _ HA1 ltac:(lia) ltac:(lia) HI1) as (m2 & s' & ts' & used' & Hm2 & E2 & HI' & Hu' & L1 & L2).
    exists (m + m2)%nat, s', ts', used'. split; [lia|]. split; [rewrite steps_add, E; exact E2|]. split; [done|]. split; [set_solver|]. split.
    + intros i Hi. rewrite L1 by lia. by rewrite list_lookup_insert_ne by lia.
    + intros i t Hi H. destruct (decide (i = Z.to_nat o)) as [->|]; [|apply (L2 i t); [lia|done]]. rewrite L1 in H by lia. rewrite list_lookup_insert_eq in H; [by injection H|]. rewrite (i_len _ _ _ _ _ _ _ _ HI). lia.
Qed.

(** ** truncate *)

Lemma truncate_tail s ts used0 used c0 l :
  FInv n nb r s ts used0 used c0 -> 0 <= l < PSO_SMALL_RECORD_MAXBLK ->
  exists s' ts' used', truncate s l = Some s' /\ FInv n nb r s' ts' used0 used' c0 /\ used' ⊆ used /\
    (forall x, x < l -> fmap ts' x = fmap ts x) /\ forall x, l <= x -> fmap ts' x = None.
Proof.
  unfold PSO_SMALL_RECORD_MAXBLK. intros HI Hl. set (w := mkSweep 0 [l; 0; 0; 0] [None; None; None; None] None s).
  destruct (record_loop (Z.to_nat (28 - l)) w l ts used0 used c0) as (m & s' & ts' & used' & Hm & E & HI' & Hu & L1 & L2); [by split|lia|lia|done|].
  assert (HR : rounds ROUNDS w = Some (inr s')).
  { apply (rounds_enough ROUNDS m w s' E). change (2 ^ Z.of_nat ROUNDS) with 4398046511104. change (bnd 3) with (2 + 1024 * (2 + 1024 * (2 + 1024 * 1))) in Hm. lia. }
  exists s', ts', used'. split; [|split; [done|]; split; [done|]; split].
  - unfold truncate. revert HR. generalize ROUNDS. intros R HR. unfold blockToPath. unfold PSO_SMALL_RECORD_MAXBLK at 1. rewrite (proj2 (Z.ltb_lt l 25)) by lia. cbn [mbind option_bind]. rewrite bool_decide_false by (simpl; lia).
    cbn [get_buffers]. unfold getPtr. simpl (ptrsOf _ _). cbn [mbind option_bind]. destruct (lookup_lt_is_Some_2 (dBlk s) (Z.to_nat l)) as [p ->]; [rewrite (proj1 (i_slots _ _ _ _ _ _ _ _ HI)), (i_len _ _ _ _ _ _ _ _ HI); lia|].
    cbn [mbind option_bind]. replace (if p =? 0 then _ else _) with (Some (replicate 4 (@None Z))) by (by destruct (p =? 0)). cbn [mbind option_bind].
    change (mkSweep _ _ _ None s) with w. by rewrite HR.
  - intros x Hx. unfold fmap. destruct (decide (inFile x)) as [Hf|]; [|done]. unfold blockToPath, PSO_SMALL_RECORD_MAXBLK. rewrite (proj2 (Z.ltb_lt x 25)) by lia. cbn [mbind option_bind]. rewrite L1; [done|]. unfold inFile in Hf. lia.
  - intros x Hx. unfold fmap. destruct (decide (inFile x)) as [Hf|]; [|done]. destruct (blockToPath_spec x Hf) as (path & -> & Hp & Hu'). cbn [mbind option_bind]. destruct path as [|o rest]; [done|].
    destruct Hp as (Hor & Hlv & _). assert (Hlo : l <= o). { destruct (decide (o < 25)); [|lia]. destruct rest; [simpl in Hu'; lia|]. unfold lvl in Hlv. simpl in Hlv. lia. }
    destruct (ts' !! Z.to_nat o) as [t|] eqn:Et; [|done]. rewrite (L2 (Z.to_nat o) t ltac:(lia) Et). simpl. by destruct (lvl _).
Qed.

(** Every indirect block that loses blocks of a range keeps one outside it. *)
Definition rangeSpared (ts : list (option node)) (f t : Z) : Prop :=
  forall l, f <= l <= t -> fmap ts l <> None -> PSO_SMALL_RECORD_MAXBLK <= l -> exists x, ~ (f <= x <= t) /\ together l x /\ fmap ts x <> None.

(** Freeing blocks one by one. *)
Lemma free_each_exact m : forall s ts used0 used c0 i,
  FInv n nb r s ts used0 used c0 -> i < PSO_SMALL_MAXBLK -> Z.of_nat m <= i + 1 -> rangeSpared ts (i - Z.of_nat m + 1) i ->
  exists s' ts' used', free_each m s i = Some s' /\ FInv n nb r s' ts' used0 used' c0 /\ Z.of_nat (size used') <= Z.of_nat (size used) /\
    forall x, fmap ts' x = if decide (i - Z.of_nat m < x <= i) then None else fmap ts x.
Proof.
  induction m as [|m IH]; intros s ts used0 used c0 i HI Hi Hm Hsp; cbn [free_each].
  - exists s, ts, used. split; [done|]. split; [done|]. split; [done|]. intros x. by rewrite decide_False by lia.
  - destruct (free_exact_block _ _ _ _ _ _ _ _ HI i) as (s1 & ts1 & used1 & -> & HI1 & Hs1 & F1 & F2); [split; lia| |].
    { unfold spared. destruct (fmap ts i) eqn:Ei; [|by left]. right. destruct (Z_lt_le_dec i PSO_SMALL_RECORD_MAXBLK) as [|Hge]; [by left|right].
      destruct (Hsp i) as (x & Hx & Ht & Hn); [lia|congruence|done|]. exists x. split; [lia|done]. }
    cbn [mbind option_bind]. destruct (IH s1 ts1 used0 used1 c0 (i - 1) HI1 ltac:(lia) ltac:(lia)) as (s' & ts' & used' & -> & HI' & Hs' & F').
    { intros l Hl Hn Hr. rewrite F2 in Hn by lia. destruct (Hsp l) as (x & Hx & Ht & Hxn); [lia|done|done|]. exists x. split; [lia|]. split; [done|]. by rewrite F2 by lia. }
    exists s', ts', used'. split; [done|]. split; [done|]. split; [lia|].
    intros x. rewrite F'. destruct (decide (x = i)) as [->|Hx]; [rewrite decide_False, decide_True by lia; done|]. rewrite F2 by done. destruct (decide (i - 1 - Z.of_nat m < x <= i - 1)); [rewrite decide_True by lia|rewrite decide_False by lia]; done.
Qed.

(** A range of blocks; one that goes to the end starts in the direct blocks. *)
Definition rangeOk (f t : Z) : Prop := 0 <= f /\ 0 <= t /\ (f < PSO_SMALL_RECORD_MAXBLK \/ PSO_SMALL_MAXBLK <= f \/ t < PSO_SMALL_MAXBLK - 1).

Lemma freeBlocks_exact s ts used0 used c0 f t :
  FInv n nb r s ts used0 used c0 -> rangeOk f t -> (t < PSO_SMALL_MAXBLK - 1 -> rangeSpared ts f t) ->
  exists s' ts' used', locked_freeBlocks s f t = Some s' /\ FInv n nb r s' ts' used0 used' c0 /\ Z.of_nat (size used') <= Z.of_nat (size used) /\
    forall x, fmap ts' x = if decide (f <= x <= t) then None else fmap ts x.
Proof.
  intros HI (Hf & Ht & Hft) Hsp. unfold locked_freeBlocks. destruct (Z.leb_spec PSO_SMALL_MAXBLK f) as [Hmf|Hmf].
  - exists s, ts, used. split; [done|]. split; [done|]. split; [done|]. intros x. destruct (decide (f <= x <= t)); [|done]. apply fmap_out. lia.
  - destruct (decide (t < PSO_SMALL_MAXBLK - 1)) as [Hlt|Hge].
    + rewrite (proj2 (Z.leb_gt _ _)), (proj2 (Z.eqb_neq _ _)) by lia.
      destruct (decide (f <= t + 1)).
      * destruct (free_each_exact (Z.to_nat (t - f + 1)) s ts used0 used c0 t HI ltac:(lia) ltac:(lia)) as (s' & ts' & used' & -> & HI' & Hs & F').
        { replace (t - Z.of_nat (Z.to_nat (t - f + 1)) + 1) with f by lia. by apply Hsp. }
        exists s', ts', used'. split; [done|]. split; [done|]. split; [done|].
        intros x. rewrite F'. destruct (decide (f <= x <= t)); [rewrite decide_True by lia|rewrite decide_False by lia]; done.
      * replace (Z.to_nat (t - f + 1)) with 0%nat by lia. exists s, ts, used. split; [done|]. split; [done|]. split; [done|]. intros x. by rewrite decide_False by lia.
    + replace (_ =? _) with true by (symmetry; apply Z.eqb_eq; destruct (Z.leb_spec PSO_SMALL_MAXBLK t); lia).
      destruct (truncate_tail s ts used0 used c0 f HI) as (s' & ts' & used' & -> & HI' & Hu & T1 & T2); [lia|]. exists s', ts', used'. split; [done|]. split; [done|]. split; [apply inj_le, subseteq_size, Hu|].
      intros x. destruct (decide (f <= x <= t)); [apply T2; lia|]. destruct (decide (x < f)); [by apply T1|]. rewrite (fmap_out ts) by lia. apply T2. lia.
Qed.

End truncating.

End PSOTruncate.
