(* ===== verification/PSORefine.v ===== *)
(** * PSORefine: sequences of operations on the blocks of a KFS file, for
    os/servers/kfs/PSOSmall.C

    Using a file refines a map from logical to disk blocks, and what is taken from the
    super block is given back; and where freeDblk and truncate go wrong. *)

From stdpp Require Import base numbers option gmap list.
From S2P Require Import K42 Prelude DirBlock SuperBlock PSOSmall PSOFile PSOTruncate.

Module PSORefine.

Import SuperBlock PSOSmall PSOFile PSOTruncate.

(** ** Sequences of operations *)

(** FreeRange is locked_freeBlocks. *)
Inductive op := Read (l : Z) | Write (l : Z) | Free (l : Z) | FreeRange (f t : Z).

Definition exec (o : op) (s : state) : option (Z * state) :=
  match o with
  | Read l => getDblk s l false
  | Write l => getDblk s l true
  | Free l => s ← freeDblk s l; Some (0, s)
  | FreeRange f t => s ← locked_freeBlocks s f t; Some (0, s)
  end.

Fixpoint run (os : list op) (s : state) : option (list Z * state) :=
  match os with
  | [] => Some ([], s)
  | o :: os => '(a, s) ← exec o s; '(l, s) ← run os s; Some (a :: l, s)
  end.

(** The logical blocks that are there after an operation, when [D] were before. *)
Definition after (D : gset Z) (o : op) : gset Z :=
  match o with
  | Read _ => D
  | Write l => {[l]} ∪ D
  | Free l => D ∖ {[l]}
  | FreeRange f t => filter (fun x => ~ (f <= x <= t)) D
  end.

(** An indirect block with a pointer to a block of [f] to [t] has one to another block. *)
Definition keepsOne (D : gset Z) (f t : Z) : Prop :=
  set_Forall (fun l => f <= l <= t -> PSO_SMALL_RECORD_MAXBLK <= l -> set_Exists (fun x => ~ (f <= x <= t) /\ together l x) D) D.

(** Blocks are in the file.  A range to the end of the file starts in the direct blocks,
    since truncate is wrong elsewhere; and freeing, other than by truncate, does not
    empty an indirect block, since freeDblk releases it when it is forgotten. *)
Definition opOk (D : gset Z) (o : op) : Prop :=
  match o with
  | Read l | Write l => inFile l
  | Free l => inFile l /\ keepsOne D l l
  | FreeRange f t => rangeOk f t /\ (t < PSO_SMALL_MAXBLK - 1 -> keepsOne D f t)
  end.

Fixpoint allowed (D : gset Z) (os : list op) : Prop :=
  match os with [] => True | o :: os => opOk D o /\ allowed (after D o) os end.

(** The answer [a] and the map after an operation on the map [M]. *)
Definition follows (M : Z -> option Z) (o : op) (a : Z) (M' : Z -> option Z) : Prop :=
  match o with
  | Read l => a = default 0 (M l) /\ forall x, M' x = M x
  | Write l => M' l = Some a /\ (forall x, x <> l -> M' x = M x) /\ (M l = Some a \/ M l = None /\ forall x, M x <> Some a)
  | Free l => a = 0 /\ M' l = None /\ forall x, x <> l -> M' x = M x
  | FreeRange f t => a = 0 /\ forall x, M' x = if decide (f <= x <= t) then None else M x
  end.

Inductive trace : (Z -> option Z) -> list op -> list Z -> (Z -> option Z) -> Prop :=
  | trace_nil M : trace M [] [] M
  | trace_cons M o a M1 os l M2 : follows M o a M1 -> trace M1 os l M2 -> trace M (o :: os) (a :: l) M2.

Section sequences.
Context (n nb r : Z) (used0 : gset Z) (c0 : gmap Z (list Z)).

(** [D] are the logical blocks of the map. *)
Definition present (ts : list (option node)) (D : gset Z) : Prop := forall l, l ∈ D <-> fmap ts l <> None.

Lemma keepsOne_spared ts D f t : present ts D -> keepsOne D f t -> rangeSpared ts f t.
Proof.
  intros HD Hk l Hl Hn Hr. destruct (Hk l) as (x & Hx & Hout & Ht); [by apply HD|done|done|]. exists x. split_and!; try done. by apply HD.
Qed.

Lemma file_step o s ts used D :
  FInv n nb r s ts used0 used c0 -> present ts D -> opOk D o -> Z.of_nat (size used) + 4 <= n ->
  exists a s' ts' used', exec o s = Some (a, s') /\ FInv n nb r s' ts' used0 used' c0 /\ Z.of_nat (size used') <= Z.of_nat (size used) + 4 /\
    follows (fmap ts) o a (fmap ts') /\ present ts' (after D o).
Proof.
  intros HI HD Hl Hsz. destruct o as [l|l|l|f t]; simpl in *.
  - exists (default 0 (fmap ts l)), s, ts, used. rewrite (read_exact _ _ _ _ _ _ _ _ HI) by done. split_and!; try done. lia.
  - destruct (write_exact _ _ _ _ _ _ _ _ HI l Hl Hsz) as (b & s' & ts' & used' & E & HI' & Hs & M1 & M2 & M3). exists b, s', ts', used'. split_and!; try done.
    + destruct M3 as [?|[? Hb]]; [by left|right]. split; [done|]. intros x Hx. by apply (fmap_own _ _ _ _ _ _ _ _ HI) in Hx as [_ ?].
    + intros x. rewrite elem_of_union, elem_of_singleton. destruct (decide (x = l)) as [->|Hne]; [rewrite M1; naive_solver|]. rewrite M2 by done. rewrite <- (HD x). naive_solver.
  - destruct Hl as [Hl Hk]. destruct (free_exact_block _ _ _ _ _ _ _ _ HI l Hl) as (s' & ts' & used' & -> & HI' & Hs & M1 & M2).
    { destruct (fmap ts l) eqn:El; [|by left]. right. destruct (Z_lt_le_dec l PSO_SMALL_RECORD_MAXBLK); [by left|right].
      destruct (keepsOne_spared ts D l l HD Hk l) as (x & Hx & Ht & Hn); [lia|congruence|done|]. exists x. split; [lia|done]. }
    cbn [mbind option_bind]. exists 0, s', ts', used'. split_and!; try done; [lia|].
    intros x. rewrite elem_of_difference, elem_of_singleton. destruct (decide (x = l)) as [->|Hne]; [rewrite M1; naive_solver|]. rewrite M2 by done. rewrite <- (HD x). naive_solver.
  - destruct Hl as [Hl Hk]. destruct (freeBlocks_exact _ _ _ _ _ _ _ _ f t HI Hl) as (s' & ts' & used' & -> & HI' & Hs & M1); [intros Ht; apply (keepsOne_spared ts D); auto|].
    cbn [mbind option_bind]. exists 0, s', ts', used'. split_and!; try done; [lia|].
    intros x. rewrite elem_of_filter, M1. destruct (decide (f <= x <= t)); [naive_solver|]. rewrite <- (HD x). naive_solver.
Qed.

Lemma file_run os : forall s ts used D,
  FInv n nb r s ts used0 used c0 -> present ts D -> allowed D os -> Z.of_nat (size used) + 4 * Z.of_nat (length os) <= n ->
  exists l s' ts' used', run os s = Some (l, s') /\ FInv n nb r s' ts' used0 used' c0 /\ trace (fmap ts) os l (fmap ts').
Proof.
  induction os as [|o os IH]; intros s ts used D HI HD Hos Hsz; cbn [run length] in *; [exists [], s, ts, used; split_and!; try done; constructor|].
  destruct Hos as [Ho Hos]. destruct (file_step o s ts used D HI HD Ho ltac:(lia)) as (a & s1 & ts1 & used1 & -> & HI1 & Hs1 & Hf & HD1). cbn [mbind option_bind].
  destruct (IH s1 ts1 used1 _ HI1 HD1 Hos ltac:(lia)) as (l & s' & ts' & used' & -> & HI' & Ht). cbn [mbind option_bind]. exists (a :: l), s', ts', used'. split_and!; try done. by econstructor.
Qed.

End sequences.

(** C10: The blocks of a file are a map.  On a disk where the blocks [used0] belong to
    others, a new file is used by looking up, making and freeing the disk block of a
    logical block, freeing ranges of them and cutting the file.  The conditions are
    that the blocks are in the file; that there are four free disk blocks for each
    operation; that a range up to the last possible block starts in the 25 direct blocks
    (elsewhere truncate goes wrong, see truncate_indirect_frees_kept); and that freeing a
    block or any other range does not take the last pointer of an indirect block, since
    then an assertion of the block cache fails, see free_last_asserts: such blocks go
    when the file is cut.  Then every call returns, no access is outside a block, no
    assertion fails, no block is released that the cache has forgotten, and the answers
    are those of a map from logical to disk blocks: a block is made once and found until
    it is freed, and other blocks keep theirs.  At the end no two logical blocks share a
    disk block, no disk block of others is used, freed, changed or forgotten, and a file
    without data blocks has given all its indirect blocks back. *)
Theorem file_blocks_refine n nb r used0 c0 sb os :
  Inv sb used0 n nb r -> allowed ∅ os -> Z.of_nat (size used0) + 4 * Z.of_nat (length os) <= n ->
  exists l s' M0 M used', run os (newFile c0 sb) = Some (l, s') /\ (forall x, M0 x = None) /\ trace M0 os l M /\ Inv (super s') used' n nb r /\
    (forall x y b, M x = Some b -> M y = Some b -> x = y) /\ (forall x b, M x = Some b -> (b ∉ used0) /\ b ∈ used') /\
    used0 ⊆ used' /\ (forall b, b ∈ used0 -> cache s' !! b = c0 !! b) /\ ((forall x, M x = None) -> used' = used0).
Proof.
  intros HI Hos Hsz. assert (HD : present (replicate 28 None) ∅) by (intros x; rewrite fmap_new; set_solver).
  destruct (file_run n nb r used0 c0 os _ _ _ _ (newFile_inv n nb r c0 sb used0 HI) HD Hos Hsz) as (l & s' & ts' & used' & E & HI' & Ht).
  exists l, s', (fmap (replicate 28 None)), (fmap ts'), used'. split; [done|]. split; [apply fmap_new|]. split; [done|]. split_and!.
  - apply (i_ok _ _ _ _ _ _ _ _ HI').
  - intros x y b. apply (fmap_inj _ _ _ _ _ _ _ _ HI').
  - intros x b. apply (fmap_own _ _ _ _ _ _ _ _ HI').
  - rewrite (i_used _ _ _ _ _ _ _ _ HI'). set_solver.
  - apply (i_frame _ _ _ _ _ _ _ _ HI').
  - apply (fmap_empty _ _ _ _ _ _ _ _ HI').
Qed.

#[local] Instance together_dec l x : Decision (together l x).
Proof. unfold together. apply _. Defined.
#[local] Instance keepsOne_dec D f t : Decision (keepsOne D f t).
Proof. unfold keepsOne. apply _. Defined.

(** Blocks of several levels, looked up, freed and cut off; the file ends empty. *)
Definition work : list op :=
  [Write 3; Write 30; Write 50; Read 30; Write 1100; Write 1200; Write 30; Free 30; Read 30; Free 1100; Read 3; FreeRange 3 40; Read 50; Write 2000; FreeRange 0 PSO_SMALL_MAXBLK].

Lemma file_blocks_refine_witness :
  exists sb l s', formatDisk 5000 blankMap = Some (0, sb) /\ run work (newFile ∅ sb) = Some (l, s') /\ freeBlocks (super s') <= 5000.
Proof.
  destruct (formatDisk_inv 5000 blankMap) as (sb & E & HI); [change LARGEST with 33030144; lia|by vm_compute|].
  assert (Hos : allowed ∅ work).
  { unfold work, allowed, opOk, inFile, rangeOk. split_and!; try done; try (by vm_compute); try (by left); try (right; right; by vm_compute); try (intros _); try (apply (bool_decide_unpack _); by vm_compute). }
  assert (Hsz : Z.of_nat (size (disk (reserved 5000))) + 4 * Z.of_nat (length work) <= 5000) by (by vm_compute).
  destruct (file_blocks_refine 5000 _ _ _ ∅ sb work HI Hos Hsz) as (l & s' & M0 & M & used' & Er & _ & _ & HI' & _).
  exists sb, l, s'. split; [exact E|]. split; [exact Er|]. rewrite (v_free _ _ _ _ _ HI'). lia.
Defined.

(** ** Where it goes wrong *)

(** A disk with one file of the given blocks. *)
Definition fileWith (ls : list Z) : option state :=
  '(_, sb) ← formatDisk 5000 blankMap; '(_, s) ← run (Write <$> ls) (newFile ∅ sb); Some s.

(** Freeing the last block of an indirect block frees that too; the block cache forgets
    it, and freeDblk then releases it, which fails the assertion that it is there.  A
    direct block, or one that is not the last, is freed, and so is the last one by
    truncate. *)
Lemma free_last_asserts :
  (s ← fileWith [3; 30]; freeDblk s 30) = None /\
  (s ← fileWith [3; 30]; s ← freeDblk s 3; Some (dBlk s !! 3%nat)) = Some (Some 0) /\
  (s ← fileWith [3; 30; 31]; s ← freeDblk s 30; Some (freeBlocks (super s))) = Some 4993 /\
  (s ← fileWith [3; 30]; s ← truncate s 4; Some (freeBlocks (super s))) = Some 4995.
Proof. split_and!; by vm_compute. Qed.

(** From a direct block on, and from the start, truncate frees what is behind it. *)
Lemma truncate_direct :
  (s ← fileWith [0; 3; 24; 25; 30; 1100]; s ← truncate s 5; Some (take 6 (dBlk s), freeBlocks (super s))) = Some ([4; 0; 0; 5; 0; 0], 4994) /\
  (s ← fileWith [0; 3; 24; 25; 30; 1100]; s ← truncate s 0; Some (dBlk s, freeBlocks (super s))) = Some (replicate 28 0, 4996).
Proof. split; by vm_compute. Qed.

(** From an indirect block on it looks at the pointers of the record in place of those
    of the indirect block: its first round frees logical block 3, which is kept, and it
    runs past the end of the record. *)
Lemma truncate_indirect_frees_kept :
  (s ← fileWith [3; 28]; w ← sweep_step (mkSweep 1 [25; 3; 0; 0] [None; None; None; None] None s);
   match w with inl w => Some (dBlk s !! 3%nat, dBlk (mem w) !! 3%nat) | inr _ => None end) = Some (Some 4, Some 0) /\
  (s ← fileWith [3; 28]; truncate s 28) = None.
Proof. split; by vm_compute. Qed.

(** In a file with three levels of indirect blocks it stores past its array of blocks. *)
Lemma truncate_buffers_overflow l :
  l = 25 + 1024 + 2 ^ 20 -> (s ← fileWith [l]; path ← blockToPath l; get_buffers path true 0 s None (replicate 4 None)) = None.
Proof. intros ->. by vm_compute. Qed.

End PSORefine.
