(* ===== verification/LSOBasicFile.v ===== *)
(** * LSOBasicFile: cutting a file, os/servers/kfs/LSOBasicFile.C

    The attributes of a file and its blocks, those of PSOSmall.v, change together. *)

From stdpp Require Import base numbers option gmap list.
From S2P Require Import K42 Prelude DirBlock LSOBasicDir SuperBlock PSOSmall PSOFile PSOTruncate.

Module LSOBasicFile.

Import DirBlock SuperBlock PSOSmall PSOFile PSOTruncate.

Definition EISDIR : Z := 21.

(** LONG_LONG_MAX as an argument of 32 bits. *)
Definition TO_END : Z := 2 ^ 32 - 1.

Record file := mkFile { isReg : bool; st_size : Z; st_blocks : Z; st_ctime : Z; st_mtime : Z; pso : state }.

Definition truncate (f : file) (length now : Z) : option (Z * file) :=
  if negb (isReg f) then Some (_SERROR 2355 0 EISDIR, f)
  else
    s ← (if length <? st_size f
         then let lblkno := if length =? 0 then 0 else (length - 1) / OS_BLOCK_SIZE + 1 in locked_freeBlocks (pso f) lblkno TO_END
         else Some (pso f));
    Some (0, mkFile true length (ALIGN_UP length OS_BLOCK_SIZE / LSOBasicDir.OS_SECTOR_SIZE) now now s).

(** The number of blocks of a length. *)
Definition blocksOf (length : Z) : Z := (length + 4095) / 4096.

Lemma blocksOf_first length : 0 <= length -> (if length =? 0 then 0 else (length - 1) / OS_BLOCK_SIZE + 1) = blocksOf length.
Proof. intros Hl. unfold blocksOf, OS_BLOCK_SIZE. destruct (Z.eqb_spec length 0) as [->|]; [done|]. Z.to_euclidean_division_equations. lia. Qed.

Lemma sectors_of length : 0 <= length < 2 ^ 32 -> ALIGN_UP length OS_BLOCK_SIZE / LSOBasicDir.OS_SECTOR_SIZE = 8 * blocksOf length.
Proof.
  intros Hl. change OS_BLOCK_SIZE with (2 ^ 12). rewrite align_up_spec by lia. change LSOBasicDir.OS_SECTOR_SIZE with 512. unfold blocksOf. change (2 ^ 12 - 1) with 4095. change (2 ^ 12) with 4096.
  Z.to_euclidean_division_equations. lia.
Qed.

Section cutting.
Context (n nb r : Z) (f : file) (ts : list (option node)) (used0 used : gset Z) (c0 : gmap Z (list Z)).
Hypothesis HI : FInv n nb r (pso f) ts used0 used c0.

(** A file made shorter has no block past its end and keeps those before it, for a
    length in the direct blocks; one made longer gets no blocks. *)
Lemma truncate_file length now :
  isReg f = true -> 0 <= length < 2 ^ 32 -> st_size f <= length \/ length <= 24 * 4096 ->
  exists f' ts' used', truncate f length now = Some (0, f') /\ FInv n nb r (pso f') ts' used0 used' c0 /\
    st_size f' = length /\ st_blocks f' = 8 * blocksOf length /\ st_ctime f' = now /\ st_mtime f' = now /\
    (length < st_size f -> forall x, fmap ts' x = if decide (x < blocksOf length) then fmap ts x else None) /\
    (st_size f <= length -> pso f' = pso f /\ ts' = ts).
Proof.
  intros Hr Hl Hd. unfold truncate. rewrite Hr. cbn [negb]. rewrite blocksOf_first, sectors_of by lia. destruct (Z.ltb_spec length (st_size f)) as [Hlt|Hge].
  - assert (Hb : 0 <= blocksOf length <= 24) by (unfold blocksOf; Z.to_euclidean_division_equations; lia).
    destruct (freeBlocks_exact n nb r (pso f) ts used0 used c0 (blocksOf length) TO_END HI) as (s' & ts' & used' & -> & HI' & _ & F).
    { unfold rangeOk, TO_END, PSO_SMALL_RECORD_MAXBLK. lia. }
    { unfold TO_END. change (PSO_SMALL_MAXBLK - 1) with (25 + 1024 + 2 ^ 20 + 2 ^ 30 - 1). lia. }
    cbn [mbind option_bind]. eexists. exists ts', used'. split; [done|]. split_and!; try done; [|simpl; lia].
    intros _ x. rewrite F. destruct (decide (x < blocksOf length)); [by rewrite decide_False by lia|]. destruct (decide (blocksOf length <= x <= TO_END)); [done|]. apply fmap_out. unfold TO_END in *. change PSO_SMALL_MAXBLK with (25 + 1024 + 2 ^ 20 + 2 ^ 30). lia.
  - cbn [mbind option_bind]. eexists. exists ts, used. split; [done|]. split_and!; try done. lia.
Qed.

End cutting.

(** A directory is refused. *)
Lemma truncate_refused f length now : isReg f = false -> truncate f length now = Some (_SERROR 2355 0 EISDIR, f).
Proof. intros E. unfold truncate. by rewrite E. Qed.

End LSOBasicFile.
