(* ===== verification/RecordMap.v ===== *)
(** * RecordMap: the numbers and records of KFS objects, os/servers/kfs/RecordMap.C, .H

    Every object of the file system has a number and a record of 124 bytes with a
    type.  The numbers in use are bits in blocks that the record map lists; the
    records are the contents of a file, of 32 to a block, whose own record is
    number 0.

    The bitmap blocks and the indirect blocks of that file are in the map [cache] of
    PSOSmall.v, since both come from the block cache; the data blocks are lists of 32
    records in place of 4096 bytes.  [junk] is the content of a page that the block
    cache makes for a block that is not on the disk.  The table of objects in memory,
    locks and the flushing of the map itself are left out; of the dirty marks only
    those of the bitmap blocks are kept. *)

From stdpp Require Import base numbers option gmap list.
From S2P Require Import K42 Prelude DirBlock SuperBlock PSOSmall PSOFile PSOTruncate.

Module RecordMap.

Import SuperBlock PSOSmall PSOFile PSOTruncate.

Definition RMAP_RECORD_SIZE : Z := 128.
Definition KFS_RECORD_SIZE : Z := 124.
Definition RMAP_BITMAP_BLOCKS : Z := (4096 - RMAP_RECORD_SIZE) / 4.
Definition RMAP_BITS_PAGE : Z := 4096 * 8.

Definition OT_PRIM_UNIX : Z := 2.
Definition OT_PRIM_UNIX_META : Z := 3.
Definition OT_LSO_BASIC : Z := 16.
Definition OT_LSO_BASIC_DIR : Z := 17.
Definition OT_LSO_BASIC_LNK : Z := 18.

(** A type and the bytes after it. *)
Definition record : Type := Z * list Z.

Record rmap := mkMap { rec0 : record; bitmap : list Z; pso : PSOSmall.state; recs : gmap Z (list record); dirty : gset Z }.

Definition set_pso (m : rmap) (s : PSOSmall.state) : rmap := mkMap (rec0 m) (bitmap m) s (recs m) (dirty m).
Definition set_cache (s : PSOSmall.state) (b : Z) (ws : list Z) : PSOSmall.state := mkState (dBlk s) (<[b := ws]> (cache s)) (super s).
Definition zeroRecord : list Z := replicate (Z.to_nat KFS_RECORD_SIZE) 0.

(** ** Numbers *)

(** for (j = 0; j < RMAP_BITS_PAGE; j++) *)
Fixpoint scan (fuel : nat) (ws : list Z) (j : Z) : option Z :=
  match fuel with
  | O => None
  | S fuel =>
      if j <? RMAP_BITS_PAGE then
        w ← ws !! Z.to_nat (j / 32);
        if w =? FULL then scan fuel ws (j + 31 + 1)
        else if Z.land w (Z.shiftl 1 (j mod 32)) =? 0 then Some j
        else scan fuel ws (j + 1)
      else Some j
  end.

(** for (i = 0; data->getBitmap(i) && i < RMAP_BITMAP_BLOCKS; i++) *)
Fixpoint find_block (fuel : nat) (m : rmap) (i j : Z) : option (Z * Z) :=
  match fuel with
  | O => None
  | S fuel =>
      b ← bitmap m !! Z.to_nat i;
      if (b =? 0) || negb (i <? RMAP_BITMAP_BLOCKS) then Some (i, j)
      else
        ws ← cache (pso m) !! b;
        j ← scan (S (Z.to_nat RMAP_BITS_PAGE)) ws 0;
        if j <? RMAP_BITS_PAGE then Some (i, j) else find_block fuel m (i + 1) j
  end.

(** A new block for the bitmap. *)
Definition newBitmap (m : rmap) (i : Z) : option rmap :=
  b ← bitmap m !! Z.to_nat i;
  if (i <? RMAP_BITMAP_BLOCKS) && (b =? 0) then
    '(b, sb) ← allocBlock (super (pso m));
    Some (mkMap (rec0 m) (<[Z.to_nat i := b]> (bitmap m)) (mkState (dBlk (pso m)) (<[b := zeros]> (cache (pso m))) sb) (recs m) (dirty m))
  else None.

Definition internal_allocRecord (m : rmap) : option (Z * rmap) :=
  '(i, j) ← find_block (S (Z.to_nat RMAP_BITMAP_BLOCKS)) m 0 RMAP_BITS_PAGE;
  '(j, m) ← (if j =? RMAP_BITS_PAGE then m ← newBitmap m i; Some (0, m) else Some (j, m));
  b ← bitmap m !! Z.to_nat i;
  ws ← cache (pso m) !! b;
  w ← ws !! Z.to_nat (j / 32);
  let s := set_cache (pso m) b (<[Z.to_nat (j / 32) := Z.lor w (Z.shiftl 1 (j mod 32))]> ws) in
  let id := i * RMAP_BITS_PAGE + j in
  _ ← assertK (negb (RMAP_BITMAP_BLOCKS * RMAP_BITS_PAGE <=? id));
  Some (id, mkMap (rec0 m) (bitmap m) s (recs m) ({[b]} ∪ dirty m)).

Definition internal_freeRecord (m : rmap) (id : Z) : option rmap :=
  let lblkno := id / RMAP_BITS_PAGE in
  let index := id mod RMAP_BITS_PAGE / 32 in
  let shift := id mod 32 in
  b ← bitmap m !! Z.to_nat lblkno;
  _ ← assertK (negb (b =? 0));
  ws ← cache (pso m) !! b;
  w ← ws !! Z.to_nat index;
  _ ← assertK (negb (Z.land w (Z.shiftl 1 shift) =? 0));
  let bitmapValue := Z.land w (Z.lnot (Z.shiftl 1 shift)) in
  let s := set_cache (pso m) b (<[Z.to_nat index := bitmapValue]> ws) in
  if bitmapValue =? 0 then
    s ← locked_freeBlocks s (id * RMAP_RECORD_SIZE) (id * RMAP_RECORD_SIZE);
    Some (set_pso m s)
  else Some (mkMap (rec0 m) (bitmap m) s (recs m) ({[b]} ∪ dirty m)).

Definition freeRecord (m : rmap) (id : Z) : option (Z * rmap) := m ← internal_freeRecord m id; Some (0, m).

(** ** Records *)

(** The number on the disk and the content of a block; 0 is a new page. *)
Definition readBlockCache (m : rmap) (lblkno : Z) (junk : list record) : option (Z * list record) :=
  '(d, _) ← getDblk (pso m) lblkno false;
  if d =? 0 then Some (0, junk) else blk ← recs m !! d; Some (d, blk).

Definition writeBlockCache (m : rmap) (d : Z) (blk : list record) (lblkno : Z) : option rmap :=
  '(d, s) ← (if d =? 0 then getDblk (pso m) lblkno true else Some (d, pso m));
  _ ← assertK (negb (d =? 0));
  Some (mkMap (rec0 m) (bitmap m) s (<[d := blk]> (recs m)) (dirty m)).

(** A record is read, or changed by [f]. *)
Definition readRecord (m : rmap) (id : Z) (junk : list record) : option record :=
  if id =? 0 then Some (rec0 m)
  else '(_, blk) ← readBlockCache m (id / 32) junk; blk !! Z.to_nat (id mod 32).

Definition changeRecord (m : rmap) (id : Z) (f : record -> record) (junk : list record) : option rmap :=
  if id =? 0 then Some (mkMap (f (rec0 m)) (bitmap m) (pso m) (recs m) (dirty m))
  else
    '(d, blk) ← readBlockCache m (id / 32) junk;
    x ← blk !! Z.to_nat (id mod 32);
    writeBlockCache m d (<[Z.to_nat (id mod 32) := f x]> blk) (id / 32).

Definition getRecord (m : rmap) (id : Z) (junk : list record) : option (list Z) := x ← readRecord m id junk; Some x.2.
Definition setRecord (m : rmap) (id : Z) (rec : list Z) (junk : list record) : option rmap := changeRecord m id (fun x => (x.1, rec)) junk.
Definition getRecordType (m : rmap) (id : Z) (junk : list record) : option Z := x ← readRecord m id junk; Some x.1.
Definition setRecordType (m : rmap) (id type : Z) (junk : list record) : option rmap := changeRecord m id (fun x => (type, x.2)) junk.

(** The types that have a class; all of these clear the record. *)
Definition joined (type : Z) : bool :=
  bool_decide (type ∈ [OT_LSO_BASIC; OT_LSO_BASIC_DIR; OT_LSO_BASIC_LNK; OT_PRIM_UNIX; OT_PRIM_UNIX_META]).
Definition locationAlloc (m : rmap) (type id : Z) (junk : list record) : option rmap :=
  if joined type then setRecord m id zeroRecord junk else Some m.

Definition allocRecord (m : rmap) (type : Z) (junk : list record) : option (Z * rmap) :=
  '(id, m) ← internal_allocRecord m;
  m ← setRecordType m id type junk;
  m ← locationAlloc m type id junk;
  Some (id, m).

(** RecordMap::locationAlloc, and the constructor and init that follow it. *)
Definition newRecordMap (c : gmap Z (list Z)) (sb : SuperBlock) : option (Z * rmap) :=
  '(blkno, sb) ← allocBlock sb;
  '(b, sb) ← allocBlock sb;
  let bits := <[0%nat := 1]> zeros in
  Some (blkno, mkMap (OT_PRIM_UNIX, zeroRecord) (<[0%nat := b]> (replicate (Z.to_nat RMAP_BITMAP_BLOCKS) 0))
                 (mkState (replicate 28 0) (<[b := bits]> c) sb) ∅ {[b]}).

End RecordMap.
