(* ===== verification/RecordRefine.v ===== *)
(** * RecordRefine: the record map as a map from numbers to records, for
    os/servers/kfs/RecordMap.C

    The proofs about RecordMap.v: numbers are unique, the lowest free one is given out,
    and a record keeps its type and contents; and where freeing goes wrong. *)

From stdpp Require Import base numbers option gmap list.
From S2P Require Import K42 Prelude DirBlock SuperBlock PSOSmall PSOFile PSOTruncate RecordMap.

Module RecordRefine.

Import SuperBlock PSOSmall PSOFile PSOTruncate RecordMap.

(** ** The search for a free number *)

Definition bitOf (ws : list Z) (q : Z) : bool := default false (w ← ws !! Z.to_nat (q / 32); Some (Z.testbit w (q mod 32))).
Definition fullBlock (ws : list Z) : Prop := Z.of_nat (length ws) = BLOCK_WORDS /\ Forall word ws.

Lemma bitOf_at ws q w : ws !! Z.to_nat (q / 32) = Some w -> bitOf ws q = Z.testbit w (q mod 32).
Proof. intros E. unfold bitOf. by rewrite E. Qed.

Lemma word_at ws q : fullBlock ws -> 0 <= q < 32768 -> exists w, ws !! Z.to_nat (q / 32) = Some w /\ word w.
Proof. intros [Hl Hf] Hq. apply buf_word; [done|done|]. change BLOCK_WORDS with 1024. Z.to_euclidean_division_equations. lia. Qed.

Lemma scan_bits ws fuel : forall j,
  fullBlock ws -> 0 <= j <= 32768 -> 32768 - j < Z.of_nat fuel -> (j mod 32 = 0 \/ ws !! Z.to_nat (j / 32) <> Some FULL) ->
  exists j', scan fuel ws j = Some j' /\ j <= j' <= 32768 /\ (forall q, j <= q < j' -> bitOf ws q = true) /\ (j' < 32768 -> bitOf ws j' = false).
Proof.
  induction fuel as [|fuel IH]; intros j Hb Hj Hf HQ; [lia|]. cbn [scan]. change RMAP_BITS_PAGE with 32768. destruct (Z.ltb_spec j 32768) as [Hlt|Hge].
  2:{ exists j. split; [done|]. split; [lia|]. split; [lia|lia]. }
  destruct (word_at ws j Hb ltac:(lia)) as (w & Hw & Hww). rewrite Hw. cbn [mbind option_bind]. destruct (Z.eqb_spec w FULL) as [->|Hne].
  - destruct HQ as [H0|?]; [|congruence]. pose proof (Z.div_mod j 32 ltac:(lia)) as Hdm.
    assert (Hj32 : j + 32 <= 32768) by (Z.to_euclidean_division_equations; lia).
    destruct (IH (j + 31 + 1) Hb ltac:(lia) ltac:(lia)) as (j' & E & Hr & Hs & Hc); [left; Z.to_euclidean_division_equations; lia|].
    exists j'. split; [done|]. split; [lia|]. split; [|done]. intros q Hq. destruct (decide (q < j + 32)) as [Hq'|]; [|apply Hs; lia].
    rewrite (bitOf_at ws q FULL); [apply full_bit, Z.mod_pos_bound; lia|]. rewrite <- Hw. do 2 f_equal. Z.to_euclidean_division_equations. lia.
  - rewrite land_shift by (apply Z.mod_pos_bound; lia). destruct (Z.testbit w (j mod 32)) eqn:Eb; cbn [negb].
    + destruct (IH (j + 1) Hb ltac:(lia) ltac:(lia)) as (j' & E & Hr & Hs & Hc).
      { destruct (decide ((j + 1) mod 32 = 0)) as [|Hn]; [by left|right]. replace ((j + 1) / 32) with (j / 32) by (Z.to_euclidean_division_equations; lia). rewrite Hw. congruence. }
      exists j'. split; [done|]. split; [lia|]. split; [|done]. intros q Hq. destruct (decide (q = j)) as [->|]; [by rewrite (bitOf_at ws j w)|apply Hs; lia].
    + exists j. split; [done|]. split; [lia|]. split; [lia|]. intros _. by rewrite (bitOf_at ws j w).
Qed.

(** The bitmap blocks of a record map hold [bms]. *)
Record maps (m : rmap) (bms : list (list Z)) : Prop := {
  m_len : length (bitmap m) = Z.to_nat RMAP_BITMAP_BLOCKS;
  m_shape : shape bms (Z.of_nat (length bms));
  m_fit : (length bms <= Z.to_nat RMAP_BITMAP_BLOCKS)%nat;
  m_at : forall i ws, bms !! i = Some ws -> exists b, bitmap m !! i = Some b /\ b <> 0 /\ cache (pso m) !! b = Some ws;
  m_rest : forall i, (length bms <= i < Z.to_nat RMAP_BITMAP_BLOCKS)%nat -> bitmap m !! i = Some 0;
  m_inj : forall i j b, bitmap m !! i = Some b -> bitmap m !! j = Some b -> b <> 0 -> i = j;
}.

Lemma maps_frame m m' bms :
  maps m bms -> bitmap m' = bitmap m -> (forall i b, bitmap m !! i = Some b -> b <> 0 -> cache (pso m') !! b = cache (pso m) !! b) -> maps m' bms.
Proof.
  intros [H1 H2 H3 H4 H5 H6] E Hc. split; rewrite ?E; try done. intros i ws Hi. destruct (H4 i ws Hi) as (b & Hb & Hb0 & Hw). exists b. split_and!; try done. by rewrite (Hc i).
Qed.

Lemma bit_bitOf bms i ws q : bms !! Z.to_nat i = Some ws -> 0 <= i -> 0 <= q < 32768 -> bit bms (i * 32768 + q) = bitOf ws q.
Proof.
  intros Hi Hi0 Hq. unfold bit, bitOf. change BLOCK_BITS with 32768. replace ((i * 32768 + q) / 32768) with i by (Z.to_euclidean_division_equations; lia).
  rewrite Hi. simpl. replace ((i * 32768 + q) mod 32768) with q by (Z.to_euclidean_division_equations; lia). replace ((i * 32768 + q) mod 32) with (q mod 32) by (Z.to_euclidean_division_equations; lia). done.
Qed.

Lemma find_spec m bms fuel : forall i j0,
  maps m bms -> (length bms < Z.to_nat RMAP_BITMAP_BLOCKS)%nat -> 0 <= i <= Z.of_nat (length bms) -> Z.of_nat (length bms) - i < Z.of_nat fuel -> j0 = 32768 ->
  (forall q, 0 <= q < i * 32768 -> bit bms q = true) ->
  exists i' j', find_block fuel m i j0 = Some (i', j') /\ 0 <= i' <= Z.of_nat (length bms) /\ (forall q, 0 <= q < i' * 32768 -> bit bms q = true) /\
    (i' = Z.of_nat (length bms) /\ j' = 32768 \/
     i' < Z.of_nat (length bms) /\ 0 <= j' < 32768 /\ (forall q, 0 <= q < i' * 32768 + j' -> bit bms q = true) /\ bit bms (i' * 32768 + j') = false).
Proof.
  induction fuel as [|fuel IH]; intros i j0 Hm Hl Hi Hf -> Hs; [lia|]. cbn [find_block]. destruct (decide (i = Z.of_nat (length bms))) as [->|Hne].
  - rewrite (m_rest _ _ Hm) by lia. cbn [mbind option_bind orb Z.eqb]. exists (Z.of_nat (length bms)), 32768. split; [done|]. split; [lia|]. split; [done|]. by left.
  - destruct (shape_block bms _ i (m_shape _ _ Hm)) as (ws & Hws & Hb); [lia|]. destruct (m_at _ _ Hm _ _ Hws) as (b & Hbm & Hb0 & Hc). rewrite Hbm. cbn [mbind option_bind].
    rewrite (proj2 (Z.eqb_neq b 0)), (proj2 (Z.ltb_lt i RMAP_BITMAP_BLOCKS)) by (done || lia). cbn [orb negb]. rewrite Hc. cbn [mbind option_bind].
    destruct (scan_bits ws (S (Z.to_nat RMAP_BITS_PAGE)) 0 Hb) as (j' & E & Hr & Hs' & Hc'); [lia|change RMAP_BITS_PAGE with 32768; lia|by left|].
    rewrite E. cbn [mbind option_bind]. change RMAP_BITS_PAGE with 32768. destruct (Z.ltb_spec j' 32768) as [Hlt|Hge].
    + exists i, j'. split; [done|]. split; [lia|]. split; [done|]. right. split; [lia|]. split; [lia|]. split.
      * intros q Hq. destruct (decide (q < i * 32768)); [apply Hs; lia|]. replace q with (i * 32768 + (q - i * 32768)) by lia. rewrite (bit_bitOf bms i ws) by (done || lia). apply Hs'. lia.
      * rewrite (bit_bitOf bms i ws) by (done || lia). by apply Hc'.
    + apply IH; try done; try lia. intros q Hq. destruct (decide (q < i * 32768)); [apply Hs; lia|]. replace q with (i * 32768 + (q - i * 32768)) by lia. rewrite (bit_bitOf bms i ws) by (done || lia). apply Hs'. lia.
Qed.

(** ** Blocks that are not of the file *)

Section others.
Context (n nb r : Z) (s : PSOSmall.state) (ts : list (option node)) (used0 used : gset Z) (c0 : gmap Z (list Z)).
Hypothesis HI : FInv n nb r s ts used0 used c0.

Lemma other_set b ws : b ∈ used0 -> FInv n nb r (set_cache s b ws) ts used0 used (<[b := ws]> c0).
Proof.
  intros Hb. destruct HI as [H1 H2 H3 H4 H5 H6 H7]. split; try done.
  - apply (slots_frame lvl (cache s)); [done|]. intros x Hx. simpl. rewrite lookup_insert_ne; [done|]. intros <-. by destruct (H5 b Hx).
  - intros x Hx. simpl. destruct (decide (x = b)) as [->|]; [by rewrite !lookup_insert_eq|]. rewrite !lookup_insert_ne by done. by apply H7.
Qed.

Lemma other_new ws :
  Z.of_nat (size used) < n -> exists b sb, allocBlock (super s) = Some (b, sb) /\ (b ∉ used) /\ 0 < b /\
    FInv n nb r (mkState (dBlk s) (<[b := ws]> (cache s)) sb) ts ({[b]} ∪ used0) ({[b]} ∪ used) (<[b := ws]> c0) /\ size ({[b]} ∪ used) = S (size used).
Proof.
  intros Hsz. destruct HI as [H1 H2 H3 H4 H5 H6 H7]. destruct (alloc_room n nb r (super s) used H1 Hsz) as (b & sb & E & HI' & Hb & _ & Hp).
  assert (Hown : forall x, x ∈ ownedAll lvl ts -> x <> b). { intros x Hx ->. apply Hb. rewrite H6. apply elem_of_union_r, elem_of_list_to_set, Hx. }
  exists b, sb. split; [done|]. split; [done|]. split; [done|]. split; [split; try done|].
  - apply (slots_frame lvl (cache s)); [done|]. intros x Hx. simpl. rewrite lookup_insert_ne; [done|]. intros <-. by apply (Hown b Hx).
  - intros x Hx. destruct (H5 x Hx) as [Hn Hr]. split; [|done]. rewrite elem_of_union, elem_of_singleton. specialize (Hown x Hx). tauto.
  - by rewrite H6, union_assoc_L.
  - intros x Hx. simpl. destruct (decide (x = b)) as [->|]; [by rewrite !lookup_insert_eq|]. rewrite !lookup_insert_ne by done. apply H7. set_solver.
  - rewrite size_union, size_singleton by (by apply disjoint_singleton_l). lia.
Qed.

End others.

(** ** The invariant *)

Section record_map.
Context (n nb r : Z).

(** [A] are the numbers in use, [M] the records that have been written; numbers are
    less than [K]. *)
Record RInv (m : rmap) (A : gset Z) (M : gmap Z record) (bms : list (list Z)) (ts : list (option node)) (used0 used : gset Z) (c0 : gmap Z (list Z)) (K : Z) : Prop := {
  r_file : FInv n nb r (pso m) ts used0 used c0;
  r_maps : maps m bms;
  r_others : forall i b, bitmap m !! i = Some b -> b <> 0 -> b ∈ used0;
  r_bits : forall q, 0 <= q < Z.of_nat (length bms) * 32768 -> bit bms q = bool_decide (q ∈ A);
  r_ids : forall q, q ∈ A -> 0 <= q < Z.of_nat (length bms) * 32768 /\ q < K;
  r_K : 0 < K <= 131072 /\ (Z.of_nat (length bms) - 1) * 32768 <= K;
  r_dom : dom M ⊆ A;
  r_zero : M !! 0 = Some (rec0 m);
  r_recs : forall q x, M !! q = Some x -> q <> 0 -> exists d blk, fmap ts (q / 32) = Some d /\ recs m !! d = Some blk /\ blk !! Z.to_nat (q mod 32) = Some x;
  r_blocks : forall l d, fmap ts l = Some d -> l < 4096 /\ exists blk, recs m !! d = Some blk /\ length blk = 32%nat;
}.

Lemma fmap_pos s ts used0 used c0 l d : FInv n nb r s ts used0 used c0 -> fmap ts l = Some d -> d <> 0.
Proof.
  intros HI Hd ->. destruct (fmap_own _ _ _ _ _ _ _ _ HI _ _ Hd) as [H0 Hu]. rewrite (i_used _ _ _ _ _ _ _ _ HI) in Hu.
  apply elem_of_union in Hu as [?|Hu]; [done|]. apply elem_of_list_to_set in Hu. destruct (i_own _ _ _ _ _ _ _ _ HI 0 Hu) as [_ Hr]. pose proof (v_n _ _ _ _ _ (i_ok _ _ _ _ _ _ _ _ HI)). lia.
Qed.

Section state.
Context (m : rmap) (A : gset Z) (M : gmap Z record) (bms : list (list Z)) (ts : list (option node)) (used0 used : gset Z) (c0 : gmap Z (list Z)) (K : Z).
Hypothesis HR : RInv m A M bms ts used0 used c0 K.

Lemma id_block id : id ∈ A -> 0 <= id /\ id / 32 < 4096 /\ inFile (id / 32) /\ (Z.to_nat (id mod 32) < 32)%nat.
Proof.
  intros Hid. destruct (r_ids _ _ _ _ _ _ _ _ _ HR id Hid) as [H1 H2]. destruct (r_K _ _ _ _ _ _ _ _ _ HR) as [H3 _]. unfold inFile. change PSO_SMALL_MAXBLK with (25 + 1024 + 2 ^ 20 + 2 ^ 30).
  pose proof (Z.mod_pos_bound id 32 ltac:(lia)). pose proof (Z.div_mod id 32 ltac:(lia)). split_and!; lia.
Qed.

Lemma read_block l junk : inFile l ->
  readBlockCache m l junk = match fmap ts l with Some d => blk ← recs m !! d; Some (d, blk) | None => Some (0, junk) end.
Proof.
  intros Hl. unfold readBlockCache. rewrite (read_exact _ _ _ _ _ _ _ _ (r_file _ _ _ _ _ _ _ _ _ HR)) by done. cbn [mbind option_bind]. destruct (fmap ts l) as [d|] eqn:E; [|done].
  simpl (default _ _). by rewrite (proj2 (Z.eqb_neq d 0)) by (by eapply fmap_pos; [apply HR|]).
Qed.

Lemma read_record id x junk : M !! id = Some x -> readRecord m id junk = Some x.
Proof.
  intros Hx. unfold readRecord. destruct (Z.eqb_spec id 0) as [->|H0]; [rewrite <- Hx; symmetry; apply HR|]. assert (Hid : id ∈ A) by (apply (r_dom _ _ _ _ _ _ _ _ _ HR), elem_of_dom; by eexists).
  destruct (id_block id Hid) as (_ & _ & Hf & _). rewrite read_block by done. destruct (r_recs _ _ _ _ _ _ _ _ _ HR id x Hx H0) as (d & blk & -> & -> & E). cbn [mbind option_bind]. done.
Qed.

Lemma dom_in q x : M !! q = Some x -> q ∈ A.
Proof. intros H. apply (r_dom _ _ _ _ _ _ _ _ _ HR), elem_of_dom. by eexists. Qed.

(** The block of a record is written. *)
Lemma write_block id d blk x s' ts' used' bitmap' :
  id ∈ A -> id <> 0 -> FInv n nb r s' ts' used0 used' c0 -> bitmap' = bitmap m ->
  fmap ts' (id / 32) = Some d -> (forall l, l <> id / 32 -> fmap ts' l = fmap ts l) ->
  (forall q y, M !! q = Some y -> q <> 0 -> q / 32 = id / 32 -> q <> id -> blk !! Z.to_nat (q mod 32) = Some y) ->
  length blk = 32%nat -> blk !! Z.to_nat (id mod 32) = Some x ->
  RInv (mkMap (rec0 m) bitmap' s' (<[d := blk]> (recs m)) (dirty m)) A (<[id := x]> M) bms ts' used0 used' c0 K.
Proof.
  intros Hid H0 HI' -> Hd Hoth Hsame Hlen Hx. destruct HR as [H1 H2 H3 H4 H5 H6 H7 H8 H9 H10]. destruct (id_block id Hid) as (_ & Hlt & _).
  assert (Hinj : forall l e, l <> id / 32 -> fmap ts l = Some e -> e <> d).
  { intros l e Hl He ->. apply Hl. apply (fmap_inj _ _ _ _ _ _ _ _ HI' l (id / 32) d); [by rewrite Hoth|done]. }
  split; simpl; try done.
  - apply (maps_frame m); [done|done|]. intros i b Hb Hb0. pose proof (H3 i b Hb Hb0) as Hu. simpl. rewrite (i_frame _ _ _ _ _ _ _ _ HI' b Hu). symmetry. by apply (i_frame _ _ _ _ _ _ _ _ H1).
  - rewrite dom_insert. set_solver.
  - by rewrite lookup_insert_ne.
  - intros q y Hq Hq0. destruct (decide (q = id)) as [->|Hne].
    + rewrite lookup_insert_eq in Hq. injection Hq as <-. exists d, blk. by rewrite lookup_insert_eq.
    + rewrite lookup_insert_ne in Hq by done. destruct (decide (q / 32 = id / 32)) as [E|E].
      * exists d, blk. rewrite E, lookup_insert_eq. split_and!; try done. by apply Hsame.
      * destruct (H9 q y Hq Hq0) as (e & bl & He & Hbl & Hy). exists e, bl. rewrite Hoth by done. rewrite lookup_insert_ne by (symmetry; by apply (Hinj _ _ E)). done.
  - intros l e He. destruct (decide (l = id / 32)) as [->|Hl].
    + assert (e = d) as -> by congruence. split; [done|]. exists blk. by rewrite lookup_insert_eq.
    + rewrite Hoth in He by done. rewrite lookup_insert_ne by (symmetry; by apply (Hinj _ _ Hl)). by apply H10.
Qed.

Lemma change_record id f junk :
  id ∈ A -> length junk = 32%nat -> Z.of_nat (size used) + 4 <= n ->
  exists m' x ts' used', changeRecord m id f junk = Some m' /\ RInv m' A (<[id := f x]> M) bms ts' used0 used' c0 K /\
    Z.of_nat (size used') <= Z.of_nat (size used) + 4 /\ (forall y, M !! id = Some y -> x = y) /\ dirty m' = dirty m.
Proof.
  intros Hid Hj Hsz. destruct (id_block id Hid) as (Hid0 & Hlt & Hf & Hmod). unfold changeRecord. destruct (Z.eqb_spec id 0) as [->|H0].
  - eexists. exists (rec0 m), ts, used. split; [done|]. split; [|split; [lia|]; split; [|done]].
    + destruct HR as [H1 H2 H3 H4 H5 H6 H7 H8 H9 H10]. split; simpl; try done; [by apply (maps_frame m)|rewrite dom_insert; set_solver|by rewrite lookup_insert_eq|].
      intros q x Hq Hq0. rewrite lookup_insert_ne in Hq by done. by apply H9.
    + intros y Hy. rewrite (r_zero _ _ _ _ _ _ _ _ _ HR) in Hy. by injection Hy.
  - rewrite read_block by done. destruct (fmap ts (id / 32)) as [d|] eqn:Ed.
    + destruct (r_blocks _ _ _ _ _ _ _ _ _ HR _ _ Ed) as (_ & blk & Eb & Hlen). rewrite Eb. cbn [mbind option_bind].
      destruct (lookup_lt_is_Some_2 blk (Z.to_nat (id mod 32))) as [x Hx]; [lia|]. rewrite Hx. cbn [mbind option_bind].
      assert (Hd0 : d <> 0) by (by eapply fmap_pos; [apply HR|]). unfold writeBlockCache. rewrite (proj2 (Z.eqb_neq d 0)) by done. cbn [mbind option_bind assertK negb].
      rewrite (proj2 (Z.eqb_neq d 0)) by done. eexists. exists x, ts, used. split; [done|]. split; [|split; [lia|]; split; [|done]].
      * apply write_block; try done; [apply HR| |by rewrite length_insert|apply list_lookup_insert_eq; lia].
        intros q y Hq Hq0 E Hne. destruct (r_recs _ _ _ _ _ _ _ _ _ HR q y Hq Hq0) as (e & bl & He & Hbl & Hy). rewrite E, Ed in He. injection He as <-. rewrite Eb in Hbl. injection Hbl as <-.
        rewrite list_lookup_insert_ne; [done|]. intros Em. apply Hne. pose proof (Z.mod_pos_bound q 32 ltac:(lia)). pose proof (Z.mod_pos_bound id 32 ltac:(lia)). pose proof (Z.div_mod q 32 ltac:(lia)). pose proof (Z.div_mod id 32 ltac:(lia)). lia.
      * intros y Hy. destruct (r_recs _ _ _ _ _ _ _ _ _ HR id y Hy H0) as (e & bl & He & Hbl & Hy'). congruence.
    + destruct (lookup_lt_is_Some_2 junk (Z.to_nat (id mod 32))) as [x Hx]; [lia|]. cbn [mbind option_bind]. rewrite Hx. cbn [mbind option_bind]. unfold writeBlockCache. cbn [Z.eqb].
      destruct (write_exact _ _ _ _ _ _ _ _ (r_file _ _ _ _ _ _ _ _ _ HR) (id / 32) Hf Hsz) as (b & s' & ts' & used' & -> & HI' & Hs & F1 & F2 & _). cbn [mbind option_bind].
      assert (Hb0 : b <> 0) by (by eapply fmap_pos; [apply HI'|]). rewrite (proj2 (Z.eqb_neq b 0)) by done. cbn [mbind option_bind assertK negb]. eexists. exists x, ts', used'. split; [done|]. split; [|split; [lia|]; split; [|done]].
      * apply write_block; try done; [|by rewrite length_insert|apply list_lookup_insert_eq; lia].
        intros q y Hq Hq0 E _. destruct (r_recs _ _ _ _ _ _ _ _ _ HR q y Hq Hq0) as (e & bl & He & _). rewrite E, Ed in He. done.
      * intros y Hy. destruct (r_recs _ _ _ _ _ _ _ _ _ HR id y Hy H0) as (e & bl & He & _). congruence.
Qed.

(** A bit of the bitmap changes. *)
Lemma change_bit i j k b ws w w' A' M' K' D :
  0 <= i < Z.of_nat (length bms) -> 0 <= j < 1024 -> 0 <= k < 32 -> bitmap m !! Z.to_nat i = Some b -> b <> 0 -> bms !! Z.to_nat i = Some ws -> ws !! Z.to_nat j = Some w ->
  word w' -> (forall q, 0 <= q < 32 -> q <> k -> Z.testbit w' q = Z.testbit w q) ->
  (forall q, q ∈ A' <-> if decide (q = k + j * 32 + i * 32768) then Z.testbit w' k = true else q ∈ A) ->
  (forall q, q ∈ A' -> q < K') -> K <= K' <= 131072 -> dom M' ⊆ A' -> M' ⊆ M -> M' !! 0 = M !! 0 ->
  RInv (mkMap (rec0 m) (bitmap m) (set_cache (pso m) b (<[Z.to_nat j := w']> ws)) (recs m) D) A' M'
    (<[Z.to_nat i := <[Z.to_nat j := w']> ws]> bms) ts used0 used (<[b := <[Z.to_nat j := w']> ws]> c0) K'.
Proof.
  intros Hi Hj Hk Hb Hb0 Hws Hw Hww Hq HA HK HKK HM Hsub HM0. destruct HR as [H1 H2 H3 H4 H5 H6 H7 H8 H9 H10]. pose proof H2 as [M1 M2 M3 M4 M5 M6].
  split; simpl; rewrite ?length_insert; try done.
  - apply other_set; [done|]. by apply (H3 (Z.to_nat i)).
  - split; simpl; rewrite ?length_insert; try done; [by apply shape_set|]. intros i0 ws0 Hi0. destruct (decide (i0 = Z.to_nat i)) as [->|Hne].
    + rewrite list_lookup_insert_eq in Hi0 by lia. injection Hi0 as <-. exists b. by rewrite lookup_insert_eq.
    + rewrite list_lookup_insert_ne in Hi0 by done. destruct (M4 _ _ Hi0) as (b1 & E1 & E2 & E3). exists b1. split_and!; try done. rewrite lookup_insert_ne; [done|]. intros <-. apply Hne. by apply (M6 _ _ b).
  - intros q Hqr. rewrite (bit_set bms (Z.of_nat (length bms)) i j k ws w w' q) by (done || lia). change BLOCK_BITS with 32768. specialize (HA q). destruct (decide (q = k + j * 32 + i * 32768)).
    + destruct (Z.testbit w' k); [rewrite bool_decide_true by tauto|rewrite bool_decide_false by (rewrite HA; done)]; done.
    + rewrite H4 by done. by apply bool_decide_ext.
  - intros q Hqa. split; [|by apply HK]. apply HA in Hqa. destruct (decide (q = k + j * 32 + i * 32768)) as [->|]; [lia|]. by apply H5.
  - lia.
  - by rewrite HM0.
  - intros q x Hx. apply H9. by eapply lookup_weaken.
Qed.

(** A number is taken. *)
Lemma take_number i j b ws w D :
  0 <= i < Z.of_nat (length bms) -> 0 <= j < 32768 -> bitmap m !! Z.to_nat i = Some b -> bms !! Z.to_nat i = Some ws -> ws !! Z.to_nat (j / 32) = Some w ->
  i * 32768 + j <= K < 131072 ->
  exists bms' c', RInv (mkMap (rec0 m) (bitmap m) (set_cache (pso m) b (<[Z.to_nat (j / 32) := Z.lor w (Z.shiftl 1 (j mod 32))]> ws)) (recs m) D)
    ({[i * 32768 + j]} ∪ A) M bms' ts used0 used c' (K + 1).
Proof.
  intros Hi Hj Hb Hws Hw HK. pose proof (Z.mod_pos_bound j 32 ltac:(lia)) as Hm. pose proof (Z.div_mod j 32 ltac:(lia)) as Hdm.
  destruct (m_at _ _ (r_maps _ _ _ _ _ _ _ _ _ HR) _ _ Hws) as (b' & Hb' & Hb0 & _). assert (b' = b) as -> by congruence.
  destruct (shape_block bms _ i (m_shape _ _ (r_maps _ _ _ _ _ _ _ _ _ HR)) ltac:(lia)) as (ws' & E & _ & Hfw). assert (ws' = ws) as -> by congruence.
  assert (Hww : word w) by (rewrite Forall_lookup in Hfw; by eapply Hfw).
  eexists _, _. apply (change_bit i (j / 32) (j mod 32) b ws w); try done; try lia.
  - by apply word_set.
  - intros q Hq Hne. rewrite lor_shift_bits by lia. rewrite (proj2 (Z.eqb_neq (j mod 32) q)) by done. by rewrite orb_false_r.
  - intros q. rewrite elem_of_union, elem_of_singleton, lor_shift_bits, Z.eqb_refl, orb_true_r by lia. replace (j mod 32 + j / 32 * 32 + i * 32768) with (i * 32768 + j) by lia.
    destruct (decide (q = i * 32768 + j)); tauto.
  - intros q [->%elem_of_singleton|Hq]%elem_of_union; [lia|]. destruct (r_ids _ _ _ _ _ _ _ _ _ HR q Hq). lia.
  - pose proof (r_dom _ _ _ _ _ _ _ _ _ HR). set_solver.
Qed.

(** A block of the bitmap is added. *)
Lemma add_bitmap :
  Z.of_nat (size used) < n -> (length bms < Z.to_nat RMAP_BITMAP_BLOCKS)%nat -> Z.of_nat (length bms) * 32768 <= K ->
  exists m' b used', newBitmap m (Z.of_nat (length bms)) = Some m' /\ RInv m' A M (bms ++ [zeros]) ts ({[b]} ∪ used0) used' (<[b := zeros]> c0) K /\
    size used' = S (size used) /\ bitmap m' !! length bms = Some b /\ dirty m' = dirty m.
Proof.
  intros Hsz Hl HK. destruct HR as [H1 H2 H3 H4 H5 H6 H7 H8 H9 H10]. pose proof H2 as [M1 M2 M3 M4 M5 M6]. unfold newBitmap. rewrite Nat2Z.id, M5 by lia. cbn [mbind option_bind].
  rewrite (proj2 (Z.ltb_lt _ RMAP_BITMAP_BLOCKS)) by lia. cbn [andb Z.eqb]. destruct (other_new n nb r (pso m) ts used0 used c0 H1 zeros Hsz) as (b & sb & -> & Hb & Hp & HI' & Hs). cbn [mbind option_bind].
  eexists. exists b, ({[b]} ∪ used). split; [done|]. split; [|split; [done|]; split; [apply list_lookup_insert_eq; lia|done]].
  assert (Hub : forall i x, bitmap m !! i = Some x -> x <> 0 -> x <> b).
  { intros i x Hx Hx0 ->. apply Hb. rewrite (i_used _ _ _ _ _ _ _ _ H1). apply elem_of_union_l. by apply (H3 i). }
  split; simpl; try done.
  - split; simpl; rewrite ?length_insert, ?length_app; simpl; try done; try lia.
    + destruct M2 as [_ Hf]. split; [rewrite length_app; done|]. apply Forall_app. split; [done|]. apply Forall_singleton. split; [done|]. by apply Forall_replicate.
    + intros i ws Hi. apply lookup_app_Some in Hi as [Hi|[Hge Hi]].
      * destruct (M4 i ws Hi) as (x & Hx & Hx0 & Hw). exists x. rewrite list_lookup_insert_ne by (apply lookup_lt_Some in Hi; lia). split_and!; try done. rewrite lookup_insert_ne; [done|]. symmetry. by apply (Hub i).
      * apply list_lookup_singleton_Some in Hi as [Hi <-]. exists b. replace i with (length bms) by lia. rewrite list_lookup_insert_eq, lookup_insert_eq by lia. split_and!; try done. lia.
    + intros i Hi. rewrite list_lookup_insert_ne by lia. apply M5. lia.
    + intros i j x Hi Hj Hx. destruct (decide (i = length bms)) as [->|Hne], (decide (j = length bms)) as [->|Hne2]; try done.
      * rewrite list_lookup_insert_eq in Hi by lia. rewrite list_lookup_insert_ne in Hj by done. injection Hi as ->. by destruct (Hub j x).
      * rewrite list_lookup_insert_eq in Hj by lia. rewrite list_lookup_insert_ne in Hi by done. injection Hj as ->. by destruct (Hub i x).
      * rewrite list_lookup_insert_ne in Hi, Hj by done. by apply (M6 i j x).
  - intros i x Hx Hx0. destruct (decide (i = length bms)) as [->|Hne]; [rewrite list_lookup_insert_eq in Hx by lia; injection Hx as ->; set_solver|]. rewrite list_lookup_insert_ne in Hx by done. apply elem_of_union_r. by apply (H3 i).
  - intros q Hq. rewrite length_app in Hq. simpl in Hq. destruct (decide (q < Z.of_nat (length bms) * 32768)) as [Hlt|Hge].
    + rewrite <- H4 by lia. unfold bit. rewrite lookup_app_l; [done|]. change BLOCK_BITS with 32768. pose proof (Z.div_lt_upper_bound q 32768 (Z.of_nat (length bms)) ltac:(lia) ltac:(lia)). pose proof (Z.div_pos q 32768 ltac:(lia) ltac:(lia)). lia.
    + rewrite bool_decide_false by (intros Hq'; apply H5 in Hq'; lia). replace q with (Z.of_nat (length bms) * 32768 + (q - Z.of_nat (length bms) * 32768)) by lia.
      rewrite (bit_bitOf _ _ zeros) by (rewrite ?Nat2Z.id, ?list_lookup_middle; done || lia). unfold bitOf. destruct (zeros !! _) as [w|] eqn:Ew; [|done]. apply lookup_replicate in Ew as [-> _]. simpl. apply Z.bits_0.
  - intros q Hq. rewrite length_app. simpl. destruct (H5 q Hq). lia.
  - rewrite length_app. simpl. lia.
Qed.

End state.

(** ** Taking and giving back a number *)

Lemma alloc_number m A M bms ts used0 used c0 K :
  RInv m A M bms ts used0 used c0 K -> Z.of_nat (size used) < n -> K < 131072 ->
  exists id m' bms' used0' used' c', internal_allocRecord m = Some (id, m') /\ RInv m' ({[id]} ∪ A) M bms' ts used0' used' c' (K + 1) /\
    Z.of_nat (size used') <= Z.of_nat (size used) + 1 /\ used0 ⊆ used0' /\ 0 <= id /\ (id ∉ A) /\ (forall q, 0 <= q < id -> q ∈ A).
Proof.
  intros HR Hsz HK. pose proof (r_maps _ _ _ _ _ _ _ _ _ HR) as Hm. pose proof (r_K _ _ _ _ _ _ _ _ _ HR) as [_ HKB].
  assert (Hfit : (length bms < Z.to_nat RMAP_BITMAP_BLOCKS)%nat) by (change (Z.to_nat RMAP_BITMAP_BLOCKS) with 992%nat; lia).
  assert (HinA : forall q, 0 <= q < Z.of_nat (length bms) * 32768 -> bit bms q = true -> q ∈ A) by (intros q Hq Hb; rewrite (r_bits _ _ _ _ _ _ _ _ _ HR q Hq) in Hb; by apply bool_decide_eq_true in Hb).
  unfold internal_allocRecord. destruct (find_spec m bms (S (Z.to_nat RMAP_BITMAP_BLOCKS)) 0 RMAP_BITS_PAGE Hm Hfit) as (i & j & -> & Hi & Hall & Hcase); [lia|lia|done|lia|].
  cbn [mbind option_bind]. change RMAP_BITS_PAGE with 32768. destruct Hcase as [[-> ->]|(Hi' & Hj & Hlow & Hclear)].
  - rewrite Z.eqb_refl. assert (HBK : Z.of_nat (length bms) * 32768 <= K).
    { destruct (decide (length bms = 0%nat)) as [E|]; [rewrite E; destruct (r_K _ _ _ _ _ _ _ _ _ HR); lia|]. destruct (r_ids _ _ _ _ _ _ _ _ _ HR (Z.of_nat (length bms) * 32768 - 1)); [|lia]. apply HinA; [lia|]. apply Hall. lia. }
    destruct (add_bitmap _ _ _ _ _ _ _ _ _ HR Hsz Hfit HBK) as (m1 & b & used1 & -> & HR1 & Hs1 & Hb1 & _). cbn [mbind option_bind]. rewrite Nat2Z.id, Hb1. cbn [mbind option_bind].
    destruct (m_at _ _ (r_maps _ _ _ _ _ _ _ _ _ HR1) (length bms) zeros) as (b' & E & _ & Hc); [by apply list_lookup_middle|]. assert (b' = b) as -> by congruence. rewrite Hc. cbn [mbind option_bind].
    change (zeros !! Z.to_nat (0 / 32)) with (Some 0). cbn [mbind option_bind]. rewrite (proj2 (Z.leb_gt _ _)) by (change (RMAP_BITMAP_BLOCKS * 32768) with 32505856; lia). cbn [mbind option_bind assertK negb].
    destruct (take_number _ _ _ _ _ _ _ _ _ HR1 (Z.of_nat (length bms)) 0 b zeros 0 ({[b]} ∪ dirty m1)) as (bms' & c' & HR2); [rewrite length_app; simpl; lia|lia|by rewrite Nat2Z.id|by rewrite Nat2Z.id, list_lookup_middle|done|lia|].
    exists (Z.of_nat (length bms) * 32768 + 0). do 5 eexists. split; [done|]. split; [exact HR2|]. split; [lia|]. split; [set_solver|]. split; [lia|]. split.
    + intros H. apply (r_ids _ _ _ _ _ _ _ _ _ HR) in H. lia.
    + intros q Hq. apply HinA; [lia|]. apply Hall. lia.
  - rewrite (proj2 (Z.eqb_neq j 32768)) by lia. cbn [mbind option_bind]. destruct (shape_block bms _ i (m_shape _ _ Hm)) as (ws & Hws & Hb); [lia|]. destruct (m_at _ _ Hm _ _ Hws) as (b & Hbm & Hb0 & Hc). rewrite Hbm. cbn [mbind option_bind].
    rewrite Hc. cbn [mbind option_bind]. destruct (word_at ws j Hb Hj) as (w & Hw & _). rewrite Hw. cbn [mbind option_bind].
    assert (Hlow' : forall q, 0 <= q < i * 32768 + j -> q ∈ A) by (intros q Hq; apply HinA; [lia|by apply Hlow]).
    assert (HiK : i * 32768 + j <= K). { destruct (decide (i * 32768 + j = 0)) as [E|]; [destruct (r_K _ _ _ _ _ _ _ _ _ HR); lia|]. destruct (r_ids _ _ _ _ _ _ _ _ _ HR (i * 32768 + j - 1)); [apply Hlow'; lia|lia]. }
    rewrite (proj2 (Z.leb_gt _ _)) by (change (RMAP_BITMAP_BLOCKS * 32768) with 32505856; lia). cbn [mbind option_bind assertK negb].
    destruct (take_number _ _ _ _ _ _ _ _ _ HR i j b ws w ({[b]} ∪ dirty m)) as (bms' & c' & HR2); [lia|done|done|done|done|lia|].
    exists (i * 32768 + j). do 5 eexists. split; [done|]. split; [exact HR2|]. split; [lia|]. split; [done|]. split; [lia|]. split; [|done].
    intros H. rewrite (r_bits _ _ _ _ _ _ _ _ _ HR) in Hclear by lia. by rewrite bool_decide_true in Hclear.
Qed.

Lemma clear_word w k : word w -> 0 <= k -> word (Z.land w (Z.lnot (Z.shiftl 1 k))) /\ forall q, 0 <= q -> Z.testbit (Z.land w (Z.lnot (Z.shiftl 1 k))) q = Z.testbit w q && negb (k =? q).
Proof.
  intros Hw Hk. assert (Hq : forall q, 0 <= q -> Z.testbit (Z.land w (Z.lnot (Z.shiftl 1 k))) q = Z.testbit w q && negb (k =? q)).
  { intros q Hq. by rewrite Z.land_spec, Z.lnot_spec, Z.shiftl_1_l, Z.pow2_bits_eqb by lia. }
  split; [|done]. apply word_bits; [apply Z.land_nonneg; left; apply Hw|]. intros q H32. rewrite Hq, (testbit_bounded w 32) by (done || lia). done.
Qed.

Lemma free_number m A M bms ts used0 used c0 K id :
  RInv m A M bms ts used0 used c0 K -> id ∈ A -> id <> 0 ->
  exists m' bms' ts' used' c', freeRecord m id = Some (0, m') /\ RInv m' (A ∖ {[id]}) (delete id M) bms' ts' used0 used' c' K /\ Z.of_nat (size used') <= Z.of_nat (size used).
Proof.
  intros HR Hid H0. pose proof (r_maps _ _ _ _ _ _ _ _ _ HR) as Hm. destruct (r_ids _ _ _ _ _ _ _ _ _ HR id Hid) as [Hr HK]. destruct (r_K _ _ _ _ _ _ _ _ _ HR) as [HK' _].
  unfold freeRecord, internal_freeRecord. change RMAP_BITS_PAGE with 32768. set (i := id / 32768). set (q := id mod 32768).
  assert (Hi : 0 <= i < Z.of_nat (length bms)) by (unfold i; split; [apply Z.div_pos; lia|apply Z.div_lt_upper_bound; lia]). assert (Hq : 0 <= q < 32768) by (apply Z.mod_pos_bound; lia).
  assert (Hdec : id = i * 32768 + q) by (unfold i, q; pose proof (Z.div_mod id 32768 ltac:(lia)); lia).
  assert (Hqm : id mod 32 = q mod 32) by (rewrite Hdec; Z.to_euclidean_division_equations; lia). rewrite Hqm.
  destruct (shape_block bms _ i (m_shape _ _ Hm)) as (ws & Hws & Hb); [lia|]. destruct (m_at _ _ Hm _ _ Hws) as (b & Hbm & Hb0 & Hc). rewrite Hbm. cbn [mbind option_bind].
  rewrite (proj2 (Z.eqb_neq b 0)) by done. cbn [mbind option_bind assertK negb]. rewrite Hc. cbn [mbind option_bind]. destruct (word_at ws q Hb Hq) as (w & Hw & Hww). rewrite Hw. cbn [mbind option_bind].
  pose proof (Z.mod_pos_bound q 32 ltac:(lia)) as Hm32. pose proof (Z.div_mod q 32 ltac:(lia)) as Hdm.
  assert (Hset : Z.testbit w (q mod 32) = true). { rewrite <- (bitOf_at ws q w Hw), <- (bit_bitOf bms i ws q Hws) by lia. rewrite <- Hdec, (r_bits _ _ _ _ _ _ _ _ _ HR) by lia. by apply bool_decide_eq_true. }
  rewrite land_shift, Hset by lia. cbn [mbind option_bind assertK negb]. destruct (clear_word w (q mod 32) Hww ltac:(lia)) as [Hw' Hbits]. set (w' := Z.land w (Z.lnot (Z.shiftl 1 (q mod 32)))) in *.
  assert (HR1 : forall D, RInv (mkMap (rec0 m) (bitmap m) (set_cache (pso m) b (<[Z.to_nat (q / 32) := w']> ws)) (recs m) D) (A ∖ {[id]}) (delete id M)
    (<[Z.to_nat i := <[Z.to_nat (q / 32) := w']> ws]> bms) ts used0 used (<[b := <[Z.to_nat (q / 32) := w']> ws]> c0) K).
  { intros D. apply (change_bit _ _ _ _ _ _ _ _ _ HR i (q / 32) (q mod 32) b ws w w'); try done; try lia.
    - intros x Hx Hne. rewrite Hbits by lia. rewrite (proj2 (Z.eqb_neq _ _)) by congruence. by rewrite andb_true_r.
    - intros x. rewrite elem_of_difference, elem_of_singleton, Hbits, Z.eqb_refl, andb_false_r by lia. replace (q mod 32 + q / 32 * 32 + i * 32768) with id by lia. destruct (decide (x = id)); naive_solver.
    - intros x [Hx _]%elem_of_difference. by apply (r_ids _ _ _ _ _ _ _ _ _ HR).
    - rewrite dom_delete_L. pose proof (r_dom _ _ _ _ _ _ _ _ _ HR). set_solver.
    - apply delete_subseteq.
    - by rewrite lookup_delete_ne. }
  destruct (Z.eqb_spec w' 0) as [Ew|Ew].
  - assert (H32 : 32 <= id).
    { destruct (Z_lt_le_dec id 32) as [Hlt|]; [|done]. exfalso. assert (Hi0 : i = 0) by (unfold i; apply Z.div_small; lia). assert (Hq0 : q = id) by lia.
      assert (Ez : Z.testbit w 0 = true). { change (Z.testbit w (0 mod 32) = true). rewrite <- (bitOf_at ws 0 w) by (rewrite <- Hw, (Z.div_small q 32) by lia; done). rewrite <- (bit_bitOf bms i ws 0 Hws) by lia. rewrite Hi0. rewrite (r_bits _ _ _ _ _ _ _ _ _ HR) by lia.
        apply bool_decide_eq_true. eapply dom_in; [exact HR|]. apply (r_zero _ _ _ _ _ _ _ _ _ HR). }
      pose proof (Hbits 0 ltac:(lia)) as E0. rewrite Ew, Ez, Z.bits_0, (Z.mod_small q 32), (proj2 (Z.eqb_neq q 0)) in E0 by lia. done. }
    pose proof (HR1 (dirty m)) as HR2. destruct (freeBlocks_exact n nb r _ _ _ _ _ (id * RMAP_RECORD_SIZE) (id * RMAP_RECORD_SIZE) (r_file _ _ _ _ _ _ _ _ _ HR2)) as (s' & ts' & used' & Ef & HI' & Hs & F).
    { unfold rangeOk, RMAP_RECORD_SIZE. change PSO_SMALL_MAXBLK with (25 + 1024 + 2 ^ 20 + 2 ^ 30). split; [lia|]. split; [lia|]. right. lia. }
    { intros _ l Hl Hn _. exfalso. destruct (fmap ts l) as [d|] eqn:El; [|done]. destruct (r_blocks _ _ _ _ _ _ _ _ _ HR l d El) as [Hl4 _]. unfold RMAP_RECORD_SIZE in Hl. lia. }
    simpl (pso _) in Ef. rewrite Ef. cbn [mbind option_bind].
    assert (F' : forall l, fmap ts' l = fmap ts l).
    { intros l. rewrite F. destruct (decide _) as [Hl|]; [|done]. destruct (fmap ts l) as [d|] eqn:El; [|done]. destruct (r_blocks _ _ _ _ _ _ _ _ _ HR l d El) as [Hl4 _]. unfold RMAP_RECORD_SIZE in Hl. lia. }
    eexists. do 4 eexists. split; [done|]. split; [|exact Hs]. destruct HR2 as [G1 G2 G3 G4 G5 G6 G7 G8 G9 G10]. split; simpl in *; try done.
    + eapply maps_frame; [exact G2|done|]. intros x y Hx Hy. pose proof (G3 x y Hx Hy) as Hu. simpl. rewrite (i_frame _ _ _ _ _ _ _ _ HI' y Hu). symmetry. by apply (i_frame _ _ _ _ _ _ _ _ G1).
    + intros x y Hx Hx0. rewrite F'. by apply G9.
    + intros l d. rewrite F'. apply G10.
  - cbn [mbind option_bind]. eexists. do 4 eexists. split; [done|]. split; [apply HR1|done].
Qed.

End record_map.

(** ** Sequences of operations *)

Inductive op :=
  | Alloc (type : Z) (junk : list record)
  | Free (id : Z)
  | GetRec (id : Z) (junk : list record)
  | SetRec (id : Z) (rec : list Z) (junk : list record)
  | GetType (id : Z) (junk : list record)
  | SetType (id type : Z) (junk : list record).

Definition exec (o : op) (m : rmap) : option (list Z * rmap) :=
  match o with
  | Alloc type junk => '(id, m) ← allocRecord m type junk; Some ([id], m)
  | Free id => '(_, m) ← freeRecord m id; Some ([], m)
  | GetRec id junk => c ← getRecord m id junk; Some (c, m)
  | SetRec id rec junk => m ← setRecord m id rec junk; Some ([], m)
  | GetType id junk => t ← getRecordType m id junk; Some ([t], m)
  | SetType id type junk => m ← setRecordType m id type junk; Some ([], m)
  end.

Fixpoint run (os : list op) (m : rmap) : option (list (list Z) * rmap) :=
  match os with
  | [] => Some ([], m)
  | o :: os => '(a, m) ← exec o m; '(l, m) ← run os m; Some (a :: l, m)
  end.

(** The answer and the map after an operation on the map [M]. *)
Definition follows (M : gmap Z record) (o : op) (a : list Z) (M' : gmap Z record) : Prop :=
  match o with
  | Alloc type _ => exists id c, a = [id] /\ 0 <= id /\ M !! id = None /\ (forall q, 0 <= q < id -> is_Some (M !! q)) /\
      M' = <[id := (type, c)]> M /\ (joined type = true -> c = zeroRecord)
  | Free id => a = [] /\ M' = delete id M
  | GetRec id _ => exists x, M !! id = Some x /\ a = x.2 /\ M' = M
  | SetRec id rec _ => exists x, M !! id = Some x /\ a = [] /\ M' = <[id := (x.1, rec)]> M
  | GetType id _ => exists x, M !! id = Some x /\ a = [x.1] /\ M' = M
  | SetType id type _ => exists x, M !! id = Some x /\ a = [] /\ M' = <[id := (type, x.2)]> M
  end.

Inductive trace : gmap Z record -> list op -> list (list Z) -> gmap Z record -> Prop :=
  | trace_nil M : trace M [] [] M
  | trace_cons M o a M1 os l M2 : follows M o a M1 -> trace M1 os l M2 -> trace M (o :: os) (a :: l) M2.

(** Operations use numbers that are in use, and do not free number 0. *)
Definition lowestId (A : gset Z) : Z := default 0 (lowest A (Z.of_nat (size A) + 1)).
Definition opOk (o : op) (A : gset Z) : Prop :=
  match o with
  | Alloc _ junk => length junk = 32%nat
  | Free id => id ∈ A /\ id <> 0
  | GetRec id _ | GetType id _ => id ∈ A
  | SetRec id _ junk | SetType id _ junk => id ∈ A /\ length junk = 32%nat
  end.
Definition after (o : op) (A : gset Z) : gset Z :=
  match o with Alloc _ _ => {[lowestId A]} ∪ A | Free id => A ∖ {[id]} | _ => A end.
Fixpoint allowed (os : list op) (A : gset Z) : Prop :=
  match os with [] => True | o :: os => opOk o A /\ allowed os (after o A) end.

(** The numbers in use after a sequence. *)
Fixpoint inUse (os : list op) (A : gset Z) : gset Z := match os with [] => A | o :: os => inUse os (after o A) end.

Lemma lowestId_eq A id : 0 <= id -> id ∉ A -> (forall q, 0 <= q < id -> q ∈ A) -> lowestId A = id.
Proof.
  intros Hid Hn Hl. assert (Hs : id <= Z.of_nat (size A)).
  { assert (Hsub : disk id ⊆ A) by (intros q Hq; apply Hl; by apply elem_disk in Hq). apply subseteq_size in Hsub. rewrite size_disk in Hsub by done. lia. }
  unfold lowestId. destruct (lowest A _) as [b|] eqn:E.
  - apply lowest_some in E as (Hb & Hnb & Hlb). simpl. destruct (Z.lt_trichotomy b id) as [H|[H|H]]; [|done|]; exfalso; [apply Hnb, Hl; lia|apply Hn, Hlb; lia].
  - apply lowest_none in E. exfalso. apply Hn, E, elem_disk. lia.
Qed.

Section sequences.
Context (n nb r : Z).

Definition Good (m : rmap) (M : gmap Z record) (used0 used : gset Z) (K : Z) : Prop :=
  exists bms ts used1 c, RInv n nb r m (dom M) M bms ts used1 used c K /\ used0 ⊆ used1.

Lemma alloc_record m M used0 used K type junk :
  Good m M used0 used K -> length junk = 32%nat -> Z.of_nat (size used) + 9 <= n -> K < 131072 ->
  exists a m' M' used', exec (Alloc type junk) m = Some (a, m') /\ Good m' M' used0 used' (K + 1) /\ Z.of_nat (size used') <= Z.of_nat (size used) + 9 /\
    follows M (Alloc type junk) a M' /\ dom M' = after (Alloc type junk) (dom M).
Proof.
  intros (bms & ts & used1 & c & HR & Hsub) Hj Hsz HK. cbn [exec]. unfold allocRecord.
  destruct (alloc_number n nb r _ _ _ _ _ _ _ _ _ HR ltac:(lia) HK) as (id & m1 & bms1 & used01 & u1 & c1 & -> & HR1 & Hs1 & Hsub1 & Hid & Hnew & Hlow). cbn [mbind option_bind].
  unfold setRecordType. destruct (change_record n nb r _ _ _ _ _ _ _ _ _ HR1 id (fun x => (type, x.2)) junk) as (m2 & x2 & ts2 & u2 & -> & HR2 & Hs2 & _ & _); [set_solver|done|lia|]. cbn [mbind option_bind].
  assert (Hfin : forall y, dom (<[id := y]> M) = {[id]} ∪ dom M) by (intros y; by rewrite dom_insert_L).
  assert (Hlid : lowestId (dom M) = id).
  { by apply lowestId_eq. }
  assert (Hn0 : M !! id = None) by (by apply not_elem_of_dom). assert (Hlow' : forall q, 0 <= q < id -> is_Some (M !! q)) by (intros q Hq; by apply elem_of_dom, Hlow).
  unfold locationAlloc. destruct (joined type) eqn:Ej.
  - unfold setRecord. destruct (change_record n nb r _ _ _ _ _ _ _ _ _ HR2 id (fun x => (x.1, zeroRecord)) junk) as (m3 & x3 & ts3 & u3 & -> & HR3 & Hs3 & Hx3 & _); [set_solver|done|lia|]. cbn [mbind option_bind].
    rewrite (Hx3 _ (lookup_insert_eq _ _ _)) in HR3. simpl in HR3. rewrite insert_insert_eq in HR3. exists [id], m3, (<[id := (type, zeroRecord)]> M), u3. split; [done|].
    split; [exists bms1, ts3, used01, c1; rewrite Hfin; split; [done|set_solver]|]. split; [lia|]. split; [exists id, zeroRecord; by split_and!|]. rewrite Hfin. simpl. by rewrite Hlid.
  - cbn [mbind option_bind]. exists [id], m2, (<[id := (type, x2.2)]> M), u2. split; [done|]. split; [exists bms1, ts2, used01, c1; rewrite Hfin; split; [done|set_solver]|]. split; [lia|].
    split; [exists id, (x2.2); split_and!; try done; congruence|]. rewrite Hfin. simpl. by rewrite Hlid.
Qed.

Lemma change_step m M used0 used K id f junk :
  Good m M used0 used K -> id ∈ dom M -> length junk = 32%nat -> Z.of_nat (size used) + 4 <= n ->
  exists m' x used', changeRecord m id f junk = Some m' /\ M !! id = Some x /\ Good m' (<[id := f x]> M) used0 used' K /\ Z.of_nat (size used') <= Z.of_nat (size used) + 4 /\
    dom (<[id := f x]> M) = dom M.
Proof.
  intros (bms & ts & used1 & c & HR & Hsub) Hid Hj Hsz. apply elem_of_dom in Hid as [y Hy]. assert (Hid : id ∈ dom M) by (apply elem_of_dom; by eexists).
  destruct (change_record n nb r _ _ _ _ _ _ _ _ _ HR id f junk Hid Hj Hsz) as (m' & x & ts' & used' & E & HR' & Hs & Hx & _). rewrite (Hx y Hy) in *.
  assert (Hd : dom (<[id := f y]> M) = dom M). { rewrite dom_insert_L. apply subseteq_union_1_L. by apply singleton_subseteq_l. }
  exists m', y, used'. split; [done|]. split; [done|]. split; [|done]. exists bms, ts', used1, c. by rewrite Hd.
Qed.

Lemma record_step o m M used0 used K :
  Good m M used0 used K -> opOk o (dom M) -> Z.of_nat (size used) + 9 <= n -> K < 131072 ->
  exists a m' M' used' K', exec o m = Some (a, m') /\ Good m' M' used0 used' K' /\ K' <= K + 1 /\ Z.of_nat (size used') <= Z.of_nat (size used) + 9 /\
    follows M o a M' /\ dom M' = after o (dom M).
Proof.
  intros HG Ho Hsz HK. destruct o as [type junk|id|id junk|id rec junk|id junk|id type junk]; cbn [opOk] in Ho.
  - destruct (alloc_record m M used0 used K type junk HG Ho Hsz HK) as (a & m' & M' & used' & ?). exists a, m', M', used', (K + 1). destruct_and!. split_and!; try done; lia.
  - destruct Ho as [Hid H0]. destruct HG as (bms & ts & used1 & c & HR & Hsub). destruct (free_number n nb r _ _ _ _ _ _ _ _ _ id HR Hid H0) as (m' & bms' & ts' & used' & c' & E & HR' & Hs).
    exists [], m', (delete id M), used', K. cbn [exec]. rewrite E. cbn [mbind option_bind]. split; [done|]. split; [exists bms', ts', used1, c'; by rewrite dom_delete_L|]. split; [lia|]. split; [lia|]. split; [done|by rewrite dom_delete_L].
  - pose proof HG as (bms & ts & used1 & c & HR & Hsub). apply elem_of_dom in Ho as [x Hx]. exists x.2, m, M, used, K. cbn [exec]. unfold getRecord. rewrite (read_record _ _ _ _ _ _ _ _ _ _ _ _ HR id x junk Hx). cbn [mbind option_bind].
    split_and!; try done; try lia; by exists x.
  - destruct Ho as [Hid Hj]. destruct (change_step m M used0 used K id (fun x => (x.1, rec)) junk HG Hid Hj ltac:(lia)) as (m' & x & used' & E & Hx & HG' & Hs & Hd). exists [], m', (<[id := (x.1, rec)]> M), used', K. cbn [exec]. unfold setRecord. rewrite E. cbn [mbind option_bind].
    split_and!; try done; try lia; by exists x.
  - pose proof HG as (bms & ts & used1 & c & HR & Hsub). apply elem_of_dom in Ho as [x Hx]. exists [x.1], m, M, used, K. cbn [exec]. unfold getRecordType. rewrite (read_record _ _ _ _ _ _ _ _ _ _ _ _ HR id x junk Hx). cbn [mbind option_bind].
    split_and!; try done; try lia; by exists x.
  - destruct Ho as [Hid Hj]. destruct (change_step m M used0 used K id (fun x => (type, x.2)) junk HG Hid Hj ltac:(lia)) as (m' & x & used' & E & Hx & HG' & Hs & Hd). exists [], m', (<[id := (type, x.2)]> M), used', K. cbn [exec]. unfold setRecordType. rewrite E. cbn [mbind option_bind].
    split_and!; try done; try lia; by exists x.
Qed.

Lemma record_run os : forall m M used0 used K,
  Good m M used0 used K -> allowed os (dom M) -> Z.of_nat (size used) + 9 * Z.of_nat (length os) <= n -> K + Z.of_nat (length os) <= 131072 ->
  exists l m' M' used' K', run os m = Some (l, m') /\ Good m' M' used0 used' K' /\ trace M os l M' /\ dom M' = inUse os (dom M) /\
    Z.of_nat (size used') <= Z.of_nat (size used) + 9 * Z.of_nat (length os) /\ K' <= K + Z.of_nat (length os).
Proof.
  induction os as [|o os IH]; intros m M used0 used K HG Ho Hsz HK; cbn [run length inUse] in *; [exists [], m, M, used, K; split_and!; try done; try lia; constructor|].
  destruct Ho as [Ho Hos]. destruct (record_step o m M used0 used K HG Ho ltac:(lia) ltac:(lia)) as (a & m1 & M1 & used1 & K1 & -> & HG1 & HK1 & Hs1 & Hf & Hd). cbn [mbind option_bind].
  rewrite <- Hd in Hos. destruct (IH m1 M1 used0 used1 K1 HG1 Hos ltac:(lia) ltac:(lia)) as (l & m' & M' & used' & K' & -> & HG' & Ht & Hd' & Hs' & HK'). cbn [mbind option_bind].
  exists (a :: l), m', M', used', K'. rewrite Hd in Hd'. split_and!; try done; try lia. by econstructor.
Qed.

(** ** A new record map *)

Definition firstBits : list Z := <[0%nat := 1]> zeros.
Definition firstRecord : gmap Z record := {[0 := (OT_PRIM_UNIX, zeroRecord)]}.

Lemma firstBits_bit q : 0 <= q < 32768 -> bit [firstBits] q = bool_decide (q ∈ ({[0]} : gset Z)).
Proof.
  intros Hq. replace q with (0 * 32768 + q) at 1 by lia. rewrite (bit_bitOf [firstBits] 0 firstBits q) by (done || lia). unfold bitOf, firstBits. destruct (decide (q / 32 = 0)) as [E|E].
  - rewrite E. change (_ !! Z.to_nat 0) with (Some 1). simpl. pose proof (Z.div_mod q 32 ltac:(lia)) as Hdm. assert (Hqm : q mod 32 = q) by lia. rewrite Hqm. change 1 with (2 ^ 0). rewrite Z.pow2_bits_eqb by lia.
    destruct (Z.eqb_spec 0 q) as [<-|]; [rewrite bool_decide_true by set_solver|rewrite bool_decide_false by set_solver]; done.
  - rewrite list_lookup_insert_ne by (pose proof (Z.div_pos q 32 ltac:(lia) ltac:(lia)); lia). rewrite bool_decide_false by (rewrite elem_of_singleton; intros ->; done).
    destruct (zeros !! _) as [w|] eqn:Ew; [|done]. apply lookup_replicate in Ew as [-> _]. simpl. apply Z.bits_0.
Qed.

Lemma only_first k b i x : <[0%nat := b]> (replicate k 0) !! i = Some x -> x <> 0 -> i = 0%nat.
Proof. intros Hi Hx. destruct (decide (i = 0%nat)); [done|]. rewrite list_lookup_insert_ne in Hi by done. apply lookup_replicate in Hi as [? _]. done. Qed.

Lemma newRecordMap_good c0 sb used0 :
  Inv sb used0 n nb r -> Z.of_nat (size used0) + 2 <= n ->
  exists blkno m used, newRecordMap c0 sb = Some (blkno, m) /\ Good m firstRecord used0 used 1 /\ Z.of_nat (size used) = Z.of_nat (size used0) + 2 /\ (blkno ∉ used0).
Proof.
  intros HI Hsz. unfold newRecordMap. destruct (alloc_room n nb r sb used0 HI ltac:(lia)) as (blkno & sb1 & -> & HI1 & Hb1 & _). cbn [mbind option_bind].
  assert (Hs1 : size ({[blkno]} ∪ used0) = S (size used0)) by (rewrite size_union, size_singleton by (by apply disjoint_singleton_l); lia).
  destruct (alloc_room n nb r sb1 _ HI1 ltac:(lia)) as (b & sb2 & -> & HI2 & Hb2 & _ & Hb0). cbn [mbind option_bind].
  exists blkno. eexists. exists ({[b]} ∪ ({[blkno]} ∪ used0)). split; [done|]. split; [|split; [rewrite size_union, size_singleton by (by apply disjoint_singleton_l); lia|done]].
  exists [firstBits], (replicate 28 None), ({[b]} ∪ ({[blkno]} ∪ used0)), (<[b := firstBits]> c0). split; [|set_solver]. unfold firstRecord. rewrite dom_singleton_L. split; cbn [bitmap pso cache rec0 recs].
  - by apply (newFile_inv n nb r (<[b := firstBits]> c0) sb2).
  - split; cbn [bitmap pso cache]; try done.
    + split; [done|]. apply Forall_singleton. split; [by vm_compute|]. apply Forall_insert; [by apply Forall_replicate|done].
    + apply Nat.leb_le. by vm_compute.
    + intros i ws Hi. apply list_lookup_singleton_Some in Hi as [-> <-]. exists b. split; [done|]. split; [lia|]. apply lookup_insert_eq.
    + intros i Hi. rewrite list_lookup_insert_ne by (simpl in Hi; lia). apply lookup_replicate_2. lia.
    + intros i j x Hi Hj Hx. rewrite (only_first _ _ _ _ Hi Hx), (only_first _ _ _ _ Hj Hx). done.
  - intros i x Hx Hx0. rewrite (only_first _ _ _ _ Hx Hx0) in Hx. rewrite list_lookup_insert_eq in Hx by (apply Nat.ltb_lt; by vm_compute). injection Hx as <-. apply elem_of_union_l. by apply elem_of_singleton.
  - intros q Hq. apply firstBits_bit. done.
  - intros q ->%elem_of_singleton. done.
  - done.
  - by rewrite dom_singleton_L.
  - apply lookup_singleton_eq.
  - intros q x Hq Hq0. apply lookup_singleton_Some in Hq as [? _]. lia.
  - intros l d Hd. by rewrite fmap_new in Hd.
Qed.

End sequences.

(** C11: The record map is a map.  On a disk where the blocks [used0] belong to others,
    with two free blocks and nine more for each operation, a new record map is used by a
    sequence of fewer than 131072 operations: taking a number, giving one back, and
    reading and writing types and records.  The numbers given back, read and written are
    in use at the time, number 0, which is that of the map itself, is not given back, and
    a page that the block cache makes has 32 records.  (With more numbers a record can be
    lost, see free_loses_record.)  Every call returns and no assertion fails.  A
    number taken is the lowest that is free, its record has the type asked for, and is
    cleared when the type has a class; a number keeps its type and record, whatever
    happens to others, until they are changed or it is given back.  No block of others is
    freed. *)
Theorem records_refine n nb r used0 c0 sb os :
  Inv sb used0 n nb r -> allowed os {[0]} -> Z.of_nat (size used0) + 2 + 9 * Z.of_nat (length os) <= n -> Z.of_nat (length os) < 131072 ->
  exists blkno m l m' M' used', newRecordMap c0 sb = Some (blkno, m) /\ run os m = Some (l, m') /\ trace {[0 := (OT_PRIM_UNIX, zeroRecord)]} os l M' /\
    Inv (super (pso m')) used' n nb r /\ used0 ⊆ used'.
Proof.
  intros HI Ho Hsz Hlen. destruct (newRecordMap_good n nb r c0 sb used0 HI ltac:(lia)) as (blkno & m & used & E & HG & Hs & _).
  destruct (record_run n nb r os m firstRecord used0 used 1 HG) as (l & m' & M' & used' & K' & Er & (bms & ts & used1 & c & HR & Hsub) & Ht & _); [by unfold firstRecord; rewrite dom_singleton_L|lia|lia|].
  exists blkno, m, l, m', M', used'. split_and!; try done; [apply (i_ok _ _ _ _ _ _ _ _ (r_file _ _ _ _ _ _ _ _ _ _ _ _ HR))|]. rewrite (i_used _ _ _ _ _ _ _ _ (r_file _ _ _ _ _ _ _ _ _ _ _ _ HR)). set_solver.
Qed.

Definition page : list record := replicate 32 (99, [1; 2; 3]).
Definition chores : list op := [Alloc 17 page; Alloc 2 page; SetRec 2 [5; 6] page; GetRec 2 page; GetType 1 page; Free 1; Alloc 16 page; GetRec 1 page; GetRec 2 page].

Lemma records_refine_witness :
  exists sb blkno m l m', formatDisk 5000 blankMap = Some (0, sb) /\ newRecordMap ∅ sb = Some (blkno, m) /\ run chores m = Some (l, m').
Proof.
  destruct (formatDisk_inv 5000 blankMap) as (sb & E & HI); [change LARGEST with 33030144; lia|by vm_compute|].
  assert (Ho : allowed chores {[0]}) by (repeat (split; [first [done|split; [by apply (bool_decide_unpack _); vm_compute|done]|by apply (bool_decide_unpack _); vm_compute]|]); done).
  assert (Hsz : Z.of_nat (size (disk (reserved 5000))) + 2 + 9 * Z.of_nat (length chores) <= 5000) by (by vm_compute).
  destruct (records_refine 5000 _ _ _ ∅ sb chores HI Ho Hsz ltac:(by vm_compute)) as (blkno & m & l & m' & M' & used' & En & Er & _). by exists sb, blkno, m, l, m'.
Defined.

(** What the answers are. *)
Lemma chores_answers :
  ('(_, sb) ← formatDisk 5000 blankMap; '(_, m) ← newRecordMap ∅ sb; fst <$> run chores m) = Some [[1]; [2]; []; [5; 6]; [17]; []; [1]; zeroRecord; [5; 6]].
Proof. by vm_compute. Qed.

(** ** Where it goes wrong *)

(** A map in which 32 is the only number of its word, and two numbers from 131072 on are
    in use. *)
Definition largeMap : option rmap :=
  '(_, sb) ← formatDisk 5000 blankMap; '(_, m) ← newRecordMap ∅ sb; b ← bitmap m !! 0%nat; ws ← cache (pso m) !! b;
  m ← setRecord (mkMap (rec0 m) (bitmap m) (set_cache (pso m) b (<[1%nat := 1]> ws)) (recs m) ∅) 131072 [7; 8] page;
  setRecord m 131104 [9] page.

(** Giving back a number that is the last of its word frees block 128 * id, where id / 32
    is meant: the record of 131072 is lost when 32 is given back; and the block of the
    bitmap is not marked dirty. *)
Lemma free_loses_record :
  (m ← largeMap; getRecord m 131072 page) = Some [7; 8] /\
  (m ← largeMap; '(_, m) ← freeRecord m 32; getRecord m 131072 page) = Some [1; 2; 3] /\
  (m ← largeMap; '(_, m) ← freeRecord m 32; Some (bool_decide (dirty m = ∅))) = Some true.
Proof. split_and!; by vm_compute. Qed.

(** When the last block of the bitmap is full the search reads past the list of blocks. *)
Lemma full_map_out_of_bounds sb :
  find_block 2 (mkMap (OT_PRIM_UNIX, []) (replicate 992 5) (mkState [] {[5 := replicate 1024 FULL]} sb) ∅ ∅) (RMAP_BITMAP_BLOCKS - 1) RMAP_BITS_PAGE = None.
Proof. by vm_compute. Qed.

End RecordRefine.
