(* ===== verification/LSOBasicSymlink.v ===== *)
(** * LSOBasicSymlink: symbolic links of KFS, os/servers/kfs/LSOBasicSymlink.C, .H

    The value of a link is in its own record, in up to three records more, or in a
    block, as its length demands.

    The members of the union of the three are fields of their own, as the length says
    which one is used.  [pad] is what the array cutValue held before, [slow] the
    contents of the blocks of links, which the block cache has beside those of the
    record map.  Flushing and locks are left out. *)

From stdpp Require Import base numbers option gmap list.
From S2P Require Import K42 Prelude DirBlock SuperBlock PSOSmall PSOFile PSOTruncate RecordMap RecordRefine.

Module LSOBasicSymlink.

Import DirBlock SuperBlock PSOSmall PSOFile PSOTruncate RecordMap RecordRefine.

Definition ENAMETOOLONG : Z := 36.
Definition OT_SYMLINK_EXT : Z := 22.
Definition LSO_RECORD_MISC_SPACE : Z := 28.
Definition FAST_SYMLINK_SIZE : Z := LSO_RECORD_MISC_SPACE.
Definition MED_SYMLINK_SIZE : Z := FAST_SYMLINK_SIZE / 4 * KFS_RECORD_SIZE.

Record slink := mkLink { id : Z; st_size : Z; st_nlink : Z; value : list Z; ext : list Z; blkno : Z }.

(** tassertMsg(i < 3) *)
Definition getObjTokenID (ext : list Z) (i : Z) : option Z := _ ← assertK (i <? 3); ext !! Z.to_nat i.
Definition setObjTokenID (ext : list Z) (tmp i : Z) : option (list Z) := _ ← assertK (i <? 3); Some (<[Z.to_nat i := tmp]> ext).

(** The bytes [lo, lo + size) of [l]; [None] if there are fewer. *)
Definition bytes (l : list Z) (lo size : Z) : option (list Z) :=
  if (0 <=? size) && (lo + size <=? Z.of_nat (length l)) then Some (take (Z.to_nat size) (drop (Z.to_nat lo) l)) else None.
Definition memcpy (dst : list Z) (off : Z) (src : list Z) : option (list Z) :=
  if off + Z.of_nat (length src) <=? Z.of_nat (length dst) then Some (take (Z.to_nat off) dst ++ src ++ drop (Z.to_nat off + length src) dst) else None.

(** for (i = 0; i < nrec; i++), for [k] records from [i] on. *)
Fixpoint put_records (k : nat) (m : rmap) (ext : list Z) (linkValue pad : list Z) (sz i : Z) (junk : list record) : option (list Z * rmap) :=
  match k with
  | O => Some (ext, m)
  | S k =>
      '(tmp, m) ← allocRecord m OT_SYMLINK_EXT junk;
      ext ← setObjTokenID ext tmp i;
      let size := if sz <? KFS_RECORD_SIZE * (i + 1) then sz - KFS_RECORD_SIZE * i else KFS_RECORD_SIZE in
      cut ← bytes linkValue (KFS_RECORD_SIZE * i) size;
      cutValue ← memcpy pad 0 cut;
      t ← getObjTokenID ext i;
      m ← setRecord m t cutValue junk;
      put_records k m ext linkValue pad sz (i + 1) junk
  end.

Definition initAttribute (m : rmap) (slow : gmap Z (list Z)) (lso : slink) (linkValue pad : list Z) (junk : list record) : option (Z * slink * rmap * gmap Z (list Z)) :=
  let sz := Z.of_nat (length linkValue) in
  let lso := mkLink (id lso) sz 0 (value lso) (ext lso) (blkno lso) in
  if sz <=? FAST_SYMLINK_SIZE then
    v ← memcpy (value lso) 0 linkValue;
    Some (0, mkLink (id lso) sz 0 v (ext lso) (blkno lso), m, slow)
  else if sz <=? MED_SYMLINK_SIZE then
    '(ext, m) ← put_records (Z.to_nat ((sz + KFS_RECORD_SIZE) / KFS_RECORD_SIZE)) m (ext lso) linkValue pad sz 0 junk;
    Some (0, mkLink (id lso) sz 0 (value lso) ext (blkno lso), m, slow)
  else if sz <=? OS_BLOCK_SIZE then
    '(b, sb) ← allocBlock (super (pso m));
    Some (0, mkLink (id lso) sz 0 (value lso) (ext lso) b, set_pso m (mkState (dBlk (pso m)) (cache (pso m)) sb), <[b := linkValue]> slow)
  else Some (_SERROR 2768 0 ENAMETOOLONG, lso, m, slow).

Fixpoint get_records (k : nat) (m : rmap) (ext : list Z) (buffer : list Z) (linkSize buflen i : Z) (junk : list record) : option (list Z) :=
  match k with
  | O => Some buffer
  | S k =>
      t ← getObjTokenID ext i;
      cutValue ← getRecord m t junk;
      let size := if linkSize <? KFS_RECORD_SIZE * (i + 1) then buflen - KFS_RECORD_SIZE * i else KFS_RECORD_SIZE in
      cut ← bytes cutValue 0 size;
      buffer ← memcpy buffer (KFS_RECORD_SIZE * i) cut;
      get_records k m ext buffer linkSize buflen (i + 1) junk
  end.

(** [buffer] has [buflen] bytes. *)
Definition readlink (m : rmap) (slow : gmap Z (list Z)) (lso : slink) (buffer : list Z) (junk : list record) : option (Z * list Z) :=
  let linkSize := st_size lso in
  let buflen := Z.of_nat (length buffer) in
  let buflen := if linkSize <? buflen then linkSize else buflen in
  if linkSize <=? FAST_SYMLINK_SIZE then
    v ← bytes (value lso) 0 buflen; buffer ← memcpy buffer 0 v; Some (linkSize, buffer)
  else if linkSize <=? MED_SYMLINK_SIZE then
    buffer ← get_records (Z.to_nat ((buflen + KFS_RECORD_SIZE) / KFS_RECORD_SIZE)) m (ext lso) buffer linkSize buflen 0 junk; Some (linkSize, buffer)
  else if linkSize <=? OS_BLOCK_SIZE then
    blk ← slow !! blkno lso; v ← bytes blk 0 buflen; buffer ← memcpy buffer 0 v; Some (linkSize, buffer)
  else None.

Fixpoint free_records (k : nat) (m : rmap) (ext : list Z) (i : Z) : option rmap :=
  match k with
  | O => Some m
  | S k => t ← getObjTokenID ext i; '(_, m) ← freeRecord m t; free_records k m ext (i + 1)
  end.

(** A link that still has names fails an assertion. *)
Definition deleteFile (m : rmap) (slow : gmap Z (list Z)) (lso : slink) : option (Z * rmap * gmap Z (list Z)) :=
  let linkSize := st_size lso in
  if negb (st_nlink lso =? 0) then _ ← assertK false; Some (-1, m, slow)
  else
    '(m, slow) ← (if FAST_SYMLINK_SIZE <? linkSize then
           if linkSize <=? MED_SYMLINK_SIZE then m ← free_records (Z.to_nat ((linkSize + KFS_RECORD_SIZE) / KFS_RECORD_SIZE)) m (ext lso) 0; Some (m, slow)
           else if linkSize <=? OS_BLOCK_SIZE then
             '(_, sb, c) ← freeBlock (cache (pso m)) (super (pso m)) (blkno lso);
             Some (set_pso m (mkState (dBlk (pso m)) c sb), forget slow (blkno lso))
           else Some (m, slow)
         else Some (m, slow));
    '(_, m) ← freeRecord m (id lso);
    Some (0, m, slow).

(** ** Pieces of a value *)

Definition chunk (v : list Z) (i : nat) : list Z := take 124 (drop (124 * i) v).
Definition piece (v pad : list Z) (i : nat) : list Z := chunk v i ++ drop (length (chunk v i)) pad.

Lemma length_chunk v i : length (chunk v i) = Nat.min 124 (length v - 124 * i).
Proof. unfold chunk. by rewrite length_take, length_drop. Qed.

Lemma bytes_ok l lo size : 0 <= lo -> 0 <= size -> lo + size <= Z.of_nat (length l) -> bytes l lo size = Some (take (Z.to_nat size) (drop (Z.to_nat lo) l)).
Proof. intros H1 H2 H3. unfold bytes. by rewrite (proj2 (Z.leb_le _ _)), (proj2 (Z.leb_le _ _)) by lia. Qed.

Lemma memcpy_ok dst off src : off + Z.of_nat (length src) <= Z.of_nat (length dst) -> memcpy dst off src = Some (take (Z.to_nat off) dst ++ src ++ drop (Z.to_nat off + length src) dst).
Proof. intros H. unfold memcpy. by rewrite (proj2 (Z.leb_le _ _)) by lia. Qed.

(** The size of a piece. *)
Lemma piece_size v (i : nat) : (124 * i <= length v)%nat ->
  (if Z.of_nat (length v) <? KFS_RECORD_SIZE * (Z.of_nat i + 1) then Z.of_nat (length v) - KFS_RECORD_SIZE * Z.of_nat i else KFS_RECORD_SIZE) = Z.of_nat (length (chunk v i)).
Proof. intros Hi. rewrite length_chunk. change KFS_RECORD_SIZE with 124. destruct (Z.ltb_spec (Z.of_nat (length v)) (124 * (Z.of_nat i + 1))); lia. Qed.

Lemma piece_bytes v (i : nat) : (124 * i <= length v)%nat -> bytes v (KFS_RECORD_SIZE * Z.of_nat i) (Z.of_nat (length (chunk v i))) = Some (chunk v i).
Proof.
  intros Hi. change KFS_RECORD_SIZE with 124. rewrite bytes_ok by (rewrite ?length_chunk; lia). f_equal. rewrite Nat2Z.id. replace (Z.to_nat (124 * Z.of_nat i)) with (124 * i)%nat by lia.
  rewrite length_chunk. unfold chunk. rewrite <- length_drop, Nat.min_comm. destruct (decide (length (drop (124 * i) v) <= 124)%nat); [rewrite !take_ge by lia; done|by rewrite Nat.min_r by lia].
Qed.

Lemma piece_made v pad i : length pad = 124%nat -> memcpy pad 0 (chunk v i) = Some (piece v pad i).
Proof. intros Hp. rewrite memcpy_ok by (rewrite length_chunk; lia). done. Qed.

Lemma piece_read v pad i : bytes (piece v pad i) 0 (Z.of_nat (length (chunk v i))) = Some (chunk v i).
Proof. rewrite bytes_ok by (unfold piece; rewrite ?length_app; lia). rewrite Nat2Z.id. change (Z.to_nat 0) with 0%nat. rewrite drop_0. unfold piece. by rewrite take_app_length. Qed.

(** What a buffer holds after [i] pieces. *)
Definition filled (v buf : list Z) (i : nat) : list Z := take (124 * i) v ++ drop (Nat.min (124 * i) (length v)) buf.

Lemma filled_next v buf i : (124 * i <= length v)%nat -> (length v <= length buf)%nat -> memcpy (filled v buf i) (KFS_RECORD_SIZE * Z.of_nat i) (chunk v i) = Some (filled v buf (S i)).
Proof.
  intros Hi Hb. change KFS_RECORD_SIZE with 124. unfold filled. assert (Ht : length (take (124 * i) v) = (124 * i)%nat) by (rewrite length_take; lia).
  rewrite memcpy_ok by (rewrite length_app, length_drop, Ht, length_chunk; lia). replace (Z.to_nat (124 * Z.of_nat i)) with (124 * i)%nat by lia. f_equal.
  rewrite <- Ht at 1. rewrite take_app_length. rewrite drop_app_ge by lia. rewrite Ht, drop_drop, app_assoc. f_equal.
  - replace (124 * S i)%nat with (124 * i + 124)%nat by lia. unfold chunk. by rewrite take_take_drop.
  - f_equal. rewrite length_chunk. lia.
Qed.

(** ** Links in records *)

Section links.
Context (n nb r : Z) (used0 : gset Z) (junk : list record).
Hypothesis Hjunk : length junk = 32%nat.

(** A new record of the given contents. *)
Lemma add_record m M used K c :
  Good n nb r m M used0 used K -> Z.of_nat (size used) + 13 <= n -> K < 131072 ->
  exists t m1 m2 used', allocRecord m OT_SYMLINK_EXT junk = Some (t, m1) /\ setRecord m1 t c junk = Some m2 /\
    Good n nb r m2 (<[t := (OT_SYMLINK_EXT, c)]> M) used0 used' (K + 1) /\ Z.of_nat (size used') <= Z.of_nat (size used) + 13 /\ (t ∉ dom M).
Proof.
  intros HG Hsz HK. destruct (alloc_record n nb r m M used0 used K OT_SYMLINK_EXT junk HG Hjunk ltac:(lia) HK) as (a & m1 & M1 & used1 & E & HG1 & Hs1 & Hf & _).
  cbn [exec] in E. destruct (allocRecord m OT_SYMLINK_EXT junk) as [[t m1']|] eqn:Ea; [|done]. cbn [mbind option_bind] in E. injection E as <- <-. destruct Hf as (t' & c' & [= <-] & _ & Hn & _ & -> & _).
  destruct (change_step n nb r m1' _ used0 used1 (K + 1) t (fun x => (x.1, c)) junk HG1) as (m2 & x & used2 & E2 & Hx & HG2 & Hs2 & _); [rewrite dom_insert_L; set_solver|done|lia|].
  rewrite lookup_insert_eq in Hx. injection Hx as <-. simpl in HG2. rewrite insert_insert_eq in HG2. exists t, m1', m2, used2. split_and!; try done; [lia|]. by apply not_elem_of_dom.
Qed.

Lemma put_spec v pad k : forall m M used K ext (i : nat),
  Good n nb r m M used0 used K -> Z.of_nat (size used) + 13 * Z.of_nat k <= n -> K + Z.of_nat k <= 131072 -> length pad = 124%nat ->
  length ext = 3%nat -> (i + k <= 3)%nat -> (124 * (i + k) <= length v + 124)%nat ->
  exists ext' m' ids M' used', put_records k m ext v pad (Z.of_nat (length v)) (Z.of_nat i) junk = Some (ext', m') /\ Good n nb r m' M' used0 used' (K + Z.of_nat k) /\
    Z.of_nat (size used') <= Z.of_nat (size used) + 13 * Z.of_nat k /\ length ids = k /\ NoDup ids /\ (forall t, t ∈ ids -> t ∉ dom M) /\ length ext' = 3%nat /\
    (forall j, (j < i)%nat -> ext' !! j = ext !! j) /\ (forall j t, ids !! j = Some t -> ext' !! (i + j)%nat = Some t /\ M' !! t = Some (OT_SYMLINK_EXT, piece v pad (i + j))) /\
    forall x, x ∉ ids -> M' !! x = M !! x.
Proof.
  induction k as [|k IH]; intros m M used K ext0 i HG Hsz HK Hpad Hext Hi Hv; cbn [put_records].
  - exists ext0, m, [], M, used. rewrite Z.add_0_r. split_and!; try done; [lia|apply NoDup_nil_2|by intros t []%elem_of_nil].
  - destruct (add_record m M used K (piece v pad i) HG ltac:(lia) ltac:(lia)) as (t & m1 & m2 & used1 & -> & E2 & HG2 & Hs2 & Hnew). cbn [mbind option_bind].
    unfold setObjTokenID, getObjTokenID. rewrite (proj2 (Z.ltb_lt (Z.of_nat i) 3)) by lia. cbn [mbind option_bind assertK]. rewrite piece_size, piece_bytes by lia. cbn [mbind option_bind]. rewrite piece_made by done. cbn [mbind option_bind].
    rewrite Nat2Z.id, list_lookup_insert_eq by lia. cbn [mbind option_bind]. rewrite E2. cbn [mbind option_bind]. replace (Z.of_nat i + 1) with (Z.of_nat (S i)) by lia.
    destruct (IH m2 _ used1 (K + 1) (<[i := t]> ext0) (S i) HG2 ltac:(lia) ltac:(lia) Hpad ltac:(by rewrite length_insert) ltac:(lia) ltac:(lia)) as (ext' & m' & ids & M' & used' & -> & HG' & Hs' & Hlen & Hnd & Hids & He & Hlow & Hat & Hoth).
    assert (Ht : t ∉ ids) by (intros Ht; apply (Hids t Ht); rewrite dom_insert_L; set_solver).
    exists ext', m', (t :: ids), M', used'. split; [done|]. split; [by replace (K + Z.of_nat (S k)) with (K + 1 + Z.of_nat k) by lia|]. split; [lia|]. split; [simpl; lia|]. split; [by apply NoDup_cons|].
    split; [intros x [->|Hx]%elem_of_cons; [done|]; intros Hd; apply (Hids x Hx); rewrite dom_insert_L; set_solver|]. split; [done|]. split; [intros j Hj; rewrite Hlow by lia; by rewrite list_lookup_insert_ne by lia|]. split.
    + intros [|j] x Hx; simpl in Hx.
      * injection Hx as <-. rewrite Nat.add_0_r, Hlow, list_lookup_insert_eq by lia. split; [done|]. by rewrite Hoth, lookup_insert_eq by done.
      * replace (i + S j)%nat with (S i + j)%nat by lia. by apply Hat.
    + intros x [Hxt Hx]%not_elem_of_cons. rewrite Hoth by done. by rewrite lookup_insert_ne.
Qed.

Lemma get_spec v pad m M used K ext buf k : forall (i : nat),
  Good n nb r m M used0 used K -> (length v <= length buf)%nat -> (i + k <= 3)%nat -> (124 * (i + k) <= length v + 124)%nat ->
  (forall j, (i <= j < i + k)%nat -> exists t, ext !! j = Some t /\ M !! t = Some (OT_SYMLINK_EXT, piece v pad j)) ->
  get_records k m ext (filled v buf i) (Z.of_nat (length v)) (Z.of_nat (length v)) (Z.of_nat i) junk = Some (filled v buf (i + k)).
Proof.
  induction k as [|k IH]; intros i HG Hb Hi Hv Hat; cbn [get_records]; [by rewrite Nat.add_0_r|].
  destruct (Hat i ltac:(lia)) as (t & Ht & HM). unfold getObjTokenID. rewrite (proj2 (Z.ltb_lt (Z.of_nat i) 3)) by lia. cbn [mbind option_bind assertK]. rewrite Nat2Z.id, Ht. cbn [mbind option_bind].
  destruct HG as (bms & ts & used1 & c & HR & Hsub). unfold getRecord. rewrite (read_record _ _ _ _ _ _ _ _ _ _ _ _ HR t _ junk HM). cbn [mbind option_bind snd].
  rewrite piece_size, piece_read by lia. cbn [mbind option_bind]. rewrite filled_next by lia. cbn [mbind option_bind]. replace (Z.of_nat i + 1) with (Z.of_nat (S i)) by lia. replace (i + S k)%nat with (S i + k)%nat by lia.
  apply IH; [by exists bms, ts, used1, c|lia|lia|lia|]. intros j Hj. apply Hat. lia.
Qed.

Lemma drop_records ext ids : forall m M used K (i : nat),
  Good n nb r m M used0 used K -> NoDup ids -> (forall t, t ∈ ids -> t ∈ dom M /\ t <> 0) -> (i + length ids <= 3)%nat -> (forall j t, ids !! j = Some t -> ext !! (i + j)%nat = Some t) ->
  exists m' M' used', free_records (length ids) m ext (Z.of_nat i) = Some m' /\ Good n nb r m' M' used0 used' K /\ Z.of_nat (size used') <= Z.of_nat (size used) /\
    (forall x, x ∈ ids -> M' !! x = None) /\ forall x, x ∉ ids -> M' !! x = M !! x.
Proof.
  induction ids as [|t ids IH]; intros m M used K i HG Hnd Hin Hi Hat; cbn [free_records length] in *; [exists m, M, used; split_and!; try done; by intros x []%elem_of_nil|].
  unfold getObjTokenID. rewrite (proj2 (Z.ltb_lt (Z.of_nat i) 3)) by lia. cbn [mbind option_bind assertK]. pose proof (Hat 0%nat t eq_refl) as Ht. rewrite Nat.add_0_r in Ht. rewrite Nat2Z.id, Ht. cbn [mbind option_bind].
  destruct (Hin t) as [Htd Ht0]; [left|]. apply NoDup_cons in Hnd as [Hnt Hnd]. destruct HG as (bms & ts & used1 & c & HR & Hsub).
  destruct (free_number n nb r _ _ _ _ _ _ _ _ _ t HR Htd Ht0) as (m1 & bms1 & ts1 & used2 & c1 & -> & HR1 & Hs1). cbn [mbind option_bind]. rewrite <- dom_delete_L in HR1. replace (Z.of_nat i + 1) with (Z.of_nat (S i)) by lia.
  destruct (IH m1 (delete t M) used2 K (S i)) as (m' & M' & used' & -> & HG' & Hs' & Hg & Ho); [by exists bms1, ts1, used1, c1|done| |lia| |].
  { intros x Hx. destruct (Hin x) as [Hd H0]; [by right|]. split; [|done]. rewrite dom_delete_L. apply elem_of_difference. split; [done|]. intros ->%elem_of_singleton. done. }
  { intros j x Hx. replace (S i + j)%nat with (i + S j)%nat by lia. by apply (Hat (S j)). }
  exists m', M', used'. split; [done|]. split; [done|]. split; [lia|]. split.
  - intros x [->|Hx]%elem_of_cons; [|by apply Hg]. rewrite Ho by done. apply lookup_delete_eq.
  - intros x [Hxt Hx]%not_elem_of_cons. rewrite Ho by done. by rewrite lookup_delete_ne.
Qed.

(** ** Links in a block *)

(** The super block changes, and the cache, for blocks that are not of the file. *)
Lemma super_change m A M bms ts used1 used c K sb c' U1 U :
  RInv n nb r m A M bms ts used1 used c K -> Inv sb U n nb r -> (forall x, x ∈ used -> c' !! x = cache (pso m) !! x) -> U = U1 ∪ list_to_set (ownedAll lvl ts) -> (forall x, x ∈ ownedAll lvl ts -> x ∉ U1) ->
  (forall i b, bitmap m !! i = Some b -> b <> 0 -> b ∈ U1) ->
  RInv n nb r (set_pso m (mkState (dBlk (pso m)) c' sb)) A M bms ts U1 U c' K.
Proof.
  intros [H1 H2 H3 H4 H5 H6 H7 H8 H9 H10] HI Hc HU Hown Hbm. destruct H1 as [F1 F2 F3 F4 F5 F6 F7]. split; simpl; try done.
  - split; simpl; try done.
    + apply (slots_frame lvl (cache (pso m))); [done|]. intros x Hx. apply Hc. rewrite F6. apply elem_of_union_r, elem_of_list_to_set, Hx.
    + intros x Hx. split; [by apply Hown|]. by apply F5.
  - apply (maps_frame m); [done|done|]. intros i b Hb Hb0. simpl. apply Hc. rewrite F6. apply elem_of_union_l. by apply (H3 i).
Qed.

Lemma take_block m A M bms ts used1 used c K :
  RInv n nb r m A M bms ts used1 used c K -> Z.of_nat (size used) < n ->
  exists b sb, allocBlock (super (pso m)) = Some (b, sb) /\ (b ∉ used) /\
    RInv n nb r (set_pso m (mkState (dBlk (pso m)) (cache (pso m)) sb)) A M bms ts ({[b]} ∪ used1) ({[b]} ∪ used) (cache (pso m)) K /\
    exists sb', freeBlock (cache (pso m)) sb b = Some (0, sb', forget (cache (pso m)) b) /\
      RInv n nb r (set_pso m (mkState (dBlk (pso m)) (forget (cache (pso m)) b) sb')) A M bms ts used1 used (forget (cache (pso m)) b) K.
Proof.
  intros HR Hsz. pose proof (r_file _ _ _ _ _ _ _ _ _ _ _ _ HR) as HF. pose proof (i_used _ _ _ _ _ _ _ _ HF) as HU. destruct (alloc_room n nb r _ used (i_ok _ _ _ _ _ _ _ _ HF) Hsz) as (b & sb & E & HI & Hb & Hr & _).
  exists b, sb. split; [done|]. split; [done|]. split.
  - apply (super_change m A M bms ts used1 used c K sb _ _ _ HR HI); [done|..].
    + rewrite HU at 1. by rewrite union_assoc_L.
    + intros x Hx. destruct (i_own _ _ _ _ _ _ _ _ HF x Hx) as [Hn _]. rewrite elem_of_union, elem_of_singleton. intros [->|?]; [|done]. apply Hb. rewrite HU. apply elem_of_union_r, elem_of_list_to_set, Hx.
    + intros i x Hx Hx0. apply elem_of_union_r. by apply (r_others _ _ _ _ _ _ _ _ _ _ _ _ HR i).
  - destruct (free_exact (cache (pso m)) _ _ _ _ _ b HI Hr ltac:(by apply elem_of_union_l, elem_of_singleton)) as (sb' & -> & HI'). exists sb'. split; [done|].
    replace (({[b]} ∪ used) ∖ {[b]}) with used in HI' by (apply set_eq; intros x; rewrite elem_of_difference, elem_of_union, elem_of_singleton; split; [intros Hx; split; [by right|]; intros ->; done|tauto]).
    apply (super_change m A M bms ts used1 used c K sb' _ _ _ HR HI'); [intros x Hx; unfold forget; rewrite lookup_delete_ne; [done|]; by intros ->|done|intros x Hx; by apply (i_own _ _ _ _ _ _ _ _ HF)|apply HR].
Qed.

(** ** Making, reading and deleting a link *)

Definition linkOk (lso : slink) (v pad : list Z) : Prop :=
  length (value lso) = 28%nat /\ length (ext lso) = 3%nat /\ length pad = 124%nat /\ ((length v <= 371)%nat \/ (868 < length v <= 4096)%nat).

(** A link works: it is made by [init], can be read, and gives all back. *)
Definition works (m : rmap) (M : gmap Z record) (used : gset Z) (K : Z) (slow : gmap Z (list Z)) (lso : slink) (v pad : list Z) : Prop :=
  exists lso' m' slow', initAttribute m slow lso v pad junk = Some (0, lso', m', slow') /\
    (forall buf, (length v <= length buf)%nat -> readlink m' slow' lso' buf junk = Some (Z.of_nat (length v), v ++ drop (length v) buf)) /\
    exists m'' slow'' used'' K'', deleteFile m' slow' lso' = Some (0, m'', slow'') /\ slow'' ⊆ slow /\ Good n nb r m'' (delete (id lso) M) used0 used'' K'' /\ Z.of_nat (size used'') <= Z.of_nat (size used) + 39 /\ K'' <= K + 3.

Lemma own_record m M used K i : Good n nb r m M used0 used K -> i ∈ dom M -> i <> 0 ->
  exists m' used', freeRecord m i = Some (0, m') /\ Good n nb r m' (delete i M) used0 used' K /\ Z.of_nat (size used') <= Z.of_nat (size used).
Proof.
  intros (bms & ts & used1 & c & HR & Hsub) Hi H0. destruct (free_number n nb r _ _ _ _ _ _ _ _ _ i HR Hi H0) as (m' & bms' & ts' & used' & c' & E & HR' & Hs).
  exists m', used'. split; [done|]. split; [|done]. exists bms', ts', used1, c'. by rewrite dom_delete_L.
Qed.

Lemma memcpy_whole dst src : (length src <= length dst)%nat -> memcpy dst 0 src = Some (src ++ drop (length src) dst).
Proof. intros H. by rewrite memcpy_ok by lia. Qed.

Lemma bytes_prefix v w : bytes (v ++ w) 0 (Z.of_nat (length v)) = Some v.
Proof. rewrite bytes_ok by (rewrite ?length_app; lia). change (Z.to_nat 0) with 0%nat. by rewrite drop_0, Nat2Z.id, take_app_length. Qed.

Lemma buflen_whole (v buf : list Z) : (length v <= length buf)%nat -> (if Z.of_nat (length v) <? Z.of_nat (length buf) then Z.of_nat (length v) else Z.of_nat (length buf)) = Z.of_nat (length v).
Proof. intros H. destruct (Z.ltb_spec (Z.of_nat (length v)) (Z.of_nat (length buf))); lia. Qed.

Section life.
Context (m : rmap) (M : gmap Z record) (used : gset Z) (K : Z) (slow : gmap Z (list Z)) (lso : slink) (v pad : list Z).
Hypothesis HG : Good n nb r m M used0 used K.
Hypothesis HL : linkOk lso v pad.
Hypothesis Hid : id lso ∈ dom M.
Hypothesis Hid0 : id lso <> 0.
Hypothesis Hsz : Z.of_nat (size used) + 39 <= n.
Hypothesis HK : K + 3 <= 131072.

Lemma works_fast : (length v <= 28)%nat -> works m M used K slow lso v pad.
Proof.
  intros Hv. destruct HL as (L1 & _). unfold works, initAttribute, readlink, deleteFile. rewrite (proj2 (Z.leb_le _ FAST_SYMLINK_SIZE)) by (unfold FAST_SYMLINK_SIZE, LSO_RECORD_MISC_SPACE; lia).
  cbn [value]. rewrite memcpy_whole by lia. cbn [mbind option_bind]. do 3 eexists. split; [done|]. cbn [st_size value st_nlink id]. rewrite (proj2 (Z.leb_le _ FAST_SYMLINK_SIZE)), (proj2 (Z.ltb_ge FAST_SYMLINK_SIZE _)) by (unfold FAST_SYMLINK_SIZE, LSO_RECORD_MISC_SPACE; lia). split.
  - intros buf Hb. rewrite buflen_whole, bytes_prefix by lia. cbn [mbind option_bind]. rewrite memcpy_whole by done. done.
  - cbn [Z.eqb negb mbind option_bind]. destruct (own_record m M used K (id lso) HG Hid Hid0) as (m' & used' & -> & HG' & Hs). cbn [mbind option_bind]. exists m', slow, used', K. split_and!; try done; lia.
Qed.

Lemma works_slow : (868 < length v <= 4096)%nat -> works m M used K slow lso v pad.
Proof.
  intros Hv. unfold works, initAttribute, readlink, deleteFile. assert (HF : FAST_SYMLINK_SIZE = 28 /\ MED_SYMLINK_SIZE = 868 /\ OS_BLOCK_SIZE = 4096) by done. destruct HF as (-> & -> & ->).
  rewrite (proj2 (Z.leb_gt _ 28)), (proj2 (Z.leb_gt _ 868)), (proj2 (Z.leb_le _ 4096)) by lia. destruct HG as (bms & ts & used1 & c & HR & Hsub).
  destruct (take_block m _ _ _ _ _ _ _ _ HR ltac:(lia)) as (b & sb & -> & Hb & _ & sb' & E' & HR'). cbn [mbind option_bind]. do 3 eexists. split; [done|]. cbn [st_size value st_nlink id blkno].
  rewrite (proj2 (Z.leb_gt _ 28)), (proj2 (Z.leb_gt _ 868)), (proj2 (Z.leb_le _ 4096)), (proj2 (Z.ltb_lt 28 _)) by lia. split.
  - intros buf Hbuf. rewrite lookup_insert_eq. cbn [mbind option_bind]. rewrite buflen_whole by done. rewrite <- (app_nil_r v) at 1. rewrite bytes_prefix. cbn [mbind option_bind]. by rewrite memcpy_whole.
  - cbn [Z.eqb negb mbind option_bind set_pso pso super dBlk cache]. rewrite E'. cbn [mbind option_bind]. change (set_pso (set_pso m _) _) with (set_pso m (mkState (dBlk (pso m)) (forget (cache (pso m)) b) sb')).
    destruct (own_record (set_pso m (mkState (dBlk (pso m)) (forget (cache (pso m)) b) sb')) M used K (id lso)) as (m' & used' & -> & HG' & Hs); [by exists bms, ts, used1, (forget (cache (pso m)) b)|done|done|]. cbn [mbind option_bind]. exists m', (forget (<[b := v]> slow) b), used', K. split_and!; try done; try lia. unfold forget. rewrite delete_insert_eq. apply delete_subseteq.
Qed.

Lemma works_med : (28 < length v <= 371)%nat -> works m M used K slow lso v pad.
Proof.
  intros Hv. destruct HL as (_ & L2 & L3 & _). unfold works, initAttribute, readlink, deleteFile. assert (HF : FAST_SYMLINK_SIZE = 28 /\ MED_SYMLINK_SIZE = 868) by done. destruct HF as (-> & ->).
  rewrite (proj2 (Z.leb_gt _ 28)), (proj2 (Z.leb_le _ 868)) by lia. cbn [ext]. set (k := Z.to_nat ((Z.of_nat (length v) + KFS_RECORD_SIZE) / KFS_RECORD_SIZE)).
  assert (Hk : (k <= 3 /\ 124 * k <= length v + 124 /\ length v < 124 * k)%nat). { unfold k. change KFS_RECORD_SIZE with 124. pose proof (Z.div_mod (Z.of_nat (length v) + 124) 124 ltac:(lia)). pose proof (Z.mod_pos_bound (Z.of_nat (length v) + 124) 124 ltac:(lia)). lia. }
  destruct (put_spec v pad k m M used K (ext lso) 0 HG ltac:(lia) ltac:(lia) L3 L2 ltac:(lia) ltac:(lia)) as (ext' & m' & ids & M' & used' & E & HG' & Hs & Hlen & Hnd & Hnew & He & _ & Hat & Hoth). change (Z.of_nat 0) with 0 in E. rewrite E. cbn [mbind option_bind].
  do 3 eexists. split; [done|]. cbn [st_size value st_nlink id ext]. rewrite (proj2 (Z.leb_gt _ 28)), (proj2 (Z.leb_le _ 868)), (proj2 (Z.ltb_lt 28 _)) by lia. fold k. split.
  - intros buf Hb. rewrite buflen_whole by done. fold k. change buf with (filled v buf 0) at 1. change 0 with (Z.of_nat 0). rewrite (get_spec v pad m' M' used' (K + Z.of_nat k)); try done; try lia.
    + cbn [mbind option_bind]. unfold filled. rewrite take_ge, Nat.min_r by lia. done.
    + intros j Hj. destruct (lookup_lt_is_Some_2 ids j) as [t Ht]; [lia|]. exists t. by apply Hat.
  - cbn [Z.eqb negb]. destruct HG as (bms & ts & used1 & c & HR & _). assert (H0 : 0 ∈ dom M) by (apply elem_of_dom; rewrite (r_zero _ _ _ _ _ _ _ _ _ _ _ _ HR); by eexists).
    destruct (drop_records ext' ids m' M' used' (K + Z.of_nat k) 0 HG' Hnd) as (m2 & M2 & used2 & E2 & HG2 & Hs2 & Hg & Ho); [|lia|intros j t Ht; by apply Hat|].
    { intros t Ht. split; [|intros ->; by apply (Hnew 0)]. apply list_elem_of_lookup in Ht as [j Hj]. destruct (Hat j t Hj) as [_ HMt]. by apply (elem_of_dom_2 M' t _ HMt). }
    rewrite Hlen in E2. change (Z.of_nat 0) with 0 in E2. rewrite E2. cbn [mbind option_bind].
    assert (HM : M2 = M). { apply map_eq. intros x. destruct (decide (x ∈ ids)) as [Hx|Hx]; [rewrite Hg by done; symmetry; apply not_elem_of_dom, Hnew, Hx|rewrite Ho by done; by apply Hoth]. }
    rewrite HM in HG2. destruct (own_record m2 M used2 _ (id lso) HG2 Hid Hid0) as (m3 & used3 & -> & HG3 & Hs3). cbn [mbind option_bind]. exists m3, slow, used3, (K + Z.of_nat k). split_and!; try done; lia.
Qed.

Lemma link_works : works m M used K slow lso v pad.
Proof.
  pose proof HL as (_ & _ & _ & Hv). destruct (decide (length v <= 28)%nat); [by apply works_fast|]. destruct (decide (length v <= 371)%nat); [apply works_med; lia|apply works_slow; lia].
Qed.

End life.

End links.

(** C12: The value of a symbolic link is kept.  A new record map is used by a sequence
    of fewer than 131068 operations, each on numbers in use and none freeing number 0 (the
    conditions of C11), on a disk with 42 free blocks and nine more for each operation.
    After that a link whose number is in use, and is not 0, is given a value of up to 371
    bytes, or of 869 to 4096 bytes (others fail an assertion, see
    medium_links_refused).  Reading it into a buffer that is long enough gives the value,
    with its length, and leaves the rest of the buffer (a shorter buffer may be
    overrun, see readlink_overflows).  Deleting the link, which has no names, gives back
    its number and all others it took: the next number taken is the lowest that was
    free before or that of the link, all other records are as they were, and of the
    blocks of links in the block cache none is left that was not there before. *)
Theorem symlink_roundtrip n nb r used0 c0 sb os slow lso v pad junk :
  Inv sb used0 n nb r -> allowed os {[0]} -> Z.of_nat (size used0) + 42 + 9 * Z.of_nat (length os) <= n -> Z.of_nat (length os) + 4 < 131072 ->
  linkOk lso v pad -> length junk = 32%nat -> id lso ∈ inUse os {[0]} -> id lso <> 0 ->
  exists blkno m0 l m lso' m' slow' m'' slow'', newRecordMap c0 sb = Some (blkno, m0) /\ run os m0 = Some (l, m) /\
    initAttribute m slow lso v pad junk = Some (0, lso', m', slow') /\
    (forall buf, (length v <= length buf)%nat -> readlink m' slow' lso' buf junk = Some (Z.of_nat (length v), v ++ drop (length v) buf)) /\
    deleteFile m' slow' lso' = Some (0, m'', slow'') /\ slow'' ⊆ slow /\
    fst <$> internal_allocRecord m'' = Some (lowestId (inUse os {[0]} ∖ {[id lso]})) /\
    forall q, q ∈ inUse os {[0]} -> q <> id lso -> readRecord m'' q junk = readRecord m q junk /\ is_Some (readRecord m q junk).
Proof.
  intros HI Ho Hsz Hlen HL Hj Hid Hid0. destruct (newRecordMap_good n nb r c0 sb used0 HI ltac:(lia)) as (blkno & m0 & used & E0 & HG0 & Hs0 & _).
  assert (Hd0 : dom firstRecord = ({[0]} : gset Z)) by (unfold firstRecord; by rewrite dom_singleton_L).
  destruct (record_run n nb r os m0 firstRecord used0 used 1 HG0) as (l & m & M & used1 & K & Er & HG & _ & Hd & Hs & HK); [by rewrite Hd0|lia|lia|]. rewrite Hd0 in Hd. rewrite <- Hd in Hid.
  destruct (link_works n nb r used0 junk Hj m M used1 K slow lso v pad HG HL Hid Hid0 ltac:(lia) ltac:(lia)) as (lso' & m' & slow' & Ei & Hread & m'' & slow'' & used2 & K2 & Ed & Hslow & (bms & ts & used3 & c & HR & Hsub) & Hs2 & HK2).
  exists blkno, m0, l, m, lso', m', slow', m'', slow''. split; [done|]. split; [done|]. split; [done|]. split; [done|]. split; [done|]. split; [done|]. rewrite <- Hd. split.
  - destruct (alloc_number n nb r _ _ _ _ _ _ _ _ _ HR ltac:(lia) ltac:(lia)) as (t & m3 & bms3 & u3 & u4 & c3 & -> & HR3 & _ & _ & Ht & Hnew & Hlow). simpl. f_equal. symmetry. rewrite <- dom_delete_L. by apply lowestId_eq.
  - intros q Hq Hne. apply elem_of_dom in Hq as [x Hx]. destruct HG as (bms1 & ts1 & u1 & c1 & HR1 & _). rewrite (read_record _ _ _ _ _ _ _ _ _ _ _ _ HR1 q x junk Hx). split; [|by eexists].
    apply (read_record _ _ _ _ _ _ _ _ _ _ _ _ HR). by rewrite lookup_delete_ne.
Qed.

(** A link of 200 bytes, after a file and the link have been given numbers. *)
Definition aLink : slink := mkLink 2 0 0 (replicate 28 0) [0; 0; 0] 0.
Definition aValue (k : nat) : list Z := replicate k 65.
Definition aPad : list Z := replicate 124 0.
Definition before : list op := [Alloc OT_LSO_BASIC page; Alloc OT_LSO_BASIC_LNK page].

Lemma symlink_roundtrip_witness :
  exists sb m0 l m lso' m' slow', formatDisk 5000 blankMap = Some (0, sb) /\ snd <$> newRecordMap ∅ sb = Some m0 /\ run before m0 = Some (l, m) /\
    initAttribute m ∅ aLink (aValue 200) aPad page = Some (0, lso', m', slow') /\
    readlink m' slow' lso' (replicate 300 1) page = Some (200, aValue 200 ++ replicate 100 1).
Proof.
  destruct (formatDisk_inv 5000 blankMap) as (sb & E & HI); [change LARGEST with 33030144; lia|by vm_compute|].
  assert (Hsz : Z.of_nat (size (disk (reserved 5000))) + 42 + 9 * Z.of_nat (length before) <= 5000) by (by vm_compute).
  assert (HL : linkOk aLink (aValue 200) aPad) by (split_and!; [done..|left; apply Nat.leb_le; by vm_compute]).
  assert (Hid : id aLink ∈ inUse before {[0]}) by (apply (bool_decide_unpack _); by vm_compute).
  destruct (symlink_roundtrip 5000 _ _ _ ∅ sb before ∅ aLink (aValue 200) aPad page HI ltac:(done) Hsz ltac:(by vm_compute) HL eq_refl Hid ltac:(done))
    as (blkno & m0 & l & m & lso' & m' & slow' & m'' & slow'' & En & Er & Ei & Hread & _).
  exists sb, m0, l, m, lso', m', slow'. split; [exact E|]. rewrite En. split; [done|]. split; [exact Er|]. split; [exact Ei|].
  rewrite (Hread (replicate 300 1)) by (apply Nat.leb_le; by vm_compute). by vm_compute.
Defined.

(** ** Where it goes wrong *)

Definition linkOf (k : nat) : option (slink * rmap * gmap Z (list Z)) :=
  '(_, sb) ← formatDisk 5000 blankMap; '(_, m) ← newRecordMap ∅ sb; '(_, m) ← run before m;
  '(_, lso, m, slow) ← initAttribute m ∅ aLink (aValue k) aPad page; Some (lso, m, slow).

(** Read into a buffer that is too short, a link in records is written past its end:
    the size of the last piece is chosen by the length of the link. *)
Lemma readlink_overflows :
  (x ← linkOf 200; '(_, m, slow) ← Some x; readlink m slow x.1.1 (replicate 100 1) page) = None /\
  (x ← linkOf 20; '(_, m, slow) ← Some x; readlink m slow x.1.1 (replicate 10 1) page) = Some (20, aValue 10) /\
  (x ← linkOf 900; '(_, m, slow) ← Some x; fst <$> readlink m slow x.1.1 (replicate 100 1) page) = Some 900.
Proof. split_and!; by vm_compute. Qed.

(** Values of 372 to 868 bytes need more numbers than there is room for. *)
Lemma medium_links_refused : linkOf 372 = None /\ linkOf 868 = None /\ linkOf 371 <> None /\ linkOf 869 <> None.
Proof. split_and!; by vm_compute. Qed.

End LSOBasicSymlink.
